(* ===== verification/_CoqProject ===== *)
-Q . S2P
Prelude.v
Float64.v
GoStrings.v
Model.v
Config.v
Regexp.v
GoText.v
Validate.v
ValidateFacts.v
Yaml.v
PlanGates.v
Plan.v
Samples.v
ConfigSamples.v
YamlFacts.v
PlanFacts.v
PlanSafety.v
PlanCapacity.v
GateHistory.v
Capacity.v
Errors.v
JobIndex.v
JobIndexFacts.v
Effects.v
Retry.v
Reconciler.v
Cadence.v
Step.v
RunSamples.v
ReconcilerFacts.v
StepFacts.v
StepSafety.v
Shutdown.v
Control.v
ControlFacts.v
FileSystem.v
Store.v
StoreFacts.v
JobDisk.v
Transport.v
TransportFacts.v
Interaction.v
ScaleSet.v
ScaleSetFacts.v
Evidence.v
Docker.v
DockerFacts.v
Artifacts.v
ArtifactsFacts.v
Watchdog.v
ControllerLoop.v
ControllerLoopFacts.v
Cli.v
CliFacts.v
Secret.v
SecretFacts.v
Redact.v
JsonLog.v
JsonLogFacts.v
Host.v
ExportNotices.v
Doctor.v
DoctorFacts.v
Locks.v
LocksFacts.v
Inspector.v
InspectorFacts.v
Telemetry.v
TelemetryFacts.v
WindowsSecurity.v
BitLocker.v
WindowsSecurityFacts.v
WindowsImport.v
WindowsHost.v
WindowsHostFacts.v
Logs.v
LogsFacts.v
Bootstrap.v
BootstrapFacts.v
Wiring.v
