(* ===== verification/Prelude.v ===== *)
(** * Verification of ci-runner

    ci-runner turns one Windows host into a pool of one-job GitHub Actions
    runners.  A controller process reconciles, every few seconds, what the
    operator wants (enabled, disabled, gaming), what GitHub's scale sets report
    (assigned jobs, acknowledged capacity) and what the host can afford (memory,
    CPU, power, Docker Desktop) into a plan: which worker containers to start
    and to remove, and how much capacity each message listener may advertise.
    The paths below are relative to src/internal.

    ** Parts and how they interact

    - The planner [controller/plan.go] is a pure function from one snapshot of
      everything observed to a plan.
    - The reconciler [controller/reconciler.go] gathers the snapshot through
      ports ([controller/ports.go]), plans, starts workers after a fresh
      admission check, polls every listener in parallel, retires workers, shuts
      the host down for gaming and stores a checkpoint.  Beside a poll run the
      cadence watcher [controller/poll_cadence.go] and, beside the whole step,
      the safety watcher; both may cancel the step, which then reruns.
    - Capacity transfers between pools are sequenced over two polls
      [controller/capacity_transition.go]; calls to GitHub are retried with
      backoff [controller/retry.go] by the kind of their error
      [scaleset/scaleset.go].
    - The job index [jobindex] keeps, on disk, which runner runs which job; the
      reconciler uses it to recognise busy workers.
    - The control plane [control/protocol.go, controller/control_handler.go,
      controller/force_stop.go] answers local clients, reserves and commits a
      shutdown, and stops workers by force; [controller/shutdown.go] drains.
      Requests arrive over a local pipe [control/transport.go], one connection
      each; the shutdown is committed after its acceptance was flushed.
    - The configuration [config/config.go] is a YAML document, checked for
      syntax the decoder would accept silently, decoded and validated; the
      reconciler is built from it.
    - The state store [state/store.go, state/fs] keeps the desired state, the
      observed state and the restart receipt in files that are replaced durably.
    - Behind two of the reconciler's ports are the scale-set client
      [scaleset/official.go], which keeps one message session per target, and
      the Docker runtime [runtime/docker, seccomp], which creates, inspects,
      stops and finalizes worker containers and reads their logs for resource
      evidence.  The artifact store [runtime/docker/artifacts.go,
      artifacts_audit.go] keeps what the finalizer collects and removes it by age
      and by total size.
    - The controller's process [app/controller_main.go] runs one step after the
      other under a watchdog, ends on a shutdown request, an interrupt, the end
      of its server or a streak of failures, and leaves a receipt for a restart;
      beside it the heartbeat watch [controller/goroutine_dump.go] dumps the
      goroutines of a stalled loop.
    - The user's tool [app/app.go, menu.go, force_stop.go, controller_restart.go,
      reboot.go] writes the desired state, asks the control plane, and restarts
      the controller once its exit and its receipt are proved.
    - On the host are the import and loading of the GitHub App key [secret], the
      structured log [host/json_log.go], and the adapter of Docker Desktop with
      the verification of gaming mode [host].  Behind their ports are adapters
      that call Windows: access-control lists, DPAPI, BitLocker and the removal
      of the plaintext key [secret/*_windows.go], trusted executables, Docker
      Desktop, WSL, process handles and monitors [host/*_windows.go].
    - Measurements and traces go to exporters [telemetry]; failed exports become
      notices in the log [telemetry/export_degraded.go].
    - Both processes start from the configuration argument [app/bootstrap.go] and
      refuse directories that are not private [app/path_security.go].  The
      tool's doctor [app/doctor.go, doctor_inspector.go, compatibility.go] reads
      everything and reports; its logs command [app/logs.go, logs_artifacts.go]
      shows, audits and purges logs and artifacts.

    ** Files

    - Prelude: 64-bit integers, Go maps with an unspecified [range] order
      ([MapRange]), counting, sorting, results, tactics and hints.
    - Float64: Go's float64 as IEEE binary64 ([SpecFloat]); GoStrings: what the
      sources use of strings, [strconv] and [filepath].
    - Model, Config: the records of model/model.go and config/config.go.
    - PlanGates, Plan: plan.go, gates and memory basis first, then [BuildPlan]
      as folds over its loops.  Samples: concrete inputs.
    - PlanFacts, PlanSafety, PlanCapacity: theorems on [BuildPlan].
      GateHistory: the gates over histories of observations.
    - Capacity: capacity_transition.go and the pure part of poll_cadence.go.
    - Errors: error trees, kinds and delays.  JobIndex, JobIndexFacts: the job
      index with a file system that may fail at every step.
    - Effects: the controller's ports as a type of calls and effectful code as
      programs (trees) over them, with interleaving of goroutines ([par]).
      Retry: [RetryValue] and the scale-set calls.  Reconciler: the state a
      step threads, admission, starts, retirement, registration checks, gaming
      shutdown.  Cadence: the two watchers.  Step: [step] and [Step] whole.
      RunSamples: an executable environment.
    - ReconcilerFacts, StepFacts, StepSafety: theorems on them.
    - Shutdown, Control, ControlFacts: shutdown.go and the control plane.
      Transport, TransportFacts: the server's connections, as steps that
      interleave, and the client.
    - Regexp, GoText: regular expressions by derivatives and the text functions
      the configuration uses.  Validate, ValidateFacts: [Config.Validate].  Yaml,
      YamlFacts: syntax trees with aliases on a heap, durations and sizes,
      [Load].  ConfigSamples: a configuration.
    - FileSystem: programs over files with unsynced contents and directory
      entries, faults and crashes.  Store, StoreFacts: durable replacement, the
      three documents and the quarantine, and their refinement of a register.
      JobDisk: the job index on such a disk, with its sidecar and its journal.
    - Interaction: programs over any type of calls, their runs, and lemmas that
      cut a run at an event.  ScaleSet, ScaleSetFacts: official.go over the calls
      of GitHub's client.  Evidence: resource_evidence.go and
      log_evidence.go.  Docker, DockerFacts: runtime.go and seccomp.go over
      Docker's calls.  Artifacts, ArtifactsFacts: artifacts.go and
      artifacts_audit.go over the file system, the job index and gzip.
    - Watchdog: the deadline of a step, and goroutine_dump.go.  ControllerLoop,
      ControllerLoopFacts: [runControllerLoop] with the shutdown and the exit
      code.  Cli, CliFacts: the commands of the tool, with the part of Go's flag
      package they use.
    - Secret, SecretFacts: secret.go.  Redact: the redaction of log values, with
      leftmost-first matching.  JsonLog, JsonLogFacts: the rest of json_log.go.
      Host: controller_desktop.go, gaming.go and the parsers of host.
      ExportNotices: telemetry/export_degraded.go.
    - Doctor, DoctorFacts: the checks of doctor.go with their texts and limits.
      Inspector, InspectorFacts: the local inspection, the compatibility manifest,
      the walk over private trees and the search for reparse points.
    - Locks, LocksFacts: the locks of the state directory, between goroutines and
      between processes, as a machine of interleaved steps with failing waits
      and dying threads and processes.
    - Telemetry, TelemetryFacts: telemetry.go and export.go: instruments,
      measurements and the provider built from the environment.
    - WindowsSecurity, BitLocker, WindowsSecurityFacts: the adapters of secret over
      the calls of Windows.  WindowsImport: [Import] on these adapters.
      WindowsHost, WindowsHostFacts: the adapters of host, and the host
      integration on them.
    - Logs, LogsFacts: the logs command.  Bootstrap, BootstrapFacts: the start of
      both processes, [RunControllerMain] and the release validation.
    - Wiring: [NewReconciler] and the agreement of configuration, reconciler and
      Docker runtime.

    ** What the theorems show

    A program's theorem quantifies over all its runs, so over every answer of
    GitHub, Docker, the host, the disk and the clock, every cancellation and
    every schedule of its goroutines.

    - The planner never removes a busy worker, advertises at most the host
      limit, funds every start without overflow, keeps every gate closed unless
      all inputs admit work, and stops the desktop only when drained.
    - The gates change only after full observation windows and reopen.
    - A capacity transfer never exposes a slot twice and converges; a
      checkpoint never claims an acknowledgement that was not given.
    - In a whole step every removal, start and host shutdown rests on answers
      given earlier in that step: the removed worker is one the step listed, and
      the planner's input of a start is pinned to what was read; a corrupt checkpoint suspends all of them;
      retries and retirements stay within their budgets; runner names are valid
      and never repeat; the safety watcher reacts to every change.
    - The job index only extends settled data, never drops a running job, stays
      loadable whatever write fails or crash happens, and its compaction ends; an
      update that changed something and reported success is found by every load
      after any crash.
    - Force stops are confirmed, shutdown signals are unique and irrevocable,
      and a shutdown succeeds only on a verified drain.
    - A configuration is accepted exactly when it is well formed; sizes are
      exact; the search for merge keys ends on cyclic documents.  What a
      constructed reconciler starts is accepted by the Docker runtime.
    - A file is old or new after any fault or crash, or withdrawn by a plan that
      withdraws failed writes; the plans of the repository meet the conditions
      of this theorem ([plan_ok]).  The desired state refines
      an atomic register, and a quarantine loses nothing.
    - A shutdown signal follows a flushed acceptance, an accepted shutdown is
      carried out when request IDs are fresh, and a restart is bound to the
      controller that was inspected.
    - Messages are acknowledged after their events were persisted, cursors move
      only over handled messages, scale sets are created once, and a runner
      counts as gone only when GitHub says so.
    - A start leaves no ambiguous container, the runner's secret reaches only the
      started container, idle workers are confirmed twice before a stop, and a
      container is removed only after its log, by a goroutine interleaved with
      the finalizer, and its artifacts were stored.
    - Stored logs are the output or its marked beginning, a record is finalized
      only over verified files, and retention removes a file only when nothing
      refers to it or its closed record is expired or the files left still
      exceed the cap.
    - The controller loop never overlaps steps or drains, gives up after exactly
      twenty blocking failures, and its restart receipt proves a drain; the
      deadline of a step is the exact, saturated sum; each stall is dumped once.
    - The tool starts the controller's task only with the receipt, reboots only
      after a clean exit unless forced, and stops workers by force only when the
      operator typed so over the list that was shown.
    - The plaintext key is removed only after the protected copy was proved, an
      import never loses both copies, and an imported key loads again.
    - Redacted log values hold no GitHub token; log files stay bounded, cleanup
      meets its cap and spares the current file, and the log's queue delivers
      every accepted event once and in order.
    - Gaming mode and changes of Docker Desktop are reported only as observed;
      failed telemetry exports are reported exactly as a machine of outage
      episodes prescribes.
    - The state lock has one holder at a time across goroutines, threads and
      processes, a token given back never blocks, and the lock can always be
      freed again, whatever failed or died.
    - On Windows the import marks the key it read for deletion only after the
      copy was proved on a protected volume; the check of an access-control list
      passes exactly the private ones; the host runs only trusted executables
      with known arguments, and confirms gaming mode by what the tools said while
      the context of each query was alive.
    - The controller's process builds nothing before its directories are
      verified, and releases all it built whatever fails.
    - A clean exit of the doctor is a proof of health and an inspection without
      fault a proof about the host; its walk over a tree ends.
    - The gauges of a snapshot are its counts.
    - Some theorems record behaviour that differs from the documents or is not
      intended: a start beyond the host limit while idle workers drain, the
      watcher withdrawing capacity the planner has just advertised, the delay
      overflow at the largest duration, a repeated request that claims a
      restart, a duplicate request that loses a shutdown, the CPU limit whose
      nanoseconds overflow, the attempt budget that wraps, a degraded drain that
      hides a failed close, a purge that ignores an unreadable journal, a secret
      after a colon that is redacted only from its first equals sign on, a log
      event that truncation cannot save, a gauge that reports zero where it is
      documented as omitted, a relative configuration path taken from the
      environment, and a repeated update of the job index that succeeds without
      the flush that failed before.

    ** Parameters

    Code outside the repository is an argument, as a class or a function:
    [MapRange] (the order of map iteration), [URLs] and [Unicode] (URL parsing,
    case folding), [YAML] (the decoder), [JSON], [WireJSON] and [EvidenceText]
    (JSON encodings), [Platform] and [FilePath] (what survives a crash, path
    joins), [Vendor] and [Errdefs] (errors of GitHub's client and of Docker),
    [Profiles] (the vendored seccomp profile), [Volumes] and [Gzip] (files and
    compression of artifacts), [DumpText], [LogText] and [DesktopJSON] (formats of
    times and of Docker Desktop's answer), [EndpointURLs] (URLs again),
    [ManifestText] (JSON of the release manifest), [Codec] with [CodecLaws] (JSON
    of the job index), [KeyText] with [KeyTextLaws]
    (PEM, PKCS#8, SHA-256 and the envelope of a key).  A theorem that needs a law of a
    parameter names it as a hypothesis and has a witness with a concrete
    instance.

    ** Bounds and fuel

    Retry loops take the configured number of attempts as fuel and are total.
    The compaction loop's fuel is the number of records, with a theorem that it
    suffices.  The walk over a YAML tree takes the number of its nodes plus one,
    which suffices because it visits no node twice; following aliases takes the
    number of nodes.  The wait for a container's end takes the number of channel
    events as fuel, over which its theorem quantifies.  Watchers, the rerun loop
    of [Step], the drain loop, the controller's loop, the tool's waits and its
    menu are unbounded in the source; they take the number of ticks, reruns or
    rounds as an argument over which the theorems quantify, and answer [None]
    when they have not ended.  The walk over a private tree takes
    the limit on its entries plus one, which is enough for its depth; the search
    for the system directory takes as many rounds as its length limit; following
    a log and waiting for a process take the number of rounds, as above.
    A call returns exactly one answer; goroutines that only cancel (the safety
    watcher beside a step) are modelled by the answers to context checks.  Integers keep their width where
    the code can overflow ([wrap_u64], [wrap_i64]); worker and job counts are
    unbounded, since validation keeps them far from 2^63.

    ** Not modelled

    The SDKs behind calls: OpenTelemetry's exporters, Docker's and GitHub's
    clients, the PowerShell that answers for BitLocker, the Windows call that
    replaces a file, named pipes [control/pipe_windows.go].  The construction of
    the scale-set API with its HTTP transport and of the local Docker client; the
    memory double of the scale-set client [scaleset/fake.go]; clearing of the
    key's buffers in secret.go; the deadlines and health counters of the log;
    wrappers of the standard library [clock, childprocess, buildinfo]; the
    printing of the human-readable status [app/output.go]; adapters that answer
    "unsupported" on other systems; JSON encodings other than the log's. *)

From stdpp Require Export base gmap strings list list_numbers sorting fin_maps.
From Stdlib Require Export ZArith Lia.


#[global] Open Scope Z_scope.

(** * Machine integers

    Go's [int] is 64 bits wide on every platform the program is built for.
    [wrap_u64] and [wrap_i64] are the wrap-around of [uint64] and [int]. *)
Definition max_u64 : Z := 2 ^ 64 - 1.
Definition max_i64 : Z := 2 ^ 63 - 1.
Definition min_i64 : Z := - 2 ^ 63.

Definition wrap_u64 (z : Z) : Z := z mod 2 ^ 64.
Definition wrap_i64 (z : Z) : Z := (z + 2 ^ 63) mod 2 ^ 64 - 2 ^ 63.

Definition is_u64 (z : Z) : Prop := 0 <= z <= max_u64.
Definition is_i64 (z : Z) : Prop := min_i64 <= z <= max_i64.

Lemma wrap_u64_range z : is_u64 (wrap_u64 z).
Proof. unfold is_u64, wrap_u64, max_u64. pose proof (Z.mod_pos_bound z (2 ^ 64)). lia. Qed.

Lemma wrap_u64_small z : is_u64 z -> wrap_u64 z = z.
Proof. unfold is_u64, wrap_u64, max_u64. intros. apply Z.mod_small. lia. Qed.

Lemma wrap_i64_range z : is_i64 (wrap_i64 z).
Proof.
  unfold is_i64, wrap_i64, min_i64, max_i64.
  pose proof (Z.mod_pos_bound (z + 2 ^ 63) (2 ^ 64)). lia.
Qed.

Lemma wrap_i64_small z : is_i64 z -> wrap_i64 z = z.
Proof.
  unfold is_i64, wrap_i64, min_i64, max_i64. intros.
  rewrite Z.mod_small; lia.
Qed.

(** A wrapping subtraction of a wrapped product is exact when the product
    fits in what is left: the shape of every memory charge in the planner. *)
Lemma wrap_u64_charge m n k :
  is_u64 m -> 0 <= n -> 0 <= k -> n * k <= m ->
  wrap_u64 (m - wrap_u64 (n * k)) = m - n * k.
Proof.
  unfold is_u64. intros Hm Hn Hk Hle.
  rewrite (wrap_u64_small (n * k)) by (unfold is_u64; nia).
  apply wrap_u64_small. unfold is_u64. nia.
Qed.

(** * Maps with Go's zero-value lookup *)

Definition mget (m : gmap string Z) (k : string) : Z := default 0 (m !! k).
Definition mgetb (m : gmap string bool) (k : string) : bool := default false (m !! k).

Lemma mget_insert_eq m k v : mget (<[k:=v]> m) k = v.
Proof. unfold mget. by rewrite lookup_insert_eq. Qed.

Lemma mget_insert_ne m k k' v : k <> k' -> mget (<[k:=v]> m) k' = mget m k'.
Proof. intros. unfold mget. by rewrite lookup_insert_ne. Qed.

Lemma mget_insert m k k' v :
  mget (<[k:=v]> m) k' = if decide (k = k') then v else mget m k'.
Proof. case_decide; subst; [apply mget_insert_eq | by apply mget_insert_ne]. Qed.

Lemma mget_empty k : mget ∅ k = 0.
Proof. done. Qed.

Lemma mgetb_insert m k k' v :
  mgetb (<[k:=v]> m) k' = if decide (k = k') then v else mgetb m k'.
Proof.
  unfold mgetb. rewrite lookup_insert. by case_decide.
Qed.

(** The sum of a map's values; [Z] sums are order independent, which is what
    makes Go's unspecified map iteration order harmless in the code's sums. *)
Definition map_sum (m : gmap string Z) : Z := map_fold (fun _ v acc => v + acc) 0 m.

Lemma map_sum_empty : map_sum ∅ = 0.
Proof. unfold map_sum. apply map_fold_empty. Qed.

Lemma map_sum_insert_new m k v : m !! k = None -> map_sum (<[k:=v]> m) = v + map_sum m.
Proof.
  intros Hk. unfold map_sum. rewrite map_fold_insert_L; [done | | done]. intros; lia.
Qed.

Lemma map_sum_delete m k : map_sum m = mget m k + map_sum (delete k m).
Proof.
  unfold mget. destruct (m !! k) as [v|] eqn:Hk; simpl.
  - rewrite <- (insert_delete_id m k v Hk) at 1.
    apply map_sum_insert_new, lookup_delete_eq.
  - by rewrite delete_id.
Qed.

Lemma map_sum_insert m k v : map_sum (<[k:=v]> m) = map_sum m - mget m k + v.
Proof.
  rewrite <- insert_delete_eq, map_sum_insert_new by apply lookup_delete_eq.
  rewrite (map_sum_delete m k). lia.
Qed.

Lemma mget_delete m k k' :
  mget (delete k m) k' = if decide (k = k') then 0 else mget m k'.
Proof. unfold mget. rewrite lookup_delete. by case_decide. Qed.

Lemma map_sum_nonneg m : (forall k, 0 <= mget m k) -> 0 <= map_sum m.
Proof.
  induction m as [|k v m Hk IH] using map_ind; intros Hpos; [by rewrite map_sum_empty|].
  rewrite map_sum_insert_new by done.
  assert (0 <= v) by (specialize (Hpos k); by rewrite mget_insert_eq in Hpos).
  assert (0 <= map_sum m); [|lia].
  apply IH. intros k'. specialize (Hpos k'). rewrite mget_insert in Hpos.
  case_decide; [|done]. subst. unfold mget. by rewrite Hk.
Qed.

Lemma map_sum_mono m1 m2 : (forall k, mget m1 k <= mget m2 k) -> map_sum m1 <= map_sum m2.
Proof.
  revert m2. induction m1 as [|k v m Hk IH] using map_ind; intros m2 Hle.
  - rewrite map_sum_empty. apply map_sum_nonneg. intros k. specialize (Hle k). by rewrite mget_empty in Hle.
  - rewrite map_sum_insert_new, (map_sum_delete m2 k) by done.
    assert (v <= mget m2 k) by (specialize (Hle k); by rewrite mget_insert_eq in Hle).
    assert (map_sum m <= map_sum (delete k m2)); [|lia].
    apply IH. intros k'. rewrite mget_delete. specialize (Hle k'). rewrite mget_insert in Hle.
    case_decide; [|done]. subst. unfold mget. by rewrite Hk.
Qed.

(** * Go's [range] over a map

    The iteration order of a Go map is unspecified.  A [MapRange] is one
    choice of order: every definition that ranges over a map takes it as an
    argument, and every theorem holds for all of them. *)
Class MapRange := {
  range : forall {A : Type}, gmap string A -> list (string * A);
  range_perm : forall {A : Type} (m : gmap string A), range m ≡ₚ map_to_list m;
}.

(** The order used when a concrete run is evaluated. *)
#[export] Instance canonical_range : MapRange := {|
  range A m := map_to_list m;
  range_perm A m := Permutation_refl _;
|}.

Section Range.
Context `{MapRange} {A : Type}.
Implicit Type m : gmap string A.

Lemma elem_of_range m k v : (k, v) ∈ range m <-> m !! k = Some v.
Proof. rewrite range_perm. apply elem_of_map_to_list. Qed.

Lemma range_fst_NoDup m : NoDup ((range m).*1).
Proof. rewrite range_perm. apply NoDup_fst_map_to_list. Qed.

Lemma range_list_to_map m : list_to_map (range m) = m.
Proof.
  rewrite <- (list_to_map_to_list m) at 2.
  apply list_to_map_proper; [apply range_fst_NoDup | apply range_perm].
Qed.
(** A map built by one pass over another: [for k, v := range m { out[k] = f(k, v) }]. *)
Definition range_build {B} (f : string -> A -> B) m : gmap string B :=
  foldl (fun acc '(k, v) => <[k := f k v]> acc) ∅ (range m).

Lemma lookup_range_build {B} (f : string -> A -> B) m k : range_build f m !! k = f k <$> m !! k.
Proof.
  unfold range_build.
  assert (Hfold : forall l (acc : gmap string B), NoDup l.*1 ->
    foldl (fun acc '(k, v) => <[k := f k v]> acc) acc l !! k
      = match list_to_map (M := gmap string A) l !! k with Some v => Some (f k v) | None => acc !! k end).
  { induction l as [|[k' v] l IH]; intros acc Hnd; [done|]. simpl in *. apply NoDup_cons in Hnd as [Hk Hnd].
    rewrite IH by done. rewrite !lookup_insert. case_decide; subst; [|done].
    by rewrite not_elem_of_list_to_map_1. }
  rewrite Hfold, range_list_to_map by apply range_fst_NoDup. by destruct (m !! k).
Qed.

(** A test over all entries does not depend on the order of iteration. *)
Lemma existsb_range (f : string * A -> bool) m :
  existsb f (range m) = true <-> exists k v, m !! k = Some v /\ f (k, v) = true.
Proof.
  rewrite existsb_exists. split.
  - intros ([k v] & Hin%list_elem_of_In & Hf). apply elem_of_range in Hin. eauto.
  - intros (k & v & Hm & Hf). exists (k, v). split; [|done]. by apply list_elem_of_In, elem_of_range.
Qed.
End Range.

Lemma map_sum_range `{MapRange} m :
  map_sum m = foldr (fun kv acc => kv.2 + acc) 0 (range m).
Proof.
  unfold map_sum. rewrite map_fold_foldr.
  transitivity (foldr (fun kv acc => kv.2 + acc) 0 (map_to_list m)).
  - induction (map_to_list m) as [|[k v] l IH]; simpl; [done|by rewrite IH].
  - apply (foldr_permutation_proper (=)); [solve_proper | intros; lia | by rewrite range_perm].
Qed.

(** * Counting *)

Definition count {A} (f : A -> bool) (l : list A) : Z :=
  foldr (fun x acc => (if f x then 1 else 0) + acc) 0 l.

Lemma count_nonneg {A} (f : A -> bool) l : 0 <= count f l.
Proof. induction l as [|x l IH]; simpl; [lia|destruct (f x); lia]. Qed.

Lemma count_app {A} (f : A -> bool) l1 l2 : count f (l1 ++ l2) = count f l1 + count f l2.
Proof. induction l1 as [|x l1 IH]; simpl; lia. Qed.

Lemma count_ext {A} (f g : A -> bool) l : (forall x, x ∈ l -> f x = g x) -> count f l = count g l.
Proof.
  induction l as [|x l IH]; intros Hfg; simpl; [done|].
  rewrite (Hfg x), IH by set_solver. done.
Qed.

Lemma count_le {A} (f g : A -> bool) l :
  (forall x, x ∈ l -> f x = true -> g x = true) -> count f l <= count g l.
Proof.
  induction l as [|x l IH]; intros Hfg; simpl; [lia|].
  assert (count f l <= count g l) by (apply IH; set_solver).
  specialize (Hfg x). destruct (f x), (g x); try lia. set_solver.
Qed.

Lemma count_zero {A} (f : A -> bool) l : (forall x, x ∈ l -> f x = false) -> count f l = 0.
Proof.
  induction l as [|x l IH]; intros Hf; simpl; [done|]. rewrite (Hf x), IH by set_solver. done.
Qed.

Lemma count_pos {A} (f : A -> bool) l x : x ∈ l -> f x = true -> 0 < count f l.
Proof.
  induction l as [|y l IH]; intros Hin Hf; [set_solver|]. simpl.
  pose proof (count_nonneg f l). apply elem_of_cons in Hin as [->|Hin]; [rewrite Hf; lia|].
  specialize (IH Hin Hf). destruct (f y); lia.
Qed.

Lemma count_filter {A} (f g : A -> bool) l :
  count f (List.filter g l) = count (fun x => f x && g x) l.
Proof.
  induction l as [|x l IH]; simpl; [done|].
  destruct (g x); simpl; rewrite IH; [by rewrite andb_true_r|by rewrite andb_false_r].
Qed.

Lemma count_perm {A} (f : A -> bool) l1 l2 : l1 ≡ₚ l2 -> count f l1 = count f l2.
Proof. induction 1; simpl; lia. Qed.

(** * Stable sorting

    [sort_by lt] is insertion sort; with a strict weak order it computes the
    unique stable arrangement, the one [sort.SliceStable] returns. *)
Fixpoint insert_by {A} (lt : A -> A -> bool) (x : A) (l : list A) : list A :=
  match l with
  | [] => [x]
  | y :: l' => if lt y x then y :: insert_by lt x l' else x :: y :: l'
  end.

Definition sort_by {A} (lt : A -> A -> bool) (l : list A) : list A :=
  foldr (insert_by lt) [] l.

Lemma insert_by_perm {A} (lt : A -> A -> bool) x l : insert_by lt x l ≡ₚ x :: l.
Proof.
  induction l as [|y l IH]; simpl; [done|].
  destruct (lt y x); [|done]. rewrite IH. apply Permutation_swap.
Qed.

Lemma sort_by_perm {A} (lt : A -> A -> bool) l : sort_by lt l ≡ₚ l.
Proof. induction l as [|x l IH]; simpl; [done|]. by rewrite insert_by_perm, IH. Qed.

Lemma elem_of_sort_by {A} (lt : A -> A -> bool) l x : x ∈ sort_by lt l <-> x ∈ l.
Proof. by rewrite sort_by_perm. Qed.

Section SortSorted.
Context {A : Type} (lt : A -> A -> bool).
Hypothesis lt_asym : forall x y, lt x y = true -> lt y x = false.
Hypothesis ge_trans : forall x y z, lt y x = false -> lt z y = false -> lt z x = false.

Lemma insert_by_sorted x l :
  StronglySorted (fun a b => lt b a = false) l ->
  StronglySorted (fun a b => lt b a = false) (insert_by lt x l).
Proof.
  induction 1 as [|y l Hl IH Hy]; simpl; [repeat constructor|].
  destruct (lt y x) eqn:Hyx.
  - constructor; [done|]. rewrite insert_by_perm. constructor; [|done]. by apply lt_asym.
  - constructor; [by constructor|]. constructor; [done|].
    eapply Forall_impl; [exact Hy|]. intros z Hz. by apply (ge_trans x y z).
Qed.

Lemma sort_by_sorted l : StronglySorted (fun a b => lt b a = false) (sort_by lt l).
Proof. induction l as [|x l IH]; simpl; [constructor|by apply insert_by_sorted]. Qed.
End SortSorted.

(** * Folds and their invariants *)

Lemma foldl_invariant {A B} (P : B -> Prop) (f : B -> A -> B) l b :
  P b -> (forall b x, x ∈ l -> P b -> P (f b x)) -> P (foldl f b l).
Proof.
  revert b. induction l as [|x l IH]; intros b Hb Hstep; simpl; [done|].
  apply IH; [apply Hstep; [left|done]|]. intros b' x' Hin. apply Hstep. by right.
Qed.

(** A fold step that preserves every relation to its start gives the fold's
    end the same relation to the start. *)
Lemma foldl_preorder {A B} (R : B -> B -> Prop) (f : B -> A -> B) l b :
  (forall x, R x x) -> (forall x y z, R x y -> R y z -> R x z) ->
  (forall b x, x ∈ l -> R b (f b x)) -> R b (foldl f b l).
Proof.
  intros Hr Ht. revert b. induction l as [|x l IH]; intros b Hstep; simpl; [done|].
  eapply Ht; [apply Hstep; left|]. apply IH. intros b' x' Hin. apply Hstep. by right.
Qed.

(** A projection every step leaves alone is left alone by the fold. *)
Lemma foldl_proj {A B C} (pi : B -> C) (f : B -> A -> B) l b :
  (forall b x, x ∈ l -> pi (f b x) = pi b) -> pi (foldl f b l) = pi b.
Proof.
  intros Hstep. apply (foldl_invariant (fun b' => pi b' = pi b)); [done|].
  intros b' x Hin IH. by rewrite Hstep.
Qed.

(** Sums over a list of a weight of its elements. *)
Definition zsum {A} (f : A -> Z) (l : list A) : Z := foldr (fun x acc => f x + acc) 0 l.

Lemma zsum_ext {A} (f g : A -> Z) l : (forall x, x ∈ l -> f x = g x) -> zsum f l = zsum g l.
Proof.
  induction l as [|x l IH]; intros Hfg; simpl; [done|]. rewrite (Hfg x), IH by set_solver. done.
Qed.

Lemma zsum_le {A} (f g : A -> Z) l : (forall x, x ∈ l -> f x <= g x) -> zsum f l <= zsum g l.
Proof.
  induction l as [|x l IH]; intros Hfg; simpl; [done|].
  assert (f x <= g x) by set_solver. assert (zsum f l <= zsum g l) by set_solver. lia.
Qed.

Lemma zsum_nonneg {A} (f : A -> Z) l : (forall x, x ∈ l -> 0 <= f x) -> 0 <= zsum f l.
Proof.
  induction l as [|x l IH]; intros Hf; simpl; [done|].
  assert (0 <= f x) by set_solver. assert (0 <= zsum f l) by set_solver. lia.
Qed.

Lemma zsum_zero {A} (f : A -> Z) l : (forall x, x ∈ l -> f x = 0) -> zsum f l = 0.
Proof.
  induction l as [|x l IH]; intros Hf; simpl; [done|]. rewrite (Hf x), IH by set_solver. done.
Qed.

Lemma zsum_add {A} (f g : A -> Z) l : zsum (fun x => f x + g x) l = zsum f l + zsum g l.
Proof. induction l as [|x l IH]; simpl; lia. Qed.

Lemma zsum_perm {A} (f : A -> Z) l1 l2 : l1 ≡ₚ l2 -> zsum f l1 = zsum f l2.
Proof. induction 1; simpl; lia. Qed.

Lemma zsum_elem {A} (f : A -> Z) l x : (forall y, y ∈ l -> 0 <= f y) -> x ∈ l -> f x <= zsum f l.
Proof.
  induction l as [|y l IH]; intros Hf Hin; [set_solver|]. simpl.
  assert (0 <= zsum f l) by (apply zsum_nonneg; set_solver).
  assert (0 <= f y) by set_solver.
  apply elem_of_cons in Hin as [->|Hin]; [lia|]. specialize (IH ltac:(set_solver) Hin). lia.
Qed.

Lemma zsum_app {A} (f : A -> Z) l1 l2 : zsum f (l1 ++ l2) = zsum f l1 + zsum f l2.
Proof. induction l1 as [|x l1 IH]; simpl; lia. Qed.

Lemma zsum_flat_map {A B} (f : B -> Z) (g : A -> list B) l :
  zsum f (flat_map g l) = zsum (fun x => zsum f (g x)) l.
Proof. induction l as [|x l IH]; simpl; [done|]. by rewrite zsum_app, IH. Qed.

Lemma flat_map_ext_elem {A B} (f g : A -> list B) l :
  (forall x, x ∈ l -> f x = g x) -> flat_map f l = flat_map g l.
Proof.
  induction l as [|x l IH]; intros Hfg; simpl; [done|]. rewrite (Hfg x), IH by set_solver. done.
Qed.

(** Changing the weight of one element, identified by its key. *)
Lemma zsum_update {A} (key : A -> string) (f g : A -> Z) l x :
  NoDup (key <$> l) -> x ∈ l ->
  (forall y, y ∈ l -> key y <> key x -> g y = f y) ->
  zsum g l = zsum f l - f x + g x.
Proof.
  induction l as [|y l IH]; intros Hnd Hin Hfg; [set_solver|].
  rewrite fmap_cons in Hnd. apply NoDup_cons in Hnd as [Hy Hnd]. simpl.
  apply elem_of_cons in Hin as [->|Hin].
  - rewrite (zsum_ext g f l); [lia|]. intros z Hz. apply Hfg; [set_solver|].
    intros Heq. apply Hy. rewrite <- Heq. by apply list_elem_of_fmap_2.
  - rewrite IH; [|done..|set_solver]. rewrite (Hfg y); [lia|set_solver|].
    intros Heq. apply Hy. rewrite Heq. by apply list_elem_of_fmap_2.
Qed.

(** * Errors as values: a Go [(T, error)] result. *)

Inductive result (E A : Type) : Type :=
  | Ok (a : A)
  | Err (e : E).
Arguments Ok {E A} a.
Arguments Err {E A} e.

Definition result_bind {E A B} (m : result E A) (f : A -> result E B) : result E B :=
  match m with Ok a => f a | Err e => Err e end.

Declare Scope result_scope.
Delimit Scope result_scope with res.
Notation "'let!' x ':=' m 'in' k" := (result_bind m (fun x => k))
  (at level 10, x pattern, m at level 100, k at level 200) : result_scope.

(** * Proof automation *)

Create HintDb ci_runner.
Create Rewrite HintDb ci_runner.
#[export] Hint Rewrite mget_insert mgetb_insert map_sum_insert mget_delete mget_empty : ci_runner.
#[export] Hint Resolve count_nonneg wrap_u64_range wrap_i64_range : ci_runner.

(** Reflects the integer comparisons of the code and closes linear goals. *)
Ltac zb :=
  repeat match goal with
  | H : _ && _ = true |- _ => apply andb_prop in H as [? ?]
  | H : negb _ = true |- _ => apply negb_true_iff in H
  | H : negb _ = false |- _ => apply negb_false_iff in H
  | H : _ || _ = false |- _ => apply orb_false_elim in H as [? ?]
  | H : (_ <? _) = true |- _ => apply Z.ltb_lt in H
  | H : (_ <? _) = false |- _ => apply Z.ltb_ge in H
  | H : (_ <=? _) = true |- _ => apply Z.leb_le in H
  | H : (_ <=? _) = false |- _ => apply Z.leb_gt in H
  | H : (_ =? _) = true |- _ => apply Z.eqb_eq in H
  | H : (_ =? _) = false |- _ => apply Z.eqb_neq in H
  end.

(** Case analysis on the innermost test of the goal or of a hypothesis. *)
Ltac split_if :=
  match goal with
  | |- context [if ?b then _ else _] =>
      lazymatch b with context [if _ then _ else _] => fail | _ => destruct b eqn:? end
  | H : context [if ?b then _ else _] |- _ =>
      lazymatch b with context [if _ then _ else _] => fail | _ => destruct b eqn:? end
  end.
