(* ===== verification/Float64.v ===== *)
(** IEEE-754 binary64, the [float64] of Go, as far as the program uses it:
    comparisons, multiplication, division, [math.Ceil], [math.IsNaN],
    [math.IsInf] and the conversions with the 64-bit integers and durations.

    The arithmetic is the Standard Library's executable specification
    ([SpecFloat], precision 53 and maximal exponent 1024): rounding is the
    hardware's, nothing is idealised to the reals. *)

From S2P Require Import Prelude.
From Stdlib Require Import SpecFloat.

Abbreviation float64 := spec_float (only parsing).

Definition f64_mul : float64 -> float64 -> float64 := SFmul 53 1024.
Definition f64_div : float64 -> float64 -> float64 := SFdiv 53 1024.

(** Go's [<=], [<], [>=], [>] and [==] on floats: false on NaN. *)
Definition f64_le (x y : float64) : bool := SFleb x y.
Definition f64_lt (x y : float64) : bool := SFltb x y.
Definition f64_eq (x y : float64) : bool := SFeqb x y.

Definition f64_is_nan (x : float64) : bool :=
  match x with S754_nan => true | _ => false end.
Definition f64_is_inf (x : float64) : bool :=
  match x with S754_infinity _ => true | _ => false end.

(** [float64(z)] for an integer, rounded to nearest even. *)
Definition f64_of_Z (z : Z) : float64 := binary_normalize 53 1024 z 0 false.

Definition f64_0 : float64 := f64_of_Z 0.
Definition f64_1 : float64 := f64_of_Z 1.
Definition f64_100 : float64 := f64_of_Z 100.

(** [math.SmallestNonzeroFloat64], 2^-1074. *)
Definition f64_smallest : float64 := S754_finite false 1 (-1074).

(** The integer part of a finite positive mantissa and exponent, rounded up. *)
Definition ceil_mag (m : positive) (e : Z) : Z :=
  if 0 <=? e then Z.pos m * 2 ^ e else - ((- Z.pos m) / 2 ^ (- e)).

(** The same, rounded towards zero. *)
Definition trunc_mag (m : positive) (e : Z) : Z :=
  if 0 <=? e then Z.pos m * 2 ^ e else Z.pos m / 2 ^ (- e).

(** [math.Ceil]: infinities and NaN are themselves; the ceiling of a finite
    float is again a float, so the conversion back is exact.  A negative value
    rounds towards zero, to minus zero below one. *)
Definition f64_ceil (x : float64) : float64 :=
  match x with
  | S754_finite s m e =>
      if 0 <=? e then x
      else if s then
        let z := trunc_mag m e in
        if z =? 0 then S754_zero true else f64_of_Z (- z)
      else f64_of_Z (ceil_mag m e)
  | _ => x
  end.

(** Truncation of a float to an integer; [None] for NaN and infinities. *)
Definition f64_trunc (x : float64) : option Z :=
  match x with
  | S754_zero _ => Some 0
  | S754_finite s m e => let z := trunc_mag m e in Some (if s then - z else z)
  | S754_infinity _ | S754_nan => None
  end.

(** [cvttsd2si]: truncation to int64, with the "integer indefinite" value
    when the result does not fit. *)
Definition cvttsd2si (x : float64) : Z :=
  match f64_trunc x with
  | Some z => if (min_i64 <=? z) && (z <=? max_i64) then z else min_i64
  | None => min_i64
  end.

(** [uint64(x)].  The language leaves a value outside the type's range to the
    implementation; this is amd64's two-step conversion, the platform the
    program is released for.  In range it is truncation. *)
Definition u64_of_f64 (x : float64) : Z :=
  match f64_trunc x with
  | Some z => if (0 <=? z) && (z <=? max_u64) then z
              else if z <? 0 then wrap_u64 (cvttsd2si x) else 0
  | None => match x with S754_infinity true => 2 ^ 63 | _ => 0 end
  end.

(** [time.Duration(x)] and [int64(x)]. *)
Definition i64_of_f64 (x : float64) : Z := cvttsd2si x.

Lemma u64_of_f64_range x : is_u64 (u64_of_f64 x).
Proof.
  unfold u64_of_f64. destruct (f64_trunc x) as [z|].
  - split_if; [zb; unfold is_u64; lia|]. split_if; [apply wrap_u64_range|].
    unfold is_u64, max_u64; lia.
  - destruct x as [| [] | |]; unfold is_u64, max_u64; lia.
Qed.

Lemma i64_of_f64_range x : is_i64 (i64_of_f64 x).
Proof.
  unfold i64_of_f64, cvttsd2si, is_i64, min_i64, max_i64. destruct (f64_trunc x) as [z|]; [|lia].
  split_if; [|lia]. zb. unfold min_i64, max_i64 in *. lia.
Qed.

(** ** The order of floats

    Comparison is lexicographic on sign, exponent and mantissa, so it is
    transitive on every pair of values, canonical or not. *)
Lemma f64_lt_le_incompatible x y z :
  f64_lt y z = true -> f64_le x y = true -> f64_le z x = true -> False.
Proof.
  unfold f64_lt, f64_le, SFltb, SFleb, SFcompare.
  destruct x as [[]|[]| |[] mx ex], y as [[]|[]| |[] my ey], z as [[]|[]| |[] mz ez];
    try discriminate;
    repeat match goal with
    | |- context [Z.compare ?a ?b] => destruct (Z.compare_spec a b); try discriminate; subst
    | |- context [Pos.compare_cont Eq ?a ?b] =>
        change (Pos.compare_cont Eq a b) with (Pos.compare a b);
        destruct (Pos.compare_spec a b); try discriminate; subst
    end; simpl; intros; try discriminate; try lia.
Qed.

Definition f64_add : float64 -> float64 -> float64 := SFadd 53 1024.
Definition f64_sub : float64 -> float64 -> float64 := SFsub 53 1024.

(** [Duration.Seconds]: whole seconds plus the fraction, each rounded. *)
Definition Duration_Seconds (d : Z) : float64 :=
  f64_add (f64_of_Z (Z.quot d 1000000000))
          (f64_div (f64_of_Z (Z.rem d 1000000000)) (f64_of_Z 1000000000)).

(** The nearest integer, ties to even, as [%.0f] prints it. *)
Definition round_mag (m : positive) (e : Z) : Z :=
  if 0 <=? e then Z.shiftl (Zpos m) e
  else
    let q := Z.shiftr (Zpos m) (- e) in
    let rest := Zpos m - Z.shiftl q (- e) in
    let half := Z.shiftl 1 (- e - 1) in
    if (half <? rest) || ((half =? rest) && Z.odd q) then q + 1 else q.

Definition f64_round_even (x : float64) : Z :=
  match x with
  | S754_finite s m e => let z := round_mag m e in if s then - z else z
  | _ => 0
  end.
