(* ===== verification/GoStrings.v ===== *)
(** What the sources use of Go's strings: bytes, the white space of
    [strings.TrimSpace], and keys joined by a NUL byte. *)

From S2P Require Import Prelude.
From Stdlib Require Import Ascii.

Definition byte_of (a : ascii) : Z := Z.of_N (N_of_ascii a).

Definition nul : string := String (ascii_of_N 0) EmptyString.

(** The white space of [unicode.IsSpace] within ASCII. *)
Definition ascii_space (b : Z) : bool := ((9 <=? b) && (b <=? 13)) || (b =? 32).

(** The second and third UTF-8 bytes of the white space outside ASCII. *)
Definition space2 (b c : Z) : bool := (b =? 194) && ((c =? 133) || (c =? 160)).
Definition space3 (b c d : Z) : bool :=
  ((b =? 225) && (c =? 154) && (d =? 128))
  || ((b =? 226) && (c =? 128) && (((128 <=? d) && (d <=? 138)) || (d =? 168) || (d =? 169) || (d =? 175)))
  || ((b =? 226) && (c =? 129) && (d =? 159))
  || ((b =? 227) && (c =? 128) && (d =? 128)).

(** [strings.TrimSpace(s) == ""]. *)
Fixpoint blank (s : string) : bool :=
  match s with
  | EmptyString => true
  | String a rest =>
      if ascii_space (byte_of a) then blank rest
      else match rest with
           | String b rest2 =>
               if space2 (byte_of a) (byte_of b) then blank rest2
               else match rest2 with
                    | String c rest3 => space3 (byte_of a) (byte_of b) (byte_of c) && blank rest3
                    | EmptyString => false
                    end
           | EmptyString => false
           end
  end.

(** [filepath.IsAbs] and [filepath.Clean] of the platform the program runs on. *)
Class FilePath := {
  IsAbs : string -> bool;
  Clean : string -> string;
}.

(** Byte-wise order on pairs of strings: [pool] first, then [runner]. *)
Definition pair_before (p1 r1 p2 r2 : string) : bool :=
  if String.eqb p1 p2 then String.ltb r1 r2 else String.ltb p1 p2.

Lemma eqb_true (s t : string) : String.eqb s t = true <-> s = t.
Proof. apply String.eqb_eq. Qed.

(** ** Quoting *)

Definition hex_digit (d : Z) : ascii := ascii_of_N (Z.to_N (if d <? 10 then 48 + d else 87 + d)).
Definition quote_mark : ascii := ascii_of_N 34.
Definition backslash : ascii := "\"%char.

(** One byte of a quoted text, as [strconv.Quote] writes it. *)
Definition quote_byte (a : ascii) : string :=
  let b := byte_of a in
  let escape (c : ascii) := String backslash (String c EmptyString) in
  if (b =? 34) || (b =? 92) then escape a
  else if b =? 7 then escape "a"%char else if b =? 8 then escape "b"%char else if b =? 12 then escape "f"%char
  else if b =? 10 then escape "n"%char else if b =? 13 then escape "r"%char else if b =? 9 then escape "t"%char
  else if b =? 11 then escape "v"%char
  else if (b <? 32) || (b =? 127)
  then String backslash (String "x"%char (String (hex_digit (b / 16)) (String (hex_digit (b mod 16)) EmptyString)))
  else String a EmptyString.

(** The [%q] verb on ASCII text; the bytes of other runes, which Go also leaves
    as they are when the rune is printable, are kept. *)
Fixpoint quote_bytes (s : string) : string :=
  match s with
  | EmptyString => String quote_mark EmptyString
  | String a rest => quote_byte a +:+ quote_bytes rest
  end.
Definition Quote (s : string) : string := String quote_mark (quote_bytes s).

(** ** Numbers in base 36 *)

Definition digit36 (d : Z) : ascii := ascii_of_N (Z.to_N (if d <? 10 then 48 + d else 87 + d)).

(** The digits of [n], most significant first, before [acc]; [fuel] digits at
    most follow the first. *)
Fixpoint digits36 (fuel : nat) (n : Z) (acc : string) : string :=
  let acc := String (digit36 (n mod 36)) acc in
  if n / 36 =? 0 then acc
  else match fuel with S fuel => digits36 fuel (n / 36) acc | O => acc end.

(** [strconv.FormatUint(n, 36)]: 13 digits hold every 64-bit value. *)
Definition FormatUint36 (n : Z) : string := digits36 12 n "".
(** [strconv.FormatInt(n, 36)]. *)
Definition FormatInt36 (n : Z) : string := if n <? 0 then "-" +:+ FormatUint36 (- n) else FormatUint36 n.

(** [strings.TrimRight(s, cutset)] for a predicate on bytes. *)
Fixpoint trim_right (cut : ascii -> bool) (s : string) : string :=
  match s with
  | EmptyString => EmptyString
  | String a rest =>
      match trim_right cut rest with
      | EmptyString => if cut a then EmptyString else String a EmptyString
      | trimmed => String a trimmed
      end
  end.

Definition name_separator (a : ascii) : bool :=
  let b := byte_of a in (b =? 45) || (b =? 46) || (b =? 95).

(** The value [digits36] writes, most significant digit first. *)
Definition digit_value (a : ascii) : Z := let b := byte_of a in if b <? 58 then b - 48 else b - 87.
Fixpoint value36 (v : Z) (s : string) : Z :=
  match s with EmptyString => v | String a rest => value36 (36 * v + digit_value a) rest end.

Lemma digit36_value d : 0 <= d < 36 -> digit_value (digit36 d) = d.
Proof.
  intros Hd. assert (Hall : forallb (fun i => digit_value (digit36 (Z.of_nat i)) =? Z.of_nat i) (seq 0 36) = true) by (by vm_compute).
  rewrite forallb_forall in Hall. specialize (Hall (Z.to_nat d)). rewrite Z2Nat.id in Hall by lia.
  apply Z.eqb_eq, Hall, in_seq. lia.
Qed.

Lemma digits36_length fuel n acc : (String.length (digits36 fuel n acc) <= S fuel + String.length acc)%nat.
Proof.
  revert n acc. induction fuel as [|fuel IH]; intros n acc; simpl; split_if; simpl; try lia.
  specialize (IH (n / 36) (String (digit36 (n mod 36)) acc)). simpl in IH. lia.
Qed.

(** With enough digits the text denotes the number. *)
Lemma digits36_value fuel n acc :
  0 <= n < 36 ^ Z.of_nat (S fuel) -> value36 0 (digits36 fuel n acc) = value36 n acc.
Proof.
  revert n acc. induction fuel as [|fuel IH]; intros n acc Hn.
  - assert (n / 36 = 0) as Hz by (apply Z.div_small; lia). simpl. rewrite Hz. simpl.
    rewrite digit36_value by (apply Z.mod_pos_bound; lia). rewrite Z.mod_small by lia. done.
  - assert (0 <= n / 36 < 36 ^ Z.of_nat (S fuel)).
    { split; [apply Z.div_pos; lia|]. apply Z.div_lt_upper_bound; [lia|].
      replace (Z.of_nat (S (S fuel))) with (Z.succ (Z.of_nat (S fuel))) in Hn by lia. rewrite Z.pow_succ_r in Hn by lia. lia. }
    pose proof (Z.div_mod n 36). pose proof (Z.mod_pos_bound n 36).
    change (value36 0 (if n / 36 =? 0 then String (digit36 (n mod 36)) acc
                       else digits36 fuel (n / 36) (String (digit36 (n mod 36)) acc)) = value36 n acc).
    destruct (Z.eqb_spec (n / 36) 0) as [Hz|Hz].
    + simpl. rewrite digit36_value by lia. f_equal. lia.
    + rewrite IH by done. simpl. rewrite digit36_value by lia. f_equal. lia.
Qed.

Lemma trim_right_length cut s : (String.length (trim_right cut s) <= String.length s)%nat.
Proof.
  induction s as [|a s IH]; simpl; [lia|]. destruct (trim_right cut s); simpl in *; [split_if; simpl; lia|lia].
Qed.

Lemma string_app_length s t : String.length (s +:+ t) = (String.length s + String.length t)%nat.
Proof. induction s as [|a s IH]; simpl; [done|]. by rewrite IH. Qed.

Lemma string_app_cons a s t : String a s +:+ t = String a (s +:+ t).
Proof. done. Qed.

Lemma string_app_one a t : String a "" +:+ t = String a t.
Proof. done. Qed.

Lemma string_app_assoc s t u : (s +:+ t) +:+ u = s +:+ (t +:+ u).
Proof. induction s as [|a s IH]; [done|]. change (String a ((s +:+ t) +:+ u) = String a (s +:+ (t +:+ u))). by rewrite IH. Qed.

Lemma string_app_nil_r s : s +:+ "" = s.
Proof. induction s as [|a s IH]; [done|]. by rewrite string_app_cons, IH. Qed.

Lemma substring_length s n m : (String.length (String.substring n m s) <= m)%nat.
Proof.
  revert n m. induction s as [|a s IH]; intros n m; destruct n, m; simpl; try lia; [|apply IH..].
  specialize (IH 0%nat m). lia.
Qed.

(** A text of base-36 digits has no hyphen, so what follows the last hyphen of
    a text is determined. *)
Definition hyphen : ascii := "-"%char.

Fixpoint hyphen_free (s : string) : bool :=
  match s with EmptyString => true | String a rest => negb (Ascii.eqb a hyphen) && hyphen_free rest end.

Lemma digit36_not_hyphen d : 0 <= d < 36 -> digit36 d <> hyphen.
Proof. intros Hd He. pose proof (digit36_value d Hd) as Hv. rewrite He in Hv. vm_compute in Hv. lia. Qed.

Lemma digits36_hyphen_free fuel n acc : hyphen_free acc = true -> hyphen_free (digits36 fuel n acc) = true.
Proof.
  assert (Hcons : forall n acc, hyphen_free acc = true -> hyphen_free (String (digit36 (n mod 36)) acc) = true).
  { intros m a Ha. simpl. rewrite Ha. destruct (Ascii.eqb_spec (digit36 (m mod 36)) hyphen) as [He|]; [|done].
    apply digit36_not_hyphen in He; [done|]. apply Z.mod_pos_bound. lia. }
  revert n acc. induction fuel as [|fuel IH]; intros n acc Ha; simpl; split_if; auto.
Qed.

(** The suffix after the last hyphen. *)
Fixpoint after_hyphen (s : string) : option string :=
  match s with
  | EmptyString => None
  | String a rest =>
      match after_hyphen rest with
      | Some t => Some t
      | None => if Ascii.eqb a hyphen then Some rest else None
      end
  end.

Lemma after_hyphen_free s : hyphen_free s = true -> after_hyphen s = None.
Proof. induction s as [|a s IH]; simpl; [done|]. intros [Ha Hs]%andb_prop. rewrite IH by done. by destruct (Ascii.eqb a hyphen). Qed.

Lemma after_hyphen_app s t : hyphen_free t = true -> after_hyphen (s +:+ "-" +:+ t) = Some t.
Proof. intros Ht. induction s as [|a s IH]; simpl; [by rewrite after_hyphen_free|]. simpl in IH. by rewrite IH. Qed.

Lemma FormatUint36_inj m n : is_u64 m -> is_u64 n -> FormatUint36 m = FormatUint36 n -> m = n.
Proof.
  unfold is_u64, max_u64. intros Hm Hn Heq. apply (f_equal (value36 0)) in Heq. unfold FormatUint36 in Heq.
  rewrite !digits36_value in Heq by (simpl; lia). done.
Qed.

Lemma FormatUint36_length n : (String.length (FormatUint36 n) <= 13)%nat.
Proof. apply (digits36_length 12 n ""). Qed.

Lemma FormatInt36_length n : (String.length (FormatInt36 n) <= 14)%nat.
Proof. unfold FormatInt36. split_if; [rewrite string_app_length|]; [pose proof (FormatUint36_length (- n))|pose proof (FormatUint36_length n)]; simpl in *; lia. Qed.
