(* ===== verification/Model.v ===== *)
(** The platform-neutral state shared by the controller, its adapters and the
    CLI (internal/model/model.go).

    A Go string type with named constants is an inductive type with one
    constructor per constant and one for any other string.  [time.Time] is the
    instant in nanoseconds since Go's zero time, so [IsZero] is equality with
    zero; [*time.Time] is an [option].  All times the program stores are UTC,
    so equality of instants is equality of the stored values.
    [time.Duration] is its number of nanoseconds. *)

From S2P Require Import Prelude Float64.
From Stdlib Require Import SpecFloat.

Abbreviation time := Z (only parsing).
Abbreviation duration := Z (only parsing).

Definition IsZero (t : time) : bool := t =? 0.
Definition Before (t u : time) : bool := t <? u.
Definition After (t u : time) : bool := u <? t.

(** [t.Sub(u)] saturates at the range of a Duration. *)
Definition Sub (t u : time) : duration := Z.max min_i64 (Z.min max_i64 (t - u)).

Definition Nanosecond : duration := 1.
Definition Second : duration := 1000000000.
Definition Minute : duration := 60 * Second.

#[export] Instance spec_float_eq_dec : EqDecision spec_float.
Proof. solve_decision. Defined.

(** ** Desired lifecycle mode *)

Inductive Mode :=
  | ModeEnabled
  | ModeDisabled
  | ModeGaming
  | ModeOther (s : string).

#[export] Instance Mode_eq_dec : EqDecision Mode.
Proof. solve_decision. Defined.

Definition Mode_Valid (m : Mode) : bool :=
  match m with
  | ModeEnabled | ModeDisabled | ModeGaming => true
  | ModeOther _ => false
  end.

(** ** Observed lifecycle phase *)

Inductive Phase :=
  | PhaseStarting
  | PhaseReady
  | PhaseResourceConstrained
  | PhasePowerSuspended
  | PhaseDraining
  | PhaseDisabled
  | PhaseGaming
  | PhaseDegraded
  | PhaseOther (s : string).

#[export] Instance Phase_eq_dec : EqDecision Phase.
Proof. solve_decision. Defined.

(** The empty reason is [None]. *)
Inductive QuiesceReason :=
  | QuiesceReasonOperatorDisabled
  | QuiesceReasonGamingActiveWork
  | QuiesceReasonGamingHostTeardown
  | QuiesceReasonExcessWorkers
  | QuiesceReasonAdvertisementBudgetExhausted.

#[export] Instance QuiesceReason_eq_dec : EqDecision QuiesceReason.
Proof. solve_decision. Defined.

Record DesiredState := mkDesiredState {
  ds_SchemaVersion : Z;
  ds_Mode : Mode;
  ds_TemporaryCapacityOverride : option Z;
  ds_UpdatedAt : time;
}.

#[export] Instance DesiredState_eq_dec : EqDecision DesiredState.
Proof. solve_decision. Defined.

Record RestartReceipt := mkRestartReceipt {
  rr_SchemaVersion : Z;
  rr_RequestID : string;
  rr_ProcessID : Z;
  rr_Version : string;
  rr_CompletedAt : time;
}.

(** ** Workers *)

Inductive WorkerState :=
  | WorkerStarting
  | WorkerIdle
  | WorkerBusy
  | WorkerUnregistered
  | WorkerExited
  | WorkerStateOther (s : string).

#[export] Instance WorkerState_eq_dec : EqDecision WorkerState.
Proof. solve_decision. Defined.

Record Worker := mkWorker {
  w_ID : string;
  w_AdapterID : string;
  w_PoolID : string;
  w_Name : string;
  w_State : WorkerState;
  w_JobID : string;
  w_RunnerID : Z;
  w_StartedAt : time;
  w_MemoryLimitBytes : Z;
}.

#[export] Instance Worker_eq_dec : EqDecision Worker.
Proof. solve_decision. Defined.

Definition is_busy (s : WorkerState) : bool :=
  match s with WorkerBusy => true | _ => false end.
Definition is_nonbusy_active (s : WorkerState) : bool :=
  match s with WorkerStarting | WorkerIdle => true | _ => false end.
Definition is_terminal (s : WorkerState) : bool :=
  match s with WorkerExited | WorkerUnregistered => true | _ => false end.

Definition Active (w : Worker) : bool :=
  match w_State w with
  | WorkerStarting | WorkerIdle | WorkerBusy => true
  | _ => false
  end.

Lemma Active_split w : Active w = is_busy (w_State w) || is_nonbusy_active (w_State w).
Proof. unfold Active. by destruct (w_State w). Qed.

(** ** Persisted pool observation *)

Record PoolObservation := mkPoolObservation {
  po_ID : string;
  po_ScaleSetID : Z;
  po_ListenerID : string;
  po_TotalAssignedJobs : Z;
  po_MaxCapacity : Z;
  po_CapacityAcknowledged : bool;
  po_ZeroCapacityConfirmations : Z;
  po_DrainServiceCapacity : Z;
  po_DesiredWorkers : Z;
  po_UpdatedAt : time;
}.

(** The zero value Go returns for a missing map key. *)
Definition PoolObservation_zero : PoolObservation :=
  mkPoolObservation "" 0 "" 0 0 false 0 0 0 0.

(** ** Host observations *)

Record ResourceSnapshot := mkResourceSnapshot {
  rs_TotalMemoryBytes : Z;
  rs_AvailableMemoryBytes : Z;
  rs_CPUUtilizationPercent : float64;
}.

#[export] Instance ResourceSnapshot_eq_dec : EqDecision ResourceSnapshot.
Proof. solve_decision. Defined.

Definition ResourceSnapshot_zero : ResourceSnapshot := mkResourceSnapshot 0 0 f64_0.

(** Memory readings are [uint64] values. *)
Definition ResourceSnapshot_wf (r : ResourceSnapshot) : Prop :=
  is_u64 (rs_TotalMemoryBytes r) /\ is_u64 (rs_AvailableMemoryBytes r).

Record PowerSnapshot := mkPowerSnapshot {
  ps_ACConnected : bool;
  ps_ObservedAt : time;
}.

Record DesktopStatus := mkDesktopStatus {
  dk_DesktopRunning : bool;
  dk_EngineReachable : bool;
  dk_RunningWSLCount : Z;
}.

#[export] Instance DesktopStatus_eq_dec : EqDecision DesktopStatus.
Proof. solve_decision. Defined.

Inductive ResourceGateReason :=
  | ResourceGateReasonCPU
  | ResourceGateReasonInvalidObservation
  | ResourceGateReasonOther (s : string).

#[export] Instance ResourceGateReason_eq_dec : EqDecision ResourceGateReason.
Proof. solve_decision. Defined.

(** The empty reason is [None]. *)
Record ResourceGateState := mkResourceGateState {
  rg_Blocked : bool;
  rg_Reason : option ResourceGateReason;
  rg_HighCPUSince : option time;
  rg_HealthySince : option time;
}.

#[export] Instance ResourceGateState_eq_dec : EqDecision ResourceGateState.
Proof. solve_decision. Defined.

Definition ResourceGateState_zero : ResourceGateState := mkResourceGateState false None None None.

Record PowerGateState := mkPowerGateState { pg_ACSince : option time }.

#[export] Instance PowerGateState_eq_dec : EqDecision PowerGateState.
Proof. solve_decision. Defined.

Definition PowerGateState_zero : PowerGateState := mkPowerGateState None.

Record Problem := mkProblem {
  pb_Code : string;
  pb_Message : string;
  pb_PoolID : string;
  pb_Retryable : bool;
  pb_At : time;
}.

Record ControllerCost := mkControllerCost {
  cc_LastTickDurationSeconds : float64;
  cc_ProcessCPUSeconds : float64;
}.

Record Presence := mkPresence {
  pr_InputIdleSeconds : option float64;
  pr_InteractiveCapActive : bool;
}.

Record ObservedState := mkObservedState {
  os_SchemaVersion : Z;
  os_Phase : Phase;
  os_HeartbeatAt : time;
  os_DrainStartedAt : option time;
  os_QuiesceReason : option QuiesceReason;
  os_Version : string;
  os_Pools : list PoolObservation;
  os_Workers : list Worker;
  os_Resources : ResourceSnapshot;
  os_Power : PowerSnapshot;
  os_Desktop : DesktopStatus;
  os_ResourceGate : ResourceGateState;
  os_PowerGate : PowerGateState;
  os_Controller : ControllerCost;
  os_Presence : Presence;
  os_Problems : list Problem;
}.

(** [model.ObservedState{}]. *)
Definition ObservedState_zero : ObservedState := {|
  os_SchemaVersion := 0; os_Phase := PhaseOther ""; os_HeartbeatAt := 0;
  os_DrainStartedAt := None; os_QuiesceReason := None; os_Version := "";
  os_Pools := []; os_Workers := []; os_Resources := ResourceSnapshot_zero;
  os_Power := mkPowerSnapshot false 0; os_Desktop := mkDesktopStatus false false 0;
  os_ResourceGate := ResourceGateState_zero; os_PowerGate := PowerGateState_zero;
  os_Controller := mkControllerCost f64_0 f64_0; os_Presence := mkPresence None false;
  os_Problems := [];
|}.

(** ** The texts of the named constants *)

Definition Mode_string (m : Mode) : string :=
  match m with ModeEnabled => "enabled" | ModeDisabled => "disabled" | ModeGaming => "gaming" | ModeOther s => s end.

Definition Phase_string (p : Phase) : string :=
  match p with
  | PhaseStarting => "starting" | PhaseReady => "ready" | PhaseResourceConstrained => "resource-constrained"
  | PhasePowerSuspended => "power-suspended" | PhaseDraining => "draining" | PhaseDisabled => "disabled"
  | PhaseGaming => "gaming" | PhaseDegraded => "degraded" | PhaseOther s => s
  end.

Definition WorkerState_string (s : WorkerState) : string :=
  match s with
  | WorkerStarting => "starting" | WorkerIdle => "idle" | WorkerBusy => "busy" | WorkerUnregistered => "unregistered"
  | WorkerExited => "exited" | WorkerStateOther s => s
  end.

Lemma Sub_self t : Sub t t = 0.
Proof. unfold Sub, min_i64, max_i64. lia. Qed.

Lemma Sub_ge t u d : 0 < d <= max_i64 -> d <= Sub t u -> d <= t - u.
Proof. unfold Sub, min_i64, max_i64. lia. Qed.
