(* ===== verification/Config.v ===== *)
(** The controller's host configuration (internal/config/config.go): its data
    and the resolution of a target's worker profile. *)

From S2P Require Import Prelude Float64 Model.

Definition LegacySchemaVersion : Z := 1.
Definition SupportedSchemaVersion : Z := 2.

Record Telemetry := mkTelemetry {
  tl_Endpoint : string;
  tl_Protocol : string;
  tl_Traces : bool;
  tl_Metrics : bool;
  tl_MetricExportInterval : duration;
  tl_MetricExportTimeout : duration;
}.

Record Host := mkHost {
  ho_ID : string;
  ho_RunnerNamePrefix : string;
}.

Record Controller := mkController {
  co_ReconcileInterval : duration;
  co_ShutdownPollInterval : duration;
  co_LocalProbeTimeout : duration;
  co_StartupTimeout : duration;
  co_DesktopProbeTimeout : duration;
  co_ElevatedProbeTimeout : duration;
}.

Record Retry := mkRetry {
  rt_Initial : duration;
  rt_Maximum : duration;
  rt_Multiplier : float64;
  rt_JitterRatio : float64;
  rt_MaxAttempts : Z;
}.

Inductive Scope :=
  | ScopeOrganization
  | ScopeRepository
  | ScopeOther (s : string).

#[export] Instance Scope_eq_dec : EqDecision Scope.
Proof. solve_decision. Defined.

(** A worker profile; [Memory] and [MemorySwap] are [ByteSize], a [uint64]. *)
Record WorkerProfile := mkWorkerProfile {
  wp_CPUs : float64;
  wp_Memory : Z;
  wp_MemorySwap : Z;
  wp_PIDs : Z;
}.

(** Field-level overrides of the global profile; an omitted field is [None]. *)
Record WorkerOverrides := mkWorkerOverrides {
  wo_CPUs : option float64;
  wo_Memory : option Z;
  wo_MemorySwap : option Z;
  wo_PIDs : option Z;
}.

Record Target := mkTarget {
  t_ID : string;
  t_URL : string;
  t_Scope : Scope;
  t_ClientID : string;
  t_InstallationID : Z;
  t_SecretID : string;
  t_RunnerGroup : string;
  t_ScaleSetName : string;
  t_Labels : list string;
  t_WarmIdle : Z;
  t_MaxCapacity : Z;
  t_Priority : Z;
  t_ResourcesWorker : option WorkerOverrides;
  t_SeccompProfile : string;
}.

Record GitHub := mkGitHub {
  gh_RequestTimeout : duration;
  gh_Retry : Retry;
  gh_Targets : list Target;
}.

Record Resources := mkResources {
  r_MaximumConcurrentWorkers : Z;
  r_Worker : WorkerProfile;
  r_WorkerMemoryBudget : Z;
  r_MinimumAvailableMemoryPct : float64;
  r_MemoryCapacityIncreaseMarginPct : float64;
  r_CPUBlockPercent : float64;
  r_CPUResumePercent : float64;
  r_CPUObservationWindow : duration;
  r_CPUHysteresisWindow : duration;
  r_InteractiveMaximumConcurrentWorkers : Z;
  r_InteractiveIdleThreshold : duration;
}.

Inductive PowerPolicy :=
  | PowerAlways
  | PowerACOnly
  | PowerPolicyOther (s : string).

#[export] Instance PowerPolicy_eq_dec : EqDecision PowerPolicy.
Proof. solve_decision. Defined.

Record Power := mkPower {
  pw_Policy : PowerPolicy;
  pw_StableACWindow : duration;
}.

Record Drain := mkDrain {
  dr_WarningAfter : duration;
  dr_IdleConfirmationWindow : duration;
}.

Record DockerDesktop := mkDockerDesktop {
  dd_StartTimeout : duration;
  dd_StopTimeout : duration;
}.

Record DockerLogs := mkDockerLogs {
  dl_Driver : string;
  dl_MaxSize : Z;
  dl_MaxFiles : Z;
}.

Record LogClass := mkLogClass {
  lc_MaxFileSize : Z;
  lc_Retention : duration;
  lc_TotalCap : Z;
}.

Record Logs := mkLogs {
  lg_Docker : DockerLogs;
  lg_Controller : LogClass;
  lg_Diagnostics : LogClass;
  lg_RawDiagnosticMaxInput : Z;
  lg_CleanupEvery : duration;
  lg_WorkerFinalizationTimeout : duration;
}.

Record Paths := mkPaths {
  pa_Secrets : string;
  pa_State : string;
  pa_Logs : string;
  pa_Diagnostics : string;
}.

Record Config := mkConfig {
  c_SchemaVersion : Z;
  c_Host : Host;
  c_Controller : Controller;
  c_CompatibilityManifest : string;
  c_GitHub : GitHub;
  c_Resources : Resources;
  c_Power : Power;
  c_Drain : Drain;
  c_DockerDesktop : DockerDesktop;
  c_WorkerImagePullTimeout : duration;
  c_Logs : Logs;
  c_Telemetry : Telemetry;
  c_Paths : Paths;
}.

Definition c_Targets (c : Config) : list Target := gh_Targets (c_GitHub c).

(** [Target.EffectiveWorker]: the target's profile after its overrides. *)
Definition EffectiveWorker (t : Target) (defaults : WorkerProfile) : WorkerProfile :=
  match t_ResourcesWorker t with
  | None => defaults
  | Some overrides => {|
      wp_CPUs := default (wp_CPUs defaults) (wo_CPUs overrides);
      wp_Memory := default (wp_Memory defaults) (wo_Memory overrides);
      wp_MemorySwap := default (wp_MemorySwap defaults) (wo_MemorySwap overrides);
      wp_PIDs := default (wp_PIDs defaults) (wo_PIDs overrides);
    |}
  end.

(** [Config.SeccompProfileForTarget]. *)
Definition SeccompProfileForTarget (c : Config) (id : string) : string :=
  match List.find (fun t => String.eqb (t_ID t) id) (c_Targets c) with
  | Some t => t_SeccompProfile t
  | None => ""
  end.

(** [Config.WorkerForTarget]: [None] is the Go pair [Worker{}, false]. *)
Definition WorkerForTarget (c : Config) (id : string) : option WorkerProfile :=
  match List.find (fun t => String.eqb (t_ID t) id) (c_Targets c) with
  | Some t => Some (EffectiveWorker t (r_Worker (c_Resources c)))
  | None => None
  end.

(** The memory one worker of the target is started with. *)
Definition target_memory (c : Config) (t : Target) : Z :=
  wp_Memory (EffectiveWorker t (r_Worker (c_Resources c))).

(** [ByteSize] values are [uint64]. *)
Definition WorkerProfile_wf (p : WorkerProfile) : Prop := is_u64 (wp_Memory p).

(** The typing facts of a configuration that the planner's arithmetic relies
    on: byte sizes are unsigned 64-bit values and counts are [int]s. *)
Record Config_typed (c : Config) : Prop := {
  ct_budget : is_u64 (r_WorkerMemoryBudget (c_Resources c));
  ct_worker : forall t, t ∈ c_Targets c -> is_u64 (target_memory c t);
  ct_default : is_u64 (wp_Memory (r_Worker (c_Resources c)));
}.

Lemma WorkerForTarget_configured c id t :
  t ∈ c_Targets c -> t_ID t = id -> NoDup (t_ID <$> c_Targets c) ->
  WorkerForTarget c id = Some (EffectiveWorker t (r_Worker (c_Resources c))).
Proof.
  unfold WorkerForTarget. induction (c_Targets c) as [|u l IH]; intros Hin Hid Hnd; [set_solver|].
  simpl in *. apply NoDup_cons in Hnd as [Hnotin Hnd].
  apply elem_of_cons in Hin as [->|Hin].
  - by rewrite (proj2 (String.eqb_eq _ _) Hid).
  - destruct (String.eqb (t_ID u) id) eqn:Hu; [|by apply IH].
    apply String.eqb_eq in Hu. exfalso. apply Hnotin. rewrite Hu, <- Hid.
    by apply list_elem_of_fmap_2.
Qed.

Lemma WorkerForTarget_unknown c id :
  id ∉ (t_ID <$> c_Targets c) -> WorkerForTarget c id = None.
Proof.
  unfold WorkerForTarget. intros Hnot.
  destruct (List.find _ _) as [t|] eqn:Hf; [|done].
  apply List.find_some in Hf as [Hin Heq]. apply String.eqb_eq in Heq. subst id.
  exfalso. apply Hnot. apply list_elem_of_fmap_2. by apply list_elem_of_In.
Qed.
