(* ===== verification/Regexp.v ===== *)
(** Anchored regular expressions over bytes, as the sources use of Go's
    [regexp]: a pattern [^...$] matches a text exactly when the text is in the
    pattern's language, which [MatchString] decides by derivatives.  Every
    class of the patterns is a set of ASCII bytes, except [.], which is every
    byte but a newline, so bytes and runes give the same answer. *)

From S2P Require Import Prelude GoStrings.
From Stdlib Require Import Ascii.

Inductive regexp :=
  | NoMatch
  | EmptyMatch
  | CharClass (p : ascii -> bool)
  | Concat (r s : regexp)
  | Alternate (r s : regexp)
  | Star (r : regexp).

(** ** Notation of the patterns *)

Definition byte_range (lo hi : ascii) (a : ascii) : bool :=
  (byte_of lo <=? byte_of a) && (byte_of a <=? byte_of hi).
Definition digit : ascii -> bool := byte_range "0" "9".
Definition lower : ascii -> bool := byte_range "a" "z".
Definition upper : ascii -> bool := byte_range "A" "Z".
Definition alnum (a : ascii) : bool := upper a || lower a || digit a.
Definition one_of (l : list ascii) (a : ascii) : bool := existsb (Ascii.eqb a) l.
Definition any_but_newline (a : ascii) : bool := negb (byte_of a =? 10).

Definition ascii_lower (a : ascii) : ascii :=
  if upper a then ascii_of_N (Z.to_N (byte_of a + 32)) else a.

(** A letter under [(?i)]; no letter of the patterns folds outside ASCII. *)
Definition fold_char (c : ascii) (a : ascii) : bool := Ascii.eqb (ascii_lower a) (ascii_lower c).

Fixpoint literal (s : string) : regexp :=
  match s with EmptyString => EmptyMatch | String a rest => Concat (CharClass (Ascii.eqb a)) (literal rest) end.
Fixpoint literal_fold (s : string) : regexp :=
  match s with EmptyString => EmptyMatch | String a rest => Concat (CharClass (fold_char a)) (literal_fold rest) end.

(** [r?] and [r{0,n}]. *)
Definition optional (r : regexp) : regexp := Alternate EmptyMatch r.
Fixpoint up_to (n : nat) (r : regexp) : regexp :=
  match n with O => EmptyMatch | S n => optional (Concat r (up_to n r)) end.
(** [r{m,n}]. *)
Fixpoint repeated (m n : nat) (r : regexp) : regexp :=
  match m with O => up_to n r | S m => Concat r (repeated m (pred n) r) end.
Definition plus (r : regexp) : regexp := Concat r (Star r).
Definition one_of_res (l : list regexp) : regexp := foldr Alternate NoMatch l.

(** ** Matching *)

Fixpoint nullable (r : regexp) : bool :=
  match r with
  | NoMatch | CharClass _ => false
  | EmptyMatch | Star _ => true
  | Concat r s => nullable r && nullable s
  | Alternate r s => nullable r || nullable s
  end.

Definition cat (r s : regexp) : regexp :=
  match r, s with
  | NoMatch, _ | _, NoMatch => NoMatch
  | EmptyMatch, s => s
  | r, s => Concat r s
  end.
Definition alt (r s : regexp) : regexp :=
  match r, s with
  | NoMatch, s => s
  | r, NoMatch => r
  | r, s => Alternate r s
  end.

Fixpoint deriv (a : ascii) (r : regexp) : regexp :=
  match r with
  | NoMatch | EmptyMatch => NoMatch
  | CharClass p => if p a then EmptyMatch else NoMatch
  | Concat r s => if nullable r then alt (cat (deriv a r) s) (deriv a s) else cat (deriv a r) s
  | Alternate r s => alt (deriv a r) (deriv a s)
  | Star r => cat (deriv a r) (Star r)
  end.

Fixpoint MatchString (r : regexp) (s : string) : bool :=
  match s with EmptyString => nullable r | String a rest => MatchString (deriv a r) rest end.

(** ** The language of a pattern *)

Inductive lang : regexp -> string -> Prop :=
  | lang_empty : lang EmptyMatch ""
  | lang_class p a : p a = true -> lang (CharClass p) (String a "")
  | lang_concat r s u v : lang r u -> lang s v -> lang (Concat r s) (u +:+ v)
  | lang_left r s u : lang r u -> lang (Alternate r s) u
  | lang_right r s u : lang s u -> lang (Alternate r s) u
  | lang_star_nil r : lang (Star r) ""
  | lang_star r u v : lang r u -> lang (Star r) v -> lang (Star r) (u +:+ v).

Create HintDb regexp.
#[export] Hint Constructors lang : regexp.

Lemma lang_concat_iff r s w :
  lang (Concat r s) w <-> exists u v, w = u +:+ v /\ lang r u /\ lang s v.
Proof.
  split; [intros H; inversion H; subst; eauto|]. intros (u & v & -> & Hu & Hv). by apply lang_concat.
Qed.

Lemma lang_cat r s u : lang (cat r s) u <-> lang (Concat r s) u.
Proof.
  assert (Hn : forall u, ~ lang NoMatch u) by (intros w Hw; inversion Hw).
  assert (He : forall t u, lang (Concat EmptyMatch t) u <-> lang t u).
  { intros t w. rewrite lang_concat_iff. split.
    - intros (x & v & -> & Hx & Hv). by inversion Hx; subst.
    - intros Hw. exists "", w. auto with regexp. }
  assert (Hl : forall t u, ~ lang (Concat NoMatch t) u) by (intros t w Hw; inversion Hw; subst; by eapply Hn).
  assert (Hr : forall t u, ~ lang (Concat t NoMatch) u) by (intros t w Hw; inversion Hw; subst; by eapply Hn).
  destruct r, s; simpl; try rewrite He; try done;
    (split; intros Hx; exfalso; [by eapply Hn|first [by eapply Hl|by eapply Hr|by eapply Hn]]).
Qed.

Lemma lang_alternate r s u : lang (Alternate r s) u <-> lang r u \/ lang s u.
Proof. split; [inversion 1; auto|intros []; auto with regexp]. Qed.

Lemma lang_alt r s u : lang (alt r s) u <-> lang r u \/ lang s u.
Proof.
  assert (Hn : forall u, ~ lang NoMatch u) by (intros w Hw; inversion Hw).
  destruct r, s; simpl; rewrite ?lang_alternate; naive_solver.
Qed.

Lemma nullable_lang r : nullable r = true <-> lang r "".
Proof.
  split.
  - induction r as [| |p|r IHr s IHs|r IHr s IHs|r IH]; simpl; intros H; try done; auto with regexp.
    + apply andb_prop in H as [Hr Hs]. apply (lang_concat r s "" ""); auto.
    + apply orb_prop in H as [?|?]; auto with regexp.
  - induction r as [| |p|r IHr s IHs|r IHr s IHs|r IH]; intros H; simpl; try (inversion H; done).
    + apply lang_concat_iff in H as (u & v & Heq & Hu & Hv).
      destruct u, v; try discriminate. by rewrite IHr, IHs.
    + apply lang_alternate in H as [?|?]; apply orb_true_iff; auto.
Qed.

(** A non-empty word of a star starts with a non-empty word of its body. *)
Lemma lang_star_cons r a w :
  lang (Star r) (String a w) -> exists u v, w = u +:+ v /\ lang r (String a u) /\ lang (Star r) v.
Proof.
  remember (Star r) as t eqn:Ht. remember (String a w) as x eqn:Hx. intros Hl. revert w Hx.
  induction Hl as [| | | | | |r' u v Hu _ Hv IH]; intros w Hx; try discriminate.
  injection Ht as ->. destruct u as [|b u]; [by apply IH|].
  rewrite string_app_cons in Hx. injection Hx as -> <-. exists u, v. auto.
Qed.

Lemma deriv_lang a r u : lang (deriv a r) u <-> lang r (String a u).
Proof.
  revert u. induction r as [| |p|r IHr s IHs|r IHr s IHs|r IH]; intros w; simpl.
  - split; inversion 1.
  - split; inversion 1.
  - destruct (p a) eqn:Hp; split; intros H; inversion H; subst; auto with regexp. congruence.
  - assert (Hcat : lang (cat (deriv a r) s) w <-> exists u v, w = u +:+ v /\ lang r (String a u) /\ lang s v).
    { rewrite lang_cat, lang_concat_iff. by setoid_rewrite IHr. }
    assert (Hconcat : lang (Concat r s) (String a w) <->
      (exists u v, w = u +:+ v /\ lang r (String a u) /\ lang s v) \/ (lang r "" /\ lang s (String a w))).
    { rewrite lang_concat_iff. split.
      - intros (u & v & Heq & Hu & Hv).
        destruct u as [|b u]; [right; change ("" +:+ v) with v in Heq; by subst|]. rewrite string_app_cons in Heq. injection Heq as <- ->. left. exists u, v. auto.
      - intros [(u & v & -> & Hu & Hv)|[Hr Hs]].
        + by exists (String a u), v.
        + by exists "", (String a w). }
    rewrite Hconcat. destruct (nullable r) eqn:Hn.
    + rewrite lang_alt, Hcat, IHs. apply nullable_lang in Hn. naive_solver.
    + rewrite Hcat. split; [by left|]. intros [?|[Hr _]]; [done|]. apply nullable_lang in Hr. congruence.
  - by rewrite lang_alt, lang_alternate, IHr, IHs.
  - rewrite lang_cat. split.
    + intros (u & v & -> & Hu & Hv)%lang_concat_iff.
      apply (lang_star r (String a u) v); [by apply IH|done].
    + intros (u & v & -> & Hu & Hv)%lang_star_cons. apply lang_concat; [by apply IH|done].
Qed.

(** The matcher decides the pattern's language. *)
Lemma MatchString_lang r s : MatchString r s = true <-> lang r s.
Proof.
  revert r. induction s as [|a s IH]; intros r; simpl; [apply nullable_lang|].
  by rewrite IH, deriv_lang.
Qed.

(** ** Consequences for the matched texts *)

Fixpoint string_forall (p : ascii -> bool) (s : string) : bool :=
  match s with EmptyString => true | String a rest => p a && string_forall p rest end.

Lemma string_forall_app p s t : string_forall p (s +:+ t) = string_forall p s && string_forall p t.
Proof. induction s as [|a s IH]; [done|]. rewrite string_app_cons. simpl. by rewrite IH, andb_assoc. Qed.

Lemma string_forall_impl (p q : ascii -> bool) s :
  (forall a, p a = true -> q a = true) -> string_forall p s = true -> string_forall q s = true.
Proof.
  intros Hpq. induction s as [|a s IH]; simpl; [done|]. intros [Ha Hs]%andb_prop. by rewrite Hpq, IH.
Qed.

(** Every byte of the pattern's classes satisfies [P]. *)
Fixpoint over (P : ascii -> Prop) (r : regexp) : Prop :=
  match r with
  | NoMatch | EmptyMatch => True
  | CharClass p => forall a, p a = true -> P a
  | Concat r s | Alternate r s => over P r /\ over P s
  | Star r => over P r
  end.

Lemma over_lang (P : ascii -> bool) r s : over (fun a => P a = true) r -> lang r s -> string_forall P s = true.
Proof.
  intros Ho Hl. induction Hl; simpl in *; auto.
  - by rewrite Ho.
  - rewrite string_forall_app, IHHl1, IHHl2 by tauto. done.
  - by apply IHHl; destruct Ho.
  - by apply IHHl; destruct Ho.
  - by rewrite string_forall_app, IHHl1, IHHl2.
Qed.

Lemma over_up_to P n r : over P r -> over P (up_to n r).
Proof. intros Hr. induction n; simpl; auto. Qed.

(** The longest text of a pattern without stars. *)
Fixpoint longest (r : regexp) : option nat :=
  match r with
  | NoMatch | EmptyMatch => Some 0%nat
  | CharClass _ => Some 1%nat
  | Concat r s => match longest r, longest s with Some m, Some n => Some (m + n)%nat | _, _ => None end
  | Alternate r s => match longest r, longest s with Some m, Some n => Some (Nat.max m n) | _, _ => None end
  | Star _ => None
  end.

Lemma longest_lang r s n : longest r = Some n -> lang r s -> (String.length s <= n)%nat.
Proof.
  intros Hn Hl. revert n Hn. induction Hl; simpl; intros n Hn; try discriminate; simplify_eq; try lia.
  - destruct (longest r), (longest s); try discriminate. simplify_eq. rewrite string_app_length.
    specialize (IHHl1 _ eq_refl). specialize (IHHl2 _ eq_refl). lia.
  - destruct (longest r), (longest s); try discriminate. simplify_eq. specialize (IHHl _ eq_refl). lia.
  - destruct (longest r), (longest s); try discriminate. simplify_eq. specialize (IHHl _ eq_refl). lia.
Qed.

Lemma lang_nonempty r : nullable r = false -> ~ lang r "".
Proof. intros Hn Hl. apply nullable_lang in Hl. congruence. Qed.
