(* ===== verification/GoText.v ===== *)
(** What the sources use of Go's [strings], [utf8] and [strconv]: prefixes,
    suffixes, splitting and joining, case mapping by runes, and the decimal
    and hexadecimal texts of integers. *)

From S2P Require Import Prelude GoStrings Regexp.
From Stdlib Require Import Ascii.
From stdpp Require Import pretty.
#[local] Open Scope Z_scope.

(** ** Searching *)

Fixpoint HasPrefix (s prefix : string) : bool :=
  match prefix, s with
  | EmptyString, _ => true
  | String a p, String b s => Ascii.eqb a b && HasPrefix s p
  | String _ _, EmptyString => false
  end.

(** The text without its first [n] bytes. *)
Fixpoint drop_bytes (n : nat) (s : string) : string :=
  match n, s with
  | S n, String _ s => drop_bytes n s
  | _, _ => s
  end.

Definition HasSuffix (s suffix : string) : bool :=
  (String.length suffix <=? String.length s)%nat
  && String.eqb (drop_bytes (String.length s - String.length suffix) s) suffix.

Definition TrimPrefix (s prefix : string) : string :=
  if HasPrefix s prefix then drop_bytes (String.length prefix) s else s.
Definition TrimSuffix (s suffix : string) : string :=
  if HasSuffix s suffix then String.substring 0 (String.length s - String.length suffix) s else s.

Fixpoint Contains (s sub : string) : bool :=
  HasPrefix s sub || match s with EmptyString => false | String _ rest => Contains rest sub end.

(** [strings.ContainsAny] and [strings.ContainsRune] with ASCII characters. *)
Fixpoint ContainsAny (s : string) (chars : list ascii) : bool :=
  match s with EmptyString => false | String a rest => one_of chars a || ContainsAny rest chars end.

(** [strings.ReplaceAll(s, a, b)] for two single bytes. *)
Fixpoint ReplaceByte (a b : ascii) (s : string) : string :=
  match s with
  | EmptyString => EmptyString
  | String c rest => String (if Ascii.eqb c a then b else c) (ReplaceByte a b rest)
  end.

(** ** Trimming *)

Fixpoint trim_left_space (s : string) : string :=
  match s with
  | EmptyString => EmptyString
  | String a rest =>
      if ascii_space (byte_of a) then trim_left_space rest
      else match rest with
           | String b rest2 =>
               if space2 (byte_of a) (byte_of b) then trim_left_space rest2
               else match rest2 with
                    | String c rest3 => if space3 (byte_of a) (byte_of b) (byte_of c) then trim_left_space rest3 else s
                    | EmptyString => s
                    end
           | EmptyString => s
           end
  end.
Fixpoint trim_right_space (s : string) : string :=
  if blank s then EmptyString
  else match s with EmptyString => EmptyString | String a rest => String a (trim_right_space rest) end.
(** [strings.TrimSpace]. *)
Definition TrimSpace (s : string) : string := trim_right_space (trim_left_space s).

(** [strings.EqualFold] with a text of ASCII letters none of which folds
    outside ASCII. *)
Fixpoint EqualFold (s t : string) : bool :=
  match s, t with
  | EmptyString, EmptyString => true
  | String a s, String b t => fold_char b a && EqualFold s t
  | _, _ => false
  end.

(** ** Splitting and joining *)

(** [strings.Split(s, sep)] for a single-byte separator. *)
Fixpoint Split (sep : ascii) (s : string) : list string :=
  match s with
  | EmptyString => [""]
  | String a rest =>
      if Ascii.eqb a sep then "" :: Split sep rest
      else match Split sep rest with
           | part :: parts => String a part :: parts
           | [] => [String a ""]
           end
  end.

Fixpoint Join (sep : string) (parts : list string) : string :=
  match parts with
  | [] => ""
  | [p] => p
  | p :: rest => p +:+ sep +:+ Join sep rest
  end.

(** ** Runes *)

Definition RuneError : Z := 65533.

Definition continuation (lo hi : Z) (a : ascii) : bool := (lo <=? byte_of a) && (byte_of a <=? hi).

(** [utf8.DecodeRuneInString] on a text that starts with [a]: the rune and the
    number of bytes it takes after [a]; a malformed sequence is [RuneError] and
    takes none. *)
Definition decode_rune (a : ascii) (rest : string) : Z * nat :=
  let b := byte_of a in
  let low (c : ascii) := byte_of c - 128 in
  if b <? 128 then (b, 0%nat)
  else if (194 <=? b) && (b <=? 223) then
    match rest with
    | String c _ => if continuation 128 191 c then ((b - 192) * 64 + low c, 1%nat) else (RuneError, 0%nat)
    | _ => (RuneError, 0%nat)
    end
  else if (224 <=? b) && (b <=? 239) then
    let lo := if b =? 224 then 160 else 128 in
    let hi := if b =? 237 then 159 else 191 in
    match rest with
    | String c (String d _) =>
        if continuation lo hi c && continuation 128 191 d
        then ((b - 224) * 4096 + low c * 64 + low d, 2%nat) else (RuneError, 0%nat)
    | _ => (RuneError, 0%nat)
    end
  else if (240 <=? b) && (b <=? 244) then
    let lo := if b =? 240 then 144 else 128 in
    let hi := if b =? 244 then 143 else 191 in
    match rest with
    | String c (String d (String e _)) =>
        if continuation lo hi c && continuation 128 191 d && continuation 128 191 e
        then ((b - 240) * 262144 + low c * 4096 + low d * 64 + low e, 3%nat) else (RuneError, 0%nat)
    | _ => (RuneError, 0%nat)
    end
  else (RuneError, 0%nat).

(** The runes of a text, as [range] visits them; [skip] bytes still belong to
    the rune before. *)
Fixpoint runes_from (skip : nat) (s : string) : list Z :=
  match s with
  | EmptyString => []
  | String a rest =>
      match skip with
      | S skip => runes_from skip rest
      | O => let '(r, n) := decode_rune a rest in r :: runes_from n rest
      end
  end.
Definition runes (s : string) : list Z := runes_from 0 s.

Definition byte_string (l : list Z) : string :=
  foldr (fun b acc => String (ascii_of_N (Z.to_N b)) acc) EmptyString l.

(** [utf8.EncodeRune] of a valid rune. *)
Definition encode_rune (r : Z) : string :=
  if r <? 128 then byte_string [r]
  else if r <? 2048 then byte_string [192 + r / 64; 128 + r mod 64]
  else if r <? 65536 then byte_string [224 + r / 4096; 128 + r / 64 mod 64; 128 + r mod 64]
  else byte_string [240 + r / 262144; 128 + r / 4096 mod 64; 128 + r / 64 mod 64; 128 + r mod 64].

Fixpoint concat_strings (l : list string) : string :=
  match l with [] => "" | s :: rest => s +:+ concat_strings rest end.

(** The case mapping of the Unicode tables outside ASCII ([unicode.ToLower]). *)
Class Unicode := { to_lower : Z -> Z }.

Definition rune_lower `{Unicode} (r : Z) : Z :=
  if r <? 128 then (if (65 <=? r) && (r <=? 90) then r + 32 else r) else to_lower r.

(** [strings.ToLower]. *)
Definition ToLower `{Unicode} (s : string) : string :=
  concat_strings (map (fun r => encode_rune (rune_lower r)) (runes s)).

(** ** Numbers *)

(** [%d], [strconv.Itoa] and [strconv.FormatInt(z, 10)]. *)
Definition Itoa (z : Z) : string := pretty z.

(** [strconv.ParseUint(s, 10, 64)] of a text of digits: [None] beyond the range. *)
Fixpoint decimal_value (acc : Z) (s : string) : Z :=
  match s with EmptyString => acc | String a rest => decimal_value (10 * acc + (byte_of a - 48)) rest end.
Definition ParseUint (s : string) : option Z :=
  if negb (String.eqb s "") && string_forall digit s then
    let n := decimal_value 0 s in if n <=? max_u64 then Some n else None
  else None.

(** The longest prefix of digits and what follows it. *)
Fixpoint span_digits (s : string) : string * string :=
  match s with
  | String a rest => if digit a then let '(d, t) := span_digits rest in (String a d, t) else ("", s)
  | EmptyString => ("", "")
  end.

(** ** Lemmas *)

Lemma HasPrefix_spec s p : HasPrefix s p = true <-> exists t, s = p +:+ t.
Proof.
  revert s. induction p as [|a p IH]; intros s; [split; [by exists s|by destruct s]|].
  destruct s as [|b s].
  - split; [done|]. intros (t & Ht). by rewrite string_app_cons in Ht.
  - simpl. rewrite andb_true_iff, IH. split.
    + intros [->%Ascii.eqb_eq (t & ->)]. by exists t.
    + intros (t & Ht). rewrite string_app_cons in Ht. injection Ht as -> ->. split; [apply Ascii.eqb_refl|by exists t].
Qed.

Lemma Split_nonempty sep s : Split sep s <> [].
Proof. destruct s as [|a s]; simpl; [done|]. split_if; [done|]. by destruct (Split sep s). Qed.

Lemma Split_cons_sep sep s : Split sep (String sep s) = "" :: Split sep s.
Proof. simpl. by rewrite Ascii.eqb_refl. Qed.

(** Splitting and joining with the same separator is the identity. *)
Lemma Join_Split sep s : Join (String sep "") (Split sep s) = s.
Proof.
  induction s as [|a s IH]; [done|]. simpl. destruct (Ascii.eqb_spec a sep) as [->|Hne].
  - destruct (Split sep s) as [|p ps] eqn:He; [by apply Split_nonempty in He|].
    transitivity (String sep (Join (String sep "") (p :: ps))); [done|]. by rewrite IH.
  - destruct (Split sep s) as [|p ps] eqn:He; [by apply Split_nonempty in He|].
    transitivity (String a (Join (String sep "") (p :: ps))); [|by rewrite IH]. by destruct ps.
Qed.

Lemma Split_inj sep s t : Split sep s = Split sep t -> s = t.
Proof. intros H. by rewrite <- (Join_Split sep s), H, Join_Split. Qed.

(** The parts of a text extended after a separator. *)
Lemma Split_app_sep sep s t : Split sep (s +:+ String sep t) = Split sep s ++ Split sep t.
Proof.
  induction s as [|a s IH]; [apply Split_cons_sep|]. rewrite string_app_cons. simpl. rewrite IH.
  split_if; [done|]. destruct (Split sep s) as [|p ps] eqn:He; [by apply Split_nonempty in He|done].
Qed.

(** One list of parts extends another exactly when one text extends the other
    after a separator. *)
Lemma Split_prefix sep s t :
  Split sep t `prefix_of` Split sep s <-> s = t \/ HasPrefix s (t +:+ String sep "") = true.
Proof.
  split.
  - intros [k Hk]. destruct k as [|p k].
    + left. apply (Split_inj sep). by rewrite Hk, app_nil_r.
    + right. apply HasPrefix_spec. exists (Join (String sep "") (p :: k)).
      rewrite string_app_assoc. change (String sep "" +:+ ?x) with (String sep x).
      assert (Hjoin : forall l, l <> [] -> Join (String sep "") (l ++ p :: k)
                = Join (String sep "") l +:+ String sep (Join (String sep "") (p :: k))).
      { clear. induction l as [|x l IH]; intros Hl; [done|]. destruct l as [|y l]; [done|].
        change ((x :: y :: l) ++ p :: k) with (x :: (y :: l) ++ p :: k).
        change (Join (String sep "") (x :: (y :: l) ++ p :: k))
          with (x +:+ String sep "" +:+ Join (String sep "") ((y :: l) ++ p :: k)).
        rewrite IH by done.
        change (Join (String sep "") (x :: y :: l)) with (x +:+ String sep "" +:+ Join (String sep "") (y :: l)).
        by rewrite !string_app_assoc. }
      rewrite <- (Join_Split sep t), <- Hjoin, <- Hk by apply Split_nonempty. by rewrite Join_Split.
  - intros [->|(u & ->)%HasPrefix_spec]; [done|].
    rewrite string_app_assoc. change (String sep "" +:+ u) with (String sep u). rewrite Split_app_sep.
    by exists (Split sep u).
Qed.

Lemma span_digits_app s : let '(d, t) := span_digits s in s = d +:+ t.
Proof.
  induction s as [|a s IH]; simpl; [done|]. split_if; [|done].
  destruct (span_digits s) as [d t]. by rewrite string_app_cons, <- IH.
Qed.

Lemma span_digits_forall s : string_forall digit (span_digits s).1 = true.
Proof.
  induction s as [|a s IH]; simpl; [done|]. destruct (digit a) eqn:Ha; [|done].
  destruct (span_digits s) as [d t]. simpl in *. by rewrite Ha.
Qed.

Lemma digit_range a : digit a = true -> 0 <= byte_of a - 48 <= 9.
Proof. unfold digit, byte_range. change (byte_of "0") with 48. change (byte_of "9") with 57. intros H. zb. lia. Qed.

Lemma decimal_value_ge acc s : 0 <= acc -> string_forall digit s = true -> acc <= decimal_value acc s.
Proof.
  revert acc. induction s as [|a s IH]; intros acc Hacc; simpl; [lia|]. intros [Ha Hs]%andb_prop.
  apply digit_range in Ha. specialize (IH (10 * acc + (byte_of a - 48)) ltac:(lia) Hs). lia.
Qed.

(** Texts without a given byte are one part. *)
Definition without (sep : ascii) (s : string) : bool := string_forall (fun a => negb (Ascii.eqb a sep)) s.

Lemma Split_without sep s : without sep s = true -> Split sep s = [s].
Proof.
  induction s as [|a s IH]; [done|]. simpl. intros [Ha%negb_true_iff Hs]%andb_prop. rewrite Ha, IH; done.
Qed.

Lemma Split_parts sep s : Forall (fun p => without sep p = true) (Split sep s).
Proof.
  induction s as [|a s IH]; simpl; [by repeat constructor|]. destruct (Ascii.eqb a sep) eqn:Ha; [by constructor|].
  inversion IH as [|p ps Hp Hps]; subst; constructor; try done; unfold without in *; simpl; by rewrite Ha.
Qed.

Lemma Split_Join sep parts :
  parts <> [] -> Forall (fun p => without sep p = true) parts -> Split sep (Join (String sep "") parts) = parts.
Proof.
  intros Hne Hall. induction Hall as [|p parts Hp Hparts IH]; [done|].
  destruct parts as [|q parts]; [by apply Split_without|].
  change (Join (String sep "") (p :: q :: parts)) with (p +:+ String sep (Join (String sep "") (q :: parts))).
  rewrite Split_app_sep, IH, Split_without by done. done.
Qed.

Lemma drop_bytes_length n s : String.length (drop_bytes n s) = (String.length s - n)%nat.
Proof. revert s. induction n as [|n IH]; intros [|a s]; simpl; try lia. apply IH. Qed.

Lemma drop_bytes_app s t : drop_bytes (String.length s) (s +:+ t) = t.
Proof. induction s as [|a s IH]; [by destruct t|apply IH]. Qed.

Lemma drop_bytes_split n s : exists t, s = t +:+ drop_bytes n s.
Proof.
  revert s. induction n as [|n IH]; intros s; [by exists ""|]. destruct s as [|a s]; [by exists ""|].
  destruct (IH s) as [t Ht]. exists (String a t). simpl. by rewrite string_app_cons, <- Ht.
Qed.

Lemma HasSuffix_spec s p : HasSuffix s p = true <-> exists t, s = t +:+ p.
Proof.
  unfold HasSuffix. rewrite andb_true_iff, Nat.leb_le, String.eqb_eq. split.
  - intros [Hlen Hd]. destruct (drop_bytes_split (String.length s - String.length p) s) as [t Ht].
    exists t. by rewrite Hd in Ht.
  - intros [t ->]. rewrite string_app_length. split; [lia|].
    replace (String.length t + String.length p - String.length p)%nat with (String.length t) by lia. apply drop_bytes_app.
Qed.

Lemma TrimPrefix_app p s : TrimPrefix (p +:+ s) p = s.
Proof.
  unfold TrimPrefix. rewrite (proj2 (HasPrefix_spec _ _)) by eauto. apply drop_bytes_app.
Qed.

(** A text ends with the separator exactly when its last part is empty. *)
Lemma HasSuffix_sep sep s : HasSuffix s (String sep "") = true <-> last (Split sep s) = Some "" /\ s <> "".
Proof.
  rewrite HasSuffix_spec. split.
  - intros [t ->]. rewrite Split_app_sep. simpl. rewrite last_snoc. split; [done|].
    intros H. by apply (f_equal String.length) in H; rewrite string_app_length in H; simpl in H; lia.
  - intros [Hlast Hne]. destruct (Split sep s) as [|p ps _] eqn:He using rev_ind; [done|].
    rewrite last_snoc in Hlast. injection Hlast as ->. exists (Join (String sep "") ps).
    destruct ps as [|q ps]; [exfalso; apply Hne; by rewrite <- (Join_Split sep s), He|].
    pose proof (Split_parts sep s) as Hparts. rewrite He in Hparts. apply Forall_app in Hparts as [Hparts _].
    apply (Split_inj sep). rewrite He, Split_app_sep, Split_Join; done.
Qed.

Lemma Split_empty_iff sep s : Split sep s = [""] <-> s = "".
Proof. split; [|by intros ->]. intros H. by rewrite <- (Join_Split sep s), H. Qed.

Lemma Split_length_one sep s : length (Split sep s) = 1%nat <-> without sep s = true.
Proof.
  split; [|intros H; by rewrite Split_without]. intros Hl. pose proof (Split_parts sep s) as Hp.
  pose proof (Join_Split sep s) as Hj. destruct (Split sep s) as [|p [|]]; try done.
  simpl in Hj. subst. by inversion Hp.
Qed.
