(* ===== verification/Validate.v ===== *)
(** Validation of the host configuration (internal/config/config.go:
    [Config.Validate] and the checks it calls; internal/seccomp/seccomp.go:
    [Names], [Valid]).

    An error is its message; a check appends messages to [problems] in the
    order of the source.  [errors.Join] separates messages by newlines and is
    nil without any. *)

From S2P Require Import Prelude Float64 GoStrings Model Config Regexp GoText.
From Stdlib Require Import Ascii.

(** ** Patterns *)

Definition name_class (a : ascii) : bool := alnum a || one_of ["."%char; "_"%char; "-"%char] a.

Definition hostIDPattern : regexp :=
  let edge := CharClass (fun a => lower a || digit a) in
  let inner := CharClass (fun a => lower a || digit a || one_of ["-"%char] a) in
  Concat edge (optional (Concat (up_to 61 inner) edge)).
Definition prefixPattern : regexp := Concat (CharClass alnum) (up_to 63 (CharClass name_class)).
Definition windowsDevice : regexp :=
  let numbered (s : string) := Concat (literal_fold s) (CharClass (byte_range "1" "9")) in
  Concat (one_of_res [literal_fold "CON"; literal_fold "PRN"; literal_fold "AUX"; literal_fold "NUL";
                      numbered "COM"; numbered "LPT"])
         (optional (Concat (literal ".") (Star (CharClass any_but_newline)))).
Definition githubSegment : regexp :=
  plus (CharClass (fun a => lower a || digit a || one_of ["_"%char; "."%char; "-"%char] a)).
Definition clientIDPattern : regexp :=
  repeated 6 128 (CharClass (fun a => alnum a || one_of ["_"%char; "-"%char] a)).

(** [^[A-Za-z]:[\\/]], anchored at the start only. *)
Definition windowsAbs (s : string) : bool :=
  match s with
  | String a (String b (String c _)) =>
      (upper a || lower a) && Ascii.eqb b ":" && one_of [backslash; "/"%char] c
  | _ => false
  end.

(** ** Problems *)

Definition check (failed : bool) (message : string) : list string := if failed then [message] else [].
Definition add (err : option string) : list string := match err with Some e => [e] | None => [] end.

Definition newline : string := String (ascii_of_N 10) "".
Definition problems_error (problems : list string) : option string :=
  match problems with [] => None | _ => Some (Join newline problems) end.

(** ** Seccomp profiles *)

Definition UserNS : string := "userns".
Definition Names : list string := [UserNS].
Definition Valid (name : string) : bool := existsb (String.eqb name) Names.

(** ** Paths *)

Definition sep : string := String backslash "".

Section Paths.
Context `{Unicode}.

(** One segment of a path below the drive's root. *)
Definition segment_error (part : string) : option string :=
  if String.eqb part "" || String.eqb part "." || String.eqb part ".." then Some "empty and traversal segments are not allowed"
  else if ContainsAny part [":"%char] then Some "alternate data stream syntax is not allowed"
  else if HasSuffix part "." || HasSuffix part " " then Some "segments ending in a dot or space are not canonical"
  else if MatchString windowsDevice part
  then Some ("reserved Windows device segment " +:+ Quote part +:+ " is not allowed")
  else None.

Fixpoint first_error (f : string -> option string) (l : list string) : option string :=
  match l with [] => None | x :: rest => match f x with Some e => Some e | None => first_error f rest end end.

Definition control_character (s : string) : bool := existsb (fun r => r <? 32) (runes s).

Definition CanonicalWindowsLocalPath (raw : string) : result string string :=
  if String.eqb raw "" || ContainsAny raw [ascii_of_N 0]
     || ContainsAny raw ["*"%char; "?"%char; quote_mark; "<"%char; ">"%char; "|"%char]
  then Err "must be a nonempty safe local Windows path"
  else if control_character raw then Err "control characters are not allowed"
  else if HasPrefix raw (sep +:+ sep) || HasPrefix raw "//" || negb (windowsAbs raw)
  then Err "must use a local drive-letter path; UNC and device namespaces are not allowed"
  else
    let normalized := ReplaceByte "/" backslash raw in
    if HasSuffix normalized sep || Contains (drop_bytes 3 normalized) (sep +:+ sep)
    then Err "path must not contain repeated or trailing separators"
    else
      let parts := Split backslash (drop_bytes 3 normalized) in
      if match parts with [] => true | first :: _ => String.eqb first "" end
      then Err "filesystem roots are not allowed"
      else match first_error segment_error parts with
           | Some e => Err e
           | None =>
               let drive := ToLower (String.substring 0 2 normalized) in
               Ok (drive +:+ sep +:+ ToLower (Join sep parts))
           end.

Definition validateSafeAbsolutePath (name raw : string) (directory : bool) : option string :=
  match CanonicalWindowsLocalPath raw with
  | Err e => Some (name +:+ ": " +:+ e)
  | Ok canonical =>
      if directory && HasSuffix canonical ".yaml" then Some (name +:+ ": expected a directory path") else None
  end.
End Paths.

Definition pathsOverlap (left right : string) : bool :=
  String.eqb left right || HasPrefix left (right +:+ sep) || HasPrefix right (left +:+ sep).

(** ** Numbers *)

Definition validateWorker (name : string) (worker : WorkerProfile) : option string :=
  problems_error
    (check (f64_le (wp_CPUs worker) f64_0 || f64_is_nan (wp_CPUs worker) || f64_is_inf (wp_CPUs worker))
           (name +:+ ".cpus: must be a finite positive number")
     ++ check (wp_Memory worker =? 0) (name +:+ ".memory: must be positive")
     ++ check (wp_MemorySwap worker <? wp_Memory worker)
              (name +:+ ".memorySwap: Docker total memory+swap must be at least memory")
     ++ check (wp_PIDs worker <=? 0) (name +:+ ".pids: must be positive")).

Definition validatePercent (name : string) (value : Float64.float64) (allowZero : bool) : option string :=
  let minimum := if allowZero then f64_0 else f64_smallest in
  if f64_is_nan value || f64_is_inf value || f64_lt value minimum || f64_lt f64_100 value
  then Some (name +:+ ": must be between " +:+ (if allowZero then "0" else "5e-324") +:+ " and 100")
  else None.

Definition validateLogClass (name : string) (class : LogClass) : option string :=
  problems_error
    (check (lc_MaxFileSize class =? 0) (name +:+ ".maxFileSize: must be positive")
     ++ check (lc_Retention class <=? 0) (name +:+ ".retention: must be positive")
     ++ check (lc_TotalCap class <? lc_MaxFileSize class) (name +:+ ".totalCap: must be at least maxFileSize")).

(** ** URLs

    The fields of a [*url.URL] that the checks read, and [url.Parse];
    [u_User] is whether the user information is present, [u_Port] and
    [u_String] are the results of the methods. *)
Record URL := mkURL {
  u_Scheme : string;
  u_Host : string;
  u_Port : string;
  u_User : bool;
  u_Path : string;
  u_RawPath : string;
  u_RawQuery : string;
  u_Fragment : string;
  u_String : string;
}.

Class URLs := { url_Parse : string -> option URL }.

Definition nonempty (s : string) : bool := negb (String.eqb s "").

Definition Scope_string (s : Scope) : string :=
  match s with ScopeOrganization => "organization" | ScopeRepository => "repository" | ScopeOther s => s end.

Definition segment_unsafe (segment : string) : bool :=
  String.eqb segment "" || String.eqb segment "." || String.eqb segment ".."
  || ContainsAny segment [backslash; "/"%char] || negb (MatchString githubSegment segment).

Definition validateTargetURL `{URLs} (name raw : string) (scope : Scope) : option string :=
  if negb (bool_decide (scope = ScopeOrganization)) && negb (bool_decide (scope = ScopeRepository))
  then Some (TrimSuffix name ".url" +:+ ": scope must be organization or repository")
  else
    let refused := Some (name +:+ ": must be a canonical https://github.com URL without credentials, query, fragment, or port") in
    match url_Parse raw with
    | None => refused
    | Some u =>
        if negb (String.eqb (u_Scheme u) "https") || negb (String.eqb (u_Host u) "github.com") || nonempty (u_Port u)
           || u_User u || nonempty (u_RawQuery u) || nonempty (u_Fragment u) || nonempty (u_RawPath u)
        then refused
        else if negb (HasPrefix (u_Path u) "/") || HasSuffix (u_Path u) "/"
        then Some (name +:+ ": must not contain a trailing slash or relative path")
        else
          let segments := Split "/" (TrimPrefix (u_Path u) "/") in
          let want := if bool_decide (scope = ScopeRepository) then 2%nat else 1%nat in
          if negb (length segments =? want)%nat
          then Some (name +:+ ": " +:+ Scope_string scope +:+ " scope requires " +:+ Itoa (Z.of_nat want) +:+ " path segment(s)")
          else if existsb segment_unsafe segments then Some (name +:+ ": contains an unsafe path segment")
          else
            let canonical := "https://github.com/" +:+ Join "/" segments in
            if negb (String.eqb raw canonical) || negb (String.eqb (u_String u) canonical)
            then Some (name +:+ ": must use the exact lowercase canonical form " +:+ Quote canonical)
            else None
    end.

Definition Telemetry_Enabled (t : Telemetry) : bool := nonempty (tl_Endpoint t).

Definition validateTelemetry `{URLs} (value : Telemetry) : option string :=
  let configured := nonempty (tl_Endpoint value) || nonempty (tl_Protocol value) || tl_Traces value || tl_Metrics value
                    || negb (tl_MetricExportInterval value =? 0) || negb (tl_MetricExportTimeout value =? 0) in
  if negb configured then None
  else
    problems_error
      ((if String.eqb (tl_Endpoint value) "" then ["telemetry.endpoint: required when telemetry is configured"]
        else check (match url_Parse (tl_Endpoint value) with
                    | None => true
                    | Some u => (negb (String.eqb (u_Scheme u) "http") && negb (String.eqb (u_Scheme u) "https"))
                                || String.eqb (u_Host u) "" || u_User u || nonempty (u_RawQuery u) || nonempty (u_Fragment u)
                    end)
                   "telemetry.endpoint: must be an http or https URL without credentials, query, or fragment")
       ++ check (negb (String.eqb (tl_Protocol value) "grpc") && negb (String.eqb (tl_Protocol value) "http/protobuf"))
                "telemetry.protocol: must be grpc or http/protobuf"
       ++ check (negb (tl_Traces value) && negb (tl_Metrics value)) "telemetry: at least one of traces or metrics must be enabled"
       ++ (if tl_Metrics value
           then check (tl_MetricExportInterval value <=? 0) "telemetry.metricExportInterval: must be positive when metrics are enabled"
                ++ check (tl_MetricExportTimeout value <=? 0) "telemetry.metricExportTimeout: must be positive when metrics are enabled"
           else [])).

(** ** Targets *)

Fixpoint labels_problems (path : string) (labels : list string) (index : Z) (seen : gset string) : list string :=
  match labels with
  | [] => []
  | label :: rest =>
      let at_label := path +:+ ".labels[" +:+ Itoa index +:+ "]" in
      check (negb (MatchString prefixPattern label)) (at_label +:+ ": invalid runner label")
      ++ check (bool_decide (label ∈ seen)) (at_label +:+ ": duplicate runner label " +:+ Quote label)
      ++ labels_problems path rest (index + 1) ({[label]} ∪ seen)
  end.

(** The key of the duplicate scale-set check. *)
Definition scale_set_key (t : Target) : string :=
  t_URL t +:+ nul +:+ t_RunnerGroup t +:+ nul +:+ t_ScaleSetName t.

(** The body of the loop over the targets, with the IDs and scale sets of the
    targets before. *)
Definition target_problems `{URLs} (c : Config) (i : Z) (target : Target) (seenIDs seenScaleSets : gset string) : list string :=
  let path := "github.targets[" +:+ Itoa i +:+ "]" in
  check (negb (MatchString prefixPattern (t_ID target))) (path +:+ ".id: invalid stable target ID")
  ++ check (bool_decide (t_ID target ∈ seenIDs)) (path +:+ ".id: duplicate target ID " +:+ Quote (t_ID target))
  ++ add (validateTargetURL (path +:+ ".url") (t_URL target) (t_Scope target))
  ++ check (negb (MatchString clientIDPattern (t_ClientID target))) (path +:+ ".clientId: must be a GitHub App client ID")
  ++ check (t_InstallationID target <=? 0) (path +:+ ".installationId: must be positive")
  ++ check (negb (MatchString prefixPattern (t_SecretID target)))
           (path +:+ ".secretId: must identify a DPAPI-protected host credential")
  ++ check (bool_decide (t_Scope target = ScopeOrganization) && blank (t_RunnerGroup target))
           (path +:+ ".runnerGroup: required for organization targets")
  ++ check (bool_decide (t_Scope target = ScopeRepository) && negb (blank (t_RunnerGroup target)))
           (path +:+ ".runnerGroup: repository targets must not name an organization runner group")
  ++ check (negb (MatchString prefixPattern (t_ScaleSetName target))) (path +:+ ".scaleSetName: invalid scale-set name")
  ++ labels_problems path (t_Labels target) 0 ∅
  ++ check (bool_decide (scale_set_key target ∈ seenScaleSets))
           (path +:+ ": duplicate URL, runner group, and scale-set name")
  ++ check (t_WarmIdle target <? 0) (path +:+ ".warmIdle: must not be negative")
  ++ check (t_MaxCapacity target <=? 0) (path +:+ ".maxCapacity: must be positive")
  ++ check (t_MaxCapacity target <? t_WarmIdle target) (path +:+ ": warmIdle must not exceed maxCapacity")
  ++ check (t_Priority target <? 0) (path +:+ ".priority: must not be negative")
  ++ match t_ResourcesWorker target with
     | Some _ => add (validateWorker (path +:+ ".resources.worker") (EffectiveWorker target (r_Worker (c_Resources c))))
     | None => []
     end
  ++ check (nonempty (t_SeccompProfile target) && negb (Valid (t_SeccompProfile target)))
           (path +:+ ".seccompProfile: must be one of " +:+ Join ", " Names).

Fixpoint targets_problems `{URLs} (c : Config) (targets : list Target) (i : Z) (seenIDs seenScaleSets : gset string) : list string :=
  match targets with
  | [] => []
  | target :: rest =>
      target_problems c i target seenIDs seenScaleSets
      ++ targets_problems c rest (i + 1) ({[t_ID target]} ∪ seenIDs) ({[scale_set_key target]} ∪ seenScaleSets)
  end.

(** ** Sections of the document *)

Definition general_problems `{Unicode} (c : Config) : list string :=
  let co := c_Controller c in
  let re := gh_Retry (c_GitHub c) in
  check (negb (c_SchemaVersion c =? LegacySchemaVersion) && negb (c_SchemaVersion c =? SupportedSchemaVersion))
        ("schemaVersion: unsupported value " +:+ Itoa (c_SchemaVersion c) +:+ " (supported: "
         +:+ Itoa LegacySchemaVersion +:+ ", " +:+ Itoa SupportedSchemaVersion +:+ ")")
  ++ check (negb (MatchString hostIDPattern (ho_ID (c_Host c)))) "host.id: must be a lowercase DNS-style machine identifier"
  ++ check (negb (MatchString prefixPattern (ho_RunnerNamePrefix (c_Host c))))
           "host.runnerNamePrefix: must contain only letters, digits, dot, underscore, or hyphen and be at most 64 characters"
  ++ check ((co_ReconcileInterval co <=? 0) || (co_ShutdownPollInterval co <=? 0) || (co_LocalProbeTimeout co <=? 0)
            || (co_StartupTimeout co <=? 0))
           "controller: reconcileInterval, shutdownPollInterval, localProbeTimeout, and startupTimeout must be positive"
  ++ check (co_DesktopProbeTimeout co <? 0) "controller.desktopProbeTimeout: must not be negative"
  ++ check (co_ElevatedProbeTimeout co <? 0) "controller.elevatedProbeTimeout: must not be negative"
  ++ add (validateSafeAbsolutePath "release.compatibilityManifest" (c_CompatibilityManifest c) false)
  ++ check (match c_Targets c with [] => true | _ => false end) "github.targets: at least one target is required"
  ++ check (gh_RequestTimeout (c_GitHub c) <=? 0) "github.requestTimeout: must be positive"
  ++ check ((rt_Initial re <=? 0) || (rt_Maximum re <? rt_Initial re))
           "github.retry: maximum must be at least a positive initial duration"
  ++ check (f64_lt (rt_Multiplier re) f64_1 || f64_is_nan (rt_Multiplier re) || f64_is_inf (rt_Multiplier re))
           "github.retry.multiplier: must be a finite number at least 1"
  ++ check (f64_lt (rt_JitterRatio re) f64_0 || f64_lt f64_1 (rt_JitterRatio re) || f64_is_nan (rt_JitterRatio re))
           "github.retry.jitterRatio: must be between 0 and 1"
  ++ check (rt_MaxAttempts re <=? 0) "github.retry.maxAttempts: must be positive".

Definition resources_problems (c : Config) : list string :=
  let r := c_Resources c in
  check (r_MaximumConcurrentWorkers r <=? 0) "resources.maximumConcurrentWorkers: must be positive"
  ++ add (validateWorker "resources.worker" (r_Worker r))
  ++ add (validatePercent "resources.minimumAvailableMemoryPercent" (r_MinimumAvailableMemoryPct r) false)
  ++ (if c_SchemaVersion c =? LegacySchemaVersion then
        check (negb (f64_eq (r_MemoryCapacityIncreaseMarginPct r) f64_0))
              "resources.memoryCapacityIncreaseMarginPercent: schemaVersion 1 requires the legacy zero default"
        ++ check (negb (r_WorkerMemoryBudget r =? 0)) "resources.workerMemoryBudget: not defined by schemaVersion 1"
        ++ check (negb (r_InteractiveMaximumConcurrentWorkers r =? 0) || negb (r_InteractiveIdleThreshold r =? 0))
                 "resources.interactiveMaximumConcurrentWorkers, interactiveIdleThreshold: not defined by schemaVersion 1"
      else add (validatePercent "resources.memoryCapacityIncreaseMarginPercent" (r_MemoryCapacityIncreaseMarginPct r) false))
  ++ check ((r_InteractiveMaximumConcurrentWorkers r <? 0)
            || (r_MaximumConcurrentWorkers r <? r_InteractiveMaximumConcurrentWorkers r))
           "resources.interactiveMaximumConcurrentWorkers: must be between 0 and maximumConcurrentWorkers"
  ++ check ((0 <? r_InteractiveMaximumConcurrentWorkers r) && (r_InteractiveIdleThreshold r <=? 0))
           "resources.interactiveIdleThreshold: required when interactiveMaximumConcurrentWorkers is set"
  ++ add (validatePercent "resources.cpuBlockPercent" (r_CPUBlockPercent r) false)
  ++ add (validatePercent "resources.cpuResumePercent" (r_CPUResumePercent r) true)
  ++ check (f64_le (r_CPUBlockPercent r) (r_CPUResumePercent r)) "resources: cpuResumePercent must be lower than cpuBlockPercent"
  ++ check (r_CPUObservationWindow r <=? 0) "resources.cpuObservationWindow: must be positive"
  ++ check (r_CPUHysteresisWindow r <=? 0) "resources.cpuHysteresisWindow: must be positive".

Definition host_problems `{URLs} (c : Config) : list string :=
  let logs := c_Logs c in
  check (negb (bool_decide (pw_Policy (c_Power c) = PowerAlways)) && negb (bool_decide (pw_Policy (c_Power c) = PowerACOnly)))
        "power.policy: must be always or ac-only"
  ++ check (pw_StableACWindow (c_Power c) <=? 0) "power.stableAcWindow: must be positive"
  ++ check (dr_WarningAfter (c_Drain c) <=? 0) "drain.warningAfter: must be positive"
  ++ check (dr_IdleConfirmationWindow (c_Drain c) <=? 0) "drain.idleConfirmationWindow: must be positive"
  ++ check ((dd_StartTimeout (c_DockerDesktop c) <=? 0) || (dd_StopTimeout (c_DockerDesktop c) <=? 0))
           "dockerDesktop: startTimeout and stopTimeout must be positive"
  ++ check (c_WorkerImagePullTimeout c <? 0) "workerImage.pullTimeout: must not be negative"
  ++ check (negb (String.eqb (dl_Driver (lg_Docker logs)) "local")) "logs.docker.driver: only Docker's local driver is supported"
  ++ check ((dl_MaxSize (lg_Docker logs) =? 0) || (dl_MaxFiles (lg_Docker logs) <=? 0))
           "logs.docker: maxSize and maxFiles must be positive"
  ++ add (validateLogClass "logs.controller" (lg_Controller logs))
  ++ add (validateLogClass "logs.diagnostics" (lg_Diagnostics logs))
  ++ check (lg_RawDiagnosticMaxInput logs <? lc_MaxFileSize (lg_Diagnostics logs))
           "logs.rawDiagnosticMaxInput: must be at least logs.diagnostics.maxFileSize"
  ++ check (lg_CleanupEvery logs <=? 0) "logs.cleanupEvery: must be positive"
  ++ check (lg_WorkerFinalizationTimeout logs <=? 0) "logs.workerFinalizationTimeout: must be positive"
  ++ add (validateTelemetry (c_Telemetry c)).

(** The loop over the four directories; [seenPaths] maps a canonical path to
    the name it was configured under. *)
Fixpoint paths_problems `{Unicode, MapRange} (items : list (string * string)) (seenPaths : gmap string string) : list string :=
  match items with
  | [] => []
  | (name, path) :: rest =>
      match validateSafeAbsolutePath name path true with
      | Some err => err :: paths_problems rest seenPaths
      | None =>
          let canonical := match CanonicalWindowsLocalPath path with Ok p => p | Err _ => "" end in
          flat_map (fun '(priorPath, priorName) =>
                      check (pathsOverlap canonical priorPath)
                            (name +:+ ": must not equal, contain, or be contained by " +:+ priorName))
                   (range seenPaths)
          ++ paths_problems rest (<[canonical := name]> seenPaths)
      end
  end.

Definition config_paths (c : Config) : list (string * string) :=
  [("paths.secrets", pa_Secrets (c_Paths c)); ("paths.state", pa_State (c_Paths c));
   ("paths.logs", pa_Logs (c_Paths c)); ("paths.diagnostics", pa_Diagnostics (c_Paths c))].

Definition problems `{URLs, Unicode, MapRange} (c : Config) : list string :=
  general_problems c ++ targets_problems c (c_Targets c) 0 ∅ ∅ ++ resources_problems c ++ host_problems c
  ++ paths_problems (config_paths c) ∅.

(** [Config.Validate]. *)
Definition Config_Validate `{URLs, Unicode, MapRange} (c : Config) : option string :=
  match problems_error (problems c) with Some e => Some ("invalid configuration: " +:+ e) | None => None end.
