(* ===== verification/ValidateFacts.v ===== *)
(** What a configuration accepted by [Config.Validate] satisfies, and that
    nothing else is required: validation decides [valid_config]. *)

From S2P Require Import Prelude Float64 GoStrings Model Config Regexp GoText Validate.
From Stdlib Require Import Ascii.

(** ** Emptiness of problem lists *)

Lemma check_nil b m : check b m = [] <-> b = false.
Proof. by destruct b. Qed.

Lemma add_nil e : add e = [] <-> e = None.
Proof. by destruct e. Qed.

Lemma problems_error_None l : problems_error l = None <-> l = [].
Proof. by destruct l. Qed.

Lemma app_nil_iff {A} (l k : list A) : l ++ k = [] <-> l = [] /\ k = [].
Proof. split; [apply app_nil|by intros [-> ->]]. Qed.

Lemma nonempty_false s : nonempty s = false <-> s = "".
Proof. unfold nonempty. rewrite negb_false_iff. apply String.eqb_eq. Qed.

(** Case analysis on the first test of a result. *)
Ltac outer_if H :=
  match goal with
  | |- (if ?b then _ else _) = _ -> _ => destruct b eqn:H
  | |- (if ?b then _ else _) = _ => destruct b eqn:H
  end.

Create Rewrite HintDb problems.
#[export] Hint Rewrite @app_nil_iff check_nil add_nil problems_error_None negb_false_iff orb_false_iff nonempty_false
  Z.leb_gt Z.ltb_ge Z.eqb_neq Z.eqb_eq String.eqb_eq String.eqb_neq bool_decide_eq_false bool_decide_eq_true
  andb_true_iff andb_false_iff : problems.

(** ** Patterns *)

Lemma over_of_classes (P : ascii -> bool) s r :
  over (fun a => P a = true) r -> MatchString r s = true -> string_forall P s = true.
Proof. intros Ho Hm. apply MatchString_lang in Hm. by eapply over_lang. Qed.

Lemma name_class_without a b : byte_of a < 45 -> name_class b = true -> negb (Ascii.eqb b a) = true.
Proof.
  intros Ha Hb. destruct (Ascii.eqb_spec b a) as [->|]; [exfalso|done].
  revert Hb. unfold name_class, alnum, upper, lower, digit, byte_range, one_of. simpl.
  rewrite !orb_true_iff, !andb_true_iff, !Z.leb_le, !Ascii.eqb_eq.
  change (byte_of "A") with 65. change (byte_of "a") with 97. change (byte_of "0") with 48.
  intros [[[|]|]|[->|[->|[->|]]]]; try lia; vm_compute in Ha; done.
Qed.

Lemma prefixPattern_without a s : byte_of a < 45 -> MatchString prefixPattern s = true -> without a s = true.
Proof.
  intros Ha. apply over_of_classes. split; [|apply over_up_to].
  - intros b Hb. apply name_class_without; [done|]. unfold name_class. by rewrite Hb.
  - intros b Hb. by apply name_class_without.
Qed.

(** A matched name is not empty and has at most 64 bytes. *)
Lemma prefixPattern_length s : MatchString prefixPattern s = true -> (1 <= String.length s <= 64)%nat.
Proof.
  intros Hm%MatchString_lang. split; [|by eapply longest_lang in Hm].
  destruct s; [|simpl; lia]. by apply lang_nonempty in Hm.
Qed.

(** ** Paths *)

(** Neither of two canonical paths is equal to or above the other. *)
Definition separate (p q : string) : Prop :=
  ~ Split backslash p `prefix_of` Split backslash q /\ ~ Split backslash q `prefix_of` Split backslash p.

Lemma pathsOverlap_separate p q : pathsOverlap p q = false <-> separate p q.
Proof.
  unfold pathsOverlap, separate, sep. rewrite !orb_false_iff, !Split_prefix, String.eqb_neq.
  destruct (HasPrefix p _), (HasPrefix q _); naive_solver.
Qed.

Section Validate.
Context {urls : URLs} {unicode : Unicode} {order : MapRange}.

Definition directory_path (raw : string) : Prop :=
  exists canonical, CanonicalWindowsLocalPath raw = Ok canonical /\ HasSuffix canonical ".yaml" = false.

Definition canonical_of (raw : string) : string :=
  match CanonicalWindowsLocalPath raw with Ok p => p | Err _ => "" end.

Lemma validateSafeAbsolutePath_None name raw directory :
  validateSafeAbsolutePath name raw directory = None <->
  exists canonical, CanonicalWindowsLocalPath raw = Ok canonical /\ directory && HasSuffix canonical ".yaml" = false.
Proof.
  unfold validateSafeAbsolutePath. destruct (CanonicalWindowsLocalPath raw) as [p|e].
  - split.
    + intros Hd. exists p. by destruct (directory && HasSuffix p ".yaml").
    + intros (q & [= <-] & ->). done.
  - split; [done|by intros (? & ? & ?)].
Qed.

Lemma flat_map_nil {A B} (f : A -> list B) l : flat_map f l = [] <-> forall x, x ∈ l -> f x = [].
Proof.
  induction l as [|x l IH]; simpl; [split; [intros _ y Hy; by apply elem_of_nil in Hy|done]|].
  rewrite app_nil_iff, IH. setoid_rewrite elem_of_cons. naive_solver.
Qed.

(** The loop over the directories accepts exactly directories that are
    pairwise separate and separate from the ones before. *)
Lemma paths_problems_nil items seen :
  paths_problems items seen = [] <->
  Forall (fun item => directory_path item.2) items
  /\ ForallOrdPairs separate (map (fun item => canonical_of item.2) items)
  /\ (forall item prior, item ∈ items -> is_Some (seen !! prior) -> separate (canonical_of item.2) prior).
Proof.
  revert seen. induction items as [|[name path] items IH]; intros seen.
  { simpl. split; [|done]. intros _. split_and!; [constructor|constructor|]. intros ? ? Hin. by apply elem_of_nil in Hin. }
  cbn [paths_problems]. destruct (validateSafeAbsolutePath name path true) as [e|] eqn:Hv.
  { split; [done|]. intros [Hall _]. inversion Hall as [|? ? (p & Hp & Hy)]; subst.
    assert (validateSafeAbsolutePath name path true = None); [|congruence].
    apply validateSafeAbsolutePath_None. by exists p. }
  apply validateSafeAbsolutePath_None in Hv as (p & Hp & Hy).
  assert (Hc : canonical_of path = p) by (unfold canonical_of; by rewrite Hp).
  rewrite Hp, app_nil_iff, IH, flat_map_nil.
  assert (Hseen : (forall x, x ∈ range seen ->
            (let '(priorPath, priorName) := x in
             check (pathsOverlap p priorPath) (name +:+ ": must not equal, contain, or be contained by " +:+ priorName)) = [])
          <-> forall prior, is_Some (seen !! prior) -> separate p prior).
  { split.
    - intros Hall prior [n Hn]. apply pathsOverlap_separate. apply elem_of_range in Hn.
      specialize (Hall _ Hn). by apply check_nil in Hall.
    - intros Hall [prior n] Hin%elem_of_range. apply check_nil, pathsOverlap_separate. eauto. }
  rewrite Hseen. clear Hseen. split.
  - intros (Hfirst & Hall & Hpairs & Hrest). split_and!.
    + constructor; [by exists p|done].
    + simpl. rewrite Hc. constructor; [|done]. apply List.Forall_map, Forall_forall. intros [n q] Hin.
      destruct (Hrest (n, q) p Hin) as [H3 H4]; [by rewrite lookup_insert_eq|]. by split.
    + intros item prior [->|Hin]%elem_of_cons Hs; [simpl; rewrite Hc; auto|].
      apply Hrest; [done|]. rewrite lookup_insert. case_decide; [by eexists|done].
  - intros (Hall & Hpairs & Hrest). inversion Hall; subst. simpl in Hpairs. inversion Hpairs as [|? ? Hhead Htail]; subst.
    split_and!; [|done|done|].
    + intros prior Hs. apply (Hrest (name, path) prior); [left|done].
    + intros item prior Hin Hs. rewrite lookup_insert in Hs. case_decide.
      * subst. rewrite List.Forall_map, Forall_forall in Hhead. destruct (Hhead _ Hin). by split.
      * apply Hrest; [by right|done].
Qed.

(** ** Target URLs *)

Definition scope_segments (s : Scope) : option nat :=
  match s with ScopeOrganization => Some 1%nat | ScopeRepository => Some 2%nat | ScopeOther _ => None end.

Definition github_segment (s : string) : Prop := s <> "." /\ s <> ".." /\ lang githubSegment s.

Definition slash : ascii := "/"%char.

(** The canonical URL of an owner, or of a repository, and what [url.Parse]
    makes of it. *)
Definition target_url (raw : string) (scope : Scope) : Prop :=
  exists segments,
    Some (length segments) = scope_segments scope /\ Forall github_segment segments
    /\ raw = "https://github.com/" +:+ Join "/" segments
    /\ exists u, url_Parse raw = Some u
       /\ (u_Scheme u = "https" /\ u_Host u = "github.com" /\ u_Port u = "" /\ u_User u = false /\ u_RawQuery u = ""
           /\ u_Fragment u = "" /\ u_RawPath u = "")
       /\ u_Path u = "/" +:+ Join "/" segments /\ u_String u = raw.

Lemma githubSegment_over a s : (a = slash \/ a = backslash \/ byte_of a = 0) -> lang githubSegment s -> without a s = true.
Proof.
  intros Ha. apply over_lang. split; intros b Hb; apply negb_true_iff, Ascii.eqb_neq; intros ->;
    (destruct Ha as [->|[->|Ha]]; [by vm_compute in Hb|by vm_compute in Hb|]);
    revert Hb; unfold lower, digit, byte_range, one_of; simpl;
    rewrite !orb_true_iff, !andb_true_iff, !Z.leb_le, !Ascii.eqb_eq;
    change (byte_of "a") with 97; change (byte_of "0") with 48;
    (intros [[|]|[->|[->|[->|]]]]; [lia|lia|by vm_compute in Ha..|done]).
Qed.

Lemma ContainsAny_without s l : ContainsAny s l = false <-> Forall (fun a => without a s = true) l.
Proof.
  induction s as [|b s IH]; simpl.
  - split; [|done]. intros _. by apply Forall_true.
  - rewrite orb_false_iff, IH. unfold without, one_of. simpl. rewrite !Forall_forall. split.
    + intros [Hb Hs] a Ha. rewrite Hs by done. rewrite andb_true_r. apply negb_true_iff.
      destruct (Ascii.eqb b a) eqn:He; [|done]. assert (existsb (Ascii.eqb b) l = true); [|congruence].
      apply existsb_exists. exists a. split; [by apply list_elem_of_In|done].
    + intros Hall. split; [|intros a Ha; specialize (Hall a Ha); by apply andb_prop in Hall as [_ ?]].
      destruct (existsb (Ascii.eqb b) l) eqn:He; [|done]. apply existsb_exists in He as (a & Ha%list_elem_of_In & Hb).
      specialize (Hall a Ha). rewrite Hb in Hall. done.
Qed.

Lemma segment_unsafe_false s : segment_unsafe s = false <-> github_segment s.
Proof.
  unfold segment_unsafe, github_segment.
  rewrite !orb_false_iff, negb_false_iff, MatchString_lang, !String.eqb_neq, ContainsAny_without.
  split; [tauto|]. intros (H1 & H2 & H3). split_and!; try done.
  - intros ->. by apply lang_nonempty in H3.
  - repeat constructor; apply githubSegment_over; auto.
Qed.

Lemma existsb_false {A} (f : A -> bool) l : existsb f l = false <-> Forall (fun x => f x = false) l.
Proof.
  induction l as [|x l IH]; simpl; [by split|]. rewrite orb_false_iff, IH. split; [intros []; by constructor|].
  by inversion 1.
Qed.

Lemma github_segments_split segments :
  segments <> [] -> Forall github_segment segments ->
  Split slash (Join "/" segments) = segments /\ HasSuffix ("/" +:+ Join "/" segments) "/" = false.
Proof.
  intros Hne Hall.
  assert (Hsplit : Split slash (Join "/" segments) = segments).
  { apply (Split_Join slash); [done|]. eapply Forall_impl; [exact Hall|]. intros s (_ & _ & Hs). apply githubSegment_over; auto. }
  split; [done|]. destruct (HasSuffix _ _) eqn:Hsuf; [|done].
  apply HasSuffix_sep in Hsuf as [Hlast _].
  change (Split "/" ("/" +:+ Join "/" segments)) with (Split slash (String slash (Join "/" segments))) in Hlast.
  rewrite Split_cons_sep, Hsplit in Hlast.
  destruct segments as [|s segments _] using rev_ind; [done|].
  rewrite app_comm_cons, last_snoc in Hlast. injection Hlast as ->.
  apply Forall_app in Hall as [_ Hall]. inversion Hall as [|? ? (_ & _ & Hs)]; subst. by apply lang_nonempty in Hs.
Qed.

(** The check of a target's URL decides [target_url]. *)
Lemma validateTargetURL_None name raw scope : validateTargetURL name raw scope = None <-> target_url raw scope.
Proof.
  unfold validateTargetURL. split.
  - outer_if Hscope; [done|]. destruct (url_Parse raw) as [u|] eqn:Hu; [|done]. cbv zeta.
    outer_if Hfields; [done|]. outer_if Hslash; [done|]. outer_if Hcount; [done|]. outer_if Hsafe; [done|].
    outer_if Hcanonical; [done|]. intros _.
    apply negb_false_iff, Nat.eqb_eq in Hcount. apply existsb_false in Hsafe.
    autorewrite with problems in Hscope, Hfields, Hslash, Hcanonical.
    destruct Hslash as [(rest & Hrest)%HasPrefix_spec Hsuf].
    change "/" with (String slash "") in *. change "/"%char with slash in *.
    rewrite Hrest, TrimPrefix_app in Hcount, Hsafe, Hcanonical. rewrite Join_Split in Hcanonical.
    exists (Split slash rest). rewrite Join_Split. split_and!.
    + rewrite Hcount. by destruct Hscope as [->| ->].
    + eapply Forall_impl; [exact Hsafe|]. intros s. apply segment_unsafe_false.
    + tauto.
    + exists u. intuition congruence.
  - intros (segments & Hlen & Hall & Hraw & u & Hu & (F1 & F2 & F3 & F4 & F5 & F6 & F7) & Hpath & Hstr).
    assert (Hne : segments <> []) by (intros ->; by destruct scope).
    destruct (github_segments_split segments Hne Hall) as [Hsplit Hsuf].
    outer_if Hscope; [autorewrite with problems in Hscope; by destruct scope, Hscope|].
    rewrite Hu, F1, F2, F3, F4, F5, F6, F7, Hpath, TrimPrefix_app, Hsuf, Hstr. change (Split "/") with (Split slash). rewrite Hsplit, <- Hraw. unfold nonempty. rewrite !String.eqb_refl.
    cbv zeta. cbn [negb orb]. rewrite (proj2 (HasPrefix_spec _ _)) by eauto. cbn [negb orb].
    outer_if Hcount; [exfalso; apply negb_true_iff, Nat.eqb_neq in Hcount; apply Hcount; destruct scope; cbn in Hlen; try discriminate; by injection Hlen as ->|].
    outer_if Hsafe; [exfalso|done].
    assert (existsb segment_unsafe segments = false); [|congruence].
    apply existsb_false. eapply Forall_impl; [exact Hall|]. intros s. apply segment_unsafe_false.
Qed.
Lemma target_url_without_nul raw scope : target_url raw scope -> without (ascii_of_N 0) raw = true.
Proof.
  intros (segments & _ & Hall & -> & _). unfold without. rewrite string_forall_app.
  change (string_forall _ "https://github.com/") with true. cbn [andb].
  induction Hall as [|s l Hs Hl IH]; [done|].
  assert (Hw : string_forall (fun a => negb (Ascii.eqb a (ascii_of_N 0))) s = true).
  { apply (githubSegment_over (ascii_of_N 0)); [by right; right|apply Hs]. }
  destruct l as [|q l]; [done|].
  change (Join "/" (s :: q :: l)) with (s +:+ "/" +:+ Join "/" (q :: l)). rewrite !string_forall_app, Hw, IH. done.
Qed.

(** ** Labels and targets *)

Lemma labels_problems_nil path labels index seen :
  labels_problems path labels index seen = [] <->
  Forall (fun l => lang prefixPattern l) labels /\ NoDup labels /\ (forall l, l ∈ labels -> l ∉ seen).
Proof.
  revert index seen. induction labels as [|l labels IH]; intros index seen; cbn [labels_problems].
  { split; [|done]. intros _. split_and!; [constructor|constructor|]. intros l Hl. by apply elem_of_nil in Hl. }
  rewrite !app_nil_iff, !check_nil, negb_false_iff, MatchString_lang, bool_decide_eq_false.
  rewrite IH, Forall_cons, NoDup_cons. setoid_rewrite elem_of_cons. set_solver.
Qed.

Definition worker_ok (w : WorkerProfile) : Prop :=
  f64_le (wp_CPUs w) f64_0 = false /\ f64_is_nan (wp_CPUs w) = false /\ f64_is_inf (wp_CPUs w) = false
  /\ wp_Memory w <> 0 /\ wp_Memory w <= wp_MemorySwap w /\ 0 < wp_PIDs w.

Lemma validateWorker_None name w : validateWorker name w = None <-> worker_ok w.
Proof. unfold validateWorker, worker_ok. autorewrite with problems. tauto. Qed.

Record target_ok (c : Config) (t : Target) : Prop := {
  to_id : lang prefixPattern (t_ID t);
  to_url : target_url (t_URL t) (t_Scope t);
  to_client : lang clientIDPattern (t_ClientID t);
  to_installation : 0 < t_InstallationID t;
  to_secret : lang prefixPattern (t_SecretID t);
  to_group : t_Scope t = ScopeOrganization <-> blank (t_RunnerGroup t) = false;
  to_scale_set : lang prefixPattern (t_ScaleSetName t);
  to_labels : Forall (fun l => lang prefixPattern l) (t_Labels t) /\ NoDup (t_Labels t);
  to_capacity : 0 <= t_WarmIdle t <= t_MaxCapacity t /\ 0 < t_MaxCapacity t;
  to_priority : 0 <= t_Priority t;
  to_worker : is_Some (t_ResourcesWorker t) -> worker_ok (EffectiveWorker t (r_Worker (c_Resources c)));
  to_seccomp : t_SeccompProfile t = "" \/ t_SeccompProfile t = UserNS;
}.

Lemma Valid_spec name : Valid name = true <-> name = UserNS.
Proof. unfold Valid. simpl. rewrite orb_false_r. apply String.eqb_eq. Qed.

Lemma group_rule (scope : Scope) (b : bool) :
  scope = ScopeOrganization \/ scope = ScopeRepository ->
  (scope = ScopeOrganization <-> b = false) <->
  ((scope <> ScopeOrganization \/ b = false) /\ (scope <> ScopeRepository \/ b = true)).
Proof. intros [->| ->]; destruct b; intuition congruence. Qed.

#[local] Opaque prefixPattern clientIDPattern hostIDPattern.

Lemma target_problems_nil c i t ids sets :
  target_problems c i t ids sets = [] <-> target_ok c t /\ (t_ID t ∉ ids) /\ (scale_set_key t ∉ sets).
Proof.
  unfold target_problems. rewrite !app_nil_iff, labels_problems_nil, add_nil, validateTargetURL_None.
  autorewrite with problems. rewrite !MatchString_lang.
  assert (Hworker : match t_ResourcesWorker t with
     | Some _ => add (validateWorker (("github.targets[" +:+ Itoa i +:+ "]") +:+ ".resources.worker") (EffectiveWorker t (r_Worker (c_Resources c))))
     | None => [] end = [] <->  (is_Some (t_ResourcesWorker t) -> worker_ok (EffectiveWorker t (r_Worker (c_Resources c))))).
  { destruct (t_ResourcesWorker t) as [o|]; [|split; [intros _ [? ?]; done|done]].
    rewrite add_nil, validateWorker_None. split; [done|]. intros Hx. apply Hx. by eexists. }
  assert (Hseccomp : (t_SeccompProfile t = "" \/ Valid (t_SeccompProfile t) = true)
                     <-> (t_SeccompProfile t = "" \/ t_SeccompProfile t = UserNS)) by (by rewrite Valid_spec).
  assert (Hscope : target_url (t_URL t) (t_Scope t) -> t_Scope t = ScopeOrganization \/ t_Scope t = ScopeRepository).
  { intros (segments & Hlen & _). destruct (t_Scope t); auto. done. }
  rewrite Hworker, Hseccomp. split.
  - intros (Hi & Hfresh & Hu & Hcl & Hin & Hse & Hg1 & Hg2 & Hss & (Hl1 & Hl2 & _) & Hkey & Hw & Hm & Hwm & Hp & Hov & Hsp).
    split; [|by split]. constructor; try assumption; try lia; [|by split].
    apply group_rule; [by apply Hscope|by split].
  - intros ([Hi Hu Hcl Hin Hse Hg Hss [Hl1 Hl2] Hw Hp Hov Hsp] & Hfresh & Hkey).
    apply group_rule in Hg as [Hg1 Hg2]; [|by apply Hscope]. repeat (split; [first [assumption|lia|split; assumption|idtac]|]); try assumption.
    intros l _. apply not_elem_of_empty.
Qed.

(** The key of the duplicate check identifies the scale set. *)
Lemma scale_set_key_inj c t u :
  target_ok c t -> target_ok c u -> scale_set_key t = scale_set_key u ->
  t_URL t = t_URL u /\ t_RunnerGroup t = t_RunnerGroup u /\ t_ScaleSetName t = t_ScaleSetName u.
Proof.
  intros Ht Hu. unfold scale_set_key, nul. intros Heq. apply (f_equal (Split (ascii_of_N 0))) in Heq.
  assert (Hx : forall v, target_ok c v ->
     Split (ascii_of_N 0) (t_URL v +:+ String (ascii_of_N 0) "" +:+ t_RunnerGroup v +:+ String (ascii_of_N 0) "" +:+ t_ScaleSetName v)
     = [t_URL v] ++ Split (ascii_of_N 0) (t_RunnerGroup v) ++ [t_ScaleSetName v]).
  { intros v Hv. rewrite !string_app_one, !Split_app_sep.
    rewrite (Split_without _ (t_URL v)) by (eapply target_url_without_nul, (to_url _ _ Hv)).
    rewrite (Split_without _ (t_ScaleSetName v)); [done|].
    apply prefixPattern_without; [done|]. apply MatchString_lang, (to_scale_set _ _ Hv). }
  rewrite !Hx in Heq by done. simpl in Heq. injection Heq as Hurl Heq. apply app_inj_tail in Heq as [Hgroup Hname].
  apply Split_inj in Hgroup. done.
Qed.

Lemma targets_problems_nil c targets i ids sets :
  targets_problems c targets i ids sets = [] <->
  Forall (target_ok c) targets /\ NoDup (t_ID <$> targets) /\ NoDup (scale_set_key <$> targets)
  /\ (forall t, t ∈ targets -> (t_ID t ∉ ids) /\ (scale_set_key t ∉ sets)).
Proof.
  revert i ids sets. induction targets as [|t targets IH]; intros i ids sets; cbn [targets_problems].
  { split; [|done]. intros _. split_and!; try constructor; by apply elem_of_nil in H. }
  rewrite app_nil_iff, target_problems_nil, IH, !fmap_cons, Forall_cons, !NoDup_cons.
  setoid_rewrite list_elem_of_fmap. setoid_rewrite elem_of_cons. split.
  - intros ((Hok & Hid & Hkey) & Hall & Hids & Hkeys & Hrest). split_and!; try done.
    + intros (u & Heq & Hu). destruct (Hrest u Hu). set_solver.
    + intros (u & Heq & Hu). destruct (Hrest u Hu). set_solver.
    + intros u [->|Hu]; [done|]. destruct (Hrest u Hu). set_solver.
  - intros ([Hok Hall] & [Hid Hids] & [Hkey Hkeys] & Hrest). destruct (Hrest t (or_introl eq_refl)).
    split_and!; try done. intros u Hu. destruct (Hrest u (or_intror Hu)). set_solver.
Qed.

Definition scale_set_triple (t : Target) : string * string * string := (t_URL t, t_RunnerGroup t, t_ScaleSetName t).

Lemma scale_set_keys_NoDup c targets :
  Forall (target_ok c) targets -> NoDup (scale_set_key <$> targets) <-> NoDup (scale_set_triple <$> targets).
Proof.
  induction 1 as [|t targets Ht Hall IH]; [split; intros _; constructor|]. rewrite !fmap_cons, !NoDup_cons, IH.
  assert (Hmem : scale_set_key t ∈ scale_set_key <$> targets <-> scale_set_triple t ∈ scale_set_triple <$> targets); [|tauto].
  rewrite !list_elem_of_fmap. rewrite Forall_forall in Hall. split.
  - intros (u & Heq & Hu). exists u. split; [|done].
    apply (scale_set_key_inj c) in Heq as (? & ? & ?); auto. unfold scale_set_triple. congruence.
  - intros (u & Heq & Hu). exists u. split; [|done]. unfold scale_set_triple in Heq. unfold scale_set_key. congruence.
Qed.

(** ** The whole document *)

Definition percent_ok (value : Float64.float64) (allowZero : bool) : Prop :=
  f64_is_nan value = false /\ f64_is_inf value = false
  /\ f64_lt value (if allowZero then f64_0 else f64_smallest) = false /\ f64_lt f64_100 value = false.

Lemma validatePercent_None name value allowZero : validatePercent name value allowZero = None <-> percent_ok value allowZero.
Proof.
  unfold validatePercent, percent_ok. cbv zeta.
  destruct (_ || _) eqn:Hx; [|rewrite !orb_false_iff in Hx; tauto].
  split; [done|]. intros (H1 & H2 & H3 & H4). by rewrite H1, H2, H3, H4 in Hx.
Qed.

Definition log_class_ok (l : LogClass) : Prop :=
  lc_MaxFileSize l <> 0 /\ 0 < lc_Retention l /\ lc_MaxFileSize l <= lc_TotalCap l.

Lemma validateLogClass_None name l : validateLogClass name l = None <-> log_class_ok l.
Proof. unfold validateLogClass, log_class_ok. autorewrite with problems. tauto. Qed.

Definition retry_ok (r : Retry) : Prop :=
  0 < rt_Initial r <= rt_Maximum r
  /\ (f64_lt (rt_Multiplier r) f64_1 = false /\ f64_is_nan (rt_Multiplier r) = false /\ f64_is_inf (rt_Multiplier r) = false)
  /\ (f64_lt (rt_JitterRatio r) f64_0 = false /\ f64_lt f64_1 (rt_JitterRatio r) = false /\ f64_is_nan (rt_JitterRatio r) = false)
  /\ 0 < rt_MaxAttempts r.

Definition controller_ok (co : Controller) : Prop :=
  0 < co_ReconcileInterval co /\ 0 < co_ShutdownPollInterval co /\ 0 < co_LocalProbeTimeout co
  /\ 0 < co_StartupTimeout co /\ 0 <= co_DesktopProbeTimeout co /\ 0 <= co_ElevatedProbeTimeout co.

Definition resources_ok (schema : Z) (r : Resources) : Prop :=
  0 < r_MaximumConcurrentWorkers r /\ worker_ok (r_Worker r) /\ percent_ok (r_MinimumAvailableMemoryPct r) false
  /\ (if decide (schema = LegacySchemaVersion)
      then f64_eq (r_MemoryCapacityIncreaseMarginPct r) f64_0 = true /\ r_WorkerMemoryBudget r = 0
           /\ r_InteractiveMaximumConcurrentWorkers r = 0 /\ r_InteractiveIdleThreshold r = 0
      else percent_ok (r_MemoryCapacityIncreaseMarginPct r) false)
  /\ 0 <= r_InteractiveMaximumConcurrentWorkers r <= r_MaximumConcurrentWorkers r
  /\ (0 < r_InteractiveMaximumConcurrentWorkers r -> 0 < r_InteractiveIdleThreshold r)
  /\ percent_ok (r_CPUBlockPercent r) false /\ percent_ok (r_CPUResumePercent r) true
  /\ f64_le (r_CPUBlockPercent r) (r_CPUResumePercent r) = false
  /\ 0 < r_CPUObservationWindow r /\ 0 < r_CPUHysteresisWindow r.

Definition host_ok (c : Config) : Prop :=
  (pw_Policy (c_Power c) = PowerAlways \/ pw_Policy (c_Power c) = PowerACOnly)
  /\ 0 < pw_StableACWindow (c_Power c) /\ 0 < dr_WarningAfter (c_Drain c) /\ 0 < dr_IdleConfirmationWindow (c_Drain c)
  /\ 0 < dd_StartTimeout (c_DockerDesktop c) /\ 0 < dd_StopTimeout (c_DockerDesktop c) /\ 0 <= c_WorkerImagePullTimeout c
  /\ dl_Driver (lg_Docker (c_Logs c)) = "local" /\ dl_MaxSize (lg_Docker (c_Logs c)) <> 0
  /\ 0 < dl_MaxFiles (lg_Docker (c_Logs c))
  /\ log_class_ok (lg_Controller (c_Logs c)) /\ log_class_ok (lg_Diagnostics (c_Logs c))
  /\ lc_MaxFileSize (lg_Diagnostics (c_Logs c)) <= lg_RawDiagnosticMaxInput (c_Logs c)
  /\ 0 < lg_CleanupEvery (c_Logs c) /\ 0 < lg_WorkerFinalizationTimeout (c_Logs c)
  /\ validateTelemetry (c_Telemetry c) = None.

(** The configurations policy code may see. *)
Record valid_config (c : Config) : Prop := {
  vc_schema : c_SchemaVersion c = LegacySchemaVersion \/ c_SchemaVersion c = SupportedSchemaVersion;
  vc_host : lang hostIDPattern (ho_ID (c_Host c)) /\ lang prefixPattern (ho_RunnerNamePrefix (c_Host c));
  vc_controller : controller_ok (c_Controller c);
  vc_manifest : exists p, CanonicalWindowsLocalPath (c_CompatibilityManifest c) = Ok p;
  vc_request : 0 < gh_RequestTimeout (c_GitHub c);
  vc_retry : retry_ok (gh_Retry (c_GitHub c));
  vc_some_target : c_Targets c <> [];
  vc_targets : Forall (target_ok c) (c_Targets c);
  vc_ids : NoDup (t_ID <$> c_Targets c);
  vc_scale_sets : NoDup (scale_set_triple <$> c_Targets c);
  vc_resources : resources_ok (c_SchemaVersion c) (c_Resources c);
  vc_services : host_ok c;
  vc_directories : Forall (fun item => directory_path item.2) (config_paths c);
  vc_separate : ForallOrdPairs separate (map (fun item => canonical_of item.2) (config_paths c));
}.

Lemma general_problems_nil c :
  general_problems c = [] <->
  (c_SchemaVersion c = LegacySchemaVersion \/ c_SchemaVersion c = SupportedSchemaVersion)
  /\ (lang hostIDPattern (ho_ID (c_Host c)) /\ lang prefixPattern (ho_RunnerNamePrefix (c_Host c)))
  /\ controller_ok (c_Controller c)
  /\ (exists p, CanonicalWindowsLocalPath (c_CompatibilityManifest c) = Ok p)
  /\ 0 < gh_RequestTimeout (c_GitHub c) /\ retry_ok (gh_Retry (c_GitHub c)) /\ c_Targets c <> [].
Proof.
  unfold general_problems, controller_ok, retry_ok. cbv zeta. autorewrite with problems.
  rewrite !MatchString_lang, validateSafeAbsolutePath_None.
  assert (Hmanifest : (exists p, CanonicalWindowsLocalPath (c_CompatibilityManifest c) = Ok p /\ false && HasSuffix p ".yaml" = false)
            <-> (exists p, CanonicalWindowsLocalPath (c_CompatibilityManifest c) = Ok p)) by (cbn [andb]; naive_solver).
  assert (Htargets : match c_Targets c with [] => true | _ => false end = false <-> c_Targets c <> []) by (by destruct (c_Targets c)).
  rewrite Hmanifest, Htargets. tauto.
Qed.

Lemma resources_problems_nil c : resources_problems c = [] <-> resources_ok (c_SchemaVersion c) (c_Resources c).
Proof.
  unfold resources_problems, resources_ok. cbv zeta. rewrite !app_nil_iff.
  assert (Hschema : forall l k : list string, (if c_SchemaVersion c =? LegacySchemaVersion then l else k) = []
             <-> (if decide (c_SchemaVersion c = LegacySchemaVersion) then l = [] else k = [])).
  { intros l k. destruct (Z.eqb_spec (c_SchemaVersion c) LegacySchemaVersion); by case_decide. }
  rewrite Hschema. case_decide; autorewrite with problems; rewrite !validateWorker_None, !validatePercent_None; intuition lia.
Qed.

Lemma host_problems_nil c : host_problems c = [] <-> host_ok c.
Proof.
  unfold host_problems, host_ok. cbv zeta. autorewrite with problems. rewrite !validateLogClass_None. tauto.
Qed.

Lemma Config_Validate_decides c : Config_Validate c = None <-> valid_config c.
Proof.
  unfold Config_Validate. transitivity (problems c = []); [by destruct (problems c)|].
  unfold problems. rewrite !app_nil_iff, general_problems_nil, targets_problems_nil, resources_problems_nil, host_problems_nil,
    paths_problems_nil. split.
  - intros ((? & ? & ? & ? & ? & ? & ?) & (Hok & ? & Hkeys & _) & ? & ? & ? & ? & _).
    constructor; try assumption. by eapply scale_set_keys_NoDup.
  - intros []. split; [by repeat (split; [assumption|])|].
    split; [|split; [assumption|split; [assumption|split; [assumption|split; [assumption|]]]]].
    + split; [assumption|]. split; [assumption|]. split; [by eapply scale_set_keys_NoDup|]. intros t _. split; apply not_elem_of_empty.
    + intros item prior _ [? Hs]. by rewrite lookup_empty in Hs.
Qed.

(** C8: [Config.Validate] decides the well-formedness of a configuration: it
    returns no error exactly for the documents whose every field is in range,
    whose target IDs and scale sets are pairwise distinct, whose URLs are
    canonical and whose four directories neither contain nor equal one another
    (in the order of path segments). *)
Theorem Config_Validate_spec c : Config_Validate c = None <-> valid_config c.
Proof. apply Config_Validate_decides. Qed.
End Validate.
