(* ===== verification/Yaml.v ===== *)
(** Loading of the host configuration (internal/config/config.go: [Load], the
    checks on the YAML syntax tree and the scalar types [Duration] and
    [ByteSize]).

    A syntax tree is what the YAML parser hands out: nodes in a heap, linked by
    pointers, since an alias shares the node of its anchor.  A pointer outside
    the heap is nil.  The parser and the reflective decoder into [Config] are a
    parameter ([YAML]). *)

From S2P Require Import Prelude Float64 GoStrings Model Config Regexp GoText Validate.
From Stdlib Require Import Ascii SpecFloat.

Inductive Kind := DocumentNode | SequenceNode | MappingNode | ScalarNode | AliasNode.

#[export] Instance Kind_eq_dec : EqDecision Kind.
Proof. solve_decision. Defined.

Abbreviation pointer := nat (only parsing).

Record Node := mkNode {
  n_Kind : Kind;
  n_Tag : string;
  n_Value : string;
  n_Alias : option pointer;
  n_Content : list pointer;
}.

Abbreviation heap := (list Node) (only parsing).

Definition is_kind (k : Kind) (n : Node) : bool := bool_decide (n_Kind n = k).

(** ** Scalars *)

(** [time.ParseDuration]: a number without its fraction, at most 2^63. *)
Fixpoint leadingInt (x : Z) (s : string) : option Z :=
  match s with
  | EmptyString => Some x
  | String a rest =>
      if (2 ^ 63 / 10) <? x then None
      else let x := x * 10 + (byte_of a - 48) in
           if 2 ^ 63 <? x then None else leadingInt x rest
  end.

(** The digits after the point; those beyond the precision are dropped. *)
Fixpoint leadingFraction (x : Z) (scale : Float64.float64) (overflow : bool) (s : string) : Z * Float64.float64 :=
  match s with
  | EmptyString => (x, scale)
  | String a rest =>
      if overflow then leadingFraction x scale true rest
      else if ((2 ^ 63 - 1) / 10) <? x then leadingFraction x scale true rest
      else let y := x * 10 + (byte_of a - 48) in
           if 2 ^ 63 <? y then leadingFraction x scale true rest
           else leadingFraction y (f64_mul scale (f64_of_Z 10)) false rest
  end.

Definition Microsecond : Z := 1000.
Definition Millisecond : Z := 1000000.
Definition Hour : Z := 60 * Minute.

(** The unit names; the micro sign and the Greek mu are two UTF-8 bytes each. *)
Definition unitMap (u : string) : option Z :=
  if String.eqb u "ns" then Some Nanosecond
  else if String.eqb u "us" || String.eqb u (byte_string [194; 181; 115]) || String.eqb u (byte_string [206; 188; 115])
  then Some Microsecond
  else if String.eqb u "ms" then Some Millisecond
  else if String.eqb u "s" then Some Second
  else if String.eqb u "m" then Some Minute
  else if String.eqb u "h" then Some Hour
  else None.

Fixpoint span_unit (s : string) : string * string :=
  match s with
  | String a rest => if Ascii.eqb a "." || digit a then ("", s) else let '(u, t) := span_unit rest in (String a u, t)
  | EmptyString => ("", "")
  end.

(** One number with its unit: its nanoseconds and the rest of the text. *)
Definition duration_part (s : string) : option (Z * string) :=
  match s with
  | EmptyString => None
  | String first _ =>
      if negb (Ascii.eqb first "." || digit first) then None
      else
        let '(whole, s1) := span_digits s in
        match leadingInt 0 whole with
        | None => None
        | Some v =>
            let '(fraction, s2) :=
              match s1 with
              | String a rest => if Ascii.eqb a "." then span_digits rest else ("", s1)
              | EmptyString => ("", s1)
              end in
            let '(f, scale) := leadingFraction 0 f64_1 false fraction in
            if String.eqb whole "" && String.eqb fraction "" then None
            else
              let '(u, s3) := span_unit s2 in
              if String.eqb u "" then None
              else match unitMap u with
                   | None => None
                   | Some unit =>
                       if 2 ^ 63 / unit <? v then None
                       else
                         let v := v * unit in
                         if 0 <? f
                         then let v := wrap_u64 (v + u64_of_f64 (f64_mul (f64_of_Z f) (f64_div (f64_of_Z unit) scale))) in
                              if 2 ^ 63 <? v then None else Some (v, s3)
                         else Some (v, s3)
                   end
        end
  end.

(** The loop over the numbers; every round consumes a byte, so the length of
    the text is fuel enough. *)
Fixpoint duration_parts (fuel : nat) (d : Z) (s : string) : option Z :=
  match s with
  | EmptyString => Some d
  | _ =>
      match fuel with
      | O => None
      | S fuel =>
          match duration_part s with
          | None => None
          | Some (v, rest) => let d := wrap_u64 (d + v) in if 2 ^ 63 <? d then None else duration_parts fuel d rest
          end
      end
  end.

Definition ParseDuration (text : string) : option Z :=
  let '(neg, s) :=
    match text with
    | String a rest => if Ascii.eqb a "-" then (true, rest) else if Ascii.eqb a "+" then (false, rest) else (false, text)
    | EmptyString => (false, text)
    end in
  if String.eqb s "0" then Some 0
  else if String.eqb s "" then None
  else match duration_parts (String.length s) 0 s with
       | None => None
       | Some d => if neg then Some (wrap_i64 (- wrap_i64 d)) else if max_i64 <? d then None else Some d
       end.

(** [Duration.UnmarshalYAML]. *)
Definition Duration_UnmarshalYAML (node : Node) : result string Z :=
  if negb (is_kind ScalarNode node) || negb (String.eqb (n_Tag node) "!!str")
  then Err "duration must be a quoted or plain string with an explicit unit"
  else
    let invalid := "invalid positive duration " +:+ Quote (n_Value node) in
    match ParseDuration (n_Value node) with
    | None => Err invalid
    | Some v => if v <=? 0 then Err invalid else Ok v
    end.

(** The submatches of [sizePattern]: a number that does not start with zero,
    and a unit. *)
Definition size_submatch (s : string) : option (string * string) :=
  let '(digits, unit) := span_digits s in
  match digits with
  | String first _ =>
      if byte_range "1" "9" first && existsb (String.eqb unit) ["B"; "KiB"; "MiB"; "GiB"] then Some (digits, unit) else None
  | EmptyString => None
  end.

Definition size_multiplier (unit : string) : Z :=
  if String.eqb unit "KiB" then 2 ^ 10 else if String.eqb unit "MiB" then 2 ^ 20
  else if String.eqb unit "GiB" then 2 ^ 30 else 1.

(** [ByteSize.UnmarshalYAML]; the cause of an unparsable number is the range
    error of [strconv.ParseUint]. *)
Definition ByteSize_UnmarshalYAML (node : Node) : result string Z :=
  if negb (is_kind ScalarNode node) || negb (String.eqb (n_Tag node) "!!str")
  then Err "size must be a string with one of B, KiB, MiB, or GiB"
  else match size_submatch (n_Value node) with
       | None => Err ("invalid byte size " +:+ Quote (n_Value node) +:+ " (use B, KiB, MiB, or GiB)")
       | Some (digits, unit) =>
           match ParseUint digits with
           | None => Err ("invalid byte size " +:+ Quote (n_Value node) +:+ ": strconv.ParseUint: parsing " +:+ Quote digits
                          +:+ ": value out of range")
           | Some n =>
               let multiplier := size_multiplier unit in
               if max_u64 / multiplier <? n then Err ("byte size " +:+ Quote (n_Value node) +:+ " overflows uint64")
               else Ok (wrap_u64 (n * multiplier))
           end
       end.

(** ** The syntax tree *)

(** [dereferenceYAMLNode]: follows aliases.  In a parsed document an alias
    names an anchored node, never another alias, so one step is enough; the
    fuel covers every chain of distinct nodes. *)
Fixpoint follow_alias (h : heap) (fuel : nat) (p : pointer) : option pointer :=
  match h !! p with
  | None => None
  | Some n =>
      match n_Kind n, n_Alias n, fuel with
      | AliasNode, Some q, S fuel => follow_alias h fuel q
      | AliasNode, Some _, O => None
      | _, _, _ => Some p
      end
  end.
Definition dereferenceYAMLNode (h : heap) (p : pointer) : option Node :=
  match follow_alias h (length h) p with Some q => h !! q | None => None end.

(** The value of a key in the pairs of a mapping's content. *)
Fixpoint lookup_pairs (h : heap) (content : list pointer) (key : string) : option pointer :=
  match content with
  | k :: v :: rest =>
      match h !! k with
      | Some kn => if String.eqb (n_Value kn) key then Some v else lookup_pairs h rest key
      | None => lookup_pairs h rest key
      end
  | _ => None
  end.

Definition yamlMappingValue (h : heap) (mapping : pointer) (key : string) : option pointer :=
  match dereferenceYAMLNode h mapping with
  | Some m => if is_kind MappingNode m then lookup_pairs h (n_Content m) key else None
  | None => None
  end.

Definition yamlNodeIsNull (n : option Node) : bool :=
  match n with Some n => String.eqb (n_Tag n) "!!null" | None => false end.

(** The null test of a present key's value. *)
Definition null_value (h : heap) (p : pointer) : bool := yamlNodeIsNull (dereferenceYAMLNode h p).

(** *** Merge keys *)

Definition merge_key (h : heap) (k : pointer) : bool :=
  match h !! k with
  | Some key => String.eqb (n_Tag key) "!!merge" || String.eqb (n_Value key) "<<"
  | None => false
  end.
Fixpoint merge_keys (h : heap) (content : list pointer) : bool :=
  match content with
  | k :: _ :: rest => merge_key h k || merge_keys h rest
  | _ => false
  end.

(** What [walk] visits below a node. *)
Definition node_children (n : Node) : list pointer :=
  if is_kind AliasNode n then option_list (n_Alias n) else n_Content n.

(** A loop over children that stops at the first error. *)
Fixpoint walk_all (walk : gset pointer -> pointer -> option (gset pointer * bool)) (visited : gset pointer) (l : list pointer)
    : option (gset pointer * bool) :=
  match l with
  | [] => Some (visited, true)
  | p :: rest =>
      match walk visited p with
      | None => None
      | Some (visited, true) => walk_all walk visited rest
      | Some (visited, false) => Some (visited, false)
      end
  end.

(** The recursive closure of [rejectYAMLMergeKeys]: the visited nodes and
    whether no merge key was met; [None] is out of fuel. *)
Fixpoint walk (h : heap) (fuel : nat) (visited : gset pointer) (p : pointer) : option (gset pointer * bool) :=
  match fuel with
  | O => None
  | S fuel =>
      match h !! p with
      | None => Some (visited, true)
      | Some n =>
          if bool_decide (p ∈ visited) then Some (visited, true)
          else
            let visited := {[p]} ∪ visited in
            if is_kind MappingNode n && merge_keys h (n_Content n) then Some (visited, false)
            else walk_all (walk h fuel) visited (node_children n)
      end
  end.

Definition rejectYAMLMergeKeys (h : heap) (document : pointer) : option string :=
  match walk h (S (length h)) ∅ document with
  | Some (_, true) => None
  | _ => Some "YAML merge keys (<<) are not allowed"
  end.

(** *** Required and forbidden fields *)

(** The root mapping of a document. *)
Definition document_root (h : heap) (document : pointer) : option pointer :=
  match dereferenceYAMLNode h document with
  | Some n => match n_Content n with
              | [root] => if is_kind DocumentNode n then Some root else None
              | _ => None
              end
  | None => None
  end.

Definition blank_scalar (n : option Node) : bool :=
  match n with Some n => is_kind ScalarNode n && blank (n_Value n) | None => false end.

Definition target_syntax (h : heap) (index : Z) (target : pointer) : option string :=
  let at_target := "github.targets[" +:+ Itoa index +:+ "]" in
  let must := ": must not be null or blank" in
  let fields := ["cpus"; "memory"; "memorySwap"; "pids"] in
  let seccomp :=
    match yamlMappingValue h target "seccompProfile" with
    | Some profile =>
        if null_value h profile || blank_scalar (dereferenceYAMLNode h profile)
        then Some (at_target +:+ ".seccompProfile" +:+ must) else None
    | None => None
    end in
  match seccomp with
  | Some e => Some e
  | None =>
      match yamlMappingValue h target "resources" with
      | None => None
      | Some resources =>
          if null_value h resources then Some (at_target +:+ ".resources" +:+ must)
          else match yamlMappingValue h resources "worker" with
               | None => None
               | Some worker =>
                   if null_value h worker then Some (at_target +:+ ".resources.worker" +:+ must)
                   else first_error (fun field =>
                          match yamlMappingValue h worker field with
                          | Some value => if null_value h value
                                          then Some (at_target +:+ ".resources.worker." +:+ field +:+ must) else None
                          | None => None
                          end) fields
               end
      end
  end.

Fixpoint targets_syntax (h : heap) (index : Z) (targets : list pointer) : option string :=
  match targets with
  | [] => None
  | target :: rest =>
      match target_syntax h index target with
      | Some e => Some e
      | None => targets_syntax h (index + 1) rest
      end
  end.

Definition validateTargetResourceSyntax (h : heap) (document : pointer) : option string :=
  match document_root h document with
  | None => None
  | Some root =>
      match yamlMappingValue h root "github" with
      | None => None
      | Some github =>
          match yamlMappingValue h github "targets" with
          | None => None
          | Some targets =>
              match dereferenceYAMLNode h targets with
              | Some n => if is_kind SequenceNode n then targets_syntax h 0 (n_Content n) else None
              | None => None
              end
          end
      end
  end.

(** [strconv.Atoi]: a decimal [int] with an optional sign. *)
Definition Atoi (s : string) : option Z :=
  let '(sign, digits) :=
    match s with
    | String a rest => if Ascii.eqb a "-" then (-1, rest) else if Ascii.eqb a "+" then (1, rest) else (1, s)
    | EmptyString => (1, s)
    end in
  if negb (String.eqb digits "") && string_forall digit digits then
    let z := sign * decimal_value 0 digits in
    if (min_i64 <=? z) && (z <=? max_i64) then Some z else None
  else None.

(** The keys whose presence depends on the schema version. *)
Definition schema_syntax (h : heap) (schemaVersion : Z) (resources : pointer) : option string :=
  let margin := yamlMappingValue h resources "memoryCapacityIncreaseMarginPercent" in
  if match yamlMappingValue h resources "workerMemoryBudget" with Some budget => null_value h budget | None => false end
  then Some "resources.workerMemoryBudget: must not be null or blank"
  else if schemaVersion =? LegacySchemaVersion then
    match margin with
    | Some _ => Some "resources.memoryCapacityIncreaseMarginPercent is not defined by schemaVersion 1"
    | None =>
        first_error (fun key =>
          match yamlMappingValue h resources key with
          | Some _ => Some ("resources." +:+ key +:+ " is not defined by schemaVersion 1")
          | None => None
          end) ["interactiveMaximumConcurrentWorkers"; "interactiveIdleThreshold"]
    end
  else if schemaVersion =? SupportedSchemaVersion then
    if match margin with Some m => null_value h m | None => true end
    then Some "resources.memoryCapacityIncreaseMarginPercent is required by schemaVersion 2"
    else None
  else None.

Definition validateResourceSchemaSyntax (h : heap) (document : pointer) : option string :=
  match document_root h document with
  | None => None
  | Some root =>
      match yamlMappingValue h root "schemaVersion" with
      | None => None
      | Some schema =>
          match dereferenceYAMLNode h schema with
          | None => None
          | Some n =>
              match Atoi (n_Value n) with
              | None => None
              | Some schemaVersion =>
                  match yamlMappingValue h root "resources" with
                  | None => None
                  | Some resources =>
                      match dereferenceYAMLNode h resources with
                      | None => None
                      | Some _ => schema_syntax h schemaVersion resources
                      end
                  end
              end
          end
      end
  end.

(** ** Load *)

(** What the second [Decode] of the syntax pass returns. *)
Inductive Trailer :=
  | TrailerEOF
  | TrailerDocument
  | TrailerError (e : string).

(** The YAML library: the syntax tree of the first document, what follows it,
    and the decoding of the text into a [Config] with unknown fields refused. *)
Class YAML := {
  decode_document : string -> result string (list Node * nat);
  decode_trailer : string -> Trailer;
  decode_config : string -> result string Config;
}.

Definition defaultWorkerImagePullTimeout : Z := 20 * Minute.

Definition default_pull_timeout (c : Config) : Config :=
  if c_WorkerImagePullTimeout c =? 0
  then {| c with c_WorkerImagePullTimeout := defaultWorkerImagePullTimeout |}
  else c.

Definition watchdog_warning : string :=
  "healthWatchdog is no longer supported and is ignored; remove it from the host configuration".

(** [len(document.Content) == 1] and the deprecated block is present. *)
Definition has_watchdog (h : heap) (document : pointer) : bool :=
  match h !! document with
  | Some n => match n_Content n with
              | [root] => match yamlMappingValue h root "healthWatchdog" with Some _ => true | None => false end
              | _ => false
              end
  | None => false
  end.

Definition fails (text : string) (err : option string) : result string () :=
  match err with Some e => Err (text +:+ e) | None => Ok () end.

(** [Load]: the configuration and its warnings. *)
Definition Load `{YAML, URLs, Unicode, MapRange} (read : result string string) : result string (Config * list string) :=
  (let! data := match read with Ok data => Ok data | Err e => Err ("read configuration: " +:+ e) end in
   let! (h, document) :=
     match decode_document data with Ok d => Ok d | Err e => Err ("decode configuration syntax tree: " +:+ e) end in
   let! _ := match decode_trailer data with
             | TrailerEOF => Ok ()
             | TrailerDocument => Err "decode configuration: multiple YAML documents are not allowed"
             | TrailerError e => Err ("decode configuration trailer: " +:+ e)
             end in
   let! _ := fails "decode configuration: " (rejectYAMLMergeKeys h document) in
   let! _ := fails "decode configuration: " (validateTargetResourceSyntax h document) in
   let! _ := fails "decode configuration: " (validateResourceSchemaSyntax h document) in
   let! cfg := match decode_config data with Ok c => Ok c | Err e => Err ("decode configuration: " +:+ e) end in
   let cfg := default_pull_timeout cfg in
   let! _ := fails "" (Config_Validate cfg) in
   Ok (cfg, if has_watchdog h document then [watchdog_warning] else []))%res.
