(* ===== verification/PlanGates.v ===== *)
(** The planner's inputs and outputs and the gates it evaluates before any
    worker is scheduled (internal/controller/plan.go): the interactive host
    cap, the CPU resource gate with its two hysteresis windows, the stable-AC
    power gate and the memory basis worker slots are funded from. *)

From S2P Require Import Prelude Float64 Model Config.

(** ** Data *)

(** [scaleset.Identity]. *)
Record Identity := mkIdentity {
  id_ScaleSetID : Z;
  id_ListenerID : string;
}.

#[export] Instance Identity_eq_dec : EqDecision Identity.
Proof. solve_decision. Defined.

Definition Identity_zero : Identity := mkIdentity 0 "".

Record PoolSnapshot := mkPoolSnapshot {
  sn_TargetID : string;
  sn_Identity : Identity;
  sn_TotalAssignedJobs : Z;
  sn_DrainServiceCapacity : Z;
  sn_Ready : bool;
}.

Definition PoolSnapshot_zero : PoolSnapshot := mkPoolSnapshot "" Identity_zero 0 0 false.

Record PlanInput := mkPlanInput {
  in_Config : Config;
  in_Desired : DesiredState;
  in_Previous : ObservedState;
  in_CapacityHysteresis : gmap string Z;
  in_Pools : list PoolSnapshot;
  in_Workers : list Worker;
  in_Resources : ResourceSnapshot;
  in_Power : PowerSnapshot;
  in_Desktop : DesktopStatus;
  in_EngineMemoryTotalBytes : Z;
  in_InputIdle : option duration;
  in_Now : time;
}.

Definition in_Targets (input : PlanInput) : list Target := c_Targets (in_Config input).

Record StartDecision := mkStartDecision {
  sd_PoolID : string;
  sd_Count : Z;
}.

Record Plan := mkPlan {
  p_Phase : Phase;
  p_QuiesceReason : option QuiesceReason;
  p_AdvertisedCapacity : gmap string Z;
  p_DesiredWorkers : gmap string Z;
  p_Start : list StartDecision;
  p_Remove : list Worker;
  p_StartDesktop : bool;
  p_StopDesktop : bool;
  p_ShutdownWSL : bool;
  p_ResourceGate : ResourceGateState;
  p_PowerGate : PowerGateState;
  p_Problems : list Problem;
  p_MemoryHeadroom : Z;
  p_MemoryAffordable : gmap string Z;
  p_MemoryClamped : gmap string bool;
  p_Presence : Presence;
}.

(** ** Host worker limit *)

Definition EffectiveMaximumConcurrentWorkers (resources : Resources) (desired : DesiredState) : Z :=
  match ds_TemporaryCapacityOverride desired with
  | Some override => override
  | None => r_MaximumConcurrentWorkers resources
  end.

Definition interactiveCapActive (input : PlanInput) : bool :=
  let resources := c_Resources (in_Config input) in
  (0 <? r_InteractiveMaximumConcurrentWorkers resources)
  && (match ds_TemporaryCapacityOverride (in_Desired input) with None => true | Some _ => false end)
  && (match in_InputIdle input with
      | Some idle => idle <? r_InteractiveIdleThreshold resources
      | None => false
      end).

Definition hostWorkerLimit (input : PlanInput) : Z :=
  if interactiveCapActive input
  then r_InteractiveMaximumConcurrentWorkers (c_Resources (in_Config input))
  else EffectiveMaximumConcurrentWorkers (c_Resources (in_Config input)) (in_Desired input).

(** [Plan.quiesce]: the first reason wins. *)
Definition quiesce (reason : QuiesceReason) (p : Plan) : Plan :=
  match p_QuiesceReason p with
  | None => {| p with p_QuiesceReason := Some reason |}
  | Some _ => p
  end.

Definition problem (now : time) (code message poolID : string) (retryable : bool) : Problem :=
  {| pb_Code := code; pb_Message := message; pb_PoolID := poolID;
     pb_Retryable := retryable; pb_At := now |}.

(** ** Resource gate *)

Definition invalid_observation_message : string :=
  "resource monitor returned an out-of-range CPU or physical-memory observation".

Definition snapshot_invalid (s : ResourceSnapshot) : bool :=
  (rs_TotalMemoryBytes s =? 0)
  || (rs_TotalMemoryBytes s <? rs_AvailableMemoryBytes s)
  || f64_is_nan (rs_CPUUtilizationPercent s)
  || f64_is_inf (rs_CPUUtilizationPercent s)
  || f64_lt (rs_CPUUtilizationPercent s) f64_0
  || f64_lt f64_100 (rs_CPUUtilizationPercent s).

(** The start of a window: kept unless missing or ahead of the clock. *)
Definition window_start (since : option time) (now : time) : time :=
  match since with
  | Some t => if Before now t then now else t
  | None => now
  end.

Definition evaluateResourceGate (previous : ResourceGateState) (snapshot : ResourceSnapshot)
    (policy : Resources) (now : time) : ResourceGateState * bool * string :=
  let cpu := rs_CPUUtilizationPercent snapshot in
  if snapshot_invalid snapshot then
    (mkResourceGateState true (Some ResourceGateReasonInvalidObservation) None None,
     false, invalid_observation_message)
  else if rg_Blocked previous && (match rg_Reason previous with None => true | Some _ => false end) then
    if f64_le cpu (r_CPUResumePercent policy) then (ResourceGateState_zero, true, "")
    else (mkResourceGateState true (Some ResourceGateReasonCPU) None None, false, "")
  else if negb (rg_Blocked previous) then
    if f64_le (r_CPUBlockPercent policy) cpu then
      let since := window_start (rg_HighCPUSince previous) now in
      if r_CPUObservationWindow policy <=? Sub now since
      then (mkResourceGateState true (Some ResourceGateReasonCPU) (Some since) None, false, "")
      else (mkResourceGateState false None (Some since) None, true, "")
    else (mkResourceGateState false None None None, true, "")
  else
    if f64_le cpu (r_CPUResumePercent policy) then
      let since := window_start (rg_HealthySince previous) now in
      if r_CPUHysteresisWindow policy <=? Sub now since
      then (ResourceGateState_zero, true, "")
      else (mkResourceGateState true (rg_Reason previous) None (Some since), false, "")
    else (mkResourceGateState true (rg_Reason previous) None None, false, "").

(** ** Power gate *)

Definition evaluatePowerGate (previous : PowerGateState) (snapshot : PowerSnapshot)
    (policy : Power) (now : time) : PowerGateState * bool :=
  if bool_decide (pw_Policy policy = PowerAlways) then (PowerGateState_zero, true)
  else if negb (ps_ACConnected snapshot) then (mkPowerGateState None, false)
  else match pg_ACSince previous with
       | Some t =>
           if Before now t then (mkPowerGateState (Some now), false)
           else (previous, pw_StableACWindow policy <=? Sub now t)
       | None => (mkPowerGateState (Some now), false)
       end.

(** ** Memory basis *)

Record memoryBasis := mkMemoryBasis {
  mb_budgetActive : bool;
  mb_budgetClamped : bool;
  mb_floorBlocked : bool;
  mb_remaining : Z;
}.

(** [saturatingAddUint64] of internal/controller/reconciler.go. *)
Definition saturatingAddUint64 (left right : Z) : Z :=
  if max_u64 - left <? right then max_u64 else left + right.

(** The reserve of host memory, [uint64(math.Ceil(float64(total) * pct / 100))]. *)
Definition memory_reserve (total : Z) (pct : float64) : Z :=
  u64_of_f64 (f64_ceil (f64_div (f64_mul (f64_of_Z total) pct) f64_100)).

Definition hostMemoryAtFloor (snapshot : ResourceSnapshot) (policy : Resources) : bool :=
  if (rs_TotalMemoryBytes snapshot =? 0)
     || (rs_TotalMemoryBytes snapshot <? rs_AvailableMemoryBytes snapshot)
  then false
  else rs_AvailableMemoryBytes snapshot
         <=? memory_reserve (rs_TotalMemoryBytes snapshot) (r_MinimumAvailableMemoryPct policy).

Definition availableMemoryHeadroom (snapshot : ResourceSnapshot) (policy : Resources) : Z :=
  if (rs_TotalMemoryBytes snapshot =? 0)
     || (rs_TotalMemoryBytes snapshot <? rs_AvailableMemoryBytes snapshot)
  then 0
  else
    let reserved := memory_reserve (rs_TotalMemoryBytes snapshot) (r_MinimumAvailableMemoryPct policy) in
    if rs_AvailableMemoryBytes snapshot <=? reserved then 0
    else rs_AvailableMemoryBytes snapshot - reserved.

(** The memory each pool's workers are charged when the runtime reports no
    limit; a later target with the same ID overwrites an earlier one. *)
Definition memoryByPool (cfg : Config) : gmap string Z :=
  foldl (fun m t => <[t_ID t := target_memory cfg t]> m) ∅ (c_Targets cfg).

Definition worker_reservation (cfg : Config) (w : Worker) : Z :=
  if 0 <? w_MemoryLimitBytes w then w_MemoryLimitBytes w
  else default (wp_Memory (r_Worker (c_Resources cfg))) (memoryByPool cfg !! w_PoolID w).

Definition activeWorkerReservations (cfg : Config) (workers : list Worker) : Z :=
  foldl (fun total w =>
           if negb (Active w) then total
           else saturatingAddUint64 total (worker_reservation cfg w)) 0 workers.

Definition evaluateMemoryBasis (input : PlanInput) : memoryBasis :=
  let cfg := in_Config input in
  let budget := r_WorkerMemoryBudget (c_Resources cfg) in
  if budget =? 0 then
    mkMemoryBasis false false false (availableMemoryHeadroom (in_Resources input) (c_Resources cfg))
  else
    let clamped := (0 <? in_EngineMemoryTotalBytes input)
                   && (in_EngineMemoryTotalBytes input <? budget) in
    let budget := if clamped then in_EngineMemoryTotalBytes input else budget in
    let reservations := activeWorkerReservations cfg (in_Workers input) in
    mkMemoryBasis true clamped
      (hostMemoryAtFloor (in_Resources input) (c_Resources cfg))
      (if reservations <? budget then budget - reservations else 0).

Definition affordableWorkerCount (memoryAvailable workerMemory : Z) : Z :=
  if workerMemory =? 0 then 0
  else
    let slots := memoryAvailable / workerMemory in
    if max_i64 <? slots then max_i64 else slots.

Definition affordableWorkerCountWithMargin (memoryAvailable workerMemory : Z) (marginPercent : float64) : Z :=
  if workerMemory =? 0 then 0
  else
    let margin := memory_reserve workerMemory marginPercent in
    if memoryAvailable <=? margin then 0
    else affordableWorkerCount (memoryAvailable - margin) workerMemory.
