(* ===== verification/Plan.v ===== *)
(** [BuildPlan] (internal/controller/plan.go): one complete desired transition
    from a snapshot of everything the controller observes.

    The function is pure in the source too.  Its local variables are threaded
    explicitly and its loops are folds; [range] over a map is the [MapRange]
    argument, since the source leaves that order unspecified. *)

From S2P Require Import Prelude Float64 GoStrings Model Config PlanGates.

(** ** The problems a plan reports *)

Definition problem_invalid_resource (now : time) (message : string) : Problem :=
  problem now "invalid-resource-observation" message "" true.
Definition problem_orphaned_busy (now : time) (pool : string) : Problem :=
  problem now "orphaned-busy-worker" "busy worker belongs to an unknown pool and will be preserved" pool false.
Definition problem_orphaned_deferred (now : time) (pool : string) : Problem :=
  problem now "orphaned-worker-retirement-deferred" "active worker belongs to an unknown pool and cannot be quiesced safely; it will be preserved" pool false.

(** The text of a mode. *)
Definition Mode_string (m : Mode) : string :=
  match m with
  | ModeEnabled => "enabled" | ModeDisabled => "disabled" | ModeGaming => "gaming"
  | ModeOther s => s
  end.
Definition problem_invalid_mode (now : time) (m : Mode) : Problem :=
  problem now "invalid-desired-mode" ("unsupported desired mode " +:+ Quote (Mode_string m)) "" false.
Definition problem_invalid_override (now : time) : Problem :=
  problem now "invalid-capacity-override" "temporary capacity override must not be negative" "" false.
Definition problem_budget_exceeds_engine (now : time) : Problem :=
  problem now "worker-memory-budget-exceeds-engine-memory" "configured workerMemoryBudget exceeds the probed engine VM memory; the effective budget is clamped to the probe" "" false.
Definition problem_capacity_below_busy (now : time) : Problem :=
  problem now "capacity-below-busy-count" "configured host capacity is below the current busy-worker count; active work is preserved and no new work is admitted" "" false.
Definition problem_pool_unavailable (now : time) (pool : string) : Problem :=
  problem now "pool-unavailable" "scale-set listener is unavailable; capacity is held at zero" pool true.
Definition problem_invalid_assigned (now : time) (pool : string) : Problem :=
  problem now "invalid-assigned-job-count" "GitHub reported a negative TotalAssignedJobs value" pool true.
Definition problem_assigned_over_cap (now : time) (pool : string) : Problem :=
  problem now "assigned-job-count-exceeds-pool-cap" "GitHub reported more assigned jobs than the configured pool maximum; excess assignments are not reserved and listener capacity is held at zero" pool true.
Definition problem_assigned_unserviceable (now : time) (pool : string) : Problem :=
  problem now "assigned-job-capacity-unavailable" "GitHub has assigned work that exceeds currently serviceable host capacity" pool true.
Definition problem_assigned_unavailable (now : time) (pool : string) : Problem :=
  problem now "assigned-job-capacity-unavailable" "GitHub has assigned work that exceeds the last acknowledged service capacity; capacity remains zero and existing workers are preserved" pool true.

Definition add_problem (p : Plan) (b : Problem) : Plan :=
  {| p with p_Problems := p_Problems p ++ [b] |}.
Definition set_phase (p : Plan) (ph : Phase) : Plan := {| p with p_Phase := ph |}.
Definition add_remove (p : Plan) (ws : list Worker) : Plan :=
  {| p with p_Remove := p_Remove p ++ ws |}.
Definition add_start (p : Plan) (d : StartDecision) : Plan :=
  {| p with p_Start := p_Start p ++ [d] |}.
Definition set_desired (p : Plan) (m : gmap string Z) : Plan := {| p with p_DesiredWorkers := m |}.
Definition set_advertised (p : Plan) (m : gmap string Z) : Plan := {| p with p_AdvertisedCapacity := m |}.

(** [m[k] += d]. *)
Definition bump (m : gmap string Z) (k : string) (d : Z) : gmap string Z := <[k := mget m k + d]> m.

(** ** Initial plan and gates *)

Definition zero_map (targets : list Target) : gmap string Z :=
  foldl (fun m t => <[t_ID t := 0]> m) ∅ targets.
Definition false_map (targets : list Target) : gmap string bool :=
  foldl (fun m t => <[t_ID t := false]> m) ∅ targets.

(** The plan before any decision: every configured pool at zero, the gates
    evaluated and an invalid observation recorded. *)
Definition plan_init (input : PlanInput) : Plan :=
  let targets := in_Targets input in
  let '(gate, _, msg) := evaluateResourceGate (os_ResourceGate (in_Previous input)) (in_Resources input)
                           (c_Resources (in_Config input)) (in_Now input) in
  let '(power, _) := evaluatePowerGate (os_PowerGate (in_Previous input)) (in_Power input)
                       (c_Power (in_Config input)) (in_Now input) in
  {| p_Phase := PhaseStarting;
     p_QuiesceReason := None;
     p_AdvertisedCapacity := zero_map targets;
     p_DesiredWorkers := zero_map targets;
     p_Start := [];
     p_Remove := [];
     p_StartDesktop := false;
     p_StopDesktop := false;
     p_ShutdownWSL := false;
     p_ResourceGate := gate;
     p_PowerGate := power;
     p_Problems := if String.eqb msg "" then [] else [problem_invalid_resource (in_Now input) msg];
     p_MemoryHeadroom := 0;
     p_MemoryAffordable := zero_map targets;
     p_MemoryClamped := false_map targets;
     p_Presence := mkPresence (Duration_Seconds <$> in_InputIdle input) (interactiveCapActive input) |}.

Definition resource_healthy (input : PlanInput) : bool :=
  (evaluateResourceGate (os_ResourceGate (in_Previous input)) (in_Resources input)
     (c_Resources (in_Config input)) (in_Now input)).1.2.

Definition power_allowed (input : PlanInput) : bool :=
  (evaluatePowerGate (os_PowerGate (in_Previous input)) (in_Power input)
     (c_Power (in_Config input)) (in_Now input)).2.

(** ** Worker inventory *)

Record Scan := mkScan {
  sc_byPool : gmap string (list Worker);
  sc_busy : Z;
  sc_active : Z;
  sc_plan : Plan;
}.

Definition pool_workers (m : gmap string (list Worker)) (k : string) : list Worker := default [] (m !! k).

Definition known_target (targets : list Target) (pool : string) : bool :=
  existsb (fun t => String.eqb (t_ID t) pool) targets.

(** One worker of the inventory loop: index it by pool, count it, and settle
    a worker whose pool is not configured. *)
Definition scan_worker (input : PlanInput) (s : Scan) (w : Worker) : Scan :=
  {| sc_byPool := <[w_PoolID w := pool_workers (sc_byPool s) (w_PoolID w) ++ [w]]> (sc_byPool s);
     sc_busy := if is_busy (w_State w) then sc_busy s + 1 else sc_busy s;
     sc_active := if Active w then sc_active s + 1 else sc_active s;
     sc_plan :=
       if known_target (in_Targets input) (w_PoolID w) then sc_plan s
       else match w_State w with
            | WorkerExited | WorkerUnregistered => add_remove (sc_plan s) [w]
            | WorkerBusy => add_problem (sc_plan s) (problem_orphaned_busy (in_Now input) (w_PoolID w))
            | _ => add_problem (sc_plan s) (problem_orphaned_deferred (in_Now input) (w_PoolID w))
            end |}.

Definition scan_workers (input : PlanInput) : Scan :=
  foldl (scan_worker input) (mkScan ∅ 0 0 (plan_init input)) (in_Workers input).

Definition hasActiveWorkers (workers : list Worker) : bool := existsb Active workers.

(** ** Target order *)

Definition target_before (a b : Target) : bool :=
  if t_Priority a =? t_Priority b then String.ltb (t_ID a) (t_ID b)
  else t_Priority a <? t_Priority b.

Definition sortedTargetsByPriority (targets : list Target) : list Target :=
  sort_by target_before targets.

(** ** Safe removals *)

(** The removals of one pool: every terminal worker, and the first
    [removeCount] starting or idle ones. *)
Fixpoint safe_removals (removeCount : Z) (workers : list Worker) : list Worker :=
  match workers with
  | [] => []
  | w :: rest =>
      if is_terminal (w_State w) then w :: safe_removals removeCount rest
      else if (0 <? removeCount) && is_nonbusy_active (w_State w)
      then w :: safe_removals (removeCount - 1) rest
      else safe_removals removeCount rest
  end.

(** [desired] is [None] for Go's nil map. *)
Definition appendSafeRemovals `{MapRange} (p : Plan) (workersByPool : gmap string (list Worker))
    (targets : list Target) (desired : option (gmap string Z)) : Plan :=
  foldl (fun p '(poolID, workers) =>
           if negb (known_target targets poolID) then p
           else
             let keep := match desired with Some m => mget m poolID | None => 0 end in
             let activeNonBusy := count (fun w => is_nonbusy_active (w_State w)) workers in
             add_remove p (safe_removals (activeNonBusy - keep) workers))
        p (range workersByPool).

(** ** Outstanding assignments

    The drain-time planner: advertised capacity stays at zero, nonbusy workers
    an assignment may still need are kept, and missing ones are started up to
    the last nonzero acknowledged capacity. *)

Definition poolByID (pools : list PoolSnapshot) : gmap string PoolSnapshot :=
  foldl (fun m p => <[sn_TargetID p := p]> m) ∅ pools.

Definition busy_count (workers : list Worker) : Z := count (fun w => is_busy (w_State w)) workers.
Definition nonbusy_count (workers : list Worker) : Z :=
  count (fun w => is_nonbusy_active (w_State w)) workers.

(** The assignments no busy worker covers, per ready configured pool. *)
Definition outstanding_reservations (input : PlanInput) (byPool : gmap string (list Worker)) : gmap string Z :=
  foldl (fun m pool =>
           if negb (known_target (in_Targets input) (sn_TargetID pool)) || negb (sn_Ready pool)
              || (sn_TotalAssignedJobs pool <=? 0)
           then m
           else
             let uncovered := sn_TotalAssignedJobs pool - busy_count (pool_workers byPool (sn_TargetID pool)) in
             if 0 <? uncovered then <[sn_TargetID pool := uncovered]> m else m)
        ∅ (in_Pools input).

Definition memory_observation_valid (input : PlanInput) : bool :=
  mb_budgetActive (evaluateMemoryBasis input)
  || ((0 <? rs_TotalMemoryBytes (in_Resources input))
      && (rs_AvailableMemoryBytes (in_Resources input) <=? rs_TotalMemoryBytes (in_Resources input))).

Record DrainState := mkDrainState {
  dn_plan : Plan;
  dn_remaining : Z;
  dn_memory : Z;
}.

Definition desktop_down (d : DesktopStatus) : bool := negb (dk_DesktopRunning d) || negb (dk_EngineReachable d).

Definition drain_target (input : PlanInput) (byPool : gmap string (list Worker))
    (reservations : gmap string Z) (st : DrainState) (target : Target) : DrainState :=
  let id := t_ID target in
  let pool := default PoolSnapshot_zero (poolByID (in_Pools input) !! id) in
  let uncovered := mget reservations id in
  let busy := busy_count (pool_workers byPool id) in
  let nonbusy := nonbusy_count (pool_workers byPool id) in
  let serviceable := Z.min uncovered (Z.min (sn_DrainServiceCapacity pool) (t_MaxCapacity target)) in
  let workerMemory := target_memory (in_Config input) target in
  let valid := memory_observation_valid input in
  let start := Z.min (Z.max 0 (serviceable - nonbusy)) (dn_remaining st) in
  let start := if valid then Z.min start (affordableWorkerCount (dn_memory st) workerMemory) else start in
  let start := if mb_floorBlocked (evaluateMemoryBasis input) then 0 else start in
  let p := dn_plan st in
  let p := if 0 <? start then
             let p := add_start p (mkStartDecision id start) in
             if desktop_down (in_Desktop input) then {| p with p_StartDesktop := true |} else p
           else p in
  let p := set_desired p (<[id := busy + Z.min uncovered (nonbusy + start)]> (p_DesiredWorkers p)) in
  let p := if nonbusy + start <? uncovered
           then add_problem p (problem_assigned_unavailable (in_Now input) id) else p in
  {| dn_plan := p;
     dn_remaining := if 0 <? start then dn_remaining st - start else dn_remaining st;
     dn_memory := if (0 <? start) && valid then wrap_u64 (dn_memory st - wrap_u64 (start * workerMemory))
                  else dn_memory st |}.

Definition applyOutstandingAssignments `{MapRange} (input : PlanInput) (s : Scan) : Plan * bool :=
  let reservations := outstanding_reservations input (sc_byPool s) in
  let p := appendSafeRemovals (sc_plan s) (sc_byPool s) (in_Targets input) (Some reservations) in
  let st := foldl (drain_target input (sc_byPool s) reservations)
              {| dn_plan := p;
                 dn_remaining := Z.max (hostWorkerLimit input - sc_active s) 0;
                 dn_memory := mb_remaining (evaluateMemoryBasis input) |}
              (sortedTargetsByPriority (in_Targets input)) in
  (dn_plan st, negb (bool_decide (reservations = ∅))).

(** ** The enabled planner *)

(** Last advertised capacity per pool, overridden by the capacity in flight. *)
Definition previousCapacityByPool `{MapRange} (input : PlanInput) : gmap string Z :=
  foldl (fun m '(k, v) => <[k := v]> m)
        (foldl (fun m p => <[po_ID p := po_MaxCapacity p]> m) ∅ (os_Pools (in_Previous input)))
        (range (in_CapacityHysteresis input)).

(** Busy and nonbusy counts per configured pool; busy workers are immutable
    reservations and count as desired at once. *)
Record PoolCounts := mkPoolCounts {
  pc_desired : gmap string Z;
  pc_busy : gmap string Z;
  pc_nonbusy : gmap string Z;
}.

Definition count_worker (id : string) (c : PoolCounts) (w : Worker) : PoolCounts :=
  if is_busy (w_State w) then
    {| c with pc_desired := bump (pc_desired c) id 1; pc_busy := bump (pc_busy c) id 1 |}
  else if is_nonbusy_active (w_State w) then
    {| c with pc_nonbusy := bump (pc_nonbusy c) id 1 |}
  else c.

Definition count_pools (byPool : gmap string (list Worker)) (targets : list Target) (c : PoolCounts) : PoolCounts :=
  foldl (fun c t => foldl (count_worker (t_ID t)) c (pool_workers byPool (t_ID t))) c targets.

(** Which pools may be scheduled, and how many assigned jobs each reserves. *)
Record Readiness := mkReadiness {
  rd_plan : Plan;
  rd_ready : gmap string bool;
  rd_reservations : gmap string Z;
  rd_overCap : gmap string bool;
}.

Definition assess_target (input : PlanInput) (r : Readiness) (target : Target) : Readiness :=
  let id := t_ID target in
  let now := in_Now input in
  match poolByID (in_Pools input) !! id with
  | Some pool =>
      if negb (sn_Ready pool) then
        {| r with rd_plan := add_problem (rd_plan r) (problem_pool_unavailable now id) |}
      else
        let negative := sn_TotalAssignedJobs pool <? 0 in
        let assigned := if negative then 0 else sn_TotalAssignedJobs pool in
        let p := if negative then add_problem (rd_plan r) (problem_invalid_assigned now id) else rd_plan r in
        let over := t_MaxCapacity target <? assigned in
        {| rd_plan := if over then add_problem p (problem_assigned_over_cap now id) else p;
           rd_ready := <[id := true]> (rd_ready r);
           rd_reservations := <[id := Z.min assigned (t_MaxCapacity target)]> (rd_reservations r);
           rd_overCap := if over then <[id := true]> (rd_overCap r) else rd_overCap r |}
  | None => {| r with rd_plan := add_problem (rd_plan r) (problem_pool_unavailable now id) |}
  end.

(** What the allocation and advertisement loops read and never change. *)
Record PlanContext := mkPlanContext {
  cx_input : PlanInput;
  cx_hostLimit : Z;
  cx_gate : memoryBasis;
  cx_byPool : gmap string (list Worker);
  cx_busyByPool : gmap string Z;
  cx_nonbusyByPool : gmap string Z;
  cx_ready : gmap string bool;
  cx_reservations : gmap string Z;
  cx_overCap : gmap string bool;
  cx_previousCapacity : gmap string Z;
  cx_busyWorkers : Z;
  cx_activeWorkers : Z;
}.

Definition cx_memory (cx : PlanContext) (t : Target) : Z := target_memory (in_Config (cx_input cx)) t.
Definition cx_capacityDebt (cx : PlanContext) : bool := cx_hostLimit cx <? cx_busyWorkers cx.

Record AllocState := mkAllocState {
  al_plan : Plan;
  al_remaining : Z;
  al_memory : Z;
  al_counted : gmap string Z;
}.

(** The [allocate] closure: raise a pool's desired workers to [requested],
    first from its own nonbusy workers, then from starts memory can fund. *)
Definition allocate (cx : PlanContext) (st : AllocState) (target : Target) (requested : Z) : AllocState :=
  let id := t_ID target in
  let p := al_plan st in
  let current := mget (p_DesiredWorkers p) id in
  if requested <=? current then st
  else
    let need := requested - current in
    let availableExisting := mget (cx_nonbusyByPool cx) id - mget (al_counted st) id in
    let existing := Z.min need (Z.min availableExisting (al_remaining st)) in
    let remaining := al_remaining st - existing in
    let prospective := Z.min (need - existing) remaining in
    let workerMemory := cx_memory cx target in
    let affordable := if mb_floorBlocked (cx_gate cx) then 0
                      else affordableWorkerCount (al_memory st) workerMemory in
    let starts := Z.min prospective affordable in
    {| al_plan := {| p with
         p_DesiredWorkers := bump (bump (p_DesiredWorkers p) id existing) id starts;
         p_MemoryClamped := if starts <? prospective then <[id := true]> (p_MemoryClamped p) else p_MemoryClamped p |};
       al_remaining := remaining - starts;
       al_memory := wrap_u64 (al_memory st - wrap_u64 (starts * workerMemory));
       al_counted := bump (al_counted st) id existing |}.

Definition is_ready (cx : PlanContext) (t : Target) : bool := mgetb (cx_ready cx) (t_ID t).

(** First pass: every authoritative assignment. *)
Definition allocate_assigned (cx : PlanContext) (st : AllocState) (target : Target) : AllocState :=
  if negb (is_ready cx target) then st
  else
    let assigned := Z.max (mget (cx_reservations cx) (t_ID target)) (mget (cx_busyByPool cx) (t_ID target)) in
    let st := allocate cx st target assigned in
    if mget (p_DesiredWorkers (al_plan st)) (t_ID target) <? assigned
    then {| st with al_plan := add_problem (al_plan st) (problem_assigned_unserviceable (in_Now (cx_input cx)) (t_ID target)) |}
    else st.

(** Second pass: optional warm-idle inventory. *)
Definition warm_request (cx : PlanContext) (target : Target) : Z :=
  let assigned := mget (cx_reservations cx) (t_ID target) in
  let requested := Z.min (t_MaxCapacity target) (wrap_i64 (assigned + t_WarmIdle target)) in
  Z.max requested (Z.max assigned (mget (cx_busyByPool cx) (t_ID target))).

Definition allocate_warm (cx : PlanContext) (st : AllocState) (target : Target) : AllocState :=
  if negb (is_ready cx target) then st
  else allocate cx st target (warm_request cx target).

(** ** Starts, removals and base advertisement *)

Record burstCandidate := mkBurstCandidate {
  bc_poolID : string;
  bc_maxCapacity : Z;
  bc_removable : list Worker;
}.

Record SchedState := mkSchedState {
  ss_plan : Plan;
  ss_advertisable : gmap string bool;
  ss_burst : list burstCandidate;
}.

Definition may_advertise (cx : PlanContext) (t : Target) : bool :=
  negb (cx_capacityDebt cx) && is_ready cx t && negb (mgetb (cx_overCap cx) (t_ID t)).

Definition schedule_target (cx : PlanContext) (st : SchedState) (target : Target) : SchedState :=
  let id := t_ID target in
  let workers := pool_workers (cx_byPool cx) id in
  let desired := mget (p_DesiredWorkers (ss_plan st)) id in
  let active := busy_count workers + nonbusy_count workers in
  let removable := List.filter (fun w => is_nonbusy_active (w_State w)) workers in
  let p := add_remove (ss_plan st) (List.filter (fun w => is_terminal (w_State w)) workers) in
  let p := if active <? desired then add_start p (mkStartDecision id (desired - active)) else p in
  if desired <? active then
    let excess := active - desired in
    if (excess =? 1) && (0 <? cx_hostLimit cx) && (0 <? t_MaxCapacity target) && may_advertise cx target then
      {| ss_plan := set_advertised p (<[id := desired]> (p_AdvertisedCapacity p));
         ss_advertisable := <[id := true]> (ss_advertisable st);
         ss_burst := ss_burst st ++ [mkBurstCandidate id (t_MaxCapacity target) removable] |}
    else
      {| st with ss_plan := add_remove (quiesce QuiesceReasonExcessWorkers p)
                              (take (Z.to_nat excess) removable) |}
  else if may_advertise cx target then
    {| st with ss_plan := set_advertised p (<[id := desired]> (p_AdvertisedCapacity p));
               ss_advertisable := <[id := true]> (ss_advertisable st) |}
  else {| st with ss_plan := p |}.

(** ** Burst inventory: retained excess workers share the host-wide budget *)

Record BurstState := mkBurstState {
  bs_plan : Plan;
  bs_budget : Z;
  bs_advertisable : gmap string bool;
}.

Definition burst_before (adv : gmap string Z) (a b : burstCandidate) : bool :=
  (mget adv (bc_poolID a) =? 0) && negb (mget adv (bc_poolID b) =? 0).

Definition advertise_burst (st : BurstState) (cand : burstCandidate) : BurstState :=
  let p := bs_plan st in
  let capacity := mget (p_AdvertisedCapacity p) (bc_poolID cand) in
  let grow := (capacity <? bc_maxCapacity cand) && (0 <? bs_budget st) in
  let p := if grow then set_advertised p (bump (p_AdvertisedCapacity p) (bc_poolID cand) 1) else p in
  let budget := if grow then bs_budget st - 1 else bs_budget st in
  let capacity := if grow then capacity + 1 else capacity in
  if negb (capacity =? 0) then {| st with bs_plan := p; bs_budget := budget |}
  else
    {| bs_plan := add_remove (quiesce QuiesceReasonAdvertisementBudgetExhausted p)
                    (take 1 (bc_removable cand));
       bs_budget := budget;
       bs_advertisable := <[bc_poolID cand := false]> (bs_advertisable st) |}.

(** ** Service capacity: host- and memory-bounded slots without a worker *)

Record ServiceState := mkServiceState {
  sv_plan : Plan;
  sv_slots : Z;
  sv_budget : Z;
  sv_memory : Z;
}.

Definition advertise_service (cx : PlanContext) (advertisable : gmap string bool)
    (st : ServiceState) (target : Target) : ServiceState :=
  let id := t_ID target in
  if negb (mgetb advertisable id) || (sv_slots st =? 0) then st
  else
    let p := sv_plan st in
    let currentCapacity := mget (p_AdvertisedCapacity p) id in
    let additionalLimit := Z.min (Z.min (t_MaxCapacity target - currentCapacity) (sv_slots st)) (sv_budget st) in
    let workerMemory := cx_memory cx target in
    let rawAffordable := affordableWorkerCount (sv_memory st) workerMemory in
    let held := Z.min additionalLimit (Z.max (mget (cx_previousCapacity cx) id - currentCapacity) 0) in
    let held := Z.min held rawAffordable in
    let memoryAfterHeld := wrap_u64 (sv_memory st - wrap_u64 (held * workerMemory)) in
    let growth := Z.min (additionalLimit - held)
                    (affordableWorkerCountWithMargin memoryAfterHeld workerMemory
                       (r_MemoryCapacityIncreaseMarginPct (c_Resources (in_Config (cx_input cx))))) in
    let growth := if mb_floorBlocked (cx_gate cx) then 0 else growth in
    let additional := held + growth in
    let p := if additional <? additionalLimit
             then {| p with p_MemoryClamped := <[id := true]> (p_MemoryClamped p) |} else p in
    if additional <=? 0 then {| st with sv_plan := p |}
    else
      {| sv_plan := set_advertised p (bump (p_AdvertisedCapacity p) id additional);
         sv_slots := sv_slots st - additional;
         sv_budget := sv_budget st - additional;
         sv_memory := wrap_u64 (sv_memory st - wrap_u64 (additional * workerMemory)) |}.

(** Headroom report and phase selection. *)
Definition finish_plan (cx : PlanContext) (targets : list Target) (p : Plan) (memory : Z) : Plan :=
  let p := {| p with
    p_MemoryHeadroom := memory;
    p_MemoryAffordable :=
      foldl (fun m t => <[t_ID t := affordableWorkerCount memory (cx_memory cx t)]> m)
            (p_MemoryAffordable p) targets |} in
  set_phase p
    (if negb (bool_decide (p_Problems p = [])) then PhaseDegraded
     else match p_QuiesceReason p with Some _ => PhaseDraining | None => PhaseReady end).

(** The stages of the enabled planner after the context is known. *)
Definition allocate_all (cx : PlanContext) (targets : list Target) (st : AllocState) : AllocState :=
  foldl (allocate_warm cx) (foldl (allocate_assigned cx) st targets) targets.

Definition schedule_all (cx : PlanContext) (targets : list Target) (p : Plan) : SchedState :=
  foldl (schedule_target cx) (mkSchedState p ∅ []) targets.

Definition advertised_budget `{MapRange} (cx : PlanContext) (p : Plan) : Z :=
  Z.max (foldl (fun b '(_, c) => b - c) (cx_hostLimit cx) (range (p_AdvertisedCapacity p))) 0.

Definition advertise_bursts `{MapRange} (cx : PlanContext) (s : SchedState) : BurstState :=
  foldl advertise_burst (mkBurstState (ss_plan s) (advertised_budget cx (ss_plan s)) (ss_advertisable s))
    (sort_by (burst_before (p_AdvertisedCapacity (ss_plan s))) (ss_burst s)).

Definition service_slots (cx : PlanContext) (p : Plan) : Z :=
  Z.max (foldl (fun s d => s - sd_Count d) (cx_hostLimit cx - cx_activeWorkers cx) (p_Start p)) 0.

Definition advertise_services (cx : PlanContext) (targets : list Target) (b : BurstState) (memory : Z) : Plan * Z :=
  if cx_capacityDebt cx then (bs_plan b, memory)
  else
    let st := foldl (advertise_service cx (bs_advertisable b))
                {| sv_plan := bs_plan b; sv_slots := service_slots cx (bs_plan b);
                   sv_budget := bs_budget b; sv_memory := memory |} targets in
    (sv_plan st, sv_memory st).

(** The whole enabled planner from a nonnegative host limit on. *)
Definition plan_context `{MapRange} (input : PlanInput) (s : Scan) : PlanContext * AllocState :=
  let targets := sortedTargetsByPriority (in_Targets input) in
  let hostLimit := hostWorkerLimit input in
  let gate := evaluateMemoryBasis input in
  let p := sc_plan s in
  let p := if mb_budgetClamped gate then add_problem p (problem_budget_exceeds_engine (in_Now input)) else p in
  let debt := hostLimit - sc_busy s <? 0 in
  let remaining := if debt then 0 else hostLimit - sc_busy s in
  let p := if debt then add_problem p (problem_capacity_below_busy (in_Now input)) else p in
  let counts := count_pools (sc_byPool s) targets (mkPoolCounts (p_DesiredWorkers p) ∅ ∅) in
  let p := set_desired p (pc_desired counts) in
  let r := foldl (assess_target input) (mkReadiness p ∅ ∅ ∅) targets in
  ({| cx_input := input; cx_hostLimit := hostLimit; cx_gate := gate; cx_byPool := sc_byPool s;
      cx_busyByPool := pc_busy counts; cx_nonbusyByPool := pc_nonbusy counts;
      cx_ready := rd_ready r; cx_reservations := rd_reservations r; cx_overCap := rd_overCap r;
      cx_previousCapacity := previousCapacityByPool input;
      cx_busyWorkers := sc_busy s; cx_activeWorkers := sc_active s |},
   {| al_plan := rd_plan r; al_remaining := remaining; al_memory := mb_remaining gate; al_counted := ∅ |}).

Definition plan_enabled `{MapRange} (input : PlanInput) (s : Scan) : Plan :=
  let targets := sortedTargetsByPriority (in_Targets input) in
  let '(cx, st) := plan_context input s in
  let st := allocate_all cx targets st in
  let b := advertise_bursts cx (schedule_all cx targets (al_plan st)) in
  let '(p, memory) := advertise_services cx targets b (al_memory st) in
  finish_plan cx targets p memory.

(** ** BuildPlan *)

(** [wall] is what [time.Now().UTC()] returns, used only when the caller left
    the time unset. *)
Definition BuildPlan `{MapRange} (wall : time) (input : PlanInput) : Plan :=
  let input := if IsZero (in_Now input) then {| input with in_Now := wall |} else input in
  let s := scan_workers input in
  let p := sc_plan s in
  if negb (Mode_Valid (ds_Mode (in_Desired input))) then
    let s := {| s with sc_plan := add_problem (set_phase p PhaseDegraded)
                                    (problem_invalid_mode (in_Now input) (ds_Mode (in_Desired input))) |} in
    (applyOutstandingAssignments input s).1
  else match ds_Mode (in_Desired input) with
  | ModeDisabled =>
      let '(p, outstanding) := applyOutstandingAssignments input s in
      if hasActiveWorkers (in_Workers input) || outstanding || negb (bool_decide (p_Start p = []))
      then quiesce QuiesceReasonOperatorDisabled (set_phase p PhaseDraining)
      else set_phase p PhaseDisabled
  | ModeGaming =>
      let '(p, outstanding) := applyOutstandingAssignments input s in
      if (0 <? sc_busy s) || outstanding || negb (bool_decide (p_Start p = []))
      then quiesce QuiesceReasonGamingActiveWork (set_phase p PhaseDraining)
      else
        let stop := dk_DesktopRunning (in_Desktop input) || dk_EngineReachable (in_Desktop input) in
        let wsl := 0 <? dk_RunningWSLCount (in_Desktop input) in
        let p := {| p with p_StopDesktop := stop; p_ShutdownWSL := wsl |} in
        if stop || wsl || hasActiveWorkers (in_Workers input)
        then quiesce QuiesceReasonGamingHostTeardown (set_phase p PhaseDraining)
        else set_phase p PhaseGaming
  | _ =>
      if negb (power_allowed input) then
        set_phase (applyOutstandingAssignments input s).1 PhasePowerSuspended
      else if desktop_down (in_Desktop input) then
        set_phase {| p with p_StartDesktop := true |} PhaseStarting
      else if negb (resource_healthy input) then
        set_phase (applyOutstandingAssignments input s).1 PhaseResourceConstrained
      else if hostWorkerLimit input <? 0 then
        appendSafeRemovals
          (add_problem (set_phase p PhaseDegraded) (problem_invalid_override (in_Now input)))
          (sc_byPool s) (in_Targets input) None
      else plan_enabled input s
  end.

(** The stages are reasoned about through their lemmas, never by unfolding
    all of them at once. *)
#[global] Arguments applyOutstandingAssignments : simpl never.
#[global] Arguments appendSafeRemovals : simpl never.
#[global] Arguments plan_enabled : simpl never.
#[global] Arguments BuildPlan : simpl never.
#[global] Arguments scan_workers : simpl never.
#[global] Arguments plan_init : simpl never.
#[global] Arguments hostWorkerLimit : simpl never.
#[global] Arguments evaluateMemoryBasis : simpl never.
