(* ===== verification/Samples.v ===== *)
(** Concrete configurations, inventories and planner inputs, on which the
    witnesses of the planner's theorems evaluate the definitions. *)

From S2P Require Import Prelude Float64 Model Config PlanGates Plan.

Definition GiB : Z := 2 ^ 30.

Definition sample_target (id : string) (maxCapacity warmIdle priority : Z) : Target :=
  {| t_ID := id; t_URL := "https://github.com/acme"; t_Scope := ScopeOrganization; t_ClientID := "client";
     t_InstallationID := 1; t_SecretID := "secret"; t_RunnerGroup := "default"; t_ScaleSetName := id;
     t_Labels := []; t_WarmIdle := warmIdle; t_MaxCapacity := maxCapacity; t_Priority := priority;
     t_ResourcesWorker := None; t_SeccompProfile := "" |}.

Definition sample_resources (limit budget : Z) : Resources :=
  {| r_MaximumConcurrentWorkers := limit;
     r_Worker := mkWorkerProfile (f64_of_Z 2) (8 * GiB) (8 * GiB) 4096;
     r_WorkerMemoryBudget := budget;
     r_MinimumAvailableMemoryPct := f64_of_Z 25; r_MemoryCapacityIncreaseMarginPct := f64_of_Z 25;
     r_CPUBlockPercent := f64_of_Z 90; r_CPUResumePercent := f64_of_Z 70;
     r_CPUObservationWindow := 30 * Second; r_CPUHysteresisWindow := 60 * Second;
     r_InteractiveMaximumConcurrentWorkers := 0; r_InteractiveIdleThreshold := 0 |}.

Definition sample_config (limit budget : Z) (targets : list Target) : Config :=
  {| c_SchemaVersion := 2; c_Host := mkHost "host" "host";
     c_Controller := mkController (10 * Second) Second (30 * Second) Second 0 0;
     c_CompatibilityManifest := "";
     c_GitHub := mkGitHub 1 (mkRetry Second (60 * Second) (f64_of_Z 2) f64_0 3) targets;
     c_Resources := sample_resources limit budget;
     c_Power := mkPower PowerAlways 0; c_Drain := mkDrain Second Second;
     c_DockerDesktop := mkDockerDesktop Second Second; c_WorkerImagePullTimeout := Second;
     c_Logs := mkLogs (mkDockerLogs "local" 1 1) (mkLogClass 1 1 1) (mkLogClass 1 1 1) 1 1 1;
     c_Telemetry := mkTelemetry "" "" false false 0 0; c_Paths := mkPaths "" "" "" "" |}.

Definition sample_worker (id pool : string) (state : WorkerState) : Worker :=
  mkWorker id "" pool id state "" 1 1 0.

Definition sample_pool (id : string) (assigned : Z) : PoolSnapshot :=
  mkPoolSnapshot id (mkIdentity 1 id) assigned 0 true.

Definition sample_input (mode : Mode) (limit budget available : Z) (targets : list Target)
    (pools : list PoolSnapshot) (workers : list Worker) : PlanInput :=
  {| in_Config := sample_config limit budget targets;
     in_Desired := mkDesiredState 1 mode None 1;
     in_Previous := ObservedState_zero; in_CapacityHysteresis := ∅;
     in_Pools := pools; in_Workers := workers;
     in_Resources := mkResourceSnapshot (64 * GiB) available (f64_of_Z 10);
     in_Power := mkPowerSnapshot true 1; in_Desktop := mkDesktopStatus true true 1;
     in_EngineMemoryTotalBytes := 0; in_InputIdle := None; in_Now := 1000 |}.

(** Two pools with assigned work, one busy worker, on a host of three slots. *)
Definition sample_enabled : PlanInput :=
  sample_input ModeEnabled 3 0 (60 * GiB)
    [sample_target "org" 3 1 1; sample_target "personal" 3 1 10]
    [sample_pool "org" 2; sample_pool "personal" 1] [sample_worker "w1" "org" WorkerBusy].

(** The same under a static budget of 20 GiB. *)
Definition sample_budget : PlanInput :=
  sample_input ModeEnabled 3 (20 * GiB) (60 * GiB)
    [sample_target "org" 3 1 1; sample_target "personal" 3 1 10]
    [sample_pool "org" 2; sample_pool "personal" 1] [sample_worker "w1" "org" WorkerBusy].

(** The same with the host memory at its floor. *)
Definition sample_floor : PlanInput :=
  sample_input ModeEnabled 3 (20 * GiB) (10 * GiB)
    [sample_target "org" 3 1 1; sample_target "personal" 3 1 10]
    [sample_pool "org" 2; sample_pool "personal" 1] [sample_worker "w1" "org" WorkerBusy].

Definition sample_disabled : PlanInput :=
  sample_input ModeDisabled 3 0 (60 * GiB) [sample_target "org" 3 1 1] [sample_pool "org" 2]
    [sample_worker "w1" "org" WorkerIdle].

(** Gaming with nothing left to drain. *)
Definition sample_gaming : PlanInput :=
  sample_input ModeGaming 3 0 (60 * GiB) [sample_target "org" 3 1 1] [sample_pool "org" 0] [].

(** One slot, an idle worker in a pool nothing is assigned to and a job
    assigned to the other pool. *)
Definition sample_excess : PlanInput :=
  sample_input ModeEnabled 1 0 (60 * GiB)
    [sample_target "a" 3 0 1; sample_target "b" 3 0 10]
    [sample_pool "a" 0; sample_pool "b" 1] [sample_worker "w1" "a" WorkerIdle].
