(* ===== verification/ConfigSamples.v ===== *)
(** A complete host configuration, its syntax tree and concrete stand-ins for
    the URL parser, the case tables and the YAML library, on which the
    witnesses of the configuration's theorems evaluate the definitions. *)

From S2P Require Import Prelude Float64 GoStrings Model Config Regexp GoText Validate Yaml Samples.
From Stdlib Require Import Ascii.

(** Splits [https://host/path] without further structure. *)
#[export] Instance sample_urls : URLs := {|
  url_Parse raw :=
    if HasPrefix raw "https://" then
      match Split "/" (TrimPrefix raw "https://") with
      | host :: path => Some (mkURL "https" host "" false ("/" +:+ Join "/" path) "" "" "" raw)
      | [] => None
      end
    else None |}.

#[export] Instance sample_unicode : Unicode := {| to_lower := fun r => r |}.

Definition full_target (id : string) : Target :=
  {| t_ID := id; t_URL := "https://github.com/acme"; t_Scope := ScopeOrganization; t_ClientID := "Iv1_client";
     t_InstallationID := 7; t_SecretID := "app-key"; t_RunnerGroup := "default"; t_ScaleSetName := "set-" +:+ id;
     t_Labels := ["linux"; "x64"]; t_WarmIdle := 1; t_MaxCapacity := 3; t_Priority := 1;
     t_ResourcesWorker := Some (mkWorkerOverrides None (Some (4 * GiB)) (Some (4 * GiB)) None); t_SeccompProfile := "userns" |}.

Definition full_config : Config :=
  {| c_SchemaVersion := 2; c_Host := mkHost "build-01" "build-01";
     c_Controller := mkController (10 * Second) Second (30 * Second) Minute 0 0;
     c_CompatibilityManifest := "C:\ci\release.yaml";
     c_GitHub := mkGitHub (30 * Second) (mkRetry Second (60 * Second) (f64_of_Z 2) f64_0 3) [full_target "org"; full_target "tools"];
     c_Resources := sample_resources 3 (20 * GiB);
     c_Power := mkPower PowerAlways Second; c_Drain := mkDrain Minute Second;
     c_DockerDesktop := mkDockerDesktop Minute Minute; c_WorkerImagePullTimeout := 0;
     c_Logs := mkLogs (mkDockerLogs "local" GiB 3) (mkLogClass 1 Minute 2) (mkLogClass 1 Minute 2) 1 Minute Minute;
     c_Telemetry := mkTelemetry "https://otel/v1" "grpc" true false 0 0;
     c_Paths := mkPaths "C:\ci\secrets" "C:/ci/State" "D:\logs" "D:\diagnostics" |}.

(** A mapping with the deprecated [healthWatchdog] block and an alias. *)
Definition full_tree : list Node :=
  [ mkNode DocumentNode "" "" None [1%nat];
    mkNode MappingNode "!!map" "" None [2%nat; 3%nat; 4%nat; 5%nat];
    mkNode ScalarNode "!!str" "healthWatchdog" None [];
    mkNode MappingNode "!!map" "" None [];
    mkNode ScalarNode "!!str" "github" None [];
    mkNode AliasNode "" "" (Some 3%nat) [] ].

#[export] Instance sample_yaml : YAML := {|
  decode_document _ := Ok (full_tree, 0%nat);
  decode_trailer _ := TrailerEOF;
  decode_config _ := Ok full_config |}.
