(* ===== verification/YamlFacts.v ===== *)
(** Theorems on the loading of the configuration: the search for merge keys
    visits every node of the syntax tree and ends, byte sizes are exact, and
    only validated configurations are returned. *)

From S2P Require Import Prelude Float64 GoStrings Model Config Regexp GoText Validate ValidateFacts Yaml ConfigSamples.
From Stdlib Require Import Ascii.
From stdpp Require Import relations.
#[local] Open Scope Z_scope.

(** ** The search for merge keys *)

Section Walk.
Context (h : list Node).

Definition child (p q : nat) : Prop := exists n, h !! p = Some n /\ q ∈ node_children n.

(** A mapping with a merge key. *)
Definition merges (p : nat) : Prop :=
  exists n, h !! p = Some n /\ is_kind MappingNode n && merge_keys h (n_Content n) = true.

Definition unvisited (visited : gset nat) : gset nat := set_seq 0 (length h) ∖ visited.

Lemma unvisited_visit visited p :
  is_Some (h !! p) -> p ∉ visited -> size (unvisited visited) = S (size (unvisited ({[p]} ∪ visited))).
Proof.
  intros Hp%lookup_lt_is_Some_1 Hnot. unfold unvisited.
  assert (Heq : set_seq 0 (length h) ∖ visited = {[p]} ∪ (set_seq 0 (length h) ∖ ({[p]} ∪ visited) : gset nat)).
  { apply set_eq. intros x. rewrite elem_of_difference, elem_of_union, elem_of_singleton, elem_of_difference, elem_of_union,
      elem_of_singleton, elem_of_set_seq. destruct (decide (x = p)); [subst|]; intuition lia. }
  rewrite Heq, size_union, size_singleton; [lia|]. set_solver.
Qed.

Lemma unvisited_mono v w : v ⊆ w -> (size (unvisited w) <= size (unvisited v))%nat.
Proof. intros Hvw. apply subseteq_size. unfold unvisited. set_solver. Qed.

Lemma unvisited_bound visited : (size (unvisited visited) < S (length h))%nat.
Proof.
  unfold unvisited. assert (size (set_seq 0 (length h) ∖ visited : gset nat) <= size (set_seq 0 (length h) : gset nat))%nat
    by (apply subseteq_size; set_solver). rewrite size_set_seq in *. lia.
Qed.

(** With more fuel than unvisited nodes the search ends. *)
Lemma walk_total fuel visited p :
  (size (unvisited visited) < fuel)%nat -> exists v b, walk h fuel visited p = Some (v, b) /\ visited ⊆ v.
Proof.
  revert visited p. induction fuel as [|fuel IH]; intros visited p Hfuel; [lia|]. cbn [walk].
  destruct (h !! p) as [n|] eqn:Hp; [|by eauto]. case_bool_decide as Hin; [by eauto|].
  assert (Hsize := unvisited_visit visited p (mk_is_Some _ _ Hp) Hin).
  destruct (is_kind MappingNode n && merge_keys h (n_Content n)); [eexists _, _; split; [done|set_solver]|].
  assert (Hall : forall l v0, {[p]} ∪ visited ⊆ v0 -> exists v b, walk_all (walk h fuel) v0 l = Some (v, b) /\ v0 ⊆ v).
  { induction l as [|q l IHl]; intros v0 Hv0; cbn [walk_all]; [by eauto|].
    destruct (IH v0 q) as (v & b & Hw & Hv); [pose proof (unvisited_mono _ _ Hv0); lia|]. rewrite Hw.
    destruct b; [|by eauto]. destruct (IHl v) as (v' & b & Hw' & Hv'); [set_solver|]. rewrite Hw'. exists v', b. set_solver. }
  destruct (Hall (node_children n) _ (reflexivity _)) as (v & b & Hw & Hv). exists v, b. set_solver.
Qed.

(** What a search without a find establishes of the nodes it visited. *)
Definition cleared (visited v : gset nat) : Prop :=
  visited ⊆ v /\ forall q, q ∈ v -> q ∉ visited -> ~ merges q /\ forall r, child q r -> is_Some (h !! r) -> r ∈ v.

Lemma cleared_refl v : cleared v v.
Proof. split; [done|]. intros q Hq Hnq. done. Qed.

Lemma cleared_trans u v w : cleared u v -> cleared v w -> cleared u w.
Proof.
  intros [Huv Hv] [Hvw Hw]. split; [set_solver|]. intros q Hq Hnq. destruct (decide (q ∈ v)) as [Hin|Hin]; [|by apply Hw].
  destruct (Hv q Hin Hnq) as [Hm Hc]. split; [done|]. intros r Hr Hs. apply Hvw. by eapply Hc.
Qed.

Lemma walk_cleared fuel visited p v :
  walk h fuel visited p = Some (v, true) -> cleared visited v /\ (is_Some (h !! p) -> p ∈ v).
Proof.
  revert visited p v. induction fuel as [|fuel IH]; intros visited p v; [done|]. cbn [walk].
  destruct (h !! p) as [n|] eqn:Hp.
  2:{ intros [= <-]. split; [apply cleared_refl|]. by intros [? ?]. }
  case_bool_decide as Hin; [intros [= <-]; split; [apply cleared_refl|done]|].
  destruct (is_kind MappingNode n && merge_keys h (n_Content n)) eqn:Hm; [done|]. intros Hall.
  assert (Hloop : forall l v0 v, walk_all (walk h fuel) v0 l = Some (v, true) ->
            cleared v0 v /\ forall r, r ∈ l -> is_Some (h !! r) -> r ∈ v).
  { clear -IH. induction l as [|q l IHl]; intros v0 v; cbn [walk_all].
    - intros [= <-]. split; [apply cleared_refl|]. intros r Hr. by apply elem_of_nil in Hr.
    - destruct (walk h fuel v0 q) as [[v1 []]|] eqn:Hw; try done. intros Hl.
      apply IH in Hw as [Hc1 Hq]. apply IHl in Hl as [Hc2 Hr]. split; [by eapply cleared_trans|].
      intros r [->|Hin]%elem_of_cons Hs; [|by apply Hr]. apply Hc2. by apply Hq. }
  apply Hloop in Hall as [[Hsub Hc] Hchildren]. split; [|intros _; set_solver]. split; [set_solver|].
  intros q Hq Hnq. destruct (decide (q = p)) as [->|Hne]; [|apply Hc; set_solver]. split.
  - intros (n' & Hn' & Hm'). congruence.
  - intros r (n' & Hn' & Hr) Hs. simplify_eq. by apply Hchildren.
Qed.

(** A find is a reachable mapping with a merge key. *)
Lemma walk_find fuel visited p v :
  walk h fuel visited p = Some (v, false) -> exists q, rtc child p q /\ merges q.
Proof.
  revert visited p v. induction fuel as [|fuel IH]; intros visited p v; [done|]. cbn [walk].
  destruct (h !! p) as [n|] eqn:Hp; [|done]. case_bool_decide as Hin; [done|].
  destruct (is_kind MappingNode n && merge_keys h (n_Content n)) eqn:Hm.
  { intros _. exists p. split; [apply rtc_refl|]. by exists n. }
  assert (Hloop : forall l v0 v, walk_all (walk h fuel) v0 l = Some (v, false) -> exists r q, r ∈ l /\ rtc child r q /\ merges q).
  { clear -IH. induction l as [|r l IHl]; intros v0 v; cbn [walk_all]; [done|].
    destruct (walk h fuel v0 r) as [[v1 []]|] eqn:Hw; try done; intros Hl.
    - apply IHl in Hl as (r' & q & Hr & Hq). exists r', q. split; [by right|done].
    - apply IH in Hw as (q & Hq). exists r, q. split; [left|done]. }
  intros (r & q & Hr & Hrq & Hq)%Hloop. exists q. split; [|done]. eapply rtc_l; [|exact Hrq]. by exists n.
Qed.

Lemma merge_keys_decided document :
  rejectYAMLMergeKeys h document = None <-> forall q, rtc child document q -> ~ merges q.
Proof.
  unfold rejectYAMLMergeKeys.
  destruct (walk_total (S (length h)) ∅ document) as (v & b & Hw & _); [apply unvisited_bound|].
  rewrite Hw. destruct b; split; try done.
  - intros _. apply walk_cleared in Hw as [[_ Hc] Hroot].
    assert (Hinv : forall q, rtc child document q -> is_Some (h !! q) -> q ∈ v).
    { apply (rtc_ind_r (fun q => is_Some (h !! q) -> q ∈ v)); [done|]. intros q r _ Hqr IH Hs.
      pose proof Hqr as (n & Hn & _). eapply Hc; [apply IH; eauto|set_solver|exact Hqr|done]. }
    intros q Hq (n & Hn & Hm). destruct (Hc q) as [Hno _]; [apply Hinv; eauto|set_solver|]. apply Hno. by exists n.
  - intros Hno. apply walk_find in Hw as (q & Hq & Hm). by destruct (Hno q Hq).
Qed.

(** The search for merge keys ends on every syntax tree, aliases and shared
    nodes included, and refuses a document exactly when some mapping reachable
    from its root has a merge key. *)
Theorem rejectYAMLMergeKeys_spec document :
  (exists v b, walk h (S (length h)) ∅ document = Some (v, b))
  /\ (rejectYAMLMergeKeys h document = None <-> forall q, rtc child document q -> ~ merges q).
Proof.
  split; [|apply merge_keys_decided].
  destruct (walk_total (S (length h)) ∅ document) as (v & b & Hw & _); [apply unvisited_bound|by eauto].
Qed.
End Walk.

(** ** Scalars *)

Lemma span_digits_spec d t :
  string_forall digit d = true -> match t with String a _ => digit a = false | EmptyString => True end ->
  span_digits (d +:+ t) = (d, t).
Proof.
  intros Hd Ht. induction d as [|a d IH].
  - change ("" +:+ t) with t. destruct t as [|a t]; [done|]. simpl. by rewrite Ht.
  - rewrite string_app_cons. simpl in Hd. apply andb_prop in Hd as [Ha Hd]. simpl. by rewrite Ha, IH.
Qed.

Definition size_units : list string := ["B"; "KiB"; "MiB"; "GiB"].

Lemma size_submatch_spec s d u :
  size_submatch s = Some (d, u) <->
  s = d +:+ u /\ string_forall digit d = true /\ u ∈ size_units
  /\ match d with String first _ => byte_range "1" "9" first = true | EmptyString => False end.
Proof.
  unfold size_submatch. split.
  - pose proof (span_digits_app s) as Happ. pose proof (span_digits_forall s) as Hall.
    destruct (span_digits s) as [digits unit]. simpl in Hall. destruct digits as [|first rest]; [done|].
    split_if; [|done]. apply andb_prop in Heqb as [Hfirst Hunit]. intros [= <- <-]. split_and!; try done.
    apply existsb_exists in Hunit as (x & Hx%list_elem_of_In & ->%String.eqb_eq). done.
  - intros (-> & Hall & Hunit & Hfirst). rewrite span_digits_spec; [|done|].
    + destruct d as [|first rest]; [done|]. rewrite Hfirst.
      assert (Hex : existsb (String.eqb u) ["B"; "KiB"; "MiB"; "GiB"] = true); [|by rewrite Hex].
      apply existsb_exists. exists u. split; [by apply list_elem_of_In|apply String.eqb_refl].
    + unfold size_units in Hunit. by repeat (apply elem_of_cons in Hunit as [->|Hunit]; [done|]); apply elem_of_nil in Hunit.
Qed.

Lemma size_multiplier_pos u : 0 < size_multiplier u.
Proof. unfold size_multiplier. repeat split_if; lia. Qed.

(** A byte size is accepted exactly when its text is a positive number
    without leading zeros and one of the four units, and the product fits in
    64 bits; the value is then the exact product, never a wrapped one. *)
Theorem ByteSize_exact node n :
  ByteSize_UnmarshalYAML node = Ok n <->
  n_Kind node = ScalarNode /\ n_Tag node = "!!str"
  /\ exists digits unit, size_submatch (n_Value node) = Some (digits, unit)
     /\ n = decimal_value 0 digits * size_multiplier unit /\ 0 < n <= max_u64.
Proof.
  unfold ByteSize_UnmarshalYAML, is_kind.
  destruct (decide (n_Kind node = ScalarNode)) as [Hk|Hk]; [|rewrite bool_decide_false by done; simpl; naive_solver].
  destruct (String.eqb_spec (n_Tag node) "!!str") as [Ht|Ht]; [|rewrite bool_decide_true by done; simpl; naive_solver].
  rewrite bool_decide_true by done. simpl.
  destruct (size_submatch (n_Value node)) as [[digits unit]|] eqn:Hsub; [|naive_solver].
  pose proof (proj1 (size_submatch_spec _ _ _) Hsub) as (_ & Hall & _ & Hfirst).
  pose proof (size_multiplier_pos unit) as Hmul.
  assert (Hvalue : 0 < decimal_value 0 digits).
  { destruct digits as [|first rest]; [done|]. cbn [string_forall] in Hall. apply andb_prop in Hall as [_ Hall].
    unfold byte_range in Hfirst. change (byte_of "1") with 49 in Hfirst. zb. cbn [decimal_value].
    assert (0 <= 10 * 0 + (byte_of first - 48)) as Hpos by lia.
    pose proof (decimal_value_ge _ rest Hpos Hall). lia. }
  unfold ParseUint. rewrite Hall, andb_true_r.
  assert (Hne : negb (String.eqb digits "") = true) by (destruct digits; done). rewrite Hne.
  assert (Hquot : max_u64 / size_multiplier unit < decimal_value 0 digits <-> max_u64 < decimal_value 0 digits * size_multiplier unit).
  { split; intros Hx.
    - apply Z.nle_gt. intros Hle.
      assert (decimal_value 0 digits <= max_u64 / size_multiplier unit) by (apply Z.div_le_lower_bound; lia). lia.
    - apply Z.div_lt_upper_bound; lia. }
  destruct (Z.leb_spec (decimal_value 0 digits) max_u64) as [Hle|Hgt].
  - destruct (Z.ltb_spec (max_u64 / size_multiplier unit) (decimal_value 0 digits)) as [Ho|Ho].
    + split; [done|]. intros (_ & _ & d & u & [= <- <-] & -> & Hr). apply Hquot in Ho. lia.
    + assert (Hfit : decimal_value 0 digits * size_multiplier unit <= max_u64) by lia.
      rewrite wrap_u64_small by (unfold is_u64; nia). split.
      * intros [= <-]. split_and!; [done|done|]. exists digits, unit. split_and!; [done|done|nia|done].
      * intros (_ & _ & d & u & [= <- <-] & -> & Hr). done.
  - split; [done|]. intros (_ & _ & d & u & [= <- <-] & -> & Hr). nia.
Qed.

(** A duration of the document is positive and fits its type. *)
Lemma Duration_range node d : Duration_UnmarshalYAML node = Ok d -> 0 < d <= max_i64.
Proof.
  unfold Duration_UnmarshalYAML. split_if; [done|]. destruct (ParseDuration (n_Value node)) as [v|] eqn:Hp; [|done].
  destruct (Z.leb_spec v 0); [done|]. intros [= <-]. split; [done|]. revert Hp. unfold ParseDuration.
  destruct (match n_Value node with EmptyString => (false, n_Value node) | String a rest => _ end) as [neg s].
  split_if; [intros [= <-]; lia|]. split_if; [done|]. destruct (duration_parts _ _ _) as [w|]; [|done].
  destruct neg; [intros [= <-]; apply wrap_i64_range|]. split_if; [done|]. zb. by intros [= <-].
Qed.

(** ** Load *)

Section LoadFacts.
Context {yaml : YAML} {urls : URLs} {unicode : Unicode} {order : MapRange}.

(** Every configuration [Load] returns is valid, has a positive pull
    timeout, and comes from a single document without merge keys whose decoded
    value differs from it at most in the defaulted pull timeout. *)
Theorem Load_returns_valid read c warnings :
  Load read = Ok (c, warnings) ->
  valid_config c /\ 0 < c_WorkerImagePullTimeout c
  /\ exists data h document cfg,
       read = Ok data /\ decode_document data = Ok (h, document) /\ decode_trailer data = TrailerEOF
       /\ (forall q, rtc (child h) document q -> ~ merges h q)
       /\ decode_config data = Ok cfg /\ c = default_pull_timeout cfg
       /\ (warnings = [] \/ warnings = [watchdog_warning]).
Proof.
  unfold Load. destruct read as [data|]; [|done]. simpl.
  destruct (decode_document data) as [[h document]|] eqn:Hdoc; [|done]. simpl.
  destruct (decode_trailer data) eqn:Htr; try done. simpl.
  destruct (rejectYAMLMergeKeys h document) eqn:Hmerge; [done|]. simpl.
  destruct (validateTargetResourceSyntax h document); [done|]. simpl.
  destruct (validateResourceSchemaSyntax h document); [done|]. simpl.
  destruct (decode_config data) as [cfg|] eqn:Hcfg; [|done]. simpl.
  destruct (Config_Validate (default_pull_timeout cfg)) eqn:Hv; [done|]. simpl. intros [= <- <-].
  apply Config_Validate_decides in Hv as Hvalid. split; [done|]. split.
  - destruct (vc_services _ Hvalid) as (_ & _ & _ & _ & _ & _ & Hpull & _).
    revert Hpull. unfold default_pull_timeout. destruct (Z.eqb_spec (c_WorkerImagePullTimeout cfg) 0); simpl; [|lia].
    intros _. unfold defaultWorkerImagePullTimeout, Minute, Second. lia.
  - exists data, h, document, cfg. split_and!; try done.
    + by apply merge_keys_decided.
    + destruct (has_watchdog h document); auto.
Qed.
End LoadFacts.

Lemma Load_returns_valid_witness :
  Load (Ok "host: build-01") = Ok (default_pull_timeout full_config, [watchdog_warning])
  /\ 0 < c_WorkerImagePullTimeout (default_pull_timeout full_config).
Proof.
  assert (Hload : Load (Ok "host: build-01") = Ok (default_pull_timeout full_config, [watchdog_warning])) by (by vm_compute).
  split; [exact Hload|]. exact (proj1 (proj2 (Load_returns_valid _ _ _ Hload))).
Defined.
