(* ===== verification/PlanFacts.v ===== *)
(** The building blocks of the planner's theorems: what the worker scan
    computes, which fields each stage leaves alone and the bounds of the slot
    arithmetic. *)

From S2P Require Import Prelude Float64 Model Config PlanGates Plan.

(** ** Slot arithmetic *)

Lemma memory_reserve_range total pct : is_u64 (memory_reserve total pct).
Proof. apply u64_of_f64_range. Qed.

Lemma affordable_nonneg m k : 0 <= m -> 0 <= k -> 0 <= affordableWorkerCount m k.
Proof.
  intros. unfold affordableWorkerCount, max_i64. split_if; [lia|]. zb.
  pose proof (Z.div_pos m k). split_if; lia.
Qed.

Lemma affordable_fits m k : 0 <= m -> 0 <= k -> affordableWorkerCount m k * k <= m.
Proof.
  intros. unfold affordableWorkerCount, max_i64. split_if; [lia|]. zb.
  pose proof (Z.mul_div_le m k). split_if; zb; nia.
Qed.

Lemma affordable_margin_fits m k pct :
  0 <= m -> 0 <= k -> 0 <= affordableWorkerCountWithMargin m k pct * k <= m.
Proof.
  intros. unfold affordableWorkerCountWithMargin. split_if; [lia|]. zb.
  pose proof (memory_reserve_range k pct) as [? _].
  split_if; zb; [lia|].
  pose proof (affordable_fits (m - memory_reserve k pct) k).
  pose proof (affordable_nonneg (m - memory_reserve k pct) k). nia.
Qed.

Lemma affordable_margin_nonneg m k pct : 0 <= m -> 0 <= k -> 0 <= affordableWorkerCountWithMargin m k pct.
Proof.
  intros. unfold affordableWorkerCountWithMargin. split_if; [lia|].
  split_if; zb; [lia|]. apply affordable_nonneg; lia.
Qed.

Lemma saturatingAdd_spec a b :
  is_u64 a -> is_u64 b -> saturatingAddUint64 a b = Z.min max_u64 (a + b).
Proof. unfold saturatingAddUint64, is_u64. intros. split_if; zb; lia. Qed.

#[export] Hint Resolve affordable_nonneg affordable_fits affordable_margin_nonneg : ci_runner.

(** ** Maps of the initial plan *)

Lemma zero_map_mget targets k : mget (zero_map targets) k = 0.
Proof.
  apply (foldl_invariant (fun m => mget m k = 0)); [done|].
  intros m t _ IH. rewrite mget_insert. by case_decide.
Qed.

Lemma zero_map_sum targets : map_sum (zero_map targets) = 0.
Proof.
  apply (foldl_invariant (fun m => map_sum m = 0 /\ forall k, mget m k = 0)); [done|].
  intros m t _ [IH Hz]. split.
  - rewrite map_sum_insert, Hz. lia.
  - intros k. rewrite mget_insert. by case_decide.
Qed.

Lemma plan_init_advertised input : p_AdvertisedCapacity (plan_init input) = zero_map (in_Targets input).
Proof. unfold plan_init. by destruct (evaluateResourceGate _ _ _ _) as [[??]?], (evaluatePowerGate _ _ _ _). Qed.

Lemma plan_init_desired input : p_DesiredWorkers (plan_init input) = zero_map (in_Targets input).
Proof. unfold plan_init. by destruct (evaluateResourceGate _ _ _ _) as [[??]?], (evaluatePowerGate _ _ _ _). Qed.

Lemma plan_init_idle input :
  p_Start (plan_init input) = [] /\ p_Remove (plan_init input) = [] /\
  p_StopDesktop (plan_init input) = false /\ p_ShutdownWSL (plan_init input) = false /\
  p_StartDesktop (plan_init input) = false /\ p_QuiesceReason (plan_init input) = None.
Proof. unfold plan_init. by destruct (evaluateResourceGate _ _ _ _) as [[??]?], (evaluatePowerGate _ _ _ _). Qed.

(** ** The worker scan *)

(** [known_target] decides membership among the configured IDs. *)
Lemma known_target_spec targets pool :
  known_target targets pool = true <-> pool ∈ (t_ID <$> targets).
Proof.
  unfold known_target. rewrite existsb_exists. split.
  - intros (t & Hin & Heq). apply String.eqb_eq in Heq. subst.
    apply list_elem_of_fmap_2. by apply list_elem_of_In.
  - intros (t & -> & Hin)%list_elem_of_fmap. exists t.
    split; [by apply list_elem_of_In|apply String.eqb_refl].
Qed.

Definition in_pool (k : string) (w : Worker) : bool := String.eqb (w_PoolID w) k.

Lemma scan_workers_app input l1 s w :
  foldl (scan_worker input) s (l1 ++ [w]) = scan_worker input (foldl (scan_worker input) s l1) w.
Proof. by rewrite foldl_app. Qed.

Lemma scan_counts input :
  sc_busy (scan_workers input) = busy_count (in_Workers input) /\
  sc_active (scan_workers input) = count Active (in_Workers input) /\
  forall k, pool_workers (sc_byPool (scan_workers input)) k = List.filter (in_pool k) (in_Workers input).
Proof.
  unfold scan_workers. induction (in_Workers input) as [|w l IH] using rev_ind; [done|].
  rewrite scan_workers_app. destruct IH as (IHb & IHa & IHp). unfold busy_count in *.
  rewrite !count_app. simpl. rewrite IHb, IHa. split_and!.
  - destruct (is_busy (w_State w)); lia.
  - destruct (Active w); lia.
  - intros k. rewrite List.filter_app, <- !IHp. unfold pool_workers at 1.
    rewrite lookup_insert. simpl. unfold in_pool.
    case_decide as Hk; subst; simpl.
    + by rewrite String.eqb_refl.
    + rewrite (proj2 (String.eqb_neq _ _) Hk). by rewrite app_nil_r.
Qed.

Lemma scan_busy input : sc_busy (scan_workers input) = busy_count (in_Workers input).
Proof. apply scan_counts. Qed.

Lemma scan_active input : sc_active (scan_workers input) = count Active (in_Workers input).
Proof. apply scan_counts. Qed.

Lemma scan_pool input k :
  pool_workers (sc_byPool (scan_workers input)) k = List.filter (in_pool k) (in_Workers input).
Proof. apply scan_counts. Qed.

Lemma scan_pool_elem input k w :
  w ∈ pool_workers (sc_byPool (scan_workers input)) k <-> w ∈ in_Workers input /\ w_PoolID w = k.
Proof.
  rewrite scan_pool, !list_elem_of_In, List.filter_In. unfold in_pool. by rewrite String.eqb_eq.
Qed.

Lemma scan_plan_advertised input :
  p_AdvertisedCapacity (sc_plan (scan_workers input)) = zero_map (in_Targets input).
Proof.
  rewrite <- plan_init_advertised. unfold scan_workers.
  apply (foldl_proj (fun s => p_AdvertisedCapacity (sc_plan s))). intros s w _. simpl.
  split_if; [done|]. by destruct (w_State w).
Qed.

Lemma scan_plan_desired input :
  p_DesiredWorkers (sc_plan (scan_workers input)) = zero_map (in_Targets input).
Proof.
  rewrite <- plan_init_desired. unfold scan_workers.
  apply (foldl_proj (fun s => p_DesiredWorkers (sc_plan s))). intros s w _. simpl.
  split_if; [done|]. by destruct (w_State w).
Qed.

Lemma scan_plan_idle input :
  p_Start (sc_plan (scan_workers input)) = [] /\
  p_StopDesktop (sc_plan (scan_workers input)) = false /\
  p_ShutdownWSL (sc_plan (scan_workers input)) = false /\
  p_StartDesktop (sc_plan (scan_workers input)) = false /\
  p_QuiesceReason (sc_plan (scan_workers input)) = None.
Proof.
  destruct (plan_init_idle input) as (? & _ & ? & ? & ? & ?).
  unfold scan_workers. apply foldl_invariant; [done|].
  intros s w _ ?. simpl. split_if; [done|]. by destruct (w_State w).
Qed.
