(* ===== verification/PlanSafety.v ===== *)
(** Safety of [BuildPlan] in every mode: busy work is never planned for
    removal, every gate fails closed, and the desktop is never stopped under
    work. *)

From S2P Require Import Prelude Float64 Model Config PlanGates Plan Samples PlanFacts.

(** The input [BuildPlan] works on: the caller's, with the time filled in. *)
Definition normalized (wall : time) (input : PlanInput) : PlanInput :=
  if IsZero (in_Now input) then {| input with in_Now := wall |} else input.

Lemma normalized_fields wall input :
  in_Config (normalized wall input) = in_Config input /\
  in_Workers (normalized wall input) = in_Workers input /\
  in_Desired (normalized wall input) = in_Desired input /\
  in_Desktop (normalized wall input) = in_Desktop input /\
  in_Pools (normalized wall input) = in_Pools input /\
  hostWorkerLimit (normalized wall input) = hostWorkerLimit input /\
  evaluateMemoryBasis (normalized wall input) = evaluateMemoryBasis input.
Proof. unfold normalized. by destruct (IsZero _). Qed.

(** ** Removals *)

Definition removable (ws : list Worker) (w : Worker) : Prop :=
  w ∈ ws /\ (is_terminal (w_State w) = true \/ is_nonbusy_active (w_State w) = true).

Definition removals_safe (ws : list Worker) (p : Plan) : Prop := Forall (removable ws) (p_Remove p).

Lemma removable_not_busy ws w : removable ws w -> w_State w <> WorkerBusy.
Proof. intros [_ [?|?]] Hb; by rewrite Hb in *. Qed.

Lemma add_remove_safe ws p l :
  removals_safe ws p -> Forall (removable ws) l -> removals_safe ws (add_remove p l).
Proof. intros. unfold removals_safe. simpl. by apply Forall_app. Qed.

Lemma quiesce_removals ws r p : removals_safe ws p -> removals_safe ws (quiesce r p).
Proof. unfold quiesce, removals_safe. by destruct (p_QuiesceReason p). Qed.

Lemma safe_removals_spec ws n l :
  (forall w, w ∈ l -> w ∈ ws) -> Forall (removable ws) (safe_removals n l).
Proof.
  revert n. induction l as [|w l IH]; intros n Hsub; simpl; [constructor|].
  assert (w ∈ ws) by set_solver. assert (forall w, w ∈ l -> w ∈ ws) by set_solver.
  split_if; [constructor; [split; auto|auto]|].
  split_if; [|auto]. zb. constructor; [split; auto|auto].
Qed.

Lemma filter_removable ws (f : Worker -> bool) l :
  (forall w, w ∈ l -> w ∈ ws) ->
  (forall w, f w = true -> is_terminal (w_State w) = true \/ is_nonbusy_active (w_State w) = true) ->
  Forall (removable ws) (List.filter f l).
Proof.
  intros Hsub Hf. apply Forall_forall. intros w Hw%list_elem_of_In.
  apply List.filter_In in Hw as [Hin Hfw]. split; [apply Hsub; by apply list_elem_of_In|auto].
Qed.

Section Removals.
Context `{MapRange} (input : PlanInput).
Local Abbreviation ws := (in_Workers input).
Local Abbreviation safe := (removals_safe ws).

Lemma scan_removals_safe : safe (sc_plan (scan_workers input)).
Proof.
  unfold scan_workers. apply (foldl_invariant (fun s => safe (sc_plan s))).
  - unfold removals_safe. simpl. by rewrite (proj1 (proj2 (plan_init_idle input))).
  - intros s w Hin IH. simpl. split_if; [done|].
    destruct (w_State w) eqn:Hs; try done;
      (apply add_remove_safe; [done|]; apply Forall_singleton; split; [done|rewrite Hs; by left]).
Qed.

Lemma appendSafeRemovals_safe p desired :
  safe p -> safe (appendSafeRemovals p (sc_byPool (scan_workers input)) (in_Targets input) desired).
Proof.
  intros Hp. unfold appendSafeRemovals. apply foldl_invariant; [done|].
  intros p' [k l] Hin IH. split_if; [done|]. apply add_remove_safe; [done|].
  apply safe_removals_spec. intros w Hw.
  apply elem_of_range in Hin. apply (scan_pool_elem input k w).
  unfold pool_workers. by rewrite Hin.
Qed.

Lemma drain_target_removals byPool res st t :
  p_Remove (dn_plan (drain_target input byPool res st t)) = p_Remove (dn_plan st).
Proof. unfold drain_target. simpl. by repeat split_if. Qed.

Lemma outstanding_removals_safe s :
  sc_byPool s = sc_byPool (scan_workers input) -> safe (sc_plan s) ->
  safe (applyOutstandingAssignments input s).1.
Proof.
  intros Hpool Hs. unfold applyOutstandingAssignments, removals_safe. simpl.
  rewrite (foldl_proj (fun st => p_Remove (dn_plan st))) by (intros; apply drain_target_removals).
  rewrite Hpool. by apply appendSafeRemovals_safe.
Qed.

Lemma schedule_target_safe cx st t :
  cx_byPool cx = sc_byPool (scan_workers input) ->
  safe (ss_plan st) -> Forall (fun b => Forall (removable ws) (bc_removable b)) (ss_burst st) ->
  safe (ss_plan (schedule_target cx st t)) /\
  Forall (fun b => Forall (removable ws) (bc_removable b)) (ss_burst (schedule_target cx st t)).
Proof.
  intros Hpool Hst Hb. unfold schedule_target. rewrite Hpool.
  set (l := pool_workers _ _).
  assert (Hsub : forall w, w ∈ l -> w ∈ ws) by (intros w Hw; by apply scan_pool_elem in Hw as [? _]).
  assert (Hrem : Forall (removable ws) (List.filter (fun w => is_nonbusy_active (w_State w)) l))
    by (apply filter_removable; auto).
  assert (Hterm : Forall (removable ws) (List.filter (fun w => is_terminal (w_State w)) l))
    by (apply filter_removable; auto).
  assert (Hbase : forall q, safe q -> safe (add_remove q (List.filter (fun w => is_terminal (w_State w)) l)))
    by (intros; by apply add_remove_safe).
  repeat split_if; simpl; split; try done; try (by apply Hbase);
    try (apply add_remove_safe; [|by apply Forall_take]; apply quiesce_removals; by apply Hbase);
    try (apply Forall_app; split; [done|]; by repeat constructor).
Qed.

Lemma schedule_all_safe cx targets p :
  cx_byPool cx = sc_byPool (scan_workers input) -> safe p ->
  safe (ss_plan (schedule_all cx targets p)) /\
  Forall (fun b => Forall (removable ws) (bc_removable b)) (ss_burst (schedule_all cx targets p)).
Proof.
  intros Hpool Hp. unfold schedule_all. apply foldl_invariant; [by split|].
  intros st t _ [??]. by apply schedule_target_safe.
Qed.

Lemma advertise_bursts_safe cx s :
  safe (ss_plan s) -> Forall (fun b => Forall (removable ws) (bc_removable b)) (ss_burst s) ->
  safe (bs_plan (advertise_bursts cx s)).
Proof.
  intros Hp Hb. unfold advertise_bursts. apply (foldl_invariant (fun b => safe (bs_plan b))); [done|].
  intros b cand Hin IH. apply elem_of_sort_by in Hin. rewrite Forall_forall in Hb. specialize (Hb _ Hin).
  unfold advertise_burst.
  set (q := if _ : bool then set_advertised _ _ else bs_plan b).
  assert (safe q) by (unfold q; by split_if).
  destruct (negb _); [done|]. simpl.
  apply add_remove_safe; [by apply quiesce_removals|by apply Forall_take].
Qed.

Lemma advertise_services_removals cx targets b memory :
  p_Remove (advertise_services cx targets b memory).1 = p_Remove (bs_plan b).
Proof.
  unfold advertise_services. split_if; [done|]. simpl.
  apply (foldl_proj (fun st => p_Remove (sv_plan st))). intros st t _.
  unfold advertise_service. by repeat split_if.
Qed.

Lemma allocate_removals cx st t n : p_Remove (al_plan (allocate cx st t n)) = p_Remove (al_plan st).
Proof. unfold allocate. by split_if. Qed.

Lemma allocate_all_removals cx targets st :
  p_Remove (al_plan (allocate_all cx targets st)) = p_Remove (al_plan st).
Proof.
  unfold allocate_all. rewrite !(foldl_proj (fun st => p_Remove (al_plan st))); [done|..].
  - intros st' t _. unfold allocate_assigned. split_if; [done|]. simpl.
    split_if; simpl; apply allocate_removals.
  - intros st' t _. unfold allocate_warm. split_if; [done|]. apply allocate_removals.
Qed.

Lemma plan_context_removals s cx st :
  plan_context input s = (cx, st) -> p_Remove (al_plan st) = p_Remove (sc_plan s) /\ cx_byPool cx = sc_byPool s.
Proof.
  unfold plan_context. intros [= <- <-]. simpl. split; [|done].
  rewrite (foldl_proj (fun r => p_Remove (rd_plan r))); [simpl; by repeat split_if|].
  intros r t _. unfold assess_target. destruct (poolByID _ !! _); [|done].
  by repeat split_if.
Qed.

Lemma finish_plan_fields cx targets p m :
  p_Remove (finish_plan cx targets p m) = p_Remove p /\
  p_Start (finish_plan cx targets p m) = p_Start p /\
  p_AdvertisedCapacity (finish_plan cx targets p m) = p_AdvertisedCapacity p /\
  p_DesiredWorkers (finish_plan cx targets p m) = p_DesiredWorkers p /\
  p_MemoryHeadroom (finish_plan cx targets p m) = m.
Proof. done. Qed.

Lemma plan_enabled_removals_safe : safe (plan_enabled input (scan_workers input)).
Proof.
  unfold plan_enabled. destruct (plan_context input _) as [cx st] eqn:Hcx.
  apply plan_context_removals in Hcx as [Hr Hp].
  destruct (advertise_services _ _ _ _) as [p m] eqn:Hs.
  unfold removals_safe. rewrite (proj1 (finish_plan_fields _ _ _ _)).
  replace p with (p, m).1 by done. rewrite <- Hs, advertise_services_removals.
  edestruct schedule_all_safe as [??]; [exact Hp| |by apply advertise_bursts_safe].
  unfold removals_safe. rewrite allocate_all_removals, Hr. apply scan_removals_safe.
Qed.
End Removals.

(** The drain planner only appends to the plan it is given: capacity, the
    desktop shutdown flags and the quiesce reason stay as they were. *)
Definition same_capacity (p q : Plan) : Prop :=
  p_AdvertisedCapacity q = p_AdvertisedCapacity p /\
  p_StopDesktop q = p_StopDesktop p /\ p_ShutdownWSL q = p_ShutdownWSL p /\
  p_QuiesceReason q = p_QuiesceReason p.

#[export] Instance same_capacity_preorder : PreOrder same_capacity.
Proof.
  split; [by intros ?|].
  intros p q r (?&?&?&?) (?&?&?&?). repeat split; by etrans.
Qed.

Lemma drain_target_same input byPool res st t :
  same_capacity (dn_plan st) (dn_plan (drain_target input byPool res st t)).
Proof. unfold drain_target, same_capacity. simpl. by repeat split_if. Qed.

Lemma appendSafeRemovals_same `{MapRange} p byPool targets desired :
  same_capacity p (appendSafeRemovals p byPool targets desired).
Proof.
  unfold appendSafeRemovals. apply foldl_preorder; [by intros|by intros ???; etrans|].
  intros q [k l] _. by split_if.
Qed.

Lemma outstanding_same `{MapRange} input s :
  same_capacity (sc_plan s) (applyOutstandingAssignments input s).1.
Proof.
  unfold applyOutstandingAssignments. simpl. etrans; [apply appendSafeRemovals_same|].
  match goal with |- same_capacity ?p _ =>
    apply (foldl_invariant (fun st => same_capacity p (dn_plan st))) end; [done|].
  intros st t _ IH. etrans; [exact IH|]. apply drain_target_same.
Qed.

Lemma quiesce_fields r p :
  p_AdvertisedCapacity (quiesce r p) = p_AdvertisedCapacity p /\
  p_StopDesktop (quiesce r p) = p_StopDesktop p /\
  p_ShutdownWSL (quiesce r p) = p_ShutdownWSL p /\
  p_Start (quiesce r p) = p_Start p /\
  p_Remove (quiesce r p) = p_Remove p /\
  p_DesiredWorkers (quiesce r p) = p_DesiredWorkers p.
Proof. unfold quiesce. by destruct (p_QuiesceReason p). Qed.

(** When the planner may advertise at all. *)
Definition admits_work (input : PlanInput) : bool :=
  bool_decide (ds_Mode (in_Desired input) = ModeEnabled)
  && power_allowed input && negb (desktop_down (in_Desktop input))
  && resource_healthy input && (0 <=? hostWorkerLimit input).

#[local] Opaque applyOutstandingAssignments.

(** A plan built on any path but the enabled planner is the drain planner's,
    possibly with a phase, a quiesce reason or the gaming flags set. *)
Lemma BuildPlan_cases `{MapRange} wall input :
  let i := normalized wall input in
  BuildPlan wall input = plan_enabled i (scan_workers i) /\ admits_work i = true \/
  admits_work i = false /\
  exists s p, sc_byPool s = sc_byPool (scan_workers i) /\
    sc_active s = sc_active (scan_workers i) /\
    same_capacity (sc_plan (scan_workers i)) (sc_plan s) /\
    p_Start (sc_plan s) = [] /\
    p_DesiredWorkers (sc_plan s) = p_DesiredWorkers (sc_plan (scan_workers i)) /\
    p_Remove (sc_plan s) = p_Remove (sc_plan (scan_workers i)) /\
    (p = (applyOutstandingAssignments i s).1 \/
     p = sc_plan s \/
     p = appendSafeRemovals (sc_plan s) (sc_byPool s) (in_Targets i) None) /\
    p_AdvertisedCapacity (BuildPlan wall input) = p_AdvertisedCapacity p /\
    p_Remove (BuildPlan wall input) = p_Remove p /\
    p_Start (BuildPlan wall input) = p_Start p /\
    p_DesiredWorkers (BuildPlan wall input) = p_DesiredWorkers p.
Proof.
  intros i. assert (Hi : BuildPlan wall input = BuildPlan wall input) by done.
  unfold BuildPlan at 2 in Hi. fold (normalized wall input) in Hi. fold i in Hi. cbv zeta in Hi.
  set (s := scan_workers i) in *. unfold admits_work.
  pose proof (scan_plan_idle i) as (Hstart & _). fold s in Hstart.
  destruct (ds_Mode (in_Desired i)) as [| | |other] eqn:Hm; simpl in Hi |- *.
  - destruct (power_allowed i) eqn:Hpow; simpl in Hi |- *.
    2: { right. split; [done|]. exists s, (applyOutstandingAssignments i s).1. rewrite Hi. repeat split; auto; done. }
    destruct (desktop_down (in_Desktop i)) eqn:Hd; simpl in Hi |- *.
    { right. split; [done|]. exists s, (sc_plan s). rewrite Hi. repeat split; auto; done. }
    destruct (resource_healthy i) eqn:Hr; simpl in Hi |- *.
    2: { right. split; [done|]. exists s, (applyOutstandingAssignments i s).1. rewrite Hi. repeat split; auto; done. }
    destruct (hostWorkerLimit i <? 0) eqn:Hl; zb.
    + right. split; [apply Z.leb_gt; lia|].
      exists {| s with sc_plan := add_problem (set_phase (sc_plan s) PhaseDegraded)
                             (problem_invalid_override (in_Now i)) |}, (BuildPlan wall input).
      simpl. repeat (split; [try done; auto|]); done.
    + left. split; [done|]. by apply Z.leb_le.
  - right. split; [done|]. exists s, (applyOutstandingAssignments i s).1.
    rewrite Hi. clear Hi. destruct (applyOutstandingAssignments i s) as [p o].
    split_if; unfold quiesce; simpl; try destruct (p_QuiesceReason p); repeat split; auto; done.
  - right. split; [done|]. exists s, (applyOutstandingAssignments i s).1.
    rewrite Hi. clear Hi. destruct (applyOutstandingAssignments i s) as [p o].
    repeat split_if; unfold quiesce; simpl; try destruct (p_QuiesceReason p); repeat split; auto; done.
  - right. split; [done|].
    exists {| s with sc_plan := add_problem (set_phase (sc_plan s) PhaseDegraded)
                           (problem_invalid_mode (in_Now i) (ModeOther other)) |}, (BuildPlan wall input).
    simpl. repeat (split; [try done; auto|]); done.
Qed.

#[local] Transparent applyOutstandingAssignments.

Lemma BuildPlan_removable `{MapRange} wall input : removals_safe (in_Workers input) (BuildPlan wall input).
Proof.
  destruct (normalized_fields wall input) as (_ & Hws & _). rewrite <- Hws. set (i := normalized wall input). unfold removals_safe.
  destruct (BuildPlan_cases wall input) as [[-> _]|(_ & s & p & Hb & _ & _ & _ & _ & Hr & Hp & _ & -> & _)].
  - apply plan_enabled_removals_safe.
  - assert (removals_safe (in_Workers i) (sc_plan s))
      by (unfold removals_safe; rewrite Hr; apply scan_removals_safe).
    destruct Hp as [-> | [-> | ->]]; [by apply outstanding_removals_safe|done|].
    rewrite Hb. by apply appendSafeRemovals_safe.
Qed.

(** C13: In every mode, and whatever the order in which Go iterates its maps,
    a worker a plan removes is one of the observed workers and is terminal,
    starting or idle: busy work is never planned for removal. *)
Theorem BuildPlan_removes_only_idle_or_terminal `{MapRange} wall input :
  Forall (fun w => w ∈ in_Workers input /\ w_State w <> WorkerBusy /\
                   (is_terminal (w_State w) = true \/ is_nonbusy_active (w_State w) = true))
         (p_Remove (BuildPlan wall input)).
Proof.
  eapply Forall_impl; [apply BuildPlan_removable|]. intros w Hw. pose proof (removable_not_busy _ _ Hw). by destruct Hw.
Qed.

(** Without admission nothing is advertised. *)
Lemma BuildPlan_gated_zero `{MapRange} wall input k :
  admits_work (normalized wall input) = false ->
  mget (p_AdvertisedCapacity (BuildPlan wall input)) k = 0.
Proof.
  intros Hgate.
  destruct (BuildPlan_cases wall input) as [[_ Hok]|(_ & s & p & _ & _ & Hs & _ & _ & _ & Hp & -> & _)];
    [congruence|].
  assert (same_capacity (sc_plan s) p) as (Hadv & _).
  { destruct Hp as [-> | [-> | ->]]; [apply outstanding_same|done|apply appendSafeRemovals_same]. }
  destruct Hs as (Hadv' & _). rewrite Hadv, Hadv', scan_plan_advertised. apply zero_map_mget.
Qed.

(** Every gate fails closed.  Unless the mode is enabled, power is allowed,
    the desktop and its engine are up, the resource gate is healthy and the
    host limit is not negative, the plan advertises zero for every pool. *)
Theorem BuildPlan_fails_closed `{MapRange} wall input k :
  admits_work (normalized wall input) = false ->
  mget (p_AdvertisedCapacity (BuildPlan wall input)) k = 0.
Proof. apply BuildPlan_gated_zero. Qed.

(** ** Desktop shutdown *)

Definition flags (p : Plan) : bool * bool * bool := (p_StartDesktop p, p_StopDesktop p, p_ShutdownWSL p).

Lemma quiesce_flags r p : flags (quiesce r p) = flags p.
Proof. unfold quiesce. by destruct (p_QuiesceReason p). Qed.

Lemma allocate_flags cx st t n : flags (al_plan (allocate cx st t n)) = flags (al_plan st).
Proof. unfold allocate. by split_if. Qed.

Lemma schedule_target_flags cx st t : flags (ss_plan (schedule_target cx st t)) = flags (ss_plan st).
Proof.
  unfold schedule_target. simpl.
  repeat split_if; simpl; unfold flags; simpl; try done;
    match goal with |- context [quiesce ?r ?q] =>
      pose proof (quiesce_flags r q) as Hq; unfold flags in Hq; simpl in Hq; by rewrite Hq end.
Qed.

Lemma advertise_burst_flags st cand : flags (bs_plan (advertise_burst st cand)) = flags (bs_plan st).
Proof.
  unfold advertise_burst. set (q := if _ : bool then set_advertised _ _ else bs_plan st).
  assert (Hq : flags q = flags (bs_plan st)) by (unfold q; by split_if).
  destruct (negb _); [done|]. rewrite <- Hq. apply (quiesce_flags QuiesceReasonAdvertisementBudgetExhausted q).
Qed.

Lemma plan_enabled_flags `{MapRange} input s : flags (plan_enabled input s) = flags (sc_plan s).
Proof.
  unfold plan_enabled. destruct (plan_context input s) as [cx st] eqn:Hcx.
  assert (Hst : flags (al_plan st) = flags (sc_plan s)).
  { unfold plan_context in Hcx. injection Hcx as <- <-. simpl.
    rewrite (foldl_proj (fun r => flags (rd_plan r))); [unfold flags; simpl; by repeat split_if|].
    intros r t _. unfold assess_target. destruct (poolByID _ !! _); [|done]. by repeat split_if. }
  destruct (advertise_services _ _ _ _) as [p m] eqn:Hs.
  change (flags p = flags (sc_plan s)). replace p with (p, m).1 by done. rewrite <- Hs, <- Hst.
  transitivity (flags (bs_plan (advertise_bursts cx (schedule_all cx (sortedTargetsByPriority (in_Targets input))
     (al_plan (allocate_all cx (sortedTargetsByPriority (in_Targets input)) st)))))).
  { unfold advertise_services. split_if; [done|]. simpl.
    apply (foldl_proj (fun st => flags (sv_plan st))). intros st' t _.
    unfold advertise_service. by repeat split_if. }
  unfold advertise_bursts. rewrite (foldl_proj (fun b => flags (bs_plan b)))
    by (intros; apply advertise_burst_flags). simpl.
  unfold schedule_all. rewrite (foldl_proj (fun st => flags (ss_plan st)))
    by (intros; apply schedule_target_flags). simpl.
  unfold allocate_all. rewrite !(foldl_proj (fun st => flags (al_plan st))); [done|..].
  - intros st' t _. unfold allocate_assigned. split_if; [done|]. simpl. split_if; apply allocate_flags.
  - intros st' t _. unfold allocate_warm. split_if; [done|]. apply allocate_flags.
Qed.

(** No uncovered assignment: every ready configured pool's assigned jobs are
    matched by its busy workers. *)
Lemma outstanding_reservations_empty input byPool :
  outstanding_reservations input byPool = ∅ ->
  forall pool, pool ∈ in_Pools input -> known_target (in_Targets input) (sn_TargetID pool) = true ->
  sn_Ready pool = true -> sn_TotalAssignedJobs pool <= busy_count (pool_workers byPool (sn_TargetID pool)).
Proof.
  unfold outstanding_reservations. intros Hempty pool Hin Hk Hr.
  destruct (Z.le_gt_cases (sn_TotalAssignedJobs pool) (busy_count (pool_workers byPool (sn_TargetID pool))))
    as [?|Hgt]; [done|]. exfalso. pose proof (count_nonneg (fun w => is_busy (w_State w)) (pool_workers byPool (sn_TargetID pool))).
  unfold busy_count in *.
  apply list_elem_of_split in Hin as (l1 & l2 & Heq). rewrite Heq, foldl_app in Hempty. simpl in Hempty.
  rewrite Hk, Hr in Hempty. simpl in Hempty.
  rewrite (proj2 (Z.leb_gt _ _)) in Hempty by lia.
  rewrite (proj2 (Z.ltb_lt _ _)) in Hempty by lia.
  assert (Hsome : is_Some ((∅ : gmap string Z) !! sn_TargetID pool)); [|by destruct Hsome].
  rewrite <- Hempty. apply (foldl_invariant (fun m : gmap string Z => is_Some (m !! sn_TargetID pool))).
  - rewrite lookup_insert_eq. eauto.
  - intros m x _ Hm. repeat split_if; try done. rewrite lookup_insert. case_decide; eauto.
Qed.

Lemma busy_count_pool input k :
  busy_count (pool_workers (sc_byPool (scan_workers input)) k) <= busy_count (in_Workers input).
Proof.
  rewrite scan_pool. unfold busy_count. rewrite count_filter. apply count_le.
  intros w _ Hw. by apply andb_prop in Hw as [? _].
Qed.

#[local] Opaque applyOutstandingAssignments.

(** The desktop or WSL is only ever planned to stop in gaming mode, with no
    busy worker, no assigned job at any ready configured pool and nothing left
    to start. *)
Theorem BuildPlan_stops_desktop_only_when_drained `{MapRange} wall input :
  p_StopDesktop (BuildPlan wall input) = true \/ p_ShutdownWSL (BuildPlan wall input) = true ->
  ds_Mode (in_Desired input) = ModeGaming /\ busy_count (in_Workers input) = 0 /\
  p_Start (BuildPlan wall input) = [] /\
  forall pool, pool ∈ in_Pools input -> known_target (in_Targets input) (sn_TargetID pool) = true ->
    sn_Ready pool = true -> sn_TotalAssignedJobs pool <= 0.
Proof.
  intros Hstop. destruct (normalized_fields wall input) as (Hcfg & Hws & Hdes & Hdk & Hpools & _).
  assert (Ht : in_Targets (normalized wall input) = in_Targets input) by (unfold in_Targets; by rewrite Hcfg).
  revert Hstop. unfold BuildPlan. fold (normalized wall input).
  rewrite <- Hdes, <- Hws, <- Hpools, <- Ht. set (i := normalized wall input). set (s := scan_workers i).
  pose proof (outstanding_same i s) as (_ & Hs1 & Hs2 & _).
  pose proof (scan_plan_idle i) as (_ & Hf1 & Hf2 & _). fold s in Hf1, Hf2.
  pose proof (plan_enabled_flags i s) as Hen. unfold flags in Hen.
  pose proof (appendSafeRemovals_same (add_problem (set_phase (sc_plan s) PhaseDegraded) (problem_invalid_override (in_Now i)))
                (sc_byPool s) (in_Targets i) None) as (_ & Ha1 & Ha2 & _).
  destruct (ds_Mode (in_Desired i)) as [| | |other] eqn:Hm; simpl.
  - intros Hstop. exfalso. destruct Hstop as [Hstop|Hstop]; repeat split_if; simpl in *; congruence.
  - destruct (applyOutstandingAssignments i s) as [p o]. simpl in *. intros Hstop. exfalso.
    destruct (_ || _); unfold quiesce in Hstop; simpl in Hstop;
      destruct Hstop as [Hstop|Hstop]; destruct (p_QuiesceReason p); simpl in *; congruence.
  - assert (Ho : (applyOutstandingAssignments i s).2 = negb (bool_decide (outstanding_reservations i (sc_byPool s) = ∅))) by done.
    destruct (applyOutstandingAssignments i s) as [p o]. simpl in *. subst o.
    destruct ((0 <? sc_busy s) || _ || _) eqn:Hb; intros Hstop.
    + exfalso. unfold quiesce in Hstop. simpl in Hstop.
      destruct Hstop as [Hstop|Hstop]; destruct (p_QuiesceReason p); simpl in *; congruence.
    + clear Hstop. apply orb_false_elim in Hb as [[Hbusy Hout]%orb_false_elim Hst].
      apply negb_false_iff, bool_decide_eq_true in Hout, Hst. zb.
      pose proof (scan_busy i) as Hsb. fold s in Hsb. rewrite Hsb in Hbusy.
      pose proof (count_nonneg (fun w => is_busy (w_State w)) (in_Workers i)). unfold busy_count in *.
      split_and!; [done|lia| |].
      * unfold quiesce; simpl; destruct (_ || _); simpl; [destruct (p_QuiesceReason p)|]; done.
      * intros pool Hin Hk Hr. pose proof (outstanding_reservations_empty i _ Hout pool Hin Hk Hr).
        pose proof (busy_count_pool i (sn_TargetID pool)) as Hle. fold s in Hle.
        unfold busy_count in *. lia.
  - intros Hstop. exfalso.
    pose proof (outstanding_same i {| s with sc_plan := add_problem (set_phase (sc_plan s) PhaseDegraded)
       (problem_invalid_mode (in_Now i) (ModeOther other)) |}) as (_ & Hx1 & Hx2 & _).
    simpl in *. destruct Hstop; congruence.
Qed.

(** ** Concrete instances *)

Lemma BuildPlan_fails_closed_witness :
  admits_work (normalized 1 sample_disabled) = false /\
  mget (p_AdvertisedCapacity (BuildPlan 1 sample_disabled)) "org" = 0.
Proof. split; [|apply BuildPlan_fails_closed]; by vm_compute. Defined.

Lemma BuildPlan_stops_desktop_only_when_drained_witness :
  p_StopDesktop (BuildPlan 1 sample_gaming) = true /\ busy_count (in_Workers sample_gaming) = 0.
Proof.
  split; [by vm_compute|].
  apply (BuildPlan_stops_desktop_only_when_drained 1 sample_gaming). left. by vm_compute.
Defined.
