(* ===== verification/PlanCapacity.v ===== *)
(** Capacity and memory accounting of [BuildPlan]: the host-wide bound on
    advertised capacity, the slots and bytes planned starts may use, and the
    host-memory floor. *)

From S2P Require Import Prelude Float64 Model Config PlanGates Plan Samples PlanFacts PlanSafety.

(** ** Counting workers per pool *)

Lemma bump_mget m k d k' : mget (bump m k d) k' = mget m k' + (if decide (k = k') then d else 0).
Proof. unfold bump. rewrite mget_insert. case_decide; subst; lia. Qed.

Lemma bump_sum m k d : map_sum (bump m k d) = map_sum m + d.
Proof. unfold bump. rewrite map_sum_insert. lia. Qed.

#[export] Hint Rewrite bump_mget bump_sum : ci_runner.

Lemma count_worker_fold id ws c :
  let c' := foldl (count_worker id) c ws in
  (forall k, mget (pc_desired c') k = mget (pc_desired c) k + (if decide (id = k) then busy_count ws else 0)) /\
  (forall k, mget (pc_busy c') k = mget (pc_busy c) k + (if decide (id = k) then busy_count ws else 0)) /\
  (forall k, mget (pc_nonbusy c') k = mget (pc_nonbusy c) k + (if decide (id = k) then nonbusy_count ws else 0)) /\
  map_sum (pc_desired c') = map_sum (pc_desired c) + busy_count ws.
Proof.
  revert c. induction ws as [|w ws IH]; intros c; simpl.
  - split_and!; try lia; intros k; case_decide; lia.
  - specialize (IH (count_worker id c w)). simpl in IH. destruct IH as (H1 & H2 & H3 & H4).
    unfold busy_count, nonbusy_count in *. simpl. unfold count_worker in *.
    destruct (is_busy (w_State w)) eqn:Hb, (is_nonbusy_active (w_State w)) eqn:Hn;
      try (by destruct (w_State w)); simpl in *;
      (split_and!; [intros k; rewrite H1|intros k; rewrite H2|intros k; rewrite H3|rewrite H4]);
      rewrite ?bump_mget, ?bump_sum; try case_decide; lia.
Qed.

(** The totals of one pool, or nothing for an ID that is not configured. *)
Definition if_target (targets : list Target) (f : list Worker -> Z) (byPool : gmap string (list Worker)) (k : string) : Z :=
  if known_target targets k then f (pool_workers byPool k) else 0.

Lemma if_target_cons t targets f byPool k :
  t_ID t ∉ (t_ID <$> targets) ->
  if_target (t :: targets) f byPool k =
  (if decide (t_ID t = k) then f (pool_workers byPool (t_ID t)) else 0) + if_target targets f byPool k.
Proof.
  intros Hnot. unfold if_target. simpl. destruct (String.eqb_spec (t_ID t) k) as [<-|Hne]; simpl.
  - rewrite decide_True by done. destruct (known_target targets (t_ID t)) eqn:Hk; [|lia].
    by apply known_target_spec in Hk.
  - rewrite decide_False by done. lia.
Qed.

Lemma count_pools_spec byPool targets c :
  NoDup (t_ID <$> targets) ->
  let c' := count_pools byPool targets c in
  (forall k, mget (pc_desired c') k = mget (pc_desired c) k + if_target targets busy_count byPool k) /\
  (forall k, mget (pc_busy c') k = mget (pc_busy c) k + if_target targets busy_count byPool k) /\
  (forall k, mget (pc_nonbusy c') k = mget (pc_nonbusy c) k + if_target targets nonbusy_count byPool k) /\
  map_sum (pc_desired c') = map_sum (pc_desired c)
    + zsum (fun t => busy_count (pool_workers byPool (t_ID t))) targets.
Proof.
  revert c. unfold count_pools. induction targets as [|t targets IH]; intros c Hnd; simpl.
  - split_and!; try lia; intros k; unfold if_target; simpl; lia.
  - rewrite fmap_cons in Hnd. apply NoDup_cons in Hnd as [Ht Hnd].
    specialize (IH (foldl (count_worker (t_ID t)) c (pool_workers byPool (t_ID t))) Hnd).
    simpl in IH. destruct IH as (H1 & H2 & H3 & H4).
    destruct (count_worker_fold (t_ID t) (pool_workers byPool (t_ID t)) c) as (G1 & G2 & G3 & G4).
    rewrite H4, G4. split_and!; [| | |lia]; intros k; rewrite if_target_cons by done.
    + rewrite H1, G1. lia.
    + rewrite H2, G2. lia.
    + rewrite H3, G3. lia.
Qed.

(** Distinct pools count distinct workers. *)
Lemma zsum_pool_counts (f : Worker -> bool) targets ws :
  NoDup (t_ID <$> targets) ->
  zsum (fun t => count f (List.filter (in_pool (t_ID t)) ws)) targets <= count f ws.
Proof.
  intros Hnd. induction ws as [|w ws IH]; simpl.
  - induction targets; simpl; lia || (apply IHtargets; rewrite fmap_cons in Hnd; by apply NoDup_cons in Hnd as [_ ?]).
  - transitivity (zsum (fun t => (if in_pool (t_ID t) w && f w then 1 else 0)
                                 + count f (List.filter (in_pool (t_ID t)) ws)) targets).
    + apply Z.eq_le_incl, zsum_ext. intros t _. destruct (in_pool (t_ID t) w); simpl; [by destruct (f w)|lia].
    + rewrite zsum_add. assert (zsum (fun t => if in_pool (t_ID t) w && f w then 1 else 0) targets <= if f w then 1 else 0); [|lia].
      clear IH. induction targets as [|t targets IHt]; simpl; [destruct (f w); lia|].
      rewrite fmap_cons in Hnd. apply NoDup_cons in Hnd as [Hnot Hnd].
      specialize (IHt Hnd). destruct (in_pool (t_ID t) w) eqn:Hp; simpl; [|lia].
      rewrite (zsum_zero _ targets); [destruct (f w); lia|].
      intros u Hu. unfold in_pool in *. apply String.eqb_eq in Hp.
      destruct (String.eqb_spec (w_PoolID w) (t_ID u)) as [Heq|]; [|done].
      exfalso. apply Hnot. rewrite <- Hp, Heq. by apply list_elem_of_fmap_2.
Qed.

Lemma sorted_targets_NoDup targets :
  NoDup (t_ID <$> targets) -> NoDup (t_ID <$> sortedTargetsByPriority targets).
Proof. intros. unfold sortedTargetsByPriority. by rewrite sort_by_perm. Qed.

Lemma elem_of_sortedTargets t targets : t ∈ sortedTargetsByPriority targets <-> t ∈ targets.
Proof. apply elem_of_sort_by. Qed.

(** ** The allocation invariant *)

(** Desired workers of a pool that neither a busy nor an existing nonbusy
    worker covers: the starts the plan will make. *)
Definition new_starts (cx : PlanContext) (st : AllocState) (k : string) : Z :=
  mget (p_DesiredWorkers (al_plan st)) k - mget (cx_busyByPool cx) k - mget (al_counted st) k.

Record AllocInv (cx : PlanContext) (targets : list Target) (D R M : Z) (st : AllocState) : Prop := {
  ai_remaining : 0 <= al_remaining st;
  ai_memory_range : is_u64 (al_memory st);
  ai_counted : forall k, 0 <= mget (al_counted st) k <= mget (cx_nonbusyByPool cx) k;
  ai_starts : forall k, 0 <= new_starts cx st k;
  ai_full : forall k, 0 < new_starts cx st k -> mget (al_counted st) k = mget (cx_nonbusyByPool cx) k;
  ai_slots : map_sum (p_DesiredWorkers (al_plan st)) + al_remaining st = D;
  ai_new : zsum (fun t => new_starts cx st (t_ID t)) targets + al_remaining st <= R;
  ai_memory : al_memory st + zsum (fun t => new_starts cx st (t_ID t) * cx_memory cx t) targets = M;
  ai_floor : mb_floorBlocked (cx_gate cx) = true -> forall k, new_starts cx st k = 0;
}.

Section Allocate.
Context (cx : PlanContext) (targets : list Target).
Hypothesis targets_NoDup : NoDup (t_ID <$> targets).
Hypothesis memory_typed : forall t, t ∈ targets -> is_u64 (cx_memory cx t).

Lemma allocate_inv D R M st t n :
  t ∈ targets -> AllocInv cx targets D R M st -> AllocInv cx targets D R M (allocate cx st t n).
Proof.
  intros Hin [Hrem Hmem Hcnt Hst Hfull Hslots Hnew Hmemory Hfloor].
  unfold allocate. split_if; [by constructor|]. zb.
  set (id := t_ID t) in *. set (current := mget (p_DesiredWorkers (al_plan st)) id) in *.
  set (avail := mget (cx_nonbusyByPool cx) id - mget (al_counted st) id).
  set (existing := Z.min (n - current) (Z.min avail (al_remaining st))).
  set (prospective := Z.min (n - current - existing) (al_remaining st - existing)).
  set (affordable := if mb_floorBlocked (cx_gate cx) then 0 else affordableWorkerCount (al_memory st) (cx_memory cx t)).
  set (starts := Z.min prospective affordable).
  pose proof (memory_typed t Hin) as [Hk0 Hk1]. pose proof (Hcnt id) as Hcid.
  assert (Haff : 0 <= affordable /\ affordable * cx_memory cx t <= al_memory st).
  { unfold affordable. destruct Hmem. split_if; [lia|]. split; [by apply affordable_nonneg|by apply affordable_fits]. }
  assert (Hex : 0 <= existing) by (unfold existing, avail; lia).
  assert (Hsp : 0 <= starts <= affordable) by (unfold starts, prospective, existing, avail in *; lia).
  assert (Hfit : starts * cx_memory cx t <= al_memory st) by nia.
  assert (Hcharge : wrap_u64 (al_memory st - wrap_u64 (starts * cx_memory cx t))
                    = al_memory st - starts * cx_memory cx t)
    by (apply wrap_u64_charge; [done|lia|lia|done]).
  match goal with |- AllocInv _ _ _ _ _ ?r => set (st' := r) end.
  assert (Hnew' : forall k, new_starts cx st' k = new_starts cx st k + (if decide (id = k) then starts else 0)).
  { intros k. unfold new_starts, st'. simpl. rewrite !bump_mget. fold id avail existing prospective affordable starts.
    case_decide; lia. }
  assert (Hrem' : al_remaining st' = al_remaining st - existing - starts) by done.
  assert (Hcnt' : forall k, mget (al_counted st') k = mget (al_counted st) k + (if decide (id = k) then existing else 0))
    by (intros k; apply bump_mget).
  assert (Hmem' : al_memory st' = al_memory st - starts * cx_memory cx t) by exact Hcharge.
  assert (Hdes' : map_sum (p_DesiredWorkers (al_plan st')) = map_sum (p_DesiredWorkers (al_plan st)) + existing + starts)
    by (unfold st'; simpl; by rewrite !bump_sum).
  assert (Hother : forall u, u ∈ targets -> t_ID u <> t_ID t -> new_starts cx st' (t_ID u) = new_starts cx st (t_ID u))
    by (intros u _ Hu; rewrite Hnew', decide_False; [lia|intros Heq; by apply Hu]).
  assert (Hthis : new_starts cx st' (t_ID t) = new_starts cx st (t_ID t) + starts)
    by (rewrite Hnew', decide_True by done; done).
  clearbody st'.
  constructor.
  - rewrite Hrem'. unfold starts, prospective. lia.
  - rewrite Hmem'. destruct Hmem. unfold is_u64. nia.
  - intros k. rewrite Hcnt'. specialize (Hcnt k). case_decide; subst; unfold existing, avail; lia.
  - intros k. rewrite Hnew'. specialize (Hst k). case_decide; lia.
  - intros k. rewrite Hnew', Hcnt'. specialize (Hst k). specialize (Hfull k).
    case_decide as Hk; [subst k|rewrite !Z.add_0_r; auto].
    unfold starts, prospective, existing, avail in *. intros. lia.
  - rewrite Hdes', Hrem'. lia.
  - rewrite (zsum_update t_ID (fun t => new_starts cx st (t_ID t)) _ targets t) by done.
    rewrite Hthis, Hrem'. lia.
  - rewrite (zsum_update t_ID (fun t => new_starts cx st (t_ID t) * cx_memory cx t) _ targets t); [|done|done|].
    + rewrite Hthis, Hmem'. lia.
    + intros u Hu Hne. by rewrite Hother.
  - intros Hf k. rewrite Hnew', (Hfloor Hf). case_decide; [|lia].
    assert (affordable = 0) by (unfold affordable; by rewrite Hf). lia.
Qed.

Lemma allocate_all_inv D R M st ts :
  (forall t, t ∈ ts -> t ∈ targets) ->
  AllocInv cx targets D R M st -> AllocInv cx targets D R M (allocate_all cx ts st).
Proof.
  intros Hsub Hst. unfold allocate_all. apply foldl_invariant; [apply foldl_invariant; [done|]|].
  - intros s t Hin Hs. unfold allocate_assigned. split_if; [done|].
    pose proof (allocate_inv D R M s t
      (Z.max (mget (cx_reservations cx) (t_ID t)) (mget (cx_busyByPool cx) (t_ID t))) (Hsub t Hin) Hs) as Ha.
    simpl. split_if; [|done]. destruct Ha. by constructor.
  - intros s t Hin Hs. unfold allocate_warm. split_if; [done|]. by apply allocate_inv; [apply Hsub|].
Qed.
End Allocate.

(** ** Scheduling *)

Definition pool_active (cx : PlanContext) (k : string) : Z :=
  busy_count (pool_workers (cx_byPool cx) k) + nonbusy_count (pool_workers (cx_byPool cx) k).

Definition planned_start (cx : PlanContext) (desired : gmap string Z) (t : Target) : list StartDecision :=
  if pool_active cx (t_ID t) <? mget desired (t_ID t)
  then [mkStartDecision (t_ID t) (mget desired (t_ID t) - pool_active cx (t_ID t))] else [].

Lemma schedule_target_fields cx st t :
  p_DesiredWorkers (ss_plan (schedule_target cx st t)) = p_DesiredWorkers (ss_plan st) /\
  p_Start (ss_plan (schedule_target cx st t))
    = p_Start (ss_plan st) ++ planned_start cx (p_DesiredWorkers (ss_plan st)) t.
Proof.
  unfold schedule_target, planned_start, pool_active. simpl.
  repeat split_if; simpl; zb; unfold quiesce; simpl;
    repeat match goal with |- context [match ?r with Some _ => _ | None => _ end] => destruct r end;
    simpl; rewrite ?app_nil_r; try done; lia.
Qed.

Lemma schedule_all_fields cx targets p :
  p_DesiredWorkers (ss_plan (schedule_all cx targets p)) = p_DesiredWorkers p /\
  p_Start (ss_plan (schedule_all cx targets p))
    = p_Start p ++ flat_map (planned_start cx (p_DesiredWorkers p)) targets.
Proof.
  unfold schedule_all. set (st := mkSchedState p ∅ []).
  change p with (ss_plan st). clearbody st. revert st.
  induction targets as [|t targets IH]; intros st; simpl; [by rewrite app_nil_r|].
  destruct (schedule_target_fields cx st t) as [Hd Hs].
  destruct (IH (schedule_target cx st t)) as [-> ->]. rewrite Hd, Hs. by rewrite app_assoc.
Qed.

Record SchedInv (cx : PlanContext) (desired : gmap string Z) (st : SchedState) : Prop := {
  si_bounds : forall k, 0 <= mget (p_AdvertisedCapacity (ss_plan st)) k <= mget desired k;
  si_debt : cx_capacityDebt cx = true -> forall k, mget (p_AdvertisedCapacity (ss_plan st)) k = 0;
}.

Lemma schedule_target_adv cx st t :
  p_AdvertisedCapacity (ss_plan (schedule_target cx st t)) = p_AdvertisedCapacity (ss_plan st) \/
  (cx_capacityDebt cx = false /\
   p_AdvertisedCapacity (ss_plan (schedule_target cx st t))
     = <[t_ID t := mget (p_DesiredWorkers (ss_plan st)) (t_ID t)]> (p_AdvertisedCapacity (ss_plan st))).
Proof.
  unfold schedule_target, may_advertise. simpl.
  repeat split_if; simpl; unfold quiesce; simpl;
    repeat match goal with |- context [match ?r with Some _ => _ | None => _ end] => destruct r end;
    simpl; zb; auto.
Qed.

Lemma schedule_all_inv cx targets p :
  (forall k, 0 <= mget (p_DesiredWorkers p) k) ->
  (forall k, mget (p_AdvertisedCapacity p) k = 0) ->
  SchedInv cx (p_DesiredWorkers p) (schedule_all cx targets p).
Proof.
  intros Hd Hz. unfold schedule_all.
  eapply (foldl_invariant (fun st => p_DesiredWorkers (ss_plan st) = p_DesiredWorkers p /\
                                     SchedInv cx (p_DesiredWorkers p) st)).
  - split; [done|]. constructor; simpl; intros; rewrite Hz; [|done]. specialize (Hd k). lia.
  - intros st t _ [Hds [Hb Hdebt]].
    split; [by rewrite (proj1 (schedule_target_fields cx st t))|].
    destruct (schedule_target_adv cx st t) as [Heq|[Hnd Heq]].
    + constructor; rewrite Heq; done.
    + rewrite Hds in Heq. constructor; rewrite Heq.
      * intros k. rewrite mget_insert. case_decide; [subst; specialize (Hd (t_ID t)); lia|done].
      * congruence.
Qed.

(** ** The advertisement budget *)

Lemma advertised_budget_eq `{MapRange} cx p :
  advertised_budget cx p = Z.max (cx_hostLimit cx - map_sum (p_AdvertisedCapacity p)) 0.
Proof.
  unfold advertised_budget. f_equal. rewrite map_sum_range.
  generalize (cx_hostLimit cx). induction (range (p_AdvertisedCapacity p)) as [|[k v] l IH]; intros b; simpl; [lia|].
  rewrite IH. lia.
Qed.

Definition adv_ok (limit : Z) (p : Plan) (budget : Z) : Prop :=
  map_sum (p_AdvertisedCapacity p) + budget = limit /\ 0 <= budget /\
  forall k, 0 <= mget (p_AdvertisedCapacity p) k.

Lemma advertise_burst_fields st cand :
  let st' := advertise_burst st cand in
  p_Start (bs_plan st') = p_Start (bs_plan st) /\
  p_DesiredWorkers (bs_plan st') = p_DesiredWorkers (bs_plan st) /\
  (p_AdvertisedCapacity (bs_plan st') = p_AdvertisedCapacity (bs_plan st) /\ bs_budget st' = bs_budget st \/
   0 < bs_budget st /\ bs_budget st' = bs_budget st - 1 /\
   p_AdvertisedCapacity (bs_plan st') = bump (p_AdvertisedCapacity (bs_plan st)) (bc_poolID cand) 1).
Proof.
  unfold advertise_burst.
  destruct ((_ <? _) && (0 <? bs_budget st)) eqn:Hg; destruct (negb _); simpl;
    unfold quiesce; simpl; try destruct (p_QuiesceReason (bs_plan st)); simpl; zb;
    (split; [done|]); (split; [done|]); try (by left); by right.
Qed.

Lemma advertise_bursts_ok `{MapRange} cx s :
  (forall k, 0 <= mget (p_AdvertisedCapacity (ss_plan s)) k) ->
  map_sum (p_AdvertisedCapacity (ss_plan s)) <= cx_hostLimit cx ->
  let b := advertise_bursts cx s in
  adv_ok (cx_hostLimit cx) (bs_plan b) (bs_budget b) /\
  p_Start (bs_plan b) = p_Start (ss_plan s) /\
  p_DesiredWorkers (bs_plan b) = p_DesiredWorkers (ss_plan s).
Proof.
  intros Hpos Hsum b. unfold b, advertise_bursts.
  apply (foldl_invariant (fun b => adv_ok (cx_hostLimit cx) (bs_plan b) (bs_budget b) /\
    p_Start (bs_plan b) = p_Start (ss_plan s) /\ p_DesiredWorkers (bs_plan b) = p_DesiredWorkers (ss_plan s))).
  - simpl. rewrite advertised_budget_eq. unfold adv_ok. split_and!; [lia|lia|done|done|done].
  - intros st cand _ ((Hs & Hb & Hp) & Hst & Hds).
    destruct (advertise_burst_fields st cand) as (-> & -> & [[Ha ->]|(Hgt & -> & Ha)]); unfold adv_ok; rewrite Ha.
    + by split_and!.
    + rewrite bump_sum. split_and!; [lia|lia| |done|done].
      intros k. rewrite bump_mget. specialize (Hp k). case_decide; lia.
Qed.

Definition service_ok (cx : PlanContext) (limit M : Z) (st : ServiceState) : Prop :=
  adv_ok limit (sv_plan st) (sv_budget st) /\ is_u64 (sv_memory st) /\ sv_memory st <= M.

Lemma advertise_service_ok cx advertisable limit M st t :
  is_u64 (cx_memory cx t) -> service_ok cx limit M st -> service_ok cx limit M (advertise_service cx advertisable st t).
Proof.
  intros [Hk0 Hk1] Hst. unfold advertise_service. split_if; [done|].
  destruct Hst as ((Hs & Hb & Hp) & Hm & HM).
  set (cur := mget (p_AdvertisedCapacity (sv_plan st)) (t_ID t)).
  set (limit' := Z.min (Z.min (t_MaxCapacity t - cur) (sv_slots st)) (sv_budget st)).
  set (raw := affordableWorkerCount (sv_memory st) (cx_memory cx t)).
  set (held := Z.min (Z.min limit' (Z.max (mget (cx_previousCapacity cx) (t_ID t) - cur) 0)) raw).
  set (after := wrap_u64 (sv_memory st - wrap_u64 (held * cx_memory cx t))).
  set (pct := r_MemoryCapacityIncreaseMarginPct _).
  set (growth := if mb_floorBlocked (cx_gate cx) then 0
                 else Z.min (limit' - held) (affordableWorkerCountWithMargin after (cx_memory cx t) pct)).
  set (q := if _ : bool then _ else sv_plan st).
  assert (Hq : p_AdvertisedCapacity q = p_AdvertisedCapacity (sv_plan st)) by (unfold q; by split_if).
  assert (Hraw : 0 <= raw /\ raw * cx_memory cx t <= sv_memory st)
    by (destruct Hm; unfold raw; split; [by apply affordable_nonneg|by apply affordable_fits]).
  destruct (held + growth <=? 0) eqn:Hadd; zb.
  { unfold service_ok, adv_ok. simpl. rewrite Hq. exact (conj (conj Hs (conj Hb Hp)) (conj Hm HM)). }
  assert (Hheld : 0 <= held).
  { destruct (Z.le_gt_cases 0 held) as [|Hneg]; [done|]. exfalso.
    assert (held = limit') by lia. unfold growth in Hadd.
    destruct (mb_floorBlocked (cx_gate cx)); [lia|].
    pose proof (Z.le_min_l (limit' - held) (affordableWorkerCountWithMargin after (cx_memory cx t) pct)). lia. }
  assert (Hafter : after = sv_memory st - held * cx_memory cx t)
    by (apply wrap_u64_charge; [done|lia|lia|nia]).
  pose proof (affordable_margin_fits after (cx_memory cx t) pct ltac:(nia) Hk0) as Hmargin.
  pose proof (affordable_margin_nonneg after (cx_memory cx t) pct ltac:(nia) Hk0) as Hmargin0.
  assert (Hgrow : 0 <= growth <= limit' - held /\ growth * cx_memory cx t <= after).
  { unfold growth. split_if; [nia|].
    destruct (Z.min_spec (limit' - held) (affordableWorkerCountWithMargin after (cx_memory cx t) pct)) as [[? ->]|[? ->]];
      split; try lia; nia. }
  assert (Hfit : (held + growth) * cx_memory cx t <= sv_memory st) by lia.
  unfold service_ok, adv_ok. simpl. rewrite Hq, bump_sum.
  rewrite wrap_u64_charge by (done || lia). destruct Hm.
  split_and!; [unfold limit' in *; lia|unfold limit' in *; lia| |unfold is_u64; nia|nia].
  intros k. rewrite bump_mget. specialize (Hp k). case_decide; lia.
Qed.

Lemma advertise_services_fields cx targets b memory :
  p_Start (advertise_services cx targets b memory).1 = p_Start (bs_plan b) /\
  p_DesiredWorkers (advertise_services cx targets b memory).1 = p_DesiredWorkers (bs_plan b).
Proof.
  unfold advertise_services. split_if; [done|]. simpl.
  split; [apply (foldl_proj (fun st => p_Start (sv_plan st)))|apply (foldl_proj (fun st => p_DesiredWorkers (sv_plan st)))];
    intros st t _; unfold advertise_service; by repeat split_if.
Qed.

Lemma advertise_services_ok cx targets b memory limit :
  (forall t, t ∈ targets -> is_u64 (cx_memory cx t)) -> is_u64 memory ->
  adv_ok limit (bs_plan b) (bs_budget b) ->
  let r := advertise_services cx targets b memory in
  map_sum (p_AdvertisedCapacity r.1) <= limit /\ (forall k, 0 <= mget (p_AdvertisedCapacity r.1) k) /\
  is_u64 r.2 /\ r.2 <= memory.
Proof.
  intros Ht Hm Hb r. unfold r, advertise_services. split_if; simpl.
  - destruct Hb as (? & ? & Hpos). split; [lia|]. exact (conj Hpos (conj Hm (Z.le_refl _))).
  - assert (service_ok cx limit memory (foldl (advertise_service cx (bs_advertisable b))
       {| sv_plan := bs_plan b; sv_slots := service_slots cx (bs_plan b); sv_budget := bs_budget b; sv_memory := memory |} targets))
      as ((Hsum & Hb0 & Hpos) & Hu & Hle).
    { apply foldl_invariant; [exact (conj Hb (conj Hm (Z.le_refl _)))|].
      intros st t Hin Hst. apply advertise_service_ok; auto. }
    split; [lia|]. exact (conj Hpos (conj Hu Hle)).
Qed.

(** ** The enabled planner *)

(** The typing facts of an input the accounting relies on. *)
Record Input_typed (input : PlanInput) : Prop := {
  it_ids : NoDup (t_ID <$> in_Targets input);
  it_config : Config_typed (in_Config input);
  it_resources : ResourceSnapshot_wf (in_Resources input);
  it_engine : is_u64 (in_EngineMemoryTotalBytes input);
  it_limits : forall w, w ∈ in_Workers input -> w_MemoryLimitBytes w <= max_u64;
}.

Lemma memoryByPool_range cfg k v : Config_typed cfg -> memoryByPool cfg !! k = Some v -> is_u64 v.
Proof.
  intros Hc. unfold memoryByPool. revert v.
  apply (foldl_invariant (fun m : gmap string Z => forall v, m !! k = Some v -> is_u64 v)).
  - intros v. by rewrite lookup_empty.
  - intros m t Hin IH v. rewrite lookup_insert. case_decide; [|apply IH].
    intros [= <-]. by apply (ct_worker _ Hc).
Qed.

Lemma worker_reservation_range cfg w :
  Config_typed cfg -> w_MemoryLimitBytes w <= max_u64 -> is_u64 (worker_reservation cfg w).
Proof.
  intros Hc Hw. unfold worker_reservation. split_if; zb; [unfold is_u64; lia|].
  destruct (memoryByPool cfg !! w_PoolID w) as [v|] eqn:Hv; simpl.
  - by eapply memoryByPool_range.
  - apply (ct_default _ Hc).
Qed.

(** The saturating sum is the sum, capped at the largest [uint64]. *)
Lemma activeWorkerReservations_spec cfg ws :
  Config_typed cfg -> (forall w, w ∈ ws -> w_MemoryLimitBytes w <= max_u64) ->
  activeWorkerReservations cfg ws
    = Z.min max_u64 (zsum (fun w => if Active w then worker_reservation cfg w else 0) ws).
Proof.
  intros Hc Hw. unfold activeWorkerReservations. induction ws as [|w ws IH] using rev_ind; [done|].
  rewrite foldl_app, IH by set_solver. simpl.
  assert (Happ : forall f : Worker -> Z, zsum f (ws ++ [w]) = zsum f ws + f w).
  { intros f. clear. induction ws; simpl; lia. }
  rewrite Happ. destruct (Active w); simpl; [|f_equal; lia].
  assert (Hr : is_u64 (worker_reservation cfg w)) by (apply worker_reservation_range; set_solver).
  assert (0 <= zsum (fun w => if Active w then worker_reservation cfg w else 0) ws).
  { apply zsum_nonneg. intros u Hu. split_if; [|lia]. apply worker_reservation_range; set_solver. }
  rewrite saturatingAdd_spec; [|unfold is_u64, max_u64; lia|done]. destruct Hr. lia.
Qed.

Lemma availableMemoryHeadroom_range snapshot policy :
  ResourceSnapshot_wf snapshot -> is_u64 (availableMemoryHeadroom snapshot policy).
Proof.
  intros [Ht Ha]. unfold availableMemoryHeadroom.
  pose proof (memory_reserve_range (rs_TotalMemoryBytes snapshot) (r_MinimumAvailableMemoryPct policy)) as [? ?].
  unfold is_u64, max_u64 in *. repeat split_if; zb; lia.
Qed.

(** The sum of what the active workers are charged. *)
Definition reserved_bytes (input : PlanInput) : Z :=
  zsum (fun w => if Active w then worker_reservation (in_Config input) w else 0) (in_Workers input).

(** The configured budget, clamped to the probed engine memory. *)
Definition effective_budget (input : PlanInput) : Z :=
  let budget := r_WorkerMemoryBudget (c_Resources (in_Config input)) in
  if 0 <? in_EngineMemoryTotalBytes input then Z.min budget (in_EngineMemoryTotalBytes input) else budget.

Lemma reserved_bytes_nonneg input : Input_typed input -> 0 <= reserved_bytes input.
Proof.
  intros Hi. apply zsum_nonneg. intros w Hw. split_if; [|lia].
  apply worker_reservation_range; [apply Hi|by apply (it_limits _ Hi)].
Qed.

(** In budget mode the saturating arithmetic is exact. *)
Lemma budget_basis input :
  Input_typed input -> r_WorkerMemoryBudget (c_Resources (in_Config input)) <> 0 ->
  mb_remaining (evaluateMemoryBasis input) = Z.max 0 (effective_budget input - reserved_bytes input).
Proof.
  intros Hty Hb. pose proof (reserved_bytes_nonneg _ Hty) as Hr.
  unfold evaluateMemoryBasis, effective_budget. rewrite (proj2 (Z.eqb_neq _ _) Hb). simpl.
  rewrite activeWorkerReservations_spec by (apply Hty || exact (it_limits _ Hty)). fold (reserved_bytes input).
  pose proof (ct_budget _ (it_config _ Hty)) as [??]. pose proof (it_engine _ Hty) as [??].
  destruct (0 <? _) eqn:?, (_ <? r_WorkerMemoryBudget _) eqn:?; simpl; unfold max_u64 in *; split_if; zb; lia.
Qed.

Lemma memory_basis_range input : Input_typed input -> is_u64 (mb_remaining (evaluateMemoryBasis input)).
Proof.
  intros Hi. destruct (decide (r_WorkerMemoryBudget (c_Resources (in_Config input)) = 0)) as [Hb|Hb].
  - unfold evaluateMemoryBasis. rewrite (proj2 (Z.eqb_eq _ _) Hb). by apply availableMemoryHeadroom_range; destruct Hi.
  - rewrite budget_basis by done. pose proof (reserved_bytes_nonneg _ Hi).
    pose proof (ct_budget _ (it_config _ Hi)) as [??]. unfold is_u64, effective_budget. split_if; lia.
Qed.

Lemma assess_fields input r t :
  p_AdvertisedCapacity (rd_plan (assess_target input r t)) = p_AdvertisedCapacity (rd_plan r) /\
  p_DesiredWorkers (rd_plan (assess_target input r t)) = p_DesiredWorkers (rd_plan r) /\
  p_Start (rd_plan (assess_target input r t)) = p_Start (rd_plan r).
Proof. unfold assess_target. destruct (poolByID _ !! _); [|done]. by repeat split_if. Qed.

(** What the planner's context holds before any allocation. *)
Record ContextOk (input : PlanInput) (cx : PlanContext) (st : AllocState) : Prop := {
  ck_input : cx_input cx = input;
  ck_limit : cx_hostLimit cx = hostWorkerLimit input;
  ck_gate : cx_gate cx = evaluateMemoryBasis input;
  ck_byPool : cx_byPool cx = sc_byPool (scan_workers input);
  ck_busy : cx_busyWorkers cx = busy_count (in_Workers input);
  ck_busyByPool : forall k, mget (cx_busyByPool cx) k = if_target (in_Targets input) busy_count (cx_byPool cx) k;
  ck_nonbusyByPool : forall k, mget (cx_nonbusyByPool cx) k = if_target (in_Targets input) nonbusy_count (cx_byPool cx) k;
  ck_advertised : p_AdvertisedCapacity (al_plan st) = zero_map (in_Targets input);
  ck_start : p_Start (al_plan st) = [];
}.

Lemma known_target_perm ts1 ts2 k : ts1 ≡ₚ ts2 -> known_target ts1 k = known_target ts2 k.
Proof.
  intros Hp. apply eq_true_iff_eq. rewrite !known_target_spec. by rewrite Hp.
Qed.

Lemma plan_context_ok `{MapRange} input cx st :
  Input_typed input -> plan_context input (scan_workers input) = (cx, st) ->
  let targets := sortedTargetsByPriority (in_Targets input) in
  let R := Z.max 0 (hostWorkerLimit input - busy_count (in_Workers input)) in
  ContextOk input cx st /\
  exists D, D <= busy_count (in_Workers input) + R /\
    AllocInv cx targets D R (mb_remaining (evaluateMemoryBasis input)) st.
Proof.
  intros Hi Hcx targets R. pose proof (it_ids _ Hi) as Hnd. apply sorted_targets_NoDup in Hnd.
  fold targets in Hnd. pose proof (memory_basis_range input Hi) as Hu.
  unfold plan_context in Hcx. fold targets in Hcx.
  set (p := if hostWorkerLimit input - _ <? 0 then _ else _ : Plan) in Hcx.
  assert (Hp : p_AdvertisedCapacity p = zero_map (in_Targets input) /\
               p_DesiredWorkers p = zero_map (in_Targets input) /\ p_Start p = []).
  { unfold p. destruct (scan_plan_idle input) as (? & _). pose proof (scan_plan_advertised input).
    pose proof (scan_plan_desired input). by repeat split_if. }
  destruct Hp as (Hpa & Hpd & Hps). clearbody p.
  set (counts := count_pools _ targets _) in Hcx.
  destruct (count_pools_spec (sc_byPool (scan_workers input)) targets (mkPoolCounts (p_DesiredWorkers p) ∅ ∅) Hnd)
    as (Hd & Hb & Hn & Hsum). fold counts in Hd, Hb, Hn, Hsum. simpl in Hd, Hb, Hn, Hsum.
  set (r := foldl (assess_target input) _ targets) in Hcx.
  assert (Hr : p_AdvertisedCapacity (rd_plan r) = p_AdvertisedCapacity p /\
               p_DesiredWorkers (rd_plan r) = pc_desired counts /\ p_Start (rd_plan r) = p_Start p).
  { unfold r. apply (foldl_invariant (fun r => p_AdvertisedCapacity (rd_plan r) = p_AdvertisedCapacity p /\
               p_DesiredWorkers (rd_plan r) = pc_desired counts /\ p_Start (rd_plan r) = p_Start p)); [done|].
    intros r' t _ (? & ? & ?). destruct (assess_fields input r' t) as (-> & -> & ->). done. }
  destruct Hr as (Hra & Hrd & Hrs). clearbody r counts. injection Hcx as <- <-.
  assert (Hkn : forall f k, if_target targets f (sc_byPool (scan_workers input)) k
                          = if_target (in_Targets input) f (sc_byPool (scan_workers input)) k).
  { intros f k. unfold if_target. by rewrite (known_target_perm targets (in_Targets input)) by apply sort_by_perm. }
  split.
  { constructor; simpl; try done.
    - apply scan_busy.
    - intros k. rewrite Hb, mget_empty, Hkn. lia.
    - intros k. rewrite Hn, mget_empty, Hkn. lia.
    - by rewrite Hra.
    - by rewrite Hrs. }
  rewrite scan_busy. assert (HR : (if hostWorkerLimit input - busy_count (in_Workers input) <? 0 then 0
     else hostWorkerLimit input - busy_count (in_Workers input)) = R) by (unfold R; split_if; zb; lia).
  rewrite HR. exists (map_sum (pc_desired counts) + R). split.
  { rewrite Hsum, Hpd, zero_map_sum.
    rewrite (zsum_ext _ (fun t => count (fun w => is_busy (w_State w)) (List.filter (in_pool (t_ID t)) (in_Workers input))))
      by (intros t _; by rewrite scan_pool).
    pose proof (zsum_pool_counts (fun w => is_busy (w_State w)) targets (in_Workers input) Hnd). unfold busy_count. lia. }
  assert (Hns : forall k, new_starts {| cx_input := input; cx_hostLimit := hostWorkerLimit input;
      cx_gate := evaluateMemoryBasis input; cx_byPool := sc_byPool (scan_workers input);
      cx_busyByPool := pc_busy counts; cx_nonbusyByPool := pc_nonbusy counts; cx_ready := rd_ready r;
      cx_reservations := rd_reservations r; cx_overCap := rd_overCap r;
      cx_previousCapacity := previousCapacityByPool input; cx_busyWorkers := busy_count (in_Workers input);
      cx_activeWorkers := sc_active (scan_workers input) |}
      {| al_plan := rd_plan r; al_remaining := R; al_memory := mb_remaining (evaluateMemoryBasis input); al_counted := ∅ |} k = 0).
  { intros k. unfold new_starts. simpl. rewrite Hrd, Hd, Hb, Hpd, zero_map_mget, !mget_empty. lia. }
  constructor; simpl.
  - unfold R. lia.
  - done.
  - intros k. rewrite mget_empty, Hn, mget_empty. unfold if_target. split_if; [|lia].
    pose proof (count_nonneg (fun w => is_nonbusy_active (w_State w)) (pool_workers (sc_byPool (scan_workers input)) k)).
    unfold nonbusy_count. lia.
  - intros k. rewrite Hns. lia.
  - intros k. rewrite Hns. lia.
  - by rewrite Hrd.
  - rewrite zsum_zero; [lia|]. intros; apply Hns.
  - rewrite zsum_zero; [lia|]. intros; rewrite Hns; lia.
  - intros _ k. apply Hns.
Qed.

(** Bytes the planned starts will be started with. *)
Definition start_memory (cfg : Config) (d : StartDecision) : Z :=
  sd_Count d * default 0 (wp_Memory <$> WorkerForTarget cfg (sd_PoolID d)).

Definition plan_start_memory (cfg : Config) (p : Plan) : Z := zsum (start_memory cfg) (p_Start p).
Definition plan_start_count (p : Plan) : Z := zsum sd_Count (p_Start p).

(** A pool is started exactly the workers its allocation could not cover. *)
Lemma planned_start_eq input cx st0 st targets D R M t :
  ContextOk input cx st0 -> AllocInv cx targets D R M st -> t ∈ in_Targets input ->
  planned_start cx (p_DesiredWorkers (al_plan st)) t =
  if 0 <? new_starts cx st (t_ID t) then [mkStartDecision (t_ID t) (new_starts cx st (t_ID t))] else [].
Proof.
  intros Hc Hi Hin. unfold planned_start.
  assert (Hk : known_target (in_Targets input) (t_ID t) = true)
    by (apply known_target_spec, list_elem_of_fmap_2; done).
  assert (Hact : pool_active cx (t_ID t) = mget (cx_busyByPool cx) (t_ID t) + mget (cx_nonbusyByPool cx) (t_ID t)).
  { rewrite (ck_busyByPool _ _ _ Hc), (ck_nonbusyByPool _ _ _ Hc). unfold if_target. by rewrite Hk. }
  pose proof (ai_starts _ _ _ _ _ _ Hi (t_ID t)) as Hs. pose proof (ai_full _ _ _ _ _ _ Hi (t_ID t)) as Hf.
  pose proof (ai_counted _ _ _ _ _ _ Hi (t_ID t)) as Hcnt.
  rewrite Hact. unfold new_starts in *.
  destruct (Z.ltb_spec 0 (mget (p_DesiredWorkers (al_plan st)) (t_ID t) - mget (cx_busyByPool cx) (t_ID t) - mget (al_counted st) (t_ID t))) as [Hpos|Hle].
  - rewrite (proj2 (Z.ltb_lt _ _)) by lia. f_equal. f_equal. specialize (Hf Hpos). lia.
  - by rewrite (proj2 (Z.ltb_ge _ _)) by lia.
Qed.

Record EnabledOk (input : PlanInput) (p : Plan) : Prop := {
  eo_advertised : map_sum (p_AdvertisedCapacity p) <= hostWorkerLimit input;
  eo_advertised_nonneg : forall k, 0 <= mget (p_AdvertisedCapacity p) k;
  eo_starts : plan_start_count p <= Z.max 0 (hostWorkerLimit input - busy_count (in_Workers input));
  eo_memory : plan_start_memory (in_Config input) p + p_MemoryHeadroom p <= mb_remaining (evaluateMemoryBasis input);
  eo_headroom : is_u64 (p_MemoryHeadroom p);
  eo_floor : mb_floorBlocked (evaluateMemoryBasis input) = true -> p_Start p = [];
  eo_positive : Forall (fun d => 0 < sd_Count d /\ sd_PoolID d ∈ (t_ID <$> in_Targets input)) (p_Start p);
}.

(** The starts of a scheduled plan, from the allocation invariant. *)
Lemma scheduled_starts_ok input cx st0 st targets D R M l :
  Input_typed input -> ContextOk input cx st0 -> AllocInv cx targets D R M st ->
  targets = sortedTargetsByPriority (in_Targets input) ->
  l = flat_map (planned_start cx (p_DesiredWorkers (al_plan st))) targets ->
  zsum sd_Count l <= R /\ zsum (start_memory (in_Config input)) l + al_memory st = M /\
  (mb_floorBlocked (cx_gate cx) = true -> l = []) /\
  Forall (fun d => 0 < sd_Count d /\ sd_PoolID d ∈ (t_ID <$> in_Targets input)) l.
Proof.
  intros Hty Hc Hi -> ->. set (targets := sortedTargetsByPriority (in_Targets input)) in *.
  set (sel := fun t => if 0 <? new_starts cx st (t_ID t)
                       then [mkStartDecision (t_ID t) (new_starts cx st (t_ID t))] else []).
  assert (Heq : flat_map (planned_start cx (p_DesiredWorkers (al_plan st))) targets = flat_map sel targets).
  { apply flat_map_ext_elem. intros t Ht. apply (planned_start_eq input cx st0 st targets D R M); try done.
    exact (proj1 (elem_of_sortedTargets t _) Ht). }
  rewrite Heq, !zsum_flat_map. pose proof (ai_starts _ _ _ _ _ _ Hi) as Hs.
  split_and!.
  - rewrite (zsum_ext _ (fun t => new_starts cx st (t_ID t))).
    + pose proof (ai_new _ _ _ _ _ _ Hi). pose proof (ai_remaining _ _ _ _ _ _ Hi). lia.
    + intros t _. unfold sel. specialize (Hs (t_ID t)). split_if; zb; simpl; lia.
  - rewrite (zsum_ext _ (fun t => new_starts cx st (t_ID t) * cx_memory cx t)).
    + pose proof (ai_memory _ _ _ _ _ _ Hi). lia.
    + intros t Ht%(proj1 (elem_of_sortedTargets t _)). unfold sel. specialize (Hs (t_ID t)).
      split_if; zb; simpl; [|assert (new_starts cx st (t_ID t) = 0) as -> by lia; lia]. unfold start_memory. simpl.
      rewrite (WorkerForTarget_configured _ _ t) by (done || apply Hty). simpl.
      unfold cx_memory, target_memory. rewrite (ck_input _ _ _ Hc). lia.
  - intros Hf. pose proof (ai_floor _ _ _ _ _ _ Hi Hf) as Hz.
    enough (forall ts, flat_map sel ts = []) by auto.
    induction ts as [|t ts IH]; simpl; [done|]. rewrite IH. unfold sel. by rewrite Hz.
  - apply Forall_forall. intros d Hd%list_elem_of_In. apply in_flat_map in Hd as (t & Ht & Hd).
    unfold sel in Hd. split_if; [|done]. destruct Hd as [<-|[]]. zb. split; [done|]. simpl.
    apply list_elem_of_fmap_2. apply (elem_of_sortedTargets t). by apply list_elem_of_In.
Qed.

(** Allocation leaves capacity and starts alone. *)
Lemma allocate_all_fields cx targets st :
  p_AdvertisedCapacity (al_plan (allocate_all cx targets st)) = p_AdvertisedCapacity (al_plan st) /\
  p_Start (al_plan (allocate_all cx targets st)) = p_Start (al_plan st).
Proof.
  assert (Ha : forall st t n, p_AdvertisedCapacity (al_plan (allocate cx st t n)) = p_AdvertisedCapacity (al_plan st) /\
                              p_Start (al_plan (allocate cx st t n)) = p_Start (al_plan st))
    by (intros; unfold allocate; by split_if).
  unfold allocate_all.
  split; [rewrite !(foldl_proj (fun st => p_AdvertisedCapacity (al_plan st)))
         |rewrite !(foldl_proj (fun st => p_Start (al_plan st)))]; try done;
    intros s t _; [unfold allocate_assigned|unfold allocate_warm|unfold allocate_assigned|unfold allocate_warm];
    split_if; try done; try apply Ha; simpl; split_if; apply Ha.
Qed.

(** After allocation a pool's desired workers are never negative. *)
Lemma alloc_desired_nonneg input cx st0 targets D R M st k :
  ContextOk input cx st0 -> AllocInv cx targets D R M st -> 0 <= mget (p_DesiredWorkers (al_plan st)) k.
Proof.
  intros Hc Hinv. pose proof (ai_starts _ _ _ _ _ _ Hinv k) as Hs. unfold new_starts in Hs.
  pose proof (ai_counted _ _ _ _ _ _ Hinv k). pose proof (ck_busyByPool _ _ _ Hc k) as Hb.
  unfold if_target in Hb. pose proof (count_nonneg (fun w => is_busy (w_State w)) (pool_workers (cx_byPool cx) k)).
  unfold busy_count in Hb. destruct (known_target _ _); lia.
Qed.

(** The base advertisement, before burst and service slots, fits the host. *)
Lemma scheduled_capacity_ok input cx st0 targets ts D R M st :
  ContextOk input cx st0 -> AllocInv cx targets D R M st ->
  0 <= hostWorkerLimit input -> (forall k, mget (p_AdvertisedCapacity (al_plan st)) k = 0) ->
  D <= busy_count (in_Workers input) + Z.max 0 (hostWorkerLimit input - busy_count (in_Workers input)) ->
  let sched := schedule_all cx ts (al_plan st) in
  (forall k, 0 <= mget (p_AdvertisedCapacity (ss_plan sched)) k) /\
  map_sum (p_AdvertisedCapacity (ss_plan sched)) <= cx_hostLimit cx.
Proof.
  intros Hc Hinv Hlim Hz HD sched.
  pose proof (schedule_all_inv cx ts (al_plan st)
                (fun k => alloc_desired_nonneg _ _ _ _ _ _ _ _ k Hc Hinv) Hz) as [Hsb Hsdebt].
  fold sched in Hsb, Hsdebt. split; [intros k; apply Hsb|].
  rewrite (ck_limit _ _ _ Hc). destruct (cx_capacityDebt cx) eqn:Hdebt.
  - transitivity (map_sum ∅); [|by rewrite map_sum_empty].
    apply map_sum_mono. intros k. by rewrite (Hsdebt eq_refl), mget_empty.
  - transitivity (map_sum (p_DesiredWorkers (al_plan st))); [apply map_sum_mono; intros k; apply Hsb|].
    pose proof (ai_slots _ _ _ _ _ _ Hinv). pose proof (ai_remaining _ _ _ _ _ _ Hinv).
    unfold cx_capacityDebt in Hdebt. zb. rewrite (ck_limit _ _ _ Hc), (ck_busy _ _ _ Hc) in Hdebt. lia.
Qed.

Lemma plan_enabled_ok `{MapRange} input :
  Input_typed input -> 0 <= hostWorkerLimit input ->
  EnabledOk input (plan_enabled input (scan_workers input)).
Proof.
  intros Hty Hlim. unfold plan_enabled. destruct (plan_context _ _) as [cx st0] eqn:Hcx.
  set (targets := sortedTargetsByPriority (in_Targets input)).
  destruct (plan_context_ok input cx st0 Hty Hcx) as (Hc & D & HD & Hinv). fold targets in Hinv.
  assert (Hmem : forall t, t ∈ targets -> is_u64 (cx_memory cx t)).
  { intros t Ht. unfold cx_memory. rewrite (ck_input _ _ _ Hc).
    apply (ct_worker _ (it_config _ Hty)). by apply (elem_of_sortedTargets t). }
  apply (allocate_all_inv cx targets (sorted_targets_NoDup _ (it_ids _ Hty)) Hmem _ _ _ _ targets (fun _ H => H)) in Hinv.
  destruct (allocate_all_fields cx targets st0) as [Hadv Hstart].
  rewrite (ck_advertised _ _ _ Hc) in Hadv. rewrite (ck_start _ _ _ Hc) in Hstart.
  set (st := allocate_all cx targets st0) in *.
  destruct (scheduled_capacity_ok input cx st0 targets targets _ _ _ st Hc Hinv Hlim) as [Hsb Hsum]; [|done|].
  { intros k. rewrite Hadv. apply zero_map_mget. }
  destruct (schedule_all_fields cx targets (al_plan st)) as [_ Hss].
  set (sched := schedule_all cx targets (al_plan st)) in *.
  destruct (advertise_bursts_ok cx sched Hsb Hsum) as (Hb & Hbs & _).
  set (b := advertise_bursts cx sched) in *.
  pose proof (advertise_services_ok cx targets b (al_memory st) (cx_hostLimit cx) Hmem (ai_memory_range _ _ _ _ _ _ Hinv) Hb)
    as (Hfin & Hpos & Hu & Hle).
  destruct (advertise_services_fields cx targets b (al_memory st)) as [Hfs _].
  destruct (scheduled_starts_ok input cx st0 st targets _ _ _ _ Hty Hc Hinv eq_refl eq_refl) as (H1 & H2 & H3 & H4).
  rewrite (ck_gate _ _ _ Hc) in H3. rewrite Hstart in Hss. simpl in Hss.
  rewrite <- Hss in H1, H2, H3, H4. rewrite <- Hbs in H1, H2, H3, H4. rewrite <- Hfs in H1, H2, H3, H4.
  destruct (advertise_services cx targets b (al_memory st)) as [p m]. simpl in *.
  constructor; simpl; try done; [by rewrite <- (ck_limit _ _ _ Hc)|].
  unfold plan_start_memory. simpl. lia.
Qed.

(** ** The drain planner *)

Record DrainInv (input : PlanInput) (R M : Z) (st : DrainState) : Prop := {
  di_remaining : 0 <= dn_remaining st;
  di_memory : is_u64 (dn_memory st);
  di_count : plan_start_count (dn_plan st) + dn_remaining st = R;
  di_bytes : memory_observation_valid input = true ->
             plan_start_memory (in_Config input) (dn_plan st) + dn_memory st = M;
  di_floor : mb_floorBlocked (evaluateMemoryBasis input) = true -> p_Start (dn_plan st) = [];
  di_positive : Forall (fun d => 0 < sd_Count d /\ sd_PoolID d ∈ (t_ID <$> in_Targets input)) (p_Start (dn_plan st));
}.

(** The workers one pool is started while draining. *)
Definition drain_start (input : PlanInput) (byPool : gmap string (list Worker)) (reservations : gmap string Z)
    (st : DrainState) (t : Target) : Z :=
  let pool := default PoolSnapshot_zero (poolByID (in_Pools input) !! t_ID t) in
  let serviceable := Z.min (mget reservations (t_ID t)) (Z.min (sn_DrainServiceCapacity pool) (t_MaxCapacity t)) in
  let start := Z.min (Z.max 0 (serviceable - nonbusy_count (pool_workers byPool (t_ID t)))) (dn_remaining st) in
  let start := if memory_observation_valid input
               then Z.min start (affordableWorkerCount (dn_memory st) (target_memory (in_Config input) t)) else start in
  if mb_floorBlocked (evaluateMemoryBasis input) then 0 else start.

Lemma drain_target_eq input byPool res st t :
  let n := drain_start input byPool res st t in
  let st' := drain_target input byPool res st t in
  p_Start (dn_plan st') = p_Start (dn_plan st) ++ (if 0 <? n then [mkStartDecision (t_ID t) n] else []) /\
  dn_remaining st' = (if 0 <? n then dn_remaining st - n else dn_remaining st) /\
  dn_memory st' = (if (0 <? n) && memory_observation_valid input
                   then wrap_u64 (dn_memory st - wrap_u64 (n * target_memory (in_Config input) t)) else dn_memory st).
Proof.
  cbv zeta. unfold drain_target. fold (drain_start input byPool res st t). simpl.
  split_and!; try done. repeat split_if; simpl; by rewrite ?app_nil_r.
Qed.

Lemma drain_target_inv input byPool res R M st t :
  Input_typed input -> t ∈ in_Targets input ->
  DrainInv input R M st -> DrainInv input R M (drain_target input byPool res st t).
Proof.
  intros Hty Hin [Hrem Hmem Hcount Hbytes Hfloor Hpos].
  destruct (drain_target_eq input byPool res st t) as (Hs & Hr & Hm).
  set (n := drain_start input byPool res st t) in *.
  pose proof (ct_worker _ (it_config _ Hty) t Hin) as [Hk0 Hk1].
  assert (Haff : 0 <= affordableWorkerCount (dn_memory st) (target_memory (in_Config input) t)
                 /\ affordableWorkerCount (dn_memory st) (target_memory (in_Config input) t) * target_memory (in_Config input) t <= dn_memory st)
    by (destruct Hmem; split; [by apply affordable_nonneg|by apply affordable_fits]).
  assert (Hn : 0 <= n <= dn_remaining st /\ (mb_floorBlocked (evaluateMemoryBasis input) = true -> n = 0) /\
               (memory_observation_valid input = true -> n * target_memory (in_Config input) t <= dn_memory st)).
  { unfold n, drain_start. repeat split_if; split_and!; try lia; try done; intros; nia. }
  destruct Hn as ([Hn0 Hn1] & Hnf & Hnb). clearbody n.
  set (st' := drain_target input byPool res st t) in *. clearbody st'.
  destruct (Z.ltb_spec 0 n) as [Hlt|Hle]; simpl in Hs, Hr, Hm.
  2: { rewrite app_nil_r in Hs. constructor; unfold plan_start_count, plan_start_memory in *; rewrite ?Hs, ?Hr, ?Hm; done. }
  constructor; unfold plan_start_count, plan_start_memory in *; rewrite ?Hs, ?Hr, ?Hm, ?zsum_app; simpl.
  - lia.
  - destruct (memory_observation_valid input); [apply wrap_u64_range|done].
  - lia.
  - intros Hv. rewrite Hv. rewrite wrap_u64_charge by (try done; lia || auto). specialize (Hbytes Hv).
    unfold start_memory at 2. simpl. rewrite (WorkerForTarget_configured _ _ t) by (done || apply Hty).
    simpl. unfold target_memory in *. lia.
  - intros Hf. specialize (Hnf Hf). lia.
  - apply Forall_app. split; [done|]. apply Forall_singleton. split; [done|]. simpl.
    by apply list_elem_of_fmap_2.
Qed.

Lemma appendSafeRemovals_start `{MapRange} p byPool targets desired :
  p_Start (appendSafeRemovals p byPool targets desired) = p_Start p.
Proof.
  unfold appendSafeRemovals. apply (foldl_proj p_Start). intros q [k l] _. by split_if.
Qed.

Lemma outstanding_inv `{MapRange} input s :
  Input_typed input -> p_Start (sc_plan s) = [] ->
  exists st, dn_plan st = (applyOutstandingAssignments input s).1 /\
    DrainInv input (Z.max (hostWorkerLimit input - sc_active s) 0) (mb_remaining (evaluateMemoryBasis input)) st.
Proof.
  intros Hty Hs. unfold applyOutstandingAssignments. simpl. eexists. split; [done|].
  apply foldl_invariant.
  - constructor; unfold plan_start_count, plan_start_memory; simpl;
      rewrite ?appendSafeRemovals_start, ?Hs; simpl; try lia; try done.
    by apply memory_basis_range.
  - intros st t Hin Hst. apply drain_target_inv; try done. by apply (elem_of_sortedTargets t).
Qed.

(** ** Every plan *)

Lemma normalized_typed wall input : Input_typed input -> Input_typed (normalized wall input).
Proof. unfold normalized. intros [????]. destruct (IsZero _); by constructor. Qed.

Lemma busy_le_active ws : busy_count ws <= count Active ws.
Proof.
  apply count_le. intros w _. rewrite Active_split. by intros ->.
Qed.

(** What holds of the starts of a plan in any mode. *)
Record StartsOk (input : PlanInput) (p : Plan) : Prop := {
  so_count : plan_start_count p <= Z.max 0 (hostWorkerLimit input - busy_count (in_Workers input));
  so_drain : admits_work input = false ->
             plan_start_count p <= Z.max 0 (hostWorkerLimit input - count Active (in_Workers input));
  so_memory : memory_observation_valid input = true ->
              plan_start_memory (in_Config input) p <= mb_remaining (evaluateMemoryBasis input);
  so_floor : mb_floorBlocked (evaluateMemoryBasis input) = true -> p_Start p = [];
  so_positive : Forall (fun d => 0 < sd_Count d /\ sd_PoolID d ∈ (t_ID <$> in_Targets input)) (p_Start p);
}.

Lemma no_starts_ok input p : Input_typed input -> p_Start p = [] -> StartsOk input p.
Proof.
  intros Hty Hs. pose proof (memory_basis_range input Hty) as [? _].
  constructor; unfold plan_start_count, plan_start_memory; rewrite Hs; simpl; try done; lia.
Qed.

Lemma BuildPlan_starts_ok `{MapRange} wall input :
  Input_typed input -> StartsOk (normalized wall input) (BuildPlan wall input).
Proof.
  intros Hty%(normalized_typed wall). pose proof (BuildPlan_cases wall input) as Hcases.
  cbv zeta in Hcases. set (i := normalized wall input) in *.
  destruct Hcases as [[-> Hadm]|(Hadm & s & p & _ & Ha & _ & Hst & _ & _ & Hp & _ & _ & Hs & _)].
  - assert (0 <= hostWorkerLimit i) by (unfold admits_work in Hadm; zb; done).
    destruct (plan_enabled_ok i Hty) as [_ _ H1 H2 H3 H4 H5]; [done|]. destruct H3.
    constructor; try done; [congruence|]. intros _. lia.
  - destruct Hp as [-> | [-> | ->]].
    + destruct (outstanding_inv i s Hty Hst) as (st & Heq & [Hrem [Hm0 _] Hcount Hbytes Hfloor Hpos]).
      rewrite Ha, scan_active in Hcount. pose proof (busy_le_active (in_Workers i)).
      rewrite Heq in Hcount, Hbytes, Hfloor, Hpos.
      constructor; unfold plan_start_count, plan_start_memory in *; rewrite ?Hs; try done; try lia.
      intros Hv. specialize (Hbytes Hv). lia.
    + apply no_starts_ok; [done|]. by rewrite Hs.
    + apply no_starts_ok; [done|]. by rewrite Hs, appendSafeRemovals_start.
Qed.

(** The samples' types: distinct target IDs and machine-width quantities. *)
Definition targets_distinct (ts : list Target) : bool := bool_decide (NoDup (t_ID <$> ts)).
Definition u64b (z : Z) : bool := (0 <=? z) && (z <=? max_u64).

Definition input_typedb (input : PlanInput) : bool :=
  let cfg := in_Config input in
  targets_distinct (in_Targets input)
  && u64b (r_WorkerMemoryBudget (c_Resources cfg))
  && forallb (fun t => u64b (target_memory cfg t)) (c_Targets cfg)
  && u64b (wp_Memory (r_Worker (c_Resources cfg)))
  && u64b (rs_TotalMemoryBytes (in_Resources input))
  && u64b (rs_AvailableMemoryBytes (in_Resources input))
  && u64b (in_EngineMemoryTotalBytes input)
  && forallb (fun w => w_MemoryLimitBytes w <=? max_u64) (in_Workers input).

Lemma u64b_spec z : u64b z = true -> is_u64 z.
Proof. unfold u64b, is_u64. intros. zb. done. Qed.

Lemma input_typedb_spec input : input_typedb input = true -> Input_typed input.
Proof.
  unfold input_typedb, targets_distinct. intros Ht. zb. rewrite bool_decide_eq_true in *.
  rewrite forallb_forall in *. constructor; [done| | |by apply u64b_spec|].
  - constructor; [by apply u64b_spec| |by apply u64b_spec].
    intros t Hin%list_elem_of_In. apply u64b_spec. auto.
  - split; by apply u64b_spec.
  - intros w Hin%list_elem_of_In. apply Z.leb_le. auto.
Qed.

(** C14: The host-wide capacity bound.  Over all pools together a plan advertises
    at most the host worker limit (nothing when the limit is negative), and
    never a negative capacity. *)
Theorem BuildPlan_capacity_within_host_limit `{MapRange} wall input :
  Input_typed input ->
  map_sum (p_AdvertisedCapacity (BuildPlan wall input)) <= Z.max 0 (hostWorkerLimit input) /\
  forall k, 0 <= mget (p_AdvertisedCapacity (BuildPlan wall input)) k.
Proof.
  intros Hty%(normalized_typed wall).
  destruct (normalized_fields wall input) as (_ & _ & _ & _ & _ & <- & _).
  pose proof (BuildPlan_cases wall input) as Hcases. cbv zeta in Hcases. set (i := normalized wall input) in *.
  destruct Hcases as [[-> Hadm]|(_ & s & p & _ & _ & (Hsame & _) & _ & _ & _ & Hp & -> & _)].
  - assert (Hl : 0 <= hostWorkerLimit i) by (unfold admits_work in Hadm; zb; done).
    destruct (plan_enabled_ok i Hty Hl) as [? ? _ _ _ _ _]. split; [lia|done].
  - assert (Hz : p_AdvertisedCapacity p = zero_map (in_Targets i)).
    { rewrite <- scan_plan_advertised, <- Hsame.
      destruct Hp as [-> | [-> | ->]]; [apply outstanding_same|done|apply appendSafeRemovals_same]. }
    rewrite Hz, zero_map_sum. split; [lia|]. intros k. by rewrite zero_map_mget.
Qed.

(** C36: Planned starts are paid for.  When the memory observation is valid, so that
    the worker memory budget is active or the host reports a positive total that the
    available memory does not exceed, the bytes of all planned starts fit in what the
    memory basis has left; no charge wraps around. *)
Theorem BuildPlan_starts_funded `{MapRange} wall input :
  Input_typed input -> memory_observation_valid input = true ->
  0 <= plan_start_memory (in_Config input) (BuildPlan wall input) <= mb_remaining (evaluateMemoryBasis input).
Proof.
  intros Hty Hv. destruct (normalized_fields wall input) as (Hc & _ & _ & _ & _ & _ & He).
  destruct (BuildPlan_starts_ok wall input Hty) as [_ _ Hm _ Hpos]. rewrite Hc, He in Hm. split.
  - apply zsum_nonneg. intros d Hd. rewrite Forall_forall in Hpos. destruct (Hpos d Hd) as [? Hin].
    unfold start_memory. unfold in_Targets in Hin. rewrite Hc in Hin. apply list_elem_of_fmap in Hin as (t & -> & Ht).
    rewrite (WorkerForTarget_configured _ _ t) by (done || apply Hty). simpl.
    pose proof (ct_worker _ (it_config _ Hty) t Ht) as [? _]. unfold target_memory in *. nia.
  - apply Hm. unfold memory_observation_valid in *. rewrite He. unfold normalized. by destruct (IsZero _).
Qed.

(** The static worker-memory budget is never overcommitted by a plan: the
    reservations of the active workers plus the planned starts stay within
    the budget clamped to the engine, unless the running workers alone exceed
    it, and then nothing that costs memory is started. *)
Theorem BuildPlan_budget_not_overcommitted `{MapRange} wall input :
  Input_typed input -> r_WorkerMemoryBudget (c_Resources (in_Config input)) <> 0 ->
  reserved_bytes input + plan_start_memory (in_Config input) (BuildPlan wall input)
    <= Z.max (reserved_bytes input) (effective_budget input).
Proof.
  intros Hty Hb. destruct (normalized_fields wall input) as (Hc & _ & _ & _ & _ & _ & He).
  destruct (BuildPlan_starts_ok wall input Hty) as [_ _ Hm _ _]. rewrite Hc, He in Hm.
  rewrite budget_basis in Hm by done. specialize (Hm ltac:(
    unfold memory_observation_valid; rewrite He; unfold evaluateMemoryBasis; by rewrite (proj2 (Z.eqb_neq _ _) Hb))). lia.
Qed.

(** At the host memory floor nothing is started, in any mode. *)
Theorem BuildPlan_floor_blocks_starts `{MapRange} wall input :
  Input_typed input -> mb_floorBlocked (evaluateMemoryBasis input) = true ->
  p_Start (BuildPlan wall input) = [].
Proof.
  intros Hty Hf. destruct (BuildPlan_starts_ok wall input Hty) as [_ _ _ Hfl _].
  destruct (normalized_fields wall input) as (_ & _ & _ & _ & _ & _ & He). rewrite He in Hfl. auto.
Qed.

(** The slots planned starts may take.  In every mode the starts fit in what
    the host limit leaves over the busy workers; on every path that admits no
    new work they fit in what it leaves over all active workers. *)
Theorem BuildPlan_starts_within_slots `{MapRange} wall input :
  Input_typed input ->
  plan_start_count (BuildPlan wall input) <= Z.max 0 (hostWorkerLimit input - busy_count (in_Workers input)) /\
  (admits_work (normalized wall input) = false ->
   plan_start_count (BuildPlan wall input) <= Z.max 0 (hostWorkerLimit input - count Active (in_Workers input))).
Proof.
  intros Hty. destruct (BuildPlan_starts_ok wall input Hty) as [H1 H2 _ _ _].
  destruct (normalized_fields wall input) as (_ & Hw & _ & _ & _ & Hh & _). rewrite Hw, Hh in *. auto.
Qed.

(** ** Concrete instances *)

Lemma sample_enabled_typed : Input_typed sample_enabled.
Proof. apply input_typedb_spec. by vm_compute. Qed.

Lemma sample_budget_typed : Input_typed sample_budget.
Proof. apply input_typedb_spec. by vm_compute. Qed.

Lemma sample_floor_typed : Input_typed sample_floor.
Proof. apply input_typedb_spec. by vm_compute. Qed.

Lemma BuildPlan_capacity_within_host_limit_witness :
  mget (p_AdvertisedCapacity (BuildPlan 1 sample_enabled)) "org" = 2 /\
  map_sum (p_AdvertisedCapacity (BuildPlan 1 sample_enabled)) <= Z.max 0 (hostWorkerLimit sample_enabled).
Proof.
  split; [by vm_compute|].
  exact (proj1 (BuildPlan_capacity_within_host_limit 1 sample_enabled sample_enabled_typed)).
Defined.

Lemma BuildPlan_starts_funded_witness :
  p_Start (BuildPlan 1 sample_enabled) = [mkStartDecision "org" 1; mkStartDecision "personal" 1] /\
  plan_start_memory (in_Config sample_enabled) (BuildPlan 1 sample_enabled)
    <= mb_remaining (evaluateMemoryBasis sample_enabled).
Proof.
  split; [by vm_compute|].
  exact (proj2 (BuildPlan_starts_funded 1 sample_enabled sample_enabled_typed ltac:(by vm_compute))).
Defined.

Lemma BuildPlan_budget_not_overcommitted_witness :
  p_Start (BuildPlan 1 sample_budget) = [mkStartDecision "org" 1] /\
  reserved_bytes sample_budget + plan_start_memory (in_Config sample_budget) (BuildPlan 1 sample_budget)
    <= Z.max (reserved_bytes sample_budget) (effective_budget sample_budget).
Proof.
  split; [by vm_compute|].
  exact (BuildPlan_budget_not_overcommitted 1 sample_budget sample_budget_typed ltac:(done)).
Defined.

Lemma BuildPlan_floor_blocks_starts_witness :
  sn_TotalAssignedJobs <$> in_Pools sample_floor = [2; 1] /\ p_Start (BuildPlan 1 sample_floor) = [].
Proof.
  split; [done|].
  exact (BuildPlan_floor_blocks_starts 1 sample_floor sample_floor_typed ltac:(by vm_compute)).
Defined.

Lemma BuildPlan_starts_within_slots_witness :
  plan_start_count (BuildPlan 1 sample_enabled) = 2 /\
  plan_start_count (BuildPlan 1 sample_enabled)
    <= Z.max 0 (hostWorkerLimit sample_enabled - busy_count (in_Workers sample_enabled)).
Proof.
  split; [by vm_compute|].
  exact (proj1 (BuildPlan_starts_within_slots 1 sample_enabled sample_enabled_typed)).
Defined.

(** Where the plan itself does not keep the host limit: admitted starts are
    bounded by the busy workers, not by the active ones.  With one slot, one
    idle worker of a pool that has no work and a job assigned to another pool,
    the plan starts a second worker while the first is still active and only
    planned for removal. *)
Theorem BuildPlan_start_may_exceed_host_limit :
  hostWorkerLimit sample_excess = 1 /\ count Active (in_Workers sample_excess) = 1 /\
  p_Start (BuildPlan 1 sample_excess) = [mkStartDecision "b" 1] /\
  p_Remove (BuildPlan 1 sample_excess) = in_Workers sample_excess.
Proof. split_and!; by vm_compute. Qed.
