(* ===== verification/GateHistory.v ===== *)
(** The resource and power gates over time.

    One call of a gate sees one observation and the state the previous call
    left.  Here the calls are a transition system whose runs are histories of
    observations, newest first, and the theorems say what a history must look
    like for a gate to change its mind: an uninterrupted streak of
    observations that reaches back over the whole configured window. *)

From S2P Require Import Prelude Float64 Model Config PlanGates Samples.

(** ** Streaks *)

(** [streak P since h]: the history starts with observations that all satisfy
    [P], the oldest of which was taken at [since]. *)
Definition streak {A} (P : A -> bool) (since : time) (h : list (A * time)) : Prop :=
  exists recent s older, h = recent ++ (s, since) :: older /\ Forall (fun o => P o.1 = true) recent /\ P s = true.

Lemma streak_here {A} (P : A -> bool) s t h : P s = true -> streak P t ((s, t) :: h).
Proof. intros. by exists [], s, h. Qed.

Lemma streak_extend {A} (P : A -> bool) s now t h :
  P s = true -> streak P t h -> streak P t ((s, now) :: h).
Proof.
  intros Hs (recent & s0 & older & -> & Hr & H0). exists ((s, now) :: recent), s0, older.
  split_and!; [done| |done]. by constructor.
Qed.

(** The window bookkeeping of both gates: the start kept by [window_start] is
    the start of a streak that the new observation prolongs. *)
Lemma window_start_streak {A} (P : A -> bool) s now since h :
  P s = true -> (forall t, since = Some t -> streak P t h) ->
  streak P (window_start since now) ((s, now) :: h).
Proof.
  intros Hs Hh. unfold window_start. destruct since as [t|]; [|by apply streak_here].
  destruct (Before now t); [by apply streak_here|]. apply streak_extend; auto.
Qed.

Lemma window_start_le since now : window_start since now <= now.
Proof. unfold window_start, Before. destruct since; [|done]. split_if; zb; lia. Qed.

(** ** The resource gate *)

Section ResourceGate.
Context (policy : Resources).

Definition valid_snapshot (s : ResourceSnapshot) : bool := negb (snapshot_invalid s).
Definition high_cpu (s : ResourceSnapshot) : bool :=
  valid_snapshot s && f64_le (r_CPUBlockPercent policy) (rs_CPUUtilizationPercent s).
Definition low_cpu (s : ResourceSnapshot) : bool :=
  valid_snapshot s && f64_le (rs_CPUUtilizationPercent s) (r_CPUResumePercent policy).

(** Gate states reachable from the initial one, with the history that led
    there. *)
Inductive gate_reach : list (ResourceSnapshot * time) -> ResourceGateState -> Prop :=
  | gate_init : gate_reach [] ResourceGateState_zero
  | gate_step h g s now :
      gate_reach h g -> gate_reach ((s, now) :: h) (evaluateResourceGate g s policy now).1.1.

(** What the stored timestamps mean. *)
Record GateInv (h : list (ResourceSnapshot * time)) (g : ResourceGateState) : Prop := {
  gi_reason : rg_Blocked g = true -> rg_Reason g <> None;
  gi_high : rg_Blocked g = false -> forall t, rg_HighCPUSince g = Some t -> streak high_cpu t h;
  gi_low : forall t, rg_HealthySince g = Some t -> rg_Blocked g = true /\ streak low_cpu t h;
}.

Lemma gate_invariant h g : gate_reach h g -> GateInv h g.
Proof.
  induction 1 as [|h g s now Hr [Hreason Hhigh Hlow]]; [by constructor|].
  unfold evaluateResourceGate.
  destruct (snapshot_invalid s) eqn:Hv; [by constructor|].
  destruct (rg_Blocked g) eqn:Hb; simpl.
  - destruct (rg_Reason g) eqn:Hre; [|by specialize (Hreason eq_refl)].
    destruct (f64_le _ _) eqn:Hc; simpl; [|by constructor].
    assert (low_cpu s = true) by (unfold low_cpu, valid_snapshot; by rewrite Hv, Hc).
    destruct (_ <=? _); [by constructor|]. constructor; [done|done|].
    intros t [= <-]. split; [done|]. apply window_start_streak; [done|]. intros t Ht. by apply (Hlow t Ht).
  - destruct (f64_le _ _) eqn:Hc; simpl; [|by constructor].
    assert (high_cpu s = true) by (unfold high_cpu, valid_snapshot; by rewrite Hv, Hc).
    destruct (_ <=? _); constructor; simpl; try done.
    intros _ t [= <-]. apply window_start_streak; auto.
Qed.

End ResourceGate.

(** The CPU gate changes its mind only over full windows.  From any
    reachable state, a valid observation closes an open gate only if the CPU
    has been at or above the block threshold in every observation back to one
    at least an observation window old; and a closed gate opens only after
    every observation back to one at least a hysteresis window old was valid
    and at or below the resume threshold. *)
Theorem resource_gate_needs_full_windows policy h g s now :
  gate_reach policy h g ->
  let g' := (evaluateResourceGate g s policy now).1.1 in
  (rg_Blocked g = false -> rg_Blocked g' = true -> valid_snapshot s = true ->
   exists since, streak (high_cpu policy) since ((s, now) :: h) /\
                 r_CPUObservationWindow policy <= Sub now since) /\
  (rg_Blocked g = true -> rg_Blocked g' = false ->
   exists since, streak (low_cpu policy) since ((s, now) :: h) /\
                 r_CPUHysteresisWindow policy <= Sub now since).
Proof.
  intros [Hreason Hhigh Hlow]%gate_invariant. cbv zeta. unfold evaluateResourceGate, valid_snapshot.
  destruct (snapshot_invalid s) eqn:Hv; [done|].
  destruct (rg_Blocked g) eqn:Hb; simpl; (split; [intros Hg|intros Hg]); try done.
  - destruct (rg_Reason g); [|by specialize (Hreason eq_refl)].
    destruct (f64_le _ _) eqn:Hc; [|done]. destruct (_ <=? _) eqn:Hw; [|done]. intros _.
    eexists. split; [|by apply Z.leb_le].
    apply window_start_streak; [by unfold low_cpu, valid_snapshot; rewrite Hv, Hc|]. intros t Ht. by apply Hlow.
  - destruct (f64_le _ _) eqn:Hc; [|done]. destruct (_ <=? _) eqn:Hw; [|done]. intros _ _.
    eexists. split; [|by apply Z.leb_le].
    apply window_start_streak; [by unfold high_cpu, valid_snapshot; rewrite Hv, Hc|]. by apply Hhigh.
Qed.

(** ** The resource gate reopens *)

(** Observations in the order they are taken. *)
Definition run_gate (policy : Resources) (g : ResourceGateState) (obs : list (ResourceSnapshot * time)) : ResourceGateState :=
  foldl (fun g o => (evaluateResourceGate g o.1 policy o.2).1.1) g obs.

(** A low observation at [now], from a gate that is open or has been healthy
    since [t0] at the latest, leaves it so, and open once the window is over. *)
Definition healthy_by (t0 : time) (g : ResourceGateState) : Prop :=
  rg_Blocked g = false \/ exists t, rg_HealthySince g = Some t /\ t <= t0 /\ rg_Reason g <> None.

Section Reopening.
Context (policy : Resources).
Hypothesis thresholds : f64_lt (r_CPUResumePercent policy) (r_CPUBlockPercent policy) = true.

Lemma low_not_high s : low_cpu policy s = true -> f64_le (r_CPUBlockPercent policy) (rs_CPUUtilizationPercent s) = false.
Proof.
  unfold low_cpu. intros Hl. zb. destruct (f64_le (r_CPUBlockPercent policy) _) eqn:Hh; [|done].
  exfalso. eauto using f64_lt_le_incompatible.
Qed.

Lemma low_first s t0 g : low_cpu policy s = true -> healthy_by t0 (evaluateResourceGate g s policy t0).1.1.
Proof.
  intros Hl. pose proof (low_not_high s Hl) as Hh. unfold low_cpu, valid_snapshot in Hl. zb.
  pose proof (window_start_le (rg_HealthySince g) t0).
  unfold evaluateResourceGate, healthy_by. rewrite H, H0, Hh.
  destruct (rg_Blocked g), (rg_Reason g); simpl; auto. split_if; simpl; eauto 6.
Qed.

Lemma low_next s t0 now g :
  low_cpu policy s = true -> t0 <= now -> healthy_by t0 g ->
  healthy_by t0 (evaluateResourceGate g s policy now).1.1 /\
  (r_CPUHysteresisWindow policy <= Sub now t0 -> rg_Blocked (evaluateResourceGate g s policy now).1.1 = false).
Proof.
  intros Hl Hnow Hg. pose proof (low_not_high s Hl) as Hh. unfold low_cpu, valid_snapshot in Hl. zb.
  unfold evaluateResourceGate, healthy_by in *. rewrite H, H0, Hh.
  destruct (rg_Blocked g) eqn:Hb; simpl; [|by auto].
  destruct Hg as [|(t & Ht & Hle & Hre)]; [done|]. destruct (rg_Reason g); [|done]. rewrite Ht. simpl.
  unfold Before. rewrite (proj2 (Z.ltb_ge now t)) by lia.
  assert (Sub now t0 <= Sub now t) by (unfold Sub; lia).
  destruct (_ <=? _) eqn:Hw; simpl; [by auto|]. split; [eauto 6|]. zb. lia.
Qed.

Lemma run_gate_healthy t0 obs g :
  Forall (fun o => low_cpu policy o.1 = true /\ t0 <= o.2) obs -> healthy_by t0 g -> healthy_by t0 (run_gate policy g obs).
Proof.
  intros Hobs Hg. unfold run_gate. apply foldl_invariant; [done|].
  intros b o Ho Hb. rewrite Forall_forall in Hobs. destruct (Hobs o Ho). by apply low_next.
Qed.
End Reopening.

(** The resource gate reopens.  From any state, reachable or loaded from a
    checkpoint, a sequence of valid observations at or below the resume
    threshold, none older than the first, opens the gate as soon as one of
    them is a hysteresis window after the first. *)
Theorem resource_gate_reopens policy g s0 t0 obs s now :
  f64_lt (r_CPUResumePercent policy) (r_CPUBlockPercent policy) = true ->
  low_cpu policy s0 = true -> low_cpu policy s = true ->
  Forall (fun o => low_cpu policy o.1 = true /\ t0 <= o.2) obs ->
  t0 <= now -> r_CPUHysteresisWindow policy <= Sub now t0 ->
  rg_Blocked (run_gate policy g ((s0, t0) :: obs ++ [(s, now)])) = false.
Proof.
  intros Hth Hs0 Hs Hobs Hnow Hw. unfold run_gate. simpl. rewrite foldl_app. simpl.
  apply (low_next policy Hth s t0); [done|done| |done].
  apply (run_gate_healthy policy Hth); [done|]. by apply low_first.
Qed.

(** ** The power gate *)

Section PowerGate.
Context (policy : Power).

Inductive power_reach : list (PowerSnapshot * time) -> PowerGateState -> Prop :=
  | power_init : power_reach [] PowerGateState_zero
  | power_step h g s now :
      power_reach h g -> power_reach ((s, now) :: h) (evaluatePowerGate g s policy now).1.

Lemma power_invariant h g t : power_reach h g -> pg_ACSince g = Some t -> streak ps_ACConnected t h.
Proof.
  intros Hr. revert t. induction Hr as [|h g s now Hr IH]; intros t; [done|].
  unfold evaluatePowerGate. case_bool_decide; [done|].
  destruct (ps_ACConnected s) eqn:Hac; [|done]. simpl.
  destruct (pg_ACSince g) as [u|] eqn:Hu; [|intros [= <-]; by apply streak_here].
  split_if; simpl; [intros [= <-]; by apply streak_here|]. rewrite Hu. intros [= <-]. auto using streak_extend.
Qed.
End PowerGate.

(** Under the AC-only policy power is allowed only when the host has been on
    AC power in every observation back to one at least a stable window old; a
    single observation on battery starts the window anew. *)
Theorem power_gate_needs_stable_ac policy h g s now :
  power_reach policy h g -> pw_Policy policy <> PowerAlways ->
  (evaluatePowerGate g s policy now).2 = true ->
  exists since, streak ps_ACConnected since ((s, now) :: h) /\ pw_StableACWindow policy <= Sub now since.
Proof.
  intros Hr Hp. unfold evaluatePowerGate. rewrite bool_decide_eq_false_2 by done.
  destruct (ps_ACConnected s) eqn:Hac; [|done]. simpl.
  destruct (pg_ACSince g) as [t|] eqn:Ht; [|done]. split_if; [done|]. simpl. intros Hw%Z.leb_le.
  exists t. split; [|done]. apply streak_extend; [done|]. by apply (power_invariant policy _ g).
Qed.

(** ** Concrete runs *)

Definition busy_snapshot : ResourceSnapshot := mkResourceSnapshot (64 * GiB) (60 * GiB) (f64_of_Z 95).
Definition quiet_snapshot : ResourceSnapshot := mkResourceSnapshot (64 * GiB) (60 * GiB) (f64_of_Z 10).
Definition blocked_gate : ResourceGateState := mkResourceGateState true (Some ResourceGateReasonCPU) None None.

Lemma resource_gate_needs_full_windows_witness :
  exists since, streak (high_cpu (sample_resources 3 0)) since [(busy_snapshot, 40 * Second); (busy_snapshot, 5 * Second)] /\
                30 * Second <= Sub (40 * Second) since.
Proof.
  refine (proj1 (resource_gate_needs_full_windows (sample_resources 3 0) [(busy_snapshot, 5 * Second)]
                   (evaluateResourceGate ResourceGateState_zero busy_snapshot (sample_resources 3 0) (5 * Second)).1.1
                   busy_snapshot (40 * Second) _) _ _ _).
  - apply gate_step, gate_init.
  - by vm_compute.
  - by vm_compute.
  - by vm_compute.
Defined.

Lemma resource_gate_reopens_witness :
  rg_Blocked (run_gate (sample_resources 3 0) blocked_gate
                ((quiet_snapshot, 0) :: [(quiet_snapshot, 30 * Second)] ++ [(quiet_snapshot, 60 * Second)])) = false.
Proof.
  refine (resource_gate_reopens (sample_resources 3 0) blocked_gate quiet_snapshot 0 [(quiet_snapshot, 30 * Second)]
            quiet_snapshot (60 * Second) _ _ _ _ _ _).
  1-3: by vm_compute.
  - constructor; [split; by vm_compute|done].
  - done.
  - by vm_compute.
Defined.

Lemma power_gate_needs_stable_ac_witness :
  exists since, streak ps_ACConnected since [(mkPowerSnapshot true 7, 7 * Second); (mkPowerSnapshot true 1, Second)] /\
                5 * Second <= Sub (7 * Second) since.
Proof.
  apply (power_gate_needs_stable_ac (mkPower PowerACOnly (5 * Second)) [(mkPowerSnapshot true 1, Second)]
           (mkPowerGateState (Some Second))).
  - apply (power_step (mkPower PowerACOnly (5 * Second)) [] PowerGateState_zero). apply power_init.
  - done.
  - by vm_compute.
Defined.
