(* ===== verification/Capacity.v ===== *)
(** Advertised capacity between two polls: the sequencing of transfers across
    pools (internal/controller/capacity_transition.go), the comparisons and
    memory funding of the poll watcher (poll_cadence.go) and the
    pending-capacity map of the reconciler. *)

From S2P Require Import Prelude Float64 Model Config PlanGates Plan Samples PlanFacts PlanSafety PlanCapacity.

(** ** Transfers *)

(** The capacity each listener last acknowledged, as a transfer sees it. *)
Definition current_capacity (previous : ObservedState) : gmap string Z :=
  foldl (fun m p => <[po_ID p := Z.max (po_MaxCapacity p) 0]> m) ∅ (os_Pools previous).

Definition sequenceCapacityTransfer `{MapRange} (previous : ObservedState) (planned : gmap string Z) : gmap string Z :=
  let current := current_capacity previous in
  let hasDecrease := existsb (fun '(poolID, capacity) => capacity <? mget current poolID) (range planned) in
  range_build (fun poolID capacity =>
                 let capacity := Z.max capacity 0 in
                 if hasDecrease && (mget current poolID <? capacity) then mget current poolID else capacity)
              planned.

Definition capacityDecreased `{MapRange} (previous current : gmap string Z) : bool :=
  existsb (fun '(poolID, capacity) => mget current poolID <? capacity) (range previous).

Definition capacityRestoredFromZero `{MapRange} (previous current : gmap string Z) : bool :=
  existsb (fun '(poolID, capacity) => (0 <? capacity) && (mget previous poolID =? 0)) (range current).

Definition alignAdvertisedCapacity `{MapRange} (planned acknowledged : gmap string Z) (acked : gmap string bool) : gmap string Z :=
  foldl (fun m '(poolID, capacity) => if mgetb acked poolID then <[poolID := capacity]> m else m)
        planned (range acknowledged).

(** The clamp [step] applies to a transfer: never above a capacity a superseded
    poll still has in flight. *)
Definition clamp_pending `{MapRange} (pending advertised : gmap string Z) : gmap string Z :=
  foldl (fun m '(poolID, capacity) =>
           match pending !! poolID with
           | Some limit => if limit <? capacity then <[poolID := limit]> m else m
           | None => m
           end) advertised (range advertised).

(** ** Memory funding of an open poll *)

(** The planner input [memoryFundingSlots] fills in; every other field is Go's
    zero value. *)
Definition funding_input (resources : ResourceSnapshot) (workers : list Worker) (cfg : Config)
    (engineMemoryTotal : Z) : PlanInput :=
  {| in_Config := cfg; in_Desired := mkDesiredState 0 (ModeOther "") None 0; in_Previous := ObservedState_zero;
     in_CapacityHysteresis := ∅; in_Pools := []; in_Workers := workers; in_Resources := resources;
     in_Power := mkPowerSnapshot false 0; in_Desktop := mkDesktopStatus false false 0;
     in_EngineMemoryTotalBytes := engineMemoryTotal; in_InputIdle := None; in_Now := 0 |}.

Definition memoryFundingSlots (resources : ResourceSnapshot) (workers : list Worker) (cfg : Config)
    (engineMemoryTotal : Z) : Z :=
  let gate := evaluateMemoryBasis (funding_input resources workers cfg engineMemoryTotal) in
  let workerMemory := wp_Memory (r_Worker (c_Resources cfg)) in
  if negb (mb_budgetActive gate) then affordableWorkerCount (mb_remaining gate) workerMemory
  else
    let active := count Active workers in
    let additional := affordableWorkerCount (mb_remaining gate) workerMemory in
    let additional := if mb_floorBlocked gate then 0 else additional in
    active + additional.

Definition advertisedCapacityExceedsMemoryFunding `{MapRange} (advertised : gmap string Z)
    (resources : ResourceSnapshot) (workers : list Worker) (cfg : Config) (engineMemoryTotal : Z) : bool :=
  let total := foldl (fun t '(_, capacity) => t + capacity) 0 (range advertised) in
  if total =? 0 then false
  else memoryFundingSlots resources workers cfg engineMemoryTotal <? total.

(** The loop of [memoryAffordableAdvertisedCapacity]: what is left of the slots
    is handed out in iteration order. *)
Definition afford_pool (st : gmap string Z * Z) (entry : string * Z) : gmap string Z * Z :=
  let '(result, remaining) := st in
  let '(poolID, capacity) := entry in
  if remaining <=? 0 then (<[poolID := 0]> result, remaining)
  else if remaining <? capacity then (<[poolID := remaining]> result, 0)
  else (<[poolID := capacity]> result, remaining - capacity).

Definition memoryAffordableAdvertisedCapacity `{MapRange} (advertised : gmap string Z)
    (resources : ResourceSnapshot) (workers : list Worker) (cfg : Config) (engineMemoryTotal : Z) : gmap string Z :=
  (foldl afford_pool (∅, memoryFundingSlots resources workers cfg engineMemoryTotal) (range advertised)).1.

(** ** Worker inventories *)

(** The first loop of [sameWorkerInventory]: the left inventory indexed by ID,
    [None] when an ID is empty or repeated. *)
Fixpoint index_workers (m : gmap string Worker) (left : list Worker) : option (gmap string Worker) :=
  match left with
  | [] => Some m
  | w :: rest =>
      if String.eqb (w_ID w) "" then None
      else match m !! w_ID w with
           | Some _ => None
           | None => index_workers (<[w_ID w := w]> m) rest
           end
  end.

Fixpoint match_workers (m : gmap string Worker) (right : list Worker) : bool :=
  match right with
  | [] => bool_decide (m = ∅)
  | w :: rest =>
      match m !! w_ID w with
      | Some prior => if decide (prior = w) then match_workers (delete (w_ID w) m) rest else false
      | None => false
      end
  end.

Definition sameWorkerInventory (left right : list Worker) : bool :=
  if negb (Nat.eqb (length left) (length right)) then false
  else match index_workers ∅ left with
       | Some m => match_workers m right
       | None => false
       end.

(** ** Pending capacity and acknowledgement times *)

Definition poolAcknowledgementTransitionAt (prior : PoolObservation) (scaleSetID : Z) (listenerID : string)
    (capacity : Z) (acknowledged : bool) (now : time) : time :=
  if IsZero (po_UpdatedAt prior) || negb (po_ScaleSetID prior =? scaleSetID)
     || negb (String.eqb (po_ListenerID prior) listenerID)
     || negb (po_MaxCapacity prior =? capacity) || negb (Bool.eqb (po_CapacityAcknowledged prior) acknowledged)
  then now else po_UpdatedAt prior.

(** The method of the same name, which also maintains the pending map. *)
Definition pool_transition (pending : gmap string Z) (targetID : string) (prior : PoolObservation)
    (scaleSetID : Z) (listenerID : string) (capacity pendingCapacity : Z) (acknowledged : bool) (now : time)
    : time * gmap string Z :=
  let transitionAt := poolAcknowledgementTransitionAt prior scaleSetID listenerID capacity acknowledged now in
  if acknowledged then (transitionAt, delete targetID pending)
  else
    let transitionAt := match pending !! targetID with
                        | Some previous => if previous =? pendingCapacity then transitionAt else now
                        | None => transitionAt
                        end in
    (transitionAt, <[targetID := pendingCapacity]> pending).

Definition seedPendingCapacity `{MapRange} (pending capacity : gmap string Z) : gmap string Z :=
  foldl (fun m '(poolID, value) => <[poolID := Z.max value 0]> m) pending (range capacity).

Definition pendingCapacitySnapshot (pending : gmap string Z) : option (gmap string Z) :=
  if decide (pending = ∅) then None else Some pending.

(** ** Poll checkpoints *)

Definition findPool (pools : list PoolSnapshot) (id : string) : PoolSnapshot :=
  match List.find (fun p => String.eqb (sn_TargetID p) id) pools with
  | Some p => p
  | None => mkPoolSnapshot id Identity_zero 0 0 false
  end.

Definition containsReadyPool (pools : list PoolSnapshot) : bool := existsb sn_Ready pools.

(** The last observation of each pool, by ID. *)
Definition observations (pools : list PoolObservation) : gmap string PoolObservation :=
  foldl (fun m p => <[po_ID p := p]> m) ∅ pools.

(** The start of a drain: kept unless missing or ahead of the clock. *)
Definition drain_started (previous : option time) (now : time) : time :=
  match previous with Some t => if Before now t then now else t | None => now end.

(** One pool of [pollCheckpoint]. *)
Definition checkpoint_pool (previous : ObservedState) (pools : list PoolSnapshot) (plan : Plan) (now : time)
    (pending : gmap string Z) (target : Target) : PoolObservation * gmap string Z :=
  let id := t_ID target in
  let pool := findPool pools id in
  let prior := default PoolObservation_zero (observations (os_Pools previous) !! id) in
  let advertised := mget (p_AdvertisedCapacity plan) id in
  let acknowledged := po_CapacityAcknowledged prior && (po_MaxCapacity prior =? advertised)
                      && (po_ScaleSetID prior =? id_ScaleSetID (sn_Identity pool))
                      && String.eqb (po_ListenerID prior) (id_ListenerID (sn_Identity pool)) in
  let confirmations := if acknowledged && (po_MaxCapacity prior =? 0) then po_ZeroCapacityConfirmations prior else 0 in
  let '(updatedAt, pending) :=
    pool_transition pending id prior (id_ScaleSetID (sn_Identity pool)) (id_ListenerID (sn_Identity pool))
      (po_MaxCapacity prior) advertised acknowledged now in
  ({| po_ID := id; po_ScaleSetID := id_ScaleSetID (sn_Identity pool); po_ListenerID := id_ListenerID (sn_Identity pool);
      po_TotalAssignedJobs := sn_TotalAssignedJobs pool; po_MaxCapacity := po_MaxCapacity prior;
      po_CapacityAcknowledged := acknowledged; po_ZeroCapacityConfirmations := confirmations;
      po_DrainServiceCapacity := sn_DrainServiceCapacity pool;
      po_DesiredWorkers := mget (p_DesiredWorkers plan) id; po_UpdatedAt := updatedAt |}, pending).

Fixpoint checkpoint_pools (previous : ObservedState) (pools : list PoolSnapshot) (plan : Plan) (now : time)
    (pending : gmap string Z) (targets : list Target) : list PoolObservation * gmap string Z :=
  match targets with
  | [] => ([], pending)
  | t :: rest =>
      let '(o, pending) := checkpoint_pool previous pools plan now pending t in
      let '(os, pending) := checkpoint_pools previous pools plan now pending rest in
      (o :: os, pending)
  end.

(** [cost] is what [controllerCost] reads from the process. *)
Definition pollCheckpoint (cfg : Config) (version : string) (cost : ControllerCost) (pending : gmap string Z)
    (previous : ObservedState) (pools : list PoolSnapshot) (workers : list Worker) (resources : ResourceSnapshot)
    (power : PowerSnapshot) (desktop : DesktopStatus) (plan : Plan) (now : time) (operationProblems : list Problem)
    : ObservedState * gmap string Z :=
  let '(observedPools, pending) := checkpoint_pools previous pools plan now pending (c_Targets cfg) in
  ({| os_SchemaVersion := 1;
      os_Phase := if bool_decide (operationProblems = []) then p_Phase plan else PhaseDegraded;
      os_HeartbeatAt := now;
      os_DrainStartedAt := if bool_decide (p_Phase plan = PhaseDraining)
                           then Some (drain_started (os_DrainStartedAt previous) now) else None;
      os_QuiesceReason := p_QuiesceReason plan; os_Version := version;
      os_Pools := observedPools; os_Workers := workers; os_Resources := resources; os_Power := power;
      os_Desktop := desktop; os_ResourceGate := p_ResourceGate plan; os_PowerGate := p_PowerGate plan;
      os_Controller := cost; os_Presence := p_Presence plan;
      os_Problems := p_Problems plan ++ operationProblems |}, pending).

(** ** Facts about transfers *)

Lemma current_capacity_nonneg previous k : 0 <= mget (current_capacity previous) k.
Proof.
  unfold current_capacity. apply (foldl_invariant (fun m => 0 <= mget m k)); [done|].
  intros m p _ IH. rewrite mget_insert. case_decide; [lia|done].
Qed.

Lemma transfer_mget `{MapRange} previous planned k :
  let current := current_capacity previous in
  let hasDecrease := existsb (fun '(poolID, capacity) => capacity <? mget current poolID) (range planned) in
  mget (sequenceCapacityTransfer previous planned) k
    = match planned !! k with
      | Some c => if hasDecrease then Z.min (mget current k) (Z.max c 0) else Z.max c 0
      | None => 0
      end.
Proof.
  cbv zeta. unfold sequenceCapacityTransfer, mget at 1. rewrite lookup_range_build.
  destruct (planned !! k) as [c|]; [|done]. simpl. destruct (existsb _ _); [|done].
  simpl. split_if; zb; lia.
Qed.

(** Without a decrease every planned capacity is at least the current one. *)
Lemma no_decrease `{MapRange} previous planned k c :
  existsb (fun '(poolID, capacity) => capacity <? mget (current_capacity previous) poolID) (range planned) = false ->
  planned !! k = Some c -> mget (current_capacity previous) k <= c.
Proof.
  intros Hno Hk. destruct (Z.leb_spec (mget (current_capacity previous) k) c); [done|].
  exfalso. apply not_true_iff_false in Hno. apply Hno, existsb_range.
  exists k, c. split; [done|]. by apply Z.ltb_lt.
Qed.

(** A cross-pool transfer never exposes one slot to two listeners.  While
    the poll is out each configured listener may still be serving its old
    capacity or already the new one, in any mix; the mix never adds up to more
    than the larger of the old total and the new one. *)
Theorem capacity_transfer_exposes_no_slot_twice `{MapRange} previous planned mix :
  (forall k, mget mix k = 0 \/
     is_Some (planned !! k) /\
     (mget mix k = mget (current_capacity previous) k \/
      mget mix k = mget (sequenceCapacityTransfer previous planned) k)) ->
  map_sum mix <= Z.max (map_sum (current_capacity previous))
                       (map_sum (sequenceCapacityTransfer previous planned)).
Proof.
  intros Hmix. pose proof (transfer_mget previous planned) as Ht. cbv zeta in Ht.
  pose proof (current_capacity_nonneg previous) as Hcur.
  destruct (existsb _ _) eqn:Hd.
  - assert (map_sum mix <= map_sum (current_capacity previous)); [|lia].
    apply map_sum_mono. intros k. specialize (Hcur k). destruct (Hmix k) as [->|[[c Hc] Hm]]; [done|].
    rewrite Ht, Hc in Hm. lia.
  - assert (map_sum mix <= map_sum (sequenceCapacityTransfer previous planned)); [|lia].
    apply map_sum_mono. intros k. rewrite Ht. destruct (Hmix k) as [->|[[c Hc] Hm]].
    + destruct (planned !! k); lia.
    + rewrite Ht, Hc in Hm. rewrite Hc. pose proof (no_decrease _ _ _ _ Hd Hc). lia.
Qed.

(** A transfer converges: once every listener has acknowledged the
    capacities of the first round, the second round sends the plan itself. *)
Theorem capacity_transfer_converges `{MapRange} previous previous' planned k :
  (forall k, mget (current_capacity previous') k = mget (sequenceCapacityTransfer previous planned) k) ->
  (forall k, 0 <= mget planned k) ->
  mget (sequenceCapacityTransfer previous' planned) k = mget planned k.
Proof.
  intros Hack Hpos. pose proof (transfer_mget previous planned) as Ht. cbv zeta in Ht.
  pose proof (transfer_mget previous' planned k) as ->. cbv zeta.
  destruct (existsb (fun '(poolID, capacity) => capacity <? mget (current_capacity previous') poolID) _) eqn:Hd.
  - apply existsb_range in Hd as (k' & c & Hc & Hlt). apply Z.ltb_lt in Hlt.
    exfalso. rewrite Hack, Ht, Hc in Hlt. specialize (Hpos k'). unfold mget in Hpos. rewrite Hc in Hpos. simpl in Hpos.
    split_if; lia.
  - specialize (Hpos k). unfold mget in *. destruct (planned !! k); simpl in *; lia.
Qed.

(** ** Facts about funding *)

Lemma foldl_sum_range `{MapRange} m :
  foldl (fun t '(_, capacity) => t + capacity) 0 (range m) = map_sum m.
Proof.
  rewrite map_sum_range. generalize (range m). intros l.
  assert (Hacc : forall t, foldl (fun t '(_, c) => t + c) t l = t + foldr (fun kv acc => kv.2 + acc) 0 l).
  { induction l as [|[k v] l IH]; intros t; simpl; [lia|]. rewrite IH. lia. }
  by rewrite Hacc.
Qed.

(** What the handing-out loop guarantees after any prefix of the pools. *)
Record AffordInv (slots : Z) (prefix : list (string * Z)) (st : gmap string Z * Z) : Prop := {
  af_left : st.2 = slots - map_sum st.1;
  af_total : map_sum st.1 = Z.min slots (zsum snd prefix);
  af_dom : forall k, is_Some (st.1 !! k) -> k ∈ prefix.*1;
  af_le : forall k c, (k, c) ∈ prefix -> 0 <= mget st.1 k <= c;
}.

Lemma afford_insert slots prefix result k c v :
  k ∉ prefix.*1 -> 0 <= v <= c -> AffordInv slots prefix (result, slots - map_sum result) ->
  map_sum result + v = Z.min slots (zsum snd prefix + c) ->
  AffordInv slots (prefix ++ [(k, c)]) (<[k := v]> result, slots - map_sum result - v).
Proof.
  intros Hk Hv [_ Htot Hdom Hle] Ht. simpl in *.
  assert (Hr : result !! k = None).
  { destruct (result !! k) eqn:Hr; [|done]. exfalso. eauto. }
  constructor; simpl; rewrite ?map_sum_insert_new, ?zsum_app by done; simpl; try lia.
  - intros k'. rewrite lookup_insert, fmap_app. case_decide; [set_solver|]. intros Hk'%Hdom. set_solver.
  - intros k' c' [Hin|Hin%list_elem_of_singleton]%elem_of_app.
    + rewrite mget_insert_ne; [by apply Hle|]. intros ->. by apply (list_elem_of_fmap_2 fst) in Hin.
    + injection Hin as -> ->. by rewrite mget_insert_eq.
Qed.

Lemma afford_pool_inv slots prefix st k c :
  0 <= slots -> k ∉ prefix.*1 -> 0 <= c -> 0 <= zsum snd prefix ->
  AffordInv slots prefix st -> AffordInv slots (prefix ++ [(k, c)]) (afford_pool st (k, c)).
Proof.
  destruct st as [result remaining]. intros Hs Hk Hc Hz Hinv.
  pose proof (af_left _ _ _ Hinv) as Hl. pose proof (af_total _ _ _ Hinv) as Ht. simpl in *. subst remaining.
  split_if; [|split_if]; zb.
  - replace (slots - map_sum result) with (slots - map_sum result - 0) by lia. apply afford_insert; try done; lia.
  - rewrite <- (Z.sub_diag (slots - map_sum result)). apply afford_insert; try done; lia.
  - apply afford_insert; try done; lia.
Qed.

Lemma afford_all slots l :
  0 <= slots -> NoDup l.*1 -> (forall k c, (k, c) ∈ l -> 0 <= c) ->
  AffordInv slots l (foldl afford_pool (∅, slots) l).
Proof.
  intros Hs. induction l as [|[k c] l IH] using rev_ind; intros Hnd Hpos.
  - constructor; simpl; rewrite ?map_sum_empty; try lia; [|set_solver]. intros k [? Hk]. by rewrite lookup_empty in Hk.
  - rewrite fmap_app, NoDup_app in Hnd. destruct Hnd as (Hl & Hk & _).
    rewrite foldl_app. simpl. apply afford_pool_inv; [done| |by apply (Hpos k); set_solver| |].
    + intros Hin. apply (Hk k Hin). set_solver.
    + apply zsum_nonneg. intros [k' c'] Hin. apply (Hpos k'). set_solver.
    + apply IH; [done|]. intros k' c' Hin. apply (Hpos k'). set_solver.
Qed.

Lemma memoryFundingSlots_nonneg resources workers cfg engine :
  Input_typed (funding_input resources workers cfg engine) ->
  0 <= memoryFundingSlots resources workers cfg engine.
Proof.
  intros Hty. unfold memoryFundingSlots. pose proof (memory_basis_range _ Hty) as [? _].
  pose proof (ct_default _ (it_config _ Hty)) as [? _]. simpl in *.
  pose proof (count_nonneg Active workers).
  assert (0 <= affordableWorkerCount (mb_remaining (evaluateMemoryBasis (funding_input resources workers cfg engine)))
                 (wp_Memory (r_Worker (c_Resources cfg)))) by (apply affordable_nonneg; done).
  repeat split_if; lia.
Qed.

(** What a withdrawal leaves in flight.  Whatever the order of iteration,
    the remainder seeded after a withdrawal hands out exactly the funded slots
    or the whole advertised capacity if that is less, takes no pool above what
    it advertised, and is itself funded, so it is not withdrawn again. *)
Theorem memory_withdrawal_fits_funding `{MapRange} advertised resources workers cfg engine :
  Input_typed (funding_input resources workers cfg engine) -> (forall k c, advertised !! k = Some c -> 0 <= c) ->
  let kept := memoryAffordableAdvertisedCapacity advertised resources workers cfg engine in
  map_sum kept = Z.min (memoryFundingSlots resources workers cfg engine) (map_sum advertised) /\
  (forall k, 0 <= mget kept k <= mget advertised k) /\
  advertisedCapacityExceedsMemoryFunding kept resources workers cfg engine = false.
Proof.
  intros Hty Hpos kept. pose proof (memoryFundingSlots_nonneg _ _ _ _ Hty) as Hs.
  destruct (afford_all (memoryFundingSlots resources workers cfg engine) (range advertised)) as [_ Htot Hdom Hle];
    [done|apply range_fst_NoDup|by intros k c Hin%elem_of_range; eauto|].
  fold (memoryAffordableAdvertisedCapacity advertised resources workers cfg engine) in Htot, Hdom, Hle. fold kept in Htot, Hdom, Hle.
  change (zsum snd (range advertised)) with (foldr (fun kv acc => kv.2 + acc) 0 (range advertised)) in Htot.
  rewrite <- map_sum_range in Htot. split_and!; [done| |].
  - intros k. destruct (advertised !! k) as [c|] eqn:Hc.
    + assert (mget advertised k = c) as -> by (unfold mget; by rewrite Hc). by apply Hle, elem_of_range.
    + unfold mget. rewrite Hc. destruct (kept !! k) eqn:Hk; simpl; [|lia].
      assert (Hd : is_Some (kept !! k)) by eauto. apply Hdom, list_elem_of_fmap in Hd as ([k' c] & -> & Hin). apply elem_of_range in Hin. simpl in *. congruence.
  - unfold advertisedCapacityExceedsMemoryFunding. rewrite foldl_sum_range. split_if; [done|]. apply Z.ltb_ge. lia.
Qed.

(** ** Inventories as sets *)

Definition keyed (m : gmap string Worker) : Prop := map_Forall (fun k w => w_ID w = k) m.
Definition values (m : gmap string Worker) : list Worker := (map_to_list m).*2.

Lemma values_insert m w : m !! w_ID w = None -> values (<[w_ID w := w]> m) ≡ₚ w :: values m.
Proof. intros Hw. unfold values. by rewrite map_to_list_insert. Qed.

Lemma index_workers_spec m left :
  keyed m ->
  match index_workers m left with
  | Some m' => keyed m' /\ values m' ≡ₚ left ++ values m /\ Forall (fun w => w_ID w <> "") left /\ NoDup (w_ID <$> left)
               /\ Forall (fun w => m !! w_ID w = None) left
  | None => ~ (Forall (fun w => w_ID w <> "") left /\ NoDup (w_ID <$> left) /\ Forall (fun w => m !! w_ID w = None) left)
  end.
Proof.
  revert m. induction left as [|w left IH]; intros m Hm; simpl; [by split_and!; try constructor|].
  destruct (String.eqb_spec (w_ID w) "") as [He|He].
  { intros (H1 & _). by apply Forall_cons in H1 as []. }
  destruct (m !! w_ID w) eqn:Hw.
  { intros (_ & _ & H3). apply Forall_cons in H3 as [H3 _]. congruence. }
  specialize (IH (<[w_ID w := w]> m)). destruct (index_workers _ left) as [m'|].
  - destruct IH as (Hk & Hv & H1 & H2 & H3); [by apply map_Forall_insert_2|].
    assert (Hnot : w_ID w ∉ w_ID <$> left).
    { intros (w' & Heq & Hin)%list_elem_of_fmap. rewrite Forall_forall in H3. specialize (H3 w' Hin).
      rewrite <- Heq in H3. by rewrite lookup_insert_eq in H3. }
    split_and!; [done| |by constructor|by constructor|].
    + rewrite Hv, values_insert by done. by rewrite Permutation_middle.
    + constructor; [done|]. eapply Forall_impl; [exact H3|]. intros w' Hw'. by apply lookup_insert_None in Hw' as [].
  - intros (H1 & H2 & H3). apply IH; [by apply map_Forall_insert_2|].
    apply Forall_cons in H1 as [_ H1], H3 as [_ H3]. simpl in H2. apply NoDup_cons in H2 as [Hn H2].
    split_and!; [done|done|]. rewrite Forall_forall in *. intros w' Hin.
    rewrite lookup_insert_ne; [by apply H3|]. intros Heq. apply Hn. rewrite Heq. by apply list_elem_of_fmap_2.
Qed.

Lemma match_workers_spec m right : keyed m -> match_workers m right = true <-> values m ≡ₚ right.
Proof.
  revert m. induction right as [|w right IH]; intros m Hm; simpl.
  - rewrite bool_decide_eq_true. split; [intros ->; by unfold values; rewrite map_to_list_empty|].
    unfold values. intros Hp%Permutation_nil_r%fmap_nil_inv. by apply map_to_list_empty_iff.
  - assert (Hin : values m ≡ₚ w :: right -> m !! w_ID w = Some w).
    { intros Hp. assert (w ∈ values m) as ([k w'] & -> & Hkw)%list_elem_of_fmap by (rewrite Hp; set_solver).
      apply elem_of_map_to_list in Hkw. simpl. by rewrite (Hm _ _ Hkw). }
    destruct (m !! w_ID w) as [prior|] eqn:Hw; [|split; [done|]; intros Hp%Hin; done].
    case_decide as Hpw; [subst prior|split; [done|]; intros Hp%Hin; congruence].
    rewrite IH by (by apply map_Forall_delete). rewrite <- (insert_delete_id m (w_ID w) w Hw) at 2.
    rewrite values_insert by apply lookup_delete_eq. split; [by intros ->|]. apply Permutation_cons_inv.
Qed.

(** The inventory comparison of the poll watcher decides set equality of
    fully identified inventories: it holds exactly when every observed worker
    has an ID, no two share one, and the other inventory holds the same workers
    field by field in some order. *)
Theorem sameWorkerInventory_spec left right :
  sameWorkerInventory left right = true <->
  Forall (fun w => w_ID w <> "") left /\ NoDup (w_ID <$> left) /\ left ≡ₚ right.
Proof.
  unfold sameWorkerInventory. pose proof (index_workers_spec ∅ left (map_Forall_empty _)) as Hi.
  assert (Hnone : Forall (fun w => (∅ : gmap string Worker) !! w_ID w = None) left) by (by apply Forall_true).
  destruct (Nat.eqb_spec (length left) (length right)) as [Hl|Hl]; simpl.
  2: { split; [done|]. by intros (_ & _ & Hp%Permutation_length). }
  destruct (index_workers ∅ left) as [m|]; [|split; [done|]; intros (? & ? & _); tauto].
  destruct Hi as (Hk & Hv & H1 & H2 & _). rewrite match_workers_spec by done.
  unfold values in Hv at 2. rewrite map_to_list_empty, app_nil_r in Hv. rewrite Hv. tauto.
Qed.

(** ** Checkpoints *)

Lemma checkpoint_pools_elem previous pools plan now pending targets o :
  o ∈ (checkpoint_pools previous pools plan now pending targets).1 ->
  exists pending' t, t ∈ targets /\ o = (checkpoint_pool previous pools plan now pending' t).1.
Proof.
  revert pending. induction targets as [|t targets IH]; intros pending; simpl; [set_solver|].
  destruct (checkpoint_pool previous pools plan now pending t) as [o' p'] eqn:Ho.
  specialize (IH p'). destruct (checkpoint_pools _ _ _ _ p' targets) as [os p'']. simpl in *.
  intros [->|Hin]%elem_of_cons.
  - exists pending, t. rewrite Ho. split; [left|done].
  - destruct (IH Hin) as (pd & t' & ? & ?). exists pd, t'. split; [by right|done].
Qed.

(** A checkpoint written while a poll is out never claims an
    acknowledgement the listener did not give.  A pool of it counts as
    acknowledged only if the same scale set and listener had already
    acknowledged exactly the capacity being advertised; its recorded capacity
    is always the last acknowledged one, and confirmations of zero survive only
    with such an acknowledgement of zero. *)
Theorem pollCheckpoint_claims_no_acknowledgement cfg version cost pending previous pools workers resources power desktop
    plan now problems o :
  o ∈ os_Pools (pollCheckpoint cfg version cost pending previous pools workers resources power desktop plan now problems).1 ->
  let prior := default PoolObservation_zero (observations (os_Pools previous) !! po_ID o) in
  po_MaxCapacity o = po_MaxCapacity prior /\
  (po_CapacityAcknowledged o = true ->
   po_CapacityAcknowledged prior = true /\ po_MaxCapacity o = mget (p_AdvertisedCapacity plan) (po_ID o) /\
   po_ScaleSetID prior = po_ScaleSetID o /\ po_ListenerID prior = po_ListenerID o) /\
  (po_ZeroCapacityConfirmations o <> 0 ->
   po_CapacityAcknowledged o = true /\ po_MaxCapacity o = 0 /\
   po_ZeroCapacityConfirmations o = po_ZeroCapacityConfirmations prior).
Proof.
  unfold pollCheckpoint. pose proof (checkpoint_pools_elem previous pools plan now pending (c_Targets cfg) o) as Hel.
  destruct (checkpoint_pools _ _ _ _ _ _) as [os p']. simpl in *. intros (pd & t & _ & ->)%Hel.
  unfold checkpoint_pool. destruct (pool_transition _ _ _ _ _ _ _ _ _) as [at_ pd']. simpl.
  set (prior := default _ _). split; [done|].
  destruct (po_CapacityAcknowledged prior && _ && _ && _) eqn:Hack; simpl; [|done].
  rewrite !andb_true_iff, !Z.eqb_eq, String.eqb_eq in Hack. destruct Hack as [[[H1 H2] H3] H4].
  split; [done|]. clearbody prior. destruct (Z.eqb_spec (po_MaxCapacity prior) 0); [|done]. by intros _.
Qed.

(** ** Where the watcher disagrees with the planner *)

(** Host-headroom basis: one busy worker whose memory is already taken, and
    less than one more worker's memory free. *)
Definition headroom_input : PlanInput :=
  sample_input ModeEnabled 3 0 (20 * GiB) [sample_target "org" 3 0 1] [sample_pool "org" 1]
    [sample_worker "w1" "org" WorkerBusy].

(** Budget basis with the host at its memory floor while two slots are
    advertised and no worker runs. *)
Definition floor_held_input : PlanInput :=
  let base := sample_input ModeEnabled 3 (20 * GiB) (10 * GiB) [sample_target "org" 3 0 1] [sample_pool "org" 0] [] in
  {| base with in_CapacityHysteresis := {["org" := 2]} |}.

Definition watcher_withdraws (input : PlanInput) : bool :=
  advertisedCapacityExceedsMemoryFunding (p_AdvertisedCapacity (BuildPlan 1 input)) (in_Resources input)
    (in_Workers input) (in_Config input) (in_EngineMemoryTotalBytes input).

(** The memory funding check of the poll watcher is stricter than the plan
    it guards: on one and the same observation it withdraws capacity the plan
    has just advertised.  With the host-headroom basis it charges the slots of
    running workers against memory they already occupy, and withdraws even a
    busy worker's slot; with the budget basis it withdraws held capacity at the
    host memory floor, which the planner keeps. *)
Theorem watcher_withdraws_planned_capacity :
  (mget (p_AdvertisedCapacity (BuildPlan 1 headroom_input)) "org" = 1 /\
   busy_count (in_Workers headroom_input) = 1 /\ watcher_withdraws headroom_input = true) /\
  (mget (p_AdvertisedCapacity (BuildPlan 1 floor_held_input)) "org" = 2 /\
   mb_floorBlocked (evaluateMemoryBasis floor_held_input) = true /\ watcher_withdraws floor_held_input = true).
Proof. split; split_and!; by vm_compute. Qed.

(** ** Concrete instances *)

Definition observed_with (capacities : list (string * Z)) : ObservedState :=
  let zero := ObservedState_zero in
  {| zero with os_Pools := map (fun '(id, c) => mkPoolObservation id 1 "l" 0 c true 0 0 0 1) capacities |}.

Lemma capacity_transfer_exposes_no_slot_twice_witness :
  map_to_list (sequenceCapacityTransfer (observed_with [("a", 2); ("b", 1)]) {["a" := 1; "b" := 2]})
    = [("a", 1); ("b", 1)] /\
  map_sum {["a" := 2; "b" := 1]}
    <= Z.max (map_sum (current_capacity (observed_with [("a", 2); ("b", 1)])))
             (map_sum (sequenceCapacityTransfer (observed_with [("a", 2); ("b", 1)]) {["a" := 1; "b" := 2]})).
Proof.
  split; [by vm_compute|]. apply capacity_transfer_exposes_no_slot_twice. intros k.
  destruct (decide (k = "a")) as [->|Ha]; [right; split; [done|left; by vm_compute]|].
  destruct (decide (k = "b")) as [->|Hb]; [right; split; [done|left; by vm_compute]|].
  left. rewrite mget_insert_ne by done. unfold mget. by rewrite lookup_singleton_ne.
Defined.

Lemma capacity_transfer_converges_witness :
  mget (sequenceCapacityTransfer (observed_with [("a", 1); ("b", 1)]) {["a" := 1; "b" := 2]}) "b" = 2.
Proof.
  apply (capacity_transfer_converges (observed_with [("a", 2); ("b", 1)])).
  - intros k. rewrite transfer_mget. cbv zeta.
    destruct (decide (k = "a")) as [->|Ha]; [by vm_compute|]. destruct (decide (k = "b")) as [->|Hb]; [by vm_compute|].
    rewrite lookup_insert_ne, lookup_singleton_ne by done. unfold current_capacity. simpl.
    by rewrite !mget_insert_ne by done.
  - intros k. rewrite mget_insert. case_decide; [done|]. unfold mget. rewrite lookup_singleton. by case_decide.
Defined.

Lemma memory_withdrawal_fits_funding_witness :
  map_sum (memoryAffordableAdvertisedCapacity {["a" := 2; "b" := 2]} (in_Resources sample_budget)
             (in_Workers sample_budget) (in_Config sample_budget) 0) = 2.
Proof.
  refine (proj1 (memory_withdrawal_fits_funding {["a" := 2; "b" := 2]} (in_Resources sample_budget)
                   (in_Workers sample_budget) (in_Config sample_budget) 0 _ _)).
  - apply input_typedb_spec. by vm_compute.
  - intros k c. rewrite lookup_insert. case_decide; [by intros [= <-]|]. rewrite lookup_singleton. case_decide; [by intros [= <-]|done].
Defined.

Definition pending_checkpoint : ObservedState :=
  (pollCheckpoint (in_Config headroom_input) "v" (mkControllerCost f64_0 f64_0) ∅ (observed_with [("org", 2)])
     (in_Pools headroom_input) [] ResourceSnapshot_zero (in_Power headroom_input) (in_Desktop headroom_input)
     (BuildPlan 1 headroom_input) 1000 []).1.

Lemma pollCheckpoint_claims_no_acknowledgement_witness :
  os_Pools pending_checkpoint = [mkPoolObservation "org" 1 "org" 1 2 false 0 0 1 1000] /\
  po_MaxCapacity (mkPoolObservation "org" 1 "org" 1 2 false 0 0 1 1000)
    = po_MaxCapacity (default PoolObservation_zero (observations (os_Pools (observed_with [("org", 2)])) !! "org")).
Proof.
  assert (Hp : os_Pools pending_checkpoint = [mkPoolObservation "org" 1 "org" 1 2 false 0 0 1 1000]) by (by vm_compute).
  split; [done|].
  assert (Hin : mkPoolObservation "org" 1 "org" 1 2 false 0 0 1 1000 ∈ os_Pools pending_checkpoint) by (rewrite Hp; left).
  exact (proj1 (pollCheckpoint_claims_no_acknowledgement _ _ _ _ (observed_with [("org", 2)]) _ _ _ _ _ _ _ _ _ Hin)).
Defined.
