(* ===== verification/Errors.v ===== *)
(** Error values and retries: Go error trees with [errors.Is] and [errors.As],
    the scale-set error kinds (internal/scaleset/scaleset.go) and the backoff
    arithmetic of internal/controller/retry.go. *)

From S2P Require Import Prelude Float64 Model.

(** ** Error trees *)

Inductive ErrorKind :=
  | ErrorUnauthorized
  | ErrorForbidden
  | ErrorNotFound
  | ErrorConflict
  | ErrorRateLimited
  | ErrorServer
  | ErrorTransport
  | ErrorInvalid
  | ErrorKindOther (s : string).

#[export] Instance ErrorKind_eq_dec : EqDecision ErrorKind.
Proof. solve_decision. Defined.

(** A Go error: a sentinel or an opaque text, a wrapped error, a joined list, a
    [*scaleset.Error] or a [*WorkerStartError]. *)
Inductive error :=
  | ErrNew (text : string)
  | ErrWrap (text : string) (inner : error)
  | ErrJoin (errs : list error)
  | ErrScaleSet (kind : ErrorKind) (operation : string) (status retryAfter : Z) (inner : option error)
  | ErrWorkerStart (inner : error) (runnerMayBeActive : bool).

(** The fields of the [*scaleset.Error] that [errors.As] finds. *)
Record ScaleSetError := mkScaleSetError {
  se_Kind : ErrorKind;
  se_Operation : string;
  se_StatusCode : Z;
  se_RetryAfterSeconds : Z;
}.

(** [errors.Is(err, target)] for a sentinel, depth first. *)
Fixpoint errors_Is (target : string) (e : error) : bool :=
  match e with
  | ErrNew text => String.eqb text target
  | ErrWrap _ inner => errors_Is target inner
  | ErrJoin errs => existsb (errors_Is target) errs
  | ErrScaleSet _ _ _ _ inner => match inner with Some i => errors_Is target i | None => false end
  | ErrWorkerStart inner _ => errors_Is target inner
  end.

(** The first answer over a list of errors. *)
Definition first_some {A B} (f : A -> option B) : list A -> option B :=
  fix go l := match l with
              | [] => None
              | x :: l => match f x with Some b => Some b | None => go l end
              end.

(** [errors.As(err, **scaleset.Error)], depth first. *)
Fixpoint as_ScaleSetError (e : error) : option ScaleSetError :=
  match e with
  | ErrNew _ => None
  | ErrWrap _ inner => as_ScaleSetError inner
  | ErrJoin errs => first_some as_ScaleSetError errs
  | ErrScaleSet kind op status retryAfter _ => Some (mkScaleSetError kind op status retryAfter)
  | ErrWorkerStart inner _ => as_ScaleSetError inner
  end.

(** [errors.As(err, **WorkerStartError)]: its [RunnerMayBeActive] field. *)
Fixpoint as_WorkerStartError (e : error) : option bool :=
  match e with
  | ErrNew _ => None
  | ErrWrap _ inner => as_WorkerStartError inner
  | ErrJoin errs => first_some as_WorkerStartError errs
  | ErrScaleSet _ _ _ _ inner => match inner with Some i => as_WorkerStartError i | None => None end
  | ErrWorkerStart _ active => Some active
  end.

(** [errors.Join]: nil errors are dropped, and nothing is left of an empty list. *)
Definition errors_Join (errs : list (option error)) : option error :=
  match omap id errs with
  | [] => None
  | es => Some (ErrJoin es)
  end.

Definition IsKind (e : error) (kind : ErrorKind) : bool :=
  match as_ScaleSetError e with Some t => bool_decide (se_Kind t = kind) | None => false end.

Definition Retryable (e : error) : bool :=
  match as_ScaleSetError e with
  | None => false
  | Some t => match se_Kind t with
              | ErrorConflict | ErrorRateLimited | ErrorServer | ErrorTransport => true
              | _ => false
              end
  end.

(** An untyped runtime error fails closed. *)
Definition RunnerStartMayBeActive (e : error) : bool :=
  match as_WorkerStartError e with None => true | Some active => active end.

(** The sentinels the controller tests for. *)
Definition errCanceled : error := ErrNew "context canceled".
Definition errReconcileInputsChanged : error := ErrNew "reconciliation safety inputs changed".
Definition errShutdownRequested : error := ErrNew "controller shutdown requested".
Definition ErrUnsafeObservedState : error :=
  ErrNew "observed state could not be loaded; refusing to reconcile persistent scale-set identities".
Definition ErrStateNotFound : error := ErrNew "state not found".
Definition ErrCorruptObserved : error := ErrNew "observed state is corrupt".
Definition ErrJobsNotFound : error := ErrNew "job record not found".
Definition ErrJobConflict : error := ErrNew "job record conflict".

Definition is_sentinel (sentinel : error) (e : error) : bool :=
  match sentinel with ErrNew text => errors_Is text e | _ => false end.

Definition pollSuperseded (e : error) : bool := is_sentinel errCanceled e.

(** ** Backoff *)

(** [bp_Jitter] takes the random draw of one call; [None] is a failed draw. *)
Record BackoffPolicy := mkBackoffPolicy {
  bp_Initial : duration;
  bp_Maximum : duration;
  bp_Multiplier : float64;
  bp_JitterRatio : float64;
  bp_MaxAttempts : Z;
  bp_Jitter : option (option Z -> duration -> float64 -> duration);
}.

Definition BackoffPolicy_validate (p : BackoffPolicy) : bool :=
  negb ((bp_Initial p <=? 0) || (bp_Maximum p <? bp_Initial p) || f64_lt (bp_Multiplier p) f64_1
        || f64_is_nan (bp_Multiplier p) || f64_is_inf (bp_Multiplier p) || f64_lt (bp_JitterRatio p) f64_0
        || f64_lt f64_1 (bp_JitterRatio p) || (bp_MaxAttempts p <=? 0)).

Definition errInvalidBackoff : error := ErrNew "invalid backoff policy".

(** The loop of [delay]: [n] multiplications, stopped at the maximum. *)
Fixpoint grow_delay (p : BackoffPolicy) (n : nat) (d : float64) : float64 :=
  match n with
  | O => d
  | S n =>
      let d := f64_mul d (bp_Multiplier p) in
      if f64_le (f64_of_Z (bp_Maximum p)) d then f64_of_Z (bp_Maximum p) else grow_delay p n d
  end.

(** The delay before jitter and [Retry-After]. *)
Definition base_delay (p : BackoffPolicy) (attempt : Z) : duration :=
  let base := i64_of_f64 (grow_delay p (Z.to_nat (attempt - 1)) (f64_of_Z (bp_Initial p))) in
  if bp_Maximum p <? base then bp_Maximum p else base.

(** What the server's [Retry-After] asks for, capped at the maximum. *)
Definition retry_after (p : BackoffPolicy) (seconds : Z) : duration :=
  if seconds <=? Z.quot (bp_Maximum p) Second then wrap_i64 (seconds * Second) else bp_Maximum p.

Definition delay (p : BackoffPolicy) (draw : option Z) (attempt : Z) (err : error) : duration :=
  let base := base_delay p attempt in
  let base := match bp_Jitter p with
              | Some jitter => if f64_lt f64_0 (bp_JitterRatio p) then jitter draw base (bp_JitterRatio p) else base
              | None => base
              end in
  match as_ScaleSetError err with
  | Some e => if 0 <? se_RetryAfterSeconds e then Z.max base (retry_after p (se_RetryAfterSeconds e)) else base
  | None => base
  end.

(** [draw] is uniform on [0, 1000001); [None] when the random source failed. *)
Definition cryptoJitter (draw : option Z) (base : duration) (ratio : float64) : duration :=
  match draw with
  | None => base
  | Some n =>
      let unit := f64_sub (f64_mul (f64_div (f64_of_Z n) (f64_of_Z 1000000)) (f64_of_Z 2)) f64_1 in
      let factor := f64_add f64_1 (f64_mul unit ratio) in
      let result := i64_of_f64 (f64_mul (f64_of_Z base) factor) in
      if result <=? 0 then Nanosecond else result
  end.

(** ** Facts *)

(** How long a retry waits.  A validated policy without jitter never waits
    longer than its maximum, whatever the attempt and the error; a server's
    positive Retry-After is honoured up to the maximum, with or without jitter,
    and converting it to nanoseconds never overflows. *)
Theorem delay_bounds p draw attempt err :
  BackoffPolicy_validate p = true -> bp_Maximum p <= max_i64 ->
  (bp_Jitter p = None -> delay p draw attempt err <= bp_Maximum p) /\
  (forall e, as_ScaleSetError err = Some e -> 0 < se_RetryAfterSeconds e ->
   Z.min (se_RetryAfterSeconds e * Second) (bp_Maximum p) <= delay p draw attempt err).
Proof.
  unfold BackoffPolicy_validate. intros Hv%negb_true_iff Hmax. zb.
  assert (Hbase : base_delay p attempt <= bp_Maximum p) by (unfold base_delay; split_if; zb; lia).
  assert (Hra : forall s, 0 < s -> Z.min (s * Second) (bp_Maximum p) <= retry_after p s <= bp_Maximum p).
  { intros s Hs. unfold retry_after. split_if; zb; [|lia].
    assert (s * Second <= bp_Maximum p).
    { pose proof (Z.mul_quot_le (bp_Maximum p) Second). unfold Second in *. nia. }
    rewrite wrap_i64_small by (unfold is_i64, min_i64, Second in *; lia). lia. }
  unfold delay. split.
  - intros ->. destruct (as_ScaleSetError err) as [e|]; [|done]. split_if; [|done]. zb.
    specialize (Hra (se_RetryAfterSeconds e)). lia.
  - intros e -> Hpos. rewrite (proj2 (Z.ltb_lt _ _) Hpos). specialize (Hra (se_RetryAfterSeconds e) Hpos). lia.
Qed.

(** A join is nil exactly when all its errors are. *)
Lemma errors_Join_none errs : errors_Join errs = None <-> Forall (fun e => e = None) errs.
Proof.
  unfold errors_Join. induction errs as [|[e|] errs IH]; simpl.
  - split; [constructor|done].
  - split; [done|]. by intros [? _]%Forall_cons_1.
  - rewrite Forall_cons, <- IH. by split; [split|intros [_ ?]].
Qed.

(** A drawn jitter never produces an empty wait. *)
Lemma cryptoJitter_pos n base ratio : 0 < cryptoJitter (Some n) base ratio.
Proof. unfold cryptoJitter, Nanosecond. split_if; zb; lia. Qed.

(** The policy [NewReconciler] builds for a maximum of one minute. *)
Definition sample_policy : BackoffPolicy :=
  mkBackoffPolicy Second Minute (f64_of_Z 2) f64_0 6 None.

Lemma delay_bounds_witness :
  delay sample_policy None 5 (ErrScaleSet ErrorServer "poll" 503 0 None) = 16 * Second /\
  Z.min (90 * Second) Minute <= delay sample_policy None 1 (ErrWrap "poll" (ErrScaleSet ErrorRateLimited "poll" 429 90 None)).
Proof.
  split; [by vm_compute|].
  refine (proj2 (delay_bounds sample_policy None 1 (ErrWrap "poll" (ErrScaleSet ErrorRateLimited "poll" 429 90 None)) _ _)
            (mkScaleSetError ErrorRateLimited "poll" 429 90) _ _); by vm_compute.
Defined.

(** The largest duration a configuration can name is not a safe maximum: it is
    not representable as a float, and the conversion back is out of range. *)
Theorem delay_overflows_at_max_duration :
  let p := mkBackoffPolicy max_i64 max_i64 (f64_of_Z 2) f64_0 3 None in
  BackoffPolicy_validate p = true /\ delay p None 1 (ErrNew "failure") = min_i64.
Proof. by vm_compute. Qed.
