(* ===== verification/JobIndex.v ===== *)
(** The durable job index (internal/jobindex): the merge of lifecycle patches
    into records, validation, compaction under the size cap, the
    assignment-time sidecar, the drop journal and the file store over them.

    Times are stored in UTC, so [UTC()] is the identity.  A struct comparison
    compares the pointer fields [RunnerAssignedAt] and [TombstonedAt] by
    address; both are set at most once per merge and only when nil, so
    comparing the values decides the same.  The bytes of a document come from
    an encoder that is an argument ([json.MarshalIndent] with a trailing
    newline); every theorem holds for every encoder. *)

From S2P Require Import Prelude Float64 Model Errors GoStrings.

(** ** Records *)

Record JobRecord := mkJobRecord {
  jr_PoolID : string;
  jr_RunnerName : string;
  jr_ContainerID : string;
  jr_JobID : string;
  jr_Result : string;
  jr_LogPath : string;
  jr_DiagnosticPath : string;
  jr_ArtifactStartedAt : time;
  jr_RunnerAssignedAt : option time;
  jr_JobStartedAt : time;
  jr_CompletedAt : time;
  jr_FinalizedAt : time;
  jr_UpdatedAt : time;
  jr_Open : bool;
  jr_TombstonedAt : option time;
}.

#[export] Instance JobRecord_eq_dec : EqDecision JobRecord.
Proof. solve_decision. Defined.

Definition JobRecord_zero : JobRecord :=
  mkJobRecord "" "" "" "" "" "" "" 0 None 0 0 0 0 false None.

Record Catalog := mkCatalog {
  cat_SchemaVersion : Z;
  cat_Records : list JobRecord;
}.

Definition SchemaVersion : Z := 1.
Definition Catalog_zero : Catalog := mkCatalog 0 [].

Record Patch := mkPatch {
  pt_PoolID : string;
  pt_RunnerName : string;
  pt_ContainerID : string;
  pt_JobID : string;
  pt_Result : string;
  pt_LogPath : string;
  pt_DiagnosticPath : string;
  pt_ArtifactStartedAt : time;
  pt_RunnerAssignedAt : time;
  pt_JobStartedAt : time;
  pt_CompletedAt : time;
  pt_FinalizedAt : time;
  pt_Open : option bool;
  pt_TombstonedAt : option time;
}.

(** ** Merging *)

Open Scope result_scope.

Definition mergeImmutable (name current incoming : string) : result error string :=
  if String.eqb incoming "" then Ok current
  else if negb (String.eqb current "") && negb (String.eqb current incoming)
  then Err (ErrWrap (name +:+ " changed") ErrJobConflict)
  else Ok incoming.

Definition mergePath `{FilePath} (name current incoming : string) : result error string :=
  if String.eqb incoming "" then Ok current
  else if negb (IsAbs incoming) then Err (ErrNew (name +:+ " path must be absolute"))
  else mergeImmutable (name +:+ " path") current (Clean incoming).

Definition mergeTime (destination value : time) : time :=
  if IsZero destination && negb (IsZero value) then value else destination.

Definition mergeOptionalTime (destination : option time) (value : time) : option time :=
  match destination with
  | Some _ => destination
  | None => if IsZero value then None else Some value
  end.

(** The fields of [Merge] after the identity and tombstone checks. *)
Definition merge_fields `{FilePath} (existing : JobRecord) (patch : Patch) : result error JobRecord :=
  let! container := mergeImmutable "container ID" (jr_ContainerID existing) (pt_ContainerID patch) in
  let! job := mergeImmutable "job ID" (jr_JobID existing) (pt_JobID patch) in
  let! res := mergeImmutable "job result" (jr_Result existing) (pt_Result patch) in
  let! log := mergePath "worker log" (jr_LogPath existing) (pt_LogPath patch) in
  let! diagnostics := mergePath "worker diagnostics" (jr_DiagnosticPath existing) (pt_DiagnosticPath patch) in
  Ok {| jr_PoolID := jr_PoolID existing; jr_RunnerName := jr_RunnerName existing;
        jr_ContainerID := container; jr_JobID := job; jr_Result := res; jr_LogPath := log;
        jr_DiagnosticPath := diagnostics;
        jr_ArtifactStartedAt := mergeTime (jr_ArtifactStartedAt existing) (pt_ArtifactStartedAt patch);
        jr_RunnerAssignedAt := mergeOptionalTime (jr_RunnerAssignedAt existing) (pt_RunnerAssignedAt patch);
        jr_JobStartedAt := mergeTime (jr_JobStartedAt existing) (pt_JobStartedAt patch);
        jr_CompletedAt := mergeTime (jr_CompletedAt existing) (pt_CompletedAt patch);
        jr_FinalizedAt := mergeTime (jr_FinalizedAt existing) (pt_FinalizedAt patch);
        jr_UpdatedAt := jr_UpdatedAt existing;
        jr_Open := match pt_TombstonedAt patch with
                   | Some _ => false
                   | None => default (jr_Open existing) (pt_Open patch)
                   end;
        jr_TombstonedAt := pt_TombstonedAt patch |}.

(** The record a patch applies to: a fresh one takes the patch's identity. *)
Definition merge_identity (existing : JobRecord) (patch : Patch) : result error JobRecord :=
  if String.eqb (jr_PoolID existing) "" then
    Ok {| existing with jr_PoolID := pt_PoolID patch; jr_RunnerName := pt_RunnerName patch |}
  else if negb (String.eqb (jr_PoolID existing) (pt_PoolID patch))
          || negb (String.eqb (jr_RunnerName existing) (pt_RunnerName patch))
  then Err (ErrWrap "pool/runner identity changed" ErrJobConflict)
  else Ok existing.

Definition Merge `{FilePath} (existing : JobRecord) (patch : Patch) (now : time) : result error JobRecord :=
  if blank (pt_PoolID patch) || blank (pt_RunnerName patch)
  then Err (ErrNew "job patch requires pool ID and runner name")
  else if IsZero now then Err (ErrNew "job patch time is required")
  else
    let original := existing in
    let! existing := merge_identity existing patch in
    match jr_TombstonedAt existing with
    | Some _ => Ok existing
    | None =>
        let! merged := merge_fields existing patch in
        Ok (if decide (merged = original) then merged else {| merged with jr_UpdatedAt := now |})
    end.

(** ** Validation and order *)

Definition record_key (pool runner : string) : string := pool +:+ nul +:+ runner.
Definition key_of (r : JobRecord) : string := record_key (jr_PoolID r) (jr_RunnerName r).

(** The identifier sets [Validate] builds while it reads the records. *)
Record SeenIDs := mkSeenIDs {
  seen_keys : gset string;
  seen_jobs : gset string;
  seen_containers : gset string;
}.

Definition add_nonempty (id : string) (s : gset string) : gset string :=
  if String.eqb id "" then s else {[id]} ∪ s.

Definition fresh_id (id : string) (s : gset string) : bool :=
  String.eqb id "" || negb (bool_decide (id ∈ s)).

Definition path_valid `{FilePath} (path : string) : bool := String.eqb path "" || IsAbs path.

Definition validate_record `{FilePath} (seen : SeenIDs) (r : JobRecord) : result error SeenIDs :=
  if String.eqb (jr_PoolID r) "" || String.eqb (jr_RunnerName r) "" || IsZero (jr_UpdatedAt r)
  then Err (ErrNew "record requires poolId, runnerName, and updatedAt")
  else if bool_decide (key_of r ∈ seen_keys seen) then Err (ErrNew "duplicate pool/runner record")
  else if negb (fresh_id (jr_JobID r) (seen_jobs seen)) then Err (ErrNew "duplicate job ID")
  else if negb (fresh_id (jr_ContainerID r) (seen_containers seen)) then Err (ErrNew "duplicate container ID")
  else if negb (path_valid (jr_LogPath r)) || negb (path_valid (jr_DiagnosticPath r))
  then Err (ErrNew "record path must be absolute")
  else Ok {| seen_keys := {[key_of r]} ∪ seen_keys seen;
             seen_jobs := add_nonempty (jr_JobID r) (seen_jobs seen);
             seen_containers := add_nonempty (jr_ContainerID r) (seen_containers seen) |}.

Fixpoint validate_records `{FilePath} (seen : SeenIDs) (rs : list JobRecord) : result error () :=
  match rs with
  | [] => Ok ()
  | r :: rest => let! seen := validate_record seen r in validate_records seen rest
  end.

Definition Validate `{FilePath} (c : Catalog) : result error () :=
  if negb (cat_SchemaVersion c =? SchemaVersion) then Err (ErrNew "unsupported jobs schemaVersion")
  else validate_records (mkSeenIDs ∅ ∅ ∅) (cat_Records c).

Definition record_before (a b : JobRecord) : bool :=
  pair_before (jr_PoolID a) (jr_RunnerName a) (jr_PoolID b) (jr_RunnerName b).

Definition Sort (c : Catalog) : Catalog := {| c with cat_Records := sort_by record_before (cat_Records c) |}.

(** ** Lookups *)

Definition is_tombstoned (r : JobRecord) : bool := match jr_TombstonedAt r with Some _ => true | None => false end.

Definition live_for (pool runner : string) (r : JobRecord) : bool :=
  String.eqb (jr_PoolID r) pool && String.eqb (jr_RunnerName r) runner && negb (is_tombstoned r).

(** The job of a record is running. *)
Definition job_running (r : JobRecord) : bool :=
  negb (String.eqb (jr_JobID r) "") && negb (IsZero (jr_JobStartedAt r)) && IsZero (jr_CompletedAt r).

Definition ActiveJob (c : Catalog) (pool runner : string) : string * bool :=
  if String.eqb pool "" || String.eqb runner "" then ("", false)
  else match List.find (live_for pool runner) (cat_Records c) with
       | Some r => (jr_JobID r, job_running r)
       | None => ("", false)
       end.

Definition FindByJobID (c : Catalog) (jobID : string) : result error JobRecord :=
  if String.eqb jobID "" then Err ErrJobsNotFound
  else match List.find (fun r => String.eqb (jr_JobID r) jobID && negb (is_tombstoned r)) (cat_Records c) with
       | Some r => Ok r
       | None => Err ErrJobsNotFound
       end.

Definition FindByRunner (c : Catalog) (pool runner : string) : result error JobRecord :=
  if String.eqb pool "" || String.eqb runner "" then Err ErrJobsNotFound
  else match List.find (live_for pool runner) (cat_Records c) with
       | Some r => Ok r
       | None => Err ErrJobsNotFound
       end.

(** ** Compaction *)

Definition maximumJobState : Z := Z.shiftl 8 20.
Definition maximumJobStateLoad : Z := 4 * maximumJobState.

Definition terminalTime (r : JobRecord) : time :=
  if negb (IsZero (jr_FinalizedAt r)) then jr_FinalizedAt r else jr_CompletedAt r.

Definition CompactableUnderCapacityPressure (r : JobRecord) : bool :=
  if is_tombstoned r then true
  else if jr_Open r || IsZero (terminalTime r) then false
  else String.eqb (jr_JobID r) "" || IsZero (jr_JobStartedAt r) || negb (IsZero (jr_CompletedAt r)).

(** Candidates carry their index in the catalog. *)
Definition indexed (rs : list JobRecord) : list (nat * JobRecord) := imap pair rs.

Definition older (at_ : JobRecord -> time) (a b : nat * JobRecord) : bool :=
  if at_ a.2 =? at_ b.2 then record_before a.2 b.2 else at_ a.2 <? at_ b.2.

Definition drop_count (records candidates : nat) (overshoot encoded : Z) : nat :=
  let averageRecordBytes := Z.max (encoded / Z.of_nat records) 1 in
  Z.to_nat (Z.min (overshoot / averageRecordBytes + 1) (Z.of_nat candidates)).

(** The records kept and the records at the indexes of [drop], from index [i]. *)
Fixpoint partition_at (drop : list nat) (i : nat) (rs : list JobRecord) : list JobRecord * list JobRecord :=
  match rs with
  | [] => ([], [])
  | r :: rest =>
      let '(kept, removed) := partition_at drop (S i) rest in
      if bool_decide (i ∈ drop) then (kept, r :: removed) else (r :: kept, removed)
  end.

Definition compactOldestFirst (c : Catalog) (oldestFirst : list nat) (overshoot encoded : Z) : Catalog * list JobRecord :=
  let drop := take (drop_count (length (cat_Records c)) (length oldestFirst) overshoot encoded) oldestFirst in
  let '(kept, removed) := partition_at drop 0 (cat_Records c) in
  ({| c with cat_Records := kept |}, removed).

(** One tier: the records [eligible], oldest first by [at_]; [None] when there is
    nothing to drop. *)
Definition compact_tier (eligible : JobRecord -> bool) (at_ : JobRecord -> time) (c : Catalog) (overshoot encoded : Z)
    : option (Catalog * list JobRecord) :=
  match List.filter (fun ir => eligible ir.2) (indexed (cat_Records c)) with
  | [] => None
  | candidates => Some (compactOldestFirst c (sort_by (older at_) candidates).*1 overshoot encoded)
  end.

Definition tombstone_time (r : JobRecord) : time := default 0 (jr_TombstonedAt r).

Definition compactOldestTombstones := compact_tier is_tombstoned tombstone_time.
Definition compactOldestCompleted :=
  compact_tier (fun r => negb (is_tombstoned r) && CompactableUnderCapacityPressure r) terminalTime.

Definition errOverCapacity : error :=
  ErrNew "jobs.json exceeds the safety limit with no tombstoned or completed records left to compact".

Section Encoding.
(** The bytes of a catalog document. *)
Context (encodeCatalog : Catalog -> result error string).

Definition doc_size (bytes : string) : Z := Z.of_nat (String.length bytes).

(** The loop of [encodeWithinCapacity]; every pass that continues drops at least
    one record, so the number of records plus one is enough fuel. *)
Fixpoint encode_loop (fuel : nat) (c : Catalog) (dropped : list JobRecord)
    : option (result error (string * Catalog * list JobRecord)) :=
  match fuel with
  | O => None
  | S fuel =>
      match encodeCatalog c with
      | Err e => Some (Err e)
      | Ok encoded =>
          let size := doc_size encoded in
          if size <=? maximumJobState then Some (Ok (encoded, c, dropped))
          else
            let overshoot := size - maximumJobState in
            match compactOldestTombstones c overshoot size with
            | Some (c, _) => encode_loop fuel c dropped
            | None =>
                match compactOldestCompleted c overshoot size with
                | Some (c, removed) => encode_loop fuel c (dropped ++ removed)
                | None => Some (Err errOverCapacity)
                end
            end
      end
  end.

(** The encoded document, the catalog left after compaction and the records
    dropped by the second tier. *)
Definition encodeWithinCapacity (c : Catalog) : option (result error (string * Catalog * list JobRecord)) :=
  encode_loop (S (length (cat_Records c))) c [].
End Encoding.

(** ** The assignment-time sidecar *)

Record AssignTimeEntry := mkAssignTimeEntry {
  at_PoolID : string;
  at_RunnerName : string;
  at_JobID : string;
  at_RunnerAssignedAt : time;
}.

Definition entry_key (e : AssignTimeEntry) : string := record_key (at_PoolID e) (at_RunnerName e).

(** The two indexes of [hydrateAssignTimes]; a later entry overwrites. *)
Definition times_by_key (entries : list AssignTimeEntry) : gmap string time :=
  foldl (fun m e => if IsZero (at_RunnerAssignedAt e) then m else <[entry_key e := at_RunnerAssignedAt e]> m) ∅ entries.
Definition times_by_job (entries : list AssignTimeEntry) : gmap string time :=
  foldl (fun m e => if IsZero (at_RunnerAssignedAt e) || String.eqb (at_JobID e) "" then m
                    else <[at_JobID e := at_RunnerAssignedAt e]> m) ∅ entries.

Definition hydrate_record (entries : list AssignTimeEntry) (r : JobRecord) : JobRecord :=
  match jr_RunnerAssignedAt r with
  | Some _ => r
  | None =>
      match times_by_key entries !! key_of r with
      | Some t => {| r with jr_RunnerAssignedAt := Some t |}
      | None =>
          if String.eqb (jr_JobID r) "" then r
          else match times_by_job entries !! jr_JobID r with
               | Some t => {| r with jr_RunnerAssignedAt := Some t |}
               | None => r
               end
      end
  end.

Definition hydrateAssignTimes (c : Catalog) (entries : list AssignTimeEntry) : Catalog :=
  {| c with cat_Records := map (hydrate_record entries) (cat_Records c) |}.

Definition entry_of (r : JobRecord) : option AssignTimeEntry :=
  match jr_RunnerAssignedAt r with
  | Some t => if IsZero t then None else Some (mkAssignTimeEntry (jr_PoolID r) (jr_RunnerName r) (jr_JobID r) t)
  | None => None
  end.

Definition entry_before (a b : AssignTimeEntry) : bool :=
  pair_before (at_PoolID a) (at_RunnerName a) (at_PoolID b) (at_RunnerName b).

Definition assignTimesFromCatalog (c : Catalog) : list AssignTimeEntry :=
  sort_by entry_before (omap entry_of (cat_Records c)).

(** What jobs.json keeps of a catalog: the assignment time is not encoded. *)
Definition stored_record (r : JobRecord) : JobRecord := {| r with jr_RunnerAssignedAt := None |}.
Definition stored (c : Catalog) : Catalog := {| c with cat_Records := map stored_record (cat_Records c) |}.

(** ** The drop journal *)

Record DropEntry := mkDropEntry {
  de_DroppedAt : time;
  de_PoolID : string;
  de_RunnerName : string;
  de_ContainerID : string;
  de_JobID : string;
  de_LogPath : string;
  de_DiagnosticPath : string;
}.

Definition dropEntryFromRecord (droppedAt : time) (r : JobRecord) : DropEntry :=
  mkDropEntry droppedAt (jr_PoolID r) (jr_RunnerName r) (jr_ContainerID r) (jr_JobID r) (jr_LogPath r) (jr_DiagnosticPath r).

Section Journal.
Context (encodeJournal : list DropEntry -> result error string).

(** The loop of [encodeDropJournalWithinCapacity]: the oldest entries go first.
    It leaves the entries the journal keeps. *)
Fixpoint journal_loop (fuel : nat) (entries : list DropEntry) : option (result error (list DropEntry)) :=
  match fuel with
  | O => None
  | S fuel =>
      match entries with
      | [] => match encodeJournal [] with Ok _ => Some (Ok []) | Err e => Some (Err e) end
      | _ =>
          match encodeJournal entries with
          | Err e => Some (Err e)
          | Ok encoded =>
              let size := doc_size encoded in
              if size <=? maximumJobState then Some (Ok entries)
              else
                let averageEntryBytes := Z.max (size / Z.of_nat (length entries)) 1 in
                let dropCount := Z.min ((size - maximumJobState) / averageEntryBytes + 1) (Z.of_nat (length entries)) in
                journal_loop fuel (drop (Z.to_nat dropCount) entries)
          end
      end
  end.

Definition encodeDropJournalWithinCapacity (entries : list DropEntry) : option (result error (list DropEntry)) :=
  journal_loop (S (length entries)) entries.
End Journal.

(** ** The file store *)

(** The files of the state directory, decoded: jobs.json, the sidecar and the
    journal.  [None] is a file that does not exist. *)
Record JobFiles := mkJobFiles {
  jf_jobs : option Catalog;
  jf_times : list AssignTimeEntry;
  jf_drops : list DropEntry;
}.

(** The environment of one operation: the encoders and the outcome of each
    group of file-system steps, in the order they run.  Taking the lock, then
    reading, then preparing the directory, writing and replacing jobs.json,
    writing the journal (whose failures are ignored), writing the sidecar up
    to its replace and hardening it after, and the final hardening of the
    replaced jobs.json. *)
Record StoreEnv := mkStoreEnv {
  se_encodeCatalog : Catalog -> result error string;
  se_encodeJournal : list DropEntry -> result error string;
  se_lock : option error;
  se_read : option error;
  se_prepare : option error;
  se_replace : option error;
  se_journal : option error;
  se_sidecar : option error;
  se_sidecarSettle : option error;
  se_settle : option error;
  se_unlock : option error;
  se_now : time;
}.

(** Reading and strictly decoding jobs.json, its validation, and hydration. *)
Definition loadUnlocked `{FilePath} (env : StoreEnv) (f : JobFiles) : result error Catalog :=
  match se_read env with
  | Some e => Err e
  | None => match jf_jobs f with
            | None => Err ErrJobsNotFound
            | Some c => match Validate c with
                        | Err e => Err (ErrWrap "invalid jobs.json" e)
                        | Ok () => Ok (hydrateAssignTimes c (jf_times f))
                        end
            end
  end.

(** [appendDropJournal]: best effort, never fails the save. *)
Definition appendDropJournal (env : StoreEnv) (f : JobFiles) (dropped : list JobRecord) : JobFiles :=
  if bool_decide (dropped = []) then f
  else match se_journal env with
       | Some _ => f
       | None =>
           match encodeDropJournalWithinCapacity (se_encodeJournal env)
                   (jf_drops f ++ map (dropEntryFromRecord (se_now env)) dropped) with
           | Some (Ok entries) => {| f with jf_drops := entries |}
           | _ => f
           end
       end.

(** [saveUnlocked]: nothing is visible before the atomic replace; after it the
    sidecar or the final hardening may still fail the call. *)
Definition saveUnlocked (env : StoreEnv) (f : JobFiles) (c : Catalog) : JobFiles * option error :=
  match se_prepare env with
  | Some e => (f, Some e)
  | None =>
      match encodeWithinCapacity (se_encodeCatalog env) c with
      | Some (Ok (_, c, dropped)) =>
          match se_replace env with
          | Some e => (f, Some e)
          | None =>
              let f := {| f with jf_jobs := Some (stored c) |} in
              let f := appendDropJournal env f dropped in
              match se_sidecar env with
              | Some e => (f, Some e)
              | None =>
                  let f := {| f with jf_times := assignTimesFromCatalog c |} in
                  (f, match se_sidecarSettle env with Some e => Some e | None => se_settle env end)
              end
          end
      | Some (Err e) => (f, Some e)
      | None => (f, Some errOverCapacity)
      end
  end.

(** The lock and unlock around an operation; a failed unlock joins its error. *)
Definition with_lock {A} (env : StoreEnv) (f : JobFiles) (zero : A)
    (body : JobFiles * A * option error) : JobFiles * A * option error :=
  match se_lock env with
  | Some e => (f, zero, Some (ErrWrap "lock jobs index" e))
  | None => let '(f, a, err) := body in (f, a, errors_Join [err; se_unlock env])
  end.

Definition PruneTombstones `{FilePath} (env : StoreEnv) (f : JobFiles) (before : time) : JobFiles * Z * option error :=
  if IsZero before then (f, 0, Some (ErrNew "tombstone prune cutoff is required"))
  else with_lock env f 0
    match loadUnlocked env f with
    | Err e => if is_sentinel ErrJobsNotFound e then (f, 0, None) else (f, 0, Some e)
    | Ok c =>
        let expired r := match jr_TombstonedAt r with Some t => negb (After t before) | None => false end in
        let removed := count expired (cat_Records c) in
        if removed =? 0 then (f, 0, None)
        else
          let kept := {| c with cat_Records := List.filter (fun r => negb (expired r)) (cat_Records c) |} in
          match saveUnlocked env f kept with
          | (f, None) => (f, removed, None)
          | (f, Some e) => (f, 0, Some e)
          end
    end.

(** The state of the patch loop of [UpsertMany]. *)
Record UpsertState := mkUpsertState {
  us_records : list JobRecord;
  us_index : gmap string nat;
  us_results : list JobRecord;
  us_errors : list error;
  us_changed : bool;
}.

Definition index_records (rs : list JobRecord) : gmap string nat :=
  foldl (fun m '(i, r) => <[key_of r := i]> m) ∅ (indexed rs).

Definition upsert_patch `{FilePath} (now : time) (st : UpsertState) (patch : Patch) : UpsertState :=
  let key := record_key (pt_PoolID patch) (pt_RunnerName patch) in
  let found := us_index st !! key in
  let current := match found with Some i => default JobRecord_zero (us_records st !! i) | None => JobRecord_zero end in
  match Merge current patch now with
  | Err e => {| st with us_results := us_results st ++ [JobRecord_zero]; us_errors := us_errors st ++ [e] |}
  | Ok merged =>
      let st := {| st with us_results := us_results st ++ [merged] |} in
      match found with
      | Some i => if decide (merged = current) then st
                  else {| st with us_changed := true; us_records := <[i := merged]> (us_records st) |}
      | None => {| st with us_changed := true;
                           us_index := <[key := length (us_records st)]> (us_index st);
                           us_records := us_records st ++ [merged] |}
      end
  end.

Definition upsert_all `{FilePath} (now : time) (rs : list JobRecord) (patches : list Patch) : UpsertState :=
  foldl (upsert_patch now) (mkUpsertState rs (index_records rs) [] [] false) patches.

Definition UpsertMany `{FilePath} (env : StoreEnv) (f : JobFiles) (patches : list Patch)
    : JobFiles * list JobRecord * option error :=
  with_lock env f []
    match (match loadUnlocked env f with
           | Err e => if is_sentinel ErrJobsNotFound e then Ok (mkCatalog SchemaVersion []) else Err e
           | Ok c => Ok c
           end) with
    | Err e => (f, [], Some e)
    | Ok c =>
        let st := upsert_all (se_now env) (cat_Records c) patches in
        let mergeErrors := errors_Join (map Some (us_errors st)) in
        if negb (us_changed st) then (f, us_results st, mergeErrors)
        else
          let c := Sort {| c with cat_Records := us_records st |} in
          match Validate c with
          | Err e => (f, [], Some (ErrWrap "validate jobs index" e))
          | Ok () => match saveUnlocked env f c with
                     | (f, Some e) => (f, [], Some e)
                     | (f, None) => (f, us_results st, mergeErrors)
                     end
          end
    end.

Definition Upsert `{FilePath} (env : StoreEnv) (f : JobFiles) (patch : Patch) : JobFiles * JobRecord * option error :=
  match UpsertMany env f [patch] with
  | (f, _, Some e) => (f, JobRecord_zero, Some e)
  | (f, rs, None) => (f, default JobRecord_zero (rs !! 0%nat), None)
  end.

Definition Load `{FilePath} (env : StoreEnv) (f : JobFiles) : Catalog * option error :=
  match se_lock env with
  | Some e => (Catalog_zero, Some (ErrWrap "lock jobs index" e))
  | None => match loadUnlocked env f with
            | Ok c => (c, errors_Join [se_unlock env])
            | Err e => (Catalog_zero, errors_Join [Some e; se_unlock env])
            end
  end.

(** The listener events recorded through [EventSink]. *)
Definition JobStarted_patch (pool runner job : string) (assignedAt now : time) : Patch :=
  mkPatch pool runner "" job "" "" "" 0 assignedAt now 0 0 None None.
Definition JobCompleted_patch (pool runner job res : string) (assignedAt now : time) : Patch :=
  mkPatch pool runner "" job res "" "" 0 assignedAt 0 now 0 None None.
