(* ===== verification/JobIndexFacts.v ===== *)
(** What the job index guarantees: fields are written once, tombstones are
    final, compaction terminates and never loses a running job, the sidecar
    round trip, and the validity of what is on disk. *)

From S2P Require Import Prelude Float64 Model Errors GoStrings JobIndex.
From Stdlib Require Import Ascii.

(** ** Write-once fields *)

(** A field that, once it has left its zero value, keeps its value. *)
Definition settled {A} (zero x y : A) : Prop := x <> zero -> y = x.

#[export] Instance settled_preorder {A} (zero : A) : PreOrder (settled zero).
Proof. split; unfold settled; [done|]. intros x y z Hxy Hyz Hx. rewrite Hyz; [auto|]. by rewrite Hxy. Qed.

(** [r'] keeps everything [r] had settled; a tombstoned record is final. *)
Record Extends (r r' : JobRecord) : Prop := {
  ex_identity : jr_PoolID r <> "" -> jr_PoolID r' = jr_PoolID r /\ jr_RunnerName r' = jr_RunnerName r;
  ex_container : settled "" (jr_ContainerID r) (jr_ContainerID r');
  ex_job : settled "" (jr_JobID r) (jr_JobID r');
  ex_result : settled "" (jr_Result r) (jr_Result r');
  ex_log : settled "" (jr_LogPath r) (jr_LogPath r');
  ex_diagnostic : settled "" (jr_DiagnosticPath r) (jr_DiagnosticPath r');
  ex_artifact : settled 0 (jr_ArtifactStartedAt r) (jr_ArtifactStartedAt r');
  ex_assigned : settled None (jr_RunnerAssignedAt r) (jr_RunnerAssignedAt r');
  ex_started : settled 0 (jr_JobStartedAt r) (jr_JobStartedAt r');
  ex_completed : settled 0 (jr_CompletedAt r) (jr_CompletedAt r');
  ex_finalized : settled 0 (jr_FinalizedAt r) (jr_FinalizedAt r');
  ex_tombstoned : jr_PoolID r <> "" -> is_tombstoned r = true -> r' = r;
}.

#[export] Instance Extends_preorder : PreOrder Extends.
Proof.
  split; [by constructor|]. intros r1 r2 r3 [Hi1 ? ? ? ? ? ? ? ? ? ? Ht1] [Hi2 ? ? ? ? ? ? ? ? ? ? Ht2].
  constructor; try (etransitivity; eassumption).
  - intros Hp. destruct (Hi1 Hp) as [Hp' ->%eq_sym]. destruct Hi2 as [-> ->]; [congruence|done].
  - intros Hp Ht. rewrite (Ht1 Hp Ht) in *. auto.
Qed.

Lemma mergeImmutable_ok name current incoming v :
  mergeImmutable name current incoming = Ok v ->
  settled "" current v /\ mergeImmutable name v incoming = Ok v.
Proof.
  unfold mergeImmutable, settled. destruct (String.eqb_spec incoming "") as [->|Hi]; [by intros [= <-]|].
  destruct (String.eqb_spec current ""), (String.eqb_spec current incoming); simpl; intros [= <-]; try done;
    (split; [done|]); rewrite String.eqb_refl; by rewrite andb_false_r.
Qed.

Lemma mergePath_ok `{FilePath} name current incoming v :
  mergePath name current incoming = Ok v -> settled "" current v /\ mergePath name v incoming = Ok v.
Proof.
  unfold mergePath. destruct (String.eqb incoming ""); [by intros [= <-]|].
  destruct (IsAbs incoming); [apply mergeImmutable_ok|done].
Qed.

Lemma mergeTime_ok d v : settled 0 d (mergeTime d v) /\ mergeTime (mergeTime d v) v = mergeTime d v.
Proof.
  unfold mergeTime, settled, IsZero.
  destruct (Z.eqb_spec d 0) as [->|Hd], (Z.eqb_spec v 0) as [->|Hv]; simpl; split; try done;
    rewrite ?(proj2 (Z.eqb_neq _ _) Hd), ?(proj2 (Z.eqb_neq _ _) Hv); done.
Qed.

Lemma mergeOptionalTime_ok d v :
  settled None d (mergeOptionalTime d v) /\ mergeOptionalTime (mergeOptionalTime d v) v = mergeOptionalTime d v.
Proof. unfold mergeOptionalTime, settled. destruct d, (IsZero v) eqn:Hv; simpl; by rewrite ?Hv. Qed.

(** What one successful merge of the fields does, and that repeating it does
    nothing more. *)
Lemma merge_fields_ok `{FilePath} r p r' :
  jr_TombstonedAt r = None -> merge_fields r p = Ok r' ->
  Extends r r' /\ jr_PoolID r' = jr_PoolID r /\ jr_RunnerName r' = jr_RunnerName r /\
  jr_TombstonedAt r' = pt_TombstonedAt p /\
  forall now, jr_TombstonedAt r' = None ->
    merge_fields {| r' with jr_UpdatedAt := now |} p = Ok {| r' with jr_UpdatedAt := now |}.
Proof.
  intros Hlive. unfold merge_fields, result_bind.
  destruct (mergeImmutable "container ID" _ _) as [v1|] eqn:E1; [|done].
  destruct (mergeImmutable "job ID" _ _) as [v2|] eqn:E2; [|done].
  destruct (mergeImmutable "job result" _ _) as [v3|] eqn:E3; [|done].
  destruct (mergePath "worker log" _ _) as [v4|] eqn:E4; [|done].
  destruct (mergePath "worker diagnostics" _ _) as [v5|] eqn:E5; [|done].
  apply mergeImmutable_ok in E1 as [S1 I1], E2 as [S2 I2], E3 as [S3 I3].
  apply mergePath_ok in E4 as [S4 I4], E5 as [S5 I5]. intros [= <-]. simpl. split_and!; try done.
  - constructor; simpl; try done; try apply mergeTime_ok; [apply mergeOptionalTime_ok|].
    unfold is_tombstoned. by rewrite Hlive.
  - intros now Ht. rewrite I1, I2, I3, I4, I5, Ht. simpl.
    destruct (mergeOptionalTime_ok (jr_RunnerAssignedAt r) (pt_RunnerAssignedAt p)) as [_ ->].
    rewrite !(proj2 (mergeTime_ok _ _)). by destruct (pt_Open p).
Qed.

Lemma blank_nonempty s : blank s = false -> s <> "".
Proof. by intros Hb ->. Qed.

Lemma merge_identity_ok r p e :
  merge_identity r p = Ok e -> pt_PoolID p <> "" ->
  jr_PoolID e = pt_PoolID p /\ jr_RunnerName e = pt_RunnerName p /\ jr_TombstonedAt e = jr_TombstonedAt r /\
  Extends r e /\ (jr_PoolID r <> "" -> e = r).
Proof.
  unfold merge_identity. destruct (String.eqb_spec (jr_PoolID r) "") as [H0|H0].
  - intros [= <-] Hp. simpl. split_and!; done.
  - destruct (String.eqb_spec (jr_PoolID r) (pt_PoolID p)), (String.eqb_spec (jr_RunnerName r) (pt_RunnerName p)); simpl; try done.
    by intros [= <-].
Qed.

Lemma merge_identity_same r p :
  jr_PoolID r = pt_PoolID p -> jr_RunnerName r = pt_RunnerName p -> pt_PoolID p <> "" -> merge_identity r p = Ok r.
Proof.
  intros Hp Hr Hne. unfold merge_identity. rewrite Hp, Hr, !String.eqb_refl.
  by destruct (String.eqb_spec (pt_PoolID p) "").
Qed.

Lemma Extends_updated r r' now : Extends r r' -> is_tombstoned r = false -> Extends r {| r' with jr_UpdatedAt := now |}.
Proof. intros [] Ht. constructor; simpl; try done. by rewrite Ht. Qed.

Lemma Merge_ok `{FilePath} r p now r' now' :
  Merge r p now = Ok r' -> now' <> 0 ->
  Extends r r' /\ Merge r' p now' = Ok r'.
Proof.
  unfold Merge. destruct (blank (pt_PoolID p)) eqn:B1; [done|]. destruct (blank (pt_RunnerName p)) eqn:B2; [done|].
  simpl. destruct (IsZero now); [done|]. intros Hm Hn. unfold IsZero. rewrite (proj2 (Z.eqb_neq _ _) Hn).
  apply blank_nonempty in B1. destruct (merge_identity r p) as [e|] eqn:Ei; [|done]. simpl in Hm.
  destruct (merge_identity_ok _ _ _ Ei B1) as (Hp & Hr & Ht & Hext & _).
  destruct (jr_TombstonedAt e) as [t|] eqn:Et.
  - injection Hm as <-. split; [done|]. rewrite merge_identity_same by done. simpl. by rewrite Et.
  - destruct (merge_fields e p) as [m|] eqn:Em; [|done]. simpl in Hm. injection Hm as Hm.
    destruct (merge_fields_ok e p m Et Em) as (Hx & Hmp & Hmr & Hmt & Hid).
    assert (Hr' : r' = {| m with jr_UpdatedAt := jr_UpdatedAt r' |}) by (destruct m; rewrite <- Hm; by case_decide).
    rewrite Hr'. split.
    + transitivity e; [done|]. apply Extends_updated; [done|]. unfold is_tombstoned. by rewrite Et.
    + rewrite merge_identity_same by (simpl; congruence || done). simpl.
      destruct (jr_TombstonedAt m) as [t|] eqn:Etm; [done|]. rewrite Hid by done. simpl.
      by rewrite decide_True by (by destruct m).
Qed.

(** One merge.  A patch that merges leaves every settled field of the record
    as it was and a tombstoned record untouched, and merging the same patch
    again, at any later time, changes nothing, not even the update time. *)
Theorem Merge_extends_and_is_idempotent `{FilePath} r p now r' now' :
  Merge r p now = Ok r' -> now' <> 0 -> Extends r r' /\ Merge r' p now' = Ok r'.
Proof. apply Merge_ok. Qed.

(** ** The patch loop *)

Definition pointwise_extends (rs rs' : list JobRecord) : Prop :=
  forall i r, rs !! i = Some r -> exists r', rs' !! i = Some r' /\ Extends r r'.

#[export] Instance pointwise_extends_preorder : PreOrder pointwise_extends.
Proof.
  split; [intros rs i r Hr; exists r; by split|].
  intros a b c Hab Hbc i r Hr. destruct (Hab i r Hr) as (r1 & H1 & E1). destruct (Hbc i r1 H1) as (r2 & H2 & E2).
  exists r2. split; [done|]. by transitivity r1.
Qed.

Lemma upsert_patch_extends `{FilePath} now st p :
  pointwise_extends (us_records st) (us_records (upsert_patch now st p)).
Proof.
  unfold upsert_patch. destruct (us_index st !! _) as [j|].
  - destruct (Merge _ p now) as [m|] eqn:Hm; [|reflexivity]. case_decide; [reflexivity|]. simpl.
    intros i r Hr. destruct (decide (i = j)) as [->|Hne].
    + rewrite Hr in Hm. simpl in Hm. exists m. split; [apply list_lookup_insert_eq; by eapply lookup_lt_Some|].
      by apply (Merge_ok _ _ _ _ 1) in Hm as [].
    + exists r. split; [by rewrite list_lookup_insert_ne|reflexivity].
  - destruct (Merge _ p now) as [m|]; [|reflexivity]. simpl. intros i r Hr. exists r. split; [|reflexivity].
    by apply lookup_app_l_Some.
Qed.

(** A batch of patches never rewrites history: whatever the patches, in
    whatever order and including those that conflict, every record of the
    catalog is still there with all its settled fields, and a tombstoned one is
    unchanged. *)
Theorem upsert_preserves_records `{FilePath} now rs patches i r :
  rs !! i = Some r ->
  exists r', us_records (upsert_all now rs patches) !! i = Some r' /\ Extends r r'.
Proof.
  revert i r. change (pointwise_extends rs (us_records (upsert_all now rs patches))).
  change (pointwise_extends (us_records (mkUpsertState rs (index_records rs) [] [] false))
            (us_records (upsert_all now rs patches))).
  apply (foldl_preorder (fun a b => pointwise_extends (us_records a) (us_records b))).
  - reflexivity.
  - intros ? ? ?. apply transitivity.
  - intros. apply upsert_patch_extends.
Qed.

(** ** Compaction *)

Lemma elem_of_indexed rs i r : (i, r) ∈ indexed rs <-> rs !! i = Some r.
Proof.
  unfold indexed. rewrite elem_of_lookup_imap. split.
  - by intros (j & x & [= -> ->] & Hx).
  - intros Hr. by exists i, r.
Qed.

Lemma partition_at_spec drop (rs : list JobRecord) k :
  let kept := (partition_at drop k rs).1 in
  let gone := (partition_at drop k rs).2 in
  sublist kept rs /\ (length kept + length gone = length rs)%nat /\
  (forall r, r ∈ gone -> exists i, rs !! i = Some r /\ (k + i)%nat ∈ drop) /\
  (forall i r, rs !! i = Some r -> (k + i)%nat ∈ drop -> r ∈ gone) /\
  (forall f : JobRecord -> bool, (forall i r, rs !! i = Some r -> (k + i)%nat ∈ drop -> f r = false) ->
   List.filter f kept = List.filter f rs).
Proof.
  revert k. induction rs as [|r rs IH]; intros k; [simpl; split_and!; try done; set_solver|].
  specialize (IH (S k)). simpl. destruct (partition_at drop (S k) rs) as [kept gone]. simpl in IH.
  destruct IH as (Hsub & Hlen & Hgone & Hdrop & Hfilt).
  assert (Hshift : forall i, (k + S i)%nat = (S k + i)%nat) by lia.
  case_bool_decide as Hk; simpl.
  - split_and!; [by constructor|lia| | |].
    + intros r' [->|Hin]%elem_of_cons; [exists 0%nat; by rewrite Nat.add_0_r|].
      destruct (Hgone r' Hin) as (i & ? & Hi). exists (S i). by rewrite Hshift.
    + intros [|i] r' Hi; [injection Hi as <-; left|]. rewrite Hshift. intros. right. eauto.
    + intros f Hf. rewrite (Hf 0%nat r) by (by rewrite ?Nat.add_0_r). apply Hfilt.
      intros i r' Hi Hd. apply (Hf (S i) r'); [done|]. by rewrite Hshift.
  - split_and!; [by constructor|lia| | |].
    + intros r' Hin. destruct (Hgone r' Hin) as (i & ? & Hi). exists (S i). by rewrite Hshift.
    + intros [|i] r' Hi; [by rewrite Nat.add_0_r|]. rewrite Hshift. eauto.
    + intros f Hf. rewrite Hfilt; [done|].
      intros i r' Hi Hd. apply (Hf (S i) r'); [done|]. by rewrite Hshift.
Qed.

(** The shape of one compaction pass: what is kept is a sublist, what goes is
    eligible, and something goes. *)
Record Compacted (eligible : JobRecord -> bool) (c c' : Catalog) (removed : list JobRecord) : Prop := {
  cp_schema : cat_SchemaVersion c' = cat_SchemaVersion c;
  cp_sublist : sublist (cat_Records c') (cat_Records c);
  cp_shorter : (length (cat_Records c') < length (cat_Records c))%nat;
  cp_removed : Forall (fun r => r ∈ cat_Records c /\ eligible r = true) removed;
  cp_keeps : forall f : JobRecord -> bool, (forall r, f r = true -> eligible r = false) ->
    List.filter f (cat_Records c') = List.filter f (cat_Records c);
}.

Lemma compact_tier_spec eligible at_ c overshoot encoded c' removed :
  0 < overshoot -> compact_tier eligible at_ c overshoot encoded = Some (c', removed) ->
  Compacted eligible c c' removed.
Proof.
  intros Hov. unfold compact_tier. set (cands := List.filter _ _).
  assert (Hcands : forall i, i ∈ (sort_by (older at_) cands).*1 ->
            exists r, cat_Records c !! i = Some r /\ eligible r = true).
  { intros i Hi. rewrite (sort_by_perm (older at_) cands) in Hi.
    apply list_elem_of_fmap in Hi as ([j r] & -> & Hin). apply list_elem_of_In, filter_In in Hin as [Hin He].
    exists r. split; [|done]. by apply elem_of_indexed, list_elem_of_In. }
  assert (Hlen : length (sort_by (older at_) cands).*1 = length cands).
  { rewrite length_fmap. apply Permutation_length, sort_by_perm. }
  assert (Hne : cands <> [] -> (0 < drop_count (length (cat_Records c)) (length cands) overshoot encoded)%nat).
  { intros Hc. destruct cands; [done|]. unfold drop_count.
    assert (0 <= overshoot / Z.max (encoded / Z.of_nat (length (cat_Records c))) 1) by (apply Z.div_pos; lia). simpl length. lia. }
  destruct cands as [|cand cands'] eqn:Hc; [done|]. rewrite <- Hc in *. specialize (Hne ltac:(by rewrite Hc)).
  unfold compactOldestFirst. rewrite Hlen. set (n := drop_count _ _ _ _) in *. set (order := (sort_by _ _).*1) in *.
  destruct (partition_at_spec (take n order) (cat_Records c) 0) as (Hsub & Hlen' & Hgone & Hdrop & Hfilt).
  destruct (partition_at _ _ _) as [kept gone]. simpl in *. intros [= <- <-].
  assert (Htake : forall i, i ∈ take n order -> i ∈ order) by (intros i Hi; by apply (sublist_subseteq _ _ (sublist_take order n))).
  constructor; simpl; try done.
  - assert (gone <> []); [|destruct gone; [done|]; simpl in *; lia].
    assert (exists i, i ∈ take n order) as [i Hi].
    { destruct order as [|i order']; [by rewrite Hc in Hlen|]. exists i. destruct n; [lia|]. left. }
    destruct (Hcands i (Htake i Hi)) as (r & Hr & _). intros ->. by specialize (Hdrop i r Hr Hi) as ?%not_elem_of_nil.
  - apply Forall_forall. intros r Hr. destruct (Hgone r Hr) as (i & Hi & Hd). split; [by eapply list_elem_of_lookup_2|].
    destruct (Hcands i (Htake i Hd)) as (r' & Hr' & He). congruence.
  - intros f Hf. apply Hfilt. intros i r Hi Hd. destruct (Hcands i (Htake i Hd)) as (r' & Hr' & He).
    destruct (f r) eqn:Hfr; [|done]. apply Hf in Hfr. congruence.
Qed.

(** What any number of passes preserves. *)
Record Shrunk (c c' : Catalog) : Prop := {
  sh_schema : cat_SchemaVersion c' = cat_SchemaVersion c;
  sh_sublist : sublist (cat_Records c') (cat_Records c);
  sh_keeps : forall f : JobRecord -> bool, (forall r, f r = true -> CompactableUnderCapacityPressure r = false) ->
    List.filter f (cat_Records c') = List.filter f (cat_Records c);
}.

#[export] Instance Shrunk_preorder : PreOrder Shrunk.
Proof.
  split; [by constructor|]. intros a b c [S1 L1 K1] [S2 L2 K2]. constructor; [congruence|by etransitivity|].
  intros f Hf. by rewrite K2, K1.
Qed.

Lemma tombstoned_compactable r : is_tombstoned r = true -> CompactableUnderCapacityPressure r = true.
Proof. unfold CompactableUnderCapacityPressure. by intros ->. Qed.

Lemma compacted_shrunk eligible c c' removed :
  (forall r, eligible r = true -> CompactableUnderCapacityPressure r = true) ->
  Compacted eligible c c' removed -> Shrunk c c'.
Proof.
  intros He [Hs Hl _ _ Hk]. constructor; [done|done|]. intros f Hf. apply Hk. intros r Hr%Hf.
  destruct (eligible r) eqn:Hel; [|done]. apply He in Hel. congruence.
Qed.

(** A completed record is out of both tiers only when it must be kept. *)
Lemma no_candidates eligible at_ c overshoot encoded :
  compact_tier eligible at_ c overshoot encoded = None -> Forall (fun r => eligible r = false) (cat_Records c).
Proof.
  unfold compact_tier. destruct (List.filter _ _) as [|x l] eqn:Hf; [|by destruct (compactOldestFirst _ _ _ _)].
  intros _. apply Forall_forall. intros r (i & Hi)%list_elem_of_lookup. destruct (eligible r) eqn:He; [|done].
  assert (Hin : In (i, r) (List.filter (fun ir => eligible ir.2) (indexed (cat_Records c)))).
  { apply filter_In. split; [|done]. by apply list_elem_of_In, elem_of_indexed. }
  by rewrite Hf in Hin.
Qed.

Section EncodeLoop.
Context (encodeCatalog : Catalog -> result error string).

(** The outcome of the encode loop. *)
Definition encoded_outcome (c : Catalog) (dropped : list JobRecord) (res : result error (string * Catalog * list JobRecord)) : Prop :=
  match res with
  | Ok (bytes, c', dropped') =>
      doc_size bytes <= maximumJobState /\ encodeCatalog c' = Ok bytes /\ Shrunk c c' /\
      exists more, dropped' = dropped ++ more /\
        Forall (fun r => r ∈ cat_Records c /\ is_tombstoned r = false /\ CompactableUnderCapacityPressure r = true) more
  | Err e =>
      exists c', Shrunk c c' /\
        (encodeCatalog c' = Err e \/
         e = errOverCapacity /\ Forall (fun r => CompactableUnderCapacityPressure r = false) (cat_Records c'))
  end.

(** The records the second tier may drop from a catalog. *)
Definition droppable (c : Catalog) (r : JobRecord) : Prop :=
  r ∈ cat_Records c /\ is_tombstoned r = false /\ CompactableUnderCapacityPressure r = true.

Lemma outcome_after_pass c c1 dropped removed res :
  Shrunk c c1 -> Forall (droppable c) removed ->
  encoded_outcome c1 (dropped ++ removed) res -> encoded_outcome c dropped res.
Proof.
  intros Hsh Hrem. destruct res as [[[b c'] d]|e]; simpl.
  - intros (Hb & Hec & Hs & more & -> & Hmore). split_and!; [done|done|by etransitivity|].
    exists (removed ++ more). rewrite app_assoc. split; [done|]. apply Forall_app. split; [done|].
    eapply Forall_impl; [exact Hmore|]. intros r (Hin & Hr). split; [|done].
    by apply (sublist_subseteq _ _ (sh_sublist _ _ Hsh)).
  - intros (c' & Hs & Hcase). exists c'. split; [by etransitivity|done].
Qed.

Lemma encode_loop_ok fuel c dropped :
  (length (cat_Records c) < fuel)%nat ->
  exists res, encode_loop encodeCatalog fuel c dropped = Some res /\ encoded_outcome c dropped res.
Proof.
  revert c dropped. induction fuel as [|fuel IH]; intros c dropped Hfuel; [lia|]. simpl.
  destruct (encodeCatalog c) as [bytes|e] eqn:He.
  2: { eexists. split; [done|]. exists c. split; [reflexivity|by left]. }
  destruct (doc_size bytes <=? maximumJobState) eqn:Hsize; zb.
  { eexists. split; [done|]. split_and!; [done|done|reflexivity|]. exists []. by rewrite app_nil_r. }
  assert (Hov : 0 < doc_size bytes - maximumJobState) by lia.
  destruct (compactOldestTombstones c _ _) as [[c1 r1]|] eqn:H1.
  { apply compact_tier_spec in H1 as Hc; [|done]. pose proof (cp_shorter _ _ _ _ Hc).
    destruct (IH c1 dropped) as (res & -> & Hres); [lia|]. exists res. split; [done|].
    apply (outcome_after_pass c c1 dropped []); [|done|by rewrite app_nil_r].
    apply (compacted_shrunk is_tombstoned _ _ r1); [apply tombstoned_compactable|done]. }
  destruct (compactOldestCompleted c _ _) as [[c1 r1]|] eqn:H2.
  { apply compact_tier_spec in H2 as Hc; [|done]. pose proof (cp_shorter _ _ _ _ Hc).
    destruct (IH c1 (dropped ++ r1)) as (res & -> & Hres); [lia|]. exists res. split; [done|].
    apply (outcome_after_pass c c1 dropped r1); [|eapply Forall_impl; [exact (cp_removed _ _ _ _ Hc)|]|done].
    - refine (compacted_shrunk _ _ _ _ _ Hc). intros r Hr. simpl in Hr. by zb.
    - intros r [Hin Hr]. simpl in Hr. zb. by split_and!. }
  eexists. split; [done|]. exists c. split; [reflexivity|]. right. split; [done|].
  apply no_candidates in H1, H2. rewrite Forall_forall in *. intros r Hr. specialize (H2 r Hr). by rewrite (H1 r Hr) in H2.
Qed.
End EncodeLoop.

(** Capacity compaction always finishes: every pass drops a record, so the
    loop ends within one pass per record.  It ends with a document within the
    cap of the catalog it left, or with an error only when the encoder failed
    or no record that may be dropped is left. *)
Theorem encodeWithinCapacity_terminates encodeCatalog c :
  exists res, encodeWithinCapacity encodeCatalog c = Some res /\ encoded_outcome encodeCatalog c [] res.
Proof. apply encode_loop_ok. lia. Qed.

(** ** Running jobs survive compaction *)

Lemma find_sublist {A} (f g : A -> bool) (l' l : list A) x :
  sublist l' l -> List.filter f l' = List.filter f l -> (forall y, f y = true -> g y = true) ->
  List.find g l = Some x -> f x = true -> List.find g l' = Some x.
Proof.
  intros Hsub Hfilt Hfg. revert Hfilt. induction Hsub as [|y l' l Hsub IH|y l' l Hsub IH]; simpl; intros Hfilt; [done| |].
  - destruct (g y) eqn:Hg; [done|]. apply IH. destruct (f y) eqn:Hf; [by apply Hfg in Hf; congruence|done].
  - destruct (g y) eqn:Hg.
    + intros [= ->] Hf. rewrite Hf in Hfilt. exfalso.
      assert (length (List.filter f l') <= length (List.filter f l))%nat.
      { clear -Hsub. induction Hsub; simpl; repeat case_match; simpl; lia. }
      rewrite Hfilt in *. simpl in *. lia.
    + apply IH. destruct (f y) eqn:Hf; [by apply Hfg in Hf; congruence|done].
Qed.

Lemma running_not_compactable pool runner r :
  live_for pool runner r && job_running r = true -> CompactableUnderCapacityPressure r = false.
Proof.
  unfold live_for, job_running, CompactableUnderCapacityPressure. intros Hr. zb.
  destruct (is_tombstoned r); [done|]. split_if; [done|].
  repeat match goal with Hb : _ = false |- _ => rewrite Hb | Hb : IsZero _ = true |- _ => rewrite Hb end. done.
Qed.

(** Compaction never loses a running job: whatever the encoder and however
    much has to go, a runner whose record says its job is running is still
    found with the same job afterwards, so its worker stays marked busy. *)
Theorem compaction_keeps_running_jobs encodeCatalog c bytes c' dropped pool runner job :
  encodeWithinCapacity encodeCatalog c = Some (Ok (bytes, c', dropped)) ->
  ActiveJob c pool runner = (job, true) -> ActiveJob c' pool runner = (job, true).
Proof.
  destruct (encode_loop_ok encodeCatalog (S (length (cat_Records c))) c []) as (res & Heq & Hres); [lia|].
  unfold encodeWithinCapacity. rewrite Heq. intros [= ->]. destruct Hres as (_ & _ & [_ Hsub Hkeep] & _).
  unfold ActiveJob. destruct (_ || _); [done|]. destruct (List.find _ (cat_Records c)) as [r|] eqn:Hf; [|done].
  intros [= <- Hrun]. assert (Hlive : live_for pool runner r = true) by (by destruct (List.find_some _ _ Hf)).
  rewrite (find_sublist (fun r => live_for pool runner r && job_running r) _ _ (cat_Records c) r); [by rewrite Hrun|done| | |done|].
  - apply Hkeep, running_not_compactable.
  - intros y Hy. by zb.
  - by rewrite Hlive, Hrun.
Qed.

(** ** Validity as a property of the records *)

Definition record_ok `{FilePath} (r : JobRecord) : Prop :=
  jr_PoolID r <> "" /\ jr_RunnerName r <> "" /\ jr_UpdatedAt r <> 0 /\
  path_valid (jr_LogPath r) = true /\ path_valid (jr_DiagnosticPath r) = true.

(** The identifiers that must not repeat. *)
Definition nonempty_ids (f : JobRecord -> string) (rs : list JobRecord) : list string :=
  List.filter (fun id => negb (String.eqb id "")) (map f rs).

Record RecordsOk `{FilePath} (rs : list JobRecord) : Prop := {
  ro_records : Forall record_ok rs;
  ro_keys : NoDup (map key_of rs);
  ro_jobs : NoDup (nonempty_ids jr_JobID rs);
  ro_containers : NoDup (nonempty_ids jr_ContainerID rs);
}.

(** The same relative to what has been read before. *)
Record RecordsOkAfter `{FilePath} (seen : SeenIDs) (rs : list JobRecord) : Prop := {
  ra_ok : RecordsOk rs;
  ra_keys : Forall (fun k => k ∉ seen_keys seen) (map key_of rs);
  ra_jobs : Forall (fun k => k ∉ seen_jobs seen) (nonempty_ids jr_JobID rs);
  ra_containers : Forall (fun k => k ∉ seen_containers seen) (nonempty_ids jr_ContainerID rs);
}.

(** One identifier column of the induction. *)
Lemma fresh_column (f : JobRecord -> string) r rs (s : gset string) :
  (NoDup (nonempty_ids f (r :: rs)) /\ Forall (fun k => k ∉ s) (nonempty_ids f (r :: rs))) <->
  (fresh_id (f r) s = true /\ NoDup (nonempty_ids f rs) /\ Forall (fun k => k ∉ add_nonempty (f r) s) (nonempty_ids f rs)).
Proof.
  unfold nonempty_ids, fresh_id, add_nonempty. simpl. destruct (String.eqb_spec (f r) "") as [He|He]; simpl; [tauto|].
  rewrite NoDup_cons, Forall_cons, negb_true_iff, bool_decide_eq_false. rewrite !Forall_forall. set_solver.
Qed.

Lemma validate_record_spec `{FilePath} seen r seen' :
  validate_record seen r = Ok seen' <->
  record_ok r /\ (key_of r ∉ seen_keys seen) /\ fresh_id (jr_JobID r) (seen_jobs seen) = true /\
  fresh_id (jr_ContainerID r) (seen_containers seen) = true /\
  seen' = {| seen_keys := {[key_of r]} ∪ seen_keys seen;
             seen_jobs := add_nonempty (jr_JobID r) (seen_jobs seen);
             seen_containers := add_nonempty (jr_ContainerID r) (seen_containers seen) |}.
Proof.
  unfold validate_record, record_ok, IsZero.
  destruct (String.eqb_spec (jr_PoolID r) ""), (String.eqb_spec (jr_RunnerName r) ""), (Z.eqb_spec (jr_UpdatedAt r) 0); simpl;
    try (split; [done|]; intros ((? & ? & ? & _) & _); done).
  case_bool_decide; [split; [done|]; intros (_ & ? & _); done|].
  destruct (fresh_id (jr_JobID r) _); simpl; [|split; [done|]; intros (_ & _ & ? & _); done].
  destruct (fresh_id (jr_ContainerID r) _); simpl; [|split; [done|]; intros (_ & _ & _ & ? & _); done].
  destruct (path_valid (jr_LogPath r)), (path_valid (jr_DiagnosticPath r)); simpl;
    try (split; [done|]; intros ((_ & _ & _ & ? & ?) & _); done).
  split; [intros [= <-]; by split_and!|]. by intros (_ & _ & _ & _ & ->).
Qed.

Lemma validate_records_spec `{FilePath} seen rs : validate_records seen rs = Ok () <-> RecordsOkAfter seen rs.
Proof.
  revert seen. induction rs as [|r rs IH]; intros seen; simpl.
  { split; [|done]. intros _. repeat constructor. }
  destruct (validate_record seen r) as [seen'|e] eqn:Hv; simpl.
  - apply validate_record_spec in Hv as (Hok & Hk & Hj & Hc & ->). rewrite IH. split.
    + intros [[Hr Hks Hjs Hcs] Ak Aj Ac]. simpl in *.
      destruct (proj2 (fresh_column jr_JobID r rs (seen_jobs seen))) as [Nj Fj]; [done|].
      destruct (proj2 (fresh_column jr_ContainerID r rs (seen_containers seen))) as [Nc Fc]; [done|].
      rewrite Forall_forall in Ak. constructor; [constructor|..]; simpl; try done.
      * by constructor.
      * constructor; [|done]. set_solver.
      * constructor; [done|]. apply Forall_forall. set_solver.
    + intros [[Hr Hks Hjs Hcs] Ak Aj Ac]. simpl in *.
      destruct (proj1 (fresh_column jr_JobID r rs (seen_jobs seen))) as (_ & Nj & Fj); [done|].
      destruct (proj1 (fresh_column jr_ContainerID r rs (seen_containers seen))) as (_ & Nc & Fc); [done|].
      apply Forall_cons in Hr as [_ Hr]. apply NoDup_cons in Hks as [Hnk Hks]. apply Forall_cons in Ak as [_ Ak].
      rewrite Forall_forall in Ak. constructor; [by constructor|..]; simpl; try done. apply Forall_forall. set_solver.
  - split; [done|]. intros [[Hr Hks Hjs Hcs] Ak Aj Ac]. simpl in *. exfalso.
    destruct (proj1 (fresh_column jr_JobID r rs (seen_jobs seen))) as (Fj & _); [done|].
    destruct (proj1 (fresh_column jr_ContainerID r rs (seen_containers seen))) as (Fc & _); [done|].
    apply Forall_cons in Hr as [Hr _], Ak as [Hk _].
    pose proof (proj2 (validate_record_spec seen r _) (conj Hr (conj Hk (conj Fj (conj Fc eq_refl))))). congruence.
Qed.

Lemma Validate_spec `{FilePath} c : Validate c = Ok () <-> cat_SchemaVersion c = SchemaVersion /\ RecordsOk (cat_Records c).
Proof.
  unfold Validate. destruct (Z.eqb_spec (cat_SchemaVersion c) SchemaVersion); simpl; [|split; [done|by intros []]].
  rewrite validate_records_spec. split; [intros []; by split|]. intros [_ Hok].
  constructor; [done|..]; apply Forall_forall; set_solver.
Qed.

(** Dropping, reordering or stripping records keeps a catalog valid. *)
Lemma nonempty_ids_sublist f rs' rs : sublist rs' rs -> sublist (nonempty_ids f rs') (nonempty_ids f rs).
Proof.
  unfold nonempty_ids. induction 1 as [|r l' l Hs IH|r l' l Hs IH]; simpl; [done| |]; destruct (negb _); try done; by constructor.
Qed.

Lemma RecordsOk_sublist `{FilePath} rs' rs : sublist rs' rs -> RecordsOk rs -> RecordsOk rs'.
Proof.
  intros Hs [Hr Hk Hj Hc]. constructor.
  - rewrite Forall_forall in *. intros r Hin. by apply Hr, (sublist_subseteq _ _ Hs).
  - eapply sublist_NoDup; [exact Hk|]. clear -Hs. induction Hs; simpl; by constructor.
  - by eapply sublist_NoDup; [|apply nonempty_ids_sublist, Hs].
  - by eapply sublist_NoDup; [|apply nonempty_ids_sublist, Hs].
Qed.

Lemma RecordsOk_map `{FilePath} (g : JobRecord -> JobRecord) rs :
  (forall r, key_of (g r) = key_of r /\ jr_JobID (g r) = jr_JobID r /\ jr_ContainerID (g r) = jr_ContainerID r /\
             (record_ok r -> record_ok (g r))) ->
  RecordsOk rs -> RecordsOk (map g rs).
Proof.
  intros Hg [Hr Hk Hj Hc].
  assert (Hcol : forall f : JobRecord -> string, (forall r, f (g r) = f r) -> map f (map g rs) = map f rs).
  { intros f Hf. rewrite map_map. by apply map_ext. }
  constructor; unfold nonempty_ids; rewrite ?Hcol by apply Hg; try done.
  apply Forall_map. eapply Forall_impl; [exact Hr|]. intros r. apply Hg.
Qed.

Lemma RecordsOk_perm `{FilePath} rs' rs : rs' ≡ₚ rs -> RecordsOk rs -> RecordsOk rs'.
Proof.
  intros Hp [Hr Hk Hj Hc].
  assert (Hids : forall f, nonempty_ids f rs' ≡ₚ nonempty_ids f rs).
  { intros f. unfold nonempty_ids. clear -Hp. induction Hp as [|x l l' _ IH|x y l|l l' l'' _ IH1 _ IH2]; simpl; [done| | |by etransitivity].
    - destruct (negb _); by rewrite ?IH.
    - repeat destruct (negb _); try done. apply Permutation_swap. }
  constructor; rewrite ?Hids; try done; [by rewrite Hp|]. change (NoDup (key_of <$> rs')). by rewrite Hp.
Qed.

Lemma filter_sublist {A} (f : A -> bool) l : sublist (List.filter f l) l.
Proof. induction l as [|x l IH]; simpl; [done|]. destruct (f x); by constructor. Qed.

(** ** The files on disk stay valid *)

Definition files_ok `{FilePath} (f : JobFiles) : Prop :=
  match jf_jobs f with Some c => Validate c = Ok () | None => True end.

Lemma stored_ok `{FilePath} c : Validate c = Ok () -> Validate (stored c) = Ok ().
Proof. rewrite !Validate_spec. intros [Hs Hr]. split; [done|]. by apply RecordsOk_map. Qed.

Lemma shrunk_ok `{FilePath} c c' : Shrunk c c' -> Validate c = Ok () -> Validate c' = Ok ().
Proof.
  rewrite !Validate_spec. intros [Hs Hl _] [Hv Hr]. split; [congruence|]. by eapply RecordsOk_sublist.
Qed.

Lemma hydrate_ok `{FilePath} c times : Validate c = Ok () -> Validate (hydrateAssignTimes c times) = Ok ().
Proof.
  rewrite !Validate_spec. intros [Hs Hr]. split; [done|]. apply RecordsOk_map; [|done].
  intros r. unfold hydrate_record. by repeat case_match.
Qed.

Lemma appendDropJournal_jobs env f dropped : jf_jobs (appendDropJournal env f dropped) = jf_jobs f.
Proof. unfold appendDropJournal. by repeat case_match. Qed.

Lemma saveUnlocked_ok `{FilePath} env f c : Validate c = Ok () -> files_ok f -> files_ok (saveUnlocked env f c).1.
Proof.
  intros Hc Hf. unfold saveUnlocked. destruct (se_prepare env); [done|].
  destruct (encode_loop_ok (se_encodeCatalog env) (S (length (cat_Records c))) c []) as (res & Heq & Hres); [lia|].
  unfold encodeWithinCapacity. rewrite Heq. destruct res as [[[b c'] dropped]|e]; [|done].
  destruct (se_replace env); [done|]. destruct Hres as (_ & _ & Hsh & _).
  assert (Hok : Validate (stored c') = Ok ()) by (apply stored_ok; by eapply shrunk_ok).
  destruct (se_sidecar env); unfold files_ok; simpl; by rewrite appendDropJournal_jobs.
Qed.

Lemma loadUnlocked_ok `{FilePath} env f c : loadUnlocked env f = Ok c -> Validate c = Ok ().
Proof.
  unfold loadUnlocked. destruct (se_read env); [done|]. destruct (jf_jobs f) as [c0|]; [|done].
  destruct (Validate c0) as [[]|] eqn:Hv; [|done]. intros [= <-]. by apply hydrate_ok.
Qed.

(** The index on disk is always loadable.  Whatever the environment does
    (lock, read, write, replace, sidecar and unlock failures at any point, any
    encoder), a batch of patches and a prune leave a valid jobs.json where
    there was one or none; what they store is never rejected by the next load. *)
Theorem job_store_stays_valid `{FilePath} env f patches before :
  files_ok f ->
  files_ok (UpsertMany env f patches).1.1 /\ files_ok (PruneTombstones env f before).1.1.
Proof.
  intros Hf. split.
  - unfold UpsertMany, with_lock. destruct (se_lock env); [done|].
    destruct (match loadUnlocked env f with Ok c => _ | Err e => _ end) as [c|e]; [|done].
    destruct (negb (us_changed _)); [done|]. destruct (Validate _) as [[]|] eqn:Hv; [|done].
    pose proof (saveUnlocked_ok env f _ Hv Hf) as Hs. destruct (saveUnlocked _ _ _) as [f' [e|]]; done.
  - unfold PruneTombstones, with_lock. destruct (IsZero before); [done|]. destruct (se_lock env); [done|].
    destruct (loadUnlocked env f) as [c|e] eqn:Hl; [|by destruct (is_sentinel _ _)].
    destruct (_ =? 0); [done|].
    pose proof (saveUnlocked_ok env f) as Hs. specialize (fun c H => Hs c H Hf).
    match goal with |- context [saveUnlocked env f ?c'] => specialize (Hs c'); destruct (saveUnlocked env f c') as [f' [e|]] end;
      apply Hs; apply loadUnlocked_ok in Hl; apply Validate_spec in Hl as [Hv Hr]; apply Validate_spec; (split; [done|]);
      (eapply RecordsOk_sublist; [|exact Hr]); simpl; apply filter_sublist.
Qed.

(** ** The sidecar round trip *)

Lemma times_by_key_spec entries k t :
  NoDup (map entry_key entries) -> Forall (fun e => at_RunnerAssignedAt e <> 0) entries ->
  times_by_key entries !! k = Some t <-> exists e, e ∈ entries /\ entry_key e = k /\ at_RunnerAssignedAt e = t.
Proof.
  unfold times_by_key. induction entries as [|e entries IH] using rev_ind; intros Hnd Hz.
  { simpl. rewrite lookup_empty. split; [done|]. intros (e & He & _). set_solver. }
  rewrite map_app in Hnd. apply NoDup_app in Hnd as (Hnd & Hd & _). apply Forall_app in Hz as [Hz He].
  apply Forall_cons in He as [He _]. rewrite foldl_app. simpl. unfold IsZero. rewrite (proj2 (Z.eqb_neq _ _) He).
  rewrite lookup_insert. case_decide as Hk.
  - split; [intros [= <-]; exists e; set_solver|].
    intros (e' & [Hin|Hin%list_elem_of_singleton]%elem_of_app & Hk' & <-); [|by subst].
    exfalso. apply (Hd (entry_key e')); [by apply (list_elem_of_fmap_2 entry_key)|]. simpl. set_solver.
  - rewrite IH by done. split.
    + intros (e' & Hin & ?). exists e'. split; [set_solver|done].
    + intros (e' & [Hin|Hin%list_elem_of_singleton]%elem_of_app & ?); [by exists e'|]. naive_solver.
Qed.

Lemma times_by_job_elem entries j t :
  times_by_job entries !! j = Some t ->
  exists e, e ∈ entries /\ at_JobID e = j /\ at_RunnerAssignedAt e = t /\ j <> "".
Proof.
  unfold times_by_job. induction entries as [|e entries IH] using rev_ind; [simpl; by rewrite lookup_empty|].
  rewrite foldl_app. simpl. destruct (IsZero _); simpl.
  { intros (e' & Hin & ?)%IH. exists e'. split; [set_solver|done]. }
  destruct (String.eqb_spec (at_JobID e) "").
  { intros (e' & Hin & ?)%IH. exists e'. split; [set_solver|done]. }
  rewrite lookup_insert. case_decide as Hk; [intros [= <-]; exists e; set_solver|].
  intros (e' & Hin & ?)%IH. exists e'. split; [set_solver|done].
Qed.

Lemma key_determines {A} (f : A -> string) l x y : NoDup (map f l) -> x ∈ l -> y ∈ l -> f x = f y -> x = y.
Proof.
  induction l as [|z l IH]; simpl; intros Hnd Hx Hy Hf; [set_solver|]. apply NoDup_cons in Hnd as [Hz Hnd].
  apply elem_of_cons in Hx as [->|Hx], Hy as [->|Hy]; [done| | |by apply IH].
  - exfalso. apply Hz. rewrite Hf. by apply (list_elem_of_fmap_2 f).
  - exfalso. apply Hz. rewrite <- Hf. by apply (list_elem_of_fmap_2 f).
Qed.

Lemma nonempty_id_determines f rs x y :
  NoDup (nonempty_ids f rs) -> x ∈ rs -> y ∈ rs -> f x = f y -> f x <> "" -> x = y.
Proof.
  intros Hnd Hx Hy Hf Hne. apply (key_determines f (List.filter (fun r => negb (String.eqb (f r) "")) rs)); [| | |done].
  - unfold nonempty_ids in Hnd. clear -Hnd. induction rs as [|r rs IH]; simpl in *; [constructor|].
    destruct (negb _); simpl in *; [|auto]. apply NoDup_cons in Hnd as [Hr Hnd]. constructor; [|auto].
    intros (r' & Heq & Hin)%list_elem_of_fmap. apply Hr. rewrite Heq.
    apply list_elem_of_In, filter_In in Hin as [Hin Hr']. apply list_elem_of_In, filter_In. split; [by apply in_map|done].
  - apply list_elem_of_In, filter_In. split; [by apply list_elem_of_In|]. by destruct (String.eqb_spec (f x) "").
  - apply list_elem_of_In, filter_In. split; [by apply list_elem_of_In|]. rewrite <- Hf. by destruct (String.eqb_spec (f x) "").
Qed.

Lemma entry_of_spec r e :
  entry_of r = Some e ->
  entry_key e = key_of r /\ at_JobID e = jr_JobID r /\ jr_RunnerAssignedAt r = Some (at_RunnerAssignedAt e) /\ at_RunnerAssignedAt e <> 0.
Proof.
  unfold entry_of. destruct (jr_RunnerAssignedAt r) as [t|]; [|done]. unfold IsZero. destruct (Z.eqb_spec t 0); [done|].
  by intros [= <-].
Qed.

Lemma elem_of_sidecar c e : e ∈ assignTimesFromCatalog c <-> exists r, r ∈ cat_Records c /\ entry_of r = Some e.
Proof. unfold assignTimesFromCatalog. by rewrite elem_of_sort_by, list_elem_of_omap. Qed.

Lemma sidecar_keys c : NoDup (map key_of (cat_Records c)) -> NoDup (map entry_key (assignTimesFromCatalog c)).
Proof.
  intros Hnd. change (NoDup (entry_key <$> assignTimesFromCatalog c)). unfold assignTimesFromCatalog. rewrite sort_by_perm.
  eapply sublist_NoDup; [exact Hnd|]. generalize (cat_Records c). intros rs.
  induction rs as [|r rs IH]; simpl; [done|]. destruct (entry_of r) as [e|] eqn:He; [|by constructor].
  apply entry_of_spec in He as (<- & _). by constructor.
Qed.

(** The assignment-time sidecar loses nothing.  The times jobs.json cannot
    hold are written beside it; loading a valid catalog back from the two files
    restores exactly the catalog that was saved. *)
Theorem sidecar_round_trip `{FilePath} c :
  Validate c = Ok () -> Forall (fun r => jr_RunnerAssignedAt r <> Some 0) (cat_Records c) ->
  hydrateAssignTimes (stored c) (assignTimesFromCatalog c) = c.
Proof.
  intros [_ [_ Hk Hj _]]%Validate_spec Hz. pose proof (sidecar_keys c Hk) as Hsk.
  assert (Hnz : Forall (fun e => at_RunnerAssignedAt e <> 0) (assignTimesFromCatalog c)).
  { apply Forall_forall. intros e (r & _ & He)%elem_of_sidecar. by apply entry_of_spec in He as (_ & _ & _ & ?). }
  unfold hydrateAssignTimes, stored. destruct c as [v rs]. simpl in *. f_equal. rewrite map_map.
  transitivity (map id rs); [|apply map_id]. apply map_ext_in. intros r Hr%list_elem_of_In. unfold hydrate_record, stored_record. simpl.
  change (key_of _) with (key_of r). destruct (jr_RunnerAssignedAt r) as [t|] eqn:Ht.
  - assert (Hlook : times_by_key (assignTimesFromCatalog (mkCatalog v rs)) !! key_of r = Some t).
    { apply times_by_key_spec; [done|done|]. exists (mkAssignTimeEntry (jr_PoolID r) (jr_RunnerName r) (jr_JobID r) t).
      split; [|done]. apply elem_of_sidecar. exists r. split; [done|]. unfold entry_of, IsZero. rewrite Ht.
      destruct (Z.eqb_spec t 0) as [->|]; [|done]. rewrite Forall_forall in Hz. by specialize (Hz r Hr). }
    rewrite Hlook. destruct r. simpl in *. by rewrite Ht.
  - destruct (times_by_key _ !! _) as [t|] eqn:Hlook.
    { apply times_by_key_spec in Hlook as (e & (r' & Hr' & He)%elem_of_sidecar & Hke & _); [|done..].
      apply entry_of_spec in He as (Hke' & _ & Hs & _). simpl in Hr'.
      assert (r' = r) as -> by (apply (key_determines key_of rs); done || congruence). congruence. }
    destruct (String.eqb_spec (jr_JobID r) ""); [destruct r; simpl in *; congruence|].
    destruct (times_by_job _ !! _) as [t|] eqn:Hlj; [|destruct r; simpl in *; congruence].
    apply times_by_job_elem in Hlj as (e & (r' & Hr' & He)%elem_of_sidecar & Hje & _).
    apply entry_of_spec in He as (_ & Hje' & Hs & _). simpl in Hr'.
    assert (r' = r) as -> by (apply (nonempty_id_determines jr_JobID rs); done || congruence). congruence.
Qed.

(** ** Concrete instances *)

(** Drive-letter paths, already clean. *)
Definition drive_paths : FilePath := {|
  IsAbs s := match s with String _ (String c _) => Ascii.eqb c ":"%char | _ => false end;
  Clean s := s;
|}.

Definition sample_patch : Patch := JobStarted_patch "org" "runner-1" "job-7" 90 100.
Definition sample_record : JobRecord :=
  mkJobRecord "org" "runner-1" "" "job-7" "" "" "" 0 (Some 90) 100 0 0 5 false None.
Definition sample_catalog : Catalog :=
  mkCatalog 1 [sample_record; mkJobRecord "org" "runner-0" "c" "job-1" "ok" "" "" 0 None 3 4 4 4 false None].

Lemma Merge_extends_and_is_idempotent_witness :
  @Merge drive_paths JobRecord_zero sample_patch 5 = Ok sample_record /\
  @Merge drive_paths sample_record sample_patch 9 = Ok sample_record.
Proof.
  split; [by vm_compute|].
  exact (proj2 (@Merge_extends_and_is_idempotent drive_paths JobRecord_zero sample_patch 5 sample_record 9
                  ltac:(by vm_compute) ltac:(done))).
Defined.

Lemma upsert_preserves_records_witness :
  exists r', us_records (@upsert_all drive_paths 6 [sample_record] [JobCompleted_patch "org" "runner-1" "other" "ok" 0 8]) !! 0%nat
             = Some r' /\ Extends sample_record r'.
Proof. exact (@upsert_preserves_records drive_paths 6 [sample_record] _ 0 sample_record eq_refl). Defined.

Lemma compaction_keeps_running_jobs_witness :
  ActiveJob sample_catalog "org" "runner-1" = ("job-7", true).
Proof.
  refine (compaction_keeps_running_jobs (fun _ => Ok "x") sample_catalog "x" sample_catalog [] "org" "runner-1" "job-7" _ _).
  all: by vm_compute.
Defined.

Definition quiet_env : StoreEnv :=
  mkStoreEnv (fun _ => Ok "{}") (fun _ => Ok "{}") None None None None None None None None None 50.

Lemma job_store_stays_valid_witness :
  @files_ok drive_paths (mkJobFiles (Some sample_catalog) [] []) /\
  @files_ok drive_paths (@UpsertMany drive_paths quiet_env (mkJobFiles (Some sample_catalog) [] []) [sample_patch]).1.1.
Proof.
  split; [by vm_compute|].
  exact (proj1 (@job_store_stays_valid drive_paths quiet_env (mkJobFiles (Some sample_catalog) [] []) [sample_patch] 1 ltac:(by vm_compute))).
Defined.

Lemma sidecar_round_trip_witness :
  cat_Records (stored sample_catalog) <> cat_Records sample_catalog /\
  hydrateAssignTimes (stored sample_catalog) (assignTimesFromCatalog sample_catalog) = sample_catalog.
Proof.
  split; [by vm_compute|]. apply (@sidecar_round_trip drive_paths); [by vm_compute|]. repeat constructor; done.
Defined.
