(* ===== verification/Effects.v ===== *)
(** The controller's boundary (internal/controller/ports.go) as calls, and
    effectful code as programs over them.

    A program is a tree: a result, or a call with a continuation for every
    response the environment may give.  Nothing is assumed about the responses,
    so a theorem about all runs of a program holds whatever GitHub, Docker, the
    host, the clock, other goroutines and cancellation do. *)

From S2P Require Import Prelude Float64 Model Config PlanGates Errors JobIndex.

(** ** Boundary data *)

Record LogEvent := mkLogEvent {
  le_At : time;
  le_Code : string;
  le_Message : string;
  le_Cause : string;
  le_Source : string;
  le_PoolID : string;
  le_WorkerID : string;
}.

(** [scaleset.Definition]. *)
Record ScaleSetDefinition := mkScaleSetDefinition {
  sd_TargetID : string;
  sd_URL : string;
  sd_Scope : Scope;
  sd_ClientID : string;
  sd_InstallationID : Z;
  sd_SecretID : string;
  sd_RunnerGroup : string;
  sd_ScaleSetName : string;
  sd_Labels : list string;
}.

Record JITConfig := mkJITConfig {
  jit_encoded : string;
  jit_runnerID : Z;
}.

Record StartWorkerRequest := mkStartWorkerRequest {
  sw_PoolID : string;
  sw_Name : string;
  sw_ResourceTier : string;
  sw_JITConfig : JITConfig;
  sw_Limits : WorkerProfile;
  sw_SeccompProfile : string;
}.

(** The context [Step] is called with, the step's own, one detached from its cancellation, and the one of the
    poll's cadence watcher. *)
Inductive Ctx := CallerCtx | StepCtx | DetachedCtx | WatchCtx.

(** ** Calls *)

Inductive call :=
  | CtxErr (ctx : Ctx)
  | CtxCause
  | CancelStep (cause : error)
  | Now
  | Sleep (ctx : Ctx) (d : duration)
  | RandomDraw
  | ShuttingDown
  | ProcessCPUSeconds
  | LoadDesired
  | SaveDesired (d : DesiredState)
  | LoadObserved
  | QuarantineObserved
  | SaveObserved (o : ObservedState)
  | InputIdle
  | PowerRead
  | ResourcesRead
  | DesktopStatusRead
  | DesktopStart (timeout : duration)
  | DesktopStop (timeout : duration)
  | ShutdownAllWSL
  | EngineMemoryTotal
  | WorkersList
  | WorkerStart (request : StartWorkerRequest)
  | RemoveIfIdle (id : string)
  | JobsLoad
  | SSEnsure (definition : ScaleSetDefinition) (previous : option Identity)
  | SSStatistics (identity : Identity) (maxCapacity : Z)
  | SSCreateJITConfig (identity : Identity) (name : string)
  | SSRunnerRegistered (pool : string) (runnerID : Z) (name : string)
  | SSRemoveRunner (pool : string) (runnerID : Z)
  | WriteLog (event : LogEvent)
  | PollTick
  | WatchTick
  | Schedule
  | Arrival
  | ForceStop (id : string)
  | GoroutineDump
  | PendingRead
  | Reserve (requestID reason : string) (restart : bool)
  | RunStep
  | CloseScaleSets
  | CloseWorkers.

(** What each call returns.  [QuarantineObserved] answers [None] when the store
    cannot quarantine; [InputIdle] answers [None] without a presence monitor;
    [PollTick] and [WatchTick] tell whether a watcher's
    ticker fired before its context ended.  [Schedule] and [Arrival] are the
    choices of the Go scheduler: which of two goroutines makes its next call, and
    where in a channel a result arrives.  [PendingRead] and [Reserve] are the
    critical sections of the control handler; [RunStep] is a reconciliation step
    as the shutdown loop sees it; a runtime without a close method answers [None]. *)
Definition resp (c : call) : Type :=
  match c with
  | CtxErr _ | CtxCause => option error
  | CancelStep _ | WriteLog _ => unit
  | Now => time
  | Sleep _ _ => option error
  | RandomDraw => option Z
  | ShuttingDown | PollTick | WatchTick | Schedule => bool
  | Arrival => nat
  | ForceStop _ => option error
  | GoroutineDump => result error string
  | PendingRead => (string * bool)%type
  | Reserve _ _ _ => bool
  | RunStep => (ObservedState * option error)%type
  | CloseScaleSets | CloseWorkers => option (option error)
  | ProcessCPUSeconds => float64
  | LoadDesired => result error DesiredState
  | SaveDesired _ | SaveObserved _ => option error
  | LoadObserved => result error ObservedState
  | QuarantineObserved => option (option error)
  | InputIdle => option (result error duration)
  | PowerRead => result error PowerSnapshot
  | ResourcesRead => result error ResourceSnapshot
  | DesktopStatusRead => result error DesktopStatus
  | DesktopStart _ | DesktopStop _ | ShutdownAllWSL => option error
  | EngineMemoryTotal => result error Z
  | WorkersList => result error (list Worker)
  | WorkerStart _ => result error Worker
  | RemoveIfIdle _ => result error bool
  | JobsLoad => (Catalog * option error)%type
  | SSEnsure _ _ => result error Identity
  | SSStatistics _ _ => result error Z
  | SSCreateJITConfig _ _ => result error JITConfig
  | SSRunnerRegistered _ _ _ => result error bool
  | SSRemoveRunner _ _ => option error
  end.

(** ** Programs *)

Inductive prog (A : Type) : Type :=
  | Ret (a : A)
  | Vis (c : call) (k : resp c -> prog A).
Arguments Ret {A} a.
Arguments Vis {A} c k.

Fixpoint bind {A B} (p : prog A) (f : A -> prog B) : prog B :=
  match p with
  | Ret a => f a
  | Vis c k => Vis c (fun r => bind (k r) f)
  end.

Definition ask (c : call) : prog (resp c) := Vis c Ret.

Declare Scope prog_scope.
Delimit Scope prog_scope with prog.
Notation "'do' x '<-' p 'then' k" := (bind p (fun x => k))
  (at level 10, x pattern, p at level 100, k at level 200) : prog_scope.

(** Two goroutines joined at the end: at each point the scheduler picks the one
    that makes its next call. *)
Fixpoint par {A B} (p : prog A) : prog B -> prog (A * B) :=
  fix go (q : prog B) : prog (A * B) :=
    match p with
    | Ret a => bind q (fun b => Ret (a, b))
    | Vis c k =>
        match q with
        | Ret b => bind p (fun a => Ret (a, b))
        | Vis d l => Vis Schedule (fun left : bool => if left then Vis c (fun r => par (k r) q) else Vis d (fun r => go (l r)))
        end
    end.

(** A goroutine per program, their results in a channel in any order. *)
Fixpoint par_all {A} (ps : list (prog A)) : prog (list A) :=
  match ps with
  | [] => Ret []
  | p :: rest => bind (par p (par_all rest)) (fun '(a, l) => Vis Arrival (fun i => Ret (take i l ++ a :: drop i l)))
  end.

(** ** Runs *)

Record event := Ev { ev_call : call; ev_resp : resp ev_call }.

(** [runs p tr a]: with the responses recorded in [tr], [p] makes exactly the
    calls of [tr], in that order, and returns [a]. *)
Fixpoint runs {A} (p : prog A) (tr : list event) (a : A) : Prop :=
  match p with
  | Ret a' => tr = [] /\ a = a'
  | Vis c k => exists r tr', tr = Ev c r :: tr' /\ runs (k r) tr' a
  end.

(** [safe I Q h p]: after the history [h], whatever the environment answers,
    every call of [p] satisfies [I] in the history that precedes it, and the
    result satisfies [Q]. *)
Fixpoint safe {A} (I : list event -> call -> Prop) (Q : list event -> A -> Prop) (h : list event) (p : prog A) : Prop :=
  match p with
  | Ret a => Q h a
  | Vis c k => I h c /\ forall r, safe I Q (h ++ [Ev c r]) (k r)
  end.

Lemma safe_bind {A B} I (Q : list event -> B -> Prop) h (p : prog A) (f : A -> prog B) :
  safe I (fun h' a => safe I Q h' (f a)) h p -> safe I Q h (bind p f).
Proof. revert h. induction p as [a|c k IH]; intros h; simpl; [done|]. intros [Hi Hk]. split; [done|]. auto. Qed.

Lemma safe_mono {A} I (Q Q' : list event -> A -> Prop) h p :
  (forall h' a, h `prefix_of` h' -> Q h' a -> Q' h' a) -> safe I Q h p -> safe I Q' h p.
Proof.
  revert h. induction p as [a|c k IH]; intros h HQ; simpl; [by apply HQ|]. intros [Hi Hk]. split; [done|].
  intros r. apply IH; [|done]. intros h' a Hpre. apply HQ. etransitivity; [|exact Hpre]. by exists [Ev c r].
Qed.

Lemma safe_ask (I : list event -> call -> Prop) h c (Q : list event -> resp c -> Prop) :
  I h c -> (forall r, Q (h ++ [Ev c r]) r) -> safe I Q h (ask c).
Proof. done. Qed.

(** The connection with runs: along every run, every call was allowed when it
    was made, and the result is as promised. *)
Lemma safe_runs {A} I (Q : list event -> A -> Prop) h p tr a :
  safe I Q h p -> runs p tr a ->
  (forall pre e post, tr = pre ++ e :: post -> I (h ++ pre) (ev_call e)) /\ Q (h ++ tr) a.
Proof.
  revert h tr. induction p as [a'|c k IH]; intros h tr; simpl.
  - intros HQ [-> ->]. rewrite app_nil_r. split; [|done]. intros pre e post Heq. by destruct pre.
  - intros [Hi Hk] (r & tr' & -> & Hr). destruct (IH r (h ++ [Ev c r]) tr' (Hk r) Hr) as [H1 H2].
    rewrite <- app_assoc in H2. split; [|done].
    intros [|e' pre] e post; simpl; intros [= <- Heq]; [by rewrite app_nil_r|].
    specialize (H1 pre e post Heq). by rewrite <- app_assoc in H1.
Qed.

(** Conversely, what holds of all runs is safe. *)
Lemma safe_of_runs {A} (Q : list event -> A -> Prop) h p :
  (forall tr a, runs p tr a -> Q (h ++ tr) a) -> safe (fun _ _ => True) Q h p.
Proof.
  revert h. induction p as [a|c k IH]; intros h HQ; simpl.
  - rewrite <- (app_nil_r h). by apply HQ.
  - split; [done|]. intros r. apply IH. intros tr a Hr. rewrite <- app_assoc. apply HQ. by exists r, tr.
Qed.

(** Programs compose along runs. *)
Lemma runs_bind {A B} (p : prog A) (f : A -> prog B) tr b :
  runs (bind p f) tr b <-> exists tr1 tr2 a, tr = tr1 ++ tr2 /\ runs p tr1 a /\ runs (f a) tr2 b.
Proof.
  revert tr. induction p as [a|c k IH]; intros tr; simpl.
  - split; [intros Hr; by exists [], tr, a|]. by intros (tr1 & tr2 & a' & -> & [-> ->] & Hr).
  - split.
    + intros (r & tr' & -> & (tr1 & tr2 & a & -> & H1 & H2)%IH). exists (Ev c r :: tr1), tr2, a.
      split_and!; [done| |done]. by exists r, tr1.
    + intros (tr1 & tr2 & a & -> & (r & tr' & -> & H1) & H2). exists r, (tr' ++ tr2). split; [done|].
      apply IH. by exists tr', tr2, a.
Qed.

Lemma safe_weaken {A} (I I' : list event -> call -> Prop) (Q : list event -> A -> Prop) h p :
  (forall h' c, I h' c -> I' h' c) -> safe I Q h p -> safe I' Q h p.
Proof. intros Hi. revert h. induction p as [a|c k IH]; intros h; simpl; [done|]. intros [Hc Hk]. split; auto. Qed.

(** Every call is made in an extension of the starting history. *)
Lemma safe_prefix {A} (I : list event -> call -> Prop) (Q : list event -> A -> Prop) h p :
  safe I Q h p -> safe (fun h' c => h `prefix_of` h' /\ I h' c) Q h p.
Proof.
  assert (Hgen : forall h0, h0 `prefix_of` h -> safe I Q h p -> safe (fun h' c => h0 `prefix_of` h' /\ I h' c) Q h p); [|by apply Hgen].
  intros h0. revert h. induction p as [a|c k IH]; intros h Hp; simpl; [done|]. intros [Hc Hk]. split; [done|].
  intros r. apply IH; [|done]. by apply prefix_app_r.
Qed.

(** What two goroutines did, read off an interleaving. *)
Lemma runs_par {A B} (p : prog A) (q : prog B) tr a b :
  runs (par p q) tr (a, b) ->
  exists tp tq, runs p tp a /\ runs q tq b /\ tp `sublist_of` tr /\ tq `sublist_of` tr.
Proof.
  revert q tr. induction p as [a'|c k IHp]; intros q tr.
  - destruct q as [b'|d l]; simpl.
    + intros [-> [= -> ->]]. by exists [], [].
    + intros (r & tr' & -> & Hb). apply runs_bind in Hb as (t1 & t2 & b' & -> & Hr & -> & [= -> ->]). rewrite app_nil_r.
      exists [], (Ev d r :: t1). split; [done|]. split; [simpl; by exists r, t1|]. split; [exact (sublist_nil_l _)|done].
  - revert tr. induction q as [b'|d l IHq]; intros tr.
    + simpl. intros (r & tr' & -> & Hb). apply runs_bind in Hb as (t1 & t2 & a' & -> & Hr & -> & [= -> ->]). rewrite app_nil_r.
      exists (Ev c r :: t1), []. split; [simpl; by exists r, t1|]. split; [done|]. split; [done|exact (sublist_nil_l _)].
    + simpl. intros (left & tr' & -> & Hr). destruct left; destruct Hr as (r & tr'' & -> & Hr).
      * destruct (IHp r _ _ Hr) as (tp & tq & Hp & Hq & Sp & Sq). exists (Ev c r :: tp), tq.
        split_and!; [simpl; by exists r, tp|done| |]; auto using sublist.
      * destruct (IHq r _ Hr) as (tp & tq & Hp & Hq & Sp & Sq). exists tp, (Ev d r :: tq).
        split_and!; [done|simpl; by exists r, tq| |]; auto using sublist.
Qed.

Lemma runs_par_all {A} (ps : list (prog A)) tr l :
  runs (par_all ps) tr l ->
  forall a, a ∈ l -> exists p tp, p ∈ ps /\ runs p tp a /\ tp `sublist_of` tr.
Proof.
  revert tr l. induction ps as [|p ps IH]; intros tr l; simpl.
  - intros [-> ->] a Ha. by apply elem_of_nil in Ha.
  - intros Hb. apply runs_bind in Hb as (t1 & t2 & [a0 l0] & -> & Hr & i & t3 & -> & -> & ->).
    apply runs_par in Hr as (tp & tq & Hp & Hq & Sp & Sq). intros a Ha.
    assert (Ha' : a = a0 \/ a ∈ l0).
    { rewrite <- (take_drop i l0). set_solver. }
    destruct Ha' as [->|Ha'].
    + exists p, tp. split_and!; [by left|done|]. by apply sublist_inserts_r.
    + destruct (IH _ _ Hq a Ha') as (p' & tp' & Hp' & Hr' & Sp'). exists p', tp'. split_and!; [by right|done|].
      apply sublist_inserts_r. by etransitivity.
Qed.

(** ** An executable environment

    [run_with oracle] follows the responses of an oracle that sees the whole
    history; every program terminates under it. *)
Fixpoint run_with {A} (oracle : list event -> forall c, resp c) (h : list event) (p : prog A) : list event * A :=
  match p with
  | Ret a => ([], a)
  | Vis c k =>
      let r := oracle h c in
      let '(tr, a) := run_with oracle (h ++ [Ev c r]) (k r) in
      (Ev c r :: tr, a)
  end.

Lemma run_with_runs {A} oracle h (p : prog A) : runs p (run_with oracle h p).1 (run_with oracle h p).2.
Proof.
  revert h. induction p as [a|c k IH]; intros h; simpl; [done|].
  specialize (IH (oracle h c) (h ++ [Ev c (oracle h c)])).
  destruct (run_with _ _ _) as [tr a]. by exists (oracle h c), tr.
Qed.
