(* ===== verification/Retry.v ===== *)
(** Bounded retries (internal/controller/retry.go) and the scale-set calls of
    the reconciler that go through them. *)

From S2P Require Import Prelude Float64 Model Config PlanGates Errors JobIndex Effects.
Open Scope prog_scope.

(** The random source is only read when the policy uses its jitter. *)
Definition draw_jitter (p : BackoffPolicy) : prog (option Z) :=
  match bp_Jitter p with
  | Some _ => if f64_lt f64_0 (bp_JitterRatio p) then ask RandomDraw else Ret None
  | None => Ret None
  end.

Definition errExhausted : error := ErrNew "retry loop exhausted unexpectedly".

(** The attempt loop; [fuel] is the number of attempts left. *)
Fixpoint retry_loop {T} (ctx : Ctx) (p : BackoffPolicy) (retryable : error -> bool) (operation : prog (result error T))
    (fuel : nat) (attempt : Z) : prog (result error T) :=
  match fuel with
  | O => Ret (Err errExhausted)
  | S fuel =>
      do canceled <- ask (CtxErr ctx) then
      match canceled with
      | Some e => Ret (Err e)
      | None =>
          do outcome <- operation then
          match outcome with
          | Ok value => Ret (Ok value)
          | Err e =>
              if (attempt =? bp_MaxAttempts p) || negb (retryable e) then Ret (Err e)
              else
                do draw <- draw_jitter p then
                do interrupted <- ask (Sleep ctx (delay p draw attempt e)) then
                match interrupted with
                | Some e => Ret (Err e)
                | None => retry_loop ctx p retryable operation fuel (attempt + 1)
                end
          end
      end
  end.

Definition RetryValue {T} (ctx : Ctx) (p : BackoffPolicy) (retryable : error -> bool)
    (operation : prog (result error T)) : prog (result error T) :=
  if negb (BackoffPolicy_validate p) then Ret (Err errInvalidBackoff)
  else retry_loop ctx p retryable operation (Z.to_nat (bp_MaxAttempts p)) 1.

(** ** Scale-set calls *)

Definition scale_set_definition (t : Target) : ScaleSetDefinition :=
  {| sd_TargetID := t_ID t; sd_URL := t_URL t; sd_Scope := t_Scope t; sd_ClientID := t_ClientID t;
     sd_InstallationID := t_InstallationID t; sd_SecretID := t_SecretID t; sd_RunnerGroup := t_RunnerGroup t;
     sd_ScaleSetName := t_ScaleSetName t; sd_Labels := t_Labels t |}.

Definition ensure (p : BackoffPolicy) (target : Target) (previous : option Identity) : prog (result error Identity) :=
  RetryValue StepCtx p Retryable (ask (SSEnsure (scale_set_definition target) previous)).

(** A scale set deleted externally is recreated and asked once more. *)
Definition statistics (p : BackoffPolicy) (target : Target) (identity : Identity) (maxCapacity : Z)
    : prog (result error Z * Identity) :=
  do stats <- RetryValue StepCtx p Retryable (ask (SSStatistics identity maxCapacity)) then
  match stats with
  | Ok n => Ret (Ok n, identity)
  | Err e =>
      if negb (IsKind e ErrorNotFound) then Ret (Err e, identity)
      else
        do recreated <- ensure p target None then
        match recreated with
        | Err e2 => Ret (Err (ErrJoin [e; e2]), identity)
        | Ok fresh =>
            do again <- RetryValue StepCtx p Retryable (ask (SSStatistics fresh maxCapacity)) then
            Ret (again, fresh)
        end
  end.

(** One deregistration request; a runner that is already gone is a success. *)
Definition remove_runner (pool : string) (runnerID : Z) : prog (result error ()) :=
  do err <- ask (SSRemoveRunner pool runnerID) then
  Ret match err with
      | None => Ok ()
      | Some e => if IsKind e ErrorNotFound then Ok () else Err e
      end.

Definition deregisterRunner (ctx : Ctx) (p : BackoffPolicy) (pool : string) (runnerID : Z) : prog (option error) :=
  if String.eqb pool "" || (runnerID <=? 0)
  then Ret (Some (ErrNew "positive GitHub runner ID and pool ID are required for deregistration"))
  else
    do outcome <- RetryValue ctx p Retryable (remove_runner pool runnerID) then
    Ret match outcome with Ok _ => None | Err e => Some e end.

Definition runnerRegistered (p : BackoffPolicy) (pool : string) (runnerID : Z) (name : string) : prog (result error bool) :=
  RetryValue StepCtx p Retryable (ask (SSRunnerRegistered pool runnerID name)).

(** ** Facts *)

(** The calls of the retry loop itself. *)
Definition bookkeeping (c : call) : bool :=
  match c with CtxErr _ | Sleep _ _ | RandomDraw => true | _ => false end.

Lemma safe_draw_jitter I (Q : list event -> option Z -> Prop) h p :
  (forall h c, bookkeeping c = true -> I h c) -> (forall h' r, h `prefix_of` h' -> Q h' r) -> safe I Q h (draw_jitter p).
Proof.
  intros Hi HQ. unfold draw_jitter. destruct (bp_Jitter p); [|by apply HQ]. split_if; [|by apply HQ].
  split; [by apply Hi|]. intros r. apply HQ. by exists [Ev RandomDraw r].
Qed.

(** What an operation guarantees of a success, retrying it guarantees too. *)
Lemma safe_RetryValue {T} I (Q : list event -> T -> Prop) h ctx p retryable (operation : prog (result error T)) :
  (forall h c, bookkeeping c = true -> I h c) ->
  (forall h', h `prefix_of` h' -> safe I (fun h'' r => forall v, r = Ok v -> Q h'' v) h' operation) ->
  safe I (fun h'' r => forall v, r = Ok v -> Q h'' v) h (RetryValue ctx p retryable operation).
Proof.
  intros Hi Hop. unfold RetryValue. split_if; [by simpl|].
  generalize 1. generalize (Z.to_nat (bp_MaxAttempts p)). intros fuel. revert h Hop.
  induction fuel as [|fuel IH]; intros h Hop attempt; simpl; [done|].
  split; [by apply Hi|]. intros canceled. set (h1 := h ++ _).
  assert (Hp1 : h `prefix_of` h1) by (by eexists). destruct canceled; [done|].
  apply safe_bind. eapply safe_mono; [|apply Hop; done]. intros h2 [v|e] Hp2 HQ; [done|].
  split_if; [done|]. apply safe_bind, safe_draw_jitter; [done|]. intros h3 draw Hp3. simpl.
  split; [by apply Hi|]. intros [e'|]; [done|]. apply IH. intros h' Hp'. apply Hop.
  etransitivity; [exact Hp1|]. etransitivity; [exact Hp2|]. etransitivity; [exact Hp3|]. etransitivity; [|exact Hp'].
  by eexists.
Qed.

(** The number of calls of a kind along a trace. *)
Definition calls (f : call -> bool) (tr : list event) : Z := count (fun e => f (ev_call e)) tr.

Lemma calls_app f tr1 tr2 : calls f (tr1 ++ tr2) = calls f tr1 + calls f tr2.
Proof. apply count_app. Qed.

Lemma draw_jitter_calls f p tr r :
  (forall c, bookkeeping c = true -> f c = false) -> runs (draw_jitter p) tr r -> calls f tr = 0.
Proof.
  intros Hf. unfold draw_jitter, ask.
  assert (Hret : forall tr (r r' : option Z), runs (Ret r') tr r -> calls f tr = 0) by (by intros ??? [-> _]).
  destruct (bp_Jitter p); [|apply Hret]. split_if; [|apply Hret].
  intros (x & tr' & -> & -> & _). unfold calls. simpl. by rewrite Hf.
Qed.

Lemma retry_loop_runs {T} f n ctx p retryable (operation : prog (result error T)) fuel attempt tr res :
  (forall c, bookkeeping c = true -> f c = false) -> 0 <= n ->
  (forall tr r, runs operation tr r -> calls f tr <= n) ->
  runs (retry_loop ctx p retryable operation fuel attempt) tr res ->
  calls f tr <= Z.of_nat fuel * n /\
  (forall v, res = Ok v -> exists pre tr1, tr = pre ++ tr1 /\ runs operation tr1 (Ok v)).
Proof.
  intros Hf Hn Hop. revert attempt tr. induction fuel as [|fuel IH]; intros attempt tr.
  { intros [-> ->]. split; [done|]. done. }
  intros (canceled & tr1 & -> & Hr). cbn [bind] in Hr. destruct canceled as [e|]; [destruct Hr as [-> ->]; split; [|done]; unfold calls; simpl; rewrite Hf by done; lia|].
  apply runs_bind in Hr as (tr2 & tr3 & outcome & -> & Hr2 & Hr3). specialize (Hop tr2 outcome Hr2) as Hc.
  change (Ev (CtxErr ctx) None :: tr2 ++ tr3) with ([Ev (CtxErr ctx) None] ++ tr2 ++ tr3). rewrite !calls_app.
  assert (calls f [Ev (CtxErr ctx) None] = 0) as -> by (unfold calls; simpl; by rewrite Hf).
  destruct outcome as [v|e].
  { destruct Hr3 as [-> ->]. split; [unfold calls at 2; simpl; lia|]. intros v' [= <-].
    exists [Ev (CtxErr ctx) None], tr2. by rewrite app_nil_r. }
  destruct (_ || _). { destruct Hr3 as [-> ->]. split; [unfold calls at 2; simpl; lia|done]. }
  apply runs_bind in Hr3 as (tr4 & tr5 & draw & -> & Hr4 & interrupted & tr6 & -> & Hr6).
  apply draw_jitter_calls with (f := f) in Hr4; [|done].
  change (tr4 ++ Ev (Sleep ctx (delay p draw attempt e)) interrupted :: tr6)
    with (tr4 ++ [Ev (Sleep ctx (delay p draw attempt e)) interrupted] ++ tr6). rewrite !calls_app, Hr4.
  assert (calls f [Ev (Sleep ctx (delay p draw attempt e)) interrupted] = 0) as -> by (unfold calls; simpl; by rewrite Hf).
  destruct interrupted as [e'|]; [destruct Hr6 as [-> ->]; split; [unfold calls at 2; simpl; lia|done]|].
  destruct (IH _ _ Hr6) as [IH1 IH2]. split; [lia|]. intros v ->. destruct (IH2 v eq_refl) as (pre & tr7 & -> & Hv).
  exists ([Ev (CtxErr ctx) None] ++ tr2 ++ tr4 ++ [Ev (Sleep ctx (delay p draw attempt e)) None] ++ pre), tr7.
  split; [|done]. by rewrite <- !app_assoc.
Qed.

Lemma RetryValue_runs {T} f n ctx p retryable (operation : prog (result error T)) tr res :
  (forall c, bookkeeping c = true -> f c = false) -> 0 <= n ->
  (forall tr r, runs operation tr r -> calls f tr <= n) ->
  runs (RetryValue ctx p retryable operation) tr res ->
  calls f tr <= Z.max 0 (bp_MaxAttempts p) * n /\
  (forall v, res = Ok v -> exists pre tr1, tr = pre ++ tr1 /\ runs operation tr1 (Ok v)).
Proof.
  intros Hf Hn Hop. unfold RetryValue. split_if.
  - intros [-> ->]. split; [unfold calls; simpl; nia|done].
  - intros Hr. destruct (retry_loop_runs f n ctx p retryable operation _ _ tr res Hf Hn Hop Hr) as [H1 H2].
    split; [|done]. replace (Z.max 0 (bp_MaxAttempts p)) with (Z.of_nat (Z.to_nat (bp_MaxAttempts p))) by lia. done.
Qed.

(** A retried operation that succeeds ends with a run that succeeded. *)
Lemma RetryValue_last {T} ctx p retryable (operation : prog (result error T)) tr v :
  runs (RetryValue ctx p retryable operation) tr (Ok v) -> exists pre tr1, tr = pre ++ tr1 /\ runs operation tr1 (Ok v).
Proof.
  intros Hr. eapply (RetryValue_runs (fun _ => false) 0); [done|done| |exact Hr|done].
  intros. unfold calls. by rewrite count_zero.
Qed.

(** Programs that never make a call of a kind. *)
Fixpoint avoids {A} (f : call -> bool) (p : prog A) : Prop :=
  match p with
  | Ret _ => True
  | Vis c k => f c = false /\ forall r, avoids f (k r)
  end.

Lemma avoids_bind {A B} f (p : prog A) (g : A -> prog B) : avoids f p -> (forall a, avoids f (g a)) -> avoids f (bind p g).
Proof. intros Hp Hg. induction p as [a|c k IH]; simpl in *; [apply Hg|]. destruct Hp. split; auto. Qed.

Lemma avoids_safe {A} f (I : list event -> call -> Prop) (Q : list event -> A -> Prop) h p :
  avoids f p -> (forall h c, f c = false -> I h c) ->
  (forall tr a, runs p tr a -> calls f tr = 0 -> Q (h ++ tr) a) -> safe I Q h p.
Proof.
  intros Hp Hi. revert h. induction p as [a|c k IH]; intros h HQ; simpl.
  - rewrite <- (app_nil_r h). by apply HQ.
  - destruct Hp as [Hc Hk]. split; [by apply Hi|]. intros r. apply IH; [apply Hk|]. intros tr a Hr Hz.
    rewrite <- app_assoc. apply HQ; [by exists r, tr|]. unfold calls in *. simpl. by rewrite Hc.
Qed.

Lemma avoids_runs {A} f (p : prog A) tr a : avoids f p -> runs p tr a -> forall e, e ∈ tr -> f (ev_call e) = false.
Proof.
  revert tr. induction p as [a'|c k IH]; intros tr; simpl.
  - intros _ [-> _] e He. by apply elem_of_nil in He.
  - intros [Hc Hk] (r & tr' & -> & Hr) e [->|He]%elem_of_cons; [done|]. by apply (IH r tr').
Qed.

Lemma avoids_strengthen {A} f (I : list event -> call -> Prop) (Q : list event -> A -> Prop) h p :
  avoids f p -> safe I Q h p -> safe (fun h' c => f c = false /\ I h' c) Q h p.
Proof. revert h. induction p as [a|c k IH]; intros h; simpl; [done|]. intros [Hc Hk] [Hi Hs]. split; auto. Qed.

Lemma avoids_draw_jitter f p : (forall c, bookkeeping c = true -> f c = false) -> avoids f (draw_jitter p).
Proof. intros Hf. unfold draw_jitter. destruct (bp_Jitter p); [|done]. split_if; [|done]. simpl. split; [by apply Hf|done]. Qed.

Lemma avoids_RetryValue {T} f ctx p retryable (operation : prog (result error T)) :
  (forall c, bookkeeping c = true -> f c = false) -> avoids f operation -> avoids f (RetryValue ctx p retryable operation).
Proof.
  intros Hf Hop. unfold RetryValue. split_if; [done|].
  generalize 1. generalize (Z.to_nat (bp_MaxAttempts p)). intros fuel. induction fuel as [|fuel IH]; intros attempt; [done|].
  simpl. split; [by apply Hf|]. intros [e|]; [done|]. apply avoids_bind; [done|]. intros [v|e]; [done|].
  split_if; [done|]. apply avoids_bind; [by apply avoids_draw_jitter|]. intros draw. simpl. split; [by apply Hf|]. by intros [].
Qed.

Lemma avoids_deregisterRunner f ctx p pool runnerID :
  (forall c, bookkeeping c = true -> f c = false) -> f (SSRemoveRunner pool runnerID) = false ->
  avoids f (deregisterRunner ctx p pool runnerID).
Proof.
  intros Hf Hr. unfold deregisterRunner. split_if; [done|]. apply avoids_bind; [|done]. by apply avoids_RetryValue.
Qed.

(** Retrying is bounded and honest.  Whatever the operation, the error
    classification and the environment, a retried operation runs at most the
    configured number of times (so it makes at most that many times the calls
    one run makes), the loop always ends, and it reports success only with the
    value of a last run that succeeded. *)
Theorem RetryValue_bounded {T} f n ctx p retryable (operation : prog (result error T)) tr res :
  (forall c, bookkeeping c = true -> f c = false) -> 0 <= n ->
  (forall tr r, runs operation tr r -> calls f tr <= n) ->
  runs (RetryValue ctx p retryable operation) tr res ->
  calls f tr <= Z.max 0 (bp_MaxAttempts p) * n /\
  (forall v, res = Ok v -> exists pre tr1, tr = pre ++ tr1 /\ runs operation tr1 (Ok v)).
Proof. apply RetryValue_runs. Qed.

(** The event of a deregistration GitHub confirmed. *)
Definition confirms_removal (pool : string) (runnerID : Z) (e : event) : bool :=
  match e with
  | Ev (SSRemoveRunner p i) r =>
      String.eqb p pool && (i =? runnerID) && match r with None => true | Some e => IsKind e ErrorNotFound end
  | _ => false
  end.

(** A deregistration that returns no error ends with GitHub's confirmation. *)
Lemma safe_deregisterRunner (I : list event -> call -> Prop) h ctx p pool runnerID :
  (forall h c, bookkeeping c = true -> I h c) -> (forall h, I h (SSRemoveRunner pool runnerID)) ->
  safe I (fun h' err => err = None -> exists h0 e, h' = h0 ++ [e] /\ confirms_removal pool runnerID e = true)
       h (deregisterRunner ctx p pool runnerID).
Proof.
  intros Hi Hr. unfold deregisterRunner. split_if; [by simpl|].
  apply safe_bind.
  apply (safe_mono _ (fun h' r => forall v, r = Ok v -> exists h0 e, h' = h0 ++ [e] /\ confirms_removal pool runnerID e = true)).
  { simpl. intros h' [[]|e] _ HQ; [|done]. intros _. by apply (HQ ()). }
  apply safe_RetryValue; [done|]. intros h' _. unfold remove_runner. simpl. split; [apply Hr|]. intros r v Hv.
  exists h', (Ev (SSRemoveRunner pool runnerID) r). split; [done|]. simpl. rewrite String.eqb_refl, Z.eqb_refl. simpl.
  destruct r as [e|]; [|done]. by destruct (IsKind e ErrorNotFound).
Qed.

Definition is_removal_request (c : call) : bool := match c with SSRemoveRunner _ _ => true | _ => false end.

(** One deregistration makes at most one request per attempt. *)
Lemma deregisterRunner_calls ctx p pool runnerID tr err :
  runs (deregisterRunner ctx p pool runnerID) tr err -> calls is_removal_request tr <= Z.max 0 (bp_MaxAttempts p).
Proof.
  unfold deregisterRunner. split_if; [intros [-> _]; unfold calls; simpl; lia|].
  intros (tr1 & tr2 & outcome & -> & Hr & [-> _])%runs_bind. rewrite app_nil_r.
  destruct (RetryValue_runs is_removal_request 1 ctx p Retryable (remove_runner pool runnerID) tr1 outcome) as [Hc _];
    [by intros []|lia| |done|lia].
  intros tr' r (x & tr'' & -> & -> & _). done.
Qed.

Lemma ensure_runs p target previous tr ident :
  runs (ensure p target previous) tr (Ok ident) -> Ev (SSEnsure (scale_set_definition target) previous) (Ok ident) ∈ tr.
Proof.
  intros (pre & tr1 & -> & r & tr' & -> & -> & <-)%RetryValue_last. apply elem_of_app. right. by left.
Qed.

(** A successful poll ends with the listener's answer, from the identity given
    or from one recreated during the poll. *)
Lemma statistics_runs p target ident capacity tr n ident' :
  runs (statistics p target ident capacity) tr (Ok n, ident') ->
  Ev (SSStatistics ident' capacity) (Ok n) ∈ tr /\
  (ident' = ident \/ Ev (SSEnsure (scale_set_definition target) None) (Ok ident') ∈ tr).
Proof.
  assert (Hask : forall i tr, runs (RetryValue StepCtx p Retryable (ask (SSStatistics i capacity))) tr (Ok n) ->
            Ev (SSStatistics i capacity) (Ok n) ∈ tr).
  { intros i t (pre & tr1 & -> & r & tr' & -> & -> & <-)%RetryValue_last. apply elem_of_app. right. by left. }
  intros (t1 & t2 & outcome & -> & H1 & H2)%runs_bind. destruct outcome as [m|e].
  { destruct H2 as [-> [= -> ->]]. rewrite app_nil_r. split; [by apply Hask|by left]. }
  destruct (negb _); [by destruct H2 as [_ ?]|].
  apply runs_bind in H2 as (t3 & t4 & outcome & -> & H3 & H4). destruct outcome as [fresh|e']; [|by destruct H4 as [_ ?]].
  apply runs_bind in H4 as (t5 & t6 & again & -> & H5 & -> & [= <- ->]). apply Hask in H5. apply ensure_runs in H3.
  split; [|right]; set_solver.
Qed.

(** ** A concrete run *)

Definition transport_error : error := ErrScaleSet ErrorTransport "poll" 0 0 None.

Lemma RetryValue_bounded_witness :
  let tr := [Ev (CtxErr StepCtx) None; Ev (SSStatistics Identity_zero 0) (Err transport_error);
             Ev (Sleep StepCtx Second) None; Ev (CtxErr StepCtx) None; Ev (SSStatistics Identity_zero 0) (Ok 4)] in
  calls (fun c => match c with SSStatistics _ _ => true | _ => false end) tr <= Z.max 0 (bp_MaxAttempts sample_policy) * 1.
Proof.
  refine (proj1 (RetryValue_bounded _ 1 StepCtx sample_policy Retryable (ask (SSStatistics Identity_zero 0)) _ (Ok 4) _ _ _ _)).
  - by intros [].
  - done.
  - intros tr r (x & tr' & -> & -> & _). by vm_compute.
  - by repeat eexists.
Defined.
