(* ===== verification/Reconciler.v ===== *)
(** The reconciler (internal/controller/reconciler.go): its mutable state, the
    recording of problems, start admission and execution, retirement of
    workers, registration checks and gaming shutdown. *)

From S2P Require Import Prelude Float64 Model Config PlanGates Plan Capacity Errors GoStrings JobIndex Effects Retry.
From stdpp Require Import pretty.
Open Scope Z_scope.
Open Scope prog_scope.

(** ** State *)

Inductive capState := capStateUnknown | capStateReleased | capStateEngaged.

#[export] Instance capState_eq_dec : EqDecision capState.
Proof. solve_decision. Defined.

Definition capStateOf (active : bool) : capState := if active then capStateEngaged else capStateReleased.

(** The fields of [Reconciler] a step reads and writes, and the errors and
    problems the step in progress has recorded. *)
Record StepState := mkStepState {
  st_drainCapacity : gmap string Z;
  st_sequence : Z;
  st_pendingCapacity : gmap string Z;
  st_engineMemoryTotal : Z;
  st_inputIdle : option duration;
  st_finalAdmissionAttempt : bool;
  st_registrationCheckCursor : Z;
  st_retirementCursor : Z;
  st_staleHandshakeCycles : Z;
  st_reregisterListeners : bool;
  st_heartbeat : Z;
  st_lastTickNanos : Z;
  st_capLogged : capState;
  st_operationErrors : list error;
  st_operationProblems : list Problem;
}.

(** What [NewReconciler] fixes. *)
Record Env := mkEnv {
  en_config : Config;
  en_version : string;
  en_backoff : BackoffPolicy;
}.

(** ** The monad of the reconciler: programs that thread its state *)

Definition M (A : Type) : Type := StepState -> prog (StepState * A).

Definition mret {A} (a : A) : M A := fun s => Ret (s, a).
Definition mbind {A B} (m : M A) (f : A -> M B) : M B := fun s => bind (m s) (fun '(s, a) => f a s).
Definition lift {A} (p : prog A) : M A := fun s => bind p (fun a => Ret (s, a)).
Definition call_ (c : call) : M (resp c) := lift (ask c).
Definition gets {A} (f : StepState -> A) : M A := fun s => Ret (s, f s).
Definition modify (f : StepState -> StepState) : M () := fun s => Ret (f s, ()).

Declare Scope m_scope.
Delimit Scope m_scope with m.
Notation "'let*' x ':=' m 'in' k" := (mbind m (fun x => k))
  (at level 10, x pattern, m at level 100, k at level 200) : m_scope.
Open Scope m_scope.

Fixpoint forM {A} (l : list A) (f : A -> M ()) : M () :=
  match l with
  | [] => mret ()
  | x :: l => let* _ := f x in forM l f
  end.

(** ** Texts *)

Definition kind_text (k : ErrorKind) : string :=
  match k with
  | ErrorUnauthorized => "unauthorized" | ErrorForbidden => "forbidden" | ErrorNotFound => "not-found"
  | ErrorConflict => "conflict" | ErrorRateLimited => "rate-limited" | ErrorServer => "server"
  | ErrorTransport => "transport" | ErrorInvalid => "invalid-response" | ErrorKindOther s => s
  end.

Fixpoint join_lines (l : list string) : string :=
  match l with
  | [] => ""
  | [s] => s
  | s :: rest => s +:+ String (Ascii.ascii_of_nat 10) (join_lines rest)
  end.

(** [err.Error()]. *)
Fixpoint error_text (e : error) : string :=
  match e with
  | ErrNew text => text
  | ErrWrap text inner => text +:+ ": " +:+ error_text inner
  | ErrJoin errs => join_lines (map error_text errs)
  | ErrScaleSet kind op _ _ inner =>
      "scale set " +:+ op +:+ ": " +:+ kind_text kind
      +:+ match inner with Some i => ": " +:+ error_text i | None => "" end
  | ErrWorkerStart inner _ => error_text inner
  end.

Definition safeScaleSetMessage (operation : string) (e : error) : string :=
  match as_ScaleSetError e with
  | Some t =>
      if 0 <? se_StatusCode t
      then "scale-set " +:+ operation +:+ " failed (" +:+ kind_text (se_Kind t) +:+ ", HTTP " +:+ pretty (se_StatusCode t) +:+ ")"
      else "scale-set " +:+ operation +:+ " failed (" +:+ kind_text (se_Kind t) +:+ ")"
  | None => "scale-set " +:+ operation +:+ " failed"
  end.

(** ** Recording *)

Definition writeLog (event : LogEvent) : M () := call_ (WriteLog event).

(** The [record] closure: a problem, an error if there is one, and a log line. *)
Definition record_ (now : time) (code message pool : string) (retryable : bool) (err : option error) : M () :=
  let* _ := modify (fun s => {| s with
    st_operationProblems := st_operationProblems s ++ [problem now code message pool retryable];
    st_operationErrors := match err with Some e => st_operationErrors s ++ [e] | None => st_operationErrors s end |}) in
  writeLog (mkLogEvent now code message (match err with Some e => error_text e | None => "" end) "" pool "").

(** The [note] closure: a log line only. *)
Definition note (now : time) (code message pool : string) : M () :=
  writeLog (mkLogEvent now code message "" "" pool "").

Definition add_error (e : error) : M () :=
  modify (fun s => {| s with st_operationErrors := st_operationErrors s ++ [e] |}).

(** ** Small operations on the state *)

Definition readInputIdle : M (option duration) :=
  let* r := call_ InputIdle in
  mret match r with Some (Ok d) => Some d | _ => None end.

Definition idle_text (idle : option duration) : string :=
  match idle with Some d => pretty (f64_round_even (Duration_Seconds d)) +:+ "s" | None => "unknown" end.

Definition noteInteractiveCap (input : PlanInput) (now : time) : M () :=
  let active := interactiveCapActive input in
  let* logged := gets st_capLogged in
  let* _ := modify (fun s => {| s with st_capLogged := capStateOf active |}) in
  if decide (logged = capStateOf active) then mret ()
  else
    let code := if active then "interactive-cap-activated" else "interactive-cap-deactivated" in
    let state := if active then "engaged" else "released" in
    writeLog (mkLogEvent now code
      ("interactive worker cap " +:+ state +:+ "; input idle " +:+ idle_text (in_InputIdle input)) "" "" "" "").

Definition rememberDrainCapacity (pool : string) (capacity : Z) : M () :=
  modify (fun s => {| s with st_drainCapacity :=
    if capacity <=? 0 then delete pool (st_drainCapacity s) else <[pool := capacity]> (st_drainCapacity s) |}).

Definition handshakeStaleCycleLimit : Z := 3.

Definition noteStaleHandshake (s : StepState) : StepState :=
  let cycles := st_staleHandshakeCycles s + 1 in
  {| s with st_staleHandshakeCycles := cycles;
            st_reregisterListeners := if handshakeStaleCycleLimit <=? cycles then true else st_reregisterListeners s |}.

Definition clearStaleHandshake (s : StepState) : StepState :=
  {| s with st_staleHandshakeCycles := 0; st_reregisterListeners := false |}.

(** The probe runs at most once per engine lifecycle. *)
Definition probeEngineMemory (env : Env) (now : time) (desktopStatusKnown : bool) (desktop : DesktopStatus) : M () :=
  if r_WorkerMemoryBudget (c_Resources (en_config env)) =? 0 then mret ()
  else if negb desktopStatusKnown then mret ()
  else if desktop_down desktop then modify (fun s => {| s with st_engineMemoryTotal := 0 |})
  else
    let* cached := gets st_engineMemoryTotal in
    if negb (cached =? 0) then mret ()
    else
      let* probe := call_ EngineMemoryTotal in
      match probe with
      | Ok total =>
          if total =? 0
          then note now "engine-memory-probe-error" "engine VM memory could not be probed; the configured workerMemoryBudget is used unverified" ""
          else modify (fun s => {| s with st_engineMemoryTotal := total |})
      | Err _ => note now "engine-memory-probe-error" "engine VM memory could not be probed; the configured workerMemoryBudget is used unverified" ""
      end.

Definition resourceTier (cfg : Config) (pool : string) : string :=
  match List.find (fun t => String.eqb (t_ID t) pool) (c_Targets cfg) with
  | Some t => match t_ResourcesWorker t with Some _ => "target_override" | None => "default" end
  | None => "unknown"
  end.

(** [target]: the configured target, or one with only the ID. *)
Definition target_of (cfg : Config) (id : string) : Target :=
  match List.find (fun t => String.eqb (t_ID t) id) (c_Targets cfg) with
  | Some t => t
  | None => mkTarget id "" (ScopeOther "") "" 0 "" "" "" [] 0 0 0 None ""
  end.

(** Nanoseconds from Go's zero time to the Unix epoch. *)
Definition unix_epoch : time := 62135596800 * Second.

Definition runner_name (prefix : string) (nanos sequence : Z) : string :=
  let suffix := "-" +:+ FormatInt36 nanos +:+ "-" +:+ FormatUint36 sequence in
  let base := if (64 <? String.length prefix + String.length suffix)%nat
              then trim_right name_separator (String.substring 0 (64 - String.length suffix) prefix)
              else prefix in
  base +:+ suffix.

Definition nextRunnerName (env : Env) (now : time) : M string :=
  let* _ := modify (fun s => {| s with st_sequence := wrap_u64 (st_sequence s + 1) |}) in
  let* sequence := gets st_sequence in
  mret (runner_name (ho_RunnerNamePrefix (c_Host (en_config env))) (wrap_i64 (now - unix_epoch)) sequence).

(** ** Worker jobs *)

Definition mark_busy (catalog : Catalog) (w : Worker) : Worker :=
  match ActiveJob catalog (w_PoolID w) (w_Name w) with
  | (jobID, true) => {| w with w_JobID := jobID; w_State := WorkerBusy |}
  | _ => w
  end.

Definition enrichWorkerJobs (workers : list Worker) : M (result error (list Worker)) :=
  if bool_decide (workers = []) then mret (Ok [])
  else
    let* loaded := call_ JobsLoad in
    match loaded with
    | (catalog, err) =>
        match err with
        | Some e => if is_sentinel ErrJobsNotFound e then mret (Ok (map (mark_busy catalog) workers)) else mret (Err e)
        | None => mret (Ok (map (mark_busy catalog) workers))
        end
    end.

Definition containsActiveWorker (workers : list Worker) : bool := existsb Active workers.

Definition allTargetsStablyZero (targets : list Target) (acknowledged : gmap string bool) (confirmations : gmap string Z) : bool :=
  forallb (fun t => mgetb acknowledged (t_ID t) && (2 <=? mget confirmations (t_ID t))) targets.

Definition mayHaveManagedWorkers (desktop : DesktopStatus) (statusKnown : bool) : bool :=
  negb statusKnown || dk_DesktopRunning desktop || dk_EngineReachable desktop.

Definition sameAdmissionIntent (left right : DesiredState) : bool :=
  (ds_SchemaVersion left =? ds_SchemaVersion right)
  && bool_decide (ds_Mode left = ds_Mode right)
  && bool_decide (ds_TemporaryCapacityOverride left = ds_TemporaryCapacityOverride right).

Definition availableAfterMemoryReservation (available reserved : Z) : Z :=
  if available <=? reserved then 0 else available - reserved.

Definition plansStart (p : Plan) (pool : string) : bool :=
  existsb (fun d => String.eqb (sd_PoolID d) pool && (0 <? sd_Count d)) (p_Start p).

Definition shutdown_intent (shuttingDown : bool) (d : DesiredState) : DesiredState :=
  if shuttingDown then {| d with ds_Mode := ModeDisabled; ds_TemporaryCapacityOverride := None |} else d.

(** ** Start admission *)

(** The readings a step planned with. *)
Record Baseline := mkBaseline {
  bl_pools : list PoolSnapshot;
  bl_previous : ObservedState;
  bl_desired : DesiredState;
  bl_power : PowerSnapshot;
  bl_resources : ResourceSnapshot;
  bl_desktop : DesktopStatus;
}.

(** [Changed] stands for [safetyChanged], with or without an error. *)
Inductive Admission := Allowed | Declined | Changed.

Section Reconciler.
Context `{MapRange} (env : Env).
Local Abbreviation cfg := (en_config env).

(** The planner input of a fresh admission check. *)
Definition admission_input (b : Baseline) (s : StepState) (desired : DesiredState) (workers : list Worker)
    (resources : ResourceSnapshot) (power : PowerSnapshot) (desktop : DesktopStatus) (now : time) : PlanInput :=
  {| in_Config := cfg; in_Desired := desired; in_Previous := bl_previous b; in_CapacityHysteresis := ∅;
     in_Pools := bl_pools b; in_Workers := workers; in_Resources := resources; in_Power := power;
     in_Desktop := desktop; in_EngineMemoryTotalBytes := st_engineMemoryTotal s;
     in_InputIdle := st_inputIdle s; in_Now := now |}.

Definition reserve_memory (resources : ResourceSnapshot) (reserved : Z) : ResourceSnapshot :=
  if r_WorkerMemoryBudget (c_Resources cfg) =? 0
  then {| resources with rs_AvailableMemoryBytes := availableAfterMemoryReservation (rs_AvailableMemoryBytes resources) reserved |}
  else resources.

(** Go's [==] on resource snapshots: the CPU reading compares as a float. *)
Definition resources_equal (a b : ResourceSnapshot) : bool :=
  (rs_TotalMemoryBytes a =? rs_TotalMemoryBytes b) && (rs_AvailableMemoryBytes a =? rs_AvailableMemoryBytes b)
  && f64_eq (rs_CPUUtilizationPercent a) (rs_CPUUtilizationPercent b).

(** The decision once every input has been read. *)
Definition decide_admission (b : Baseline) (s : StepState) (pool : string) (reserved : Z) (input : PlanInput) : Admission :=
  if plansStart (BuildPlan (in_Now input) input) pool then Allowed
  else if (0 <? reserved) || st_finalAdmissionAttempt s
          || (resources_equal (in_Resources input) (bl_resources b) && bool_decide (in_Desktop input = bl_desktop b))
  then Declined
  else
    let baseline := {| input with in_Resources := bl_resources b; in_Desktop := bl_desktop b |} in
    if plansStart (BuildPlan (in_Now input) baseline) pool then Changed else Declined.

Definition freshStartAllowed (pool : string) (b : Baseline) (reserved : Z) : M Admission :=
  let* loaded := call_ LoadDesired in
  match (match loaded with
         | Ok d => Some d
         | Err e => if is_sentinel ErrStateNotFound e then Some (mkDesiredState 1 ModeDisabled None 0) else None
         end) with
  | None => mret Changed
  | Some desired =>
      let* down := call_ ShuttingDown in
      let desired := shutdown_intent down desired in
      if negb (sameAdmissionIntent (bl_desired b) desired) then mret Changed
      else
        let* power := call_ PowerRead in
        match power with
        | Err _ => mret Changed
        | Ok power =>
            if bool_decide (pw_Policy (c_Power cfg) = PowerACOnly)
               && negb (Bool.eqb (ps_ACConnected power) (ps_ACConnected (bl_power b)))
            then mret Changed
            else
              let* resources := call_ ResourcesRead in
              match resources with
              | Err _ => mret Changed
              | Ok resources =>
                  let* desktop := call_ DesktopStatusRead in
                  match desktop with
                  | Err _ => mret Changed
                  | Ok desktop =>
                      let* listed := call_ WorkersList in
                      match listed with
                      | Err _ => mret Changed
                      | Ok workers =>
                          let* enriched := enrichWorkerJobs workers in
                          match enriched with
                          | Err _ => mret Changed
                          | Ok workers =>
                              let* now := call_ Now in
                              fun s => Ret (s, decide_admission b s pool reserved
                                (admission_input b s desired workers (reserve_memory resources reserved) power desktop now))
                          end
                      end
                  end
              end
        end
  end.

(** ** Executing planned starts *)

(** Deregistration on a context detached from the step. *)
Definition cleanup_runner (pool : string) (runnerID : Z) : M (option error) :=
  lift (deregisterRunner DetachedCtx (en_backoff env) pool runnerID).

Definition inputs_changed : M (option error) :=
  let* _ := call_ (CancelStep errReconcileInputsChanged) in mret (Some errReconcileInputsChanged).

Definition create_jit (ident : Identity) (name : string) : M (result error JITConfig) :=
  lift (RetryValue StepCtx (en_backoff env) Retryable (ask (SSCreateJITConfig ident name))).

(** The container start after both admissions; [true] to go on with the next. *)
Definition start_container (pool name : string) (limits : WorkerProfile) (jit : JITConfig) (now : time) : M bool :=
  let* started := call_ (WorkerStart {|
    sw_PoolID := pool; sw_Name := name; sw_ResourceTier := resourceTier cfg pool; sw_JITConfig := jit;
    sw_Limits := limits; sw_SeccompProfile := SeccompProfileForTarget cfg pool |}) in
  match started with
  | Ok _ => mret true
  | Err e =>
      let* _ := record_ now "worker-start-error" "one-job worker start failed; inventory will reconcile before retry" pool true (Some e) in
      if negb (RunnerStartMayBeActive e) then
        let* cleaned := cleanup_runner pool (jit_runnerID jit) in
        match cleaned with
        | None => mret false
        | Some ce =>
            let* _ := record_ now "failed-start-runner-cleanup-error"
              (safeScaleSetMessage "deregister runner after pre-start failure" ce) pool (Retryable ce) (Some ce) in
            mret false
        end
      else mret false
  end.

(** One decision's worker starts: the reservation after them, and the error
    that ends the step. *)
Fixpoint start_workers (pool : string) (ident : Identity) (limits : WorkerProfile) (b : Baseline) (now : time)
    (n : nat) (reserved : Z) : M (Z * option error) :=
  match n with
  | O => mret (reserved, None)
  | S n =>
      let* canceled := call_ (CtxErr StepCtx) in
      match canceled with
      | Some e => let* _ := add_error e in mret (reserved, None)
      | None =>
          let* admission := freshStartAllowed pool b reserved in
          match admission with
          | Changed => let* err := inputs_changed in mret (reserved, err)
          | Declined => mret (reserved, None)
          | Allowed =>
              let* name := nextRunnerName env now in
              let* jit := create_jit ident name in
              match jit with
              | Err e =>
                  let* _ := record_ now "jit-config-error" (safeScaleSetMessage "create JIT configuration" e) pool (Retryable e) (Some e) in
                  mret (reserved, None)
              | Ok jit =>
                  let* admission := freshStartAllowed pool b reserved in
                  match admission with
                  | Changed =>
                      let* cleaned := cleanup_runner pool (jit_runnerID jit) in
                      let* _ := match cleaned with
                                | Some ce =>
                                    let* at_ := call_ Now in
                                    writeLog (mkLogEvent at_ "unused-jit-runner-cleanup-error"
                                      (safeScaleSetMessage "deregister unused JIT runner" ce) "" "" pool "")
                                | None => mret ()
                                end in
                      let* err := inputs_changed in mret (reserved, err)
                  | Declined =>
                      let* cleaned := cleanup_runner pool (jit_runnerID jit) in
                      let* _ := match cleaned with
                                | Some ce => record_ now "unused-jit-runner-cleanup-error"
                                    (safeScaleSetMessage "deregister unused JIT runner" ce) pool (Retryable ce) (Some ce)
                                | None => mret ()
                                end in
                      mret (reserved, None)
                  | Allowed =>
                      let* continue := start_container pool name limits jit now in
                      if continue
                      then start_workers pool ident limits b now n (saturatingAddUint64 reserved (wp_Memory limits))
                      else mret (reserved, None)
                  end
              end
          end
      end
  end.

Fixpoint executePlannedStarts (starts : list StartDecision) (identities : gmap string Identity) (b : Baseline)
    (now : time) (reserved : Z) : M (Z * option error) :=
  match starts with
  | [] => mret (reserved, None)
  | d :: rest =>
      match identities !! sd_PoolID d with
      | None => executePlannedStarts rest identities b now reserved
      | Some ident =>
          match WorkerForTarget cfg (sd_PoolID d) with
          | None =>
              let* _ := record_ now "worker-profile-missing" "planned worker target has no configured resource profile" (sd_PoolID d) false None in
              executePlannedStarts rest identities b now reserved
          | Some limits =>
              let* outcome := start_workers (sd_PoolID d) ident limits b now (Z.to_nat (sd_Count d)) reserved in
              match outcome with
              | (reserved, Some e) => mret (reserved, Some e)
              | (reserved, None) => executePlannedStarts rest identities b now reserved
              end
          end
      end
  end.

(** ** Retirement *)

(** What the polls of this step established, per pool. *)
Record PollFacts := mkPollFacts {
  pf_acknowledgedCapacity : gmap string Z;
  pf_capacityAcknowledged : gmap string bool;
  pf_zeroAcknowledged : gmap string bool;
  pf_zeroConfirmations : gmap string Z;
}.

(** The order in which the removals of a plan are tried. *)
Definition rotation (cursor : Z) (n : nat) : list nat :=
  let start := Z.to_nat (cursor mod Z.of_nat n) in
  map (fun i => ((start + i) mod n)%nat) (seq 0 n).

(** What the guards of the removal loop decide, in the code's order: [Refuse]
    and [Stale] record a problem, [Defer] only writes a log line. *)
Inductive RemovalVerdict :=
  | Refuse (code message : string) (retryable : bool)
  | Defer (code message : string)
  | Stale
  | RemoveUnregistered
  | RemoveExited
  | Retire.

Definition is_exited (w : Worker) : bool := bool_decide (w_State w = WorkerExited).

Definition removal_verdict (plan : Plan) (facts : PollFacts) (pools : list PoolSnapshot) (jobStateKnown : bool)
    (deregistrations : Z) (w : Worker) : RemovalVerdict :=
  let pool := w_PoolID w in
  let configured := match p_AdvertisedCapacity plan !! pool with Some _ => true | None => false end in
  let required := mget (p_AdvertisedCapacity plan) pool in
  if bool_decide (w_State w = WorkerBusy) then
    Refuse "busy-worker-removal-refused" "controller policy refused to remove a busy worker" false
  else if bool_decide (w_State w = WorkerUnregistered) then RemoveUnregistered
  else if negb (is_exited w) && negb configured then
    Refuse "worker-retirement-pool-unknown" "automatic retirement was refused because the worker pool is not configured and cannot be quiesced" false
  else if negb (is_exited w) && negb jobStateKnown then
    Refuse "worker-retirement-job-state-unknown" "automatic retirement was refused because durable job state is unavailable" true
  else if configured && negb (mgetb (pf_capacityAcknowledged facts) pool) then
    Refuse "worker-removal-capacity-unconfirmed" "idle worker removal was deferred because the listener did not acknowledge the capacity update" true
  else if configured && negb (mget (pf_acknowledgedCapacity facts) pool =? required) then Stale
  else if negb (is_exited w) && configured && negb (required =? 0) then
    Refuse "worker-retirement-quiescence-required" "automatic retirement was deferred because the pool still advertises assignment headroom" false
  else if configured && (required =? 0) && negb (mgetb (pf_zeroAcknowledged facts) pool) then
    Defer "worker-removal-zero-unconfirmed" "idle worker removal was deferred until the listener acknowledges zero capacity"
  else if negb (is_exited w) && (negb (sn_TotalAssignedJobs (findPool pools pool) =? 0)
                                 || (mget (pf_zeroConfirmations facts) pool <? 2)) then
    Defer "worker-retirement-zero-stability-unconfirmed" "automatic retirement was deferred until two capacity-zero polls report no assigned jobs"
  else if is_exited w then RemoveExited
  else if w_RunnerID w <=? 0 then
    Refuse "worker-retirement-runner-id-missing" "automatic retirement was refused because the managed worker has no persisted GitHub runner ID" false
  else if Z.max (r_MaximumConcurrentWorkers (c_Resources cfg)) 1 <=? deregistrations then
    Defer "worker-retirement-deferred-step-budget" "idle worker retirement was deferred to a later reconcile step to stay within this step's deregistration retry budget"
  else Retire.

(** The final conditional removal of a container. *)
Definition remove_container (now : time) (w : Worker) : M () :=
  let* removed := call_ (RemoveIfIdle (w_ID w)) in
  match removed with
  | Err e => record_ now "worker-remove-error" "idle worker removal failed" (w_PoolID w) true (Some e)
  | Ok true => mret ()
  | Ok false => record_ now "worker-became-busy" "worker acquired work during drain and was preserved" (w_PoolID w) false None
  end.

Definition remove_unregistered (now : time) (w : Worker) : M () :=
  let* removed := call_ (RemoveIfIdle (w_ID w)) in
  match removed with
  | Err e => record_ now "unregistered-worker-remove-error" "unregistered idle worker removal failed" (w_PoolID w) true (Some e)
  | Ok false => record_ now "unregistered-worker-became-busy" "worker acquired work during final removal verification and was preserved" (w_PoolID w) false None
  | Ok true => writeLog (mkLogEvent now "unregistered-worker-removed"
                 "removed idle container after GitHub deleted its one-job registration" "" "" (w_PoolID w) (w_ID w))
  end.

(** What the loop carries: the IDs it has handled, the deregistrations it has
    made and whether a removal was deferred as stale. *)
Record RemovalState := mkRemovalState {
  rm_seen : gset string;
  rm_deregistrations : Z;
  rm_stale : bool;
}.

Definition remove_worker (plan : Plan) (facts : PollFacts) (pools : list PoolSnapshot) (jobStateKnown : bool)
    (now : time) (st : RemovalState) (w : Worker) : M RemovalState :=
  if bool_decide (w_ID w ∈ rm_seen st) then mret st
  else
    let st := {| st with rm_seen := {[w_ID w]} ∪ rm_seen st |} in
    let pool := w_PoolID w in
    match removal_verdict plan facts pools jobStateKnown (rm_deregistrations st) w with
    | Refuse code message retryable => let* _ := record_ now code message pool retryable None in mret st
    | Defer code message => let* _ := note now code message pool in mret st
    | Stale =>
        let* _ := record_ now "worker-removal-capacity-stale" "idle worker removal was deferred until the listener acknowledges the current planned capacity" pool true None in
        mret {| st with rm_stale := true |}
    | RemoveUnregistered => let* _ := remove_unregistered now w in mret st
    | RemoveExited => let* _ := remove_container now w in mret st
    | Retire =>
        let st := {| st with rm_deregistrations := rm_deregistrations st + 1 |} in
        let* failed := lift (deregisterRunner StepCtx (en_backoff env) pool (w_RunnerID w)) in
        match failed with
        | Some e =>
            let* _ := record_ now "runner-deregistration-error" (safeScaleSetMessage "deregister quiesced runner" e) pool (Retryable e) (Some e) in
            mret st
        | None => let* _ := remove_container now w in mret st
        end
    end.

Fixpoint remove_each (plan : Plan) (facts : PollFacts) (pools : list PoolSnapshot) (jobStateKnown : bool)
    (now : time) (st : RemovalState) (ws : list Worker) : M RemovalState :=
  match ws with
  | [] => mret st
  | w :: rest =>
      let* st := remove_worker plan facts pools jobStateKnown now st w in
      remove_each plan facts pools jobStateKnown now st rest
  end.

(** The whole loop: rotated order, then the cursor moves past the
    deregistrations made.  Returns whether a removal was stale. *)
Definition remove_workers (plan : Plan) (facts : PollFacts) (pools : list PoolSnapshot) (jobStateKnown : bool)
    (now : time) : M bool :=
  let* cursor := gets st_retirementCursor in
  let order := rotation cursor (length (p_Remove plan)) in
  let* st := remove_each plan facts pools jobStateKnown now (mkRemovalState ∅ 0 false)
               (omap (fun i => p_Remove plan !! i) order) in
  let* _ := modify (fun s => {| s with st_retirementCursor := wrap_u64 (st_retirementCursor s + rm_deregistrations st) |}) in
  mret (rm_stale st).

(** ** Registration checks *)

Definition registration_candidate (pools : list PoolSnapshot) (w : Worker) : bool :=
  bool_decide (w_State w = WorkerIdle) && String.eqb (w_JobID w) "" && (0 <? w_RunnerID w)
  && sn_Ready (findPool pools (w_PoolID w)).

Definition candidate_indexes (pools : list PoolSnapshot) (workers : list Worker) : list nat :=
  omap (fun '(i, w) => if registration_candidate pools w then Some i else None) (imap pair workers).

(** The rotated candidates; [checked] counts the verifications made. *)
Fixpoint check_registrations (now : time) (limit : Z) (order : list nat) (checked : Z) (workers : list Worker)
    : M (list Worker * Z) :=
  match order with
  | [] => mret (workers, checked)
  | i :: rest =>
      match workers !! i with
      | None => check_registrations now limit rest checked workers
      | Some w =>
          if limit <=? checked then
            let* _ := note now "worker-registration-check-deferred-step-budget" "registration verification was deferred to a later reconcile step because this step already reached its per-step registration-check budget" (w_PoolID w) in
            check_registrations now limit rest checked workers
          else
            let* registered := lift (runnerRegistered (en_backoff env) (w_PoolID w) (w_RunnerID w) (w_Name w)) in
            match registered with
            | Err e =>
                let* _ := record_ now "runner-registration-check-error" (safeScaleSetMessage "verify runner registration" e) (w_PoolID w) (Retryable e) (Some e) in
                check_registrations now limit rest (checked + 1) workers
            | Ok true => check_registrations now limit rest (checked + 1) workers
            | Ok false =>
                let* _ := writeLog (mkLogEvent now "runner-registration-missing" "idle worker registration no longer exists and will be retired" "" "" (w_PoolID w) (w_ID w)) in
                check_registrations now limit rest (checked + 1) (<[i := {| w with w_State := WorkerUnregistered |}]> workers)
            end
      end
  end.

Definition verify_registrations (now : time) (pools : list PoolSnapshot) (workers : list Worker) : M (list Worker) :=
  let candidates := candidate_indexes pools workers in
  if bool_decide (candidates = []) then mret workers
  else
    let* cursor := gets st_registrationCheckCursor in
    let order := omap (fun i => candidates !! i) (rotation cursor (length candidates)) in
    let* outcome := check_registrations now (Z.max (r_MaximumConcurrentWorkers (c_Resources cfg)) 1) order 0 workers in
    match outcome with
    | (workers, checked) =>
        let* _ := modify (fun s => {| s with st_registrationCheckCursor := wrap_u64 (st_registrationCheckCursor s + checked) |}) in
        mret workers
    end.

(** ** Gaming shutdown *)

Definition stop_wsl (now : time) (plan : Plan) : M () :=
  if p_ShutdownWSL plan then
    let* failed := call_ ShutdownAllWSL in
    match failed with
    | Some e => record_ now "wsl-shutdown-error" "one or more WSL distributions remain running" "" true (Some e)
    | None => mret ()
    end
  else mret ().

Definition stop_host (now : time) (plan : Plan) : M () :=
  let* _ := if p_StopDesktop plan then
              let* failed := call_ (DesktopStop (dd_StopTimeout (c_DockerDesktop cfg))) in
              match failed with
              | Some e => record_ now "desktop-stop-error" "Docker Desktop did not stop within the configured policy" "" true (Some e)
              | None => mret ()
              end
            else mret () in
  stop_wsl now plan.

Definition shut_down_host (now : time) (plan : Plan) (facts : PollFacts) (desktop : DesktopStatus) (desktopStatusKnown : bool) : M () :=
  if negb (p_StopDesktop plan || p_ShutdownWSL plan) then mret ()
  else if negb (allTargetsStablyZero (c_Targets cfg) (pf_zeroAcknowledged facts) (pf_zeroConfirmations facts)) then
    note now "gaming-zero-capacity-unconfirmed" "Docker and WSL shutdown was deferred until every listener has two zero-capacity, zero-assignment confirmations" ""
  else
    let* inventory := if mayHaveManagedWorkers desktop desktopStatusKnown then call_ WorkersList else mret (Ok []) in
    match inventory with
    | Err e => record_ now "gaming-preflight-error" "gaming shutdown was deferred because worker status could not be verified" "" true (Some e)
    | Ok workers =>
        let* enriched := enrichWorkerJobs workers in
        match enriched with
        | Err e => record_ now "gaming-job-index-error" "gaming shutdown was deferred because durable job lifecycle state could not be verified" "" true (Some e)
        | Ok workers =>
            if containsActiveWorker workers then
              record_ now "gaming-active-race" "gaming shutdown was deferred because a managed worker is still active" "" false None
            else
              stop_host now plan
        end
    end.
End Reconciler.
