(* ===== verification/Cadence.v ===== *)
(** The goroutines beside a listener poll: the cadence watcher that keeps the
    checkpoint alive and supersedes the poll (internal/controller/poll_cadence.go,
    [watchPollCadence]), the watcher of the safety inputs
    (reconciler.go, [watchSafetyInputs]) and the persistence both share. *)

From S2P Require Import Prelude Float64 Model Config PlanGates Plan Capacity Errors GoStrings JobIndex Effects Retry Reconciler.
Open Scope Z_scope.
Open Scope m_scope.

(** ** Persistence *)

(** The heartbeat is published only once the state is stored. *)
Definition persistObserved (observed : ObservedState) : M (option error) :=
  let* failed := call_ (SaveObserved observed) in
  match failed with
  | Some e => mret (Some e)
  | None =>
      let* _ := modify (fun s => {| s with st_heartbeat := wrap_i64 (os_HeartbeatAt observed - unix_epoch) |}) in
      mret None
  end.

(** The gauges published after the write are not modelled. *)
Definition persistPollCheckpoint (observed : ObservedState) : M (option error) := persistObserved observed.

Definition controllerCost : M ControllerCost :=
  let* last := gets st_lastTickNanos in
  let* cpu := call_ ProcessCPUSeconds in
  mret (mkControllerCost (Duration_Seconds last) cpu).

(** ** The cadence watcher *)

Record pollCadenceState := mkPollCadenceState {
  cs_desired : DesiredState;
  cs_observed : ObservedState;
  cs_pools : list PoolSnapshot;
  cs_workers : list Worker;
  cs_desktop : DesktopStatus;
  cs_advertised : gmap string Z;
  cs_operationProblems : list Problem;
  cs_forcedZero : bool;
  cs_checkpointErr : option error;
  cs_engineMemoryTotal : Z;
}.

Record pollCadenceResult := mkPollCadenceResult {
  cr_observed : ObservedState;
  cr_checkpointErr : option error;
  cr_superseded : bool;
}.

(** What one tick observed: the readings, or the sources that failed. *)
Record TickReadings := mkTickReadings {
  tk_power : result error PowerSnapshot;
  tk_resources : result error ResourceSnapshot;
  tk_workers : result error (list Worker);
  tk_workerSource : string;
}.

Definition tick_readings : M TickReadings :=
  let* power := call_ PowerRead in
  let* resources := call_ ResourcesRead in
  let* listed := call_ WorkersList in
  match listed with
  | Err e => mret (mkTickReadings power resources (Err e) "workers")
  | Ok workers =>
      let* enriched := enrichWorkerJobs workers in
      mret (mkTickReadings power resources enriched "worker-jobs")
  end.

Definition failed_sources (t : TickReadings) : list string :=
  (match tk_power t with Err _ => ["power"] | Ok _ => [] end)
  ++ (match tk_resources t with Err _ => ["resources"] | Ok _ => [] end)
  ++ (match tk_workers t with Err _ => [tk_workerSource t] | Ok _ => [] end).

(** How a tick ends: the watcher goes on, or returns. *)
Inductive TickOutcome :=
  | Continue (state : pollCadenceState) (result : pollCadenceResult)
  | Return (result : pollCadenceResult).

Section Cadence.
Context `{MapRange} (env : Env).
Local Abbreviation cfg := (en_config env).

Definition cadence_input (state : pollCadenceState) (workers : list Worker) (resources : ResourceSnapshot)
    (power : PowerSnapshot) (idle : option duration) (now : time) : PlanInput :=
  {| in_Config := cfg; in_Desired := cs_desired state; in_Previous := cs_observed state;
     in_CapacityHysteresis := cs_advertised state; in_Pools := cs_pools state; in_Workers := workers;
     in_Resources := resources; in_Power := power; in_Desktop := cs_desktop state;
     in_EngineMemoryTotalBytes := cs_engineMemoryTotal state; in_InputIdle := idle; in_Now := now |}.

(** Whether the open poll must not outlive what the tick planned. *)
Definition poll_withdrawn (state : pollCadenceState) (plan : Plan) (resources : ResourceSnapshot) (workers : list Worker) : bool :=
  capacityDecreased (cs_advertised state) (p_AdvertisedCapacity plan)
  || advertisedCapacityExceedsMemoryFunding (cs_advertised state) resources workers cfg (cs_engineMemoryTotal state).

(** [pollCheckpoint] on the reconciler's pending map. *)
Definition checkpoint_now (previous : ObservedState) (pools : list PoolSnapshot) (workers : list Worker)
    (resources : ResourceSnapshot) (power : PowerSnapshot) (desktop : DesktopStatus) (plan : Plan) (now : time)
    (operationProblems : list Problem) : M ObservedState :=
  let* cost := controllerCost in
  let* pending := gets st_pendingCapacity in
  match pollCheckpoint cfg (en_version env) cost pending previous pools workers resources power desktop plan now operationProblems with
  | (observed, pending) =>
      let* _ := modify (fun s => {| s with st_pendingCapacity := pending |}) in
      mret observed
  end.

(** The rest of a tick whose readings all succeeded and found the same workers. *)
Definition tick_plan (state : pollCadenceState) (result : pollCadenceResult) (now : time) (power : PowerSnapshot)
    (resources : ResourceSnapshot) (workers : list Worker) : M TickOutcome :=
  let* idle := readInputIdle in
  let input := cadence_input state workers resources power idle now in
  let* _ := noteInteractiveCap input now in
  let plan := BuildPlan now input in
  let plan := set_advertised plan (sequenceCapacityTransfer (cs_observed state) (p_AdvertisedCapacity plan)) in
  let* checkpoint := checkpoint_now (cs_observed state) (cs_pools state) (cs_workers state) resources power
                       (cs_desktop state) plan now (cs_operationProblems state) in
  let state := {| state with cs_observed := checkpoint |} in
  let result := {| result with cr_observed := checkpoint |} in
  let* checkpointErr := persistPollCheckpoint checkpoint in
  let* done := call_ (CtxErr WatchCtx) in
  let result := match done with None => {| result with cr_checkpointErr := checkpointErr |} | Some _ => result end in
  let withdrawn := poll_withdrawn state plan resources workers in
  let restored := capacityRestoredFromZero (cs_advertised state) (p_AdvertisedCapacity plan) in
  if withdrawn || (restored && match checkpointErr with None => true | Some _ => false end) then
    let* _ := if withdrawn
              then modify (fun s => {| s with st_pendingCapacity := seedPendingCapacity (st_pendingCapacity s)
                     (memoryAffordableAdvertisedCapacity (cs_advertised state) resources workers cfg (cs_engineMemoryTotal state)) |})
              else mret () in
    let message := if withdrawn then "open listener poll was restarted to withdraw advertised capacity"
                   else "open listener poll was restarted to advertise restored capacity" in
    let* _ := writeLog (mkLogEvent now "listener-poll-superseded" message "" "" "" "") in
    let* _ := call_ (CancelStep errReconcileInputsChanged) in
    mret (Return {| result with cr_superseded := true |})
  else mret (Continue state result).

(** A tick without usable readings: the heartbeat moves, and a failed
    observation restarts the poll. *)
Definition tick_heartbeat (state : pollCadenceState) (result : pollCadenceResult) (now : time) (sources : list string) : M TickOutcome :=
  let checkpoint := cs_observed state in
  let checkpoint := {| checkpoint with os_HeartbeatAt := now |} in
  let state := {| state with cs_observed := checkpoint |} in
  let result := {| result with cr_observed := checkpoint |} in
  let* checkpointErr := persistPollCheckpoint checkpoint in
  let* done := call_ (CtxErr WatchCtx) in
  let result := match done with None => {| result with cr_checkpointErr := checkpointErr |} | Some _ => result end in
  if bool_decide (sources = []) then mret (Continue state result)
  else
    let* _ := forM sources (fun source => writeLog (mkLogEvent now "listener-cadence-observation-error"
                "host observation failed during an open listener poll; the poll will restart" "" source "" "")) in
    let* _ := call_ (CancelStep errReconcileInputsChanged) in
    mret (Return result).

Definition cadence_tick (state : pollCadenceState) (result : pollCadenceResult) : M TickOutcome :=
  let* now := call_ Now in
  if cs_forcedZero state then tick_heartbeat state result now []
  else
    let* t := tick_readings in
    let* done := call_ (CtxErr WatchCtx) in
    match done with
    | Some _ => mret (Return result)
    | None =>
        match tk_power t, tk_resources t, tk_workers t with
        | Ok power, Ok resources, Ok workers =>
            if negb (sameWorkerInventory (cs_workers state) workers) then
              let* _ := call_ (CancelStep errReconcileInputsChanged) in mret (Return result)
            else tick_plan state result now power resources workers
        | _, _, _ => tick_heartbeat state result now (failed_sources t)
        end
    end.

(** At most [ticks] ticks fire before the poll ends. *)
Fixpoint cadence_loop (ticks : nat) (state : pollCadenceState) (result : pollCadenceResult) : M pollCadenceResult :=
  match ticks with
  | O => mret result
  | S ticks =>
      let* fired := call_ PollTick in
      if negb fired then mret result
      else
        let* outcome := cadence_tick state result in
        match outcome with
        | Continue state result => cadence_loop ticks state result
        | Return result => mret result
        end
  end.

Definition watchPollCadence (ticks : nat) (state : pollCadenceState) : M pollCadenceResult :=
  cadence_loop ticks state (mkPollCadenceResult (cs_observed state) (cs_checkpointErr state) false).

(** ** The safety watcher *)

(** One tick: whether the step is canceled. *)
Definition safety_tick (desired : DesiredState) (power : PowerSnapshot) (forcedZero : bool) : prog bool :=
  if forcedZero then Ret false
  else
    bind (ask LoadDesired) (fun loaded =>
    let latest := match loaded with
                  | Ok d => Some d
                  | Err e => if is_sentinel ErrStateNotFound e then Some (mkDesiredState 1 ModeDisabled None 0) else None
                  end in
    if negb (match latest with Some d => sameAdmissionIntent desired d | None => false end)
    then bind (ask (CancelStep errReconcileInputsChanged)) (fun _ => Ret true)
    else if negb (bool_decide (pw_Policy (c_Power cfg) = PowerACOnly)) then Ret false
    else
      bind (ask PowerRead) (fun latestPower =>
      if negb (match latestPower with Ok p => Bool.eqb (ps_ACConnected p) (ps_ACConnected power) | Err _ => false end)
      then bind (ask (CancelStep errReconcileInputsChanged)) (fun _ => Ret true)
      else Ret false)).

Fixpoint watchSafetyInputs (ticks : nat) (desired : DesiredState) (power : PowerSnapshot) (forcedZero : bool) : prog () :=
  match ticks with
  | O => Ret ()
  | S ticks =>
      bind (ask WatchTick) (fun fired =>
      if negb fired then Ret ()
      else bind (safety_tick desired power forcedZero) (fun canceled =>
           if canceled then Ret () else watchSafetyInputs ticks desired power forcedZero))
  end.
End Cadence.
