(* ===== verification/Step.v ===== *)
(** One reconciliation step, as a whole (internal/controller/reconciler.go,
    [step] and [Step]): load the intent and the last checkpoint, observe the
    host, ensure the scale sets, plan, start workers, poll every listener beside
    the cadence watcher, verify registrations, plan again, retire and start
    workers, shut the host down for gaming, and store what was observed.

    The safety watcher runs beside all of it ([Cadence.watchSafetyInputs]); the
    only effect it can have on the step is to cancel it, which the answers of
    [CtxErr] and [CtxCause] range over. *)

From S2P Require Import Prelude Float64 Model Config PlanGates Plan Capacity Errors GoStrings JobIndex Effects Retry Reconciler Cadence.
Open Scope Z_scope.
Open Scope m_scope.

(** ** Results *)

Record ReconcileResult := mkReconcileResult {
  rr_Observed : ObservedState;
  rr_Plan : option Plan;
  rr_CheckpointAge : duration;
  rr_CheckpointAgeValid : bool;
  rr_NewWorkBlocked : bool;
}.

(** Go's zero result, but for the blocked flag; [None] is the zero plan. *)
Definition empty_result (blocked : bool) : ReconcileResult := mkReconcileResult ObservedState_zero None 0 false blocked.

Definition StepOutcome : Type := ReconcileResult * option error.

(** ** Loading *)

(** What the state directory says: the intent, with the error that forced it,
    and the last checkpoint. *)
Record Loaded := mkLoaded {
  ld_desired : DesiredState;
  ld_desiredErr : option error;
  ld_previous : ObservedState;
  ld_checkpointAge : duration;
  ld_checkpointAgeValid : bool;
  ld_recoveryOnly : bool;
  ld_observedErr : option error;
  ld_transient : bool;
}.

Definition disabled_at (now : time) : DesiredState := mkDesiredState 1 ModeDisabled None now.

Definition load_desired (now : time) : M (result error (DesiredState * option error)) :=
  let* loaded := call_ LoadDesired in
  match loaded with
  | Ok d => mret (Ok (d, None))
  | Err e =>
      if is_sentinel ErrStateNotFound e then
        let* failed := call_ (SaveDesired (disabled_at now)) in
        mret match failed with
             | Some e => Err (ErrWrap "initialize desired state" e)
             | None => Ok (disabled_at now, None)
             end
      else mret (Ok (disabled_at now, Some (ErrWrap "load desired state" e)))
  end.

(** The last checkpoint: a corrupt one is quarantined and starts a recovery in
    which nothing but zero is advertised. *)
Definition load_observed (now : time) (desired : DesiredState) (desiredErr : option error) : M (result error Loaded) :=
  let* loaded := call_ LoadObserved in
  match loaded with
  | Ok previous =>
      let valid := negb (IsZero (os_HeartbeatAt previous)) && negb (After (os_HeartbeatAt previous) now) in
      mret (Ok (mkLoaded desired desiredErr previous (if valid then Sub now (os_HeartbeatAt previous) else 0) valid false None false))
  | Err e =>
      if is_sentinel ErrStateNotFound e then
        mret (Ok (mkLoaded desired desiredErr ObservedState_zero 0 false false None false))
      else if is_sentinel ErrCorruptObserved e then
        let* quarantined := call_ QuarantineObserved in
        match quarantined with
        | None => mret (Err (ErrJoin [ErrUnsafeObservedState; e]))
        | Some (Some qe) => mret (Err (ErrJoin [ErrUnsafeObservedState; e; qe]))
        | Some None =>
            mret (Ok (mkLoaded (shutdown_intent true desired) desiredErr ObservedState_zero 0 false true (Some e) false))
        end
      else mret (Ok (mkLoaded desired desiredErr ObservedState_zero 0 false false (Some (ErrWrap "load observed state" e)) true))
  end.

Definition report_load_errors (now : time) (l : Loaded) : M () :=
  let* _ := match ld_desiredErr l with
            | Some e => record_ now "desired-state-error" "desired state could not be read; capacity is held at zero" "" true (Some e)
            | None => mret ()
            end in
  match ld_observedErr l with
  | Some e =>
      if ld_transient l
      then record_ now "observed-state-error" "observed state could not be read; new work is blocked" "" true (Some e)
      else record_ now "observed-state-recovered" "corrupt observed state was quarantined; exact configured listeners are held at zero and lifecycle mutations are suspended" "" false (Some e)
  | None => mret ()
  end.

(** ** Observation *)

(** The step's readings of the host; [vw_failed] is [observationFailed]. *)
Record View := mkView {
  vw_power : PowerSnapshot;
  vw_powerKnown : bool;
  vw_desktop : DesktopStatus;
  vw_desktopKnown : bool;
  vw_resources : ResourceSnapshot;
  vw_workers : list Worker;
  vw_jobStateKnown : bool;
  vw_failed : bool;
}.

Definition PowerSnapshot_zero : PowerSnapshot := mkPowerSnapshot false 0.
Definition DesktopStatus_zero : DesktopStatus := mkDesktopStatus false false 0.

Definition View_zero (failed : bool) : View :=
  mkView PowerSnapshot_zero false DesktopStatus_zero false ResourceSnapshot_zero [] true failed.

(** A failed refresh of the inventory or of the job index blocks new work. *)
Definition view_blocked (v : View) : View :=
  {| v with vw_jobStateKnown := false; vw_failed := true; vw_resources := ResourceSnapshot_zero |}.

Definition observe_power (now : time) (v : View) : M View :=
  let* power := call_ PowerRead in
  match power with
  | Ok power => mret {| v with vw_power := power; vw_powerKnown := true |}
  | Err e =>
      let* _ := record_ now "power-monitor-error" "power observation failed; new work is blocked" "" true (Some e) in
      mret {| v with vw_failed := true |}
  end.

Definition observe_desktop (now : time) (v : View) : M View :=
  let* desktop := call_ DesktopStatusRead in
  match desktop with
  | Ok desktop => mret {| v with vw_desktop := desktop; vw_desktopKnown := true |}
  | Err e =>
      let* _ := record_ now "desktop-status-error" "Docker Desktop status failed; new work is blocked" "" true (Some e) in
      mret {| v with vw_failed := true |}
  end.

Section Step.
Context `{MapRange} (env : Env).
Local Abbreviation cfg := (en_config env).

(** Enabled mode starts a desktop that is known to be down, when power allows it. *)
Definition bootstrap_desktop (now : time) (l : Loaded) (v : View) : M View :=
  if negb (bool_decide (ds_Mode (ld_desired l) = ModeEnabled) && vw_desktopKnown v && vw_powerKnown v) then mret v
  else if negb ((evaluatePowerGate (os_PowerGate (ld_previous l)) (vw_power v) (c_Power cfg) now).2 && desktop_down (vw_desktop v)) then mret v
  else
    let* failed := call_ (DesktopStart (dd_StartTimeout (c_DockerDesktop cfg))) in
    match failed with
    | Some e =>
        let* _ := record_ now "desktop-start-error" "Docker Desktop did not start within the configured policy" "" true (Some e) in
        mret {| v with vw_failed := true |}
    | None =>
        let* refreshed := call_ DesktopStatusRead in
        match refreshed with
        | Err e =>
            let* _ := record_ now "desktop-start-status-error" "Docker Desktop status could not be verified after startup" "" true (Some e) in
            mret {| v with vw_desktopKnown := false; vw_failed := true |}
        | Ok desktop =>
            let v := {| v with vw_desktop := desktop |} in
            if desktop_down desktop then
              let* _ := record_ now "desktop-start-verification-error" "Docker Desktop did not reach a usable state after startup" "" true
                          (Some (ErrNew "desktop remained stopped or its Docker engine remained unreachable after startup")) in
              mret {| v with vw_failed := true |}
            else mret v
        end
    end.

Definition observe_host (now : time) (v : View) : M View :=
  let* resources := call_ ResourcesRead in
  let* v := match resources with
            | Ok resources => mret {| v with vw_resources := resources |}
            | Err e =>
                let* _ := record_ now "resource-monitor-error" "resource observation failed; new work is blocked" "" true (Some e) in
                mret {| v with vw_failed := true |}
            end in
  if negb (mayHaveManagedWorkers (vw_desktop v) (vw_desktopKnown v)) then mret v
  else
    let* listed := call_ WorkersList in
    match listed with
    | Ok workers => mret {| v with vw_workers := workers |}
    | Err e =>
        let* _ := record_ now "worker-inventory-error" "managed-worker inventory failed; new work is blocked" "" true (Some e) in
        mret {| v with vw_failed := true |}
    end.

(** An invalid observation fails closed in the planner, except while the desktop
    is known to be down. *)
Definition desktop_known_down (v : View) : bool :=
  vw_desktopKnown v && negb (dk_DesktopRunning (vw_desktop v)) && negb (dk_EngineReachable (vw_desktop v)).

Definition discard_resources (v : View) : View :=
  if vw_failed v && negb (desktop_known_down v) then {| v with vw_resources := ResourceSnapshot_zero |} else v.

Definition observe_jobs (now : time) (v : View) : M View :=
  let* enriched := enrichWorkerJobs (vw_workers v) in
  match enriched with
  | Ok workers => mret {| v with vw_workers := workers |}
  | Err e =>
      let* _ := record_ now "job-index-error" "durable job lifecycle state could not be read; new work and automatic retirement are blocked" "" true (Some e) in
      mret (view_blocked v)
  end.

(** Whether the step's watchers hold every listener at zero whatever changes:
    the flag is read last. *)
Definition forced_zero (known : bool) : M bool := if known then mret true else call_ ShuttingDown.

Definition is_err (e : option error) : bool := match e with Some _ => true | None => false end.

(** Everything [step] observes before it talks to GitHub. *)
Definition observe (now : time) (l : Loaded) : M View :=
  let* idle := readInputIdle in
  let* _ := modify (fun s => {| s with st_inputIdle := idle;
       st_capLogged := if decide (st_capLogged s = capStateUnknown) then capStateOf (pr_InteractiveCapActive (os_Presence (ld_previous l)))
                       else st_capLogged s |}) in
  let* _ := noteInteractiveCap {| in_Config := cfg; in_Desired := ld_desired l; in_Previous := ObservedState_zero;
              in_CapacityHysteresis := ∅; in_Pools := []; in_Workers := []; in_Resources := ResourceSnapshot_zero;
              in_Power := PowerSnapshot_zero; in_Desktop := DesktopStatus_zero; in_EngineMemoryTotalBytes := 0;
              in_InputIdle := idle; in_Now := 0 |} now in
  let* v := observe_power now (View_zero (ld_transient l)) in
  let* _ := forced_zero (ld_recoveryOnly l || is_err (ld_desiredErr l) || negb (vw_powerKnown v)) in
  let* v := observe_desktop now v in
  let* v := bootstrap_desktop now l v in
  let* _ := probeEngineMemory env now (vw_desktopKnown v) (vw_desktop v) in
  let* v := observe_host now v in
  observe_jobs now (discard_resources v).

(** ** Scale sets *)

(** The identity a saved observation offers for reuse. *)
Definition prior_identity (reregister : bool) (saved : option PoolObservation) : option Identity :=
  if reregister then None
  else match saved with
       | Some o => if (0 <? po_ScaleSetID o) && negb (String.eqb (po_ListenerID o) "")
                   then Some (mkIdentity (po_ScaleSetID o) (po_ListenerID o)) else None
       | None => None
       end.

(** The capacity that still serves jobs a drain has accepted. *)
Definition drain_capacity (prior : PoolObservation) (remembered : Z) : Z :=
  let drain := if (po_DrainServiceCapacity prior =? 0) && (0 <? po_MaxCapacity prior)
               then po_MaxCapacity prior else po_DrainServiceCapacity prior in
  Z.max drain remembered.

(** What the loop over the targets builds. *)
Record Ensured := mkEnsured {
  es_pools : list PoolSnapshot;
  es_identities : gmap string Identity;
  es_reregisterFailed : bool;
}.

Definition ensure_target (now : time) (previousPools : gmap string PoolObservation) (reregister : bool)
    (acc : Ensured) (target : Target) : M Ensured :=
  let id := t_ID target in
  let* outcome := lift (ensure (en_backoff env) target (prior_identity reregister (previousPools !! id))) in
  match outcome with
  | Err e =>
      let* _ := record_ now "scale-set-ensure-error" (safeScaleSetMessage "ensure" e) id (Retryable e) (Some e) in
      mret {| acc with es_pools := es_pools acc ++ [mkPoolSnapshot id Identity_zero 0 0 false];
                       es_reregisterFailed := es_reregisterFailed acc || reregister |}
  | Ok identity_ =>
      let* remembered := gets (fun s => mget (st_drainCapacity s) id) in
      let prior := default PoolObservation_zero (previousPools !! id) in
      mret {| acc with
        es_pools := es_pools acc ++ [mkPoolSnapshot id identity_ (po_TotalAssignedJobs prior) (drain_capacity prior remembered) true];
        es_identities := <[id := identity_]> (es_identities acc) |}
  end.

Fixpoint ensure_each (now : time) (previousPools : gmap string PoolObservation) (reregister : bool)
    (acc : Ensured) (targets : list Target) : M Ensured :=
  match targets with
  | [] => mret acc
  | t :: rest =>
      let* acc := ensure_target now previousPools reregister acc t in
      ensure_each now previousPools reregister acc rest
  end.

Definition ensure_targets (now : time) (previousPools : gmap string PoolObservation) : M Ensured :=
  let* reregister := gets st_reregisterListeners in
  let* _ := if reregister
            then writeLog (mkLogEvent now "listener-handshake-reregister" "repeated stale capacity handshake; opening a new listener session" "" "" "" "")
            else mret () in
  let* acc := ensure_each now previousPools reregister (mkEnsured [] ∅ false) (c_Targets cfg) in
  let* _ := if reregister && negb (es_reregisterFailed acc) then modify clearStaleHandshake else mret () in
  mret acc.

(** ** Planning *)

Definition plan_with (l : Loaded) (v : View) (previous : ObservedState) (hysteresis : gmap string Z)
    (pools : list PoolSnapshot) (now : time) : M Plan :=
  gets (fun s => BuildPlan now {|
    in_Config := cfg; in_Desired := ld_desired l; in_Previous := previous; in_CapacityHysteresis := hysteresis;
    in_Pools := pools; in_Workers := vw_workers v; in_Resources := vw_resources v; in_Power := vw_power v;
    in_Desktop := vw_desktop v; in_EngineMemoryTotalBytes := st_engineMemoryTotal s;
    in_InputIdle := st_inputIdle s; in_Now := now |}).

Definition start_desktop (now : time) (plan : Plan) : M () :=
  if negb (p_StartDesktop plan) then mret ()
  else
    let* failed := call_ (DesktopStart (dd_StartTimeout (c_DockerDesktop cfg))) in
    match failed with
    | Some e => record_ now "desktop-start-error" "Docker Desktop did not start within the configured policy" "" true (Some e)
    | None => mret ()
    end.

(** A refresh of the worker inventory; [inr] reports which of the two reads failed. *)
Definition refresh_workers (now : time) (listCode listMessage jobCode jobMessage : string) (v : View) : M (View * bool) :=
  if negb (mayHaveManagedWorkers (vw_desktop v) (vw_desktopKnown v)) then mret (v, false)
  else
    let* listed := call_ WorkersList in
    match listed with
    | Err e => let* _ := record_ now listCode listMessage "" true (Some e) in mret (view_blocked v, true)
    | Ok latest =>
        let* enriched := enrichWorkerJobs latest in
        match enriched with
        | Err e => let* _ := record_ now jobCode jobMessage "" true (Some e) in mret (view_blocked v, true)
        | Ok workers => mret ({| v with vw_workers := workers |}, false)
        end
    end.

Definition refresh_before_poll (now : time) : View -> M (View * bool) :=
  refresh_workers now "worker-pre-poll-refresh-error" "managed-worker refresh failed before the listener poll; new work is blocked"
    "job-index-pre-poll-refresh-error" "durable job lifecycle state could not be refreshed before the listener poll; new work is blocked".

Definition refresh_after_poll (now : time) : View -> M (View * bool) :=
  refresh_workers now "worker-refresh-error" "managed-worker refresh failed after capacity update; new work is blocked"
    "job-index-refresh-error" "durable job lifecycle state could not be refreshed after the capacity update; automatic retirement is blocked".

Definition baseline (l : Loaded) (v : View) (previous : ObservedState) (pools : list PoolSnapshot) : Baseline :=
  mkBaseline pools previous (ld_desired l) (vw_power v) (vw_resources v) (vw_desktop v).

(** The starts before the poll: [Err] ends the step; the flag tells whether the
    refresh after them failed. *)
Definition start_before_poll (now : time) (l : Loaded) (v : View) (e : Ensured) (provisional : Plan)
    : M (result error (View * bool * Z)) :=
  if ld_recoveryOnly l then mret (Ok (v, false, 0))
  else
    let* _ := start_desktop now provisional in
    if bool_decide (p_Start provisional = []) then mret (Ok (v, false, 0))
    else
      let* outcome := executePlannedStarts env (p_Start provisional) (es_identities e) (baseline l v (ld_previous l) (es_pools e)) now 0 in
      match outcome with
      | (_, Some err) => mret (Err err)
      | (reserved, None) =>
          let* refreshed := refresh_before_poll now v in
          match refreshed with (v, failed) => mret (Ok (v, failed, reserved)) end
      end.

(** The capacities the poll carries. *)
Definition poll_capacity (previous : ObservedState) (pending : gmap string Z) (refreshFailed : bool) (planned : gmap string Z) : gmap string Z :=
  let advertised := sequenceCapacityTransfer previous planned in
  let advertised := match pendingCapacitySnapshot pending with
                    | Some pending => clamp_pending pending advertised
                    | None => advertised
                    end in
  if refreshFailed then (fun _ => 0) <$> advertised else advertised.

(** ** Polling *)

Record pollResult := mkPollResult {
  pl_index : nat;
  pl_stats : result error Z;
  pl_identity : Identity;
  pl_advertised : Z;
}.

Definition poll_one (advertised : gmap string Z) (index : nat) (pool : PoolSnapshot) : prog pollResult :=
  let capacity := mget advertised (sn_TargetID pool) in
  bind (statistics (en_backoff env) (target_of cfg (sn_TargetID pool)) (sn_Identity pool) capacity)
       (fun '(stats, identity_) => Ret (mkPollResult index stats identity_ capacity)).

(** One goroutine per ready pool. *)
Definition poll_programs (advertised : gmap string Z) (pools : list PoolSnapshot) : list (prog pollResult) :=
  omap (fun '(i, pool) => if sn_Ready pool then Some (poll_one advertised i pool) else None) (imap pair pools).

(** The polls, beside the cadence watcher when any pool is ready. *)
Definition poll_listeners (ticks : nat) (watch : pollCadenceState) (ready : bool) : M (list pollResult * pollCadenceResult) :=
  let polls := par_all (poll_programs (cs_advertised watch) (cs_pools watch)) in
  if ready then
    fun s => bind (par polls (watchPollCadence env ticks watch s)) (fun '(results, (s, cadence)) => Ret (s, (results, cadence)))
  else
    let* results := lift polls in
    mret (results, mkPollCadenceResult (cs_observed watch) None false).

(** What reading the channel builds. *)
Record Polled := mkPolled {
  pd_pools : list PoolSnapshot;
  pd_identities : gmap string Identity;
  pd_facts : PollFacts;
}.

(** A further capacity-zero poll without assigned jobs. *)
Definition zero_confirmations (prior : PoolObservation) : Z :=
  if po_CapacityAcknowledged prior && (po_MaxCapacity prior =? 0) && (po_TotalAssignedJobs prior =? 0)
     && (0 <? po_ZeroCapacityConfirmations prior)
  then Z.min 2 (po_ZeroCapacityConfirmations prior + 1) else 1.

(** What a successful poll establishes. *)
Definition acknowledge (prior : PoolObservation) (id : string) (advertised assigned : Z) (f : PollFacts) : PollFacts :=
  {| pf_acknowledgedCapacity := <[id := advertised]> (pf_acknowledgedCapacity f);
     pf_capacityAcknowledged := <[id := true]> (pf_capacityAcknowledged f);
     pf_zeroAcknowledged := <[id := (advertised =? 0)]> (pf_zeroAcknowledged f);
     pf_zeroConfirmations := if (advertised =? 0) && (assigned =? 0)
                             then <[id := zero_confirmations prior]> (pf_zeroConfirmations f)
                             else pf_zeroConfirmations f |}.

Definition collect_result (now : time) (previousPools : gmap string PoolObservation) (acc : Polled) (r : pollResult) : M Polled :=
  match pd_pools acc !! pl_index r with
  | None => mret acc
  | Some pool =>
      let id := sn_TargetID pool in
      match pl_stats r with
      | Err e =>
          let* _ := if pollSuperseded e then mret ()
                    else record_ now "scale-set-statistics-error" (safeScaleSetMessage "poll" e) id (Retryable e) (Some e) in
          mret {| acc with pd_pools := <[pl_index r := {| pool with sn_Ready := false |}]> (pd_pools acc) |}
      | Ok assigned =>
          let drain := if 0 <? pl_advertised r then pl_advertised r
                       else if assigned =? 0 then 0 else sn_DrainServiceCapacity pool in
          let* _ := if 0 <? pl_advertised r then rememberDrainCapacity id (pl_advertised r)
                    else if assigned =? 0 then rememberDrainCapacity id 0 else mret () in
          mret {| pd_pools := <[pl_index r := mkPoolSnapshot id (pl_identity r) assigned drain (sn_Ready pool)]> (pd_pools acc);
                  pd_identities := <[id := pl_identity r]> (pd_identities acc);
                  pd_facts := acknowledge (default PoolObservation_zero (previousPools !! id)) id (pl_advertised r) assigned (pd_facts acc) |}
      end
  end.

Fixpoint collect_results (now : time) (previousPools : gmap string PoolObservation) (acc : Polled) (results : list pollResult) : M Polled :=
  match results with
  | [] => mret acc
  | r :: rest => let* acc := collect_result now previousPools acc r in collect_results now previousPools acc rest
  end.

Definition no_facts : PollFacts := mkPollFacts ∅ ∅ ∅ ∅.

(** ** The end of a canceled step *)

Definition finish_canceled (l : Loaded) (v : View) (previous : ObservedState) (pools : list PoolSnapshot)
    (pollPlan : Plan) (stale : bool) (cause : error) : M StepOutcome :=
  let* _ := if stale then modify noteStaleHandshake else mret () in
  if is_sentinel errReconcileInputsChanged cause then mret (empty_result false, Some cause)
  else
    let* problems := gets st_operationProblems in
    let* _ := if bool_decide (problems = []) then
                let* at_ := call_ Now in
                modify (fun s => {| s with st_operationProblems :=
                  [problem at_ "reconcile-canceled" "reconciliation was canceled before a serving checkpoint; new work is blocked" "" true] |})
              else mret () in
    let* problems := gets st_operationProblems in
    let* at_ := call_ Now in
    let* observed := checkpoint_now env previous pools (vw_workers v) (vw_resources v) (vw_power v) (vw_desktop v) pollPlan at_ problems in
    let* failed := persistObserved observed in
    let* _ := match failed with Some e => add_error (ErrWrap "save observed state" e) | None => mret () end in
    let* errs := gets st_operationErrors in
    mret (mkReconcileResult observed None 0 false (vw_failed v || is_err (ld_desiredErr l)),
          errors_Join [Some cause; errors_Join (map Some errs)]).

(** ** Acting on the polls *)

(** In a recovery the plan may only advertise. *)
Definition suspend_lifecycle (recoveryOnly : bool) (plan : Plan) : Plan :=
  if recoveryOnly
  then {| plan with p_Start := []; p_Remove := []; p_StartDesktop := false; p_StopDesktop := false; p_ShutdownWSL := false |}
  else plan.

Definition align (plan : Plan) (facts : PollFacts) : Plan :=
  set_advertised plan (alignAdvertisedCapacity (p_AdvertisedCapacity plan) (pf_acknowledgedCapacity facts) (pf_capacityAcknowledged facts)).

Definition final_desktop (now : time) (v : View) : M View :=
  let* latest := call_ DesktopStatusRead in
  match latest with
  | Ok desktop => mret {| v with vw_desktop := desktop; vw_desktopKnown := true |}
  | Err e =>
      let* _ := record_ now "desktop-final-status-error" "final Docker Desktop status failed" "" true (Some e) in
      mret {| v with vw_desktopKnown := false |}
  end.

Definition final_inventory (now : time) (v : View) : M View :=
  if negb (mayHaveManagedWorkers (vw_desktop v) (vw_desktopKnown v)) then mret {| v with vw_workers := [] |}
  else
    let* listed := call_ WorkersList in
    match listed with
    | Err e => let* _ := record_ now "worker-final-inventory-error" "final managed-worker inventory failed" "" true (Some e) in mret v
    | Ok latest =>
        let* enriched := enrichWorkerJobs latest in
        match enriched with
        | Err e => let* _ := record_ now "job-index-final-error" "final durable job lifecycle state could not be read" "" true (Some e) in mret v
        | Ok workers => mret {| v with vw_workers := workers |}
        end
    end.

(** Removal, start and shutdown, in this order: [Err] ends the step. *)
Definition execute_plan (now : time) (l : Loaded) (v : View) (previous : ObservedState) (pd : Polled) (plan : Plan) (reserved : Z)
    : M (result error bool) :=
  let* _ := start_desktop now plan in
  let* stale := remove_workers env plan (pd_facts pd) (pd_pools pd) (vw_jobStateKnown v) now in
  let* outcome := executePlannedStarts env (p_Start plan) (pd_identities pd) (baseline l v previous (pd_pools pd)) now reserved in
  match outcome with
  | (_, Some err) => mret (Err err)
  | (_, None) =>
      let* _ := shut_down_host env now plan (pd_facts pd) (vw_desktop v) (vw_desktopKnown v) in
      mret (Ok stale)
  end.

(** ** What the step stores *)

(** One pool of the observed state: what the listener acknowledged, or the
    capacity last known. *)
Definition observe_pool (now : time) (pd : Polled) (cadencePools : gmap string PoolObservation) (pollPlan postPlan : Plan)
    (pending : gmap string Z) (target : Target) : PoolObservation * gmap string Z :=
  let id := t_ID target in
  let pool := findPool (pd_pools pd) id in
  let prior := default PoolObservation_zero (cadencePools !! id) in
  let acknowledged := mgetb (pf_capacityAcknowledged (pd_facts pd)) id in
  let actual := if acknowledged then mget (pf_acknowledgedCapacity (pd_facts pd)) id else po_MaxCapacity prior in
  let '(updatedAt, pending) :=
    pool_transition pending id prior (id_ScaleSetID (sn_Identity pool)) (id_ListenerID (sn_Identity pool))
      actual (mget (p_AdvertisedCapacity pollPlan) id) acknowledged now in
  ({| po_ID := id; po_ScaleSetID := id_ScaleSetID (sn_Identity pool); po_ListenerID := id_ListenerID (sn_Identity pool);
      po_TotalAssignedJobs := sn_TotalAssignedJobs pool; po_MaxCapacity := actual; po_CapacityAcknowledged := acknowledged;
      po_ZeroCapacityConfirmations := mget (pf_zeroConfirmations (pd_facts pd)) id;
      po_DrainServiceCapacity := sn_DrainServiceCapacity pool;
      po_DesiredWorkers := mget (p_DesiredWorkers postPlan) id; po_UpdatedAt := updatedAt |}, pending).

Fixpoint observe_pools (now : time) (pd : Polled) (cadencePools : gmap string PoolObservation) (pollPlan postPlan : Plan)
    (pending : gmap string Z) (targets : list Target) : list PoolObservation * gmap string Z :=
  match targets with
  | [] => ([], pending)
  | t :: rest =>
      let '(o, pending) := observe_pool now pd cadencePools pollPlan postPlan pending t in
      let '(os, pending) := observe_pools now pd cadencePools pollPlan postPlan pending rest in
      (o :: os, pending)
  end.

Definition note_clamps (now : time) (postPlan : Plan) : M () :=
  forM (c_Targets cfg) (fun target =>
    if mgetb (p_MemoryClamped postPlan) (t_ID target)
    then note now "memory-clamped-capacity" "the memory term or host-floor backstop clamped worker starts or advertised capacity below host and pool limits" (t_ID target)
    else mret ()).

(** The problems of the stored state, and when its drain began. *)
Definition drain_report (now : time) (previous : ObservedState) (postPlan : Plan) (operationProblems : list Problem)
    : list Problem * option time :=
  let problems := p_Problems postPlan ++ operationProblems in
  if negb (bool_decide (p_Phase postPlan = PhaseDraining)) then (problems, None)
  else
    let started := drain_started (os_DrainStartedAt previous) now in
    (if dr_WarningAfter (c_Drain cfg) <=? Sub now started
     then problems ++ [problem now "drain-warning" "drain is taking longer than the configured warning threshold; active work will continue" "" false]
     else problems, Some started).

Definition finish_step (now : time) (l : Loaded) (v : View) (previous : ObservedState) (pd : Polled)
    (cadencePools : gmap string PoolObservation) (pollPlan : Plan) (stale : bool) : M StepOutcome :=
  let* v' := final_desktop now v in
  let* v' := final_inventory now v' in
  let* postPlan := plan_with l v' previous (pf_acknowledgedCapacity (pd_facts pd)) (pd_pools pd) now in
  let postPlan := align postPlan (pd_facts pd) in
  let* pending := gets st_pendingCapacity in
  match observe_pools now pd cadencePools pollPlan postPlan pending (c_Targets cfg) with
  | (observedPools, pending) =>
      let* _ := modify (fun s => {| s with st_pendingCapacity := pending |}) in
      let* _ := note_clamps now postPlan in
      let* operationProblems := gets st_operationProblems in
      match drain_report now previous postPlan operationProblems with
      | (problems, drainStartedAt) =>
          let* heartbeat := call_ Now in
          let* cost := controllerCost in
          let observed := {|
            os_SchemaVersion := 1;
            os_Phase := if bool_decide (operationProblems = []) then p_Phase postPlan else PhaseDegraded;
            os_HeartbeatAt := heartbeat; os_DrainStartedAt := drainStartedAt;
            os_QuiesceReason := p_QuiesceReason postPlan; os_Version := en_version env; os_Pools := observedPools;
            os_Workers := vw_workers v'; os_Resources := vw_resources v'; os_Power := vw_power v'; os_Desktop := vw_desktop v';
            os_ResourceGate := p_ResourceGate postPlan; os_PowerGate := p_PowerGate postPlan;
            os_Controller := cost; os_Presence := p_Presence postPlan; os_Problems := problems |} in
          let* failed := persistObserved observed in
          let* _ := match failed with Some e => add_error (ErrWrap "save observed state" e) | None => mret () end in
          let* _ := if stale then modify noteStaleHandshake
                    else if containsReadyPool (pd_pools pd) then modify clearStaleHandshake else mret () in
          let* errs := gets st_operationErrors in
          mret (mkReconcileResult observed (Some postPlan) (ld_checkpointAge l) (ld_checkpointAgeValid l)
                  (vw_failed v' || is_err (ld_desiredErr l)),
                errors_Join (map Some errs))
      end
  end.

(** ** The step *)

(** After the polls. *)
Definition act (now : time) (l : Loaded) (v : View) (previous : ObservedState) (pd : Polled)
    (cadencePools : gmap string PoolObservation) (pollPlan : Plan) (stale : bool) (reserved : Z) : M StepOutcome :=
  let* refreshed := refresh_after_poll now v in
  match refreshed with
  | (v, _) =>
      let* workers := if vw_jobStateKnown v then verify_registrations env now (pd_pools pd) (vw_workers v) else mret (vw_workers v) in
      let v := {| v with vw_workers := workers |} in
      let* plan := plan_with l v previous (pf_acknowledgedCapacity (pd_facts pd)) (pd_pools pd) now in
      let plan := suspend_lifecycle (ld_recoveryOnly l) (align plan (pd_facts pd)) in
      let* outcome := execute_plan now l v previous pd plan reserved in
      match outcome with
      | Err e => mret (empty_result false, Some e)
      | Ok staleRemoval => finish_step now l v previous pd cadencePools pollPlan (stale || staleRemoval)
      end
  end.

(** The poll and what its results decide. *)
Definition poll_and_act (ticks : nat) (l : Loaded) (v : View) (e : Ensured) (previousPools : gmap string PoolObservation)
    (pollPlan : Plan) (reserved : Z) : M StepOutcome :=
  let* problems := gets st_operationProblems in
  let* at_ := call_ Now in
  let* checkpoint := checkpoint_now env (ld_previous l) (es_pools e) (vw_workers v) (vw_resources v) (vw_power v) (vw_desktop v) pollPlan at_ problems in
  let ready := containsReadyPool (es_pools e) in
  let* checkpointErr := if ready then persistPollCheckpoint checkpoint else mret None in
  let* forcedZero := if ready then forced_zero (ld_recoveryOnly l || is_err (ld_desiredErr l) || vw_failed v) else mret false in
  let* engine := gets st_engineMemoryTotal in
  let* polled := poll_listeners ticks {|
       cs_desired := ld_desired l; cs_observed := checkpoint; cs_pools := es_pools e; cs_workers := vw_workers v;
       cs_desktop := vw_desktop v; cs_advertised := p_AdvertisedCapacity pollPlan; cs_operationProblems := problems;
       cs_forcedZero := forcedZero || negb (bool_decide (ds_Mode (ld_desired l) = ModeEnabled));
       cs_checkpointErr := checkpointErr; cs_engineMemoryTotal := engine |} ready in
  match polled with
  | (results, cadence) =>
      let observed := cr_observed cadence in
      let v := {| v with vw_resources := os_Resources observed; vw_power := os_Power observed |} in
      let previous := ld_previous l in
      let previous := {| previous with os_ResourceGate := os_ResourceGate observed; os_PowerGate := os_PowerGate observed |} in
      let* now := call_ Now in
      let* pd := collect_results now previousPools (mkPolled (es_pools e) (es_identities e) no_facts) results in
      let* cause := call_ CtxCause in
      match cause with
      | Some cause => finish_canceled l v previous (pd_pools pd) pollPlan (cr_superseded cadence) cause
      | None =>
          let* _ := match cr_checkpointErr cadence with
                    | Some err => record_ now "reconcile-checkpoint-error" "controller heartbeat checkpoint failed during the listener poll" "" true (Some err)
                    | None => mret ()
                    end in
          act now l v previous pd (observations (os_Pools observed)) pollPlan (cr_superseded cadence) reserved
      end
  end.

(** Once the state directory has been read. *)
Definition reconcile (ticks : nat) (now : time) (l : Loaded) : M StepOutcome :=
  let* _ := report_load_errors now l in
  let* v := observe now l in
  let previousPools := observations (os_Pools (ld_previous l)) in
  let* e := ensure_targets now previousPools in
  let* pending := gets st_pendingCapacity in
  let* provisional := plan_with l v (ld_previous l) pending (es_pools e) now in
  let* started := start_before_poll now l v e provisional in
  match started with
  | Err err => mret (empty_result false, Some err)
  | Ok (v, refreshFailed, reserved) =>
      let* pending := gets st_pendingCapacity in
      let pollPlan := set_advertised provisional
        (poll_capacity (ld_previous l) pending refreshFailed (p_AdvertisedCapacity provisional)) in
      poll_and_act ticks l v e previousPools pollPlan reserved
  end.

(** From the last checkpoint on. *)
Definition resume (ticks : nat) (now : time) (desired : DesiredState) (desiredErr : option error) : M StepOutcome :=
  let* loaded := load_observed now desired desiredErr in
  match loaded with
  | Err e => mret (empty_result true, Some e)
  | Ok l => reconcile ticks now l
  end.

(** At most [ticks] cadence ticks fire during the poll. *)
Definition step (ticks : nat) : M StepOutcome :=
  let* _ := modify (fun s => {| s with st_operationErrors := []; st_operationProblems := [] |}) in
  let* canceled := call_ (CtxErr StepCtx) in
  match canceled with
  | Some e => mret (empty_result false, Some e)
  | None =>
      let* now := call_ Now in
      let* intent := load_desired now in
      match intent with
      | Err e => mret (empty_result true, Some e)
      | Ok (desired, desiredErr) =>
          let* down := call_ ShuttingDown in
          resume ticks now (shutdown_intent down desired) desiredErr
      end
  end.

(** ** Reruns *)

Definition maxImmediateReruns : Z := 3.

(** [Step]'s loop: at most [fuel] reruns; [None] when they do not suffice.  The
    caller's context is read with [CtxErr CallerCtx], as the step's own is
    derived from it. *)
Fixpoint Step_loop (fuel : nat) (ticks : nat) (reruns : Z) : M (option StepOutcome) :=
  match fuel with
  | O => mret None
  | S fuel =>
      let* canceled := call_ (CtxErr CallerCtx) in
      match canceled with
      | Some e => mret (Some (empty_result false, Some e))
      | None =>
          let* _ := modify (fun s => {| s with st_finalAdmissionAttempt := maxImmediateReruns <=? reruns |}) in
          let* outcome := step ticks in
          match outcome with
          | (result, err) =>
              let* cause := call_ CtxCause in
              let changed := match cause with Some c => is_sentinel errReconcileInputsChanged c | None => false end in
              let* live := if changed then (let* e := call_ (CtxErr CallerCtx) in mret (negb (is_err e))) else mret false in
              if live then Step_loop fuel ticks (reruns + 1)
              else
                let* canceled := call_ (CtxErr CallerCtx) in
                mret (Some match canceled with
                           | Some e => (result, Some e)
                           | None => (result, match err with None => cause | Some _ => err end)
                           end)
          end
      end
  end.
End Step.
