(* ===== verification/RunSamples.v ===== *)
(** A concrete environment for effectful code, on which the witnesses of the
    reconciler's theorems run it: a host with given intent, checkpoint, workers
    and assigned jobs, where every call succeeds. *)

From S2P Require Import Prelude Float64 Model Config PlanGates Plan Samples Capacity Errors GoStrings JobIndex Effects Retry Reconciler Cadence Step.

Record World := mkWorld {
  wd_mode : Mode;
  wd_observed : result error ObservedState;
  wd_workers : list Worker;
  wd_assigned : Z;
}.

Definition catalog_empty : Catalog := mkCatalog 1 [].

Definition world_oracle (w : World) (_ : list event) (c : call) : resp c :=
  match c return resp c with
  | CtxErr _ => None
  | CtxCause => None
  | CancelStep _ => ()
  | Now => 1000
  | Sleep _ _ => None
  | RandomDraw => None
  | ShuttingDown => false
  | ProcessCPUSeconds => f64_0
  | LoadDesired => Ok (mkDesiredState 1 (wd_mode w) None 1)
  | SaveDesired _ => None
  | LoadObserved => wd_observed w
  | QuarantineObserved => Some None
  | SaveObserved _ => None
  | InputIdle => None
  | PowerRead => Ok (mkPowerSnapshot true 1)
  | ResourcesRead => Ok (mkResourceSnapshot (64 * GiB) (60 * GiB) (f64_of_Z 10))
  | DesktopStatusRead => Ok (mkDesktopStatus true true 1)
  | DesktopStart _ => None
  | DesktopStop _ => None
  | ShutdownAllWSL => None
  | EngineMemoryTotal => Ok 0
  | WorkersList => Ok (wd_workers w)
  | WorkerStart req => Ok (sample_worker (sw_Name req) (sw_PoolID req) WorkerStarting)
  | RemoveIfIdle _ => Ok true
  | JobsLoad => (catalog_empty, None)
  | SSEnsure def _ => Ok (mkIdentity 1 (sd_TargetID def))
  | SSStatistics _ _ => Ok (wd_assigned w)
  | SSCreateJITConfig _ _ => Ok (mkJITConfig "jit" 7)
  | SSRunnerRegistered _ _ _ => Ok true
  | SSRemoveRunner _ _ => None
  | WriteLog _ => ()
  | PollTick => false
  | WatchTick => false
  | Schedule => true
  | Arrival => 0%nat
  | ForceStop _ => None
  | GoroutineDump => Ok "dump.txt"
  | PendingRead => ("", false)
  | Reserve _ _ _ => true
  | RunStep => (ObservedState_zero, None)
  | CloseScaleSets => Some None
  | CloseWorkers => Some None
  end.

Definition sample_env : Env := mkEnv (sample_config 3 0 [sample_target "org" 3 0 1]) "test" sample_policy.

Definition sample_state : StepState :=
  mkStepState ∅ 0 ∅ 0 None false 0 0 0 false 0 0 capStateUnknown [] [].

(** A checkpoint in which the pool has acknowledged zero capacity once. *)
Definition quiet_checkpoint : ObservedState :=
  let o := ObservedState_zero in
  {| o with os_SchemaVersion := 1; os_HeartbeatAt := 900;
            os_Pools := [mkPoolObservation "org" 1 "org" 0 0 true 1 0 0 900] |}.

(** An operator disabled the host and one idle worker is left. *)
Definition draining : World := mkWorld ModeDisabled (Ok quiet_checkpoint) [sample_worker "w1" "org" WorkerIdle] 0.

(** One job is assigned and no worker exists. *)
Definition demand : World := mkWorld ModeEnabled (Ok quiet_checkpoint) [] 1.

(** Gaming on a drained host. *)
Definition gaming : World := mkWorld ModeGaming (Ok quiet_checkpoint) [] 0.

Definition corrupt : World := mkWorld ModeEnabled (Err ErrCorruptObserved) [sample_worker "w1" "org" WorkerIdle] 1.

(** The calls of a program in a world. *)
Definition trace_of {A} (w : World) (m : M A) : list event := (run_with (world_oracle w) [] (m sample_state)).1.
Definition outcome_of {A} (w : World) (m : M A) : StepState * A := (run_with (world_oracle w) [] (m sample_state)).2.

Lemma trace_runs {A} (w : World) (m : M A) : runs (m sample_state) (trace_of w m) (outcome_of w m).
Proof. apply run_with_runs. Qed.

(** A run cut at one of its calls. *)
Lemma trace_at {A} (w : World) (m : M A) n e :
  trace_of w m !! n = Some e -> trace_of w m = take n (trace_of w m) ++ e :: drop (S n) (trace_of w m).
Proof. intros Hn. by rewrite take_drop_middle. Qed.
