(* ===== verification/ReconcilerFacts.v ===== *)
(** Safety of the reconciler's side effects, for every behaviour of the
    environment: what must have happened before a container is removed or
    started and before the desktop is stopped, how many requests one step may
    make, and that the safety watcher cancels a step exactly when the inputs it
    was planned with change. *)

From S2P Require Import Prelude Float64 Model Config PlanGates Plan Samples Capacity Errors GoStrings JobIndex Effects Retry Reconciler Cadence Step RunSamples.
Open Scope Z_scope.

(** ** Reasoning in the reconciler's monad *)

(** [safe] for stateful programs. *)
Definition msafe {A} (I : list event -> call -> Prop) (Q : list event -> StepState -> A -> Prop) (h : list event)
    (m : M A) (s : StepState) : Prop :=
  safe I (fun h' '(s', a) => Q h' s' a) h (m s).

Section MSafe.
Context (I : list event -> call -> Prop).

Lemma msafe_ret {A} (Q : list event -> StepState -> A -> Prop) h (a : A) s : Q h s a -> msafe I Q h (mret a) s.
Proof. done. Qed.

Lemma msafe_bind {A B} (Q : list event -> StepState -> B -> Prop) h (m : M A) (f : A -> M B) s :
  msafe I (fun h' s' a => msafe I Q h' (f a) s') h m s -> msafe I Q h (mbind m f) s.
Proof. intros Hm. apply safe_bind. eapply safe_mono; [|exact Hm]. by intros h' [s' a] _. Qed.

Lemma msafe_mono {A} (Q Q' : list event -> StepState -> A -> Prop) h (m : M A) s :
  (forall h' s' a, h `prefix_of` h' -> Q h' s' a -> Q' h' s' a) -> msafe I Q h m s -> msafe I Q' h m s.
Proof. intros HQ Hm. eapply safe_mono; [|exact Hm]. intros h' [s' a] Hp. by apply HQ. Qed.

Lemma msafe_lift {A} (Q : list event -> StepState -> A -> Prop) h (p : prog A) s :
  safe I (fun h' a => Q h' s a) h p -> msafe I Q h (lift p) s.
Proof. intros Hp. by apply safe_bind. Qed.

Lemma msafe_call c (Q : list event -> StepState -> resp c -> Prop) h s :
  I h c -> (forall r, Q (h ++ [Ev c r]) s r) -> msafe I Q h (call_ c) s.
Proof. done. Qed.

Lemma msafe_modify (Q : list event -> StepState -> () -> Prop) h f s : Q h (f s) () -> msafe I Q h (modify f) s.
Proof. done. Qed.

Lemma msafe_gets {A} (Q : list event -> StepState -> A -> Prop) h (f : StepState -> A) s : Q h s (f s) -> msafe I Q h (gets f) s.
Proof. done. Qed.
End MSafe.

(** Runs of the monad's operations. *)
Lemma mruns_bind {A B} (m : M A) (k : A -> M B) s tr res :
  runs (mbind m k s) tr res ->
  exists t1 t2 s' a, tr = t1 ++ t2 /\ runs (m s) t1 (s', a) /\ runs (k a s') t2 res.
Proof. intros (t1 & t2 & [s' a] & -> & H1 & H2)%runs_bind. by exists t1, t2, s', a. Qed.

Lemma mruns_lift {A} (p : prog A) s tr s' a : runs (lift p s) tr (s', a) -> s' = s /\ runs p tr a.
Proof. intros (t1 & t2 & a' & -> & Hr & -> & [= -> ->])%runs_bind. by rewrite app_nil_r. Qed.

Lemma mruns_ret {A} (a a' : A) s s' tr : runs (mret a s) tr (s', a') -> tr = [] /\ s' = s /\ a' = a.
Proof. by intros [-> [= -> ->]]. Qed.

(** Programs that only write log lines: they are safe wherever logging is. *)
Definition quiet (m : M ()) : Prop :=
  forall (I : list event -> call -> Prop) (Q : list event -> StepState -> () -> Prop) h s,
    (forall h e, I h (WriteLog e)) ->
    (forall h' s', (exists logs, h' = h ++ logs /\ Forall (fun e => exists l, ev_call e = WriteLog l) logs) -> Q h' s' ()) ->
    msafe I Q h m s.

Lemma quiet_log e : quiet (writeLog e).
Proof.
  intros I Q h s Hi HQ. apply msafe_call; [apply Hi|]. intros []. apply HQ. exists [Ev (WriteLog e) ()]. split; [done|].
  repeat constructor. by exists e.
Qed.

Lemma quiet_note now code message pool : quiet (note now code message pool).
Proof. apply quiet_log. Qed.

Lemma quiet_record now code message pool retryable err : quiet (record_ now code message pool retryable err).
Proof. intros I Q h s Hi HQ. apply msafe_bind, msafe_modify. by apply quiet_log. Qed.

Lemma quiet_ret : quiet (mret ()).
Proof. intros I Q h s Hi HQ. apply HQ. exists []. by rewrite app_nil_r. Qed.

Create HintDb m_safe.
#[export] Hint Resolve quiet_log quiet_note quiet_record quiet_ret : m_safe.

(** A quiet program before a continuation. *)
Lemma msafe_quiet {A} I (Q : list event -> StepState -> A -> Prop) h (m : M ()) (f : () -> M A) s :
  quiet m -> (forall h e, I h (WriteLog e)) ->
  (forall h' s', h `prefix_of` h' -> msafe I Q h' (f ()) s') -> msafe I Q h (mbind m f) s.
Proof.
  intros Hm Hi Hf. apply msafe_bind, Hm; [done|]. intros h' s' (logs & -> & _). apply Hf. by exists logs.
Qed.

(** Starts of containers, and a condition on them alone. *)
Definition is_start (c : call) : bool := match c with WorkerStart _ => true | _ => false end.
Definition starts_only (P : list event -> StartWorkerRequest -> Prop) (h : list event) (c : call) : Prop :=
  match c with WorkerStart req => P h req | _ => True end.

(** Stateful programs that avoid a kind of calls. *)
Definition mavoids {A} (f : call -> bool) (m : M A) : Prop := forall s, avoids f (m s).

(** Calls that neither change a worker or the host nor advertise capacity. *)
Definition passive (c : call) : bool :=
  match c with
  | WorkerStart _ | RemoveIfIdle _ | ForceStop _ | DesktopStart _ | DesktopStop _ | ShutdownAllWSL | SSStatistics _ _ => false
  | _ => true
  end.

Section Avoids.
Context (f : call -> bool).

Lemma mavoids_safe {A} (I : list event -> call -> Prop) (Q : list event -> StepState -> A -> Prop) h (m : M A) s :
  mavoids f m -> (forall h c, f c = false -> I h c) ->
  (forall tr s' a, runs (m s) tr (s', a) -> calls f tr = 0 -> Q (h ++ tr) s' a) -> msafe I Q h m s.
Proof. intros Hm Hi HQ. apply (avoids_safe f); [apply Hm|done|]. intros tr [s' a]. apply HQ. Qed.

Lemma mavoids_bind {A B} (m : M A) (k : A -> M B) : mavoids f m -> (forall a, mavoids f (k a)) -> mavoids f (mbind m k).
Proof. intros Hm Hk s. apply avoids_bind; [apply Hm|]. intros [s' a]. apply Hk. Qed.

Lemma mavoids_ret {A} (a : A) : mavoids f (mret a).
Proof. done. Qed.

Lemma mavoids_call c : f c = false -> mavoids f (call_ c).
Proof. by intros Hc s. Qed.

Lemma mavoids_modify g : mavoids f (modify g).
Proof. done. Qed.

Lemma mavoids_gets {A} (g : StepState -> A) : mavoids f (gets g).
Proof. done. Qed.

(** What follows a look at the state only sees values of it. *)
Lemma mavoids_gets_bind {A B} (g : StepState -> A) (k : A -> M B) : (forall s, mavoids f (k (g s))) -> mavoids f (mbind (gets g) k).
Proof. intros Hk s. apply Hk. Qed.

Lemma mavoids_ret_bind {A B} (a : A) (k : A -> M B) : mavoids f (k a) -> mavoids f (mbind (mret a) k).
Proof. intros Hk s. apply Hk. Qed.

Lemma mavoids_add_error e : mavoids f (add_error e).
Proof. apply mavoids_modify. Qed.

Lemma mavoids_lift {A} (p : prog A) : avoids f p -> mavoids f (lift p).
Proof. intros Hp s. by apply avoids_bind. Qed.

Hypothesis Hf : forall c, passive c = true -> f c = false.

Lemma mavoids_log e : mavoids f (writeLog e).
Proof. by apply mavoids_call, Hf. Qed.

Lemma mavoids_note at_ code message pool : mavoids f (note at_ code message pool).
Proof. apply mavoids_log. Qed.

Lemma mavoids_record at_ code message pool retryable err : mavoids f (record_ at_ code message pool retryable err).
Proof. apply mavoids_bind; [apply mavoids_modify|]. intros _. apply mavoids_log. Qed.

Lemma bookkeeping_avoided c : bookkeeping c = true -> f c = false.
Proof. intros Hc. apply Hf. by destruct c. Qed.

Lemma mavoids_cleanup env pool runnerID : mavoids f (cleanup_runner env pool runnerID).
Proof. apply mavoids_lift, avoids_deregisterRunner; [apply bookkeeping_avoided|by apply Hf]. Qed.

Lemma mavoids_inputs_changed : mavoids f inputs_changed.
Proof. apply mavoids_bind; [by apply mavoids_call, Hf|]. intros _. apply mavoids_ret. Qed.
End Avoids.

#[export] Hint Resolve mavoids_ret mavoids_add_error mavoids_modify mavoids_gets mavoids_log mavoids_note mavoids_record mavoids_cleanup mavoids_inputs_changed : m_safe.
#[export] Hint Extern 3 (mavoids _ (call_ _)) => apply mavoids_call : m_safe.

Lemma passive_no_start c : passive c = true -> is_start c = false.
Proof. by destruct c. Qed.
#[export] Hint Resolve passive_no_start : m_safe.

(** The avoidance of a composed program, by its parts. *)
Ltac mavoid := repeat (intros; first [solve [auto with m_safe] | apply mavoids_bind | case_match | split_if]).

(** Programs that start no container keep every condition on starts. *)
Lemma startless_safe {A} P (Q : list event -> StepState -> A -> Prop) h (m : M A) s :
  mavoids is_start m -> (forall tr s' a, calls is_start tr = 0 -> Q (h ++ tr) s' a) -> msafe (starts_only P) Q h m s.
Proof. intros Hm HQ. apply (mavoids_safe is_start); [done| |auto]. intros h' c. by destruct c. Qed.

(** The lemmas above are the only way through the monad from here on. *)
#[local] Opaque mret mbind lift call_ gets modify.

Ltac mstep :=
  lazymatch goal with
  | |- msafe _ _ _ (mret _) _ => apply msafe_ret
  | |- msafe _ _ _ (mbind (record_ _ _ _ _ _ _) _) _ => apply msafe_quiet; [apply quiet_record | done | intros ? ? ?]
  | |- msafe _ _ _ (mbind (note _ _ _ _) _) _ => apply msafe_quiet; [apply quiet_note | done | intros ? ? ?]
  | |- msafe _ _ _ (mbind (writeLog _) _) _ => apply msafe_quiet; [apply quiet_log | done | intros ? ? ?]
  | |- msafe _ _ _ (mbind _ _) _ => apply msafe_bind
  | |- msafe _ _ _ (modify _) _ => apply msafe_modify
  | |- msafe _ _ _ (gets _) _ => apply msafe_gets
  end.
Ltac msteps := repeat mstep.

(** ** Retirement *)

Section Retirement.
Context (env : Env) (plan : Plan) (facts : PollFacts) (pools : list PoolSnapshot) (jobStateKnown : bool) (now : time).

(** A pool whose listener has acknowledged zero twice with nothing assigned. *)
Definition quiesced (pool : string) : Prop :=
  p_AdvertisedCapacity plan !! pool = Some 0 /\ mgetb (pf_capacityAcknowledged facts) pool = true /\
  mget (pf_acknowledgedCapacity facts) pool = 0 /\ mgetb (pf_zeroAcknowledged facts) pool = true /\
  2 <= mget (pf_zeroConfirmations facts) pool /\ sn_TotalAssignedJobs (findPool pools pool) = 0.

(** Why a worker may be removed, given the calls so far. *)
Definition removal_justified (h : list event) (w : Worker) : Prop :=
  w_State w <> WorkerBusy /\
  (w_State w = WorkerUnregistered \/ w_State w = WorkerExited \/
   jobStateKnown = true /\ quiesced (w_PoolID w) /\ 0 < w_RunnerID w /\
   exists h0 e, h = h0 ++ [e] /\ confirms_removal (w_PoolID w) (w_RunnerID w) e = true).

Definition removal_guard (h : list event) (c : call) : Prop :=
  match c with
  | RemoveIfIdle id => exists w, w ∈ p_Remove plan /\ w_ID w = id /\ removal_justified h w
  | _ => True
  end.

Lemma retire_conditions n w :
  removal_verdict env plan facts pools jobStateKnown n w = Retire ->
  w_State w <> WorkerBusy /\ jobStateKnown = true /\ quiesced (w_PoolID w) /\ 0 < w_RunnerID w /\
  n < Z.max (r_MaximumConcurrentWorkers (c_Resources (en_config env))) 1.
Proof.
  unfold removal_verdict, quiesced. case_bool_decide as Hb; [done|]. case_bool_decide; [done|].
  change (mget (p_AdvertisedCapacity plan) (w_PoolID w)) with (default 0 (p_AdvertisedCapacity plan !! w_PoolID w)).
  destruct (p_AdvertisedCapacity plan !! w_PoolID w) as [required|]; simpl;
    [|destruct (is_exited w); simpl; repeat split_if; done].
  destruct (is_exited w); simpl.
  { repeat split_if; done. }
  destruct jobStateKnown; simpl; [|done].
  destruct (mgetb (pf_capacityAcknowledged facts) _); simpl; [|done].
  destruct (Z.eqb_spec (mget (pf_acknowledgedCapacity facts) (w_PoolID w)) required) as [Ha|]; simpl; [|done].
  destruct (Z.eqb_spec required 0) as [->|]; simpl; [|done].
  destruct (mgetb (pf_zeroAcknowledged facts) _); simpl; [|done].
  destruct (Z.eqb_spec (sn_TotalAssignedJobs (findPool pools (w_PoolID w))) 0); simpl; [|done].
  repeat split_if; try done. intros _. zb. by split_and!.
Qed.

Lemma exited_conditions n w :
  removal_verdict env plan facts pools jobStateKnown n w = RemoveExited -> w_State w = WorkerExited.
Proof.
  unfold removal_verdict, is_exited. case_bool_decide; [done|]. case_bool_decide; [done|].
  case_bool_decide; [done|]. repeat split_if; done.
Qed.

Lemma unregistered_conditions n w :
  removal_verdict env plan facts pools jobStateKnown n w = RemoveUnregistered -> w_State w = WorkerUnregistered.
Proof.
  unfold removal_verdict. case_bool_decide; [done|]. case_bool_decide; [done|]. repeat split_if; done.
Qed.

Lemma remove_container_safe (Q : list event -> StepState -> () -> Prop) h w s :
  removal_guard h (RemoveIfIdle (w_ID w)) -> (forall h' s', Q h' s' ()) ->
  msafe removal_guard Q h (remove_container now w) s /\ msafe removal_guard Q h (remove_unregistered now w) s.
Proof.
  intros Hg HQ. assert (Hq : forall m h s, quiet m -> msafe removal_guard Q h m s) by (intros m h' s' Hm; apply Hm; auto; done).
  split; apply msafe_bind, msafe_call; try done; intros [[]|e]; apply Hq; auto with m_safe.
Qed.

Lemma remove_worker_safe (Q : list event -> StepState -> RemovalState -> Prop) h st w s :
  w ∈ p_Remove plan -> (forall h' s' st', Q h' s' st') ->
  msafe removal_guard Q h (remove_worker env plan facts pools jobStateKnown now st w) s.
Proof.
  intros Hw HQ. unfold remove_worker. split_if; [by apply msafe_ret|].
  destruct (removal_verdict _ _ _ _ _ _ w) eqn:Hv; try (msteps; apply HQ).
  - apply unregistered_conditions in Hv. apply msafe_bind, remove_container_safe; [|intros; by apply msafe_ret].
    exists w. split_and!; [done|done|split; [congruence|by left]].
  - apply exited_conditions in Hv. apply msafe_bind, remove_container_safe; [|intros; by apply msafe_ret].
    exists w. split_and!; [done|done|split; [congruence|by right; left]].
  - apply retire_conditions in Hv as (Hb & Hj & Hq & Hr & _). apply msafe_bind, msafe_lift.
    eapply safe_mono; [|apply safe_deregisterRunner; [by intros ? []|done]]. intros h' [e|] _ Hd; [msteps; apply HQ|].
    apply msafe_bind, remove_container_safe; [|intros; by apply msafe_ret].
    exists w. split_and!; [done|done|split; [done|]]. right. right. split_and!; auto.
Qed.

Lemma remove_each_safe (Q : list event -> StepState -> RemovalState -> Prop) h st ws s :
  (forall w, w ∈ ws -> w ∈ p_Remove plan) -> (forall h' s' st', Q h' s' st') ->
  msafe removal_guard Q h (remove_each env plan facts pools jobStateKnown now st ws) s.
Proof.
  intros Hws HQ. revert h st s. induction ws as [|w ws IH]; intros h st s; simpl; [by apply msafe_ret|].
  apply msafe_bind, remove_worker_safe; [set_solver|]. intros. apply IH. set_solver.
Qed.

Lemma remove_workers_safe h s :
  msafe removal_guard (fun _ _ _ => True) h (remove_workers env plan facts pools jobStateKnown now) s.
Proof.
  unfold remove_workers. apply msafe_bind, msafe_gets, msafe_bind, remove_each_safe; [|intros; by msteps].
  intros w (i & _ & Hi)%list_elem_of_omap. by eapply list_elem_of_lookup_2.
Qed.
End Retirement.

(** No container is removed without cause.  Along every run of the removal
    loop, whatever the environment answers, a container is only asked to be
    removed if a worker with its ID is in the plan's removals, is not busy, and
    either has exited, or has lost its registration, or is retired: the job
    state is known, its pool's listener has acknowledged zero capacity in two
    polls with no assigned job, and the call just before was GitHub's
    confirmation that this runner is deregistered. *)
Theorem removals_are_justified env plan facts pools jobStateKnown now s tr res pre id r post :
  runs (remove_workers env plan facts pools jobStateKnown now s) tr res ->
  tr = pre ++ Ev (RemoveIfIdle id) r :: post ->
  exists w, w ∈ p_Remove plan /\ w_ID w = id /\ removal_justified plan facts pools jobStateKnown pre w.
Proof.
  intros Hr Htr.
  pose proof (remove_workers_safe env plan facts pools jobStateKnown now [] s) as Hs.
  destruct (safe_runs _ _ _ _ _ _ Hs Hr) as [Hall _]. exact (Hall pre _ post Htr).
Qed.

(** ** The retirement budget *)

Section Budget.
Context (env : Env) (plan : Plan) (facts : PollFacts) (pools : list PoolSnapshot) (jobStateKnown : bool) (now : time).
Local Abbreviation attempts := (Z.max 0 (bp_MaxAttempts (en_backoff env))).
Local Abbreviation limit := (Z.max (r_MaximumConcurrentWorkers (c_Resources (en_config env))) 1).
Local Abbreviation requests := (calls is_removal_request).

(** Requests made are paid for by deregistrations counted. *)
Definition within_budget (h : list event) (st : RemovalState) : Prop :=
  requests h <= rm_deregistrations st * attempts /\ 0 <= rm_deregistrations st <= limit.

Lemma quiet_requests m h s (Q : list event -> StepState -> () -> Prop) :
  quiet m -> (forall h' s', requests h' = requests h -> Q h' s' ()) -> msafe (fun _ _ => True) Q h m s.
Proof.
  intros Hm HQ. apply Hm; [done|]. intros h' s' (logs & -> & Hl). apply HQ. rewrite calls_app.
  assert (requests logs = 0); [|lia]. apply count_zero. intros e He. rewrite Forall_forall in Hl.
  destruct (Hl e He) as [l ->]. done.
Qed.

Lemma removal_requests h w s (Q : list event -> StepState -> () -> Prop) :
  (forall h' s', requests h' = requests h -> Q h' s' ()) ->
  msafe (fun _ _ => True) Q h (remove_container now w) s /\ msafe (fun _ _ => True) Q h (remove_unregistered now w) s.
Proof.
  intros HQ. assert (Hcall : forall r, requests (h ++ [Ev (RemoveIfIdle (w_ID w)) r]) = requests h).
  { intros r. rewrite calls_app. unfold calls at 2. simpl. lia. }
  split; apply msafe_bind, msafe_call; try done; intros r; specialize (Hcall r); destruct r as [[]|e];
    (apply quiet_requests; [auto with m_safe|]; intros; apply HQ; congruence).
Qed.

Lemma remove_worker_budget h st w s :
  within_budget h st ->
  msafe (fun _ _ => True) (fun h' _ st' => within_budget h' st') h (remove_worker env plan facts pools jobStateKnown now st w) s.
Proof.
  intros Hb. unfold remove_worker. split_if; [by apply msafe_ret|].
  assert (Hquiet : forall m st', quiet m -> rm_deregistrations st' = rm_deregistrations st ->
    msafe (fun _ _ => True) (fun h' _ st' => within_budget h' st') h (mbind m (fun _ => mret st')) s).
  { intros m st' Hm Hst. apply msafe_bind, quiet_requests; [done|]. intros h' s' Hh. apply msafe_ret.
    unfold within_budget in *. by rewrite Hh, Hst. }
  destruct (removal_verdict _ _ _ _ _ _ w) eqn:Hv; try (apply Hquiet; auto with m_safe; done).
  - apply msafe_bind, removal_requests. intros h' s' Hh. apply msafe_ret. unfold within_budget in *. by rewrite Hh.
  - apply msafe_bind, removal_requests. intros h' s' Hh. apply msafe_ret. unfold within_budget in *. by rewrite Hh.
  - apply retire_conditions in Hv as (_ & _ & _ & _ & Hn). simpl in Hn. apply msafe_bind, msafe_lift.
    apply safe_of_runs. intros tr err Hr. apply deregisterRunner_calls in Hr.
    set (st' := {| rm_seen := _; rm_deregistrations := _; rm_stale := _ |}).
    assert (Hb' : within_budget (h ++ tr) st').
    { unfold within_budget in *. simpl. rewrite calls_app. nia. }
    destruct err as [e|]; apply msafe_bind.
    + apply quiet_requests; [auto with m_safe|]. intros h' s' Hh. apply msafe_ret. unfold within_budget in *. by rewrite Hh.
    + apply removal_requests. intros h' s' Hh. apply msafe_ret. unfold within_budget in *. by rewrite Hh.
Qed.

Lemma remove_each_budget h st ws s :
  within_budget h st ->
  msafe (fun _ _ => True) (fun h' _ st' => within_budget h' st') h (remove_each env plan facts pools jobStateKnown now st ws) s.
Proof.
  revert h st s. induction ws as [|w ws IH]; intros h st s Hb; simpl; [by apply msafe_ret|].
  apply msafe_bind. eapply msafe_mono; [|by apply remove_worker_budget]. intros h' s' st' _. apply IH.
Qed.
End Budget.

(** One step's retirements stay within the budget its watchdog was sized
    for: whatever the plan and the environment, the loop makes at most one
    deregistration per configured worker, each of at most the configured
    number of attempts. *)
Theorem retirement_requests_bounded env plan facts pools jobStateKnown now s tr res :
  runs (remove_workers env plan facts pools jobStateKnown now s) tr res ->
  calls is_removal_request tr
    <= Z.max (r_MaximumConcurrentWorkers (c_Resources (en_config env))) 1 * Z.max 0 (bp_MaxAttempts (en_backoff env)).
Proof.
  intros Hr.
  assert (Hs : msafe (fun _ _ => True) (fun h' _ _ => exists st, within_budget env h' st) []
                 (remove_workers env plan facts pools jobStateKnown now) s).
  { unfold remove_workers. apply msafe_bind, msafe_gets, msafe_bind.
    eapply msafe_mono; [|apply remove_each_budget; unfold within_budget, calls; simpl; lia].
    intros h' s' st _ Hb. msteps. by exists st. }
  destruct (safe_runs _ _ _ _ _ _ Hs Hr) as [_ HQ]. simpl in HQ. destruct res as [s' stale].
  destruct HQ as (st & Hc & Hn). nia.
Qed.

(** ** Starts *)

(** What a start adds to the memory the step has reserved: its limit, when the
    container started. *)
Definition started_memory (reserved : Z) (e : event) : Z :=
  match e with
  | Ev (WorkerStart req) (Ok _) => saturatingAddUint64 reserved (wp_Memory (sw_Limits req))
  | _ => reserved
  end.

(** The memory reserved after [h], when [base] was reserved before it. *)
Definition reserved_by (base : Z) (h : list event) : Z := foldl started_memory base h.

Lemma reserved_by_app base h1 h2 : reserved_by base (h1 ++ h2) = reserved_by (reserved_by base h1) h2.
Proof. apply foldl_app. Qed.

Lemma startless_reserved base tr : calls is_start tr = 0 -> reserved_by base tr = base.
Proof.
  revert base. induction tr as [|e tr IH]; intros base Hz; [done|].
  assert (Hcons : calls is_start (e :: tr) = calls is_start [e] + calls is_start tr) by apply (calls_app _ [e]).
  assert (H0 : 0 <= calls is_start [e] /\ 0 <= calls is_start tr) by (split; apply count_nonneg).
  change (reserved_by (started_memory base e) tr = base). rewrite IH by lia.
  destruct e as [[] r]; try done. unfold calls in *. simpl in *. lia.
Qed.

Section Starts.
Context `{MapRange} (env : Env) (b : Baseline) (now : time) (base : Z).
Local Abbreviation cfg := (en_config env).

(** The intent an answer of the state directory stands for. *)
Definition read_intent (loaded : result error DesiredState) (d : DesiredState) : Prop :=
  loaded = Ok d \/
  exists e, loaded = Err e /\ is_sentinel ErrStateNotFound e = true /\ d = mkDesiredState 1 ModeDisabled None 0.

(** The workers a listing and the job index read after it amount to. *)
Definition read_workers (listed : list Worker) (jobs : list event) (ws : list Worker) : Prop :=
  listed = [] /\ jobs = [] /\ ws = [] \/
  exists catalog err, jobs = [Ev JobsLoad (catalog, err)] /\ ws = map (mark_busy catalog) listed.

(** The reads of one admission check, in order, and the planner input they
    make; what the check does not read again is the step's baseline. *)
Definition admission_reads (reserved : Z) (reads : list event) (input : PlanInput) : Prop :=
  exists loaded d down power resources desktop listed jobs at_,
    reads = [Ev LoadDesired loaded; Ev ShuttingDown down; Ev PowerRead (Ok power); Ev ResourcesRead (Ok resources);
             Ev DesktopStatusRead (Ok desktop); Ev WorkersList (Ok listed)] ++ jobs ++ [Ev Now at_] /\
    read_intent loaded d /\ in_Desired input = shutdown_intent down d /\ read_workers listed jobs (in_Workers input) /\
    in_Config input = cfg /\ in_Power input = power /\ in_Resources input = reserve_memory env resources reserved /\
    in_Desktop input = desktop /\ in_Now input = at_ /\
    in_Previous input = bl_previous b /\ in_CapacityHysteresis input = ∅ /\ in_Pools input = bl_pools b /\
    sameAdmissionIntent (bl_desired b) (in_Desired input) = true.

(** An admission: the plan of fresh readings starts a worker in the pool. *)
Definition admitted (pool : string) (reserved : Z) (reads : list event) : Prop :=
  exists input, admission_reads reserved reads input /\ plansStart (BuildPlan (in_Now input) input) pool = true.

Lemma enrich_safe I (Q : list event -> StepState -> result error (list Worker) -> Prop) h s ws :
  (forall h, I h JobsLoad) ->
  (ws = [] -> Q h s (Ok [])) ->
  (forall catalog err, Q (h ++ [Ev JobsLoad (catalog, err)]) s (Ok (map (mark_busy catalog) ws))) ->
  (forall catalog err e, Q (h ++ [Ev JobsLoad (catalog, err)]) s (Err e)) ->
  msafe I Q h (enrichWorkerJobs ws) s.
Proof.
  intros Hi Hnil Hok Herr. unfold enrichWorkerJobs. case_bool_decide; [apply msafe_ret; auto|].
  apply msafe_bind, msafe_call; [apply Hi|]. intros [catalog [e|]]; [split_if|]; apply msafe_ret; auto.
Qed.

Lemma decide_admission_allowed s pool reserved input :
  decide_admission b s pool reserved input = Allowed -> plansStart (BuildPlan (in_Now input) input) pool = true.
Proof. unfold decide_admission. by repeat split_if. Qed.

Lemma freshStartAllowed_safe P h pool reserved s :
  msafe (starts_only P) (fun h' s' a => exists reads, h' = h ++ reads /\ calls is_start reads = 0 /\
           (a = Allowed -> admitted pool reserved reads)) h (freshStartAllowed env pool b reserved) s.
Proof.
  unfold freshStartAllowed.
  assert (Hno : forall reads s', calls is_start reads = 0 ->
    msafe (starts_only P) (fun h' s' a => exists reads, h' = h ++ reads /\ calls is_start reads = 0 /\
           (a = Allowed -> admitted pool reserved reads)) (h ++ reads) (mret Changed) s').
  { intros reads s' Hz. apply msafe_ret. exists reads. split_and!; done. }
  apply msafe_bind, msafe_call; [done|]. intros loaded.
  destruct (match loaded with Ok _ => _ | Err _ => _ end) as [d|] eqn:Hd; [|by apply Hno].
  assert (Hintent : read_intent loaded d).
  { destruct loaded as [d'|e]; [left; congruence|]. destruct (is_sentinel ErrStateNotFound e) eqn:He; [|done].
    injection Hd as <-. right. by exists e. }
  apply msafe_bind, msafe_call; [done|]. intros down. rewrite <- app_assoc. set (desired := shutdown_intent down d).
  destruct (sameAdmissionIntent (bl_desired b) desired) eqn:Hsame; simpl; [|by apply Hno].
  apply msafe_bind, msafe_call; [done|]. intros [power|e]; rewrite <- app_assoc; [|by apply Hno].
  destruct (bool_decide _ && _); [by apply Hno|].
  apply msafe_bind, msafe_call; [done|]. intros [resources|e]; rewrite <- app_assoc; [|by apply Hno].
  apply msafe_bind, msafe_call; [done|]. intros [desktop|e]; rewrite <- app_assoc; [|by apply Hno].
  apply msafe_bind, msafe_call; [done|]. intros [listed|e]; rewrite <- app_assoc; [|by apply Hno].
  assert (Hyes : forall jobs ws s', calls is_start jobs = 0 -> read_workers listed jobs ws ->
    msafe (starts_only P) (fun h' s' a => exists reads, h' = h ++ reads /\ calls is_start reads = 0 /\ (a = Allowed -> admitted pool reserved reads))
      (h ++ [Ev LoadDesired loaded; Ev ShuttingDown down; Ev PowerRead (Ok power); Ev ResourcesRead (Ok resources);
             Ev DesktopStatusRead (Ok desktop); Ev WorkersList (Ok listed)] ++ jobs)
      (mbind (call_ Now) (fun at_ s => Ret (s, decide_admission b s pool reserved
         (admission_input env b s desired ws (reserve_memory env resources reserved) power desktop at_)))) s').
  { intros jobs ws s' Hz Hjobs. apply msafe_bind, msafe_call; [done|]. intros at_. rewrite <- !app_assoc.
    eexists. split; [reflexivity|]. split.
    { rewrite !calls_app, Hz. done. }
    intros Ha%decide_admission_allowed. eexists. split; [|exact Ha].
    exists loaded, d, down, power, resources, desktop, listed, jobs, at_. simpl. split_and!; try done. }
  apply msafe_bind, enrich_safe; [done| | |].
  - intros ->. specialize (Hyes [] [] s eq_refl). rewrite app_nil_r in Hyes. apply Hyes. by left.
  - intros catalog err. specialize (Hyes [Ev JobsLoad (catalog, err)] (map (mark_busy catalog) listed) s eq_refl).
    rewrite <- app_assoc. apply Hyes. right. by exists catalog, err.
  - intros catalog err e. rewrite <- app_assoc. by apply Hno.
Qed.


(** A start of [req] that the history justifies: its registration was created
    for this very name, and every reading since is one admission check that
    allows a start in its pool beside the memory of the workers started before. *)
Definition start_justified (ident : Identity) (limits : WorkerProfile) (pool : string) (h : list event) (req : StartWorkerRequest) : Prop :=
  sw_PoolID req = pool /\ sw_Limits req = limits /\
  exists h0 reads,
    h = h0 ++ Ev (SSCreateJITConfig ident (sw_Name req)) (Ok (sw_JITConfig req)) :: reads /\ admitted pool (reserved_by base h0) reads.

(** What a group of starts promises: at most [n] of them, and the memory of
    those that succeeded, which is the first part of the result. *)
Definition at_most (h : list event) (n : Z) (h' : list event) (_ : StepState) (res : Z * option error) : Prop :=
  calls is_start h' <= calls is_start h + n /\ res.1 = reserved_by base h'.

(** Programs that give the reservation back unchanged. *)
Definition hands_back (reserved : Z) (m : M (Z * option error)) : Prop :=
  forall s tr s' res, runs (m s) tr (s', res) -> res.1 = reserved.

Lemma hands_back_ret reserved err : hands_back reserved (mret (reserved, err)).
Proof. by intros s tr s' res (_ & _ & ->)%mruns_ret. Qed.

Lemma hands_back_bind {A} reserved (m : M A) k : (forall a, hands_back reserved (k a)) -> hands_back reserved (mbind m k).
Proof. intros Hk s tr s' res (t1 & t2 & s1 & a & _ & _ & Hr)%mruns_bind. by eapply Hk. Qed.

(** Without starts, what was reserved before is handed back. *)
Lemma startless_at_most P h h0 n (m : M (Z * option error)) reserved s :
  mavoids is_start m -> hands_back reserved m -> 0 <= n -> calls is_start h = calls is_start h0 -> reserved = reserved_by base h ->
  msafe (starts_only P) (at_most h0 n) h m s.
Proof.
  intros Hm Hb Hn Hh ->. apply (mavoids_safe is_start); [done|intros h' c; by destruct c|]. intros tr s' a Hr Hz. split.
  - rewrite calls_app. lia.
  - rewrite reserved_by_app, startless_reserved by done. by eapply Hb.
Qed.

Lemma start_container_safe P h pool name limits jit s :
  P h (mkStartWorkerRequest pool name (resourceTier cfg pool) jit limits (SeccompProfileForTarget cfg pool)) ->
  msafe (starts_only P) (fun h' _ (started : bool) => calls is_start h' = calls is_start h + 1 /\
      reserved_by base h' = if started then saturatingAddUint64 (reserved_by base h) (wp_Memory limits) else reserved_by base h)
    h (start_container env pool name limits jit now) s.
Proof.
  intros HP. unfold start_container. apply msafe_bind, msafe_call; [exact HP|]. intros r.
  set (h1 := h ++ _).
  assert (Hc : calls is_start h1 = calls is_start h + 1) by (unfold h1; by rewrite calls_app).
  destruct r as [w|e]; [apply msafe_ret; split; [done|]; unfold h1; by rewrite reserved_by_app|].
  assert (Hr : reserved_by base h1 = reserved_by base h) by (unfold h1; by rewrite reserved_by_app).
  clearbody h1. apply msafe_bind, startless_safe; [mavoid|]. intros tr s' _ Hz.
  assert (Hsame : forall tr', calls is_start tr' = 0 -> calls is_start ((h1 ++ tr) ++ tr') = calls is_start h + 1 /\
            reserved_by base ((h1 ++ tr) ++ tr') = reserved_by base h).
  { intros tr' Hz'. rewrite !calls_app, !reserved_by_app, !startless_reserved by done. split; [lia|done]. }
  destruct (negb _); [|by apply msafe_ret; rewrite <- (app_nil_r (h1 ++ tr)); apply Hsame].
  apply msafe_bind, startless_safe; [mavoid|]. intros tr1 s1 [ce|] Hz1; [|by apply msafe_ret, Hsame].
  apply msafe_bind, startless_safe; [mavoid|]. intros tr2 s2 _ Hz2. apply msafe_ret. rewrite <- app_assoc. apply Hsame.
  rewrite calls_app. lia.
Qed.

Lemma create_jit_safe P h ident name s (Q : list event -> StepState -> result error JITConfig -> Prop) :
  (forall tr jit, calls is_start tr = 0 ->
     (forall v, jit = Ok v -> exists tr0, tr = tr0 ++ [Ev (SSCreateJITConfig ident name) (Ok v)]) -> Q (h ++ tr) s jit) ->
  msafe (starts_only P) Q h (create_jit env ident name) s.
Proof.
  intros HQ. apply msafe_lift, (avoids_safe is_start).
  - apply avoids_RetryValue; [by intros []|by simpl].
  - intros h' c. by destruct c.
  - intros tr jit Hr Hz. apply HQ; [done|]. intros v ->.
    destruct (RetryValue_runs (fun _ => false) 0 _ _ _ _ _ _ ltac:(done) ltac:(done)
                ltac:(intros; unfold calls; by rewrite count_zero) Hr) as [_ Hv].
    destruct (Hv v eq_refl) as (pre & tr1 & -> & r & tr' & -> & -> & <-). by exists pre.
Qed.

Lemma start_workers_safe P pool ident limits n h reserved s :
  (forall h req, start_justified ident limits pool h req -> P h req) -> reserved = reserved_by base h ->
  msafe (starts_only P) (at_most h (Z.of_nat n)) h (start_workers env pool ident limits b now n reserved) s.
Proof.
  intros HP. revert h reserved s. induction n as [|n IH]; intros h reserved s Hres; simpl.
  { eapply startless_at_most; [apply mavoids_ret|apply hands_back_ret|done..]. }
  assert (Hend : forall tr m s', mavoids is_start m -> hands_back reserved m -> calls is_start tr = 0 ->
    msafe (starts_only P) (at_most h (Z.of_nat (S n))) (h ++ tr) m s').
  { intros tr m s' Hm Hb Hz. eapply startless_at_most; [done|exact Hb|lia|rewrite calls_app; lia|].
    by rewrite reserved_by_app, startless_reserved. }
  apply msafe_bind, msafe_call; [done|]. intros [e|].
  { apply Hend; [mavoid| |done]. apply hands_back_bind. intros _. apply hands_back_ret. }
  apply msafe_bind. eapply msafe_mono; [|apply freshStartAllowed_safe].
  intros h1 s1 a _ (reads1 & -> & Hz1 & _). rewrite <- app_assoc. set (tr1 := [Ev (CtxErr StepCtx) None] ++ reads1).
  assert (Hc1 : calls is_start tr1 = 0) by (unfold tr1; by rewrite calls_app, Hz1).
  destruct a; [|by apply Hend; [mavoid|apply hands_back_ret|]|].
  2: { apply Hend; [mavoid| |done]. apply hands_back_bind. intros err. apply hands_back_ret. }
  apply msafe_bind. unfold nextRunnerName. apply msafe_bind, msafe_modify, msafe_bind, msafe_gets, msafe_ret.
  set (name := runner_name _ _ _). clearbody name. apply msafe_bind, create_jit_safe. intros tr2 jit Hz2 Hjit.
  destruct jit as [jit|e].
  2: { rewrite <- app_assoc. apply Hend; [mavoid| |rewrite calls_app; lia]. apply hands_back_bind. intros _. apply hands_back_ret. }
  apply msafe_bind. eapply msafe_mono; [|apply freshStartAllowed_safe].
  intros h3 s3 a _ (reads3 & -> & Hz3 & Hadm). rewrite <- !app_assoc.
  assert (Hc3 : calls is_start (tr1 ++ tr2 ++ reads3) = 0) by (rewrite !calls_app; lia).
  destruct a; [|apply Hend; [mavoid| |done]; repeat (apply hands_back_bind; intros); apply hands_back_ret..].
  assert (Hres3 : reserved_by base (h ++ tr1 ++ tr2 ++ reads3) = reserved) by (by rewrite reserved_by_app, startless_reserved).
  apply msafe_bind. eapply msafe_mono; [|apply start_container_safe, HP].
  - intros h' s' started _ [Hc Hr]. rewrite calls_app, Hc3, Z.add_0_r in Hc. rewrite Hres3 in Hr. destruct started.
    + eapply msafe_mono; [|by apply IH]. intros h4 s4 a _ [Hn Hr4]. split; [lia|done].
    + apply msafe_ret. split; [simpl; lia|done].
  - destruct (Hjit jit eq_refl) as [tr0 ->]. split_and!; [done|done|]. exists (h ++ tr1 ++ tr0), reads3.
    split; [by rewrite <- !app_assoc|]. rewrite calls_app in Hz2.
    rewrite reserved_by_app, startless_reserved, <- Hres; [by apply Hadm|]. rewrite calls_app.
    assert (0 <= calls is_start tr0) by apply count_nonneg.
    assert (calls is_start [Ev (SSCreateJITConfig ident name) (Ok jit)] = 0) by done. lia.
Qed.

(** The starts a list of decisions justifies. *)
Definition decision_justified (starts : list StartDecision) (identities : gmap string Identity) (h : list event) (req : StartWorkerRequest) : Prop :=
  exists d ident limits, d ∈ starts /\ sd_PoolID d = sw_PoolID req /\ identities !! sw_PoolID req = Some ident /\
    WorkerForTarget cfg (sw_PoolID req) = Some limits /\ start_justified ident limits (sw_PoolID req) h req.

Definition total_starts (starts : list StartDecision) : Z := zsum (fun d => Z.max 0 (sd_Count d)) starts.

Lemma executePlannedStarts_safe P starts identities h reserved s :
  (forall h req, decision_justified starts identities h req -> P h req) -> reserved = reserved_by base h ->
  msafe (starts_only P) (at_most h (total_starts starts)) h (executePlannedStarts env starts identities b now reserved) s.
Proof.
  revert h reserved s. induction starts as [|d rest IH]; intros h reserved s HP Hres; simpl.
  { eapply startless_at_most; [apply mavoids_ret|apply hands_back_ret|done..]. }
  unfold total_starts. simpl. fold (total_starts rest).
  assert (Hrest : forall h req, decision_justified rest identities h req -> P h req).
  { intros h' req (d' & ident & limits & Hd & Hall). apply HP. exists d', ident, limits. split; [by right|done]. }
  assert (Hgo : forall h1 reserved1 s1, calls is_start h1 <= calls is_start h + Z.max 0 (sd_Count d) -> reserved1 = reserved_by base h1 ->
    msafe (starts_only P) (at_most h (Z.max 0 (sd_Count d) + total_starts rest)) h1 (executePlannedStarts env rest identities b now reserved1) s1).
  { intros h1 reserved1 s1 Hc1 Hr1. eapply msafe_mono; [|by apply IH]. intros h2 s2 a _ [Hc2 Hr2]. split; [lia|done]. }
  assert (Hnonneg : 0 <= total_starts rest) by (apply zsum_nonneg; lia).
  destruct (identities !! sd_PoolID d) as [ident|] eqn:Hident; [|apply Hgo; [lia|done]].
  destruct (WorkerForTarget cfg (sd_PoolID d)) as [limits|] eqn:Hlimits.
  2: { apply msafe_bind, startless_safe; [mavoid|]. intros tr s' a Hz. apply Hgo; [rewrite calls_app; lia|].
       by rewrite reserved_by_app, startless_reserved. }
  apply msafe_bind. eapply msafe_mono; [|apply (start_workers_safe P (sd_PoolID d) ident limits); [|exact Hres]].
  - intros h1 s1 [reserved1 [e|]] _ [Hc1 Hr1]; [|apply Hgo; [lia|done]]. apply msafe_ret. split; [simpl; lia|done].
  - intros h' req Hreq. apply HP. pose proof Hreq as (Hpool & _). exists d, ident, limits. rewrite Hpool.
    split_and!; [by left|done..].
Qed.
End Starts.

(** Containers start only on fresh evidence.  Along every run of the start
    loop, whatever the environment answers, a container is only started for a
    pool the plan decided to start in and whose identity and worker profile are
    known, with that profile as its limits and the registration that GitHub
    created for this very runner name; and everything between the registration
    and the start is one complete admission check, whose fresh readings make
    the planner start a worker in that pool, beside the memory reserved for the
    workers started before it.  There are never more starts than the plan
    decided, and the reservation returned is that of the successful ones. *)
Theorem starts_are_admitted `{MapRange} env b now starts identities reserved s tr res :
  runs (executePlannedStarts env starts identities b now reserved s) tr res ->
  calls is_start tr <= total_starts starts /\ res.2.1 = reserved_by reserved tr /\
  forall pre req r post, tr = pre ++ Ev (WorkerStart req) r :: post -> decision_justified env b reserved starts identities pre req.
Proof.
  intros Hr.
  pose proof (executePlannedStarts_safe env b now reserved _ starts identities [] reserved s (fun h req Hd => Hd) eq_refl) as Hs.
  destruct (safe_runs _ _ _ _ _ _ Hs Hr) as [Hall HQ]. destruct res as [s' a]. destruct HQ as [HQ Hb]. split_and!; [done|done|].
  intros pre req r post Htr. exact (Hall pre _ post Htr).
Qed.

(** ** Runner names *)

(** Runner names are valid and never repeat.  Whatever prefix the host
    configures, a runner name has at most the 64 characters GitHub accepts, and
    two names with different sequence numbers differ, so no two registrations of
    one controller share a name before its 64-bit sequence wraps. *)
Theorem runner_names_distinct prefix nanos sequence nanos' sequence' :
  is_u64 sequence -> is_u64 sequence' ->
  (String.length (runner_name prefix nanos sequence) <= 64)%nat /\
  (runner_name prefix nanos sequence = runner_name prefix nanos' sequence' -> sequence = sequence').
Proof.
  intros Hs Hs'. unfold runner_name. split.
  - set (suffix := "-" +:+ _). pose proof (FormatInt36_length nanos) as Hi. pose proof (FormatUint36_length sequence) as Hu.
    assert (Hl : (String.length suffix <= 29)%nat) by (unfold suffix; rewrite !string_app_length; change (String.length "-") with 1%nat; lia).
    rewrite string_app_length. destruct (Nat.ltb_spec 64 (String.length prefix + String.length suffix)); [|lia].
    pose proof (trim_right_length name_separator (String.substring 0 (64 - String.length suffix) prefix)).
    pose proof (substring_length prefix 0 (64 - String.length suffix)). lia.
  - intros Heq. apply (f_equal after_hyphen) in Heq.
    assert (Hsplit : forall b n q, after_hyphen (b +:+ "-" +:+ FormatInt36 n +:+ "-" +:+ FormatUint36 q) = Some (FormatUint36 q)).
    { intros b n q. rewrite <- (after_hyphen_app (b +:+ "-" +:+ FormatInt36 n)) by (by apply digits36_hyphen_free).
      by rewrite !string_app_assoc. }
    rewrite !Hsplit in Heq. injection Heq as Heq. by apply FormatUint36_inj.
Qed.

Lemma runner_names_distinct_witness :
  (String.length (runner_name (String.concat "" (List.repeat "builder-" 9)) 1700000000000000000 41) <= 64)%nat /\
  runner_name "ci" 17 41 <> runner_name "ci" 17 42.
Proof.
  split.
  - refine (proj1 (runner_names_distinct _ 1700000000000000000 41 0 0 _ _)); unfold is_u64, max_u64; lia.
  - intros Heq. assert (41 = 42); [|lia].
    refine (proj2 (runner_names_distinct "ci" 17 41 17 42 _ _) Heq); unfold is_u64, max_u64; lia.
Defined.

(** ** Gaming shutdown *)

Section Shutdown.
Context (env : Env) (plan : Plan) (facts : PollFacts) (desktop : DesktopStatus) (desktopStatusKnown : bool) (now : time) (base : list event).

(** The inventory read at the start of a shutdown, with no active worker in it. *)
Definition inventory_clear (reads : list event) : Prop :=
  mayHaveManagedWorkers desktop desktopStatusKnown = false /\ reads = [] \/
  reads = [Ev WorkersList (Ok [])] \/
  exists listed catalog err, reads = [Ev WorkersList (Ok listed); Ev JobsLoad (catalog, err)] /\
    containsActiveWorker (map (mark_busy catalog) listed) = false.

(** What may follow the inventory: the stop of the desktop and log lines. *)
Definition stop_step (e : event) : Prop :=
  match ev_call e with DesktopStop _ | WriteLog _ => True | _ => False end.

Definition shutdown_ready (h : list event) : Prop :=
  (forall t, t ∈ c_Targets (en_config env) ->
     mgetb (pf_zeroAcknowledged facts) (t_ID t) = true /\ 2 <= mget (pf_zeroConfirmations facts) (t_ID t)) /\
  exists reads rest, h = base ++ reads ++ rest /\ inventory_clear reads /\ Forall stop_step rest.

Definition shutdown_guard (h : list event) (c : call) : Prop :=
  match c with
  | DesktopStop _ => p_StopDesktop plan = true /\ shutdown_ready h
  | ShutdownAllWSL => p_ShutdownWSL plan = true /\ shutdown_ready h
  | _ => True
  end.

Lemma shutdown_ready_app h tr : shutdown_ready h -> Forall stop_step tr -> shutdown_ready (h ++ tr).
Proof.
  intros [Hz (reads & rest & -> & Hr & Hf)] Ht. split; [done|]. exists reads, (rest ++ tr).
  split_and!; [by rewrite <- !app_assoc|done|by apply Forall_app].
Qed.

Lemma quiet_stop_step logs : Forall (fun e => exists l, ev_call e = WriteLog l) logs -> Forall stop_step logs.
Proof. intros Hl. eapply Forall_impl; [exact Hl|]. intros e [l He]. unfold stop_step. by rewrite He. Qed.

Lemma stop_host_safe h s :
  shutdown_ready h -> msafe shutdown_guard (fun _ _ _ => True) h (stop_host env now plan) s.
Proof.
  intros Hready. apply msafe_bind.
  assert (Htail : forall h s, shutdown_ready h -> msafe shutdown_guard (fun _ _ _ => True) h (stop_wsl now plan) s).
  { intros h' s' Hh. unfold stop_wsl. destruct (p_ShutdownWSL plan) eqn:Hw; [|by apply msafe_ret].
    apply msafe_bind, msafe_call; [by split|]. intros [e|]; [by apply quiet_record|by apply msafe_ret]. }
  destruct (p_StopDesktop plan) eqn:Hstop; [|by apply msafe_ret, Htail].
  apply msafe_bind, msafe_call; [by split|]. intros r.
  assert (Hnext : shutdown_ready (h ++ [Ev (DesktopStop (dd_StopTimeout (c_DockerDesktop (en_config env)))) r])).
  { apply shutdown_ready_app; [done|]. by repeat constructor. }
  destruct r as [e|]; [|by apply msafe_ret, Htail].
  apply quiet_record; [done|]. intros h' s' (logs & -> & Hl). by apply Htail, shutdown_ready_app, quiet_stop_step.
Qed.

Lemma shut_down_host_safe s :
  msafe shutdown_guard (fun _ _ _ => True) base (shut_down_host env now plan facts desktop desktopStatusKnown) s.
Proof.
  unfold shut_down_host. split_if; [by apply msafe_ret|]. split_if; [by apply quiet_note|].
  match goal with Hf : negb (allTargetsStablyZero _ _ _) = false |- _ => apply negb_false_iff in Hf; rename Hf into Hz end.
  unfold allTargetsStablyZero in Hz. rewrite forallb_forall in Hz.
  assert (Hgo : forall h, inventory_clear h -> shutdown_ready (base ++ h)).
  { intros h Hc. split; [|by exists h, []; rewrite !app_nil_r]. intros t Ht%list_elem_of_In%Hz. zb. split; [|lia]. by destruct (mgetb _ _). }
  apply msafe_bind.
  destruct (mayHaveManagedWorkers desktop desktopStatusKnown) eqn:Hmay.
  - apply msafe_call; [done|]. intros [listed|e]; [|by apply quiet_record].
    apply msafe_bind, enrich_safe; [done| | |].
    + intros ->. simpl. apply stop_host_safe, Hgo. right. by left.
    + intros catalog err. split_if; [by apply quiet_record|]. rewrite <- app_assoc. apply stop_host_safe, Hgo. right. right.
      by exists listed, catalog, err.
    + intros catalog err e. by apply quiet_record.
  - apply msafe_ret, msafe_bind, msafe_ret, stop_host_safe. rewrite <- (app_nil_r base). apply Hgo. by left.
Qed.
End Shutdown.

(** The host is only shut down for gaming when it is provably quiet.  Along
    every run, whatever the environment answers, Docker Desktop is only stopped
    (or WSL shut down) if the plan says so, every configured target's listener
    has acknowledged zero capacity in two polls, and the run began by reading an
    inventory in which, with the jobs of the durable index, no worker is
    active; the inventory is skipped only when neither the desktop nor the
    engine can be running. *)
Theorem shutdown_only_when_quiet env plan facts desktop desktopStatusKnown now s tr res pre e post :
  runs (shut_down_host env now plan facts desktop desktopStatusKnown s) tr res ->
  tr = pre ++ e :: post ->
  match ev_call e with
  | DesktopStop _ => p_StopDesktop plan = true /\ shutdown_ready env facts desktop desktopStatusKnown [] pre
  | ShutdownAllWSL => p_ShutdownWSL plan = true /\ shutdown_ready env facts desktop desktopStatusKnown [] pre
  | _ => True
  end.
Proof.
  intros Hr Htr. pose proof (shut_down_host_safe env plan facts desktop desktopStatusKnown now [] s) as Hs.
  destruct (safe_runs _ _ _ _ _ _ Hs Hr) as [Hall _]. exact (Hall pre e post Htr).
Qed.

(** ** Concrete runs *)

#[local] Transparent mret mbind lift call_ gets modify.

Definition zero_facts : PollFacts :=
  mkPollFacts {["org" := 0]} {["org" := true]} {["org" := true]} {["org" := 2]}.

Definition removal_plan : Plan :=
  let p := BuildPlan 1000 sample_disabled in {| p with p_Remove := [sample_worker "w1" "org" WorkerIdle] |}.

Definition removal_run : M bool := remove_workers sample_env removal_plan zero_facts [sample_pool "org" 0] true 1000.

Lemma removals_are_justified_witness :
  trace_of draining removal_run !! 2%nat = Some (Ev (RemoveIfIdle "w1") (Ok true)) /\
  exists w, w ∈ p_Remove removal_plan /\ w_ID w = "w1" /\
    removal_justified removal_plan zero_facts [sample_pool "org" 0] true (take 2 (trace_of draining removal_run)) w.
Proof.
  assert (Hn : trace_of draining removal_run !! 2%nat = Some (Ev (RemoveIfIdle "w1") (Ok true))) by (vm_compute; reflexivity).
  split; [exact Hn|].
  exact (removals_are_justified sample_env removal_plan zero_facts [sample_pool "org" 0] true 1000 sample_state _ _ _ _ _ _
           (trace_runs draining removal_run) (trace_at draining removal_run 2 _ Hn)).
Defined.

Lemma retirement_requests_bounded_witness : calls is_removal_request (trace_of draining removal_run) <= 3 * 6.
Proof.
  exact (retirement_requests_bounded sample_env removal_plan zero_facts [sample_pool "org" 0] true 1000 sample_state _ _
           (trace_runs draining removal_run)).
Defined.

Definition start_baseline : Baseline :=
  mkBaseline [sample_pool "org" 1] quiet_checkpoint (mkDesiredState 1 ModeEnabled None 1) (mkPowerSnapshot true 1)
    (mkResourceSnapshot (64 * GiB) (60 * GiB) (f64_of_Z 10)) (mkDesktopStatus true true 1).

Definition start_run : M (Z * option error) :=
  executePlannedStarts sample_env [mkStartDecision "org" 1] {["org" := mkIdentity 1 "org"]} start_baseline 1000 0.

Lemma starts_are_admitted_witness :
  calls is_start (trace_of demand start_run) = 1 /\ calls is_start (trace_of demand start_run) <= total_starts [mkStartDecision "org" 1].
Proof.
  split; [vm_compute; reflexivity|].
  exact (proj1 (starts_are_admitted sample_env start_baseline 1000 [mkStartDecision "org" 1] _ 0 sample_state _ _ (trace_runs demand start_run))).
Defined.

Definition gaming_plan : Plan := BuildPlan 1000 sample_gaming.

Definition gaming_run : M () := shut_down_host sample_env 1000 gaming_plan zero_facts (mkDesktopStatus true true 1) true.

Lemma shutdown_only_when_quiet_witness :
  trace_of gaming gaming_run !! 1%nat = Some (Ev (DesktopStop Second) None) /\
  p_StopDesktop gaming_plan = true /\
  shutdown_ready sample_env zero_facts (mkDesktopStatus true true 1) true [] (take 1 (trace_of gaming gaming_run)).
Proof.
  assert (Hn : trace_of gaming gaming_run !! 1%nat = Some (Ev (DesktopStop Second) None)) by (vm_compute; reflexivity).
  split; [exact Hn|].
  exact (shutdown_only_when_quiet sample_env gaming_plan zero_facts (mkDesktopStatus true true 1) true 1000 sample_state _ _ _ _ _
           (trace_runs gaming gaming_run) (trace_at gaming gaming_run 1 _ Hn)).
Defined.

(** ** The safety watcher *)

Section Safety.
Context (env : Env) (desired : DesiredState) (power : PowerSnapshot).

(** A reading that differs from what the step was planned with, or that failed. *)
Definition input_changed (e : event) : bool :=
  match e with
  | Ev LoadDesired (Ok d) => negb (sameAdmissionIntent desired d)
  | Ev LoadDesired (Err e) =>
      negb (is_sentinel ErrStateNotFound e && sameAdmissionIntent desired (mkDesiredState 1 ModeDisabled None 0))
  | Ev PowerRead (Ok p) => negb (Bool.eqb (ps_ACConnected p) (ps_ACConnected power))
  | Ev PowerRead (Err _) => true
  | _ => false
  end.

Definition is_cancel (c : call) : bool := match c with CancelStep _ => true | _ => false end.

(** Readings that change nothing. *)
Definition steady (e : event) : Prop := input_changed e = false /\ is_cancel (ev_call e) = false.

(** The end of a watch: nothing, or the changed reading and the cancellation. *)
Definition watch_end (tail : list event) : Prop :=
  tail = [] \/ exists e r, tail = [e; Ev (CancelStep errReconcileInputsChanged) r] /\ input_changed e = true.

Definition watch_shape (tr : list event) (canceled : bool) : Prop :=
  exists body tail, tr = body ++ tail /\ Forall steady body /\ watch_end tail /\ (canceled = true <-> tail <> []).

Lemma safety_tick_shape forcedZero tr canceled :
  runs (safety_tick env desired power forcedZero) tr canceled ->
  watch_shape tr canceled /\ (forcedZero = true -> tr = [] /\ canceled = false).
Proof.
  unfold safety_tick. destruct forcedZero.
  { intros [-> ->]. split; [|done]. exists [], []. split_and!; [done|done|by left|by split]. }
  intros (loaded & t1 & -> & Hr). split; [|done].
  cbn [bind] in Hr.
  assert (Hchange : input_changed (Ev LoadDesired loaded)
            = negb (match match loaded with
                          | Ok d => Some d
                          | Err e => if is_sentinel ErrStateNotFound e then Some (mkDesiredState 1 ModeDisabled None 0) else None
                          end with Some d => sameAdmissionIntent desired d | None => false end)).
  { destruct loaded as [d|e]; [done|]. unfold input_changed. by destruct (is_sentinel ErrStateNotFound e). }
  rewrite <- Hchange in Hr. destruct (input_changed (Ev LoadDesired loaded)) eqn:Hc.
  { destruct Hr as (u & t2 & -> & -> & ->). exists [], [Ev LoadDesired loaded; Ev (CancelStep errReconcileInputsChanged) u].
    split_and!; [done|done|right; by exists (Ev LoadDesired loaded), u|by split]. }
  destruct (negb (bool_decide (pw_Policy (c_Power (en_config env)) = PowerACOnly))).
  { destruct Hr as [-> ->]. exists [Ev LoadDesired loaded], []. split_and!; [done|by repeat constructor|by left|by split]. }
  destruct Hr as (latestPower & t2 & -> & Hr). cbn [bind] in Hr.
  assert (Hp : input_changed (Ev PowerRead latestPower)
               = negb (match latestPower with Ok p => Bool.eqb (ps_ACConnected p) (ps_ACConnected power) | Err _ => false end))
    by (by destruct latestPower).
  rewrite <- Hp in Hr. destruct (input_changed (Ev PowerRead latestPower)) eqn:Hcp.
  - destruct Hr as (u & t3 & -> & -> & ->). exists [Ev LoadDesired loaded], [Ev PowerRead latestPower; Ev (CancelStep errReconcileInputsChanged) u].
    split_and!; [done|by repeat constructor|right; by exists (Ev PowerRead latestPower), u|by split].
  - destruct Hr as [-> ->]. exists [Ev LoadDesired loaded; Ev PowerRead latestPower], [].
    split_and!; [done|by repeat constructor|by left|by split].
Qed.

Lemma watch_shape_runs ticks forcedZero tr :
  runs (watchSafetyInputs env ticks desired power forcedZero) tr () ->
  exists body tail, tr = body ++ tail /\ Forall steady body /\ watch_end tail /\ (forcedZero = true -> tail = []).
Proof.
  revert tr. induction ticks as [|ticks IH]; intros tr; simpl.
  { intros [-> _]. exists [], []. split_and!; [done|done|by left|done]. }
  intros (fired & t1 & -> & Hr). cbn [bind] in Hr. destruct fired; simpl in Hr.
  2: { destruct Hr as [-> _]. exists [Ev WatchTick false], []. split_and!; [done|by repeat constructor|by left|done]. }
  apply runs_bind in Hr as (t2 & t3 & canceled & -> & Ht & Hr).
  destruct (safety_tick_shape _ _ _ Ht) as [(body & tail & -> & Hb & He & Hiff) Hforced].
  destruct canceled.
  - destruct Hr as [-> _]. rewrite app_nil_r. exists (Ev WatchTick true :: body), tail.
    split_and!; [done|by constructor|done|]. intros Hz. by destruct (Hforced Hz).
  - assert (tail = []) as ->. { destruct tail; [done|]. discriminate (proj2 Hiff ltac:(done)). }
    destruct (IH t3 Hr) as (body' & tail' & -> & Hb' & He' & Hz'). rewrite app_nil_r.
    exists (Ev WatchTick true :: body ++ body'), tail'. split_and!; [by simpl; rewrite <- app_assoc|constructor; [done|by apply Forall_app]|done|done].
Qed.
End Safety.

(** The safety watcher reacts to every change and to nothing else.  Along
    every run of the watcher, a reading that failed or that differs in mode,
    schema or capacity override (or, under the AC-only policy, in AC power) from
    what the step was planned with is the last one and is followed at once by the
    cancellation that makes the step rerun; there is no other cancellation; and
    a step that already holds every listener at zero is never canceled. *)
Theorem safety_watch_reacts env ticks desired power forcedZero tr :
  runs (watchSafetyInputs env ticks desired power forcedZero) tr () ->
  exists body tail, tr = body ++ tail /\
    Forall (fun e => input_changed desired power e = false /\ is_cancel (ev_call e) = false) body /\
    (tail = [] \/ forcedZero = false /\ exists e r,
       tail = [e; Ev (CancelStep errReconcileInputsChanged) r] /\ input_changed desired power e = true).
Proof.
  intros Hr. destruct (watch_shape_runs _ _ _ _ _ _ Hr) as (body & tail & -> & Hb & He & Hz). exists body, tail. split_and!; [done|done|].
  destruct He as [->|He]; [by left|]. right. destruct forcedZero; [|done]. destruct He as (e & r & -> & _). by specialize (Hz eq_refl).
Qed.

Lemma safety_watch_reacts_witness :
  let changed := Ev LoadDesired (Ok (mkDesiredState 1 ModeGaming None 2)) in
  exists body tail, [Ev WatchTick true; changed; Ev (CancelStep errReconcileInputsChanged) ()] = body ++ tail /\
    Forall (fun e => input_changed (mkDesiredState 1 ModeEnabled None 1) (mkPowerSnapshot true 1) e = false /\ is_cancel (ev_call e) = false) body /\
    (tail = [] \/ false = false /\ exists e r,
       tail = [e; Ev (CancelStep errReconcileInputsChanged) r] /\
       input_changed (mkDesiredState 1 ModeEnabled None 1) (mkPowerSnapshot true 1) e = true).
Proof.
  intros changed.
  refine (safety_watch_reacts sample_env 2 (mkDesiredState 1 ModeEnabled None 1) (mkPowerSnapshot true 1) false _ _).
  exists true. eexists. split; [reflexivity|]. eexists. eexists. split; [reflexivity|]. exists (). eexists. split; [reflexivity|]. by vm_compute.
Defined.
