(* ===== verification/StepFacts.v ===== *)
(** Safety of a whole reconciliation step, for every behaviour of the
    environment and of the Go scheduler: what a step may have done before it
    starts or removes a worker or shuts the host down, and what a recovery from
    a corrupt checkpoint never does. *)

From S2P Require Import Prelude Float64 Model Config PlanGates Plan PlanFacts PlanSafety Capacity Errors GoStrings JobIndex Effects Retry Reconciler ReconcilerFacts Cadence Step RunSamples.
Open Scope Z_scope.

(** ** Parts of a step that avoid a kind of calls *)

Lemma avoids_par {A B} f (p : prog A) (q : prog B) : f Schedule = false -> avoids f p -> avoids f q -> avoids f (par p q).
Proof.
  intros Hs. revert q. induction p as [a|c k IHp]; intros q Hp Hq.
  - destruct q; simpl in *; [done|]. destruct Hq as [Hd Hl]. split; [done|]. intros r. by apply avoids_bind.
  - destruct Hp as [Hc Hk]. induction q as [b|d l IHq]; simpl in *.
    + split; [done|]. intros r. by apply avoids_bind.
    + destruct Hq as [Hd Hl]. split; [done|]. intros []; simpl; (split; [done|]); intros r; [by apply IHp|by apply IHq].
Qed.

Lemma avoids_par_all {A} f (ps : list (prog A)) :
  f Schedule = false -> f Arrival = false -> Forall (avoids f) ps -> avoids f (par_all ps).
Proof.
  intros Hs Ha. induction 1 as [|p ps Hp _ IH]; simpl; [done|].
  apply avoids_bind; [by apply avoids_par|]. by intros [a l].
Qed.

#[local] Opaque mret mbind lift call_ gets modify.

Section Parts.
Context `{MapRange} (env : Env) (f : call -> bool) (Hf : forall c, passive c = true -> f c = false).
Local Abbreviation cfg := (en_config env).

Lemma mavoids_forM {A} (l : list A) k : (forall x, mavoids f (k x)) -> mavoids f (forM l k).
Proof. intros Hk. induction l; simpl; mavoid. Qed.

Lemma mavoids_read c : passive c = true -> mavoids f (call_ c).
Proof. intros Hc. by apply mavoids_call, Hf. Qed.
#[local] Hint Extern 2 (mavoids _ (call_ _)) => apply mavoids_read; reflexivity : m_safe.
#[local] Hint Resolve mavoids_forM : m_safe.

Lemma mavoids_readInputIdle : mavoids f readInputIdle.
Proof. unfold readInputIdle. mavoid. Qed.
#[local] Hint Resolve mavoids_readInputIdle : m_safe.

Lemma mavoids_noteInteractiveCap input now : mavoids f (noteInteractiveCap input now).
Proof. unfold noteInteractiveCap. mavoid. Qed.
#[local] Hint Resolve mavoids_noteInteractiveCap : m_safe.

Lemma mavoids_probe now known desktop : mavoids f (probeEngineMemory env now known desktop).
Proof. unfold probeEngineMemory. mavoid. Qed.
#[local] Hint Resolve mavoids_probe : m_safe.

Lemma mavoids_enrich ws : mavoids f (enrichWorkerJobs ws).
Proof. unfold enrichWorkerJobs. mavoid. Qed.
#[local] Hint Resolve mavoids_enrich : m_safe.

Lemma mavoids_persist o : mavoids f (persistObserved o).
Proof. unfold persistObserved. mavoid. Qed.
#[local] Hint Resolve mavoids_persist : m_safe.

Lemma mavoids_persistPoll o : mavoids f (persistPollCheckpoint o).
Proof. apply mavoids_persist. Qed.
#[local] Hint Resolve mavoids_persistPoll : m_safe.

Lemma mavoids_cost : mavoids f controllerCost.
Proof. unfold controllerCost. mavoid. Qed.
#[local] Hint Resolve mavoids_cost : m_safe.

Lemma mavoids_checkpoint previous pools workers resources power desktop plan now problems :
  mavoids f (checkpoint_now env previous pools workers resources power desktop plan now problems).
Proof. unfold checkpoint_now. mavoid. Qed.
#[local] Hint Resolve mavoids_checkpoint : m_safe.

Lemma mavoids_tick_heartbeat state result now sources : mavoids f (tick_heartbeat state result now sources).
Proof. unfold tick_heartbeat. mavoid. Qed.

Lemma mavoids_tick_plan state result now power resources workers :
  mavoids f (tick_plan env state result now power resources workers).
Proof. unfold tick_plan. mavoid. Qed.
#[local] Hint Resolve mavoids_tick_heartbeat mavoids_tick_plan : m_safe.

Lemma mavoids_watch ticks state : mavoids f (watchPollCadence env ticks state).
Proof.
  unfold watchPollCadence. generalize (mkPollCadenceResult (cs_observed state) (cs_checkpointErr state) false).
  revert state. induction ticks as [|ticks IH]; intros state result; simpl; [mavoid|].
  unfold cadence_tick, tick_readings. mavoid.
Qed.

Lemma mavoids_load_desired now : mavoids f (load_desired now).
Proof. unfold load_desired. mavoid. Qed.

Lemma mavoids_load_observed now desired err : mavoids f (load_observed now desired err).
Proof. unfold load_observed. mavoid. Qed.

Lemma mavoids_report now l : mavoids f (report_load_errors now l).
Proof. unfold report_load_errors. mavoid. Qed.

Lemma mavoids_observe now l : f (DesktopStart (dd_StartTimeout (c_DockerDesktop cfg))) = false \/ ds_Mode (ld_desired l) <> ModeEnabled ->
  mavoids f (observe env now l).
Proof.
  intros Hstart. unfold observe, observe_power, observe_desktop, observe_host, observe_jobs, forced_zero.
  assert (Hboot : forall v, mavoids f (bootstrap_desktop env now l v)).
  { intros v. unfold bootstrap_desktop. case_bool_decide as Hm; simpl; [|mavoid].
    destruct Hstart as [Hstart|]; [|done]. split_if; [mavoid|]. split_if; mavoid. }
  mavoid.
Qed.
#[local] Hint Resolve mavoids_load_desired mavoids_load_observed mavoids_report mavoids_observe : m_safe.

Lemma mavoids_ensure_targets now previousPools : mavoids f (ensure_targets env now previousPools).
Proof.
  unfold ensure_targets.
  assert (Heach : forall reregister acc ts, mavoids f (ensure_each env now previousPools reregister acc ts)).
  { intros reregister acc ts. revert acc. induction ts as [|t ts IH]; intros acc; simpl; [mavoid|].
    apply mavoids_bind; [|auto]. unfold ensure_target. apply mavoids_bind; [|mavoid].
    apply mavoids_lift, avoids_RetryValue; [by apply bookkeeping_avoided|]. simpl. split; [by apply Hf|done]. }
  mavoid.
Qed.

Lemma mavoids_refresh now c1 m1 c2 m2 v : mavoids f (refresh_workers now c1 m1 c2 m2 v).
Proof. unfold refresh_workers. mavoid. Qed.

Lemma mavoids_verify now pools workers : mavoids f (verify_registrations env now pools workers).
Proof.
  unfold verify_registrations.
  assert (Hcheck : forall limit order checked workers, mavoids f (check_registrations env now limit order checked workers)).
  { intros limit order. induction order as [|i order IH]; intros checked ws; simpl; [mavoid|].
    destruct (ws !! i); [|auto]. split_if; [mavoid|]. apply mavoids_bind; [|mavoid].
    apply mavoids_lift, avoids_RetryValue; [by apply bookkeeping_avoided|]. simpl. split; [by apply Hf|done]. }
  mavoid.
Qed.

Lemma mavoids_fresh pool b reserved : mavoids f (freshStartAllowed env pool b reserved).
Proof. unfold freshStartAllowed. mavoid; intros s'; done. Qed.
#[local] Hint Resolve mavoids_fresh : m_safe.

Lemma mavoids_starts starts identities b now reserved :
  (forall req, f (WorkerStart req) = false) -> mavoids f (executePlannedStarts env starts identities b now reserved).
Proof.
  intros Hs.
  assert (Hjit : forall ident name, mavoids f (create_jit env ident name)).
  { intros ident name. apply mavoids_lift, avoids_RetryValue; [by apply bookkeeping_avoided|]. simpl. split; [by apply Hf|done]. }
  assert (Hworkers : forall pool ident limits n reserved, mavoids f (start_workers env pool ident limits b now n reserved)).
  { intros pool ident limits n. induction n as [|n IH]; intros reserved'; simpl; [mavoid|].
    unfold start_container, nextRunnerName. mavoid. }
  revert reserved. induction starts as [|d rest IH]; intros reserved; simpl; mavoid.
Qed.

Lemma mavoids_removals plan facts pools known now :
  (forall id, f (RemoveIfIdle id) = false) -> mavoids f (remove_workers env plan facts pools known now).
Proof.
  intros Hr. unfold remove_workers.
  assert (Heach : forall st ws, mavoids f (remove_each env plan facts pools known now st ws)).
  { intros st ws. revert st. induction ws as [|w ws IH]; intros st; simpl; [mavoid|].
    apply mavoids_bind; [|auto]. unfold remove_worker, remove_unregistered, remove_container.
    assert (Hd : mavoids f (lift (deregisterRunner StepCtx (en_backoff env) (w_PoolID w) (w_RunnerID w)))).
    { apply mavoids_lift, avoids_deregisterRunner; [by apply bookkeeping_avoided|by apply Hf]. }
    mavoid. }
  mavoid.
Qed.

Lemma mavoids_shutdown now plan facts desktop known :
  f (DesktopStop (dd_StopTimeout (c_DockerDesktop cfg))) = false -> f ShutdownAllWSL = false ->
  mavoids f (shut_down_host env now plan facts desktop known).
Proof. intros H1 H2. unfold shut_down_host, stop_host, stop_wsl. mavoid. Qed.

(** Polls at capacities that are not avoided. *)
Lemma mavoids_poll ticks watch ready :
  (forall ident k, f (SSStatistics ident (mget (cs_advertised watch) k)) = false) ->
  mavoids f (poll_listeners env ticks watch ready).
Proof.
  intros Hcap. unfold poll_listeners.
  assert (Hpolls : avoids f (par_all (poll_programs env (cs_advertised watch) (cs_pools watch)))).
  { apply avoids_par_all; [by apply Hf..|]. apply Forall_forall. intros p Hp. unfold poll_programs in Hp.
    apply list_elem_of_omap in Hp as ([i pool] & _ & Hp). destruct (sn_Ready pool); [|done]. injection Hp as <-.
    assert (Hstats : forall ident, avoids f (RetryValue StepCtx (en_backoff env) Retryable
              (ask (SSStatistics ident (mget (cs_advertised watch) (sn_TargetID pool)))))).
    { intros ident. apply avoids_RetryValue; [by apply bookkeeping_avoided|]. simpl. split; [apply Hcap|done]. }
    apply avoids_bind; [|by intros []]. apply avoids_bind; [done|]. intros [n|e]; [done|]. split_if; [done|].
    apply avoids_bind.
    - apply avoids_RetryValue; [by apply bookkeeping_avoided|]. simpl. split; [by apply Hf|done].
    - intros [fresh|e']; [|done]. by apply avoids_bind. }
  destruct ready; [|apply mavoids_bind; [by apply mavoids_lift|mavoid]].
  intros s. apply avoids_bind; [|by intros [? []]]. apply avoids_par; [by apply Hf|done|apply mavoids_watch].
Qed.

Lemma mavoids_collect now previousPools acc results : mavoids f (collect_results now previousPools acc results).
Proof.
  revert acc. induction results as [|r results IH]; intros acc; simpl; [mavoid|].
  apply mavoids_bind; [|auto]. unfold collect_result, rememberDrainCapacity. mavoid.
Qed.

Lemma mavoids_canceled l v previous pools pollPlan stale cause :
  mavoids f (finish_canceled env l v previous pools pollPlan stale cause).
Proof. unfold finish_canceled. mavoid. Qed.

Lemma mavoids_finish now l v previous pd cadencePools pollPlan stale :
  mavoids f (finish_step env now l v previous pd cadencePools pollPlan stale).
Proof. unfold finish_step, final_desktop, final_inventory, plan_with, note_clamps. mavoid. apply mavoids_forM. mavoid. Qed.
End Parts.

#[export] Hint Resolve mavoids_load_desired mavoids_load_observed mavoids_report mavoids_observe mavoids_ensure_targets
  mavoids_refresh mavoids_verify mavoids_collect mavoids_canceled mavoids_finish mavoids_checkpoint mavoids_persistPoll mavoids_read
  mavoids_readInputIdle mavoids_noteInteractiveCap mavoids_probe mavoids_enrich mavoids_persist mavoids_cost : m_safe.
#[export] Hint Extern 2 (mavoids _ (call_ _)) => apply mavoids_read; [auto with m_safe | reflexivity] : m_safe.

(** ** Recovery *)

(** Changes to workers or the host, and polls that offer capacity. *)
Definition not_recovery (c : call) : bool :=
  match c with
  | SSStatistics _ capacity => 0 <? capacity
  | _ => negb (passive c)
  end.

Lemma passive_recovery c : passive c = true -> not_recovery c = false.
Proof. by destruct c. Qed.
#[export] Hint Resolve passive_recovery : m_safe.

Section Recovery.
Context `{MapRange} (env : Env).
Local Abbreviation cfg := (en_config env).

(** Where nothing is planned nothing is offered. *)
Lemma poll_capacity_zero previous pending failed planned k :
  (forall k, mget planned k = 0) -> mget (poll_capacity previous pending failed planned) k <= 0.
Proof.
  intros Hz. unfold poll_capacity.
  set (advertised := match pendingCapacitySnapshot pending with Some _ => _ | None => _ end).
  assert (Ha : forall k, mget advertised k <= 0).
  { assert (Htr : forall k, mget (sequenceCapacityTransfer previous planned) k = 0).
    { intros k'. rewrite transfer_mget. specialize (Hz k'). unfold mget in Hz. pose proof (current_capacity_nonneg previous k') as Hc.
      destruct (planned !! k') as [c|]; [|done]. simpl in Hz. subst c. split_if; lia. }
    intros k'. unfold advertised, pendingCapacitySnapshot. destruct (decide (pending = ∅)); [by rewrite Htr|].
    unfold clamp_pending. apply (foldl_invariant (fun m => mget m k' <= 0)); [by rewrite Htr|]. intros m [k2 c2] Hin IH.
    destruct (pending !! k2) as [limit|] eqn:Hl; [|done]. split_if; [|done]. zb. rewrite mget_insert. case_decide; [|done].
    apply elem_of_range in Hin. specialize (Htr k2). unfold mget in Htr. rewrite Hin in Htr. simpl in Htr. lia. }
  destruct failed; [|apply Ha]. unfold mget. rewrite lookup_fmap. by destruct (advertised !! k).
Qed.

Lemma act_recovery now l v previous pd cadencePools pollPlan stale reserved :
  ld_recoveryOnly l = true -> mavoids not_recovery (act env now l v previous pd cadencePools pollPlan stale reserved).
Proof.
  intros Hl. unfold act. rewrite Hl. apply mavoids_bind; [unfold refresh_after_poll; mavoid|]. intros [v' b].
  apply mavoids_bind; [mavoid|]. intros workers. apply mavoids_bind; [unfold plan_with; mavoid|]. intros plan.
  unfold execute_plan. apply mavoids_bind; [|mavoid].
  apply mavoids_bind; [unfold start_desktop; simpl; mavoid|]. intros _.
  apply mavoids_bind; [unfold remove_workers; simpl; mavoid|]. intros stale'.
  apply mavoids_bind; [simpl; mavoid|]. intros [? [e|]]; [mavoid|].
  apply mavoids_bind; [|mavoid]. unfold shut_down_host. simpl. mavoid.
Qed.

Lemma poll_and_act_recovery ticks l v e previousPools pollPlan reserved :
  ld_recoveryOnly l = true -> (forall k, mget (p_AdvertisedCapacity pollPlan) k <= 0) ->
  mavoids not_recovery (poll_and_act env ticks l v e previousPools pollPlan reserved).
Proof.
  intros Hl Hz. unfold poll_and_act, forced_zero.
  repeat (apply mavoids_bind; [solve [mavoid]|intros ?]).
  apply mavoids_bind.
  { apply mavoids_poll; [apply passive_recovery|]. intros ident k. simpl. specialize (Hz k). lia. }
  intros [results cadence]. repeat (apply mavoids_bind; [solve [mavoid]|intros ?]).
  case_match; [mavoid|]. apply mavoids_bind; [mavoid|]. intros _. by apply act_recovery.
Qed.

Lemma reconcile_recovery ticks now l :
  ld_recoveryOnly l = true -> ds_Mode (ld_desired l) = ModeDisabled -> mavoids not_recovery (reconcile env ticks now l).
Proof.
  intros Hl Hm. unfold reconcile. apply mavoids_bind; [mavoid|]. intros _.
  apply mavoids_bind; [apply mavoids_observe; [apply passive_recovery|right; by rewrite Hm]|]. intros v.
  apply mavoids_bind; [mavoid|]. intros e. apply mavoids_bind; [mavoid|]. intros pending.
  unfold plan_with. apply mavoids_gets_bind. intros s. set (provisional := BuildPlan _ _).
  assert (Hz : forall k, mget (p_AdvertisedCapacity provisional) k = 0).
  { intros k. apply BuildPlan_gated_zero. unfold admits_work, normalized. simpl. split_if; simpl; by rewrite Hm. }
  clearbody provisional. unfold start_before_poll. rewrite Hl.
  apply mavoids_ret_bind, mavoids_gets_bind. intros s'. apply poll_and_act_recovery; [done|]. intros k. by apply poll_capacity_zero.
Qed.

(** The answer of a [LoadObserved] event. *)
Definition observed_answer (e : event) : option (result error ObservedState) :=
  match e with Ev LoadObserved r => Some r | _ => None end.

#[local] Transparent mret mbind lift call_ gets modify.

Lemma resume_recovery ticks now desired desiredErr e s tr res :
  is_sentinel ErrStateNotFound e = false -> is_sentinel ErrCorruptObserved e = true ->
  runs (resume env ticks now desired desiredErr s) (Ev LoadObserved (Err e) :: tr) res ->
  forall ev, ev ∈ tr -> not_recovery (ev_call ev) = false.
Proof.
  intros Hn Hc (r & tr' & Htr & Hr) ev Hev.
  assert (r = Err e) as -> by (apply (f_equal (fun l => head l ≫= observed_answer)) in Htr; by injection Htr).
  apply (f_equal tail) in Htr. simpl in Htr. subst tr'.
  cbn [bind] in Hr. rewrite Hn, Hc in Hr. destruct Hr as (q & tr' & -> & Hr).
  apply elem_of_cons in Hev as [->|Hev]; [done|].
  destruct q as [[qe|]|]; [destruct Hr as [-> _]; by apply elem_of_nil in Hev| |destruct Hr as [-> _]; by apply elem_of_nil in Hev].
  simpl in Hr. refine (avoids_runs _ _ _ _ _ Hr ev Hev). by apply reconcile_recovery.
Qed.
End Recovery.

(** C7: A corrupt checkpoint suspends every lifecycle change.  Once loading the
    observed state reports corruption, the rest of the step, whatever the
    environment answers, starts and removes no container, neither starts nor
    stops the desktop or WSL, and offers no capacity in any poll. *)
Theorem recovery_only_withdraws `{MapRange} env ticks now desired desiredErr e s tr res :
  is_sentinel ErrStateNotFound e = false -> is_sentinel ErrCorruptObserved e = true ->
  runs (resume env ticks now desired desiredErr s) (Ev LoadObserved (Err e) :: tr) res ->
  forall ev, ev ∈ tr ->
    match ev_call ev with
    | WorkerStart _ | RemoveIfIdle _ | DesktopStart _ | DesktopStop _ | ShutdownAllWSL => False
    | SSStatistics _ capacity => capacity <= 0
    | _ => True
    end.
Proof.
  intros Hn Hc Hr ev Hev. pose proof (resume_recovery env ticks now desired desiredErr e s tr res Hn Hc Hr ev Hev) as Hno.
  destruct (ev_call ev); simpl in *; try done. lia.
Qed.

(** ** A concrete run *)

Definition corrupt_run : M StepOutcome := resume sample_env 0 1000 (mkDesiredState 1 ModeEnabled None 1) None.

Lemma recovery_only_withdraws_witness :
  exists tr, trace_of corrupt corrupt_run = Ev LoadObserved (Err ErrCorruptObserved) :: tr /\
    forall ev, ev ∈ tr ->
      match ev_call ev with
      | WorkerStart _ | RemoveIfIdle _ | DesktopStart _ | DesktopStop _ | ShutdownAllWSL => False
      | SSStatistics _ capacity => capacity <= 0
      | _ => True
      end.
Proof.
  exists (tail (trace_of corrupt corrupt_run)).
  assert (Htr : trace_of corrupt corrupt_run = Ev LoadObserved (Err ErrCorruptObserved) :: tail (trace_of corrupt corrupt_run))
    by (vm_compute; reflexivity).
  split; [exact Htr|].
  pose proof (trace_runs corrupt corrupt_run) as Hr. rewrite Htr in Hr.
  exact (recovery_only_withdraws sample_env 0 1000 (mkDesiredState 1 ModeEnabled None 1) None ErrCorruptObserved sample_state _ _
           eq_refl eq_refl Hr).
Defined.
