(* ===== verification/StepSafety.v ===== *)
(** The evidence behind every irreversible action of a reconciliation step.

    The facts a step acts on (listed workers and their jobs, acknowledged
    polls, identities, the last checkpoint, the intent, the desktop's state)
    are traced back to the answers the environment gave earlier in the same
    step. *)

From S2P Require Import Prelude Float64 Model Config PlanGates Plan PlanSafety Capacity Errors GoStrings JobIndex Effects Retry Reconciler ReconcilerFacts Cadence Step RunSamples StepFacts.
Open Scope Z_scope.

(** ** Evidence *)

(** GitHub returned this identity for this target. *)
Definition ensured (h : list event) (id : string) (ident : Identity) : Prop :=
  exists def prior, sd_TargetID def = id /\ Ev (SSEnsure def prior) (Ok ident) ∈ h.

(** A poll of the target's listener at capacity zero reported no assigned job. *)
Definition polled_zero (h : list event) (id : string) : Prop :=
  exists ident, ensured h id ident /\ Ev (SSStatistics ident 0) (Ok 0) ∈ h.

(** The last checkpoint already recorded such a poll. *)
Definition zero_before (h : list event) (id : string) : Prop :=
  exists previous o, Ev LoadObserved (Ok previous) ∈ h /\ o ∈ os_Pools previous /\ po_ID o = id /\
    po_CapacityAcknowledged o = true /\ po_MaxCapacity o = 0 /\ po_TotalAssignedJobs o = 0 /\
    0 < po_ZeroCapacityConfirmations o.

Definition zero_twice (h : list event) (id : string) : Prop := polled_zero h id /\ zero_before h id.

(** The container runtime listed this worker. *)
Definition listed (h : list event) (w : Worker) : Prop :=
  exists ws, Ev WorkersList (Ok ws) ∈ h /\ w ∈ ws.

(** It listed the worker, and the durable job index was read right after: one
    the index has a running job for is busy. *)
Definition marked (h : list event) (w : Worker) : Prop :=
  exists h1 ws catalog err h2 w0,
    h = h1 ++ Ev WorkersList (Ok ws) :: Ev JobsLoad (catalog, err) :: h2 /\ w0 ∈ ws /\ w = mark_busy catalog w0.

(** An idle worker without a job, whose registration GitHub said is gone. *)
Definition unregistered (h : list event) (w : Worker) : Prop :=
  exists w0, marked h w0 /\ w_State w0 = WorkerIdle /\ w_JobID w0 = "" /\ w = {| w0 with w_State := WorkerUnregistered |} /\
    Ev (SSRunnerRegistered (w_PoolID w0) (w_RunnerID w0) (w_Name w0)) (Ok false) ∈ h.

(** The jobs assigned to a pool are the answer to a poll of its listener, or
    what the last checkpoint recorded of it, or none. *)
Definition assigned_known (h : list event) (pool : PoolSnapshot) : Prop :=
  (exists ident capacity, ensured h (sn_TargetID pool) ident /\
     Ev (SSStatistics ident capacity) (Ok (sn_TotalAssignedJobs pool)) ∈ h) \/
  (exists previous o, Ev LoadObserved (Ok previous) ∈ h /\ o ∈ os_Pools previous /\ po_ID o = sn_TargetID pool /\
     po_TotalAssignedJobs o = sn_TotalAssignedJobs pool) \/
  sn_TotalAssignedJobs pool = 0.

Definition pool_known (h : list event) (pool : PoolSnapshot) : Prop :=
  (sn_Ready pool = true -> ensured h (sn_TargetID pool) (sn_Identity pool)) /\ assigned_known h pool.

(** The last checkpoint, if there is a valid one. *)
Definition previous_ok (h : list event) (previous : ObservedState) : Prop :=
  previous = ObservedState_zero \/ Ev LoadObserved (Ok previous) ∈ h.

Definition gated (previous : ObservedState) (resourceGate : ResourceGateState) (powerGate : PowerGateState) : ObservedState :=
  {| previous with os_ResourceGate := resourceGate; os_PowerGate := powerGate |}.

(** The intent the state directory holds, disabled while the controller shuts
    down or when it cannot be trusted. *)
Definition intended (h : list event) (d : DesiredState) : Prop :=
  ds_Mode d = ModeDisabled \/
  exists d0 down, Ev LoadDesired (Ok d0) ∈ h /\ Ev ShuttingDown down ∈ h /\ d = shutdown_intent down d0.

(** Evidence for an inventory without active workers: the desktop was seen
    down, or the workers were listed. *)
Definition host_clear (h reads : list event) : Prop :=
  (exists desktop, Ev DesktopStatusRead (Ok desktop) ∈ h /\ dk_DesktopRunning desktop = false /\ dk_EngineReachable desktop = false) \/
  reads = [Ev WorkersList (Ok [])] \/
  exists listed catalog err, reads = [Ev WorkersList (Ok listed); Ev JobsLoad (catalog, err)] /\
    containsActiveWorker (map (mark_busy catalog) listed) = false.

Section Evidence.
Context `{MapRange} (env : Env).
Local Abbreviation cfg := (en_config env).

(** Why this worker, as the step saw it, may be removed. *)
Definition removal_evidence (h : list event) (w : Worker) : Prop :=
  (listed h w \/ marked h w) /\ (w_State w = WorkerExited \/ w_State w = WorkerUnregistered) \/
  unregistered h w \/
  marked h w /\ w_State w <> WorkerBusy /\ zero_twice h (w_PoolID w) /\ 0 < w_RunnerID w /\
    exists h0 e, h = h0 ++ [e] /\ confirms_removal (w_PoolID w) (w_RunnerID w) e = true.

(** What an admission check takes over from the step: one pool per configured
    target, the last checkpoint (its two gates may have been evaluated again
    during the poll) and the intent. *)
Definition baseline_known (h : list event) (b : Baseline) : Prop :=
  map sn_TargetID (bl_pools b) = map t_ID (c_Targets cfg) /\ Forall (pool_known h) (bl_pools b) /\
  (exists previous resourceGate powerGate, previous_ok h previous /\
     bl_previous b = gated previous resourceGate powerGate) /\
  intended h (bl_desired b).

Definition start_evidence (h : list event) (req : StartWorkerRequest) : Prop :=
  exists b ident h0 reads,
    WorkerForTarget cfg (sw_PoolID req) = Some (sw_Limits req) /\ ensured h (sw_PoolID req) ident /\
    h = h0 ++ Ev (SSCreateJITConfig ident (sw_Name req)) (Ok (sw_JITConfig req)) :: reads /\
    baseline_known h b /\ admitted env b (sw_PoolID req) (reserved_by 0 h0) reads.

Definition shutdown_evidence (h : list event) : Prop :=
  (forall t, t ∈ c_Targets cfg -> zero_twice h (t_ID t)) /\
  exists h0 reads rest, h = h0 ++ reads ++ rest /\ host_clear h reads /\ Forall stop_step rest.

(** What every call of a step must be backed by. *)
Definition step_guard (h : list event) (c : call) : Prop :=
  match c with
  | RemoveIfIdle id => exists w, w_ID w = id /\ removal_evidence h w
  | WorkerStart req => start_evidence h req
  | DesktopStop _ | ShutdownAllWSL => shutdown_evidence h
  | _ => True
  end.
End Evidence.

(** ** Evidence only grows *)

Lemma prefix_elem (h h' : list event) (e : event) : h `prefix_of` h' -> e ∈ h -> e ∈ h'.
Proof. intros [t ->] He. by apply elem_of_app; left. Qed.

Lemma sublist_elem (h h' : list event) (e : event) : h `sublist_of` h' -> e ∈ h -> e ∈ h'.
Proof. induction 1; set_solver. Qed.

Lemma prefix_subset (h h' : list event) : h `prefix_of` h' -> h ⊆ h'.
Proof. intros Hp e. by apply prefix_elem. Qed.
#[export] Hint Resolve prefix_subset : m_safe.

(** A longer history in which no worker was started since. *)
Definition later (h h' : list event) : Prop := exists tr, h' = h ++ tr /\ calls is_start tr = 0.

#[export] Instance later_preorder : PreOrder later.
Proof.
  split; [intros h; exists []; by rewrite app_nil_r|]. intros h1 h2 h3 (t1 & -> & H1) (t2 & -> & H2). exists (t1 ++ t2).
  rewrite <- app_assoc, calls_app. split; [done|lia].
Qed.

Lemma later_prefix h h' : later h h' -> h `prefix_of` h'.
Proof. intros (tr & -> & _). by exists tr. Qed.

Lemma later_subset h h' : later h h' -> h ⊆ h'.
Proof. intros Hl. by apply prefix_subset, later_prefix. Qed.

Lemma later_reserved h h' : later h h' -> reserved_by 0 h' = reserved_by 0 h.
Proof. intros (tr & -> & Hz). by rewrite reserved_by_app, startless_reserved. Qed.

Lemma later_call h c (r : resp c) : is_start c = false -> later h (h ++ [Ev c r]).
Proof. intros Hc. exists [Ev c r]. split; [done|]. unfold calls. apply count_zero. intros e ->%list_elem_of_singleton. done. Qed.
#[export] Hint Resolve later_prefix later_subset : m_safe.

Lemma ensured_mono h h' id ident : h ⊆ h' -> ensured h id ident -> ensured h' id ident.
Proof. intros Hs (def & prior & Hd & He). exists def, prior. auto. Qed.

Lemma zero_twice_mono h h' id : h ⊆ h' -> zero_twice h id -> zero_twice h' id.
Proof.
  intros Hs [(ident & Hi & He) (previous & o & Hl & Ho)]. split.
  - exists ident. split; [by eapply ensured_mono|auto].
  - exists previous, o. auto.
Qed.

Lemma listed_mono h h' w : h ⊆ h' -> listed h w -> listed h' w.
Proof. intros Hs (ws & He & Hw). exists ws. auto. Qed.

Lemma marked_mono h h' w : h `prefix_of` h' -> marked h w -> marked h' w.
Proof.
  intros [t ->] (h1 & ws & catalog & err & h2 & w0 & -> & Hw). exists h1, ws, catalog, err, (h2 ++ t), w0.
  split; [by rewrite <- app_assoc|done].
Qed.

Lemma unregistered_mono h h' w : h `prefix_of` h' -> unregistered h w -> unregistered h' w.
Proof.
  intros Hp (w0 & Hm & Hi & Hj & Hw & He). exists w0. split_and!; [by eapply marked_mono|done..|by eapply prefix_elem].
Qed.

Lemma pool_known_mono h h' pool : h ⊆ h' -> pool_known h pool -> pool_known h' pool.
Proof.
  intros Hs [Hr Ha]. split; [intros Hready; eapply ensured_mono; eauto|].
  destruct Ha as [(ident & capacity & Hi & He)|[(previous & o & He & Ho)|Hz]].
  - left. exists ident, capacity. split; [by eapply ensured_mono|auto].
  - right. left. exists previous, o. auto.
  - by right; right.
Qed.

Lemma previous_ok_mono h h' o : h ⊆ h' -> previous_ok h o -> previous_ok h' o.
Proof. intros Hs [?|?]; [by left|right; auto]. Qed.

Lemma intended_mono h h' d : h ⊆ h' -> intended h d -> intended h' d.
Proof. intros Hs [?|(d0 & down & Hl & Hd & ->)]; [by left|]. right. exists d0, down. auto. Qed.

(** What the step knows of the desktop and of the workers it may act on. *)
Definition desktop_ok (h : list event) (v : View) : Prop :=
  vw_desktopKnown v = true -> Ev DesktopStatusRead (Ok (vw_desktop v)) ∈ h.

Definition worker_ok (h : list event) (jobStateKnown : bool) (w : Worker) : Prop :=
  marked h w \/ jobStateKnown = false /\ listed h w.

Definition view_ok (h : list event) (v : View) : Prop :=
  desktop_ok h v /\ Forall (worker_ok h (vw_jobStateKnown v)) (vw_workers v).

(** After the registrations were checked as well. *)
Definition worker_checked (h : list event) (jobStateKnown : bool) (w : Worker) : Prop :=
  worker_ok h jobStateKnown w \/ unregistered h w.

Definition identities_ok (h : list event) (m : gmap string Identity) : Prop :=
  forall id ident, m !! id = Some ident -> ensured h id ident.

Definition facts_ok (h : list event) (facts : PollFacts) : Prop :=
  forall id, 2 <= mget (pf_zeroConfirmations facts) id -> zero_twice h id.

Definition result_ok (h : list event) (pools : list PoolSnapshot) (r : pollResult) : Prop :=
  exists pool, pools !! pl_index r = Some pool /\ forall n, pl_stats r = Ok n ->
    ensured h (sn_TargetID pool) (pl_identity r) /\ Ev (SSStatistics (pl_identity r) (pl_advertised r)) (Ok n) ∈ h.

Lemma desktop_ok_mono h h' v : h ⊆ h' -> desktop_ok h v -> desktop_ok h' v.
Proof. intros Hs Hv Hk. auto. Qed.
Lemma worker_ok_mono h h' known w : h `prefix_of` h' -> worker_ok h known w -> worker_ok h' known w.
Proof. intros Hp [Hm|[Hk Hl]]; [left; by eapply marked_mono|right]. split; [done|]. eapply listed_mono; [by apply prefix_subset|done]. Qed.
Lemma worker_checked_mono h h' known w : h `prefix_of` h' -> worker_checked h known w -> worker_checked h' known w.
Proof. intros Hp [Hw|Hw]; [left; by eapply worker_ok_mono|right; by eapply unregistered_mono]. Qed.
Lemma view_ok_mono h h' v : h `prefix_of` h' -> view_ok h v -> view_ok h' v.
Proof.
  intros Hp [Hd Hw]. split; [eapply desktop_ok_mono; [by apply prefix_subset|done]|].
  eapply Forall_impl; [exact Hw|]. intros w. by apply worker_ok_mono.
Qed.
Lemma identities_ok_mono h h' m : h ⊆ h' -> identities_ok h m -> identities_ok h' m.
Proof. intros Hs Hm id ident Hl. eapply ensured_mono; eauto. Qed.
Lemma pools_known_mono h h' pools : h ⊆ h' -> Forall (pool_known h) pools -> Forall (pool_known h') pools.
Proof. intros Hs Hp. eapply Forall_impl; [exact Hp|]. intros pool. by apply pool_known_mono. Qed.
Lemma facts_ok_mono h h' facts : h ⊆ h' -> facts_ok h facts -> facts_ok h' facts.
Proof. intros Hs Hf id Hc. eapply zero_twice_mono; eauto. Qed.

Lemma baseline_known_mono env h h' b : h ⊆ h' -> baseline_known env h b -> baseline_known env h' b.
Proof.
  intros Hs (Ht & Hp & (previous & rg & pg & Hprev & Heq) & Hd). split_and!; [done|by eapply pools_known_mono| |by eapply intended_mono].
  exists previous, rg, pg. split; [by eapply previous_ok_mono|done].
Qed.

(** ** Calls that need no evidence *)

Definition sensitive (c : call) : bool :=
  match c with WorkerStart _ | RemoveIfIdle _ | DesktopStop _ | ShutdownAllWSL => true | _ => false end.

Lemma passive_insensitive c : passive c = true -> sensitive c = false.
Proof. by destruct c. Qed.
#[export] Hint Resolve passive_insensitive : m_safe.

(** What avoids starts, whatever else it avoids, only makes the history later. *)
Lemma avoids_later {A} f h (p : prog A) tr a :
  (forall c, f c = false -> is_start c = false) -> avoids f p -> runs p tr a -> later h (h ++ tr).
Proof.
  intros Hf Hp Hr. exists tr. split; [done|]. apply count_zero. intros e He. by apply Hf, (avoids_runs f p tr a Hp Hr).
Qed.

#[local] Opaque mret mbind lift call_ gets modify.

Section Guarded.
Context `{MapRange} (env : Env).
Local Abbreviation cfg := (en_config env).
Local Abbreviation msafe := (msafe (step_guard env)).

Lemma insensitive_safe {A} (Q : list event -> StepState -> A -> Prop) h (m : M A) s :
  mavoids sensitive m -> (forall tr s' a, runs (m s) tr (s', a) -> later h (h ++ tr) -> Q (h ++ tr) s' a) -> msafe Q h m s.
Proof.
  intros Hm HQ. apply (mavoids_safe sensitive); [done|intros h' c; by destruct c|]. intros tr s' a Hr _. apply HQ; [done|].
  eapply (avoids_later sensitive); [by intros []|apply Hm|done].
Qed.

(** A part of the step without sensitive calls keeps all evidence. *)
Lemma insensitive_bind {A B} (Q : list event -> StepState -> B -> Prop) h (m : M A) (k : A -> M B) s :
  mavoids sensitive m -> (forall h' s' a, later h h' -> msafe Q h' (k a) s') -> msafe Q h (mbind m k) s.
Proof. intros Hm Hk. apply msafe_bind, insensitive_safe; [done|]. intros tr s' a _. apply Hk. Qed.

(** ** The state directory *)

Definition loaded_ok (h : list event) (l : Loaded) : Prop := previous_ok h (ld_previous l) /\ intended h (ld_desired l).

Lemma loaded_ok_mono h h' l : h ⊆ h' -> loaded_ok h l -> loaded_ok h' l.
Proof. intros Hs [Hp Hd]. split; [by eapply previous_ok_mono|by eapply intended_mono]. Qed.

Lemma load_observed_safe h now desired err s :
  intended h desired ->
  msafe (fun h' _ r => later h h' /\ forall l, r = Ok l -> loaded_ok h' l) h (load_observed now desired err) s.
Proof.
  intros Hd. unfold load_observed. apply msafe_bind, msafe_call; [done|]. intros r.
  assert (Hl : later h (h ++ [Ev LoadObserved r])) by (by apply later_call).
  assert (Hd1 : intended (h ++ [Ev LoadObserved r]) desired) by (eapply intended_mono; [by apply later_subset|done]).
  destruct r as [previous|e].
  - apply msafe_ret. split; [done|]. intros l [= <-]. split; [right; simpl; set_solver|done].
  - split_if; [apply msafe_ret; split; [done|]; intros l [= <-]; split; [by left|done]|].
    split_if; [|apply msafe_ret; split; [done|]; intros l [= <-]; split; [by left|done]].
    apply msafe_bind, msafe_call; [done|]. intros q.
    assert (Hq : later h ((h ++ [Ev LoadObserved (Err e)]) ++ [Ev QuarantineObserved q])) by (etransitivity; [done|by apply later_call]).
    destruct q as [[qe|]|]; apply msafe_ret; (split; [done|]); [done| |done]. intros l [= <-]. split; [by left|by left].
Qed.

Lemma load_desired_safe h now s :
  msafe (fun h' _ r => later h h' /\ forall d err, r = Ok (d, err) -> ds_Mode d = ModeDisabled \/ Ev LoadDesired (Ok d) ∈ h') h (load_desired now) s.
Proof.
  unfold load_desired. apply msafe_bind, msafe_call; [done|]. intros r.
  assert (Hl : later h (h ++ [Ev LoadDesired r])) by (by apply later_call).
  destruct r as [d|e].
  - apply msafe_ret. split; [done|]. intros d' err [= <- <-]. right. set_solver.
  - split_if; [|apply msafe_ret; split; [done|]; intros d' err [= <- <-]; by left].
    apply msafe_bind, msafe_call; [done|]. intros q.
    assert (Hq : later h ((h ++ [Ev LoadDesired (Err e)]) ++ [Ev (SaveDesired (disabled_at now)) q])) by (etransitivity; [done|by apply later_call]).
    destruct q; apply msafe_ret; (split; [done|]); intros d' err [=]; subst. by left.
Qed.

(** ** The host's state *)

(** Stepping through reads and recorded problems, keeping the history's growth. *)
Local Ltac gstep :=
  lazymatch goal with
  | |- ReconcilerFacts.msafe _ _ _ (mret _) _ => apply msafe_ret
  | |- ReconcilerFacts.msafe _ _ ?h (mbind (call_ ?c) _) _ =>
      apply msafe_bind, msafe_call; [done|]; let r := fresh "r" in intros r;
      pose proof (later_call h c r eq_refl); destruct r
  | |- ReconcilerFacts.msafe _ _ _ (mbind _ _) _ =>
      apply insensitive_bind; [solve [mavoid]|]; intros ? ? ? ?
  end.
Local Ltac gsteps := repeat (gstep || split_if || case_match).
Local Ltac grow := repeat match goal with
  | |- later ?a ?a => reflexivity
  | H1 : later ?a ?b |- later ?a ?b => exact H1
  | H1 : later ?a ?b |- later ?a _ => transitivity b; [exact H1|clear H1]
  end.
Local Ltac within := lazymatch goal with
  | |- _ ⊆ _ => apply later_subset; by grow
  | |- _ `prefix_of` _ => apply later_prefix; by grow
  end.

(** A part of the view's readings: what it says of the workers is [W]. *)
Definition keeps_view (W : list event -> View -> Prop) (h : list event) (h' : list event) (_ : StepState) (v : View) : Prop :=
  later h h' /\ desktop_ok h' v /\ W h' v.

Definition no_workers (_ : list event) (v : View) : Prop := vw_workers v = [].

(** The worker list was the last thing read, or there is none. *)
Definition just_listed (h : list event) (v : View) : Prop :=
  vw_workers v = [] \/ exists h0, h = h0 ++ [Ev WorkersList (Ok (vw_workers v))].

Local Ltac desktop_done :=
  first [ match goal with Hv : desktop_ok _ _ |- _ => eapply desktop_ok_mono; [|exact Hv]; within end
        | let Hk := fresh in intros Hk; discriminate Hk
        | intros _; simpl; first [ apply elem_of_app; right; by left
                                 | match goal with Hs : later _ ?h |- _ ∈ ?h => apply (later_subset _ _ Hs), elem_of_app; right; by left end ] ].
Local Ltac view_done := split_and!; [by grow|desktop_done|try done].

Lemma observe_power_safe h now v s : desktop_ok h v -> no_workers h v -> msafe (keeps_view no_workers h) h (observe_power now v) s.
Proof. intros Hv Hw. unfold observe_power. gsteps; view_done. Qed.

Lemma observe_desktop_safe h now v s : desktop_ok h v -> no_workers h v -> msafe (keeps_view no_workers h) h (observe_desktop now v) s.
Proof. intros Hv Hw. unfold observe_desktop. gsteps; view_done. Qed.

Lemma bootstrap_desktop_safe h now l v s :
  desktop_ok h v -> no_workers h v -> msafe (keeps_view no_workers h) h (bootstrap_desktop env now l v) s.
Proof. intros Hv Hw. unfold bootstrap_desktop. gsteps; view_done. Qed.

Lemma observe_host_safe h now v s : desktop_ok h v -> no_workers h v -> msafe (keeps_view just_listed h) h (observe_host now v) s.
Proof.
  intros Hv Hw. unfold no_workers in Hw. unfold observe_host. gstep; apply msafe_bind; gsteps; view_done;
    first [by left|right; eexists; simpl; reflexivity].
Qed.

Lemma observe_jobs_safe h now v s :
  desktop_ok h v -> just_listed h v -> msafe (fun h' _ v' => later h h' /\ view_ok h' v') h (observe_jobs now v) s.
Proof.
  intros Hv Hw. unfold observe_jobs. apply msafe_bind, enrich_safe; [done| | |].
  - intros Hnil. apply msafe_ret. split; [done|]. split; [done|]. by constructor.
  - intros catalog err. apply msafe_ret. assert (Hl : later h (h ++ [Ev JobsLoad (catalog, err)])) by (by apply later_call).
    split; [done|]. split; [eapply desktop_ok_mono; [|exact Hv]; within|]. simpl. apply Forall_forall.
    intros w (w0 & -> & Hw0)%list_elem_of_fmap. destruct Hw as [Hnil|[h0 ->]]; [rewrite Hnil in Hw0; by apply elem_of_nil in Hw0|].
    left. exists h0, (vw_workers v), catalog, err, [], w0. split; [by rewrite <- app_assoc|done].
  - intros catalog err e. pose proof (later_call h JobsLoad (catalog, err) eq_refl). gstep. apply msafe_ret. split; [by grow|].
    split; [eapply desktop_ok_mono; [|exact Hv]; within|]. simpl. apply Forall_forall. intros w Hw0. right. split; [done|].
    destruct Hw as [Hnil|[h0 ->]]; [rewrite Hnil in Hw0; by apply elem_of_nil in Hw0|].
    exists (vw_workers v). split; [|done]. apply (later_subset (h0 ++ [Ev WorkersList (Ok (vw_workers v))])); [by grow|]. apply elem_of_app. right. by left.
Qed.

(** One part of the view after another. *)
Lemma view_seq {B} W (Q : list event -> StepState -> B -> Prop) h (m : M View) (k : View -> M B) s :
  msafe (keeps_view W h) h m s ->
  (forall h' s' v, later h h' -> desktop_ok h' v -> W h' v -> msafe Q h' (k v) s') -> msafe Q h (mbind m k) s.
Proof.
  intros Hm Hk. apply msafe_bind. eapply msafe_mono; [|exact Hm]. intros h' s' v _ (Hs & Hd & Hv). by apply Hk.
Qed.

Lemma observe_safe h now l s : msafe (fun h' _ v => later h h' /\ view_ok h' v) h (observe env now l) s.
Proof.
  unfold observe. gstep. gstep. gstep.
  eapply view_seq; [by apply observe_power_safe|]. intros h1 s1 v1 Hs1 Hd1 Hw1.
  unfold forced_zero. apply insensitive_bind; [mavoid|]. intros h2 s2 _ Hs2.
  eapply view_seq; [apply observe_desktop_safe; [eapply desktop_ok_mono; [|exact Hd1]; within|exact Hw1]|]. intros h3 s3 v3 Hs3 Hd3 Hw3.
  eapply view_seq; [by apply bootstrap_desktop_safe|]. intros h4 s4 v4 Hs4 Hd4 Hw4.
  apply insensitive_bind; [mavoid|]. intros h5 s5 _ Hs5.
  eapply view_seq; [apply observe_host_safe; [eapply desktop_ok_mono; [|exact Hd4]; within|exact Hw4]|]. intros h6 s6 v6 Hs6 Hd6 Hw6.
  eapply msafe_mono; [|apply observe_jobs_safe with (v := discard_resources v6)].
  - intros hz sz vz _ [Hl Hv]. split; [by grow|done].
  - unfold discard_resources. by split_if.
  - unfold discard_resources. by split_if.
Qed.

(** ** Scale sets *)

Definition ensured_ok (h : list event) (e : Ensured) : Prop := Forall (pool_known h) (es_pools e) /\ identities_ok h (es_identities e).

Lemma ensured_ok_mono h h' e : h ⊆ h' -> ensured_ok h e -> ensured_ok h' e.
Proof. intros Hs [Hp Hi]. split; [by eapply pools_known_mono|by eapply identities_ok_mono]. Qed.

Lemma observations_elem pools id o : observations pools !! id = Some o -> o ∈ pools /\ po_ID o = id.
Proof.
  revert id o. unfold observations.
  apply (foldl_invariant (fun m => forall id o, m !! id = Some o -> o ∈ pools /\ po_ID o = id)); [done|].
  intros m p Hp IH id o. rewrite lookup_insert_Some. intros [[<- <-]|[_ Hl]]; [done|by apply IH].
Qed.

(** What the last checkpoint says of a pool. *)
Lemma checkpoint_record h previous id o :
  previous_ok h previous -> observations (os_Pools previous) !! id = Some o ->
  Ev LoadObserved (Ok previous) ∈ h /\ o ∈ os_Pools previous /\ po_ID o = id.
Proof.
  intros Hprev [Hin Hid]%observations_elem. destruct Hprev as [->|Hload]; [by apply elem_of_nil in Hin|done].
Qed.

Lemma prior_assigned h previous id ident drain ready :
  previous_ok h previous ->
  assigned_known h (mkPoolSnapshot id ident (po_TotalAssignedJobs (default PoolObservation_zero (observations (os_Pools previous) !! id))) drain ready).
Proof.
  intros Hprev. destruct (observations (os_Pools previous) !! id) as [o|] eqn:Ho; simpl; [|by right; right].
  right. left. destruct (checkpoint_record _ _ _ _ Hprev Ho) as (Hl & Hin & Hid). by exists previous, o.
Qed.

Lemma ensure_target_safe h now previous reregister acc t s :
  previous_ok h previous -> ensured_ok h acc ->
  msafe (fun h' _ acc' => later h h' /\ ensured_ok h' acc' /\ map sn_TargetID (es_pools acc') = map sn_TargetID (es_pools acc) ++ [t_ID t])
    h (ensure_target env now (observations (os_Pools previous)) reregister acc t) s.
Proof.
  intros Hprev Hacc. unfold ensure_target. apply msafe_bind, msafe_lift.
  assert (Havoid : avoids sensitive (ensure (en_backoff env) t (prior_identity reregister (observations (os_Pools previous) !! t_ID t)))).
  { apply avoids_RetryValue; [by intros []|]. by simpl. }
  apply (avoids_safe sensitive); [exact Havoid|intros h' c; by destruct c|]. intros tr outcome Hr _.
  assert (Hl : later h (h ++ tr)) by (eapply (avoids_later sensitive); [by intros []|exact Havoid|exact Hr]).
  destruct outcome as [ident|e].
  - apply msafe_bind, msafe_gets, msafe_ret. split; [done|].
    assert (Hi : ensured (h ++ tr) (t_ID t) ident).
    { apply ensure_runs in Hr. eexists _, _. split; [|apply elem_of_app; right; exact Hr]. done. }
    destruct (ensured_ok_mono _ _ _ (later_subset _ _ Hl) Hacc) as [Hp Hm]. split; [split; simpl|simpl; by rewrite map_app].
    + apply Forall_app_2; [done|]. constructor; [|done]. split; [done|]. apply prior_assigned.
      eapply previous_ok_mono; [|exact Hprev]. by apply later_subset.
    + intros id ident'. rewrite lookup_insert_Some. intros [[<- <-]|[_ Hlk]]; [done|by apply Hm].
  - gstep. apply msafe_ret. split; [by grow|]. assert (Hl' : later h h') by (by grow).
    destruct (ensured_ok_mono _ _ _ (later_subset _ _ Hl') Hacc) as [Hp Hm]. split; [split; simpl|simpl; by rewrite map_app]; [|done].
    apply Forall_app_2; [done|]. constructor; [|done]. split; [done|by right; right].
Qed.

Lemma ensure_targets_safe h now previous s :
  previous_ok h previous ->
  msafe (fun h' _ e => later h h' /\ ensured_ok h' e /\ map sn_TargetID (es_pools e) = map t_ID (c_Targets cfg))
    h (ensure_targets env now (observations (os_Pools previous))) s.
Proof.
  intros Hprev.
  assert (Heach : forall reregister ts acc h s, previous_ok h previous -> ensured_ok h acc ->
    msafe (fun h' _ e => later h h' /\ ensured_ok h' e /\ map sn_TargetID (es_pools e) = map sn_TargetID (es_pools acc) ++ map t_ID ts)
      h (ensure_each env now (observations (os_Pools previous)) reregister acc ts) s).
  { intros reregister ts. induction ts as [|t ts IH]; intros acc h0 s0 Hp0 Hacc; simpl.
    { apply msafe_ret. split_and!; [done|done|by rewrite app_nil_r]. }
    apply msafe_bind. eapply msafe_mono; [|by apply ensure_target_safe]. intros h1 s1 acc1 _ (Hs1 & H1 & Ht1).
    eapply msafe_mono; [|apply IH; [eapply previous_ok_mono; [|exact Hp0]; within|done]]. intros h2 s2 acc2 _ (Hs2 & H2 & Ht2).
    split_and!; [by grow|done|]. rewrite Ht2, Ht1, <- app_assoc. done. }
  unfold ensure_targets. apply msafe_bind, msafe_gets. apply insensitive_bind; [mavoid|]. intros h1 s1 _ Hs1.
  apply msafe_bind. eapply msafe_mono; [|apply Heach; [eapply previous_ok_mono; [|exact Hprev]; within|]].
  - intros h2 s2 acc _ (Hs2 & Hacc & Ht). apply insensitive_bind; [mavoid|]. intros h3 s3 _ Hs3. apply msafe_ret.
    split_and!; [by grow| |done]. eapply ensured_ok_mono; [|exact Hacc]. within.
  - split; [by constructor|]. intros ? ? ?. done.
Qed.

(** ** Polls *)

Lemma target_of_ID id : t_ID (target_of cfg id) = id.
Proof.
  unfold target_of. destruct (List.find _ _) as [t|] eqn:Hf; [|done].
  apply find_some in Hf as [_ Hf]. by apply String.eqb_eq in Hf.
Qed.

Lemma result_ok_mono h h' pools r : h ⊆ h' -> result_ok h pools r -> result_ok h' pools r.
Proof.
  intros Hs (pool & Hl & Hok). exists pool. split; [done|]. intros n Hn. destruct (Hok n Hn). split; [by eapply ensured_mono|auto].
Qed.

Lemma results_ok_mono h h' pools results : h ⊆ h' -> Forall (result_ok h pools) results -> Forall (result_ok h' pools) results.
Proof. intros Hs Hr. eapply Forall_impl; [exact Hr|]. intros r. by apply result_ok_mono. Qed.

Lemma poll_listeners_safe h ticks watch ready s :
  Forall (pool_known h) (cs_pools watch) ->
  msafe (fun h' _ '(results, _) => later h h' /\ Forall (result_ok h' (cs_pools watch)) results) h (poll_listeners env ticks watch ready) s.
Proof.
  intros Hp.
  assert (Hpolls : forall tr results, runs (par_all (poll_programs env (cs_advertised watch) (cs_pools watch))) tr results ->
            Forall (result_ok (h ++ tr) (cs_pools watch)) results).
  { intros tr results Hr. apply Forall_forall. intros r Hin.
    destruct (runs_par_all _ _ _ Hr r Hin) as (p & tp & Hin' & Hrun & Hsub).
    apply list_elem_of_omap in Hin' as ([i pool] & Hi & Hsome). destruct (sn_Ready pool) eqn:Hready; [|done]. injection Hsome as <-.
    apply elem_of_lookup_imap in Hi as (j & pool' & [= -> ->] & Hl).
    apply runs_bind in Hrun as (t1 & t2 & [stats ident] & -> & Hstats & -> & ->). rewrite app_nil_r in Hsub.
    exists pool'. simpl. split; [done|]. intros n ->. apply statistics_runs in Hstats as [He Hi].
    assert (Hmem : forall e, e ∈ t1 -> e ∈ h ++ tr) by (intros e Het; apply elem_of_app; right; by eapply sublist_elem).
    split; [|by apply Hmem]. destruct Hi as [->|Hi].
    - eapply ensured_mono; [|rewrite Forall_forall in Hp; apply (Hp pool'); [by eapply list_elem_of_lookup_2|done]]. set_solver.
    - eexists _, _. split; [|apply Hmem, Hi]. simpl. apply target_of_ID. }
  assert (Hins : mavoids sensitive (poll_listeners env ticks watch ready)).
  { apply mavoids_poll; [apply passive_insensitive|done]. }
  apply insensitive_safe; [done|]. intros tr s' [results cadence] Hr Hl. split; [done|].
  unfold poll_listeners in Hr. destruct ready.
  - apply runs_bind in Hr as (t1 & t2 & [results' [s1 cadence']] & -> & Hpar & -> & [= -> -> ->]).
    apply runs_par in Hpar as (tp & tq & Hrp & _ & Hsub & _). rewrite app_nil_r. eapply results_ok_mono; [|by apply Hpolls].
    intros e [He|He]%elem_of_app; apply elem_of_app; [by left|right; by eapply sublist_elem].
  - apply mruns_bind in Hr as (t1 & t2 & s1 & results' & -> & Hlift & Hret). apply mruns_ret in Hret as (-> & _ & [= -> ->]).
    apply mruns_lift in Hlift as [_ Hlift]. rewrite app_nil_r. by apply Hpolls.
Qed.

(** ** Results *)

(** What reading the channel preserves. *)
Definition polled_ok (h : list event) (pools : list PoolSnapshot) (pd : Polled) : Prop :=
  map sn_TargetID (pd_pools pd) = map sn_TargetID pools /\ Forall (pool_known h) (pd_pools pd) /\
  identities_ok h (pd_identities pd) /\ facts_ok h (pd_facts pd).

Lemma polled_ok_mono h h' pools pd : h ⊆ h' -> polled_ok h pools pd -> polled_ok h' pools pd.
Proof.
  intros Hs (Ht & Hp & Hi & Hf). split_and!; [done|by eapply pools_known_mono|by eapply identities_ok_mono|by eapply facts_ok_mono].
Qed.

Lemma acknowledge_ok h previous id ident advertised assigned facts :
  previous_ok h previous -> ensured h id ident -> Ev (SSStatistics ident advertised) (Ok assigned) ∈ h -> facts_ok h facts ->
  facts_ok h (acknowledge (default PoolObservation_zero (observations (os_Pools previous) !! id)) id advertised assigned facts).
Proof.
  intros Hprev Hi He Hf id'. unfold acknowledge. simpl. split_if; [|apply Hf]. zb. subst.
  rewrite mget_insert. case_decide as Hid; [subst id'|apply Hf]. unfold zero_confirmations. split_if; [|lia].
  intros _. zb. destruct (observations (os_Pools previous) !! id) as [o|] eqn:Ho; simpl in *; [|done].
  destruct (checkpoint_record _ _ _ _ Hprev Ho) as (Hl & Hin & Hid). split; [by exists ident|].
  exists previous, o. by split_and!.
Qed.

(** Updating a pool in place. *)
Lemma polled_pool h pools pd i pool pool' :
  map sn_TargetID (pd_pools pd) = map sn_TargetID pools -> Forall (pool_known h) (pd_pools pd) ->
  pd_pools pd !! i = Some pool -> sn_TargetID pool' = sn_TargetID pool -> pool_known h pool' ->
  map sn_TargetID (<[i := pool']> (pd_pools pd)) = map sn_TargetID pools /\ Forall (pool_known h) (<[i := pool']> (pd_pools pd)).
Proof.
  intros Ht Hp Hl Hid Hk. split; [|by apply Forall_insert]. rewrite <- Ht. change (sn_TargetID <$> <[i := pool']> (pd_pools pd) = sn_TargetID <$> pd_pools pd).
  rewrite list_fmap_insert. apply list_insert_id. by rewrite list_lookup_fmap, Hl, Hid.
Qed.

Lemma collect_result_safe h now previous pools pd r s :
  previous_ok h previous -> polled_ok h pools pd -> result_ok h pools r ->
  msafe (fun h' _ pd' => later h h' /\ polled_ok h' pools pd') h (collect_result now (observations (os_Pools previous)) pd r) s.
Proof.
  intros Hprev (Ht & Hp & Hi & Hf) (pool & Hl & Hok). unfold collect_result.
  destruct (pd_pools pd !! pl_index r) as [pool'|] eqn:Hl'; [|by apply msafe_ret].
  assert (Hid : sn_TargetID pool' = sn_TargetID pool).
  { apply (f_equal (lookup (pl_index r))) in Ht. rewrite !(list_lookup_fmap sn_TargetID), Hl, Hl' in Ht. by injection Ht. }
  assert (Hknown : pool_known h pool') by (rewrite Forall_forall in Hp; eapply Hp, list_elem_of_lookup_2, Hl').
  destruct (pl_stats r) as [assigned|e].
  - destruct (Hok assigned eq_refl) as [Hens He]. rewrite <- Hid in Hens.
    apply insensitive_bind; [unfold rememberDrainCapacity; mavoid|]. intros h' s' _ Hs. apply msafe_ret. split; [done|].
    apply (polled_ok_mono h); [by apply later_subset|]. unfold polled_ok. simpl.
    apply Logic.and_assoc. split; [eapply polled_pool; try done; split; [done|left; by eexists _, _]|]. split; [|by eapply acknowledge_ok].
    intros id ident. rewrite lookup_insert_Some. intros [[<- <-]|[_ Hlk]]; [done|by apply Hi].
  - apply insensitive_bind; [mavoid|]. intros h' s' _ Hs. apply msafe_ret. split; [done|].
    apply (polled_ok_mono h); [by apply later_subset|]. unfold polled_ok. simpl.
    apply Logic.and_assoc. split; [eapply polled_pool; try done; split; [done|apply Hknown]|by split].
Qed.

Lemma collect_results_safe h now previous pools pd results s :
  previous_ok h previous -> polled_ok h pools pd -> Forall (result_ok h pools) results ->
  msafe (fun h' _ pd' => later h h' /\ polled_ok h' pools pd') h (collect_results now (observations (os_Pools previous)) pd results) s.
Proof.
  intros Hprev Hpd Hall. revert h pd s Hprev Hpd Hall. induction results as [|r results IH]; intros h pd s Hprev Hpd Hall; simpl; [by apply msafe_ret|].
  apply Forall_cons in Hall as [Hr Hall]. apply msafe_bind. eapply msafe_mono; [|by apply collect_result_safe].
  intros h1 s1 pd1 _ [Hs1 H1]. eapply msafe_mono; [|apply IH; [eapply previous_ok_mono; [|exact Hprev]; within|done|]].
  - intros h2 s2 pd2 _ [Hs2 H2]. split; [by grow|done].
  - eapply results_ok_mono; [|exact Hall]. within.
Qed.

(** ** Inventories and registrations *)

Lemma refresh_view h now c1 m1 c2 m2 v s :
  view_ok h v -> msafe (fun h' _ r => later h h' /\ view_ok h' r.1) h (refresh_workers now c1 m1 c2 m2 v) s.
Proof.
  intros Hv. unfold refresh_workers. split_if; [by apply msafe_ret|].
  assert (Hblocked : forall h', later h h' -> view_ok h' (view_blocked v)).
  { intros h' Hl. destruct (view_ok_mono h h' v (later_prefix _ _ Hl) Hv) as [Hd Hw]. split; [done|]. simpl.
    eapply Forall_impl; [exact Hw|]. intros w [Hm|[_ Hw']]; [by left|by right]. }
  gstep; [|gstep; apply msafe_ret; split; [by grow|apply Hblocked; by grow]].
  apply msafe_bind, enrich_safe; [done| | |].
  - intros ->. apply msafe_ret. split; [done|]. split; [|by constructor]. apply (desktop_ok_mono h); [within|apply Hv].
  - intros catalog err. apply msafe_ret.
    set (h1 := h ++ _) in *. pose proof (later_call h1 JobsLoad (catalog, err) eq_refl). split; [by grow|].
    split; [apply (desktop_ok_mono h); [within|apply Hv]|]. apply Forall_forall.
    intros w (w0 & -> & Hw0)%list_elem_of_fmap. left. exists h, a, catalog, err, [], w0. unfold h1. split; [by rewrite <- app_assoc|done].
  - intros catalog err e. pose proof (later_call (h ++ [Ev WorkersList (Ok a)]) JobsLoad (catalog, err) eq_refl). gstep.
    apply msafe_ret. split; [by grow|apply Hblocked; by grow].
Qed.

Lemma runnerRegistered_runs p pool runnerID name tr registered :
  runs (runnerRegistered p pool runnerID name) tr (Ok registered) -> Ev (SSRunnerRegistered pool runnerID name) (Ok registered) ∈ tr.
Proof. intros (pre & tr1 & -> & r & tr' & -> & -> & <-)%RetryValue_last. apply elem_of_app. right. by left. Qed.

(** A candidate of the registration check, before or after it. *)
Definition candidate_ok (h : list event) (w : Worker) : Prop :=
  marked h w /\ w_State w = WorkerIdle /\ w_JobID w = "" \/ unregistered h w.

Lemma candidate_ok_mono h h' w : h `prefix_of` h' -> candidate_ok h w -> candidate_ok h' w.
Proof. intros Hp [[Hm Hw]|Hu]; [left; split; [by eapply marked_mono|done]|right; by eapply unregistered_mono]. Qed.

Lemma workers_checked_mono h h' known ws : h `prefix_of` h' -> Forall (worker_checked h known) ws -> Forall (worker_checked h' known) ws.
Proof. intros Hp Hw. eapply Forall_impl; [exact Hw|]. intros w. by apply worker_checked_mono. Qed.

Lemma candidate_gone h w :
  candidate_ok h w -> Ev (SSRunnerRegistered (w_PoolID w) (w_RunnerID w) (w_Name w)) (Ok false) ∈ h ->
  unregistered h {| w with w_State := WorkerUnregistered |}.
Proof.
  intros [(Hm & Hi & Hj)|(w0 & Hm & Hi & Hj & -> & He)] Hev; [by exists w|]. by exists w0.
Qed.

Lemma check_registrations_safe h now limit order checked workers s :
  Forall (worker_checked h true) workers ->
  (forall i w, i ∈ order -> workers !! i = Some w -> candidate_ok h w) ->
  msafe (fun h' _ r => later h h' /\ Forall (worker_checked h' true) r.1) h (check_registrations env now limit order checked workers) s.
Proof.
  revert h checked workers s. induction order as [|i order IH]; intros h checked workers s Hall Hc; simpl; [by apply msafe_ret|].
  assert (Hnext : forall h' checked' ws s', later h h' -> Forall (worker_checked h' true) ws ->
            (forall j w, j ∈ order -> ws !! j = Some w -> candidate_ok h' w) ->
            msafe (fun h' _ r => later h h' /\ Forall (worker_checked h' true) r.1) h' (check_registrations env now limit order checked' ws) s').
  { intros h' checked' ws s' Hl Hws Hc'. eapply msafe_mono; [|by apply IH]. intros h2 s2 r _ [Hs2 H2]. split; [by grow|done]. }
  assert (Hsame : forall h' checked' s', later h h' ->
            msafe (fun h' _ r => later h h' /\ Forall (worker_checked h' true) r.1) h' (check_registrations env now limit order checked' workers) s').
  { intros h' checked' s' Hl. apply Hnext; [done|eapply workers_checked_mono; [|exact Hall]; within|].
    intros j w Hj Hlk. eapply candidate_ok_mono; [by apply later_prefix|]. apply (Hc j); [by right|done]. }
  destruct (workers !! i) as [w|] eqn:Hi; [|by apply Hsame].
  split_if; [apply insensitive_bind; [mavoid|]; intros; by apply Hsame|].
  assert (Havoid : avoids sensitive (runnerRegistered (en_backoff env) (w_PoolID w) (w_RunnerID w) (w_Name w))).
  { apply avoids_RetryValue; [by intros []|]. by simpl. }
  apply msafe_bind, msafe_lift, (avoids_safe sensitive); [exact Havoid|intros h' c; by destruct c|]. intros tr outcome Hr _.
  assert (Hl : later h (h ++ tr)) by (eapply (avoids_later sensitive); [by intros []|exact Havoid|exact Hr]).
  destruct outcome as [[]|e]; [by apply Hsame| |].
  - apply insensitive_bind; [mavoid|]. intros h' s' _ Hs'. assert (Hl' : later h h') by (by grow).
    assert (Hw : candidate_ok h' w) by (eapply candidate_ok_mono; [by apply later_prefix|]; apply (Hc i); [by left|done]).
    assert (Hgone : unregistered h' {| w with w_State := WorkerUnregistered |}).
    { apply candidate_gone; [done|]. apply (later_subset _ _ Hs'), elem_of_app. right. by apply runnerRegistered_runs in Hr. }
    apply Hnext; [done|apply Forall_insert; [eapply workers_checked_mono; [|exact Hall]; within|by right]|].
    intros j w' Hj. rewrite list_lookup_insert_Some. intros [(-> & <- & _)|[_ Hlk]]; [by right|].
    eapply candidate_ok_mono; [by apply later_prefix|]. apply (Hc j); [by right|done].
  - apply insensitive_bind; [mavoid|]. intros h' s' _ Hs'. apply Hsame. by grow.
Qed.

Lemma candidate_indexes_elem pools ws i w :
  i ∈ candidate_indexes pools ws -> ws !! i = Some w -> w_State w = WorkerIdle /\ w_JobID w = "".
Proof.
  intros ([j w'] & Hj & Hsome)%list_elem_of_omap Hw. apply elem_of_lookup_imap in Hj as (k & w'' & [= -> ->] & Hl).
  destruct (registration_candidate pools w'') eqn:Hc; [|done]. injection Hsome as <-. rewrite Hl in Hw. injection Hw as ->.
  unfold registration_candidate in Hc. repeat (apply andb_prop in Hc as [Hc ?]). split.
  - by eapply bool_decide_eq_true_1.
  - by apply String.eqb_eq.
Qed.

Lemma verify_registrations_safe h now pools workers s :
  Forall (worker_ok h true) workers ->
  msafe (fun h' _ ws => later h h' /\ Forall (worker_checked h' true) ws) h (verify_registrations env now pools workers) s.
Proof.
  intros Hw. assert (Hall : Forall (worker_checked h true) workers) by (eapply Forall_impl; [exact Hw|]; by left).
  unfold verify_registrations. split_if; [by apply msafe_ret|].
  apply msafe_bind, msafe_gets, msafe_bind. eapply msafe_mono; [|apply check_registrations_safe; [exact Hall|]].
  - intros h1 s1 [ws checked] _ [Hs1 H1]. apply msafe_bind, msafe_modify, msafe_ret. done.
  - intros i w (k & _ & Hk)%list_elem_of_omap Hl.
    destruct (candidate_indexes_elem pools workers i w) as [Hi Hj]; [by eapply list_elem_of_lookup_2|done|].
    left. split_and!; [|done|done]. rewrite Forall_forall in Hw.
    destruct (Hw w) as [Hm|[? _]]; [by eapply list_elem_of_lookup_2|done|done].
Qed.

(** ** Actions *)

(** From a component's own guard to the step's. *)
Lemma guarded {A} f I (Q : list event -> StepState -> A -> Prop) h (m : M A) s :
  mavoids f m -> ReconcilerFacts.msafe I Q h m s ->
  (forall h' c, h `prefix_of` h' -> f c = false -> I h' c -> step_guard env h' c) ->
  msafe (fun h' s' a => h `prefix_of` h' /\ Q h' s' a) h m s.
Proof.
  intros Hm Hs Hg.
  assert (Hs' : ReconcilerFacts.msafe (fun h' c => h `prefix_of` h' /\ f c = false /\ I h' c) (fun h' s' a => h `prefix_of` h' /\ Q h' s' a) h m s).
  { eapply msafe_mono; [|apply safe_prefix, avoids_strengthen; [apply Hm|exact Hs]]. intros h' s' a Hp HQ. by split. }
  eapply safe_weaken; [|exact Hs']. intros h' c (Hp & Hc & Hi). by apply Hg.
Qed.

(** A guarded part that starts no worker. *)
Lemma safe_later {A} f I (Q : list event -> A -> Prop) h (p : prog A) :
  (forall c, f c = false -> is_start c = false) -> avoids f p -> safe I Q h p -> safe I (fun h' a => later h h' /\ Q h' a) h p.
Proof.
  intros Hf. revert h. induction p as [a|c k IH]; intros h Ha Hs; simpl in *; [by split|].
  destruct Ha as [Hc Hk], Hs as [Hi Hs]. split; [done|]. intros r. eapply safe_mono; [|apply IH; [apply Hk|apply Hs]].
  intros h' a _ [Hl HQ]. split; [|done]. etransitivity; [|exact Hl]. by apply later_call, Hf.
Qed.

Lemma remove_workers_guarded h plan facts pools known now s :
  facts_ok h facts -> Forall (worker_checked h known) (p_Remove plan) ->
  msafe (fun h' _ _ => later h h') h (remove_workers env plan facts pools known now) s.
Proof.
  intros Hf Hw. set (f := fun c => sensitive c && match c with RemoveIfIdle _ => false | _ => true end).
  assert (Hm : mavoids f (remove_workers env plan facts pools known now)) by (apply mavoids_removals; [by intros []|done]).
  pose proof (safe_later f _ _ h _ ltac:(by intros []) (Hm s) (remove_workers_safe env plan facts pools known now h s)) as Hs.
  assert (Hs' : ReconcilerFacts.msafe (removal_guard plan facts pools known) (fun h' _ _ => later h h') h (remove_workers env plan facts pools known now) s).
  { eapply safe_mono; [|exact Hs]. by intros h' [s' stale] _ [Hl _]. }
  eapply msafe_mono; [|eapply (guarded f); [exact Hm|exact Hs'|]]; [by intros h' s' a _ [_ Hl]|].
  intros h' c Hp Hc Hi. destruct c; try done. destruct Hi as (w & Hin & Hid & Hb & Hj). exists w. split; [done|].
  rewrite Forall_forall in Hw. destruct (worker_checked_mono _ _ _ _ Hp (Hw w Hin)) as [Hok|Hu]; [|by right; left].
  assert (Hseen : listed h' w \/ marked h' w) by (destruct Hok as [?|[_ ?]]; auto).
  destruct Hj as [Hst|[Hst|(Hk & (_ & _ & _ & _ & Hconf & _) & Hr & He)]]; [left; auto|left; auto|].
  right. right. destruct Hok as [Hm'|[Hk' _]]; [|congruence]. split_and!; [done|done| |done|done].
  eapply zero_twice_mono; [by apply prefix_subset|by apply Hf].
Qed.

Lemma starts_guarded h starts identities b now reserved s :
  identities_ok h identities -> baseline_known env h b -> reserved = reserved_by 0 h ->
  msafe (fun h' _ r => h `prefix_of` h' /\ r.1 = reserved_by 0 h') h (executePlannedStarts env starts identities b now reserved) s.
Proof.
  intros Hid Hb Hres. eapply msafe_mono; [|eapply (guarded (fun c => sensitive c && match c with WorkerStart _ => false | _ => true end));
    [|apply (executePlannedStarts_safe env b now 0); [intros h' req Hreq; exact Hreq|exact Hres]|]].
  - intros h' s' r Hp [_ [_ Hr]]. by split.
  - apply mavoids_starts; [by intros []|done].
  - intros h' c Hp Hc Hi. destruct c; try done.
    destruct Hi as (d & ident & limits & _ & _ & Hl & Hlim & _ & Hlim' & h0 & reads & Hh & Hadm).
    exists b, ident, h0, reads. split_and!; [by rewrite Hlim, Hlim'| |done| |done].
    + eapply ensured_mono; [by apply prefix_subset|by apply Hid].
    + eapply baseline_known_mono; [by apply prefix_subset|done].
Qed.

Lemma shutdown_guarded h now plan facts v s :
  facts_ok h facts -> desktop_ok h v -> msafe (fun _ _ _ => True) h (shut_down_host env now plan facts (vw_desktop v) (vw_desktopKnown v)) s.
Proof.
  intros Hf Hv. eapply msafe_mono; [|eapply (guarded (fun c => sensitive c && match c with DesktopStop _ | ShutdownAllWSL => false | _ => true end));
    [|apply shut_down_host_safe|]].
  - done.
  - apply mavoids_shutdown; [by intros []|done|done].
  - intros h' c Hs%prefix_subset Hc Hi.
    assert (Hready : shutdown_ready env facts (vw_desktop v) (vw_desktopKnown v) h h' -> shutdown_evidence env h').
    { intros [Hz (reads & rest & -> & Hr & Hrest)]. split.
      - intros t Ht. eapply zero_twice_mono; [exact Hs|]. apply Hf. by apply Hz.
      - exists h, reads, rest. split_and!; [done| |done]. destruct Hr as [[Hmay ->]|Hr]; [|by right].
        left. exists (vw_desktop v). unfold mayHaveManagedWorkers in Hmay.
        destruct (vw_desktopKnown v) eqn:Hk; [|done]. simpl in Hmay. apply orb_false_iff in Hmay as [-> ->]. auto. }
    destruct c; try done; destruct Hi as [_ Hi]; by apply Hready.
Qed.

(** ** The whole step *)

Definition any {A} (_ : list event) (_ : StepState) (_ : A) : Prop := True.

Lemma insensitive_any {A} h (m : M A) s : mavoids sensitive m -> msafe any h m s.
Proof. intros Hm. by apply insensitive_safe. Qed.

(** What the step's baseline for admissions is made of. *)
Lemma baseline_ok h l v pools resourceGate powerGate :
  loaded_ok h l -> Forall (pool_known h) pools -> map sn_TargetID pools = map t_ID (c_Targets cfg) ->
  baseline_known env h (baseline l v (gated (ld_previous l) resourceGate powerGate) pools).
Proof.
  intros [Hprev Hd] Hp Ht. split_and!; [done|done| |done]. by exists (ld_previous l), resourceGate, powerGate.
Qed.

Lemma execute_plan_guarded h now l v resourceGate powerGate pd plan reserved pools s :
  loaded_ok h l -> polled_ok h pools pd -> map sn_TargetID pools = map t_ID (c_Targets cfg) ->
  desktop_ok h v -> Forall (worker_checked h (vw_jobStateKnown v)) (p_Remove plan) -> reserved = reserved_by 0 h ->
  msafe any h (execute_plan env now l v (gated (ld_previous l) resourceGate powerGate) pd plan reserved) s.
Proof.
  intros Hl (Ht & Hp & Hi & Hf) Hts Hv Hw Hres. unfold execute_plan, start_desktop. apply insensitive_bind; [mavoid|]. intros h1 s1 _ Hs1.
  apply msafe_bind. eapply msafe_mono; [|apply remove_workers_guarded; [eapply facts_ok_mono; [|exact Hf]; within|eapply workers_checked_mono; [|exact Hw]; within]].
  intros h2 s2 stale _ Hs2. assert (H02 : later h h2) by (by grow).
  apply msafe_bind. eapply msafe_mono; [|apply starts_guarded].
  - intros h3 s3 [reserved' [e|]] _ [Hs3 _]; [by apply msafe_ret|]. simpl in Hs3. apply msafe_bind.
    assert (Hsub : h ⊆ h3) by (apply prefix_subset; etransitivity; [by apply later_prefix|exact Hs3]).
    eapply msafe_mono; [|apply shutdown_guarded; [by eapply facts_ok_mono|by eapply desktop_ok_mono]].
    intros h4 s4 u _ _. by apply msafe_ret.
  - eapply identities_ok_mono; [|exact Hi]. within.
  - apply (baseline_known_mono _ h); [within|]. apply baseline_ok; [done|done|by rewrite Ht].
  - by rewrite (later_reserved h h2).
Qed.

(** The removals of a plan are among the workers it was made with. *)
Lemma planned_removals h known ws recoveryOnly facts wall input :
  in_Workers input = ws -> Forall (worker_checked h known) ws ->
  Forall (worker_checked h known) (p_Remove (suspend_lifecycle recoveryOnly (align (BuildPlan wall input) facts))).
Proof.
  intros <- Hw. unfold suspend_lifecycle. destruct recoveryOnly; [by constructor|]. simpl.
  pose proof (BuildPlan_removable wall input) as Hr. unfold removals_safe in Hr. rewrite Forall_forall in Hr, Hw |- *.
  intros w Hin. by apply Hw, Hr.
Qed.

Lemma act_guarded h now l v resourceGate powerGate pd cadencePools pollPlan stale reserved pools s :
  loaded_ok h l -> polled_ok h pools pd -> map sn_TargetID pools = map t_ID (c_Targets cfg) -> view_ok h v -> reserved = reserved_by 0 h ->
  msafe any h (act env now l v (gated (ld_previous l) resourceGate powerGate) pd cadencePools pollPlan stale reserved) s.
Proof.
  intros Hl Hpd Hts Hv Hres. unfold act. apply msafe_bind. eapply msafe_mono; [|by apply refresh_view]. intros h1 s1 [v1 failed] _ [Hs1 [Hd1 Hw1]].
  simpl in Hd1, Hw1.
  assert (Hgo : forall h2 s2 workers, later h1 h2 -> Forall (worker_checked h2 (vw_jobStateKnown v1)) workers ->
    msafe any h2 (mbind (plan_with env l {| v1 with vw_workers := workers |} (gated (ld_previous l) resourceGate powerGate)
        (pf_acknowledgedCapacity (pd_facts pd)) (pd_pools pd) now) (fun plan =>
      mbind (execute_plan env now l {| v1 with vw_workers := workers |} (gated (ld_previous l) resourceGate powerGate)
               pd (suspend_lifecycle (ld_recoveryOnly l) (align plan (pd_facts pd))) reserved) (fun outcome =>
        match outcome with
        | Err e => mret (empty_result false, Some e)
        | Ok staleRemoval => finish_step env now l {| v1 with vw_workers := workers |}
            (gated (ld_previous l) resourceGate powerGate) pd cadencePools pollPlan (stale || staleRemoval)
        end))) s2).
  { intros h2 s2 workers Hs2 Hw. assert (H02 : later h h2) by (by grow). unfold plan_with. apply msafe_bind, msafe_gets, msafe_bind.
    eapply msafe_mono; [|eapply execute_plan_guarded with (pools := pools); [eapply loaded_ok_mono; [|exact Hl]; within|eapply polled_ok_mono; [|exact Hpd]; within|done| | |]].
    - intros h3 s3 [stale'|e] _ _; [|by apply msafe_ret]. apply insensitive_any. mavoid.
    - apply (desktop_ok_mono h1); [within|done].
    - by eapply planned_removals.
    - by rewrite (later_reserved h h2). }
  apply msafe_bind. destruct (vw_jobStateKnown v1) eqn:Hk.
  - eapply msafe_mono; [|by apply verify_registrations_safe]. intros h2 s2 workers _ [Hs2 Hw]. by apply Hgo.
  - apply msafe_ret, Hgo; [done|]. eapply Forall_impl; [exact Hw1|]. by left.
Qed.

Lemma poll_and_act_guarded h ticks l v e pollPlan reserved s :
  loaded_ok h l -> view_ok h v -> ensured_ok h e -> map sn_TargetID (es_pools e) = map t_ID (c_Targets cfg) -> reserved = reserved_by 0 h ->
  msafe any h (poll_and_act env ticks l v e (observations (os_Pools (ld_previous l))) pollPlan reserved) s.
Proof.
  intros Hl Hv [Hp Hi] Hts Hres. unfold poll_and_act, forced_zero.
  apply msafe_bind, msafe_gets. do 4 (apply insensitive_bind; [solve [mavoid]|intros ? ? ? ?]). apply msafe_bind, msafe_gets.
  apply msafe_bind. eapply msafe_mono; [|apply poll_listeners_safe; eapply pools_known_mono; [|exact Hp]; within].
  intros h1 s1 [results cadence] _ [Hs1 Hres1]. apply insensitive_bind; [mavoid|]. intros h2 s2 now Hs2. simpl in Hres1.
  assert (H02 : later h h2) by (by grow).
  apply msafe_bind. eapply msafe_mono; [|apply (collect_results_safe _ now (ld_previous l) (es_pools e))].
  - intros h3 s3 pd _ [Hs3 Hpd]. apply insensitive_bind; [mavoid|]. intros h4 s4 cause Hs4.
    destruct cause; [apply insensitive_any; mavoid|]. apply insensitive_bind; [mavoid|]. intros h5 s5 _ Hs5.
    assert (H05 : later h h5) by (by grow).
    eapply act_guarded with (pools := es_pools e); [eapply loaded_ok_mono; [|exact Hl]; within|eapply polled_ok_mono; [|exact Hpd]; within|done| |by rewrite (later_reserved h h5)].
    eapply (view_ok_mono h); [within|exact Hv].
  - eapply previous_ok_mono; [|apply Hl]. within.
  - split_and!; simpl; [done|eapply pools_known_mono; [|exact Hp]; within|eapply identities_ok_mono; [|exact Hi]; within|].
    intros id. simpl. rewrite mget_empty. lia.
  - eapply results_ok_mono; [|exact Hres1]. within.
Qed.

Lemma reconcile_guarded h ticks now l s :
  loaded_ok h l -> reserved_by 0 h = 0 -> msafe any h (reconcile env ticks now l) s.
Proof.
  intros Hl Hz. unfold reconcile. apply insensitive_bind; [mavoid|]. intros h1 s1 _ Hs1.
  apply msafe_bind. eapply msafe_mono; [|apply observe_safe]. intros h2 s2 v _ [Hs2 Hv].
  apply msafe_bind. eapply msafe_mono; [|apply ensure_targets_safe; eapply previous_ok_mono; [|apply Hl]; within].
  intros h3 s3 e _ (Hs3 & He & Hts). assert (H03 : later h h3) by (by grow).
  apply msafe_bind, msafe_gets. unfold plan_with. apply msafe_bind, msafe_gets. set (provisional := BuildPlan _ _). clearbody provisional.
  assert (Hgo : forall h4 s4 v' failed reserved, h3 `prefix_of` h4 -> view_ok h4 v' -> reserved = reserved_by 0 h4 ->
    msafe any h4 (mbind (gets st_pendingCapacity) (fun pending => poll_and_act env ticks l v' e (observations (os_Pools (ld_previous l)))
      (set_advertised provisional (poll_capacity (ld_previous l) pending failed (p_AdvertisedCapacity provisional))) reserved)) s4).
  { intros h4 s4 v' failed reserved Hs4 Hv' Hres. apply msafe_bind, msafe_gets, poll_and_act_guarded; [|done| |done|done].
    - eapply loaded_ok_mono; [|exact Hl]. etransitivity; [by apply later_subset|by apply prefix_subset].
    - eapply ensured_ok_mono; [by apply prefix_subset|done]. }
  assert (Hv3 : view_ok h3 v) by (eapply view_ok_mono; [|exact Hv]; within).
  assert (Hz3 : 0 = reserved_by 0 h3) by (by rewrite (later_reserved h h3)).
  unfold start_before_poll. destruct (ld_recoveryOnly l); [by apply msafe_bind, msafe_ret, Hgo|].
  apply msafe_bind. unfold start_desktop. apply insensitive_bind; [mavoid|]. intros h4 s4 _ Hs4. assert (H04 : later h h4) by (by grow).
  assert (Hz4 : 0 = reserved_by 0 h4) by (by rewrite (later_reserved h h4)).
  assert (Hv4 : view_ok h4 v) by (eapply view_ok_mono; [|exact Hv3]; within).
  split_if; [apply msafe_ret, Hgo; [within|done|done]|].
  assert (Hbase : baseline_known env h4 (baseline l v (ld_previous l) (es_pools e))).
  { replace (ld_previous l) with (gated (ld_previous l) (os_ResourceGate (ld_previous l)) (os_PowerGate (ld_previous l)))
      by (by destruct (ld_previous l)).
    apply baseline_ok; [eapply loaded_ok_mono; [|exact Hl]; within|eapply pools_known_mono; [|apply He]; within|done]. }
  apply msafe_bind. eapply msafe_mono; [|apply starts_guarded; [eapply identities_ok_mono; [|apply He]; within|exact Hbase|exact Hz4]].
  intros h5 s5 [reserved [err|]] _ [Hs5 Hres]; [by apply msafe_ret, msafe_ret|]. simpl in Hs5, Hres.
  apply msafe_bind. eapply msafe_mono; [|apply refresh_view; by eapply view_ok_mono].
  intros h6 s6 [v' failed] _ [Hs6 Hv']. simpl in Hs6, Hv'. apply msafe_ret, Hgo; [|done|].
  - etransitivity; [by apply later_prefix|]. etransitivity; [exact Hs5|by apply later_prefix].
  - by rewrite (later_reserved h5 h6).
Qed.

Lemma step_guarded ticks s : msafe any [] (step env ticks) s.
Proof.
  unfold step. apply msafe_bind, msafe_modify. apply insensitive_bind; [mavoid|]. intros h1 s1 canceled Hs1.
  destruct canceled; [by apply msafe_ret|]. apply insensitive_bind; [mavoid|]. intros h2 s2 now Hs2.
  apply msafe_bind. eapply msafe_mono; [|apply load_desired_safe]. intros h3 s3 [[desired derr]|e] _ [Hs3 Hd]; [|by apply msafe_ret].
  apply msafe_bind, msafe_call; [done|]. intros down. pose proof (later_call h3 ShuttingDown down eq_refl) as Hs4.
  assert (Hd4 : intended (h3 ++ [Ev ShuttingDown down]) (shutdown_intent down desired)).
  { destruct (Hd desired derr eq_refl) as [Hm|He]; [left; by destruct down|right; exists desired, down].
    split_and!; [by apply elem_of_app; left|apply elem_of_app; right; by left|done]. }
  unfold resume. apply msafe_bind. eapply msafe_mono; [|by apply load_observed_safe].
  intros h5 s5 [l|e] _ [Hs5 Hl]; [|by apply msafe_ret]. apply reconcile_guarded; [by apply Hl|].
  rewrite (later_reserved []); [done|]. by grow.
Qed.
End Guarded.


(** ** Concrete runs *)

#[local] Transparent mret mbind lift call_ gets modify.

