(* ===== verification/Shutdown.v ===== *)
(** Graceful shutdown of the controller (internal/controller/shutdown.go): when
    a drain counts as complete, and the loop that steps until it is. *)

From S2P Require Import Prelude Float64 Model Config PlanGates Plan Errors JobIndex Effects Retry Reconciler Cadence Step Samples RunSamples.
Open Scope Z_scope.
Open Scope prog_scope.

(** ** A drained observation *)

(** A pool that has acknowledged zero capacity in two polls with nothing left to serve. *)
Definition pool_drained (p : PoolObservation) : bool :=
  po_CapacityAcknowledged p && (po_MaxCapacity p =? 0) && (po_TotalAssignedJobs p =? 0)
  && (po_DrainServiceCapacity p =? 0) && (2 <=? po_ZeroCapacityConfirmations p).

Fixpoint pools_drained (expected seen : gset string) (pools : list PoolObservation) : bool :=
  match pools with
  | [] => true
  | p :: rest =>
      if negb (bool_decide (po_ID p ∈ expected)) then false
      else if bool_decide (po_ID p ∈ seen) then false
      else if negb (pool_drained p) then false
      else pools_drained expected ({[po_ID p]} ∪ seen) rest
  end.

Definition shutdownDrained (observed : ObservedState) (targets : list Target) : bool :=
  if negb (length (os_Pools observed) =? length targets)%nat then false
  else pools_drained (list_to_set (map t_ID targets)) ∅ (os_Pools observed) && negb (existsb Active (os_Workers observed)).

(** ** The loop *)

Definition shutdownDegradedStepBudget : Z := 3.

Definition ErrShutdownDegraded : error :=
  ErrNew "shutdown drain degraded: consecutive reconcile steps failed before the drain was verified".

(** How the loop ends: interrupted, or finished with or without a verified drain. *)
Inductive DrainOutcome := Interrupted (e : error) | Finished (degraded : bool).

(** At most [fuel] steps; [None] when they do not suffice, as a drain waits for
    active work indefinitely. *)
Fixpoint drain_loop (cfg : Config) (fuel : nat) (degradedSteps : Z) : prog (option DrainOutcome) :=
  match fuel with
  | O => Ret None
  | S fuel =>
      do canceled <- ask (CtxErr CallerCtx) then
      match canceled with
      | Some e => Ret (Some (Interrupted e))
      | None =>
          do stepped <- ask RunStep then
          let continue (degradedSteps : Z) :=
            do interrupted <- ask (Sleep CallerCtx (co_ShutdownPollInterval (c_Controller cfg))) then
            match interrupted with
            | Some e => Ret (Some (Interrupted e))
            | None => drain_loop cfg fuel degradedSteps
            end in
          match stepped with
          | (observed, None) =>
              if shutdownDrained observed (c_Targets cfg) then Ret (Some (Finished false)) else continue 0
          | (_, Some _) =>
              if shutdownDegradedStepBudget <=? degradedSteps + 1 then Ret (Some (Finished true)) else continue (degradedSteps + 1)
          end
      end
  end.

(** [Some None] is a shutdown that reports no error. *)
Definition Shutdown (cfg : Config) (fuel : nat) : prog (option (option error)) :=
  do drained <- drain_loop cfg fuel 0 then
  match drained with
  | None => Ret None
  | Some (Interrupted e) => Ret (Some (Some e))
  | Some (Finished degraded) =>
      do scaleSets <- ask CloseScaleSets then
      do workers <- ask CloseWorkers then
      Ret (Some (errors_Join ((if degraded then [Some ErrShutdownDegraded] else [])
                              ++ (match scaleSets with Some e => [e] | None => [] end)
                              ++ (match workers with Some e => [e] | None => [] end))))
  end.

(** ** Facts *)

Lemma pools_drained_spec expected seen pools :
  pools_drained expected seen pools = true <->
  Forall (fun p => po_ID p ∈ expected /\ (po_ID p ∉ seen) /\ pool_drained p = true) pools /\ NoDup (map po_ID pools).
Proof.
  revert seen. induction pools as [|p pools IH]; intros seen; simpl.
  { split; [intros _; split; constructor|done]. }
  rewrite Forall_cons, NoDup_cons.
  destruct (bool_decide_reflect (po_ID p ∈ expected)) as [He|He]; simpl; [|split; [done|by intros [[[? _] _] _]]].
  destruct (bool_decide_reflect (po_ID p ∈ seen)) as [Hs|Hs]; simpl; [split; [done|by intros [[[_ [? _]] _] _]]|].
  destruct (pool_drained p) eqn:Hd; simpl; [|split; [done|by intros [[(_ & _ & ?) _] _]]].
  rewrite IH, !Forall_forall. split.
  - intros [Hall Hnd]. split_and!; [done|done|done| | |done].
    + intros q Hq. destruct (Hall q Hq) as (H1 & H2 & H3). set_solver.
    + intros (q & Hid & Hq)%list_elem_of_fmap. destruct (Hall q Hq) as (_ & H2 & _). set_solver.
  - intros [[_ Hall] [Hni Hnd]]. split; [|done]. intros q Hq. destruct (Hall q Hq) as (H1 & H2 & H3). split_and!; [done| |done].
    intros [Hq1|Hq1]%elem_of_union; [|done]. apply Hni. apply elem_of_singleton in Hq1. rewrite <- Hq1. by apply list_elem_of_fmap_2.
Qed.

(** What a drained controller is.  With distinct target IDs, the check that
    lets a shutdown finish holds exactly when the observed pools are those of the
    configured targets, one each, every one of them has acknowledged zero
    capacity in two polls and has no assigned job and no drain capacity left, and
    no observed worker is active. *)
Theorem shutdownDrained_spec observed targets :
  NoDup (map t_ID targets) ->
  shutdownDrained observed targets = true <->
  map po_ID (os_Pools observed) ≡ₚ map t_ID targets /\
  Forall (fun p => po_CapacityAcknowledged p = true /\ po_MaxCapacity p = 0 /\ po_TotalAssignedJobs p = 0 /\
                   po_DrainServiceCapacity p = 0 /\ 2 <= po_ZeroCapacityConfirmations p) (os_Pools observed) /\
  Forall (fun w => Active w = false) (os_Workers observed).
Proof.
  intros Hnd. unfold shutdownDrained.
  assert (Hw : negb (existsb Active (os_Workers observed)) = true <-> Forall (fun w => Active w = false) (os_Workers observed)).
  { rewrite negb_true_iff, <- not_true_iff_false, existsb_exists, Forall_forall. split.
    - intros Hno w Hin. apply not_true_iff_false. intros Ha. apply Hno. exists w. by rewrite <- list_elem_of_In.
    - intros Hall (w & Hin & Ha). rewrite <- list_elem_of_In in Hin. rewrite (Hall w Hin) in Ha. done. }
  assert (Hp : forall p, pool_drained p = true <-> po_CapacityAcknowledged p = true /\ po_MaxCapacity p = 0 /\ po_TotalAssignedJobs p = 0 /\
                   po_DrainServiceCapacity p = 0 /\ 2 <= po_ZeroCapacityConfirmations p).
  { intros p. unfold pool_drained. rewrite !andb_true_iff, !Z.eqb_eq, Z.leb_le. tauto. }
  destruct (Nat.eqb_spec (length (os_Pools observed)) (length targets)) as [Hl|Hl]; simpl.
  2: { split; [done|]. intros (Hperm & _). exfalso. apply Hl. apply Permutation_length in Hperm. by rewrite !length_map in Hperm. }
  rewrite andb_true_iff, pools_drained_spec, Hw. split.
  - intros [[Hall Hnd'] Hact]. rewrite Forall_forall in Hall. split_and!; [| |done].
    + apply submseteq_length_Permutation; [|by rewrite !length_map; lia]. apply NoDup_submseteq; [done|].
      intros id (p & -> & Hin)%list_elem_of_fmap. destruct (Hall p Hin) as (H1 & _). by apply elem_of_list_to_set in H1.
    + apply Forall_forall. intros p Hin. apply Hp. by apply Hall.
  - intros (Hperm & Hall & Hact). split; [|done]. split; [|by rewrite Hperm]. rewrite Forall_forall in *. intros p Hin.
    split_and!; [|set_solver|by apply Hp, Hall]. apply elem_of_list_to_set. rewrite <- Hperm. by apply list_elem_of_fmap_2.
Qed.

Definition is_step (c : call) : bool := match c with RunStep => true | _ => false end.

(** The result of a step event. *)
Definition step_result (e : event) : option (ObservedState * option error) :=
  match e with Ev RunStep r => Some r | _ => None end.

(** One round of the loop. *)
Lemma drain_loop_inv cfg fuel n tr out :
  runs (drain_loop cfg (S fuel) n) tr out ->
  (exists e, out = Some (Interrupted e)) \/
  exists observed err t,
    tr = Ev (CtxErr CallerCtx) None :: Ev RunStep (observed, err) :: t /\
    let next n' := exists t', t = Ev (Sleep CallerCtx (co_ShutdownPollInterval (c_Controller cfg))) None :: t' /\
                              runs (drain_loop cfg fuel n') t' out in
    match err with
    | None => if shutdownDrained observed (c_Targets cfg) then t = [] /\ out = Some (Finished false) else next 0
    | Some _ => if shutdownDegradedStepBudget <=? n + 1 then t = [] /\ out = Some (Finished true) else next (n + 1)
    end.
Proof.
  simpl. intros (canceled & t1 & -> & Hr). destruct canceled as [e|]; simpl in Hr; [left; destruct Hr as [_ ->]; by exists e|].
  destruct Hr as ([observed err] & t2 & -> & Hr).
  assert (Hnext : forall n', runs (Vis (Sleep CallerCtx (co_ShutdownPollInterval (c_Controller cfg))) (fun interrupted =>
            match interrupted with Some e => Ret (Some (Interrupted e)) | None => drain_loop cfg fuel n' end)) t2 out ->
    (exists e, out = Some (Interrupted e)) \/
    exists t', t2 = Ev (Sleep CallerCtx (co_ShutdownPollInterval (c_Controller cfg))) None :: t' /\ runs (drain_loop cfg fuel n') t' out).
  { intros n' (slept & t3 & -> & H3). destruct slept as [e|]; [left; destruct H3 as [_ ->]; by exists e|]. right. by exists t3. }
  destruct err as [e|]; simpl in Hr.
  - destruct (shutdownDegradedStepBudget <=? n + 1) eqn:Hb.
    + right. exists observed, (Some e), t2. split; [done|]; simpl; rewrite ?Hb, ?Hd; done.
    + destruct (Hnext _ Hr) as [?|Hn]; [by left|]. right. exists observed, (Some e), t2. split; [done|]; simpl; rewrite ?Hb, ?Hd; done.
  - destruct (shutdownDrained observed (c_Targets cfg)) eqn:Hd.
    + right. exists observed, None, t2. split; [done|]; simpl; rewrite ?Hb, ?Hd; done.
    + destruct (Hnext _ Hr) as [?|Hn]; [by left|]. right. exists observed, None, t2. split; [done|]; simpl; rewrite ?Hb, ?Hd; done.
Qed.

Lemma drain_loop_finished cfg fuel n tr :
  runs (drain_loop cfg fuel n) tr (Some (Finished false)) ->
  exists pre observed, tr = pre ++ [Ev RunStep (observed, None)] /\ shutdownDrained observed (c_Targets cfg) = true.
Proof.
  revert n tr. induction fuel as [|fuel IH]; intros n tr Hr; [by destruct Hr as [_ ?]|].
  apply drain_loop_inv in Hr as [[e ?]|(observed & err & t & -> & Hr)]; [done|].
  assert (Hstep : forall n', (exists t', t = Ev (Sleep CallerCtx (co_ShutdownPollInterval (c_Controller cfg))) None :: t' /\
            runs (drain_loop cfg fuel n') t' (Some (Finished false))) ->
     exists pre observed', Ev (CtxErr CallerCtx) None :: Ev RunStep (observed, err) :: t = pre ++ [Ev RunStep (observed', None)] /\
       shutdownDrained observed' (c_Targets cfg) = true).
  { intros n' (t' & -> & H'). destruct (IH n' t' H') as (pre & o & -> & Ho). eexists (_ :: _ :: _ :: pre), o. by split. }
  simpl in Hr. destruct err as [e|].
  - split_if; [by destruct Hr|by eapply Hstep].
  - destruct (shutdownDrained observed (c_Targets cfg)) eqn:Hd; [|by eapply Hstep].
    destruct Hr as [-> _]. by exists [Ev (CtxErr CallerCtx) None], observed.
Qed.

(** Failing steps exhaust the budget. *)
Lemma drain_loop_gives_up cfg fuel n tr out :
  0 <= n < 3 -> (Z.to_nat (3 - n) <= fuel)%nat ->
  (forall e r, e ∈ tr -> step_result e = Some r -> r.2 <> None) ->
  runs (drain_loop cfg fuel n) tr out ->
  (exists e, out = Some (Interrupted e)) \/ out = Some (Finished true) /\ calls is_step tr = 3 - n.
Proof.
  revert n tr. induction fuel as [|fuel IH]; intros n tr Hn Hfuel Hfail Hr; [lia|].
  apply drain_loop_inv in Hr as [?|(observed & err & t & -> & Hr)]; [by left|].
  destruct err as [e|]; [|destruct (Hfail (Ev RunStep (observed, None)) (observed, None)); [set_solver|done|done]].
  unfold shutdownDegradedStepBudget in Hr. destruct (Z.leb_spec 3 (n + 1)) as [Hb|Hb].
  - destruct Hr as [-> ->]. right. split; [done|]. unfold calls. simpl. lia.
  - destruct Hr as (t' & -> & Hr). destruct (IH (n + 1) t') as [?|[-> Hc]]; [lia|lia| |done|by left|].
    { intros e' r He. apply Hfail. set_solver. }
    right. split; [done|]. unfold calls in *. simpl. lia.
Qed.

(** A shutdown without an error ended with a verified drain. *)
Lemma shutdown_drained cfg fuel tr :
  runs (Shutdown cfg fuel) tr (Some None) -> exists pre observed r1 r2,
    tr = pre ++ [Ev RunStep (observed, None); Ev CloseScaleSets r1; Ev CloseWorkers r2] /\
    shutdownDrained observed (c_Targets cfg) = true.
Proof.
  intros (t1 & t2 & outcome & -> & Hloop & Hrest)%runs_bind.
  destruct outcome as [[e|degraded]|]; [by destruct Hrest as [_ ?]| |by destruct Hrest as [_ ?]].
  destruct Hrest as (r1 & t3 & -> & r2 & t4 & -> & -> & Hout). destruct degraded; [done|].
  destruct (drain_loop_finished _ _ _ _ Hloop) as (pre & observed & -> & Hd). exists pre, observed, r1, r2.
  split; [|done]. by rewrite <- app_assoc.
Qed.

(** A shutdown reports success only for a verified drain, and gives up on
    failing steps.  Whatever the steps and the runtimes answer, a shutdown that
    returns without an error ended its loop with a step that succeeded and
    observed a drained controller, and closed both runtimes after it.  If every
    step fails, the shutdown returns within three steps, with an error. *)
Theorem Shutdown_verifies_drain cfg fuel tr out :
  runs (Shutdown cfg fuel) tr out ->
  (out = Some None -> exists pre observed r1 r2,
     tr = pre ++ [Ev RunStep (observed, None); Ev CloseScaleSets r1; Ev CloseWorkers r2] /\
     shutdownDrained observed (c_Targets cfg) = true) /\
  ((3 <= fuel)%nat -> (forall e r, e ∈ tr -> step_result e = Some r -> r.2 <> None) ->
     exists e, out = Some (Some e)).
Proof.
  intros Hr. split; [intros ->; by eapply shutdown_drained|].
  apply runs_bind in Hr as (t1 & t2 & outcome & -> & Hloop & Hrest). intros Hfuel Hfail.
  destruct (drain_loop_gives_up cfg fuel 0 t1 outcome) as [[e ->]|[-> _]]; [lia|lia| |done| |].
  - intros e r He. apply Hfail. set_solver.
  - destruct Hrest as [_ ->]. by exists e.
  - destruct Hrest as (r1 & t3 & -> & r2 & t4 & -> & -> & ->). by eexists.
Qed.

(** ** Concrete instances *)

(** A controller whose only pool has drained. *)
Definition drained_observation : ObservedState :=
  let o := ObservedState_zero in
  {| o with os_SchemaVersion := 1; os_Pools := [mkPoolObservation "org" 1 "org" 0 0 true 2 0 0 900];
            os_Workers := [sample_worker "w1" "org" WorkerExited] |}.

Lemma shutdownDrained_spec_witness :
  shutdownDrained drained_observation [sample_target "org" 3 0 1] = true /\
  Forall (fun w => Active w = false) (os_Workers drained_observation).
Proof.
  split; [vm_compute; reflexivity|].
  refine (proj2 (proj2 (proj1 (shutdownDrained_spec drained_observation [sample_target "org" 3 0 1] _) _))).
  - apply NoDup_singleton.
  - vm_compute; reflexivity.
Defined.

Lemma Shutdown_verifies_drain_witness :
  exists pre observed r1 r2,
    [Ev (CtxErr CallerCtx) None; Ev RunStep (drained_observation, None); Ev CloseScaleSets (Some None); Ev CloseWorkers (Some None)]
      = pre ++ [Ev RunStep (observed, None); Ev CloseScaleSets r1; Ev CloseWorkers r2] /\
    shutdownDrained observed (c_Targets (en_config sample_env)) = true.
Proof.
  refine (proj1 (Shutdown_verifies_drain (en_config sample_env) 1 _ (Some None) _) eq_refl).
  exists None. eexists. split; [reflexivity|]. exists (drained_observation, None). eexists. split; [reflexivity|].
  exists (Some None). eexists. split; [reflexivity|]. exists (Some None). eexists. split; [reflexivity|]. by vm_compute.
Defined.
