(* ===== verification/Control.v ===== *)
(** The control plane: the requests a local client may send
    (internal/control/protocol.go), the handler that answers them and reserves a
    shutdown in two phases (internal/controller/control_handler.go), and the
    explicit force stop (internal/controller/force_stop.go). *)

From S2P Require Import Prelude Float64 GoStrings Model Config PlanGates Plan Errors JobIndex Effects Retry Reconciler.
From stdpp Require Import pretty.
Open Scope Z_scope.
Open Scope prog_scope.

(** ** Protocol *)

Definition SchemaVersion : Z := 1.

Inductive Operation :=
  | OperationStatus
  | OperationShutdown
  | OperationForceStopPreview
  | OperationForceStopExecute
  | OperationGoroutineDump
  | OperationOther (s : string).

(** [control.ForceStopTarget] and [controller.ForceStopTarget] have the same
    fields and are copied field by field. *)
Record ForceStopTarget := mkForceStopTarget {
  ft_WorkerID : string;
  ft_PoolID : string;
  ft_Name : string;
  ft_State : WorkerState;
  ft_JobID : string;
}.

#[export] Instance ForceStopTarget_eq_dec : EqDecision ForceStopTarget.
Proof. solve_decision. Defined.

Record ShutdownRequest := mkShutdownRequest {
  sr_Reason : string;
  sr_ExpectedProcessID : Z;
  sr_ExpectedVersion : string;
  sr_ExpectedAssignedJobCount : Z;
  sr_ExpectedActiveJobCount : Z;
  sr_ExpectedActiveWorkerCount : Z;
  sr_RestartViaTaskScheduler : bool;
}.

Record Request := mkRequest {
  rq_SchemaVersion : Z;
  rq_RequestID : string;
  rq_Operation : Operation;
  rq_Shutdown : option ShutdownRequest;
  rq_ForceStop : option (list ForceStopTarget);
}.

Record Status := mkStatus {
  sta_Phase : Phase;
  sta_ProcessID : Z;
  sta_Version : string;
  sta_AssignedJobCount : Z;
  sta_ActiveJobCount : Z;
  sta_ActiveWorkerCount : Z;
  sta_ShuttingDown : bool;
  sta_RestartRequestID : string;
}.

Record Response := mkResponse {
  rs_SchemaVersion : Z;
  rs_RequestID : string;
  rs_OK : bool;
  rs_ErrorCode : string;
  rs_Error : string;
  rs_Status : option Status;
  rs_ForceStopTargets : list ForceStopTarget;
  rs_GoroutineDump : string;
}.

(** A handler error always comes with an error value. *)
Definition ErrorResponse (requestID code : string) (err : error) : Response :=
  mkResponse SchemaVersion requestID false code (error_text err) None [] "".

(** *** Validation *)

Definition alphanumeric (a : Ascii.ascii) : bool :=
  let b := byte_of a in
  ((48 <=? b) && (b <=? 57)) || ((65 <=? b) && (b <=? 90)) || ((97 <=? b) && (b <=? 122)).

Fixpoint all_bytes (f : Ascii.ascii -> bool) (s : string) : bool :=
  match s with EmptyString => true | String a rest => f a && all_bytes f rest end.

(** The pattern [^[A-Za-z0-9][A-Za-z0-9._-]{0,127}$]. *)
Definition requestIDPattern (s : string) : bool :=
  match s with
  | EmptyString => false
  | String a rest => alphanumeric a && all_bytes (fun b => alphanumeric b || name_separator b) rest && (String.length rest <=? 127)%nat
  end.

Definition Operation_string (o : Operation) : string :=
  match o with
  | OperationStatus => "status" | OperationShutdown => "shutdown" | OperationForceStopPreview => "force-stop-preview"
  | OperationForceStopExecute => "force-stop-execute" | OperationGoroutineDump => "goroutine-dump" | OperationOther s => s
  end.

Definition is_some {A} (o : option A) : bool := match o with Some _ => true | None => false end.

Definition validate_shutdown (r : ShutdownRequest) : option error :=
  if blank (sr_Reason r) || (256 <? String.length (sr_Reason r))%nat
  then Some (ErrNew "shutdown reason is required and must be at most 256 characters")
  else if sr_ExpectedProcessID r =? 0 then Some (ErrNew "expected shutdown process ID is required")
  else if blank (sr_ExpectedVersion r) || (128 <? String.length (sr_ExpectedVersion r))%nat
  then Some (ErrNew "expected shutdown version is required and must be at most 128 characters")
  else if (sr_ExpectedAssignedJobCount r <? 0) || (sr_ExpectedActiveJobCount r <? 0) || (sr_ExpectedActiveWorkerCount r <? 0)
  then Some (ErrNew "expected shutdown counts must not be negative")
  else None.

Fixpoint validate_targets (seen : gset string) (targets : list ForceStopTarget) : option error :=
  match targets with
  | [] => None
  | t :: rest =>
      if String.eqb (ft_WorkerID t) "" || String.eqb (ft_PoolID t) "" || String.eqb (ft_Name t) ""
      then Some (ErrNew "force-stop targets require workerId, poolId, and name")
      else if bool_decide (ft_WorkerID t ∈ seen)
      then Some (ErrNew ("duplicate force-stop workerId " +:+ Quote (ft_WorkerID t)))
      else if negb (is_busy (ft_State t) || is_nonbusy_active (ft_State t))
      then Some (ErrNew ("force-stop target " +:+ Quote (ft_WorkerID t) +:+ " has inactive state " +:+ Quote (WorkerState_string (ft_State t))))
      else validate_targets ({[ft_WorkerID t]} ∪ seen) rest
  end.

Definition Request_Validate (r : Request) : option error :=
  if negb (rq_SchemaVersion r =? SchemaVersion) then Some (ErrNew ("unsupported schemaVersion " +:+ pretty (rq_SchemaVersion r)))
  else if negb (requestIDPattern (rq_RequestID r)) then Some (ErrNew "requestId contains unsupported characters or is too long")
  else
    let extra := is_some (rq_Shutdown r) || is_some (rq_ForceStop r) in
    match rq_Operation r with
    | OperationStatus => if extra then Some (ErrNew "status request must not include operation data") else None
    | OperationShutdown =>
        match rq_Shutdown r with
        | None => Some (ErrNew "shutdown request data is required")
        | Some sr =>
            match validate_shutdown sr with
            | Some e => Some e
            | None => if is_some (rq_ForceStop r) then Some (ErrNew "shutdown request must not include force-stop data") else None
            end
        end
    | OperationForceStopPreview => if extra then Some (ErrNew "force-stop preview must not include operation data") else None
    | OperationGoroutineDump => if extra then Some (ErrNew "goroutine dump request must not include operation data") else None
    | OperationForceStopExecute =>
        match rq_Shutdown r, rq_ForceStop r with
        | None, Some expected => validate_targets ∅ expected
        | _, _ => Some (ErrNew "force-stop execute requires only forceStop data")
        end
    | OperationOther s => Some (ErrNew ("unsupported operation " +:+ Quote s))
    end.

(** ** Force stop *)

Definition target_lt (a b : ForceStopTarget) : bool := String.ltb (ft_WorkerID a) (ft_WorkerID b).

Definition force_stop_target (w : Worker) : ForceStopTarget :=
  mkForceStopTarget (w_ID w) (w_PoolID w) (w_Name w) (w_State w) (w_JobID w).

(** Worker IDs are unique in an inventory, so the order is determined. *)
Definition forceStopTargets (workers : list Worker) : list ForceStopTarget :=
  sort_by target_lt (map force_stop_target (List.filter Active workers)).

Definition sameForceStopTargets (a b : list ForceStopTarget) : bool :=
  if negb (length a =? length b)%nat then false
  else bool_decide (sort_by target_lt a = sort_by target_lt b).

Definition ForceStopPreview : prog (result error (list ForceStopTarget)) :=
  do listed <- ask WorkersList then
  Ret match listed with Ok workers => Ok (forceStopTargets workers) | Err e => Err e end.

Definition ErrForceStopStateChanged : error := ErrNew "managed worker state changed after force-stop preview".

(** The loop over the confirmed targets, collecting errors. *)
Fixpoint stop_targets (targets : list ForceStopTarget) (errs : list error) : prog (list error) :=
  match targets with
  | [] => Ret errs
  | t :: rest =>
      do canceled <- ask (CtxErr CallerCtx) then
      match canceled with
      | Some e => Ret (errs ++ [e])
      | None =>
          do failed <- ask (ForceStop (ft_WorkerID t)) then
          stop_targets rest (match failed with
                             | Some e => errs ++ [ErrWrap ("force stop worker " +:+ ft_WorkerID t) e]
                             | None => errs
                             end)
      end
  end.

Definition ExecuteForceStop (expected : list ForceStopTarget) : prog (list ForceStopTarget * option error) :=
  do listed <- ask WorkersList then
  match listed with
  | Err e => Ret ([], Some e)
  | Ok workers =>
      let actual := forceStopTargets workers in
      if negb (sameForceStopTargets expected actual) then Ret (actual, Some ErrForceStopStateChanged)
      else
        do errs <- stop_targets actual [] then
        Ret (actual, errors_Join (map Some errs))
  end.

(** ** The handler *)

(** What a handler is built with. *)
Record HandlerEnv := mkHandlerEnv {
  he_config : Config;
  he_version : string;
  he_processID : Z;
  he_canForceStop : bool;
}.

(** The first pool that has not acknowledged zero capacity. *)
Fixpoint check_pools (pools : list PoolObservation) : option error :=
  match pools with
  | [] => None
  | p :: rest =>
      if negb (po_CapacityAcknowledged p) then Some (ErrNew ("pool " +:+ po_ID p +:+ " has no current capacity acknowledgement"))
      else if negb (po_MaxCapacity p =? 0)
      then Some (ErrNew ("pool " +:+ po_ID p +:+ " still advertises capacity " +:+ pretty (po_MaxCapacity p)))
      else check_pools rest
  end.

(** The first target without an observed pool. *)
Fixpoint check_targets (seen : list string) (targets : list Target) : option error :=
  match targets with
  | [] => None
  | t :: rest =>
      if bool_decide (t_ID t ∈ seen) then check_targets seen rest
      else Some (ErrNew ("pool " +:+ t_ID t +:+ " has no observed zero-capacity acknowledgement"))
  end.

Definition forceStopAllowed (env : HandlerEnv) : prog (option error) :=
  do desired <- ask LoadDesired then
  match desired with
  | Err e => Ret (Some (ErrWrap "load desired state" e))
  | Ok desired =>
      if negb (bool_decide (ds_Mode desired = ModeDisabled)) then Ret (Some (ErrNew "force-stop requires desired mode disabled"))
      else
        do observed <- ask LoadObserved then
        match observed with
        | Err e => Ret (Some (ErrWrap "load observed state" e))
        | Ok observed =>
            if negb (bool_decide (os_Phase observed = PhaseDraining) || bool_decide (os_Phase observed = PhaseDisabled))
            then Ret (Some (ErrNew ("force-stop requires draining or disabled phase, not " +:+ Phase_string (os_Phase observed))))
            else Ret match check_pools (os_Pools observed) with
                     | Some e => Some e
                     | None => check_targets (map po_ID (os_Pools observed)) (c_Targets (he_config env))
                     end
        end
  end.

(** The sum of the assigned jobs; [None] when a count is negative or the sum
    would overflow. *)
Fixpoint assigned_jobs (acc : Z) (pools : list PoolObservation) : option Z :=
  match pools with
  | [] => Some acc
  | p :: rest =>
      if (po_TotalAssignedJobs p <? 0) || (max_i64 - po_TotalAssignedJobs p <? acc) then None
      else assigned_jobs (acc + po_TotalAssignedJobs p) rest
  end.

(** [pending] and [restart] are read in the handler's critical section. *)
Definition make_status (env : HandlerEnv) (observed : ObservedState) (assigned : Z) (pending : string) (restart shuttingDown : bool) : Status :=
  mkStatus (os_Phase observed) (he_processID env) (he_version env) assigned
    (count (fun w => is_busy (w_State w)) (os_Workers observed)) (count Active (os_Workers observed))
    shuttingDown (if restart then pending else "").

Definition status (env : HandlerEnv) : prog (result error Status) :=
  do loaded <- ask LoadObserved then
  let observed := match loaded with
                  | Ok o => Ok o
                  | Err e => if is_sentinel ErrStateNotFound e
                             then Ok (let o := ObservedState_zero in {| o with os_SchemaVersion := 1; os_Phase := PhaseStarting |})
                             else Err e
                  end in
  match observed with
  | Err e => Ret (Err e)
  | Ok observed =>
      match assigned_jobs 0 (os_Pools observed) with
      | None => Ret (Err (ErrNew "observed assigned-job count is invalid"))
      | Some assigned =>
          do (pending, restart) <- ask PendingRead then
          do down <- (if String.eqb pending "" then ask ShuttingDown else Ret true) then
          Ret (Ok (make_status env observed assigned pending restart down))
      end
  end.

Definition ok_response (requestID : string) (st : Status) : Response :=
  mkResponse SchemaVersion requestID true "" "" (Some st) [] "".

(** The rest of a shutdown request: the caller's expectations must match the
    status, then the handler's critical section reserves the transition. *)
Definition handle_shutdown (id : string) (st : Status) (sr : ShutdownRequest) : prog Response :=
  if negb (sta_ProcessID st =? sr_ExpectedProcessID sr) || negb (String.eqb (sta_Version st) (sr_ExpectedVersion sr)) then
    Ret (ErrorResponse id "shutdown-state-changed" (ErrNew "controller process identity changed after shutdown preflight; shutdown was not accepted"))
  else if negb (sta_AssignedJobCount st =? sr_ExpectedAssignedJobCount sr)
          || negb (sta_ActiveJobCount st =? sr_ExpectedActiveJobCount sr)
          || negb (sta_ActiveWorkerCount st =? sr_ExpectedActiveWorkerCount sr) then
    Ret (ErrorResponse id "shutdown-state-changed" (ErrNew "assigned jobs or active workers changed after shutdown preflight; shutdown was not accepted"))
  else
    do reserved <- ask (Reserve id (sr_Reason sr) (sr_RestartViaTaskScheduler sr)) then
    Ret (if reserved
         then ok_response id {| st with sta_ShuttingDown := true;
                sta_RestartRequestID := if sr_RestartViaTaskScheduler sr then id else sta_RestartRequestID st |}
         else ErrorResponse id "shutdown-in-progress" (ErrNew "a graceful shutdown is already in progress")).

Definition Handle (env : HandlerEnv) (r : Request) : prog Response :=
  let id := rq_RequestID r in
  match Request_Validate r with
  | Some e => Ret (ErrorResponse id "invalid-request" e)
  | None =>
      match rq_Operation r with
      | OperationGoroutineDump =>
          do dumped <- ask GoroutineDump then
          Ret match dumped with
              | Err e => ErrorResponse id "goroutine-dump-error" e
              | Ok path => mkResponse SchemaVersion id true "" "" None [] path
              end
      | operation =>
          do outcome <- status env then
          match outcome with
          | Err e => Ret (ErrorResponse id "status-unavailable" e)
          | Ok st =>
              let response := ok_response id st in
              match operation with
              | OperationForceStopPreview =>
                  do refused <- forceStopAllowed env then
                  match refused with
                  | Some e => Ret (ErrorResponse id "force-stop-not-drained" e)
                  | None =>
                      do targets <- ForceStopPreview then
                      Ret match targets with
                          | Err e => ErrorResponse id "force-stop-preview-error" e
                          | Ok targets => {| response with rs_ForceStopTargets := targets |}
                          end
                  end
              | OperationForceStopExecute =>
                  do refused <- forceStopAllowed env then
                  match refused with
                  | Some e => Ret (ErrorResponse id "force-stop-not-drained" e)
                  | None =>
                      if negb (he_canForceStop env) then
                        Ret (ErrorResponse id "force-stop-unavailable" (ErrNew "controller worker runtime does not expose explicit force-stop"))
                      else
                        do (actual, err) <- ExecuteForceStop (default [] (rq_ForceStop r)) then
                        Ret match err with
                            | Some e =>
                                if is_sentinel ErrForceStopStateChanged e
                                then let changed := ErrorResponse id "force-stop-state-changed" e in
                                     {| changed with rs_ForceStopTargets := actual |}
                                else ErrorResponse id "force-stop-error" e
                            | None => {| response with rs_ForceStopTargets := actual |}
                            end
                  end
              | OperationShutdown =>
                  match rq_Shutdown r with
                  | Some sr => handle_shutdown id st sr
                  | None => Ret response
                  end
              | _ => Ret response
              end
          end
      end
  end.

(** ** The two-phase shutdown *)

Record ShutdownSignal := mkShutdownSignal {
  sg_RequestID : string;
  sg_Reason : string;
  sg_Restart : bool;
}.

(** The handler's mutable state, the reconciler's shutdown flag and the signals
    sent so far on the channel of capacity one. *)
Record ControlHandler := mkControlHandler {
  ch_pendingRequestID : string;
  ch_pendingReason : string;
  ch_pendingRestart : bool;
  ch_committed : bool;
  ch_shuttingDown : bool;
  ch_shutdown : list ShutdownSignal;
}.

Definition NewControlHandler : ControlHandler := mkControlHandler "" "" false false false [].

(** The critical section at the end of [Handle]. *)
Definition reserve (h : ControlHandler) (id reason : string) (restart : bool) : ControlHandler * bool :=
  if negb (String.eqb (ch_pendingRequestID h) "") && negb (String.eqb (ch_pendingRequestID h) id) then (h, false)
  else if String.eqb (ch_pendingRequestID h) ""
  then ({| h with ch_pendingRequestID := id; ch_pendingReason := reason; ch_pendingRestart := restart |}, true)
  else (h, true).

Definition CommitShutdown (h : ControlHandler) (id : string) : ControlHandler :=
  if String.eqb id "" || negb (String.eqb id (ch_pendingRequestID h)) || ch_committed h then h
  else {| h with ch_committed := true; ch_shuttingDown := true;
                 ch_shutdown := ch_shutdown h ++ [mkShutdownSignal id (ch_pendingReason h) (ch_pendingRestart h)] |}.

Definition AbortShutdown (h : ControlHandler) (id : string) : ControlHandler :=
  if String.eqb id "" || negb (String.eqb id (ch_pendingRequestID h)) || ch_committed h then h
  else {| h with ch_pendingRequestID := ""; ch_pendingReason := ""; ch_pendingRestart := false |}.
