(* ===== verification/ControlFacts.v ===== *)
(** Safety of the control plane: what precedes every forced stop, and the
    two-phase shutdown under any interleaving of its critical sections. *)

From S2P Require Import Prelude Float64 GoStrings Model Config PlanGates Plan Samples Errors JobIndex Effects Retry Reconciler Cadence Step RunSamples Control.
Open Scope Z_scope.

(** ** Force stop *)

Lemma check_pools_spec pools :
  check_pools pools = None <-> Forall (fun p => po_CapacityAcknowledged p = true /\ po_MaxCapacity p = 0) pools.
Proof.
  induction pools as [|p pools IH]; simpl; [by split|]. rewrite Forall_cons, <- IH.
  destruct (po_CapacityAcknowledged p); simpl; [|by split; [|intros [[? _] _]]].
  destruct (Z.eqb_spec (po_MaxCapacity p) 0); simpl; [by split; [|intros [_ ?]]|by split; [|intros [[_ ?] _]]].
Qed.

Lemma check_targets_spec seen targets : check_targets seen targets = None <-> Forall (fun t => t_ID t ∈ seen) targets.
Proof.
  induction targets as [|t targets IH]; simpl; [by split|]. rewrite Forall_cons, <- IH.
  case_bool_decide; [by split; [|intros [_ ?]]|by split; [|intros [? _]]].
Qed.

Lemma sameForceStopTargets_perm a b : sameForceStopTargets a b = true -> a ≡ₚ b.
Proof.
  unfold sameForceStopTargets. split_if; [done|]. case_bool_decide as Heq; [|done]. intros _.
  rewrite <- (sort_by_perm target_lt a), Heq. apply sort_by_perm.
Qed.

(** What an inventory confirms of a preview. *)
Definition confirmed_by (expected : list ForceStopTarget) (workers : list Worker) : Prop :=
  expected ≡ₚ map force_stop_target (List.filter Active workers).

(** The state in which stopping active work is allowed. *)
Definition drained_by_intent (env : HandlerEnv) (h : list event) : Prop :=
  exists desired observed, Ev LoadDesired (Ok desired) ∈ h /\ Ev LoadObserved (Ok observed) ∈ h /\
    ds_Mode desired = ModeDisabled /\ (os_Phase observed = PhaseDraining \/ os_Phase observed = PhaseDisabled) /\
    Forall (fun p => po_CapacityAcknowledged p = true /\ po_MaxCapacity p = 0) (os_Pools observed) /\
    Forall (fun t => t_ID t ∈ map po_ID (os_Pools observed)) (c_Targets (he_config env)).

(** A forced stop that the history justifies. *)
Definition stop_justified (env : HandlerEnv) (r : Request) (h : list event) (id : string) : Prop :=
  rq_Operation r = OperationForceStopExecute /\ drained_by_intent env h /\
  exists expected workers, rq_ForceStop r = Some expected /\ Ev WorkersList (Ok workers) ∈ h /\
    confirmed_by expected workers /\ id ∈ map ft_WorkerID expected.

Definition stop_guard (env : HandlerEnv) (r : Request) (h : list event) (c : call) : Prop :=
  match c with ForceStop id => stop_justified env r h id | _ => True end.

Section ForceStop.
Context (env : HandlerEnv) (r : Request).
Local Abbreviation safe := (safe (stop_guard env r)).

Lemma drained_by_intent_mono h h' : h `prefix_of` h' -> drained_by_intent env h -> drained_by_intent env h'.
Proof. intros [t ->] (d & o & Hd & Ho & Hrest). exists d, o. split; [set_solver|]. split; [set_solver|done]. Qed.

Lemma forceStopAllowed_safe h : safe (fun h' refused => refused = None -> drained_by_intent env h') h (forceStopAllowed env).
Proof.
  unfold forceStopAllowed. simpl. split; [done|]. intros [desired|e]; [|done].
  case_bool_decide as Hm; [|done]. simpl. split; [done|]. intros [observed|e]; [|done].
  destruct (bool_decide (os_Phase observed = PhaseDraining) || bool_decide (os_Phase observed = PhaseDisabled)) eqn:Hph; [|done].
  simpl. destruct (check_pools (os_Pools observed)) eqn:Hp; [done|].
  intros Ht%check_targets_spec. apply check_pools_spec in Hp. exists desired, observed. split_and!; [set_solver|set_solver|done| |done|done].
  apply orb_true_iff in Hph as [Hph|Hph]; apply bool_decide_eq_true in Hph; auto.
Qed.

Lemma stop_targets_safe h targets errs :
  (forall h' t, h `prefix_of` h' -> t ∈ targets -> stop_justified env r h' (ft_WorkerID t)) ->
  safe (fun _ _ => True) h (stop_targets targets errs).
Proof.
  revert h errs. induction targets as [|t rest IH]; intros h errs Ht; simpl; [done|].
  split; [done|]. intros [e|]; [done|]. simpl. split.
  - apply Ht; [by eexists|by left].
  - intros failed. apply IH. intros h' t' Hp Hin. apply Ht; [|by right]. etransitivity; [|exact Hp].
    rewrite <- app_assoc. by eexists.
Qed.

Lemma ExecuteForceStop_safe h expected :
  rq_Operation r = OperationForceStopExecute -> rq_ForceStop r = Some expected -> drained_by_intent env h ->
  safe (fun _ _ => True) h (ExecuteForceStop expected).
Proof.
  intros Ho Hr Hd. unfold ExecuteForceStop. simpl. split; [done|]. intros [workers|e]; [|done]. split_if; [done|].
  assert (Hperm : confirmed_by expected workers).
  { unfold confirmed_by. etransitivity; [by apply sameForceStopTargets_perm, negb_false_iff|]. apply sort_by_perm. }
  apply safe_bind. eapply safe_mono; [|apply stop_targets_safe]; [done|].
  intros h' t Hp Hin. split; [done|]. split; [eapply drained_by_intent_mono; [|exact Hd]; etransitivity; [|exact Hp]; by eexists|].
  exists expected, workers. split_and!; [done| |done|].
  - destruct Hp as [t' ->]. set_solver.
  - apply list_elem_of_fmap. exists t. split; [done|]. unfold confirmed_by in Hperm. rewrite Hperm.
    unfold forceStopTargets in Hin. by apply elem_of_sort_by in Hin.
Qed.

Lemma status_safe h : safe (fun _ _ => True) h (status env).
Proof.
  unfold status. simpl. split; [done|]. intros loaded. destruct (match loaded with Ok _ => _ | Err _ => _ end) as [o|e]; [|done].
  destruct (assigned_jobs 0 (os_Pools o)); [|done]. simpl. split; [done|]. intros [pending restart]. by destruct (String.eqb pending "").
Qed.

Lemma Handle_safe h : safe (fun _ _ => True) h (Handle env r).
Proof.
  unfold Handle. destruct (Request_Validate r) eqn:Hv; [done|].
  destruct (rq_Operation r) eqn:Ho; try (apply safe_bind; eapply safe_mono; [|apply status_safe]; intros h1 [st|e] _ _; try done).
  - (* shutdown *)
    destruct (rq_Shutdown r); [|done]. unfold handle_shutdown. split_if; [done|]. split_if; [done|]. by simpl.
  - (* preview *)
    apply safe_bind. eapply safe_mono; [|apply forceStopAllowed_safe]. intros h2 [e|] _ _; [done|].
    simpl. split; [done|]. by intros [].
  - (* execute *)
    apply safe_bind. eapply safe_mono; [|apply forceStopAllowed_safe]. intros h2 [e|] _ Hd; [done|].
    split_if; [done|]. destruct (rq_ForceStop r) as [expected|] eqn:Hf.
    + apply safe_bind. eapply safe_mono; [|by apply (ExecuteForceStop_safe h2 expected); [..|apply Hd]].
      intros h3 [actual err] _ _. done.
    + exfalso. unfold Request_Validate in Hv. rewrite Ho, Hf in Hv. repeat split_if; try done; by destruct (rq_Shutdown r).
  - (* goroutine dump *)
    simpl. split; [done|]. by intros [].
Qed.
End ForceStop.

(** Active work is only stopped by force on a confirmed, drained inventory.
    Whatever the environment answers, every forced stop made while handling a
    request belongs to a force-stop-execute request, after the desired mode was
    read as disabled, the observed phase as draining or disabled and every
    configured target as having acknowledged zero capacity; the inventory read in
    the same request has exactly the active workers the client confirmed, in the
    same states and with the same jobs, and the stopped worker is one of them. *)
Theorem force_stop_confirmed env r tr response pre id x post :
  runs (Handle env r) tr response -> tr = pre ++ Ev (ForceStop id) x :: post -> stop_justified env r pre id.
Proof.
  intros Hr Htr. destruct (safe_runs _ _ _ _ _ _ (Handle_safe env r []) Hr) as [Hall _]. exact (Hall pre _ post Htr).
Qed.

(** ** The two-phase shutdown *)

(** The critical sections of concurrent requests and connections. *)
Inductive HandlerOp :=
  | OpReserve (id reason : string) (restart : bool)
  | OpCommit (id : string)
  | OpAbort (id : string).

Definition apply_op (h : ControlHandler) (op : HandlerOp) : ControlHandler :=
  match op with
  | OpReserve id reason restart => (reserve h id reason restart).1
  | OpCommit id => CommitShutdown h id
  | OpAbort id => AbortShutdown h id
  end.

(** The handler after any interleaving of critical sections. *)
Inductive reachable : list HandlerOp -> ControlHandler -> Prop :=
  | reach_new : reachable [] NewControlHandler
  | reach_step ops h op : reachable ops h -> reachable (ops ++ [op]) (apply_op h op).

(** A validated request has a non-empty ID. *)
Definition named (op : HandlerOp) : Prop := match op with OpReserve id _ _ => id <> "" | _ => True end.

Lemma validated_named r : Request_Validate r = None -> rq_RequestID r <> "".
Proof. unfold Request_Validate. intros Hv He. rewrite He in Hv. by destruct (negb (rq_SchemaVersion r =? SchemaVersion)). Qed.

(** What holds of a handler: either nothing is committed and no signal was sent,
    or exactly the reserved request was. *)
Definition handler_ok (ops : list HandlerOp) (h : ControlHandler) : Prop :=
  ch_shuttingDown h = ch_committed h /\
  (ch_pendingRequestID h <> "" -> OpReserve (ch_pendingRequestID h) (ch_pendingReason h) (ch_pendingRestart h) ∈ ops) /\
  if ch_committed h
  then ch_pendingRequestID h <> "" /\ OpCommit (ch_pendingRequestID h) ∈ ops /\
       ch_shutdown h = [mkShutdownSignal (ch_pendingRequestID h) (ch_pendingReason h) (ch_pendingRestart h)]
  else ch_shutdown h = [].

Lemma reachable_ok ops h : reachable ops h -> Forall named ops -> handler_ok ops h.
Proof.
  induction 1 as [|ops h op Hreach IH]; [done|]. intros [Hn Hop]%Forall_app. apply Forall_singleton in Hop.
  destruct (IH Hn) as (Hdown & Hres & Hcom). clear IH.
  assert (Hkeep : handler_ok (ops ++ [op]) h).
  { split_and!; [done|set_solver|]. destruct (ch_committed h); [|done]. destruct Hcom as (H1 & H2 & H3). split_and!; [done|set_solver|done]. }
  destruct op as [id reason restart|id|id]; simpl.
  - unfold reserve. destruct (_ && _) eqn:Hb; [done|]. destruct (String.eqb_spec (ch_pendingRequestID h) "") as [He|He]; [|done].
    simpl. split_and!; simpl; [done|set_solver|]. destruct (ch_committed h); [|done]. by destruct Hcom.
  - unfold CommitShutdown. destruct (String.eqb_spec id "") as [|Hid]; [done|].
    destruct (String.eqb_spec id (ch_pendingRequestID h)) as [->|]; [|done]. destruct (ch_committed h) eqn:Hc; [done|]. simpl.
    split_and!; simpl; [done|set_solver|]. split_and!; [done|set_solver|by rewrite Hcom].
  - unfold AbortShutdown. destruct (String.eqb_spec id "") as [|Hid]; [done|].
    destruct (String.eqb_spec id (ch_pendingRequestID h)) as [->|]; [|done]. destruct (ch_committed h) eqn:Hc; [done|]. simpl.
    by split_and!.
Qed.

Lemma committed_final ops h op : handler_ok ops h -> ch_committed h = true -> apply_op h op = h.
Proof.
  intros (_ & _ & Hcom) Hc. rewrite Hc in Hcom. destruct Hcom as (Hne & _). destruct op as [id reason restart|id|id]; simpl.
  - unfold reserve. destruct (_ && _) eqn:Hb; [done|]. by destruct (String.eqb_spec (ch_pendingRequestID h) "").
  - unfold CommitShutdown. rewrite Hc. by rewrite orb_true_r.
  - unfold AbortShutdown. rewrite Hc. by rewrite orb_true_r.
Qed.

(** A shutdown is committed at most once, as reserved, and irrevocably.
    After any interleaving of reservations, commits and aborts of validated
    requests: the drain has begun exactly if a reservation was committed; the
    channel then holds exactly one signal, with the ID, reason and restart flag
    of a reservation that was made and with a commit for that ID; before that it
    is empty; and once committed, no further operation changes the handler. *)
Theorem shutdown_signal_unique ops h :
  reachable ops h -> Forall named ops ->
  ch_shuttingDown h = ch_committed h /\
  (ch_committed h = false -> ch_shutdown h = []) /\
  (ch_committed h = true -> exists id reason restart,
     ch_shutdown h = [mkShutdownSignal id reason restart] /\ OpReserve id reason restart ∈ ops /\ OpCommit id ∈ ops /\
     forall op, apply_op h op = h).
Proof.
  intros Hr Hn. pose proof (reachable_ok ops h Hr Hn) as Hok. pose proof Hok as (Hdown & Hres & Hcom). split; [done|]. split.
  - intros Hc. by rewrite Hc in Hcom.
  - intros Hc. rewrite Hc in Hcom. destruct Hcom as (Hne & Hin & Hs).
    exists (ch_pendingRequestID h), (ch_pendingReason h), (ch_pendingRestart h). split_and!; [done|auto|done|].
    intros op. by eapply committed_final.
Qed.

(** ** Retried requests *)

(** The answer a reservation leads to. *)
Definition answer (reserved : bool) (id : string) (st : Status) (sr : ShutdownRequest) : Response :=
  (run_with (fun _ c => match c return resp c with Reserve _ _ _ => reserved | c => world_oracle gaming [] c end) []
     (handle_shutdown id st sr)).2.

Definition restart_request (restart : bool) : ShutdownRequest := mkShutdownRequest "update" 7 "v1" 0 0 0 restart.
Definition idle_status : Status := mkStatus PhaseReady 7 "v1" 0 0 0 false "".

(** A repeated request ID can be answered as a restart that will not happen.
    A first request with an ID reserves a shutdown without restart; a second one
    with the same ID that asks for a restart is accepted and answered with the
    restart's request ID, yet the committed signal does not restart. *)
Theorem repeated_request_claims_restart :
  let first := reserve NewControlHandler "r1" "update" false in
  let second := reserve first.1 "r1" "update" true in
  second.2 = true /\
  (sta_RestartRequestID <$> rs_Status (answer second.2 "r1" idle_status (restart_request true))) = Some "r1" /\
  ch_shutdown (CommitShutdown second.1 "r1") = [mkShutdownSignal "r1" "update" false].
Proof. by vm_compute. Qed.

(** ** Concrete instances *)

Definition stop_env : HandlerEnv := mkHandlerEnv (en_config sample_env) "v1" 7 true.

(** One busy worker on a disabled, draining host. *)
Definition stop_world : World :=
  mkWorld ModeDisabled (Ok (let o := quiet_checkpoint in {| o with os_Phase := PhaseDraining |})) [sample_worker "w1" "org" WorkerBusy] 0.

Definition stop_request : Request :=
  mkRequest 1 "r1" OperationForceStopExecute None (Some [force_stop_target (sample_worker "w1" "org" WorkerBusy)]).

Definition stop_trace : list event := (run_with (world_oracle stop_world) [] (Handle stop_env stop_request)).1.

Lemma force_stop_confirmed_witness :
  stop_trace !! 7%nat = Some (Ev (ForceStop "w1") None) /\ stop_justified stop_env stop_request (take 7 stop_trace) "w1".
Proof.
  assert (Hn : stop_trace !! 7%nat = Some (Ev (ForceStop "w1") None)) by (vm_compute; reflexivity).
  split; [exact Hn|].
  exact (force_stop_confirmed stop_env stop_request stop_trace _ (take 7 stop_trace) "w1" None (drop 8 stop_trace)
           (run_with_runs (world_oracle stop_world) [] (Handle stop_env stop_request)) (eq_sym (take_drop_middle _ _ _ Hn))).
Defined.

Lemma shutdown_signal_unique_witness :
  let ops := [OpReserve "a" "update" true; OpReserve "b" "stop" false; OpAbort "b"; OpCommit "a"] in
  let h := foldl apply_op NewControlHandler ops in
  ch_committed h = true /\ exists id reason restart,
    ch_shutdown h = [mkShutdownSignal id reason restart] /\ OpReserve id reason restart ∈ ops /\ OpCommit id ∈ ops /\
    forall op, apply_op h op = h.
Proof.
  intros ops h. split; [vm_compute; reflexivity|].
  refine (proj2 (proj2 (shutdown_signal_unique ops h _ _)) _).
  - apply (reach_step [_; _; _]), (reach_step [_; _]), (reach_step [_]), (reach_step []), reach_new.
  - repeat constructor; done.
  - vm_compute; reflexivity.
Defined.
