(* ===== verification/FileSystem.v ===== *)
(** The operating system as the durable writers see it: a directory of names
    bound to files, calls that may fail, and what a crash can bring back.

    A program is a tree of calls; [fexec] runs it on a disk and collects every
    disk it passes through, so a property of all of them holds wherever the
    machine stops.  The platform is a parameter: [write_through] platforms
    (Windows, [MOVEFILE_WRITE_THROUGH]) make a replacement durable by itself
    and flush no directories; the others need the directory flushed. *)

From S2P Require Import Prelude GoStrings Regexp GoText.
From Stdlib Require Import Ascii.

Abbreviation inode := N (only parsing).

(** ** Errors *)

Inductive sentinel := ErrNotFound | ErrCorruptObserved | errLoadContent | ErrJobRecordNotFound | ErrJobRecordConflict.

#[export] Instance sentinel_eq_dec : EqDecision sentinel.
Proof. solve_decision. Defined.

(** [OSError] is a failure of the operating system or of the context,
    [Labeled] is [fmt.Errorf] of a text and [%w], [Chain] is several wrapped
    errors, by [%w: %w] or [errors.Join]. *)
Inductive fserror :=
  | OSError (notExist exist : bool) (text : string)
  | Sentinel (s : sentinel)
  | Message (text : string)
  | Labeled (label : string) (cause : fserror)
  | Chain (causes : list fserror).

(** [errors.Is] for the sentinels. *)
Fixpoint Is (e : fserror) (s : sentinel) : bool :=
  match e with
  | Sentinel s' => bool_decide (s = s')
  | Labeled _ c => Is c s
  | Chain l => existsb (fun c => Is c s) l
  | OSError _ _ _ | Message _ => false
  end.

(** [errors.Is] for [os.ErrNotExist] and [os.ErrExist]. *)
Fixpoint IsNotExist (e : fserror) : bool :=
  match e with
  | OSError b _ _ => b
  | Labeled _ c => IsNotExist c
  | Chain l => existsb IsNotExist l
  | _ => false
  end.
Fixpoint IsExist (e : fserror) : bool :=
  match e with
  | OSError _ b _ => b
  | Labeled _ c => IsExist c
  | Chain l => existsb IsExist l
  | _ => false
  end.

(** ** Calls *)

Inductive fcall :=
  | CtxErr
  | LockState
  | UnlockState
  | MkdirAll (directory : string)
  | Harden (path : string)
  | CreateTemp (directory pattern : string)
  | Chmod (f : inode) (mode : Z)
  | WriteFile (f : inode) (contents : string)
  | SyncFile (f : inode)
  | CloseFile (f : inode)
  | Rename (source target : string)
  | SyncDir (directory : string)
  | Remove (path : string)
  | OpenFile (path : string)
  | ReadLimited (f : inode) (limit : Z)
  | StatFile (path : string)
  | Lstat (path : string)
  | VerifyACL (path : string)
  | LinkFile (source target : string)
  | TimeNow.

(** The answer of a call; [TimeNow] is the formatted stamp, [Lstat] says whether
    the file is regular and how large it is. *)
Definition fresp (c : fcall) : Type :=
  match c with
  | CreateTemp _ _ => result fserror (inode * string)
  | OpenFile _ => result fserror inode
  | ReadLimited _ _ => result fserror string
  | Lstat _ => result fserror (bool * Z)
  | TimeNow => string
  | _ => option fserror
  end.

(** ** The disk *)

(** [d_dir] binds paths to files; [d_old] are the bindings that are not yet
    flushed over, any of which a crash may bring back.  A file is its contents
    and whether they are flushed. *)
Record Disk := mkDisk {
  d_dir : gmap string inode;
  d_old : list (gmap string inode);
  d_data : gmap inode (string * bool);
}.

(** The choices the platform makes in one call; a failure it injects is neither
    a missing nor an existing file, which the calls report themselves. *)
Record choice := mkChoice {
  ch_fault : option string;
  ch_random : Z;
  ch_garbage : string;
  ch_stamp : string;
}.

Definition ch_error (o : choice) : option fserror :=
  match ch_fault o with Some text => Some (OSError false false text) | None => None end.

Class Platform := { write_through : bool; Separator : ascii }.

Definition set_dir (dir : gmap string inode) (d : Disk) : Disk :=
  mkDisk dir (d_dir d :: d_old d) (d_data d).
Definition flush_dir (d : Disk) : Disk := mkDisk (d_dir d) [] (d_data d).
Definition set_data (f : inode) (c : string * bool) (d : Disk) : Disk :=
  mkDisk (d_dir d) (d_old d) (<[f := c]> (d_data d)).

Definition file_data (f : inode) (d : Disk) : string := match d_data d !! f with Some (c, _) => c | None => "" end.

(** [os.CreateTemp]: the last [*] of the pattern becomes a random number. *)
Fixpoint cut_last_star (s : string) : option (string * string) :=
  match s with
  | EmptyString => None
  | String a rest =>
      match cut_last_star rest with
      | Some (p, q) => Some (String a p, q)
      | None => if Ascii.eqb a "*" then Some ("", rest) else None
      end
  end.

Section Semantics.
Context `{Platform}.

Definition temp_path (directory pattern : string) (random : Z) : string :=
  let '(prefix, suffix) := match cut_last_star pattern with Some pq => pq | None => (pattern, "") end in
  let name := prefix +:+ Itoa random +:+ suffix in
  if HasSuffix directory (String Separator "") then directory +:+ name else directory +:+ String Separator name.

Definition ErrExist : fserror := OSError false true "file exists".
Definition ErrNotExist : fserror := OSError true false "file does not exist".

(** A call without an effect on the disk: it succeeds or fails. *)
Definition plain (o : choice) (d : Disk) : option fserror * Disk := (ch_error o, d).

(** A call whose effect is a function of the disk. *)
Definition effect (o : choice) (f : Disk -> Disk) (d : Disk) : option fserror * Disk :=
  match ch_error o with Some e => (Some e, d) | None => (None, f d) end.

Definition create_temp (o : choice) (directory pattern : string) (d : Disk) : result fserror (inode * string) * Disk :=
  match ch_error o with
  | Some e => (Err e, d)
  | None =>
      let path := temp_path directory pattern (ch_random o) in
      let f := fresh (dom (d_data d)) in
      match d_dir d !! path with
      | Some _ => (Err ErrExist, d)
      | None => (Ok (f, path), set_dir (<[path := f]> (d_dir d)) (set_data f ("", false) d))
      end
  end.

Definition rename (o : choice) (source target : string) (d : Disk) : option fserror * Disk :=
  match ch_error o with
  | Some e => (Some e, d)
  | None =>
      match d_dir d !! source with
      | None => (Some ErrNotExist, d)
      | Some f =>
          let d := set_dir (<[target := f]> (delete source (d_dir d))) d in
          (None, if write_through then flush_dir d else d)
      end
  end.

Definition link_file (o : choice) (source target : string) (d : Disk) : option fserror * Disk :=
  match ch_error o with
  | Some e => (Some e, d)
  | None =>
      match d_dir d !! source, d_dir d !! target with
      | None, _ => (Some ErrNotExist, d)
      | Some _, Some _ => (Some ErrExist, d)
      | Some f, None => (None, set_dir (<[target := f]> (d_dir d)) d)
      end
  end.

Definition present (o : choice) (path : string) (d : Disk) : option fserror :=
  match ch_error o with
  | Some e => Some e
  | None => match d_dir d !! path with Some _ => None | None => Some ErrNotExist end
  end.

Definition open_file (o : choice) (path : string) (d : Disk) : result fserror inode :=
  match ch_error o with
  | Some e => Err e
  | None => match d_dir d !! path with Some f => Ok f | None => Err ErrNotExist end
  end.

(** One call, under the platform's choices. *)
Definition perform (o : choice) (c : fcall) (d : Disk) : fresp c * Disk :=
  match c return fresp c * Disk with
  | CtxErr | LockState | UnlockState | MkdirAll _ | Harden _ | VerifyACL _ | Chmod _ _ | CloseFile _ => plain o d
  | CreateTemp directory pattern => create_temp o directory pattern d
  | WriteFile f contents =>
      match ch_error o with
      | Some e => (Some e, set_data f (ch_garbage o, false) d)
      | None => (None, set_data f (file_data f d +:+ contents, false) d)
      end
  | SyncFile f => effect o (fun d => set_data f (file_data f d, true) d) d
  | Rename source target => rename o source target d
  | SyncDir _ => effect o flush_dir d
  | Remove path => effect o (fun d => set_dir (delete path (d_dir d)) d) d
  | OpenFile path => (open_file o path d, d)
  | ReadLimited f limit =>
      (match ch_error o with Some e => Err e | None => Ok (String.substring 0 (Z.to_nat limit) (file_data f d)) end, d)
  | StatFile path => (present o path d, d)
  | Lstat path =>
      (match open_file o path d with Err e => Err e | Ok f => Ok (true, Z.of_nat (String.length (file_data f d))) end, d)
  | LinkFile source target => link_file o source target d
  | TimeNow => (ch_stamp o, d)
  end.

(** A crash brings back one of the unflushed directories, and contents that
    were not flushed are anything. *)
Definition crash (d d' : Disk) : Prop :=
  d_dir d' ∈ d_dir d :: d_old d /\ d_old d' = [] /\ dom (d_data d') = dom (d_data d)
  /\ (forall f c, d_data d !! f = Some (c, true) -> d_data d' !! f = Some (c, true)).

(** ** Programs *)

Inductive fprog (A : Type) : Type :=
  | FRet (a : A)
  | FAsk (c : fcall) (k : fresp c -> fprog A).
Arguments FRet {A} a.
Arguments FAsk {A} c k.

Fixpoint fbind {A B} (p : fprog A) (f : A -> fprog B) : fprog B :=
  match p with
  | FRet a => f a
  | FAsk c k => FAsk c (fun r => fbind (k r) f)
  end.

Definition fask (c : fcall) : fprog (fresp c) := FAsk c FRet.

(** One run: the disks after each call, the last disk and the value. *)
Inductive fexec {A} : fprog A -> Disk -> list Disk -> Disk -> A -> Prop :=
  | fexec_ret a d : fexec (FRet a) d [] d a
  | fexec_ask c k d o r d1 tr d2 a :
      perform o c d = (r, d1) -> fexec (k r) d1 tr d2 a -> fexec (FAsk c k) d (d1 :: tr) d2 a.

(** The same as a function of the platform's choices; a script that ends
    early is continued by its last choice. *)
Fixpoint frun {A} (p : fprog A) (o : nat -> choice) (d : Disk) : list Disk * Disk * A :=
  match p with
  | FRet a => ([], d, a)
  | FAsk c k =>
      let '(r, d1) := perform (o 0%nat) c d in
      let '(tr, d2, a) := frun (k r) (fun n => o (S n)) d1 in
      (d1 :: tr, d2, a)
  end.

(** Every call preserves [I] and the last disk and value satisfy [Q]. *)
Fixpoint fwp {A} (I : Disk -> Prop) (p : fprog A) (Q : Disk -> A -> Prop) (d : Disk) : Prop :=
  match p with
  | FRet a => Q d a
  | FAsk c k => forall o, let '(r, d1) := perform o c d in I d1 /\ fwp I (k r) Q d1
  end.

Lemma frun_fexec {A} (p : fprog A) o d tr d' a : frun p o d = (tr, d', a) -> fexec p d tr d' a.
Proof.
  revert o d tr d' a. induction p as [a0|c k IH]; intros o d tr d' a; simpl.
  - intros [= <- <- <-]. constructor.
  - destruct (perform (o 0%nat) c d) as [r d1] eqn:Hp. destruct (frun (k r) _ d1) as [[tr1 d2] b] eqn:Hr.
    intros [= <- <- <-]. econstructor; [exact Hp|]. by eapply IH.
Qed.

(** Every program returns, under every choice of the platform. *)
Lemma fexec_total {A} (p : fprog A) (o : nat -> choice) d : exists tr d' a, fexec p d tr d' a.
Proof. destruct (frun p o d) as [[tr d'] a] eqn:Hr. exists tr, d', a. by eapply frun_fexec. Qed.

Lemma fwp_fexec {A} I (p : fprog A) Q d tr d' a : fwp I p Q d -> fexec p d tr d' a -> Forall I tr /\ Q d' a.
Proof.
  intros Hwp Hex. induction Hex as [|c k d o r d1 tr d2 a Hp Hex IH]; [by split; [constructor|]|].
  simpl in Hwp. specialize (Hwp o). rewrite Hp in Hwp. destruct Hwp as [Hi Hk]. destruct (IH Hk) as [Hall Hq].
  split; [by constructor|done].
Qed.

Lemma fwp_bind {A B} I (p : fprog A) (f : A -> fprog B) Q d :
  fwp I p (fun d a => fwp I (f a) Q d) d -> fwp I (fbind p f) Q d.
Proof.
  revert d. induction p as [a|c k IH]; intros d; simpl; [done|]. intros Hp o. specialize (Hp o).
  destruct (perform o c d) as [r d1]. destruct Hp. split; [done|]. by apply IH.
Qed.

Lemma fwp_mono {A} I (p : fprog A) (Q Q' : Disk -> A -> Prop) d :
  fwp I p Q d -> (forall d a, Q d a -> Q' d a) -> fwp I p Q' d.
Proof.
  intros Hp Hq. revert d Hp. induction p as [a|c k IH]; intros d; simpl; [apply Hq|]. intros Hp o. specialize (Hp o).
  destruct (perform o c d) as [r d1]. destruct Hp. split; [done|]. by apply IH.
Qed.

Lemma fwp_weaken_inv {A} (I J : Disk -> Prop) (p : fprog A) Q d :
  (forall d, I d -> J d) -> fwp I p Q d -> fwp J p Q d.
Proof.
  intros Hij. revert d. induction p as [a|c k IH]; intros d; simpl; [done|]. intros Hp o. specialize (Hp o).
  destruct (perform o c d) as [r d1]. destruct Hp. split; [auto|]. by apply IH.
Qed.
End Semantics.

Arguments FRet {A} a.
Arguments FAsk {A} c k.

Declare Scope fs_scope.
Delimit Scope fs_scope with fs.
Notation "'let+' x ':=' p 'in' k" := (fbind p (fun x => k))
  (at level 10, x pattern, p at level 100, k at level 200) : fs_scope.
