(* ===== verification/Store.v ===== *)
(** The durable state files (internal/state/fs: durable.go, store.go, the
    platform's replace and directory flush; internal/state/store.go: the
    in-memory store).

    The lock, the ACL pass and the JSON codec belong to others: the first two
    are calls, the codec is a class.  File modes and the texts of paths in
    messages are not modelled beyond the calls that carry them. *)

From S2P Require Import Prelude Float64 GoStrings Model Regexp GoText Validate FileSystem.
From Stdlib Require Import Ascii.
Open Scope fs_scope.

Section Durable.
Context `{Platform}.

(** [atomicReplace] and [syncDirectory] of the platform. *)
Definition atomicReplace (source target : string) : fprog (option fserror) := fask (Rename source target).
Definition syncDirectory (path : string) : fprog (option fserror) :=
  if write_through then FRet None else fask (SyncDir path).

(** ** DurableWrite *)

Record DurableWriteLabels := mkLabels {
  lb_CreateTemporary : string;
  lb_SetMode : string;
  lb_Write : string;
  lb_Flush : string;
  lb_Close : string;
  lb_Replace : string;
  lb_FlushDirectory : string;
}.

(** A nil hook is [None]. *)
Record DurableWrite := mkDurableWrite {
  dw_Directory : string;
  dw_Target : string;
  dw_TemporaryPattern : string;
  dw_Mode : Z;
  dw_HardenBeforeWrite : option (string -> fprog (option fserror));
  dw_HardenBeforeReplace : option (string -> fprog (option fserror));
  dw_HardenAfterReplace : option (string -> fprog (option fserror));
  dw_BeforeReplace : option (fprog (option fserror));
  dw_AfterReplace : option (fprog (option fserror));
  dw_OnCommitFailure : option (string -> fprog ());
  dw_SkipDirectorySync : bool;
  dw_Labels : DurableWriteLabels;
}.

Record DurableWriter := mkDurableWriter {
  wr_plan : DurableWrite;
  wr_file : N;
  wr_temporaryPath : string;
  wr_committed : bool;
}.

Definition labelError (label : string) (err : fserror) : fserror :=
  if String.eqb label "" then err else Labeled label err.

(** Continues unless the call failed. *)
Definition unless_failed {A} (r : option fserror) (failed : fserror -> fprog A) (next : fprog A) : fprog A :=
  match r with Some e => failed e | None => next end.

(** A hook that is nil is skipped. *)
Definition run_hook (hook : option (fprog (option fserror))) : fprog (option fserror) :=
  match hook with Some p => p | None => FRet None end.
Definition run_path_hook (hook : option (string -> fprog (option fserror))) (path : string) : fprog (option fserror) :=
  match hook with Some p => p path | None => FRet None end.

Definition Discard (w : DurableWriter) : fprog () :=
  let+ _ := fask (CloseFile (wr_file w)) in
  if wr_committed w then FRet ()
  else let+ _ := fask (Remove (wr_temporaryPath w)) in FRet ().

Definition Begin (plan : DurableWrite) : fprog (result fserror DurableWriter) :=
  let+ created := fask (CreateTemp (dw_Directory plan) (dw_TemporaryPattern plan)) in
  match created with
  | Err e => FRet (Err (labelError (lb_CreateTemporary (dw_Labels plan)) e))
  | Ok (file, path) =>
      let writer := mkDurableWriter plan file path false in
      let+ mode := fask (Chmod file (dw_Mode plan)) in
      unless_failed mode
        (fun e => let+ _ := Discard writer in FRet (Err (labelError (lb_SetMode (dw_Labels plan)) e)))
        (let+ hardened := run_path_hook (dw_HardenBeforeWrite plan) path in
         unless_failed hardened (fun e => let+ _ := Discard writer in FRet (Err e)) (FRet (Ok writer)))
  end.

Definition withdraw (w : DurableWriter) (err : fserror) : fprog (option fserror) :=
  match dw_OnCommitFailure (wr_plan w) with
  | Some f => let+ _ := f (dw_Target (wr_plan w)) in FRet (Some err)
  | None => FRet (Some err)
  end.

Definition committed (w : DurableWriter) : DurableWriter :=
  mkDurableWriter (wr_plan w) (wr_file w) (wr_temporaryPath w) true.

(** [Commit]: the writer afterwards and the error. *)
Definition Commit (w : DurableWriter) : fprog (DurableWriter * option fserror) :=
  let plan := wr_plan w in
  let failed e := FRet (w, Some e) in
  let+ r := fask (SyncFile (wr_file w)) in
  unless_failed r (fun e => failed (labelError (lb_Flush (dw_Labels plan)) e)) (
  let+ r := fask (CloseFile (wr_file w)) in
  unless_failed r (fun e => failed (labelError (lb_Close (dw_Labels plan)) e)) (
  let+ r := run_path_hook (dw_HardenBeforeReplace plan) (wr_temporaryPath w) in
  unless_failed r failed (
  let+ r := run_hook (dw_BeforeReplace plan) in
  unless_failed r failed (
  let+ r := atomicReplace (wr_temporaryPath w) (dw_Target plan) in
  unless_failed r (fun e => failed (labelError (lb_Replace (dw_Labels plan)) e)) (
  let w := committed w in
  let withdrawn e := let+ err := withdraw w e in FRet (w, err) in
  let+ r := run_hook (dw_AfterReplace plan) in
  unless_failed r withdrawn (
  let+ r := run_path_hook (dw_HardenAfterReplace plan) (dw_Target plan) in
  unless_failed r withdrawn (
  if dw_SkipDirectorySync plan then FRet (w, None)
  else
    let+ r := syncDirectory (dw_Directory plan) in
    unless_failed r (fun e => withdrawn (labelError (lb_FlushDirectory (dw_Labels plan)) e)) (FRet (w, None))))))))).

(** [WriteBytes]: the deferred [Discard] runs last on every path. *)
Definition WriteBytes (plan : DurableWrite) (contents : string) : fprog (option fserror) :=
  let+ begun := Begin plan in
  match begun with
  | Err e => FRet (Some e)
  | Ok writer =>
      let+ r := fask (WriteFile (wr_file writer) contents) in
      unless_failed r
        (fun e => let+ _ := Discard writer in FRet (Some (labelError (lb_Write (dw_Labels plan)) e)))
        (let+ (writer, err) := Commit writer in
         let+ _ := Discard writer in
         FRet err)
  end.
End Durable.

(** ** The store *)

Definition desiredFilename : string := "desired.json".
Definition observedFilename : string := "observed.json".
Definition restartFilename : string := "restart-completed.json".
Definition maximumStateSize : Z := 8 * 2 ^ 20.

Inductive unknownFieldPolicy := rejectUnknownFields | ignoreUnknownFields.

(** What the decoder finds after the first value. *)
Inductive JSONTrailer :=
  | JSONEnd
  | JSONValue
  | JSONError (e : fserror).

(** [encoding/json] for one type of document. *)
Class JSON (T : Type) := {
  MarshalIndent : T -> result fserror string;
  DecodeFirst : unknownFieldPolicy -> string -> result fserror T;
  DecodeTrailer : unknownFieldPolicy -> string -> JSONTrailer;
}.

Record Store := mkStore { sr_directory : string }.

Section StoreOps.
Context `{Platform, FilePath}.

(** [New]; the locker and the access controller are present. *)
Definition New (directory : string) (locker acl : bool) : result fserror Store :=
  if String.eqb directory "" then Err (Message "state directory is required")
  else if negb (IsAbs directory) then Err (Message "state directory must be absolute")
  else if negb locker || negb acl then Err (Message "state locker and access controller are required")
  else Ok (mkStore (Clean directory)).

(** [filepath.Join] of a directory and a name. *)
Definition filepath_Join (directory name : string) : string :=
  Clean (if String.eqb directory "" then name else directory +:+ String Separator name).

(** The deferred unlock: its failure joins the result. *)
Definition unlocked {A} (join : A -> fserror -> A) (body : fprog A) : fprog A :=
  let+ value := body in
  let+ r := fask UnlockState in
  unless_failed r (fun e => FRet (join value (Labeled "unlock state" e))) (FRet value).

Definition join_error (r : option fserror) (e : fserror) : option fserror :=
  match r with Some e0 => Some (Chain [e0; e]) | None => Some e end.
Definition join_result {A} (r : result fserror A) (e : fserror) : result fserror A :=
  match r with Err e0 => Err (Chain [e0; e]) | Ok _ => Err e end.

Section Documents.
Context {T : Type} `{JSON T}.

(** [Store.load]: the decoded document. *)
Definition decode_contents (name : string) (unknown : unknownFieldPolicy) (contents : string) : result fserror T :=
  if maximumStateSize <? Z.of_nat (String.length contents)
  then Err (Chain [Sentinel errLoadContent; Message (name +:+ " exceeds the " +:+ Itoa maximumStateSize +:+ "-byte safety limit")])
  else match DecodeFirst unknown contents with
       | Err e => Err (Chain [Sentinel errLoadContent; Labeled ("decode " +:+ name) e])
       | Ok value =>
           match DecodeTrailer unknown contents with
           | JSONEnd => Ok value
           | JSONValue => Err (Chain [Sentinel errLoadContent; Message ("decode " +:+ name +:+ ": multiple JSON values are not allowed")])
           | JSONError e => Err (Chain [Sentinel errLoadContent; Labeled ("decode " +:+ name +:+ " trailer") e])
           end
       end.

Definition load (s : Store) (name : string) (unknown : unknownFieldPolicy) : fprog (result fserror T) :=
  let+ canceled := fask CtxErr in
  unless_failed canceled (fun e => FRet (Err e)) (
  let+ locked := fask LockState in
  unless_failed locked (fun e => FRet (Err (Labeled "lock state" e))) (
  unlocked join_result (
  let+ opened := fask (OpenFile (filepath_Join (sr_directory s) name)) in
  match opened with
  | Err e => FRet (Err (if IsNotExist e then Sentinel ErrNotFound else Labeled ("open " +:+ name) e))
  | Ok file =>
      let+ contents := fask (ReadLimited file (maximumStateSize + 1)) in
      let outcome := match contents with
                     | Err e => Err (Labeled ("read " +:+ name) e)
                     | Ok contents => decode_contents name unknown contents
                     end in
      let+ closed := fask (CloseFile file) in
      FRet (match closed with Some e => join_result outcome (Labeled ("close " +:+ name) e) | None => outcome end)
  end))).

Definition harden (label path : string) : fprog (option fserror) :=
  let+ r := fask (Harden path) in
  FRet (match r with Some e => Some (Labeled label e) | None => None end).

(** The plan [Store.save] hands to [DurableWrite]. *)
Definition save_plan (s : Store) (name : string) : DurableWrite := {|
  dw_Directory := sr_directory s;
  dw_Target := filepath_Join (sr_directory s) name;
  dw_TemporaryPattern := "." +:+ name +:+ "-*";
  dw_Mode := 384;
  dw_HardenBeforeWrite := None;
  dw_HardenBeforeReplace := Some (harden ("secure temporary " +:+ name));
  dw_HardenAfterReplace := Some (harden ("verify " +:+ name +:+ " ACL"));
  dw_BeforeReplace := None; dw_AfterReplace := None; dw_OnCommitFailure := None; dw_SkipDirectorySync := false;
  dw_Labels := {|
    lb_CreateTemporary := "create temporary " +:+ name;
    lb_SetMode := "set temporary " +:+ name +:+ " permissions";
    lb_Write := "write temporary " +:+ name;
    lb_Flush := "flush temporary " +:+ name;
    lb_Close := "close temporary " +:+ name;
    lb_Replace := "replace " +:+ name +:+ " atomically";
    lb_FlushDirectory := "flush state directory" |} |}.

Definition save (s : Store) (name : string) (value : T) : fprog (option fserror) :=
  let+ canceled := fask CtxErr in
  unless_failed canceled (fun e => FRet (Some e)) (
  let+ locked := fask LockState in
  unless_failed locked (fun e => FRet (Some (Labeled "lock state" e))) (
  unlocked join_error (
  let+ made := fask (MkdirAll (sr_directory s)) in
  unless_failed made (fun e => FRet (Some (Labeled "create state directory" e))) (
  let+ secured := fask (Harden (sr_directory s)) in
  unless_failed secured (fun e => FRet (Some (Labeled "secure state directory" e))) (
  match MarshalIndent value with
  | Err e => FRet (Some (Labeled ("encode " +:+ name) e))
  | Ok encoded => WriteBytes (save_plan s name) (encoded +:+ newline)
  end))))).
End Documents.

(** ** Validation *)

Definition text_error (r : bool) (message : string) (next : option string) : option string :=
  if r then Some message else next.

Definition unsupported_schema (v : Z) : string := "unsupported schemaVersion " +:+ Itoa v.

Definition validateDesired (value : DesiredState) : option string :=
  text_error (negb (ds_SchemaVersion value =? 1)) (unsupported_schema (ds_SchemaVersion value)) (
  text_error (negb (Mode_Valid (ds_Mode value))) ("unsupported mode " +:+ Quote (Mode_string (ds_Mode value))) (
  text_error (match ds_TemporaryCapacityOverride value with Some n => n <? 0 | None => false end)
             "temporaryCapacityOverride must not be negative" (
  text_error (IsZero (ds_UpdatedAt value)) "updatedAt is required" None))).

Definition validPhase (p : Phase) : bool := match p with PhaseOther _ => false | _ => true end.

Definition supported_worker_state (s : WorkerState) : bool := match s with WorkerStateOther _ => false | _ => true end.

Fixpoint validate_workers (seen : gset string) (workers : list Worker) : option string :=
  match workers with
  | [] => None
  | w :: rest =>
      text_error (String.eqb (w_ID w) "" || String.eqb (w_PoolID w) "") "workers require id and poolId" (
      text_error (bool_decide (w_ID w ∈ seen)) ("duplicate worker ID " +:+ Quote (w_ID w)) (
      text_error (negb (supported_worker_state (w_State w)))
                 ("worker " +:+ Quote (w_ID w) +:+ " has unsupported state " +:+ Quote (WorkerState_string (w_State w))) (
      validate_workers ({[w_ID w]} ∪ seen) rest)))
  end.

Fixpoint validate_pools (seen : gset string) (pools : list PoolObservation) : option string :=
  match pools with
  | [] => None
  | p :: rest =>
      text_error (String.eqb (po_ID p) "") "pools require id" (
      text_error (bool_decide (po_ID p ∈ seen)) ("duplicate pool ID " +:+ Quote (po_ID p)) (
      text_error ((po_TotalAssignedJobs p <? 0) || (po_MaxCapacity p <? 0) || (po_DrainServiceCapacity p <? 0) || (po_DesiredWorkers p <? 0))
                 ("pool " +:+ Quote (po_ID p) +:+ " contains a negative count") (
      validate_pools ({[po_ID p]} ∪ seen) rest)))
  end.

Definition validateObserved (value : ObservedState) : option string :=
  text_error (negb (os_SchemaVersion value =? 1)) (unsupported_schema (os_SchemaVersion value)) (
  text_error (negb (validPhase (os_Phase value))) ("unsupported phase " +:+ Quote (Phase_string (os_Phase value))) (
  text_error (IsZero (os_HeartbeatAt value)) "heartbeatAt is required" (
  match validate_workers ∅ (os_Workers value) with
  | Some e => Some e
  | None => validate_pools ∅ (os_Pools value)
  end))).

Definition restartRequestIDPattern : regexp := Concat (CharClass alnum) (up_to 127 (CharClass name_class)).

Definition validateRestartReceipt (value : RestartReceipt) : option string :=
  text_error (negb (rr_SchemaVersion value =? 1)) (unsupported_schema (rr_SchemaVersion value)) (
  text_error (negb (MatchString restartRequestIDPattern (rr_RequestID value)))
             "requestId contains unsupported characters or is too long" (
  text_error (rr_ProcessID value =? 0) "pid is required" (
  text_error (blank (rr_Version value) || (128 <? Z.of_nat (String.length (rr_Version value))))
             "version is required and must be at most 128 characters" (
  text_error (IsZero (rr_CompletedAt value)) "completedAt is required" None)))).

(** ** The documents *)

(** Validation after a load. *)
Definition validated {T} (label : string) (validate : T -> option string) (wrap : fserror -> fserror) (r : result fserror T)
    : result fserror T :=
  match r with
  | Err e => Err e
  | Ok value => match validate value with Some e => Err (wrap (Labeled label (Message e))) | None => Ok value end
  end.

Definition saved {T} (label : string) (validate : T -> option string) (value : T) (save : fprog (option fserror)) : fprog (option fserror) :=
  match validate value with Some e => FRet (Some (Labeled label (Message e))) | None => save end.

Context `{!JSON DesiredState, !JSON ObservedState, !JSON RestartReceipt}.

Definition LoadDesired (s : Store) : fprog (result fserror DesiredState) :=
  let+ r := load s desiredFilename rejectUnknownFields in
  FRet (validated "invalid desired state" validateDesired (fun e => e) r).
Definition SaveDesired (s : Store) (value : DesiredState) : fprog (option fserror) :=
  saved "invalid desired state" validateDesired value (save s desiredFilename value).

Definition classifyObservedLoadErr (e : fserror) : fserror :=
  if Is e ErrNotFound then e
  else if Is e errLoadContent then Chain [Sentinel ErrCorruptObserved; e]
  else e.

Definition LoadObserved (s : Store) : fprog (result fserror ObservedState) :=
  let+ r := load s observedFilename ignoreUnknownFields in
  FRet (match r with
        | Err e => Err (classifyObservedLoadErr e)
        | Ok _ => validated "invalid observed state" validateObserved (fun e => Chain [Sentinel ErrCorruptObserved; e]) r
        end).
Definition SaveObserved (s : Store) (value : ObservedState) : fprog (option fserror) :=
  saved "invalid observed state" validateObserved value (save s observedFilename value).

Definition LoadRestartReceipt (s : Store) : fprog (result fserror RestartReceipt) :=
  let+ r := load s restartFilename rejectUnknownFields in
  FRet (validated "invalid restart receipt" validateRestartReceipt (fun e => e) r).
Definition SaveRestartReceipt (s : Store) (value : RestartReceipt) : fprog (option fserror) :=
  saved "invalid restart receipt" validateRestartReceipt value (save s restartFilename value).

(** The evidence name of one attempt. *)
Definition evidence_path (s : Store) (stamp : string) (attempt : Z) : string :=
  filepath_Join (sr_directory s) ("observed.corrupt-" +:+ stamp +:+ "-" +:+ Itoa attempt +:+ ".json").

(** The link loop: the evidence that was linked, or the error. *)
Fixpoint link_evidence (s : Store) (source stamp : string) (attempts : nat) (attempt : Z) : fprog (result fserror string) :=
  match attempts with
  | O => FRet (Err (Message "preserve corrupt observed state: unique evidence name exhausted"))
  | S attempts =>
      let evidence := evidence_path s stamp attempt in
      let+ r := fask (LinkFile source evidence) in
      match r with
      | None => FRet (Ok evidence)
      | Some e =>
          if IsExist e then link_evidence s source stamp attempts (attempt + 1)
          else FRet (Err (Labeled "preserve corrupt observed state" e))
      end
  end.

Definition QuarantineObserved (s : Store) : fprog (option fserror) :=
  let+ canceled := fask CtxErr in
  unless_failed canceled (fun e => FRet (Some e)) (
  let+ locked := fask LockState in
  unless_failed locked (fun e => FRet (Some (Labeled "lock state" e))) (
  unlocked join_error (
  let source := filepath_Join (sr_directory s) observedFilename in
  let+ present := fask (StatFile source) in
  unless_failed present (fun e => FRet (Some (Labeled "inspect corrupt observed state" e))) (
  let+ stamp := fask TimeNow in
  let+ linked := link_evidence s source stamp 100 0 in
  match linked with
  | Err e => FRet (Some e)
  | Ok evidence =>
      let+ r := fask (Harden evidence) in
      unless_failed r (fun e => FRet (Some (Labeled "secure corrupt observed evidence" e))) (
      let+ r := syncDirectory (sr_directory s) in
      unless_failed r (fun e => FRet (Some (Labeled "flush corrupt observed evidence" e))) (FRet None))
  end)))).
End StoreOps.

(** ** The in-memory store *)

(** [MemoryStore]; a [None] is the unset flag. Values are cloned on both sides,
    so no caller shares them with the store. *)
Record MemoryStore := mkMemoryStore {
  ms_desired : option DesiredState;
  ms_observed : option ObservedState;
}.

Definition NewMemoryStore : MemoryStore := mkMemoryStore None None.

Definition Memory_LoadDesired (ctx : option fserror) (s : MemoryStore) : result fserror DesiredState :=
  match ctx with
  | Some e => Err e
  | None => match ms_desired s with Some v => Ok v | None => Err (Sentinel ErrNotFound) end
  end.
Definition Memory_SaveDesired (ctx : option fserror) (v : DesiredState) (s : MemoryStore) : MemoryStore * option fserror :=
  match ctx with
  | Some e => (s, Some e)
  | None => (mkMemoryStore (Some v) (ms_observed s), None)
  end.
Definition Memory_LoadObserved (ctx : option fserror) (s : MemoryStore) : result fserror ObservedState :=
  match ctx with
  | Some e => Err e
  | None => match ms_observed s with Some v => Ok v | None => Err (Sentinel ErrNotFound) end
  end.
Definition Memory_SaveObserved (ctx : option fserror) (v : ObservedState) (s : MemoryStore) : MemoryStore * option fserror :=
  match ctx with
  | Some e => (s, Some e)
  | None => (mkMemoryStore (ms_desired s) (Some v), None)
  end.
