(* ===== verification/StoreFacts.v ===== *)
(** Durable replacement under faults and crashes, and the refinement of an
    atomic register by the state files. *)

From S2P Require Import Prelude Float64 GoStrings Model Regexp GoText Validate FileSystem Store.
From Stdlib Require Import Ascii.
Open Scope fs_scope.

(** ** What a disk holds at a path *)

(** The directories a crash may bring back. *)
Definition views (d : Disk) : list (gmap string N) := d_dir d :: d_old d.

(** The flushed text at a path of a directory; the outer [None] is a file whose
    contents are not flushed. *)
Definition image (d : Disk) (dir : gmap string N) (path : string) : option (option string) :=
  match dir !! path with
  | None => Some None
  | Some f => match d_data d !! f with Some (c, true) => Some (Some c) | _ => None end
  end.

(** After a crash at any moment the path holds a text of [S], or is absent if
    [S] allows it. *)
Definition holds (d : Disk) (path : string) (S : option string -> Prop) : Prop :=
  forall dir, dir ∈ views d -> exists v, image d dir path = Some v /\ S v.

(** Names are bound to existing files. *)
Definition wf (d : Disk) : Prop :=
  forall dir path f, dir ∈ views d -> dir !! path = Some f -> is_Some (d_data d !! f).

Lemma holds_mono d path (S S' : option string -> Prop) : (forall v, S v -> S' v) -> holds d path S -> holds d path S'.
Proof. intros Hs Hh dir Hin. destruct (Hh dir Hin) as (v & Hv & HS). eauto. Qed.

(** A crash leaves what the disk holds. *)
Lemma crash_holds d d' path S : crash d d' -> holds d path S -> holds d' path S.
Proof.
  intros (Hdir & Hold & _ & Hdata) Hh dir Hin. unfold views in Hin. rewrite Hold in Hin.
  apply list_elem_of_singleton in Hin as ->. destruct (Hh _ Hdir) as (v & Hv & HS). exists v. split; [|done].
  revert Hv. unfold image. destruct (d_dir d' !! path) as [f|]; [|done].
  destruct (d_data d !! f) as [[c []]|] eqn:Hf; try done. by rewrite (Hdata _ _ Hf).
Qed.

Lemma crash_wf d d' : crash d d' -> wf d -> wf d'.
Proof.
  intros (Hdir & Hold & Hdom & _) Hwf dir path f Hin Hf. unfold views in Hin. rewrite Hold in Hin.
  apply list_elem_of_singleton in Hin as ->. apply elem_of_dom. rewrite Hdom. apply elem_of_dom. by eapply Hwf.
Qed.

(** ** Effects of the calls on the held texts *)

Lemma image_set_data d f c dir path : dir !! path <> Some f -> image (set_data f c d) dir path = image d dir path.
Proof.
  intros Hne. unfold image. simpl. destruct (dir !! path) as [g|]; [|done]. rewrite lookup_insert_ne; [done|congruence].
Qed.

Lemma holds_set_data d f c path S :
  (forall dir, dir ∈ views d -> dir !! path <> Some f) -> holds d path S -> holds (set_data f c d) path S.
Proof.
  intros Hne Hh dir Hin. destruct (Hh dir Hin) as (v & Hv & HS). exists v. split; [|done].
  rewrite image_set_data; auto.
Qed.

Lemma holds_set_dir d dir path (S : option string -> Prop) v :
  holds d path S -> image d dir path = Some v -> S v -> holds (set_dir dir d) path S.
Proof. intros Hh Hv HS dir' [->|Hin]%elem_of_cons; [by exists v|]. by apply Hh. Qed.

Lemma holds_flush d path (S : option string -> Prop) v :
  image d (d_dir d) path = Some v -> S v -> holds (flush_dir d) path S.
Proof. intros Hv HS dir Hin. apply list_elem_of_singleton in Hin as ->. by exists v. Qed.

Lemma wf_set_data d f c : wf d -> wf (set_data f c d).
Proof.
  intros Hwf dir path g Hin Hg. simpl. destruct (decide (f = g)) as [->|]; [rewrite lookup_insert_eq; by eexists|].
  rewrite lookup_insert_ne by done. by eapply Hwf.
Qed.

Lemma wf_set_dir d dir :
  wf d -> (forall path f, dir !! path = Some f -> is_Some (d_data d !! f)) -> wf (set_dir dir d).
Proof. intros Hwf Hdir dir' path f [->|Hin]%elem_of_cons Hf; [by eapply Hdir|by eapply Hwf]. Qed.

Lemma wf_flush d : wf d -> wf (flush_dir d).
Proof. intros Hwf dir path f Hin Hf. apply list_elem_of_singleton in Hin as ->. eapply Hwf; [left|done]. Qed.

Section Durable.
Context {platform : Platform}.

(** ** Program rules *)

Lemma fwp_ask {A} I c (k : fresp c -> fprog A) Q d :
  (forall o r d1, perform o c d = (r, d1) -> I d1 /\ fwp I (k r) Q d1) -> fwp I (fbind (fask c) k) Q d.
Proof. intros Hk. simpl. intros o. destruct (perform o c d) as [r d1] eqn:Hp. by eapply Hk. Qed.

(** A program that leaves the disk alone. *)
Definition silent {A} (p : fprog A) : Prop := forall d, fwp (eq d) p (fun d' _ => d' = d) d.

Lemma fwp_silent {A B} (I : Disk -> Prop) (p : fprog A) (k : A -> fprog B) Q d :
  silent p -> I d -> (forall a, fwp I (k a) Q d) -> fwp I (fbind p k) Q d.
Proof.
  intros Hp Hi Hk. specialize (Hp d). apply fwp_bind.
  assert (Hgen : forall d', d' = d -> fwp (eq d) p (fun d' _ => d' = d) d' -> fwp I p (fun d a => fwp I (k a) Q d) d').
  { clear Hp. induction p as [a|c kk IH]; simpl; intros d' -> Hwp; [done|]. intros o. specialize (Hwp o).
    destruct (perform o c d) as [r d1]. destruct Hwp as [<- Hwp]. split; [done|]. by apply IH. }
  by apply Hgen.
Qed.

Lemma silent_ret {A} (a : A) : silent (FRet a).
Proof. by intros d. Qed.

Lemma silent_harden label path : silent (harden label path).
Proof. intros d. simpl. done. Qed.

(** The calls without an effect. *)
Definition inert (c : fcall) : bool :=
  match c with
  | CtxErr | LockState | UnlockState | MkdirAll _ | Harden _ | Chmod _ _ | CloseFile _ | OpenFile _ | ReadLimited _ _
  | StatFile _ | Lstat _ | VerifyACL _ | TimeNow => true
  | _ => false
  end.

Lemma silent_ask c : inert c = true -> silent (fask c).
Proof. intros Hc d o. destruct c; try done; simpl; by split. Qed.

Lemma fwp_inert {A} (I : Disk -> Prop) c (k : fresp c -> fprog A) Q d :
  inert c = true -> I d -> (forall r, fwp I (k r) Q d) -> fwp I (fbind (fask c) k) Q d.
Proof. intros Hc. apply fwp_silent. by apply silent_ask. Qed.

Lemma fwp_unless_failed {A} I (r : option fserror) (failed : fserror -> fprog A) next Q d :
  (forall e, r = Some e -> fwp I (failed e) Q d) -> (r = None -> fwp I next Q d) -> fwp I (unless_failed r failed next) Q d.
Proof. destruct r; simpl; auto. Qed.

(** ** Durable writes *)

(** What is known of a path: its text now, and the texts a crash may leave. *)
Record Known := mkKnown { k_now : option string; k_may : option string -> Prop }.

(** A new text, not yet flushed; and everything flushed. *)
Definition rewritten (target : string) (v : option string) (K : string -> Known) : string -> Known :=
  fun p => if String.eqb p target then mkKnown v (fun x => k_may (K p) x \/ x = v) else K p.
Definition flushed (K : string -> Known) : string -> Known := fun p => mkKnown (k_now (K p)) (eq (k_now (K p))).

(** After a replacement; some platforms flush with it. *)
Definition replacing (target contents : string) (K : string -> Known) : string -> Known :=
  if write_through then flushed (rewritten target (Some contents) K) else rewritten target (Some contents) K.

Lemma silent_path_hook hook path :
  (forall f path, hook = Some f -> silent (f path)) -> silent (run_path_hook hook path).
Proof. intros Hh. destruct hook as [f|]; simpl; [by apply Hh|apply silent_ret]. Qed.

Lemma silent_hook hook : (forall p, hook = Some p -> silent p) -> silent (run_hook hook).
Proof. intros Hh. destruct hook as [p|]; simpl; [by apply Hh|apply silent_ret]. Qed.

Section Guarded.
Context (paths : list string).

Definition knows (K : string -> Known) (d : Disk) : Prop :=
  wf d /\ forall p, p ∈ paths -> image d (d_dir d) p = Some (k_now (K p)) /\ holds d p (k_may (K p)).

Lemma knows_may K d p : knows K d -> p ∈ paths -> k_may (K p) (k_now (K p)).
Proof.
  intros [_ Hk] Hp. destruct (Hk p Hp) as [Hnow Hh]. destruct (Hh (d_dir d)) as (v & Hv & HS); [left|]. congruence.
Qed.

Lemma knows_weaken K K' d :
  (forall p, p ∈ paths -> k_now (K p) = k_now (K' p) /\ forall v, k_may (K p) v -> k_may (K' p) v) -> knows K d -> knows K' d.
Proof.
  intros Hw [Hwf Hk]. split; [done|]. intros p Hp. destruct (Hw p Hp) as [<- Hm], (Hk p Hp) as [Hnow Hh]. split; [done|].
  by eapply holds_mono.
Qed.

Lemma knows_flush K d : knows K d -> knows (flushed K) (flush_dir d).
Proof.
  intros [Hwf Hk]. split; [by apply wf_flush|]. intros p Hp. destruct (Hk p Hp) as [Hnow _]. split; [done|].
  by eapply holds_flush.
Qed.

Lemma knows_set_dir K K' dir d :
  knows K d -> (forall p f, dir !! p = Some f -> is_Some (d_data d !! f)) ->
  (forall p, p ∈ paths -> image d dir p = Some (k_now (K' p)) /\ k_may (K' p) (k_now (K' p)) /\ forall v, k_may (K p) v -> k_may (K' p) v) ->
  knows K' (set_dir dir d).
Proof.
  intros [Hwf Hk] Hdir Hd. split; [by apply wf_set_dir|]. intros p Hp. destruct (Hd p Hp) as (Hi & Hn & Hm), (Hk p Hp) as [_ Hh].
  split; [exact Hi|]. eapply holds_set_dir; [by eapply holds_mono|exact Hi|exact Hn].
Qed.

(** A temporary file that no guarded path is bound to. *)
Record staged (K : string -> Known) (d : Disk) (f : N) (tmp : string) : Prop := {
  sg_knows : knows K d;
  sg_private : forall dir p, dir ∈ views d -> p ∈ paths -> dir !! p <> Some f;
  sg_bound : d_dir d !! tmp = Some f;
  sg_tmp : tmp ∉ paths;
}.

Lemma staged_set_data K d f tmp c : staged K d f tmp -> staged K (set_data f c d) f tmp.
Proof.
  intros [[Hwf Hk] Hpriv Hb Ht]. constructor; try done. split; [by apply wf_set_data|]. intros p Hp.
  destruct (Hk p Hp) as [Hnow Hh]. split; [rewrite image_set_data; [done|]; apply Hpriv; [left|done]|].
  apply holds_set_data; [|done]. intros dir Hin. by apply Hpriv.
Qed.

Lemma staged_remove K d f tmp : staged K d f tmp -> knows K (set_dir (delete tmp (d_dir d)) d).
Proof.
  intros [Hkn Hpriv Hb Ht]. pose proof Hkn as [Hwf Hk]. eapply knows_set_dir; [done| |].
  - intros p g Hg. apply lookup_delete_Some in Hg as [_ Hg]. eapply Hwf; [left|done].
  - intros p Hp. destruct (Hk p Hp) as [Hnow _]. split_and!; [|by eapply knows_may|done].
    revert Hnow. unfold image. rewrite lookup_delete_ne; [done|]. by intros ->.
Qed.

Lemma create_staged K o directory pattern d r d1 :
  knows K d -> (forall random, temp_path directory pattern random ∉ paths) ->
  perform o (CreateTemp directory pattern) d = (r, d1) ->
  match r with Ok (f, tmp) => staged K d1 f tmp /\ d_data d1 !! f = Some ("", false) | Err _ => d1 = d end.
Proof.
  intros [Hwf Hk] Htmp Hp. simpl in Hp. unfold create_temp in Hp. destruct (ch_error o); [by injection Hp as <- <-|].
  destruct (d_dir d !! _) eqn:Hfree; injection Hp as <- <-; [done|].
  set (f := fresh (dom (d_data d))). set (tmp := temp_path _ _ _).
  assert (Hfresh : d_data d !! f = None) by (apply not_elem_of_dom, is_fresh).
  assert (Hpriv : forall dir path, dir ∈ views d -> dir !! path <> Some f).
  { intros dir path Hin Hf. destruct (Hwf _ _ _ Hin Hf) as [? ?]. congruence. }
  assert (Hkn : knows K (set_data f ("", false) d)).
  { split; [by apply wf_set_data|]. intros p Hp. destruct (Hk p Hp) as [Hnow Hh].
    split; [rewrite image_set_data; [done|]; apply Hpriv; left|]. apply holds_set_data; auto. }
  split; [|simpl; apply lookup_insert_eq]. constructor; [| |simpl; apply lookup_insert_eq|apply Htmp].
  - eapply knows_set_dir; [exact Hkn| |].
    + intros path g Hg. simpl. apply lookup_insert_Some in Hg as [[_ <-]|[_ Hg]]; [rewrite lookup_insert_eq; by eexists|].
      eapply (proj1 Hkn); [left|exact Hg].
    + intros p Hp. pose proof (knows_may _ _ p Hkn Hp). destruct (proj2 Hkn p Hp) as [Hnow _]. split_and!; [|done|done].
      revert Hnow. unfold image. rewrite lookup_insert_ne; [done|]. intros <-. by eapply Htmp.
  - intros dir p Hin Hp. unfold views in Hin. simpl in Hin. apply elem_of_cons in Hin as [->|Hin]; [|by apply Hpriv].
    rewrite lookup_insert_ne; [apply Hpriv; left|]. intros <-. by eapply Htmp.
Qed.

(** The replacement of a guarded path by the temporary file. *)
Lemma rename_replaces K o target contents d f tmp r d1 :
  staged K d f tmp -> d_data d !! f = Some (contents, true) -> perform o (Rename tmp target) d = (r, d1) ->
  match r with Some _ => d1 = d | None => knows (replacing target contents K) d1 end.
Proof.
  intros [Hkn Hpriv Hb Ht] Hf Hp. simpl in Hp. unfold rename in Hp. destruct (ch_error o); [by injection Hp as <- <-|].
  rewrite Hb in Hp. injection Hp as <- <-. pose proof Hkn as [Hwf Hk].
  assert (Hnew : knows (rewritten target (Some contents) K) (set_dir (<[target := f]> (delete tmp (d_dir d))) d)).
  { eapply knows_set_dir; [exact Hkn| |].
    - intros path g [[_ <-]|[_ Hg]]%lookup_insert_Some; [by eexists|].
      apply lookup_delete_Some in Hg as [_ Hg]. eapply Hwf; [left|done].
    - intros p Hp. pose proof (knows_may _ _ p Hkn Hp). destruct (Hk p Hp) as [Hnow _]. unfold rewritten, image in *.
      destruct (String.eqb_spec p target) as [->|Hne]; simpl; [rewrite lookup_insert_eq, Hf; by auto|].
      rewrite lookup_insert_ne by done. rewrite lookup_delete_ne by (by intros ->). by split_and!. }
  unfold replacing. destruct write_through; [by apply knows_flush|done].
Qed.

(** The removal of a guarded file. *)
Lemma remove_guarded K o target d r d1 :
  knows K d -> perform o (Remove target) d = (r, d1) ->
  match r with Some _ => d1 = d | None => knows (rewritten target None K) d1 end.
Proof.
  intros Hkn Hp. simpl in Hp. unfold effect in Hp. destruct (ch_error o); injection Hp as <- <-; [done|].
  pose proof Hkn as [Hwf Hk]. eapply knows_set_dir; [exact Hkn| |].
  - intros p g Hg. apply lookup_delete_Some in Hg as [_ Hg]. eapply Hwf; [left|done].
  - intros p Hp. pose proof (knows_may _ _ p Hkn Hp). destruct (Hk p Hp) as [Hnow _]. unfold rewritten, image in *.
    destruct (String.eqb_spec p target) as [->|Hne]; simpl; [rewrite lookup_delete_eq; by auto|].
    rewrite lookup_delete_ne by done. by split_and!.
Qed.

(** A plan whose hooks before the replacement leave the disk alone and whose
    temporaries are not guarded. *)
Record replace_ok (plan : DurableWrite) : Prop := {
  ro_before_write : forall f path, dw_HardenBeforeWrite plan = Some f -> silent (f path);
  ro_before_replace : forall f path, dw_HardenBeforeReplace plan = Some f -> silent (f path);
  ro_before : forall p, dw_BeforeReplace plan = Some p -> silent p;
  ro_temporary : forall random, temp_path (dw_Directory plan) (dw_TemporaryPattern plan) random ∉ paths;
}.

(** The same with a last hook that leaves the disk alone too and without a hook for
    failures; the first hook after the replacement is free. *)
Record write_ok (plan : DurableWrite) : Prop := {
  wo_before_write : forall f path, dw_HardenBeforeWrite plan = Some f -> silent (f path);
  wo_before_replace : forall f path, dw_HardenBeforeReplace plan = Some f -> silent (f path);
  wo_after_replace : forall f path, dw_HardenAfterReplace plan = Some f -> silent (f path);
  wo_before : forall p, dw_BeforeReplace plan = Some p -> silent p;
  wo_failure : dw_OnCommitFailure plan = None;
  wo_temporary : forall random, temp_path (dw_Directory plan) (dw_TemporaryPattern plan) random ∉ paths;
}.

Lemma write_replace_ok plan : write_ok plan -> replace_ok plan.
Proof. intros []. by constructor. Qed.

(** The hook for failures after the replacement. *)
Definition withdrawal (plan : DurableWrite) : fprog () :=
  match dw_OnCommitFailure plan with Some f => f (dw_Target plan) | None => FRet () end.

Section Write.
Context (plan : DurableWrite) (contents : string) (K : string -> Known) (I : Disk -> Prop).
Hypothesis plan_good : replace_ok plan.
Hypothesis keeps : forall d, knows K d -> I d.

Lemma staged_kept d f tmp : staged K d f tmp -> I d.
Proof. intros []. by apply keeps. Qed.

Lemma Discard_staged w d (Q : Disk -> () -> Prop) :
  wr_committed w = false -> staged K d (wr_file w) (wr_temporaryPath w) ->
  (forall d', knows K d' -> Q d' ()) -> fwp I (Discard w) Q d.
Proof.
  intros Hc Hst HQ. unfold Discard. apply fwp_inert; [done|by eapply staged_kept|]. intros _. rewrite Hc.
  apply fwp_ask. intros o r d1 Hp. simpl in Hp. unfold effect in Hp. destruct (ch_error o); injection Hp as <- <-.
  - split; [by eapply staged_kept|]. apply HQ, Hst.
  - pose proof (staged_remove _ _ _ _ Hst). split; [by apply keeps|]. by apply HQ.
Qed.

Lemma Discard_committed w d (Q : Disk -> () -> Prop) :
  wr_committed w = true -> I d -> Q d () -> fwp I (Discard w) Q d.
Proof. intros Hc Hd HQ. unfold Discard. apply fwp_inert; [done|done|]. intros _. by rewrite Hc. Qed.

Lemma Begin_staged d (Q : Disk -> result fserror DurableWriter -> Prop) :
  knows K d -> (forall d' e, knows K d' -> Q d' (Err e)) ->
  (forall d' f tmp, staged K d' f tmp -> d_data d' !! f = Some ("", false) -> Q d' (Ok (mkDurableWriter plan f tmp false))) ->
  fwp I (Begin plan) Q d.
Proof.
  intros Hkn Herr Hok. unfold Begin. apply fwp_ask. intros o r d1 Hp.
  pose proof (create_staged K _ _ _ _ _ _ Hkn (ro_temporary _ plan_good) Hp) as Hst. destruct r as [[f tmp]|e].
  - destruct Hst as [Hst Hempty]. pose proof (staged_kept _ _ _ Hst) as Hi. split; [done|].
    apply fwp_inert; [done|done|]. intros mode. apply fwp_unless_failed.
    + intros e _. apply fwp_bind. eapply Discard_staged; [done|exact Hst|]. intros d' Hd'. by apply Herr.
    + intros _. apply fwp_silent; [apply silent_path_hook, (ro_before_write _ plan_good)|done|]. intros hardened.
      apply fwp_unless_failed; [|intros _; by apply Hok].
      intros e _. apply fwp_bind. eapply Discard_staged; [done|exact Hst|]. intros d' Hd'. by apply Herr.
  - subst. split; [by apply keeps|]. by apply Herr.
Qed.

(** The hooks after the replacement, which end in [M], and the one for failures, which
    ends in [W]. *)
Context (M : Disk -> option fserror -> Prop) (W : Disk -> Prop).
Hypothesis hooked : forall d, knows (replacing (dw_Target plan) contents K) d -> I d /\ fwp I (run_hook (dw_AfterReplace plan)) M d.
Hypothesis hook_kept : forall d r, M d r -> I d.
Hypothesis hardened : forall d, M d None -> fwp I (run_path_hook (dw_HardenAfterReplace plan) (dw_Target plan)) M d.
Hypothesis withdrawn : forall d r, M d r -> fwp I (withdrawal plan) (fun d' _ => W d') d.
Hypothesis withdrawn_kept : forall d, W d -> I d.

(** What a successful commit leaves. *)
Definition commits (Q : Disk -> Prop) (d : Disk) : Prop :=
  if dw_SkipDirectorySync plan || write_through then Q d else I (flush_dir d) /\ Q (flush_dir d).

Lemma Commit_spec w d (Q : Disk -> DurableWriter * option fserror -> Prop) :
  wr_plan w = plan -> staged K d (wr_file w) (wr_temporaryPath w) ->
  (exists b, d_data d !! wr_file w = Some (contents, b)) ->
  (forall d' e, staged K d' (wr_file w) (wr_temporaryPath w) -> Q d' (w, Some e)) ->
  (forall d' e, W d' -> Q d' (committed w, Some e)) ->
  (forall d', M d' None -> commits (fun d => Q d (committed w, None)) d') ->
  fwp I (Commit w) Q d.
Proof.
  intros Hplan Hst [b Hdata] Hfail Hlate Hdone. unfold Commit. rewrite Hplan. pose proof (staged_kept _ _ _ Hst) as Hi.
  apply fwp_ask. intros o r d1 Hp. simpl in Hp. unfold effect in Hp. destruct (ch_error o); injection Hp as <- <-.
  { split; [done|]. by apply Hfail. }
  set (d1 := set_data _ _ d). assert (Hst1 : staged K d1 (wr_file w) (wr_temporaryPath w)) by (by apply staged_set_data).
  assert (Hdata1 : d_data d1 !! wr_file w = Some (contents, true)).
  { unfold d1, file_data. rewrite Hdata. simpl. apply lookup_insert_eq. }
  clearbody d1. clear dependent d. rename d1 into d. pose proof (staged_kept _ _ _ Hst1) as Hi.
  split; [done|]. apply fwp_inert; [done|done|]. intros r. apply fwp_unless_failed; [intros; by apply Hfail|intros _].
  apply fwp_silent; [apply silent_path_hook, (ro_before_replace _ plan_good)|done|]. intros r2.
  apply fwp_unless_failed; [intros; by apply Hfail|intros _].
  apply fwp_silent; [apply silent_hook, (ro_before _ plan_good)|done|]. intros r3.
  apply fwp_unless_failed; [intros; by apply Hfail|intros _].
  apply fwp_ask. intros o4 r4 d2 Hp. pose proof (rename_replaces _ _ _ _ _ _ _ _ _ Hst1 Hdata1 Hp) as Hren.
  destruct r4 as [e|]; [subst d2; split; [done|]; by apply Hfail|]. cbn [unless_failed].
  destruct (hooked _ Hren) as [Hi2 Hhook]. split; [done|].
  assert (Hwithdraw : forall d r e, M d r -> fwp I (let+ err := withdraw (committed w) e in FRet (committed w, err)) Q d).
  { intros d3 r5 e HM. pose proof (withdrawn d3 r5 HM) as Hwd. unfold withdraw, withdrawal in *. cbn [committed wr_plan]. rewrite Hplan.
    destruct (dw_OnCommitFailure plan); [|by apply Hlate]. do 2 apply fwp_bind. eapply fwp_mono; [exact Hwd|]. intros d4 [] Hd4. by apply Hlate. }
  apply fwp_bind. eapply fwp_mono; [exact Hhook|]. intros d3 r5 HM. pose proof (hook_kept _ _ HM) as Hi3.
  apply fwp_unless_failed; [intros; by eapply Hwithdraw|intros ->].
  apply fwp_bind. eapply fwp_mono; [by apply hardened|]. clear dependent d3. intros d3 r6 HM. pose proof (hook_kept _ _ HM) as Hi3.
  apply fwp_unless_failed; [intros; by eapply Hwithdraw|intros ->].
  pose proof (Hdone _ HM) as Hd. unfold commits in Hd. destruct (dw_SkipDirectorySync plan); [done|].
  unfold syncDirectory. destruct write_through; [done|]. destruct Hd as [Hflush Hq].
  apply fwp_ask. intros o7 r7 d4 Hp7. simpl in Hp7. unfold effect in Hp7. destruct (ch_error o7); injection Hp7 as <- <-.
  - split; [done|]. by eapply Hwithdraw.
  - by split.
Qed.

(** The whole write: before the replacement everything is as it was; then the hooks
    run with the new text in place. *)
Lemma WriteBytes_hooks d (Q : Disk -> option fserror -> Prop) :
  knows K d -> (forall d' e, knows K d' -> Q d' (Some e)) -> (forall d' e, W d' -> Q d' (Some e)) ->
  (forall d', M d' None -> commits (fun d => I d /\ Q d None) d') ->
  fwp I (WriteBytes plan contents) Q d.
Proof.
  intros Hkn Herr Hlate Hok. unfold WriteBytes. apply fwp_bind. apply Begin_staged; try done.
  intros d1 f tmp Hst Hempty. apply fwp_ask. intros o r d2 Hp. simpl in Hp. cbn [wr_file] in *.
  assert (Hst2 : forall c, staged K (set_data f c d1) f tmp) by (intros c; by apply staged_set_data).
  destruct (ch_error o); injection Hp as <- <-.
  - split; [by eapply staged_kept|]. apply fwp_bind. eapply Discard_staged; [done|apply Hst2|]. intros d' Hd'. by apply Herr.
  - split; [by eapply staged_kept|]. cbn [unless_failed]. apply fwp_bind.
    apply Commit_spec; [done|apply Hst2| | | |].
    + exists false. unfold file_data. rewrite Hempty. simpl. by rewrite lookup_insert_eq.
    + intros d' e Hst'. apply fwp_bind. eapply Discard_staged; [done|exact Hst'|]. intros d'' Hd''. by apply Herr.
    + intros d' e HW. apply fwp_bind. apply Discard_committed; [done|by apply withdrawn_kept|]. by apply Hlate.
    + intros d' HM. pose proof (Hok _ HM) as Hd. unfold commits in *.
      destruct (dw_SkipDirectorySync plan || write_through);
        [destruct Hd as [Hi Hq]|destruct Hd as (Hi & _ & Hq); split; [done|]]; apply fwp_bind; by apply Discard_committed.
Qed.
End Write.

(** The rule for plans whose last hook leaves the disk alone and that withdraw
    nothing. *)
Lemma WriteBytes_rule plan contents K (I : Disk -> Prop) :
  write_ok plan -> (forall d, knows K d -> I d) ->
  forall M : Disk -> option fserror -> Prop,
  (forall d, knows (replacing (dw_Target plan) contents K) d -> I d /\ fwp I (run_hook (dw_AfterReplace plan)) M d) ->
  (forall d r, M d r -> I d) ->
  forall d (Q : Disk -> option fserror -> Prop),
  knows K d -> (forall d' e, knows K d' -> Q d' (Some e)) -> (forall d' r e, M d' r -> Q d' (Some e)) ->
  (forall d', M d' None -> commits plan I (fun d => I d /\ Q d None) d') ->
  fwp I (WriteBytes plan contents) Q d.
Proof.
  intros Hplan Hkeeps M Hhook Hkept d Q Hk Herr Hlate Hok.
  apply (WriteBytes_hooks plan contents K I (write_replace_ok _ Hplan) Hkeeps
    (fun d r => match r with None => M d None | Some _ => exists r, M d r end) (fun d => exists r, M d r)); try done.
  - intros d1 Hd1. destruct (Hhook d1 Hd1) as [Hi Hh]. split; [done|]. eapply fwp_mono; [exact Hh|]. intros d2 [e|] Hd2; eauto.
  - intros d1 [e|]; [intros [r Hr]|]; eauto.
  - intros d1 Hd1. pose proof (silent_path_hook _ (dw_Target plan) (wo_after_replace _ Hplan) d1) as Hs.
    eapply fwp_mono; [eapply fwp_weaken_inv; [|exact Hs]|]; [intros ? <-; eauto|]. intros d2 [e|] ->; eauto.
  - intros d1 r Hd1. unfold withdrawal. rewrite (wo_failure _ Hplan). cbn. destruct r; [done|eauto].
  - intros d1 [r Hr]. eauto.
  - intros d1 e [r Hr]. eauto.
Qed.

Lemma unflushed K d0 d : knows K d0 -> knows (flushed K) d -> knows K d.
Proof. intros Hk0. apply knows_weaken. intros p Hp. split; [done|]. intros v <-. by eapply knows_may. Qed.

(** A write to another file leaves the guarded ones alone. *)
Lemma WriteBytes_elsewhere plan contents K d :
  write_ok plan -> dw_AfterReplace plan = None -> dw_Target plan ∉ paths -> knows K d ->
  fwp (knows K) (WriteBytes plan contents) (fun d' _ => knows K d') d.
Proof.
  intros Hplan Hafter Htarget Hk.
  assert (Hsame : forall d', knows (replacing (dw_Target plan) contents K) d' -> knows K d').
  { intros d' Hd'.
    assert (Hold : forall p, p ∈ paths -> rewritten (dw_Target plan) (Some contents) K p = K p).
    { intros p Hp. unfold rewritten. by destruct (String.eqb_spec p (dw_Target plan)) as [->|]. }
    revert Hd'. unfold replacing. destruct write_through; [intros Hd'; apply (unflushed K d d' Hk); revert Hd'|];
      apply knows_weaken; intros p Hp; unfold flushed; by rewrite (Hold p Hp). }
  apply (WriteBytes_rule plan contents K (knows K) Hplan ltac:(done) (fun d' _ => knows K d')); try done.
  - intros d' Hd'%Hsame. rewrite Hafter. done.
  - intros d' Hd'. unfold commits. assert (Hf : knows K (flush_dir d')) by (by eapply unflushed, knows_flush).
    by destruct (dw_SkipDirectorySync plan || write_through).
Qed.

(** The removal of another file leaves them alone too. *)
Lemma Remove_elsewhere path K d : path ∉ paths -> knows K d -> fwp (knows K) (fask (Remove path)) (fun d' _ => knows K d') d.
Proof.
  intros Hp Hk o. destruct (perform o (Remove path) d) as [r d1] eqn:Hr. pose proof (remove_guarded _ _ _ _ _ _ Hk Hr) as Hd1.
  assert (Hkn : knows K d1).
  { destruct r; [by subst|]. revert Hd1. apply knows_weaken. intros p Hin. unfold rewritten. by destruct (String.eqb_spec p path) as [->|]. }
  by split.
Qed.
End Guarded.

Lemma silent_bind {A B} (p : fprog A) (k : A -> fprog B) : silent p -> (forall a, silent (k a)) -> silent (fbind p k).
Proof. intros Hp Hk d. apply fwp_silent; [done|done|]. intros a. apply Hk. Qed.

(** A hook that runs with the target in place leaves it alone; one that [removes] may
    also remove it when it [fails]. *)
Definition hook_ok {A} (removes : bool) (fails : A -> Prop) (target : string) (p : fprog A) : Prop :=
  forall K d, knows [target] K d ->
    fwp (fun d => knows [target] K d \/ removes = true /\ knows [target] (rewritten target None K) d) p
        (fun d r => knows [target] K d \/ removes = true /\ fails r /\ knows [target] (rewritten target None K) d) d.

Lemma silent_hook_ok {A} removes (fails : A -> Prop) target p : silent p -> hook_ok removes fails target p.
Proof.
  intros Hp K d Hk. eapply fwp_mono; [eapply fwp_weaken_inv; [|exact (Hp d)]|]; [intros ? <-; by left|]. intros d' r ->. by left.
Qed.

Lemma removing_hook_ok target : hook_ok true (fun _ => True) target (fbind (fask (Remove target)) (fun _ => FRet ())).
Proof.
  intros K d Hk. cbn [fbind fask fwp]. intros o. destruct (perform o (Remove target) d) as [r d1] eqn:Hr.
  pose proof (remove_guarded _ _ _ _ _ _ _ Hk Hr) as Hd1. destruct r; [subst d1; by split; left|]. split; right; by split_and!.
Qed.

(** A plan of one file: what it does before the replacement leaves the disk alone, its
    temporaries are not its target, and what it does afterwards leaves the target
    alone or, if it [removes], may remove it when the write fails. *)
Record plan_ok (removes : bool) (plan : DurableWrite) : Prop := {
  po_before_write : forall f path, dw_HardenBeforeWrite plan = Some f -> silent (f path);
  po_before_replace : forall f path, dw_HardenBeforeReplace plan = Some f -> silent (f path);
  po_before : forall p, dw_BeforeReplace plan = Some p -> silent p;
  po_temporary : forall random, temp_path (dw_Directory plan) (dw_TemporaryPattern plan) random <> dw_Target plan;
  po_after : forall p, dw_AfterReplace plan = Some p -> hook_ok removes (fun r => r <> None) (dw_Target plan) p;
  po_after_replace : forall f, dw_HardenAfterReplace plan = Some f -> hook_ok removes (fun r => r <> None) (dw_Target plan) (f (dw_Target plan));
  po_failure : forall f, dw_OnCommitFailure plan = Some f -> hook_ok removes (fun _ => True) (dw_Target plan) (f (dw_Target plan));
}.

Lemma plan_replace_ok removes plan : plan_ok removes plan -> replace_ok [dw_Target plan] plan.
Proof. intros []. constructor; try done. intros random ?%list_elem_of_singleton. by eapply po_temporary0. Qed.

Section OneFile.
Context (removes : bool) (plan : DurableWrite) (contents : string) (S : option string -> Prop) (current : option string).
Hypothesis plan_good : plan_ok removes plan.
#[local] Abbreviation target := (dw_Target plan).

(** What the target may hold while the write is under way. *)
Definition old_or_new (v : option string) : Prop := S v \/ v = Some contents \/ removes = true /\ v = None.

(** The invariant of every disk on the way. *)
Definition under_way (d : Disk) : Prop :=
  wf d /\ holds d target old_or_new
  /\ (image d (d_dir d) target = Some current \/ image d (d_dir d) target = Some (Some contents)
      \/ removes = true /\ image d (d_dir d) target = Some None).

(** The target holds the new text, and after a crash too once it is flushed. *)
Definition replaced (d : Disk) : Prop := under_way d /\ image d (d_dir d) target = Some (Some contents).

#[local] Abbreviation before := (fun _ : string => mkKnown current S).
#[local] Abbreviation after := (replacing target contents before).

(** The target after the replacement, withdrawn perhaps. *)
Definition after_or_gone (d : Disk) : Prop :=
  knows [target] after d \/ removes = true /\ knows [target] (rewritten target None after) d.

Lemma before_under_way d : knows [target] before d -> under_way d.
Proof.
  intros [Hwf Hk]. destruct (Hk target) as [Hnow Hh]; [left|]. split_and!; [done| |by left].
  eapply holds_mono; [|exact Hh]. unfold old_or_new. auto.
Qed.

Lemma after_may v : k_may (after target) v -> old_or_new v.
Proof.
  unfold replacing, rewritten, flushed, old_or_new. destruct write_through; cbn [k_may k_now]; rewrite String.eqb_refl; cbn; [intros <-; auto|tauto].
Qed.

Lemma after_replaced d : knows [target] after d -> replaced d.
Proof.
  intros [Hwf Hk]. destruct (Hk target) as [Hnow Hh]; [left|].
  assert (Hnew : k_now (after target) = Some contents)
    by (unfold replacing, rewritten, flushed; destruct write_through; cbn [k_now]; by rewrite String.eqb_refl).
  rewrite Hnew in Hnow. split; [|done]. split_and!; [done| |by right; left]. eapply holds_mono; [|exact Hh]. apply after_may.
Qed.

Lemma after_or_gone_under_way d : after_or_gone d -> under_way d.
Proof.
  intros [Hd|[Hrem [Hwf Hk]]]; [by apply after_replaced|]. destruct (Hk target) as [Hnow Hh]; [left|].
  unfold rewritten in Hnow at 1, Hh at 1. rewrite String.eqb_refl in Hnow, Hh. cbn [k_now k_may] in Hnow, Hh.
  split_and!; [done| |by right; right]. eapply holds_mono; [|exact Hh]. intros v [Hv| ->]; [by apply after_may|by right; right].
Qed.

(** A hook that runs where the target is in place, or already withdrawn. *)
Lemma hook_follows {A} (fails : A -> Prop) (p : fprog A) d :
  hook_ok removes fails target p -> after_or_gone d -> fwp under_way p (fun d' _ => after_or_gone d') d.
Proof.
  intros Hp Hd.
  assert (Hmerge : forall d, removes = true -> knows [target] (rewritten target None (rewritten target None after)) d -> after_or_gone d).
  { intros d' Hrem Hd'. right. split; [done|]. revert Hd'. apply knows_weaken. intros q ->%list_elem_of_singleton.
    unfold rewritten. rewrite String.eqb_refl. cbn. tauto. }
  destruct Hd as [Hd|[Hrem Hd]]; pose proof (Hp _ _ Hd) as Hwp;
    (eapply fwp_mono; [eapply fwp_weaken_inv; [|exact Hwp]|]).
  - intros d' Hd'. apply after_or_gone_under_way. exact Hd'.
  - intros d' r [Hd'|(Hrem & _ & Hd')]; [by left|by right].
  - intros d' [Hd'|[_ Hd']]; apply after_or_gone_under_way; [by right|by apply Hmerge].
  - intros d' r [Hd'|(_ & _ & Hd')]; [by right|by apply Hmerge].
Qed.

(** One that must fail to remove. *)
Lemma hook_succeeds (p : fprog (option fserror)) d :
  hook_ok removes (fun r => r <> None) target p -> knows [target] after d ->
  fwp under_way p (fun d' r => after_or_gone d' /\ (r = None -> knows [target] after d')) d.
Proof.
  intros Hp Hd. eapply fwp_mono; [eapply fwp_weaken_inv; [|exact (Hp _ _ Hd)]|].
  - intros d' Hd'. by apply after_or_gone_under_way.
  - intros d' r [Hd'|(Hrem & Hf & Hd')]; [by split; [left|]|]. by split; [right|].
Qed.

(** The whole write: every disk on the way holds the old or the new text, or none if
    the plan withdraws a failed write. *)
Lemma WriteBytes_spec d (Q : Disk -> option fserror -> Prop) :
  wf d -> holds d target S -> image d (d_dir d) target = Some current ->
  (forall d' e, under_way d' -> Q d' (Some e)) ->
  (forall d', replaced d' -> (dw_SkipDirectorySync plan = false \/ write_through = true -> holds d' target (eq (Some contents))) -> Q d' None) ->
  fwp under_way (WriteBytes plan contents) Q d.
Proof.
  intros Hwf Hh Hnow Herr Hok.
  apply (WriteBytes_hooks [target] plan contents before under_way (plan_replace_ok _ _ plan_good) before_under_way
    (fun d r => after_or_gone d /\ (r = None -> knows [target] after d)) after_or_gone).
  - intros d1 Hd1. pose proof (after_replaced _ Hd1) as [Hi _]. split; [done|].
    destruct (dw_AfterReplace plan) as [p|] eqn:Hp; [|by split; [left|]]. by apply hook_succeeds, Hd1; apply (po_after _ _ plan_good).
  - intros d1 r [Hd1 _]. by apply after_or_gone_under_way.
  - intros d1 [_ Hd1]. specialize (Hd1 eq_refl). destruct (dw_HardenAfterReplace plan) as [f|] eqn:Hf; [|by split; [left|]].
    by apply hook_succeeds, Hd1; apply (po_after_replace _ _ plan_good).
  - intros d1 r [Hd1 _]. unfold withdrawal. destruct (dw_OnCommitFailure plan) as [f|] eqn:Hf; [|done].
    eapply hook_follows; [by apply (po_failure _ _ plan_good)|done].
  - intros d1. apply after_or_gone_under_way.
  - split; [done|]. by intros p ->%list_elem_of_singleton.
  - intros d1 e Hd1. by apply Herr, before_under_way.
  - intros d1 e Hd1. by apply Herr, after_or_gone_under_way.
  - intros d1 [_ Hd1]. specialize (Hd1 eq_refl). pose proof (after_replaced _ Hd1) as Hr. unfold commits.
    assert (Hthrough : write_through = true -> holds d1 target (eq (Some contents))).
    { intros Hw. destruct Hd1 as [_ Hk]. destruct (Hk target) as [_ Hh1]; [left|].
      revert Hh1. unfold replacing, rewritten, flushed. rewrite Hw. cbn [k_may k_now]. by rewrite String.eqb_refl. }
    destruct (dw_SkipDirectorySync plan) eqn:Hskip; [|destruct write_through eqn:Hw]; cbn [orb].
    + split; [apply Hr|]. apply Hok; [done|]. intros [?|?]; [done|auto].
    + split; [apply Hr|]. apply Hok; [done|]. auto.
    + assert (Hf : replaced (flush_dir d1)).
      { split; [|apply Hr]. destruct Hr as [(Hwf1 & _ & _) Himg]. split_and!; [by apply wf_flush| |by right; left].
        eapply holds_flush; [exact Himg|by right; left]. }
      split; [apply Hf|]. split; [apply Hf|]. apply Hok; [done|]. intros _. eapply holds_flush; [apply Hr|done].
Qed.
End OneFile.
End Durable.

(** C9: A durable write is atomic under faults and crashes.  It is asked of the plan
    that its steps before the replacement leave the disk alone, that its
    temporaries are not its target, and that its later hooks leave the target alone
    or, in a plan that withdraws failed writes, at most remove it when they fail.
    Then, wherever the write stops and whatever the platform brings back, the target
    holds one of its old texts or the new one in full, or is absent if the plan
    withdraws; once the write has reported success the target holds the new text,
    and every crash leaves it there, unless the plan leaves the flush of the
    directory to its caller and the platform does not write through. *)
Theorem WriteBytes_atomic `{Platform} removes plan contents S current d tr d' err :
  plan_ok removes plan -> wf d -> holds d (dw_Target plan) S -> image d (d_dir d) (dw_Target plan) = Some current ->
  fexec (WriteBytes plan contents) d tr d' err ->
  (forall di dc, di ∈ tr -> crash di dc ->
     holds dc (dw_Target plan) (fun v => S v \/ v = Some contents \/ removes = true /\ v = None))
  /\ (err = None ->
      image d' (d_dir d') (dw_Target plan) = Some (Some contents)
      /\ (dw_SkipDirectorySync plan = false \/ write_through = true ->
          forall dc, crash d' dc -> holds dc (dw_Target plan) (fun v => v = Some contents))).
Proof.
  intros Hplan Hwf Hh Hnow Hex.
  assert (Hwp : fwp (under_way removes plan contents S current) (WriteBytes plan contents)
    (fun d' err => err = None -> image d' (d_dir d') (dw_Target plan) = Some (Some contents)
       /\ (dw_SkipDirectorySync plan = false \/ write_through = true -> holds d' (dw_Target plan) (eq (Some contents)))) d).
  { apply WriteBytes_spec; auto; [done|]. intros d1 [_ Himg] Hset _. by split. }
  destruct (fwp_fexec _ _ _ _ _ _ _ Hwp Hex) as [Hall Hq]. split.
  - intros di dc Hin Hcrash. rewrite Forall_forall in Hall. destruct (Hall di Hin) as (_ & Hdi & _).
    by eapply crash_holds.
  - intros Herr. destruct (Hq Herr) as [Himg Hset]. split; [done|]. intros Hflush dc Hcrash. eapply crash_holds; [exact Hcrash|].
    eapply holds_mono; [|by apply Hset]. intros v Hv. by subst.
Qed.

(** ** The state files as registers *)

(** The abstract register: its value, and the values a crash may leave. *)
Record Register (T : Type) := mkRegister {
  rg_now : option T;
  rg_may : list (option T);
}.
Arguments mkRegister {T} rg_now rg_may.
Arguments rg_now {T}.
Arguments rg_may {T}.

Inductive operation (T : Type) :=
  | OpLoad (r : result fserror T)
  | OpSave (v : T) (err : option fserror)
  | OpSaveCrash (v : T)
  | OpCrash.
Arguments OpLoad {T} r.
Arguments OpSave {T} v err.
Arguments OpSaveCrash {T} v.
Arguments OpCrash {T}.

(** What the register promises.  A load returns the value, and reports a
    missing document only without one; a save that succeeds settles the value;
    one that fails leaves the old or the new value; a crash picks one of the
    values that were not settled. *)
Inductive register_step {T} : Register T -> operation T -> Register T -> Prop :=
  | reg_load_value a v : rg_now a = Some v -> register_step a (OpLoad (Ok v)) a
  | reg_load_error a e :
      (Is e ErrNotFound = true -> rg_now a = None) -> Is e errLoadContent = false -> register_step a (OpLoad (Err e)) a
  | reg_save a v : register_step a (OpSave v None) (mkRegister (Some v) [Some v])
  | reg_save_failed a v e now :
      now = rg_now a \/ now = Some v -> register_step a (OpSave v (Some e)) (mkRegister now (Some v :: rg_may a))
  | reg_save_crash a v now : now ∈ Some v :: rg_may a -> register_step a (OpSaveCrash v) (mkRegister now [now])
  | reg_crash a now : now ∈ rg_may a -> register_step a OpCrash (mkRegister now [now]).

(** One use of a document, crashes included. *)
Inductive document_step `{Platform} {T} (load : fprog (result fserror T)) (save : T -> fprog (option fserror)) (fits : T -> Prop)
    : Disk -> operation T -> Disk -> Prop :=
  | step_load d tr d' r : fexec load d tr d' r -> document_step load save fits d (OpLoad r) d'
  | step_save d v tr d' err : fits v -> fexec (save v) d tr d' err -> document_step load save fits d (OpSave v err) d'
  | step_save_crash d v tr d1 err di d' :
      fits v -> fexec (save v) d tr d1 err -> di ∈ d :: tr -> crash di d' ->
      document_step load save fits d (OpSaveCrash v) d'
  | step_crash d d' : crash d d' -> document_step load save fits d OpCrash d'.

(** Finite sequences of labeled steps. *)
Inductive steps {A L : Type} (step : A -> L -> A -> Prop) : A -> list L -> A -> Prop :=
  | steps_nil a : steps step a [] a
  | steps_cons a l b ls c : step a l b -> steps step b ls c -> steps step a (l :: ls) c.

Lemma steps_simulated {A B L} (stepA : A -> L -> A -> Prop) (stepB : B -> L -> B -> Prop) (R : A -> B -> Prop) :
  (forall a l a' b, R a b -> stepA a l a' -> exists b', stepB b l b' /\ R a' b') ->
  forall a ls a' b, R a b -> steps stepA a ls a' -> exists b', steps stepB b ls b' /\ R a' b'.
Proof.
  intros Hsim a ls a' b HR Hsteps. revert b HR. induction Hsteps as [a|a l a1 ls a2 Hstep Hsteps IH]; intros b HR.
  - exists b. split; [constructor|done].
  - destruct (Hsim _ _ _ _ HR Hstep) as (b1 & Hb1 & HR1). destruct (IH _ HR1) as (b2 & Hb2 & HR2).
    exists b2. split; [by econstructor|done].
Qed.

(** A path in the store's directory that cleaning leaves alone. *)
Definition plain_path `{Platform, FilePath} (s : Store) (name : string) : Prop :=
  sr_directory s <> "" /\ HasSuffix (sr_directory s) (String Separator "") = false
  /\ Clean (sr_directory s +:+ String Separator name) = sr_directory s +:+ String Separator name.

Lemma cut_last_star_app p : cut_last_star (p +:+ "*") = Some (p, "").
Proof. induction p as [|a p IH]; [done|]. rewrite string_app_cons. simpl. by rewrite IH. Qed.

Lemma string_app_inv_l s t u : s +:+ t = s +:+ u -> t = u.
Proof. induction s as [|a s IH]; [done|]. rewrite !string_app_cons. intros [= H]. by apply IH. Qed.

Lemma save_plan_ok `{Platform, FilePath} s name : plain_path s name -> plan_ok false (save_plan s name).
Proof.
  intros (Hne & Hsuf & Hclean). constructor; simpl; try done.
  - intros f path [= <-]. apply silent_harden.
  - intros random. unfold temp_path, filepath_Join.
    rewrite (proj2 (String.eqb_neq _ _) Hne), Hclean, Hsuf.
    replace ("." +:+ name +:+ "-*") with (("." +:+ name +:+ "-") +:+ "*") by (by rewrite !string_app_assoc).
    rewrite cut_last_star_app. intros Heq%string_app_inv_l. injection Heq as Heq.
    apply (f_equal String.length) in Heq. rewrite !string_app_length in Heq. simpl in Heq. lia.
  - intros f [= <-]. apply silent_hook_ok, silent_harden.
Qed.

Lemma fwp_answer `{Platform} {A} (I : Disk -> Prop) c (k : fresp c -> fprog A) Q d :
  (forall o, (perform o c d).2 = d) -> I d ->
  (forall o, fwp I (k (perform o c d).1) Q d) -> fwp I (fbind (fask c) k) Q d.
Proof.
  intros Hd Hi Hk. apply fwp_ask. intros o r d1 Hp. specialize (Hd o). specialize (Hk o). rewrite Hp in Hd, Hk.
  simpl in *. by subst.
Qed.

(** One call that leaves the disk alone, with or without a fault. *)
Ltac answer o :=
  apply fwp_answer; [done|done|]; intros o; cbn [perform fst plain open_file]; unfold open_file, ch_error;
  destruct (ch_fault o); cbn [unless_failed].

Section Register.
Context {platform : Platform} {paths : FilePath} {T : Type} {json : JSON T}.
Context (s : Store) (name : string) (policy : unknownFieldPolicy) (label : string) (validate : T -> option string)
        (finish : result fserror T -> result fserror T).
Hypothesis path_plain : plain_path s name.
(** [encoding/json] reads back what it writes. *)
Hypothesis codec : forall v t, MarshalIndent v = Ok t ->
  DecodeFirst policy (t +:+ newline) = Ok v /\ DecodeTrailer policy (t +:+ newline) = JSONEnd.
(** The last step of a load: validation, and for some documents a
    classification of the error that keeps these kinds apart. *)
Hypothesis finish_ok : forall v, validate v = None -> finish (Ok v) = Ok v.
Hypothesis finish_err : forall e, Is e errLoadContent = false -> finish (Err e) = Err e.

#[local] Abbreviation path := (filepath_Join (sr_directory s) name).

Definition store_load : fprog (result fserror T) := let+ r := load s name policy in FRet (finish r).
Definition store_save (v : T) : fprog (option fserror) := saved label validate v (save s name v).

(** The encodings a load accepts: an encoded value within the size limit. *)
Definition encoding (v : T) (c : string) : Prop :=
  validate v = None /\ Z.of_nat (String.length c) <= maximumStateSize /\ exists t, MarshalIndent v = Ok t /\ c = t +:+ newline.

Definition represents (c : option string) (v : option T) : Prop :=
  match c, v with None, None => True | Some c, Some v => encoding v c | _, _ => False end.

Definition fits (v : T) : Prop :=
  forall t, MarshalIndent v = Ok t -> Z.of_nat (String.length (t +:+ newline)) <= maximumStateSize.

#[local] Abbreviation store_step := (document_step store_load store_save fits).

(** The disk represents the register. *)
Definition simulates (d : Disk) (a : Register T) : Prop :=
  wf d
  /\ (exists c, image d (d_dir d) path = Some c /\ represents c (rg_now a))
  /\ holds d path (fun c => exists v, v ∈ rg_may a /\ represents c v).

(** A load leaves the disk alone and reports what the register promises. *)
Definition load_answer (a : Register T) (r : result fserror T) : Prop :=
  match r with
  | Ok v => rg_now a = Some v
  | Err e => (Is e ErrNotFound = true -> rg_now a = None) /\ Is e errLoadContent = false
  end.

Lemma substring_whole c n : (String.length c <= n)%nat -> String.substring 0 n c = c.
Proof. revert n. induction c as [|a c IH]; intros [|n] Hn; simpl in *; try done; try lia. by rewrite IH by lia. Qed.

Lemma decode_encoding v c : encoding v c -> decode_contents name policy c = Ok v.
Proof.
  intros (_ & Hlen & t & Ht & ->). unfold decode_contents.
  rewrite (proj2 (Z.ltb_ge _ _) Hlen). destruct (codec v t Ht) as [-> ->]. done.
Qed.

(** The answers of the part of a load under the lock. *)
Definition loaded (a : Register T) (r : result fserror T) : Prop :=
  load_answer a r /\ (forall v, r = Ok v -> validate v = None).

Lemma loaded_join a r text label' : loaded a r -> loaded a (join_result r (Labeled label' (OSError false false text))).
Proof.
  intros [Hr Hv]. split; [|by destruct r]. destruct r as [v|e]; simpl in *; [done|].
  destruct Hr as [H1 H2]. rewrite H2. simpl. split; [|done]. rewrite orb_false_r. done.
Qed.

Lemma load_spec d a : simulates d a -> fwp (eq d) (load s name policy) (fun d' r => d' = d /\ loaded a r) d.
Proof.
  intros (Hwf & (c & Hc & Hrep) & _).
  assert (Hos : forall label' text, loaded a (Err (Labeled label' (OSError false false text)))) by (by split).
  unfold load. answer o1; [split; [done|by split]|]. answer o2; [split; [done|apply Hos]|].
  unfold unlocked. apply fwp_bind. apply (fwp_mono _ _ (fun d' r => d' = d /\ loaded a r)).
  - answer o3; [split; [done|apply Hos]|].
    unfold image in Hc. destruct (d_dir d !! path) as [f|].
    2:{ injection Hc as <-. split; [done|]. destruct (rg_now a) eqn:Hnow; [done|]. by split. }
    destruct (d_data d !! f) as [[text []]|] eqn:Hf; try done. injection Hc as <-.
    destruct (rg_now a) as [v|] eqn:Hnow; [|done]. cbn [represents] in Hrep.
    answer o4.
    + answer o5; (split; [done|]); [apply loaded_join|]; apply Hos.
    + unfold file_data. rewrite Hf, substring_whole by (destruct Hrep as (_ & Hlen & _); unfold maximumStateSize in *; lia).
      rewrite (decode_encoding _ _ Hrep).
      assert (Hok : loaded a (Ok v)) by (split; [done|]; intros v' [= <-]; apply Hrep).
      answer o5; (split; [done|]); [apply (loaded_join a (Ok v))|]; done.
  - intros d' r [-> Hr]. answer o6; split; try done. by apply loaded_join.
Qed.

Lemma store_load_spec d a : simulates d a -> fwp (eq d) store_load (fun d' r => d' = d /\ load_answer a r) d.
Proof.
  intros Hsim. unfold store_load. apply fwp_bind. eapply fwp_mono; [by apply load_spec|].
  intros d' r [-> [Hr Hv]]. simpl. split; [done|]. destruct r as [v|e]; [rewrite finish_ok; auto|].
  rewrite finish_err by apply Hr. done.
Qed.

Definition may_hold (a : Register T) (c : option string) : Prop := exists v, v ∈ rg_may a /\ represents c v.

Lemma simulates_weaken d now may may' : may ⊆ may' -> simulates d (mkRegister now may) -> simulates d (mkRegister now may').
Proof.
  intros Hsub (Hwf & Hnow & Hh). split_and!; [done|done|]. eapply holds_mono; [|exact Hh].
  intros c (v & Hv & Hrep). exists v. split; [by apply Hsub|done].
Qed.

(** The register in the middle of a save. *)
Definition unsettled (a : Register T) (v : T) (d : Disk) : Prop :=
  exists now, (now = rg_now a \/ now = Some v) /\ simulates d (mkRegister now (Some v :: rg_may a)).

Lemma simulates_unsettled d a v : simulates d a -> unsettled a v d.
Proof. intros Hsim. exists (rg_now a). split; [by left|]. destruct a. eapply simulates_weaken; [|exact Hsim]. set_solver. Qed.

Lemma settled_unsettled d a v : simulates d (mkRegister (Some v) [Some v]) -> unsettled a v d.
Proof. intros Hsim. exists (Some v). split; [by right|]. eapply simulates_weaken; [|exact Hsim]. set_solver. Qed.

(** A crash settles the register on one of the values it may hold. *)
Lemma crash_picks d d' a :
  crash d d' -> simulates d a -> exists now, now ∈ rg_may a /\ simulates d' (mkRegister now [now]).
Proof.
  intros Hcrash (Hwf & _ & Hh). pose proof (crash_holds _ _ _ _ Hcrash Hh) as Hh'.
  destruct (Hh' (d_dir d')) as (c & Hc & v & Hv & Hrep); [left|]. exists v. split; [done|].
  split_and!; [by eapply crash_wf|by exists c|].
  destruct Hcrash as (_ & Hold & _). intros dir Hin. unfold views in Hin. rewrite Hold in Hin.
  apply list_elem_of_singleton in Hin as ->. exists c. split; [done|]. exists v. split; [left|done].
Qed.

(** What a durable write of the value's encoding leaves. *)
Lemma under_way_unsettled d a v c c0 :
  encoding v c -> represents c0 (rg_now a) ->
  under_way false (save_plan s name) c (may_hold a) c0 d -> unsettled a v d.
Proof.
  intros Henc Hc0 (Hwf & Hh & Hnow).
  assert (Hmay : holds d path (fun c => exists x, x ∈ Some v :: rg_may a /\ represents c x)).
  { eapply holds_mono; [|exact Hh]. intros x [(y & Hy & Hrep)|[->|[? _]]]; [exists y; split; [by right|done]| |done].
    exists (Some v). split; [left|done]. }
  destruct Hnow as [Hnow|[Hnow|[? _]]]; [| |done].
  - exists (rg_now a). split; [by left|]. split_and!; [done| |done]. by exists c0.
  - exists (Some v). split; [by right|]. split_and!; [done| |done]. by exists (Some c).
Qed.

(** A save: every disk on the way represents the register extended by the new
    value, and a success settles it. *)
Definition save_answer (a : Register T) (v : T) (d : Disk) (err : option fserror) : Prop :=
  match err with
  | None => simulates d (mkRegister (Some v) [Some v])
  | Some _ => unsettled a v d
  end.

Lemma store_save_spec d a v :
  simulates d a -> fits v -> fwp (unsettled a v) (store_save v) (save_answer a v) d.
Proof.
  intros Hsim Hfits. pose proof (simulates_unsettled d a v Hsim) as Hun.
  unfold store_save, saved. destruct (validate v) eqn:Hvalid; [done|].
  unfold save. answer o1; [done|]. answer o2; [done|]. unfold unlocked. apply fwp_bind.
  eapply (fwp_mono _ _ (save_answer a v)).
  - answer o3; [done|]. answer o4; [done|].
    destruct (MarshalIndent v) as [t|] eqn:Ht; [|done].
    assert (Henc : encoding v (t +:+ newline)) by (split_and!; [done|by apply Hfits|by exists t]).
    pose proof Hsim as (Hwf & (c0 & Hc0 & Hrep) & Hh).
    apply (fwp_weaken_inv (under_way false (save_plan s name) (t +:+ newline) (may_hold a) c0));
      [intros d'; by apply under_way_unsettled|].
    apply WriteBytes_spec; [by apply save_plan_ok|done|exact Hh|done| |].
    + intros d' e Hd'. by eapply under_way_unsettled.
    + intros d' [Huw Himg] Hset. specialize (Hset (or_introl eq_refl)). split_and!; [apply Huw|by exists (Some (t +:+ newline))|].
      eapply holds_mono; [|exact Hset]. intros c <-. exists (Some v). split; [left|done].
  - intros d' err Herr.
    assert (Hd' : unsettled a v d') by (destruct err; [done|by apply settled_unsettled]).
    answer o5; destruct err; done.
Qed.

(** The store implements the register: each of its steps, crashes at any
    moment included, is a step of the register. *)
Lemma store_step_simulated d op d' a :
  simulates d a -> store_step d op d' -> exists a', register_step a op a' /\ simulates d' a'.
Proof.
  intros Hsim Hstep. destruct Hstep as [d tr d' r Hex|d v tr d' err Hfits Hex|d v tr d1 err di d' Hfits Hex Hin Hcrash|d d' Hcrash].
  - destruct (fwp_fexec _ _ _ _ _ _ _ (store_load_spec d a Hsim) Hex) as [_ [-> Hr]]. exists a. split; [|done].
    destruct r as [v|e]; [by constructor|]. destruct Hr. by constructor.
  - destruct (fwp_fexec _ _ _ _ _ _ _ (store_save_spec d a v Hsim Hfits) Hex) as [_ Hq].
    destruct err as [e|]; simpl in Hq.
    + destruct Hq as (now & Hnow & Hq). eexists. split; [by constructor|done].
    + eexists. split; [by constructor|done].
  - destruct (fwp_fexec _ _ _ _ _ _ _ (store_save_spec d a v Hsim Hfits) Hex) as [Hall _].
    assert (Hdi : unsettled a v di).
    { apply elem_of_cons in Hin as [->|Hin]; [by apply simulates_unsettled|]. rewrite Forall_forall in Hall. by apply Hall. }
    destruct Hdi as (now & _ & Hdi). destruct (crash_picks _ _ _ Hcrash Hdi) as (now' & Hin' & Hsim').
    exists (mkRegister now' [now']). split; [by constructor|done].
  - destruct (crash_picks _ _ _ Hcrash Hsim) as (now & Hin & Hsim').
    exists (mkRegister now [now]). split; [by constructor|done].
Qed.
End Register.

(** [encoding/json] reads back the documents it writes. *)
Definition json_round_trip (T : Type) `{JSON T} (policy : unknownFieldPolicy) : Prop :=
  forall (v : T) t, MarshalIndent v = Ok t ->
    DecodeFirst policy (t +:+ newline) = Ok v /\ DecodeTrailer policy (t +:+ newline) = JSONEnd.

(** C4: The desired-state file refines an atomic register.  Every sequence of
    loads, saves, failures and crashes of the file, a crash in the middle of a
    save included, is a sequence of the register: loads return the last value
    saved, a failed save leaves the old or the new value, a successful one
    survives every crash, and a valid document is never lost or torn. *)
Theorem desired_state_refines_register `{Platform, FilePath, JSON DesiredState} s d a ops d' :
  plain_path s desiredFilename -> json_round_trip DesiredState rejectUnknownFields ->
  simulates s desiredFilename validateDesired d a ->
  steps (document_step (LoadDesired s) (SaveDesired s) fits) d ops d' ->
  exists a', steps register_step a ops a' /\ simulates s desiredFilename validateDesired d' a'.
Proof.
  intros Hpath Hcodec Hsim. apply steps_simulated; [|done]. clear d a ops d' Hsim. intros d op d' a Hsim Hstep.
  eapply (store_step_simulated s desiredFilename rejectUnknownFields "invalid desired state" validateDesired
            (validated "invalid desired state" validateDesired (fun e => e))); try done.
  intros v Hv. simpl. by rewrite Hv.
Qed.

(** The observed state and the restart receipt are registers too. *)
Lemma observed_state_refines_register `{Platform, FilePath, JSON ObservedState} s d a ops d' :
  plain_path s observedFilename -> json_round_trip ObservedState ignoreUnknownFields ->
  simulates s observedFilename validateObserved d a ->
  steps (document_step (LoadObserved s) (SaveObserved s) fits) d ops d' ->
  exists a', steps register_step a ops a' /\ simulates s observedFilename validateObserved d' a'.
Proof.
  intros Hpath Hcodec Hsim. apply steps_simulated; [|done]. clear d a ops d' Hsim. intros d op d' a Hsim Hstep.
  eapply (store_step_simulated s observedFilename ignoreUnknownFields "invalid observed state" validateObserved
            (fun r => match r with
                      | Err e => Err (classifyObservedLoadErr e)
                      | Ok _ => validated "invalid observed state" validateObserved (fun e => Chain [Sentinel ErrCorruptObserved; e]) r
                      end)); try done.
  - intros v Hv. simpl. by rewrite Hv.
  - intros e He. unfold classifyObservedLoadErr. rewrite He. by destruct (Is e ErrNotFound).
Qed.

Lemma restart_receipt_refines_register `{Platform, FilePath, JSON RestartReceipt} s d a ops d' :
  plain_path s restartFilename -> json_round_trip RestartReceipt rejectUnknownFields ->
  simulates s restartFilename validateRestartReceipt d a ->
  steps (document_step (LoadRestartReceipt s) (SaveRestartReceipt s) fits) d ops d' ->
  exists a', steps register_step a ops a' /\ simulates s restartFilename validateRestartReceipt d' a'.
Proof.
  intros Hpath Hcodec Hsim. apply steps_simulated; [|done]. clear d a ops d' Hsim. intros d op d' a Hsim Hstep.
  eapply (store_step_simulated s restartFilename rejectUnknownFields "invalid restart receipt" validateRestartReceipt
            (validated "invalid restart receipt" validateRestartReceipt (fun e => e))); try done.
  intros v Hv. simpl. by rewrite Hv.
Qed.

(** ** Quarantine *)

Section Quarantine.
Context {platform : Platform} {paths : FilePath}.
Context (s : Store) (d : Disk).
#[local] Abbreviation source := (filepath_Join (sr_directory s) observedFilename).

(** Names were only added: the file data and every old binding are kept. *)
Definition only_added (d' : Disk) : Prop := d_data d' = d_data d /\ d_dir d ⊆ d_dir d'.

Definition evidenced (d' : Disk) (evidence : string) : Prop :=
  d_dir d !! evidence = None /\ exists f, d_dir d !! source = Some f /\ d_dir d' !! evidence = Some f.

Lemma link_evidence_spec stamp attempts attempt (Q : Disk -> result fserror string -> Prop) :
  only_added d -> (forall e, Q d (Err e)) -> (forall d' evidence, only_added d' -> evidenced d' evidence -> Q d' (Ok evidence)) ->
  fwp only_added (link_evidence s source stamp attempts attempt) Q d.
Proof.
  intros Hself Herr Hok. revert attempt. induction attempts as [|n IH]; intros attempt; [apply Herr|].
  cbn [link_evidence]. apply fwp_ask. intros o r d1 Hp. cbn [perform] in Hp. unfold link_file in Hp.
  assert (Hsame : forall e, (r, d1) = (Some e, d) -> only_added d1 /\
    fwp only_added (match r with
      | None => FRet (Ok (evidence_path s stamp attempt))
      | Some e => if IsExist e then link_evidence s source stamp n (attempt + 1)
                  else FRet (Err (Labeled "preserve corrupt observed state" e)) end) Q d1).
  { intros e [= -> ->]. split; [done|]. destruct (IsExist e); [apply IH|apply Herr]. }
  destruct (ch_error o); [by eapply Hsame|].
  destruct (d_dir d !! source) as [f|] eqn:Hs; [|by eapply Hsame].
  destruct (d_dir d !! evidence_path s stamp attempt) eqn:He; [by eapply Hsame|].
  injection Hp as <- <-. clear Hsame.
  assert (Hadd : only_added (set_dir (<[evidence_path s stamp attempt := f]> (d_dir d)) d)).
  { split; [done|]. by apply insert_subseteq. }
  split; [done|]. apply Hok; [done|]. split; [done|]. exists f. split; [done|]. simpl. apply lookup_insert_eq.
Qed.
End Quarantine.

(** Quarantine preserves the corrupt file: at every moment the observed
    state keeps its name and every file its contents, no name is removed, and
    a reported success means a new name is bound to the same file. *)
Theorem quarantine_preserves_source `{Platform, FilePath} s d tr d' err :
  fexec (QuarantineObserved s) d tr d' err ->
  Forall (only_added d) tr /\ only_added d d'
  /\ (err = None -> exists evidence, evidenced s d d' evidence).
Proof.
  intros Hex.
  assert (Hself : only_added d d) by done.
  assert (Hwp : fwp (only_added d) (QuarantineObserved s)
            (fun d' err => only_added d d' /\ (err = None -> exists evidence, evidenced s d d' evidence)) d).
  { unfold QuarantineObserved. apply fwp_inert; [done|done|]. intros r. apply fwp_unless_failed; [done|intros _].
    apply fwp_inert; [done|done|]. intros r1. apply fwp_unless_failed; [done|intros _].
    unfold unlocked. apply fwp_bind.
    apply (fwp_mono _ _ (fun d' err => only_added d d' /\ (err = None -> exists evidence, evidenced s d d' evidence))).
    2:{ intros d1 err1 [Hadd Hev]. apply fwp_inert; [done|done|]. intros r2. apply fwp_unless_failed; [|done].
        intros e _. simpl. split; [done|]. by destruct err1. }
    apply fwp_inert; [done|done|]. intros r3. apply fwp_unless_failed; [done|intros _].
    apply fwp_inert; [done|done|]. intros stamp. apply fwp_bind. apply link_evidence_spec; [done|done|].
    intros d1 evidence Hadd Hev. apply fwp_inert; [done|done|]. intros r4. apply fwp_unless_failed; [by split|intros _].
    unfold syncDirectory. destruct write_through; [simpl; by eauto|].
    apply fwp_ask. intros o r5 d2 Hp. simpl in Hp. unfold effect in Hp.
    destruct (ch_error o); injection Hp as <- <-; (split; [done|]); simpl; eauto. }
  destruct (fwp_fexec _ _ _ _ _ _ _ Hwp Hex) as [Hall [Hadd Hev]]. done.
Qed.

(** ** Concrete runs *)

Module StoreSamples.
#[export] Instance posix : Platform := {| write_through := false; Separator := "/"%char |}.
#[export] Instance posix_paths : FilePath := {| IsAbs := fun p => HasPrefix p "/"; Clean := fun p => p |}.

Definition sample_state : DesiredState := mkDesiredState 1 ModeDisabled None 1.

(** A codec that knows one document. *)
#[export] Instance one_document : JSON DesiredState := {|
  MarshalIndent v := if decide (v = sample_state) then Ok "{disabled}" else Err (Message "unknown");
  DecodeFirst _ _ := Ok sample_state;
  DecodeTrailer _ _ := JSONEnd |}.

Definition store : Store := mkStore "/state".
Definition empty_disk : Disk := mkDisk ∅ [] ∅.
Definition faultless (n : nat) : choice := mkChoice None 7 "" "".
(** The twelfth call of a save, the directory flush, fails. *)
Definition unflushed (n : nat) : choice := mkChoice (if (n =? 12)%nat then Some "disk" else None) 7 "" "".

Definition saved_disk : Disk := (frun (SaveDesired store sample_state) faultless empty_disk).1.2.

Lemma plain : plain_path store desiredFilename.
Proof. by split_and!. Qed.

Lemma empty_simulates : simulates store desiredFilename validateDesired empty_disk (mkRegister None [None]).
Proof.
  split_and!.
  - intros dir path f Hin Hf. apply list_elem_of_singleton in Hin as ->. cbn [empty_disk d_dir] in Hf. by rewrite lookup_empty in Hf.
  - by exists None.
  - intros dir Hin. apply list_elem_of_singleton in Hin as ->. exists None. split; [done|]. exists None. split; [left|done].
Qed.
End StoreSamples.
Import StoreSamples.

Lemma WriteBytes_atomic_witness :
  exists tr d', fexec (WriteBytes (save_plan StoreSamples.store desiredFilename) "new") StoreSamples.empty_disk tr d' None
  /\ forall dc, crash d' dc -> holds dc "/state/desired.json" (fun v => v = Some "new").
Proof.
  destruct (frun (WriteBytes (save_plan StoreSamples.store desiredFilename) "new") StoreSamples.faultless StoreSamples.empty_disk)
    as [[tr d'] err] eqn:Hr.
  pose proof (frun_fexec _ _ _ _ _ _ Hr) as Hex. exists tr, d'.
  assert (err = None) as -> by (vm_compute in Hr; congruence). split; [done|].
  refine (proj2 (proj2 (WriteBytes_atomic false _ _ (fun v => v = None) None _ _ _ _ (save_plan_ok _ _ StoreSamples.plain)
    (proj1 StoreSamples.empty_simulates) _ _ Hex) eq_refl) (or_introl eq_refl)); [|done].
  intros dir Hin. apply list_elem_of_singleton in Hin as ->. by exists None.
Defined.

Lemma desired_state_refines_register_witness :
  exists a', steps register_step (mkRegister None [None])
    [OpSave StoreSamples.sample_state None; OpLoad (Ok StoreSamples.sample_state); OpCrash] a'.
Proof.
  destruct (desired_state_refines_register StoreSamples.store StoreSamples.empty_disk (mkRegister None [None])
    [OpSave StoreSamples.sample_state None; OpLoad (Ok StoreSamples.sample_state); OpCrash] StoreSamples.saved_disk) as (a' & Ha & _).
  - exact StoreSamples.plain.
  - intros v t Ht. cbn in Ht. case_decide; [|done]. injection Ht as <-. by subst.
  - exact StoreSamples.empty_simulates.
  - apply (steps_cons _ _ _ StoreSamples.saved_disk).
    { eapply step_save; [intros t Ht; cbn in Ht; injection Ht as <-; by vm_compute|].
      apply (frun_fexec _ StoreSamples.faultless). by vm_compute. }
    apply (steps_cons _ _ _ StoreSamples.saved_disk).
    { eapply step_load. apply (frun_fexec _ StoreSamples.faultless). by vm_compute. }
    apply (steps_cons _ _ _ StoreSamples.saved_disk); [|constructor].
    apply step_crash. split; [left|]. by vm_compute.
  - by exists a'.
Defined.

Lemma quarantine_preserves_source_witness :
  exists tr d', fexec (QuarantineObserved StoreSamples.store) (mkDisk {["/state/observed.json" := 1%N]} [] {[1%N := ("x", true)]}) tr d' None
  /\ exists evidence, evidenced StoreSamples.store (mkDisk {["/state/observed.json" := 1%N]} [] {[1%N := ("x", true)]}) d' evidence.
Proof.
  destruct (frun (QuarantineObserved StoreSamples.store) StoreSamples.faultless
    (mkDisk {["/state/observed.json" := 1%N]} [] {[1%N := ("x", true)]})) as [[tr d'] err] eqn:Hr.
  pose proof (frun_fexec _ _ _ _ _ _ Hr) as Hex. exists tr, d'.
  assert (err = None) as -> by (vm_compute in Hr; congruence). split; [done|].
  exact (proj2 (proj2 (quarantine_preserves_source _ _ _ _ _ Hex)) eq_refl).
Defined.
