(* ===== verification/JobDisk.v ===== *)
(** The job index on the disk (internal/jobindex: file_store.go, assign_times.go,
    drop_journal.go): every file-system call of a load and of a save, the sidecar and
    the drop journal written between the replacement of jobs.json and the flush of
    its directory; and that an update survives every crash after it succeeded.

    The bytes of the three documents come from a class.  The source reads the clock
    once for the patches and once for the journal; both times are arguments. *)

From S2P Require Import Prelude Float64 GoStrings Model Errors Regexp GoText Validate JobIndex JobIndexFacts FileSystem Store StoreFacts.
From Stdlib Require Import Ascii.
Open Scope fs_scope.

(** ** Documents *)

Definition jobsFilename : string := "jobs.json".
Definition assignTimesFilename : string := "runner-assign-times.json".
Definition dropJournalFilename : string := "jobs-drop.json".
Definition assignTimesSchemaVersion : Z := 1.
Definition dropJournalSchemaVersion : Z := 1.

Record AssignTimesCatalog := mkAssignTimesCatalog { ac_SchemaVersion : Z; ac_Entries : list AssignTimeEntry }.
Record DropJournal := mkDropJournal { dj_SchemaVersion : Z; dj_Entries : list DropEntry }.

(** What a strict decoder finds after the first value. *)
Inductive Trailer :=
  | TrailerEOF
  | TrailerValue
  | TrailerError (e : error).

(** [encoding/json] for one type of document, unknown fields refused. *)
Class Codec (T : Type) := {
  marshal : T -> result error string;
  decode_first : string -> result error T;
  decode_trailer : string -> Trailer;
}.

(** An error of the index among those of the file system. *)
Fixpoint index_error (e : error) : fserror :=
  match e with
  | ErrNew text =>
      if String.eqb text "job record not found" then Sentinel ErrJobRecordNotFound
      else if String.eqb text "job record conflict" then Sentinel ErrJobRecordConflict
      else Message text
  | ErrWrap text inner => Labeled text (index_error inner)
  | ErrJoin errs => Chain (map index_error errs)
  | ErrScaleSet _ operation _ _ inner => match inner with Some i => Labeled operation (index_error i) | None => Message operation end
  | ErrWorkerStart inner _ => index_error inner
  end.

(** [errors.Join]. *)
Definition joined (errs : list (option fserror)) : option fserror :=
  match omap id errs with [] => None | es => Some (Chain es) end.

Definition decodeStrictJSON {T} `{Codec T} (name contents : string) : result fserror T :=
  match decode_first contents with
  | Err e => Err (Labeled ("decode " +:+ name) (index_error e))
  | Ok value =>
      match decode_trailer (T := T) contents with
      | TrailerEOF => Ok value
      | TrailerValue => Err (Message ("decode " +:+ name +:+ ": multiple JSON values are not allowed"))
      | TrailerError e => Err (Labeled ("decode " +:+ name +:+ " trailer") (index_error e))
      end
  end.

(** ** The file store *)

Record FileStore := mkFileStore { fl_directory : string }.

Section Index.
Context `{Platform, FilePath, !Codec Catalog, !Codec AssignTimesCatalog, !Codec DropJournal}.

Definition NewFileStore (directory : string) (locker acl : bool) : result fserror FileStore :=
  if negb (IsAbs directory) || negb locker || negb acl
  then Err (Message "job index requires an absolute state directory, locker, and access controller")
  else Ok (mkFileStore (Clean directory)).

Definition JobsStateDirectory (s : FileStore) : string := fl_directory s.

(** *** Reading *)

Definition readCatalogBytes (path : string) : fprog (result fserror string) :=
  let+ opened := fask (OpenFile path) in
  match opened with
  | Err e => FRet (Err (if IsNotExist e then e else Labeled "open jobs.json" e))
  | Ok file =>
      let+ read := fask (ReadLimited file (maximumJobStateLoad + 1)) in
      let+ closed := fask (CloseFile file) in
      let outcome := match read with Err e => Err (Labeled "read jobs.json" e) | Ok contents => Ok contents end in
      FRet (match closed with Some e => join_result outcome (Labeled "close jobs.json" e) | None => outcome end)
  end.

Definition DecodeCatalog (contents : string) : result fserror Catalog :=
  if maximumJobStateLoad <? doc_size contents
  then Err (Message ("jobs.json exceeds the " +:+ Itoa maximumJobStateLoad +:+ "-byte load safety limit"))
  else match decodeStrictJSON "jobs.json" contents with
       | Err e => Err e
       | Ok c => match Validate c with Err e => Err (Labeled "invalid jobs.json" (index_error e)) | Ok () => Ok c end
       end.

(** A document beside jobs.json: its size, its syntax and its version. *)
Definition decode_beside {T} `{!Codec T} (name version_name : string) (version : T -> Z) (supported : Z) (contents : string) : result fserror T :=
  if maximumJobState <? doc_size contents
  then Err (Message (name +:+ " exceeds the " +:+ Itoa maximumJobState +:+ "-byte cap"))
  else match decodeStrictJSON name contents with
       | Err e => Err e
       | Ok value =>
           if negb (version value =? supported)
           then Err (Message ("unsupported " +:+ version_name +:+ " schemaVersion " +:+ Itoa (version value)))
           else Ok value
       end.

Definition decode_times : string -> result fserror AssignTimesCatalog :=
  decode_beside "assign-times sidecar" "assign-times" ac_SchemaVersion assignTimesSchemaVersion.
Definition decode_drops : string -> result fserror DropJournal :=
  decode_beside "drop journal" "drop journal" dj_SchemaVersion dropJournalSchemaVersion.

(** Reading such a document; a missing one is empty, and a failed close is ignored. *)
Definition load_beside {T} (name path : string) (empty : T) (decode : string -> result fserror T) : fprog (result fserror T) :=
  let+ opened := fask (OpenFile path) in
  match opened with
  | Err e => FRet (if IsNotExist e then Ok empty else Err (Labeled ("open " +:+ name) e))
  | Ok file =>
      let+ read := fask (ReadLimited file (maximumJobState + 1)) in
      let+ _ := fask (CloseFile file) in
      FRet (match read with Err e => Err (Labeled ("read " +:+ name) e) | Ok contents => decode contents end)
  end.

Definition loadAssignTimes (directory : string) : fprog (result fserror AssignTimesCatalog) :=
  load_beside "assign-times sidecar" (filepath_Join directory assignTimesFilename) (mkAssignTimesCatalog assignTimesSchemaVersion []) decode_times.
Definition LoadDropJournal (directory : string) : fprog (result fserror DropJournal) :=
  load_beside "drop journal" (filepath_Join directory dropJournalFilename) (mkDropJournal dropJournalSchemaVersion []) decode_drops.

Definition FileStore_loadUnlocked (s : FileStore) : fprog (result fserror Catalog) :=
  let+ read := readCatalogBytes (filepath_Join (fl_directory s) jobsFilename) in
  match read with
  | Err e => FRet (Err (if IsNotExist e then Sentinel ErrJobRecordNotFound else e))
  | Ok contents =>
      match DecodeCatalog contents with
      | Err e => FRet (Err e)
      | Ok c =>
          let+ times := loadAssignTimes (fl_directory s) in
          FRet (match times with Err e => Err e | Ok times => Ok (hydrateAssignTimes c (ac_Entries times)) end)
      end
  end.

(** *** Writing *)

Definition secure (hardenLabel verifyLabel path : string) : fprog (option fserror) :=
  let+ r := fask (Harden path) in
  match r with
  | Some e => FRet (Some (Labeled hardenLabel e))
  | None =>
      let+ r := fask (VerifyACL path) in
      FRet (match r with Some e => Some (Labeled verifyLabel e) | None => None end)
  end.

Definition encodeCatalog (c : Catalog) : result error string :=
  match marshal c with Err e => Err (ErrWrap "encode jobs.json" e) | Ok encoded => Ok (encoded +:+ newline) end.

Definition times_plan (directory : string) : DurableWrite := {|
  dw_Directory := directory;
  dw_Target := filepath_Join directory assignTimesFilename;
  dw_TemporaryPattern := ".runner-assign-times.json-*";
  dw_Mode := 384;
  dw_HardenBeforeWrite := None;
  dw_HardenBeforeReplace := Some (secure "secure temporary assign-times sidecar ACL" "verify temporary assign-times sidecar ACL");
  dw_HardenAfterReplace := Some (secure "verify assign-times sidecar ACL" "verify assign-times sidecar ACL");
  dw_BeforeReplace := None; dw_AfterReplace := None; dw_OnCommitFailure := None; dw_SkipDirectorySync := true;
  dw_Labels := mkLabels "create temporary assign-times sidecar" "secure temporary assign-times sidecar"
    "write temporary assign-times sidecar" "flush temporary assign-times sidecar" "close temporary assign-times sidecar"
    "replace assign-times sidecar atomically" "" |}.

Definition saveAssignTimesUnlocked (directory : string) (c : Catalog) : fprog (option fserror) :=
  let times := mkAssignTimesCatalog assignTimesSchemaVersion (assignTimesFromCatalog c) in
  match ac_Entries times with
  | [] =>
      let+ removed := fask (Remove (filepath_Join directory assignTimesFilename)) in
      FRet (match removed with
            | Some e => if IsNotExist e then None else Some (Labeled "remove empty assign-times sidecar" e)
            | None => None
            end)
  | _ =>
      match marshal times with
      | Err e => FRet (Some (Labeled "encode assign-times sidecar" (index_error e)))
      | Ok encoded =>
          if maximumJobState <? doc_size (encoded +:+ newline)
          then FRet (Some (Message ("assign-times sidecar exceeds the " +:+ Itoa maximumJobState +:+ "-byte cap")))
          else WriteBytes (times_plan directory) (encoded +:+ newline)
      end
  end.

(** Whatever the access rules answer, the journal is written. *)
Definition hardenQuietly (path : string) : fprog (option fserror) :=
  let+ _ := fask (Harden path) in
  let+ _ := fask (VerifyACL path) in
  FRet None.

Definition journal_plan (directory : string) : DurableWrite := {|
  dw_Directory := directory;
  dw_Target := filepath_Join directory dropJournalFilename;
  dw_TemporaryPattern := ".jobs-drop.json-*";
  dw_Mode := 384;
  dw_HardenBeforeWrite := Some hardenQuietly;
  dw_HardenBeforeReplace := None;
  dw_HardenAfterReplace := Some hardenQuietly;
  dw_BeforeReplace := None; dw_AfterReplace := None; dw_OnCommitFailure := None; dw_SkipDirectorySync := false;
  dw_Labels := mkLabels "" "" "" "" "" "" "" |}.

Definition encodeJournal (entries : list DropEntry) : result error string :=
  match marshal (mkDropJournal dropJournalSchemaVersion entries) with
  | Err e => Err (ErrWrap "encode drop journal" e)
  | Ok encoded => Ok (encoded +:+ newline)
  end.

(** [appendDropJournal]: every failure is ignored. *)
Definition journal_dropped (directory : string) (dropped : list JobRecord) (droppedAt : time) : fprog () :=
  match dropped with
  | [] => FRet ()
  | _ =>
      let+ loaded := LoadDropJournal directory in
      match loaded with
      | Err _ => FRet ()
      | Ok journal =>
          match encodeDropJournalWithinCapacity encodeJournal (dj_Entries journal ++ map (dropEntryFromRecord droppedAt) dropped) with
          | Some (Ok entries) =>
              match encodeJournal entries with
              | Ok encoded => let+ _ := WriteBytes (journal_plan directory) encoded in FRet ()
              | Err _ => FRet ()
              end
          | _ => FRet ()
          end
      end
  end.

Definition jobs_plan (s : FileStore) (c : Catalog) (dropped : list JobRecord) (droppedAt : time) : DurableWrite := {|
  dw_Directory := fl_directory s;
  dw_Target := filepath_Join (fl_directory s) jobsFilename;
  dw_TemporaryPattern := ".jobs.json-*";
  dw_Mode := 384;
  dw_HardenBeforeWrite := None;
  dw_HardenBeforeReplace := Some (secure "secure temporary jobs.json ACL" "verify temporary jobs.json ACL");
  dw_HardenAfterReplace := Some (secure "verify jobs.json ACL" "verify jobs.json ACL");
  dw_BeforeReplace := None;
  dw_AfterReplace := Some (let+ _ := journal_dropped (fl_directory s) dropped droppedAt in saveAssignTimesUnlocked (fl_directory s) c);
  dw_OnCommitFailure := None; dw_SkipDirectorySync := false;
  dw_Labels := mkLabels "create temporary jobs.json" "secure temporary jobs.json" "write temporary jobs.json"
    "flush temporary jobs.json" "close temporary jobs.json" "replace jobs.json atomically" "flush jobs state directory" |}.

Definition FileStore_saveUnlocked (s : FileStore) (c : Catalog) (droppedAt : time) : fprog (option fserror) :=
  let+ made := fask (MkdirAll (fl_directory s)) in
  unless_failed made (fun e => FRet (Some (Labeled "create jobs state directory" e))) (
  let+ secured := fask (Harden (fl_directory s)) in
  unless_failed secured (fun e => FRet (Some (Labeled "secure jobs state directory" e))) (
  let+ verified := fask (VerifyACL (fl_directory s)) in
  unless_failed verified (fun e => FRet (Some (Labeled "verify jobs state directory ACL" e))) (
  match encodeWithinCapacity encodeCatalog c with
  | Some (Ok (encoded, c, dropped)) => WriteBytes (jobs_plan s c dropped droppedAt) encoded
  | Some (Err e) => FRet (Some (index_error e))
  | None => FRet (Some (index_error errOverCapacity))
  end))).

(** *** Operations *)

(** The lock, and the deferred unlock whose failure joins the result. *)
Definition locked {A} (zero : A) (body : fprog (A * option fserror)) : fprog (A * option fserror) :=
  let+ taken := fask LockState in
  unless_failed taken (fun e => FRet (zero, Some (Labeled "lock jobs index" e))) (
  let+ (a, err) := body in
  let+ released := fask UnlockState in
  FRet (a, joined [err; released])).

Definition FileStore_Load (s : FileStore) : fprog (Catalog * option fserror) :=
  locked Catalog_zero (
    let+ loaded := FileStore_loadUnlocked s in
    FRet (match loaded with Ok c => (c, None) | Err e => (Catalog_zero, Some e) end)).

(** The patches applied to what was read, and the catalog to save. *)
Definition upserted (c : Catalog) (patches : list Patch) (now : time) : UpsertState := upsert_all now (cat_Records c) patches.
Definition updated (c : Catalog) (patches : list Patch) (now : time) : Catalog :=
  Sort {| c with cat_Records := us_records (upserted c patches now) |}.

Definition FileStore_UpsertMany (s : FileStore) (patches : list Patch) (now droppedAt : time) : fprog (list JobRecord * option fserror) :=
  locked [] (
    let+ loaded := FileStore_loadUnlocked s in
    match (match loaded with
           | Err e => if Is e ErrJobRecordNotFound then Ok (mkCatalog SchemaVersion []) else Err e
           | Ok c => Ok c
           end) with
    | Err e => FRet ([], Some e)
    | Ok c =>
        let st := upserted c patches now in
        let mergeErrors := joined (map (fun e => Some (index_error e)) (us_errors st)) in
        if negb (us_changed st) then FRet (us_results st, mergeErrors)
        else match Validate (updated c patches now) with
             | Err e => FRet ([], Some (Labeled "validate jobs index" (index_error e)))
             | Ok () =>
                 let+ failed := FileStore_saveUnlocked s (updated c patches now) droppedAt in
                 FRet (match failed with Some e => ([], Some e) | None => (us_results st, mergeErrors) end)
             end
    end).

Definition tombstone_expired (before : time) (r : JobRecord) : bool :=
  match jr_TombstonedAt r with Some t => negb (After t before) | None => false end.

Definition FileStore_PruneTombstones (s : FileStore) (before droppedAt : time) : fprog (Z * option fserror) :=
  if IsZero before then FRet (0, Some (Message "tombstone prune cutoff is required"))
  else locked 0 (
    let+ loaded := FileStore_loadUnlocked s in
    match loaded with
    | Err e => FRet (0, if Is e ErrJobRecordNotFound then None else Some e)
    | Ok c =>
        let removed := count (tombstone_expired before) (cat_Records c) in
        if removed =? 0 then FRet (0, None)
        else
          let+ failed := FileStore_saveUnlocked s {| c with cat_Records := List.filter (fun r => negb (tombstone_expired before r)) (cat_Records c) |} droppedAt in
          FRet (match failed with Some e => (0, Some e) | None => (removed, None) end)
    end).

Definition FileStore_ActiveJob (s : FileStore) (pool runner : string) : fprog (string * bool * option fserror) :=
  if String.eqb pool "" || String.eqb runner "" then FRet ("", false, None)
  else
    let+ (c, err) := FileStore_Load s in
    FRet (match err with
          | Some e => if Is e ErrJobRecordNotFound then ("", false, None) else ("", false, Some e)
          | None => (ActiveJob c pool runner, None)
          end).
End Index.

(** ** What JSON promises *)

Definition record_strings (r : JobRecord) : list string :=
  [jr_PoolID r; jr_RunnerName r; jr_ContainerID r; jr_JobID r; jr_Result r; jr_LogPath r; jr_DiagnosticPath r].
Definition patch_strings (p : Patch) : list string :=
  [pt_PoolID p; pt_RunnerName p; pt_ContainerID p; pt_JobID p; pt_Result p; pt_LogPath p; pt_DiagnosticPath p].

(** [encoding/json] reads back what it wrote, as far as strings are valid UTF-8
    ([json_text]; others are changed); it leaves out the assignment times of a record;
    and what it reads is valid UTF-8.  Cleaning a path only drops elements of it. *)
Class CodecLaws `{FilePath} (jobs : Codec Catalog) (times : Codec AssignTimesCatalog) := {
  json_text : string -> bool;
  json_text_empty : json_text "" = true;
  json_text_clean : forall s, json_text s = true -> json_text (Clean s) = true;
  jobs_read_back : forall c t, Forall (fun r => forallb json_text (record_strings r) = true) (cat_Records c) -> marshal c = Ok t ->
    decode_first (t +:+ newline) = Ok (stored c) /\ decode_trailer (T := Catalog) (t +:+ newline) = TrailerEOF;
  jobs_read_text : forall t c, decode_first t = Ok c ->
    Forall (fun r => forallb json_text (record_strings r) = true /\ jr_RunnerAssignedAt r = None) (cat_Records c);
  times_read_back : forall v t, Forall (fun e => forallb json_text [at_PoolID e; at_RunnerName e; at_JobID e] = true) (ac_Entries v) ->
    marshal v = Ok t -> decode_first (t +:+ newline) = Ok v /\ decode_trailer (T := AssignTimesCatalog) (t +:+ newline) = TrailerEOF;
}.

Section IndexFacts.
Context {platform : Platform} {file_paths : FilePath} {jobs_codec : Codec Catalog} {times_codec : Codec AssignTimesCatalog} {drops_codec : Codec DropJournal}.
Context {laws : CodecLaws jobs_codec times_codec}.

(** *** Records that JSON keeps *)

(** The strings are valid, and an assignment time is not the zero time. *)
Definition keepable (r : JobRecord) : Prop :=
  forallb json_text (record_strings r) = true /\ jr_RunnerAssignedAt r <> Some 0.
Definition patch_text (p : Patch) : Prop := forallb json_text (patch_strings p) = true.

Lemma mergeImmutable_text name current incoming v :
  json_text current = true -> json_text incoming = true -> mergeImmutable name current incoming = Ok v -> json_text v = true.
Proof. intros Hc Hi. unfold mergeImmutable. repeat case_match; intros [= <-]; done. Qed.

Lemma mergePath_text name current incoming v :
  json_text current = true -> json_text incoming = true -> mergePath name current incoming = Ok v -> json_text v = true.
Proof.
  intros Hc Hi. unfold mergePath. destruct (String.eqb incoming ""); [by intros [= <-]|].
  destruct (negb _); [done|]. apply mergeImmutable_text; [done|]. by apply json_text_clean.
Qed.

Lemma merge_fields_keepable r p r' : keepable r -> patch_text p -> merge_fields r p = Ok r' -> keepable r'.
Proof.
  unfold keepable, patch_text, record_strings, patch_strings. cbn [forallb]. intros [Hr Ha] Hp. zb. unfold merge_fields.
  destruct (mergeImmutable "container ID" _ _) as [v1|] eqn:Hf1; [|done].
  destruct (mergeImmutable "job ID" _ _) as [v2|] eqn:Hf2; [|done].
  destruct (mergeImmutable "job result" _ _) as [v3|] eqn:Hf3; [|done].
  destruct (mergePath "worker log" _ _) as [v4|] eqn:Hf4; [|done].
  destruct (mergePath "worker diagnostics" _ _) as [v5|] eqn:Hf5; [|done].
  intros [= <-]. cbn.
  apply mergeImmutable_text in Hf1, Hf2, Hf3; [|done..]. apply mergePath_text in Hf4, Hf5; [|done..].
  split; [rewrite ?andb_true_iff; tauto|]. unfold mergeOptionalTime, IsZero. destruct (jr_RunnerAssignedAt r); [done|]. destruct (Z.eqb_spec (pt_RunnerAssignedAt p) 0); congruence.
Qed.

Lemma Merge_keepable r p now r' : keepable r -> patch_text p -> Merge r p now = Ok r' -> keepable r'.
Proof.
  intros Hr Hp. unfold Merge. destruct (blank _ || _); [done|]. destruct (IsZero now); [done|].
  destruct (merge_identity r p) as [e|] eqn:He; [|done].
  assert (Hk : keepable e).
  { revert He. unfold merge_identity. destruct (String.eqb _ ""); [|destruct (_ || _); [done|]]; intros [= <-]; [|done].
    destruct Hr as [Ht Ha]. split; [|done]. revert Ht Hp. unfold patch_text, record_strings, patch_strings. cbn. rewrite ?andb_true_iff. tauto. }
  cbn. destruct (jr_TombstonedAt e); [by intros [= <-]|].
  destruct (merge_fields e p) as [m|] eqn:Hm; [|done]. cbn. apply merge_fields_keepable in Hm; [|done..].
  case_decide; intros [= <-]; done.
Qed.

Lemma upserted_keepable now rs patches :
  Forall keepable rs -> Forall patch_text patches -> Forall keepable (us_records (upsert_all now rs patches)).
Proof.
  intros Hrs Hps. unfold upsert_all.
  assert (Hgen : forall st, Forall keepable (us_records st) -> Forall keepable (us_records (foldl (upsert_patch now) st patches))).
  { induction Hps as [|p ps Hp Hps IH]; intros st Hst; [done|]. cbn [foldl]. apply IH. unfold upsert_patch.
    assert (Hzero : keepable JobRecord_zero) by (split; [cbn; by rewrite json_text_empty|done]).
    destruct (us_index st !! _) as [i|].
    - assert (Hcur : keepable (default JobRecord_zero (us_records st !! i))).
      { destruct (us_records st !! i) eqn:Hi; [|done]. by eapply Forall_lookup_1 in Hi. }
      destruct (Merge _ p now) as [m|] eqn:Hm; [|done]. case_decide; [done|]. cbn. apply Forall_insert; [done|]. by eapply Merge_keepable.
    - destruct (Merge _ p now) as [m|] eqn:Hm; [|done]. cbn. apply Forall_app. split; [done|]. constructor; [|done]. by eapply Merge_keepable. }
  by apply Hgen.
Qed.

Lemma times_by_key_nonzero entries k : times_by_key entries !! k <> Some 0.
Proof.
  unfold times_by_key. induction entries as [|e entries IH] using rev_ind; [done|]. rewrite foldl_app. cbn. unfold IsZero.
  destruct (Z.eqb_spec (at_RunnerAssignedAt e) 0); [done|]. rewrite lookup_insert. case_decide; [by intros [= ?]|done].
Qed.
Lemma times_by_job_nonzero entries k : times_by_job entries !! k <> Some 0.
Proof.
  unfold times_by_job. induction entries as [|e entries IH] using rev_ind; [done|]. rewrite foldl_app. cbn. unfold IsZero.
  destruct (Z.eqb_spec (at_RunnerAssignedAt e) 0); [done|]. cbn. destruct (String.eqb _ ""); [done|]. rewrite lookup_insert. case_decide; [by intros [= ?]|done].
Qed.

Lemma hydrate_keepable entries r : keepable r -> keepable (hydrate_record entries r).
Proof.
  intros Hr. pose proof Hr as [Ht Ha].
  assert (Hset : forall t, t <> 0 -> keepable {| r with jr_RunnerAssignedAt := Some t |}) by (intros t Hz; split; [done|]; by intros [= ?]).
  unfold hydrate_record. destruct (jr_RunnerAssignedAt r); [done|].
  destruct (times_by_key entries !! key_of r) as [t|] eqn:Hk.
  { apply Hset. intros ->. by eapply times_by_key_nonzero. }
  destruct (String.eqb _ ""); [done|]. destruct (times_by_job entries !! jr_JobID r) as [t|] eqn:Hj; [|done].
  apply Hset. intros ->. by eapply times_by_job_nonzero.
Qed.

(** *** Texts of the two files *)

(** What a load makes of the texts of jobs.json and of the sidecar. *)
Definition read_index (jobs times : option string) : result fserror Catalog :=
  match jobs with
  | None => Err (Sentinel ErrJobRecordNotFound)
  | Some t =>
      match DecodeCatalog t with
      | Err e => Err e
      | Ok c =>
          match times with
          | None => Ok (hydrateAssignTimes c [])
          | Some t => match decode_times t with Err e => Err e | Ok v => Ok (hydrateAssignTimes c (ac_Entries v)) end
          end
      end
  end.

Definition jobs_text (v : option string) : Prop := match v with None => True | Some t => exists c, DecodeCatalog t = Ok c end.
Definition times_text (v : option string) : Prop := match v with None => True | Some t => exists c, decode_times t = Ok c end.

Lemma DecodeCatalog_valid t c :
  DecodeCatalog t = Ok c -> Validate c = Ok () /\ Forall keepable (cat_Records c).
Proof.
  unfold DecodeCatalog, decodeStrictJSON. destruct (_ <? _); [done|]. destruct (decode_first t) as [c0|] eqn:Hd; [|done].
  destruct (decode_trailer t); try done. destruct (Validate c0) as [[]|] eqn:Hv; [|done]. intros [= <-]. split; [done|].
  eapply Forall_impl; [by eapply jobs_read_text|]. intros r [Ht Ha]. split; [done|]. by rewrite Ha.
Qed.

Lemma read_index_valid jobs times c :
  read_index jobs times = Ok c -> Validate c = Ok () /\ Forall keepable (cat_Records c).
Proof.
  assert (Hh : forall c0 entries, Validate c0 = Ok () /\ Forall keepable (cat_Records c0) ->
    Validate (hydrateAssignTimes c0 entries) = Ok () /\ Forall keepable (cat_Records (hydrateAssignTimes c0 entries))).
  { intros c0 entries [Hv Hk]. split; [by apply hydrate_ok|]. cbn. apply Forall_fmap. eapply Forall_impl; [exact Hk|].
    intros r. apply hydrate_keepable. }
  unfold read_index. destruct jobs as [t|]; [|done]. destruct (DecodeCatalog t) as [c0|] eqn:Hd; [|done].
  apply DecodeCatalog_valid in Hd. destruct times as [u|]; [|intros [= <-]; by apply Hh].
  destruct (decode_times u); [|done]. intros [= <-]. by apply Hh.
Qed.

Lemma jobs_encoding_decodes c bytes :
  encodeCatalog c = Ok bytes -> doc_size bytes <= maximumJobState -> Forall keepable (cat_Records c) -> Validate c = Ok () ->
  DecodeCatalog bytes = Ok (stored c).
Proof.
  unfold encodeCatalog. destruct (marshal c) as [t|] eqn:Hm; [|done]. intros [= <-] Hsize Hk Hv.
  unfold DecodeCatalog, decodeStrictJSON. rewrite (proj2 (Z.ltb_ge _ _)) by (etransitivity; [exact Hsize|by vm_compute]).
  destruct (jobs_read_back c t) as [-> ->]; [eapply Forall_impl; [exact Hk|]; by intros r [? _]|done|].
  by rewrite stored_ok.
Qed.

Lemma times_encoding_decodes c t :
  marshal (mkAssignTimesCatalog assignTimesSchemaVersion (assignTimesFromCatalog c)) = Ok t ->
  doc_size (t +:+ newline) <= maximumJobState -> Forall keepable (cat_Records c) ->
  decode_times (t +:+ newline) = Ok (mkAssignTimesCatalog assignTimesSchemaVersion (assignTimesFromCatalog c)).
Proof.
  intros Hm Hsize Hk. unfold decode_times, decode_beside, decodeStrictJSON. rewrite (proj2 (Z.ltb_ge _ _) Hsize).
  edestruct times_read_back as [-> ->]; [|exact Hm|done]. cbn [ac_Entries]. apply Forall_forall.
  intros e (r & Hr & He)%elem_of_sidecar. rewrite Forall_forall in Hk. destruct (Hk r Hr) as [Ht _].
  unfold entry_of in He. destruct (jr_RunnerAssignedAt r); [|done]. destruct (IsZero _); [done|]. injection He as <-.
  revert Ht. unfold record_strings. cbn. rewrite ?andb_true_iff. tauto.
Qed.

(** What is saved is what is read. *)
Lemma saved_texts_read c bytes times :
  DecodeCatalog bytes = Ok (stored c) -> Validate c = Ok () -> Forall keepable (cat_Records c) -> times_text times ->
  (assignTimesFromCatalog c <> [] -> exists t, times = Some t /\ decode_times t = Ok (mkAssignTimesCatalog assignTimesSchemaVersion (assignTimesFromCatalog c))) ->
  exists c', read_index (Some bytes) times = Ok c' /\ stored c' = stored c /\ (assignTimesFromCatalog c <> [] -> c' = c).
Proof.
  intros Hd Hv Hk Htimes Hlast. unfold read_index. rewrite Hd.
  assert (Hst : forall entries, stored (hydrateAssignTimes (stored c) entries) = stored c).
  { intros entries. unfold stored, hydrateAssignTimes. cbn. f_equal. rewrite !map_map. apply map_ext. intros r.
    unfold hydrate_record. repeat case_match; done. }
  destruct times as [u|].
  - destruct Htimes as [v Hu]. rewrite Hu. eexists. split; [done|]. split; [apply Hst|]. intros Hne.
    destruct (Hlast Hne) as (t & [= <-] & Ht). rewrite Ht in Hu. injection Hu as <-. cbn. apply sidecar_round_trip; [done|].
    eapply Forall_impl; [exact Hk|]. by intros r [_ ?].
  - eexists. split; [done|]. split; [apply Hst|]. intros Hne. destruct (Hlast Hne) as (t & Ht & _). done.
Qed.

(** *** The directory *)

(** A directory in which cleaning leaves the three paths alone. *)
Definition index_directory (directory : string) : Prop :=
  directory <> "" /\ HasSuffix directory (String Separator "") = false
  /\ Forall (fun name => Clean (directory +:+ String Separator name) = directory +:+ String Separator name)
       [jobsFilename; assignTimesFilename; dropJournalFilename].

Context (s : FileStore).
#[local] Abbreviation directory := (fl_directory s).
Definition jobs_path : string := filepath_Join directory jobsFilename.
Definition times_path : string := filepath_Join directory assignTimesFilename.
#[local] Abbreviation guarded := [jobs_path; times_path].

(** After a crash at any moment both files can be read. *)
Definition loadable (d : Disk) : Prop := wf d /\ holds d jobs_path jobs_text /\ holds d times_path times_text.

Lemma crash_loadable d d' : crash d d' -> loadable d -> loadable d'.
Proof. intros Hc (Hwf & Hj & Ht). split_and!; [by eapply crash_wf|by eapply crash_holds..]. Qed.

Lemma loadable_flush d : loadable d -> loadable (flush_dir d).
Proof.
  intros (Hwf & Hj & Ht). destruct (Hj (d_dir d)) as (v & Hv & HS); [left|]. destruct (Ht (d_dir d)) as (u & Hu & HU); [left|].
  split_and!; [by apply wf_flush|by eapply holds_flush..].
Qed.

(** What is known of the two files, all of it readable. *)
Definition readable (K : string -> Known) : Prop :=
  (jobs_text (k_now (K jobs_path)) /\ forall v, k_may (K jobs_path) v -> jobs_text v)
  /\ (times_text (k_now (K times_path)) /\ forall v, k_may (K times_path) v -> times_text v).

Lemma knows_loadable K d : readable K -> knows guarded K d -> loadable d.
Proof.
  intros [[_ Hj] [_ Ht]] [Hwf Hk]. destruct (Hk jobs_path) as [_ Hhj]; [by left|]. destruct (Hk times_path) as [_ Hht]; [by right; left|].
  split_and!; [done|by eapply holds_mono..].
Qed.

Hypothesis plain_directory : index_directory directory.

Lemma join_plain name :
  name ∈ [jobsFilename; assignTimesFilename; dropJournalFilename] -> filepath_Join directory name = directory +:+ String Separator name.
Proof.
  intros Hn. destruct plain_directory as (Hne & _ & Hc). rewrite Forall_forall in Hc. unfold filepath_Join.
  rewrite (proj2 (String.eqb_neq _ _) Hne). by apply Hc.
Qed.

(** The names differ from each other and from temporaries, which begin with a dot. *)
Lemma paths_distinct : jobs_path <> times_path /\ filepath_Join directory dropJournalFilename ∉ guarded.
Proof.
  unfold jobs_path, times_path. rewrite !join_plain by set_solver.
  split; [intros Heq%string_app_inv_l; by injection Heq|].
  intros [Heq|[Heq|[]%elem_of_nil]%elem_of_cons]%elem_of_cons; apply string_app_inv_l in Heq; by injection Heq.
Qed.

Lemma dotted_not_guarded pattern prefix random :
  cut_last_star pattern = Some (String "." prefix, "") -> temp_path directory pattern random ∉ guarded.
Proof.
  intros Hcut. unfold temp_path, jobs_path, times_path. rewrite Hcut. destruct plain_directory as (_ & Hsuf & _). rewrite Hsuf.
  rewrite !join_plain by set_solver.
  intros [Heq|[Heq|[]%elem_of_nil]%elem_of_cons]%elem_of_cons; apply string_app_inv_l in Heq; by injection Heq.
Qed.

Lemma readable_rewritten_jobs t K : jobs_text (Some t) -> readable K -> readable (rewritten jobs_path (Some t) K).
Proof.
  intros Hj [[_ Hm] Ht]. unfold readable, rewritten. rewrite String.eqb_refl. cbn [k_now k_may].
  rewrite (proj2 (String.eqb_neq times_path jobs_path)) by (intros Heq; by apply (proj1 paths_distinct)).
  split; [|done]. split; [done|]. intros v [Hv| ->]; [by apply Hm|done].
Qed.

Lemma readable_rewritten_times v K : times_text v -> readable K -> readable (rewritten times_path v K).
Proof.
  intros Ht [Hj [_ Hm]]. unfold readable, rewritten. rewrite String.eqb_refl. cbn [k_now k_may].
  rewrite (proj2 (String.eqb_neq jobs_path times_path) (proj1 paths_distinct)).
  split; [done|]. split; [done|]. intros u [Hu| ->]; [by apply Hm|done].
Qed.

Lemma readable_flushed K : readable K -> readable (flushed K).
Proof. intros [[Hj _] [Ht _]]. split; (split; [done|]); by intros v <-. Qed.

Lemma readable_replacing target t K : readable (rewritten target (Some t) K) -> readable (replacing target t K).
Proof. intros Hr. unfold replacing. destruct write_through; [by apply readable_flushed|done]. Qed.

(** *** Loading *)

Lemma silent_load_beside {T} name path (empty : T) decode : silent (load_beside name path empty decode).
Proof.
  unfold load_beside. apply silent_bind; [by apply silent_ask|]. intros [f|e]; [|apply silent_ret].
  apply silent_bind; [by apply silent_ask|]. intros read. apply silent_bind; [by apply silent_ask|]. intros _. apply silent_ret.
Qed.

Lemma silent_secure l1 l2 path : silent (secure l1 l2 path).
Proof.
  unfold secure. apply silent_bind; [by apply silent_ask|]. intros [e|]; [apply silent_ret|].
  apply silent_bind; [by apply silent_ask|]. intros r. apply silent_ret.
Qed.

Lemma silent_hardenQuietly path : silent (hardenQuietly path).
Proof.
  unfold hardenQuietly. apply silent_bind; [by apply silent_ask|]. intros _.
  apply silent_bind; [by apply silent_ask|]. intros _. apply silent_ret.
Qed.

(** An answer of a load from the two texts. *)
Definition answers (jobs times : option string) (r : result fserror Catalog) : Prop :=
  match r with
  | Ok c => read_index jobs times = Ok c
  | Err e => Is e ErrJobRecordNotFound = true -> jobs = None
  end.

Lemma whole_read d f t limit : d_data d !! f = Some (t, true) -> doc_size t <= limit ->
  String.substring 0 (Z.to_nat (limit + 1)) (file_data f d) = t.
Proof. intros Hf Hs. unfold file_data. rewrite Hf. apply substring_whole. unfold doc_size in Hs. lia. Qed.

Lemma DecodeCatalog_size t c : DecodeCatalog t = Ok c -> doc_size t <= maximumJobStateLoad.
Proof. unfold DecodeCatalog. destruct (_ <? _) eqn:Hs; [done|]. by zb. Qed.
Lemma decode_times_size t c : decode_times t = Ok c -> doc_size t <= maximumJobState.
Proof. unfold decode_times, decode_beside. destruct (_ <? _) eqn:Hs; [done|]. by zb. Qed.

Lemma loadUnlocked_answers d jobs times :
  image d (d_dir d) jobs_path = Some jobs -> image d (d_dir d) times_path = Some times -> jobs_text jobs -> times_text times ->
  fwp (eq d) (FileStore_loadUnlocked s) (fun d' r => d' = d /\ answers jobs times r) d.
Proof.
  intros Hj Ht Htj Htt. unfold FileStore_loadUnlocked, readCatalogBytes. fold jobs_path. unfold image in Hj, Ht.
  answer o1; [split; [done|]; done|].
  destruct (d_dir d !! jobs_path) as [f|]; [|injection Hj as <-; by split].
  destruct (d_data d !! f) as [[t []]|] eqn:Hf; try done. injection Hj as <-. destruct Htj as [c Hc].
  pose proof (DecodeCatalog_size _ _ Hc) as Hsize.
  answer o2.
  { answer o3; split; done. }
  rewrite (whole_read d f t _ Hf Hsize). answer o3; [by split|]. cbn [fbind]. rewrite Hc.
  unfold loadAssignTimes, load_beside. fold times_path. answer o4; [by split|].
  destruct (d_dir d !! times_path) as [g|].
  2:{ injection Ht as <-. cbn. split; [done|]. unfold answers, read_index. by rewrite Hc. }
  destruct (d_data d !! g) as [[u []]|] eqn:Hg; try done. injection Ht as <-. destruct Htt as [v Hv].
  pose proof (decode_times_size _ _ Hv) as Hsize2.
  answer o5; [by answer o6; split|]. rewrite (whole_read d g u _ Hg Hsize2).
  answer o6; rewrite Hv; (split; [done|]); unfold answers, read_index; by rewrite Hc, Hv.
Qed.

(** *** Saving *)

Lemma journal_write_ok : write_ok guarded (journal_plan directory).
Proof.
  constructor; try done.
  - intros f path [= <-]. apply silent_hardenQuietly.
  - intros f path [= <-]. apply silent_hardenQuietly.
  - intros random. eapply dotted_not_guarded. reflexivity.
Qed.
Lemma times_write_ok : write_ok guarded (times_plan directory).
Proof.
  constructor; try done.
  - intros f path [= <-]. apply silent_secure.
  - intros f path [= <-]. apply silent_secure.
  - intros random. eapply dotted_not_guarded. reflexivity.
Qed.
Lemma jobs_write_ok c dropped droppedAt : write_ok guarded (jobs_plan s c dropped droppedAt).
Proof.
  constructor; try done.
  - intros f path [= <-]. apply silent_secure.
  - intros f path [= <-]. apply silent_secure.
  - intros random. eapply dotted_not_guarded. reflexivity.
Qed.

(** Each plan as a write of one file: the sidecar's and the journal's hooks leave the
    disk alone, and the hook of jobs.json writes beside it. *)
Lemma write_ok_fewer paths paths' plan : (forall p, p ∈ paths' -> p ∈ paths) -> write_ok paths plan -> write_ok paths' plan.
Proof. intros Hsub []. constructor; auto. intros random Hin. eapply wo_temporary, Hsub, Hin. Qed.

Lemma plan_ok_silent plan :
  write_ok [dw_Target plan] plan -> (forall p, dw_AfterReplace plan = Some p -> hook_ok false (fun r => r <> None) (dw_Target plan) p) ->
  plan_ok false plan.
Proof.
  intros [] Hafter. constructor; auto.
  - intros random Heq. apply (wo_temporary random). rewrite Heq. left.
  - intros f Hf. apply silent_hook_ok. by eapply wo_after_replace.
  - intros f Hf. by rewrite wo_failure in Hf.
Qed.

Lemma times_plan_ok : plan_ok false (times_plan directory).
Proof. apply plan_ok_silent; [|done]. eapply write_ok_fewer; [|exact times_write_ok]. intros p ->%list_elem_of_singleton. right. left. Qed.

Lemma journal_temporaries random :
  temp_path (dw_Directory (journal_plan directory)) (dw_TemporaryPattern (journal_plan directory)) random <> dw_Target (journal_plan directory).
Proof.
  cbn [dw_Directory dw_TemporaryPattern dw_Target journal_plan]. unfold temp_path. destruct plain_directory as (_ & Hsuf & _).
  cbn. rewrite Hsuf, join_plain by set_solver. intros Heq%string_app_inv_l. by injection Heq.
Qed.

Lemma journal_plan_ok : plan_ok false (journal_plan directory).
Proof.
  apply plan_ok_silent; [|done]. destruct journal_write_ok. constructor; auto. intros random ?%list_elem_of_singleton. by eapply journal_temporaries.
Qed.

(** What follows the replacement of jobs.json leaves it alone. *)
Lemma journal_beside K d dropped droppedAt :
  knows [jobs_path] K d -> fwp (knows [jobs_path] K) (journal_dropped directory dropped droppedAt) (fun d' _ => knows [jobs_path] K d') d.
Proof.
  intros Hk. unfold journal_dropped. destruct dropped as [|r dropped]; [done|].
  apply fwp_silent; [apply silent_load_beside|done|]. intros [journal|e]; [|done].
  destruct (encodeDropJournalWithinCapacity _ _) as [[entries|]|]; try done. destruct (encodeJournal entries) as [t|]; [|done].
  apply fwp_bind. eapply fwp_mono; [apply WriteBytes_elsewhere|]; [|done| |done|done].
  - eapply write_ok_fewer; [|exact journal_write_ok]. intros p ->%list_elem_of_singleton. left.
  - intros Hin%list_elem_of_singleton. apply (proj2 paths_distinct). cbn [dw_Target journal_plan] in Hin. rewrite Hin. left.
Qed.

Lemma sidecar_beside K d c :
  knows [jobs_path] K d -> fwp (knows [jobs_path] K) (saveAssignTimesUnlocked directory c) (fun d' _ => knows [jobs_path] K d') d.
Proof.
  assert (Hother : times_path ∉ [jobs_path]) by (intros Heq%list_elem_of_singleton; by apply (proj1 paths_distinct)).
  intros Hk. unfold saveAssignTimesUnlocked. cbn [ac_Entries]. destruct (assignTimesFromCatalog c) as [|e entries].
  - apply fwp_bind. eapply fwp_mono; [by apply Remove_elsewhere|done].
  - destruct (marshal _) as [t|]; [|done]. destruct (_ <? _); [done|]. apply WriteBytes_elsewhere; [|done|exact Hother|done].
    eapply write_ok_fewer; [|exact times_write_ok]. intros p ->%list_elem_of_singleton. left.
Qed.

Lemma jobs_plan_ok c dropped droppedAt : plan_ok false (jobs_plan s c dropped droppedAt).
Proof.
  apply plan_ok_silent.
  - eapply write_ok_fewer; [|apply jobs_write_ok]. intros p ->%list_elem_of_singleton. left.
  - intros p [= <-] K d Hk. eapply fwp_weaken_inv; [intros d'; by left|].
    eapply fwp_mono; [apply fwp_bind; eapply fwp_mono; [by apply journal_beside|]|intros d' r Hd'; left; exact Hd'].
    intros d1 [] Hd1. by apply sidecar_beside.
Qed.

(** The journal leaves the two files alone. *)
Lemma journal_keeps K d dropped droppedAt :
  readable K -> knows guarded K d -> fwp loadable (journal_dropped directory dropped droppedAt) (fun d' _ => knows guarded K d') d.
Proof.
  intros Hr Hk. pose proof (knows_loadable _ _ Hr Hk) as Hl. unfold journal_dropped. destruct dropped as [|r dropped]; [done|].
  apply fwp_silent; [apply silent_load_beside|done|]. intros [journal|e]; [|done].
  destruct (encodeDropJournalWithinCapacity _ _) as [[entries|]|]; try done. destruct (encodeJournal entries) as [t|]; [|done].
  apply fwp_bind. eapply fwp_mono; [eapply fwp_weaken_inv; [|apply (WriteBytes_elsewhere guarded (journal_plan directory) t K d journal_write_ok)]|];
    [intros d'; by apply knows_loadable|done|apply (proj2 paths_distinct)|done|done].
Qed.

(** What the sidecar is for a catalog. *)
Definition sidecar_text (c : Catalog) (v : option string) : Prop :=
  match v with
  | None => assignTimesFromCatalog c = []
  | Some t => decode_times t = Ok (mkAssignTimesCatalog assignTimesSchemaVersion (assignTimesFromCatalog c))
  end.

Lemma sidecar_times_text c v : sidecar_text c v -> times_text v.
Proof. destruct v; [by eexists|done]. Qed.

Definition with_sidecar (v : option string) (K : string -> Known) : string -> Known :=
  match v with None => rewritten times_path None K | Some t => replacing times_path t K end.

Lemma with_sidecar_readable c v K : sidecar_text c v -> readable K -> readable (with_sidecar v K).
Proof.
  intros Hv Hr. apply sidecar_times_text in Hv. destruct v; [apply readable_replacing|]; by apply readable_rewritten_times.
Qed.

Definition sidecar_saved (c : Catalog) (K : string -> Known) (d : Disk) (r : option fserror) : Prop :=
  loadable d /\ (r = None -> exists v, sidecar_text c v /\ knows guarded (with_sidecar v K) d).

Lemma saveAssignTimes_spec c K d :
  Forall keepable (cat_Records c) -> readable K -> knows guarded K d ->
  fwp loadable (saveAssignTimesUnlocked directory c) (sidecar_saved c K) d.
Proof.
  intros Hc Hr Hk. pose proof (knows_loadable _ _ Hr Hk) as Hl. unfold saveAssignTimesUnlocked. cbn [ac_Entries].
  destruct (assignTimesFromCatalog c) as [|e entries] eqn:Hes.
  - apply fwp_ask. intros o r d1 Hp. pose proof (remove_guarded _ _ _ _ _ _ _ Hk Hp) as Hrem. cbn [fbind].
    assert (Hnew : forall d', knows guarded (rewritten times_path None K) d' -> loadable d').
    { intros d'. apply knows_loadable. by apply readable_rewritten_times. }
    destruct r as [err|].
    + subst d1. split; [done|]. split; [done|]. intros Hnone. cbn in Hp. unfold effect, ch_error in Hp.
      destruct (ch_fault o); [|done]. injection Hp as <-. done.
    + split; [by apply Hnew|]. split; [by apply Hnew|]. intros _. by exists None.
  - rewrite <- Hes. destruct (marshal _) as [t|] eqn:Hm; [|by split]. destruct (_ <? _) eqn:Hsize; [by split|]. zb.
    assert (Hv : sidecar_text c (Some (t +:+ newline))) by (by apply times_encoding_decodes).
    pose proof (with_sidecar_readable _ _ _ Hv Hr) as Hr2.
    assert (Hnew : forall d', knows guarded (with_sidecar (Some (t +:+ newline)) K) d' -> loadable d') by (intros d'; by apply knows_loadable).
    apply (WriteBytes_rule guarded _ _ K _ times_write_ok)
      with (M := fun d' _ => knows guarded (with_sidecar (Some (t +:+ newline)) K) d'); [intros d'; by apply knows_loadable| | | | | |].
    + intros d' Hd'. split; [by apply Hnew|done].
    + intros d' _. apply Hnew.
    + done.
    + intros d' err Hd'. split; [by apply (knows_loadable K)|done].
    + intros d' r err Hd'. split; [by apply Hnew|done].
    + intros d' Hd'. unfold commits. cbn [dw_SkipDirectorySync times_plan orb]. split; [by apply Hnew|].
      split; [by apply Hnew|]. intros _. by exists (Some (t +:+ newline)).
Qed.

(** The disk after a successful save: every crash leaves the new text of jobs.json, and
    the new sidecar if there is one. *)
Definition settled_index (c : Catalog) (bytes : string) (d : Disk) : Prop :=
  loadable d /\ holds d jobs_path (eq (Some bytes))
  /\ (assignTimesFromCatalog c <> [] -> exists t, sidecar_text c (Some t) /\ holds d times_path (eq (Some t))).

Lemma crash_settled c bytes d d' : crash d d' -> settled_index c bytes d -> settled_index c bytes d'.
Proof.
  intros Hc (Hl & Hj & Ht). split_and!; [by eapply crash_loadable|by eapply crash_holds|].
  intros Hne. destruct (Ht Hne) as (t & Hs & Hh). exists t. split; [done|]. by eapply crash_holds.
Qed.

(** The new texts, all of them flushed. *)
Lemma flushed_settled c bytes v K d :
  sidecar_text c v -> k_now (K jobs_path) = Some bytes -> k_now (K times_path) = v -> loadable d ->
  knows guarded (flushed K) d -> settled_index c bytes d.
Proof.
  intros Hv Hj Ht Hl [_ Hk]. destruct (Hk jobs_path) as [_ Hhj]; [by left|]. destruct (Hk times_path) as [_ Hht]; [by right; left|].
  cbn [flushed k_may] in Hhj, Hht. rewrite Hj in Hhj. rewrite Ht in Hht. split_and!; [done|done|]. intros Hne.
  destruct v as [t|]; [exists t; by split|by destruct Hne].
Qed.

Lemma with_sidecar_now v K : k_now (with_sidecar v K times_path) = v /\ k_now (with_sidecar v K jobs_path) = k_now (K jobs_path).
Proof.
  unfold with_sidecar, replacing, flushed, rewritten. destruct v; [destruct write_through|];
    cbn; rewrite ?String.eqb_refl, ?(proj2 (String.eqb_neq jobs_path times_path) (proj1 paths_distinct)); done.
Qed.

Lemma replacing_jobs_now t K : k_now (replacing jobs_path t K jobs_path) = Some t.
Proof. unfold replacing, flushed, rewritten. destruct write_through; cbn; by rewrite String.eqb_refl. Qed.

(** Where a replacement is durable by itself nothing is left to flush, but for the removal of
    an empty sidecar. *)
Lemma written_through_settled c bytes v K d :
  write_through = true -> sidecar_text c v -> loadable d ->
  knows guarded (with_sidecar v (replacing jobs_path bytes K)) d -> settled_index c bytes d.
Proof.
  intros Hw Hv Hl [_ Hk]. destruct (Hk jobs_path) as [_ Hhj]; [by left|]. destruct (Hk times_path) as [_ Hht]; [by right; left|].
  pose proof (proj2 (String.eqb_neq jobs_path times_path) (proj1 paths_distinct)) as Hne.
  unfold with_sidecar, replacing in Hhj, Hht. rewrite Hw in Hhj, Hht. split_and!; [done| |].
  - destruct v as [t|]; unfold flushed, rewritten in Hhj; cbn in Hhj; rewrite ?Hne, ?String.eqb_refl in Hhj; exact Hhj.
  - intros Hnonempty. destruct v as [t|]; [|by destruct Hnonempty]. exists t. split; [done|]. unfold flushed, rewritten in Hht. cbn in Hht.
    by rewrite String.eqb_refl in Hht.
Qed.

(** The text of a catalog that can be read back. *)
Definition saved_form (c : Catalog) (bytes : string) : Prop :=
  Validate c = Ok () /\ Forall keepable (cat_Records c) /\ DecodeCatalog bytes = Ok (stored c).

Definition index_saved (c : Catalog) (d : Disk) (r : option fserror) : Prop :=
  loadable d /\ (r = None -> exists bytes c' dropped,
    encodeWithinCapacity encodeCatalog c = Some (Ok (bytes, c', dropped)) /\ saved_form c' bytes /\ settled_index c' bytes d).

Lemma saveUnlocked_spec c droppedAt K d :
  Validate c = Ok () -> Forall keepable (cat_Records c) -> readable K -> knows guarded K d ->
  fwp loadable (FileStore_saveUnlocked s c droppedAt) (index_saved c) d.
Proof.
  intros Hv Hc Hr Hk. pose proof (knows_loadable _ _ Hr Hk) as Hl. unfold FileStore_saveUnlocked.
  do 3 (apply fwp_inert; [done|done|]; intros ?; apply fwp_unless_failed; [by split|intros _]); clear r r0 r1.
  destruct (encode_loop_ok encodeCatalog (S (length (cat_Records c))) c []) as (res & Heq & Hres); [lia|].
  fold (encodeWithinCapacity encodeCatalog c) in Heq. rewrite Heq. destruct res as [[[bytes c'] dropped]|e]; [|by split].
  destruct Hres as (Hsize & Henc & Hsh & _).
  assert (Hv' : Validate c' = Ok ()) by (by eapply shrunk_ok).
  assert (Hc' : Forall keepable (cat_Records c')).
  { apply Forall_forall. intros r Hin. rewrite Forall_forall in Hc. apply Hc. by apply (sublist_subseteq _ _ (sh_sublist _ _ Hsh)). }
  pose proof (jobs_encoding_decodes _ _ Henc Hsize Hc' Hv') as Hdec.
  assert (Hr1 : readable (replacing jobs_path bytes K)).
  { apply readable_replacing, readable_rewritten_jobs; [by eexists|done]. }
  apply (WriteBytes_rule guarded _ _ K _ (jobs_write_ok c' dropped droppedAt)) with (M := sidecar_saved c' (replacing jobs_path bytes K));
    [intros d'; by apply knows_loadable| | | | | |].
  - intros d' Hd'. split; [by eapply knows_loadable|]. cbn [run_hook dw_AfterReplace jobs_plan]. apply fwp_bind.
    eapply fwp_mono; [by apply journal_keeps|]. intros d2 [] Hd2. by apply saveAssignTimes_spec.
  - by intros d' r [? _].
  - done.
  - intros d' e Hd'. split; [by apply (knows_loadable K)|done].
  - intros d' r e [Hd' _]. by split.
  - intros d' [Hd' Hnone]. destruct (Hnone eq_refl) as (v & Hvt & Hkn). unfold commits. cbn [dw_SkipDirectorySync jobs_plan orb].
    destruct write_through eqn:Hw.
    + split; [done|]. split; [done|]. intros _. exists bytes, c', dropped. split; [done|]. split; [done|]. by eapply written_through_settled.
    + pose proof (loadable_flush _ Hd'). split; [done|]. split; [done|]. split; [done|]. intros _. exists bytes, c', dropped.
      split; [done|]. split; [done|].
      destruct (with_sidecar_now v (replacing jobs_path bytes K)) as [Hnt Hnj]. rewrite replacing_jobs_now in Hnj.
      eapply flushed_settled; [exact Hvt|exact Hnj|exact Hnt|done|]. by apply knows_flush.
Qed.

(** *** Operations *)

(** What the operation started from: the catalog it read, or an empty one. *)
Definition starts_from (d : Disk) (c : Catalog) : Prop :=
  exists jobs times, image d (d_dir d) jobs_path = Some jobs /\ image d (d_dir d) times_path = Some times
    /\ (read_index jobs times = Ok c \/ jobs = None /\ c = mkCatalog SchemaVersion []).

Lemma starts_valid d c : starts_from d c -> Validate c = Ok () /\ Forall keepable (cat_Records c).
Proof. intros (jobs & times & _ & _ & [Hr|[_ ->]]); [by eapply read_index_valid|]. by split. Qed.

(** The texts of a readable disk. *)
Lemma loadable_texts d :
  loadable d -> exists jobs times, image d (d_dir d) jobs_path = Some jobs /\ image d (d_dir d) times_path = Some times
    /\ jobs_text jobs /\ times_text times
    /\ knows guarded (fun p => if String.eqb p jobs_path then mkKnown jobs jobs_text else mkKnown times times_text) d.
Proof.
  intros (Hwf & Hj & Ht). destruct (Hj (d_dir d)) as (v & Hv & HS); [left|]. destruct (Ht (d_dir d)) as (u & Hu & HU); [left|].
  exists v, u. split_and!; try done. split; [done|]. intros p Hp.
  apply elem_of_cons in Hp as [->|[->|[]%elem_of_nil]%elem_of_cons]; [by rewrite String.eqb_refl|].
  by rewrite (proj2 (String.eqb_neq times_path jobs_path)) by (intros Heq; by apply (proj1 paths_distinct)).
Qed.

Lemma texts_readable jobs times :
  jobs_text jobs -> times_text times ->
  readable (fun p => if String.eqb p jobs_path then mkKnown jobs jobs_text else mkKnown times times_text).
Proof.
  intros Hj Ht. unfold readable. rewrite String.eqb_refl.
  by rewrite (proj2 (String.eqb_neq times_path jobs_path)) by (intros Heq; by apply (proj1 paths_distinct)).
Qed.

(** A load answers with what the texts say, and the disk stays as it is. *)
Lemma load_started {A} (k : result fserror Catalog -> fprog A) Q d :
  loadable d ->
  (forall r, match r with Ok c => starts_from d c | Err e => Is e ErrJobRecordNotFound = true -> starts_from d (mkCatalog SchemaVersion []) end ->
     fwp loadable (k r) Q d) ->
  fwp loadable (fbind (FileStore_loadUnlocked s) k) Q d.
Proof.
  intros Hl Hk. destruct (loadable_texts _ Hl) as (jobs & times & Hj & Ht & Htj & Htt & _). apply fwp_bind.
  eapply fwp_mono; [eapply fwp_weaken_inv; [|by apply (loadUnlocked_answers d jobs times)]; by intros ? <-|].
  intros d' r [-> Hr]. apply Hk. destruct r as [c|e]; cbn in Hr.
  - exists jobs, times. split_and!; auto.
  - intros He. exists jobs, times. split_and!; auto.
Qed.

(** The outcome of a locked operation: a failed unlock is an error too. *)
Lemma locked_spec {A} (zero : A) (body : fprog (A * option fserror)) (R : Disk -> A -> Prop) d :
  loadable d -> fwp loadable body (fun d' '(a, err) => loadable d' /\ (err = None -> R d' a)) d ->
  fwp loadable (locked zero body) (fun d' '(a, err) => loadable d' /\ (err = None -> R d' a)) d.
Proof.
  intros Hl Hb. unfold locked. apply fwp_inert; [done|done|]. intros taken. apply fwp_unless_failed; [by split|intros _].
  apply fwp_bind. eapply fwp_mono; [exact Hb|]. intros d' [a err] [Hl' HR].
  apply fwp_inert; [done|done|]. intros released. cbn [fwp]. split; [done|]. by destruct err, released.
Qed.

(** What an update without error did. *)
Definition update_done (patches : list Patch) (now : time) (d d' : Disk) (results : list JobRecord) : Prop :=
  exists c, starts_from d c /\ results = us_results (upserted c patches now) /\ us_errors (upserted c patches now) = []
    /\ if us_changed (upserted c patches now)
       then exists bytes c' dropped, encodeWithinCapacity encodeCatalog (updated c patches now) = Some (Ok (bytes, c', dropped))
              /\ saved_form c' bytes /\ settled_index c' bytes d'
       else d' = d.

Lemma joined_none es : joined (map (fun e => Some (index_error e)) es) = None -> es = [].
Proof. by destruct es. Qed.

Lemma UpsertMany_spec patches now droppedAt d :
  Forall patch_text patches -> loadable d ->
  fwp loadable (FileStore_UpsertMany s patches now droppedAt)
    (fun d' '(results, err) => loadable d' /\ (err = None -> update_done patches now d d' results)) d.
Proof.
  intros Hp Hl. unfold FileStore_UpsertMany. apply locked_spec; [done|]. apply load_started; [done|]. intros loaded Hloaded.
  assert (Hstart : match (match loaded with Err e => if Is e ErrJobRecordNotFound then Ok (mkCatalog SchemaVersion []) else Err e | Ok c => Ok c end) with
                   | Ok c => starts_from d c | Err _ => True end).
  { destruct loaded as [c|e]; [done|]. destruct (Is e _); [by apply Hloaded|done]. }
  destruct (match loaded with Ok c => Ok c | Err e => _ end) as [c|e]; [|by split]. clear Hloaded.
  pose proof (starts_valid _ _ Hstart) as [Hv Hc].
  destruct (us_changed (upserted c patches now)) eqn:Hch; cbn [negb].
  2:{ split; [done|]. intros Herr%joined_none. exists c. by rewrite Hch. }
  destruct (Validate (updated c patches now)) as [[]|] eqn:Hval; [|by split].
  assert (Hk : Forall keepable (cat_Records (updated c patches now))).
  { unfold updated, Sort. cbn [cat_Records]. rewrite sort_by_perm. by apply upserted_keepable. }
  destruct (loadable_texts _ Hl) as (jobs & times & _ & _ & Htj & Htt & Hkn).
  apply fwp_bind. eapply fwp_mono; [apply (saveUnlocked_spec _ _ _ _ Hval Hk (texts_readable _ _ Htj Htt) Hkn)|].
  intros d' [e|] [Hl' Hs]; cbn [fwp]; (split; [done|]); [done|]. intros Herr%joined_none. exists c. rewrite Hch. by split_and!; auto.
Qed.

Lemma PruneTombstones_loadable before droppedAt d :
  loadable d -> fwp loadable (FileStore_PruneTombstones s before droppedAt) (fun d' '(_, err) => loadable d' /\ (err = None -> True)) d.
Proof.
  intros Hl. unfold FileStore_PruneTombstones. destruct (IsZero before); [by split|].
  apply (locked_spec 0 _ (fun _ _ => True)); [done|]. apply load_started; [done|]. intros [c|e] Hloaded; [|by split].
  destruct (_ =? 0); [by split|]. pose proof (starts_valid _ _ Hloaded) as [Hv Hc].
  destruct (loadable_texts _ Hl) as (jobs & times & _ & _ & Htj & Htt & Hkn).
  apply fwp_bind. eapply fwp_mono; [eapply (saveUnlocked_spec _ _ _ _ _ _ (texts_readable _ _ Htj Htt) Hkn)|].
  - intros d' [e|] [Hl' _]; by split.
  Unshelve.
  + apply Validate_spec in Hv as [Hs Hr]. apply Validate_spec. split; [done|]. eapply RecordsOk_sublist; [|exact Hr]. apply filter_sublist.
  + apply Forall_forall. intros r Hr. rewrite Forall_forall in Hc. apply Hc. cbn in Hr. apply (sublist_subseteq _ _ (filter_sublist _ _) _ Hr).
Qed.

(** A load of a settled index gives the catalog that was saved. *)
Lemma settled_load c bytes d :
  saved_form c bytes -> settled_index c bytes d ->
  fwp loadable (FileStore_Load s)
    (fun _ '(c2, err) => match err with
                         | None => stored c2 = stored c /\ (assignTimesFromCatalog c <> [] -> c2 = c)
                         | Some e => Is e ErrJobRecordNotFound = false
                         end) d.
Proof.
  intros (Hv & Hk & Hd) (Hl & Hj & Ht). destruct (Hj (d_dir d)) as (jobs & Hij & <-); [left|].
  pose proof Hl as (_ & _ & Htimes). destruct (Htimes (d_dir d)) as (times & Hit & Htt); [left|].
  destruct (saved_texts_read c bytes times Hd Hv Hk Htt) as (c' & Hread & Hst & Hsame).
  { intros Hne. destruct (Ht Hne) as (t & Hs & Hh). destruct (Hh (d_dir d)) as (u & Hu & <-); [left|].
    rewrite Hu in Hit. injection Hit as <-. by exists t. }
  unfold FileStore_Load, locked. answer o1; [done|]. apply fwp_bind, fwp_bind.
  eapply fwp_mono; [eapply fwp_weaken_inv; [|apply (loadUnlocked_answers d (Some bytes) times Hij Hit); [by eexists|done]]; by intros ? <-|].
  intros d' r [-> Hr]. destruct r as [c2|e]; cbn [fwp].
  - change (read_index (Some bytes) times = Ok c2) in Hr. rewrite Hread in Hr. injection Hr as <-. answer o2; done.
  - cbn in Hr. assert (He : Is e ErrJobRecordNotFound = false) by (destruct (Is e _); [by specialize (Hr eq_refl)|done]).
    answer o2; cbn; by rewrite He.
Qed.

(** A disk without directory changes that wait for a flush: a crash keeps what is
    read, and a load that answers gives it. *)
Lemma crash_starts d d' c : d_old d = [] -> crash d d' -> starts_from d c -> starts_from d' c.
Proof.
  intros Hnone (Hdir & _ & _ & Hdata) (jobs & times & Hj & Ht & Hc). rewrite Hnone in Hdir. apply list_elem_of_singleton in Hdir.
  assert (Himage : forall path v, image d (d_dir d) path = Some v -> image d' (d_dir d') path = Some v).
  { intros path v. unfold image. rewrite Hdir. destruct (d_dir d !! path) as [f|]; [|done].
    destruct (d_data d !! f) as [[t []]|] eqn:Hf; try done. by rewrite (Hdata _ _ Hf). }
  exists jobs, times. split_and!; auto.
Qed.

Lemma steady_load d c :
  loadable d -> starts_from d c -> fwp (eq d) (FileStore_Load s) (fun _ '(c2, err) => err = None -> c2 = c) d.
Proof.
  intros (_ & Hhj & Hht) (jobs & times & Hj & Ht & Hc).
  assert (Hjt : jobs_text jobs) by (destruct (Hhj (d_dir d)) as (v & Hv & HS); [left|]; congruence).
  assert (Htt : times_text times) by (destruct (Hht (d_dir d)) as (v & Hv & HS); [left|]; congruence).
  unfold FileStore_Load, locked. answer o1; [done|]. apply fwp_bind, fwp_bind.
  eapply fwp_mono; [apply (loadUnlocked_answers d jobs times Hj Ht Hjt Htt)|].
  intros d' r [-> Hr]. destruct r as [c2|e]; cbn [fwp].
  - cbn in Hr. destruct Hc as [Hc|[-> _]]; [|done]. rewrite Hc in Hr. injection Hr as <-. answer o2; done.
  - answer o2; done.
Qed.
End IndexFacts.

(** C5: Updates of the job index survive crashes.  Wherever an update stops and whatever a
    crash brings back, both files of the index can be read.  When it reports success,
    the results are those of merging the patches into what the files held.  When they
    changed anything, every load after any crash finds the index and, if it answers,
    gives the merged catalog as compaction left it, with its assignment times unless it
    has none.  When they changed nothing, the disk is left as it was, and the catalog
    that was read survives a crash if no directory change was waiting for its flush
    before. *)
Theorem job_updates_survive_crashes {platform : Platform} {file_paths : FilePath} {jobs_codec : Codec Catalog}
    {times_codec : Codec AssignTimesCatalog} {drops_codec : Codec DropJournal} {laws : CodecLaws jobs_codec times_codec}
    s patches now droppedAt d tr d' results err :
  index_directory (fl_directory s) -> Forall patch_text patches -> loadable s d ->
  fexec (FileStore_UpsertMany s patches now droppedAt) d tr d' (results, err) ->
  (forall di dc, di ∈ tr -> crash di dc -> loadable s dc)
  /\ (err = None -> exists c, starts_from s d c
      /\ results = us_results (upserted c patches now) /\ us_errors (upserted c patches now) = []
      /\ if us_changed (upserted c patches now)
         then exists bytes c' dropped, encodeWithinCapacity encodeCatalog (updated c patches now) = Some (Ok (bytes, c', dropped))
              /\ forall dc tr2 d2 c2 err2, crash d' dc -> fexec (FileStore_Load s) dc tr2 d2 (c2, err2) ->
                   match err2 with
                   | None => stored c2 = stored c' /\ (assignTimesFromCatalog c' <> [] -> c2 = c')
                   | Some e => Is e ErrJobRecordNotFound = false
                   end
         else d' = d
              /\ (d_old d = [] -> forall dc tr2 d2 c2, crash d dc -> fexec (FileStore_Load s) dc tr2 d2 (c2, None) -> c2 = c)).
Proof.
  intros Hdir Hp Hl Hex.
  destruct (fwp_fexec _ _ _ _ _ _ _ (UpsertMany_spec s Hdir patches now droppedAt d Hp Hl) Hex) as [Hall [Hl' Hdone]]. split.
  - intros di dc Hin Hcrash. rewrite Forall_forall in Hall. eapply crash_loadable; [exact Hcrash|by apply Hall].
  - intros Herr. destruct (Hdone Herr) as (c & Hstart & Hres & Herrs & Hch). exists c. split_and!; [done..|].
    destruct (us_changed _).
    2: { split; [done|]. intros Hold dc tr2 d2 c2 Hcrash Hload.
         pose proof (steady_load s dc c (crash_loadable s _ _ Hcrash Hl) (crash_starts s _ _ _ Hold Hcrash Hstart)) as Hwp.
         exact (proj2 (fwp_fexec _ _ _ _ _ _ _ Hwp Hload) eq_refl). }
    destruct Hch as (bytes & c' & dropped & Henc & Hform & Hset). exists bytes, c', dropped. split; [done|].
    intros dc tr2 d2 c2 err2 Hcrash Hload.
    pose proof (settled_load s c' bytes dc Hform (crash_settled s c' bytes _ _ Hcrash Hset)) as Hwp.
    exact (proj2 (fwp_fexec _ _ _ _ _ _ _ Hwp Hload)).
Qed.

(** ** Concrete runs *)

#[export] Instance Catalog_eq_dec : EqDecision Catalog.
Proof. solve_decision. Defined.
#[export] Instance AssignTimeEntry_eq_dec : EqDecision AssignTimeEntry.
Proof. solve_decision. Defined.
#[export] Instance AssignTimesCatalog_eq_dec : EqDecision AssignTimesCatalog.
Proof. solve_decision. Defined.

Module JobDiskSamples.
Import StoreSamples.

Definition saved_catalog : Catalog := mkCatalog SchemaVersion [sample_record].
Definition saved_times : AssignTimesCatalog := mkAssignTimesCatalog assignTimesSchemaVersion (assignTimesFromCatalog saved_catalog).

(** Codecs that know one document each. *)
#[export] Instance one_catalog : Codec Catalog := {|
  marshal c := if decide (stored c = stored saved_catalog) then Ok "{jobs}" else Err (ErrNew "unknown");
  decode_first t := if String.eqb t ("{jobs}" +:+ newline) then Ok (stored saved_catalog) else Err (ErrNew "syntax");
  decode_trailer _ := TrailerEOF |}.
#[export] Instance one_times : Codec AssignTimesCatalog := {|
  marshal v := if decide (v = saved_times) then Ok "{times}" else Err (ErrNew "unknown");
  decode_first t := if String.eqb t ("{times}" +:+ newline) then Ok saved_times else Err (ErrNew "syntax");
  decode_trailer _ := TrailerEOF |}.
#[export] Instance no_journal : Codec DropJournal := {|
  marshal _ := Err (ErrNew "unknown"); decode_first _ := Err (ErrNew "syntax"); decode_trailer _ := TrailerEOF |}.

#[export] Program Instance one_document_laws : CodecLaws one_catalog one_times := {| json_text _ := true |}.
Next Obligation. done. Qed.
Next Obligation. done. Qed.
Next Obligation. intros c t _ Hm. cbn in Hm. case_decide as Hc; [|done]. injection Hm as <-. by rewrite Hc. Qed.
Next Obligation. intros t c Hd. cbn in Hd. destruct (String.eqb _ _); [|done]. injection Hd as <-. by repeat constructor. Qed.
Next Obligation. intros v t _ Hm. cbn in Hm. case_decide as Hv; [|done]. injection Hm as <-. by subst v. Qed.

Definition index : FileStore := mkFileStore "/state".
Definition update : fprog (list JobRecord * option fserror) := FileStore_UpsertMany index [sample_patch] 5 6.

Lemma index_plain : index_directory (fl_directory index).
Proof. split_and!; [done|done|]. by repeat constructor. Qed.
Lemma empty_loadable : loadable index empty_disk.
Proof.
  split_and!; [exact (proj1 empty_simulates)|..]; intros dir Hin; apply list_elem_of_singleton in Hin as ->; by exists None.
Qed.
Lemma sample_text : Forall patch_text [sample_patch].
Proof. by repeat constructor. Qed.
Lemma run_of {A} (p : fprog A) o d a : (frun p o d).2 = a -> fexec p d (frun p o d).1.1 (frun p o d).1.2 a.
Proof. intros <-. apply (frun_fexec _ o). generalize (frun p o d). by intros [[disks d'] r]. Qed.

Definition updated_disks : list Disk := (frun update faultless empty_disk).1.1.
Definition updated_disk : Disk := (frun update faultless empty_disk).1.2.
Lemma update_result : (frun update faultless empty_disk).2 = ([sample_record], None).
Proof. vm_compute. reflexivity. Qed.
Lemma update_runs : fexec update empty_disk updated_disks updated_disk ([sample_record], None).
Proof. exact (run_of _ _ _ _ update_result). Qed.
End JobDiskSamples.
Import StoreSamples JobDiskSamples.

Lemma job_updates_survive_crashes_witness :
  (forall di dc, di ∈ JobDiskSamples.updated_disks -> crash di dc -> loadable JobDiskSamples.index dc)
  /\ exists c, starts_from JobDiskSamples.index StoreSamples.empty_disk c /\ [sample_record] = us_results (upserted c [sample_patch] 5).
Proof.
  destruct (job_updates_survive_crashes JobDiskSamples.index [sample_patch] 5 6 _ _ _ _ _ JobDiskSamples.index_plain
    JobDiskSamples.sample_text JobDiskSamples.empty_loadable JobDiskSamples.update_runs) as [Hcrash Hdone].
  split; [exact Hcrash|]. destruct (Hdone eq_refl) as (c & Hstart & Hres & _). exists c. split; [exact Hstart|exact Hres].
Defined.


(** An update whose directory flush failed is reported as failed; repeated, it finds
    nothing to change and succeeds without a flush, and a crash still loses it. *)
Module RetrySamples.
Definition flush_fails (n : nat) : choice := mkChoice (if (n =? 26)%nat then Some "disk" else None) 7 "" "".
Definition failed_disk : Disk := (frun update flush_fails empty_disk).1.2.
Definition retried_disk : Disk := (frun update faultless failed_disk).1.2.

Lemma update_fails : (frun update flush_fails empty_disk).2 = ([], Some (Chain [Labeled "flush jobs state directory" (OSError false false "disk")])).
Proof. vm_compute. reflexivity. Qed.

(** The answer of the repeated update, and the directory a crash may still bring back. *)
Lemma update_retried : ((frun update faultless failed_disk).2, last (d_old retried_disk)) = (([sample_record], None), Some ∅).
Proof. vm_compute. reflexivity. Qed.

Theorem retry_reports_unflushed_update :
  exists tr1 e tr2, fexec update empty_disk tr1 failed_disk ([], Some e) /\ fexec update failed_disk tr2 retried_disk ([sample_record], None)
  /\ exists dc, crash retried_disk dc /\ image dc (d_dir dc) (jobs_path index) = Some None.
Proof.
  pose proof update_retried as Hr. apply pair_eq in Hr as [Hr Hold].
  eexists _, _, _. split; [exact (run_of _ _ _ _ update_fails)|]. split; [exact (run_of _ _ _ _ Hr)|].
  exists (mkDisk ∅ [] (d_data retried_disk)). split; [|unfold image; cbn [d_dir]; by rewrite lookup_empty].
  split_and!; [|done|done|done]. cbn [d_dir]. right. by apply last_Some_elem_of.
Qed.
End RetrySamples.
