(* ===== verification/Transport.v ===== *)
(** The transport of the control plane (internal/control/transport.go): framing
    and decoding of requests and responses, the server's connections, the
    two-phase shutdown around the flush of a response, and the client.

    JSON belongs to the standard library and is a class; a connection is what
    it delivers and whether its writes succeed. *)

From S2P Require Import Prelude Float64 GoStrings Model Config PlanGates Plan Errors JobIndex Effects Retry Reconciler Control.
From Stdlib Require Import Ascii.
From stdpp Require Import pretty.
Open Scope Z_scope.
Open Scope prog_scope.

Definition maximumMessageSize : Z := 64 * 2 ^ 10.
Definition legacyShutdownControllerVersion : string := "0.1.7".
Definition legacyShutdownIdentityFieldRejectionError : string :=
  "decode control request: json: unknown field " +:+ Quote "expectedProcessId".

(** ** Messages *)

(** The shutdown message of controllers up to v0.1.7. *)
Record legacyShutdownRequest := mkLegacyShutdown {
  ls_Reason : string;
  ls_ExpectedAssignedJobCount : Z;
  ls_ExpectedActiveJobCount : Z;
  ls_ExpectedActiveWorkerCount : Z;
  ls_RestartViaTaskScheduler : bool;
}.

Record legacyShutdownEnvelope := mkLegacyEnvelope {
  le_SchemaVersion : Z;
  le_RequestID : string;
  le_Operation : Operation;
  le_Shutdown : legacyShutdownRequest;
}.

(** What a client sends. *)
Inductive ClientMessage :=
  | MsgRequest (r : Request)
  | MsgLegacy (e : legacyShutdownEnvelope).

(** What follows the first JSON value of a line. *)
Inductive Rest := RestEOF | RestValue | RestError (e : error).

(** The decoder; a request that cannot be decoded leaves the fields that were
    read before the error. *)
Class WireJSON := {
  decode_request : string -> Request * option error;
  decode_response : string -> result error Response;
  decode_rest : string -> Rest;
}.

Definition requireEOF `{WireJSON} (line : string) : option error :=
  match decode_rest line with
  | RestEOF => None
  | RestValue => Some (ErrNew "control message contains multiple JSON values")
  | RestError e => Some (ErrWrap "decode control message trailer" e)
  end.

(** ** Framing *)

(** What a connection delivers before it ends, and how it ends: [None] is the
    end of the input. *)
Record Input := mkInput {
  ip_bytes : string;
  ip_end : option error;
}.

(** [ReadBytes]: the text up to and with the first newline, or all of it with
    the error that ended it. *)
Inductive ReadError := ReadEOF | ReadFailed (e : error).

Fixpoint cut_line (s : string) : option string :=
  match s with
  | EmptyString => None
  | String a rest =>
      if byte_of a =? 10 then Some (String a "")
      else match cut_line rest with Some l => Some (String a l) | None => None end
  end.

Definition ReadBytes (i : Input) : string * option ReadError :=
  match cut_line (ip_bytes i) with
  | Some line => (line, None)
  | None => (ip_bytes i, Some (match ip_end i with Some e => ReadFailed e | None => ReadEOF end))
  end.

Definition Request_zero : Request := mkRequest 0 "" (OperationOther "") None None.

(** [readRequest]: the request as far as it was read, and the error. *)
Definition readRequest `{WireJSON} (i : Input) : Request * option error :=
  let '(line, err) := ReadBytes i in
  match err with
  | Some (ReadFailed e) => (Request_zero, Some (ErrWrap "read control request" e))
  | _ =>
      if String.eqb line "" then (Request_zero, Some (ErrNew "empty control request"))
      else if maximumMessageSize <? Z.of_nat (String.length line)
      then (Request_zero, Some (ErrNew ("control request exceeds " +:+ pretty maximumMessageSize +:+ " bytes")))
      else
        match decode_request line with
        | (request, Some e) => (request, Some (ErrWrap "decode control request" e))
        | (request, None) =>
            match requireEOF line with
            | Some e => (request, Some e)
            | None => (request, Request_Validate request)
            end
        end
  end.

(** ** A connection of the server *)

(** The response of [serveConnection], with the schema and the request's ID. *)
Definition stamped (request : Request) (response : Response) : Response :=
  {| response with rs_SchemaVersion := SchemaVersion; rs_RequestID := rq_RequestID request |}.

(** What the connection does after its response was written or not. *)
Inductive AfterWrite :=
  | Nothing
  | Commit (requestID : string)
  | Abort (requestID : string).

Definition after_write (request : Request) (response : Response) (flushed : bool) : AfterWrite :=
  match rq_Operation request with
  | OperationShutdown =>
      if rs_OK response then (if flushed then Commit (rq_RequestID request) else Abort (rq_RequestID request)) else Nothing
  | _ => Nothing
  end.

(** [serveConnection]: the response that is written and what follows it. *)
Definition serveConnection `{WireJSON} (env : HandlerEnv) (i : Input) (flushed : bool) : prog (Response * AfterWrite) :=
  let '(request, err) := readRequest i in
  match err with
  | Some e => Ret (ErrorResponse (rq_RequestID request) "invalid-request" e, Nothing)
  | None =>
      do response <- Handle env request then
      let response := stamped request response in
      Ret (response, after_write request response flushed)
  end.

Definition finish_connection (h : ControlHandler) (a : AfterWrite) : ControlHandler :=
  match a with
  | Nothing => h
  | Commit id => CommitShutdown h id
  | Abort id => AbortShutdown h id
  end.

(** ** Interleaved connections

    The handler is shared: a connection reserves the shutdown in the handler's
    critical section, then its response is written, and then it commits or
    aborts, in steps that other connections may come between.  [pl_waiting] are
    the connections whose response was accepted, with the outcome of its write;
    [pl_flushed] are the requests whose acceptance reached a client and
    [pl_used] the IDs that were ever accepted. *)
Record Reserved := mkReserved { rv_id : string; rv_flushed : option bool }.

Record PlaneState := mkPlaneState {
  pl_handler : ControlHandler;
  pl_waiting : gmap nat Reserved;
  pl_flushed : gset string;
  pl_used : gset string;
}.

(** A shutdown request under that ID and the response that accepts it. *)
Definition accepts (id : string) (request : Request) (response : Response) : Prop :=
  rq_Operation request = OperationShutdown /\ rq_RequestID request = id /\ rs_OK response = true.

Inductive plane_step : PlaneState -> PlaneState -> Prop :=
  | plane_reserve s c id reason restart h :
      reserve (pl_handler s) id reason restart = (h, true) -> id <> "" -> pl_waiting s !! c = None ->
      plane_step s (mkPlaneState h (<[c := mkReserved id None]> (pl_waiting s)) (pl_flushed s) ({[id]} ∪ pl_used s))
  | plane_write s c id ok :
      pl_waiting s !! c = Some (mkReserved id None) ->
      plane_step s (mkPlaneState (pl_handler s) (<[c := mkReserved id (Some ok)]> (pl_waiting s))
                                 (if ok : bool then {[id]} ∪ pl_flushed s else pl_flushed s) (pl_used s))
  | plane_finish s c id ok request response :
      pl_waiting s !! c = Some (mkReserved id (Some ok)) -> accepts id request response ->
      plane_step s (mkPlaneState (finish_connection (pl_handler s) (after_write request response ok))
                                 (delete c (pl_waiting s)) (pl_flushed s) (pl_used s)).

Definition plane_start : PlaneState := mkPlaneState NewControlHandler ∅ ∅ ∅.

(** ** The connections of a server *)

(** [sv_pending] are connections the listener handed out that have not reached
    the registration's critical section; [sv_open] are not closed yet. *)
Record Server := mkServer {
  sv_listening : bool;
  sv_closed : bool;
  sv_pending : gset nat;
  sv_connections : gset nat;
  sv_open : gset nat;
}.

Definition NewServer (listener handler : bool) : result error Server :=
  if negb listener || negb handler then Err (ErrNew "control listener and handler are required")
  else Ok (mkServer true false ∅ ∅ ∅).

(** The registration in [Serve]: a connection accepted while the server closes
    is closed at once. *)
Definition register (c : nat) (s : Server) : Server :=
  if sv_closed s
  then mkServer (sv_listening s) true (sv_pending s ∖ {[c]}) (sv_connections s) (sv_open s ∖ {[c]})
  else mkServer (sv_listening s) false (sv_pending s ∖ {[c]}) ({[c]} ∪ sv_connections s) (sv_open s).

(** The deferred end of a connection. *)
Definition release (c : nat) (s : Server) : Server :=
  mkServer (sv_listening s) (sv_closed s) (sv_pending s) (sv_connections s ∖ {[c]}) (sv_open s ∖ {[c]}).

(** [Close]: the listener first, then the flag and every registered connection
    in one critical section. *)
Definition close_listener (s : Server) : Server :=
  mkServer false (sv_closed s) (sv_pending s) (sv_connections s) (sv_open s).
Definition close_connections (s : Server) : Server :=
  mkServer (sv_listening s) true (sv_pending s) (sv_connections s) (sv_open s ∖ sv_connections s).

Inductive server_step : Server -> Server -> Prop :=
  | server_accept s c :
      sv_listening s = true -> c ∉ sv_open s -> c ∉ sv_connections s ->
      server_step s (mkServer true (sv_closed s) ({[c]} ∪ sv_pending s) (sv_connections s) ({[c]} ∪ sv_open s))
  | server_register s c : c ∈ sv_pending s -> server_step s (register c s)
  | server_release s c : c ∈ sv_connections s -> server_step s (release c s)
  | server_close_listener s : server_step s (close_listener s)
  | server_close_connections s : sv_listening s = false -> server_step s (close_connections s).

(** ** The client *)

Inductive cerror :=
  | ClientError (e : error)
  | ResponseError (code message : string)
  | ClientJoin (es : list cerror).

Definition ErrUnavailable : error := ErrNew "controller control plane is unavailable".

(** [errors.AsType] for the rejection of a controller. *)
Fixpoint as_ResponseError (e : cerror) : option (string * string) :=
  match e with
  | ClientError _ => None
  | ResponseError code message => Some (code, message)
  | ClientJoin es => foldr (fun e acc => match as_ResponseError e with Some r => Some r | None => acc end) None es
  end.

(** One exchange with the controller: the failures before the response, the
    response's bytes and the failure of the close. *)
Record Exchange := mkExchange {
  ex_dial : option error;
  ex_write : option error;
  ex_input : Input;
  ex_close : option error;
}.

Definition read_error (e : ReadError) : error := match e with ReadEOF => ErrNew "EOF" | ReadFailed e => e end.

Definition check_response `{WireJSON} (requestID : string) (i : Input) : result cerror Response :=
  match ReadBytes i with
  | (_, Some e) => Err (ClientError (ErrWrap "read control response" (read_error e)))
  | (line, None) =>
      if maximumMessageSize <? Z.of_nat (String.length line) then Err (ClientError (ErrNew "control response exceeds safety limit"))
      else match decode_response line with
           | Err e => Err (ClientError (ErrWrap "decode control response" e))
           | Ok response =>
               match requireEOF line with
               | Some e => Err (ClientError e)
               | None =>
                   if negb (rs_SchemaVersion response =? SchemaVersion) || negb (String.eqb (rs_RequestID response) requestID)
                   then Err (ClientError (ErrNew "control response schema or request ID mismatch"))
                   else if negb (rs_OK response) then Err (ResponseError (rs_ErrorCode response) (rs_Error response))
                   else Ok response
               end
           end
  end.

(** [roundTripMessage]; the deferred close joins its failure.  The cause of a
    failed dial is kept as text only. *)
Definition roundTripMessage `{WireJSON} (requestID : string) (x : Exchange) : result cerror Response :=
  match ex_dial x with
  | Some e => Err (ClientError (ErrJoin [ErrUnavailable; ErrNew (error_text e)]))
  | None =>
      let outcome := match ex_write x with
                     | Some e => Err (ClientError (ErrWrap "write control request" e))
                     | None => check_response requestID (ex_input x)
                     end in
      match ex_close x with
      | None => outcome
      | Some e =>
          let failed := ClientError (ErrWrap "close control connection" e) in
          Err (match outcome with Err e0 => ClientJoin [e0; failed] | Ok _ => failed end)
      end
  end.

(** The controller, as the answer to every message. *)
Abbreviation Peer := (ClientMessage -> Exchange) (only parsing).

Definition roundTrip `{WireJSON} (peer : Peer) (request : Request) : result cerror Response :=
  match Request_Validate request with
  | Some e => Err (ClientError e)
  | None => roundTripMessage (rq_RequestID request) (peer (MsgRequest request))
  end.

Definition legacyShutdownFieldRejection (err : cerror) (expectedVersion : string) : bool :=
  if negb (String.eqb expectedVersion legacyShutdownControllerVersion) then false
  else match as_ResponseError err with
       | Some (code, message) => String.eqb code "invalid-request" && String.eqb message legacyShutdownIdentityFieldRejectionError
       | None => false
       end.

Definition missing (text : string) : cerror := ClientError (ErrNew text).

Section Client.
Context `{WireJSON} (peer : Peer) (newRequestID : result error string).

Definition with_request_id {A} (k : string -> result cerror A) : result cerror A :=
  match newRequestID with Err e => Err (ClientError (ErrWrap "generate control request ID" e)) | Ok id => k id end.

Definition Client_Status : result cerror Status :=
  with_request_id (fun id =>
    match roundTrip peer (mkRequest SchemaVersion id OperationStatus None None) with
    | Err e => Err e
    | Ok response =>
        match rs_Status response with
        | None => Err (missing "controller status response is missing status")
        | Some st => Ok st
        end
    end).

Definition shutdown_request (id reason : string) (expected : Status) (restart : bool) : Request :=
  mkRequest SchemaVersion id OperationShutdown
    (Some (mkShutdownRequest reason (sta_ProcessID expected) (sta_Version expected) (sta_AssignedJobCount expected)
             (sta_ActiveJobCount expected) (sta_ActiveWorkerCount expected) restart)) None.

Definition legacy_shutdown (id reason : string) (expected : Status) : legacyShutdownEnvelope :=
  mkLegacyEnvelope SchemaVersion id OperationShutdown
    (mkLegacyShutdown reason (sta_AssignedJobCount expected) (sta_ActiveJobCount expected) (sta_ActiveWorkerCount expected) false).

Definition Client_Shutdown (reason : string) (expected : Status) (restart : bool) : result cerror Status :=
  with_request_id (fun id =>
    let first := roundTrip peer (shutdown_request id reason expected restart) in
    let response :=
      match first with
      | Err e =>
          if negb restart && legacyShutdownFieldRejection e (sta_Version expected)
          then roundTripMessage id (peer (MsgLegacy (legacy_shutdown id reason expected)))
          else first
      | Ok _ => first
      end in
    match response with
    | Err e => Err e
    | Ok response =>
        match rs_Status response with
        | None => Err (missing "controller shutdown response is missing status")
        | Some st =>
            if restart && negb (String.eqb (sta_RestartRequestID st) id)
            then Err (missing "controller restart response is missing the authenticated request ID")
            else Ok st
        end
    end).

Definition Client_ForceStopPreview : result cerror (list ForceStopTarget) :=
  with_request_id (fun id =>
    match roundTrip peer (mkRequest SchemaVersion id OperationForceStopPreview None None) with
    | Err e => Err e
    | Ok response => Ok (rs_ForceStopTargets response)
    end).

Definition Client_ForceStopExecute (expected : list ForceStopTarget) : result cerror (list ForceStopTarget) :=
  with_request_id (fun id =>
    match roundTrip peer (mkRequest SchemaVersion id OperationForceStopExecute None (Some expected)) with
    | Err e => Err e
    | Ok response => Ok (rs_ForceStopTargets response)
    end).

Definition Client_GoroutineDump : result cerror string :=
  with_request_id (fun id =>
    match roundTrip peer (mkRequest SchemaVersion id OperationGoroutineDump None None) with
    | Err e => Err e
    | Ok response => Ok (rs_GoroutineDump response)
    end).
End Client.
