(* ===== verification/TransportFacts.v ===== *)
(** Theorems on the transport of the control plane. *)

From S2P Require Import Prelude Float64 GoStrings Model Config PlanGates Plan Errors JobIndex Effects Retry Reconciler Control Transport.
From stdpp Require Import relations.
#[local] Open Scope Z_scope.

(** ** Signals follow flushed responses *)

Definition flush_before_signal (s : PlaneState) : Prop :=
  (forall sg, sg ∈ ch_shutdown (pl_handler s) -> sg_RequestID sg ∈ pl_flushed s)
  /\ (forall c id, pl_waiting s !! c = Some (mkReserved id (Some true)) -> id ∈ pl_flushed s).

Lemma reserve_shutdown h id reason restart h' b :
  reserve h id reason restart = (h', b) -> ch_shutdown h' = ch_shutdown h /\ ch_committed h' = ch_committed h.
Proof. unfold reserve. repeat split_if; intros [= <- <-]; done. Qed.

Lemma finish_shutdown h a sg :
  sg ∈ ch_shutdown (finish_connection h a) -> sg ∈ ch_shutdown h \/ exists id, a = Commit id /\ sg_RequestID sg = id.
Proof.
  destruct a as [|id|id]; simpl; [auto| |].
  - unfold CommitShutdown. split_if; [auto|]. simpl. rewrite elem_of_app, list_elem_of_singleton. intros [?| ->]; [auto|].
    right. by exists id.
  - unfold AbortShutdown. split_if; auto.
Qed.

Lemma after_write_accepted id request response flushed :
  accepts id request response -> after_write request response flushed = if flushed then Commit id else Abort id.
Proof. intros (Hop & Hid & Hok). unfold after_write. by rewrite Hop, Hok, Hid. Qed.

Lemma flush_before_signal_step s s' : plane_step s s' -> flush_before_signal s -> flush_before_signal s'.
Proof.
  intros Hstep [Hsig Hwait]. destruct Hstep as [s c id reason restart h Hres Hid Hfree|s c id ok Hc|s c id ok request response Hc Hacc]; split; simpl.
  - apply reserve_shutdown in Hres as [-> _]. done.
  - intros c' id'. rewrite lookup_insert. case_decide; [done|apply Hwait].
  - intros sg Hsg. apply Hsig in Hsg. destruct ok; set_solver.
  - intros c' id'. rewrite lookup_insert. case_decide; [intros Heq; simplify_eq; set_solver|].
    intros Hc'. apply Hwait in Hc'. destruct ok; set_solver.
  - intros sg Hsg. rewrite (after_write_accepted _ _ _ ok Hacc) in Hsg. apply finish_shutdown in Hsg as [?|(id' & Hcommit & <-)]; [by apply Hsig|].
    destruct ok; [|done]. injection Hcommit as ->. by eapply Hwait.
  - intros c' id' Hc'. apply lookup_delete_Some in Hc' as [_ Hc']. by eapply Hwait.
Qed.

(** C12: The process begins a shutdown only for a request whose acceptance was
    written and flushed to its client, whatever connections interleave. *)
Theorem signal_after_flush s sg :
  rtc plane_step plane_start s -> sg ∈ ch_shutdown (pl_handler s) -> sg_RequestID sg ∈ pl_flushed s.
Proof.
  intros Hrun. enough (flush_before_signal s) as [Hsig _] by apply Hsig.
  revert s Hrun. apply (rtc_ind_r flush_before_signal).
  - split; simpl; [intros x Hx; by apply elem_of_nil in Hx|]. intros c id. by rewrite lookup_empty.
  - intros s s' _ Hstep Hinv. by eapply flush_before_signal_step.
Qed.

(** ** Accepted requests are carried out *)

(** A run in which no two accepted requests share an ID: what clients that draw
    128 random bits per request produce. *)
Inductive fresh_step : PlaneState -> PlaneState -> Prop :=
  | fresh_reserve s c id reason restart h :
      reserve (pl_handler s) id reason restart = (h, true) -> id <> "" -> pl_waiting s !! c = None -> id ∉ pl_used s ->
      fresh_step s (mkPlaneState h (<[c := mkReserved id None]> (pl_waiting s)) (pl_flushed s) ({[id]} ∪ pl_used s))
  | fresh_write s c id ok :
      pl_waiting s !! c = Some (mkReserved id None) ->
      fresh_step s (mkPlaneState (pl_handler s) (<[c := mkReserved id (Some ok)]> (pl_waiting s))
                                 (if ok : bool then {[id]} ∪ pl_flushed s else pl_flushed s) (pl_used s))
  | fresh_finish s c id ok request response :
      pl_waiting s !! c = Some (mkReserved id (Some ok)) -> accepts id request response ->
      fresh_step s (mkPlaneState (finish_connection (pl_handler s) (after_write request response ok))
                                 (delete c (pl_waiting s)) (pl_flushed s) (pl_used s)).

Record exclusive (s : PlaneState) : Prop := {
  ex_pending : forall c r, pl_waiting s !! c = Some r -> rv_id r = ch_pendingRequestID (pl_handler s)
               /\ ch_pendingRequestID (pl_handler s) <> "" /\ ch_committed (pl_handler s) = false;
  ex_single : forall c c' r r', pl_waiting s !! c = Some r -> pl_waiting s !! c' = Some r' -> c = c';
  ex_used : ch_pendingRequestID (pl_handler s) = "" \/ ch_pendingRequestID (pl_handler s) ∈ pl_used s;
  ex_signals : forall id, id ∈ pl_flushed s ->
    (exists sg, sg ∈ ch_shutdown (pl_handler s) /\ sg_RequestID sg = id)
    \/ exists c, pl_waiting s !! c = Some (mkReserved id (Some true));
  ex_committed : ch_committed (pl_handler s) = true -> ch_pendingRequestID (pl_handler s) <> "";
}.

Lemma exclusive_reserve s c id reason restart h :
  exclusive s -> reserve (pl_handler s) id reason restart = (h, true) -> id <> "" -> pl_waiting s !! c = None -> id ∉ pl_used s ->
  exclusive (mkPlaneState h (<[c := mkReserved id None]> (pl_waiting s)) (pl_flushed s) ({[id]} ∪ pl_used s)).
Proof.
  intros [Hp Hs Hu Hsig Hcom] Hres Hid Hfree Hfresh.
  assert (Hempty : ch_pendingRequestID (pl_handler s) = "").
  { destruct Hu as [->|Hu]; [done|]. revert Hres. unfold reserve.
    destruct (String.eqb_spec (ch_pendingRequestID (pl_handler s)) ""); [done|].
    destruct (String.eqb_spec (ch_pendingRequestID (pl_handler s)) id) as [Heq|]; [|done]. by rewrite Heq in Hu. }
  assert (Hnone : pl_waiting s = ∅).
  { apply map_eq. intros c'. rewrite lookup_empty. destruct (pl_waiting s !! c') as [r|] eqn:Hc; [|done].
    destruct (Hp c' r Hc) as (_ & Hne & _). done. }
  assert (Hh : h = (let h0 := pl_handler s in
            {| h0 with ch_pendingRequestID := id; ch_pendingReason := reason; ch_pendingRestart := restart |})).
  { revert Hres. unfold reserve. rewrite Hempty. simpl. by intros [= <-]. }
  assert (Hnc : ch_committed (pl_handler s) = false) by (destruct (ch_committed (pl_handler s)); [by destruct (Hcom eq_refl)|done]).
  rewrite Hnone in *. subst h. constructor; simpl.
  - intros c' r. rewrite lookup_insert. case_decide; [intros [= <-]; done|by rewrite lookup_empty].
  - intros c1 c2 r1 r2. rewrite !lookup_insert. repeat case_decide; rewrite ?lookup_empty; try done. congruence.
  - right. set_solver.
  - intros id' Hid'. destruct (Hsig id' Hid') as [?|(c' & Hc')]; [by left|]. by rewrite lookup_empty in Hc'.
  - done.
Qed.

Lemma exclusive_write s c id (ok : bool) :
  exclusive s -> pl_waiting s !! c = Some (mkReserved id None) ->
  exclusive (mkPlaneState (pl_handler s) (<[c := mkReserved id (Some ok)]> (pl_waiting s))
                          (if ok then {[id]} ∪ pl_flushed s else pl_flushed s) (pl_used s)).
Proof.
  intros [Hp Hs Hu Hsig Hcom] Hc. constructor; simpl; try done.
  - intros c' r. rewrite lookup_insert. case_decide; [|apply Hp]. intros [= <-]. apply (Hp _ _ Hc).
  - intros c1 c2 r1 r2. rewrite !lookup_insert. repeat case_decide; subst; intros H1 H2; try done; by eauto.
  - assert (Hold : forall id', id' ∈ pl_flushed s ->
      (exists sg, sg ∈ ch_shutdown (pl_handler s) /\ sg_RequestID sg = id')
      \/ exists c', <[c := mkReserved id (Some ok)]> (pl_waiting s) !! c' = Some (mkReserved id' (Some true))).
    { intros id' Hid'. destruct (Hsig id' Hid') as [?|(c' & Hc')]; [by left|]. right. exists c'.
      rewrite lookup_insert_ne; [done|]. intros ->. congruence. }
    intros id' Hid'. destruct ok; [|by apply Hold]. apply elem_of_union in Hid' as [->%elem_of_singleton|Hid']; [|by apply Hold].
    right. exists c. by rewrite lookup_insert_eq.
Qed.

Lemma exclusive_finish s c id (ok : bool) :
  exclusive s -> pl_waiting s !! c = Some (mkReserved id (Some ok)) ->
  exclusive (mkPlaneState (finish_connection (pl_handler s) (if ok then Commit id else Abort id))
                          (delete c (pl_waiting s)) (pl_flushed s) (pl_used s)).
Proof.
  intros [Hp Hs Hu Hsig Hcom] Hc. destruct (Hp _ _ Hc) as (Hpend & Hne & Hnc). simpl in Hpend.
  assert (Hnone : delete c (pl_waiting s) = ∅).
  { apply map_eq. intros c'. rewrite lookup_empty, lookup_delete. case_decide; [done|].
    destruct (pl_waiting s !! c') as [r|] eqn:Hc'; [|done]. by specialize (Hs _ _ _ _ Hc Hc'). }
  rewrite Hnone.
  assert (Htest : (String.eqb id "" || negb (String.eqb id (ch_pendingRequestID (pl_handler s))) || ch_committed (pl_handler s)) = false).
  { rewrite Hnc, <- Hpend, String.eqb_refl. destruct (String.eqb_spec id ""); [congruence|done]. }
  destruct ok; simpl.
  - unfold CommitShutdown. rewrite Htest. constructor; simpl; try (intros *; by rewrite lookup_empty); try done.
    intros id' Hid'. left. destruct (Hsig id' Hid') as [(sg & Hsg & Heq)|(c' & Hc')].
    + exists sg. split; [apply elem_of_app; by left|done].
    + assert (c' = c) as -> by (by eapply Hs). assert (id' = id) as -> by congruence.
      eexists. split; [apply elem_of_app; right; apply list_elem_of_singleton; reflexivity|done].
  - unfold AbortShutdown. rewrite Htest. constructor; simpl; try (intros *; by rewrite lookup_empty); try done.
    + by left.
    + intros id' Hid'. destruct (Hsig id' Hid') as [?|(c' & Hc')]; [by left|].
      assert (c' = c) as -> by (by eapply Hs). congruence.
    + by rewrite Hnc.
Qed.

(** When no two accepted requests share an ID, every client that received
    the acceptance of its shutdown gets it: at any moment its signal was sent or
    its connection is about to commit it, and the commit is then effective. *)
Theorem accepted_shutdown_is_carried_out s id :
  rtc fresh_step plane_start s -> id ∈ pl_flushed s ->
  (exists sg, sg ∈ ch_shutdown (pl_handler s) /\ sg_RequestID sg = id)
  \/ exists c, pl_waiting s !! c = Some (mkReserved id (Some true))
     /\ exists sg, sg ∈ ch_shutdown (finish_connection (pl_handler s) (Commit id)) /\ sg_RequestID sg = id.
Proof.
  intros Hrun. enough (exclusive s) as Hex.
  { intros Hid. destruct (ex_signals _ Hex id Hid) as [?|(c & Hc)]; [by left|]. right. exists c. split; [done|].
    pose proof (exclusive_finish _ _ _ _ Hex Hc) as Hfin. destruct (ex_signals _ Hfin id Hid) as [Hs|(c' & Hc')]; [done|].
    simpl in Hc'. apply lookup_delete_Some in Hc' as [Hne Hc']. by destruct (Hne (ex_single _ Hex _ _ _ _ Hc Hc')). }
  revert s Hrun. apply (rtc_ind_r exclusive).
  - constructor; simpl; try (intros *; by rewrite lookup_empty); try done; try set_solver.
  - intros s s' _ Hstep Hinv. destruct Hstep; [by eapply exclusive_reserve|by apply exclusive_write|].
    erewrite after_write_accepted by done. by apply exclusive_finish.
Qed.

Definition request_r : Request := mkRequest SchemaVersion "r" OperationShutdown None None.
Definition response_r : Response := mkResponse SchemaVersion "r" true "" "" None [] "".

(** Two connections with one ID: the response of the first is lost, which
    releases the reservation, while the second client was told its shutdown was
    accepted; its commit then does nothing. *)
Lemma duplicate_request_loses_shutdown :
  exists s, rtc plane_step plane_start s /\ "r" ∈ pl_flushed s /\ pl_waiting s = ∅
            /\ ch_shutdown (pl_handler s) = [] /\ ch_pendingRequestID (pl_handler s) = "".
Proof.
  set (h := mkControlHandler "r" "stop" false false false []).
  eexists. split.
  - eapply rtc_l; [apply (plane_reserve _ 1%nat "r" "stop" false h); done|].
    eapply rtc_l; [apply (plane_reserve _ 2%nat "r" "stop" false h); done|].
    eapply rtc_l; [apply (plane_write _ 1%nat "r" false); done|].
    eapply rtc_l; [apply (plane_finish _ 1%nat "r" false request_r response_r); done|].
    eapply rtc_l; [apply (plane_write _ 2%nat "r" true); done|].
    eapply rtc_l; [apply (plane_finish _ 2%nat "r" true request_r response_r); done|]. apply rtc_refl.
  - split; [simpl; set_solver|done].
Qed.

(** ** No connection outlives the server *)

Record server_ok (s : Server) : Prop := {
  so_open : sv_open s ⊆ sv_pending s ∪ sv_connections s;
  so_pending : sv_pending s ⊆ sv_open s;
  so_apart : sv_pending s ## sv_connections s;
  so_closed : sv_closed s = true -> sv_open s ⊆ sv_pending s /\ sv_listening s = false;
}.

Lemma server_ok_step s s' : server_step s s' -> server_ok s -> server_ok s'.
Proof.
  intros Hstep [Ho Hp Ha Hc]. destruct Hstep as [s c Hl Hno Hnc|s c Hin|s c Hin|s|s Hl].
  - constructor; simpl; [clear Hc; set_solver..|]. intros Hcl. destruct (Hc Hcl) as [_ Hnl]. congruence.
  - unfold register. destruct (sv_closed s) eqn:Hcl.
    + destruct (Hc eq_refl) as [Hsub Hnl]. clear Hc. constructor; simpl; [set_solver..|]. intros _. split; [set_solver|done].
    + clear Hc. constructor; simpl; [|set_solver|set_solver|done].
      intros x Hx. destruct (decide (x = c)); set_solver.
  - constructor; simpl; [clear Hc; set_solver..|]. intros Hcl. destruct (Hc Hcl). clear Hc. split; [set_solver|done].
  - constructor; simpl; [done..|]. intros Hcl. by destruct (Hc Hcl).
  - constructor; simpl; [clear Hc; set_solver..|]. intros _. split; [clear Hc; set_solver|done].
Qed.

(** Closing the server closes every connection, also the ones accepted while
    it closes: after [Close] the only open connections are those about to be
    refused at registration, none is registered any more, and the listener is
    closed. *)
Theorem closed_server_keeps_no_connection s0 s :
  NewServer true true = Ok s0 -> rtc server_step s0 s -> sv_closed s = true ->
  sv_listening s = false /\ sv_open s ⊆ sv_pending s
  /\ (forall c, c ∈ sv_pending s -> (c ∉ sv_open (register c s)) /\ sv_connections (register c s) = sv_connections s).
Proof.
  intros [= <-] Hrun Hclosed. enough (server_ok s) as Hok.
  { destruct (so_closed _ Hok Hclosed). split_and!; try done. intros c Hc. unfold register. rewrite Hclosed. simpl. set_solver. }
  clear Hclosed. revert s Hrun. apply (rtc_ind_r server_ok); [by constructor|].
  intros s s' _ Hstep Hinv. by eapply server_ok_step.
Qed.

(** ** The client's restart is bound to the controller it inspected *)

(** A restart is never downgraded: its outcome does not depend on what the
    controller would answer to the legacy message, which carries no process
    identity, and a success carries the request's own ID, echoed for the process
    and version the caller had inspected.  Without restart the legacy message is
    sent only to version 0.1.7 after its exact rejection of the identity field. *)
Theorem restart_is_identity_bound `{WireJSON} peer peer' newID reason expected st :
  (forall r, peer (MsgRequest r) = peer' (MsgRequest r)) ->
  Client_Shutdown peer newID reason expected true = Client_Shutdown peer' newID reason expected true
  /\ (Client_Shutdown peer newID reason expected true = Ok st -> newID = Ok (sta_RestartRequestID st))
  /\ (sta_Version expected <> legacyShutdownControllerVersion ->
      Client_Shutdown peer newID reason expected false = Client_Shutdown peer' newID reason expected false).
Proof.
  intros Hpeer.
  assert (Htrip : forall r, roundTrip peer r = roundTrip peer' r).
  { intros r. unfold roundTrip. destruct (Request_Validate r); [done|]. by rewrite Hpeer. }
  unfold Client_Shutdown, with_request_id. destruct newID as [id|e]; [|done]. rewrite !Htrip. cbv zeta. cbn [negb andb]. split_and!.
  - by destruct (roundTrip peer' (shutdown_request id reason expected true)).
  - destruct (roundTrip peer' (shutdown_request id reason expected true)) as [response|e]; [|done].
    destruct (rs_Status response) as [st'|]; [|done].
    destruct (String.eqb_spec (sta_RestartRequestID st') id) as [Heq|]; [|done]. simpl. intros [= <-]. by rewrite Heq.
  - intros Hv. unfold legacyShutdownFieldRejection. rewrite (proj2 (String.eqb_neq _ _) Hv). simpl.
    by destruct (roundTrip peer' (shutdown_request id reason expected false)).
Qed.

(** A response is accepted only for the request it answers. *)
Lemma roundTripMessage_bound `{WireJSON} id x response :
  roundTripMessage id x = Ok response ->
  rs_RequestID response = id /\ rs_OK response = true /\ rs_SchemaVersion response = SchemaVersion.
Proof.
  unfold roundTripMessage, check_response. destruct (ex_dial x); [done|].
  destruct (ex_write x); [by destruct (ex_close x)|].
  destruct (ReadBytes (ex_input x)) as [line [e|]]; [by destruct (ex_close x)|].
  destruct (maximumMessageSize <? _); [by destruct (ex_close x)|].
  destruct (decode_response line) as [r|]; [|by destruct (ex_close x)].
  destruct (requireEOF line); [by destruct (ex_close x)|].
  destruct (Z.eqb_spec (rs_SchemaVersion r) SchemaVersion); simpl; [|by destruct (ex_close x)].
  destruct (String.eqb_spec (rs_RequestID r) id); simpl; [|by destruct (ex_close x)].
  destruct (rs_OK r) eqn:Hok; simpl; [|by destruct (ex_close x)].
  destruct (ex_close x); [done|]. by intros [= <-].
Qed.

(** A handled request is valid: nothing reaches the handler unchecked. *)
Lemma readRequest_valid `{WireJSON} i request : readRequest i = (request, None) -> Request_Validate request = None.
Proof.
  unfold readRequest. destruct (ReadBytes i) as [line [[|e]|]]; try done;
    (split_if; [done|]); (split_if; [done|]); destruct (decode_request line) as [r [e|]]; try done;
    destruct (requireEOF line); try done; intros [= <- Hv]; done.
Qed.

(** ** Witnesses *)

Definition handler_r : ControlHandler := mkControlHandler "r" "stop" false false false [].
Definition plane_flushed : PlaneState :=
  mkPlaneState handler_r {[1%nat := mkReserved "r" (Some true)]} ({["r"]} ∪ ∅) ({["r"]} ∪ ∅).
Definition plane_committed : PlaneState :=
  mkPlaneState (CommitShutdown handler_r "r") (delete 1%nat {[1%nat := mkReserved "r" (Some true)]}) ({["r"]} ∪ ∅) ({["r"]} ∪ ∅).

Lemma signal_after_flush_witness : "r" ∈ pl_flushed plane_committed.
Proof.
  apply (signal_after_flush plane_committed (mkShutdownSignal "r" "stop" false)); [|by left].
  eapply rtc_l; [apply (plane_reserve _ 1%nat "r" "stop" false handler_r); done|].
  eapply rtc_l; [apply (plane_write _ 1%nat "r" true); done|].
  eapply rtc_l; [apply (plane_finish _ 1%nat "r" true request_r response_r); done|]. apply rtc_refl.
Defined.

Lemma accepted_shutdown_is_carried_out_witness :
  exists c, pl_waiting plane_flushed !! c = Some (mkReserved "r" (Some true)).
Proof.
  destruct (accepted_shutdown_is_carried_out plane_flushed "r") as [(sg & Hsg & _)|(c & Hc & _)].
  - eapply rtc_l; [apply (fresh_reserve _ 1%nat "r" "stop" false handler_r); done|].
    eapply rtc_l; [apply (fresh_write _ 1%nat "r" true); done|]. apply rtc_refl.
  - simpl. set_solver.
  - by apply elem_of_nil in Hsg.
  - by exists c.
Defined.

Definition server_closed : Server :=
  close_connections (close_listener (register 1%nat (mkServer true false {[1%nat]} ∅ {[1%nat]}))).

Lemma closed_server_keeps_no_connection_witness : sv_listening server_closed = false /\ sv_open server_closed ⊆ sv_pending server_closed.
Proof.
  assert (Hrun : rtc server_step (mkServer true false ∅ ∅ ∅) server_closed).
  { eapply rtc_l; [apply (server_accept _ 1%nat); [done|set_solver|set_solver]|].
    eapply rtc_l; [apply (server_register _ 1%nat); simpl; set_solver|].
    eapply rtc_l; [apply server_close_listener|]. eapply rtc_l; [apply server_close_connections; done|].
    simpl. replace ({[1%nat]} ∪ ∅ : gset nat) with ({[1%nat]} : gset nat) by set_solver. apply rtc_refl. }
  destruct (closed_server_keeps_no_connection (mkServer true false ∅ ∅ ∅) server_closed eq_refl Hrun eq_refl) as (H1 & H2 & _).
  by split.
Defined.

Definition accepted_restart : Response :=
  mkResponse 1 "id" true "" "" (Some (mkStatus PhaseDraining 7 "1.0" 0 0 0 true "id")) [] "".
#[local] Instance sample_wire : WireJSON := {|
  decode_request _ := (Request_zero, None); decode_response _ := Ok accepted_restart; decode_rest _ := RestEOF |}.
Definition sample_peer (m : ClientMessage) : Exchange :=
  mkExchange None None (mkInput (String (Ascii.ascii_of_nat 123) (String (Ascii.ascii_of_nat 10) "")) None) None.

Definition restarting : Status := mkStatus PhaseDraining 7 "1.0" 0 0 0 true "id".

Lemma restart_is_identity_bound_witness :
  Client_Shutdown sample_peer (Ok "id") "update" (mkStatus PhaseReady 7 "1.0" 0 0 0 false "") true = Ok restarting
  /\ (Ok "id" : result error string) = Ok (sta_RestartRequestID restarting).
Proof.
  assert (Hrun : Client_Shutdown sample_peer (Ok "id") "update" (mkStatus PhaseReady 7 "1.0" 0 0 0 false "") true = Ok restarting)
    by (by vm_compute).
  split; [exact Hrun|].
  exact (proj1 (proj2 (restart_is_identity_bound sample_peer sample_peer _ _ _ _ (fun _ => eq_refl))) Hrun).
Defined.
