(* ===== verification/Interaction.v ===== *)
(** Programs that call an environment, for any signature of calls: a free monad,
    its runs with arbitrary answers, and assertions over the calls so far. *)

From S2P Require Import Prelude.

(** An element that satisfies [f] lies after a prefix none of which does. *)
Lemma skip_prefix {A} (f : A -> bool) (l rest before after : list A) e :
  Forall (fun y => f y = false) l -> f e = true -> l ++ rest = before ++ e :: after ->
  exists before', before = l ++ before' /\ rest = before' ++ e :: after.
Proof.
  intros Hl He. revert before. induction l as [|y l IH]; intros before Heq; simpl in *; [by exists before|].
  apply Forall_cons_1 in Hl as [Hy Hl]. destruct before as [|z before]; simplify_eq/=; [by rewrite Hy in He|].
  destruct (IH Hl before) as (b & -> & ->); [done|by exists b].
Qed.

(** An element that satisfies [f] lies before a suffix none of which does. *)
Lemma skip_suffix {A} (f : A -> bool) (l suffix before after : list A) e :
  Forall (fun y => f y = false) suffix -> f e = true -> l ++ suffix = before ++ e :: after ->
  exists after', l = before ++ e :: after'.
Proof.
  intros Hs He. revert before. induction l as [|y l IH]; intros before Heq; simpl in *.
  - rewrite Heq, Forall_app, Forall_cons in Hs. destruct Hs as (_ & Hf & _). by rewrite Hf in He.
  - destruct before as [|z before]; simplify_eq/=; [by exists l|]. destruct (IH before) as [a ->]; [done|]. by exists a.
Qed.

(** A list splits in one way at an element that is the only one of its kind. *)
Lemma split_unique {A} (f : A -> bool) (l1 l2 before after : list A) x e :
  Forall (fun y => f y = false) l1 -> Forall (fun y => f y = false) l2 -> f e = true ->
  l1 ++ x :: l2 = before ++ e :: after -> before = l1 /\ e = x /\ after = l2.
Proof.
  intros H1 H2 He Heq. destruct (skip_prefix f _ _ _ _ e H1 He Heq) as ([|z b] & -> & Hr); simplify_eq/=.
  - by rewrite app_nil_r.
  - rewrite Forall_app, Forall_cons in H2. destruct H2 as (_ & Hf & _). by rewrite Hf in He.
Qed.

Section Interaction.
Context {C : Type} {R : C -> Type}.

Inductive iprog (A : Type) : Type :=
  | IRet (a : A)
  | ICall (c : C) (k : R c -> iprog A).
Arguments IRet {A} a.
Arguments ICall {A} c k.

Fixpoint ibind {A B} (p : iprog A) (f : A -> iprog B) : iprog B :=
  match p with
  | IRet a => f a
  | ICall c k => ICall c (fun r => ibind (k r) f)
  end.

Definition icall (c : C) : iprog (R c) := ICall c IRet.

(** A call and its answer. *)
Definition event : Type := {c : C & R c}.
Definition ev (c : C) (r : R c) : event := existT c r.

(** The runs of a program: the events in order and the value. *)
Inductive iruns {A} : iprog A -> list event -> A -> Prop :=
  | iruns_ret a : iruns (IRet a) [] a
  | iruns_call c k r tr a : iruns (k r) tr a -> iruns (ICall c k) (ev c r :: tr) a.

(** [I] holds after every event and [Q] at the end, of the events so far. *)
Fixpoint iwp {A} (I : list event -> Prop) (p : iprog A) (Q : list event -> A -> Prop) (tr : list event) : Prop :=
  match p with
  | IRet a => Q tr a
  | ICall c k => forall r, I (tr ++ [ev c r]) /\ iwp I (k r) Q (tr ++ [ev c r])
  end.

Lemma iwp_bind {A B} I (p : iprog A) (f : A -> iprog B) Q tr :
  iwp I p (fun tr a => iwp I (f a) Q tr) tr -> iwp I (ibind p f) Q tr.
Proof.
  revert tr. induction p as [a|c k IH]; intros tr; simpl; [done|]. intros Hp r. destruct (Hp r). split; [done|]. by apply IH.
Qed.

Lemma iwp_call {A} I c (k : R c -> iprog A) Q tr :
  (forall r, I (tr ++ [ev c r]) /\ iwp I (k r) Q (tr ++ [ev c r])) -> iwp I (ibind (icall c) k) Q tr.
Proof. done. Qed.

Lemma iwp_mono {A} (I : list event -> Prop) (p : iprog A) (Q Q' : list event -> A -> Prop) tr :
  iwp I p Q tr -> (forall tr a, Q tr a -> Q' tr a) -> iwp I p Q' tr.
Proof.
  intros Hp HQ. revert tr Hp. induction p as [a|c k IH]; intros tr; simpl; [apply HQ|].
  intros Hp r. destruct (Hp r). split; [done|]. by apply IH.
Qed.

(** An assertion holds of every prefix of every run. *)
Lemma iwp_runs {A} I (p : iprog A) Q tr0 tr a :
  iwp I p Q tr0 -> iruns p tr a ->
  Q (tr0 ++ tr) a /\ forall t u e, tr = t ++ e :: u -> I (tr0 ++ t ++ [e]).
Proof.
  intros Hp Hr. revert tr0 Hp. induction Hr as [a|c k r tr a Hr IH]; intros tr0 Hp; simpl in Hp.
  - rewrite app_nil_r. split; [done|]. intros t u e Heq. by destruct t.
  - destruct (Hp r) as [Hi Hk]. apply IH in Hk as [HQ Hpre]. rewrite <- app_assoc in HQ. split; [done|].
    intros t u e Heq. destruct t as [|e' t]; simpl in *; simplify_eq; [done|].
    specialize (Hpre t u e eq_refl). by rewrite <- app_assoc in Hpre.
Qed.

(** The runs of a program by its first step. *)
Lemma iruns_inv {A} (p : iprog A) tr a :
  iruns p tr a ->
  match p with
  | IRet b => tr = [] /\ a = b
  | ICall c k => exists r tr', tr = ev c r :: tr' /\ iruns (k r) tr' a
  end.
Proof. destruct 1; [done|eauto]. Qed.

Lemma iruns_bind_inv {A B} (p : iprog A) (f : A -> iprog B) tr b :
  iruns (ibind p f) tr b -> exists tr1 tr2 a, iruns p tr1 a /\ iruns (f a) tr2 b /\ tr = tr1 ++ tr2.
Proof.
  revert tr. induction p as [a|c k IH]; intros tr; simpl; [intros Hr; exists [], tr, a; repeat split; [constructor|done]|].
  intros (r & tr' & -> & Hr)%iruns_inv. apply IH in Hr as (tr1 & tr2 & a & H1 & H2 & ->).
  exists (ev c r :: tr1), tr2, a. repeat split; [by constructor|done].
Qed.

(** No run of the program has an event that satisfies [f]. *)
Definition avoids {A} (f : event -> bool) (p : iprog A) : Prop := forall tr a, iruns p tr a -> Forall (fun e => f e = false) tr.

Lemma avoids_ret {A} f (a : A) : avoids f (IRet a).
Proof. intros tr b [-> _]%iruns_inv. constructor. Qed.

Lemma avoids_call {A} f c (k : R c -> iprog A) : (forall r, f (ev c r) = false) -> (forall r, avoids f (k r)) -> avoids f (ICall c k).
Proof. intros Hc Hk tr a (r & tr' & -> & Hr)%iruns_inv. constructor; [done|]. by eapply Hk. Qed.

Lemma avoids_ibind {A B} f (p : iprog A) (k : A -> iprog B) : avoids f p -> (forall a, avoids f (k a)) -> avoids f (ibind p k).
Proof.
  intros Hp Hk tr b (tr1 & tr2 & a & H1 & H2 & ->)%iruns_bind_inv. apply Forall_app. split; [by eapply Hp|by eapply Hk].
Qed.

(** Every event of every run of the program satisfies [P]. *)
Definition only {A} (P : event -> Prop) (p : iprog A) : Prop := forall tr a, iruns p tr a -> Forall P tr.

Lemma only_ret {A} P (a : A) : only P (IRet a).
Proof. intros tr b [-> _]%iruns_inv. constructor. Qed.

Lemma only_call {A} P c (k : R c -> iprog A) : (forall r, P (ev c r)) -> (forall r, only P (k r)) -> only P (ICall c k).
Proof. intros Hc Hk tr a (r & tr' & -> & Hr)%iruns_inv. constructor; [done|]. by eapply Hk. Qed.

Lemma only_ibind {A B} P (p : iprog A) (k : A -> iprog B) : only P p -> (forall a, only P (k a)) -> only P (ibind p k).
Proof.
  intros Hp Hk tr b (tr1 & tr2 & a & H1 & H2 & ->)%iruns_bind_inv. apply Forall_app. split; [by eapply Hp|by eapply Hk].
Qed.

Lemma only_mono {A} (P Q : event -> Prop) (p : iprog A) : only P p -> (forall e, P e -> Q e) -> only Q p.
Proof. intros Hp HPQ tr a Hr. eapply Forall_impl; [by eapply Hp|done]. Qed.

(** ** Protocols

    A protocol is an automaton over events; a program obeys it when every event it
    can produce is allowed where it happens.  [Q] relates the state at the end to
    the value. *)
Fixpoint obeys {A S} (step : S -> event -> option S) (p : iprog A) (Q : S -> A -> Prop) (s : S) : Prop :=
  match p with
  | IRet a => Q s a
  | ICall c k => forall r, match step s (ev c r) with Some s' => obeys step (k r) Q s' | None => False end
  end.

(** The state a protocol is in after a trace. *)
Fixpoint follow {S} (step : S -> event -> option S) (s : S) (tr : list event) : option S :=
  match tr with
  | [] => Some s
  | e :: tr => match step s e with Some s' => follow step s' tr | None => None end
  end.

Lemma follow_app {S} (step : S -> event -> option S) s tr1 tr2 :
  follow step s (tr1 ++ tr2) = match follow step s tr1 with Some s' => follow step s' tr2 | None => None end.
Proof. revert s. induction tr1 as [|e tr1 IH]; intros s; simpl; [done|]. by destruct (step s e). Qed.

Lemma obeys_runs {A S} (step : S -> event -> option S) (p : iprog A) Q s tr a :
  obeys step p Q s -> iruns p tr a -> exists s', follow step s tr = Some s' /\ Q s' a.
Proof.
  intros Hp Hr. revert s Hp. induction Hr as [a|c k r tr a Hr IH]; intros s Hp; simpl in *; [by exists s|].
  specialize (Hp r). destruct (step s (ev c r)); [by apply IH|done].
Qed.

Lemma obeys_mono {A S} (step : S -> event -> option S) (p : iprog A) (Q Q' : S -> A -> Prop) s :
  obeys step p Q s -> (forall s a, Q s a -> Q' s a) -> obeys step p Q' s.
Proof.
  intros Hp HQ. revert s Hp. induction p as [a|c k IH]; intros s Hp; simpl in *; [by apply HQ|].
  intros r. specialize (Hp r). destruct (step s (ev c r)); [by apply IH|done].
Qed.

Lemma obeys_ibind {A B S} (step : S -> event -> option S) (p : iprog A) (f : A -> iprog B) Q s :
  obeys step p (fun s a => obeys step (f a) Q s) s -> obeys step (ibind p f) Q s.
Proof.
  revert s. induction p as [a|c k IH]; intros s Hp; simpl in *; [done|].
  intros r. specialize (Hp r). destruct (step s (ev c r)); [by apply IH|done].
Qed.

(** Every event the program can produce satisfies [P]. *)
Fixpoint emits {A} (P : event -> Prop) (p : iprog A) : Prop :=
  match p with
  | IRet _ => True
  | ICall c k => forall r, P (ev c r) /\ emits P (k r)
  end.

Lemma emits_ibind {A B} P (p : iprog A) (f : A -> iprog B) : emits P p -> (forall a, emits P (f a)) -> emits P (ibind p f).
Proof. intros Hp Hf. induction p as [a|c k IH]; simpl in *; [done|]. intros r. destruct (Hp r). by split; [|apply IH]. Qed.

Lemma emits_mono {A} (P Q : event -> Prop) (p : iprog A) : emits P p -> (forall e, P e -> Q e) -> emits Q p.
Proof. intros Hp HQ. induction p as [a|c k IH]; simpl in *; [done|]. intros r. destruct (Hp r). split; [by apply HQ|by apply IH]. Qed.

Lemma emits_runs {A} P (p : iprog A) tr a : emits P p -> iruns p tr a -> Forall P tr.
Proof. intros Hp Hr. induction Hr as [|c k r tr a Hr IH]; [constructor|]. destruct (Hp r). constructor; [done|by apply IH]. Qed.

(** Events that keep an invariant of the protocol's state are always allowed. *)
Lemma emits_obeys {A S} (step : S -> event -> option S) (I : S -> Prop) P (p : iprog A) s :
  emits P p -> (forall s e, I s -> P e -> exists s', step s e = Some s' /\ I s') -> I s -> obeys step p (fun s _ => I s) s.
Proof.
  intros Hp Hstep. revert s. induction p as [a|c k IH]; intros s HI; simpl in *; [done|].
  intros r. destruct (Hp r) as [Hr Hk]. destruct (Hstep s (ev c r) HI Hr) as (s' & -> & HI'). by apply IH.
Qed.

Lemma obeys_call {A S} (step : S -> event -> option S) c (k : R c -> iprog A) Q s :
  (forall r, exists s', step s (ev c r) = Some s' /\ obeys step (k r) Q s') -> obeys step (ibind (icall c) k) Q s.
Proof. intros Hk r. destruct (Hk r) as (s' & Hs & Hp). simpl in *. by rewrite Hs. Qed.

(** A program evaluated against a function that answers. *)
Fixpoint irun {A} (answer : forall c, list event -> R c) (p : iprog A) (tr : list event) : list event * A :=
  match p with
  | IRet a => ([], a)
  | ICall c k =>
      let r := answer c tr in
      let '(t, a) := irun answer (k r) (tr ++ [ev c r]) in
      (ev c r :: t, a)
  end.

Lemma irun_iruns {A} answer (p : iprog A) tr t a : irun answer p tr = (t, a) -> iruns p t a.
Proof.
  revert tr t a. induction p as [a0|c k IH]; intros tr t a; simpl; [intros [= <- <-]; constructor|].
  destruct (irun answer (k (answer c tr)) _) as [t' a'] eqn:Hr. intros [= <- <-]. constructor. by eapply IH.
Qed.

(** Every program returns whatever the environment answers. *)
Lemma iruns_total {A} (answer : forall c, list event -> R c) (p : iprog A) : exists tr a, iruns p tr a.
Proof. destruct (irun answer p []) as [tr a] eqn:Hr. exists tr, a. by eapply irun_iruns. Qed.
End Interaction.

Arguments iprog {C} R A.
Arguments IRet {C R A} a.
Arguments ICall {C R A} c k.
Arguments event {C} R.
Arguments ev {C R} c r.
Arguments icall {C R} c.

Declare Scope i_scope.
Delimit Scope i_scope with i.
Notation "'let^' x ':=' p 'in' k" := (ibind p (fun x => k))
  (at level 10, x pattern, p at level 100, k at level 200) : i_scope.

(** Proves that a program avoids events, by the structure of the program. *)
Create HintDb avoids discriminated.
Ltac solve_avoids :=
  repeat first
  [ progress intros
  | solve [eauto with avoids nocore]
  | apply avoids_ret
  | apply avoids_call; [intros; reflexivity|]
  | apply avoids_ibind
  | match goal with |- avoids _ (match ?x with _ => _ end) => destruct x end
  | progress cbv zeta ].

(** The same for [only]; what remains are the events that matter. *)
Create HintDb only discriminated.
Ltac solve_only :=
  repeat first
  [ progress intros
  | solve [eauto with only nocore]
  | apply only_ret
  | apply only_call; [intros; exact I|]
  | apply only_ibind
  | match goal with |- only _ (match ?x with _ => _ end) => destruct x end
  | progress cbv zeta ].

(** The same for [emits]. *)
Create HintDb emits discriminated.
Ltac solve_emits :=
  repeat first
  [ progress intros
  | solve [eauto with emits nocore]
  | match goal with |- emits _ (IRet _) => exact I end
  | match goal with |- emits _ (ICall _ _) => intros ?; split; [first [exact I | reflexivity]|] end
  | match goal with |- emits _ (icall _) => intros ?; split; [first [exact I | reflexivity]|exact I] end
  | apply emits_ibind
  | match goal with |- emits _ (match ?x with _ => _ end) => destruct x end
  | progress cbv zeta ].

(** Takes a run apart along its program. *)
Ltac inv_runs :=
  repeat match goal with
  | H : iruns (IRet _) _ _ |- _ => apply iruns_inv in H; destruct H; simplify_eq/=
  | H : iruns (ICall _ _) _ _ |- _ => let r := fresh "r" in apply iruns_inv in H; destruct H as (r & ? & -> & H); simpl in H
  | H : iruns (ibind (icall _) _) _ _ |- _ => let r := fresh "r" in apply iruns_inv in H; destruct H as (r & ? & -> & H); simpl in H
  | H : iruns (icall _) _ _ |- _ => let r := fresh "r" in apply iruns_inv in H; destruct H as (r & ? & -> & H); simpl in H
  | H : iruns (ibind (IRet _) _) _ _ |- _ => simpl in H
  end.
