(* ===== verification/ScaleSet.v ===== *)
(** The scale-set client (internal/scaleset/official.go): the targets it has
    opened, their message sessions, the processing of a message and the
    translation of errors.

    The vendor's API, the secret store and the job-event sink are calls with
    arbitrary answers.  A target object is identified by its target ID, under
    which the client keeps it for its lifetime; [byScaleSet] points from a scale
    set to that object. *)

From S2P Require Import Prelude Float64 GoStrings Regexp GoText Model Config PlanGates Errors Effects Interaction.
From Stdlib Require Import Ascii.
Open Scope i_scope.

(** ** The vendor's data *)

Record Label := mkLabel { lb_Name : string; lb_Type : string }.

Record RunnerScaleSet := mkRunnerScaleSet {
  ss_ID : Z;
  ss_Name : string;
  ss_RunnerGroupID : Z;
  ss_Labels : list Label;
  ss_DisableUpdate : bool;
}.

(** [Session()] of a message session: [None] statistics and the nil UUID make
    it invalid. *)
Record Session := mkSession {
  sn_SessionID : string;
  sn_TotalAssignedJobs : option Z;
}.

Record JobStartedMsg := mkJobStarted {
  js_RunnerName : string;
  js_JobID : string;
  js_RunnerAssignTime : time;
}.

Record JobCompletedMsg := mkJobCompleted {
  jc_RunnerID : Z;
  jc_RunnerName : string;
  jc_JobID : string;
  jc_Result : string;
  jc_RunnerAssignTime : time;
}.

(** A message; a nil event is [None]. *)
Record Message := mkMessage {
  mg_MessageID : Z;
  mg_TotalAssignedJobs : option Z;
  mg_Started : list (option JobStartedMsg);
  mg_Completed : list (option JobCompletedMsg);
  mg_Available : list Z;
}.

Record RunnerReference := mkRunnerReference {
  rf_ID : Z;
  rf_Name : string;
  rf_RunnerScaleSetID : Z;
}.

(** A vendor error: its tree, and the [Retry-After] seconds of the rate-limit
    error in it, if there is one. *)
Record ApiError := mkApiError {
  ae_error : error;
  ae_rateLimit : option Z;
}.

Inductive api_call :=
  | PrivateKey (secretID : string)
  | FactoryNew (definition : ScaleSetDefinition)
  | GetRunnerGroupByName (target name : string)
  | GetRunnerScaleSet (target : string) (group : Z) (name : string)
  | GetRunnerScaleSetByID (target : string) (id : Z)
  | CreateRunnerScaleSet (target : string) (set : RunnerScaleSet)
  | UpdateRunnerScaleSet (target : string) (id : Z) (set : RunnerScaleSet)
  | DeleteRunnerScaleSet (target : string) (id : Z)
  | MessageSession (target : string) (id : Z) (owner : string)
  | CloseSession (target session : string)
  | GetMessage (target session : string) (lastID maxCapacity : Z)
  | DeleteMessage (target session : string) (id : Z)
  | AcquireJobs (target session : string) (requests : list Z)
  | GenerateJITConfig (target name : string) (id : Z)
  | GetRunner (target : string) (id : Z)
  | ApiRemoveRunner (target : string) (id : Z)
  | SinkJobStarted (target runner job : string) (assigned : time)
  | SinkJobCompleted (target runner job outcome : string) (assigned : time)
  | ObserveJobStarted (target : string) (lag : duration)
  | ObserveJobCompleted (target outcome : string) (identified : bool)
  | ReadClock.

Definition api_resp (c : api_call) : Type :=
  match c with
  | PrivateKey _ => option error
  | FactoryNew _ => option ApiError
  | GetRunnerGroupByName _ _ => result ApiError (option Z)
  | GetRunnerScaleSet _ _ _ | GetRunnerScaleSetByID _ _ | CreateRunnerScaleSet _ _ | UpdateRunnerScaleSet _ _ _ =>
      result ApiError (option RunnerScaleSet)
  | MessageSession _ _ _ => result ApiError Session
  | GetMessage _ _ _ _ => result ApiError (option Message)
  | GenerateJITConfig _ _ _ => result ApiError (option (string * option (Z * string)))
  | GetRunner _ _ => result ApiError (option RunnerReference)
  | SinkJobStarted _ _ _ _ | SinkJobCompleted _ _ _ _ _ => option error
  | ObserveJobStarted _ _ | ObserveJobCompleted _ _ _ => ()
  | ReadClock => time
  | _ => option ApiError
  end.

Abbreviation aprog := (iprog api_resp) (only parsing).
Abbreviation aevent := (event api_resp) (only parsing).

(** ** The client's state *)

Record officialTarget := mkOfficialTarget {
  ot_definition : ScaleSetDefinition;
  ot_scaleSet : option RunnerScaleSet;
  ot_session : option Session;
  ot_lastID : Z;
  ot_TotalAssignedJobs : Z;
}.

Record OfficialClient := mkOfficialClient {
  oc_hostID : string;
  oc_targets : gmap string officialTarget;
  oc_byScaleSet : gmap Z string;
  oc_activeJobs : gmap string (gmap string string);
}.

(** [NewOfficialClient]; the sink, observer and factory have defaults. *)
Definition NewOfficialClient (hostID version : string) (requestTimeout : duration) (secrets : bool) : result error OfficialClient :=
  if String.eqb hostID "" || String.eqb version "" || (requestTimeout <=? 0) || negb secrets
  then Err (ErrNew "official scale-set client requires host ID, version, request timeout, and secret store")
  else Ok (mkOfficialClient hostID ∅ ∅ ∅).

Definition put_target (id : string) (t : officialTarget) (c : OfficialClient) : OfficialClient :=
  mkOfficialClient (oc_hostID c) (<[id := t]> (oc_targets c)) (oc_byScaleSet c) (oc_activeJobs c).

(** ** Errors *)

Definition scale_set_error (kind : ErrorKind) (operation text : string) : error :=
  ErrScaleSet kind operation 0 0 (Some (ErrNew text)).

Definition DeadlineExceeded : error := ErrNew "context deadline exceeded".

(** The first status field with three digits in the text of an error. *)
Definition status_prefix : string := "status=" +:+ String quote_mark "".
Definition three_digits (s : string) : option Z :=
  match s with
  | String a (String b (String c _)) =>
      if digit a && digit b && digit c then Some (decimal_value 0 (String a (String b (String c "")))) else None
  | _ => None
  end.
Fixpoint find_status (s : string) : option Z :=
  match (if HasPrefix s status_prefix then three_digits (drop_bytes (String.length status_prefix) s) else None) with
  | Some n => Some n
  | None => match s with EmptyString => None | String _ rest => find_status rest end
  end.

Definition status_kind (status : Z) : ErrorKind :=
  if status =? 401 then ErrorUnauthorized
  else if status =? 403 then ErrorForbidden
  else if status =? 404 then ErrorNotFound
  else if status =? 409 then ErrorConflict
  else if status =? 429 then ErrorRateLimited
  else if 500 <=? status then ErrorServer
  else ErrorInvalid.

(** What the client uses of the vendor's package: the text of its errors, its
    sentinel for a runner that does not exist and its default runner group. *)
Class Vendor := {
  api_text : error -> string;
  RunnerNotFoundError : error;
  DefaultRunnerGroup : string;
}.

Section Client.
Context `{Vendor}.

Definition translateOfficialError (operation : string) (e : ApiError) : error :=
  let err := ae_error e in
  if is_sentinel errCanceled err then err
  else if is_sentinel DeadlineExceeded err then ErrScaleSet ErrorTransport operation 0 0 (Some err)
  else match ae_rateLimit e with
       | Some seconds => ErrScaleSet ErrorRateLimited operation 429 seconds (Some err)
       | None =>
           if is_sentinel RunnerNotFoundError err then ErrScaleSet ErrorNotFound operation 0 0 (Some err)
           else match find_status (api_text err) with
                | Some status => ErrScaleSet (status_kind status) operation status 0 (Some err)
                | None => ErrScaleSet ErrorTransport operation 0 0 (Some err)
                end
       end.

(** [officialRetryErrorHandler]: the rate-limit error of a 429 response. *)
Definition officialRetryErrorHandler (status : option Z) (retryAfter : option Z) (err : error) : ApiError :=
  match status with
  | Some 429 => mkApiError err (Some (match retryAfter with Some n => if 0 <? n then n else 0 | None => 0 end))
  | _ => mkApiError err None
  end.

(** ** Ensure *)

Definition validateDefinition (d : ScaleSetDefinition) : bool :=
  negb (String.eqb (sd_TargetID d) "" || String.eqb (sd_URL d) "" || String.eqb (sd_ClientID d) "" || (sd_InstallationID d <=? 0)
        || String.eqb (sd_SecretID d) "" || String.eqb (sd_ScaleSetName d) "").

Definition runnerGroupID (target name : string) : aprog (result ApiError Z) :=
  if String.eqb name "" || String.eqb name DefaultRunnerGroup then IRet (Ok 1)
  else
    let^ group := icall (GetRunnerGroupByName target name) in
    IRet match group with
         | Err e => Err e
         | Ok (Some id) => if id <=? 0 then Err (mkApiError (ErrNew "GitHub returned an invalid runner group") None) else Ok id
         | Ok None => Err (mkApiError (ErrNew "GitHub returned an invalid runner group") None)
         end.

Definition buildLabels (d : ScaleSetDefinition) : list Label :=
  map (fun l => mkLabel l "System") (match sd_Labels d with [] => [sd_ScaleSetName d] | ls => ls end).

Definition label_key (l : Label) : string := lb_Type l +:+ nul +:+ lb_Name l.
Definition sameLabels (a b : list Label) : bool :=
  let sorted l := Join (String (ascii_of_N 1) "") (sort_by String.ltb (map label_key l)) in
  String.eqb (sorted a) (sorted b).

Definition same_authentication (a b : ScaleSetDefinition) : bool :=
  String.eqb (sd_URL a) (sd_URL b) && String.eqb (sd_ClientID a) (sd_ClientID b)
  && (sd_InstallationID a =? sd_InstallationID b) && String.eqb (sd_SecretID a) (sd_SecretID b).

Definition new_target (d : ScaleSetDefinition) : officialTarget := mkOfficialTarget d None None 0 0.

(** [targetClient]: the client with the target in it, and the target. *)
Definition targetClient (c : OfficialClient) (d : ScaleSetDefinition) : aprog (result ApiError (OfficialClient * officialTarget)) :=
  match oc_targets c !! sd_TargetID d with
  | Some t =>
      if same_authentication (ot_definition t) d then IRet (Ok (c, t))
      else IRet (Err (mkApiError (ErrNew "immutable target authentication fields changed while controller is running") None))
  | None =>
      let^ key := icall (PrivateKey (sd_SecretID d)) in
      match key with
      | Some e => IRet (Err (mkApiError (ErrWrap "load private key" e) None))
      | None =>
          let^ api := icall (FactoryNew d) in
          match api with
          | Some e => IRet (Err e)
          | None => IRet (Ok (put_target (sd_TargetID d) (new_target d) c, new_target d))
          end
      end
  end.

(** The scale set as GitHub has it: by its persisted ID, or else by its name. *)
Definition find_scale_set (target : string) (group : Z) (name : string) (previous : option Identity)
    : aprog (result ApiError (option RunnerScaleSet)) :=
  match previous with
  | Some p =>
      if 0 <? id_ScaleSetID p then
        let^ byID := icall (GetRunnerScaleSetByID target (id_ScaleSetID p)) in
        match byID with
        | Ok current => IRet (Ok current)
        | Err _ => icall (GetRunnerScaleSet target group name)
        end
      else icall (GetRunnerScaleSet target group name)
  | None => icall (GetRunnerScaleSet target group name)
  end.

(** Creates or corrects the scale set. *)
Definition settle_scale_set (d : ScaleSetDefinition) (group : Z) (found : option RunnerScaleSet) : aprog (result error (option RunnerScaleSet)) :=
  let target := sd_TargetID d in
  match found with
  | None =>
      let^ created := icall (CreateRunnerScaleSet target (mkRunnerScaleSet 0 (sd_ScaleSetName d) group (buildLabels d) true)) in
      IRet match created with Err e => Err (translateOfficialError "create runner scale set" e) | Ok s => Ok s end
  | Some current =>
      if negb (String.eqb (ss_Name current) (sd_ScaleSetName d)) || negb (ss_RunnerGroupID current =? group)
      then IRet (Err (scale_set_error ErrorConflict "ensure" "persisted scale set does not match configured name and runner group"))
      else if negb (ss_DisableUpdate current) || negb (sameLabels (ss_Labels current) (buildLabels d)) then
        let^ updated := icall (UpdateRunnerScaleSet target (ss_ID current)
                                 {| current with ss_Labels := buildLabels d; ss_DisableUpdate := true |}) in
        IRet match updated with Err e => Err (translateOfficialError "update runner scale set" e) | Ok s => Ok s end
      else IRet (Ok (Some current))
  end.

Definition nil_uuid : string := "00000000-0000-0000-0000-000000000000".

(** Opens a message session unless the current one serves the scale set. *)
Definition settle_session (c : OfficialClient) (t : officialTarget) (d : ScaleSetDefinition) (current : RunnerScaleSet)
    (previous : option Identity) : aprog (result error officialTarget) :=
  let target := sd_TargetID d in
  let keep := match ot_session t, ot_scaleSet t, previous with
              | Some _, Some s, Some _ => ss_ID s =? ss_ID current
              | _, _, _ => false
              end in
  if keep then IRet (Ok t)
  else
    let^ _ := match ot_session t with
              | Some s => let^ _ := icall (CloseSession target (sn_SessionID s)) in IRet ()
              | None => IRet ()
              end in
    let^ opened := icall (MessageSession target (ss_ID current) (oc_hostID c +:+ "-" +:+ sd_TargetID d)) in
    match opened with
    | Err e => IRet (Err (translateOfficialError "create message session" e))
    | Ok session =>
        match sn_TotalAssignedJobs session with
        | Some total =>
            if String.eqb (sn_SessionID session) nil_uuid then
              let^ _ := icall (CloseSession target (sn_SessionID session)) in
              IRet (Err (scale_set_error ErrorInvalid "create message session" "GitHub returned an invalid initial session"))
            else IRet (Ok (mkOfficialTarget (ot_definition t) (ot_scaleSet t) (Some session) 0 total))
        | None =>
            let^ _ := icall (CloseSession target (sn_SessionID session)) in
            IRet (Err (scale_set_error ErrorInvalid "create message session" "GitHub returned an invalid initial session"))
        end
    end.

(** The index: the target's other scale sets are forgotten. *)
Definition index_scale_set (id : Z) (target : string) (m : gmap Z string) : gmap Z string :=
  <[id := target]> (filter (fun kv : Z * string => kv.2 <> target \/ kv.1 = id) m).

Definition session_id (t : officialTarget) : string := match ot_session t with Some s => sn_SessionID s | None => "" end.

Definition Ensure (c : OfficialClient) (d : ScaleSetDefinition) (previous : option Identity)
    : aprog (OfficialClient * result error Identity) :=
  let target := sd_TargetID d in
  if negb (validateDefinition d)
  then IRet (c, Err (scale_set_error ErrorInvalid "ensure"
         "target ID, URL, client ID, installation ID, secret ID, and scale-set name are required"))
  else
    let^ opened := targetClient c d in
    match opened with
    | Err e => IRet (c, Err (translateOfficialError "create client" e))
    | Ok (c, t) =>
        let^ group := runnerGroupID target (sd_RunnerGroup d) in
        match group with
        | Err e => IRet (c, Err (translateOfficialError "get runner group" e))
        | Ok group =>
            let^ found := find_scale_set target group (sd_ScaleSetName d) previous in
            match found with
            | Err e => IRet (c, Err (translateOfficialError "get runner scale set" e))
            | Ok found =>
                let^ settled := settle_scale_set d group found in
                match settled with
                | Err e => IRet (c, Err e)
                | Ok None => IRet (c, Err (scale_set_error ErrorInvalid "ensure" "GitHub returned an empty scale-set identity"))
                | Ok (Some current) =>
                    if ss_ID current <=? 0
                    then IRet (c, Err (scale_set_error ErrorInvalid "ensure" "GitHub returned an empty scale-set identity"))
                    else
                      let^ listening := settle_session c t d current previous in
                      match listening with
                      | Err e => IRet (c, Err e)
                      | Ok t =>
                          let t := mkOfficialTarget d (Some current) (ot_session t) (ot_lastID t) (ot_TotalAssignedJobs t) in
                          IRet (mkOfficialClient (oc_hostID c) (<[target := t]> (oc_targets c))
                                  (index_scale_set (ss_ID current) target (oc_byScaleSet c)) (oc_activeJobs c),
                                Ok (mkIdentity (ss_ID current) (session_id t)))
                      end
                end
            end
        end
    end.

(** ** Messages *)

(** The active jobs of a pool, by runner. *)
Definition pool_jobs (c : OfficialClient) (pool : string) : gmap string string := default ∅ (oc_activeJobs c !! pool).

Definition setActiveJob (pool runner job : string) (c : OfficialClient) : OfficialClient :=
  mkOfficialClient (oc_hostID c) (oc_targets c) (oc_byScaleSet c) (<[pool := <[runner := job]> (pool_jobs c pool)]> (oc_activeJobs c)).
Definition clearActiveJob (pool runner : string) (c : OfficialClient) : OfficialClient :=
  mkOfficialClient (oc_hostID c) (oc_targets c) (oc_byScaleSet c)
    (match oc_activeJobs c !! pool with
     | Some jobs => <[pool := delete runner jobs]> (oc_activeJobs c)
     | None => oc_activeJobs c
     end).
(** [activeRunnerForJob], whose caller only asks whether there is one. *)
Definition activeRunnerForJob (c : OfficialClient) (pool job : string) : bool :=
  existsb (fun kv => String.eqb kv.2 job) (map_to_list (pool_jobs c pool)).
Definition ActiveJob (c : OfficialClient) (pool runner : string) : option string := pool_jobs c pool !! runner.

(** [validateJobCompletion]: whether the event names a runner. *)
Definition validateJobCompletion (completed : option JobCompletedMsg) : result error bool :=
  match completed with
  | None => Err (ErrNew "job-completed event is nil")
  | Some m =>
      if blank (jc_JobID m) then Err (ErrNew "job-completed event is missing its job ID")
      else
        let outcome := TrimSpace (jc_Result m) in
        if String.eqb outcome "" then Err (ErrNew "job-completed event is missing its result")
        else if (jc_RunnerID m =? 0) && String.eqb (jc_RunnerName m) "" then
          if negb (IsZero (jc_RunnerAssignTime m))
          then Err (ErrNew "job-completed event without a runner identity has a runner assignment time")
          else if negb (EqualFold outcome "canceled") && negb (EqualFold outcome "cancelled")
          then Err (ErrNew "job-completed event without a runner identity must be canceled")
          else Ok false
        else if (jc_RunnerID m <=? 0) || blank (jc_RunnerName m)
        then Err (ErrNew "job-completed event has a partial runner identity")
        else Ok true
  end.

(** The check of the started events: they are present and name a job. *)
Fixpoint check_started (l : list (option JobStartedMsg)) : result error (list JobStartedMsg) :=
  match l with
  | [] => Ok []
  | None :: _ => Err (scale_set_error ErrorInvalid "validate job-started event" "job-started event is nil or missing its job ID")
  | Some m :: rest =>
      if blank (js_JobID m)
      then Err (scale_set_error ErrorInvalid "validate job-started event" "job-started event is nil or missing its job ID")
      else match check_started rest with Err e => Err e | Ok ms => Ok (m :: ms) end
  end.

(** The check of the completed events: the ones with a runner, in order. *)
Fixpoint check_completed (c : OfficialClient) (pool : string) (startedJobIDs : list string) (l : list (option JobCompletedMsg))
    : result error (list JobCompletedMsg) :=
  match l with
  | [] => Ok []
  | completed :: rest =>
      match validateJobCompletion completed, completed with
      | Err e, _ => Err (ErrScaleSet ErrorInvalid "validate job-completed event" 0 0 (Some e))
      | Ok false, Some m =>
          let job := TrimSpace (jc_JobID m) in
          if existsb (String.eqb job) startedJobIDs
          then Err (scale_set_error ErrorInvalid "validate job-completed event"
                      "anonymous completion conflicts with a job-started event in the same batch")
          else if activeRunnerForJob c pool job
          then Err (scale_set_error ErrorInvalid "validate job-completed event"
                      "anonymous completion conflicts with an active runner job")
          else check_completed c pool startedJobIDs rest
      | Ok true, Some m => match check_completed c pool startedJobIDs rest with Err e => Err e | Ok ms => Ok (m :: ms) end
      | Ok _, None => check_completed c pool startedJobIDs rest
      end
  end.

(** Persists the events of a message, the started ones first; stops at the
    first failure. *)
Fixpoint persist_started (pool : string) (l : list JobStartedMsg) : aprog (option error) :=
  match l with
  | [] => IRet None
  | m :: rest =>
      let^ r := icall (SinkJobStarted pool (js_RunnerName m) (js_JobID m) (js_RunnerAssignTime m)) in
      match r with
      | Some e => IRet (Some (ErrScaleSet ErrorTransport "persist job-started event" 0 0 (Some e)))
      | None => persist_started pool rest
      end
  end.
Fixpoint persist_completed (pool : string) (l : list JobCompletedMsg) : aprog (option error) :=
  match l with
  | [] => IRet None
  | m :: rest =>
      let^ r := icall (SinkJobCompleted pool (jc_RunnerName m) (jc_JobID m) (jc_Result m) (jc_RunnerAssignTime m)) in
      match r with
      | Some e => IRet (Some (ErrScaleSet ErrorTransport "persist job-completed event" 0 0 (Some e)))
      | None => persist_completed pool rest
      end
  end.

Fixpoint observe_started (pool : string) (now : time) (l : list JobStartedMsg) : aprog () :=
  match l with
  | [] => IRet ()
  | m :: rest =>
      let assigned := js_RunnerAssignTime m in
      let lag := if negb (IsZero assigned) && After now assigned then Sub now assigned else 0 in
      let^ _ := icall (ObserveJobStarted pool lag) in observe_started pool now rest
  end.
Fixpoint observe_completed (pool : string) (l : list (option JobCompletedMsg)) : aprog () :=
  match l with
  | [] => IRet ()
  | Some m :: rest => let^ _ := icall (ObserveJobCompleted pool (jc_Result m) (0 <? jc_RunnerID m)) in observe_completed pool rest
  | None :: rest => observe_completed pool rest
  end.

(** The active jobs after the message's events. *)
Definition apply_events (pool : string) (started : list JobStartedMsg) (completed : list JobCompletedMsg) (c : OfficialClient)
    : OfficialClient :=
  let c := foldl (fun c m => setActiveJob pool (js_RunnerName m) (js_JobID m) c) c started in
  foldl (fun c m => clearActiveJob pool (jc_RunnerName m) c) c completed.

(** The processing of one message. *)
Definition process_message (c : OfficialClient) (key : string) (t : officialTarget) (session : string) (m : Message)
    : aprog (OfficialClient * result error Z) :=
  let pool := sd_TargetID (ot_definition t) in
  match mg_TotalAssignedJobs m with
  | None => IRet (c, Err (scale_set_error ErrorInvalid "poll" "message did not contain authoritative statistics"))
  | Some total =>
      match check_started (mg_Started m) with
      | Err e => IRet (c, Err e)
      | Ok started =>
          match check_completed c pool (map (fun s => TrimSpace (js_JobID s)) started) (mg_Completed m) with
          | Err e => IRet (c, Err e)
          | Ok completed =>
              let^ failed := persist_started pool started in
              match failed with
              | Some e => IRet (c, Err e)
              | None =>
                  let^ failed := persist_completed pool completed in
                  match failed with
                  | Some e => IRet (c, Err e)
                  | None =>
                      let c := apply_events pool started completed c in
                      let^ failed := icall (DeleteMessage key session (mg_MessageID m)) in
                      match failed with
                      | Some e => IRet (c, Err (translateOfficialError "acknowledge message" e))
                      | None =>
                          let^ now := icall ReadClock in
                          let^ _ := observe_started pool now started in
                          let^ _ := observe_completed pool (mg_Completed m) in
                          let^ failed := match mg_Available m with
                                         | [] => IRet None
                                         | requests => icall (AcquireJobs key session requests)
                                         end in
                          match failed with
                          | Some e => IRet (c, Err (translateOfficialError "acquire jobs" e))
                          | None =>
                              let t := mkOfficialTarget (ot_definition t) (ot_scaleSet t) (ot_session t) (mg_MessageID m) total in
                              IRet (put_target key t c, Ok total)
                          end
                      end
                  end
              end
          end
      end
  end.

(** [Statistics]: the assigned jobs GitHub reports. *)
Definition Statistics (c : OfficialClient) (identity : Identity) (maxCapacity : Z) : aprog (OfficialClient * result error Z) :=
  if maxCapacity <? 0 then IRet (c, Err (scale_set_error ErrorInvalid "poll" "max capacity must not be negative"))
  else
    match oc_byScaleSet c !! id_ScaleSetID identity with
    | None => IRet (c, Err (scale_set_error ErrorNotFound "poll" "scale-set session is not initialized"))
    | Some key =>
        match oc_targets c !! key with
        | None => IRet (c, Err (scale_set_error ErrorNotFound "poll" "scale-set session is not initialized"))
        | Some t =>
            match ot_session t with
            | None => IRet (c, Err (scale_set_error ErrorNotFound "poll" "message-session identity changed"))
            | Some s =>
                if negb (String.eqb (sn_SessionID s) (id_ListenerID identity))
                then IRet (c, Err (scale_set_error ErrorNotFound "poll" "message-session identity changed"))
                else
                  let^ polled := icall (GetMessage key (sn_SessionID s) (ot_lastID t) maxCapacity) in
                  match polled with
                  | Err e => IRet (c, Err (translateOfficialError "poll" e))
                  | Ok None => IRet (c, Ok (ot_TotalAssignedJobs t))
                  | Ok (Some m) => process_message c key t (sn_SessionID s) m
                  end
            end
        end
    end.

(** ** Runners *)

Definition CreateJITConfig (c : OfficialClient) (identity : Identity) (runnerName : string) : aprog (result error JITConfig) :=
  let operation := "create JIT configuration" in
  if String.eqb runnerName "" then IRet (Err (scale_set_error ErrorInvalid operation "runner name is required"))
  else match oc_byScaleSet c !! id_ScaleSetID identity with
       | None => IRet (Err (scale_set_error ErrorNotFound operation "scale set is not initialized"))
       | Some key =>
           let^ answer := icall (GenerateJITConfig key runnerName (id_ScaleSetID identity)) in
           let invalid := Err (scale_set_error ErrorInvalid operation "GitHub returned an invalid JIT runner response") in
           IRet match answer with
                | Err e => Err (translateOfficialError operation e)
                | Ok (Some (encoded, Some (id, name))) =>
                    if String.eqb encoded "" || (id <=? 0) || negb (String.eqb name runnerName) then invalid
                    else Ok (mkJITConfig encoded id)
                | Ok _ => invalid
                end
       end.

Definition RunnerRegistered (c : OfficialClient) (pool : string) (runnerID : Z) (runnerName : string) : aprog (result error bool) :=
  if String.eqb pool "" || (runnerID <=? 0) || String.eqb runnerName ""
  then IRet (Err (scale_set_error ErrorInvalid "get runner" "pool ID, positive runner ID, and runner name are required"))
  else match oc_targets c !! pool with
       | None => IRet (Err (scale_set_error ErrorNotFound "get runner" "scale-set target is not initialized"))
       | Some t =>
           match ot_scaleSet t with
           | None => IRet (Err (scale_set_error ErrorNotFound "get runner" "scale set is not initialized"))
           | Some set =>
               if ss_ID set <=? 0 then IRet (Err (scale_set_error ErrorNotFound "get runner" "scale set is not initialized"))
               else
                 let^ answer := icall (GetRunner pool runnerID) in
                 let mismatch := Err (scale_set_error ErrorInvalid "get runner" "GitHub returned a mismatched runner identity") in
                 IRet match answer with
                      | Err e => if is_sentinel RunnerNotFoundError (ae_error e) then Ok false
                                 else Err (translateOfficialError "get runner" e)
                      | Ok None => mismatch
                      | Ok (Some r) =>
                          if negb (rf_ID r =? runnerID) || negb (String.eqb (rf_Name r) runnerName)
                             || (negb (rf_RunnerScaleSetID r =? 0) && negb (rf_RunnerScaleSetID r =? ss_ID set))
                          then mismatch else Ok true
                      end
           end
       end.

Definition RemoveRunner (c : OfficialClient) (pool : string) (runnerID : Z) : aprog (option error) :=
  if String.eqb pool "" || (runnerID <=? 0)
  then IRet (Some (scale_set_error ErrorInvalid "remove runner" "pool ID and positive runner ID are required"))
  else match oc_targets c !! pool with
       | None => IRet (Some (scale_set_error ErrorNotFound "remove runner" "scale-set target is not initialized"))
       | Some _ =>
           let^ failed := icall (ApiRemoveRunner pool runnerID) in
           IRet match failed with Some e => Some (translateOfficialError "remove runner" e) | None => None end
       end.

(** [DeleteScaleSet], the explicit uninstall. *)
Definition DeleteScaleSet (c : OfficialClient) (scaleSetID : Z) : aprog (option error) :=
  match oc_byScaleSet c !! scaleSetID with
  | None => IRet (Some (scale_set_error ErrorNotFound "uninstall" "scale set is not initialized"))
  | Some key =>
      let^ failed := icall (DeleteRunnerScaleSet key scaleSetID) in
      IRet match failed with Some e => Some (translateOfficialError "uninstall" e) | None => None end
  end.

(** [Close]: every session is closed once and forgotten. *)
Fixpoint close_sessions (keys : list (string * officialTarget)) (c : OfficialClient) (errs : list (option error))
    : aprog (OfficialClient * list (option error)) :=
  match keys with
  | [] => IRet (c, errs)
  | (key, t) :: rest =>
      match ot_session t with
      | None => close_sessions rest c errs
      | Some s =>
          let^ failed := icall (CloseSession key (sn_SessionID s)) in
          let t := mkOfficialTarget (ot_definition t) (ot_scaleSet t) None (ot_lastID t) (ot_TotalAssignedJobs t) in
          close_sessions rest (put_target key t c) (errs ++ [match failed with Some e => Some (ae_error e) | None => None end])
      end
  end.

Definition Close `{MapRange} (c : OfficialClient) : aprog (OfficialClient * option error) :=
  let^ (c, errs) := close_sessions (range (oc_targets c)) c [] in
  IRet (c, errors_Join errs).
End Client.
