(* ===== verification/ScaleSetFacts.v ===== *)
(** Theorems on the scale-set client: the order in which a message is persisted,
    acknowledged and acted on, the creation of scale sets, the identities the
    client hands out, and what it concludes about runners. *)

From S2P Require Import Prelude Float64 GoStrings Regexp GoText Model Config PlanGates Errors Effects Interaction ScaleSet.
#[local] Open Scope Z_scope.

(** ** Messages *)

(** The events that are not nil. *)
Definition present {A} (l : list (option A)) : list A := flat_map (fun o => match o with Some x => [x] | None => [] end) l.

(** The lifecycle events of a message that have to be durable: every start, and
    every completion that names a runner. *)
Definition names_runner (m : JobCompletedMsg) : bool := negb ((jc_RunnerID m =? 0) && String.eqb (jc_RunnerName m) "").
Definition started_write (pool : string) (m : JobStartedMsg) : aevent :=
  ev (SinkJobStarted pool (js_RunnerName m) (js_JobID m) (js_RunnerAssignTime m)) None.
Definition completed_write (pool : string) (m : JobCompletedMsg) : aevent :=
  ev (SinkJobCompleted pool (jc_RunnerName m) (jc_JobID m) (jc_Result m) (jc_RunnerAssignTime m)) None.
Definition lifecycle_writes (pool : string) (m : Message) : list aevent :=
  map (started_write pool) (present (mg_Started m))
  ++ map (completed_write pool) (List.filter names_runner (present (mg_Completed m))).

(** A message all of whose events are well formed. *)
Definition well_formed (c : OfficialClient) (pool : string) (m : Message) : Prop :=
  mg_TotalAssignedJobs m <> None
  /\ Forall (fun s => exists e, s = Some e /\ blank (js_JobID e) = false) (mg_Started m)
  /\ Forall (fun d => exists e, d = Some e /\ validateJobCompletion (Some e) = Ok (names_runner e)
               /\ (names_runner e = false ->
                   (TrimSpace (jc_JobID e) ∉ map (fun s => TrimSpace (js_JobID s)) (present (mg_Started m)))
                   /\ activeRunnerForJob c pool (TrimSpace (jc_JobID e)) = false)) (mg_Completed m).

Lemma check_started_spec l ms :
  check_started l = Ok ms -> present l = ms /\ Forall (fun s => exists e, s = Some e /\ blank (js_JobID e) = false) l.
Proof.
  revert ms. induction l as [|[m|] l IH]; intros ms; simpl; [intros [= <-]; by split| |done].
  destruct (blank (js_JobID m)) eqn:Hb; [done|]. destruct (check_started l) as [ms'|] eqn:Hl; [|done].
  intros [= <-]. destruct (IH ms' eq_refl) as [-> Hall]. split; [done|]. constructor; [eauto|done].
Qed.

Lemma validateJobCompletion_names m b : validateJobCompletion (Some m) = Ok b -> b = names_runner m.
Proof.
  unfold validateJobCompletion, names_runner. destruct (blank (jc_JobID m)); [done|]. simpl.
  destruct (String.eqb (TrimSpace (jc_Result m)) ""); [done|].
  destruct ((jc_RunnerID m =? 0) && String.eqb (jc_RunnerName m) ""); simpl.
  - destruct (negb (IsZero _)); [done|]. destruct (_ && _); [done|]. by intros [= <-].
  - destruct (_ || _); [done|]. by intros [= <-].
Qed.

Lemma check_completed_spec c pool ids l ms :
  check_completed c pool ids l = Ok ms ->
  List.filter names_runner (present l) = ms
  /\ Forall (fun d => exists e, d = Some e /\ validateJobCompletion (Some e) = Ok (names_runner e)
               /\ (names_runner e = false -> (TrimSpace (jc_JobID e) ∉ ids) /\ activeRunnerForJob c pool (TrimSpace (jc_JobID e)) = false)) l.
Proof.
  revert ms. induction l as [|[m|] l IH]; intros ms; simpl; [intros [= <-]; by split| |done].
  destruct (validateJobCompletion (Some m)) as [b|] eqn:Hv; [|by cbn [validateJobCompletion] in *; rewrite Hv].
  pose proof (validateJobCompletion_names _ _ Hv) as ->. cbn [validateJobCompletion] in Hv. rewrite Hv. cbn [id].
  destruct (names_runner m) eqn:Hn.
  - destruct (check_completed c pool ids l) as [ms'|] eqn:Hl; [|done]. intros [= <-].
    destruct (IH ms' eq_refl) as [<- Hall]. split; [done|]. constructor; [|done]. exists m. by rewrite Hn.
  - destruct (existsb _ ids) eqn:He; [done|]. destruct (activeRunnerForJob c pool _) eqn:Ha; [done|].
    intros Hl. destruct (IH ms Hl) as [<- Hall]. split; [done|]. constructor; [|done]. exists m. rewrite Hn. repeat split; try done.
    intros Hin. apply not_true_iff_false in He. apply He, existsb_exists. exists (TrimSpace (jc_JobID m)).
    by rewrite <- list_elem_of_In, String.eqb_refl.
Qed.

Definition acknowledges (e : aevent) : bool := match projT1 e with DeleteMessage _ _ _ => true | _ => false end.
Definition acquires (e : aevent) : bool := match projT1 e with AcquireJobs _ _ _ => true | _ => false end.
Definition persists (e : aevent) : bool :=
  match projT1 e with SinkJobStarted _ _ _ _ | SinkJobCompleted _ _ _ _ _ => true | _ => false end.
Definition quiet (tr : list aevent) : Prop := Forall (fun e => acknowledges e = false /\ acquires e = false) tr.

Lemma quiet_acknowledges tr : quiet tr -> Forall (fun y => acknowledges y = false) tr.
Proof. intros Hq. eapply Forall_impl; [exact Hq|]. by intros ? [? _]. Qed.
Lemma quiet_acquires tr : quiet tr -> Forall (fun y => acquires y = false) tr.
Proof. intros Hq. eapply Forall_impl; [exact Hq|]. by intros ? [_ ?]. Qed.

Lemma quiet_app tr tr' : quiet tr -> quiet tr' -> quiet (tr ++ tr').
Proof. intros. by apply Forall_app. Qed.

Lemma quiet_lifecycle pool m : quiet (lifecycle_writes pool m).
Proof. apply Forall_app. split; apply Forall_map, Forall_forall; by intros. Qed.

Lemma persist_started_runs pool l tr r :
  iruns (persist_started pool l) tr r -> quiet tr /\ (r = None -> tr = map (started_write pool) l).
Proof.
  revert tr. induction l as [|m l IH]; intros tr Hr; simpl in Hr; inv_runs; [by repeat constructor|].
  destruct r0 as [e|]; inv_runs; [by repeat constructor|]. apply IH in Hr as [Hq Ht].
  split; [by constructor|]. intros Hn. by rewrite Ht.
Qed.

Lemma persist_completed_runs pool l tr r :
  iruns (persist_completed pool l) tr r -> quiet tr /\ (r = None -> tr = map (completed_write pool) l).
Proof.
  revert tr. induction l as [|m l IH]; intros tr Hr; simpl in Hr; inv_runs; [by repeat constructor|].
  destruct r0 as [e|]; inv_runs; [by repeat constructor|]. apply IH in Hr as [Hq Ht].
  split; [by constructor|]. intros Hn. by rewrite Ht.
Qed.

Lemma observe_started_runs pool now l tr r : iruns (observe_started pool now l) tr r -> quiet tr.
Proof.
  revert tr. induction l as [|m l IH]; intros tr Hr; simpl in Hr; inv_runs; [constructor|]. constructor; [done|]. by apply IH.
Qed.

Lemma observe_completed_runs pool l tr r : iruns (observe_completed pool l) tr r -> quiet tr.
Proof.
  revert tr. induction l as [|[m|] l IH]; intros tr Hr; simpl in Hr; inv_runs; [constructor| |by apply IH].
  constructor; [done|]. by apply IH.
Qed.

Lemma apply_events_targets pool started completed c :
  oc_targets (apply_events pool started completed c) = oc_targets c
  /\ oc_byScaleSet (apply_events pool started completed c) = oc_byScaleSet c
  /\ oc_hostID (apply_events pool started completed c) = oc_hostID c.
Proof.
  unfold apply_events.
  assert (forall A (f : OfficialClient -> A -> OfficialClient) l c0,
    (forall c a, oc_targets (f c a) = oc_targets c /\ oc_byScaleSet (f c a) = oc_byScaleSet c /\ oc_hostID (f c a) = oc_hostID c) ->
    oc_targets (foldl f c0 l) = oc_targets c0 /\ oc_byScaleSet (foldl f c0 l) = oc_byScaleSet c0 /\ oc_hostID (foldl f c0 l) = oc_hostID c0)
    as Hfold.
  { intros A f l c0 Hf. revert c0. induction l as [|a l IH]; intros c0; simpl; [done|].
    destruct (IH (f c0 a)) as (-> & -> & ->). apply Hf. }
  destruct (Hfold _ (fun c m => clearActiveJob pool (jc_RunnerName m) c) completed
              (foldl (fun c m => setActiveJob pool (js_RunnerName m) (js_JobID m) c) c started)) as (-> & -> & ->); [done|].
  by apply Hfold.
Qed.

Section Statistics.
Context `{Vendor}.

(** What a poll leaves: the cursor where it was and an error, or the cursor
    after the message. *)
Definition stayed (c : OfficialClient) (out : OfficialClient * result error Z) : Prop :=
  (exists e, out.2 = Err e) /\ oc_targets out.1 = oc_targets c /\ oc_byScaleSet out.1 = oc_byScaleSet c.
Definition advanced (c : OfficialClient) (key : string) (t : officialTarget) (m : Message) (out : OfficialClient * result error Z) : Prop :=
  exists total, mg_TotalAssignedJobs m = Some total /\ out.2 = Ok total /\ oc_byScaleSet out.1 = oc_byScaleSet c
    /\ oc_targets out.1 = <[key := mkOfficialTarget (ot_definition t) (ot_scaleSet t) (ot_session t) (mg_MessageID m) total]> (oc_targets c).

(** The steps from the acknowledgement on. *)
Inductive acted_on (c : OfficialClient) (key session : string) (t : officialTarget) (m : Message)
    : list aevent -> OfficialClient * result error Z -> Prop :=
  | acted_unacknowledged e out :
      stayed c out -> acted_on c key session t m [ev (DeleteMessage key session (mg_MessageID m)) (Some e)] out
  | acted_nothing_available q out :
      quiet q -> mg_Available m = [] -> advanced c key t m out ->
      acted_on c key session t m (ev (DeleteMessage key session (mg_MessageID m)) None :: q) out
  | acted_acquired q b out :
      quiet q -> mg_Available m <> [] -> (if b is Some _ then stayed c out else advanced c key t m out) ->
      acted_on c key session t m
        (ev (DeleteMessage key session (mg_MessageID m)) None :: q ++ [ev (AcquireJobs key session (mg_Available m)) b]) out.

Lemma process_message_runs c key t session m tr out :
  iruns (process_message c key t session m) tr out ->
  let pool := sd_TargetID (ot_definition t) in
  (quiet tr /\ stayed c out /\ (tr = [] \/ well_formed c pool m))
  \/ (well_formed c pool m /\ exists post, tr = lifecycle_writes pool m ++ post /\ acted_on c key session t m post out).
Proof.
  unfold process_message. intros Hr. simpl. set (pool := sd_TargetID (ot_definition t)) in *.
  assert (Hstay : forall e, stayed c (c, Err e)) by (intros e; repeat split; by exists e).
  destruct (mg_TotalAssignedJobs m) as [total|] eqn:Htotal; [|inv_runs; by left; split; [constructor|eauto]].
  destruct (check_started (mg_Started m)) as [started|e] eqn:Hs; [|inv_runs; by left; split; [constructor|eauto]].
  destruct (check_completed c pool _ (mg_Completed m)) as [completed|e] eqn:Hc; [|inv_runs; by left; split; [constructor|eauto]].
  apply check_started_spec in Hs as [Hs Hsall]. rewrite <- Hs in Hc. apply check_completed_spec in Hc as [Hc Hcall].
  assert (Hwf : well_formed c pool m) by (unfold well_formed; by rewrite Htotal).
  apply iruns_bind_inv in Hr as (tr1 & tr2 & r1 & Hp1 & Hr & ->). apply persist_started_runs in Hp1 as [Hq1 Ht1].
  destruct r1 as [e|]; [inv_runs; left; rewrite app_nil_r; eauto 6|].
  apply iruns_bind_inv in Hr as (tr3 & tr4 & r2 & Hp2 & Hr & ->). apply persist_completed_runs in Hp2 as [Hq2 Ht2].
  destruct r2 as [e|]; [inv_runs; left; rewrite app_nil_r; split; [by apply quiet_app|eauto]|].
  right. split; [done|].
  exists tr4. rewrite Ht1, Ht2 by done. unfold lifecycle_writes. rewrite Hs, Hc, app_assoc. split; [done|].
  destruct (apply_events_targets pool started completed c) as (Htg & Hby & _).
  set (c' := apply_events pool started completed c) in *. clearbody c'. clear Ht1 Ht2 Hq1 Hq2.
  assert (Hstay' : forall e, stayed c (c', Err e)) by (intros e; repeat split; [by exists e|done..]).
  inv_runs. destruct r as [e|]; inv_runs; [by constructor|].
  apply iruns_bind_inv in Hr as (tr5 & tr6 & ? & Ho1 & Hr & ->). apply observe_started_runs in Ho1.
  apply iruns_bind_inv in Hr as (tr7 & tr8 & ? & Ho2 & Hr & ->). apply observe_completed_runs in Ho2.
  assert (Hadv : advanced c key t m (put_target key (mkOfficialTarget (ot_definition t) (ot_scaleSet t) (ot_session t) (mg_MessageID m) total) c', Ok total)).
  { exists total. simpl. by rewrite Htg, Hby. }
  assert (Hq : quiet (ev ReadClock r :: tr5 ++ tr7)) by (constructor; [done|by apply quiet_app]).
  destruct (mg_Available m) as [|q qs] eqn:Ha; inv_runs.
  - rewrite app_nil_r. by apply acted_nothing_available.
  - rewrite <- Ha, app_assoc.
    destruct r0 as [e|]; inv_runs; apply (acted_acquired _ _ _ _ _ (ev ReadClock r :: tr5 ++ tr7)); try done; by rewrite Ha.
Qed.

Lemma acted_on_acknowledges c key session t m post out before e after :
  acted_on c key session t m post out -> post = before ++ e :: after -> acknowledges e = true ->
  before = [] /\ projT1 e = DeleteMessage key session (mg_MessageID m).
Proof.
  intros Hpost Heq He.
  assert (exists a q, post = ev (DeleteMessage key session (mg_MessageID m)) a :: q /\ Forall (fun y => acknowledges y = false) q)
    as (a & q & -> & Hq).
  { destruct Hpost as [x out Hout|q out Hq _ _|q b out Hq _ _]; eexists _, _; (split; [done|]).
    - constructor.
    - by apply quiet_acknowledges.
    - apply Forall_app. split; [by apply quiet_acknowledges|by repeat constructor]. }
  by destruct (split_unique acknowledges [] q before after _ e (Forall_nil_2 _) Hq He Heq) as (-> & -> & _).
Qed.

Lemma acted_on_acquires c key session t m post out before e after :
  acted_on c key session t m post out -> post = before ++ e :: after -> acquires e = true ->
  ev (DeleteMessage key session (mg_MessageID m)) None ∈ before /\ projT1 e = AcquireJobs key session (mg_Available m).
Proof.
  intros Hpost Heq He.
  assert (Hnot : Forall (fun y => acquires y = false) (before ++ e :: after) -> False).
  { rewrite Forall_app, Forall_cons. intros (_ & He' & _). by rewrite He in He'. }
  destruct Hpost as [x out Hout|q out Hq _ _|q b out Hq _ _].
  - destruct Hnot. rewrite <- Heq. by repeat constructor.
  - destruct Hnot. rewrite <- Heq. constructor; [done|by apply quiet_acquires].
  - rewrite app_comm_cons in Heq. eapply (split_unique acquires) in Heq as (-> & -> & _); [|constructor|by constructor|done].
    + split; [by left|done].
    + done.
    + by apply quiet_acquires.
Qed.

(** The runs of a poll: none of the calls matter until there is a message. *)
Lemma Statistics_runs c identity cap tr out :
  iruns (Statistics c identity cap) tr out ->
  (quiet tr /\ Forall (fun e => persists e = false) tr /\ (stayed c out \/ exists n, out = (c, Ok n)))
  \/ exists key t s m tr', oc_byScaleSet c !! id_ScaleSetID identity = Some key /\ oc_targets c !! key = Some t
       /\ ot_session t = Some s /\ sn_SessionID s = id_ListenerID identity
       /\ tr = ev (GetMessage key (sn_SessionID s) (ot_lastID t) cap) (Ok (Some m)) :: tr'
       /\ iruns (process_message c key t (sn_SessionID s) m) tr' out.
Proof.
  unfold Statistics. intros Hr.
  assert (Hstay : forall e, stayed c (c, Err e)) by (intros e; repeat split; by exists e).
  assert (Hnil : forall out, stayed c out \/ (exists n, out = (c, Ok n)) ->
    quiet [] /\ Forall (fun e : aevent => persists e = false) [] /\ (stayed c out \/ exists n, out = (c, Ok n))).
  { intros out' Ho. split; [constructor|]. by split. }
  destruct (cap <? 0); [inv_runs; left; eauto|].
  destruct (oc_byScaleSet c !! _) as [key|] eqn:Hkey; [|inv_runs; left; eauto].
  destruct (oc_targets c !! key) as [t|] eqn:Ht; [|inv_runs; left; eauto].
  destruct (ot_session t) as [s|] eqn:Hs; [|inv_runs; left; eauto].
  destruct (String.eqb_spec (sn_SessionID s) (id_ListenerID identity)) as [Hid|]; simpl in Hr; [|inv_runs; left; eauto].
  inv_runs. destruct r as [[m|]|e]; inv_runs.
  - right. eexists key, t, s, m, _. by repeat split.
  - left. split; [by repeat constructor|]. split; [by repeat constructor|eauto].
  - left. split; [by repeat constructor|]. split; [by repeat constructor|eauto].
Qed.

Lemma quiet_not_in tr before e after : quiet tr -> tr = before ++ e :: after -> acknowledges e = false /\ acquires e = false.
Proof. intros Hq ->. unfold quiet in Hq. rewrite Forall_app, Forall_cons in Hq. tauto. Qed.

(** C2: A poll acknowledges a message only after every start and every completion
    that names a runner has been persisted, in order, with success; it writes
    none of them unless all the events of the message are well formed; and it
    acquires jobs only after the acknowledgement succeeded. *)
Theorem messages_persisted_before_acknowledged c identity cap tr out before e after :
  iruns (Statistics c identity cap) tr out -> tr = before ++ e :: after ->
  (persists e = true \/ acknowledges e = true \/ acquires e = true) ->
  exists key t session m rest,
    oc_targets c !! key = Some t
    /\ before ++ [e] = ev (GetMessage key session (ot_lastID t) cap) (Ok (Some m)) :: rest
    /\ well_formed c (sd_TargetID (ot_definition t)) m
    /\ (acknowledges e = true -> rest = lifecycle_writes (sd_TargetID (ot_definition t)) m ++ [e]
                                 /\ projT1 e = DeleteMessage key session (mg_MessageID m))
    /\ (acquires e = true -> ev (DeleteMessage key session (mg_MessageID m)) None ∈ rest
                             /\ projT1 e = AcquireJobs key session (mg_Available m)).
Proof.
  intros [(Hq & Hp & _)|(key & t & s & m & tr' & _ & Ht & _ & _ & -> & Hm)]%Statistics_runs Heq He.
  { rewrite Heq in Hp. rewrite Forall_app, Forall_cons in Hp. destruct (quiet_not_in _ _ _ _ Hq Heq). naive_solver congruence. }
  assert (exists b, before = ev (GetMessage key (sn_SessionID s) (ot_lastID t) cap) (Ok (Some m)) :: b /\ tr' = b ++ e :: after)
    as (b & -> & Htr).
  { destruct before as [|x b]; simplify_eq/=; [naive_solver|by exists b]. }
  exists key, t, (sn_SessionID s), m, (b ++ [e]). split; [done|]. split; [done|].
  apply process_message_runs in Hm as [(Hq & _ & [->|Hwf])|(Hwf & post & Hpost & Hact)].
  - by destruct b.
  - destruct (quiet_not_in _ _ _ _ Hq Htr) as [-> ->]. split; [done|]. by split.
  - split; [done|]. rewrite Hpost in Htr. pose proof (quiet_lifecycle (sd_TargetID (ot_definition t)) m) as Hlq. split; intros Hk.
    + destruct (skip_prefix acknowledges _ _ _ _ e (quiet_acknowledges _ Hlq) Hk Htr) as (b' & -> & ->).
      destruct (acted_on_acknowledges _ _ _ _ _ _ _ _ _ _ Hact eq_refl Hk) as [-> ?]. by rewrite app_nil_r.
    + destruct (skip_prefix acquires _ _ _ _ e (quiet_acquires _ Hlq) Hk Htr) as (b' & -> & ->).
      destruct (acted_on_acquires _ _ _ _ _ _ _ _ _ _ Hact eq_refl Hk). split; [set_solver|done].
Qed.

(** A poll moves the cursor of its target only when the whole message has
    been handled: acknowledged, and its available jobs acquired.  A poll that
    fails leaves every target as it was, so the message is delivered again. *)
Theorem poll_moves_cursor_when_handled c identity cap tr c' r :
  iruns (Statistics c identity cap) tr (c', r) ->
  oc_byScaleSet c' = oc_byScaleSet c
  /\ (oc_targets c' = oc_targets c
      \/ exists key t session m total,
           r = Ok total /\ oc_targets c !! key = Some t
           /\ oc_targets c' = <[key := mkOfficialTarget (ot_definition t) (ot_scaleSet t) (ot_session t) (mg_MessageID m) total]> (oc_targets c)
           /\ mg_TotalAssignedJobs m = Some total
           /\ ev (GetMessage key session (ot_lastID t) cap) (Ok (Some m)) ∈ tr
           /\ ev (DeleteMessage key session (mg_MessageID m)) None ∈ tr
           /\ (mg_Available m = [] \/ ev (AcquireJobs key session (mg_Available m)) None ∈ tr)).
Proof.
  assert (Hstay : forall c0, stayed c (c0, r) -> oc_byScaleSet c0 = oc_byScaleSet c /\ oc_targets c0 = oc_targets c)
    by (by intros c0 (_ & ? & ?)).
  intros [(_ & _ & [?%Hstay|[n ?]])|(key & t & s & m & tr' & _ & Ht & _ & _ & -> & Hm)]%Statistics_runs; simplify_eq; [tauto|auto|].
  apply process_message_runs in Hm as [(_ & ?%Hstay & _)|(_ & post & -> & Hact)]; [tauto|].
  inversion Hact as [x out Hout|q out _ Ha (total & Htot & Hr & Hby & Htg)|q b out _ Ha Hout]; subst.
  - apply Hstay in Hout. tauto.
  - simpl in *. split; [done|]. right. exists key, t, (sn_SessionID s), m, total. repeat split; try done; [by left| |by left].
    right. apply elem_of_app. right. by left.
  - destruct b as [x|]; [apply Hstay in Hout; tauto|]. destruct Hout as (total & Htot & Hr & Hby & Htg). simpl in *.
    split; [done|]. right. exists key, t, (sn_SessionID s), m, total. repeat split; try done; [by left| |].
    + right. apply elem_of_app. right. by left.
    + right. right. apply elem_of_app. right. right. apply elem_of_app. right. by left.
Qed.
End Statistics.

(** ** Scale sets *)

Section Ensure.
Context `{Vendor}.

Definition creates (e : aevent) : bool := match projT1 e with CreateRunnerScaleSet _ _ => true | _ => false end.

(** The scale set was looked up and GitHub answered that it has none. *)
Definition looked_up (target name : string) (group : Z) (tr : list aevent) : Prop :=
  ev (GetRunnerScaleSet target group name) (Ok None) ∈ tr
  \/ exists id, 0 < id /\ ev (GetRunnerScaleSetByID target id) (Ok None) ∈ tr.

Lemma targetClient_runs c d tr r :
  iruns (targetClient c d) tr r ->
  Forall (fun e => creates e = false) tr
  /\ forall c' t, r = Ok (c', t) ->
       (c' = c /\ oc_targets c !! sd_TargetID d = Some t)
       \/ (oc_targets c !! sd_TargetID d = None /\ t = new_target d /\ c' = put_target (sd_TargetID d) t c).
Proof.
  unfold targetClient. intros Hr. destruct (oc_targets c !! sd_TargetID d) as [t0|] eqn:Ht.
  - destruct (same_authentication _ _); inv_runs; (split; [constructor|]); intros; simplify_eq. by left.
  - inv_runs. destruct r0 as [e|]; inv_runs; [split; [by repeat constructor|done]|].
    destruct r0 as [e|]; inv_runs; (split; [by repeat constructor|]); intros; simplify_eq. by right.
Qed.

Lemma runnerGroupID_runs target name tr r : iruns (runnerGroupID target name) tr r -> Forall (fun e => creates e = false) tr.
Proof. unfold runnerGroupID. intros Hr. destruct (_ || _); inv_runs; by repeat constructor. Qed.

Lemma find_scale_set_runs target group name previous tr r :
  iruns (find_scale_set target group name previous) tr r ->
  Forall (fun e => creates e = false) tr /\ (r = Ok None -> looked_up target name group tr).
Proof.
  unfold find_scale_set, looked_up. intros Hr. destruct previous as [p|]; [destruct (Z.ltb_spec 0 (id_ScaleSetID p))|].
  - inv_runs. destruct r0 as [found|e]; inv_runs; (split; [by repeat constructor|]).
    + intros [= ->]. right. exists (id_ScaleSetID p). split; [done|by left].
    + intros ->. left. right. by left.
  - inv_runs. split; [by repeat constructor|]. intros ->. left. by left.
  - inv_runs. split; [by repeat constructor|]. intros ->. left. by left.
Qed.

Definition creation (d : ScaleSetDefinition) (group : Z) : api_call :=
  CreateRunnerScaleSet (sd_TargetID d) (mkRunnerScaleSet 0 (sd_ScaleSetName d) group (buildLabels d) true).

Lemma settle_scale_set_runs d group found tr r :
  iruns (settle_scale_set d group found) tr r ->
  Forall (fun e => creates e = false) tr \/ (found = None /\ exists a, tr = [ev (creation d group) a]).
Proof.
  unfold settle_scale_set. intros Hr. destruct found as [current|]; [left|right].
  - destruct (_ || _); [inv_runs; constructor|]. destruct (_ || _); inv_runs; by repeat constructor.
  - inv_runs. eauto.
Qed.

Lemma settle_session_runs c t d current previous tr r :
  iruns (settle_session c t d current previous) tr r ->
  Forall (fun e => creates e = false) tr
  /\ forall t', r = Ok t' ->
       t' = t /\ ot_session t <> None
       \/ exists s total, sn_TotalAssignedJobs s = Some total /\ sn_SessionID s <> nil_uuid
            /\ t' = mkOfficialTarget (ot_definition t) (ot_scaleSet t) (Some s) 0 total.
Proof.
  unfold settle_session. intros Hr.
  destruct (match ot_session t, ot_scaleSet t, previous with Some _, Some s, Some _ => ss_ID s =? ss_ID current | _, _, _ => false end) eqn:Hk.
  - inv_runs. split; [constructor|]. intros t' [= <-]. left. split; [done|]. by destruct (ot_session t).
  - apply iruns_bind_inv in Hr as (tr1 & tr2 & [] & H1 & Hr & ->).
    assert (H1' : Forall (fun e => creates e = false) tr1) by (destruct (ot_session t); inv_runs; by repeat constructor).
    inv_runs. destruct r0 as [s|e]; inv_runs; [|split; [apply Forall_app; by repeat constructor|done]].
    destruct (sn_TotalAssignedJobs s) as [total|] eqn:Htot; [destruct (String.eqb_spec (sn_SessionID s) nil_uuid)|]; inv_runs;
      (split; [apply Forall_app; by repeat constructor|]); intros t' ?; simplify_eq. right. eauto 6.
Qed.

(** Nothing is created, or one scale set after a lookup. *)
Definition created_once (d : ScaleSetDefinition) (tr : list aevent) : Prop :=
  Forall (fun e => creates e = false) tr
  \/ exists group pre a post, tr = pre ++ ev (creation d group) a :: post
       /\ Forall (fun e => creates e = false) pre /\ Forall (fun e => creates e = false) post
       /\ looked_up (sd_TargetID d) (sd_ScaleSetName d) group pre.

Lemma created_once_trace d group found tr1 tr2 tr3 tr4 r :
  Forall (fun e => creates e = false) tr1 ->
  Forall (fun e => creates e = false) tr2 -> (found = None -> looked_up (sd_TargetID d) (sd_ScaleSetName d) group tr2) ->
  iruns (settle_scale_set d group found) tr3 r -> Forall (fun e => creates e = false) tr4 ->
  created_once d (tr1 ++ tr2 ++ tr3 ++ tr4).
Proof.
  intros H1 H2 Hlook H3%settle_scale_set_runs H4. destruct H3 as [H3|(-> & a & ->)]; [left; by repeat (apply Forall_app; split)|right].
  exists group, (tr1 ++ tr2), a, tr4. rewrite <- !app_assoc. repeat split; try done; [by apply Forall_app|].
  destruct (Hlook eq_refl) as [Hin|(id & Hid & Hin)]; [left|right; exists id]; set_solver.
Qed.

(** The runs of [Ensure]: where its calls to create a scale set are, and the
    client it leaves. *)
Lemma Ensure_runs c d previous tr c' r :
  iruns (Ensure c d previous) tr (c', r) ->
  created_once d tr
  /\ ((exists e, r = Err e) /\ (c' = c \/ oc_targets c !! sd_TargetID d = None /\ c' = put_target (sd_TargetID d) (new_target d) c)
      \/ exists t current s,
           r = Ok (mkIdentity (ss_ID current) (sn_SessionID s)) /\ 0 < ss_ID current
           /\ ot_session t = Some s /\ ot_definition t = d /\ ot_scaleSet t = Some current
           /\ ((sn_TotalAssignedJobs s <> None /\ sn_SessionID s <> nil_uuid)
               \/ exists t0, oc_targets c !! sd_TargetID d = Some t0 /\ ot_session t0 = Some s)
           /\ c' = mkOfficialClient (oc_hostID c) (<[sd_TargetID d := t]> (oc_targets c))
                     (index_scale_set (ss_ID current) (sd_TargetID d) (oc_byScaleSet c)) (oc_activeJobs c)).
Proof.
  unfold Ensure. intros Hr. destruct (validateDefinition d); simpl in Hr; [|inv_runs; split; [left; constructor|left; eauto]].
  apply iruns_bind_inv in Hr as (tr1 & tr2 & r1 & H1 & Hr & ->). apply targetClient_runs in H1 as [H1 Hopen].
  destruct r1 as [[c1 t]|e]; [|inv_runs; rewrite app_nil_r; split; [by left|left; eauto]].
  specialize (Hopen c1 t eq_refl).
  assert (Hc1 : c1 = c \/ oc_targets c !! sd_TargetID d = None /\ c1 = put_target (sd_TargetID d) (new_target d) c) by naive_solver.
  apply iruns_bind_inv in Hr as (tr3 & tr4 & r2 & H2 & Hr & ->). apply runnerGroupID_runs in H2.
  destruct r2 as [group|e]; [|inv_runs; rewrite app_nil_r; split; [left; by apply Forall_app|left; eauto]].
  apply iruns_bind_inv in Hr as (tr5 & tr6 & r3 & H3 & Hr & ->). apply find_scale_set_runs in H3 as [H3 Hlook].
  destruct r3 as [found|e]; [|inv_runs; rewrite app_nil_r; split; [left; by repeat (apply Forall_app; split)|left; eauto]].
  apply iruns_bind_inv in Hr as (tr7 & tr8 & r4 & H4 & Hr & ->).
  assert (Htrace : Forall (fun e => creates e = false) tr8 -> created_once d (tr1 ++ tr3 ++ tr5 ++ tr7 ++ tr8)).
  { intros H8. rewrite app_assoc. eapply created_once_trace; [by apply Forall_app|exact H3| |exact H4|exact H8]. naive_solver. }
  destruct r4 as [[current|]|e]; [|inv_runs; split; [apply Htrace; constructor|left; eauto]..].
  destruct (Z.leb_spec (ss_ID current) 0) as [|Hpos]; [inv_runs; split; [apply Htrace; constructor|left; eauto]|].
  apply iruns_bind_inv in Hr as (tr9 & tr10 & r5 & H5 & Hr & ->). apply settle_session_runs in H5 as [H5 Hsess].
  destruct r5 as [t'|e]; inv_runs; rewrite app_nil_r in *; [|split; [by apply Htrace|left; eauto]].
  split; [by apply Htrace|right]. destruct (Hsess t' eq_refl) as [[-> Hs]|(s & total & Htot & Hnil & ->)].
  - destruct (ot_session t) as [s|] eqn:Hts; [|done].
    eexists (mkOfficialTarget d (Some current) (Some s) (ot_lastID t) (ot_TotalAssignedJobs t)), current, s. simpl.
    destruct Hopen as [[-> Ht]|(Hnone & -> & ->)]; [|done].
    repeat split; try done. right. by exists t.
  - eexists (mkOfficialTarget d (Some current) (Some s) 0 total), current, s. simpl. repeat split; try done.
    + left. by rewrite Htot.
    + destruct Hopen as [[-> Ht]|(Hnone & -> & ->)]; simpl; [done|]. by rewrite insert_insert_eq.
Qed.

(** A scale set is created at most once in an [Ensure], and only after a
    lookup that succeeded and found none; a lookup that failed creates nothing. *)
Theorem scale_sets_not_duplicated c d previous tr out before e after :
  iruns (Ensure c d previous) tr out -> tr = before ++ e :: after -> creates e = true ->
  exists group, projT1 e = creation d group
    /\ looked_up (sd_TargetID d) (sd_ScaleSetName d) group before
    /\ Forall (fun e' => creates e' = false) before /\ Forall (fun e' => creates e' = false) after.
Proof.
  destruct out as [c' r]. intros [[Hno|(group & pre & a & post & Htr & Hpre & Hpost & Hlook)] _]%Ensure_runs Heq He.
  - rewrite Heq, Forall_app, Forall_cons in Hno. destruct Hno as (_ & Hno & _). by rewrite He in Hno.
  - rewrite Htr in Heq. destruct (split_unique creates pre post before after _ e Hpre Hpost He Heq) as (-> & -> & ->). eauto.
Qed.

(** ** The client's invariant *)

(** The index points to the target that has the scale set, targets are under
    their own ID, scale sets have a positive ID, and every session held is one
    GitHub opened with statistics and with an ID that is not the nil UUID. *)
Record consistent (c : OfficialClient) : Prop := {
  co_index : forall id key, oc_byScaleSet c !! id = Some key ->
    0 < id /\ exists t set, oc_targets c !! key = Some t /\ ot_scaleSet t = Some set /\ ss_ID set = id;
  co_key : forall key t, oc_targets c !! key = Some t -> sd_TargetID (ot_definition t) = key;
  co_session : forall key t s, oc_targets c !! key = Some t -> ot_session t = Some s ->
    sn_SessionID s <> nil_uuid /\ sn_TotalAssignedJobs s <> None;
}.

(** The operations that change the client, with any answers. *)
Inductive client_step `{MapRange} : OfficialClient -> OfficialClient -> Prop :=
  | client_ensure c d previous tr c' r : iruns (Ensure c d previous) tr (c', r) -> client_step c c'
  | client_poll c identity cap tr c' r : iruns (Statistics c identity cap) tr (c', r) -> client_step c c'
  | client_close c tr c' r : iruns (Close c) tr (c', r) -> client_step c c'.

(** A target replaced by one with the same scale set. *)
Lemma consistent_put c key t t' :
  consistent c -> oc_targets c !! key = Some t -> ot_definition t' = ot_definition t -> ot_scaleSet t' = ot_scaleSet t ->
  (ot_session t' = ot_session t \/ ot_session t' = None) ->
  forall jobs, consistent (mkOfficialClient (oc_hostID c) (<[key := t']> (oc_targets c)) (oc_byScaleSet c) jobs).
Proof.
  intros [Hi Hk Hs] Ht Hd Hset Hsess jobs. split; simpl.
  - intros id key' (Hpos & t0 & set & H0 & H1 & H2)%Hi. split; [exact Hpos|]. destruct (decide (key' = key)) as [->|].
    + exists t', set. rewrite lookup_insert_eq. by simplify_eq; rewrite Hset.
    + exists t0, set. by rewrite lookup_insert_ne.
  - intros key' t0. rewrite lookup_insert. case_decide; [intros [= <-]; subst; rewrite Hd|]; eauto.
  - intros key' t0 s. rewrite lookup_insert. case_decide; [intros [= <-] Hs0; subst|eauto].
    destruct Hsess as [Hsess|Hsess]; rewrite Hsess in Hs0; [eauto|done].
Qed.

Lemma consistent_new_target c d : consistent c -> oc_targets c !! sd_TargetID d = None -> consistent (put_target (sd_TargetID d) (new_target d) c).
Proof.
  intros [Hi Hk Hs] Hnone. split; simpl.
  - intros id key (Hpos & t & set & Ht & Hset & Hid)%Hi. split; [exact Hpos|]. exists t, set. rewrite lookup_insert_ne; [done|]. intros <-. by rewrite Ht in Hnone.
  - intros key t. rewrite lookup_insert. case_decide; [intros [= <-]; done|eauto].
  - intros key t s. rewrite lookup_insert. case_decide; [by intros [= <-]|eauto].
Qed.

Lemma consistent_ensure c d previous tr c' r : consistent c -> iruns (Ensure c d previous) tr (c', r) -> consistent c'.
Proof.
  intros Hc [_ [[_ [->|[Hnone ->]]]|(t & current & s & _ & Hpos & Hts & Hd & Hset & Hvalid & ->)]]%Ensure_runs; [done|by apply consistent_new_target|].
  destruct Hc as [Hi Hk Hs]. split; simpl.
  - intros id key. unfold index_scale_set. rewrite lookup_insert. case_decide as Hid; [subst id; intros [= <-]; split; [exact Hpos|]; exists t, current; by rewrite lookup_insert_eq|].
    intros [Hold Hf]%map_lookup_filter_Some. simpl in Hf. destruct Hf as [Hf| ->]; [|done].
    destruct (Hi id key Hold) as (Hid' & t0 & set & H0 & H1 & H2). split; [exact Hid'|]. exists t0, set. by rewrite lookup_insert_ne.
  - intros key t0. rewrite lookup_insert. case_decide; [intros [= <-]; by subst|eauto].
  - intros key t0 s0. rewrite lookup_insert. case_decide; [intros [= <-] Hs0|eauto]. rewrite Hts in Hs0. injection Hs0 as <-.
    destruct Hvalid as [[? ?]|(t1 & H1 & H2)]; eauto.
Qed.

Lemma consistent_poll c identity cap tr c' r : consistent c -> iruns (Statistics c identity cap) tr (c', r) -> consistent c'.
Proof.
  intros Hc [(_ & _ & [(_ & Ht & Hb)|[n ?]])|(key & t & s & m & tr' & _ & Ht & _ & _ & _ & Hm)]%Statistics_runs; simplify_eq/=; [|done|].
  - destruct Hc as [Hi Hk Hs]. split; by rewrite Ht, ?Hb.
  - assert (Hstay : stayed c (c', r) -> consistent c').
    { intros (_ & Ht' & Hb'). simpl in *. destruct Hc as [Hi Hk Hs]. split; by rewrite Ht', ?Hb'. }
    assert (Hadv : advanced c key t m (c', r) -> consistent c').
    { intros (total & _ & _ & Hb & Htg). simpl in *.
      set (t' := mkOfficialTarget (ot_definition t) (ot_scaleSet t) (ot_session t) (mg_MessageID m) total) in *.
      destruct (consistent_put c key t t' Hc Ht eq_refl eq_refl (or_introl eq_refl) (oc_activeJobs c')) as [Hi Hk Hs].
      split; rewrite Htg, ?Hb; [exact Hi|exact Hk|exact Hs]. }
    apply process_message_runs in Hm as [(_ & ? & _)|(_ & post & _ & Hact)]; [auto|].
    inversion Hact as [| |q b]; subst; [auto..|]. destruct b; auto.
Qed.

Lemma consistent_close_sessions keys c errs tr out :
  consistent c ->
  Forall (fun kt => exists t, oc_targets c !! kt.1 = Some t /\ ot_definition t = ot_definition kt.2 /\ ot_scaleSet t = ot_scaleSet kt.2) keys ->
  iruns (close_sessions keys c errs) tr out -> consistent out.1.
Proof.
  revert c errs tr. induction keys as [|[key t] keys IH]; intros c errs tr Hc Hall Hr; simpl in Hr; [by inv_runs|].
  apply Forall_cons_1 in Hall as [(t0 & H0 & Hd & Hset) Hall]. simpl in *. destruct (ot_session t) as [s|]; [|eauto].
  inv_runs. eapply IH; [| |exact Hr].
  - eapply consistent_put; [done|exact H0|done..|by right].
  - eapply Forall_impl; [exact Hall|]. intros [key' t'] (t1 & H1 & Hd1 & Hset1). simpl in *.
    destruct (decide (key' = key)) as [->|]; [|by exists t1; rewrite lookup_insert_ne].
    eexists. rewrite lookup_insert_eq. split; [done|]. simpl. split; congruence.
Qed.

Lemma consistent_client_step `{MapRange} c c' : client_step c c' -> consistent c -> consistent c'.
Proof.
  intros [? ? ? ? ? ? Hr|? ? ? ? ? ? Hr|c0 tr c1 r Hr] Hc; [by eapply consistent_ensure|by eapply consistent_poll|].
  unfold Close in Hr. apply iruns_bind_inv in Hr as (tr1 & tr2 & [c2 errs] & H1 & Hr & ->). inv_runs.
  eapply (consistent_close_sessions _ _ _ _ (c2, errs)); [done| |exact H1].
  apply Forall_forall. intros [key t] Ht%elem_of_range. by exists t.
Qed.

(** C37: Through any sequence of ensures, polls and closes, with any answers of
    GitHub, the index of scale sets points, by positive IDs, to the target that has
    the scale set, targets are under their own ID, and no target holds a message
    session that GitHub opened without statistics or with the nil UUID. *)
Theorem client_stays_consistent `{MapRange} hostID version timeout secrets c0 c :
  NewOfficialClient hostID version timeout secrets = Ok c0 -> rtc client_step c0 c -> consistent c.
Proof.
  intros Hnew Hrun. assert (Hinit : consistent c0).
  { revert Hnew. unfold NewOfficialClient. destruct (_ || _); [done|]. intros [= <-].
    split; simpl; [intros id key|intros key t|intros key t s]; by rewrite lookup_empty. }
  clear Hnew. induction Hrun as [c|c1 c2 c Hstep _ IH]; [done|]. apply IH. by eapply consistent_client_step.
Qed.

(** The identity [Ensure] returns polls its own target: a poll with it asks
    GitHub for the messages of the session that [Ensure] left, past the last
    message of that session. *)
Theorem ensured_identity_polls c d previous tr c' identity cap :
  iruns (Ensure c d previous) tr (c', Ok identity) -> 0 <= cap ->
  exists t k, oc_targets c' !! sd_TargetID d = Some t /\ ot_definition t = d /\ 0 < id_ScaleSetID identity
    /\ Statistics c' identity cap = ICall (GetMessage (sd_TargetID d) (id_ListenerID identity) (ot_lastID t) cap) k.
Proof.
  intros [_ [[[e ?] _]|(t & current & s & Hid & Hpos & Hs & Hd & Hset & _ & ->)]]%Ensure_runs Hcap; [done|].
  injection Hid as ->. exists t. eexists. split; [by apply lookup_insert_eq|]. split; [done|]. split; [done|].
  unfold Statistics. destruct (Z.ltb_spec cap 0); [lia|]. simpl. unfold index_scale_set.
  rewrite lookup_insert_eq, lookup_insert_eq, Hs. simpl. rewrite String.eqb_refl. reflexivity.
Qed.

(** C38: A runner is reported as gone only when GitHub answered with its
    runner-not-found error, and as registered only when GitHub returned a runner
    with exactly that identity; every other answer is an error. *)
Theorem registration_fails_closed c pool runnerID runnerName tr registered :
  iruns (RunnerRegistered c pool runnerID runnerName) tr (Ok registered) ->
  exists t set, oc_targets c !! pool = Some t /\ ot_scaleSet t = Some set /\
    if registered : bool
    then exists r, tr = [ev (GetRunner pool runnerID) (Ok (Some r))] /\ rf_ID r = runnerID /\ rf_Name r = runnerName
                   /\ (rf_RunnerScaleSetID r = 0 \/ rf_RunnerScaleSetID r = ss_ID set)
    else exists e, tr = [ev (GetRunner pool runnerID) (Err e)] /\ is_sentinel RunnerNotFoundError (ae_error e) = true.
Proof.
  unfold RunnerRegistered. intros Hr. destruct (_ || _); [by inv_runs|].
  destruct (oc_targets c !! pool) as [t|]; [|by inv_runs]. destruct (ot_scaleSet t) as [set|] eqn:Hset; [|by inv_runs].
  destruct (ss_ID set <=? 0); [by inv_runs|]. exists t, set. split; [done|]. split; [done|].
  inv_runs. destruct r as [[r|]|e].
  - destruct (negb (rf_ID r =? runnerID)) eqn:Hsame; [done|]. destruct (negb (String.eqb (rf_Name r) runnerName)) eqn:Hname; [done|].
    destruct (negb (rf_RunnerScaleSetID r =? 0) && negb (rf_RunnerScaleSetID r =? ss_ID set)) eqn:Hset3; simplify_eq/=.
    exists r. apply negb_false_iff in Hsame, Hname. apply Z.eqb_eq in Hsame. apply String.eqb_eq in Hname. repeat split; try done.
    apply andb_false_iff in Hset3 as [Hset3|Hset3]; apply negb_false_iff, Z.eqb_eq in Hset3; auto.
  - done.
  - destruct (is_sentinel RunnerNotFoundError (ae_error e)) eqn:He; simplify_eq/=. eauto.
Qed.
End Ensure.

(** ** Witnesses *)

Module ScaleSetSamples.
#[local] Instance sample_vendor : Vendor := {|
  api_text := fun _ => ""; RunnerNotFoundError := ErrNew "runner not found"; DefaultRunnerGroup := "default" |}.

Definition ci_definition : ScaleSetDefinition :=
  mkScaleSetDefinition "pool-a" "https://github.com/org" ScopeOrganization "client" 7 "key" "" "linux" [].
Definition ci_message : Message :=
  mkMessage 5 (Some 2) [Some (mkJobStarted "runner-1" "job-1" 10)] [Some (mkJobCompleted 0 "" "job-2" "Canceled" 0)] [41; 42].

(** GitHub with no scale set yet, one message and no failures. *)
Definition github (c : api_call) (_ : list aevent) : api_resp c :=
  match c with
  | PrivateKey _ | FactoryNew _ | DeleteRunnerScaleSet _ _ | CloseSession _ _ | DeleteMessage _ _ _ | AcquireJobs _ _ _
  | ApiRemoveRunner _ _ | SinkJobStarted _ _ _ _ | SinkJobCompleted _ _ _ _ _ => None
  | GetRunnerGroupByName _ _ => Ok (Some 3)
  | GetRunnerScaleSet _ _ _ | GetRunnerScaleSetByID _ _ => Ok None
  | CreateRunnerScaleSet _ s | UpdateRunnerScaleSet _ _ s => Ok (Some (mkRunnerScaleSet 12 (ss_Name s) (ss_RunnerGroupID s) (ss_Labels s) true))
  | MessageSession _ _ _ => Ok (mkSession "session-1" (Some 0))
  | GetMessage _ _ _ _ => Ok (Some ci_message)
  | GenerateJITConfig _ name _ => Ok (Some ("encoded", Some (9, name)))
  | GetRunner _ id => Ok (Some (mkRunnerReference id "runner-1" 12))
  | ObserveJobStarted _ _ | ObserveJobCompleted _ _ _ => ()
  | ReadClock => 20
  end.

Definition new_client : OfficialClient := mkOfficialClient "host" ∅ ∅ ∅.
Definition ensured : list aevent * (OfficialClient * result error Identity) := irun github (Ensure new_client ci_definition None) [].
Definition ensured_client : OfficialClient := ensured.2.1.
Definition ensured_identity : Identity := mkIdentity 12 "session-1".

Lemma ensured_runs : iruns (Ensure new_client ci_definition None) ensured.1 (ensured_client, Ok ensured_identity).
Proof. apply (irun_iruns github _ []). vm_compute. reflexivity. Qed.

Definition polled : list aevent * (OfficialClient * result error Z) := irun github (Statistics ensured_client ensured_identity 2) [].

Lemma polled_runs : iruns (Statistics ensured_client ensured_identity 2) polled.1 polled.2.
Proof. apply (irun_iruns github _ []). apply surjective_pairing. Qed.

Lemma polled_trace : map (@projT1 _ _) polled.1
  = [GetMessage "pool-a" "session-1" 0 2; SinkJobStarted "pool-a" "runner-1" "job-1" 10; DeleteMessage "pool-a" "session-1" 5;
     ReadClock; ObserveJobStarted "pool-a" 10; ObserveJobCompleted "pool-a" "Canceled" false;
     AcquireJobs "pool-a" "session-1" [41; 42]].
Proof. vm_compute. reflexivity. Qed.

(** The poll acquires after the acknowledgement and the persisted start. *)
Lemma messages_persisted_before_acknowledged_witness :
  exists key t session m rest,
    oc_targets ensured_client !! key = Some t
    /\ take 6 polled.1 ++ [ev (AcquireJobs "pool-a" "session-1" [41; 42]) None]
       = ev (GetMessage key session (ot_lastID t) 2) (Ok (Some m)) :: rest
    /\ well_formed ensured_client (sd_TargetID (ot_definition t)) m
    /\ ev (DeleteMessage key session (mg_MessageID m)) None ∈ rest.
Proof.
  destruct (messages_persisted_before_acknowledged ensured_client ensured_identity 2 polled.1 polled.2 (take 6 polled.1)
    (ev (AcquireJobs "pool-a" "session-1" [41; 42]) None) [] polled_runs) as (key & t & session & m & rest & H1 & H2 & H3 & _ & H4);
    [vm_compute; reflexivity|right; right; reflexivity|].
  exists key, t, session, m, rest. split; [exact H1|]. split; [exact H2|]. split; [exact H3|]. exact (proj1 (H4 eq_refl)).
Defined.

Lemma poll_moves_cursor_when_handled_witness : oc_byScaleSet polled.2.1 = oc_byScaleSet ensured_client.
Proof.
  apply (poll_moves_cursor_when_handled ensured_client ensured_identity 2 polled.1 polled.2.1 polled.2.2).
  generalize polled_runs. by destruct polled.2.
Defined.

Lemma scale_sets_not_duplicated_witness :
  exists group, looked_up "pool-a" "linux" group (take 3 ensured.1).
Proof.
  destruct (scale_sets_not_duplicated new_client ci_definition None ensured.1 _ (take 3 ensured.1)
    (ev (creation ci_definition 1) (Ok (Some (mkRunnerScaleSet 12 "linux" 1 (buildLabels ci_definition) true)))) (drop 4 ensured.1) ensured_runs)
    as (group & _ & Hlook & _); [vm_compute; reflexivity|reflexivity|].
  by exists group.
Defined.

Lemma client_stays_consistent_witness : consistent polled.2.1.
Proof.
  apply (client_stays_consistent "host" "v1" 10 true new_client); [reflexivity|].
  eapply rtc_l; [eapply client_ensure, ensured_runs|]. eapply rtc_once, (client_poll _ ensured_identity 2 polled.1 _ polled.2.2).
  generalize polled_runs. by destruct polled.2.
Defined.

Lemma ensured_identity_polls_witness :
  exists t k, oc_targets ensured_client !! "pool-a" = Some t /\ ot_definition t = ci_definition /\ 0 < id_ScaleSetID ensured_identity
    /\ Statistics ensured_client ensured_identity 2 = ICall (GetMessage "pool-a" "session-1" (ot_lastID t) 2) k.
Proof. apply (ensured_identity_polls new_client ci_definition None ensured.1 ensured_client ensured_identity 2 ensured_runs). lia. Defined.

Definition asked : list aevent * result error bool := irun github (RunnerRegistered ensured_client "pool-a" 9 "runner-1") [].

Lemma registration_fails_closed_witness :
  exists t set, oc_targets ensured_client !! "pool-a" = Some t /\ ot_scaleSet t = Some set
    /\ exists r, asked.1 = [ev (GetRunner "pool-a" 9) (Ok (Some r))] /\ rf_ID r = 9 /\ rf_Name r = "runner-1"
                 /\ (rf_RunnerScaleSetID r = 0 \/ rf_RunnerScaleSetID r = ss_ID set).
Proof.
  apply (registration_fails_closed ensured_client "pool-a" 9 "runner-1" asked.1 true).
  apply (irun_iruns github _ []). vm_compute. reflexivity.
Defined.
End ScaleSetSamples.
