(* ===== verification/Evidence.v ===== *)
(** Terminal resource evidence of a worker
    (internal/runtime/docker/resource_evidence.go) and the observer that finds it
    in the worker's log stream (log_evidence.go); then what validates, and that
    the observer finds the last valid marker whatever the chunks of the stream
    are. *)

From S2P Require Import Prelude Float64 GoStrings Regexp GoText Model Errors.
From Stdlib Require Import Ascii.
#[local] Open Scope Z_scope.

Definition newline_byte : ascii := ascii_of_N 10.

(** The first bytes of a slice. *)
Fixpoint take_bytes (n : nat) (s : string) : string :=
  match n, s with
  | S n, String a rest => String a (take_bytes n rest)
  | _, _ => ""
  end.

(** ** Evidence *)

Record ResourceEvidenceMemory := mkEvidenceMemory {
  em_PeakBytes : Z;
  em_SwapPeakBytes : Z;
  em_OOMEvents : Z;
  em_OOMKillEvents : Z;
}.

Record ResourceEvidenceCPU := mkEvidenceCPU {
  ec_Periods : Z;
  ec_ThrottledPeriods : Z;
  ec_ThrottledMicroseconds : Z;
}.

Record ResourceEvidenceIO := mkEvidenceIO {
  ei_ReadBytes : Z;
  ei_WriteBytes : Z;
}.

(** [ResourceEvidencePIDs] has one field, the peak. *)
Record ResourceEvidence := mkEvidence {
  re_SchemaVersion : Z;
  re_Source : string;
  re_Status : string;
  re_Reason : string;
  re_Missing : list string;
  re_Memory : ResourceEvidenceMemory;
  re_CPU : ResourceEvidenceCPU;
  re_PIDsPeak : Z;
  re_IO : ResourceEvidenceIO;
}.

Definition resourceEvidenceSchemaVersion : Z := 1.
Definition maximumResourceEvidenceBytes : Z := 32 * 1024.
Definition resourceEvidenceSourceCgroup : string := "cgroup-v2".
Definition resourceEvidenceSourceHost : string := "controller-fallback".

Definition resourceEvidenceFields : list string :=
  ["cpu.stat.nr_periods"; "cpu.stat.nr_throttled"; "cpu.stat.throttled_usec"; "io.stat"; "memory.events.oom";
   "memory.events.oom_kill"; "memory.peak"; "memory.swap.peak"; "pids.peak"].

(** The loop over the missing fields. *)
Fixpoint missing_error (seen : gset string) (fields : list string) : option error :=
  match fields with
  | [] => None
  | field :: rest =>
      if negb (existsb (String.eqb field) resourceEvidenceFields)
      then Some (ErrNew ("terminal resource evidence has unsupported missing field " +:+ Quote field))
      else if bool_decide (field ∈ seen) then Some (ErrNew ("terminal resource evidence repeats missing field " +:+ Quote field))
      else missing_error ({[field]} ∪ seen) rest
  end.

Definition is_text (s : string) (l : list string) : bool := existsb (String.eqb s) l.

Definition Evidence_Validate (e : ResourceEvidence) : option error :=
  let fields := List.length resourceEvidenceFields in
  let missing := List.length (re_Missing e) in
  let cgroup := String.eqb (re_Source e) resourceEvidenceSourceCgroup in
  let host := String.eqb (re_Source e) resourceEvidenceSourceHost in
  if negb (re_SchemaVersion e =? resourceEvidenceSchemaVersion)
  then Some (ErrNew ("terminal resource evidence has unsupported schema version " +:+ Itoa (re_SchemaVersion e)))
  else if negb cgroup && negb host
  then Some (ErrNew ("terminal resource evidence has unsupported source " +:+ Quote (re_Source e)))
  else if negb (is_text (re_Status e) ["complete"; "partial"; "unavailable"; "invalid"])
  then Some (ErrNew ("terminal resource evidence has unsupported status " +:+ Quote (re_Status e)))
  else if cgroup && negb (String.eqb (re_Reason e) "")
  then Some (ErrNew "cgroup terminal resource evidence must not contain a fallback reason")
  else if cgroup && String.eqb (re_Status e) "invalid"
  then Some (ErrNew "cgroup terminal resource evidence must not self-classify as invalid")
  else if host && negb (is_text (re_Status e) ["unavailable"; "invalid"])
  then Some (ErrNew "controller fallback resource evidence must be unavailable or invalid")
  else if host && negb (is_text (re_Reason e) ["docker-copy-unavailable"; "invalid-evidence"])
  then Some (ErrNew ("terminal resource fallback has unsupported reason " +:+ Quote (re_Reason e)))
  else match missing_error ∅ (re_Missing e) with
       | Some err => Some err
       | None =>
           if String.eqb (re_Status e) "complete" && negb (Nat.eqb missing 0)
           then Some (ErrNew "complete terminal resource evidence must not name missing fields")
           else if String.eqb (re_Status e) "partial" && (Nat.eqb missing 0 || Nat.eqb missing fields)
           then Some (ErrNew "partial terminal resource evidence must name some but not all fields")
           else if is_text (re_Status e) ["unavailable"; "invalid"] && negb (Nat.eqb missing fields)
           then Some (ErrNew "unavailable or invalid terminal resource evidence must name every field")
           else None
       end.

Definition fallbackResourceEvidence (status reason : string) : ResourceEvidence :=
  mkEvidence resourceEvidenceSchemaVersion resourceEvidenceSourceHost status reason resourceEvidenceFields
    (mkEvidenceMemory 0 0 0 0) (mkEvidenceCPU 0 0 0) 0 (mkEvidenceIO 0 0).

(** What encoding/json makes of a text: the first value, decoded without unknown
    fields, and whether only white space follows it; the encoder; and the layout
    [time.RFC3339Nano]. *)
Class EvidenceText := {
  decode_evidence : string -> result error ResourceEvidence;
  ends_after_value : string -> bool;
  marshal_indent : ResourceEvidence -> result error string;
  parse_rfc3339 : string -> option time;
  format_rfc3339 : time -> string;
}.

Section Parsing.
Context `{EvidenceText}.

(** [ParseResourceEvidence] of what a reader gives. *)
Definition ParseResourceEvidence (read : result error string) : result error ResourceEvidence :=
  match read with
  | Err e => Err (ErrWrap "read terminal resource evidence" e)
  | Ok content =>
      if maximumResourceEvidenceBytes <? Z.of_nat (String.length content)
      then Err (ErrNew "terminal resource evidence exceeds 32 KiB")
      else match decode_evidence content with
           | Err e => Err (ErrWrap "decode terminal resource evidence" e)
           | Ok evidence =>
               if negb (ends_after_value content)
               then Err (ErrNew "terminal resource evidence must contain exactly one JSON value")
               else match Evidence_Validate evidence with Some e => Err e | None => Ok evidence end
           end
  end.

Definition marshalResourceEvidence (e : ResourceEvidence) : result error string :=
  match Evidence_Validate e with
  | Some err => Err err
  | None => match marshal_indent e with Err err => Err err | Ok content => Ok (content +:+ String newline_byte "") end
  end.

(** ** The log observer *)

Definition resourceEvidenceLogMarker : string := "ci-runner-resource-evidence-v1:".
Definition maximumResourceEvidenceLogLineSize : Z :=
  maximumResourceEvidenceBytes + Z.of_nat (String.length resourceEvidenceLogMarker) + 64.

Record resourceEvidenceLogObserver := mkObserver {
  ob_line : string;
  ob_discardLine : bool;
  ob_evidence : option ResourceEvidence;
}.

Definition newResourceEvidenceLogObserver : resourceEvidenceLogObserver := mkObserver "" false None.

(** [bytes.IndexByte(line, ' ')]: the bytes before and after it. *)
Fixpoint cut_space (s : string) : option (string * string) :=
  match s with
  | EmptyString => None
  | String a rest =>
      if Ascii.eqb a " " then Some ("", rest)
      else match cut_space rest with Some (before, after) => Some (String a before, after) | None => None end
  end.

Definition parseResourceEvidenceLogLine (line : string) : option ResourceEvidence :=
  let line := TrimSuffix line (String (ascii_of_N 13) "") in
  let line := match cut_space line with
              | Some (EmptyString, _) | None => line
              | Some (stamp, rest) => match parse_rfc3339 stamp with Some _ => rest | None => line end
              end in
  if negb (HasPrefix line resourceEvidenceLogMarker) then None
  else match ParseResourceEvidence (Ok (drop_bytes (String.length resourceEvidenceLogMarker) line)) with
       | Ok evidence => Some evidence
       | Err _ => None
       end.

Definition appendLine (w : resourceEvidenceLogObserver) (content : string) : resourceEvidenceLogObserver :=
  if ob_discardLine w then w
  else if maximumResourceEvidenceLogLineSize <? Z.of_nat (String.length (ob_line w)) + Z.of_nat (String.length content)
  then mkObserver "" true (ob_evidence w)
  else mkObserver (ob_line w +:+ content) false (ob_evidence w).

Definition completeLine (w : resourceEvidenceLogObserver) : resourceEvidenceLogObserver :=
  mkObserver "" false
    (if ob_discardLine w then ob_evidence w
     else match parseResourceEvidenceLogLine (ob_line w) with Some e => Some e | None => ob_evidence w end).

(** The loop of [observe]: [segment] is the content since the last newline. *)
Fixpoint observe_segment (w : resourceEvidenceLogObserver) (segment content : string) : resourceEvidenceLogObserver :=
  match content with
  | EmptyString => if String.eqb segment "" then w else appendLine w segment
  | String a rest =>
      if Ascii.eqb a newline_byte then observe_segment (completeLine (appendLine w segment)) "" rest
      else observe_segment w (segment +:+ String a "") rest
  end.
Definition observe (w : resourceEvidenceLogObserver) (content : string) : resourceEvidenceLogObserver := observe_segment w "" content.

(** [Write]: the destination accepts a number of bytes, which are observed. *)
Definition Observer_Write (accepted : nat) (err : option error) (w : resourceEvidenceLogObserver) (content : string)
    : resourceEvidenceLogObserver * (nat * option error) :=
  (observe w (take_bytes accepted content), (accepted, err)).

Definition lastEvidence (w : resourceEvidenceLogObserver) : option ResourceEvidence := ob_evidence w.
End Parsing.

(** ** Validation *)

Lemma missing_error_none seen fields :
  missing_error seen fields = None <-> (forall f, f ∈ fields -> f ∈ resourceEvidenceFields /\ (f ∉ seen)) /\ NoDup fields.
Proof.
  revert seen. induction fields as [|f fields IH]; intros seen.
  { split; [intros _; split; [by intros f Hf%elem_of_nil|constructor]|done]. }
  cbn [missing_error]. destruct (existsb (String.eqb f) resourceEvidenceFields) eqn:Hf.
  - assert (Hin : f ∈ resourceEvidenceFields).
    { apply existsb_exists in Hf as (g & Hg & Heq). apply String.eqb_eq in Heq as ->. by apply list_elem_of_In. }
    cbn [negb]. cbv iota. case_bool_decide as Hs.
    + split; [done|]. intros [Hall _]. destruct (Hall f); [by left|done].
    + rewrite IH, NoDup_cons. split.
      * intros [Hall Hnd]. split; [|split; [|done]].
        -- intros g [->|Hg]%elem_of_cons; [done|]. destruct (Hall g Hg) as [H1 H2]. split; [done|]. set_solver.
        -- intros Hg. destruct (Hall f Hg) as [_ H2]. set_solver.
      * intros (Hall & Hnf & Hnd). split; [|done]. intros g Hg. destruct (Hall g) as [H1 H2]; [by right|]. split; [done|].
        intros [Heq%elem_of_singleton|?]%elem_of_union; [|done]. by subst.
  - cbn [negb]. cbv iota. split; [done|]. intros [Hall _]. destruct (Hall f) as [Hin _]; [by left|].
    apply not_true_iff_false in Hf. exfalso. apply Hf, existsb_exists. exists f. by rewrite <- list_elem_of_In, String.eqb_refl.
Qed.

(** ** The stream *)

(** The complete lines of a stream, and what is left after the last newline. *)
Fixpoint lines_from (segment : string) (s : string) : list string * string :=
  match s with
  | EmptyString => ([], segment)
  | String a rest =>
      if Ascii.eqb a newline_byte then let '(ls, last) := lines_from "" rest in (segment :: ls, last)
      else lines_from (segment +:+ String a "") rest
  end.
Definition complete_lines (s : string) : list string := (lines_from "" s).1.

#[local] Opaque maximumResourceEvidenceLogLineSize.

Section Observer.
Context `{EvidenceText}.

(** The evidence of the last line that is short enough and carries a valid
    marker. *)
Definition line_evidence (line : string) : option ResourceEvidence :=
  if Z.of_nat (String.length line) <=? maximumResourceEvidenceLogLineSize then parseResourceEvidenceLogLine line else None.
Definition last_marker (lines : list string) : option ResourceEvidence :=
  foldl (fun found line => match line_evidence line with Some e => Some e | None => found end) None lines.

(** The observer holds the text since the last newline unless it is too long. *)
Definition holds (w : resourceEvidenceLogObserver) (segment : string) (found : option ResourceEvidence) : Prop :=
  ob_evidence w = found
  /\ if Z.of_nat (String.length segment) <=? maximumResourceEvidenceLogLineSize
     then ob_discardLine w = false /\ ob_line w = segment
     else ob_discardLine w = true /\ ob_line w = "".

Lemma appendLine_holds w segment found content :
  holds w segment found -> holds (appendLine w content) (segment +:+ content) found.
Proof.
  destruct w as [line discard evidence]. unfold holds, appendLine. rewrite string_app_length. simpl. intros [-> Hw].
  destruct (Z.leb_spec (Z.of_nat (String.length segment)) maximumResourceEvidenceLogLineSize) as [Hs|Hs]; destruct Hw as [-> ->];
    [destruct (Z.ltb_spec maximumResourceEvidenceLogLineSize (Z.of_nat (String.length segment) + Z.of_nat (String.length content)))|];
    (split; [done|]); destruct (Z.leb_spec (Z.of_nat (String.length segment + String.length content)) maximumResourceEvidenceLogLineSize);
    (done || lia).
Qed.

Lemma completeLine_holds w segment found :
  holds w segment found -> holds (completeLine w) "" (match line_evidence segment with Some e => Some e | None => found end).
Proof.
  destruct w as [line discard evidence]. unfold holds, completeLine, line_evidence. simpl. intros [-> Hw].
  destruct (Z.of_nat (String.length segment) <=? maximumResourceEvidenceLogLineSize); destruct Hw as [-> ->]; done.
Qed.

(** The loop, on the part of the stream it is given. *)
Lemma observe_segment_holds w held segment content found :
  holds w held found ->
  let '(lines, last) := lines_from (held +:+ segment) content in
  holds (observe_segment w segment content) last
    (foldl (fun found line => match line_evidence line with Some e => Some e | None => found end) found lines).
Proof.
  revert w held segment found. induction content as [|a content IH]; intros w held segment found Hw; simpl.
  - destruct (String.eqb_spec segment "") as [->|]; [by rewrite string_app_nil_r|by apply appendLine_holds].
  - destruct (Ascii.eqb a newline_byte).
    + specialize (IH (completeLine (appendLine w segment)) "" "" _ (completeLine_holds _ _ _ (appendLine_holds _ _ _ segment Hw))).
      change ("" +:+ "") with "" in IH. by destruct (lines_from "" content) as [lines last].
    + specialize (IH w held (segment +:+ String a "") found Hw). by rewrite <- string_app_assoc in IH.
Qed.

Lemma lines_from_app segment s t :
  lines_from segment (s +:+ t)
  = let '(l1, held) := lines_from segment s in let '(l2, last) := lines_from held t in (l1 ++ l2, last).
Proof.
  revert segment. induction s as [|a s IH]; intros segment.
  - change ("" +:+ t) with t. simpl. by destruct (lines_from segment t).
  - rewrite string_app_cons. simpl. destruct (Ascii.eqb a newline_byte); [|apply IH].
    rewrite IH. destruct (lines_from "" s) as [l1 held]. by destruct (lines_from held t).
Qed.

(** A write, as the destination accepts it. *)
Record write := mkWrite { wr_content : string; wr_accepted : nat; wr_error : option error }.
Definition accepted (x : write) : string := take_bytes (wr_accepted x) (wr_content x).
Definition written (w : resourceEvidenceLogObserver) (x : write) : resourceEvidenceLogObserver :=
  (Observer_Write (wr_accepted x) (wr_error x) w (wr_content x)).1.

Lemma holds_start : holds newResourceEvidenceLogObserver "" None.
Proof. by repeat split. Qed.

Lemma written_holds writes w held found :
  holds w held found ->
  let '(lines, last) := lines_from held (concat_strings (map accepted writes)) in
  holds (foldl written w writes) last
    (foldl (fun found line => match line_evidence line with Some e => Some e | None => found end) found lines).
Proof.
  revert w held found. induction writes as [|x writes IH]; intros w held found Hw; simpl; [done|].
  rewrite lines_from_app.
  pose proof (observe_segment_holds w held "" (accepted x) found Hw) as Hx. rewrite string_app_nil_r in Hx.
  destruct (lines_from held (accepted x)) as [l1 held']. specialize (IH (written w x) held' _ Hx).
  destruct (lines_from held' _) as [l2 last]. by rewrite foldl_app.
Qed.

(** The log observer finds the evidence of the last complete line with a
    valid marker among the bytes the destination accepted, however the stream is
    cut into writes; it never holds more than one maximal line. *)
Theorem observer_finds_last_marker (writes : list write) :
  let w := foldl written newResourceEvidenceLogObserver writes in
  lastEvidence w = last_marker (complete_lines (concat_strings (map accepted writes)))
  /\ Z.of_nat (String.length (ob_line w)) <= maximumResourceEvidenceLogLineSize.
Proof.
  simpl. pose proof (written_holds writes _ _ _ holds_start) as Hw. unfold complete_lines.
  destruct (lines_from "" (concat_strings (map accepted writes))) as [lines last]. destruct Hw as [He Hl].
  split; [exact He|]. destruct (Z.leb_spec (Z.of_nat (String.length last)) maximumResourceEvidenceLogLineSize); destruct Hl as [_ ->]; [done|].
  by vm_compute.
Qed.
End Observer.
