(* ===== verification/Docker.v ===== *)
(** The Docker worker runtime (internal/runtime/docker/runtime.go): the
    inventory, the start of a worker, the removal of an idle one, the forced stop
    and the finalization of an exited container.

    The Docker Engine, the artifact sink, the clock, contexts and telemetry are
    calls with arbitrary answers.  The table of watches is shared by all
    goroutines: registering and unregistering a watch are calls too, answered by
    the table; [watch_step] gives the table's transitions under any
    interleaving. *)

From S2P Require Import Prelude Float64 GoStrings Regexp GoText Model Config PlanGates Errors Effects Interaction ScaleSet Evidence Validate.
From Stdlib Require Import Ascii.
#[local] Open Scope Z_scope.
Open Scope i_scope.

(** ** Options *)

Definition managedLabel : string := "com.melodic-software.ci-runner.managed".
Definition hostLabel : string := "com.melodic-software.ci-runner.host".
Definition poolLabel : string := "com.melodic-software.ci-runner.pool".
Definition workerNameLabel : string := "com.melodic-software.ci-runner.name".
Definition resourceTierLabel : string := "com.melodic-software.ci-runner.resource-tier".
Definition runnerIDLabel : string := "com.melodic-software.ci-runner.github-runner-id".
Definition startedAtLabel : string := "com.melodic-software.ci-runner.started-at".
Definition controllerLabel : string := "com.melodic-software.ci-runner.controller-version".
Definition composeProjectLabel : string := "com.docker.compose.project".
Definition composeServiceLabel : string := "com.docker.compose.service".
Definition composeNumberLabel : string := "com.docker.compose.container-number".
Definition composeOneoffLabel : string := "com.docker.compose.oneoff".
Definition composeServiceName : string := "worker".
Definition defaultStatePath : string := "/home/runner/_runner_state/state".
Definition defaultDiagPath : string := "/home/runner/_diag".
Definition defaultResourceEvidencePath : string := "/home/runner/_runner_state/cgroup-terminal.json".
Definition maximumStateBytes : Z := 32.

Definition errWorkerStateUnavailable : error := ErrNew "worker state unavailable".

(** No white space and no at sign. *)
Definition reference_byte (a : ascii) : bool :=
  negb (one_of [ascii_of_N 9; ascii_of_N 10; ascii_of_N 12; ascii_of_N 13; " "%char; "@"%char] a).
Definition digestPinnedImage : regexp :=
  Concat (plus (CharClass reference_byte))
    (Concat (optional (Concat (literal ":") (plus (CharClass reference_byte))))
      (Concat (literal "@sha256:") (repeated 64 64 (CharClass (fun a => digit a || byte_range "a" "f" a))))).

Record Options := mkOptions {
  op_HostID : string;
  op_ControllerVersion : string;
  op_Image : string;
  op_StatePath : string;
  op_DiagnosticPath : string;
  op_ResourceEvidencePath : string;
  op_DockerLogMaxSizeBytes : Z;
  op_DockerLogMaxFiles : Z;
  op_IdleConfirmationWindow : duration;
  op_FinalizationTimeout : duration;
  op_ImagePullTimeout : duration;
  op_Artifacts : bool;
}.

Definition or_default (s d : string) : string := if String.eqb s "" then d else s.

(** [defaults]; the error handler and the telemetry recorder have defaults that
    do nothing. *)
Definition Options_defaults (o : Options) : Options :=
  {| o with op_StatePath := or_default (op_StatePath o) defaultStatePath;
            op_DiagnosticPath := or_default (op_DiagnosticPath o) defaultDiagPath;
            op_ResourceEvidencePath := or_default (op_ResourceEvidencePath o) defaultResourceEvidencePath |}.

Definition Options_validate (o : Options) : option error :=
  if String.eqb (op_HostID o) "" || String.eqb (op_ControllerVersion o) ""
  then Some (ErrNew "docker runtime host ID and controller version are required")
  else if negb (MatchString digestPinnedImage (op_Image o))
  then Some (ErrNew "docker worker image must be pinned to an exact sha256 manifest digest")
  else if negb (HasPrefix (op_StatePath o) "/") || negb (HasPrefix (op_DiagnosticPath o) "/") || negb (HasPrefix (op_ResourceEvidencePath o) "/")
  then Some (ErrNew "worker state, diagnostic, and resource-evidence paths must be absolute Linux paths")
  else if (op_DockerLogMaxSizeBytes o =? 0) || (op_DockerLogMaxFiles o <=? 0)
  then Some (ErrNew "docker local log size and file count must be positive")
  else if (op_IdleConfirmationWindow o <=? 0) || (op_FinalizationTimeout o <=? 0)
  then Some (ErrNew "idle confirmation and finalization timeouts must be positive")
  else if op_ImagePullTimeout o <=? 0 then Some (ErrNew "image pull timeout must be positive")
  else if negb (op_Artifacts o) then Some (ErrNew "worker artifact sink is required")
  else None.

(** [New]: the options of the runtime. *)
Definition Docker_New (engine : bool) (o : Options) : result error Options :=
  if negb engine then Err (ErrNew "docker engine client is required")
  else let o := Options_defaults o in
       match Options_validate o with Some e => Err e | None => Ok o end.

(** ** The engine's data *)

Record ArtifactMetadata := mkMetadata {
  am_ContainerID : string;
  am_WorkerName : string;
  am_PoolID : string;
  am_ResourceTier : string;
  am_StartedAt : time;
}.

Record ContainerSummary := mkSummary {
  cs_ID : string;
  cs_Labels : gmap string string;
  cs_State : string;
  cs_Created : Z;
}.

(** An inspected container: whether it runs and its exit code, the memory of its
    host configuration and the labels of its configuration, each absent when
    the engine returned nil. *)
Record ContainerInfo := mkContainerInfo {
  ci_State : option (bool * Z);
  ci_Memory : option Z;
  ci_Labels : option (gmap string string);
}.

(** What [archive/tar] reads of an archive: the first header (is it a regular
    file, and its size), its bytes, and whether another entry follows. *)
Record Archive := mkArchive {
  ar_header : result error (bool * Z);
  ar_content : result error string;
  ar_more : bool;
}.

Record CreateOptions := mkCreateOptions {
  cr_Name : string;
  cr_Platform : string * string;
  cr_Image : string;
  cr_AttachStdin : bool;
  cr_OpenStdin : bool;
  cr_StdinOnce : bool;
  cr_Env : list string;
  cr_Labels : gmap string string;
  cr_Binds : list string;
  cr_Mounts : list string;
  cr_VolumesFrom : list string;
  cr_Privileged : bool;
  cr_AutoRemove : bool;
  cr_NetworkMode : string;
  cr_PublishAllPorts : bool;
  cr_SecurityOpt : list string;
  cr_RestartPolicy : string;
  cr_LogType : string;
  cr_LogConfig : gmap string string;
  cr_NanoCPUs : Z;
  cr_Memory : Z;
  cr_MemorySwap : Z;
  cr_PidsLimit : Z;
  cr_Devices : list string;
}.

(** [telemetry.WorkerResourceEvidence] and [telemetry.WorkerFinalization]. *)
Record WorkerResourceEvidence := mkWorkerEvidence {
  we_Status : string;
  we_Missing : list string;
  we_Memory : ResourceEvidenceMemory;
  we_CPU : ResourceEvidenceCPU;
  we_PIDsPeak : Z;
  we_IO : ResourceEvidenceIO;
}.

Record WorkerFinalization := mkFinalization {
  wf_ExitCode : Z;
  wf_ExitObserved : bool;
  wf_Err : option error;
  wf_ControllerShutdown : bool;
  wf_ResourceTier : string;
  wf_ResourceEvidence : option WorkerResourceEvidence;
  wf_RecordResourceEvidence : bool;
  wf_Duration : duration;
}.

Inductive WorkerStartOutcome := WorkerStartSucceeded | WorkerStartFailed | WorkerStartAmbiguous | WorkerStartCanceled.

Definition ClassifyWorkerStart (err : option error) (mayBeActive : bool) : WorkerStartOutcome :=
  match err with
  | None => WorkerStartSucceeded
  | Some e =>
      if is_sentinel errCanceled e || is_sentinel DeadlineExceeded e then WorkerStartCanceled
      else if mayBeActive then WorkerStartAmbiguous
      else WorkerStartFailed
  end.

Record logCaptureResult := mkLogCapture {
  lr_evidence : option ResourceEvidence;
  lr_err : option error;
}.

(** What the select over a container's wait channels receives. *)
Inductive wait_event :=
  | WaitShutdown (err : error)
  | WaitResult (status : Z)
  | WaitResultClosed
  | WaitError (err : option error)
  | WaitErrorClosed.

Inductive RuntimeCtx := RuntimeContext | FinalizeContext.

(** ** Calls *)

Inductive dcall :=
  | Info
  | ImageInspect (image : string)
  | ImagePull (image : string)
  | PullWait
  | PullClose
  | ContainerList (labels : list string)
  | ContainerCreate (o : CreateOptions)
  | ContainerAttach (id : string)
  | StreamWrite (id bytes : string)
  | StreamCloseWrite (id : string)
  | StreamClose (id : string)
  | ContainerInspect (id : string)
  | ContainerStart (id : string)
  | ContainerWait (id : string) (nextExit : bool)
  | WaitEvent (id : string)
  | ContainerLogs (id : string)
  | CopyLogs (id : string)
  | CloseLogs (id : string)
  | CopyFromContainer (id path : string)
  | CloseArchive (id path : string)
  | ContainerStop (id : string) (timeout : Z)
  | ContainerKill (id signal : string)
  | ContainerRemove (id : string) (force volumes : bool)
  | RegisterWatch (id : string)
  | SpawnFinalize (id : string)
  | UnregisterWatch (id : string)
  | AwaitWatch (id : string)
  | SpawnLogCapture (id : string)
  | AwaitLogs (id : string)
  | LogsEnded (id : string)
  | OpenLog (m : ArtifactMetadata)
  | CloseLog (m : ArtifactMetadata)
  | WriteDiagnostics (m : ArtifactMetadata) (a : Archive)
  | WriteResourceEvidence (m : ArtifactMetadata) (e : ResourceEvidence)
  | FinalizeArtifacts (m : ArtifactMetadata)
  | AdoptAndCleanup (ms : list ArtifactMetadata)
  | OnError (e : error)
  | Clock
  | IdleTimer (d : duration)
  | ContextErr (c : RuntimeCtx)
  | TelemetryStarted (pool tier : string) (d : duration) (outcome : WorkerStartOutcome)
  | TelemetryFinalized (pool : string) (f : WorkerFinalization).

(** The answers.  [RegisterWatch] says whether the watch is new; [AwaitLogs] is
    [None] when the finalization context ends first; [CopyLogs] is what reached
    the observer and the error of the copy. *)
Definition dresp (c : dcall) : Type :=
  match c with
  | Info => result error (string * string)
  | ContainerList _ => result error (list ContainerSummary)
  | ContainerCreate _ => result error (string * list string)
  | StreamWrite _ _ => Z * option error
  | ContainerInspect _ => result error ContainerInfo
  | CopyLogs _ => list (string * nat) * option error
  | CopyFromContainer _ _ => result error Archive
  | WaitEvent _ => wait_event
  | RegisterWatch _ => bool
  | AwaitLogs _ => option logCaptureResult
  | LogsEnded _ => logCaptureResult
  | WriteResourceEvidence _ _ => result error bool
  | Clock => time
  | StreamClose _ | ContainerWait _ _ | SpawnFinalize _ | UnregisterWatch _ | SpawnLogCapture _ | OnError _
  | TelemetryStarted _ _ _ _ | TelemetryFinalized _ _ => ()
  | _ => option error
  end.

Abbreviation dprog := (iprog dresp) (only parsing).
Abbreviation devent := (event dresp) (only parsing).

(** What the runtime uses of github.com/containerd/errdefs. *)
Class Errdefs := { IsNotFound : error -> bool }.

(** ** Seccomp profiles (internal/seccomp/seccomp.go) *)

(** A rule of the embedded profile: its names, the number of its arguments and
    its text. *)
Record SeccompRule := mkRule { sc_names : list string; sc_args : nat; sc_raw : string }.

(** The embedded profile as encoding/json reads it, the texts of the added rules
    and the document with a list of rules encoded. *)
Class Profiles := {
  moby_document : option error;
  moby_syscalls : result error (list (result error SeccompRule));
  user_ns_rules : list (result error string);
  encode_document : list string -> result error string;
}.

(** The rules, and the index after the last conditional clone rule. *)
Fixpoint clone_position (index : Z) (rules : list (result error SeccompRule)) (insertAt : Z) : result error (list string * Z) :=
  match rules with
  | [] => Ok ([], insertAt)
  | Err e :: _ => Err (ErrWrap ("decode embedded moby seccomp rule " +:+ Itoa index) e)
  | Ok r :: rest =>
      let insertAt := if bool_decide (sc_names r = ["clone"]) && Nat.ltb 0 (sc_args r) then index + 1 else insertAt in
      match clone_position (index + 1) rest insertAt with
      | Err e => Err e
      | Ok (raws, at_) => Ok (sc_raw r :: raws, at_)
      end
  end.

Fixpoint all_ok {A} (l : list (result error A)) : result error (list A) :=
  match l with
  | [] => Ok []
  | Err e :: _ => Err e
  | Ok a :: rest => match all_ok rest with Err e => Err e | Ok as_ => Ok (a :: as_) end
  end.

Definition userNSProfile `{Profiles} : result error string :=
  match moby_document with
  | Some e => Err (ErrWrap "decode embedded moby seccomp profile" e)
  | None =>
      match moby_syscalls with
      | Err e => Err (ErrWrap "decode embedded moby seccomp syscalls" e)
      | Ok rules =>
          match clone_position 0 rules (-1) with
          | Err e => Err e
          | Ok (raws, insertAt) =>
              if insertAt <? 0 then Err (ErrNew "embedded moby seccomp profile has no conditional clone rule")
              else match all_ok user_ns_rules with
                   | Err e => Err e
                   | Ok added => encode_document (take (Z.to_nat insertAt) raws ++ added ++ drop (Z.to_nat insertAt) raws)
                   end
          end
      end
  end.

Definition seccomp_Profile `{Profiles} (name : string) : result error string :=
  if negb (String.eqb name UserNS) then Err (ErrNew ("unknown seccomp profile " +:+ Quote name)) else userNSProfile.

Definition wrapIfError (operation : string) (err : option error) : option error :=
  match err with Some e => Some (ErrWrap operation e) | None => None end.

(** [errorCausedOnlyBy(err, cause)] for a cause that is a sentinel. *)
Fixpoint errorCausedOnlyBy (cause : string) (e : error) : bool :=
  match e with
  | ErrNew text => String.eqb text cause
  | ErrWrap _ inner => errorCausedOnlyBy cause inner
  | ErrJoin errs => match errs with [] => false | _ => forallb (errorCausedOnlyBy cause) errs end
  | ErrScaleSet _ _ _ _ inner => match inner with Some i => errorCausedOnlyBy cause i | None => false end
  | ErrWorkerStart inner _ => errorCausedOnlyBy cause inner
  end.

Definition only_by (cause : error) (e : option error) : bool :=
  match e, cause with
  | Some e, ErrNew text => errorCausedOnlyBy text e
  | _, _ => false
  end.

Definition label (labels : gmap string string) (k : string) : string := default "" (labels !! k).

(** [strconv.ParseInt(s, 10, 64)] with its error dropped: zero for a text that
    is no number, the nearest value for one out of range. *)
Definition ParseInt_value (s : string) : Z :=
  let '(sign, digits) :=
    match s with
    | String a rest => if Ascii.eqb a "-" then (-1, rest) else if Ascii.eqb a "+" then (1, rest) else (1, s)
    | EmptyString => (1, s)
    end in
  if negb (String.eqb digits "") && string_forall digit digits
  then Z.max min_i64 (Z.min max_i64 (sign * decimal_value 0 digits))
  else 0.

(** Hands an error to the error handler. *)
Definition report (e : option error) : dprog () :=
  match e with Some e => (icall (OnError e) : dprog ()) | None => IRet () end.

Section Runtime.
Context `{EvidenceText, Errdefs, Profiles}.
Variable o : Options.

Definition metadataFromLabels (id : string) (labels : gmap string string) : ArtifactMetadata :=
  mkMetadata id (label labels workerNameLabel) (label labels poolLabel) (or_default (label labels resourceTierLabel) "unknown")
    (default 0 (parse_rfc3339 (label labels startedAtLabel))).

Definition metadata (id : string) : dprog ArtifactMetadata :=
  let^ info := icall (ContainerInspect id) in
  IRet match info with
       | Ok i => match ci_Labels i with Some labels => metadataFromLabels id labels | None => mkMetadata id "" "" "" 0 end
       | Err _ => mkMetadata id "" "" "" 0
       end.

Definition validateEngineInfo (operatingSystem architecture : string) : option error :=
  if negb (String.eqb operatingSystem "linux") || (negb (String.eqb architecture "x86_64") && negb (String.eqb architecture "amd64"))
  then Some (ErrNew ("local Docker Engine must be linux/amd64, got " +:+ operatingSystem +:+ "/" +:+ architecture))
  else None.

Definition validateEngine : dprog (option error) :=
  let^ info := icall Info in
  IRet match info with
       | Err e => Some (ErrWrap "inspect local Docker Engine" e)
       | Ok (operatingSystem, architecture) => validateEngineInfo operatingSystem architecture
       end.

(** ** Watches *)

Definition ensureWatch (id : string) (existing : bool) : dprog () :=
  let^ fresh := icall (RegisterWatch id) in
  if negb fresh then IRet ()
  else
    let^ _ := (if existing then IRet () else icall (ContainerWait id false) : dprog ()) in
    icall (SpawnFinalize id).

(** ** The state of a worker *)

Definition containerGoneOrNotRunning (id : string) : dprog bool :=
  let^ inspect := icall (ContainerInspect id) in
  IRet match inspect with
       | Err e => IsNotFound e
       | Ok i => match ci_State i with None => true | Some (running, _) => negb running end
       end.

(** The state in an archive of the state file, and the diagnostic of an invalid
    one. *)
Definition archived_state (id : string) (a : Archive) : result error string * option error :=
  match ar_header a with
  | Err e => (Err (ErrWrap "read state archive" e), None)
  | Ok (regular, size) =>
      if negb regular || (size <? 1) || (maximumStateBytes <? size)
      then (Err (ErrNew "worker state file has unsafe type or size"), None)
      else match ar_content a with
           | Err e => (Err e, None)
           | Ok bytes =>
               let state := take_bytes (Z.to_nat (maximumStateBytes + 1)) bytes in
               if is_text state ["idle"; "busy"; "completed"] then (Ok state, None)
               else (Err (ErrNew ("invalid worker state " +:+ Quote state)),
                     Some (ErrNew ("invalid worker state diagnostic for " +:+ id)))
           end
  end.

Definition readWorkerState (id : string) : dprog (result error string) :=
  let path := op_StatePath o in
  let^ copied := icall (CopyFromContainer id path) in
  match copied with
  | Err e =>
      let^ gone := containerGoneOrNotRunning id in
      IRet (Err (if gone then errWorkerStateUnavailable else e))
  | Ok archive =>
      let '(state, diagnostic) := archived_state id archive in
      let^ _ := report diagnostic in
      let^ closed := icall (CloseArchive id path) in
      IRet match closed with
           | None => state
           | Some e =>
               let err := match state with Err s => Some s | Ok _ => None end in
               match errors_Join [err; wrapIfError "close worker state archive" (Some e)] with
               | Some joined => Err joined
               | None => state
               end
           end
  end.

Definition readWorkerMemoryLimit (id : string) : dprog (result error Z) :=
  let^ inspect := icall (ContainerInspect id) in
  IRet match inspect with
       | Err e => Err e
       | Ok i => Ok (match ci_Memory i with Some m => if m <=? 0 then 0 else m | None => 0 end)
       end.

Definition unix_time (seconds : Z) : time := (62135596800 + seconds) * Second.

(** [workerFromContainer]: the worker, and an error for a state that is unknown. *)
Definition workerFromContainer (c : ContainerSummary) : dprog (Worker * option error) :=
  let id := cs_ID c in
  let labels := cs_Labels c in
  let started := default (unix_time (cs_Created c)) (parse_rfc3339 (label labels startedAtLabel)) in
  let worker := mkWorker id id (label labels poolLabel) (label labels workerNameLabel) WorkerStarting ""
                  (ParseInt_value (label labels runnerIDLabel)) started 0 in
  if negb (String.eqb (cs_State c) "running")
  then IRet ({| worker with w_State := WorkerExited |}, None)
  else
    let^ limit := readWorkerMemoryLimit id in
    let worker := {| worker with w_MemoryLimitBytes := match limit with Ok m => m | Err _ => 0 end |} in
    let^ read := readWorkerState id in
    match read with
    | Err e =>
        if is_sentinel errWorkerStateUnavailable e then IRet ({| worker with w_State := WorkerExited |}, None)
        else IRet (worker, Some (ErrWrap ("read worker " +:+ id +:+ " state") e))
    | Ok state =>
        let^ _ := report match limit with
                         | Err e => Some (ErrWrap ("read worker " +:+ id +:+ " memory limit; reserving the configured profile") e)
                         | Ok _ => None
                         end in
        IRet (if String.eqb state "idle" then ({| worker with w_State := WorkerIdle |}, None)
              else if is_text state ["busy"; "completed"] then ({| worker with w_State := WorkerBusy |}, None)
              else (worker, Some (ErrNew ("worker " +:+ id +:+ " returned unsupported state " +:+ Quote state))))
    end.

(** ** The inventory *)

Fixpoint list_workers (items : list ContainerSummary) : dprog (list Worker * list ArtifactMetadata) :=
  match items with
  | [] => IRet ([], [])
  | item :: rest =>
      let^ (worker, failed) := workerFromContainer item in
      let^ _ := report failed in
      let worker := match failed with Some _ => {| worker with w_State := WorkerStarting |} | None => worker end in
      let^ (workers, adopted) := list_workers rest in
      IRet (worker :: workers, metadataFromLabels (cs_ID item) (cs_Labels item) :: adopted)
  end.

Fixpoint watch_all (ms : list ArtifactMetadata) : dprog () :=
  match ms with
  | [] => IRet ()
  | m :: rest => let^ _ := ensureWatch (am_ContainerID m) false in watch_all rest
  end.

Definition Docker_List : dprog (result error (list Worker)) :=
  let^ invalid := validateEngine in
  match invalid with
  | Some e => IRet (Err e)
  | None =>
      let^ listed := icall (ContainerList [managedLabel +:+ "=true"; hostLabel +:+ "=" +:+ op_HostID o]) in
      match listed with
      | Err e => IRet (Err (ErrWrap "list managed worker containers" e))
      | Ok items =>
          let^ (workers, adopted) := list_workers items in
          let^ failed := icall (AdoptAndCleanup adopted) in
          match failed with
          | Some e =>
              let e := ErrWrap "adopt workers before artifact cleanup" e in
              let^ _ := icall (OnError e) in IRet (Err e)
          | None => let^ _ := watch_all adopted in IRet (Ok workers)
          end
      end
  end.

(** ** The start of a worker *)

(** [float64(math.MaxInt64) / 1e9], rounded once. *)
Definition maximum_cpus : float64 := f64_div (f64_of_Z (2 ^ 63)) (f64_of_Z 1000000000).

Definition validateLimits (r : StartWorkerRequest) : option error :=
  let limits := sw_Limits r in
  if String.eqb (sw_PoolID r) "" || String.eqb (sw_Name r) "" then Some (ErrNew "worker pool and name are required")
  else if negb (is_text (sw_ResourceTier r) ["default"; "target_override"; "unknown"])
  then Some (ErrNew "worker resource tier must be default, target_override, or unknown")
  else if f64_le (wp_CPUs limits) f64_0 || (wp_Memory limits =? 0) || (wp_MemorySwap limits <? wp_Memory limits) || (wp_PIDs limits <=? 0)
  then Some (ErrNew "worker CPU, memory, total memory+swap, and PID limits are invalid")
  else if f64_lt maximum_cpus (wp_CPUs limits) || (max_i64 <? wp_Memory limits) || (max_i64 <? wp_MemorySwap limits)
  then Some (ErrNew "worker resource limit exceeds Docker's signed integer range")
  else None.

Definition ensureImage : dprog (option error) :=
  let^ found := icall (ImageInspect (op_Image o)) in
  match found with
  | None => IRet None
  | Some e =>
      if negb (IsNotFound e) then IRet (Some (ErrWrap "inspect pinned worker image" e))
      else
        let^ pulled := icall (ImagePull (op_Image o)) in
        match pulled with
        | Some e => IRet (Some (ErrWrap "pull pinned worker image" e))
        | None =>
            let^ waited := icall PullWait in
            let^ closed := icall PullClose in
            IRet match waited with
                 | Some e => errors_Join [Some (ErrWrap "pull pinned worker image" e); wrapIfError "close pinned worker image pull" closed]
                 | None => wrapIfError "close pinned worker image pull" closed
                 end
        end
  end.

Definition workerSecurityOpt (profile : string) : result error (list string) :=
  if String.eqb profile "" then Ok []
  else match seccomp_Profile profile with Err e => Err e | Ok encoded => Ok ["seccomp=" +:+ encoded] end.

Definition safeWorkerStartError (e : error) : error := ErrWorkerStart e false.

(** The container of a worker. *)
Definition create_options (r : StartWorkerRequest) (securityOpt : list string) (startedAt : time) : CreateOptions :=
  let runnerID := Itoa (jit_runnerID (sw_JITConfig r)) in
  let limits := sw_Limits r in
  {| cr_Name := sw_Name r; cr_Platform := ("linux", "amd64"); cr_Image := op_Image o;
     cr_AttachStdin := true; cr_OpenStdin := true; cr_StdinOnce := true;
     cr_Env := ["ACTIONS_RUNNER_PRINT_LOG_TO_STDOUT=1"];
     cr_Labels := list_to_map
       [(managedLabel, "true"); (hostLabel, op_HostID o); (poolLabel, sw_PoolID r); (workerNameLabel, sw_Name r);
        (resourceTierLabel, sw_ResourceTier r); (runnerIDLabel, runnerID); (startedAtLabel, format_rfc3339 startedAt);
        (controllerLabel, op_ControllerVersion o); (composeProjectLabel, "ci-runner-" +:+ op_HostID o);
        (composeServiceLabel, composeServiceName); (composeNumberLabel, runnerID); (composeOneoffLabel, "False")];
     cr_Binds := []; cr_Mounts := []; cr_VolumesFrom := []; cr_Privileged := false; cr_AutoRemove := false;
     cr_NetworkMode := "bridge"; cr_PublishAllPorts := false; cr_SecurityOpt := securityOpt; cr_RestartPolicy := "no";
     cr_LogType := "local";
     cr_LogConfig := list_to_map [("max-size", Itoa (op_DockerLogMaxSizeBytes o)); ("max-file", Itoa (op_DockerLogMaxFiles o))];
     cr_NanoCPUs := i64_of_f64 (f64_mul (wp_CPUs limits) (f64_of_Z 1000000000));
     cr_Memory := wrap_i64 (wp_Memory limits); cr_MemorySwap := wrap_i64 (wp_MemorySwap limits); cr_PidsLimit := wp_PIDs limits;
     cr_Devices := [] |}.

Definition ErrShortWrite : error := ErrNew "short write".

Definition writeJITConfiguration (id jit : string) : dprog (option error) :=
  let^ (written, failed) := icall (StreamWrite id jit) in
  match failed with
  | Some e => IRet (Some (ErrWrap "stream JIT configuration" e))
  | None =>
      if negb (written =? Z.of_nat (String.length jit)) then IRet (Some (ErrWrap "stream JIT configuration" ErrShortWrite))
      else
        let^ (_, failed) := icall (StreamWrite id (String newline_byte "")) in
        IRet match failed with Some e => Some (ErrWrap "terminate JIT configuration stream" e) | None => None end
  end.

(** From the created container on. *)
Definition run_worker (r : StartWorkerRequest) (startedAt : time) (id : string) (warnings : list string) : dprog (result error Worker) :=
  let jit := jit_encoded (sw_JITConfig r) in
  match warnings with
  | _ :: _ =>
      let^ _ := icall (ContainerRemove id true true) in
      IRet (Err (safeWorkerStartError (ErrNew ("worker configuration was rejected by Docker: " +:+ Join "; " warnings))))
  | [] =>
      let^ attached := icall (ContainerAttach id) in
      match attached with
      | Some e =>
          let^ _ := icall (ContainerRemove id true true) in
          IRet (Err (safeWorkerStartError (ErrWrap "attach JIT configuration stream" e)))
      | None =>
          let^ _ := icall (ContainerWait id true) in
          let^ started := icall (ContainerStart id) in
          match started with
          | Some e =>
              let^ _ := icall (StreamClose id) in
              let^ _ := ensureWatch id true in
              IRet (Err (ErrWorkerStart (ErrWrap "start worker container" e) true))
          | None =>
              let^ _ := ensureWatch id true in
              let^ failed := writeJITConfiguration id jit in
              match failed with
              | Some e => let^ _ := icall (StreamClose id) in IRet (Err (ErrWorkerStart e true))
              | None =>
                  let^ failed := icall (StreamCloseWrite id) in
                  match failed with
                  | Some e =>
                      let^ _ := icall (StreamClose id) in
                      IRet (Err (ErrWorkerStart (ErrWrap "close JIT configuration stream" e) true))
                  | None =>
                      let^ _ := icall (StreamClose id) in
                      IRet (Ok (mkWorker id id (sw_PoolID r) (sw_Name r) WorkerStarting "" (jit_runnerID (sw_JITConfig r)) startedAt
                                  (wrap_i64 (wp_Memory (sw_Limits r)))))
                  end
              end
          end
      end
  end.

(** The body of [Start]. *)
Definition start_worker (r : StartWorkerRequest) : dprog (result error Worker) :=
  let failed e := IRet (Err (safeWorkerStartError e)) in
  match validateLimits r with
  | Some e => failed e
  | None =>
      let^ invalid := validateEngine in
      match invalid with
      | Some e => failed e
      | None =>
          let^ missing := ensureImage in
          match missing with
          | Some e => failed e
          | None =>
              let jit := jit_encoded (sw_JITConfig r) in
              if jit_runnerID (sw_JITConfig r) <=? 0
              then failed (ErrNew "JIT configuration is missing its positive GitHub runner ID")
              else if String.eqb jit "" || ContainsAny jit [ascii_of_N 0; ascii_of_N 13; ascii_of_N 10]
              then failed (ErrNew "JIT configuration must be a nonempty single line with no NUL byte")
              else
                match workerSecurityOpt (sw_SeccompProfile r) with
                | Err e => failed e
                | Ok securityOpt =>
                    let^ startedAt := icall Clock in
                    let^ created := icall (ContainerCreate (create_options r securityOpt startedAt)) in
                    match created with
                    | Err e => failed (ErrWrap "create worker container" e)
                    | Ok (id, warnings) => run_worker r startedAt id warnings
                    end
                end
          end
      end
  end.

Definition Docker_Start (r : StartWorkerRequest) : dprog (result error Worker) :=
  let^ begun := icall Clock in
  let r := {| r with sw_ResourceTier := or_default (sw_ResourceTier r) "default" |} in
  let^ result := start_worker r in
  let^ ended := icall Clock in
  let outcome := match result with
                 | Ok _ => ClassifyWorkerStart None true
                 | Err e => ClassifyWorkerStart (Some e) (RunnerStartMayBeActive e)
                 end in
  let^ _ := icall (TelemetryStarted (sw_PoolID r) (sw_ResourceTier r) (Sub ended begun) outcome) in
  IRet result.

(** ** Stopping a worker *)

Definition unavailable (e : error) : bool := IsNotFound e || is_sentinel errWorkerStateUnavailable e.

Definition RemoveIfIdle (id : string) : dprog (result error bool) :=
  let^ first := readWorkerState id in
  match first with
  | Err e => IRet (if unavailable e then Ok true else Err e)
  | Ok state =>
      if negb (String.eqb state "idle") then IRet (Ok false)
      else
        let^ canceled := icall (IdleTimer (op_IdleConfirmationWindow o)) in
        match canceled with
        | Some e => IRet (Err e)
        | None =>
            let^ second := readWorkerState id in
            match second with
            | Err e => IRet (if unavailable e then Ok true else Err e)
            | Ok state =>
                if negb (String.eqb state "idle") then IRet (Ok false)
                else
                  let^ _ := ensureWatch id false in
                  let^ stopped := icall (ContainerStop id (-1)) in
                  match stopped with
                  | Some e =>
                      if negb (IsNotFound e) then IRet (Err (ErrWrap "gracefully stop idle worker" e))
                      else let^ ended := icall (AwaitWatch id) in IRet match ended with Some e => Err e | None => Ok true end
                  | None => let^ ended := icall (AwaitWatch id) in IRet match ended with Some e => Err e | None => Ok true end
                  end
            end
        end
  end.

Definition ForceStop (id : string) : dprog (option error) :=
  let^ _ := ensureWatch id false in
  let^ killed := icall (ContainerKill id "SIGKILL") in
  match killed with
  | Some e => if negb (IsNotFound e) then IRet (Some (ErrWrap "kill worker container" e)) else icall (AwaitWatch id)
  | None => icall (AwaitWatch id)
  end.

(** ** Finalization *)

(** [captureLogs]: the evidence of the stream and the joined failures. *)
Definition captureLogs (id : string) : dprog logCaptureResult :=
  let^ m := metadata id in
  let^ opened := icall (OpenLog m) in
  match opened with
  | Some e => IRet (mkLogCapture None (Some e))
  | None =>
      let^ streamed := icall (ContainerLogs id) in
      match streamed with
      | Some e =>
          let^ closed := icall (CloseLog m) in
          IRet (mkLogCapture None (errors_Join [Some (ErrWrap "open worker log stream" e); closed]))
      | None =>
          let^ (writes, copyErr) := icall (CopyLogs id) in
          let observer := foldl (fun w '(content, accepted) => (Observer_Write accepted None w content).1) newResourceEvidenceLogObserver writes in
          let^ closedLogs := icall (CloseLogs id) in
          let^ closedLog := icall (CloseLog m) in
          IRet (mkLogCapture (lastEvidence observer)
                  (errors_Join [wrapIfError "copy worker log stream" copyErr; wrapIfError "close worker log stream" closedLogs;
                                wrapIfError "close worker log artifact" closedLog]))
      end
  end.

Definition captureDiagnostics (id : string) (m : ArtifactMetadata) : dprog (option error) :=
  let path := op_DiagnosticPath o in
  let^ copied := icall (CopyFromContainer id path) in
  match copied with
  | Err e => IRet (Some (ErrWrap "copy worker diagnostics" e))
  | Ok archive =>
      let^ failed := icall (WriteDiagnostics m archive) in
      let^ closed := icall (CloseArchive id path) in
      IRet (errors_Join [failed; wrapIfError "close worker diagnostics archive" closed])
  end.

Definition readSingleRegularArchive (a : Archive) (maximum : Z) : result error string :=
  match ar_header a with
  | Err e => Err e
  | Ok (regular, size) =>
      if negb regular || (size <? 1) || (maximum <? size)
      then Err (ErrNew "resource evidence archive must contain one bounded regular file")
      else match ar_content a with
           | Err e => Err e
           | Ok bytes =>
               let content := take_bytes (Z.to_nat (maximum + 1)) bytes in
               if negb (Z.of_nat (String.length content) =? size)
               then Err (ErrNew "resource evidence archive length does not match its header")
               else if ar_more a then Err (ErrNew "resource evidence archive must contain exactly one file")
               else Ok content
           end
  end.

(** The evidence in the container, or why there is none to be had. *)
Definition copy_evidence (id : string) (fallback : ResourceEvidence) : dprog (ResourceEvidence * option error) :=
  let path := op_ResourceEvidencePath o in
  let^ copied := icall (CopyFromContainer id path) in
  match copied with
  | Err e =>
      let^ expired := icall (ContextErr FinalizeContext) in
      match expired with
      | Some c => IRet (fallback, Some (ErrWrap "copy terminal worker resource evidence after finalization context expired" (ErrJoin [e; c])))
      | None =>
          let^ shutdown := icall (ContextErr RuntimeContext) in
          if match shutdown with Some s => only_by s (Some e) | None => false end
          then IRet (fallback, Some (ErrWrap "copy terminal worker resource evidence" e))
          else
            let^ _ := report (if IsNotFound e then None
                              else Some (ErrWrap "copy terminal worker resource evidence; preserving bounded fallback" e)) in
            IRet (fallback, None)
      end
  | Ok archive =>
      let extracted := readSingleRegularArchive archive maximumResourceEvidenceBytes in
      let^ closed := icall (CloseArchive id path) in
      let invalid := fallbackResourceEvidence "invalid" "invalid-evidence" in
      match errors_Join [match extracted with Err e => Some e | Ok _ => None end; closed], extracted with
      | None, Ok content =>
          match ParseResourceEvidence (Ok content) with
          | Ok parsed => IRet (parsed, None)
          | Err e =>
              let^ _ := report (Some (ErrWrap "validate terminal worker resource evidence; preserving bounded fallback" e)) in
              IRet (invalid, None)
          end
      | Some e, _ =>
          let^ _ := report (Some (ErrWrap "extract terminal worker resource evidence; preserving bounded fallback" e)) in
          IRet (invalid, None)
      | None, Err _ => IRet (invalid, None)
      end
  end.

(** Persists the evidence; a fallback is not persisted once the context ended. *)
Definition persist_evidence (m : ArtifactMetadata) (evidence : ResourceEvidence) : dprog (ResourceEvidence * bool * option error) :=
  let^ expired := icall (ContextErr FinalizeContext) in
  match expired with
  | Some e =>
      if String.eqb (re_Source evidence) resourceEvidenceSourceHost
      then IRet (evidence, false, Some (ErrWrap "terminal worker fallback evidence context expired before persistence" e))
      else
        let^ recorded := icall (WriteResourceEvidence m evidence) in
        IRet match recorded with
             | Err e => (evidence, false, Some (ErrWrap "persist terminal worker resource evidence" e))
             | Ok b => (evidence, b, None)
             end
  | None =>
      let^ recorded := icall (WriteResourceEvidence m evidence) in
      IRet match recorded with
           | Err e => (evidence, false, Some (ErrWrap "persist terminal worker resource evidence" e))
           | Ok b => (evidence, b, None)
           end
  end.

Definition captureResourceEvidence (id : string) (m : ArtifactMetadata) (marker : option ResourceEvidence)
    : dprog (ResourceEvidence * bool * option error) :=
  let fallback := fallbackResourceEvidence "unavailable" "docker-copy-unavailable" in
  match marker with
  | Some evidence => persist_evidence m evidence
  | None =>
      let^ expired := icall (ContextErr FinalizeContext) in
      match expired with
      | Some e => IRet (fallback, false, Some (ErrWrap "terminal worker resource evidence context expired" e))
      | None =>
          let^ (evidence, failed) := copy_evidence id fallback in
          match failed with
          | Some e => IRet (evidence, false, Some e)
          | None => persist_evidence m evidence
          end
      end
  end.

(** How the wait for the exit of a container ends. *)
Inductive waited := ExitCode (status : Z) | WaitFailed (err : error) | ChannelsClosed | Shutdown (err : error).

(** The select loop over the wait channels; [results] and [errors] say which are
    still open.  [None] when the loop is still waiting after [fuel] events. *)
Fixpoint await_exit (fuel : nat) (id : string) (results errors : bool) : dprog (option waited) :=
  if negb results && negb errors then IRet (Some ChannelsClosed)
  else match fuel with
       | O => IRet None
       | S fuel =>
           let^ event := icall (WaitEvent id) in
           match event with
           | WaitShutdown e => IRet (Some (Shutdown e))
           | WaitResult status => if results then IRet (Some (ExitCode status)) else await_exit fuel id results errors
           | WaitResultClosed => await_exit fuel id false errors
           | WaitError (Some e) => if errors then IRet (Some (WaitFailed e)) else await_exit fuel id results errors
           | WaitError None => await_exit fuel id results errors
           | WaitErrorClosed => await_exit fuel id results false
           end
       end.

(** The logs: the evidence in them and the failures so far. *)
Definition collect_logs (id : string) : dprog (option ResourceEvidence * option error) :=
  let^ ended := icall (AwaitLogs id) in
  match ended with
  | Some captured =>
      let^ _ := report (lr_err captured) in
      IRet (lr_evidence captured, match lr_err captured with Some e => errors_Join [None; Some e] | None => None end)
  | None =>
      let^ shutdown := icall (ContextErr RuntimeContext) in
      let err := match shutdown with
                 | Some s => ErrWrap "worker log stream canceled by controller shutdown" s
                 | None => ErrNew "worker log stream did not close before finalization timeout"
                 end in
      let^ _ := report (Some err) in
      let failed := errors_Join [None; Some err] in
      let^ captured := icall (LogsEnded id) in
      match lr_err captured with
      | None => IRet (lr_evidence captured, failed)
      | Some e =>
          let^ shutdown := icall (ContextErr RuntimeContext) in
          if match shutdown with Some s => only_by s (Some e) | None => false end
          then IRet (lr_evidence captured, failed)
          else let^ _ := report (Some e) in IRet (lr_evidence captured, errors_Join [failed; Some e])
      end
  end.

Definition summary (e : ResourceEvidence) : WorkerResourceEvidence :=
  mkWorkerEvidence (re_Status e) (re_Missing e) (re_Memory e) (re_CPU e) (re_PIDsPeak e) (re_IO e).
Definition missing_summary : WorkerResourceEvidence :=
  mkWorkerEvidence "missing" [] (mkEvidenceMemory 0 0 0 0) (mkEvidenceCPU 0 0 0) 0 (mkEvidenceIO 0 0).

(** From the observed exit on: the artifacts, and the removal of the container
    when all of them are stored.  The failures are the error of the watch. *)
Definition store_artifacts (id : string) (f : WorkerFinalization) : dprog (WorkerFinalization * option error) :=
  let^ (marker, failed) := collect_logs id in
  let^ m := metadata id in
  let^ (evidence, recorded, evidenceErr) := captureResourceEvidence id m marker in
  let^ _ := report evidenceErr in
  let failed := match evidenceErr with Some e => errors_Join [failed; Some e] | None => failed end in
  let^ diagnosticErr := captureDiagnostics id m in
  let^ _ := report diagnosticErr in
  let failed := match diagnosticErr with Some e => errors_Join [failed; Some e] | None => failed end in
  let f := {| f with wf_ResourceTier := am_ResourceTier m; wf_RecordResourceEvidence := recorded;
                     wf_ResourceEvidence := Some (summary evidence) |} in
  match failed with
  | Some e => IRet (f, Some e)
  | None =>
      let^ finalized := icall (FinalizeArtifacts m) in
      match finalized with
      | Some e =>
          let e := ErrWrap "finalize worker artifacts" e in
          let^ _ := report (Some e) in IRet (f, Some e)
      | None =>
          let^ removed := icall (ContainerRemove id false true) in
          match removed with
          | Some e =>
              if IsNotFound e then IRet (f, None)
              else let e := ErrWrap "remove completed worker container" e in
                   let^ _ := report (Some e) in IRet (f, errors_Join [None; Some e])
          | None => IRet (f, None)
          end
      end
  end.

(** The body of [finalize] after the wait. *)
Definition finalize_exit (id : string) (f : WorkerFinalization) (w : waited) : dprog (WorkerFinalization * option error) :=
  match w with
  | Shutdown e => IRet ({| f with wf_ControllerShutdown := true |}, Some e)
  | ExitCode status => store_artifacts id {| f with wf_ExitCode := status; wf_ExitObserved := true |}
  | ChannelsClosed => store_artifacts id f
  | WaitFailed e =>
      let waitErr := ErrWrap "wait for worker exit" e in
      let^ inspect := icall (ContainerInspect id) in
      match inspect with
      | Err e =>
          if IsNotFound e
          then IRet ({| f with wf_ResourceEvidence := Some missing_summary; wf_RecordResourceEvidence := true |}, None)
          else let^ _ := report (Some waitErr) in IRet (f, Some waitErr)
      | Ok i =>
          match ci_State i with
          | Some (false, code) => store_artifacts id {| f with wf_ExitCode := code; wf_ExitObserved := true |}
          | _ => let^ _ := report (Some waitErr) in IRet (f, Some waitErr)
          end
      end
  end.

(** [finalize]: the error of the watch; [None] while the container runs. *)
Definition finalize (fuel : nat) (id : string) : dprog (option (option error)) :=
  let^ begun := icall Clock in
  let^ m := metadata id in
  let^ _ := icall (SpawnLogCapture id) in
  let^ w := await_exit fuel id true true in
  match w with
  | None => IRet None
  | Some w =>
      let^ (f, err) := finalize_exit id (mkFinalization 0 false None false (am_ResourceTier m) None false 0) w in
      let^ shutdown := icall (ContextErr RuntimeContext) in
      let^ ended := icall Clock in
      let canceled := wf_ControllerShutdown f || match shutdown with Some s => only_by s err | None => false end in
      let f := {| f with wf_Err := err; wf_ControllerShutdown := canceled; wf_Duration := Sub ended begun |} in
      let^ _ := icall (TelemetryFinalized (am_PoolID m) f) in
      let^ _ := icall (UnregisterWatch id) in
      IRet (Some err)
  end.

(** The calls by which the finalizer deals with the goroutine of the logs. *)
Definition handshake (c : dcall) : bool :=
  match c with SpawnLogCapture _ | AwaitLogs _ | LogsEnded _ => true | _ => false end.

(** The finalizer of a container and the goroutine it starts for the logs, their
    events in any order: the goroutine runs [captureLogs] from its start on, and what
    the finalizer receives from it is the result of that run, once it has ended; a
    finalizer whose context ends first goes on without.  The second argument is what is
    left of the goroutine's program, [None] before its start. *)
Inductive with_log_capture {A} (id : string) : dprog A -> option (dprog logCaptureResult) -> list devent -> A -> Prop :=
  | both_end a q : with_log_capture id (IRet a) q [] a
  | both_spawn k tr a :
      with_log_capture id (k ()) (Some (captureLogs id)) tr a ->
      with_log_capture id (ICall (SpawnLogCapture id) k) None (ev (SpawnLogCapture id) () :: tr) a
  | both_capture p c k r tr a :
      with_log_capture id p (Some (k r)) tr a -> with_log_capture id p (Some (ICall c k)) (ev c r :: tr) a
  | both_received captured k tr a :
      with_log_capture id (k (Some captured)) (Some (IRet captured)) tr a ->
      with_log_capture id (ICall (AwaitLogs id) k) (Some (IRet captured)) (ev (AwaitLogs id) (Some captured) :: tr) a
  | both_timeout k q tr a :
      with_log_capture id (k None) q tr a -> with_log_capture id (ICall (AwaitLogs id) k) q (ev (AwaitLogs id) None :: tr) a
  | both_ended captured k tr a :
      with_log_capture id (k captured) (Some (IRet captured)) tr a ->
      with_log_capture id (ICall (LogsEnded id) k) (Some (IRet captured)) (ev (LogsEnded id) captured :: tr) a
  | both_call c k r q tr a :
      handshake c = false -> with_log_capture id (k r) q tr a -> with_log_capture id (ICall c k) q (ev c r :: tr) a.
End Runtime.

(** ** The table of watches *)

(** The watched containers, and how many finalizers run for each. *)
Record WatchTable := mkWatchTable {
  wt_watches : gset string;
  wt_finalizers : gmap string nat;
}.

Definition running (t : WatchTable) (id : string) : nat := default 0%nat (wt_finalizers t !! id).

(** [ensureWatch] under the lock: whether the watch is new. *)
Definition register_watch (id : string) (t : WatchTable) : bool * WatchTable :=
  if bool_decide (id ∈ wt_watches t) then (false, t)
  else (true, mkWatchTable ({[id]} ∪ wt_watches t) (<[id := S (running t id)]> (wt_finalizers t))).

(** The end of a finalizer: its watch is deleted under the lock. *)
Definition unregister_watch (id : string) (t : WatchTable) : WatchTable :=
  mkWatchTable (wt_watches t ∖ {[id]}) (<[id := pred (running t id)]> (wt_finalizers t)).

Inductive watch_step : WatchTable -> WatchTable -> Prop :=
  | step_ensure id t : watch_step t (register_watch id t).2
  | step_finalized id t : (0 < running t id)%nat -> watch_step t (unregister_watch id t).

Definition no_watches : WatchTable := mkWatchTable ∅ ∅.
