(* ===== verification/DockerFacts.v ===== *)
(** Theorems on the Docker worker runtime: what a start leaves behind, where the
    runner's secret goes, when a worker is stopped and when a container is
    removed. *)

From S2P Require Import Prelude Float64 GoStrings Regexp GoText Model Config PlanGates Errors Effects Interaction ScaleSet Evidence Validate Docker.
From stdpp Require Import relations.
#[local] Open Scope Z_scope.

Definition is_create (e : devent) : bool := match projT1 e with ContainerCreate _ => true | _ => false end.
Definition is_start (e : devent) : bool := match projT1 e with ContainerStart _ => true | _ => false end.
Definition is_remove (e : devent) : bool := match projT1 e with ContainerRemove _ _ _ => true | _ => false end.
Definition is_stop (e : devent) : bool := match projT1 e with ContainerStop _ _ | ContainerKill _ _ => true | _ => false end.
Definition is_stream (e : devent) : bool := match projT1 e with StreamWrite _ _ => true | _ => false end.
(** Events that touch a container's life. *)
Definition is_lifecycle (e : devent) : bool := is_create e || is_start e || is_remove e || is_stop e || is_stream e.

Section Facts.
Context {ET : EvidenceText} {ED : Errdefs} {PR : Profiles}.
Variable o : Options.

Lemma report_avoids e : avoids is_lifecycle (report e).
Proof. unfold report. solve_avoids. Qed.
#[local] Hint Resolve report_avoids : avoids.
Lemma ensureWatch_avoids id existing : avoids is_lifecycle (ensureWatch id existing).
Proof. unfold ensureWatch. solve_avoids. Qed.
Lemma validateEngine_avoids : avoids is_lifecycle validateEngine.
Proof. unfold validateEngine. solve_avoids. Qed.
Lemma ensureImage_avoids : avoids is_lifecycle (ensureImage o).
Proof. unfold ensureImage. solve_avoids. Qed.
Lemma metadata_avoids id : avoids is_lifecycle (metadata id).
Proof. unfold metadata. solve_avoids. Qed.
#[local] Hint Resolve ensureWatch_avoids validateEngine_avoids ensureImage_avoids metadata_avoids : avoids.
Lemma readWorkerState_avoids id : avoids is_lifecycle (readWorkerState o id).
Proof. unfold readWorkerState, containerGoneOrNotRunning. solve_avoids. Qed.
Lemma captureDiagnostics_avoids id m : avoids is_lifecycle (captureDiagnostics o id m).
Proof. unfold captureDiagnostics. solve_avoids. Qed.
Lemma captureResourceEvidence_avoids id m marker : avoids is_lifecycle (captureResourceEvidence o id m marker).
Proof. unfold captureResourceEvidence, copy_evidence, persist_evidence. solve_avoids. Qed.
Lemma collect_logs_avoids id : avoids is_lifecycle (collect_logs id).
Proof. unfold collect_logs. solve_avoids. Qed.
Lemma await_exit_avoids fuel id r e : avoids is_lifecycle (await_exit fuel id r e).
Proof. revert r e. induction fuel as [|fuel IH]; intros r e; simpl; solve_avoids. Qed.

Definition free (tr : list devent) : Prop := Forall (fun e => is_lifecycle e = false) tr.

Lemma free_not f tr : (forall e, f e = true -> is_lifecycle e = true) -> free tr -> Forall (fun e => f e = false) tr.
Proof.
  intros Hf Htr. eapply Forall_impl; [exact Htr|]. intros e He. cbv beta in He |- *. destruct (f e) eqn:Hfe; [|done]. apply Hf in Hfe. by rewrite Hfe in He.
Qed.

Lemma lifecycle_cases e :
  (is_create e = true -> is_lifecycle e = true) /\ (is_start e = true -> is_lifecycle e = true)
  /\ (is_remove e = true -> is_lifecycle e = true) /\ (is_stop e = true -> is_lifecycle e = true)
  /\ (is_stream e = true -> is_lifecycle e = true).
Proof. unfold is_lifecycle. repeat split; intros ->; by rewrite ?orb_true_r. Qed.

(** ** Starting a worker *)

(** A container that never ran: it was force-removed and nothing was streamed. *)
Definition discarded (id : string) (tr : list devent) : Prop :=
  (exists a, ev (ContainerRemove id true true) a ∈ tr)
  /\ Forall (fun e => is_start e = false) tr /\ Forall (fun e => is_stream e = false) tr.

(** A container that may run: it is watched and was not removed. *)
Definition handed_over (id : string) (tr : list devent) : Prop :=
  (exists a, ev (ContainerStart id) a ∈ tr) /\ (exists a, ev (RegisterWatch id) a ∈ tr)
  /\ Forall (fun e => is_remove e = false) tr.

Lemma ensureWatch_runs id existing tr r :
  iruns (ensureWatch id existing) tr r -> (exists a, ev (RegisterWatch id) a ∈ tr) /\ free tr.
Proof.
  intros Hr. split; [|by eapply ensureWatch_avoids]. unfold ensureWatch in Hr.
  apply iruns_inv in Hr as (a & tr' & -> & _). exists a. by left.
Qed.

#[local] Opaque ensureWatch.

(** Where the runner's secret goes: into the stream of the container, once the
    container has started. *)
Definition streamed_after_start (id jit : string) (tr : list devent) : Prop :=
  forall before e after, tr = before ++ e :: after -> is_stream e = true ->
  ev (ContainerStart id) None ∈ before /\ (projT1 e = StreamWrite id jit \/ projT1 e = StreamWrite id (String newline_byte "")).

Lemma streamed_none id jit tr : Forall (fun e => is_stream e = false) tr -> streamed_after_start id jit tr.
Proof. intros Htr b e a -> He. rewrite Forall_app, Forall_cons in Htr. destruct Htr as (_ & Hf & _). by rewrite Hf in He. Qed.

(** The stream's events follow a prefix with the start. *)
Lemma streamed_app id jit tr1 tr2 :
  Forall (fun e => is_stream e = false) tr1 -> ev (ContainerStart id) None ∈ tr1 ->
  Forall (fun e => is_stream e = true -> projT1 e = StreamWrite id jit \/ projT1 e = StreamWrite id (String newline_byte "")) tr2 ->
  streamed_after_start id jit (tr1 ++ tr2).
Proof.
  intros H1 Hs H2 b e a Heq He. destruct (skip_prefix is_stream _ _ _ _ e H1 He Heq) as (b' & -> & ->).
  split; [apply elem_of_app; by left|]. rewrite Forall_app, Forall_cons in H2. destruct H2 as (_ & Hf & _). auto.
Qed.

Lemma writeJITConfiguration_runs id jit tr r :
  iruns (writeJITConfiguration id jit) tr r ->
  Forall (fun e => projT1 e = StreamWrite id jit \/ projT1 e = StreamWrite id (String newline_byte "")) tr
  /\ (r = None -> ev (StreamWrite id jit) (Z.of_nat (String.length jit), None) ∈ tr).
Proof.
  unfold writeJITConfiguration. intros Hr. inv_runs. destruct r0 as [n [e|]]; inv_runs; [split; [by repeat constructor; left|done]|].
  destruct (Z.eqb_spec n (Z.of_nat (String.length jit))) as [->|]; simpl in Hr; inv_runs; [|split; [by repeat constructor; left|done]].
  destruct r0 as [m f]. inv_runs. split; [constructor; [by left|constructor; [by right|constructor]]|]. intros _. by left.
Qed.

#[local] Opaque writeJITConfiguration.

Definition run_ok (r : StartWorkerRequest) (id : string) (tr : list devent) (res : result error Worker) : Prop :=
  streamed_after_start id (jit_encoded (sw_JITConfig r)) tr
  /\ match res with
     | Ok w => w_ID w = id /\ handed_over id tr /\ ev (ContainerStart id) None ∈ tr
               /\ ev (StreamWrite id (jit_encoded (sw_JITConfig r))) (Z.of_nat (String.length (jit_encoded (sw_JITConfig r))), None) ∈ tr
     | Err e => if RunnerStartMayBeActive e then handed_over id tr else discarded id tr
     end.

Ltac not_event := repeat (apply Forall_cons_2 || apply Forall_app_2); try apply Forall_nil_2; try reflexivity; try (intros; discriminate).

Lemma run_worker_runs r at_ id warnings tr res : iruns (run_worker r at_ id warnings) tr res -> run_ok r id tr res.
Proof.
  unfold run_worker, run_ok. intros Hr. set (jit := jit_encoded (sw_JITConfig r)) in *.
  assert (Hlife := lifecycle_cases).
  destruct warnings as [|w ws]; inv_runs.
  2:{ simpl. split; [apply streamed_none; not_event|]. split; [eexists; by left|]. split; not_event. }
  destruct r0 as [e|]; inv_runs.
  { simpl. split; [apply streamed_none; not_event|]. split; [eexists; right; by left|]. split; not_event. }
  destruct r1 as [e|]; inv_runs.
  { apply iruns_bind_inv in Hr as (tr1 & tr2 & [] & H1' & Hr & ->). inv_runs.
    apply ensureWatch_runs in H1' as [[a Ha] Hfree]. rewrite app_nil_r. split.
    - apply streamed_none. not_event. eapply free_not; [|exact Hfree]. intros e'. apply Hlife.
    - simpl. split; [eexists; do 2 right; by left|]. split; [exists a; by repeat right|]. not_event.
      eapply free_not; [|exact Hfree]. intros e'. apply Hlife. }
  apply iruns_bind_inv in Hr as (tr1 & tr2 & [] & H1' & Hr & ->). apply ensureWatch_runs in H1' as [[a Ha] Hfree].
  apply iruns_bind_inv in Hr as (tr3 & tr4 & failed & H2 & Hr & ->). apply writeJITConfiguration_runs in H2 as [Hw Hsent].
  assert (Hfs : Forall (fun e => is_stream e = false) tr1) by (eapply free_not; [|exact Hfree]; intros e'; apply Hlife).
  assert (Hfr : Forall (fun e => is_remove e = false) tr1) by (eapply free_not; [|exact Hfree]; intros e'; apply Hlife).
  assert (Hwr : Forall (fun e => is_remove e = false) tr3).
  { eapply Forall_impl; [exact Hw|]. intros e [He|He]; unfold is_remove; by rewrite He. }
  set (pre := ev (ContainerAttach id) None :: ev (ContainerWait id true) r0 :: ev (ContainerStart id) None :: tr1).
  change (_ :: _ :: _ :: tr1 ++ tr3 ++ tr4) with (pre ++ tr3 ++ tr4).
  assert (Hpre : ev (ContainerStart id) None ∈ pre) by (do 2 right; by left).
  assert (Hall : Forall (fun e => is_stream e = false) tr4 -> Forall (fun e => is_remove e = false) tr4 ->
            streamed_after_start id jit (pre ++ tr3 ++ tr4) /\ handed_over id (pre ++ tr3 ++ tr4)).
  { intros H4s H4r. split.
    - apply streamed_app; [unfold pre; not_event; done|done|]. apply Forall_app_2.
      + eapply Forall_impl; [exact Hw|]. auto.
      + eapply Forall_impl; [exact H4s|]. intros e He Ht. cbv beta in He. by rewrite He in Ht.
    - split; [exists None; apply elem_of_app; by left|]. split; [exists a; apply elem_of_app; left; by do 3 right|].
      unfold pre. not_event; done. }
  destruct failed as [e|]; inv_runs; [destruct Hall as [? ?]; [not_event..|]; by split|].
  destruct r1 as [e|]; inv_runs; (destruct Hall as [? ?]; [not_event..|]); [by split|].
  split; [assumption|]. split; [done|]. split; [assumption|]. split; [do 2 right; by left|].
  do 3 right. apply elem_of_app. right. apply elem_of_app. left. by apply Hsent.
Qed.

Lemma run_worker_creates r at_ id warnings : avoids is_create (run_worker r at_ id warnings).
Proof.
  assert (Hw : forall id existing, avoids is_create (ensureWatch id existing)).
  { intros i ex tr a Hr%ensureWatch_avoids. eapply free_not; [|exact Hr]. intros e. apply lifecycle_cases. }
  assert (Hj : forall id jit, avoids is_create (writeJITConfiguration id jit)).
  { intros i jit tr a [Hr _]%writeJITConfiguration_runs. eapply Forall_impl; [exact Hr|]. intros e [He|He]; unfold is_create; by rewrite He. }
  unfold run_worker. solve_avoids.
Qed.

#[local] Opaque run_worker.

(** ** The whole start *)

(** The container an event created. *)
Definition created (e : devent) : option string :=
  match projT1 e as c return dresp c -> option string with
  | ContainerCreate _ => fun r => match r with Ok (id, _) => Some id | Err _ => None end
  | _ => fun _ => None
  end (projT2 e).

Definition is_created (e : devent) : bool := match created e with Some _ => true | None => false end.

Lemma created_create e : is_create e = false -> created e = None.
Proof. destruct e as [[] r]; try done. Qed.

Lemma created_lifecycle e : is_lifecycle e = false -> created e = None.
Proof. destruct e as [[] r]; try done. Qed.

(** A start that ends before a container exists. *)
Definition never_created (tr : list devent) (res : result error Worker) : Prop :=
  Forall (fun e => is_start e = false) tr /\ Forall (fun e => is_stream e = false) tr /\ Forall (fun e => is_remove e = false) tr
  /\ Forall (fun e => created e = None) tr /\ exists e, res = Err e /\ RunnerStartMayBeActive e = false.

Lemma never_created_free tr e : free tr -> never_created tr (Err (safeWorkerStartError e)).
Proof.
  intros Htr. unfold never_created. repeat split; [eapply free_not; [|exact Htr]; intros x; apply lifecycle_cases..| |].
  - eapply Forall_impl; [exact Htr|]. apply created_lifecycle.
  - by exists (safeWorkerStartError e).
Qed.

Lemma start_worker_runs r tr res :
  iruns (start_worker o r) tr res ->
  never_created tr res
  \/ exists pre at_ sec id warnings post,
       free pre
       /\ tr = pre ++ ev Clock at_ :: ev (ContainerCreate (create_options o r sec at_)) (Ok (id, warnings)) :: post
       /\ iruns (run_worker r at_ id warnings) post res.
Proof.
  unfold start_worker. intros Hr. destruct (validateLimits r) as [e|]; [inv_runs; left; apply never_created_free; constructor|].
  apply iruns_bind_inv in Hr as (tr1 & tr2 & invalid & H1 & Hr & ->). apply validateEngine_avoids in H1.
  destruct invalid as [e|]; [inv_runs; left; rewrite app_nil_r; by apply never_created_free|].
  apply iruns_bind_inv in Hr as (tr3 & tr4 & missing & H2 & Hr & ->). apply ensureImage_avoids in H2.
  assert (Hfree : free (tr1 ++ tr3)) by (by apply Forall_app_2).
  rewrite app_assoc. set (pre := tr1 ++ tr3) in *. clearbody pre. clear H1 H2.
  destruct missing as [e|]; [inv_runs; left; rewrite app_nil_r; by apply never_created_free|].
  destruct (jit_runnerID (sw_JITConfig r) <=? 0); [inv_runs; left; rewrite app_nil_r; by apply never_created_free|].
  destruct (_ || _); [inv_runs; left; rewrite app_nil_r; by apply never_created_free|].
  destruct (workerSecurityOpt (sw_SeccompProfile r)) as [sec|e]; [|inv_runs; left; rewrite app_nil_r; by apply never_created_free].
  inv_runs. destruct r1 as [[id warnings]|e]; inv_runs.
  - right. eexists pre, r0, sec, id, warnings, _. by repeat split.
  - left. repeat split.
    1-3: apply Forall_app_2; [eapply free_not; [|exact Hfree]; intros x; apply lifecycle_cases|by repeat constructor].
    + apply Forall_app_2; [|by repeat constructor]. eapply Forall_impl; [exact Hfree|]. apply created_lifecycle.
    + eexists. split; [done|done].
Qed.

(** The whole of [Start] around a created container. *)
Lemma Docker_Start_runs r tr res :
  iruns (Docker_Start o r) tr res ->
  never_created tr res
  \/ exists pre at_ sec tier id warnings post suf,
       free pre /\ free suf
       /\ let r' := {| r with sw_ResourceTier := tier |} in
          tr = pre ++ ev (ContainerCreate (create_options o r' sec at_)) (Ok (id, warnings)) :: post ++ suf
          /\ Forall (fun e => created e = None) post /\ run_ok r id post res.
Proof.
  unfold Docker_Start. intros Hr. inv_runs. apply iruns_bind_inv in Hr as (tr1 & tr2 & res' & H1 & Hr & ->). inv_runs.
  assert (Hsuf : forall x y t z, free [ev Clock x; ev (TelemetryStarted y t (Sub x r0) z) tt]) by (intros; by repeat constructor).
  apply start_worker_runs in H1 as [(Hs & Hst & Hrm & Hc & He)|(pre & at_ & sec & id & warnings & post & Hpre & -> & Hpost)].
  - left. repeat split; try done; (constructor; [done|]); (apply Forall_app_2; [assumption|by repeat constructor]).
  - right. eexists (ev Clock r0 :: pre ++ [ev Clock at_]), at_, sec, _, id, warnings, post, _.
    split; [constructor; [done|]; by apply Forall_app_2; [|repeat constructor]|].
    split; [|split; [rewrite <- !app_assoc; simpl; rewrite <- !app_assoc; reflexivity|]]; [by repeat constructor|].
    split; [|by apply run_worker_runs in Hpost]. eapply Forall_impl; [by eapply run_worker_creates|apply created_create].
Qed.

Lemma handed_over_mono id pre post suf : free pre -> free suf -> forall e, is_remove e = false ->
  handed_over id post -> handed_over id (pre ++ e :: post ++ suf).
Proof.
  intros Hpre Hsuf e He ([a Ha] & [b Hb] & Hrm). split; [exists a; set_solver|]. split; [exists b; set_solver|].
  apply Forall_app_2; [eapply free_not; [|exact Hpre]; intros x; apply lifecycle_cases|]. constructor; [done|].
  apply Forall_app_2; [done|]. eapply free_not; [|exact Hsuf]. intros x. apply lifecycle_cases.
Qed.

(** C3: What a start leaves behind.  A failure that promises the runner is not
    active has started nothing, and every container it created was force-removed.
    Any other outcome leaves the created container started, watched and not
    removed; success also streamed the whole configuration to it. *)
Theorem start_leaves_no_ambiguity r tr res :
  iruns (Docker_Start o r) tr res ->
  match res with
  | Err e =>
      if RunnerStartMayBeActive e
      then exists id, (exists c, c ∈ tr /\ created c = Some id) /\ handed_over id tr
      else Forall (fun e => is_start e = false) tr
           /\ forall c id, c ∈ tr -> created c = Some id -> exists a, ev (ContainerRemove id true true) a ∈ tr
  | Ok w =>
      handed_over (w_ID w) tr /\ ev (ContainerStart (w_ID w)) None ∈ tr
      /\ ev (StreamWrite (w_ID w) (jit_encoded (sw_JITConfig r))) (Z.of_nat (String.length (jit_encoded (sw_JITConfig r))), None) ∈ tr
  end.
Proof.
  intros [(Hs & _ & _ & Hc & e & -> & He)|(pre & at_ & sec & tier & id & warnings & post & suf & Hpre & Hsuf & Htr & Hone & Hstream & Hok)]%Docker_Start_runs.
  { rewrite He. split; [done|]. intros c id Hin Hid. rewrite Forall_forall in Hc. apply Hc in Hin. congruence. }
  set (cr := ev (ContainerCreate _) _) in Htr. simpl in Htr. rewrite Htr.
  assert (Hcr : created cr = Some id) by done. assert (Hrm : is_remove cr = false) by done. assert (Hst : is_start cr = false) by done.
  clearbody cr. destruct res as [w|e].
  - destruct Hok as (<- & Hho & Hstart & Hsent). split; [by apply handed_over_mono|]. split; set_solver.
  - destruct (RunnerStartMayBeActive e).
    + exists id. split; [exists cr; split; [set_solver|done]|by apply handed_over_mono].
    + destruct Hok as ([a Ha] & Hns & _). split.
      * apply Forall_app_2; [eapply free_not; [|exact Hpre]; intros x; apply lifecycle_cases|]. constructor; [done|].
        apply Forall_app_2; [done|]. eapply free_not; [|exact Hsuf]. intros x. apply lifecycle_cases.
      * intros c id' Hin Hid'. exists a. assert (id' = id) as ->; [|set_solver].
        assert (Hno : forall l, c ∈ l -> Forall (fun e => created e = None) l -> False).
        { intros l Hl Hf. rewrite Forall_forall in Hf. apply Hf in Hl. congruence. }
        rewrite elem_of_app, elem_of_cons, elem_of_app in Hin. destruct Hin as [Hin|[->|[Hin|Hin]]]; [|congruence|by destruct (Hno post)|].
        -- destruct (Hno pre Hin). eapply Forall_impl; [exact Hpre|apply created_lifecycle].
        -- destruct (Hno suf Hin). eapply Forall_impl; [exact Hsuf|apply created_lifecycle].
Qed.

Definition with_tier (tier : string) (r : StartWorkerRequest) : StartWorkerRequest := {| r with sw_ResourceTier := tier |}.

(** The request with the secret taken out. *)
Definition without_secret (r : StartWorkerRequest) : StartWorkerRequest :=
  {| r with sw_JITConfig := mkJITConfig "" (jit_runnerID (sw_JITConfig r)) |}.

(** The runner's configuration, a secret, is written nowhere but into the
    stream of the created container, after that container has started, and the
    options a container is created with are a function of the rest of the
    request. *)
Theorem secret_goes_to_started_container r tr res before e after :
  iruns (Docker_Start o r) tr res -> tr = before ++ e :: after ->
  (is_stream e = true ->
   exists id, (exists c, c ∈ before /\ created c = Some id) /\ ev (ContainerStart id) None ∈ before
     /\ (projT1 e = StreamWrite id (jit_encoded (sw_JITConfig r)) \/ projT1 e = StreamWrite id (String newline_byte "")))
  /\ (created e <> None ->
      exists tier sec at_, projT1 e = ContainerCreate (create_options o (with_tier tier (without_secret r)) sec at_)).
Proof.
  intros [(_ & Hst & _ & Hc & _)|(pre & at_ & sec & tier & id & warnings & post & suf & Hpre & Hsuf & Htr & Hone & Hstream & _)]%Docker_Start_runs Heq.
  { rewrite Heq in Hst, Hc. rewrite Forall_app, Forall_cons in Hst, Hc. destruct Hst as (_ & Hf & _), Hc as (_ & Hn & _).
    rewrite Hf, Hn. by split. }
  assert (Hfs : forall l, free l -> Forall (fun x => is_stream x = false) l).
  { intros l Hl. eapply free_not; [|exact Hl]. intros x. apply lifecycle_cases. }
  assert (Hfc : forall l, free l -> Forall (fun x => is_created x = false) l).
  { intros l Hl. eapply Forall_impl; [exact Hl|]. intros x Hx%created_lifecycle. unfold is_created. by rewrite Hx. }
  set (cr := ev (ContainerCreate _) _) in Htr. cbv zeta in Htr. rewrite Htr in Heq.
  assert (Hcr : created cr = Some id) by done. assert (Hns : is_stream cr = false) by done.
  assert (Hopt : projT1 cr = ContainerCreate (create_options o (with_tier tier (without_secret r)) sec at_)) by done.
  clearbody cr. split.
  - intros He. exists id. rewrite cons_middle, app_assoc in Heq.
    destruct (skip_prefix is_stream _ _ _ _ e (Forall_app_2 _ _ _ (Hfs _ Hpre) (Forall_cons_2 _ _ _ Hns (Forall_nil_2 _))) He Heq) as (b & -> & Hb).
    destruct (skip_suffix is_stream _ _ _ _ e (Hfs _ Hsuf) He Hb) as [a' Ha]. destruct (Hstream b e a' Ha He) as [Hin Hcall].
    split; [exists cr; set_solver|]. split; [set_solver|done].
  - intros He'. assert (He : is_created e = true) by (unfold is_created; by destruct (created e)). exists tier, sec, at_.
    destruct (skip_prefix is_created _ _ _ _ e (Hfc _ Hpre) He Heq) as (b & -> & Hb).
    destruct b as [|x b]; injection Hb as <- Hb; [done|]. exfalso.
    destruct (created e) as [i|] eqn:Hce; [|done].
    assert (Hall : Forall (fun x => created x = None) (post ++ suf)).
    { apply Forall_app_2; [done|]. eapply Forall_impl; [exact Hsuf|apply created_lifecycle]. }
    rewrite Hb, Forall_app, Forall_cons in Hall. destruct Hall as (_ & Hn & _). congruence.
Qed.

(** ** Removing an idle worker *)

(** The state file was read from the container and says idle. *)
Definition read_idle (id : string) (tr : list devent) : Prop :=
  exists a, ev (CopyFromContainer id (op_StatePath o)) (Ok a) ∈ tr /\ (archived_state id a).1 = Ok "idle".

Lemma readWorkerState_runs id tr r :
  iruns (readWorkerState o id) tr r -> free tr /\ (r = Ok "idle" -> read_idle id tr).
Proof.
  intros Hr. split; [by eapply readWorkerState_avoids|]. intros ->. revert Hr. unfold readWorkerState. intros Hr. inv_runs.
  destruct r as [a|e]; simpl in Hr; [|by inv_runs]. exists a. split; [by left|].
  destruct (archived_state id a) as [state diagnostic]. simpl.
  apply iruns_bind_inv in Hr as (tr1 & tr2 & [] & _ & Hr & ->). inv_runs. by destruct r, state; simplify_eq/=.
Qed.

Lemma idle_word state : String.eqb state "idle" = true -> state = "idle".
Proof. by intros ->%String.eqb_eq. Qed.

#[local] Opaque readWorkerState.

(** A stop is preceded by two readings of the state with the whole confirmation
    window between them. *)
Definition confirmed_idle (id : string) (before : list devent) : Prop :=
  exists t1 t2 t3, before = t1 ++ ev (IdleTimer (op_IdleConfirmationWindow o)) None :: t2 ++ t3 /\ read_idle id t1 /\ read_idle id t2.

Lemma RemoveIfIdle_runs id tr res :
  iruns (RemoveIfIdle o id) tr res ->
  Forall (fun e => is_remove e = false) tr
  /\ (Forall (fun e => is_stop e = false) tr
      \/ exists before a after, tr = before ++ ev (ContainerStop id (-1)) a :: after /\ res <> Ok false /\ confirmed_idle id before
           /\ Forall (fun e => is_stop e = false) before /\ Forall (fun e => is_stop e = false) after).
Proof.
  unfold RemoveIfIdle. intros Hr.
  assert (Hfree : forall l, free l -> Forall (fun e => is_remove e = false) l /\ Forall (fun e => is_stop e = false) l).
  { intros l Hl. split; (eapply free_not; [|exact Hl]); intros x; apply lifecycle_cases. }
  apply iruns_bind_inv in Hr as (tr1 & tr2 & first & H1 & Hr & ->). apply readWorkerState_runs in H1 as [[Hr1 Hs1]%Hfree Hi1].
  destruct first as [state|e]; [|inv_runs; rewrite app_nil_r; auto].
  destruct (String.eqb state "idle") eqn:Hidle; simpl in Hr; [apply idle_word in Hidle as ->|inv_runs; rewrite app_nil_r; auto].
  inv_runs. destruct r as [e|]; inv_runs; [split; [by apply Forall_app_2; [|repeat constructor]|left; by apply Forall_app_2; [|repeat constructor]]|].
  apply iruns_bind_inv in Hr as (tr3 & tr4 & second & H2 & Hr & ->). apply readWorkerState_runs in H2 as [[Hr2 Hs2]%Hfree Hi2].
  assert (Hmid : Forall (fun e => is_remove e = false) (tr1 ++ ev (IdleTimer (op_IdleConfirmationWindow o)) None :: tr3)
              /\ Forall (fun e => is_stop e = false) (tr1 ++ ev (IdleTimer (op_IdleConfirmationWindow o)) None :: tr3)).
  { split; (apply Forall_app_2; [done|by constructor]). }
  destruct second as [state|e]; [|inv_runs; rewrite app_nil_r; split; [apply Hmid|left; apply Hmid]].
  destruct (String.eqb state "idle") eqn:Hidle; simpl in Hr;
    [apply idle_word in Hidle as ->|inv_runs; rewrite app_nil_r; split; [apply Hmid|left; apply Hmid]].
  apply iruns_bind_inv in Hr as (tr5 & tr6 & [] & H3 & Hr & ->). apply ensureWatch_avoids in H3. apply Hfree in H3 as [Hr3 Hs3].
  apply iruns_inv in Hr as (r & after & -> & Hr). simpl in Hr.
  assert (Hend : res <> Ok false /\ Forall (fun e => is_remove e = false) after /\ Forall (fun e => is_stop e = false) after).
  { destruct r as [e|]; [destruct (IsNotFound e); simpl in Hr|]; inv_runs; (split; [|by repeat constructor]); by try destruct r. }
  destruct Hend as (Hres & Hra & Hsa).
  replace (tr1 ++ _ :: tr3 ++ tr5 ++ ev (ContainerStop id (-1)) r :: after)
    with ((tr1 ++ ev (IdleTimer (op_IdleConfirmationWindow o)) None :: tr3 ++ tr5) ++ ev (ContainerStop id (-1)) r :: after)
    by (rewrite <- !app_assoc; simpl; by rewrite <- !app_assoc). split.
  - rewrite !Forall_app, !Forall_cons, !Forall_app. tauto.
  - right. eexists _, r, after. split; [done|]. split; [done|]. split; [exists tr1, tr3, tr5; auto|].
    split; [|done]. rewrite !Forall_app, !Forall_cons, !Forall_app. tauto.
Qed.

(** C11: A worker is stopped as idle only after two readings of its own state file
    said idle with the whole confirmation window between them, and then without
    a deadline that would kill it; when the answer is that it was not idle
    nothing was stopped, and nothing is ever removed by force. *)
Theorem idle_confirmed_before_stop id tr res :
  iruns (RemoveIfIdle o id) tr res ->
  (res = Ok false -> Forall (fun e => is_stop e = false) tr)
  /\ Forall (fun e => is_remove e = false) tr
  /\ forall before e after, tr = before ++ e :: after -> is_stop e = true ->
       projT1 e = ContainerStop id (-1) /\ confirmed_idle id before.
Proof.
  intros [Hrm [Hno|(b & a & af & -> & Hres & Hconf & Hb & Haf)]]%RemoveIfIdle_runs.
  - split; [done|]. split; [done|]. intros before e after -> He. rewrite Forall_app, Forall_cons in Hno.
    destruct Hno as (_ & Hf & _). by rewrite Hf in He.
  - split; [done|]. split; [done|]. intros before e after Heq He.
    by destruct (split_unique is_stop _ _ _ _ _ e Hb Haf He Heq) as (-> & -> & _).
Qed.

(** ** Finalization *)

Lemma collect_logs_runs id tr marker :
  iruns (collect_logs id) tr (marker, None) -> exists c, ev (AwaitLogs id) (Some c) ∈ tr /\ lr_err c = None.
Proof.
  unfold collect_logs. intros Hr. inv_runs. destruct r as [c|].
  - exists c. split; [by left|]. apply iruns_bind_inv in Hr as (tr1 & tr2 & [] & _ & Hr & ->). inv_runs. by destruct (lr_err c).
  - exfalso. inv_runs. repeat (case_match; inv_runs); by simplify_eq/=.
Qed.

Lemma persist_evidence_runs m evidence tr e b :
  iruns (persist_evidence m evidence) tr (e, b, None) -> ev (WriteResourceEvidence m e) (Ok b) ∈ tr.
Proof.
  unfold persist_evidence. intros Hr. inv_runs. destruct r as [c|]; [destruct (String.eqb _ _)|]; inv_runs; [|].
  all: destruct r as [b'|]; simplify_eq/=; right; by left.
Qed.

Lemma captureResourceEvidence_runs id m marker tr e b :
  iruns (captureResourceEvidence o id m marker) tr (e, b, None) -> ev (WriteResourceEvidence m e) (Ok b) ∈ tr.
Proof.
  unfold captureResourceEvidence. intros Hr. destruct marker as [ev0|]; [by apply persist_evidence_runs in Hr|].
  inv_runs. destruct r as [c|]; inv_runs. apply iruns_bind_inv in Hr as (tr1 & tr2 & [evidence failed] & _ & Hr & ->).
  destruct failed; inv_runs. apply persist_evidence_runs in Hr. set_solver.
Qed.

Lemma captureDiagnostics_runs id m tr :
  iruns (captureDiagnostics o id m) tr None ->
  exists a, ev (CopyFromContainer id (op_DiagnosticPath o)) (Ok a) ∈ tr /\ ev (WriteDiagnostics m a) None ∈ tr.
Proof.
  unfold captureDiagnostics. intros Hr. inv_runs. destruct r as [a|e]; inv_runs. exists a. split; [by left|].
  destruct r as [e|]; [done|]. right. by left.
Qed.

(** Everything a container leaves is stored under its metadata. *)
Definition artifacts_stored (id : string) (before : list devent) : Prop :=
  exists m captured evidence recorded archive,
    am_ContainerID m = id
    /\ (ev (AwaitLogs id) (Some captured) ∈ before /\ lr_err captured = None)
    /\ ev (WriteResourceEvidence m evidence) (Ok recorded) ∈ before
    /\ (ev (CopyFromContainer id (op_DiagnosticPath o)) (Ok archive) ∈ before /\ ev (WriteDiagnostics m archive) None ∈ before)
    /\ ev (FinalizeArtifacts m) None ∈ before.

(** A run with no life-cycle event, or with one unforced removal. *)
Definition removed_once (id : string) (P : list devent -> Prop) (tr : list devent) : Prop :=
  free tr \/ exists before a after, tr = before ++ ev (ContainerRemove id false true) a :: after /\ free before /\ free after /\ P before.

Lemma removed_once_app id (P Q : list devent -> Prop) tr0 tr :
  free tr0 -> removed_once id P tr -> (forall b, P b -> Q (tr0 ++ b)) -> removed_once id Q (tr0 ++ tr).
Proof.
  intros H0 [Hf|(b & a & af & -> & Hb & Haf & Hp)] HPQ; [left; by apply Forall_app_2|right].
  exists (tr0 ++ b), a, af. rewrite app_assoc. repeat split; try done; [by apply Forall_app_2|auto].
Qed.

Lemma removed_once_suffix id P tr suf : free suf -> removed_once id P tr -> removed_once id P (tr ++ suf).
Proof.
  intros Hs [Hf|(b & a & af & -> & Hb & Haf & Hp)]; [left; by apply Forall_app_2|right].
  exists b, a, (af ++ suf). rewrite <- app_assoc. repeat split; try done. by apply Forall_app_2.
Qed.

Lemma metadata_id id tr m : iruns (metadata id) tr m -> am_ContainerID m = id.
Proof.
  unfold metadata. intros (r & t & -> & Hr)%iruns_inv. apply iruns_inv in Hr as [_ ->]. destruct r as [i|e]; [destruct (ci_Labels i)|]; done.
Qed.

Lemma store_artifacts_runs id f tr out : iruns (store_artifacts o id f) tr out -> removed_once id (artifacts_stored id) tr.
Proof.
  unfold store_artifacts. intros Hr.
  apply iruns_bind_inv in Hr as (t1 & tr1 & [marker failed1] & H1 & Hr & ->).
  pose proof (collect_logs_avoids _ _ _ H1) as F1.
  apply iruns_bind_inv in Hr as (t2 & tr2 & m & H2 & Hr & ->). apply metadata_avoids in H2 as F2. apply metadata_id in H2 as Hid.
  apply iruns_bind_inv in Hr as (t3 & tr3 & [[evidence recorded] everr] & H3 & Hr & ->).
  pose proof (captureResourceEvidence_avoids _ _ _ _ _ H3) as F3.
  apply iruns_bind_inv in Hr as (t4 & tr4 & [] & H4 & Hr & ->). apply report_avoids in H4 as F4.
  apply iruns_bind_inv in Hr as (t5 & tr5 & diagerr & H5 & Hr & ->). pose proof (captureDiagnostics_avoids _ _ _ _ H5) as F5.
  apply iruns_bind_inv in Hr as (t6 & tr6 & [] & H6 & Hr & ->). apply report_avoids in H6 as F6.
  assert (Hpre : free (t1 ++ t2 ++ t3 ++ t4 ++ t5 ++ t6)) by (by repeat apply Forall_app_2).
  replace (t1 ++ t2 ++ t3 ++ t4 ++ t5 ++ t6 ++ tr6) with ((t1 ++ t2 ++ t3 ++ t4 ++ t5 ++ t6) ++ tr6) by (by rewrite <- !app_assoc).
  apply (removed_once_app _ (fun b => exists a, b = [ev (FinalizeArtifacts m) a] /\ a = None /\ failed1 = None /\ everr = None /\ diagerr = None)); [done| |].
  - destruct diagerr, everr, failed1; cbv zeta in Hr; unfold errors_Join in Hr; simpl in Hr; try (inv_runs; left; constructor; fail).
    apply iruns_inv in Hr as (r & t7 & -> & Hr). simpl in Hr. destruct r as [e|].
    + inv_runs. left. by repeat constructor.
    + apply iruns_inv in Hr as (r & t8 & -> & Hr). right. exists [ev (FinalizeArtifacts m) None], r, t8.
      split; [done|]. split; [by repeat constructor|]. split; [|by exists None].
      destruct r as [e|]; [destruct (IsNotFound e)|]; inv_runs; by repeat constructor.
  - intros b (a & -> & -> & -> & -> & ->). apply collect_logs_runs in H1 as (c & Hc & Hce).
    apply captureResourceEvidence_runs in H3. apply captureDiagnostics_runs in H5 as (ar & Har & Hw).
    exists m, c, evidence, recorded, ar. repeat split; try done; set_solver.
Qed.

(** The wait for the container's exit is over: Docker reported its exit status, or
    closed both channels of the wait without one, or an inspection after a failed wait
    showed it not running. *)
Definition wait_over (id : string) (before : list devent) : Prop :=
  (exists status, ev (WaitEvent id) (WaitResult status) ∈ before)
  \/ (ev (WaitEvent id) WaitResultClosed ∈ before /\ ev (WaitEvent id) WaitErrorClosed ∈ before)
  \/ (exists i code, ev (ContainerInspect id) (Ok i) ∈ before /\ ci_State i = Some (false, code)).

Lemma wait_over_app id tr0 b : wait_over id tr0 -> wait_over id (tr0 ++ b).
Proof.
  intros [[status Hs]|[[H1 H2]|(i & code & Hi & Hc)]]; [left; exists status|right; left|right; right; exists i, code]; set_solver.
Qed.

Lemma artifacts_stored_app id tr0 b : artifacts_stored id b -> artifacts_stored id (tr0 ++ b).
Proof.
  intros (m & c & e & r & a & Hid & [Hc Hce] & He & [Ha Hw] & Hf). exists m, c, e, r, a. repeat split; try done; set_solver.
Qed.

Lemma await_exit_runs fuel id r e tr w :
  iruns (await_exit fuel id r e) tr (Some w) ->
  match w with
  | ExitCode status => ev (WaitEvent id) (WaitResult status) ∈ tr
  | ChannelsClosed => (r = true -> ev (WaitEvent id) WaitResultClosed ∈ tr) /\ (e = true -> ev (WaitEvent id) WaitErrorClosed ∈ tr)
  | _ => True
  end.
Proof.
  revert r e tr. induction fuel as [|fuel IH]; intros r e tr Hr.
  { simpl in Hr. destruct (negb r && negb e) eqn:Hn; inv_runs. by destruct r, e. }
  simpl in Hr. destruct (negb r && negb e) eqn:Hn; [inv_runs; by destruct r, e|]. inv_runs.
  assert (Hrec : forall r' e' t, iruns (await_exit fuel id r' e') t (Some w) -> forall x, (r = true -> r' = true \/ x = ev (WaitEvent id) WaitResultClosed) ->
    (e = true -> e' = true \/ x = ev (WaitEvent id) WaitErrorClosed) ->
    match w with
    | ExitCode status => ev (WaitEvent id) (WaitResult status) ∈ x :: t
    | ChannelsClosed => (r = true -> ev (WaitEvent id) WaitResultClosed ∈ x :: t) /\ (e = true -> ev (WaitEvent id) WaitErrorClosed ∈ x :: t)
    | _ => True
    end).
  { intros r' e' t Hrun first Hx1 Hx2. apply IH in Hrun. destruct w; [by right|done| |done]. destruct Hrun as [G1 G2].
    split; [intros [G| ->]%Hx1|intros [G| ->]%Hx2]; [right; auto|by left|right; auto|by left]. }
  destruct r0 as [err|status| |[err|]|]; [by inv_runs|destruct r; [inv_runs; by left|]| |destruct e; [by inv_runs|]| |]; eapply Hrec; eauto.
Qed.

Lemma finalize_exit_runs id f w tr0 tr out :
  free tr0 ->
  match w with
  | ExitCode status => ev (WaitEvent id) (WaitResult status) ∈ tr0
  | ChannelsClosed => ev (WaitEvent id) WaitResultClosed ∈ tr0 /\ ev (WaitEvent id) WaitErrorClosed ∈ tr0
  | _ => True
  end ->
  iruns (finalize_exit o id f w) tr out -> removed_once id (fun b => artifacts_stored id b /\ wait_over id b) (tr0 ++ tr).
Proof.
  intros H0 Hw Hr. unfold finalize_exit in Hr.
  assert (Hstore : forall f' tr0 t, free tr0 -> iruns (store_artifacts o id f') t out -> wait_over id tr0 ->
    removed_once id (fun b => artifacts_stored id b /\ wait_over id b) (tr0 ++ t)).
  { intros f' tr0' t Hf Hrun Hk. eapply removed_once_app; [done|by eapply store_artifacts_runs|].
    intros b Hb. split; [by apply artifacts_stored_app|by apply wait_over_app]. }
  destruct w as [status|err| |err].
  - eapply Hstore; [done|exact Hr|]. left. by exists status.
  - cbv zeta in Hr. apply iruns_inv in Hr as (info & t1 & -> & Hr).
    assert (Hleft : iruns (let^ _ := report (Some (ErrWrap "wait for worker exit" err)) in IRet (f, Some (ErrWrap "wait for worker exit" err))) t1 out ->
      removed_once id (fun b => artifacts_stored id b /\ wait_over id b) (tr0 ++ ev (ContainerInspect id) info :: t1)).
    { intros Hrun. left. apply Forall_app_2; [done|]. constructor; [done|].
      revert Hrun. apply avoids_ibind; [apply report_avoids|intros; apply avoids_ret]. }
    simpl in Hr. destruct info as [i|e].
    + destruct (ci_State i) as [[[] code]|] eqn:Hstate; [by apply Hleft| |by apply Hleft].
      rewrite cons_middle, app_assoc. eapply Hstore; [|exact Hr|]; [apply Forall_app_2; [done|by repeat constructor]|].
      right. right. exists i, code. split; [set_solver|done].
    + destruct (IsNotFound e); [|by apply Hleft]. inv_runs. left. apply Forall_app_2; [done|by repeat constructor].
  - eapply Hstore; [done|exact Hr|]. right. by left.
  - inv_runs. left. by rewrite app_nil_r.
Qed.

(** The finalizer by itself, with any answers about the logs. *)
Lemma finalize_removes_once fuel id tr res :
  iruns (finalize o fuel id) tr res -> removed_once id (fun b => artifacts_stored id b /\ wait_over id b) tr.
Proof.
  unfold finalize. intros Hr. apply iruns_inv in Hr as (begun & t1 & -> & Hr). cbn [ibind] in Hr.
  apply iruns_bind_inv in Hr as (t2 & t3 & m & H2 & Hr & ->). apply metadata_avoids in H2.
  apply iruns_inv in Hr as ([] & t4 & -> & Hr). cbn [ibind] in Hr.
  apply iruns_bind_inv in Hr as (t5 & t6 & w & H5 & Hr & ->). pose proof (await_exit_avoids _ _ _ _ _ _ H5) as F5.
  set (pre := ev Clock begun :: t2 ++ ev (SpawnLogCapture id) () :: t5).
  assert (Hpre : free pre) by (unfold pre; constructor; [done|]; apply Forall_app_2; [done|by constructor]).
  replace (ev Clock begun :: t2 ++ ev (SpawnLogCapture id) () :: t5 ++ t6) with (pre ++ t6)
    by (unfold pre; simpl; by rewrite <- app_assoc).
  destruct w as [w|]; [|inv_runs; left; by rewrite app_nil_r].
  apply iruns_bind_inv in Hr as (t7 & t8 & [f err] & H7 & Hr & ->). rewrite app_assoc. apply removed_once_suffix.
  - inv_runs. by repeat constructor.
  - eapply finalize_exit_runs; [done| |exact H7]. apply await_exit_runs in H5. destruct w; try done; [set_solver|].
    destruct H5 as [G1 G2]. specialize (G1 eq_refl). specialize (G2 eq_refl). set_solver.
Qed.

(** The log of the container was stored: its file opened, the container's stream
    opened and copied to the end, and both closed, which publishes the file, all
    without an error. *)
Definition log_stored (id : string) (before : list devent) : Prop :=
  exists m writes, am_ContainerID m = id /\ ev (OpenLog m) None ∈ before /\ ev (ContainerLogs id) None ∈ before
    /\ ev (CopyLogs id) (writes, None) ∈ before /\ ev (CloseLogs id) None ∈ before /\ ev (CloseLog m) None ∈ before.

Lemma log_stored_mono id before before' : log_stored id before -> before ⊆ before' -> log_stored id before'.
Proof. intros (m & w & Hid & H1 & H2 & H3 & H4 & H5) Hsub. exists m, w. split_and!; auto. Qed.

Lemma captureLogs_runs id tr c : iruns (captureLogs id) tr c -> lr_err c = None -> log_stored id tr.
Proof.
  unfold captureLogs. intros Hr Herr. apply iruns_bind_inv in Hr as (t1 & t2 & m & H1 & Hr & ->). apply metadata_id in H1.
  apply iruns_inv in Hr as (opened & t3 & -> & Hr). destruct opened as [e|]; [by apply iruns_inv in Hr as [_ ->]|].
  apply iruns_inv in Hr as (streamed & t4 & -> & Hr). cbn [ibind] in Hr. destruct streamed as [e|].
  { apply iruns_inv in Hr as (closed & t5 & -> & Hr). apply iruns_inv in Hr as [_ ->]. cbn [lr_err] in Herr.
    apply errors_Join_none in Herr. by apply Forall_cons in Herr as [? _]. }
  apply iruns_inv in Hr as ([writes copyErr] & t5 & -> & Hr). cbn [ibind] in Hr.
  apply iruns_inv in Hr as (closedLogs & t6 & -> & Hr). cbn [ibind] in Hr.
  apply iruns_inv in Hr as (closedLog & t7 & -> & Hr). apply iruns_inv in Hr as [-> ->]. cbn [lr_err] in Herr.
  apply errors_Join_none in Herr. rewrite !Forall_cons in Herr. destruct Herr as (E1 & E2 & E3 & _).
  destruct copyErr, closedLogs, closedLog; try done. exists m, writes. split_and!; [done|set_solver..].
Qed.

(** *** The two goroutines together *)

(** The events of one goroutine within those of both, the others' being [P]. *)
Inductive woven (P : devent -> Prop) : list devent -> list devent -> Prop :=
  | woven_nil : woven P [] []
  | woven_own e own tr : woven P own tr -> woven P (e :: own) (e :: tr)
  | woven_other e own tr : P e -> woven P own tr -> woven P own (e :: tr).

Lemma woven_subset P own tr : woven P own tr -> own ⊆ tr.
Proof. induction 1; set_solver. Qed.

Lemma woven_Forall P (Q : devent -> Prop) own tr : (forall e, P e -> Q e) -> woven P own tr -> Forall Q own -> Forall Q tr.
Proof. intros HPQ Hw. induction Hw; intros Hq; [done| |constructor; auto]. apply Forall_cons in Hq as [? ?]. constructor; auto. Qed.

Lemma woven_split P own tr before e after :
  woven P own tr -> own = before ++ e :: after -> exists b a, tr = b ++ e :: a /\ woven P before b /\ woven P after a.
Proof.
  intros Hw. revert before. induction Hw as [|x own tr Hw IH|x own tr Hx Hw IH]; intros before Heq; [by destruct before| |].
  - destruct before as [|y before]; injection Heq as -> Heq; [subst; exists [], tr; split_and!; [done|constructor|done]|].
    destruct (IH before Heq) as (b & a & -> & Hb & Ha). exists (y :: b), a. split_and!; [done|by constructor|done].
  - destruct (IH before Heq) as (b & a & -> & Hb & Ha). exists (x :: b), a. split_and!; [done|by constructor|done].
Qed.

(** What the goroutine of the logs does: no life-cycle call and none of the handshake. *)
Definition aside_event (e : devent) : Prop := is_lifecycle e = false /\ handshake (projT1 e) = false.

Lemma captureLogs_aside id : emits aside_event (captureLogs id).
Proof.
  unfold captureLogs, metadata. cbn [ibind icall emits]. intros r. split; [done|]. intros opened. split; [done|]. destruct opened; [exact I|].
  cbn [emits]. intros streamed. split; [done|]. destruct streamed; cbn [emits]; [by intros closed; split|]. intros [writes copyErr]. split; [done|].
  cbn [emits]. intros closedLogs. split; [done|]. cbn [emits]. intros closedLog. by split.
Qed.

(** The goroutine's program [q] is what is left of [captureLogs] after the events [t]. *)
Definition remains (id : string) (t : list devent) (q : dprog logCaptureResult) : Prop :=
  emits aside_event q /\ forall t' c, iruns q t' c -> iruns (captureLogs id) (t ++ t') c.

Lemma remains_start id : remains id [] (captureLogs id).
Proof. split; [apply captureLogs_aside|]. by intros t' c. Qed.

Lemma remains_step id t c k r : remains id t (ICall c k) -> aside_event (ev c r) /\ remains id (t ++ [ev c r]) (k r).
Proof.
  intros [He Hl]. cbn [emits] in He. destruct (He r) as [Hc Hk]. split; [done|]. split; [done|].
  intros t' x Hr. rewrite <- app_assoc. apply Hl. by constructor.
Qed.

Lemma remains_end id t captured : remains id t (IRet captured) -> iruns (captureLogs id) t captured.
Proof. intros [_ Hl]. rewrite <- (app_nil_r t). apply Hl. constructor. Qed.

(** A run of both contains a run of the finalizer, and when the finalizer receives a
    result, a whole run of [captureLogs] with that result precedes. *)
Lemma with_log_capture_runs {A} id (p : dprog A) q tr a :
  with_log_capture id p q tr a ->
  forall h, match q with Some q => exists t, t ⊆ h /\ remains id t q | None => True end ->
  (exists own, iruns p own a /\ woven (fun e => is_lifecycle e = false) own tr)
  /\ forall b c after, tr = b ++ ev (AwaitLogs id) (Some c) :: after -> exists t, iruns (captureLogs id) t c /\ t ⊆ h ++ b.
Proof.
  induction 1 as [a q|k tr a _ IH|p c k r tr a _ IH|captured k tr a _ IH|k q tr a _ IH|captured k tr a _ IH|c k r q tr a Hc _ IH]; intros h Hq.
  - split; [exists []; split; constructor|]. intros b c after Heq. by destruct b.
  - destruct (IH (h ++ [ev (SpawnLogCapture id) ()])) as [(own & Hr & Hw) Hl]; [exists []; split; [set_solver|apply remains_start]|].
    split; [exists (ev (SpawnLogCapture id) () :: own); split; by constructor|].
    intros [|e b] c after Heq; [by apply (f_equal head) in Heq as [=]|]. injection Heq as <- ->.
    destruct (Hl b c after eq_refl) as (t & Ht & Hsub). exists t. split; [done|]. by rewrite <- app_assoc in Hsub.
  - destruct Hq as (t0 & Hsub0 & Hrem). apply (remains_step _ _ _ _ r) in Hrem as [[Hlife Hshake] Hrem].
    destruct (IH (h ++ [ev c r])) as [(own & Hr & Hw) Hl]; [exists (t0 ++ [ev c r]); split; [set_solver|done]|].
    split; [exists own; split; [done|by constructor]|].
    intros [|e b] c' after Heq; [apply (f_equal (fun l => projT1 <$> head l)) in Heq; injection Heq as ->; done|]. injection Heq as <- ->.
    destruct (Hl b c' after eq_refl) as (t & Ht & Hsub). exists t. split; [done|]. by rewrite <- app_assoc in Hsub.
  - destruct Hq as (t0 & Hsub0 & Hrem).
    destruct (IH (h ++ [ev (AwaitLogs id) (Some captured)])) as [(own & Hr & Hw) Hl]; [exists t0; split; [set_solver|done]|].
    split; [exists (ev (AwaitLogs id) (Some captured) :: own); split; by constructor|].
    intros [|e b] c' after Heq.
    + assert (c' = captured) as ->.
      { apply (f_equal (fun l : list devent => match head l with Some (existT (AwaitLogs _) r) => r | _ => None end)) in Heq. cbn in Heq. congruence. }
      exists t0. split; [by apply remains_end|]. by rewrite app_nil_r.
    + injection Heq as <- ->. destruct (Hl b c' after eq_refl) as (t & Ht & Hsub). exists t. split; [done|]. by rewrite <- app_assoc in Hsub.
  - destruct (IH (h ++ [ev (AwaitLogs id) None])) as [(own & Hr & Hw) Hl].
    { destruct q; [|done]. destruct Hq as (t0 & Hsub0 & Hrem). exists t0. split; [set_solver|done]. }
    split; [exists (ev (AwaitLogs id) None :: own); split; by constructor|].
    intros [|e b] c' after Heq.
    + apply (f_equal (fun l : list devent => match head l with Some (existT (AwaitLogs _) r) => r | _ => None end)) in Heq. by cbn in Heq.
    + injection Heq as <- ->. destruct (Hl b c' after eq_refl) as (t & Ht & Hsub). exists t. split; [done|]. by rewrite <- app_assoc in Hsub.
  - destruct Hq as (t0 & Hsub0 & Hrem).
    destruct (IH (h ++ [ev (LogsEnded id) captured])) as [(own & Hr & Hw) Hl]; [exists t0; split; [set_solver|done]|].
    split; [exists (ev (LogsEnded id) captured :: own); split; by constructor|].
    intros [|e b] c' after Heq; [by apply (f_equal (fun l => projT1 <$> head l)) in Heq|]. injection Heq as <- ->.
    destruct (Hl b c' after eq_refl) as (t & Ht & Hsub). exists t. split; [done|]. by rewrite <- app_assoc in Hsub.
  - destruct (IH (h ++ [ev c r])) as [(own & Hr & Hw) Hl].
    { destruct q; [|done]. destruct Hq as (t0 & Hsub0 & Hrem). exists t0. split; [set_solver|done]. }
    split; [exists (ev c r :: own); split; by constructor|].
    intros [|e b] c' after Heq; [apply (f_equal (fun l => projT1 <$> head l)) in Heq; injection Heq as ->; done|]. injection Heq as <- ->.
    destruct (Hl b c' after eq_refl) as (t & Ht & Hsub). exists t. split; [done|]. by rewrite <- app_assoc in Hsub.
Qed.

Lemma wait_over_mono id before before' : wait_over id before -> before ⊆ before' -> wait_over id before'.
Proof.
  intros [[status Hs]|[[H1 H2]|(i & code & Hi & Hc)]] Hsub; [left; exists status|right; left|right; right; exists i, code]; auto.
Qed.

Lemma artifacts_stored_mono id before before' : artifacts_stored id before -> before ⊆ before' -> artifacts_stored id before'.
Proof.
  intros (m & c & e & r & a & Hid & [Hc Hce] & He & [Ha Hw] & Hf) Hsub. exists m, c, e, r, a. repeat split; auto.
Qed.

(** C10: However the finalizer of a container and the goroutine that captures its log
    interleave, the container is removed at most once, never by force, and only after
    the wait for its exit was over, by its exit status, by the close of both channels
    of the wait or by an inspection that showed it not running, and after its log was
    opened, copied to the end and closed, its resource evidence and its diagnostics
    were written and the record of them finalized, all without an error and under
    metadata of this container; a container with any failure among these is left in
    place for a retry. *)
Theorem container_removed_after_artifacts fuel id tr res :
  with_log_capture id (finalize o fuel id) None tr res ->
  removed_once id (fun b => wait_over id b /\ log_stored id b /\ artifacts_stored id b) tr.
Proof.
  intros Hrun. destruct (with_log_capture_runs _ _ _ _ _ Hrun [] I) as [(own & Hown & Hw) Hlogs].
  apply finalize_removes_once in Hown as [Hf|(before & a & after & -> & Hb & Ha & Hst & Hover)].
  - left. by eapply woven_Forall; [|exact Hw|exact Hf].
  - right. destruct (woven_split _ _ _ _ _ _ Hw eq_refl) as (b & af & -> & Hwb & Hwa).
    exists b, a, af. split_and!; [done|by eapply woven_Forall; [|exact Hwb|exact Hb]|by eapply woven_Forall; [|exact Hwa|exact Ha]|..].
    + eapply wait_over_mono; [done|]. by eapply woven_subset.
    + destruct Hst as (m & c & e & r & ar & _ & [Hc Hce] & _). apply (woven_subset _ _ _ Hwb) in Hc.
      apply list_elem_of_split in Hc as (b1 & b2 & ->). rewrite <- app_assoc in Hlogs. cbn [app] in Hlogs.
      destruct (Hlogs b1 c _ eq_refl) as (t & Ht & Hsub). eapply log_stored_mono; [by eapply captureLogs_runs|]. set_solver.
    + eapply artifacts_stored_mono; [done|]. by eapply woven_subset.
Qed.

(** ** The inventory *)

Definition is_watch (e : devent) : bool := match projT1 e with RegisterWatch _ | SpawnFinalize _ => true | _ => false end.

Lemma report_watch e : avoids is_watch (report e).
Proof. unfold report. solve_avoids. Qed.
Lemma validateEngine_watch : avoids is_watch validateEngine.
Proof. unfold validateEngine. solve_avoids. Qed.
#[local] Transparent readWorkerState.
#[local] Hint Resolve report_watch validateEngine_watch : avoids.
Lemma readWorkerState_watch id : avoids is_watch (readWorkerState o id).
Proof. unfold readWorkerState, containerGoneOrNotRunning. solve_avoids. Qed.
#[local] Opaque readWorkerState.
#[local] Hint Resolve readWorkerState_watch : avoids.
Lemma workerFromContainer_watch c : avoids is_watch (workerFromContainer o c).
Proof. unfold workerFromContainer, readWorkerMemoryLimit. solve_avoids. Qed.
#[local] Hint Resolve workerFromContainer_watch : avoids.
Lemma list_workers_watch items : avoids is_watch (list_workers o items).
Proof. induction items; cbn [list_workers]; solve_avoids. Qed.

(** A worker is that of its container, and idle only if the container runs and
    its state file says so. *)
Definition represents (tr : list devent) (w : Worker) (c : ContainerSummary) : Prop :=
  w_ID w = cs_ID c /\ w_PoolID w = label (cs_Labels c) poolLabel /\ w_Name w = label (cs_Labels c) workerNameLabel
  /\ (w_State w = WorkerIdle -> cs_State c = "running" /\ read_idle (cs_ID c) tr).

Lemma represents_mono tr tr' w c : (forall e, e ∈ tr -> e ∈ tr') -> represents tr w c -> represents tr' w c.
Proof.
  intros Hsub (H1 & H2 & H3 & H4). split; [done|]. split; [done|]. split; [done|]. intros Hi.
  destruct (H4 Hi) as (Hrun & a & Ha & Hs). split; [done|]. exists a. auto.
Qed.

Lemma workerFromContainer_runs c tr w failed :
  iruns (workerFromContainer o c) tr (w, failed) ->
  represents tr w c.
Proof.
  unfold workerFromContainer, readWorkerMemoryLimit. intros Hr. cbv zeta in Hr.
  destruct (String.eqb_spec (cs_State c) "running") as [Hrun|]; cbn [negb] in Hr; [|by inv_runs].
  apply iruns_inv in Hr as (r & t1 & -> & Hr). cbn [ibind] in Hr.
  apply iruns_bind_inv in Hr as (t2 & t3 & read & H2 & Hr & ->). apply readWorkerState_runs in H2 as [_ Hread].
  destruct read as [state|e].
  - apply iruns_bind_inv in Hr as (t4 & t5 & [] & _ & Hr & ->). inv_runs.
    destruct (String.eqb state "idle") eqn:Hidle; [|destruct (_ || _)]; simplify_eq/=; repeat split; try done.
    apply idle_word in Hidle as ->. destruct (Hread eq_refl) as (a & Ha & Hs). exists a. split; [set_solver|done].
  - destruct (is_sentinel errWorkerStateUnavailable e); inv_runs; by repeat split.
Qed.

Lemma list_workers_runs items tr workers adopted :
  iruns (list_workers o items) tr (workers, adopted) ->
  adopted = map (fun c => metadataFromLabels (cs_ID c) (cs_Labels c)) items /\ Forall2 (represents tr) workers items.
Proof.
  revert tr workers adopted. induction items as [|c items IH]; intros tr workers adopted Hr; cbn [list_workers] in Hr; [by inv_runs|].
  apply iruns_bind_inv in Hr as (t1 & t2 & [w failed] & H1 & Hr & ->). apply workerFromContainer_runs in H1.
  apply iruns_bind_inv in Hr as (t3 & t4 & [] & H3 & Hr & ->). cbv zeta in Hr.
  apply iruns_bind_inv in Hr as (t5 & t6 & [ws ms] & H5 & Hr & ->). apply IH in H5 as [-> Hall]. inv_runs.
  split; [done|]. constructor.
  - apply (represents_mono t1); [set_solver|]. destruct failed; [|done]. destruct H1 as (? & ? & ? & _). by repeat split.
  - eapply Forall2_impl; [exact Hall|]. intros w' c'. apply represents_mono. set_solver.
Qed.

(** The inventory lists exactly the containers Docker returned for this host,
    takes none for idle without having read so from a running container, and
    registers no watch before all of them have been adopted as artifacts. *)
Theorem inventory_adopts_before_watching tr workers :
  iruns (Docker_List o) tr (Ok workers) ->
  exists items,
    ev (ContainerList [managedLabel +:+ "=true"; hostLabel +:+ "=" +:+ op_HostID o]) (Ok items) ∈ tr
    /\ Forall2 (represents tr) workers items
    /\ forall before e after, tr = before ++ e :: after -> is_watch e = true ->
         ev (AdoptAndCleanup (map (fun c => metadataFromLabels (cs_ID c) (cs_Labels c)) items)) None ∈ before.
Proof.
  unfold Docker_List. intros Hr. apply iruns_bind_inv in Hr as (t1 & t2 & invalid & H1 & Hr & ->). apply validateEngine_watch in H1.
  destruct invalid as [e|]; [by inv_runs|]. apply iruns_inv in Hr as (listed & t3 & -> & Hr). cbn [ibind] in Hr.
  destruct listed as [items|e]; [|by inv_runs]. exists items. split; [set_solver|].
  apply iruns_bind_inv in Hr as (t4 & t5 & [ws ms] & H4 & Hr & ->). pose proof (list_workers_watch _ _ _ H4) as F4.
  apply list_workers_runs in H4 as [-> Hall]. apply iruns_inv in Hr as (failed & t6 & -> & Hr). cbn [ibind] in Hr.
  destruct failed as [e|]; [by inv_runs|]. apply iruns_bind_inv in Hr as (t7 & t8 & [] & _ & Hr & ->). inv_runs.
  split; [eapply Forall2_impl; [exact Hall|]; intros w c; apply represents_mono; set_solver|].
  intros before e after Heq He. rewrite app_nil_r in Heq. set (adopt := ev (AdoptAndCleanup _) None) in *.
  replace (t1 ++ ev (ContainerList [managedLabel +:+ "=true"; hostLabel +:+ "=" +:+ op_HostID o]) (Ok items) :: t4 ++ adopt :: t7)
    with ((t1 ++ ev (ContainerList [managedLabel +:+ "=true"; hostLabel +:+ "=" +:+ op_HostID o]) (Ok items) :: t4 ++ [adopt]) ++ t7) in Heq
    by (rewrite <- !app_assoc; simpl; by rewrite <- !app_assoc).
  eapply (skip_prefix is_watch) in Heq as (b & -> & _); [|clear Heq|done].
  - set_solver.
  - apply Forall_app_2; [done|]. constructor; [done|]. by apply Forall_app_2; [|repeat constructor].
Qed.

(** ** The table of watches *)

Lemma if_bool_decide {A} (P Q : Prop) `{Decision P, Decision Q} (a b : A) :
  (P <-> Q) -> (if bool_decide P then a else b) = if bool_decide Q then a else b.
Proof. intros Hpq. by rewrite (bool_decide_ext P Q Hpq). Qed.

(** Whatever the interleaving of starts, inventories, stops and finalizers, no
    container ever has two finalizers at a time, and one that is watched has
    one. *)
Theorem one_finalizer_per_container t id :
  rtc watch_step no_watches t -> running t id = if bool_decide (id ∈ wt_watches t) then 1%nat else 0%nat.
Proof.
  intros Hrun. revert id. revert t Hrun.
  apply (rtc_ind_r (fun t => forall id, running t id = if bool_decide (id ∈ wt_watches t) then 1%nat else 0%nat)).
  - intros id. unfold running. simpl. by rewrite lookup_empty.
  - intros t t' _ Hstep IH id. destruct Hstep as [i t|i t Hpos].
    + unfold register_watch. case_bool_decide as Hin; [apply IH|]. unfold running at 1. simpl. rewrite lookup_insert.
      case_decide as Hi; [subst; rewrite (IH id), (bool_decide_eq_false_2 _ Hin); simpl; by rewrite bool_decide_eq_true_2 by set_solver|].
      fold (running t id). rewrite (IH id). apply if_bool_decide. set_solver.
    + unfold unregister_watch, running at 1. simpl. rewrite lookup_insert.
      case_decide as Hi; [subst; rewrite (IH id) in Hpos |- *; rewrite (bool_decide_eq_false_2 (id ∈ wt_watches t ∖ {[id]})) by set_solver; simpl; by case_bool_decide|].
      fold (running t id). rewrite (IH id). apply if_bool_decide. set_solver.
Qed.
End Facts.

(** ** Limits *)

(** Accepted memory limits reach Docker unchanged. *)
Lemma memory_limits_exact `{EvidenceText} o r sec at_ :
  validateLimits r = None -> 0 <= wp_Memory (sw_Limits r) ->
  let c := create_options o r sec at_ in
  cr_Memory c = wp_Memory (sw_Limits r) /\ cr_MemorySwap c = wp_MemorySwap (sw_Limits r) /\ 0 < cr_Memory c <= cr_MemorySwap c.
Proof.
  unfold validateLimits. do 4 (match goal with |- (if ?b then _ else _) = _ -> _ => destruct b eqn:?; [done|] end). intros _ H0.
  repeat match goal with Hb : (_ || _) = false |- _ => apply orb_false_iff in Hb as [? ?] end. zb. simpl. rewrite !wrap_i64_small; unfold is_i64, max_i64, min_i64 in *; lia.
Qed.

(** The largest accepted CPU count does not: as nanoseconds per second it rounds
    to 2^63, which wraps to the least integer. *)
Lemma nano_cpus_overflow_at_limit `{EvidenceText} o r sec at_ :
  wp_CPUs (sw_Limits r) = maximum_cpus -> f64_lt maximum_cpus (wp_CPUs (sw_Limits r)) = false /\ cr_NanoCPUs (create_options o r sec at_) = min_i64.
Proof. intros Hc. simpl. rewrite Hc. by vm_compute. Qed.

(** ** Witnesses *)

Module DockerSamples.
#[local] Instance sample_text : EvidenceText := {|
  decode_evidence := fun _ => Err (ErrNew "not JSON"); ends_after_value := fun _ => true; marshal_indent := fun _ => Ok "{}";
  parse_rfc3339 := fun _ => None; format_rfc3339 := fun _ => "2026-01-01T00:00:00Z" |}.
#[local] Instance sample_errdefs : Errdefs := {| IsNotFound := errors_Is "not found" |}.
#[local] Instance sample_profiles : Profiles := {|
  moby_document := None; moby_syscalls := Ok [Ok (mkRule ["clone"] 1 "clone-rule")]; user_ns_rules := [Ok "user-ns-rule"];
  encode_document := fun rules => Ok (GoText.Join "," rules) |}.

Definition host_options : Options :=
  mkOptions "host" "v1" "image" defaultStatePath defaultDiagPath defaultResourceEvidencePath 10 3 Second Second Second true.
Definition start_request : StartWorkerRequest :=
  mkStartWorkerRequest "pool-a" "runner-1" "" (mkJITConfig "secret" 9) (mkWorkerProfile f64_1 10 20 100) "userns".

(** An engine on which everything succeeds, with one idle worker that exits. *)
Definition engine (c : dcall) (_ : list devent) : dresp c :=
  match c with
  | Info => Ok ("linux", "x86_64")
  | ContainerList _ => Ok [mkSummary "c1" {[poolLabel := "pool-a"; workerNameLabel := "runner-1"]} "running" 0]
  | ContainerCreate _ => Ok ("c1", [])
  | StreamWrite _ bytes => (Z.of_nat (String.length bytes), None)
  | ContainerInspect _ => Ok (mkContainerInfo (Some (true, 0)) (Some 10) (Some {[poolLabel := "pool-a"]}))
  | CopyLogs _ => ([], None)
  | CopyFromContainer _ _ => Ok (mkArchive (Ok (true, 4)) (Ok "idle") false)
  | WaitEvent _ => WaitResult 0
  | RegisterWatch _ => true
  | AwaitLogs _ => Some (mkLogCapture None None)
  | LogsEnded _ => mkLogCapture None None
  | WriteResourceEvidence _ _ => Ok true
  | Clock => 5
  | StreamClose _ | ContainerWait _ _ | SpawnFinalize _ | UnregisterWatch _ | SpawnLogCapture _ | OnError _
  | TelemetryStarted _ _ _ _ | TelemetryFinalized _ _ => ()
  | ImageInspect _ | ImagePull _ | PullWait | PullClose | ContainerAttach _ | StreamCloseWrite _ | ContainerStart _
  | ContainerLogs _ | CloseLogs _ | CloseArchive _ _ | ContainerStop _ _ | ContainerKill _ _ | ContainerRemove _ _ _
  | AwaitWatch _ | OpenLog _ | CloseLog _ | WriteDiagnostics _ _ | FinalizeArtifacts _ | AdoptAndCleanup _ | IdleTimer _ | ContextErr _ => None
  end.

Lemma engine_runs {A} (p : dprog A) : iruns p (irun engine p []).1 (irun engine p []).2.
Proof. apply (irun_iruns engine p []). apply surjective_pairing. Qed.

Definition started : list devent * result error Worker := irun engine (Docker_Start host_options start_request) [].

Lemma start_leaves_no_ambiguity_witness : handed_over "c1" started.1.
Proof.
  pose proof (start_leaves_no_ambiguity host_options start_request started.1 started.2 (engine_runs _)) as Hstart.
  change started.2 with (Ok (E := error) (mkWorker "c1" "c1" "pool-a" "runner-1" WorkerStarting "" 9 5 10)) in Hstart. exact (proj1 Hstart).
Defined.

Lemma secret_goes_to_started_container_witness :
  exists id, (exists c, c ∈ take 10 started.1 /\ created c = Some id) /\ ev (ContainerStart id) None ∈ take 10 started.1
    /\ (projT1 (ev (R := dresp) (StreamWrite "c1" "secret") (6, None)) = StreamWrite id "secret"
        \/ projT1 (ev (R := dresp) (StreamWrite "c1" "secret") (6, None)) = StreamWrite id (String newline_byte "")).
Proof.
  apply (secret_goes_to_started_container host_options start_request started.1 started.2 (take 10 started.1)
           (ev (StreamWrite "c1" "secret") (6, None)) (drop 11 started.1) (engine_runs _)); [|reflexivity].
  vm_compute. reflexivity.
Defined.

Definition stopped : list devent * result error bool := irun engine (RemoveIfIdle host_options "c1") [].

Lemma idle_confirmed_before_stop_witness :
  ev (ContainerStop "c1" (-1)) None ∈ stopped.1 /\ Forall (fun e => is_remove e = false) stopped.1.
Proof.
  split; [vm_compute; repeat first [left; reflexivity|right]|].
  exact (proj1 (proj2 (idle_confirmed_before_stop host_options "c1" stopped.1 stopped.2 (engine_runs _)))).
Defined.

Definition finalized : list devent * option (option error) := irun engine (finalize host_options 3 "c1") [].

(** The goroutine of the logs runs to its end right before its result is received. *)
Lemma both_quiet {A} id (p : dprog A) q own a :
  iruns p own a -> Forall (fun e => handshake (projT1 e) = false) own -> with_log_capture id p q own a.
Proof. induction 1 as [|c k r tr a _ IH]; intros Hq; [constructor|]. apply Forall_cons in Hq as [Hc Hq]. by constructor; [|apply IH]. Qed.

Lemma both_prefix {A} id (p : dprog A) q pre post tr a :
  iruns p (pre ++ post) a -> Forall (fun e => handshake (projT1 e) = false) pre ->
  (forall p', iruns p' post a -> with_log_capture id p' q tr a) -> with_log_capture id p q (pre ++ tr) a.
Proof.
  revert p. induction pre as [|e pre IH]; intros p Hr Hq Hrest; [by apply Hrest|]. apply Forall_cons in Hq as [Hc Hq].
  inversion Hr as [|c k r tr' a' Hk]; subst. simpl in *. constructor; [done|]. by apply IH.
Qed.

Lemma both_capture_all {A} id (p : dprog A) q t c tr a :
  iruns q t c -> with_log_capture id p (Some (IRet c)) tr a -> with_log_capture id p (Some q) (t ++ tr) a.
Proof. induction 1 as [|c' k r t c _ IH]; intros Hp; [done|]. apply both_capture. by apply IH. Qed.

Lemma both_scheduled {A} id (p : dprog A) pre mid post t c a :
  iruns p (pre ++ ev (SpawnLogCapture id) () :: mid ++ ev (AwaitLogs id) (Some c) :: post) a -> iruns (captureLogs id) t c ->
  Forall (fun e => handshake (projT1 e) = false) pre -> Forall (fun e => handshake (projT1 e) = false) mid ->
  Forall (fun e => handshake (projT1 e) = false) post ->
  with_log_capture id p None (pre ++ ev (SpawnLogCapture id) () :: mid ++ t ++ ev (AwaitLogs id) (Some c) :: post) a.
Proof.
  intros Hr Ht Hpre Hmid Hpost. eapply both_prefix; [exact Hr|done|]. clear Hr. intros p1 Hr.
  destruct p1 as [x|c1 k1]; [by apply iruns_inv in Hr as [? _]|]. apply iruns_inv in Hr as (r1 & tr1 & Heq & Hr).
  assert (c1 = SpawnLogCapture id) as -> by (by apply (f_equal (fun l => projT1 <$> head l)) in Heq; injection Heq).
  apply (f_equal tail) in Heq. simpl in Heq. subst tr1. destruct r1. apply both_spawn.
  eapply both_prefix; [exact Hr|done|]. clear Hr. intros p2 Hr.
  destruct p2 as [x|c2 k2]; [by apply iruns_inv in Hr as [? _]|]. apply iruns_inv in Hr as (r2 & tr2 & Heq & Hr).
  assert (c2 = AwaitLogs id) as -> by (by apply (f_equal (fun l => projT1 <$> head l)) in Heq; injection Heq).
  assert (r2 = Some c /\ tr2 = post) as [-> ->].
  { split; [|by apply (f_equal tail) in Heq].
    apply (f_equal (fun l : list devent => match head l with Some (existT (AwaitLogs _) r) => r | _ => None end)) in Heq. cbn in Heq. congruence. }
  eapply both_capture_all; [exact Ht|]. apply both_received. by apply both_quiet.
Qed.

Definition captured : list devent * logCaptureResult := irun engine (captureLogs "c1") [].
Definition finalized_with_logs : list devent := take 4 finalized.1 ++ captured.1 ++ drop 4 finalized.1.

Lemma finalized_concurrently : with_log_capture "c1" (finalize host_options 3 "c1") None finalized_with_logs finalized.2.
Proof.
  assert (Hc : iruns (captureLogs "c1") captured.1 (mkLogCapture None None)).
  { apply (irun_iruns engine _ []). vm_compute. reflexivity. }
  pose proof (engine_runs (finalize host_options 3 "c1")) as Hr.
  assert (Hsplit : finalized.1 = take 2 finalized.1 ++ ev (SpawnLogCapture "c1") () :: (drop 3 (take 4 finalized.1))
                                 ++ ev (AwaitLogs "c1") (Some (mkLogCapture None None)) :: drop 5 finalized.1) by (vm_compute; reflexivity).
  assert (Hall : finalized_with_logs = take 2 finalized.1 ++ ev (SpawnLogCapture "c1") () :: (drop 3 (take 4 finalized.1)) ++ captured.1
                                 ++ ev (AwaitLogs "c1") (Some (mkLogCapture None None)) :: drop 5 finalized.1) by (vm_compute; reflexivity).
  rewrite Hall. apply both_scheduled; [|exact Hc|vm_compute; by repeat constructor..]. rewrite <- Hsplit. exact Hr.
Qed.

Lemma container_removed_after_artifacts_witness :
  finalized.2 = Some None /\ ev (ContainerRemove "c1" false true) None ∈ finalized_with_logs
  /\ removed_once "c1" (fun b => wait_over "c1" b /\ log_stored "c1" b /\ artifacts_stored host_options "c1" b) finalized_with_logs.
Proof.
  split; [vm_compute; reflexivity|]. split; [vm_compute; repeat first [left; reflexivity|right]|].
  exact (container_removed_after_artifacts host_options 3 "c1" finalized_with_logs finalized.2 finalized_concurrently).
Defined.

Definition listed : list devent * result error (list Worker) := irun engine (Docker_List host_options) [].

Lemma inventory_adopts_before_watching_witness :
  exists items, Forall2 (represents host_options listed.1) [mkWorker "c1" "c1" "pool-a" "runner-1" WorkerIdle "" 0 (unix_time 0) 10] items.
Proof.
  destruct (inventory_adopts_before_watching host_options listed.1 [mkWorker "c1" "c1" "pool-a" "runner-1" WorkerIdle "" 0 (unix_time 0) 10])
    as (items & _ & Hall & _).
  - apply (irun_iruns engine _ []). vm_compute. reflexivity.
  - exists items. exact Hall.
Defined.

Lemma one_finalizer_per_container_witness : running (register_watch "c1" (register_watch "c1" no_watches).2).2 "c1" = 1%nat.
Proof.
  rewrite (one_finalizer_per_container (register_watch "c1" (register_watch "c1" no_watches).2).2 "c1"); [vm_compute; reflexivity|].
  eapply rtc_l; [apply step_ensure|]. eapply rtc_once, step_ensure.
Defined.
End DockerSamples.
