(* ===== verification/Artifacts.v ===== *)
(** The artifact files of finished workers (internal/runtime/docker:
    artifacts.go, artifacts_audit.go): the log writer with its truncation, the
    bounded diagnostic archive, resource evidence, finalization, adoption,
    retention and cap sweeps, the audit and the purge.

    A program calls the file system of [FileSystem] ([FS], so the durable writer
    of [Store] runs inside it), the job index, the clock and the context, all with
    arbitrary answers.  The sink's mutex guards the time of the last sweep, which
    the operations take and return.  [slices.SortFunc] leaves the order of equal
    elements open; [sort_by] keeps it. *)

From S2P Require Import Prelude Float64 GoStrings Regexp GoText Model PlanGates Errors JobIndex Effects Retry Reconciler FileSystem Store Interaction Evidence Docker.
From Stdlib Require Import Ascii.
#[local] Open Scope Z_scope.
Open Scope i_scope.

(** ** Paths *)

(** What [filepath.Rel] needs of the platform besides its separator: the volume
    of a path and the comparison of path elements. *)
Class Volumes := {
  VolumeName : string -> string;
  sameWord : string -> string -> bool;
}.

(** The text before the first separator and the text after it. *)
Fixpoint cut (sep : ascii) (s : string) : string * string :=
  match s with
  | EmptyString => ("", "")
  | String a rest =>
      if Ascii.eqb a sep then ("", rest)
      else let '(before, after) := cut sep rest in (String a before, after)
  end.

Fixpoint count_byte (a : ascii) (s : string) : nat :=
  match s with
  | EmptyString => O
  | String b rest => if Ascii.eqb a b then S (count_byte a rest) else count_byte a rest
  end.

Fixpoint repeat_string (n : nat) (s : string) : string :=
  match n with O => "" | S n => s +:+ repeat_string n s end.

Section Paths.
Context {PF : Platform} {FP : FilePath} {VO : Volumes} {UC : Unicode}.

Definition sep : string := String Separator "".

(** The loop of [filepath.Rel]: what is left of both paths at the first element
    that differs, and that element of the base.  Every pass shortens the base. *)
Fixpoint rel_loop (fuel : nat) (base targ : string) : string * string * string :=
  match fuel with
  | O => (base, targ, "")
  | S fuel =>
      if String.eqb base "" || String.eqb targ "" then (base, targ, "")
      else
        let '(b, base') := cut Separator base in
        let '(t, targ') := cut Separator targ in
        if negb (sameWord t b) then (base, targ, b) else rel_loop fuel base' targ'
  end.

Definition slashed (s : string) : bool := HasPrefix s sep.

Definition Rel (basepath targpath : string) : result error string :=
  let failed := Err (ErrNew ("Rel: can't make " +:+ targpath +:+ " relative to " +:+ basepath)) in
  let baseVol := VolumeName basepath in
  let targVol := VolumeName targpath in
  let base := Clean basepath in
  let targ := Clean targpath in
  if sameWord targ base then Ok "."
  else
    let base := drop_bytes (String.length baseVol) base in
    let targ := drop_bytes (String.length targVol) targ in
    let base := if String.eqb base "." then ""
                else if String.eqb base "" && Nat.ltb 2 (String.length baseVol) then sep else base in
    if negb (Bool.eqb (slashed base) (slashed targ)) || negb (sameWord baseVol targVol) then failed
    else
      let '(baseLeft, targLeft, element) := rel_loop (S (String.length base)) base targ in
      if String.eqb element ".." then failed
      else if negb (String.eqb baseLeft "")
      then Ok (".." +:+ repeat_string (count_byte Separator baseLeft) (sep +:+ "..")
               +:+ (if String.eqb targLeft "" then "" else sep +:+ targLeft))
      else Ok targLeft.

Definition validateArtifactPath (root path : string) : option error :=
  if negb (IsAbs root) || negb (IsAbs path) then Some (ErrNew "artifact root and path must be absolute")
  else match Rel (Clean root) (Clean path) with
       | Err e => Some e
       | Ok relative =>
           if String.eqb relative "." || String.eqb relative ".." || HasPrefix relative (".." +:+ sep) || IsAbs relative
           then Some (ErrNew ("artifact path " +:+ Quote path +:+ " escapes configured root " +:+ Quote root))
           else None
       end.

Definition canonicalPath (path : string) : string := ToLower (Clean path).

Definition samePath (left right : string) : bool := EqualFold (Clean left) (Clean right).
End Paths.

(** ** Names *)

Definition unsafe_byte (a : ascii) : bool := negb (alnum a || one_of ["."%char; "_"%char; "-"%char] a).

(** [unsafeArtifactCharacter.ReplaceAllString(s, "-")]: a run of unsafe
    characters is one hyphen.  Every byte of a rune outside ASCII is unsafe. *)
Fixpoint replace_unsafe (inRun : bool) (s : string) : string :=
  match s with
  | EmptyString => ""
  | String a rest =>
      if unsafe_byte a
      then if inRun then replace_unsafe true rest else String "-"%char (replace_unsafe true rest)
      else String a (replace_unsafe false rest)
  end.

Definition dot_or_hyphen (a : ascii) : bool := one_of ["."%char; "-"%char] a.

Fixpoint trim_left (cutset : ascii -> bool) (s : string) : string :=
  match s with
  | EmptyString => EmptyString
  | String a rest => if cutset a then trim_left cutset rest else s
  end.

(** [strings.Trim(s, ".-")]. *)
Definition trim_name (s : string) : string := trim_right dot_or_hyphen (trim_left dot_or_hyphen s).

Definition safe_name (s fallback : string) : string :=
  let name := trim_name (replace_unsafe false s) in
  if String.eqb name "" then fallback else name.

(** The date of the proleptic Gregorian calendar, from the days since
    1 January of year 1. *)
Definition year_day (days : Z) : Z * Z :=
  let n400 := days / 146097 in
  let d := days mod 146097 in
  let n100 := Z.min 3 (d / 36524) in
  let d := d - 36524 * n100 in
  let n4 := d / 1461 in
  let d := d - 1461 * n4 in
  let n1 := Z.min 3 (d / 365) in
  (400 * n400 + 100 * n100 + 4 * n4 + n1 + 1, d - 365 * n1).

Definition leap (year : Z) : bool := (year mod 4 =? 0) && (negb (year mod 100 =? 0) || (year mod 400 =? 0)).

Fixpoint month_day (month day : Z) (lengths : list Z) : Z * Z :=
  match lengths with
  | l :: rest => if day <? l then (month, day + 1) else month_day (month + 1) (day - l) rest
  | [] => (month, day + 1)
  end.

Definition month_lengths (year : Z) : list Z := [31; if leap year then 29 else 28; 31; 30; 31; 30; 31; 31; 30; 31; 30; 31].

Definition pad (width : nat) (n : Z) : string :=
  let s := Itoa n in repeat_string (width - String.length s) "0" +:+ s.

(** [t.Format("20060102T150405.000000000Z")]. *)
Definition format_stamp (t : time) : string :=
  let '(year, yday) := year_day (t / (86400 * Second)) in
  let '(month, day) := month_day 1 yday (month_lengths year) in
  let s := t / Second mod 86400 in
  pad 4 year +:+ pad 2 month +:+ pad 2 day +:+ "T" +:+ pad 2 (s / 3600) +:+ pad 2 (s / 60 mod 60) +:+ pad 2 (s mod 60)
  +:+ "." +:+ pad 9 (t mod Second) +:+ "Z".

(** 1 January 1970. *)
Definition UnixEpoch : time := 62135596800 * Second.

Definition artifactBaseName (m : ArtifactMetadata) : string :=
  let timestamp := if IsZero (am_StartedAt m) then UnixEpoch else am_StartedAt m in
  let name := safe_name (am_WorkerName m) "worker" in
  let id := safe_name (am_ContainerID m) "container" in
  let id := if Nat.ltb 12 (String.length id) then take_bytes 12 id else id in
  format_stamp timestamp +:+ "_" +:+ name +:+ "_" +:+ id.

(** A dot, the name of a temporary artifact, anything without a newline, and the
    suffix. *)
Definition inFlightTempPattern : regexp :=
  Concat (literal ".ci-runner-") (Concat (one_of_res [literal "log"; literal "diag"; literal "resources"])
    (Concat (literal "-") (Concat (Star (CharClass any_but_newline)) (literal ".tmp")))).
Definition isInFlightTemporary (name : string) : bool := MatchString inFlightTempPattern name.

(** ** Calls *)

Record DirEntry := mkDirEntry { de_name : string; de_regular : bool }.
Record FileInfo := mkFileInfo { fi_regular : bool; fi_size : Z; fi_modTime : time }.

Inductive acall :=
  | FS (c : fcall)
  | FileWrite (f : N) (bytes : string)
  | ReadSource (limit : Z)
  | ReadDir (root : string)
  | EntryInfo (path : string)
  | JobsLoad
  | JobsUpsert (p : Patch)
  | JobsUpsertMany (ps : list Patch)
  | JobsFindByRunner (pool runner : string)
  | JobsPruneTombstones (before : time)
  | JobsDropJournal
  | Now
  | CtxError.

(** [FileWrite] answers the number of bytes written, [ReadSource] the bytes read
    before the end, the limit or an error; [JobsDropJournal] is [None] when the
    job index has no directory. *)
Definition aresp (c : acall) : Type :=
  match c with
  | FS c => fresp c
  | FileWrite _ _ => Z * option fserror
  | ReadSource _ => string * option error
  | ReadDir _ => result fserror (list DirEntry)
  | EntryInfo _ => result fserror FileInfo
  | JobsLoad => result error Catalog
  | JobsUpsert _ => result error JobRecord
  | JobsFindByRunner _ _ => result error JobRecord
  | JobsDropJournal => option (result error (list DropEntry))
  | Now => time
  | JobsUpsertMany _ | JobsPruneTombstones _ | CtxError => option error
  end.

Abbreviation aprog := (iprog aresp) (only parsing).
Abbreviation aevent := (event aresp) (only parsing).

(** A program of the file system inside the sink. *)
Fixpoint lift {A} (p : fprog A) : aprog A :=
  match p with
  | FRet a => IRet a
  | FAsk c k => ICall (FS c) (fun r => lift (k r))
  end.

(** The errors of the file system among the errors of the program. *)
Fixpoint fs_error (e : fserror) : error :=
  match e with
  | OSError _ _ text => ErrNew text
  | Sentinel ErrNotFound => ErrNew "state not found"
  | Sentinel ErrCorruptObserved => ErrNew "observed state is corrupt"
  | Sentinel errLoadContent => ErrNew "state load content"
  | Sentinel ErrJobRecordNotFound => ErrJobsNotFound
  | Sentinel ErrJobRecordConflict => ErrJobConflict
  | Message text => ErrNew text
  | Labeled label c => ErrWrap label (fs_error c)
  | Chain l => ErrJoin (map fs_error l)
  end.

(** ** Access control *)

Definition hardenAndVerify (path : string) : fprog (option fserror) :=
  fbind (fask (Harden path)) (fun r =>
  match r with Some e => FRet (Some e) | None => fask (VerifyACL path) end).

Definition secured (label path : string) : fprog (option fserror) :=
  fbind (hardenAndVerify path) (fun r => FRet match r with Some e => Some (Labeled label e) | None => None end).

Definition ensureRegularOrMissing (path : string) : fprog (option fserror) :=
  fbind (fask (Lstat path)) (fun r =>
  FRet match r with
       | Err e => if IsNotExist e then None else Some e
       | Ok (regular, _) => if regular then None else Some (Message ("path " +:+ Quote path +:+ " is not a regular file"))
       end).

(** ** Writers *)

Definition truncationMarker : string :=
  let nl := String newline_byte "" in
  nl +:+ "[ci-runner: worker output truncated at configured diagnostics.maxFileSize]" +:+ nl.

Definition ErrArtifactTooLarge : error := ErrNew "worker artifact exceeds configured size limit".
Definition ErrShortWrite : error := ErrNew "short write".

Definition size_of (s : string) : Z := Z.of_nat (String.length s).

(** [os.File.Write] of the writer's temporary file. *)
Definition write_file (w : DurableWriter) (bytes : string) : aprog (Z * option error) :=
  let^ (n, err) := icall (FileWrite (wr_file w) bytes) in
  IRet (n, fs_error <$> err).

(** [truncatingWriteCloser] over [atomicLogFile]; [tw_closed] is the outcome of
    the first [Close]. *)
Record LogWriter := mkLogWriter {
  tw_destination : DurableWriter;
  tw_limit : Z;
  tw_written : Z;
  tw_truncated : bool;
  tw_closed : option (option error);
}.

Definition content_limit (limit : Z) : Z :=
  if size_of truncationMarker <? limit then limit - size_of truncationMarker else 0.

(** A write that stops short is an error even when the destination reports
    none. *)
Definition write_error (n wanted : Z) (err : option error) : option error :=
  match err with
  | Some e => Some e
  | None => if n =? wanted then None else Some ErrShortWrite
  end.

(** How much of a value fits before the marker. *)
Definition content_part (w : LogWriter) (value : string) : Z :=
  let contentLimit := content_limit (tw_limit w) in
  let remaining := if tw_written w <? contentLimit then contentLimit - tw_written w else 0 in
  if remaining <? size_of value then remaining else size_of value.

(** A write to the destination unless there is nothing to write, counted. *)
Definition write_counted (w : LogWriter) (bytes : string) : aprog (LogWriter * Z * option error) :=
  if 0 <? size_of bytes then
    let^ (n, err) := write_file (tw_destination w) bytes in
    IRet ({| w with tw_written := wrap_u64 (tw_written w + n) |}, n, write_error n (size_of bytes) err)
  else IRet (w, 0, None).

Definition Log_Write (w : LogWriter) (value : string) : aprog (LogWriter * (Z * option error)) :=
  let accepted := size_of value in
  if tw_truncated w then IRet (w, (accepted, None))
  else
    let writeCount := content_part w value in
    let^ (w, n, err) := write_counted w (take_bytes (Z.to_nat writeCount) value) in
    match err with
    | Some e => IRet (w, (n, Some e))
    | None =>
        if writeCount <? accepted then
          let marker := take_bytes (Z.to_nat (Z.min (size_of truncationMarker) (tw_limit w - tw_written w))) truncationMarker in
          let^ (w, _, err) := write_counted w marker in
          match err with
          | Some e => IRet (w, (writeCount, Some e))
          | None => IRet ({| w with tw_truncated := true |}, (accepted, None))
          end
        else IRet (w, (accepted, None))
    end.

(** [Close]: the commit runs once, and a failed one discards. *)
Definition Log_Close {PF : Platform} (w : LogWriter) : aprog (LogWriter * option error) :=
  match tw_closed w with
  | Some err => IRet (w, err)
  | None =>
      let^ (writer, err) := lift (Commit (tw_destination w)) in
      let^ _ := match err with Some _ => lift (Discard writer) | None => IRet () end in
      let err := fs_error <$> err in
      IRet ({| w with tw_destination := writer; tw_closed := Some err |}, err)
  end.

Record boundedWriter := mkBoundedWriter { bw_destination : DurableWriter; bw_limit : Z; bw_written : Z }.

Definition Bounded_Write (w : boundedWriter) (value : string) : aprog (boundedWriter * (Z * option error)) :=
  if bw_limit w <=? bw_written w then IRet (w, (0, Some ErrArtifactTooLarge))
  else
    let remaining := bw_limit w - bw_written w in
    if remaining <? size_of value then
      let^ (n, err) := write_file (bw_destination w) (take_bytes (Z.to_nat remaining) value) in
      IRet ({| w with bw_written := wrap_u64 (bw_written w + n) |}, (n, match err with Some e => Some e | None => Some ErrArtifactTooLarge end))
    else
      let^ (n, err) := write_file (bw_destination w) value in
      IRet ({| w with bw_written := wrap_u64 (bw_written w + n) |}, (n, err)).

(** What [compress/gzip] passes to its destination: the pieces written while the
    input is copied into it and the pieces written by [Close]. *)
Class Gzip := {
  gzip_copy : string -> list string;
  gzip_close : string -> list string;
}.

(** The pieces go out one by one until a write fails. *)
Fixpoint write_pieces (w : boundedWriter) (pieces : list string) : aprog (boundedWriter * option error) :=
  match pieces with
  | [] => IRet (w, None)
  | p :: rest =>
      let^ (w, (_, err)) := Bounded_Write w p in
      match err with
      | Some e => IRet (w, Some e)
      | None => write_pieces w rest
      end
  end.

(** [io.Copy] into the gzip writer and its [Close]: the two errors.  A writer
    that failed keeps its error, and [Close] returns it. *)
Definition compress {GZ : Gzip} (w : boundedWriter) (input : string) (readErr : option error) : aprog (option error * option error) :=
  let^ (w, failed) := write_pieces w (gzip_copy input) in
  match failed with
  | Some e => IRet (Some e, Some e)
  | None => let^ (_, closeErr) := write_pieces w (gzip_close input) in IRet (readErr, closeErr)
  end.

(** ** The sink *)

Record ArtifactPolicy := mkArtifactPolicy {
  ap_MaxFileSizeBytes : Z;
  ap_RawDiagnosticMaxInputBytes : Z;
  ap_Retention : duration;
  ap_TotalCapBytes : Z;
  ap_CleanupEvery : duration;
}.

Record FileArtifactSink := mkSink {
  sk_logDirectory : string;
  sk_diagnosticDirectory : string;
  sk_policy : ArtifactPolicy;
  sk_lastCleanupAt : time;
}.

Definition policy_consistent (p : ArtifactPolicy) : bool :=
  negb ((ap_MaxFileSizeBytes p =? 0) || (ap_RawDiagnosticMaxInputBytes p =? 0) || (ap_Retention p <=? 0)
        || (ap_TotalCapBytes p <? ap_MaxFileSizeBytes p) || (ap_CleanupEvery p <=? 0)).

(** One directory of the constructor's loop, in the order the map gives. *)
Fixpoint secure_directories (l : list (string * string)) : aprog (option error) :=
  match l with
  | [] => IRet None
  | (name, directory) :: rest =>
      let^ made := icall (FS (MkdirAll directory)) in
      match made with
      | Some e => IRet (Some (ErrWrap ("create " +:+ name +:+ " directory") (fs_error e)))
      | None =>
          let^ r := lift (hardenAndVerify directory) in
          match r with
          | Some e => IRet (Some (ErrWrap ("secure " +:+ name +:+ " directory") (fs_error e)))
          | None => secure_directories rest
          end
      end
  end.

Definition NewFileArtifactSink {MR : MapRange} {FP : FilePath} (logDirectory diagnosticDirectory : string) (jobs acl : bool)
    (policy : ArtifactPolicy) : aprog (result error FileArtifactSink) :=
  if negb (IsAbs logDirectory) || negb (IsAbs diagnosticDirectory) || negb jobs || negb acl
  then IRet (Err (ErrNew "artifact directories must be absolute and the durable job index and access controller are required"))
  else if negb (policy_consistent policy)
  then IRet (Err (ErrNew "artifact size, retention, total-cap, and cleanup policies must be positive and consistent"))
  else if (max_i64 <? ap_MaxFileSizeBytes policy) || (max_i64 <=? ap_RawDiagnosticMaxInputBytes policy)
  then IRet (Err (ErrNew "artifact input and output bounds exceed platform-safe integer limits"))
  else
    let logs := Clean logDirectory in
    let diagnostics := Clean diagnosticDirectory in
    if samePath logs diagnostics then IRet (Err (ErrNew "worker log and diagnostic directories must be distinct"))
    else
      let^ failed := secure_directories (range (<["worker log" := logs]> (<["worker diagnostic" := diagnostics]> ∅))) in
      IRet match failed with Some e => Err e | None => Ok (mkSink logs diagnostics policy 0) end.

(** The patch every operation sends: the identity and the start of a worker. *)
Definition identity_patch (m : ArtifactMetadata) (open : option bool) : Patch :=
  mkPatch (am_PoolID m) (am_WorkerName m) (am_ContainerID m) "" "" "" "" (am_StartedAt m) 0 0 0 0 open None.

Section Sink.
Context {PF : Platform} {FP : FilePath} {VO : Volumes} {UC : Unicode} {ET : EvidenceText} {GZ : Gzip}.
Context (s : FileArtifactSink).

Definition log_path (m : ArtifactMetadata) : string := filepath_Join (sk_logDirectory s) (artifactBaseName m +:+ ".log").
Definition diagnostic_path (m : ArtifactMetadata) : string :=
  filepath_Join (sk_diagnosticDirectory s) (artifactBaseName m +:+ "-diag.tar.gz").
Definition resources_path (m : ArtifactMetadata) : string :=
  filepath_Join (sk_diagnosticDirectory s) (artifactBaseName m +:+ "-resources.json").

(** The plan of the log's durable write: the container streams while it runs, so
    the destination is checked again right before the replacement. *)
Definition log_write_plan (path : string) : DurableWrite := {|
  dw_Directory := sk_logDirectory s;
  dw_Target := path;
  dw_TemporaryPattern := ".ci-runner-log-*.tmp";
  dw_Mode := 384;
  dw_HardenBeforeWrite := Some (secured "secure worker log");
  dw_HardenBeforeReplace := Some (secured "verify temporary worker log");
  dw_HardenAfterReplace := Some (secured "verify published worker log");
  dw_BeforeReplace := Some (fbind (ensureRegularOrMissing path) (fun r =>
                              FRet match r with Some e => Some (Labeled "recheck worker log destination" e) | None => None end));
  dw_AfterReplace := None; dw_OnCommitFailure := None; dw_SkipDirectorySync := false;
  dw_Labels := mkLabels "create temporary worker log" "secure temporary worker log mode" "" "flush temporary worker log"
                 "close temporary worker log" "publish worker log atomically" "flush worker log directory" |}.

Definition Sink_OpenLog (m : ArtifactMetadata) : aprog (result error LogWriter) :=
  let path := log_path m in
  let^ r := lift (ensureRegularOrMissing path) in
  match r with
  | Some e => IRet (Err (ErrWrap "inspect worker log destination" (fs_error e)))
  | None =>
      let p := identity_patch m (Some true) in
      let^ upserted := icall (JobsUpsert {| p with pt_LogPath := path |}) in
      match upserted with
      | Err e => IRet (Err (ErrWrap "index worker log" e))
      | Ok _ =>
          let^ begun := lift (Begin (log_write_plan path)) in
          IRet match begun with
               | Err e => Err (fs_error e)
               | Ok writer => Ok (mkLogWriter writer (ap_MaxFileSizeBytes (sk_policy s)) 0 false None)
               end
      end
  end.

(** An archive that cannot be hardened is withdrawn. *)
Definition diagnostic_write_plan (path : string) : DurableWrite := {|
  dw_Directory := sk_diagnosticDirectory s;
  dw_Target := path;
  dw_TemporaryPattern := ".ci-runner-diag-*.tmp";
  dw_Mode := 384;
  dw_HardenBeforeWrite := Some (secured "secure temporary diagnostic archive");
  dw_HardenBeforeReplace := None;
  dw_HardenAfterReplace := Some (fun committedPath =>
    fbind (secured "secure diagnostic archive" committedPath) (fun r =>
    match r with
    | Some e => fbind (fask (Remove committedPath)) (fun _ => FRet (Some e))
    | None => FRet None
    end));
  dw_BeforeReplace := None; dw_AfterReplace := None; dw_OnCommitFailure := None; dw_SkipDirectorySync := false;
  dw_Labels := mkLabels "create temporary diagnostic archive" "secure temporary diagnostic archive" "" "flush diagnostic archive"
                 "close diagnostic archive" "publish diagnostic archive" "flush diagnostic directory" |}.

Definition index_diagnostics (m : ArtifactMetadata) (path : string) : aprog (option error) :=
  let p := identity_patch m None in
  let^ upserted := icall (JobsUpsert {| p with pt_DiagnosticPath := path |}) in
  IRet match upserted with Err e => Some e | Ok _ => None end.

(** The archive is compressed into the temporary file and committed; the
    deferred [Discard] runs last. *)
Definition archive_diagnostics (m : ArtifactMetadata) (path : string) (writer : DurableWriter) : aprog (option error) :=
  let raw := ap_RawDiagnosticMaxInputBytes (sk_policy s) in
  let^ (input, readErr) := icall (ReadSource (raw + 1)) in
  let^ (copyErr, closeErr) := compress (mkBoundedWriter writer (ap_MaxFileSizeBytes (sk_policy s)) 0) input readErr in
  match errors_Join [copyErr; closeErr] with
  | Some e => let^ _ := lift (Discard writer) in IRet (Some (ErrWrap "write diagnostic archive" e))
  | None =>
      if raw <? size_of input
      then let^ _ := lift (Discard writer) in IRet (Some (ErrWrap "raw diagnostic input" ErrArtifactTooLarge))
      else
        let^ (writer, failed) := lift (Commit writer) in
        match failed with
        | Some e => let^ _ := lift (Discard writer) in IRet (Some (fs_error e))
        | None =>
            let^ indexed := index_diagnostics m path in
            let^ _ := lift (Discard writer) in
            IRet match indexed with Some e => Some (ErrWrap "index worker diagnostics" e) | None => None end
        end
  end.

Definition begin_diagnostics (m : ArtifactMetadata) (path : string) : aprog (option error) :=
  let^ begun := lift (Begin (diagnostic_write_plan path)) in
  match begun with
  | Err e => IRet (Some (fs_error e))
  | Ok writer => archive_diagnostics m path writer
  end.

(** An archive of an earlier attempt is kept when it is regular, not empty and
    within the limit. *)
Definition Sink_WriteDiagnostics (m : ArtifactMetadata) : aprog (option error) :=
  let path := diagnostic_path m in
  let^ info := icall (FS (Lstat path)) in
  match info with
  | Ok (regular, size) =>
      if regular && (0 <? size) && (wrap_u64 size <=? ap_MaxFileSizeBytes (sk_policy s)) then
        let^ r := lift (hardenAndVerify path) in
        match r with
        | Some e => IRet (Some (ErrWrap "secure existing diagnostic archive" (fs_error e)))
        | None => index_diagnostics m path
        end
      else if negb regular then IRet (Some (ErrNew "existing diagnostic destination is not a regular file"))
      else begin_diagnostics m path
  | Err e =>
      if negb (IsNotExist e) then IRet (Some (ErrWrap "inspect existing diagnostic archive" (fs_error e)))
      else begin_diagnostics m path
  end.

(** Evidence that failed after its commit is withdrawn, since a retry keeps what
    it finds. *)
Definition evidence_write_plan (path : string) : DurableWrite := {|
  dw_Directory := sk_diagnosticDirectory s;
  dw_Target := path;
  dw_TemporaryPattern := ".ci-runner-resources-*.tmp";
  dw_Mode := 384;
  dw_HardenBeforeWrite := Some (secured "secure temporary worker resource evidence");
  dw_HardenBeforeReplace := None;
  dw_HardenAfterReplace := Some (secured "verify worker resource evidence");
  dw_BeforeReplace := None; dw_AfterReplace := None;
  dw_OnCommitFailure := Some (fun committedPath => fbind (fask (Remove committedPath)) (fun _ => FRet ()));
  dw_SkipDirectorySync := false;
  dw_Labels := mkLabels "create temporary worker resource evidence" "secure temporary worker resource evidence mode"
                 "write worker resource evidence" "flush worker resource evidence" "close worker resource evidence"
                 "publish worker resource evidence" "flush worker resource evidence directory" |}.

(** The evidence of an earlier attempt is only verified. *)
Definition verify_evidence (path : string) (regular : bool) (size : Z) : aprog (result error bool) :=
  if negb regular || (size <=? 0) || (maximumResourceEvidenceBytes <? size)
  then IRet (Err (ErrNew "existing worker resource evidence is not a bounded regular file"))
  else
    let^ r := lift (hardenAndVerify path) in
    match r with
    | Some e => IRet (Err (ErrWrap "secure existing worker resource evidence" (fs_error e)))
    | None =>
        let^ opened := icall (FS (OpenFile path)) in
        match opened with
        | Err e => IRet (Err (ErrWrap "open existing worker resource evidence" (fs_error e)))
        | Ok f =>
            let^ content := icall (FS (ReadLimited f (maximumResourceEvidenceBytes + 1))) in
            let parsed := ParseResourceEvidence match content with Ok c => Ok c | Err e => Err (fs_error e) end in
            let^ closed := icall (FS (CloseFile f)) in
            IRet match errors_Join [match parsed with Err e => Some e | Ok _ => None end; fs_error <$> (closed : option fserror)] with
                 | Some e => Err (ErrWrap "verify existing worker resource evidence" e)
                 | None => Ok false
                 end
        end
    end.

Definition Sink_WriteResourceEvidence (m : ArtifactMetadata) (evidence : ResourceEvidence) : aprog (result error bool) :=
  match marshalResourceEvidence evidence with
  | Err e => IRet (Err (ErrWrap "validate worker resource evidence" e))
  | Ok content =>
      let path := resources_path m in
      let^ info := icall (FS (Lstat path)) in
      match info with
      | Ok (regular, size) => verify_evidence path regular size
      | Err e =>
          if negb (IsNotExist e) then IRet (Err (ErrWrap "inspect existing worker resource evidence" (fs_error e)))
          else
            let^ failed := lift (WriteBytes (evidence_write_plan path) content) in
            IRet match failed with Some e => Err (fs_error e) | None => Ok true end
      end
  end.

(** ** Finalization *)

Definition ResourceEvidencePath (diagnosticPath : string) : result error string :=
  if String.eqb diagnosticPath "" then Ok ""
  else if negb (IsAbs diagnosticPath) || negb (HasSuffix diagnosticPath "-diag.tar.gz")
  then Err (ErrNew "worker diagnostic path cannot identify its resource sidecar")
  else Ok (TrimSuffix (Clean diagnosticPath) "-diag.tar.gz" +:+ "-resources.json").

Definition verifyFinalArtifact (root path : string) (allowEmpty : bool) : aprog (option error) :=
  match validateArtifactPath root path with
  | Some e => IRet (Some e)
  | None =>
      let^ info := icall (FS (Lstat path)) in
      match info with
      | Err e => IRet (Some (fs_error e))
      | Ok (regular, size) =>
          if negb regular || (negb allowEmpty && (size <=? 0))
          then IRet (Some (ErrNew ("artifact " +:+ Quote path +:+ " is not a valid regular evidence file")))
          else let^ r := icall (FS (VerifyACL path)) in IRet (fs_error <$> (r : option fserror))
      end
  end.

Definition Sink_Finalize (m : ArtifactMetadata) : aprog (option error) :=
  let^ found := icall (JobsFindByRunner (am_PoolID m) (am_WorkerName m)) in
  match found with
  | Err e => IRet (Some (ErrWrap "load worker artifact index before finalization" e))
  | Ok record =>
      match ResourceEvidencePath (jr_DiagnosticPath record) with
      | Err e => IRet (Some (ErrWrap "derive worker resource evidence path" e))
      | Ok resourcePath =>
          if negb (String.eqb (jr_ContainerID record) (am_ContainerID m)) || String.eqb (jr_LogPath record) ""
             || String.eqb (jr_DiagnosticPath record) "" || String.eqb resourcePath ""
          then IRet (Some (ErrNew "worker artifacts are incomplete; container is retained for retry"))
          else
            let^ log := verifyFinalArtifact (sk_logDirectory s) (jr_LogPath record) true in
            let^ diagnostics := verifyFinalArtifact (sk_diagnosticDirectory s) (jr_DiagnosticPath record) false in
            let^ resources := verifyFinalArtifact (sk_diagnosticDirectory s) resourcePath false in
            match errors_Join [log; diagnostics; resources] with
            | Some e => IRet (Some (ErrWrap "verify worker artifacts before finalization" e))
            | None =>
                let^ now := icall Now in
                let p := identity_patch m (Some false) in
                let^ upserted := icall (JobsUpsert {| p with pt_FinalizedAt := now |}) in
                IRet match upserted with Err e => Some (ErrWrap "finalize job artifact index" e) | Ok _ => None end
            end
      end
  end.

(** ** Adoption *)

(** The state of [indexAdopted]'s loop: the records and their indexes by key. *)
Definition record_indexes (records : list JobRecord) : gmap string nat :=
  foldl (fun m '(i, r) => <[key_of r := i]> m) ∅ (indexed records).

Fixpoint adopt_loop (now : time) (adopted : list ArtifactMetadata) (records : list JobRecord) (indexes : gmap string nat)
    : aprog (result error (list JobRecord)) :=
  match adopted with
  | [] => IRet (Ok records)
  | m :: rest =>
      let patch := identity_patch m (Some true) in
      let key := record_key (pt_PoolID patch) (pt_RunnerName patch) in
      let found := indexes !! key in
      let current := match found with Some i => records !! i | None => None end in
      let unchanged := match current with
                       | Some r => match Merge r patch now with Ok merged => bool_decide (merged = r) | Err _ => false end
                       | None => false
                       end in
      if unchanged then adopt_loop now rest records indexes
      else
        let^ upserted := icall (JobsUpsert patch) in
        match upserted with
        | Err e => IRet (Err (ErrWrap "adopt worker artifact record" e))
        | Ok record =>
            match found with
            | Some i => adopt_loop now rest (<[i := record]> records) indexes
            | None => adopt_loop now rest (records ++ [record]) (<[key := length records]> indexes)
            end
        end
  end.

Definition adopted_ids (adopted : list ArtifactMetadata) : gset string := list_to_set (map am_ContainerID adopted).

Definition indexAdopted (adopted : list ArtifactMetadata) : aprog (result error (gset string * list JobRecord)) :=
  let^ loaded := icall JobsLoad in
  let continue records :=
    let^ now := icall Now in
    let^ r := adopt_loop now adopted records (record_indexes records) in
    IRet match r with Err e => Err e | Ok records => Ok (adopted_ids adopted, records) end in
  match loaded with
  | Ok catalog => continue (cat_Records catalog)
  | Err e => if is_sentinel ErrJobsNotFound e then continue [] else IRet (Err e)
  end.

Definition stale_open (adopted : gset string) (r : JobRecord) : bool :=
  jr_Open r && negb (String.eqb (jr_ContainerID r) "") && negb (is_tombstoned r) && negb (bool_decide (jr_ContainerID r ∈ adopted)).

Definition close_patch (r : JobRecord) (now : time) : Patch :=
  mkPatch (jr_PoolID r) (jr_RunnerName r) (jr_ContainerID r) "" "" "" "" 0 0 0 0 now (Some false) None.

Fixpoint reconcileStaleOpen (records : list JobRecord) (adopted : gset string) (now : time) : aprog (option error) :=
  match records with
  | [] => IRet None
  | r :: rest =>
      if negb (stale_open adopted r) then reconcileStaleOpen rest adopted now
      else
        let^ upserted := icall (JobsUpsert (close_patch r now)) in
        match upserted with
        | Err e => IRet (Some (ErrWrap "close stale worker artifact record" e))
        | Ok _ => reconcileStaleOpen rest adopted now
        end
  end.

(** ** Referenced paths *)

(** The paths of a record that stay in their directories. *)
Definition record_paths (r : JobRecord) : list string :=
  let within root path := if String.eqb path "" then []
                          else match validateArtifactPath root path with None => [path] | Some _ => [] end in
  if is_tombstoned r then []
  else within (sk_logDirectory s) (jr_LogPath r) ++ within (sk_diagnosticDirectory s) (jr_DiagnosticPath r)
       ++ match ResourceEvidencePath (jr_DiagnosticPath r) with
          | Ok path => within (sk_diagnosticDirectory s) path
          | Err _ => []
          end.

Definition canonical_set (paths : list string) : gset string := list_to_set (map canonicalPath paths).

Definition buildReferencedFromCatalog (records : list JobRecord) : gset string * list string :=
  let paths := flat_map record_paths records in (canonical_set paths, paths).

Definition degradedArtifactMetadata (containerID : string) : ArtifactMetadata := mkMetadata containerID "" "" "" 0.

Definition metadata_paths (m : ArtifactMetadata) : list string :=
  flat_map (fun variant => [log_path variant; diagnostic_path variant; resources_path variant])
           [m; degradedArtifactMetadata (am_ContainerID m)].

Definition buildReferencedFromInventory (adopted : list ArtifactMetadata) : gset string :=
  canonical_set (flat_map metadata_paths adopted).

Definition drop_paths (e : DropEntry) : list string :=
  (if String.eqb (de_LogPath e) "" then [] else [de_LogPath e])
  ++ (if String.eqb (de_DiagnosticPath e) "" then []
      else de_DiagnosticPath e
           :: match ResourceEvidencePath (de_DiagnosticPath e) with
              | Ok path => if String.eqb path "" then [] else [path]
              | Err _ => []
              end).

Definition referencedFromDropJournal (entries : list DropEntry) : gset string := canonical_set (flat_map drop_paths entries).

(** ** Sizes *)

Definition saturatingAdd (left right : Z) : Z := if max_u64 - left <? right then max_u64 else left + right.
Definition saturatingSub (left right : Z) : Z := if left <=? right then 0 else left - right.

Definition capDeletionPressure (total protected cap : Z) : bool :=
  if total <=? cap then false else cap <? saturatingSub total protected.

Definition artifactSizeWithin (root path : string) : aprog (result error Z) :=
  if String.eqb path "" then IRet (Ok 0)
  else match validateArtifactPath root path with
       | Some e => IRet (Err e)
       | None =>
           let^ info := icall (FS (Lstat path)) in
           IRet match info with
                | Err e => if IsNotExist e then Ok 0 else Err (fs_error e)
                | Ok (regular, size) =>
                    if negb regular || (size <? 0) then Err (ErrNew ("artifact " +:+ Quote path +:+ " is not a regular file"))
                    else Ok (wrap_u64 size)
                end
       end.

Definition removeIfPresentWithin (root path : string) : aprog (Z * option error) :=
  if String.eqb path "" then IRet (0, None)
  else match validateArtifactPath root path with
       | Some e => IRet (0, Some e)
       | None =>
           let^ info := icall (FS (Lstat path)) in
           match info with
           | Err e => IRet (if IsNotExist e then (0, None) else (0, Some (fs_error e)))
           | Ok (regular, size) =>
               if negb regular then IRet (0, Some (ErrNew ("refuse to remove non-regular artifact " +:+ Quote path)))
               else
                 let^ removed := icall (FS (Remove path)) in
                 match removed with
                 | Some e =>
                     if IsNotExist e then IRet (wrap_u64 size, None)
                     else IRet (0, Some (ErrWrap ("remove finalized artifact " +:+ Quote path) (fs_error e)))
                 | None => IRet (wrap_u64 size, None)
                 end
           end
       end.

(** A fold over the regular files of both directories, with their sizes; [f]
    takes the path and the name of the entry. *)
Fixpoint scan_entries (f : Z -> string -> string -> Z -> Z) (root : string) (entries : list DirEntry) (acc : Z)
    : aprog (result error Z) :=
  match entries with
  | [] => IRet (Ok acc)
  | e :: rest =>
      if negb (de_regular e) then scan_entries f root rest acc
      else
        let path := filepath_Join root (de_name e) in
        let^ info := icall (EntryInfo path) in
        match info with
        | Err err => IRet (Err (fs_error err))
        | Ok i =>
            if fi_size i <? 0 then IRet (Err (ErrNew ("artifact " +:+ Quote path +:+ " has a negative size")))
            else scan_entries f root rest (f acc path (de_name e) (wrap_u64 (fi_size i)))
        end
  end.

Fixpoint scan_roots (f : Z -> string -> string -> Z -> Z) (roots : list string) (acc : Z) : aprog (result error Z) :=
  match roots with
  | [] => IRet (Ok acc)
  | root :: rest =>
      let^ entries := icall (ReadDir root) in
      match entries with
      | Err e => IRet (Err (ErrWrap ("scan artifact directory " +:+ Quote root) (fs_error e)))
      | Ok entries =>
          let^ r := scan_entries f root entries acc in
          match r with Err e => IRet (Err e) | Ok acc => scan_roots f rest acc end
      end
  end.

Definition roots : list string := [sk_logDirectory s; sk_diagnosticDirectory s].

Definition artifactDiskTotal : aprog (result error Z) := scan_roots (fun total _ _ size => saturatingAdd total size) roots 0.

(** A file a sweep cannot free: a temporary of a write under way, one whose
    removal failed, or a referenced one that is no candidate. *)
Definition is_protected (referenced candidates failures : gset string) (path name : string) : bool :=
  let canonical := canonicalPath path in
  isInFlightTemporary name || bool_decide (canonical ∈ failures)
  || (bool_decide (canonical ∈ referenced) && negb (bool_decide (canonical ∈ candidates))).

Definition protectedCountedBytes (referenced candidates failures : gset string) : aprog (result error Z) :=
  scan_roots (fun acc path name size => if is_protected referenced candidates failures path name then saturatingAdd acc size else acc) roots 0.

(** ** Sweeps *)

Record artifactCleanupCandidate := mkCandidate {
  cc_record : JobRecord;
  cc_resourcePath : string;
  cc_size : Z;
}.

(** The directories and paths of a candidate. *)
Definition candidate_files (c : artifactCleanupCandidate) : list (string * string) :=
  [(sk_logDirectory s, jr_LogPath (cc_record c)); (sk_diagnosticDirectory s, jr_DiagnosticPath (cc_record c));
   (sk_diagnosticDirectory s, cc_resourcePath c)].

Definition candidateArtifactPaths (candidates : list artifactCleanupCandidate) : gset string :=
  canonical_set (filter (fun p => p <> "") (flat_map (fun c => (candidate_files c).*2) candidates)).

Record capUnreferencedEntry := mkUnreferenced { cu_path : string; cu_size : Z; cu_modTime : time }.

Definition older_entry (a b : capUnreferencedEntry) : bool :=
  if cu_modTime a =? cu_modTime b then String.ltb (cu_path a) (cu_path b) else cu_modTime a <? cu_modTime b.

(** The regular files of a directory that are neither temporaries nor
    referenced. *)
Fixpoint unreferenced_entries (referenced : gset string) (root : string) (entries : list DirEntry)
    : aprog (result error (list capUnreferencedEntry)) :=
  match entries with
  | [] => IRet (Ok [])
  | e :: rest =>
      let path := filepath_Join root (de_name e) in
      if negb (de_regular e) || isInFlightTemporary (de_name e) || bool_decide (canonicalPath path ∈ referenced)
      then unreferenced_entries referenced root rest
      else
        let^ info := icall (EntryInfo path) in
        match info with
        | Err err => IRet (Err (fs_error err))
        | Ok i =>
            if fi_size i <? 0 then IRet (Err (ErrNew ("artifact " +:+ Quote path +:+ " has a negative size")))
            else
              let^ r := unreferenced_entries referenced root rest in
              IRet match r with Err e => Err e | Ok l => Ok (mkUnreferenced path (wrap_u64 (fi_size i)) (fi_modTime i) :: l) end
        end
  end.

Fixpoint unreferenced_in (referenced : gset string) (directories : list string) : aprog (result error (list capUnreferencedEntry)) :=
  match directories with
  | [] => IRet (Ok [])
  | root :: rest =>
      let^ entries := icall (ReadDir root) in
      match entries with
      | Err e => IRet (Err (ErrWrap ("scan artifact directory " +:+ Quote root) (fs_error e)))
      | Ok entries =>
          let^ r := unreferenced_entries referenced root entries in
          match r with
          | Err e => IRet (Err e)
          | Ok l => let^ r := unreferenced_in referenced rest in IRet match r with Err e => Err e | Ok l' => Ok (l ++ l') end
          end
      end
  end.

(** The removals of the cap sweep: the paths that could not be removed and the
    errors. *)
Fixpoint remove_unreferenced (entries : list capUnreferencedEntry) (total : Z) (failures : gset string) (errs : list (option error))
    : aprog (gset string * option error) :=
  match entries with
  | [] => IRet (failures, errors_Join errs)
  | e :: rest =>
      if total <=? ap_TotalCapBytes (sk_policy s) then IRet (failures, errors_Join errs)
      else
        let^ removed := icall (FS (Remove (cu_path e))) in
        let freed := remove_unreferenced rest (saturatingSub total (cu_size e)) failures errs in
        match removed with
        | Some err =>
            if IsNotExist err then freed
            else remove_unreferenced rest total ({[canonicalPath (cu_path e)]} ∪ failures)
                   (errs ++ [Some (ErrWrap ("remove unreferenced artifact " +:+ Quote (cu_path e)) (fs_error err))])
        | None => freed
        end
  end.

Definition sweepCapUnreferenced (referenced : gset string) (total : Z) : aprog (gset string * option error) :=
  if total <=? ap_TotalCapBytes (sk_policy s) then IRet (∅, None)
  else
    let^ r := unreferenced_in referenced roots in
    match r with
    | Err e => IRet (∅, Some e)
    | Ok entries => remove_unreferenced (sort_by older_entry entries) total ∅ []
    end.

(** The files of one candidate; the bytes left and the errors. *)
Fixpoint remove_files (files : list (string * string)) (total : Z) (errs : list (option error)) : aprog (Z * list (option error)) :=
  match files with
  | [] => IRet (total, errs)
  | (root, path) :: rest =>
      let^ (freed, err) := removeIfPresentWithin root path in
      remove_files rest (saturatingSub total freed) (errs ++ [err])
  end.

Definition tombstone_patch (r : JobRecord) (now : time) : Patch :=
  mkPatch (jr_PoolID r) (jr_RunnerName r) (jr_ContainerID r) (jr_JobID r) "" "" "" 0 0 0 0 0 None (Some now).

Definition expired (now : time) (c : artifactCleanupCandidate) : bool :=
  ap_Retention (sk_policy s) <=? Sub now (jr_FinalizedAt (cc_record c)).

Definition kept (now : time) (total protected : Z) (c : artifactCleanupCandidate) : bool :=
  negb (expired now c) && negb (capDeletionPressure total protected (ap_TotalCapBytes (sk_policy s))).

(** The loop over the candidates, oldest first: [Err] when the context ends. *)
Fixpoint sweep_candidates (now : time) (protected : Z) (candidates : list artifactCleanupCandidate) (total : Z)
    (tombstones : list Patch) (errs : list (option error)) : aprog (result (option error) (list Patch * list (option error))) :=
  match candidates with
  | [] => IRet (Ok (tombstones, errs))
  | c :: rest =>
      let^ canceled := icall CtxError in
      match canceled with
      | Some e => IRet (Err (errors_Join (errs ++ [Some e])))
      | None =>
          if kept now total protected c then IRet (Ok (tombstones, errs))
          else
            let^ (total, removeErrors) := remove_files (candidate_files c) total [] in
            match errors_Join removeErrors with
            | Some e => sweep_candidates now protected rest total tombstones (errs ++ [Some e])
            | None => sweep_candidates now protected rest total (tombstones ++ [tombstone_patch (cc_record c) now]) errs
            end
      end
  end.

Fixpoint orphan_entries (root : string) (referenced : gset string) (cutoff : time) (entries : list DirEntry)
    (errs : list (option error)) : aprog (option error) :=
  match entries with
  | [] => IRet (errors_Join errs)
  | e :: rest =>
      let path := filepath_Join root (de_name e) in
      if bool_decide (canonicalPath path ∈ referenced) then orphan_entries root referenced cutoff rest errs
      else
        let^ info := icall (EntryInfo path) in
        match info with
        | Err err => orphan_entries root referenced cutoff rest (errs ++ [Some (fs_error err)])
        | Ok i =>
            if negb (fi_regular i)
            then orphan_entries root referenced cutoff rest (errs ++ [Some (ErrNew ("refuse to remove non-regular orphan " +:+ Quote path))])
            else if After (fi_modTime i) cutoff then orphan_entries root referenced cutoff rest errs
            else
              let^ removed := icall (FS (Remove path)) in
              match removed with
              | Some err =>
                  if IsNotExist err then orphan_entries root referenced cutoff rest errs
                  else orphan_entries root referenced cutoff rest
                         (errs ++ [Some (ErrWrap ("remove orphan artifact " +:+ Quote path) (fs_error err))])
              | None => orphan_entries root referenced cutoff rest errs
              end
        end
  end.

Definition cleanupOrphans (root : string) (referenced : gset string) (cutoff : time) : aprog (option error) :=
  let^ entries := icall (ReadDir root) in
  match entries with
  | Err e => IRet (Some (ErrWrap ("scan artifact directory " +:+ Quote root) (fs_error e)))
  | Ok entries => orphan_entries root referenced cutoff entries []
  end.

Definition sweepOrphans (referenced : gset string) (now : time) : aprog (option error) :=
  let cutoff := now - ap_Retention (sk_policy s) in
  let^ logs := cleanupOrphans (sk_logDirectory s) referenced cutoff in
  let^ diagnostics := cleanupOrphans (sk_diagnosticDirectory s) referenced cutoff in
  IRet (errors_Join [logs; diagnostics]).

Definition runArtifactSweeps (referenced : gset string) (candidates : list artifactCleanupCandidate) (now : time) : aprog (option error) :=
  let candidatePaths := candidateArtifactPaths candidates in
  let^ total := artifactDiskTotal in
  match total with
  | Err e => IRet (Some e)
  | Ok total =>
      let^ (failures, capErr) := sweepCapUnreferenced referenced total in
      let^ total := artifactDiskTotal in
      match total with
      | Err e => IRet (Some e)
      | Ok total =>
          let^ protected := protectedCountedBytes referenced candidatePaths failures in
          match protected with
          | Err e => IRet (Some e)
          | Ok protected =>
              let^ swept := sweep_candidates now protected candidates total [] [capErr] in
              match swept with
              | Err e => IRet e
              | Ok (tombstones, errs) =>
                  let^ failed := match tombstones with [] => IRet None | _ => icall (JobsUpsertMany tombstones) end in
                  let errs := errs ++ [failed] in
                  let^ orphanErr := sweepOrphans referenced now in
                  IRet (errors_Join (errs ++ [orphanErr]))
              end
          end
      end
  end.

(** ** Retention *)

(** A record the sweeps may delete. *)
Definition disposable (adopted : gset string) (r : JobRecord) : bool :=
  negb (jr_Open r) && negb (bool_decide (jr_ContainerID r ∈ adopted)) && negb (IsZero (jr_FinalizedAt r)).

Definition result_error {A} (r : result error A) : option error := match r with Err e => Some e | Ok _ => None end.
Definition value_or {A} (d : A) (r : result error A) : A := match r with Ok a => a | Err _ => d end.

Fixpoint collect_candidates (adopted : gset string) (records : list JobRecord) (candidates : list artifactCleanupCandidate)
    (errs : list (option error)) : aprog (list artifactCleanupCandidate * list (option error)) :=
  match records with
  | [] => IRet (candidates, errs)
  | r :: rest =>
      if is_tombstoned r then collect_candidates adopted rest candidates errs
      else
        let^ logSize := artifactSizeWithin (sk_logDirectory s) (jr_LogPath r) in
        let^ diagnosticSize := artifactSizeWithin (sk_diagnosticDirectory s) (jr_DiagnosticPath r) in
        let resource := ResourceEvidencePath (jr_DiagnosticPath r) in
        let resourcePath := value_or "" resource in
        let^ resourceSize := artifactSizeWithin (sk_diagnosticDirectory s) resourcePath in
        match errors_Join [result_error logSize; result_error diagnosticSize; result_error resource; result_error resourceSize] with
        | Some e =>
            collect_candidates adopted rest candidates
              (errs ++ [Some (ErrWrap ("validate artifact paths for " +:+ jr_PoolID r +:+ "/" +:+ jr_RunnerName r) e)])
        | None =>
            let size := saturatingAdd (saturatingAdd (value_or 0 logSize) (value_or 0 diagnosticSize)) (value_or 0 resourceSize) in
            collect_candidates adopted rest
              (if disposable adopted r then candidates ++ [mkCandidate r resourcePath size] else candidates) errs
        end
  end.

Definition older_candidate (a b : artifactCleanupCandidate) : bool :=
  let fa := jr_FinalizedAt (cc_record a) in
  let fb := jr_FinalizedAt (cc_record b) in
  if fa =? fb then jr_UpdatedAt (cc_record a) <? jr_UpdatedAt (cc_record b) else fa <? fb.

Definition cleanup (adopted : list ArtifactMetadata) (now : time) : aprog (option error) :=
  let^ loaded := icall JobsLoad in
  match loaded with
  | Err e =>
      if is_sentinel ErrJobsNotFound e then runArtifactSweeps (buildReferencedFromInventory adopted) [] now
      else IRet (Some e)
  | Ok catalog =>
      let referenced := (buildReferencedFromCatalog (cat_Records catalog)).1 ∪ buildReferencedFromInventory adopted in
      let^ (candidates, errs) := collect_candidates (adopted_ids adopted) (cat_Records catalog) [] [] in
      let^ swept := runArtifactSweeps referenced (sort_by older_candidate candidates) now in
      let^ pruned := icall (JobsPruneTombstones (now - ap_Retention (sk_policy s))) in
      IRet (errors_Join (errs ++ [swept; wrapIfError "compact expired artifact tombstones" pruned]))
  end.

(** The sink afterwards and the error. *)
Definition swept_at (now : time) : FileArtifactSink :=
  mkSink (sk_logDirectory s) (sk_diagnosticDirectory s) (sk_policy s) now.

Definition cleanup_due (now : time) : bool :=
  IsZero (sk_lastCleanupAt s) || (ap_CleanupEvery (sk_policy s) <=? Sub now (sk_lastCleanupAt s)).

(** The inventory is indexed as open, and open records without a container are
    closed; the time of it. *)
Definition reconcile_index (adopted : list ArtifactMetadata) : aprog (result error time) :=
  let^ r := indexAdopted adopted in
  match r with
  | Err e => IRet (Err e)
  | Ok (adoptedIDs, records) =>
      let^ now := icall Now in
      let^ failed := reconcileStaleOpen records adoptedIDs now in
      IRet match failed with Some e => Err e | None => Ok now end
  end.

Definition Sink_AdoptAndCleanup (adopted : list ArtifactMetadata) : aprog (FileArtifactSink * option error) :=
  let^ r := reconcile_index adopted in
  match r with
  | Err e => IRet (s, Some e)
  | Ok now =>
      if negb (cleanup_due now) then IRet (s, None)
      else let^ err := cleanup adopted now in IRet (swept_at now, err)
  end.

Definition CleanupNow (adopted : list ArtifactMetadata) : aprog (FileArtifactSink * option error) :=
  let^ r := reconcile_index adopted in
  match r with
  | Err e => IRet (s, Some e)
  | Ok now =>
      let^ err := cleanup adopted now in
      match err with
      | Some e => IRet (s, Some e)
      | None => IRet (swept_at now, None)
      end
  end.

(** ** Audit and purge *)

Inductive ArtifactFileClass :=
  | ArtifactReferencedPresent
  | ArtifactReferencedMissing
  | ArtifactUnreferencedPastCutoff
  | ArtifactUnreferencedWithinCutoff.

#[export] Instance ArtifactFileClass_eq_dec : EqDecision ArtifactFileClass.
Proof. solve_decision. Defined.

Record ArtifactAuditFile := mkAuditFile {
  af_Path : string;
  af_SizeBytes : Z;
  af_Classification : ArtifactFileClass;
  af_InFlightTemporary : bool;
  af_ModifiedAt : time;
}.

(** The counts and bytes by class are maps with the classes that occur. *)
Record ArtifactAuditDirectory := mkAuditDirectory {
  ad_Directory : string;
  ad_TotalBytes : Z;
  ad_Counts : list (ArtifactFileClass * Z);
  ad_BytesByClass : list (ArtifactFileClass * Z);
  ad_Files : list ArtifactAuditFile;
}.

Record TombstonedAdoptedContainer := mkTombstonedAdopted {
  ta_ContainerID : string;
  ta_PoolID : string;
  ta_RunnerName : string;
}.

Record ArtifactAuditReport := mkAuditReport {
  ar_RetentionCutoff : time;
  ar_CatalogAvailable : bool;
  ar_CatalogError : string;
  ar_InventoryAvailable : bool;
  ar_InventoryError : string;
  ar_DropJournalAvailable : bool;
  ar_DropJournalError : option error;
  ar_CompactionsDropped : list DropEntry;
  ar_Directories : list ArtifactAuditDirectory;
  ar_ReferencedMissing : list ArtifactAuditFile;
  ar_TombstonedAdopted : list TombstonedAdoptedContainer;
}.

Record ArtifactPurgeResult := mkPurgeResult {
  pr_DryRun : bool;
  pr_Deleted : list ArtifactAuditFile;
  pr_Skipped : list ArtifactAuditFile;
  pr_TotalBytes : Z;
  pr_DeleteCount : Z;
}.

Definition purged_nothing (dryRun : bool) : ArtifactPurgeResult := mkPurgeResult dryRun [] [] 0 0.

Definition classifyOnDiskArtifact (path : string) (referenced : gset string) (modifiedAt cutoff : time) : ArtifactFileClass :=
  if bool_decide (canonicalPath path ∈ referenced) then ArtifactReferencedPresent
  else if After modifiedAt cutoff then ArtifactUnreferencedWithinCutoff
  else ArtifactUnreferencedPastCutoff.

(** [m[class] += v] on a map of counters, with the width [wrap] of its values. *)
Fixpoint bump_class (wrap : Z -> Z) (c : ArtifactFileClass) (v : Z) (m : list (ArtifactFileClass * Z)) : list (ArtifactFileClass * Z) :=
  match m with
  | [] => [(c, wrap v)]
  | (c', n) :: rest => if decide (c = c') then (c, wrap (n + v)) :: rest else (c', n) :: bump_class wrap c v rest
  end.

Definition add_audit_file (d : ArtifactAuditDirectory) (f : ArtifactAuditFile) : ArtifactAuditDirectory :=
  mkAuditDirectory (ad_Directory d) (wrap_u64 (ad_TotalBytes d + af_SizeBytes f))
    (bump_class id (af_Classification f) 1 (ad_Counts d))
    (bump_class wrap_u64 (af_Classification f) (af_SizeBytes f) (ad_BytesByClass d)) (ad_Files d ++ [f]).

Fixpoint audit_entries (root : string) (referenced : gset string) (cutoff : time) (entries : list DirEntry) (d : ArtifactAuditDirectory)
    : aprog (result error ArtifactAuditDirectory) :=
  match entries with
  | [] => IRet (Ok d)
  | e :: rest =>
      if negb (de_regular e) then audit_entries root referenced cutoff rest d
      else
        let path := filepath_Join root (de_name e) in
        let^ info := icall (EntryInfo path) in
        match info with
        | Err err => IRet (Err (fs_error err))
        | Ok i =>
            audit_entries root referenced cutoff rest
              (add_audit_file d (mkAuditFile path (wrap_u64 (fi_size i)) (classifyOnDiskArtifact path referenced (fi_modTime i) cutoff)
                                             (isInFlightTemporary (de_name e)) (fi_modTime i)))
        end
  end.

Definition auditArtifactDirectory (root : string) (referenced : gset string) (cutoff : time) : aprog (result error ArtifactAuditDirectory) :=
  let^ entries := icall (ReadDir root) in
  match entries with
  | Err e => IRet (Err (ErrWrap ("scan artifact directory " +:+ Quote root) (fs_error e)))
  | Ok entries => audit_entries root referenced cutoff entries (mkAuditDirectory root 0 [] [] [])
  end.

Fixpoint audit_directories (referenced : gset string) (cutoff : time) (directories : list string) (acc : list ArtifactAuditDirectory)
    : aprog (list ArtifactAuditDirectory * option error) :=
  match directories with
  | [] => IRet (acc, None)
  | root :: rest =>
      let^ r := auditArtifactDirectory root referenced cutoff in
      match r with
      | Err e => IRet (acc, Some e)
      | Ok d => audit_directories referenced cutoff rest (acc ++ [d])
      end
  end.

(** The referenced paths that are missing or not regular. *)
Fixpoint missing_paths (paths : list string) (acc : list ArtifactAuditFile) : aprog (list ArtifactAuditFile * option error) :=
  match paths with
  | [] => IRet (acc, None)
  | path :: rest =>
      let missing := mkAuditFile path 0 ArtifactReferencedMissing false 0 in
      let^ info := icall (FS (Lstat path)) in
      match info with
      | Err e =>
          if IsNotExist e then missing_paths rest (acc ++ [missing])
          else IRet (acc, Some (ErrWrap ("inspect referenced artifact " +:+ Quote path) (fs_error e)))
      | Ok (regular, _) => missing_paths rest (if (regular : bool) then acc else acc ++ [missing])
      end
  end.

Definition findTombstonedAdopted (records : list JobRecord) (adopted : list ArtifactMetadata) : list TombstonedAdoptedContainer :=
  let tombstoned : gset string := list_to_set (map key_of (List.filter is_tombstoned records)) in
  map (fun m => mkTombstonedAdopted (am_ContainerID m) (am_PoolID m) (am_WorkerName m))
      (List.filter (fun m => bool_decide (record_key (am_PoolID m) (am_WorkerName m) ∈ tombstoned)) adopted).

(** The journal's entries and its error; a job index without a directory has
    neither. *)
Definition loadDropJournal : aprog (list DropEntry * bool * option error) :=
  let^ r := icall JobsDropJournal in
  IRet match r with
       | None => ([], false, None)
       | Some (Err e) => ([], false, Some e)
       | Some (Ok entries) => (entries, true, None)
       end.

(** The scans of a report, completed by what is known before them. *)
Definition audit_files (referenced : gset string) (cutoff : time) (catalogPaths : list string)
    (report : list ArtifactAuditDirectory -> list ArtifactAuditFile -> ArtifactAuditReport) : aprog (ArtifactAuditReport * option error) :=
  let^ (directories, failed) := audit_directories referenced cutoff roots [] in
  match failed with
  | Some e => IRet (report directories [], Some e)
  | None => let^ (missing, failed) := missing_paths catalogPaths [] in IRet (report directories missing, failed)
  end.

Definition buildAuditReport (records : list JobRecord) (adopted : list ArtifactMetadata) (inventoryAvailable : bool) (inventoryError : string)
    (catalogAvailable : bool) (catalogError : string) : aprog (ArtifactAuditReport * option error) :=
  let^ now := icall Now in
  let cutoff := now - ap_Retention (sk_policy s) in
  let '(fromCatalog, catalogPaths) := buildReferencedFromCatalog records in
  let^ (entries, available, journalError) := loadDropJournal in
  let referenced := fromCatalog ∪ buildReferencedFromInventory adopted ∪ (if available then referencedFromDropJournal entries else ∅) in
  let report directories missing :=
    mkAuditReport cutoff catalogAvailable catalogError inventoryAvailable inventoryError
      (match journalError with Some _ => false | None => true end) journalError entries directories missing
      (if inventoryAvailable then findTombstonedAdopted records adopted else []) in
  audit_files referenced cutoff catalogPaths report.

(** An index that was never written is empty. *)
Definition loadCatalogStrict : aprog (result error (list JobRecord)) :=
  let^ loaded := icall JobsLoad in
  IRet match loaded with
       | Ok c => Ok (cat_Records c)
       | Err e => if is_sentinel ErrJobsNotFound e then Ok [] else Err e
       end.

Definition Audit (adopted : list ArtifactMetadata) (inventoryAvailable : bool) (inventoryError : string)
    : aprog (ArtifactAuditReport * option error) :=
  let^ loaded := loadCatalogStrict in
  match loaded with
  | Ok records => buildAuditReport records adopted inventoryAvailable inventoryError true ""
  | Err e => buildAuditReport [] adopted inventoryAvailable inventoryError false (error_text e)
  end.

Definition removeRegularArtifact (path : string) : aprog (option error) :=
  let^ info := icall (FS (Lstat path)) in
  match info with
  | Err e => IRet (if IsNotExist e then None else Some (fs_error e))
  | Ok (regular, _) =>
      if negb regular then IRet (Some (ErrNew ("refuse to remove non-regular artifact " +:+ Quote path)))
      else
        let^ removed := icall (FS (Remove path)) in
        IRet match removed with
             | Some e => if IsNotExist e then None else Some (ErrWrap ("remove unreferenced artifact " +:+ Quote path) (fs_error e))
             | None => None
             end
  end.

Definition unreferenced_class (c : ArtifactFileClass) : bool :=
  match c with ArtifactUnreferencedPastCutoff | ArtifactUnreferencedWithinCutoff => true | _ => false end.

Fixpoint purge_files (dryRun : bool) (files : list ArtifactAuditFile) (r : ArtifactPurgeResult) : aprog (ArtifactPurgeResult * option error) :=
  match files with
  | [] => IRet (r, None)
  | f :: rest =>
      if negb (unreferenced_class (af_Classification f)) then purge_files dryRun rest r
      else if af_InFlightTemporary f then purge_files dryRun rest {| r with pr_Skipped := pr_Skipped r ++ [f] |}
      else
        let^ failed := if dryRun then IRet None else removeRegularArtifact (af_Path f) in
        match failed with
        | Some e => IRet (r, Some e)
        | None => purge_files dryRun rest
                    {| r with pr_Deleted := pr_Deleted r ++ [f]; pr_TotalBytes := wrap_u64 (pr_TotalBytes r + af_SizeBytes f);
                              pr_DeleteCount := pr_DeleteCount r + 1 |}
        end
  end.

Definition purgeUnreferenced (records : list JobRecord) (adopted : list ArtifactMetadata) (dryRun : bool)
    : aprog (ArtifactPurgeResult * option error) :=
  let^ (report, failed) := buildAuditReport records adopted true "" true "" in
  match failed with
  | Some e => IRet (purged_nothing dryRun, Some e)
  | None => purge_files dryRun (flat_map ad_Files (ar_Directories report)) (purged_nothing dryRun)
  end.

(** The catalog is loaded again after the inventory was indexed. *)
Definition purge_loaded (adopted : list ArtifactMetadata) (dryRun : bool) : aprog (ArtifactPurgeResult * option error) :=
  let^ loaded := loadCatalogStrict in
  match loaded with
  | Err e => IRet (purged_nothing dryRun, Some (ErrWrap "load catalog before purge" e))
  | Ok records => purgeUnreferenced records adopted dryRun
  end.

Definition PurgeUnreferenced (dryRun : bool) : aprog (ArtifactPurgeResult * option error) := purge_loaded [] dryRun.

Definition PurgeUnreferencedNow (adopted : list ArtifactMetadata) (dryRun : bool) : aprog (ArtifactPurgeResult * option error) :=
  let^ r := reconcile_index adopted in
  match r with
  | Err e => IRet (purged_nothing dryRun, Some e)
  | Ok _ => purge_loaded adopted dryRun
  end.
End Sink.
