(* ===== verification/ArtifactsFacts.v ===== *)
(** Theorems on the artifact sink. *)

From S2P Require Import Prelude Float64 GoStrings Regexp GoText Model PlanGates Errors JobIndex Effects Retry Reconciler FileSystem Store StoreFacts Interaction Evidence Docker Artifacts.
From Stdlib Require Import Ascii.
#[local] Open Scope Z_scope.

(** ** The log's truncation *)

Lemma take_bytes_length n s : String.length (take_bytes n s) = Nat.min n (String.length s).
Proof. revert s. induction n as [|n IH]; intros [|a s]; simpl; auto. Qed.

Lemma take_bytes_all n s : (String.length s <= n)%nat -> take_bytes n s = s.
Proof. revert s. induction n as [|n IH]; intros [|a s]; simpl; intros; [done|lia|done|]. f_equal. apply IH. lia. Qed.

Lemma take_bytes_app n s t : take_bytes n (s +:+ t) = take_bytes n s +:+ take_bytes (n - String.length s) t.
Proof.
  revert s. induction n as [|n IH]; intros [|a s]; rewrite ?string_app_cons; simpl; try done. rewrite IH. by rewrite string_app_cons.
Qed.

Lemma size_of_nonneg s : 0 <= size_of s.
Proof. unfold size_of. lia. Qed.

Lemma size_of_app s t : size_of (s +:+ t) = size_of s + size_of t.
Proof. unfold size_of. rewrite string_app_length. lia. Qed.

Lemma size_of_take n s : 0 <= n -> size_of (take_bytes (Z.to_nat n) s) = Z.min n (size_of s).
Proof. unfold size_of. rewrite take_bytes_length. lia. Qed.

(** A file reports how many bytes it took, at most all; these are stored. *)
Definition honest (e : aevent) : Prop :=
  match projT1 e as c return aresp c -> Prop with
  | FileWrite _ bytes => fun r => 0 <= r.1 <= size_of bytes
  | _ => fun _ => True
  end (projT2 e).

Definition stored (e : aevent) : string :=
  match projT1 e as c return aresp c -> string with
  | FileWrite _ bytes => fun r => take_bytes (Z.to_nat r.1) bytes
  | _ => fun _ => ""
  end (projT2 e).

Definition stored_all (tr : list aevent) : string := concat_strings (map stored tr).

Lemma concat_strings_app l l' : concat_strings (l ++ l') = concat_strings l +:+ concat_strings l'.
Proof. induction l as [|s l IH]; simpl; [done|]. by rewrite IH, string_app_assoc. Qed.

Lemma stored_all_app t t' : stored_all (t ++ t') = stored_all t +:+ stored_all t'.
Proof. unfold stored_all. by rewrite map_app, concat_strings_app. Qed.

(** A copy into the log stops at the first failed write. *)
Fixpoint copy_log (w : LogWriter) (values : list string) : aprog (LogWriter * option error) :=
  match values with
  | [] => IRet (w, None)
  | v :: rest =>
      ibind (Log_Write w v) (fun '(w, (_, err)) =>
      match err with Some e => IRet (w, Some e) | None => copy_log w rest end)
  end.

(** The log of an output: all of it when it leaves room for the marker, its
    beginning and the marker otherwise. *)
Definition truncated (limit : Z) (text : string) : string :=
  let room := Z.max 0 (limit - size_of truncationMarker) in
  if size_of text <=? room then text
  else take_bytes (Z.to_nat room) text +:+ take_bytes (Z.to_nat (limit - room)) truncationMarker.

Lemma truncated_content limit text :
  truncated limit text = if size_of text <=? content_limit limit then text
    else take_bytes (Z.to_nat (content_limit limit)) text +:+ take_bytes (Z.to_nat (limit - content_limit limit)) truncationMarker.
Proof.
  assert (Hc : content_limit limit = Z.max 0 (limit - size_of truncationMarker)) by (unfold content_limit; split_if; zb; lia).
  by rewrite Hc.
Qed.

Lemma content_limit_range limit :
  0 <= limit -> 0 <= content_limit limit <= limit /\ limit - content_limit limit <= size_of truncationMarker.
Proof. intros Hl. unfold content_limit. pose proof (size_of_nonneg truncationMarker). split_if; zb; lia. Qed.

Lemma write_file_runs w bytes tr n err :
  iruns (write_file w bytes) tr (n, err) -> Forall honest tr ->
  0 <= n <= size_of bytes /\ stored_all tr = take_bytes (Z.to_nat n) bytes /\ size_of (stored_all tr) = n.
Proof.
  unfold write_file. intros Hr Hh. apply iruns_inv in Hr as ([k e] & tr' & -> & Hr). apply iruns_inv in Hr as [-> Hr].
  simplify_eq. apply Forall_cons_1 in Hh as [Hn _]. unfold honest in Hn. simpl in Hn.
  assert (Hs : stored_all [ev (FileWrite (wr_file w) bytes) (k, e)] = take_bytes (Z.to_nat k) bytes).
  { unfold stored_all. cbn [map concat_strings stored]. by rewrite string_app_nil_r. }
  rewrite Hs. split_and!; [lia|lia|done|]. rewrite size_of_take; lia.
Qed.

Lemma write_error_none n wanted err : write_error n wanted err = None -> n = wanted.
Proof. unfold write_error. destruct err; [done|]. by destruct (Z.eqb_spec n wanted). Qed.

(** One write: within the limit always, and the whole value or its beginning
    and the marker when it succeeds. *)
Record log_write_ok (limit : Z) (w : LogWriter) (v : string) (tr : list aevent) (w' : LogWriter) (err : option error) : Prop := {
  lo_limit : tw_limit w' = limit;
  lo_written : tw_written w' = tw_written w + size_of (stored_all tr);
  lo_bound : tw_written w' <= limit;
  lo_done : tw_truncated w = true -> err = None -> stored_all tr = "" /\ w' = w;
  lo_fits : tw_truncated w = false -> err = None -> tw_written w + size_of v <= content_limit limit ->
            stored_all tr = v /\ tw_truncated w' = false;
  lo_cut : tw_truncated w = false -> err = None -> tw_written w <= content_limit limit < tw_written w + size_of v ->
           stored_all tr = take_bytes (Z.to_nat (content_limit limit - tw_written w)) v
                           +:+ take_bytes (Z.to_nat (limit - content_limit limit)) truncationMarker
           /\ tw_truncated w' = true;
}.

Section LogWrite.
Context (limit : Z) (Hlimit : 0 <= limit <= max_i64).

Lemma written_wraps written n : 0 <= written -> 0 <= n -> written + n <= limit -> wrap_u64 (written + n) = written + n.
Proof. intros. apply wrap_u64_small. revert Hlimit. unfold is_u64, max_i64, max_u64. lia. Qed.

Lemma write_counted_runs w bytes tr w' n err :
  0 <= tw_written w -> tw_written w + size_of bytes <= limit -> iruns (write_counted w bytes) tr (w', n, err) -> Forall honest tr ->
  w' = {| w with tw_written := tw_written w + size_of (stored_all tr) |} /\ size_of (stored_all tr) <= size_of bytes
  /\ (err = None -> stored_all tr = bytes).
Proof.
  intros Hw Hb Hr Hh. unfold write_counted in Hr. destruct (Z.ltb_spec 0 (size_of bytes)) as [Hpos|Hzero].
  - apply iruns_bind_inv in Hr as (t1 & t2 & [k e] & H1 & H2 & ->). apply iruns_inv in H2 as [-> H2]. simplify_eq.
    rewrite app_nil_r in *. apply write_file_runs in H1 as (Hk & Hs & Hsz); [|done].
    rewrite Hsz, written_wraps by lia. split_and!; [done|lia|].
    intros ->%write_error_none. rewrite Hs. apply take_bytes_all. unfold size_of. lia.
  - apply iruns_inv in Hr as [-> Hr]. simplify_eq. assert (bytes = "") as -> by (destruct bytes; [done|unfold size_of in Hzero; simpl in Hzero; lia]).
    unfold stored_all, size_of. simpl. split_and!; [|lia|done]. destruct w; simpl. f_equal. lia.
Qed.

Lemma Log_Write_runs w v tr w' n err :
  tw_limit w = limit -> 0 <= tw_written w <= limit -> iruns (Log_Write w v) tr (w', (n, err)) -> Forall honest tr ->
  log_write_ok limit w v tr w' err.
Proof.
  intros Hlim Hw Hr Hh. pose proof (content_limit_range limit (proj1 Hlimit)) as Hc. pose proof (size_of_nonneg v) as Hv.
  unfold Log_Write in Hr. destruct (tw_truncated w) eqn:Ht.
  { apply iruns_inv in Hr as [-> Hr]. simplify_eq. split; unfold stored_all, size_of; simpl; intros; try done; try congruence; lia. }
  assert (Hpart : content_part w v = Z.min (size_of v) (Z.max 0 (content_limit limit - tw_written w))).
  { unfold content_part. rewrite Hlim. repeat split_if; zb; lia. }
  apply iruns_bind_inv in Hr as (t1 & t2 & [[w1 n1] err1] & H1 & H2 & ->). apply Forall_app in Hh as [Hh1 Hh2].
  apply write_counted_runs in H1 as (Hw1 & Hsz1 & Hall1); [|lia|rewrite size_of_take; lia|done]. rewrite size_of_take in Hsz1 by lia.
  pose proof (size_of_nonneg (stored_all t1)) as Hn1.
  destruct err1 as [e1|].
  { apply iruns_inv in H2 as [-> H2]. simplify_eq. rewrite app_nil_r. split; try done. simpl. lia. }
  specialize (Hall1 eq_refl). destruct (Z.ltb_spec (content_part w v) (size_of v)) as [Hcut|Hfit].
  - apply iruns_bind_inv in H2 as (t3 & t4 & [[w2 n2] err2] & H3 & H4 & ->). apply Forall_app in Hh2 as [Hh3 Hh4].
    assert (Hwr1 : tw_written w1 = tw_written w + content_part w v).
    { rewrite Hw1. simpl. rewrite Hall1, size_of_take; lia. }
    apply write_counted_runs in H3 as (Hw2 & Hsz2 & Hall2); [|lia|rewrite size_of_take; subst w1; simpl in *; lia|done].
    rewrite size_of_take in Hsz2 by (subst w1; simpl in *; lia). pose proof (size_of_nonneg (stored_all t3)) as Hn3.
    assert (Ht4 : t4 = [] /\ tw_limit w' = limit /\ tw_written w' = tw_written w2 /\ err = err2 /\ (err2 = None -> tw_truncated w' = true)).
    { destruct err2 as [e2|]; apply iruns_inv in H4 as [-> H4]; simplify_eq/=; done. }
    destruct Ht4 as (-> & Hlim' & Hwr' & -> & Htr). rewrite app_nil_r.
    assert (Hwr2 : tw_written w2 = tw_written w1 + size_of (stored_all t3)) by (by subst w2).
    split; try done.
    + rewrite stored_all_app, size_of_app, Hwr', Hwr2, Hwr1, Hall1, size_of_take by lia. lia.
    + rewrite Hwr', Hwr2. subst w1. simpl in *. lia.
    + congruence.
    + intros. lia.
    + intros _ Herr Hrange. specialize (Hall2 Herr). rewrite stored_all_app, Hall1, Hall2. split; [|auto]. rewrite Hwr1. subst w1. simpl.
      rewrite Hlim. do 4 f_equal; lia.
  - apply iruns_inv in H2 as [-> H2]. simplify_eq. rewrite app_nil_r. split; try done; simpl; try lia; try congruence.
    + intros _ _ Hfits. split; [|done]. rewrite Hall1. apply take_bytes_all. unfold size_of in *. lia.
Qed.
End LogWrite.

(** The state of a copy: the output so far and what is stored of it. *)
Definition log_holds (limit : Z) (w : LogWriter) (text held : string) : Prop :=
  tw_limit w = limit /\ (tw_written w = size_of held /\ size_of held <= limit)
  /\ if tw_truncated w then content_limit limit < size_of text /\ held = truncated limit text
     else held = text /\ size_of text <= content_limit limit.

Lemma log_write_holds limit w text held v tr w' :
  0 <= limit -> log_holds limit w text held -> log_write_ok limit w v tr w' None -> log_holds limit w' (text +:+ v) (held +:+ stored_all tr).
Proof.
  intros Hl (Hlim & [Hw Hb] & Ht) [Hlim' Hw' Hb' Hdone Hfits Hcut]. pose proof (content_limit_range limit Hl) as Hc.
  unfold log_holds. rewrite size_of_app. split; [done|]. split; [lia|]. destruct (tw_truncated w) eqn:Htr.
  - destruct (Hdone eq_refl eq_refl) as [-> ->]. destruct Ht as [Ht ->]. rewrite Htr, string_app_nil_r, size_of_app.
    pose proof (size_of_nonneg v). split; [lia|]. rewrite !truncated_content, size_of_app.
    rewrite (proj2 (Z.leb_gt _ _)) by lia. rewrite (proj2 (Z.leb_gt _ _)) by lia. rewrite take_bytes_app.
    replace (Z.to_nat (content_limit limit) - String.length text)%nat with 0%nat by (unfold size_of in Ht; lia).
    simpl. by rewrite string_app_nil_r.
  - destruct Ht as [-> Ht]. destruct (Z.le_gt_cases (size_of text + size_of v) (content_limit limit)) as [Hle|Hgt].
    + destruct Hfits as [-> ->]; [done|done|lia|]. split; [done|]. rewrite size_of_app. lia.
    + destruct Hcut as [-> ->]; [done|done|lia|]. rewrite size_of_app. split; [lia|]. rewrite !truncated_content, size_of_app.
      rewrite (proj2 (Z.leb_gt _ _)) by lia. rewrite take_bytes_app, (take_bytes_all _ text) by (unfold size_of in Ht; lia).
      rewrite Hw, <- string_app_assoc. do 3 f_equal. unfold size_of. lia.
Qed.

Lemma copy_log_runs limit values w text held tr w' err :
  0 <= limit <= max_i64 -> log_holds limit w text held -> iruns (copy_log w values) tr (w', err) -> Forall honest tr ->
  size_of (held +:+ stored_all tr) <= limit
  /\ (err = None -> held +:+ stored_all tr = truncated limit (text +:+ concat_strings values)).
Proof.
  intros Hl. revert w text held tr. induction values as [|v values IH]; intros w text held tr Hh Hr Hho; simpl in Hr.
  - apply iruns_inv in Hr as [-> Hr]. simplify_eq. unfold stored_all. simpl. rewrite !string_app_nil_r.
    destruct Hh as (_ & [Hw Hb] & Ht). split; [lia|]. intros _. destruct (tw_truncated w); [by destruct Ht|].
    destruct Ht as [-> Ht]. rewrite truncated_content. by rewrite (proj2 (Z.leb_le _ _)) by lia.
  - apply iruns_bind_inv in Hr as (t1 & t2 & [w1 [n1 err1]] & H1 & H2 & ->). apply Forall_app in Hho as [Hh1 Hh2].
    pose proof Hh as (Hlim & [Hw Hb] & _). pose proof (size_of_nonneg held) as Hnn.
    apply (Log_Write_runs limit Hl) in H1; [|done|lia|done]. rewrite stored_all_app. destruct err1 as [e|].
    + apply iruns_inv in H2 as [-> H2]. simplify_eq. split; [|done]. destruct H1 as [_ Hw1 Hb1 _ _ _].
      unfold stored_all at 2. simpl. rewrite string_app_nil_r, size_of_app. lia.
    + destruct (IH w1 (text +:+ v) (held +:+ stored_all t1) t2) as [Hs Heq]; [eapply log_write_holds; [lia|exact Hh|exact H1]|done|done|].
      rewrite <- string_app_assoc. split; [done|]. intros He. rewrite Heq by done. simpl. by rewrite string_app_assoc.
Qed.

(** However a worker's output is cut into writes, a copy that succeeds stores
    the output itself when it leaves room for the truncation marker and else its
    beginning and the marker; the stored log never exceeds the limit, also when
    the file takes less than it is given. *)
Theorem log_truncation_spec limit destination values tr w err :
  0 <= limit <= max_i64 -> iruns (copy_log (mkLogWriter destination limit 0 false None) values) tr (w, err) -> Forall honest tr ->
  size_of (stored_all tr) <= limit
  /\ (err = None -> stored_all tr = truncated limit (concat_strings values)).
Proof.
  intros Hl Hr Hh. refine (copy_log_runs limit values _ "" "" tr w err Hl _ Hr Hh).
  pose proof (content_limit_range limit (proj1 Hl)). unfold log_holds, size_of. simpl. split_and!; [done|lia|lia|done|lia].
Qed.

(** ** The diagnostic archive *)

(** The bytes written through a bounded writer stay within its limit. *)
Lemma Bounded_Write_runs w v tr w' n err :
  0 <= bw_written w <= bw_limit w -> bw_limit w <= max_i64 -> iruns (Bounded_Write w v) tr (w', (n, err)) -> Forall honest tr ->
  bw_limit w' = bw_limit w /\ bw_written w' = bw_written w + size_of (stored_all tr) /\ bw_written w' <= bw_limit w
  /\ (err = None -> stored_all tr = take_bytes (Z.to_nat n) v).
Proof.
  intros Hw Hmax Hr Hh. unfold Bounded_Write in Hr. destruct (Z.leb_spec (bw_limit w) (bw_written w)).
  { apply iruns_inv in Hr as [-> Hr]. simplify_eq. unfold stored_all, size_of. simpl. split_and!; [done|lia|lia|done]. }
  assert (Hwrap : forall k, 0 <= k -> bw_written w + k <= bw_limit w -> wrap_u64 (bw_written w + k) = bw_written w + k).
  { intros k Hk Hle. apply wrap_u64_small. unfold is_u64, max_i64, max_u64 in *. lia. }
  destruct (Z.ltb_spec (bw_limit w - bw_written w) (size_of v));
    apply iruns_bind_inv in Hr as (t1 & t2 & [k e] & H1 & H2 & ->); apply iruns_inv in H2 as [-> H2]; simplify_eq;
    rewrite app_nil_r in *; apply write_file_runs in H1 as (Hk & Hs & Hsz); try done;
    rewrite ?size_of_take in Hk by lia; rewrite Hsz; simpl; rewrite Hwrap by lia; split_and!; try lia; try done.
  by destruct e.
Qed.

Lemma write_pieces_runs pieces w tr w' err :
  0 <= bw_written w <= bw_limit w -> bw_limit w <= max_i64 -> iruns (write_pieces w pieces) tr (w', err) -> Forall honest tr ->
  bw_limit w' = bw_limit w /\ bw_written w' = bw_written w + size_of (stored_all tr) /\ bw_written w' <= bw_limit w.
Proof.
  revert w tr. induction pieces as [|p pieces IH]; intros w tr Hw Hmax Hr Hh; simpl in Hr.
  { apply iruns_inv in Hr as [-> Hr]. simplify_eq. unfold stored_all, size_of. simpl. split_and!; [done|lia|lia]. }
  apply iruns_bind_inv in Hr as (t1 & t2 & [w1 [n1 err1]] & H1 & H2 & ->). apply Forall_app in Hh as [Hh1 Hh2].
  apply Bounded_Write_runs in H1 as (Hl1 & Hw1 & Hb1 & _); [|done|done|done]. rewrite stored_all_app, size_of_app.
  pose proof (size_of_nonneg (stored_all t1)). destruct err1 as [e|].
  - apply iruns_inv in H2 as [-> H2]. simplify_eq. unfold stored_all at 2, size_of at 2. simpl. split_and!; [done|lia|lia].
  - apply IH in H2 as (Hl2 & Hw2 & Hb2); [|lia|lia|done]. split_and!; [congruence|lia|lia].
Qed.

Lemma compress_bounded {GZ : Gzip} w input readErr tr out :
  bw_written w = 0 -> 0 <= bw_limit w <= max_i64 -> iruns (compress w input readErr) tr out -> Forall honest tr ->
  size_of (stored_all tr) <= bw_limit w.
Proof.
  intros Hz Hl Hr Hh. unfold compress in Hr. apply iruns_bind_inv in Hr as (t1 & t2 & [w1 e1] & H1 & H2 & ->).
  apply Forall_app in Hh as [Hh1 Hh2]. pose proof (size_of_nonneg (stored_all t1)).
  apply write_pieces_runs in H1 as (Hl1 & Hw1 & Hb1); [|lia|lia|done]. rewrite stored_all_app, size_of_app. destruct e1 as [e|].
  - apply iruns_inv in H2 as [-> _]. unfold stored_all at 2, size_of at 2. simpl. lia.
  - apply iruns_bind_inv in H2 as (t3 & t4 & [w2 e2] & H3 & H4 & ->). apply iruns_inv in H4 as [-> _]. rewrite app_nil_r in *.
    apply write_pieces_runs in H3 as (Hl3 & Hw3 & Hb3); [|lia|lia|done]. lia.
Qed.

(** ** Finalization *)

Definition is_upsert (e : aevent) : bool := match projT1 e with JobsUpsert _ => true | _ => false end.

(** ** The durable writes of the sink *)

Section Plans.
Context {PF : Platform} {FP : FilePath}.
Context (s : FileArtifactSink).

Lemma silent_secured label path : silent (secured label path).
Proof.
  unfold secured, hardenAndVerify. apply silent_bind; [|intros; apply silent_ret].
  apply silent_bind; [by apply silent_ask|]. intros [e|]; [apply silent_ret|by apply silent_ask].
Qed.

Lemma temporary_suffix directory prefix suffix pattern random :
  cut_last_star pattern = Some (prefix, suffix) -> exists x, temp_path directory pattern random = x +:+ suffix.
Proof.
  intros Hcut. unfold temp_path. rewrite Hcut. destruct (HasSuffix _ _).
  - exists (directory +:+ prefix +:+ Itoa random). by rewrite !string_app_assoc.
  - exists (directory +:+ String Separator (prefix +:+ Itoa random)). by rewrite !string_app_assoc, string_app_cons, !string_app_assoc.
Qed.

(** Resource evidence that fails after its commit is withdrawn. *)
Lemma evidence_plan_ok path : (forall x, path <> x +:+ ".tmp") -> plan_ok true (evidence_write_plan s path).
Proof.
  intros Hpath. constructor; try done.
  - intros f q [= <-]. apply silent_secured.
  - intros random Heq. cbn [dw_Directory dw_TemporaryPattern dw_Target evidence_write_plan] in Heq.
    destruct (temporary_suffix (sk_diagnosticDirectory s) ".ci-runner-resources-" ".tmp" ".ci-runner-resources-*.tmp" random eq_refl) as [x Hx].
    apply (Hpath x). congruence.
  - intros f [= <-]. apply silent_hook_ok, silent_secured.
  - intros f [= <-]. apply removing_hook_ok.
Qed.
End Plans.

Section Finalize.
Context {PF : Platform} {FP : FilePath} {VO : Volumes} {UC : Unicode}.

(** The file lies in its directory, is regular, is not empty unless it may be,
    and its access rules were verified. *)
Definition verified (root path : string) (allowEmpty : bool) (tr : list aevent) : Prop :=
  validateArtifactPath root path = None
  /\ (exists size, ev (FS (Lstat path)) (Ok (true, size)) ∈ tr /\ (allowEmpty = false -> 0 < size))
  /\ ev (FS (VerifyACL path)) None ∈ tr.

Lemma verified_mono root path allowEmpty tr tr' : verified root path allowEmpty tr -> tr ⊆ tr' -> verified root path allowEmpty tr'.
Proof. intros (Hp & (size & Hs & Hz) & Hv) Hsub. split; [done|]. split; [exists size; split; [by apply Hsub|done]|by apply Hsub]. Qed.

Lemma verifyFinalArtifact_runs root path allowEmpty tr :
  iruns (verifyFinalArtifact root path allowEmpty) tr None -> verified root path allowEmpty tr.
Proof.
  unfold verifyFinalArtifact. destruct (validateArtifactPath root path) eqn:Hp; intros Hr; [by apply iruns_inv in Hr as [_ Hr]|].
  apply iruns_inv in Hr as (info & t & -> & Hr). destruct info as [[regular size]|e]; [|by apply iruns_inv in Hr as [_ Hr]].
  simpl in Hr. destruct (negb regular || (negb allowEmpty && (size <=? 0))) eqn:Hc; [by apply iruns_inv in Hr as [_ Hr]|].
  apply iruns_inv in Hr as (r & t' & -> & Hr). apply iruns_inv in Hr as [-> Hr]. destruct r as [e|]; [done|].
  apply orb_false_iff in Hc as [Hreg Hsize]. apply negb_false_iff in Hreg as ->. split; [done|]. split; [|set_solver].
  exists size. split; [set_solver|]. intros ->. simpl in Hsize. apply Z.leb_gt in Hsize. lia.
Qed.

Lemma verifyFinalArtifact_avoids root path allowEmpty : avoids is_upsert (verifyFinalArtifact root path allowEmpty).
Proof. unfold verifyFinalArtifact. solve_avoids. Qed.

(** A worker's record is finalized, and with it the container released, only
    after the index named its log, its diagnostics and its resource evidence for
    this very container and each file was found in its directory, regular, not
    empty (the log may be) and with verified access rules. *)
Theorem finalized_artifacts_verified s m tr err before e after :
  iruns (Sink_Finalize s m) tr err -> tr = before ++ e :: after -> is_upsert e = true ->
  exists record resourcePath now,
    ev (JobsFindByRunner (am_PoolID m) (am_WorkerName m)) (Ok record) ∈ before
    /\ jr_ContainerID record = am_ContainerID m
    /\ ResourceEvidencePath (jr_DiagnosticPath record) = Ok resourcePath
    /\ verified (sk_logDirectory s) (jr_LogPath record) true before
    /\ verified (sk_diagnosticDirectory s) (jr_DiagnosticPath record) false before
    /\ verified (sk_diagnosticDirectory s) resourcePath false before
    /\ projT1 e = JobsUpsert (let p := identity_patch m (Some false) in {| p with pt_FinalizedAt := now |}).
Proof.
  intros Hr Htr He. unfold Sink_Finalize in Hr. apply iruns_inv in Hr as (found & t & -> & Hr).
  assert (Hnone : forall t', Forall (fun e => is_upsert e = false) t' ->
            ev (JobsFindByRunner (am_PoolID m) (am_WorkerName m)) found :: t' = before ++ e :: after -> False).
  { intros t' Ht' Heq. assert (Hall : Forall (fun e => is_upsert e = false) (before ++ e :: after)) by (rewrite <- Heq; by constructor).
    rewrite Forall_app, Forall_cons in Hall. destruct Hall as (_ & Hf & _). congruence. }
  destruct found as [record|err0]; [|apply iruns_inv in Hr as [-> _]; by edestruct (Hnone []); [constructor|]].
  simpl in Hr. destruct (ResourceEvidencePath (jr_DiagnosticPath record)) as [resourcePath|err0] eqn:Hres;
    [|apply iruns_inv in Hr as [-> _]; by edestruct (Hnone []); [constructor|]].
  destruct (negb (String.eqb (jr_ContainerID record) (am_ContainerID m)) || _ || _ || _) eqn:Hc;
    [apply iruns_inv in Hr as [-> _]; by edestruct (Hnone []); [constructor|]|].
  apply iruns_bind_inv in Hr as (t1 & t2 & log & H1 & Hr & ->). apply iruns_bind_inv in Hr as (t3 & t4 & diag & H3 & Hr & ->).
  apply iruns_bind_inv in Hr as (t5 & t6 & res & H5 & Hr & ->).
  pose proof (verifyFinalArtifact_avoids _ _ _ _ _ H1) as Ha1. pose proof (verifyFinalArtifact_avoids _ _ _ _ _ H3) as Ha3.
  pose proof (verifyFinalArtifact_avoids _ _ _ _ _ H5) as Ha5.
  destruct (errors_Join [log; diag; res]) as [e0|] eqn:Hj.
  { apply iruns_inv in Hr as [-> _]. edestruct (Hnone (t1 ++ t3 ++ t5 ++ [])); [rewrite !Forall_app; by split_and!|done]. }
  apply errors_Join_none in Hj. repeat (apply Forall_cons_1 in Hj as [-> Hj]).
  apply iruns_inv in Hr as (now & t7 & -> & Hr). apply iruns_inv in Hr as (up & t8 & -> & Hr).
  assert (t8 = []) as -> by (by apply iruns_inv in Hr as [-> _]).
  assert (Hsplit : (ev (JobsFindByRunner (am_PoolID m) (am_WorkerName m)) (Ok record) :: t1 ++ t3 ++ t5 ++ [ev Now now])
                   ++ [ev (JobsUpsert (let p := identity_patch m (Some false) in {| p with pt_FinalizedAt := now |})) up] = before ++ e :: after).
  { rewrite <- Htr. simpl. by rewrite <- !app_assoc. }
  apply (split_unique is_upsert) in Hsplit as (-> & -> & ->); [|constructor; [done|rewrite !Forall_app; split_and!; auto]|constructor|done].
  exists record, resourcePath, now. apply orb_false_iff in Hc as [Hc _]. apply orb_false_iff in Hc as [Hc _].
  apply orb_false_iff in Hc as [Hc _]. apply negb_false_iff, String.eqb_eq in Hc.
  split_and!; try done; [set_solver| | |];
    (eapply verified_mono; [by apply verifyFinalArtifact_runs|set_solver]).
Qed.
End Finalize.

(** ** Sweeps *)

Section Sweeps.
Context {PF : Platform} {FP : FilePath} {VO : Volumes} {UC : Unicode}.
Context (s : FileArtifactSink).

Abbreviation cap := (ap_TotalCapBytes (sk_policy s)) (only parsing).

(** What a sweep does: it removes files for which [J] holds, tombstones records
    with patches for which [T] holds, and otherwise only reads. *)
Definition sweep_event (J : string -> Prop) (T : Patch -> Prop) (e : aevent) : Prop :=
  match projT1 e with
  | FS (Remove path) => J path
  | JobsUpsertMany patches => Forall T patches
  | JobsLoad | JobsUpsert _ => False
  | _ => True
  end.

Lemma sweep_event_mono (J J' : string -> Prop) (T T' : Patch -> Prop) e :
  (forall p, J p -> J' p) -> (forall p, T p -> T' p) -> sweep_event J T e -> sweep_event J' T' e.
Proof.
  intros HJ HT. unfold sweep_event. destruct (projT1 e) as [[]| | | | | | |ps| | | | |]; try done; [apply HJ|].
  intros Hp. eapply Forall_impl; [exact Hp|done].
Qed.

(** Reading only. *)
Abbreviation reading := (sweep_event (fun _ => False) (fun _ => False)) (only parsing).

Lemma reading_only {A} (p : aprog A) J T : only reading p -> only (sweep_event J T) p.
Proof. intros Hp. eapply only_mono; [exact Hp|]. intros e. by apply sweep_event_mono. Qed.

Lemma scan_entries_only f root entries acc : only reading (scan_entries f root entries acc).
Proof. revert acc. induction entries as [|e entries IH]; intros acc; simpl; solve_only. Qed.

Lemma scan_roots_only f directories acc : only reading (scan_roots f directories acc).
Proof. revert acc. induction directories as [|root l IH]; intros acc; simpl; solve_only. apply scan_entries_only. Qed.

Lemma artifactDiskTotal_only : only reading (artifactDiskTotal s).
Proof. apply scan_roots_only. Qed.

Lemma protectedCountedBytes_only referenced candidates failures : only reading (protectedCountedBytes s referenced candidates failures).
Proof. apply scan_roots_only. Qed.

(** A file of the sink's directories that nothing refers to. *)
Definition unreferenced_file (referenced : gset string) (path : string) : Prop :=
  exists root name, root ∈ roots s /\ path = filepath_Join root name /\ canonicalPath path ∉ referenced.

Lemma unreferenced_entries_only referenced root entries : only reading (unreferenced_entries referenced root entries).
Proof. induction entries as [|e entries IH]; simpl; solve_only. Qed.

Lemma unreferenced_entries_runs referenced root entries tr l :
  root ∈ roots s -> iruns (unreferenced_entries referenced root entries) tr (Ok l) -> Forall (fun e => unreferenced_file referenced (cu_path e)) l.
Proof.
  intros Hroot. revert tr l. induction entries as [|e entries IH]; intros tr l Hr; simpl in Hr.
  { apply iruns_inv in Hr as [_ Hr]. simplify_eq. constructor. }
  destruct (_ || _ || _) eqn:Hskip; [by eapply IH|]. apply iruns_inv in Hr as (info & t & -> & Hr).
  destruct info as [i|err]; simpl in Hr; [|by apply iruns_inv in Hr as [_ Hr]].
  destruct (fi_size i <? 0); [by apply iruns_inv in Hr as [_ Hr]|].
  apply iruns_bind_inv in Hr as (t1 & t2 & r & H1 & H2 & ->). apply iruns_inv in H2 as [_ H2]. destruct r as [l'|]; [|done]. simplify_eq.
  constructor; [|by eapply IH]. apply orb_false_iff in Hskip as [_ Href]. apply bool_decide_eq_false in Href.
  by exists root, (de_name e).
Qed.

Lemma unreferenced_in_only referenced directories : only reading (unreferenced_in referenced directories).
Proof. induction directories as [|root l IH]; simpl; solve_only. apply unreferenced_entries_only. Qed.

Lemma unreferenced_in_runs referenced directories tr l :
  (forall root, root ∈ directories -> root ∈ roots s) ->
  iruns (unreferenced_in referenced directories) tr (Ok l) -> Forall (fun e => unreferenced_file referenced (cu_path e)) l.
Proof.
  revert tr l. induction directories as [|root ds IH]; intros tr l Hroots Hr; simpl in Hr.
  { apply iruns_inv in Hr as [_ Hr]. simplify_eq. constructor. }
  apply iruns_inv in Hr as (entries & t & -> & Hr). destruct entries as [entries|e]; simpl in Hr; [|by apply iruns_inv in Hr as [_ Hr]].
  apply iruns_bind_inv in Hr as (t1 & t2 & r & H1 & Hr & ->). destruct r as [l1|e]; [|by apply iruns_inv in Hr as [_ Hr]].
  apply iruns_bind_inv in Hr as (t3 & t4 & r & H3 & H4 & ->). apply iruns_inv in H4 as [_ H4]. destruct r as [l2|]; [|done]. simplify_eq.
  apply Forall_app. split; [eapply unreferenced_entries_runs; [|exact H1]; apply Hroots; by left|].
  eapply IH; [|exact H3]. intros r Hr. apply Hroots. by right.
Qed.

Lemma remove_unreferenced_only referenced T entries total failures errs :
  Forall (fun e => unreferenced_file referenced (cu_path e)) entries ->
  only (sweep_event (unreferenced_file referenced) T) (remove_unreferenced s entries total failures errs).
Proof.
  intros Hall. revert total failures errs. induction entries as [|e entries IH]; intros; simpl; [apply only_ret|].
  apply Forall_cons_1 in Hall as [He Hall]. destruct (total <=? _); [apply only_ret|].
  apply only_call; [intros; exact He|]. intros r. specialize (IH Hall). destruct r as [err|]; [destruct (IsNotExist err)|]; apply IH.
Qed.

Lemma sort_by_Forall {A} (lt : A -> A -> bool) (P : A -> Prop) l : Forall P l -> Forall P (sort_by lt l).
Proof. rewrite !Forall_forall. intros HP x Hx. apply HP. by apply elem_of_sort_by in Hx. Qed.

Lemma sweepCapUnreferenced_only referenced T total : only (sweep_event (unreferenced_file referenced) T) (sweepCapUnreferenced s referenced total).
Proof.
  unfold sweepCapUnreferenced. destruct (total <=? _); [apply only_ret|]. intros tr out Hr.
  apply iruns_bind_inv in Hr as (t1 & t2 & r & H1 & H2 & ->). apply Forall_app. split.
  - by eapply reading_only; [apply unreferenced_in_only|].
  - destruct r as [entries|e]; [|by apply iruns_inv in H2 as [-> _]; constructor].
    eapply remove_unreferenced_only; [|exact H2]. apply sort_by_Forall. by eapply unreferenced_in_runs.
Qed.

(** *** Candidates *)

Lemma saturatingSub_le total n : 0 <= n -> 0 <= total -> 0 <= saturatingSub total n <= total.
Proof. unfold saturatingSub. intros. split_if; zb; lia. Qed.

Lemma pressure_mono total total' protected limit :
  total' <= total -> capDeletionPressure total' protected limit = true -> capDeletionPressure total protected limit = true.
Proof. unfold capDeletionPressure, saturatingSub. intros Hle. repeat split_if; intros; zb; try done; lia. Qed.

Lemma removeIfPresentWithin_only (J : string -> Prop) T root path :
  (path <> "" -> validateArtifactPath root path = None -> J path) -> only (sweep_event J T) (removeIfPresentWithin root path).
Proof.
  intros HJ. unfold removeIfPresentWithin. destruct (String.eqb_spec path ""); [apply only_ret|].
  destruct (validateArtifactPath root path) eqn:Hv; [apply only_ret|]. apply only_call; [done|]. intros [[[] ?]|?]; simpl; [|apply only_ret..].
  apply only_call; [intros; by apply HJ|]. intros [e|]; [destruct (IsNotExist e)|]; apply only_ret.
Qed.

(** The bytes that a part of a trace freed: the sizes of the files that were gone
    after their removal, as they were read just before. *)
Definition gone (e : aevent) : bool :=
  match e with existT c r => match c return aresp c -> bool with FS (Remove _) => fun r => match r with Some e => IsNotExist e | None => true end | _ => fun _ => false end r end.

Inductive frees : list aevent -> Z -> Prop :=
  | frees_nil : frees [] 0
  | frees_file path size r t n :
      gone (ev (FS (Remove path)) r) = true -> frees t n ->
      frees (ev (FS (Lstat path)) (Ok (true, size)) :: ev (FS (Remove path)) r :: t) (wrap_u64 size + n)
  | frees_other e t n : gone e = false -> frees t n -> frees (e :: t) n.

Lemma frees_app t1 n1 t2 n2 : frees t1 n1 -> frees t2 n2 -> frees (t1 ++ t2) (n1 + n2).
Proof.
  intros H1 H2. induction H1 as [|path size r t n Hg _ IH|e t n Hg _ IH]; simpl; [done| |by apply frees_other].
  rewrite <- Z.add_assoc. by apply frees_file.
Qed.

Lemma frees_nonneg t n : frees t n -> 0 <= n.
Proof. induction 1 as [|path size r t n _ _ IH|]; [lia|pose proof (proj1 (wrap_u64_range size)); lia|done]. Qed.

Lemma removeIfPresentWithin_frees root path tr freed err : iruns (removeIfPresentWithin root path) tr (freed, err) -> frees tr freed.
Proof.
  unfold removeIfPresentWithin. intros Hr.
  destruct (String.eqb path ""); [apply iruns_inv in Hr as [-> Hr]; simplify_eq; constructor|].
  destruct (validateArtifactPath root path); [apply iruns_inv in Hr as [-> Hr]; simplify_eq; constructor|].
  apply iruns_inv in Hr as (info & t & -> & Hr). destruct info as [[[] size]|e]; simpl in Hr;
    [|by apply iruns_inv in Hr as [-> Hr]; simplify_eq; repeat constructor
     |by destruct (IsNotExist e); apply iruns_inv in Hr as [-> Hr]; simplify_eq; repeat constructor].
  apply iruns_inv in Hr as (r & t' & -> & Hr). destruct r as [e|]; simpl in Hr; [destruct (IsNotExist e) eqn:He|];
    apply iruns_inv in Hr as [-> Hr]; simplify_eq.
  - rewrite <- (Z.add_0_r (wrap_u64 size)). apply frees_file; [done|constructor].
  - repeat (apply frees_other; [done|]). constructor.
  - rewrite <- (Z.add_0_r (wrap_u64 size)). apply frees_file; [done|constructor].
Qed.

Lemma remove_files_only (J : string -> Prop) T files total errs :
  (forall root path, (root, path) ∈ files -> path <> "" -> validateArtifactPath root path = None -> J path) ->
  only (sweep_event J T) (remove_files files total errs).
Proof.
  revert total errs. induction files as [|[root path] files IH]; intros total errs HJ; simpl; [apply only_ret|].
  apply only_ibind; [apply removeIfPresentWithin_only; apply HJ; by left|]. intros [freed err]. apply IH. intros r q Hin. apply HJ. by right.
Qed.

Lemma saturatingSub_add total a b : 0 <= a -> 0 <= b -> saturatingSub (saturatingSub total a) b = saturatingSub total (a + b).
Proof. unfold saturatingSub. intros. repeat split_if; zb; lia. Qed.

Lemma saturatingSub_0 total : 0 <= total -> saturatingSub total 0 = total.
Proof. unfold saturatingSub. intros. split_if; zb; lia. Qed.

Lemma remove_files_runs files total errs tr total' errs' :
  0 <= total -> iruns (remove_files files total errs) tr (total', errs') ->
  exists freed, frees tr freed /\ total' = saturatingSub total freed.
Proof.
  revert total errs tr. induction files as [|[root path] files IH]; intros total errs tr Ht Hr; simpl in Hr.
  { apply iruns_inv in Hr as [-> Hr]. simplify_eq. exists 0. split; [constructor|]. by rewrite saturatingSub_0. }
  apply iruns_bind_inv in Hr as (t1 & t2 & [freed err] & H1 & H2 & ->). apply removeIfPresentWithin_frees in H1.
  pose proof (frees_nonneg _ _ H1) as Hf. apply IH in H2 as (freed' & H2 & ->); [|by apply saturatingSub_le].
  exists (freed + freed'). split; [by apply frees_app|]. apply saturatingSub_add; [done|by eapply frees_nonneg].
Qed.

Lemma kept_false now total protected c :
  kept s now total protected c = false -> expired s now c = true \/ capDeletionPressure total protected cap = true.
Proof. unfold kept. destruct (expired s now c); [by left|]. destruct (capDeletionPressure _ _ _); [by right|done]. Qed.

Lemma sweep_event_remove J T e path : sweep_event J T e -> projT1 e = FS (Remove path) -> J path.
Proof. unfold sweep_event. intros He Heq. by rewrite Heq in He. Qed.

Lemma app_cons_eq_inv {A} (l1 l2 k1 k2 : list A) x :
  k1 ++ x :: k2 = l1 ++ l2 -> (exists k, l1 = k1 ++ x :: k /\ k2 = k ++ l2) \/ (exists k, k1 = l1 ++ k /\ l2 = k ++ x :: k2).
Proof.
  intros [(k & -> & ->)|([|y k] & -> & Hk)]%app_eq_inv; [right; eauto| |]; simplify_eq/=.
  - right. exists []. by rewrite !app_nil_r.
  - left. eauto.
Qed.

(** The removals of a part of a trace take files of one candidate. *)
Definition removes_of (c : artifactCleanupCandidate) (e : aevent) : Prop :=
  sweep_event (fun path => exists root, (root, path) ∈ candidate_files s c) (fun _ => False) e.

(** When a file is removed by the loop: it is one of a candidate that was found
    expired, or over the cap with the bytes left after the earlier candidates. *)
Lemma sweep_candidates_removal now protected candidates total tombstones errs tr out before e after path :
  0 <= total -> iruns (sweep_candidates s now protected candidates total tombstones errs) tr out ->
  tr = before ++ e :: after -> projT1 e = FS (Remove path) ->
  exists c root y z freed, c ∈ candidates /\ before = y ++ z /\ frees y freed /\ Forall (removes_of c) z
    /\ (root, path) ∈ candidate_files s c /\ path <> "" /\ validateArtifactPath root path = None
    /\ (expired s now c = true \/ capDeletionPressure (saturatingSub total freed) protected cap = true).
Proof.
  revert total tombstones errs tr before. induction candidates as [|c candidates IH]; intros total tombstones errs tr before Ht Hr Htr He;
    cbn [sweep_candidates ibind icall] in Hr; [apply iruns_inv in Hr as [-> _]; by destruct before|].
  apply iruns_inv in Hr as (r & t & -> & Hr).
  destruct before as [|e0 before]; [injection Htr as <- _; done|]. injection Htr as <- ->.
  destruct r as [err|]; [apply iruns_inv in Hr as [Hr _]; by destruct before|].
  destruct (kept s now total protected c) eqn:Hk; [apply iruns_inv in Hr as [Hr _]; by destruct before|]. apply kept_false in Hk.
  apply iruns_bind_inv in Hr as (t1 & t2 & [total' errs'] & H1 & H2 & Htr).
  assert (Hown : Forall (sweep_event (fun path => exists root, (root, path) ∈ candidate_files s c /\ path <> "" /\ validateArtifactPath root path = None)
                           (fun _ => False)) t1).
  { eapply remove_files_only; [|exact H1]. eauto. }
  destruct (remove_files_runs _ _ _ _ _ _ Ht H1) as (freed & Hfreed & ->). pose proof (frees_nonneg _ _ Hfreed) as Hf0.
  assert (Hrest : exists tombstones errs, iruns (sweep_candidates s now protected candidates (saturatingSub total freed) tombstones errs) t2 out)
    by (destruct (errors_Join errs'); eauto).
  clear H1 H2. destruct Hrest as (tombstones' & errs'' & H2).
  apply app_cons_eq_inv in Htr as [(k & -> & ->)|(k & -> & ->)].
  - rewrite Forall_app, Forall_cons in Hown. destruct Hown as (Hz & Hown & _). eapply sweep_event_remove in Hown as (root & Hin & Hne & Hv); [|done].
    exists c, root, [ev CtxError None], before, 0. split_and!; try done; [by left|by apply frees_other; [done|constructor]| |].
    + eapply Forall_impl; [exact Hz|]. intros e0. apply sweep_event_mono; [naive_solver|done].
    + by rewrite saturatingSub_0.
  - destruct (IH _ _ _ _ k (proj1 (saturatingSub_le total freed Hf0 Ht)) H2 eq_refl He) as (d & root & y & z & freed' & Hd & -> & Hy & Hz & Hin & Hne & Hv & Hor).
    exists d, root, (ev CtxError None :: t1 ++ y), z, (freed + freed'). split_and!; try done; [by right|by simpl; rewrite <- app_assoc| |].
    + apply frees_other; [done|]. by apply frees_app.
    + rewrite <- saturatingSub_add; [done..|]. by eapply frees_nonneg.
Qed.

Lemma sweep_candidates_only now protected candidates total tombstones errs :
  only (sweep_event (fun _ => True) (fun _ => False)) (sweep_candidates s now protected candidates total tombstones errs).
Proof.
  revert total tombstones errs. induction candidates as [|c candidates IH]; intros total tombstones errs;
    cbn [sweep_candidates ibind icall]; [apply only_ret|].
  apply only_call; [done|]. intros [e|]; [apply only_ret|]. destruct (kept s now total protected c); [apply only_ret|].
  apply only_ibind; [by apply remove_files_only|]. intros [total' errs']. destruct (errors_Join errs'); apply IH.
Qed.

Lemma sweep_candidates_tombstones now protected candidates total tombstones errs tr patches errs' :
  iruns (sweep_candidates s now protected candidates total tombstones errs) tr (Ok (patches, errs')) ->
  Forall (fun p => p ∈ tombstones \/ exists c, c ∈ candidates /\ p = tombstone_patch (cc_record c) now) patches.
Proof.
  revert total tombstones errs tr. induction candidates as [|c candidates IH]; intros total tombstones errs tr Hr;
    cbn [sweep_candidates ibind icall] in Hr.
  { apply iruns_inv in Hr as [_ Hr]. simplify_eq. apply Forall_forall. auto. }
  apply iruns_inv in Hr as (r & t & -> & Hr). destruct r as [e|]; [by apply iruns_inv in Hr as [_ Hr]|].
  destruct (kept s now total protected c).
  { apply iruns_inv in Hr as [_ Hr]. simplify_eq. apply Forall_forall. auto. }
  apply iruns_bind_inv in Hr as (t1 & t2 & [total' errs1] & _ & H2 & _). destruct (errors_Join errs1); apply IH in H2;
    (eapply Forall_impl; [exact H2|]); intros p [Hp|(d & Hd & ->)]; [by left|right; exists d; set_solver| |right; exists d; set_solver].
  apply elem_of_app in Hp as [Hp|Hp%list_elem_of_singleton]; [by left|]. right. exists c. split; [by left|done].
Qed.

(** The loop may stop at the first candidate it keeps: with the oldest first and
    bytes that only shrink, every later one is kept too. *)
Lemma later_candidates_kept now total total' protected c c' :
  kept s now total protected c = true -> total' <= total -> jr_FinalizedAt (cc_record c) <= jr_FinalizedAt (cc_record c') ->
  kept s now total' protected c' = true.
Proof.
  unfold kept, expired. intros [He Hp]%andb_true_iff Hle Hf. apply negb_true_iff, Z.leb_gt in He. apply negb_true_iff in Hp.
  apply andb_true_iff. split; apply negb_true_iff.
  - apply Z.leb_gt. revert He. unfold Sub. lia.
  - destruct (capDeletionPressure total' _ _) eqn:Hp'; [|done]. by rewrite (pressure_mono total total') in Hp.
Qed.

(** *** A whole sweep *)

Lemma scan_entries_runs f root entries acc tr r :
  (forall a p n z, 0 <= a -> 0 <= z -> 0 <= f a p n z) -> 0 <= acc -> iruns (scan_entries f root entries acc) tr (Ok r) -> 0 <= r.
Proof.
  intros Hf. revert acc tr. induction entries as [|e entries IH]; intros acc tr Ha Hr; simpl in Hr.
  { apply iruns_inv in Hr as [_ Hr]. by simplify_eq. }
  destruct (negb (de_regular e)); [by eapply IH|]. apply iruns_inv in Hr as (info & t & -> & Hr).
  destruct info as [i|err]; simpl in Hr; [|by apply iruns_inv in Hr as [_ Hr]].
  destruct (fi_size i <? 0); [by apply iruns_inv in Hr as [_ Hr]|]. eapply IH; [|exact Hr]. apply Hf; [done|apply wrap_u64_range].
Qed.

Lemma scan_roots_runs f directories acc tr r :
  (forall a p n z, 0 <= a -> 0 <= z -> 0 <= f a p n z) -> 0 <= acc -> iruns (scan_roots f directories acc) tr (Ok r) -> 0 <= r.
Proof.
  intros Hf. revert acc tr. induction directories as [|root ds IH]; intros acc tr Ha Hr; simpl in Hr.
  { apply iruns_inv in Hr as [_ Hr]. by simplify_eq. }
  apply iruns_inv in Hr as (entries & t & -> & Hr). destruct entries as [entries|e]; simpl in Hr; [|by apply iruns_inv in Hr as [_ Hr]].
  apply iruns_bind_inv in Hr as (t1 & t2 & [acc'|e] & H1 & Hr & ->); [|by apply iruns_inv in Hr as [_ Hr]].
  eapply IH; [|exact Hr]. by eapply scan_entries_runs.
Qed.

Lemma artifactDiskTotal_nonneg tr total : iruns (artifactDiskTotal s) tr (Ok total) -> 0 <= total.
Proof.
  apply scan_roots_runs; [|lia]. intros a _ _ z Ha Hz. unfold saturatingAdd. split_if; [done|lia].
Qed.

Lemma orphan_entries_only referenced T root cutoff entries errs :
  root ∈ roots s -> only (sweep_event (unreferenced_file referenced) T) (orphan_entries root referenced cutoff entries errs).
Proof.
  intros Hroot. revert errs. induction entries as [|e entries IH]; intros errs; simpl; [apply only_ret|].
  destruct (bool_decide _) eqn:Href; [apply IH|]. apply bool_decide_eq_false in Href. apply only_call; [done|].
  intros [i|err]; [|apply IH]. destruct (negb (fi_regular i)); [apply IH|]. destruct (After _ _); [apply IH|].
  apply only_call; [intros; by exists root, (de_name e)|]. intros [err|]; [destruct (IsNotExist err)|]; apply IH.
Qed.

Lemma sweepOrphans_only referenced T now : only (sweep_event (unreferenced_file referenced) T) (sweepOrphans s referenced now).
Proof.
  unfold sweepOrphans, cleanupOrphans. solve_only; apply orphan_entries_only; unfold roots; set_solver.
Qed.

(** The space of a candidate is needed when its turn comes: the directories were
    scanned, files were removed since, the bytes that are left and can be freed
    still exceed the cap, and what was removed after that decision are files of
    the same candidate. *)
Definition space_needed (referenced : gset string) (candidates : list artifactCleanupCandidate) (c : artifactCleanupCandidate)
    (before : list aevent) : Prop :=
  exists x t1 t2 y z total protected failures freed,
    before = x ++ t1 ++ t2 ++ y ++ z /\ iruns (artifactDiskTotal s) t1 (Ok total)
    /\ iruns (protectedCountedBytes s referenced (candidateArtifactPaths s candidates) failures) t2 (Ok protected)
    /\ frees y freed /\ Forall (removes_of c) z
    /\ capDeletionPressure (saturatingSub total freed) protected cap = true.

Lemma space_needed_after referenced candidates c x t :
  space_needed referenced candidates c t -> space_needed referenced candidates c (x ++ t).
Proof.
  intros (x' & t1 & t2 & y & z & total & protected & failures & freed & -> & Hall).
  exists (x ++ x'), t1, t2, y, z, total, protected, failures, freed. split; [by rewrite <- !app_assoc|done].
Qed.

(** A file of a candidate that is expired or whose space is needed. *)
Definition disposed_file (referenced : gset string) (candidates : list artifactCleanupCandidate) (now : time) (before : list aevent)
    (path : string) : Prop :=
  exists c root, c ∈ candidates /\ (root, path) ∈ candidate_files s c /\ path <> "" /\ validateArtifactPath root path = None
    /\ (expired s now c = true \/ space_needed referenced candidates c before).

Definition tombstones_of (candidates : list artifactCleanupCandidate) (now : time) (p : Patch) : Prop :=
  exists c, c ∈ candidates /\ p = tombstone_patch (cc_record c) now.

(** The loop over the candidates ran on the scans at the end of [t1]. *)
Definition swept_after (referenced : gset string) (candidates : list artifactCleanupCandidate) (now : time) (t1 t2 : list aevent) : Prop :=
  exists x ta tb total protected failures errs out,
    t1 = x ++ ta ++ tb /\ iruns (artifactDiskTotal s) ta (Ok total)
    /\ iruns (protectedCountedBytes s referenced (candidateArtifactPaths s candidates) failures) tb (Ok protected)
    /\ iruns (sweep_candidates s now protected candidates total [] errs) t2 out.

(** The first phase removes unreferenced files; then the scans decide which
    candidates go; the last phase removes old unreferenced files. *)
Lemma runArtifactSweeps_phases referenced candidates now tr out :
  iruns (runArtifactSweeps s referenced candidates now) tr out ->
  exists t1 t2 t3, tr = t1 ++ t2 ++ t3 /\ Forall (sweep_event (unreferenced_file referenced) (fun _ => False)) t1
    /\ (t2 = [] \/ swept_after referenced candidates now t1 t2)
    /\ Forall (sweep_event (unreferenced_file referenced) (tombstones_of candidates now)) t3.
Proof.
  intros Hr. unfold runArtifactSweeps in Hr. apply iruns_bind_inv in Hr as (t1 & r1 & total0 & H1 & Hr & ->).
  pose proof (reading_only _ (unreferenced_file referenced) (fun _ => False) artifactDiskTotal_only) as Htotal.
  pose proof (Htotal _ _ H1) as Ha1.
  destruct total0 as [total0|e]; [|apply iruns_inv in Hr as [-> _]; exists t1, [], []; split_and!; [done..|by left|constructor]].
  apply iruns_bind_inv in Hr as (t2 & r2 & [failures capErr] & H2 & Hr & ->).
  pose proof (sweepCapUnreferenced_only referenced (fun _ => False) _ _ _ H2) as Ha2.
  apply iruns_bind_inv in Hr as (t3 & r3 & total & H3 & Hr & ->). pose proof (Htotal _ _ H3) as Ha3.
  destruct total as [total|e]; [|apply iruns_inv in Hr as [-> _]; exists (t1 ++ t2 ++ t3), [], [];
                                 split_and!; [by rewrite <- !app_assoc|by rewrite !Forall_app|by left|constructor]].
  apply iruns_bind_inv in Hr as (t4 & r4 & protected & H4 & Hr & ->).
  pose proof (reading_only _ (unreferenced_file referenced) (fun _ => False) (protectedCountedBytes_only _ _ _) _ _ H4) as Ha4.
  destruct protected as [protected|e]; [|apply iruns_inv in Hr as [-> _]; exists (t1 ++ t2 ++ t3 ++ t4), [], [];
                                         split_and!; [by rewrite <- !app_assoc|by rewrite !Forall_app|by left|constructor]].
  apply iruns_bind_inv in Hr as (t5 & r5 & swept & H5 & Hr & ->).
  exists (t1 ++ t2 ++ t3 ++ t4), t5, r5. split_and!; [by rewrite <- !app_assoc|by rewrite !Forall_app| |].
  { right. exists (t1 ++ t2), t3, t4, total, protected, failures, [capErr], swept. by rewrite <- !app_assoc. }
  destruct swept as [[tombstones errs]|e]; [|by apply iruns_inv in Hr as [-> _]].
  apply sweep_candidates_tombstones in H5.
  apply iruns_bind_inv in Hr as (t6 & r6 & failed & H6 & Hr & ->). apply iruns_bind_inv in Hr as (t7 & r7 & orphanErr & H7 & Hr & ->).
  apply iruns_inv in Hr as [-> _]. rewrite app_nil_r. apply Forall_app. split.
  - destruct tombstones as [|p ps]; [by apply iruns_inv in H6 as [-> _]|]. apply iruns_inv in H6 as (r & t & -> & H6).
    apply iruns_inv in H6 as [-> _]. constructor; [|done]. eapply Forall_impl; [exact H5|]. by intros p' [Hp'%elem_of_nil|Hp'].
  - by eapply (sweepOrphans_only referenced (tombstones_of candidates now)).
Qed.

Lemma runArtifactSweeps_events referenced candidates now tr out :
  iruns (runArtifactSweeps s referenced candidates now) tr out -> Forall (sweep_event (fun _ => True) (tombstones_of candidates now)) tr.
Proof.
  intros (t1 & t2 & t3 & -> & H1 & H2 & H3)%runArtifactSweeps_phases. rewrite !Forall_app. split_and!.
  - eapply Forall_impl; [exact H1|]. intros e. by apply sweep_event_mono.
  - destruct H2 as [->|(x & ta & tb & total & protected & failures & errs & swept & _ & _ & _ & H2)]; [constructor|].
    apply sweep_candidates_only in H2. eapply Forall_impl; [exact H2|]. intros e. by apply sweep_event_mono.
  - eapply Forall_impl; [exact H3|]. intros e. by apply sweep_event_mono.
Qed.

Lemma runArtifactSweeps_removal referenced candidates now tr out before e after path :
  iruns (runArtifactSweeps s referenced candidates now) tr out -> tr = before ++ e :: after -> projT1 e = FS (Remove path) ->
  unreferenced_file referenced path \/ disposed_file referenced candidates now before path.
Proof.
  intros Hr Htr He. apply runArtifactSweeps_phases in Hr as (t1 & t2 & t3 & -> & H1 & H2 & H3).
  assert (Hother : forall J T l, Forall (sweep_event J T) l -> e ∈ l -> J path).
  { intros J T l Hl Hin. rewrite Forall_forall in Hl. by eapply sweep_event_remove; [apply Hl|]. }
  symmetry in Htr. apply app_cons_eq_inv in Htr as [(k & -> & _)|(b & -> & Htr)].
  { left. eapply Hother; [exact H1|]. set_solver. }
  symmetry in Htr. apply app_cons_eq_inv in Htr as [(k & -> & _)|(b' & -> & ->)]; [|left; eapply Hother; [exact H3|]; set_solver].
  destruct H2 as [H2|(x & ta & tb & total & protected & failures & errs & swept & -> & Ha & Hb & H2)]; [by destruct b|].
  destruct (sweep_candidates_removal _ _ _ _ _ _ _ _ _ _ _ _ (artifactDiskTotal_nonneg _ _ Ha) H2 eq_refl He)
    as (c & root & y & z & freed & Hc & -> & Hy & Hz & Hin & Hne & Hv & Hor).
  right. exists c, root. split_and!; try done. destruct Hor as [Hor|Hor]; [by left|right].
  exists x, ta, tb, y, z, total, protected, failures, freed. split; [by rewrite <- !app_assoc|done].
Qed.

(** ** Retention *)

(** The records a load gives; none when the index was never written. *)
Definition loaded_records (l : result error Catalog) : list JobRecord := match l with Ok c => cat_Records c | Err _ => [] end.

Definition referenced_by (adopted : list ArtifactMetadata) (loaded : result error Catalog) : gset string :=
  (buildReferencedFromCatalog s (loaded_records loaded)).1 ∪ buildReferencedFromInventory s adopted.

(** A live record that is closed, finalized and not in the inventory. *)
Definition candidate_of (adopted : list ArtifactMetadata) (records : list JobRecord) (c : artifactCleanupCandidate) : Prop :=
  cc_record c ∈ records /\ is_tombstoned (cc_record c) = false /\ jr_Open (cc_record c) = false
  /\ (jr_ContainerID (cc_record c) ∉ map am_ContainerID adopted) /\ jr_FinalizedAt (cc_record c) <> 0
  /\ ResourceEvidencePath (jr_DiagnosticPath (cc_record c)) = Ok (cc_resourcePath c).

Lemma artifactSizeWithin_only root path : only reading (artifactSizeWithin root path).
Proof. unfold artifactSizeWithin. solve_only. Qed.

Lemma collect_candidates_only adopted records candidates errs : only reading (collect_candidates s adopted records candidates errs).
Proof.
  revert candidates errs. induction records as [|r records IH]; intros; cbn [collect_candidates]; [apply only_ret|].
  destruct (is_tombstoned r); [apply IH|]. repeat (apply only_ibind; [apply artifactSizeWithin_only|intros ?]).
  destruct (errors_Join _); apply IH.
Qed.

Lemma disposable_parts adopted r : disposable (adopted_ids adopted) r = true ->
  jr_Open r = false /\ (jr_ContainerID r ∉ map am_ContainerID adopted) /\ jr_FinalizedAt r <> 0.
Proof.
  unfold disposable, adopted_ids, IsZero. rewrite !andb_true_iff, !negb_true_iff, bool_decide_eq_false, elem_of_list_to_set, Z.eqb_neq. tauto.
Qed.

Lemma collect_candidates_runs adopted records candidates errs tr candidates' errs' (P : artifactCleanupCandidate -> Prop) :
  iruns (collect_candidates s (adopted_ids adopted) records candidates errs) tr (candidates', errs') ->
  Forall P candidates -> (forall c, candidate_of adopted records c -> P c) -> Forall P candidates'.
Proof.
  revert candidates errs tr. induction records as [|r records IH]; intros candidates errs tr Hr Hc HP; cbn [collect_candidates] in Hr.
  { apply iruns_inv in Hr as [_ Hr]. by simplify_eq. }
  assert (HP' : forall c, candidate_of adopted records c -> P c).
  { intros c (Hin & Hrest). apply HP. split; [by right|done]. }
  destruct (is_tombstoned r) eqn:Ht; [by eapply IH|]. do 3 (apply iruns_bind_inv in Hr as (? & ? & ? & _ & Hr & _)).
  destruct (errors_Join _) as [e|] eqn:Hj; [by eapply IH|]. apply errors_Join_none in Hj.
  assert (Hres : exists path, ResourceEvidencePath (jr_DiagnosticPath r) = Ok path).
  { destruct (ResourceEvidencePath (jr_DiagnosticPath r)); [eauto|]. do 2 apply Forall_cons_1 in Hj as [_ Hj].
    by apply Forall_cons_1 in Hj as [Hj _]. }
  destruct Hres as [path Hpath]. rewrite Hpath in Hr. eapply IH; [exact Hr| |done].
  destruct (disposable (adopted_ids adopted) r) eqn:Hd; [|done]. apply Forall_app. split; [done|]. constructor; [|constructor].
  destruct (disposable_parts _ _ Hd) as (Ho & Hin & Hf). apply HP. split_and!; simpl; [by left|done..].
Qed.

Lemma cleanup_runs adopted now tr out :
  iruns (cleanup s adopted now) tr out ->
  exists loaded x y z candidates swept,
    tr = ev JobsLoad loaded :: x ++ y ++ z /\ Forall reading x /\ Forall reading z
    /\ Forall (candidate_of adopted (loaded_records loaded)) candidates
    /\ (y = [] \/ iruns (runArtifactSweeps s (referenced_by adopted loaded) candidates now) y swept).
Proof.
  intros Hr. unfold cleanup in Hr. cbn [ibind icall] in Hr. apply iruns_inv in Hr as (loaded & t & -> & Hr). exists loaded.
  destruct loaded as [catalog|e].
  - apply iruns_bind_inv in Hr as (x & t1 & [candidates errs] & H1 & Hr & ->). apply iruns_bind_inv in Hr as (y & z & swept & H2 & Hr & ->).
    exists x, y, z, (sort_by older_candidate candidates), swept. split_and!; [done|by eapply collect_candidates_only| | |by right].
    + apply iruns_inv in Hr as (r & t & -> & Hr). apply iruns_inv in Hr as [-> _]. by constructor.
    + apply sort_by_Forall. by eapply collect_candidates_runs.
  - exists [], t, [], [], out. rewrite app_nil_r. split_and!; [done|constructor|constructor|constructor|]. destruct (is_sentinel ErrJobsNotFound e).
    + right. unfold referenced_by. simpl. assert (canonical_set [] = ∅) as -> by done. by rewrite union_empty_l_L.
    + left. by apply iruns_inv in Hr as [-> _].
Qed.

(** What the adoption sends to the index: containers of the inventory as open,
    others as closed. *)
Definition index_event (adopted : list ArtifactMetadata) (e : aevent) : Prop :=
  match projT1 e with
  | JobsUpsert p => (pt_Open p = Some true /\ pt_ContainerID p ∈ adopted_ids adopted)
                    \/ (pt_Open p = Some false /\ pt_ContainerID p ∉ adopted_ids adopted)
  | FS _ | JobsUpsertMany _ => False
  | _ => True
  end.

Lemma adopt_loop_only adopted now l records indexes :
  Forall (fun m => am_ContainerID m ∈ adopted_ids adopted) l -> only (index_event adopted) (adopt_loop now l records indexes).
Proof.
  intros Hl. revert records indexes. induction l as [|m l IH]; intros records indexes; cbn [adopt_loop]; [apply only_ret|].
  apply Forall_cons_1 in Hl as [Hm Hl]. specialize (IH Hl). cbv zeta.
  match goal with |- only _ (if ?b then _ else _) => destruct b end; [apply IH|].
  apply only_call; [intros; left; by split|]. intros [r|e]; simpl; [|apply only_ret]. destruct (indexes !! _); apply IH.
Qed.

Lemma reconcileStaleOpen_only adopted records now : only (index_event adopted) (reconcileStaleOpen records (adopted_ids adopted) now).
Proof.
  induction records as [|r records IH]; cbn [reconcileStaleOpen]; [apply only_ret|].
  destruct (stale_open (adopted_ids adopted) r) eqn:Hs; simpl; [|apply IH].
  apply only_call; [|by intros [?|?]; [apply IH|apply only_ret]]. intros ?. right. split; [done|].
  unfold stale_open in Hs. apply andb_true_iff in Hs as [_ Hs]. by apply negb_true_iff, bool_decide_eq_false in Hs.
Qed.

Lemma indexAdopted_only adopted : only (index_event adopted) (indexAdopted adopted).
Proof.
  assert (Hloop : forall now records indexes, only (index_event adopted) (adopt_loop now adopted records indexes)).
  { intros. apply adopt_loop_only. apply Forall_forall. intros m Hm. unfold adopted_ids. rewrite elem_of_list_to_set.
    apply list_elem_of_fmap. eauto. }
  unfold indexAdopted. solve_only; apply Hloop.
Qed.

Lemma indexAdopted_ids adopted tr ids records : iruns (indexAdopted adopted) tr (Ok (ids, records)) -> ids = adopted_ids adopted.
Proof.
  unfold indexAdopted. cbn [ibind icall]. intros (loaded & t & -> & Hr)%iruns_inv.
  destruct loaded as [c|e]; [|destruct (is_sentinel _ _); [|by apply iruns_inv in Hr as [_ Hr]]];
    apply iruns_inv in Hr as (now & t' & -> & Hr); apply iruns_bind_inv in Hr as (t1 & t2 & [l|e'] & _ & Hr & _);
    apply iruns_inv in Hr as [_ Hr]; by simplify_eq.
Qed.

Lemma reconcile_index_runs adopted tr r :
  iruns (reconcile_index adopted) tr r -> Forall (index_event adopted) tr /\ (forall now, r = Ok now -> ev Now now ∈ tr).
Proof.
  unfold reconcile_index. intros Hr. apply iruns_bind_inv in Hr as (t1 & t2 & [[ids records]|e] & H1 & Hr & ->).
  - pose proof (indexAdopted_only _ _ _ H1) as Ha. apply indexAdopted_ids in H1 as ->. cbn [ibind icall] in Hr.
    apply iruns_inv in Hr as (now & t & -> & Hr). apply iruns_bind_inv in Hr as (t3 & t4 & failed & H3 & Hr & ->).
    apply iruns_inv in Hr as [-> Hr]. pose proof (reconcileStaleOpen_only _ _ _ _ _ H3) as Hb. split.
    + rewrite Forall_app, Forall_cons, Forall_app. done.
    + intros now' ->. destruct failed; simplify_eq. set_solver.
  - apply iruns_inv in Hr as [-> ->]. rewrite app_nil_r. split; [by eapply indexAdopted_only|done].
Qed.

(** The runs of the two operations that sweep. *)
Definition cleaning (adopted : list ArtifactMetadata) (tr : list aevent) : Prop :=
  (exists out, iruns (Sink_AdoptAndCleanup s adopted) tr out) \/ (exists out, iruns (CleanupNow s adopted) tr out).

Lemma cleaning_runs adopted tr :
  cleaning adopted tr ->
  exists t0 t1, tr = t0 ++ t1 /\ Forall (index_event adopted) t0
    /\ (t1 = [] \/ exists now out, ev Now now ∈ t0 /\ iruns (cleanup s adopted now) t1 out).
Proof.
  intros [[out Hr]|[out Hr]]; unfold Sink_AdoptAndCleanup, CleanupNow in Hr;
    apply iruns_bind_inv in Hr as (t0 & t1 & r & H0 & Hr & ->); apply reconcile_index_runs in H0 as [Hix Hnow];
    exists t0, t1; (split; [done|]); (split; [done|]); (destruct r as [now|e]; [|left; by apply iruns_inv in Hr as [-> _]]).
  - destruct (negb _); [left; by apply iruns_inv in Hr as [-> _]|]. apply iruns_bind_inv in Hr as (t2 & t3 & err & H2 & Hr & ->).
    apply iruns_inv in Hr as [-> _]. rewrite app_nil_r. right. exists now, err. auto.
  - apply iruns_bind_inv in Hr as (t2 & t3 & err & H2 & Hr & ->). right. exists now, err.
    destruct err; apply iruns_inv in Hr as [-> _]; rewrite app_nil_r; auto.
Qed.

Definition is_load (e : aevent) : bool := match projT1 e with JobsLoad => true | _ => false end.

Lemma sweep_event_no_load J T l : Forall (sweep_event J T) l -> Forall (fun e => is_load e = false) l.
Proof. intros Hl. eapply Forall_impl; [exact Hl|]. intros e. unfold sweep_event, is_load. by destruct (projT1 e). Qed.

Definition is_removal (e : aevent) : bool := match projT1 e with FS (Remove _) => true | _ => false end.

Lemma removes e path : projT1 e = FS (Remove path) -> is_removal e = true.
Proof. unfold is_removal. by intros ->. Qed.

Lemma no_removal (P : aevent -> Prop) l :
  Forall P l -> (forall e, P e -> is_removal e = false) -> Forall (fun e => is_removal e = false) l.
Proof. intros Hl HP. eapply Forall_impl; [exact Hl|done]. Qed.

Lemma index_event_keeps adopted e : index_event adopted e -> is_removal e = false.
Proof. unfold index_event, is_removal. by destruct (projT1 e) as [[]| | | | | | | | | | | |]. Qed.

Lemma reading_keeps e : reading e -> is_removal e = false.
Proof. unfold sweep_event, is_removal. by destruct (projT1 e) as [[]| | | | | | | | | | | |]. Qed.


(** A container of the inventory is only opened. *)
Definition spares (adopted : list ArtifactMetadata) (e : aevent) : Prop :=
  match projT1 e with
  | JobsUpsert p => pt_ContainerID p ∈ adopted_ids adopted -> pt_Open p = Some true
  | JobsUpsertMany patches => Forall (fun p => pt_ContainerID p ∉ adopted_ids adopted) patches
  | _ => True
  end.

Lemma index_event_spares adopted e : index_event adopted e -> spares adopted e.
Proof. unfold index_event, spares. destruct (projT1 e); try done. by intros [[? _]|[_ ?]] ?. Qed.

Lemma sweep_event_spares adopted J T e :
  sweep_event J T e -> (forall p, T p -> pt_ContainerID p ∉ adopted_ids adopted) -> spares adopted e.
Proof. unfold sweep_event, spares. destruct (projT1 e); try done. intros Hp HT. eapply Forall_impl; [exact Hp|done]. Qed.

Lemma tombstones_spare adopted records candidates now p :
  Forall (candidate_of adopted records) candidates -> tombstones_of candidates now p -> pt_ContainerID p ∉ adopted_ids adopted.
Proof.
  intros Hc (c & Hin & ->). rewrite Forall_forall in Hc. destruct (Hc c Hin) as (_ & _ & _ & Hd & _).
  unfold adopted_ids. by rewrite elem_of_list_to_set.
Qed.

(** Retention never closes or tombstones the record of a container in the
    inventory: what it sends for such a container opens its record. *)
Theorem inventory_survives_cleanup adopted tr : cleaning adopted tr -> Forall (spares adopted) tr.
Proof.
  intros Hrun. apply cleaning_runs in Hrun as (t0 & t1 & -> & H0 & H1). apply Forall_app.
  split; [eapply Forall_impl; [exact H0|apply index_event_spares]|].
  destruct H1 as [->|(now & out & _ & H1)]; [constructor|].
  apply cleanup_runs in H1 as (loaded & x & y & z & candidates & swept & -> & Hx & Hz & Hc & Hy).
  assert (Hreading : forall l, Forall reading l -> Forall (spares adopted) l).
  { intros l Hl. eapply Forall_impl; [exact Hl|]. intros e He. by eapply sweep_event_spares. }
  constructor; [done|]. rewrite !Forall_app. split_and!; [auto| |auto].
  destruct Hy as [->|Hy]; [constructor|]. apply runArtifactSweeps_events in Hy.
  eapply Forall_impl; [exact Hy|]. intros e He. eapply sweep_event_spares; [exact He|]. intros p. by eapply tombstones_spare.
Qed.

(** ** Audit and purge *)

(** A file the audit lists, with what its class promises. *)
Definition audited (referenced : gset string) (f : ArtifactAuditFile) : Prop :=
  exists root name, root ∈ roots s /\ af_Path f = filepath_Join root name /\ af_InFlightTemporary f = isInFlightTemporary name
    /\ (unreferenced_class (af_Classification f) = true <-> canonicalPath (af_Path f) ∉ referenced).

Lemma classify_unreferenced path referenced modifiedAt cutoff :
  unreferenced_class (classifyOnDiskArtifact path referenced modifiedAt cutoff) = true <-> canonicalPath path ∉ referenced.
Proof.
  unfold classifyOnDiskArtifact. destruct (bool_decide _) eqn:Hd; [apply bool_decide_eq_true in Hd|apply bool_decide_eq_false in Hd].
  - split; [done|]. by intros ?.
  - by destruct (After _ _).
Qed.

Lemma audit_entries_runs root referenced cutoff entries d tr d' :
  root ∈ roots s -> Forall (audited referenced) (ad_Files d) -> iruns (audit_entries root referenced cutoff entries d) tr (Ok d') ->
  Forall (audited referenced) (ad_Files d').
Proof.
  intros Hroot. revert d tr. induction entries as [|e entries IH]; intros d tr Hd Hr; cbn [audit_entries] in Hr.
  { apply iruns_inv in Hr as [_ Hr]. by simplify_eq. }
  destruct (negb (de_regular e)); [by eapply IH|]. cbn [ibind icall] in Hr. apply iruns_inv in Hr as (info & t & -> & Hr).
  destruct info as [i|err]; [|by apply iruns_inv in Hr as [_ Hr]]. eapply IH; [|exact Hr]. simpl. apply Forall_app. split; [done|].
  constructor; [|constructor]. exists root, (de_name e). split_and!; try done. apply classify_unreferenced.
Qed.

Lemma audit_directories_runs referenced cutoff ds acc tr out failed :
  (forall root, root ∈ ds -> root ∈ roots s) -> Forall (audited referenced) (flat_map ad_Files acc) ->
  iruns (audit_directories referenced cutoff ds acc) tr (out, failed) -> Forall (audited referenced) (flat_map ad_Files out).
Proof.
  revert acc tr. induction ds as [|root ds IH]; intros acc tr Hroots Hacc Hr; cbn [audit_directories] in Hr.
  { apply iruns_inv in Hr as [_ Hr]. by simplify_eq. }
  apply iruns_bind_inv in Hr as (t1 & t2 & [d|e] & H1 & Hr & ->); [|by apply iruns_inv in Hr as [_ Hr]; simplify_eq].
  unfold auditArtifactDirectory in H1. cbn [ibind icall] in H1. apply iruns_inv in H1 as (entries & t & -> & H1).
  destruct entries as [entries|e]; [|by apply iruns_inv in H1 as [_ H1]].
  apply audit_entries_runs in H1; [|apply Hroots; by left|constructor].
  eapply IH; [|  |exact Hr]; [intros r Hin; apply Hroots; by right|]. rewrite flat_map_app. apply Forall_app. split; [done|]. simpl. by rewrite app_nil_r.
Qed.

Lemma audit_entries_only root referenced cutoff entries d : only reading (audit_entries root referenced cutoff entries d).
Proof. revert d. induction entries as [|e entries IH]; intros d; cbn [audit_entries]; solve_only. Qed.

Lemma audit_directories_only referenced cutoff ds acc : only reading (audit_directories referenced cutoff ds acc).
Proof.
  revert acc. induction ds as [|root ds IH]; intros acc; cbn [audit_directories]; unfold auditArtifactDirectory; solve_only.
  apply audit_entries_only.
Qed.

Lemma missing_paths_only paths acc : only reading (missing_paths paths acc).
Proof. revert acc. induction paths as [|p paths IH]; intros acc; cbn [missing_paths]; solve_only. Qed.

(** The paths a drop journal protects; one that could not be read protects
    nothing. *)
Definition journal_references (j : option (result error (list DropEntry))) : gset string :=
  match j with Some (Ok entries) => referencedFromDropJournal entries | _ => ∅ end.

Lemma audit_files_runs referenced cutoff paths report tr r failed :
  (forall ds missing, ar_Directories (report ds missing) = ds) -> iruns (audit_files s referenced cutoff paths report) tr (r, failed) ->
  Forall reading tr /\ Forall (audited referenced) (flat_map ad_Files (ar_Directories r)).
Proof.
  intros Hds Hr. unfold audit_files in Hr. apply iruns_bind_inv in Hr as (t1 & t2 & [ds f] & H1 & H2 & ->).
  pose proof (audit_directories_only _ _ _ _ _ _ H1) as Ho. apply audit_directories_runs in H1; [|done|constructor]. destruct f as [e|].
  - apply iruns_inv in H2 as [-> H2]. simplify_eq. by rewrite app_nil_r, Hds.
  - apply iruns_bind_inv in H2 as (t3 & t4 & [missing f'] & H3 & H4 & ->). apply iruns_inv in H4 as [-> H4]. simplify_eq.
    rewrite app_nil_r, Hds. split; [apply Forall_app; split; [done|by eapply missing_paths_only]|done].
Qed.

Lemma buildAuditReport_runs records adopted ia ie ca ce tr report failed :
  iruns (buildAuditReport s records adopted ia ie ca ce) tr (report, failed) ->
  Forall reading tr
  /\ exists journal, ev JobsDropJournal journal ∈ tr
     /\ Forall (audited ((buildReferencedFromCatalog s records).1 ∪ buildReferencedFromInventory s adopted ∪ journal_references journal))
               (flat_map ad_Files (ar_Directories report)).
Proof.
  unfold buildAuditReport, loadDropJournal. cbn [ibind icall buildReferencedFromCatalog fst]. intros Hr.
  apply iruns_inv in Hr as (now & t & -> & Hr). apply iruns_inv in Hr as (journal & t' & -> & Hr).
  assert (Hfin : Forall reading t' /\ Forall (audited (canonical_set (flat_map (record_paths s) records)
    ∪ buildReferencedFromInventory s adopted ∪ journal_references journal)) (flat_map ad_Files (ar_Directories report))).
  { by destruct journal as [[entries|e]|]; apply audit_files_runs in Hr. }
  destruct Hfin as [Hread Haud]. split; [by repeat constructor|]. exists journal. split; [set_solver|done].
Qed.

(** A file a purge may remove. *)
Definition purgeable (referenced : gset string) (path : string) : Prop :=
  exists root name, root ∈ roots s /\ path = filepath_Join root name /\ isInFlightTemporary name = false /\ canonicalPath path ∉ referenced.

Lemma purge_files_only referenced T dryRun files r :
  Forall (audited referenced) files ->
  only (sweep_event (fun path => dryRun = false /\ purgeable referenced path) T) (purge_files dryRun files r).
Proof.
  intros Hf. revert r. induction files as [|f files IH]; intros r; cbn [purge_files]; [apply only_ret|].
  apply Forall_cons_1 in Hf as [(root & name & Hroot & Hpath & Htmp & Hun) Hf]. specialize (IH Hf).
  destruct (unreferenced_class (af_Classification f)) eqn:Hclass; [|apply IH]. cbn [negb].
  destruct (af_InFlightTemporary f) eqn:Hfly; [apply IH|].
  apply only_ibind; [|intros [e|]; [apply only_ret|apply IH]]. destruct dryRun; [apply only_ret|].
  unfold removeRegularArtifact. apply only_call; [done|]. intros [[[] ?]|?]; [|apply only_ret..]. apply only_call; [|intros; apply only_ret].
  intros ?. split; [done|]. exists root, name. split_and!; try done. by apply Hun.
Qed.

Lemma purge_loaded_runs adopted dryRun tr out :
  iruns (purge_loaded s adopted dryRun) tr out ->
  exists loaded x y, tr = ev JobsLoad loaded :: x ++ y /\ Forall reading x
    /\ (y = [] \/ exists journal, ev JobsDropJournal journal ∈ x
        /\ Forall (sweep_event (fun path => dryRun = false /\ purgeable (referenced_by adopted loaded ∪ journal_references journal) path) (fun _ => False)) y).
Proof.
  unfold purge_loaded, loadCatalogStrict. cbn [ibind icall]. intros (loaded & t & -> & Hr)%iruns_inv. exists loaded.
  assert (Hgen : iruns (purgeUnreferenced s (loaded_records loaded) adopted dryRun) t out ->
    exists x y, t = x ++ y /\ Forall reading x /\ (y = [] \/ exists journal, ev JobsDropJournal journal ∈ x
      /\ Forall (sweep_event (fun path => dryRun = false /\ purgeable (referenced_by adopted loaded ∪ journal_references journal) path) (fun _ => False)) y)).
  { unfold purgeUnreferenced. intros Hp. apply iruns_bind_inv in Hp as (x & y & [report failed] & H1 & H2 & ->).
    apply buildAuditReport_runs in H1 as (Hread & journal & Hj & Haud). exists x, y. split_and!; try done.
    destruct failed; [left; by apply iruns_inv in H2 as [-> _]|right]. exists journal. split; [done|]. by eapply purge_files_only. }
  destruct loaded as [c|e].
  - destruct (Hgen Hr) as (x & y & -> & Hx & Hy). by exists x, y.
  - destruct (is_sentinel ErrJobsNotFound e) eqn:Hs; [destruct (Hgen Hr) as (x & y & -> & Hx & Hy); by exists x, y|].
    apply iruns_inv in Hr as [-> _]. exists [], []. by repeat split; [constructor|left].
Qed.

(** A purge removes only regular names of the two directories that no live
    record of the index as loaded for it, no container of the inventory and no
    entry of the drop journal it read refers to, and no temporary of a write
    under way; a dry run removes nothing. *)
Theorem purge_spares_referenced adopted dryRun tr out before e after path :
  iruns (PurgeUnreferencedNow s adopted dryRun) tr out \/ (adopted = [] /\ iruns (PurgeUnreferenced s dryRun) tr out) ->
  tr = before ++ e :: after -> projT1 e = FS (Remove path) ->
  dryRun = false
  /\ exists b1 loaded b2 journal,
       before = b1 ++ ev JobsLoad loaded :: b2 /\ Forall (fun e => is_load e = false) b2 /\ ev JobsDropJournal journal ∈ b2
       /\ purgeable (referenced_by adopted loaded ∪ journal_references journal) path.
Proof.
  intros Hrun Htr He. pose proof (removes _ _ He) as Hrem.
  assert (Hsplit : exists t0 t1, tr = t0 ++ t1 /\ Forall (index_event adopted) t0 /\ (t1 = [] \/ iruns (purge_loaded s adopted dryRun) t1 out)).
  { destruct Hrun as [Hr|[-> Hr]]; [|by exists [], tr; split_and!; [|constructor|right]].
    unfold PurgeUnreferencedNow in Hr. apply iruns_bind_inv in Hr as (t0 & t1 & r & H0 & Hr & ->).
    apply reconcile_index_runs in H0 as [Hix _]. exists t0, t1. split_and!; try done.
    destruct r; [by right|left; by apply iruns_inv in Hr as [-> _]]. }
  destruct Hsplit as (t0 & t1 & -> & H0 & H1).
  apply (skip_prefix is_removal) in Htr as (b & -> & Hb); [|by eapply no_removal; [exact H0|apply index_event_keeps]|done].
  destruct H1 as [->|H1]; [by destruct b|]. apply purge_loaded_runs in H1 as (loaded & x & y & -> & Hx & Hy).
  change (ev JobsLoad loaded :: x ++ y) with ((ev JobsLoad loaded :: x) ++ y) in Hb.
  apply (skip_prefix is_removal) in Hb as (b' & -> & Hb); [|constructor; [done|by eapply no_removal; [exact Hx|apply reading_keeps]]|done].
  destruct Hy as [->|(journal & Hj & Hy)]; [by destruct b'|]. rewrite Hb, Forall_app, Forall_cons in Hy. destruct Hy as (Hb' & Hev & _).
  eapply sweep_event_remove in Hev as [-> Hp]; [|done]. split; [done|]. exists t0, loaded, (x ++ b'), journal. split_and!; [done| |set_solver|done].
  apply Forall_app. split; by eapply sweep_event_no_load.
Qed.
End Sweeps.

(** ** Runs on concrete answers *)

Module ArtifactSamples.
#[local] Instance posix : Platform := {| write_through := false; Separator := "/"%char |}.
#[local] Instance posix_paths : FilePath := {| IsAbs := fun p => HasPrefix p "/"; Clean := fun p => p |}.
#[local] Instance posix_volumes : Volumes := {| VolumeName := fun _ => ""; sameWord := String.eqb |}.
#[local] Instance plain_case : Unicode := {| to_lower := fun r => r |}.

Definition sink : FileArtifactSink := mkSink "/l" "/d" (mkArtifactPolicy 100 100 10 50 5) 0.

(** A finished worker, long past the retention. *)
Definition finished : JobRecord :=
  mkJobRecord "pool-a" "runner-1" "c1" "" "" "/l/x.log" "/d/x-diag.tar.gz" 1 None 0 0 2 2 false None.
Definition running : ArtifactMetadata := mkMetadata "c2" "runner-2" "pool-a" "default" 7.

(** Both directories hold one old file of sixty bytes that nobody knows. *)
Definition world (c : acall) (_ : list aevent) : aresp c :=
  match c return aresp c with
  | FS c =>
      match c return fresp c with
      | Lstat _ => Ok (true, 10)
      | CreateTemp _ _ => Ok (1%N, "/l/tmp")
      | OpenFile _ => Ok 1%N
      | ReadLimited _ _ => Ok ""
      | TimeNow => ""
      | CtxErr | LockState | UnlockState | MkdirAll _ | Harden _ | Chmod _ _ | WriteFile _ _ | SyncFile _ | CloseFile _ | Rename _ _
      | SyncDir _ | Remove _ | StatFile _ | VerifyACL _ | LinkFile _ _ => None
      end
  | FileWrite _ bytes => (size_of bytes, None)
  | ReadSource _ => ("", None)
  | ReadDir _ => Ok [mkDirEntry "lost" true]
  | EntryInfo _ => Ok (mkFileInfo true 60 1)
  | JobsLoad => Ok (mkCatalog 1 [finished])
  | JobsUpsert _ => Ok finished
  | JobsFindByRunner _ _ => Ok finished
  | JobsDropJournal => Some (Err (ErrNew "unreadable"))
  | Now => 1000
  | JobsUpsertMany _ | JobsPruneTombstones _ | CtxError => None
  end.

Lemma world_runs {A} (p : aprog A) : iruns p (irun world p []).1 (irun world p []).2.
Proof. apply (irun_iruns world p []). apply surjective_pairing. Qed.

Definition destination : DurableWriter := mkDurableWriter (log_write_plan sink "/l/x.log") 1%N "/l/tmp" false.
Definition output : list string := ["first line"; repeat_string 30 "filler "; "last line"].
Definition copied : list aevent * (LogWriter * option error) := irun world (copy_log (mkLogWriter destination 100 0 false None) output) [].

Lemma log_truncation_spec_witness :
  stored_all copied.1 = "first linefiller filler " +:+ truncationMarker /\ size_of (stored_all copied.1) <= 100
  /\ stored_all copied.1 = truncated 100 (concat_strings output).
Proof.
  assert (Hh : Forall honest copied.1) by (vm_compute; repeat constructor; discriminate).
  pose proof (log_truncation_spec 100 destination output copied.1 copied.2.1 copied.2.2) as Hspec.
  destruct Hspec as [Hsize Heq]; [split; [lia|vm_compute; discriminate]|exact (world_runs _)|exact Hh|].
  split_and!; [vm_compute; reflexivity|exact Hsize|apply Heq; vm_compute; reflexivity].
Defined.

Definition closing : list aevent * option error := irun world (Sink_Finalize sink (mkMetadata "c1" "runner-1" "pool-a" "default" 1)) [].

(** Event [i] of a trace, between what precedes and what follows it. *)
Lemma at_event (tr : list aevent) i e : tr !! i = Some e -> tr = take i tr ++ e :: drop (S i) tr.
Proof. intros Hi. symmetry. by apply take_drop_middle. Qed.

Lemma finalized_artifacts_verified_witness :
  exists record, jr_ContainerID record = "c1" /\ verified "/l" (jr_LogPath record) true (take 8 closing.1).
Proof.
  edestruct (finalized_artifacts_verified sink (mkMetadata "c1" "runner-1" "pool-a" "default" 1) closing.1 closing.2 (take 8 closing.1))
    as (record & path & now & _ & Hc & _ & Hlog & _); [exact (world_runs _)|apply at_event; vm_compute; reflexivity|reflexivity|].
  exists record. split; [exact Hc|exact Hlog].
Defined.

Definition cleaned : list aevent * (FileArtifactSink * option error) := irun world (Sink_AdoptAndCleanup sink [running]) [].


Lemma inventory_survives_cleanup_witness : Forall (spares [running]) cleaned.1 /\ cleaned.1 <> [].
Proof.
  split; [|vm_compute; discriminate]. apply (inventory_survives_cleanup sink). left. eexists. exact (world_runs _).
Defined.

Definition purged : list aevent * (ArtifactPurgeResult * option error) := irun world (PurgeUnreferencedNow sink [running] false) [].

Lemma purge_spares_referenced_witness :
  exists loaded b1 b2 journal, take 15 purged.1 = b1 ++ ev JobsLoad loaded :: b2 /\ ev JobsDropJournal journal ∈ b2.
Proof.
  edestruct (purge_spares_referenced sink [running] false purged.1 purged.2 (take 15 purged.1))
    as (_ & b1 & loaded & b2 & journal & Hb & _ & Hj & _); [left; exact (world_runs _)|apply at_event; vm_compute; reflexivity|reflexivity|].
  exists loaded, b1, b2, journal. split; [exact Hb|exact Hj].
Defined.

(** A drop journal that cannot be read does not stop a purge, although the paths
    it protects are then unknown. *)
Lemma purge_ignores_unreadable_journal :
  ev JobsDropJournal (Some (Err (ErrNew "unreadable"))) ∈ purged.1 /\ ev (FS (Remove "/l/lost")) None ∈ purged.1 /\ purged.2.2 = None.
Proof. vm_compute. split_and!; [repeat first [left; reflexivity|right]..|reflexivity]. Qed.
End ArtifactSamples.
