(* ===== verification/Watchdog.v ===== *)
(** The deadlines of the reconcile loop: the watchdog budget of one step and the
    grace a cancelled step is given (internal/app/controller_main.go), the age at
    which the heartbeat counts as stalled and the goroutine dumps written then
    (internal/controller/goroutine_dump.go).

    Durations and [int] are 64 bits wide; every addition and product the code
    does not guard wraps around here as it does there. *)

From S2P Require Import Prelude Float64 GoStrings Regexp GoText Model Config Validate Errors Effects Reconciler Samples ConfigSamples Interaction.
From stdpp Require Import pretty.
#[local] Open Scope Z_scope.
Open Scope i_scope.

(** ** Saturating arithmetic *)

Definition saturatingMulInt (left right : Z) : Z :=
  if (left <=? 0) || (right <=? 0) then 0
  else
    let product := wrap_i64 (left * right) in
    if negb (Z.quot product left =? right) then max_i64 else product.

Definition saturatingAddInt (left right : Z) : Z :=
  if (left <? 0) || (right <? 0) then 0
  else
    let sum := wrap_i64 (left + right) in
    if sum <? left then max_i64 else sum.

Definition saturatingScaleDuration (unit : duration) (count : Z) : duration :=
  if (unit <=? 0) || (count <=? 0) then 0
  else if Z.quot max_i64 count <? unit then max_i64
  else wrap_i64 (unit * count).

Definition saturatingAddDuration (left right : duration) : duration :=
  if (left <? 0) || (right <? 0) then 0
  else
    let sum := wrap_i64 (left + right) in
    if sum <? left then max_i64 else sum.

(** ** The budget of a step *)

Definition reconcileStepMinRetryAttempts : Z := 3.
Definition reconcileStepOpsPerTarget : Z := 4.
Definition reconcileStepJITOpsPerWorker : Z := 2.
Definition reconcileStepRetirementOpsPerWorker : Z := 1.
Definition reconcileStepRegistrationCheckOpsPerWorker : Z := 1.
Definition reconcileStepIdleConfirmationWaitsPerWorker : Z := 1.
Definition reconcileStepUnregisteredRemovalIdleConfirmationWaitsPerWorker : Z := 1.
Definition reconcileStepDesktopStartAttempts : Z := 2.
Definition reconcileStepJITBudgetFloorWorkers : Z := 64.

Definition reconcileStepWorkerImagePullBudget (cfg : Config) : duration := c_WorkerImagePullTimeout cfg.

Definition maxJitteredBackoff (cfg : Config) : duration :=
  let retry := gh_Retry (c_GitHub cfg) in
  wrap_i64 (rt_Maximum retry + i64_of_f64 (f64_mul (f64_of_Z (rt_Maximum retry)) (rt_JitterRatio retry))).

(** The retryable calls of a step, each counted with every attempt. *)
Definition totalRetryUnits (cfg : Config) (effectiveMaxConcurrentWorkers : Z) : Z :=
  let attempts := Z.max (rt_MaxAttempts (gh_Retry (c_GitHub cfg))) reconcileStepMinRetryAttempts in
  let staticWorkerCap := Z.max (r_MaximumConcurrentWorkers (c_Resources cfg)) 1 in
  let stepOps := wrap_i64 (reconcileStepOpsPerTarget * Z.max (Z.of_nat (length (c_Targets cfg))) 1) in
  let jitOps := saturatingMulInt reconcileStepJITOpsPerWorker
                  (Z.max effectiveMaxConcurrentWorkers reconcileStepJITBudgetFloorWorkers) in
  let retirementOps := wrap_i64 (reconcileStepRetirementOpsPerWorker * staticWorkerCap) in
  let registrationCheckOps := wrap_i64 (reconcileStepRegistrationCheckOpsPerWorker * staticWorkerCap) in
  let totalOps := saturatingAddInt stepOps (saturatingAddInt jitOps (saturatingAddInt retirementOps registrationCheckOps)) in
  saturatingMulInt totalOps attempts.

(** One attempt: a request and the longest wait before the next one. *)
Definition perAttemptBudget (cfg : Config) : duration :=
  wrap_i64 (gh_RequestTimeout (c_GitHub cfg) + maxJitteredBackoff cfg).

Definition reconcileStepTimeout (cfg : Config) (effectiveMaxConcurrentWorkers : Z) : duration :=
  let staticWorkerCap := Z.max (r_MaximumConcurrentWorkers (c_Resources cfg)) 1 in
  let retryBudget := saturatingScaleDuration (perAttemptBudget cfg) (totalRetryUnits cfg effectiveMaxConcurrentWorkers) in
  let githubBudget := saturatingAddDuration retryBudget (Z.quot retryBudget 2) in
  let desktopBudget :=
    saturatingAddDuration
      (saturatingAddDuration
         (saturatingScaleDuration (dd_StartTimeout (c_DockerDesktop cfg)) reconcileStepDesktopStartAttempts)
         (dd_StopTimeout (c_DockerDesktop cfg)))
      (reconcileStepWorkerImagePullBudget cfg) in
  let idleConfirmationWaits :=
    saturatingMulInt (reconcileStepIdleConfirmationWaitsPerWorker
                      + reconcileStepUnregisteredRemovalIdleConfirmationWaitsPerWorker) staticWorkerCap in
  let idleConfirmationBudget := saturatingScaleDuration (dr_IdleConfirmationWindow (c_Drain cfg)) idleConfirmationWaits in
  saturatingAddDuration (saturatingAddDuration githubBudget desktopBudget) idleConfirmationBudget.

Definition ObservedPersistTimeout : duration := 5 * Second.
Definition StepDetachedPersistDrain : duration := 3 * ObservedPersistTimeout.

Definition reconcileStepDrainGrace (cfg : Config) : duration :=
  saturatingAddDuration
    (saturatingAddDuration (gh_RequestTimeout (c_GitHub cfg)) (rt_Maximum (gh_Retry (c_GitHub cfg))))
    StepDetachedPersistDrain.

(** ** [Duration.String] *)

(** The digits of a fraction of [prec] digits, without trailing zeros and with
    its point; [v] loses the digits. *)
Fixpoint fmtFrac (prec : nat) (v : Z) (printed : bool) (acc : string) : string * Z :=
  match prec with
  | O => ((if printed then "." else "") +:+ acc, v)
  | S prec =>
      let digit := v mod 10 in
      let printed := printed || negb (digit =? 0) in
      fmtFrac prec (v / 10) printed (if printed then pretty digit +:+ acc else acc)
  end.

Definition Duration_String (d : duration) : string :=
  let u := Z.abs d in
  let text :=
    if u =? 0 then "0s"
    else if u <? 1000 then pretty u +:+ "ns"
    else if u <? 1000000 then let '(frac, v) := fmtFrac 3 u false "" in pretty v +:+ frac +:+ "µs"
    else if u <? Second then let '(frac, v) := fmtFrac 6 u false "" in pretty v +:+ frac +:+ "ms"
    else
      let '(frac, s) := fmtFrac 9 u false "" in
      let m := s / 60 in
      (if 0 <? m then (if 0 <? m / 60 then pretty (m / 60) +:+ "h" else "") +:+ pretty (m mod 60) +:+ "m" else "")
      +:+ pretty (s mod 60) +:+ frac +:+ "s" in
  if d <? 0 then "-" +:+ text else text.

(** ** The heartbeat *)

Definition ReconcileLivenessIntervals : Z := 6.
Definition ReconcileLivenessFloor : duration := 5 * 60 * Second.

Definition ReconcileLivenessLimit (interval : duration) : duration :=
  if Z.quot max_i64 ReconcileLivenessIntervals <? interval then max_i64
  else Z.max ReconcileLivenessFloor (wrap_i64 (interval * ReconcileLivenessIntervals)).

(** What the watch calls: the file it creates, the dump of the runtime and the
    reconciler's log. *)
Inductive dcall :=
  | DCreate (path : string)
  | DWriteStacks (path : string)
  | DClose (path : string)
  | DHarden (path : string)
  | DRemove (path : string)
  | DLog (event : LogEvent)
  | DLoadHeartbeat.

Definition dresp (c : dcall) : Type :=
  match c with
  | DLog _ => unit
  | DLoadHeartbeat => time
  | _ => option error
  end.

Abbreviation dprog := (iprog dresp).

Definition dask (c : dcall) : dprog (dresp c) := icall c.

(** [filepath.Join] of a directory and a file name, and the format of the instant
    in a dump's name. *)
Class DumpText := {
  dump_path : string -> string -> string;
  dump_stamp : time -> string;
}.

Section Dump.
Context {DT : DumpText}.

Definition dump_name (reason : string) (at_ : time) : string :=
  "controller-goroutines-" +:+ reason +:+ "-" +:+ dump_stamp at_ +:+ ".txt".

(** The [acl] is optional. *)
Definition dumpGoroutines (directory reason : string) (at_ : time) (acl : bool) : dprog (result error string) :=
  let path := dump_path directory (dump_name reason at_) in
  let^ created := dask (DCreate path) in
  match created with
  | Some e => IRet (Err (ErrWrap "create goroutine dump" e))
  | None =>
      let^ written := dask (DWriteStacks path) in
      let^ closed := dask (DClose path) in
      let^ err := (match errors_Join [written; closed] with
                   | Some e => IRet (Some e)
                   | None => if acl then dask (DHarden path) else IRet None
                   end) in
      match err with
      | Some e =>
          let^ removed := dask (DRemove path) in
          IRet (Err (ErrJoin (ErrWrap ("write goroutine dump " +:+ Quote path) e
                              :: match removed with Some r => [r] | None => [] end)))
      | None => IRet (Ok path)
      end
  end.

Definition writeGoroutineDump (cfg : Config) (acl : bool) (reason : string) (at_ : time) : dprog (result error string) :=
  let^ dumped := dumpGoroutines (pa_Diagnostics (c_Paths cfg)) reason at_ acl in
  match dumped with
  | Err e =>
      let^ _ := dask (DLog (mkLogEvent at_ "goroutine-dump-error" (error_text e) "" "" "" "")) in
      IRet (Err e)
  | Ok path =>
      let^ _ := dask (DLog (mkLogEvent at_ "goroutine-dump-written" ("reason=" +:+ reason +:+ " path=" +:+ path) "" "" "" "")) in
      IRet (Ok path)
  end.

Record heartbeatWatch := mkHeartbeatWatch {
  hw_threshold : duration;
  hw_started : time;
  hw_dumped : bool;
}.

Definition newHeartbeatWatch (cfg : Config) (started : time) : heartbeatWatch :=
  mkHeartbeatWatch (ReconcileLivenessLimit (co_ReconcileInterval (c_Controller cfg))) started false.

(** What [check] decides from the heartbeat it read: the watch afterwards, and
    whether a dump is written. *)
Definition heartbeat_verdict (w : heartbeatWatch) (heartbeat now : time) : heartbeatWatch * bool :=
  let last := if Before heartbeat (hw_started w) then hw_started w else heartbeat in
  if Sub now last <? hw_threshold w then ({| w with hw_dumped := false |}, false)
  else if hw_dumped w then (w, false)
  else ({| w with hw_dumped := true |}, true).

Definition check (cfg : Config) (acl : bool) (w : heartbeatWatch) (now : time) : dprog heartbeatWatch :=
  let^ heartbeat := dask DLoadHeartbeat in
  let '(w, dump) := heartbeat_verdict w heartbeat now in
  if dump : bool then let^ _ := writeGoroutineDump cfg acl "heartbeat-stall" now in IRet w else IRet w.

(** The ticks the watch receives before its context is cancelled. *)
Fixpoint watch_ticks (cfg : Config) (acl : bool) (w : heartbeatWatch) (ticks : list time) : dprog heartbeatWatch :=
  match ticks with
  | [] => IRet w
  | now :: ticks => let^ w := check cfg acl w now in watch_ticks cfg acl w ticks
  end.

Definition WatchHeartbeat (cfg : Config) (acl : bool) (started : time) (ticks : list time) : dprog heartbeatWatch :=
  watch_ticks cfg acl (newHeartbeatWatch cfg started) ticks.
End Dump.

(** ** Facts: saturation is a clamp of the exact result *)

Lemma wrap_i64_above z : max_i64 < z <= 2 * max_i64 -> wrap_i64 z = z - 2 ^ 64.
Proof. unfold wrap_i64, max_i64. intros Hz. rewrite <- (Z.mod_unique (z + 2 ^ 63) (2 ^ 64) 1 (z - 2 ^ 63)); lia. Qed.

Lemma wrap_i64_add_r a b : wrap_i64 (a + wrap_i64 b) = wrap_i64 (a + b).
Proof.
  unfold wrap_i64. replace (a + ((b + 2 ^ 63) mod 2 ^ 64 - 2 ^ 63) + 2 ^ 63) with (a + (b + 2 ^ 63) mod 2 ^ 64) by lia.
  rewrite Zplus_mod_idemp_r, Z.add_assoc. done.
Qed.

Definition clamp (z : Z) : Z := Z.min max_i64 z.

Lemma saturating_sum l r :
  0 <= l <= max_i64 -> 0 <= r <= max_i64 -> (if wrap_i64 (l + r) <? l then max_i64 else wrap_i64 (l + r)) = clamp (l + r).
Proof.
  intros Hl Hr. unfold clamp. destruct (decide (l + r <= max_i64)) as [Hs|Hs].
  - rewrite wrap_i64_small by (unfold is_i64, min_i64; lia). destruct (Z.ltb_spec (l + r) l); lia.
  - rewrite wrap_i64_above by lia. unfold max_i64 in *. destruct (Z.ltb_spec (l + r - 2 ^ 64) l); lia.
Qed.

Lemma saturatingAddInt_exact l r : 0 <= l <= max_i64 -> 0 <= r <= max_i64 -> saturatingAddInt l r = clamp (l + r).
Proof.
  intros Hl Hr. unfold saturatingAddInt. destruct (Z.ltb_spec l 0), (Z.ltb_spec r 0); try lia. by apply saturating_sum.
Qed.

Lemma saturatingAddDuration_exact l r : 0 <= l <= max_i64 -> 0 <= r <= max_i64 -> saturatingAddDuration l r = clamp (l + r).
Proof.
  intros Hl Hr. unfold saturatingAddDuration. destruct (Z.ltb_spec l 0), (Z.ltb_spec r 0); try lia. by apply saturating_sum.
Qed.

(** The division test finds every overflow of a product of positive factors. *)
Lemma saturatingMulInt_exact l r : 0 < l -> 0 < r -> saturatingMulInt l r = clamp (l * r).
Proof.
  intros Hl Hr. unfold saturatingMulInt, clamp. destruct (Z.leb_spec l 0), (Z.leb_spec r 0); try lia. simpl.
  destruct (decide (l * r <= max_i64)) as [Hs|Hs].
  - rewrite wrap_i64_small by (unfold is_i64, min_i64; nia).
    rewrite (Z.mul_comm l r), Z.quot_mul by lia. rewrite Z.eqb_refl. simpl. lia.
  - pose proof (wrap_i64_range (l * r)) as [_ Hw]. set (p := wrap_i64 (l * r)) in *.
    destruct (Z.eqb_spec (Z.quot p l) r) as [Hq|Hq]; simpl; [exfalso|lia].
    destruct (decide (0 <= p)) as [Hp|Hp].
    + pose proof (Z.mul_quot_le p l Hp ltac:(lia)). nia.
    + pose proof (Z.quot_opp_l p l ltac:(lia)) as Ho. pose proof (Z.quot_pos (- p) l ltac:(lia) ltac:(lia)). lia.
Qed.

Lemma saturatingScaleDuration_exact unit count :
  0 < unit <= max_i64 -> 0 < count -> saturatingScaleDuration unit count = clamp (unit * count).
Proof.
  intros Hu Hc. unfold saturatingScaleDuration, clamp. destruct (Z.leb_spec unit 0), (Z.leb_spec count 0); try lia. simpl.
  rewrite Z.quot_div_nonneg by (unfold max_i64; lia).
  destruct (Z.ltb_spec (max_i64 / count) unit) as [Hlt|Hge].
  - assert (max_i64 < unit * count); [|lia]. pose proof (Z.mul_succ_div_gt max_i64 count ltac:(lia)). nia.
  - assert (unit * count <= max_i64). { pose proof (Z.mul_div_le max_i64 count ltac:(lia)). nia. }
    rewrite wrap_i64_small by (unfold is_i64, min_i64; nia). lia.
Qed.

Lemma clamp_range z : 0 <= z -> 0 <= clamp z <= max_i64.
Proof. unfold clamp, max_i64. lia. Qed.
Lemma clamp_small z : z <= max_i64 -> clamp z = z.
Proof. unfold clamp. lia. Qed.
Lemma clamp_add_clamp a b : 0 <= a -> 0 <= b -> clamp (clamp a + clamp b) = clamp (a + b).
Proof. unfold clamp, max_i64. lia. Qed.
Lemma clamp_scale_clamp u n : 0 < u -> 0 <= n -> clamp (u * clamp n) = clamp (u * n).
Proof.
  unfold clamp. intros Hu Hn. destruct (Z.min_spec max_i64 n) as [[Hm ->]|[Hm ->]]; [|done].
  assert (0 < max_i64) by (unfold max_i64; lia). rewrite !Z.min_l by nia. done.
Qed.
Lemma clamp_half a : 0 <= a -> clamp (clamp a + clamp a / 2) = clamp (a + a / 2).
Proof.
  unfold clamp. intros Ha. destruct (Z.min_spec max_i64 a) as [[? ->]|[? ->]]; [|done].
  pose proof (Z.div_pos a 2 Ha ltac:(lia)). assert (0 <= max_i64 / 2) by done. lia.
Qed.

(** The worst case of a step, in unbounded arithmetic. *)
Definition exact_attempt (cfg : Config) : Z :=
  gh_RequestTimeout (c_GitHub cfg) + rt_Maximum (gh_Retry (c_GitHub cfg))
  + i64_of_f64 (f64_mul (f64_of_Z (rt_Maximum (gh_Retry (c_GitHub cfg)))) (rt_JitterRatio (gh_Retry (c_GitHub cfg)))).
Definition exact_units (cfg : Config) (workers : Z) : Z :=
  (4 * Z.max (Z.of_nat (length (c_Targets cfg))) 1 + 2 * Z.max workers 64 + 2 * Z.max (r_MaximumConcurrentWorkers (c_Resources cfg)) 1)
  * Z.max (rt_MaxAttempts (gh_Retry (c_GitHub cfg))) 3.
Definition exact_budget (cfg : Config) (workers : Z) : Z :=
  exact_attempt cfg * exact_units cfg workers + exact_attempt cfg * exact_units cfg workers / 2
  + 2 * dd_StartTimeout (c_DockerDesktop cfg) + dd_StopTimeout (c_DockerDesktop cfg) + c_WorkerImagePullTimeout cfg
  + dr_IdleConfirmationWindow (c_Drain cfg) * (2 * Z.max (r_MaximumConcurrentWorkers (c_Resources cfg)) 1).

(** The durations and counts the configuration validates and the loader fills. *)
Record budget_inputs (cfg : Config) : Prop := {
  bi_targets : Z.of_nat (length (c_Targets cfg)) < 2 ^ 60;
  bi_workers : r_MaximumConcurrentWorkers (c_Resources cfg) <= max_i64;
  bi_start : 0 < dd_StartTimeout (c_DockerDesktop cfg) <= max_i64;
  bi_stop : 0 <= dd_StopTimeout (c_DockerDesktop cfg) <= max_i64;
  bi_pull : 0 <= c_WorkerImagePullTimeout cfg <= max_i64;
  bi_window : 0 < dr_IdleConfirmationWindow (c_Drain cfg) <= max_i64;
}.

Lemma totalRetryUnits_exact cfg workers : budget_inputs cfg -> totalRetryUnits cfg workers = clamp (exact_units cfg workers).
Proof.
  intros [Ht Hw _ _ _ _]. unfold totalRetryUnits, exact_units, reconcileStepMinRetryAttempts, reconcileStepOpsPerTarget,
    reconcileStepJITOpsPerWorker, reconcileStepRetirementOpsPerWorker, reconcileStepRegistrationCheckOpsPerWorker, reconcileStepJITBudgetFloorWorkers.
  set (T := Z.max (Z.of_nat _) 1). set (W := Z.max (r_MaximumConcurrentWorkers _) 1). set (E := Z.max workers 64). set (A := Z.max _ 3).
  assert (HT : 1 <= T < 2 ^ 60) by (unfold T; lia). assert (HW : 1 <= W <= max_i64) by (unfold W, max_i64 in *; lia).
  assert (HE : 64 <= E) by (unfold E; lia). assert (HA : 3 <= A) by (unfold A; lia). clearbody T W E A.
  rewrite !wrap_i64_small by (unfold is_i64, min_i64, max_i64 in *; lia).
  rewrite (saturatingMulInt_exact 2) by lia. rewrite (saturatingAddInt_exact (1 * W)) by lia.
  rewrite (saturatingAddInt_exact (clamp (2 * E))) by (apply clamp_range; lia).
  rewrite clamp_add_clamp by lia.
  rewrite <- (clamp_small (4 * T)) at 1 by (unfold max_i64; lia).
  rewrite saturatingAddInt_exact by (apply clamp_range; lia). rewrite clamp_add_clamp by lia.
  rewrite saturatingMulInt_exact by (unfold clamp, max_i64; lia).
  rewrite Z.mul_comm, clamp_scale_clamp by lia. f_equal. lia.
Qed.

(** C34: The watchdog never under-budgets: as long as one attempt fits in a duration,
    the deadline of a step is the exact sum of the worst-case terms, cut at the
    largest duration, whatever overflows on the way. *)
Theorem reconcileStepTimeout_exact cfg workers :
  budget_inputs cfg -> 0 < exact_attempt cfg <= max_i64 ->
  reconcileStepTimeout cfg workers = Z.min max_i64 (exact_budget cfg workers).
Proof.
  intros Hin Hatt. pose proof Hin as [_ Hw Hst Hsp Hpl Hwin].
  assert (Hper : perAttemptBudget cfg = exact_attempt cfg).
  { unfold perAttemptBudget, maxJitteredBackoff, exact_attempt in *. rewrite wrap_i64_add_r, Z.add_assoc.
    apply wrap_i64_small. unfold is_i64, min_i64 in *. lia. }
  unfold reconcileStepTimeout, reconcileStepWorkerImagePullBudget. rewrite Hper, totalRetryUnits_exact by done.
  unfold exact_budget, reconcileStepDesktopStartAttempts, reconcileStepIdleConfirmationWaitsPerWorker,
    reconcileStepUnregisteredRemovalIdleConfirmationWaitsPerWorker.
  assert (Hu : 0 < exact_units cfg workers) by (unfold exact_units; nia).
  set (U := exact_units cfg workers) in *. set (P := exact_attempt cfg) in *. set (W := Z.max (r_MaximumConcurrentWorkers _) 1).
  assert (HW : 1 <= W) by (unfold W; lia).
  assert (HcU : 0 < clamp U) by (unfold clamp, max_i64; lia).
  rewrite (saturatingScaleDuration_exact P) by (lia || done). rewrite clamp_scale_clamp by lia.
  assert (HPU : 0 <= P * U) by nia.
  rewrite Z.quot_div_nonneg by (pose proof (clamp_range _ HPU); lia).
  rewrite (saturatingAddDuration_exact (clamp (P * U))).
  2: by apply clamp_range.
  2: { pose proof (clamp_range _ HPU). split; [apply Z.div_pos; lia|]. apply Z.div_le_upper_bound; lia. }
  rewrite clamp_half by done.
  rewrite (saturatingScaleDuration_exact (dd_StartTimeout _)) by lia.
  rewrite (saturatingAddDuration_exact _ (dd_StopTimeout _)) by (try apply clamp_range; lia).
  rewrite <- (clamp_small (dd_StopTimeout _)) at 1 by lia. rewrite clamp_add_clamp by lia.
  rewrite (saturatingAddDuration_exact _ (c_WorkerImagePullTimeout _)) by (try apply clamp_range; lia).
  rewrite <- (clamp_small (c_WorkerImagePullTimeout _)) at 1 by lia. rewrite clamp_add_clamp by lia.
  assert (HPU2 : 0 <= P * U / 2) by (apply Z.div_pos; lia).
  rewrite (saturatingAddDuration_exact (clamp (P * U + _))) by (apply clamp_range; lia). rewrite clamp_add_clamp by lia.
  rewrite saturatingMulInt_exact by lia.
  rewrite (saturatingScaleDuration_exact (dr_IdleConfirmationWindow _)) by (unfold clamp, max_i64 in *; lia).
  rewrite clamp_scale_clamp by lia.
  rewrite saturatingAddDuration_exact by (apply clamp_range; nia). rewrite clamp_add_clamp by nia.
  unfold clamp. f_equal. lia.
Qed.

(** ** Facts: the heartbeat *)

(** The stall limit is six intervals but not less than the floor, cut at the
    largest duration. *)
Lemma ReconcileLivenessLimit_exact interval :
  0 <= interval -> ReconcileLivenessLimit interval = clamp (Z.max ReconcileLivenessFloor (6 * interval)).
Proof.
  intros Hi. unfold ReconcileLivenessLimit, ReconcileLivenessIntervals, clamp.
  assert (Hq : Z.quot max_i64 6 = max_i64 / 6) by done. rewrite Hq. clear Hq.
  assert (Hf : ReconcileLivenessFloor < max_i64) by done.
  pose proof (Z.mul_div_le max_i64 6 ltac:(lia)). pose proof (Z.mul_succ_div_gt max_i64 6 ltac:(lia)).
  destruct (Z.ltb_spec (max_i64 / 6) interval); [lia|]. rewrite wrap_i64_small by (unfold is_i64, min_i64; lia). lia.
Qed.

Section Episodes.
Context {DT : DumpText}.

(** The heartbeat is stalled at an instant: its age, counted from the start of
    the process at the earliest, has reached the threshold. *)
Definition stalled (w : heartbeatWatch) (now heartbeat : time) : bool :=
  hw_threshold w <=? Sub now (if Before heartbeat (hw_started w) then hw_started w else heartbeat).

(** The instants at which a signal rises. *)
Fixpoint rises (signal : time -> time -> bool) (was : bool) (observed : list (time * time)) : list time :=
  match observed with
  | [] => []
  | (now, heartbeat) :: rest =>
      let high := signal now heartbeat in
      (if high && negb was then [now] else []) ++ rises signal high rest
  end.

(** The heartbeats read and the files created in a run. *)
Definition heartbeats (tr : list (event dresp)) : list time :=
  omap (fun e => match e with existT DLoadHeartbeat h => Some h | _ => None end) tr.
Definition dump_files (tr : list (event dresp)) : list string :=
  omap (fun e => match e with existT (DCreate path) _ => Some path | _ => None end) tr.

Lemma heartbeats_app tr1 tr2 : heartbeats (tr1 ++ tr2) = heartbeats tr1 ++ heartbeats tr2.
Proof. apply omap_app. Qed.
Lemma dump_files_app tr1 tr2 : dump_files (tr1 ++ tr2) = dump_files tr1 ++ dump_files tr2.
Proof. apply omap_app. Qed.

Ltac read_trace :=
  repeat first
  [ rewrite heartbeats_app | rewrite dump_files_app
  | match goal with |- context [heartbeats (@existT _ _ ?c ?r :: ?l)] =>
      first [change (heartbeats (existT c r :: l)) with (heartbeats l) | change (heartbeats (existT c r :: l)) with (r :: heartbeats l)] end
  | match goal with |- context [dump_files (@existT _ _ ?c ?r :: ?l)] =>
      first [change (dump_files (existT c r :: l)) with (dump_files l)
            | match c with DCreate ?p => change (dump_files (existT c r :: l)) with (p :: dump_files l) end] end
  | progress cbn [app] ].

Lemma dump_creates cfg acl reason now tr r :
  iruns (writeGoroutineDump cfg acl reason now) tr r ->
  heartbeats tr = [] /\ dump_files tr = [dump_path (pa_Diagnostics (c_Paths cfg)) (dump_name reason now)].
Proof.
  unfold writeGoroutineDump, dumpGoroutines, dask. intros Hr.
  apply iruns_bind_inv in Hr as (tr1 & tr2 & a & H1 & H2 & ->). inv_runs. destruct r0 as [e|]; inv_runs.
  { by inv_runs. }
  apply iruns_bind_inv in H1 as (tr3 & tr4 & err & H3 & H4 & ->).
  assert (Hn : heartbeats tr3 = [] /\ dump_files tr3 = []). { destruct (errors_Join _); [|destruct acl]; by inv_runs. }
  destruct Hn as [Hh Hf].
  destruct err; inv_runs; unfold ev; read_trace; rewrite Hh, Hf; done.
Qed.

Lemma heartbeat_verdict_spec w h now :
  let '(w', dump) := heartbeat_verdict w h now in
  hw_dumped w' = stalled w now h /\ stalled w' = stalled w /\ dump = stalled w now h && negb (hw_dumped w).
Proof.
  unfold heartbeat_verdict, stalled. rewrite (Z.leb_antisym _ (hw_threshold w)). destruct (_ <? _) eqn:Hs; simpl; [done|].
  by destruct w as [? ? []].
Qed.

(** One dump per stall.  Whatever the heartbeat does and whatever fails while a
    dump is written, the watch reads the heartbeat once per tick and begins
    exactly one dump, named after that tick, for each tick at which the heartbeat
    goes from fresh to stalled. *)
Theorem one_dump_per_stall cfg acl w ticks tr w' :
  iruns (watch_ticks cfg acl w ticks) tr w' ->
  length (heartbeats tr) = length ticks /\
  dump_files tr =
    map (fun now => dump_path (pa_Diagnostics (c_Paths cfg)) (dump_name "heartbeat-stall" now))
        (rises (stalled w) (hw_dumped w) (combine ticks (heartbeats tr))).
Proof.
  revert w tr. induction ticks as [|now ticks IH]; intros w tr Hr; cbn [watch_ticks] in Hr; [by inv_runs|].
  apply iruns_bind_inv in Hr as (tr1 & tr2 & w1 & H1 & H2 & ->). apply IH in H2 as [Hlen Hfiles].
  assert (Hstep : exists h, heartbeats tr1 = [h] /\ hw_dumped w1 = stalled w now h /\ stalled w1 = stalled w /\
    dump_files tr1 = map (fun now => dump_path (pa_Diagnostics (c_Paths cfg)) (dump_name "heartbeat-stall" now))
                         (if stalled w now h && negb (hw_dumped w) then [now] else [])).
  { unfold check in H1. apply iruns_bind_inv in H1 as (ta & tb & h & Ha & Hb & ->).
    apply iruns_inv in Ha as (r & t & -> & Ha). apply iruns_inv in Ha as [-> <-].
    pose proof (heartbeat_verdict_spec w h now) as Hv. destruct (heartbeat_verdict w h now) as [wv dump]. destruct Hv as (Hd & Hs & Hdump).
    exists h. destruct dump; rewrite <- Hdump; [|by apply iruns_inv in Hb as [-> ->]].
    apply iruns_bind_inv in Hb as (tr3 & tr4 & res & H3 & H4 & ->). inv_runs. apply dump_creates in H3 as [Hh Hf].
    unfold ev. read_trace. by rewrite Hh, Hf. }
  destruct Hstep as (h & Hh & Hd & Hst & Hf). rewrite heartbeats_app, dump_files_app, Hf, Hfiles, Hh.
  simpl. split; [by rewrite Hlen|]. by rewrite map_app, Hd, Hst.
Qed.

(** A dump that is reported as written was hardened when there is an access
    controller, and one that failed after its file was created was removed. *)
Lemma dump_private cfg reason now tr r :
  iruns (writeGoroutineDump cfg true reason now) tr r ->
  let path := dump_path (pa_Diagnostics (c_Paths cfg)) (dump_name reason now) in
  match r with
  | Ok p => p = path /\ ev (DHarden path) None ∈ tr
  | Err _ => ev (DCreate path) None ∈ tr -> exists removed, ev (DRemove path) removed ∈ tr
  end.
Proof.
  intros Hr path. unfold writeGoroutineDump, dumpGoroutines, dask in Hr. apply iruns_bind_inv in Hr as (tr1 & tr2 & a & H1 & H2 & ->).
  inv_runs. destruct r0 as [e|]; inv_runs.
  { intros [Heq|Hin]%elem_of_cons.
    - by apply (f_equal (fun e : event dresp => match e with existT (DCreate _) answer => answer | _ => None end)) in Heq.
    - apply elem_of_cons in Hin as [Heq|Hin]; [by apply (f_equal (@projT1 _ _)) in Heq|by apply elem_of_nil in Hin]. }
  apply iruns_bind_inv in H1 as (tr3 & tr4 & err & H3 & H4 & ->). destruct err as [e|]; inv_runs.
  - intros _. exists r2. set_solver.
  - split; [done|]. destruct (errors_Join _); inv_runs. set_solver.
Qed.
End Episodes.

(** ** Samples *)
Module WatchdogSamples.
#[local] Instance plain_dumps : DumpText := {| dump_path d n := d +:+ "\" +:+ n; dump_stamp t := pretty t |}.

Lemma full_config_budget : budget_inputs full_config.
Proof. by split; vm_compute. Qed.

Lemma reconcileStepTimeout_exact_witness :
  budget_inputs full_config /\ reconcileStepTimeout full_config (2 ^ 62) = max_i64 /\ reconcileStepTimeout full_config 3 = 57696 * Second.
Proof.
  split; [apply full_config_budget|].
  rewrite (reconcileStepTimeout_exact full_config (2 ^ 62) full_config_budget ltac:(by vm_compute)).
  rewrite (reconcileStepTimeout_exact full_config 3 full_config_budget ltac:(by vm_compute)).
  by vm_compute.
Defined.

(** A valid configuration may have a request timeout and a largest backoff whose
    sum is no duration: their sum wraps around, the whole GitHub budget becomes
    zero and the deadline of a step lies below the timeout of one request. *)
Definition slow_config : Config :=
  {| full_config with c_GitHub := mkGitHub (7 * 10 ^ 18) (mkRetry Second (3 * 10 ^ 18) (f64_of_Z 2) f64_0 3) [full_target "org"] |}.

Lemma unguarded_attempt_wraps :
  Config_Validate slow_config = None /\ perAttemptBudget slow_config < 0 /\
  reconcileStepTimeout slow_config 3 < gh_RequestTimeout (c_GitHub slow_config).
Proof. by vm_compute. Qed.

(** Fresh, stalled, stalled, fresh, stalled: two dumps. *)
Definition sample_answers (c : dcall) (tr : list (event dresp)) : dresp c :=
  match c with
  | DLoadHeartbeat => match length (heartbeats tr) with 0%nat | 1%nat | 2%nat => 1000 * Second | _ => 1400 * Second end
  | DLog _ => ()
  | _ => None
  end.

Definition sample_ticks : list time := [1100 * Second; 1300 * Second; 1310 * Second; 1450 * Second; 1700 * Second].

Lemma one_dump_per_stall_witness :
  exists tr w, iruns (WatchHeartbeat full_config true 0 sample_ticks) tr w /\
    dump_files tr = map (fun now => dump_path "D:\diagnostics" (dump_name "heartbeat-stall" now)) [1300 * Second; 1700 * Second].
Proof.
  destruct (irun sample_answers (WatchHeartbeat full_config true 0 sample_ticks) []) as [tr w] eqn:Hr.
  exists tr, w. apply irun_iruns in Hr as Hi. split; [exact Hi|].
  rewrite (proj2 (one_dump_per_stall full_config true _ sample_ticks tr w Hi)).
  vm_compute in Hr. apply (f_equal fst) in Hr. simpl in Hr. rewrite <- Hr. by vm_compute.
Defined.
End WatchdogSamples.
