(* ===== verification/ControllerLoop.v ===== *)
(** The controller's main loop (internal/app/controller_main.go,
    [runControllerLoop] and [completeControllerShutdown]) and the exit code of its
    process (cmd/ci-runner-controller).

    The loop is a program whose calls are the channels it selects on and the
    components it drives, with arbitrary answers: the answer of a [select] is the
    case that was taken.  Each step runs in a goroutine of its own; [StartStep]
    starts it and one of the answers that carry its outcome ends it. *)

From S2P Require Import Prelude Float64 GoStrings Model Config PlanGates Errors Effects Reconciler Shutdown Control Interaction Watchdog.
From stdpp Require Import pretty.
#[local] Open Scope Z_scope.
Open Scope i_scope.

Definition ControllerRestartExitCode : Z := 75.
Definition ErrControllerRestartRequested : error := ErrNew "controller restart requested after graceful drain".
Definition errReconcileStepAbandoned : error :=
  ErrNew "reconcile step did not release its lock within the watchdog drain grace period".
Definition maxConsecutiveReconcileStepErrors : Z := 20.
Definition errReconcilePersistentlyFailing : error :=
  ErrNew "every recent reconcile step completed with an error; exiting so the scheduled task restarts the controller".
Definition errServerExited : error := ErrNew "control server exited unexpectedly".

Record stepOutcome := mkStepOutcome {
  so_err : option error;
  so_newWorkBlocked : bool;
}.

(** [reconcileFailureStreak]: the count, and whether it has reached the limit. *)
Definition observe_outcome (count : Z) (outcome : stepOutcome) : Z * bool :=
  match so_err outcome with
  | Some _ =>
      if so_newWorkBlocked outcome then (count + 1, maxConsecutiveReconcileStepErrors <=? count + 1) else (0, false)
  | None => (0, false)
  end.

(** ** What the loop waits for *)

(** The three cases every [select] of the loop has. *)
Inductive Interruption :=
  | ShutdownRequested (signal : ShutdownSignal)
  | ProcessInterrupted
  | ServerExited (err : option error).

(** A [select] ends with an interruption or with a case of its own: while a step
    runs, its deadline or its outcome; while a cancelled step drains, its outcome
    or the end of the grace; between steps, the timer. *)
Inductive StepSelect := StepInterrupted (i : Interruption) | StepDeadline | StepDone (o : stepOutcome).
Inductive DrainSelect := DrainInterrupted (i : Interruption) | DrainDone (o : stepOutcome) | DrainElapsed.
Inductive IdleSelect := IdleInterrupted (i : Interruption) | IdleTick.

Inductive lcall :=
  | LoadDesired
  | StartStep (timeout : duration)
  | CancelStep
  | SelectStep
  | AwaitStep
  | SelectDrain (grace : duration)
  | SelectRelease (grace : duration)
  | SelectIdle (interval : duration)
  | Now
  | WriteLogEvent (event : LogEvent)
  | ReconcilerShutdown
  | CloseServer
  | StopServer
  | AwaitServer (poll : duration)
  | SaveRestart (receipt : RestartReceipt).

Definition lresp (c : lcall) : Type :=
  match c with
  | LoadDesired => result error DesiredState
  | SelectStep => StepSelect
  | AwaitStep => stepOutcome
  | SelectDrain _ => DrainSelect
  | SelectRelease _ => option stepOutcome
  | SelectIdle _ => IdleSelect
  | Now => time
  | ReconcilerShutdown | CloseServer | SaveRestart _ | WriteLogEvent _ => option error
  | AwaitServer _ => option (option error)
  | StartStep _ | CancelStep | StopServer => unit
  end.

Abbreviation lprog := (iprog lresp).

Definition lask (c : lcall) : lprog (lresp c) := icall c.

Definition log_event (code message : string) : lprog () :=
  let^ now := lask Now in
  let^ _ := lask (WriteLogEvent (mkLogEvent now code message "" "" "" "")) in
  IRet ().

Definition log_outcome (outcome : stepOutcome) : lprog () :=
  match so_err outcome with
  | Some e => log_event "reconcile-error" (error_text e)
  | None => IRet ()
  end.

(** ** Shutting down *)

(** The writer is absent when [writer] is false. *)
Definition completeControllerShutdown (shutdownErr : option error) (signal : ShutdownSignal) (writer : bool)
    (processID : Z) (version : string) : lprog (option error) :=
  let degraded := match shutdownErr with Some e => is_sentinel ErrShutdownDegraded e | None => false end in
  if match shutdownErr with Some _ => negb (sg_Restart signal) || negb degraded | None => false end then IRet shutdownErr
  else if negb (sg_Restart signal) then IRet shutdownErr
  else if negb writer || String.eqb (sg_RequestID signal) "" || (processID =? 0) || String.eqb version ""
  then IRet (Some (ErrNew "restart completion receipt dependencies are invalid"))
  else
    let^ now := lask Now in
    let^ saved := lask (SaveRestart (mkRestartReceipt 1 (sg_RequestID signal) processID version now)) in
    match saved with
    | Some e => IRet (Some (ErrWrap "persist restart completion receipt" e))
    | None => IRet (Some ErrControllerRestartRequested)
    end.

Section Loop.
Context (cfg : Config) (processID : Z) (version : string) (writer : bool).

Definition shutdown (signal : ShutdownSignal) (awaitServer : bool) : lprog (option error) :=
  let^ _ := log_event "controller-draining" (sg_Reason signal) in
  let^ shutdownErr := lask ReconcilerShutdown in
  let^ closeErr := lask CloseServer in
  let^ _ := lask StopServer in
  if negb awaitServer
  then completeControllerShutdown (errors_Join [shutdownErr; closeErr]) signal writer processID version
  else
    let^ served := lask (AwaitServer (co_ShutdownPollInterval (c_Controller cfg))) in
    let result :=
      match served with
      | Some serveErr => errors_Join [shutdownErr; closeErr; serveErr]
      | None => errors_Join [shutdownErr; closeErr; Some (ErrNew "control server did not stop after listener close")]
      end in
    completeControllerShutdown result signal writer processID version.

Definition interrupt_signal : ShutdownSignal := mkShutdownSignal "" "process interrupt" false.
Definition server_signal : ShutdownSignal := mkShutdownSignal "" "control server exited unexpectedly" false.

(** What an interruption leads to once no step runs. *)
Definition stop_on (i : Interruption) : lprog (option error) :=
  match i with
  | ShutdownRequested signal => shutdown signal true
  | ProcessInterrupted => shutdown interrupt_signal true
  | ServerExited serveErr =>
      let^ stopped := shutdown server_signal false in
      IRet (errors_Join [Some (default errServerExited serveErr); stopped])
  end.

(** [noteStepOutcome]: the new count and whether the loop must end. *)
Definition noteStepOutcome (count : Z) (outcome : stepOutcome) : lprog (Z * option error) :=
  let '(count, escalate) := observe_outcome count outcome in
  if negb escalate then IRet (count, None)
  else
    let^ _ := log_event "reconcile-persistent-failure"
      (pretty count +:+ " consecutive reconcile steps completed with an error while all new work was blocked; exiting so the scheduled task restarts the controller") in
    IRet (count, Some errReconcilePersistentlyFailing).

Definition abandon (grace : duration) : lprog (option error) :=
  let^ _ := log_event "reconcile-watchdog-stuck"
    ("reconcile step did not release its lock within " +:+ Duration_String grace +:+ " of cancellation; exiting so the scheduled task restarts the controller") in
  IRet (Some errReconcileStepAbandoned).

(** How one iteration ends: the loop returns, or goes on with a count. *)
Inductive Turn := Return (err : option error) | GoOn (count : Z).

Definition finish_step (count : Z) (outcome : stepOutcome) : lprog Turn :=
  let^ _ := log_outcome outcome in
  let^ noted := noteStepOutcome count outcome in
  match noted with
  | (_, Some e) => IRet (Return (Some e))
  | (count, None) => IRet (GoOn count)
  end.

(** The deadline passed: the step is cancelled and given the grace to end. *)
Definition watchdog (count : Z) (stepTimeout grace : duration) : lprog Turn :=
  let^ _ := lask CancelStep in
  let^ _ := log_event "reconcile-watchdog-timeout"
    ("reconcile step exceeded its " +:+ Duration_String stepTimeout +:+ " watchdog deadline and was cancelled") in
  let^ selected := lask (SelectDrain grace) in
  match selected with
  | DrainDone outcome => finish_step count outcome
  | DrainElapsed => let^ e := abandon grace in IRet (Return e)
  | DrainInterrupted i =>
      let^ released := lask (SelectRelease grace) in
      match released with
      | Some outcome =>
          let^ _ := log_outcome outcome in
          let^ e := stop_on i in
          IRet (Return e)
      | None => let^ e := abandon grace in IRet (Return e)
      end
  end.

(** One step, until it has ended or the loop returns. *)
Definition run_step (count : Z) (grace : duration) : lprog Turn :=
  let^ desired := lask LoadDesired in
  let workers :=
    match desired with
    | Ok d => EffectiveMaximumConcurrentWorkers (c_Resources cfg) d
    | Err _ => r_MaximumConcurrentWorkers (c_Resources cfg)
    end in
  let stepTimeout := reconcileStepTimeout cfg workers in
  let^ _ := lask (StartStep stepTimeout) in
  let^ selected := lask SelectStep in
  match selected with
  | StepInterrupted i =>
      let^ _ := lask CancelStep in
      let^ _ := lask AwaitStep in
      let^ e := stop_on i in
      IRet (Return e)
  | StepDeadline => watchdog count stepTimeout grace
  | StepDone outcome =>
      let^ _ := lask CancelStep in
      finish_step count outcome
  end.

(** At most [fuel] steps; [None] when the loop is still running then. *)
Fixpoint reconcile_loop (fuel : nat) (grace : duration) (count : Z) : lprog (option (option error)) :=
  match fuel with
  | O => IRet None
  | S fuel =>
      let^ turn := run_step count grace in
      match turn with
      | Return e => IRet (Some e)
      | GoOn count =>
          let^ selected := lask (SelectIdle (co_ReconcileInterval (c_Controller cfg))) in
          match selected with
          | IdleInterrupted i => let^ e := stop_on i in IRet (Some e)
          | IdleTick => reconcile_loop fuel grace count
          end
      end
  end.

(** The server's context is cancelled when the loop returns. *)
Definition runControllerLoop (fuel : nat) : lprog (option (option error)) :=
  let^ ended := reconcile_loop fuel (reconcileStepDrainGrace cfg) 0 in
  match ended with
  | Some e => let^ _ := lask StopServer in IRet (Some e)
  | None => IRet None
  end.
End Loop.

(** [controllerExitCode], and zero for a return without error. *)
Definition controllerExitCode (err : option error) : Z :=
  match err with
  | None => 0
  | Some e => if is_sentinel ErrControllerRestartRequested e then ControllerRestartExitCode else 1
  end.
