(* ===== verification/ControllerLoopFacts.v ===== *)
(** What the controller's main loop guarantees: the protocol it follows towards the
    reconciler, the server and the restart receipt, when it gives up, and what the
    exit code of its process proves. *)

From S2P Require Import Prelude Float64 GoStrings Model Config PlanGates Errors Effects Reconciler Shutdown Control Samples ConfigSamples RunSamples Interaction Watchdog ControllerLoop.
#[local] Open Scope Z_scope.
Open Scope i_scope.

(** ** The protocol *)

(** What has happened so far: the shutdown request received, whether a step may
    hold the step lock, whether the drain was run and the server closed, the
    problems they reported, and the receipt saved. *)
Record lstate := mkLState {
  ls_signal : option ShutdownSignal;
  ls_inflight : bool;
  ls_shutdown : bool;
  ls_closed : bool;
  ls_problems : list error;
  ls_saved : option RestartReceipt;
}.

Definition begun : lstate := mkLState None false false false [] None.

Definition received (i : Interruption) (s : lstate) : lstate :=
  match i with ShutdownRequested signal => {| s with ls_signal := Some signal |} | _ => s end.
Definition released (s : lstate) : lstate := {| s with ls_inflight := false |}.
Definition reported (e : option error) (s : lstate) : lstate :=
  {| s with ls_problems := ls_problems s ++ match e with Some e => [e] | None => [] end |}.

(** No problem was reported, or the drain was given up after failing steps. *)
Definition tolerable (problems : list error) : bool :=
  match problems with [] => true | _ => existsb (is_sentinel ErrShutdownDegraded) problems end.

(** The receipt that answers a restart request, but for its time. *)
Definition receipt_for (processID : Z) (version : string) (signal : ShutdownSignal) (r : RestartReceipt) : bool :=
  sg_Restart signal && negb (String.eqb (sg_RequestID signal) "") && negb (processID =? 0) && negb (String.eqb version "") &&
  (rr_SchemaVersion r =? 1) && String.eqb (rr_RequestID r) (sg_RequestID signal) && (rr_ProcessID r =? processID) &&
  String.eqb (rr_Version r) version.

(** The events that are allowed, and where they lead.  A step starts only when no
    other runs and before the drain; the drain, which runs steps itself, is begun
    once and only when no step runs; the server is closed after the drain; the
    receipt is saved after both, at most once, for the restart request that was
    received and only when the problems are tolerable. *)
Definition protocol (processID : Z) (version : string) (s : lstate) (e : event lresp) : option lstate :=
  match e with
  | existT (StartStep _) _ => if ls_inflight s || ls_shutdown s then None else Some {| s with ls_inflight := true |}
  | existT SelectStep answer =>
      if ls_inflight s then
        Some (match answer with StepInterrupted i => received i s | StepDeadline => s | StepDone _ => released s end)
      else None
  | existT AwaitStep _ => if ls_inflight s then Some (released s) else None
  | existT (SelectDrain _) answer =>
      if ls_inflight s then
        Some (match answer with DrainInterrupted i => received i s | DrainElapsed => s | DrainDone _ => released s end)
      else None
  | existT (SelectRelease _) answer =>
      if ls_inflight s then Some (match answer with Some _ => released s | None => s end) else None
  | existT (SelectIdle _) answer =>
      if ls_inflight s then None else Some (match answer with IdleInterrupted i => received i s | IdleTick => s end)
  | existT ReconcilerShutdown answer =>
      if ls_inflight s || ls_shutdown s then None else Some (reported answer {| s with ls_shutdown := true |})
  | existT CloseServer answer =>
      if ls_shutdown s && negb (ls_closed s) then Some (reported answer {| s with ls_closed := true |}) else None
  | existT (AwaitServer _) answer =>
      if ls_closed s && match ls_saved s with None => true | Some _ => false end then
        Some (reported (match answer with
                        | Some served => served
                        | None => Some (ErrNew "control server did not stop after listener close")
                        end) s)
      else None
  | existT (SaveRestart receipt) answer =>
      match ls_signal s, ls_saved s with
      | Some signal, None =>
          if ls_shutdown s && ls_closed s && receipt_for processID version signal receipt && tolerable (ls_problems s)
          then Some (match answer with Some _ => s | None => {| s with ls_saved := Some receipt |} end)
          else None
      | _, _ => None
      end
  | _ => Some s
  end.

(** ** The loop obeys it *)

Section Protocol.
Context (cfg : Config) (processID : Z) (version : string) (writer : bool).
Abbreviation follows := (obeys (protocol processID version)).

Lemma omap_somes {A} (l : list A) : omap id (map Some l) = l.
Proof. induction l as [|x l IH]; cbn; [done|]. by f_equal. Qed.

Lemma errors_Join_somes (errs : list (option error)) : errors_Join errs = errors_Join (map Some (omap id errs)).
Proof. unfold errors_Join. by rewrite omap_somes. Qed.

Lemma tolerable_join problems :
  tolerable problems = match errors_Join (map Some problems) with Some e => is_sentinel ErrShutdownDegraded e | None => true end.
Proof. unfold errors_Join. rewrite omap_somes. by destruct problems. Qed.

(** The value a stop returns is the restart sentinel exactly when the receipt was
    saved, which only a restart does. *)
Definition stop_ends (restart : bool) (s : lstate) (r : option error) : Prop :=
  (r = Some ErrControllerRestartRequested <-> is_Some (ls_saved s)) /\ (restart = false -> ls_saved s = None).

Lemma log_event_follows code message Q s : Q s () -> follows (log_event code message) Q s.
Proof. intros HQ now logged. exact HQ. Qed.

Lemma no_sentinel restart s r : ls_saved s = None -> r <> Some ErrControllerRestartRequested -> stop_ends restart s r.
Proof. unfold stop_ends. intros -> Hr. split; [|done]. split; [intros H; by destruct (Hr H)|by intros []]. Qed.

Lemma save_follows s signal :
  ls_shutdown s = true -> ls_closed s = true -> ls_saved s = None -> ls_signal s = Some signal ->
  sg_Restart signal = true -> tolerable (ls_problems s) = true ->
  follows
    (if negb writer || String.eqb (sg_RequestID signal) "" || (processID =? 0) || String.eqb version ""
     then IRet (Some (ErrNew "restart completion receipt dependencies are invalid"))
     else
       let^ now := lask Now in
       let^ saved := lask (SaveRestart (mkRestartReceipt 1 (sg_RequestID signal) processID version now)) in
       match saved with
       | Some e => IRet (Some (ErrWrap "persist restart completion receipt" e))
       | None => IRet (Some ErrControllerRestartRequested)
       end) (stop_ends true) s.
Proof.
  intros Hsd Hcl Hsv Hsg Hrs Htol. destruct (negb writer || _ || _ || _) eqn:Hdeps; [by apply no_sentinel|].
  intros now r. simpl. rewrite Hsg, Hsv, Hsd, Hcl, Htol. unfold receipt_for. simpl.
  rewrite Hrs, Z.eqb_refl, !String.eqb_refl. apply orb_false_iff in Hdeps as [[[Hw Hid]%orb_false_iff Hpid]%orb_false_iff Hv].
  rewrite Hid, Hpid, Hv. simpl. destruct r as [e'|]; simpl; [by apply no_sentinel|done].
Qed.

Lemma complete_follows s signal :
  ls_shutdown s = true -> ls_closed s = true -> ls_saved s = None -> (sg_Restart signal = true -> ls_signal s = Some signal) ->
  follows (completeControllerShutdown (errors_Join (map Some (ls_problems s))) signal writer processID version) (stop_ends (sg_Restart signal)) s.
Proof.
  intros Hsd Hcl Hsv Hsg. unfold completeControllerShutdown.
  assert (Hjoin : errors_Join (map Some (ls_problems s)) <> Some ErrControllerRestartRequested).
  { unfold errors_Join. by destruct (omap _ _). }
  pose proof (tolerable_join (ls_problems s)) as Htol. destruct (errors_Join _) as [e|].
  - destruct (sg_Restart signal) eqn:Hrs; [|by apply no_sentinel].
    destruct (is_sentinel ErrShutdownDegraded e); [|by apply no_sentinel]. by apply save_follows; auto.
  - destruct (sg_Restart signal) eqn:Hrs; [|by apply no_sentinel]. by apply save_follows; auto.
Qed.

(** A state in which an interruption may be acted on. *)
Record quiet (s : lstate) : Prop := {
  q_inflight : ls_inflight s = false;
  q_shutdown : ls_shutdown s = false;
  q_closed : ls_closed s = false;
  q_problems : ls_problems s = [];
  q_saved : ls_saved s = None;
}.

Lemma shutdown_follows s signal awaitServer :
  quiet s -> (sg_Restart signal = true -> ls_signal s = Some signal) ->
  follows (shutdown cfg processID version writer signal awaitServer) (stop_ends (sg_Restart signal)) s.
Proof.
  intros [Hi Hs Hc Hp Hv] Hsg now logged shutdownErr. simpl. rewrite Hi, Hs. simpl. intros closeErr. rewrite Hc. simpl. intros _.
  rewrite Hp. simpl. destruct awaitServer; simpl.
  - intros served. rewrite Hv.
    set (served' := match served with Some e => e | None => Some (ErrNew "control server did not stop after listener close") end).
    replace (match served with Some serveErr => errors_Join [shutdownErr; closeErr; serveErr] | None => _ end)
      with (errors_Join [shutdownErr; closeErr; served']) by (by destruct served).
    rewrite errors_Join_somes.
    match goal with |- follows _ _ ?st => set (s' := st) end.
    replace (omap id [shutdownErr; closeErr; served']) with (ls_problems s') by (destruct shutdownErr, closeErr, served' eqn:E; unfold s'; simpl; rewrite ?E; done).
    by apply complete_follows.
  - rewrite errors_Join_somes. match goal with |- follows _ _ ?st => set (s' := st) end.
    replace (omap id [shutdownErr; closeErr]) with (ls_problems s') by (by destruct shutdownErr, closeErr).
    by apply complete_follows.
Qed.

(** The same for any stop. *)
Definition stops (s : lstate) (r : option error) : Prop := r = Some ErrControllerRestartRequested <-> is_Some (ls_saved s).

Lemma stop_on_follows s i : quiet s -> follows (stop_on cfg processID version writer i) stops (received i s).
Proof.
  intros Hq. destruct i as [signal| |err]; cbn [stop_on received].
  - eapply obeys_mono; [apply shutdown_follows; [by destruct Hq|done]|]. by intros s' r [Hr _].
  - eapply obeys_mono; [by apply shutdown_follows|]. by intros s' r [Hr _].
  - apply obeys_ibind. eapply obeys_mono; [by apply shutdown_follows|]. intros s' r [_ Hr]. simpl. unfold stops.
    rewrite (Hr eq_refl). split; [|by intros []]. unfold errors_Join. by destruct (omap _ _).
Qed.

(** How a turn of the loop leaves things. *)
Definition turn_ends (s : lstate) (t : Turn) : Prop :=
  match t with Return e => stops s e | GoOn _ => quiet s end.

Lemma return_follows (p : lprog (option error)) s :
  follows p stops s -> follows (let^ e := p in IRet (Return e)) turn_ends s.
Proof. intros Hp. apply obeys_ibind. by eapply obeys_mono. Qed.

Lemma stopped_early s e : quiet s -> e <> ErrControllerRestartRequested -> stops s (Some e).
Proof. intros Hq He. unfold stops. rewrite q_saved by done. split; [by intros [= ->]|by intros []]. Qed.

Lemma log_outcome_follows outcome Q s : Q s () -> follows (log_outcome outcome) Q s.
Proof. unfold log_outcome. intros HQ. destruct (so_err outcome); [by apply log_event_follows|done]. Qed.

Lemma finish_step_follows count outcome s : quiet s -> follows (finish_step count outcome) turn_ends s.
Proof.
  intros Hq. apply obeys_ibind, log_outcome_follows, obeys_ibind. unfold noteStepOutcome. destruct (observe_outcome _ _) as [n []]; [|done].
  intros now logged. simpl. by apply stopped_early.
Qed.

Lemma abandon_follows grace s : ls_saved s = None -> follows (let^ e := abandon grace in IRet (Return e)) turn_ends s.
Proof. intros Hs. apply return_follows. intros now logged. simpl. unfold stops. rewrite Hs. split; [done|by intros []]. Qed.

(** A step runs and nothing of the shutdown has begun. *)
Definition stepping (s : lstate) : Prop := ls_inflight s = true /\ quiet (released s).

Lemma stepping_received s i : stepping s -> stepping (received i s) /\ released (received i s) = received i (released s).
Proof. intros [Hi [? ? ? ? ?]]. by destruct i. Qed.

Lemma watchdog_follows count stepTimeout grace s :
  stepping s -> follows (watchdog cfg processID version writer count stepTimeout grace) turn_ends s.
Proof.
  intros Hst. pose proof Hst as [Hi Hq]. intros _ now logged selected. simpl. rewrite Hi. destruct selected as [i|outcome|].
  - destruct (stepping_received s i Hst) as [[Hi' Hq'] Hrel]. intros out. simpl. rewrite Hi'. destruct out as [outcome|].
    + rewrite Hrel. apply obeys_ibind, log_outcome_follows, return_follows. by apply stop_on_follows.
    + apply abandon_follows. apply Hq'.
  - by apply finish_step_follows.
  - apply abandon_follows. apply Hq.
Qed.

Lemma run_step_follows count grace s :
  quiet s -> follows (run_step cfg processID version writer count grace) turn_ends s.
Proof.
  intros Hq. apply obeys_call. intros desired. exists s. split; [done|]. cbv zeta.
  set (s' := {| s with ls_inflight := true |}). assert (Hst : stepping s') by (destruct Hq; by repeat split).
  apply obeys_call. intros []. exists s'. split; [destruct Hq as [Hi Hs _ _ _]; unfold s'; cbn; by rewrite Hi, Hs|].
  apply obeys_call. intros selected. eexists. split; [reflexivity|]. destruct selected as [i| |outcome].
  - destruct (stepping_received s' i Hst) as [[Hi' Hq'] Hrel].
    apply obeys_call. intros []. exists (received i s'). split; [done|].
    apply obeys_call. intros out. exists (received i (released s')). split; [cbn; by rewrite Hi', Hrel|].
    apply return_follows, stop_on_follows, Hst.
  - by apply watchdog_follows.
  - apply obeys_call. intros []. exists (released s'). split; [done|]. apply finish_step_follows, Hst.
Qed.

Lemma reconcile_loop_follows fuel grace count s :
  quiet s ->
  follows (reconcile_loop cfg processID version writer fuel grace count)
          (fun s r => match r with Some e => stops s e | None => quiet s end) s.
Proof.
  revert count s. induction fuel as [|fuel IH]; intros count s Hq; [done|]. cbn [reconcile_loop].
  apply obeys_ibind. eapply obeys_mono; [by apply run_step_follows|]. intros s' [e|n] Ht; [done|].
  intros selected. simpl. simpl in Ht. rewrite (q_inflight _ Ht). destruct selected as [i|].
  - apply obeys_ibind. by eapply obeys_mono; [apply stop_on_follows|].
  - by apply IH.
Qed.

Lemma loop_follows fuel :
  follows (runControllerLoop cfg processID version writer fuel)
          (fun s r => r = Some (Some ErrControllerRestartRequested) <-> is_Some (ls_saved s)) begun.
Proof.
  apply obeys_ibind. eapply obeys_mono; [by apply reconcile_loop_follows|]. intros s [e|] Hs.
  - intros []. simpl. unfold stops in Hs. rewrite <- Hs. naive_solver.
  - simpl. rewrite (q_saved _ Hs). split; [done|by intros []].
Qed.
End Protocol.

(** C15: The loop keeps to the protocol of a restart.  Whatever the channels, the
    reconciler and the server answer, no step and no drain is begun while a step
    may hold the step lock, the drain is run at most once and nothing is started
    after it, and the receipt of a restart is saved only after the drain and the
    close of the server, for the request that was received, this process and this
    version, when neither reported a problem or the drain was given up; and the
    loop returns the restart sentinel exactly when the receipt was saved. *)
Theorem loop_keeps_protocol cfg processID version writer fuel tr r :
  iruns (runControllerLoop cfg processID version writer fuel) tr r ->
  exists s, follow (protocol processID version) begun tr = Some s /\
    (r = Some (Some ErrControllerRestartRequested) <-> is_Some (ls_saved s)).
Proof. intros Hr. exact (obeys_runs _ _ _ _ _ _ (loop_follows cfg processID version writer fuel) Hr). Qed.

(** ** Giving up *)

(** An outcome that counts: an error that blocked all new work. *)
Definition blocking (o : stepOutcome) : bool := match so_err o with Some _ => so_newWorkBlocked o | None => false end.

(** The outcomes the loop takes note of, newest first. *)
Definition noted (e : event lresp) : list stepOutcome :=
  match e with
  | existT SelectStep (StepDone o) => [o]
  | existT (SelectDrain _) (DrainDone o) => [o]
  | _ => []
  end.

Fixpoint noted_outcomes (tr : list (event lresp)) : list stepOutcome :=
  match tr with
  | [] => []
  | e :: tr => noted_outcomes tr ++ noted e
  end.

(** How many of the newest outcomes count, up to the first that does not. *)
Fixpoint streak (newest : list stepOutcome) : Z :=
  match newest with
  | [] => 0
  | o :: older => if blocking o then 1 + streak older else 0
  end.

(** Collects the outcomes; no step starts once twenty in a row count. *)
Definition tally (seen : list stepOutcome) (e : event lresp) : option (list stepOutcome) :=
  match e with
  | existT (StartStep _) _ => if maxConsecutiveReconcileStepErrors <=? streak seen then None else Some seen
  | _ => Some (noted e ++ seen)
  end.

Lemma follow_tally seen tr seen' : follow tally seen tr = Some seen' -> seen' = noted_outcomes tr ++ seen.
Proof.
  revert seen. induction tr as [|e tr IH]; intros seen; simpl; [by intros [= ->]|].
  destruct (tally seen e) as [s|] eqn:Ht; [|done]. intros ->%IH. rewrite <- app_assoc. f_equal.
  unfold tally in Ht. destruct e as [[] a]; try (by simplify_eq). by case_match; simplify_eq.
Qed.

Lemma streak_nonneg l : 0 <= streak l.
Proof. induction l as [|o l IH]; simpl; [done|]. destruct (blocking o); lia. Qed.

Lemma observe_outcome_streak o seen :
  observe_outcome (streak seen) o = (streak (o :: seen), maxConsecutiveReconcileStepErrors <=? streak (o :: seen)).
Proof.
  unfold observe_outcome, blocking. simpl. unfold blocking. destruct (so_err o); [|done]. destruct (so_newWorkBlocked o); [|done].
  by rewrite Z.add_comm.
Qed.

Section Streak.
Context (cfg : Config) (processID : Z) (version : string) (writer : bool).
Abbreviation tallies := (obeys tally).

(** A return is the persistent failure exactly after twenty in a row. *)
Definition verdict (seen : list stepOutcome) (r : option error) : Prop :=
  r = Some errReconcilePersistentlyFailing <-> 20 <= streak seen.
Definition turn_verdict (n : nat) (seen : list stepOutcome) (t : Turn) : Prop :=
  match t with Return e => verdict seen e | GoOn count => count = streak seen /\ count < 20 /\ length seen = n end.

(** A return for another reason. *)
Definition calm (seen : list stepOutcome) (r : option error) : Prop :=
  streak seen < 20 /\ r <> Some errReconcilePersistentlyFailing.

Lemma calm_verdict seen r : calm seen r -> verdict seen r.
Proof. intros [Hs Hr]. split; [intros H; by destruct (Hr H)|lia]. Qed.

Lemma join_not_failing errs : errors_Join errs <> Some errReconcilePersistentlyFailing.
Proof. unfold errors_Join. by destruct (omap _ _). Qed.

(** What a stop returns is none of the loop's own sentinels. *)
Lemma complete_tallies shutdownErr signal seen :
  streak seen < 20 -> shutdownErr <> Some errReconcilePersistentlyFailing ->
  tallies (completeControllerShutdown shutdownErr signal writer processID version) calm seen.
Proof.
  intros Hs He. unfold completeControllerShutdown. destruct (match shutdownErr with Some _ => _ | None => _ end); [done|].
  destruct (negb (sg_Restart signal)); [done|]. destruct (negb writer || _ || _ || _); [done|].
  intros now [e|]; done.
Qed.

Lemma shutdown_tallies signal await seen :
  streak seen < 20 -> tallies (shutdown cfg processID version writer signal await) calm seen.
Proof.
  intros Hs now logged shutdownErr closeErr []. destruct await; [intros served|]; apply complete_tallies; try done;
    [destruct served|]; apply join_not_failing.
Qed.

Lemma stop_on_tallies i seen : streak seen < 20 -> tallies (stop_on cfg processID version writer i) calm seen.
Proof.
  intros Hs. destruct i as [signal| |err]; [by apply shutdown_tallies|by apply shutdown_tallies|].
  apply obeys_ibind. eapply obeys_mono; [by apply shutdown_tallies|]. intros seen' r [Hs' _]. split; [done|]. apply join_not_failing.
Qed.

Lemma return_tallies (p : lprog (option error)) n seen :
  tallies p calm seen -> tallies (let^ e := p in IRet (Return e)) (turn_verdict n) seen.
Proof. intros Hp. apply obeys_ibind. eapply obeys_mono; [done|]. intros s r. apply calm_verdict. Qed.

Lemma log_outcome_tallies outcome Q seen : Q seen () -> tallies (log_outcome outcome) Q seen.
Proof. unfold log_outcome. intros HQ. destruct (so_err outcome); [intros now logged; exact HQ|done]. Qed.

Lemma finish_step_tallies outcome seen :
  tallies (finish_step (streak seen) outcome) (turn_verdict (S (length seen))) (outcome :: seen).
Proof.
  apply obeys_ibind, log_outcome_tallies, obeys_ibind. unfold noteStepOutcome. rewrite observe_outcome_streak.
  unfold maxConsecutiveReconcileStepErrors. destruct (Z.leb_spec 20 (streak (outcome :: seen))).
  - intros now logged. done.
  - done.
Qed.

Lemma abandon_tallies grace n seen : streak seen < 20 -> tallies (let^ e := abandon grace in IRet (Return e)) (turn_verdict n) seen.
Proof. intros Hs. apply return_tallies. intros now logged. done. Qed.

Lemma watchdog_tallies stepTimeout grace seen :
  streak seen < 20 -> tallies (watchdog cfg processID version writer (streak seen) stepTimeout grace) (turn_verdict (S (length seen))) seen.
Proof.
  intros Hs. apply obeys_call. intros []. exists seen. split; [done|]. apply obeys_ibind. intros now logged. cbn [tally ev obeys].
  apply obeys_call. intros selected. eexists. split; [reflexivity|]. destruct selected as [i|outcome|]; cbn [noted app].
  - apply obeys_call. intros out. exists seen. split; [done|]. destruct out as [outcome|]; [|by apply abandon_tallies].
    apply obeys_ibind, log_outcome_tallies. by apply return_tallies, stop_on_tallies.
  - apply finish_step_tallies.
  - by apply abandon_tallies.
Qed.

Lemma run_step_tallies grace seen :
  streak seen < 20 -> tallies (run_step cfg processID version writer (streak seen) grace) (turn_verdict (S (length seen))) seen.
Proof.
  intros Hs. apply obeys_call. intros desired. exists seen. split; [done|]. cbv zeta.
  apply obeys_call. intros []. exists seen. split.
  { cbn. unfold maxConsecutiveReconcileStepErrors. by destruct (Z.leb_spec 20 (streak seen)); [lia|]. }
  apply obeys_call. intros selected. eexists. split; [reflexivity|]. destruct selected as [i| |outcome]; cbn [noted app].
  - intros [] out. by apply return_tallies, stop_on_tallies.
  - by apply watchdog_tallies.
  - intros []. apply finish_step_tallies.
Qed.

Lemma reconcile_loop_tallies fuel grace seen :
  streak seen < 20 ->
  tallies (reconcile_loop cfg processID version writer fuel grace (streak seen))
          (fun seen' r => match r with Some e => verdict seen' e | None => streak seen' < 20 /\ length seen' = (fuel + length seen)%nat end) seen.
Proof.
  revert seen. induction fuel as [|fuel IH]; intros seen Hs; [done|]. cbn [reconcile_loop].
  apply obeys_ibind. eapply obeys_mono; [by apply run_step_tallies|]. intros seen' [e|n] Ht; [done|].
  destruct Ht as (-> & Ht & Hlen). apply obeys_call. intros selected. exists seen'. split; [done|]. destruct selected as [i|].
  - apply obeys_ibind. eapply obeys_mono; [by apply stop_on_tallies|]. intros s r. apply calm_verdict.
  - eapply obeys_mono; [by apply IH|]. intros s [e|]; [done|]. rewrite Hlen. intros [? ->]. split; [done|lia].
Qed.

Lemma loop_tallies fuel :
  tallies (runControllerLoop cfg processID version writer fuel)
          (fun seen r => (r = Some (Some errReconcilePersistentlyFailing) <-> 20 <= streak seen) /\ (r = None -> length seen = fuel)) [].
Proof.
  apply obeys_ibind. eapply obeys_mono; [by apply (reconcile_loop_tallies fuel _ [])|]. intros seen [e|] Hv.
  - intros []. simpl. unfold verdict in Hv. rewrite <- Hv. naive_solver.
  - simpl in *. split; [split; [done|lia]|lia].
Qed.
End Streak.

Lemma streak_all l : Forall (fun o => blocking o = true) l -> streak l = Z.of_nat (length l).
Proof. induction 1 as [|o l Ho Hl IH]; [done|]. cbn [streak length]. rewrite Ho, IH. lia. Qed.

Lemma tally_start before t after seen :
  follow tally [] (before ++ ev (StartStep t) () :: after) = Some seen -> streak (noted_outcomes before) < 20.
Proof.
  rewrite follow_app. destruct (follow tally [] before) as [s|] eqn:Hf; [|done]. apply follow_tally in Hf as ->.
  rewrite app_nil_r. cbn. unfold maxConsecutiveReconcileStepErrors. by destruct (Z.leb_spec 20 (streak (noted_outcomes before))).
Qed.

(** C21: The loop gives up after twenty failures in a row, not before and not later.
    It returns the persistent failure exactly when the newest twenty outcomes are
    errors that blocked all new work, begins no step after that, and cannot run on:
    when every outcome counts it returns within twenty steps. *)
Theorem loop_gives_up_after_twenty cfg processID version writer fuel tr r :
  iruns (runControllerLoop cfg processID version writer fuel) tr r ->
  (r = Some (Some errReconcilePersistentlyFailing) <-> 20 <= streak (noted_outcomes tr)) /\
  (forall before t after, tr = before ++ ev (StartStep t) () :: after -> streak (noted_outcomes before) < 20) /\
  ((20 <= fuel)%nat -> Forall (fun o => blocking o = true) (noted_outcomes tr) -> r <> None).
Proof.
  intros Hr. destruct (obeys_runs _ _ _ _ _ _ (loop_tallies cfg processID version writer fuel) Hr) as (seen & Hf & Hv & Hn).
  pose proof (follow_tally _ _ _ Hf) as Hseen. rewrite app_nil_r in Hseen. subst seen. split_and!; [done| |].
  - intros before t after ->. by eapply tally_start.
  - intros Hfuel Hall ->. specialize (Hn eq_refl). apply streak_all in Hall. destruct Hv as [_ Hv].
    rewrite Hall, Hn in Hv. by specialize (Hv ltac:(lia)).
Qed.

(** ** What a restart proves *)

(** What the protocol's state says about the events that led to it. *)
Record accounted (tr : list (event lresp)) (s : lstate) : Prop := {
  ac_shutdown : ls_shutdown s = true -> exists a, ev ReconcilerShutdown a ∈ tr /\ forall e, a = Some e -> e ∈ ls_problems s;
  ac_saved : forall r, ls_saved s = Some r -> ls_shutdown s = true /\ ls_closed s = true /\ tolerable (ls_problems s) = true;
}.

Lemma accounted_step processID version tr s e s' :
  accounted tr s -> protocol processID version s e = Some s' -> accounted (tr ++ [e]) s'.
Proof.
  intros [Hsd Hsv] Hp.
  assert (Hsame : forall t : lstate, ls_shutdown t = ls_shutdown s -> ls_closed t = ls_closed s -> ls_problems t = ls_problems s ->
                  ls_saved t = ls_saved s -> accounted (tr ++ [e]) t).
  { intros t H1 H2 H3 H4. split; rewrite ?H1, ?H2, ?H3, ?H4; [|done]. intros Hs. destruct (Hsd Hs) as (a & Ha & Hin). exists a. set_solver. }
  assert (Hrep : forall a (t : lstate), ls_saved t = None -> ls_shutdown t = ls_shutdown s -> ls_problems t = ls_problems s ->
                 accounted (tr ++ [e]) (reported a t)).
  { intros a t H1 H2 H3. split; simpl; rewrite ?H1, ?H2, ?H3; [|done]. intros Hs. destruct (Hsd Hs) as (b & Hb & Hin). exists b. set_solver. }
  destruct e as [[] a]; cbn in Hp; try (injection Hp as <-; by apply Hsame); repeat case_match; simplify_eq; try (by apply Hsame);
    try (by destruct i; apply Hsame); try (by apply andb_true_iff in H as [? ?]; apply Hrep).
  - apply orb_false_iff in H as [_ Hno]. assert (Hnone : ls_saved s = None).
    { destruct (ls_saved s) as [r|]; [|done]. destruct (Hsv r eq_refl) as [Hy _]. congruence. }
    split; simpl; [|by rewrite Hnone]. intros _. exists a. split; [set_solver|]. intros e ->. set_solver.
  - apply andb_true_iff in H as [_ Hno%negb_true_iff]. apply Hrep; [|done|done]. simpl.
    destruct (ls_saved s) as [r|]; [|done]. destruct (Hsv r eq_refl) as (_ & Hy & _). congruence.
  - rewrite !andb_true_iff in *. destruct_and?. split; simpl; [|done]. intros Hs. destruct (Hsd Hs) as (b & Hb & Hin). exists b. set_solver.
Qed.

Lemma accounted_follow processID version tr s :
  follow (protocol processID version) begun tr = Some s -> accounted tr s.
Proof.
  assert (Hgen : forall pre s0 tr, accounted pre s0 -> follow (protocol processID version) s0 tr = Some s -> accounted (pre ++ tr) s).
  { intros pre s0 tr'. revert pre s0. induction tr' as [|e tr' IH]; intros pre s0 Ha; simpl; [intros [= ->]; by rewrite app_nil_r|].
    destruct (protocol _ _ s0 e) as [s1|] eqn:Hp; [|done]. intros Hf. eapply accounted_step in Hp; [|done].
    specialize (IH _ _ Hp Hf). by rewrite <- app_assoc in IH. }
  apply (Hgen []). by split.
Qed.

(** The answers of the reconciler's shutdown are those of its program. *)
Definition shuts_down (cfg : Config) (tr : list (event lresp)) : Prop :=
  forall a, ev ReconcilerShutdown a ∈ tr -> exists fuel t, runs (Shutdown cfg fuel) t (Some a).

(** C16: A restart proves a drain.  When the loop, composed with the reconciler's own
    shutdown, returns the restart sentinel, then that shutdown has run and either
    ended with a step that succeeded and observed a drained controller before both
    runtimes were closed, or reported a problem; and a problem is only passed over
    when one of those reported says that the drain was given up. *)
Theorem restart_proves_drain cfg processID version writer fuel tr :
  iruns (runControllerLoop cfg processID version writer fuel) tr (Some (Some ErrControllerRestartRequested)) ->
  shuts_down cfg tr ->
  exists s a, follow (protocol processID version) begun tr = Some s /\ ev ReconcilerShutdown a ∈ tr /\
    match a with
    | None => exists t pre observed r1 r2, t = pre ++ [Ev RunStep (observed, None); Ev CloseScaleSets r1; Ev CloseWorkers r2] /\
                (exists n, runs (Shutdown cfg n) t (Some None)) /\ shutdownDrained observed (c_Targets cfg) = true
    | Some e => e ∈ ls_problems s
    end /\
    (ls_problems s = [] \/ Exists (fun e => is_sentinel ErrShutdownDegraded e = true) (ls_problems s)).
Proof.
  intros Hr Hsd. destruct (obeys_runs _ _ _ _ _ _ (loop_follows cfg processID version writer fuel) Hr) as (s & Hf & Hs).
  destruct (proj1 Hs eq_refl) as [r Hsaved]. destruct (accounted_follow _ _ _ _ Hf) as [Hac Hsv].
  destruct (Hsv r Hsaved) as (Hshut & _ & Htol). destruct (Hac Hshut) as (a & Ha & Hin). exists s, a. split_and!; [done|done| |].
  - destruct a as [e|]; [by apply Hin|]. destruct (Hsd None Ha) as (n & t & Ht). pose proof Ht as Hrun.
    apply shutdown_drained in Ht as (pre & observed & r1 & r2 & Heq & Hd). exists t, pre, observed, r1, r2. eauto.
  - unfold tolerable in Htol. destruct (ls_problems s) as [|e l]; [by left|right]. apply existsb_exists in Htol as (x & Hx & Hdeg).
    apply Exists_exists. exists x. by rewrite list_elem_of_In.
Qed.

(** ** Samples *)
Module LoopSamples.
Definition restart_signal : ShutdownSignal := mkShutdownSignal "req-1" "upgrade" true.

(** A restart request arrives during the first step; [drain] and [close] are the
    answers of the drain and of the server's close. *)
Definition restart_answers (drain close : option error) (c : lcall) (_ : list (event lresp)) : lresp c :=
  match c with
  | LoadDesired => Err (ErrNew "unreadable")
  | SelectStep => StepInterrupted (ShutdownRequested restart_signal)
  | AwaitStep => mkStepOutcome (Some errCanceled) false
  | SelectDrain _ => DrainElapsed
  | SelectRelease _ => None
  | SelectIdle _ => IdleTick
  | Now => 7
  | ReconcilerShutdown => drain
  | CloseServer => close
  | SaveRestart _ | WriteLogEvent _ => None
  | AwaitServer _ => Some None
  | StartStep _ | CancelStep | StopServer => ()
  end.

Definition restart_run (drain close : option error) : list (event lresp) * option (option error) :=
  irun (restart_answers drain close) (runControllerLoop full_config 4242 "1.2.3" true 5) [].

Lemma loop_keeps_protocol_witness :
  exists s, follow (protocol 4242 "1.2.3") begun (fst (restart_run None None)) = Some s /\
    ls_saved s = Some (mkRestartReceipt 1 "req-1" 4242 "1.2.3" 7) /\ (restart_run None None).2 = Some (Some ErrControllerRestartRequested).
Proof.
  destruct (restart_run None None) as [tr r] eqn:Hr.
  destruct (loop_keeps_protocol full_config 4242 "1.2.3" true 5 tr r (irun_iruns _ _ _ _ _ Hr)) as (s & Hf & Hs).
  vm_compute in Hr. injection Hr as <- <-. exists s. split; [exact Hf|]. vm_compute in Hf. injection Hf as <-. split; reflexivity.
Defined.

(** Every step fails and blocks all new work. *)
Definition failing_answers (c : lcall) (tr : list (event lresp)) : lresp c :=
  match c with
  | SelectStep => StepDone (mkStepOutcome (Some (ErrNew "docker is down")) true)
  | c => restart_answers None None c tr
  end.

Lemma loop_gives_up_after_twenty_witness :
  exists tr, iruns (runControllerLoop full_config 4242 "1.2.3" true 25) tr (Some (Some errReconcilePersistentlyFailing)) /\
    length (noted_outcomes tr) = 20%nat.
Proof.
  destruct (irun failing_answers (runControllerLoop full_config 4242 "1.2.3" true 25) []) as [tr r] eqn:Hr.
  pose proof (irun_iruns _ _ _ _ _ Hr) as Hi. exists tr.
  destruct (loop_gives_up_after_twenty full_config 4242 "1.2.3" true 25 tr r Hi) as [Hg _].
  assert (Hn : length (noted_outcomes tr) = 20%nat /\ 20 <= streak (noted_outcomes tr)).
  { vm_compute in Hr. apply (f_equal fst) in Hr. cbn [fst] in Hr. rewrite <- Hr. split; [reflexivity|]. vm_compute. discriminate. }
  split; [|apply Hn]. rewrite <- (proj2 Hg (proj2 Hn)). exact Hi.
Defined.

(** The reconciler's shutdown of a controller that is already drained. *)
Lemma drained_shutdown : runs (Shutdown (en_config sample_env) 1)
  [Ev (CtxErr CallerCtx) None; Ev RunStep (drained_observation, None); Ev CloseScaleSets (Some None); Ev CloseWorkers (Some None)] (Some None).
Proof.
  exists None. eexists. split; [reflexivity|]. exists (drained_observation, None). eexists. split; [reflexivity|].
  exists (Some None). eexists. split; [reflexivity|]. exists (Some None). eexists. split; [reflexivity|]. by vm_compute.
Qed.

Definition drained_only (e : event lresp) : Prop := match e with existT ReconcilerShutdown a => a = None | _ => True end.

Lemma restart_proves_drain_witness :
  exists tr s a, iruns (runControllerLoop (en_config sample_env) 4242 "1.2.3" true 5) tr (Some (Some ErrControllerRestartRequested)) /\
    follow (protocol 4242 "1.2.3") begun tr = Some s /\ ev ReconcilerShutdown a ∈ tr.
Proof.
  destruct (irun (restart_answers None None) (runControllerLoop (en_config sample_env) 4242 "1.2.3" true 5) []) as [tr r] eqn:Hr.
  pose proof (irun_iruns _ _ _ _ _ Hr) as Hi.
  assert (Hv : r = Some (Some ErrControllerRestartRequested) /\ Forall drained_only tr).
  { vm_compute in Hr. injection Hr as <- <-. split; [reflexivity|]. repeat constructor. }
  destruct Hv as [-> Hd]. rewrite Forall_forall in Hd.
  destruct (restart_proves_drain (en_config sample_env) 4242 "1.2.3" true 5 tr Hi) as (s & a & Hf & Ha & _).
  { intros a Ha. specialize (Hd _ Ha). simpl in Hd. subst a. eexists _, _. exact drained_shutdown. }
  exists tr, s, a. split; [exact Hi|]. split; [exact Hf|exact Ha].
Defined.

(** A degraded drain passes over every other problem: the server could not be
    closed, and the restart is completed with its receipt all the same. *)
Lemma degraded_drain_hides_close_failure :
  exists tr s, restart_run (errors_Join [Some ErrShutdownDegraded]) (Some (ErrNew "listener still open"))
               = (tr, Some (Some ErrControllerRestartRequested)) /\
    follow (protocol 4242 "1.2.3") begun tr = Some s /\ is_Some (ls_saved s) /\ ErrNew "listener still open" ∈ ls_problems s.
Proof.
  eexists _, _. split; [vm_compute; reflexivity|]. split; [vm_compute; reflexivity|]. split; [by eexists|]. simpl. set_solver.
Qed.
End LoopSamples.
