(* ===== verification/Cli.v ===== *)
(** The commands of the user's tool that change the host: requesting a mode,
    forcing workers to stop, importing a secret, restarting or stopping the
    controller and rebooting the machine (internal/app/app.go,
    controller_restart.go, reboot.go, menu.go, force_stop.go), with the part of the
    [flag] package they use.

    A command is a program whose calls are the state store, the controller's
    control plane, the operating system and the user's terminal, with arbitrary
    answers; its value is the exit code.  The messages
    of the [flag] package itself are not among the calls.  A command that waits runs for at most
    [fuel] rounds and answers [None] when it is still waiting then. *)

From S2P Require Import Prelude Float64 GoStrings Regexp Model Config GoText Yaml Errors Effects Reconciler Control Transport FileSystem Store Interaction Watchdog ControllerLoop.
From stdpp Require Import pretty.
From Stdlib Require Import Ascii.
#[local] Open Scope Z_scope.
Open Scope i_scope.

Definition ExitOK : Z := 0.
Definition ExitUsage : Z := 2.
Definition ExitInvalidConfig : Z := 3.
Definition ExitCredential : Z := 4.
Definition ExitDegraded : Z := 5.
Definition ExitOperationTimedOut : Z := 6.
Definition ExitRuntime : Z := 7.
Definition ExitStateChanged : Z := 8.

(** ** Texts *)

Definition newline : string := String (ascii_of_nat 10) "".

(** The two characters outside ASCII that fold to an ASCII letter. *)
Fixpoint fold_to_ascii (s : string) : string :=
  match s with
  | String a rest =>
      match rest with
      | String b rest2 =>
          if (byte_of a =? 197) && (byte_of b =? 191) then String "s" (fold_to_ascii rest2)
          else match rest2 with
               | String c rest3 =>
                   if (byte_of a =? 226) && (byte_of b =? 132) && (byte_of c =? 170) then String "k" (fold_to_ascii rest3)
                   else String a (fold_to_ascii rest)
               | EmptyString => String a (fold_to_ascii rest)
               end
      | EmptyString => s
      end
  | EmptyString => s
  end.

(** [strings.EqualFold] with an ASCII text. *)
Definition EqualFoldASCII (s t : string) : bool := EqualFold (fold_to_ascii s) t.

Fixpoint cerror_text (e : cerror) : string :=
  match e with
  | ClientError e => error_text e
  | ResponseError code message => "controller rejected request (" +:+ code +:+ "): " +:+ message
  | ClientJoin es => join_lines (map cerror_text es)
  end.

Fixpoint unavailable (e : cerror) : bool :=
  match e with
  | ClientError e => is_sentinel ErrUnavailable e
  | ResponseError _ _ => false
  | ClientJoin es => existsb unavailable es
  end.

Definition displayValue (value : string) : string := if String.eqb value "" then "-" else value.

(** ** Flags *)

Inductive FlagKind := FlagBool | FlagString | FlagDuration.

(** [strconv.ParseBool]. *)
Definition ParseBool (s : string) : option bool :=
  if existsb (String.eqb s) ["1"; "t"; "T"; "TRUE"; "true"; "True"] then Some true
  else if existsb (String.eqb s) ["0"; "f"; "F"; "FALSE"; "false"; "False"] then Some false
  else None.

Definition flag_accepts (kind : FlagKind) (value : string) : bool :=
  match kind with
  | FlagBool => match ParseBool value with Some _ => true | None => false end
  | FlagDuration => match ParseDuration value with Some _ => true | None => false end
  | FlagString => true
  end.

(** The name of a flag and the value after the first [=], which is not looked for
    in first place. *)
Fixpoint split_flag (s : string) : string * option string :=
  match s with
  | EmptyString => ("", None)
  | String a rest => if Ascii.eqb a "=" then ("", Some rest) else let '(n, v) := split_flag rest in (String a n, v)
  end.

Definition find_flag (spec : list (string * FlagKind)) (name : string) : option FlagKind :=
  match List.find (fun f => String.eqb (fst f) name) spec with Some (_, kind) => Some kind | None => None end.

(** [FlagSet.Parse]: the values set, in order, and the arguments that remain, or
    [None] for an error; a refused value is set before it is reported. *)
Fixpoint scan_flags (spec : list (string * FlagKind)) (args : list string) : list (string * string) * option (list string) :=
  match args with
  | [] => ([], Some [])
  | s :: rest =>
      if negb (HasPrefix s "-") || String.eqb s "-" then ([], Some args)
      else if String.eqb s "--" then ([], Some rest)
      else
        let name := if HasPrefix s "--" then TrimPrefix s "--" else TrimPrefix s "-" in
        if String.eqb name "" || HasPrefix name "-" || HasPrefix name "=" then ([], None)
        else
          let '(name, value) := split_flag name in
          match find_flag spec name with
          | None => ([], None)
          | Some kind =>
              let add (value : string) (scanned : list (string * string) * option (list string)) :=
                if flag_accepts kind value then ((name, value) :: fst scanned, snd scanned) else ([(name, value)], None) in
              match value, kind with
              | Some value, _ => add value (scan_flags spec rest)
              | None, FlagBool => add "true" (scan_flags spec rest)
              | None, _ => match rest with value :: rest => add value (scan_flags spec rest) | [] => ([], None) end
              end
          end
  end.

Definition parse_flags (spec : list (string * FlagKind)) (args : list string) : option (list (string * string) * list string) :=
  match scan_flags spec args with (values, Some rest) => Some (values, rest) | (_, None) => None end.

(** The last value of a flag. *)
Definition flag_value (values : list (string * string)) (name : string) : option string :=
  match List.find (fun f => String.eqb (fst f) name) (rev values) with Some (_, value) => Some value | None => None end.
Definition flag_bool (values : list (string * string)) (name : string) : bool :=
  match flag_value values name with Some value => default false (ParseBool value) | None => false end.
Definition flag_duration (values : list (string * string)) (name : string) : duration :=
  match flag_value values name with Some value => default 0 (ParseDuration value) | None => 0 end.
Definition flag_string (values : list (string * string)) (name : string) : string := default "" (flag_value values name).

(** ** The environment *)

Record activeJob := mkActiveJob {
  aj_WorkerID : string;
  aj_PoolID : string;
  aj_Name : string;
  aj_JobID : string;
  aj_StartedAt : time;
}.

Record statusDocument := mkStatusDocument {
  sd_SchemaVersion : Z;
  sd_ControllerAvailable : bool;
  sd_ActiveJobCount : Z;
  sd_ActiveJobs : list activeJob;
  sd_Controller : option Status;
  sd_Desired : option DesiredState;
  sd_Observed : option ObservedState;
}.

(** The time of the import is already in RFC 3339. *)
Record ImportResult := mkImportResult {
  ir_Fingerprint : string;
  ir_Path : string;
  ir_ImportedAt : string;
}.

Record GamingContainer := mkGamingContainer { gc_Name : string; gc_Image : string; gc_Status : string }.
Record GamingInventory := mkGamingInventory {
  gi_NonCIContainers : list GamingContainer;
  gi_RunningDistributions : list string;
  gi_Problems : list string;
}.

(** The end of a wait: the timer, or the context with its error. *)
Inductive PollSelect := PollTick | PollDone (err : error).

Inductive ccall :=
  | LoadDesiredState
  | SaveDesiredState (d : DesiredState)
  | LoadObservedState
  | AppNow
  | WallNow
  | Poll (interval : duration)
  | ControlStatus
  | ControlShutdown (reason : string) (expected : Status) (restart : bool)
  | ControlDump
  | OpenProcess (processID : Z)
  | WaitProcess
  | CloseProcess
  | LoadReceipt
  | StartTask (name : string)
  | Reboot (reason : string)
  | Inventory
  | ReadString
  | ForceStopTargets
  | ForceStopRun (expected : list ForceStopTarget)
  | ImportSecret (file destination : string)
  | Out (text : string)
  | ErrOut (text : string)
  | EncodeJSON (value : statusDocument)
  | HumanStatus (desired : result error DesiredState) (observed : result error ObservedState)
  | Doctor (args : list string)
  | LogsCommand (args : list string).

Definition cresp (c : ccall) : Type :=
  match c with
  | LoadDesiredState => result error DesiredState
  | LoadObservedState => result error ObservedState
  | SaveDesiredState _ | OpenProcess _ | StartTask _ | Reboot _ | EncodeJSON _ => option error
  | AppNow | WallNow => time
  | Poll _ => PollSelect
  | ControlStatus | ControlShutdown _ _ _ => result cerror Status
  | ControlDump => result cerror string
  | WaitProcess => result error Z
  | LoadReceipt => result error RestartReceipt
  | Inventory => GamingInventory
  | ReadString => string * option ReadError
  | ForceStopTargets | ForceStopRun _ => result cerror (list ForceStopTarget)
  | ImportSecret _ _ => result error ImportResult
  | Doctor _ | LogsCommand _ => Z
  | CloseProcess | Out _ | ErrOut _ | HumanStatus _ _ => unit
  end.

Abbreviation cprog := (iprog cresp).

Definition cask (c : ccall) : cprog (cresp c) := icall c.
Definition writeln (text : string) : cprog () := cask (Out (text +:+ newline)).
Definition errln (text : string) : cprog () := cask (ErrOut (text +:+ newline)).

(** A message and an exit code. *)
Definition fails (text : string) (code : Z) : cprog (option Z) := let^ _ := errln text in IRet (Some code).
Definition ends (text : string) : cprog (option Z) := let^ _ := writeln text in IRet (Some ExitOK).

(** Goes on with the code of a command that has ended. *)
Definition on_exit (p : cprog (option Z)) (k : Z -> cprog (option Z)) : cprog (option Z) :=
  let^ code := p in
  match code with
  | Some code => k code
  | None => IRet None
  end.

Definition readLine : cprog (result ReadError string) :=
  let^ line := cask ReadString in
  match line with
  | (_, Some (ReadFailed e)) => IRet (Err (ReadFailed e))
  | (value, Some ReadEOF) => IRet (if String.eqb value "" then Err ReadEOF else Ok (TrimSpace value))
  | (value, None) => IRet (Ok (TrimSpace value))
  end.

Definition read_text (e : ReadError) : string := error_text (read_error e).

(** Which adapters the application was built with; the version of the tool. *)
Record Application := mkApplication {
  ap_Config : Config;
  ap_Gaming : bool;
  ap_Secrets : bool;
  ap_ForceStop : bool;
  ap_Control : bool;
  ap_Processes : bool;
  ap_Tasks : bool;
  ap_RestartReceipts : bool;
  ap_Reboot : bool;
  ap_PollInterval : duration;
  ap_Version : string;
}.

Definition not_found (e : error) : bool := is_sentinel ErrStateNotFound e.

(** ** Modes *)

Definition modeReached (mode : Mode) (phase : Phase) : bool :=
  match mode, phase with
  | ModeEnabled, PhaseReady | ModeDisabled, PhaseDisabled | ModeGaming, PhaseGaming => true
  | _, _ => false
  end.

Section Commands.
Context `{Unicode, Platform, FilePath} (app : Application).

Definition classify_problem (p : Problem) : option Z :=
  let code := ToLower (pb_Code p) in
  if Contains code "credential" || Contains code "secret" || Contains code "auth" then Some ExitCredential
  else if Contains code "timeout" || Contains code "timed-out" then Some ExitOperationTimedOut
  else None.

Definition classifyProblems (problems : list Problem) : Z := default ExitDegraded (first_some classify_problem problems).

Fixpoint print_problems (problems : list Problem) : cprog () :=
  match problems with
  | [] => IRet ()
  | p :: problems => let^ _ := errln (pb_Code p +:+ ": " +:+ pb_Message p) in print_problems problems
  end.

Definition detached : cprog (option Z) := ends "Detached; the controller will continue the requested transition.".

Definition draining_mode (mode : Mode) : bool := match mode with ModeDisabled | ModeGaming => true | _ => false end.

(** The warning about a long drain, at most once. *)
Definition drain_warning (mode : Mode) (started : time) (warned : bool) : cprog bool :=
  let after := dr_WarningAfter (c_Drain (ap_Config app)) in
  if negb warned && draining_mode mode && (0 <? after) then
    let^ now := cask AppNow in
    if after <=? Sub now started
    then
      let^ _ := errln ("Drain has exceeded " +:+ Duration_String after +:+ "; active jobs will continue and will not be terminated automatically.") in
      IRet true
    else IRet warned
  else IRet warned.

Fixpoint wait_loop (fuel : nat) (mode : Mode) (detachOnCancel : bool) (started : time) (warned : bool) : cprog (option Z) :=
  match fuel with
  | O => IRet None
  | S fuel =>
      let^ observed := cask LoadObservedState in
      let go_on :=
        let^ warned := drain_warning mode started warned in
        let^ selected := cask (Poll (ap_PollInterval app)) in
        match selected with
        | PollTick => wait_loop fuel mode detachOnCancel started warned
        | PollDone e => if detachOnCancel then detached else fails ("wait interrupted: " +:+ error_text e) ExitRuntime
        end in
      match observed with
      | Ok o =>
          match os_Phase o with
          | PhaseDegraded =>
              let^ _ := print_problems (os_Problems o) in
              IRet (Some (classifyProblems (os_Problems o)))
          | phase => if modeReached mode phase then ends ("Host reached " +:+ Phase_string phase +:+ " phase.") else go_on
          end
      | Err e =>
          if detachOnCancel && is_sentinel errCanceled e then detached
          else if negb (not_found e) then fails ("read observed state: " +:+ error_text e) ExitRuntime
          else go_on
      end
  end.

Definition waitForMode (fuel : nat) (mode : Mode) (detachOnCancel : bool) : cprog (option Z) :=
  let^ started := cask AppNow in
  wait_loop fuel mode detachOnCancel started false.

(** The part of [requestMode] after the desired state was read. *)
Definition save_mode (fuel : nat) (mode : Mode) (wait detachOnCancel : bool) (desired : DesiredState) : cprog (option Z) :=
  let^ now := cask AppNow in
  let^ saved := cask (SaveDesiredState {| desired with ds_SchemaVersion := 1; ds_Mode := mode; ds_UpdatedAt := now |}) in
  match saved with
  | Some e => fails ("write desired state: " +:+ error_text e) ExitRuntime
  | None =>
      let^ _ := writeln ("Requested " +:+ Mode_string mode +:+ " mode.") in
      if negb wait then IRet (Some ExitOK) else waitForMode fuel mode detachOnCancel
  end.

Definition requestMode (fuel : nat) (mode : Mode) (wait detachOnCancel : bool) : cprog (option Z) :=
  let^ loaded := cask LoadDesiredState in
  match loaded with
  | Ok desired => save_mode fuel mode wait detachOnCancel desired
  | Err e =>
      if not_found e then save_mode fuel mode wait detachOnCancel (mkDesiredState 1 (ModeOther "") None 0)
      else fails ("read desired state: " +:+ error_text e) ExitRuntime
  end.

Definition enable (fuel : nat) (args : list string) : cprog (option Z) :=
  match parse_flags [("wait", FlagBool)] args with
  | Some (values, []) => requestMode fuel ModeEnabled (flag_bool values "wait") false
  | _ => IRet (Some ExitUsage)
  end.

(** Whether to wait, or [None]. *)
Definition parseWaitDetach (args : list string) : cprog (option bool) :=
  let scanned := scan_flags [("wait", FlagBool); ("detach", FlagBool)] args in
  let wait := flag_bool (fst scanned) "wait" in
  let detach := flag_bool (fst scanned) "detach" in
  if wait && detach then let^ _ := errln "--wait and --detach are mutually exclusive" in IRet None
  else match snd scanned with
       | Some [] => IRet (Some (if negb wait && negb detach then true else wait))
       | _ => IRet None
       end.

Definition disable (fuel : nat) (args : list string) : cprog (option Z) :=
  let^ parsed := parseWaitDetach args in
  match parsed with
  | Some wait => requestMode fuel ModeDisabled wait true
  | None => IRet (Some ExitUsage)
  end.

Fixpoint print_lines (lines : list string) : cprog () :=
  match lines with
  | [] => IRet ()
  | l :: lines => let^ _ := writeln l in print_lines lines
  end.

Definition inventory_lines (workers : list Worker) (inventory : GamingInventory) : list string :=
  let busy := filter (fun w => w_State w = WorkerBusy) workers in
  ["Gaming-mode impact inventory:"]
  ++ map (fun w => "- Active CI job: worker=" +:+ w_Name w +:+ " pool=" +:+ w_PoolID w +:+ " job=" +:+ displayValue (w_JobID w)) busy
  ++ (match busy with [] => ["- Active CI jobs: none"] | _ => [] end)
  ++ map (fun c => "- Non-CI Docker container: " +:+ gc_Name c +:+ " image=" +:+ gc_Image c +:+ " status=" +:+ gc_Status c) (gi_NonCIContainers inventory)
  ++ (match gi_NonCIContainers inventory with [] => ["- Non-CI Docker containers: none"] | _ => [] end)
  ++ map (fun d => "- Running WSL distribution: " +:+ d) (gi_RunningDistributions inventory)
  ++ (match gi_RunningDistributions inventory with [] => ["- Running WSL distributions: none"] | _ => [] end)
  ++ map (fun p => "- Inventory warning: " +:+ p) (gi_Problems inventory)
  ++ ["Docker Desktop and every running WSL distribution will stop after CI jobs drain."].

Definition confirm (prompt : string) (accepted : list string) : cprog (result ReadError bool) :=
  let^ _ := cask (Out prompt) in
  let^ line := readLine in
  IRet (match line with
        | Ok value => Ok (existsb (EqualFoldASCII value) accepted)
        | Err e => Err e
        end).

Definition game (fuel : nat) (args : list string) : cprog (option Z) :=
  let^ parsed := parseWaitDetach args in
  match parsed with
  | None => IRet (Some ExitUsage)
  | Some wait =>
      if negb (ap_Gaming app) then fails "gaming host inventory is unavailable" ExitInvalidConfig
      else
        let^ observed := cask LoadObservedState in
        let^ inventory := cask Inventory in
        let^ _ := print_lines (inventory_lines (match observed with Ok o => os_Workers o | Err _ => [] end) inventory) in
        let^ confirmed := confirm "Enter gaming mode after active CI work drains? [y/N]: " ["y"; "yes"] in
        match confirmed with
        | Err e => fails ("read confirmation: " +:+ read_text e) ExitRuntime
        | Ok false => ends "Gaming mode was not requested."
        | Ok true => requestMode fuel ModeGaming wait true
        end
  end.
(** ** Forced stop *)

Definition zero_capacity (requestedAt : time) (o : ObservedState) : bool :=
  negb (Before (os_HeartbeatAt o) requestedAt)
  && match os_Phase o with PhaseDraining | PhaseDisabled => true | _ => false end
  && forallb (fun p => po_MaxCapacity p =? 0) (os_Pools o)
  && forallb (fun t => existsb (fun p => String.eqb (po_ID p) (t_ID t)) (os_Pools o)) (c_Targets (ap_Config app)).

Fixpoint waitForZeroCapacity (fuel : nat) (requestedAt : time) : cprog (option Z) :=
  match fuel with
  | O => IRet None
  | S fuel =>
      let^ observed := cask LoadObservedState in
      let go_on :=
        let^ selected := cask (Poll (ap_PollInterval app)) in
        match selected with
        | PollTick => waitForZeroCapacity fuel requestedAt
        | PollDone _ => fails "force-stop canceled while waiting for listeners to advertise zero capacity" ExitRuntime
        end in
      match observed with
      | Ok o =>
          if zero_capacity requestedAt o then IRet (Some ExitOK)
          else match os_Phase o with
               | PhaseDegraded => IRet (Some (classifyProblems (os_Problems o)))
               | _ => go_on
               end
      | Err e => if negb (not_found e) then fails ("read observed state: " +:+ error_text e) ExitRuntime else go_on
      end
  end.

(** [ControlForceStopper.Execute]: whether the state changed, or another error. *)
Definition ForceStop_Execute (expected : list ForceStopTarget) : cprog (result (bool * string) (list ForceStopTarget)) :=
  let^ stopped := cask (ForceStopRun expected) in
  IRet (match stopped with
        | Ok targets => Ok targets
        | Err e =>
            match as_ResponseError e with
            | Some (code, _) =>
                if String.eqb code "force-stop-state-changed" then Err (true, error_text ErrForceStopStateChanged) else Err (false, cerror_text e)
            | None => Err (false, cerror_text e)
            end
        end).

Definition target_line (t : ForceStopTarget) : string :=
  "- " +:+ ft_Name t +:+ " pool=" +:+ ft_PoolID t +:+ " state=" +:+ WorkerState_string (ft_State t) +:+ " job=" +:+ displayValue (ft_JobID t).

(** What the line typed at the prompt leads to. *)
Definition on_confirmation (preview : list ForceStopTarget) (text : string) : cprog (option Z) :=
  if negb (String.eqb text "FORCE STOP") then ends "Force-stop was not executed; disabled mode remains requested."
  else
    let^ stopped := ForceStop_Execute preview in
    match stopped with
    | Err (true, _) =>
        fails "Worker state changed after confirmation; nothing was force-stopped. Review the new inventory and try again." ExitStateChanged
    | Err (false, text) => fails ("force-stop workers: " +:+ text) ExitRuntime
    | Ok targets => ends ("Force-stopped " +:+ pretty (Z.of_nat (length targets)) +:+ " managed worker(s).")
    end.

Definition confirmed_stop (preview : list ForceStopTarget) : cprog (option Z) :=
  let^ _ := writeln "Force-stop will terminate these managed workers and any jobs they are running:" in
  let^ _ := print_lines (map target_line preview) in
  let^ _ := cask (Out "Type FORCE STOP to continue: ") in
  let^ confirmation := readLine in
  match confirmation with
  | Err e => fails ("read confirmation: " +:+ read_text e) ExitRuntime
  | Ok text => on_confirmation preview text
  end.

Definition forceStop (fuel : nat) (args : list string) : cprog (option Z) :=
  match args with
  | _ :: _ => IRet (Some ExitUsage)
  | [] =>
      if negb (ap_ForceStop app) then fails "force-stop runtime is unavailable" ExitInvalidConfig
      else
        on_exit (requestMode fuel ModeDisabled false false) (fun code =>
          if negb (code =? ExitOK) then IRet (Some code)
          else
            let^ loaded := cask LoadDesiredState in
            match loaded with
            | Err e => fails ("read force-stop desired state: " +:+ error_text e) ExitRuntime
            | Ok desired =>
                on_exit (waitForZeroCapacity fuel (ds_UpdatedAt desired)) (fun code =>
                  if negb (code =? ExitOK) then IRet (Some code)
                  else
                    let^ preview := cask ForceStopTargets in
                    match preview with
                    | Err e => fails ("inventory force-stop targets: " +:+ cerror_text e) ExitRuntime
                    | Ok [] => ends "No active managed workers require force-stop."
                    | Ok preview => confirmed_stop preview
                    end)
            end)
  end.

(** ** Temporary capacity *)

(** [parseCapacity]: [Some None] resets. *)
Definition parseCapacity (value : string) : option (option Z) :=
  let value := TrimSpace value in
  if String.eqb value "" || EqualFoldASCII value "reset" then Some None
  else match Atoi value with
       | Some capacity => if capacity <? 0 then None else Some (Some capacity)
       | None => None
       end.

(** The part of [temporaryCapacity] after the desired state was read. *)
Definition ask_capacity (desired : DesiredState) : cprog (option Z) :=
  let^ _ := writeln (match ds_TemporaryCapacityOverride desired with
                     | None => "Temporary capacity currently uses the checked-in configuration."
                     | Some n => "Temporary capacity is " +:+ pretty n +:+ "."
                     end) in
  let^ _ := cask (Out "Enter a non-negative capacity, or reset: ") in
  let^ line := readLine in
  match line with
  | Err e => fails ("read capacity: " +:+ read_text e) ExitRuntime
  | Ok value =>
      match parseCapacity value with
      | None => fails "capacity must be a non-negative integer or reset" ExitUsage
      | Some capacity =>
          let^ now := cask AppNow in
          let^ saved := cask (SaveDesiredState {| desired with ds_TemporaryCapacityOverride := capacity; ds_UpdatedAt := now |}) in
          match saved with
          | Some e => fails ("write desired state: " +:+ error_text e) ExitRuntime
          | None =>
              ends (match capacity with
                    | None => "Temporary capacity reset to the checked-in value."
                    | Some n => "Temporary capacity set to " +:+ pretty n +:+ "; admission and pressure gates still apply."
                    end)
          end
      end
  end.

Definition temporaryCapacity : cprog (option Z) :=
  let^ loaded := cask LoadDesiredState in
  match loaded with
  | Ok desired => ask_capacity desired
  | Err e =>
      if not_found e then ask_capacity (mkDesiredState 1 ModeDisabled None 0)
      else fails ("read desired state: " +:+ error_text e) ExitRuntime
  end.

(** ** Restarting and stopping the controller *)

Definition controllerTaskName : string := "ci-runner-fleet".
Definition maxControllerTaskStartAttempts : Z := 4.
Definition DeadlineExceeded : error := ErrNew "context deadline exceeded".

(** The wait before the task may be started again. *)
Definition start_backoff (interval timeout : duration) (startAttempts : Z) : duration :=
  let multiplier := wrap_i64 (Z.shiftl 1 (startAttempts - 1)) in
  if interval <=? Z.quot timeout multiplier then wrap_i64 (interval * multiplier) else timeout.

(** What is known about the replacement from its status. *)
Inductive Replacement := Rejected (text : string) | Running (status : Status) | NotYet.

Definition check_replacement (expectedVersion : string) (previousProcessID : Z) (status : Status) : Replacement :=
  if sta_ProcessID status =? 0 then Rejected "replacement controller returned an invalid process ID"
  else if sta_ProcessID status =? previousProcessID
  then Rejected ("controller control plane still reports exited process ID " +:+ pretty previousProcessID +:+ "; scheduled task was not started again")
  else if negb (String.eqb (sta_Version status) expectedVersion)
  then Rejected ("replacement controller version " +:+ Quote (sta_Version status) +:+ " does not match expected version " +:+ Quote expectedVersion)
  else if negb (sta_ShuttingDown status) then Running status
  else NotYet.

(** Starts the task if it may be started now. *)
Definition maybe_start (interval timeout : duration) (startAttempts : Z) (nextStartAt : time) (lastStartErr : option error)
    : cprog (Z * time * option error) :=
  let^ now := cask WallNow in
  if (startAttempts <? maxControllerTaskStartAttempts) && (IsZero nextStartAt || negb (Before now nextStartAt)) then
    let^ startErr := cask (StartTask controllerTaskName) in
    let startAttempts := startAttempts + 1 in
    IRet (startAttempts, now + start_backoff interval timeout startAttempts, startErr)
  else IRet (startAttempts, nextStartAt, lastStartErr).

(** The pause between two looks at the control plane, which the deadline ends. *)
Definition start_pause (interval timeout : duration) (expectedVersion : string) (startAttempts : Z) (lastStartErr : option error)
    (again : cprog (option Z)) : cprog (option Z) :=
  let^ selected := cask (Poll interval) in
  match selected with
  | PollTick => again
  | PollDone e =>
      if is_sentinel DeadlineExceeded e then
        let^ _ := (match lastStartErr with
                   | Some e => errln ("last canonical task start attempt failed: " +:+ error_text e)
                   | None => IRet ()
                   end) in
        fails ("controller did not start as version " +:+ expectedVersion +:+ " within " +:+ Duration_String timeout +:+ " after "
               +:+ pretty startAttempts +:+ " of at most " +:+ pretty maxControllerTaskStartAttempts +:+ " canonical task start attempt(s)")
              ExitOperationTimedOut
      else fails ("controller restart wait interrupted: " +:+ error_text e) ExitRuntime
  end.

Fixpoint start_loop (fuel : nat) (interval timeout : duration) (expectedVersion : string) (previousProcessID : Z)
    (startAttempts : Z) (nextStartAt : time) (lastStartErr : option error) : cprog (option Z) :=
  match fuel with
  | O => IRet None
  | S fuel =>
      let^ queried := cask ControlStatus in
      let go_on :=
        let^ started := maybe_start interval timeout startAttempts nextStartAt lastStartErr in
        let '(startAttempts, nextStartAt, lastStartErr) := started in
        start_pause interval timeout expectedVersion startAttempts lastStartErr
          (start_loop fuel interval timeout expectedVersion previousProcessID startAttempts nextStartAt lastStartErr) in
      match queried with
      | Ok status =>
          match check_replacement expectedVersion previousProcessID status with
          | Rejected text => fails text ExitStateChanged
          | Running status =>
              let^ _ := writeln ("Controller is running (pid " +:+ pretty (sta_ProcessID status) +:+ ", version "
                                 +:+ displayValue (sta_Version status) +:+ ", phase " +:+ Phase_string (sta_Phase status) +:+ ").") in
              ends "Desired mode is unchanged. An observed disabled phase on the replacement is transient until the first successful reconcile."
          | NotYet => go_on
          end
      | Err e => if negb (unavailable e) then fails ("verify restarted controller: " +:+ cerror_text e) ExitRuntime else go_on
      end
  end.

Definition startControllerTaskAndWait (fuel : nat) (expectedVersion : string) (previousProcessID : Z) : cprog (option Z) :=
  let interval := co_ShutdownPollInterval (c_Controller (ap_Config app)) in
  let timeout := co_StartupTimeout (c_Controller (ap_Config app)) in
  if negb (ap_Control app) || negb (ap_Tasks app) || (interval <=? 0) || (timeout <=? 0)
     || String.eqb expectedVersion "" || (previousProcessID =? 0)
  then fails "controller adapters, shutdownPollInterval, startupTimeout, expected version, and previous process ID must be valid" ExitInvalidConfig
  else
    let^ _ := writeln ("Starting canonical scheduled task " +:+ Quote controllerTaskName +:+ " and waiting for a verified replacement process.") in
    start_loop fuel interval timeout expectedVersion previousProcessID 0 0 None.

(** A receipt of the request, for the process and the version that were seen. *)
Definition receipt_verified (requestID : string) (status : Status) (r : RestartReceipt) : bool :=
  (rr_SchemaVersion r =? 1) && negb (IsZero (rr_CompletedAt r)) && String.eqb (rr_RequestID r) requestID
  && (rr_ProcessID r =? sta_ProcessID status) && String.eqb (rr_Version r) (sta_Version status).

(** The decision about the receipt once the process has exited. *)
Definition settle_restart (fuel : nat) (status : Status) (restartRequestID : string) (exitCode : Z) : cprog (option Z) :=
  let^ loaded := cask LoadReceipt in
  let verified := match loaded with Ok r => receipt_verified restartRequestID status r | Err _ => false end in
  let missing := match loaded with Err e => not_found e | Ok _ => false end in
  let instead := "controller exited with code " +:+ pretty exitCode +:+ " instead of dedicated restart code " +:+ pretty ControllerRestartExitCode in
  if negb (exitCode =? ControllerRestartExitCode) then
    if verified : bool then
      let^ _ := writeln ("Controller exited with code " +:+ pretty exitCode +:+ " instead of dedicated restart code " +:+ pretty ControllerRestartExitCode
                         +:+ ", but the exact durable completion receipt is verified; starting the scheduled task.") in
      startControllerTaskAndWait fuel (ap_Version app) (sta_ProcessID status)
    else
      let refuse :=
        let^ _ := errln (instead +:+ " and no matching completion receipt exists; scheduled task was not started") in
        fails ("the old process (pid " +:+ pretty (sta_ProcessID status)
               +:+ ") has exited; after confirming the drain outcome, recover with: Start-ScheduledTask " +:+ controllerTaskName) ExitStateChanged in
      match loaded with
      | Err e =>
          if negb missing
          then fails (instead +:+ " and the completion receipt could not be read: " +:+ error_text e +:+ "; scheduled task was not started") ExitRuntime
          else refuse
      | Ok _ => refuse
      end
  else if missing : bool
  then fails "controller exited without a durable restart completion receipt; scheduled task was not started" ExitStateChanged
  else match loaded with
       | Err e => fails ("read restart completion receipt: " +:+ error_text e +:+ "; scheduled task was not started") ExitRuntime
       | Ok _ =>
           if negb verified
           then fails "restart completion receipt does not match the authenticated request, old process, and exact version; scheduled task was not started" ExitStateChanged
           else
             let^ _ := writeln ("Controller exited after the accepted restart drain (code " +:+ pretty exitCode +:+ "); exact durable completion receipt verified.") in
             startControllerTaskAndWait fuel (ap_Version app) (sta_ProcessID status)
       end.

(** The wait for the process and what follows from its exit code. *)
Definition await_exit (fuel : nat) (restart : bool) (status : Status) (restartRequestID : string) : cprog (option Z) :=
  let^ _ := writeln ("Controller accepted a capacity-zero drain (assigned jobs: " +:+ pretty (sta_AssignedJobCount status) +:+ ", active jobs: "
                     +:+ pretty (sta_ActiveJobCount status) +:+ ", active workers: " +:+ pretty (sta_ActiveWorkerCount status)
                     +:+ "). Existing work will finish naturally; waiting for process exit.") in
  let^ waited := cask WaitProcess in
  match waited with
  | Err e =>
      let^ _ := errln ("wait for controller exit: " +:+ error_text e) in
      let^ dumped := cask ControlDump in
      let^ _ := errln (match dumped with
                       | Err e => "warning: controller goroutine dump failed: " +:+ cerror_text e
                       | Ok path => "Controller goroutine dump: " +:+ path
                       end) in
      IRet (Some ExitRuntime)
  | Ok exitCode =>
      if restart : bool then settle_restart fuel status restartRequestID exitCode
      else if negb (exitCode =? 0)
      then fails ("controller exited with code " +:+ pretty exitCode +:+ "; lifecycle mutation is unsafe") ExitRuntime
      else ends "Controller stopped safely for update without changing desired mode."
  end.

(** The acknowledgement is for the controller that was asked. *)
Definition consistent_ack (status accepted : Status) : bool :=
  sta_ShuttingDown accepted && (sta_ProcessID accepted =? sta_ProcessID status) && String.eqb (sta_Version accepted) (sta_Version status)
  && (sta_AssignedJobCount accepted =? sta_AssignedJobCount status) && (sta_ActiveJobCount accepted =? sta_ActiveJobCount status)
  && (sta_ActiveWorkerCount accepted =? sta_ActiveWorkerCount status).

Definition request_shutdown (fuel : nat) (restart : bool) (status : Status) : cprog (option Z) :=
  if sta_ShuttingDown status then await_exit fuel restart status (sta_RestartRequestID status)
  else
    let reason := if restart then "ci-runner host controller restart" else "ci-runner host controller stop-for-update" in
    let^ answered := cask (ControlShutdown reason status restart) in
    match answered with
    | Err e =>
        match as_ResponseError e with
        | Some (code, _) =>
            if String.eqb code "shutdown-state-changed"
            then fails ("controller state changed during shutdown preflight: " +:+ cerror_text e) ExitStateChanged
            else fails ("request clean controller shutdown: " +:+ cerror_text e) ExitRuntime
        | None => fails ("request clean controller shutdown: " +:+ cerror_text e) ExitRuntime
        end
    | Ok accepted =>
        if negb (consistent_ack status accepted)
        then fails "controller returned an inconsistent shutdown acknowledgement" ExitStateChanged
        else if restart && String.eqb (sta_RestartRequestID accepted) ""
        then fails "controller restart acknowledgement omitted its authenticated request ID; scheduled task was not started" ExitStateChanged
        else await_exit fuel restart status (if restart then sta_RestartRequestID accepted else sta_RestartRequestID status)
    end.

Definition stopController (fuel : nat) (restart : bool) : cprog (option Z) :=
  if negb (ap_Control app) || negb (ap_Processes app) || (restart && (negb (ap_Tasks app) || negb (ap_RestartReceipts app)))
  then fails "controller lifecycle adapters are unavailable" ExitInvalidConfig
  else
    let^ queried := cask ControlStatus in
    match queried with
    | Err e =>
        if unavailable e
        then fails "controller is unavailable; an authenticated capacity-zero drain and exact process exit cannot be proven; scheduled task was not started" ExitDegraded
        else fails ("query controller: " +:+ cerror_text e) ExitRuntime
    | Ok status =>
        if sta_ProcessID status =? 0 then fails "controller returned an invalid process ID" ExitStateChanged
        else if restart && negb (String.eqb (sta_Version status) (ap_Version app))
        then fails ("running controller version " +:+ Quote (sta_Version status) +:+ " does not match restart command version "
                    +:+ Quote (ap_Version app) +:+ "; scheduled task was not started") ExitStateChanged
        else
          let^ opened := cask (OpenProcess (sta_ProcessID status)) in
          match opened with
          | Some e => fails ("observe controller process: " +:+ error_text e) ExitRuntime
          | None =>
              on_exit
                (if restart && sta_ShuttingDown status && String.eqb (sta_RestartRequestID status) ""
                 then fails "controller is already shutting down without an authenticated restart request ID; scheduled task was not started" ExitStateChanged
                 else request_shutdown fuel restart status)
                (fun code => let^ _ := cask CloseProcess in IRet (Some code))
          end
    end.

Definition controllerCommand (fuel : nat) (args : list string) : cprog (option Z) :=
  let usage := fails "usage: ci-runner host controller <restart|stop-for-update>" ExitUsage in
  match args with
  | [arg] =>
      if String.eqb arg "restart" then stopController fuel true
      else if String.eqb arg "stop-for-update" then stopController fuel false
      else usage
  | _ => usage
  end.

(** ** Rebooting *)

Definition reboot (fuel : nat) (args : list string) : cprog (option Z) :=
  match parse_flags [("timeout", FlagDuration); ("force", FlagBool); ("dry-run", FlagBool)] args with
  | Some (values, []) =>
      if flag_duration values "timeout" <? 0 then fails "--timeout must be non-negative" ExitUsage
      else if negb (flag_bool values "dry-run") && negb (ap_Reboot app) then fails "host reboot adapter is unavailable" ExitInvalidConfig
      else
        on_exit (stopController fuel false) (fun drainCode =>
          if negb (drainCode =? ExitOK) && negb (flag_bool values "force")
          then fails "drain did not complete cleanly; pass --force to reboot anyway" drainCode
          else
            let^ _ := (if negb (drainCode =? ExitOK) then errln "drain did not complete cleanly; --force continues to reboot" else IRet ()) in
            if flag_bool values "dry-run" then ends "Dry run: drain finished; machine restart was not requested."
            else
              let^ rebooted := cask (Reboot "ci-runner host reboot") in
              match rebooted with
              | Some e => fails ("request machine restart: " +:+ error_text e) ExitRuntime
              | None => ends "Machine restart requested after the capacity-zero drain."
              end)
  | _ => fails "usage: ci-runner host reboot [--timeout DURATION] [--force] [--dry-run]" ExitUsage
  end.

(** ** Importing a secret *)

Definition configured_ids : list string :=
  sort_by String.ltb (remove_dups (map t_SecretID (c_Targets (ap_Config app)))).

Definition import_selected (file selected : string) : cprog (option Z) :=
  if negb (existsb (String.eqb selected) configured_ids) || String.eqb selected ""
  then fails ("secret ID " +:+ Quote selected +:+ " is not configured for this host") ExitInvalidConfig
  else
    let^ imported := cask (ImportSecret file (filepath_Join (pa_Secrets (c_Paths (ap_Config app))) (selected +:+ ".dpapi"))) in
    match imported with
    | Err e => fails ("import secret: " +:+ error_text e) ExitCredential
    | Ok r =>
        ends ("Imported GitHub App key" +:+ newline
              +:+ "Plaintext source PEM removed with identity-bound ordinary filesystem deletion (not media sanitization): " +:+ file +:+ newline
              +:+ "GitHub App fingerprint (Base64 SHA-256): " +:+ ir_Fingerprint r +:+ newline
              +:+ "Protected path: " +:+ ir_Path r +:+ newline +:+ "Imported: " +:+ ir_ImportedAt r)
    end.

Definition runSecret (args : list string) : cprog (option Z) :=
  match args with
  | arg :: args =>
      if negb (String.eqb arg "import") then fails "usage: ci-runner secret import --file PATH" ExitUsage
      else match parse_flags [("file", FlagString); ("id", FlagString)] args with
           | Some (values, []) =>
               let file := flag_string values "file" in
               if String.eqb (TrimSpace file) "" then IRet (Some ExitUsage)
               else if negb (ap_Secrets app) then fails "secret importer is unavailable" ExitInvalidConfig
               else
                 let selected := TrimSpace (flag_string values "id") in
                 if negb (String.eqb selected "") then import_selected file selected
                 else match configured_ids with
                      | [id] => import_selected file id
                      | [] => import_selected file ""
                      | ids =>
                          let^ _ := cask (Out ("Configured credential IDs: " +:+ GoText.Join ", " ids +:+ newline +:+ "Secret ID: ")) in
                          let^ line := readLine in
                          match line with
                          | Err e => fails ("read secret ID: " +:+ read_text e) ExitRuntime
                          | Ok selection => import_selected file selection
                          end
                      end
           | _ => IRet (Some ExitUsage)
           end
  | [] => fails "usage: ci-runner secret import --file PATH" ExitUsage
  end.

(** ** Status *)

Definition active_jobs (o : ObservedState) : list activeJob :=
  sort_by (fun a b => String.ltb (aj_WorkerID a) (aj_WorkerID b))
    (map (fun w => mkActiveJob (w_ID w) (w_PoolID w) (w_Name w) (w_JobID w) (w_StartedAt w))
         (filter (fun w => w_State w = WorkerBusy) (os_Workers o))).

Definition ok_of {E A} (r : result E A) : option A := match r with Ok a => Some a | Err _ => None end.

Definition status_command (args : list string) : cprog (option Z) :=
  match parse_flags [("json", FlagBool)] args with
  | Some (values, []) =>
      let^ desired := cask LoadDesiredState in
      let^ observed := cask LoadObservedState in
      let unreadable {A} (r : result error A) := match r with Err e => if not_found e then None else Some e | Ok _ => None end in
      match unreadable desired, unreadable observed with
      | Some e, _ => fails ("read desired state: " +:+ error_text e) ExitRuntime
      | None, Some e => fails ("read observed state: " +:+ error_text e) ExitRuntime
      | None, None =>
          let finish (controlHealthy : bool) :=
            IRet (Some (if negb controlHealthy then ExitDegraded
                        else match ok_of observed with
                             | Some o => match os_Phase o with PhaseDegraded => classifyProblems (os_Problems o) | _ => ExitOK end
                             | None => ExitOK
                             end)) in
          if flag_bool values "json" then
            let jobs := match ok_of observed with Some o => active_jobs o | None => [] end in
            let available := match ok_of observed with Some _ => negb (ap_Control app) | None => false end in
            let document := mkStatusDocument 1 available (Z.of_nat (length jobs)) jobs None (ok_of desired) (ok_of observed) in
            let emit (controlHealthy : bool) (value : statusDocument) :=
              let^ encoded := cask (EncodeJSON value) in
              match encoded with
              | Some e => fails ("write status: " +:+ error_text e) ExitRuntime
              | None => finish controlHealthy
              end in
            if ap_Control app then
              let^ queried := cask ControlStatus in
              match queried with
              | Ok st => emit true {| document with sd_ControllerAvailable := true; sd_ActiveJobCount := sta_ActiveJobCount st; sd_Controller := Some st |}
              | Err _ => emit false document
              end
            else emit true document
          else
            let^ _ := cask (HumanStatus desired observed) in
            if ap_Control app then
              let^ queried := cask ControlStatus in
              match queried with
              | Ok _ => finish true
              | Err e => let^ _ := errln ("Controller control plane: " +:+ cerror_text e) in finish false
              end
            else finish true
      end
  | _ => IRet (Some ExitUsage)
  end.

(** ** The command line *)

Definition usage_lines : list string :=
  [ "Usage:";
    "  ci-runner host";
    "  ci-runner host status [--json]";
    "  ci-runner host enable [--wait]";
    "  ci-runner host disable [--wait|--detach]";
    "  ci-runner host game [--wait|--detach]";
    "  ci-runner host doctor [--json] [--include-elevated]";
    "  ci-runner host logs [--follow|--job ID|--cleanup|--audit|--purge [--confirm] [--json]]";
    "  ci-runner host force-stop";
    "  ci-runner host controller restart";
    String (ascii_of_nat 9) "ci-runner host controller stop-for-update";
    "  ci-runner host reboot [--timeout DURATION] [--force] [--dry-run]";
    "  ci-runner secret import --file PATH";
    "  ci-runner [--config PATH] config validate [--json]" ].

Definition usage : cprog () := writeln (join_lines usage_lines).

Definition menu_lines : list string :=
  [ ""; "ci-runner host"; "  1. Status and health"; "  2. Enable/resume CI"; "  3. Drain and disable CI"; "  4. Gaming mode";
    "  5. Doctor"; "  6. Logs"; "  7. Temporary capacity"; "  8. Force stop"; "  9. Exit" ].

(** The menu, for at most [rounds] choices. *)
Fixpoint menu (rounds fuel : nat) : cprog (option Z) :=
  match rounds with
  | O => IRet None
  | S rounds =>
      let^ _ := writeln (join_lines menu_lines) in
      let^ _ := cask (Out "Select an option: ") in
      let^ line := readLine in
      let run (p : cprog (option Z)) := on_exit p (fun _ => menu rounds fuel) in
      match line with
      | Err (ReadFailed e) =>
          if is_sentinel errCanceled e || is_sentinel DeadlineExceeded e then IRet (Some ExitOK)
          else fails ("read menu selection: " +:+ error_text e) ExitRuntime
      | Err ReadEOF => fails ("read menu selection: " +:+ read_text ReadEOF) ExitRuntime
      | Ok choice =>
          if String.eqb choice "1" then run (status_command [])
          else if String.eqb choice "2" then run (enable fuel ["--wait"])
          else if String.eqb choice "3" then run (disable fuel ["--wait"])
          else if String.eqb choice "4" then run (game fuel ["--wait"])
          else if String.eqb choice "5" then let^ _ := cask (Doctor []) in menu rounds fuel
          else if String.eqb choice "6" then let^ _ := cask (LogsCommand []) in menu rounds fuel
          else if String.eqb choice "7" then run temporaryCapacity
          else if String.eqb choice "8" then run (forceStop fuel [])
          else if existsb (String.eqb choice) ["9"; "q"; "quit"; "exit"] then IRet (Some ExitOK)
          else let^ _ := errln "Choose a number from 1 through 9." in menu rounds fuel
      end
  end.

Definition runHost (fuel : nat) (args : list string) : cprog (option Z) :=
  match args with
  | [] => menu fuel fuel
  | arg :: args =>
      if String.eqb arg "status" then status_command args
      else if String.eqb arg "enable" then enable fuel args
      else if String.eqb arg "disable" then disable fuel args
      else if String.eqb arg "game" then game fuel args
      else if String.eqb arg "doctor" then let^ code := cask (Doctor args) in IRet (Some code)
      else if String.eqb arg "logs" then let^ code := cask (LogsCommand args) in IRet (Some code)
      else if String.eqb arg "force-stop" then forceStop fuel args
      else if String.eqb arg "controller" then controllerCommand fuel args
      else if String.eqb arg "reboot" then reboot fuel args
      else fails ("unknown host command " +:+ Quote arg) ExitUsage
  end.

Definition Run (fuel : nat) (args : list string) : cprog (option Z) :=
  match args with
  | [] => let^ _ := usage in IRet (Some ExitUsage)
  | arg :: args =>
      if String.eqb arg "host" then runHost fuel args
      else if String.eqb arg "secret" then runSecret args
      else if existsb (String.eqb arg) ["help"; "-h"; "--help"] then let^ _ := usage in IRet (Some ExitOK)
      else let^ _ := errln ("unknown command " +:+ Quote arg) in let^ _ := usage in IRet (Some ExitUsage)
  end.
End Commands.
