(* ===== verification/CliFacts.v ===== *)
(** What the commands of the tool guarantee: when the controller's task may be
    started and the machine rebooted, what a forced stop is preceded by, and how
    the desired state is updated. *)

From S2P Require Import Prelude Float64 GoStrings Regexp Model Config GoText Yaml Errors Effects Reconciler Control Transport FileSystem Store Samples ConfigSamples Interaction Watchdog ControllerLoop Cli.
From stdpp Require Import pretty.
From Stdlib Require Import Ascii.
#[local] Open Scope Z_scope.
Open Scope i_scope.

#[export] Instance Status_eq_dec : EqDecision Status.
Proof. solve_decision. Defined.

(** ** The lifecycle of the controller *)

(** What a command has learned: the controller it asked, whether it observes that
    process, the authenticated ID of the request, the exit code, whether the
    receipt was verified, the starts of the task and the last controller seen since. *)
Record lifecycle := mkLifecycle {
  lc_status : option Status;
  lc_opened : bool;
  lc_request : string;
  lc_exit : option Z;
  lc_verified : bool;
  lc_starts : Z;
  lc_seen : option Status;
}.

Definition unknown : lifecycle := mkLifecycle None false "" None false 0 None.

(** The acknowledgement is that of the same, draining, controller. *)
Definition same_controller (st accepted : Status) : bool :=
  sta_ShuttingDown accepted && (sta_ProcessID accepted =? sta_ProcessID st) && String.eqb (sta_Version accepted) (sta_Version st).

(** The receipt is complete and that of a request, a process and a version. *)
Definition proves_restart (request : string) (processID : Z) (version : string) (r : RestartReceipt) : bool :=
  (rr_SchemaVersion r =? 1) && negb (IsZero (rr_CompletedAt r)) && String.eqb (rr_RequestID r) request
  && (rr_ProcessID r =? processID) && String.eqb (rr_Version r) version.

(** The events that are allowed.  A process is observed only under the ID its
    controller reported and the shutdown is asked of that controller; the receipt
    counts when the process has exited and it is that of the authenticated request,
    of this process and of the tool's own version; the task is started only then
    and at most four times; the machine is rebooted only after the exit code zero
    of the observed process, unless that is forced. *)
Definition lifecycle_step (version : string) (forced : bool) (s : lifecycle) (e : event cresp) : option lifecycle :=
  match e with
  | existT ControlStatus (Ok st) =>
      Some (if lc_opened s then {| s with lc_seen := Some st |}
            else {| s with lc_status := Some st; lc_request := if sta_ShuttingDown st then sta_RestartRequestID st else "" |})
  | existT (OpenProcess pid) answer =>
      match lc_status s with
      | Some st =>
          if (sta_ProcessID st =? pid) && negb (pid =? 0) && negb (lc_opened s)
          then Some (match answer with None => {| s with lc_opened := true |} | Some _ => s end) else None
      | None => None
      end
  | existT (ControlShutdown _ expected _) answer =>
      match lc_status s with
      | Some st =>
          if lc_opened s && bool_decide (expected = st)
          then Some (match answer with
                     | Ok accepted => if same_controller st accepted then {| s with lc_request := sta_RestartRequestID accepted |} else s
                     | Err _ => s
                     end)
          else None
      | None => None
      end
  | existT WaitProcess answer =>
      if lc_opened s then Some (match answer with Ok code => {| s with lc_exit := Some code |} | Err _ => s end) else None
  | existT LoadReceipt answer =>
      match lc_status s, lc_exit s with
      | Some st, Some _ =>
          Some (match answer with
                | Ok r => {| s with lc_verified := negb (String.eqb (lc_request s) "")
                                                   && proves_restart (lc_request s) (sta_ProcessID st) version r |}
                | Err _ => s
                end)
      | _, _ => None
      end
  | existT (StartTask name) _ =>
      if lc_verified s && (lc_starts s <? 4) && String.eqb name controllerTaskName
      then Some {| s with lc_starts := lc_starts s + 1 |} else None
  | existT (Reboot _) _ => if forced || match lc_exit s with Some code => code =? 0 | None => false end then Some s else None
  | _ => Some s
  end.

Section Lifecycle.
Context `{Unicode, Platform, FilePath} (app : Application) (forced : bool).
Abbreviation allowed := (obeys (lifecycle_step (ap_Version app) forced)).

Lemma fails_allowed text code Q s : Q s (Some code) -> allowed (fails text code) Q s.
Proof. intros HQ []. exact HQ. Qed.
Lemma ends_allowed text Q s : Q s (Some ExitOK) -> allowed (ends text) Q s.
Proof. intros HQ []. exact HQ. Qed.
Lemma errln_allowed {A} text (k : () -> cprog A) Q s : allowed (k ()) Q s -> allowed (let^ x := errln text in k x) Q s.
Proof. intros HQ []. exact HQ. Qed.
Lemma writeln_allowed {A} text (k : () -> cprog A) Q s : allowed (k ()) Q s -> allowed (let^ x := writeln text in k x) Q s.
Proof. intros HQ []. exact HQ. Qed.

(** What the exit code zero means. *)
Definition stopped (restart : bool) (s : lifecycle) (code : option Z) : Prop :=
  code = Some ExitOK ->
  if restart then
    exists st replacement, lc_status s = Some st /\ lc_verified s = true /\ lc_seen s = Some replacement /\
      check_replacement (ap_Version app) (sta_ProcessID st) replacement = Running replacement
  else lc_exit s = Some 0.

Lemma not_stopped restart s code : code <> ExitOK -> stopped restart s (Some code).
Proof. intros Hc [= Heq]. by destruct Hc. Qed.

(** The task may be started. *)
Record startable (st : Status) (s : lifecycle) : Prop := {
  sb_status : lc_status s = Some st;
  sb_opened : lc_opened s = true;
  sb_verified : lc_verified s = true;
}.

Lemma check_replacement_running version pid st st' :
  check_replacement version pid st = Running st' -> st' = st.
Proof. unfold check_replacement. repeat case_match; congruence. Qed.

Lemma start_pause_allowed interval timeout startAttempts lastStartErr again s :
  allowed again (stopped true) s ->
  allowed (start_pause interval timeout (ap_Version app) startAttempts lastStartErr again) (stopped true) s.
Proof.
  intros Hagain. apply obeys_call. intros selected. exists s. split; [done|]. destruct selected as [|e]; [done|].
  destruct (is_sentinel DeadlineExceeded e); [|by apply fails_allowed, not_stopped].
  destruct lastStartErr; [apply errln_allowed|]; by apply fails_allowed, not_stopped.
Qed.

Lemma maybe_start_allowed interval timeout st nextStartAt lastStartErr s :
  startable st s ->
  allowed (maybe_start interval timeout (lc_starts s) nextStartAt lastStartErr) (fun s' r => startable st s' /\ lc_starts s' = r.1.1) s.
Proof.
  intros [Hst Hop Hv]. apply obeys_call. intros now. exists s. split; [done|].
  unfold maxControllerTaskStartAttempts. destruct ((lc_starts s <? 4) && _) eqn:Hcond; [|done].
  apply andb_true_iff in Hcond as [Hlt _]. apply obeys_call. intros startErr. eexists. split; [cbn; by rewrite Hv, Hlt|done].
Qed.

Lemma start_loop_allowed fuel interval timeout st nextStartAt lastStartErr s :
  startable st s ->
  allowed (start_loop fuel interval timeout (ap_Version app) (sta_ProcessID st) (lc_starts s) nextStartAt lastStartErr) (stopped true) s.
Proof.
  revert nextStartAt lastStartErr s. induction fuel as [|fuel IH]; intros nextStartAt lastStartErr s Hs; [done|].
  cbn [start_loop]. cbv zeta.
  assert (Hgo : forall s', startable st s' -> lc_starts s' = lc_starts s -> allowed
    (let^ started := maybe_start interval timeout (lc_starts s) nextStartAt lastStartErr in
     let '(startAttempts, nextStartAt, lastStartErr) := started in
     start_pause interval timeout (ap_Version app) startAttempts lastStartErr
       (start_loop fuel interval timeout (ap_Version app) (sta_ProcessID st) startAttempts nextStartAt lastStartErr)) (stopped true) s').
  { intros s' Hs' <-. apply obeys_ibind. eapply obeys_mono; [by apply maybe_start_allowed|].
    intros s'' [[n t] err] [Hs'' Hn]. simpl in Hn. subst n. by apply start_pause_allowed, IH. }
  apply obeys_call. intros [status|e].
  - eexists. split; [reflexivity|]. rewrite (sb_opened _ _ Hs). destruct (check_replacement _ _ status) as [text|status'|] eqn:Hc.
    + by apply fails_allowed, not_stopped.
    + pose proof (check_replacement_running _ _ _ _ Hc) as ->. apply writeln_allowed, ends_allowed. intros _. exists st, status.
      by destruct Hs.
    + apply Hgo; [by destruct Hs|done].
  - exists s. split; [done|]. destruct (unavailable e); [by apply Hgo|by apply fails_allowed, not_stopped].
Qed.

Lemma start_task_allowed fuel st s :
  startable st s -> lc_starts s = 0 -> allowed (startControllerTaskAndWait app fuel (ap_Version app) (sta_ProcessID st)) (stopped true) s.
Proof.
  intros Hs Hn. unfold startControllerTaskAndWait. cbv zeta. destruct (_ || _ || _ || _ || _ || _); [by apply fails_allowed, not_stopped|].
  apply writeln_allowed. rewrite <- Hn. by apply start_loop_allowed.
Qed.

(** The process of the controller [st] is observed and its request has an ID. *)
Record observing (restart : bool) (st : Status) (requestID : string) (s : lifecycle) : Prop := {
  ob_status : lc_status s = Some st;
  ob_opened : lc_opened s = true;
  ob_starts : lc_starts s = 0;
  ob_request : restart = true -> lc_request s = requestID /\ requestID <> "" /\ sta_Version st = ap_Version app;
}.

Lemma settle_restart_allowed fuel st requestID exitCode s :
  observing true st requestID s -> lc_exit s = Some exitCode ->
  allowed (settle_restart app fuel st requestID exitCode) (stopped true) s.
Proof.
  intros [Hst Hop Hn Hreq] Hex. destruct (Hreq eq_refl) as (Hid & Hne & Hver). apply obeys_call. intros loaded. cbv zeta.
  destruct loaded as [r|e].
  - eexists. split; [cbn; by rewrite Hst, Hex|]. rewrite Hid. apply String.eqb_neq in Hne. rewrite Hne. cbn [negb andb].
    assert (Hrec : proves_restart requestID (sta_ProcessID st) (ap_Version app) r = receipt_verified requestID st r)
      by (unfold receipt_verified; by rewrite Hver). rewrite Hrec. destruct (receipt_verified requestID st r) eqn:Hr; destruct (negb (exitCode =? ControllerRestartExitCode)); cbn [negb].
    + apply writeln_allowed. by apply start_task_allowed.
    + apply writeln_allowed. by apply start_task_allowed.
    + by apply errln_allowed, fails_allowed, not_stopped.
    + by apply fails_allowed, not_stopped.
  - exists s. split; [cbn; by rewrite Hst, Hex|]. destruct (negb (exitCode =? ControllerRestartExitCode)).
    + destruct (negb (not_found e)); [|apply errln_allowed]; by apply fails_allowed, not_stopped.
    + destruct (not_found e); by apply fails_allowed, not_stopped.
Qed.

Lemma await_exit_allowed fuel restart st requestID s :
  observing restart st requestID s -> allowed (await_exit app fuel restart st requestID) (stopped restart) s.
Proof.
  intros Hob. pose proof Hob as [Hst Hop Hn Hreq]. apply writeln_allowed, obeys_call. intros [exitCode|e].
  - eexists. split; [cbn; by rewrite Hop|]. destruct restart; [by apply settle_restart_allowed|].
    destruct (Z.eqb_spec exitCode 0) as [->|Hne]; [by apply ends_allowed|by apply fails_allowed, not_stopped].
  - exists s. split; [cbn; by rewrite Hop|]. apply errln_allowed, obeys_call. intros dumped. exists s. split; [done|].
    apply errln_allowed. by apply not_stopped.
Qed.

Lemma consistent_ack_same st accepted : consistent_ack st accepted = true -> same_controller st accepted = true.
Proof. unfold consistent_ack, same_controller. rewrite !andb_true_iff. tauto. Qed.

Lemma request_shutdown_allowed fuel restart st s :
  lc_status s = Some st -> lc_opened s = true -> lc_starts s = 0 ->
  (restart = true -> sta_Version st = ap_Version app) ->
  (sta_ShuttingDown st = true -> lc_request s = sta_RestartRequestID st) ->
  restart && sta_ShuttingDown st && String.eqb (sta_RestartRequestID st) "" = false ->
  allowed (request_shutdown app fuel restart st) (stopped restart) s.
Proof.
  intros Hst Hop Hn Hver Hreq Hno. unfold request_shutdown. destruct (sta_ShuttingDown st) eqn:Hsd.
  { apply await_exit_allowed. split; try done. intros ->. split_and!; [by apply Hreq| |by apply Hver].
    simpl in Hno. by apply String.eqb_neq. }
  cbv zeta. apply obeys_call. intros [accepted|e].
  - eexists. split; [cbn; rewrite Hst, Hop; by rewrite bool_decide_true by done|].
    destruct (consistent_ack st accepted) eqn:Hack; cbn [negb]; [|by apply fails_allowed, not_stopped].
    rewrite (consistent_ack_same _ _ Hack).
    destruct (restart && String.eqb (sta_RestartRequestID accepted) "") eqn:Hid; [by apply fails_allowed, not_stopped|].
    apply await_exit_allowed. split; try done. intros ->. split_and!; [done| |by apply Hver]. by apply String.eqb_neq.
  - exists s. split; [cbn; rewrite Hst, Hop; by rewrite bool_decide_true by done|].
    destruct (as_ResponseError e) as [[code message]|]; [destruct (String.eqb code _)|]; by apply fails_allowed, not_stopped.
Qed.

Lemma on_exit_allowed p k Q Q' s :
  allowed p Q s -> (forall s, Q' s None) -> (forall s code, Q s (Some code) -> allowed (k code) Q' s) -> allowed (on_exit p k) Q' s.
Proof. intros Hp Hnone Hk. apply obeys_ibind. eapply obeys_mono; [done|]. intros s' [code|] HQ; [by apply Hk|by apply Hnone]. Qed.

Lemma stopController_allowed fuel restart s :
  lc_opened s = false -> lc_starts s = 0 -> allowed (stopController app fuel restart) (stopped restart) s.
Proof.
  intros Hop Hn. unfold stopController. destruct (_ || _ || _); [by apply fails_allowed, not_stopped|].
  apply obeys_call. intros [st|e].
  2: { exists s. split; [done|]. destruct (unavailable e); by apply fails_allowed, not_stopped. }
  eexists. split; [reflexivity|]. rewrite Hop.
  destruct (Z.eqb_spec (sta_ProcessID st) 0) as [Hz|Hz]; [by apply fails_allowed, not_stopped|].
  destruct (restart && negb (String.eqb (sta_Version st) (ap_Version app))) eqn:Hver; [by apply fails_allowed, not_stopped|].
  apply obeys_call. intros [e|].
  { eexists. split; [cbn; rewrite Z.eqb_refl; apply Z.eqb_neq in Hz; by rewrite Hz|]. by apply fails_allowed, not_stopped. }
  eexists. split; [cbn; rewrite Z.eqb_refl; apply Z.eqb_neq in Hz; by rewrite Hz|].
  eapply (on_exit_allowed _ _ (stopped restart)).
  - destruct (restart && sta_ShuttingDown st && String.eqb (sta_RestartRequestID st) "") eqn:Hno; [by apply fails_allowed, not_stopped|].
    apply request_shutdown_allowed; try done; cbn.
    + intros ->. apply negb_false_iff in Hver. by apply String.eqb_eq.
    + by intros ->.
  - done.
  - intros s' code HQ []. exact HQ.
Qed.
End Lifecycle.

(** C22: The task is started only with a proof.  In every run of a restart, whatever
    the controller, the operating system and the state directory answer, the
    events keep to the lifecycle: the scheduled task is started at most four times
    and only after the observed process of the controller that was asked exited and
    the durable receipt of the authenticated request, for that process and for the
    tool's own version, was read; and the command reports success only when a
    running controller with another process ID and the expected version answered. *)
Theorem restart_needs_receipt `{Unicode, Platform, FilePath} app fuel tr code :
  iruns (controllerCommand app fuel ["restart"]) tr code ->
  exists s, follow (lifecycle_step (ap_Version app) false) unknown tr = Some s /\
    (code = Some ExitOK -> exists st replacement, lc_status s = Some st /\ lc_verified s = true /\ lc_seen s = Some replacement /\
       sta_ProcessID replacement <> sta_ProcessID st /\ sta_Version replacement = ap_Version app /\ sta_ShuttingDown replacement = false).
Proof.
  intros Hr. destruct (obeys_runs _ _ _ _ _ _ (stopController_allowed app false fuel true unknown eq_refl eq_refl) Hr) as (s & Hf & Hs).
  exists s. split; [done|]. intros Hc. destruct (Hs Hc) as (st & rep & Hst & Hvf & Hseen & Hchk). exists st, rep. split_and!; try done;
    unfold check_replacement in Hchk; repeat case_match; try done.
  - by apply Z.eqb_neq.
  - by apply String.eqb_eq, negb_false_iff.
  - by apply negb_true_iff.
Qed.

(** Whether a reboot was forced. *)
Definition forces_reboot (args : list string) : bool :=
  match parse_flags [("timeout", FlagDuration); ("force", FlagBool); ("dry-run", FlagBool)] args with
  | Some (values, _) => flag_bool values "force"
  | None => false
  end.

(** The machine is rebooted only after the controller stopped.  Whatever is
    answered, the restart of the machine is requested only when the process of the
    controller that was asked to drain has exited with code zero, unless [--force]
    was given; and without it no reboot succeeds otherwise. *)
Theorem reboot_follows_exit `{Unicode, Platform, FilePath} app fuel args tr code :
  iruns (reboot app fuel args) tr code ->
  exists s, follow (lifecycle_step (ap_Version app) (forces_reboot args)) unknown tr = Some s /\
    (forces_reboot args = false -> code = Some ExitOK -> lc_exit s = Some 0).
Proof.
  intros Hr. refine (obeys_runs _ _ (fun s code => forces_reboot args = false -> code = Some ExitOK -> lc_exit s = Some 0) _ _ _ _ Hr).
  unfold reboot, forces_reboot. destruct (parse_flags _ args) as [[values [|arg rest]]|]; [|by apply fails_allowed..].
  destruct (_ <? 0); [by apply fails_allowed|]. destruct (negb _ && negb _); [by apply fails_allowed|].
  eapply (on_exit_allowed _ _ _ _ (stopped app false)); [by apply stopController_allowed|done|]. intros s drainCode Hs.
  destruct (Z.eqb_spec drainCode ExitOK) as [->|Hne]; cbn [negb andb].
  - specialize (Hs eq_refl). simpl in Hs. cbn [ibind]. destruct (flag_bool values "dry-run"); [by apply ends_allowed|].
    apply obeys_call. intros rebooted. exists s. split; [cbn; rewrite Hs; by rewrite orb_true_r|].
    destruct rebooted; [by apply fails_allowed|by apply ends_allowed].
  - destruct (flag_bool values "force"); cbn [negb]; [|by apply fails_allowed; intros _ [= ->]].
    apply errln_allowed. destruct (flag_bool values "dry-run"); [by apply ends_allowed|].
    apply obeys_call. intros rebooted. exists s. split; [done|]. destruct rebooted; [by apply fails_allowed|by apply ends_allowed].
Qed.

(** ** Operator intent *)

(** How far a forced stop has come: disabled mode saved, its time read back, zero
    capacity observed since, the workers listed, and the listing confirmed. *)
Inductive stage :=
  | Idle
  | Saved
  | Requested (at_ : time)
  | Drained
  | Previewed (targets : list ForceStopTarget)
  | Confirmed (targets : list ForceStopTarget).

Record operator := mkOperator {
  op_loaded : option (result error DesiredState);
  op_stage : stage;
}.

Definition at_prompt : operator := mkOperator None Idle.

(** A state that changes what was just read in one respect: the mode or the
    temporary capacity, besides the time.  Without a file either starts from the
    default of the other. *)
Definition one_change (loaded : option (result error DesiredState)) (d : DesiredState) : bool :=
  match loaded with
  | Some (Ok b) =>
      bool_decide (ds_TemporaryCapacityOverride d = ds_TemporaryCapacityOverride b /\ ds_SchemaVersion d = 1)
      || bool_decide (ds_Mode d = ds_Mode b /\ ds_SchemaVersion d = ds_SchemaVersion b)
  | Some (Err e) =>
      not_found e && (bool_decide (ds_TemporaryCapacityOverride d = None /\ ds_SchemaVersion d = 1)
                      || bool_decide (ds_Mode d = ModeDisabled /\ ds_SchemaVersion d = 1))
  | None => false
  end.

(** The line the user typed. *)
Definition typed (answer : string * option ReadError) : option string :=
  match answer with
  | (value, None) => Some (TrimSpace value)
  | (value, Some ReadEOF) => if String.eqb value "" then None else Some (TrimSpace value)
  | (_, Some (ReadFailed _)) => None
  end.

Definition confirms (answer : string * option ReadError) : bool :=
  match typed answer with Some line => String.eqb line "FORCE STOP" | None => false end.

(** The events that are allowed: a desired state is saved only as one change of
    the one just read, and workers are stopped by force only after every stage, and
    exactly those that were listed and confirmed. *)
Definition operator_step (app : Application) (s : operator) (e : event cresp) : option operator :=
  match e with
  | existT LoadDesiredState answer =>
      Some (mkOperator (Some answer) (match op_stage s, answer with Saved, Ok d => Requested (ds_UpdatedAt d) | st, _ => st end))
  | existT (SaveDesiredState d) answer =>
      if one_change (op_loaded s) d
      then Some (mkOperator None (match answer, ds_Mode d with None, ModeDisabled => Saved | _, _ => Idle end))
      else None
  | existT LoadObservedState (Ok o) =>
      Some {| s with op_stage := match op_stage s with
                                 | Requested at_ => if zero_capacity app at_ o then Drained else Requested at_
                                 | st => st
                                 end |}
  | existT ForceStopTargets (Ok targets) =>
      Some {| s with op_stage := match op_stage s with Drained => Previewed targets | st => st end |}
  | existT ReadString answer =>
      Some {| s with op_stage := match op_stage s with
                                 | Previewed targets => if confirms answer then Confirmed targets else Idle
                                 | Confirmed _ => Idle
                                 | st => st
                                 end |}
  | existT (ForceStopRun targets) _ =>
      match op_stage s with
      | Confirmed listed => if bool_decide (targets = listed) then Some {| s with op_stage := Idle |} else None
      | _ => None
      end
  | _ => Some s
  end.

(** Events that change nothing. *)
Definition harmless (e : event cresp) : Prop :=
  match e with existT (SaveDesiredState _) _ | existT (ForceStopRun _) _ => False | _ => True end.

Section Operator.
Context `{Unicode, Platform, FilePath} (app : Application).
Abbreviation permitted := (obeys (operator_step app)).

Lemma harmless_permitted {A} (p : cprog A) s : emits harmless p -> permitted p (fun _ _ => True) s.
Proof.
  intros Hp. eapply (emits_obeys _ (fun _ => True)); [done| |done].
  intros s' [[] answer] _ He; cbn in *; try (by destruct He); first [by eexists | destruct answer; by eexists].
Qed.

Lemma errln_harmless text : emits harmless (errln text).
Proof. by intros []. Qed.
Lemma writeln_harmless text : emits harmless (writeln text).
Proof. by intros []. Qed.
Lemma fails_harmless text code : emits harmless (fails text code).
Proof. by intros []. Qed.
Lemma ends_harmless text : emits harmless (ends text).
Proof. by intros []. Qed.
Hint Resolve errln_harmless writeln_harmless fails_harmless ends_harmless : emits.

Lemma readLine_harmless : emits harmless readLine.
Proof. unfold readLine, cask. solve_emits. Qed.
Lemma print_problems_harmless problems : emits harmless (print_problems problems).
Proof. induction problems as [|p problems IH]; [done|]. cbn [print_problems]. solve_emits. Qed.
Lemma print_lines_harmless lines : emits harmless (print_lines lines).
Proof. induction lines as [|l lines IH]; [done|]. cbn [print_lines]. solve_emits. Qed.
Hint Resolve readLine_harmless print_problems_harmless print_lines_harmless : emits.

Lemma wait_loop_harmless fuel mode detachOnCancel started warned :
  emits harmless (wait_loop app fuel mode detachOnCancel started warned).
Proof.
  revert warned. induction fuel as [|fuel IH]; intros warned; [done|]. cbn [wait_loop]. unfold drain_warning, detached, cask. solve_emits.
Qed.
Hint Resolve wait_loop_harmless : emits.

Lemma on_exit_harmless p k : emits harmless p -> (forall code, emits harmless (k code)) -> emits harmless (on_exit p k).
Proof. intros Hp Hk. unfold on_exit. solve_emits. Qed.

Lemma start_loop_harmless fuel interval timeout version pid attempts next last :
  emits harmless (start_loop fuel interval timeout version pid attempts next last).
Proof.
  revert attempts next last. induction fuel as [|fuel IH]; intros attempts next last; [done|]. cbn [start_loop].
  unfold maybe_start, start_pause, cask. solve_emits.
Qed.
Hint Resolve start_loop_harmless : emits.

Lemma stopController_harmless fuel restart : emits harmless (stopController app fuel restart).
Proof.
  unfold stopController, request_shutdown, await_exit, settle_restart, startControllerTaskAndWait, on_exit, cask. solve_emits.
Qed.
Hint Resolve stopController_harmless : emits.

Lemma reboot_harmless fuel args : emits harmless (reboot app fuel args).
Proof. unfold reboot, on_exit, cask. solve_emits. Qed.
Lemma controllerCommand_harmless fuel args : emits harmless (controllerCommand app fuel args).
Proof. unfold controllerCommand. solve_emits. Qed.
Lemma status_command_harmless args : emits harmless (status_command app args).
Proof. unfold status_command, cask. solve_emits. Qed.
Lemma runSecret_harmless args : emits harmless (runSecret app args).
Proof. unfold runSecret, import_selected, cask. solve_emits. Qed.

(** A request of a mode ends, when it reports success without a wait, with the
    mode saved. *)
Definition disabled_saved (mode : Mode) (wait : bool) (s : operator) (code : option Z) : Prop :=
  mode = ModeDisabled -> wait = false -> code = Some ExitOK -> op_stage s = Saved.

Lemma save_mode_permitted fuel mode wait detachOnCancel d s :
  (forall now, one_change (op_loaded s) {| d with ds_SchemaVersion := 1; ds_Mode := mode; ds_UpdatedAt := now |} = true) ->
  permitted (save_mode app fuel mode wait detachOnCancel d) (disabled_saved mode wait) s.
Proof.
  intros Hone. apply obeys_call. intros now. exists s. split; [done|]. apply obeys_call. intros saved.
  eexists. split; [cbn; rewrite Hone; reflexivity|].
  destruct saved as [e|]; [by intros []|]. intros []. destruct wait; cbn [negb].
  - eapply obeys_mono; [apply harmless_permitted; unfold waitForMode, cask; solve_emits|done].
  - by intros ->.
Qed.

Lemma requestMode_permitted fuel mode wait detachOnCancel s :
  permitted (requestMode app fuel mode wait detachOnCancel) (disabled_saved mode wait) s.
Proof.
  unfold requestMode. apply obeys_call. intros [d|e].
  - eexists. split; [reflexivity|]. apply save_mode_permitted. intros now. unfold one_change. cbn [op_loaded].
    rewrite (bool_decide_true (_ = ds_TemporaryCapacityOverride d /\ _)) by done. done.
  - eexists. split; [reflexivity|]. destruct (not_found e) eqn:He; [|by intros []]. apply save_mode_permitted. intros now. unfold one_change.
    cbn [op_loaded]. rewrite He, bool_decide_true by done. done.
Qed.

(** Commands that may change something, but end anywhere. *)
Abbreviation permits p := (forall s, permitted p (fun _ _ => True) s).

Lemma request_permits fuel mode wait detachOnCancel : permits (requestMode app fuel mode wait detachOnCancel).
Proof. intros s. eapply obeys_mono; [apply requestMode_permitted|done]. Qed.

Lemma enable_permits fuel args : permits (enable app fuel args).
Proof. intros s. unfold enable. destruct (parse_flags _ _) as [[values []]|]; try done. apply request_permits. Qed.

Lemma harmless_permits {A} (p : cprog A) : emits harmless p -> permits p.
Proof. intros Hp s. by apply harmless_permitted. Qed.

Lemma then_permits {A B} (p : cprog A) (k : A -> cprog B) : emits harmless p -> (forall a, permits (k a)) -> permits (let^ x := p in k x).
Proof. intros Hp Hk s. apply obeys_ibind. eapply obeys_mono; [by apply harmless_permitted|]. intros s' a _. apply Hk. Qed.

Lemma disable_permits fuel args : permits (disable app fuel args).
Proof.
  apply then_permits; [unfold parseWaitDetach; solve_emits|]. intros [wait|] s; [apply request_permits|done].
Qed.

Lemma game_permits fuel args : permits (game app fuel args).
Proof.
  apply then_permits; [unfold parseWaitDetach; solve_emits|]. intros [wait|] s; [|done].
  destruct (negb (ap_Gaming app)); [by intros []|]. revert s.
  apply then_permits; [unfold cask; solve_emits|]. intros observed.
  apply then_permits; [unfold cask; solve_emits|]. intros inventory.
  apply then_permits; [apply print_lines_harmless|]. intros _.
  apply then_permits; [unfold confirm, cask; solve_emits|]. intros [[]|e]; [apply request_permits|by intros s []..].
Qed.

(** The stage does not matter here; the state just read does. *)
Lemma save_permits (d : DesiredState) (k : option error -> cprog (option Z)) s :
  one_change (op_loaded s) d = true -> (forall saved, permits (k saved)) ->
  permitted (let^ saved := cask (SaveDesiredState d) in k saved) (fun _ _ => True) s.
Proof. intros Hone Hk. apply obeys_call. intros saved. eexists. split; [cbn; rewrite Hone; reflexivity|]. apply Hk. Qed.

(** Reading the terminal and the clock keeps what was loaded. *)
Lemma keeps_loaded {A B} (p : cprog A) (k : A -> cprog B) loaded s :
  emits (fun e => match e with existT LoadDesiredState _ | existT (SaveDesiredState _) _ | existT (ForceStopRun _) _ => False | _ => True end) p ->
  op_loaded s = loaded -> (forall a s, op_loaded s = loaded -> permitted (k a) (fun _ _ => True) s) ->
  permitted (let^ x := p in k x) (fun _ _ => True) s.
Proof.
  intros Hp Hs Hk. apply obeys_ibind. eapply obeys_mono.
  - eapply (emits_obeys _ (fun s => op_loaded s = loaded)); [done| |done].
    intros s' [[] answer] Hl He; cbn in *; try (by destruct He); first [by eexists | destruct answer; by eexists].
  - intros s' a Hl. by apply Hk.
Qed.

Lemma ask_capacity_permits desired loaded s :
  op_loaded s = loaded ->
  (forall c now, one_change loaded {| desired with ds_TemporaryCapacityOverride := c; ds_UpdatedAt := now |} = true) ->
  permitted (ask_capacity desired) (fun _ _ => True) s.
Proof.
  intros Hs Hone. unfold ask_capacity, cask. apply (keeps_loaded _ _ loaded); [by intros []|done|]. intros _ s1 Hs1.
  apply (keeps_loaded _ _ loaded); [by intros []|done|]. intros _ s2 Hs2.
  apply (keeps_loaded _ _ loaded); [unfold readLine, cask; solve_emits|done|]. intros [value|e] s3 Hs3; [|by intros []].
  destruct (parseCapacity value) as [capacity|]; [|by intros []].
  apply (keeps_loaded _ _ loaded); [solve_emits|done|]. intros now s4 Hs4.
  apply save_permits; [by rewrite Hs4|]. intros [e|] s5 []; done.
Qed.

Lemma temporaryCapacity_permits : permits temporaryCapacity.
Proof.
  intros s. unfold temporaryCapacity. apply obeys_call. intros [d|e].
  - eexists. split; [reflexivity|]. eapply ask_capacity_permits; [reflexivity|]. intros c now. unfold one_change.
    cbn [op_loaded]. rewrite (bool_decide_true (_ = ds_Mode d /\ _)) by done. by rewrite orb_true_r.
  - eexists. split; [reflexivity|]. destruct (not_found e) eqn:He; [|by intros []].
    eapply ask_capacity_permits; [reflexivity|]. intros c now. unfold one_change.
    cbn [op_loaded]. rewrite He, (bool_decide_true (_ = ModeDisabled /\ _)) by done. by rewrite orb_true_r.
Qed.

Lemma classifyProblems_fails problems : classifyProblems problems <> ExitOK.
Proof.
  unfold classifyProblems. induction problems as [|p problems IH]; [done|]. cbn [first_some].
  destruct (classify_problem p) as [code|] eqn:Hp; [|done]. unfold classify_problem in Hp. simpl. by repeat case_match; simplify_eq.
Qed.

(** Waiting for zero capacity ends well only when it was observed. *)
Lemma waitForZeroCapacity_permitted fuel at_ s :
  op_stage s = Requested at_ ->
  permitted (waitForZeroCapacity app fuel at_) (fun s code => code = Some ExitOK -> op_stage s = Drained) s.
Proof.
  revert s. induction fuel as [|fuel IH]; intros s Hs; [done|]. cbn [waitForZeroCapacity]. cbv zeta.
  assert (Hgo : forall s', op_stage s' = Requested at_ -> permitted
    (let^ selected := cask (Poll (ap_PollInterval app)) in
     match selected with
     | PollTick => waitForZeroCapacity app fuel at_
     | PollDone _ => fails "force-stop canceled while waiting for listeners to advertise zero capacity" ExitRuntime
     end) (fun s code => code = Some ExitOK -> op_stage s = Drained) s').
  { intros s' Hs'. apply obeys_call. intros [|e]; exists s'; (split; [done|]); [by apply IH|by intros []]. }
  apply obeys_call. intros [o|e].
  - eexists. split; [reflexivity|]. rewrite Hs. destruct (zero_capacity app at_ o); [done|].
    destruct (os_Phase o); try (by apply Hgo). intros [= Hcl]. by destruct (classifyProblems_fails (os_Problems o)).
  - exists s. split; [done|]. destruct (negb (not_found e)); [by intros []|by apply Hgo].
Qed.

Lemma on_confirmation_permitted preview text s :
  op_stage s = (if String.eqb text "FORCE STOP" then Confirmed preview else Idle) ->
  permitted (on_confirmation preview text) (fun _ _ => True) s.
Proof.
  unfold on_confirmation. intros Hs. destruct (String.eqb text "FORCE STOP"); cbn [negb]; [|by intros []].
  apply obeys_ibind, obeys_call. intros stopped. eexists. split; [cbn; rewrite Hs, bool_decide_true by done; reflexivity|].
  destruct stopped as [l|e]; [by intros []|]. destruct (as_ResponseError e) as [[code m]|]; [destruct (String.eqb code _)|]; by intros [].
Qed.

Lemma confirmed_stop_permitted preview s :
  op_stage s = Previewed preview -> permitted (confirmed_stop preview) (fun _ _ => True) s.
Proof.
  intros Hs. unfold confirmed_stop.
  assert (Hquiet : forall (p : cprog ()), emits (fun e => match e with existT (Out _) _ => True | _ => False end) p ->
            forall (k : () -> cprog (option Z)), (forall s', op_stage s' = Previewed preview -> permitted (k ()) (fun _ _ => True) s') ->
            forall s', op_stage s' = Previewed preview -> permitted (let^ x := p in k x) (fun _ _ => True) s').
  { intros p Hp k Hk s' Hs'. apply obeys_ibind. eapply obeys_mono.
    - eapply (emits_obeys _ (fun s => op_stage s = Previewed preview)); [done| |done].
      intros s1 [[] answer] Hs1 He; cbn in *; try (by destruct He). by eexists.
    - intros s1 [] Hs1. by apply Hk. }
  apply Hquiet; [by intros []| |done]. intros s1 Hs1. apply Hquiet; [| |done].
  { clear. generalize (map target_line preview) as lines. induction lines as [|l lines IH]; [done|]. intros []. by split. }
  intros s2 Hs2. apply Hquiet; [by intros []| |done]. intros s3 Hs3.
  apply obeys_ibind. unfold readLine. apply obeys_call. intros answer. eexists. split; [reflexivity|]. rewrite Hs3.
  unfold confirms, typed. destruct answer as [value [[|e]|]]; [destruct (String.eqb value "")| |]; try (by intros []);
    by apply on_confirmation_permitted.
Qed.

Lemma forceStop_permits fuel args : permits (forceStop app fuel args).
Proof.
  intros s. unfold forceStop. destruct args; [|done]. destruct (negb (ap_ForceStop app)); [by intros []|].
  apply obeys_ibind. eapply obeys_mono; [apply requestMode_permitted|]. intros s1 [code|] Hs1; [|done].
  destruct (Z.eqb_spec code ExitOK) as [->|Hne]; cbn [negb]; [|done]. specialize (Hs1 eq_refl eq_refl eq_refl).
  apply obeys_call. intros [desired|e]; [|eexists; split; [reflexivity|]; by intros []].
  eexists. split; [cbn; rewrite Hs1; reflexivity|].
  apply obeys_ibind. eapply obeys_mono; [by apply waitForZeroCapacity_permitted|]. intros s2 [code|] Hs2; [|done].
  destruct (Z.eqb_spec code ExitOK) as [->|Hne]; cbn [negb]; [|done]. specialize (Hs2 eq_refl).
  apply obeys_call. intros [targets|e]; [|exists s2; split; [done|]; by intros []].
  eexists. split; [cbn; rewrite Hs2; reflexivity|]. destruct targets as [|t targets]; [by intros []|]. by apply confirmed_stop_permitted.
Qed.

Lemma exit_permits p k : permits p -> (forall code, permits (k code)) -> permits (on_exit p k).
Proof. intros Hp Hk s. apply obeys_ibind. eapply obeys_mono; [apply Hp|]. intros s' [code|] _; [apply Hk|done]. Qed.

Lemma menu_permits rounds fuel : permits (menu app rounds fuel).
Proof.
  induction rounds as [|rounds IH]; [done|]. cbn [menu].
  apply then_permits; [apply writeln_harmless|]. intros _. apply then_permits; [by intros []|]. intros _.
  apply then_permits; [apply readLine_harmless|]. intros [choice|[|e]]; [|by intros s []|destruct (_ || _); [done|by intros s []]].
  cbv zeta. assert (Hagain : forall code : Z, permits (menu app rounds fuel)) by done.
  destruct (String.eqb choice "1"); [by apply exit_permits; [apply harmless_permits, status_command_harmless|]|].
  destruct (String.eqb choice "2"); [by apply exit_permits; [apply enable_permits|]|].
  destruct (String.eqb choice "3"); [by apply exit_permits; [apply disable_permits|]|].
  destruct (String.eqb choice "4"); [by apply exit_permits; [apply game_permits|]|].
  destruct (String.eqb choice "5"); [apply then_permits; [unfold cask; solve_emits|done]|].
  destruct (String.eqb choice "6"); [apply then_permits; [unfold cask; solve_emits|done]|].
  destruct (String.eqb choice "7"); [by apply exit_permits; [apply temporaryCapacity_permits|]|].
  destruct (String.eqb choice "8"); [by apply exit_permits; [apply forceStop_permits|]|].
  destruct (existsb _ _); [done|]. by apply then_permits; [apply errln_harmless|].
Qed.

Lemma runHost_permits fuel args : permits (runHost app fuel args).
Proof.
  unfold runHost. destruct args as [|arg args]; [apply menu_permits|].
  destruct (String.eqb arg "status"); [apply harmless_permits, status_command_harmless|].
  destruct (String.eqb arg "enable"); [apply enable_permits|].
  destruct (String.eqb arg "disable"); [apply disable_permits|].
  destruct (String.eqb arg "game"); [apply game_permits|].
  destruct (String.eqb arg "doctor"); [apply harmless_permits; unfold cask; solve_emits|].
  destruct (String.eqb arg "logs"); [apply harmless_permits; unfold cask; solve_emits|].
  destruct (String.eqb arg "force-stop"); [apply forceStop_permits|].
  destruct (String.eqb arg "controller"); [apply harmless_permits, controllerCommand_harmless|].
  destruct (String.eqb arg "reboot"); [apply harmless_permits, reboot_harmless|]. apply harmless_permits, fails_harmless.
Qed.

Lemma Run_permits fuel args : permits (Run app fuel args).
Proof.
  unfold Run. destruct args as [|arg args]; [by intros s []|].
  destruct (String.eqb arg "host"); [apply runHost_permits|]. destruct (String.eqb arg "secret"); [apply harmless_permits, runSecret_harmless|].
  destruct (existsb _ _); [by intros s []|]. apply harmless_permits. unfold usage. solve_emits.
Qed.
End Operator.

(** C23: The operator decides.  In every run of the tool, from any command line and
    through any sequence of menu choices, a desired state is saved only as the one
    just read with either its mode or its temporary capacity changed; and workers
    are stopped by force only after disabled mode was saved, a heartbeat since that
    request showed every configured pool with capacity zero, the workers were
    listed and the words FORCE STOP were typed, and exactly the listed ones. *)
Theorem operator_decides `{Unicode, Platform, FilePath} app fuel args tr code :
  iruns (Run app fuel args) tr code -> exists s, follow (operator_step app) at_prompt tr = Some s.
Proof. intros Hr. destruct (obeys_runs _ _ _ _ _ _ (Run_permits app fuel args at_prompt) Hr) as (s & Hf & _). by exists s. Qed.

(** ** Samples *)
Module CliSamples.
#[local] Instance windows : Platform := {| write_through := true; Separator := "\"%char |}.
#[local] Instance plain_paths : FilePath := {| IsAbs := fun p => HasPrefix p "C:\"; Clean := fun p => p |}.

Definition tool : Application := mkApplication full_config true true true true true true true true Second "1.2.3".

Definition running (pid : Z) (shuttingDown : bool) (requestID : string) : Status :=
  mkStatus PhaseReady pid "1.2.3" 0 0 0 shuttingDown requestID.

Definition times (f : ccall -> bool) (tr : list (event cresp)) : nat := length (List.filter (fun e => f (projT1 e)) tr).
Definition is_status (c : ccall) : bool := match c with ControlStatus => true | _ => false end.
Definition is_start (c : ccall) : bool := match c with StartTask _ => true | _ => false end.

(** The old controller has process 10; the task brings up process 11 at its
    second start. *)
Definition restart_world (c : ccall) (tr : list (event cresp)) : cresp c :=
  match c with
  | LoadDesiredState => Ok (mkDesiredState 1 ModeEnabled (Some 2) 5)
  | LoadObservedState => Err ErrStateNotFound
  | SaveDesiredState _ | OpenProcess _ | StartTask _ | Reboot _ | EncodeJSON _ => None
  | AppNow => 7
  | WallNow => Z.of_nat (length tr) * Minute
  | Poll _ => PollTick
  | ControlStatus =>
      if (times is_status tr =? 0)%nat then Ok (running 10 false "")
      else if (times is_start tr <? 2)%nat then Err (ClientError ErrUnavailable) else Ok (running 11 false "")
  | ControlShutdown _ _ _ => Ok (running 10 true "req-9")
  | ControlDump => Ok "dump"
  | WaitProcess => Ok 75
  | LoadReceipt => Ok (mkRestartReceipt 1 "req-9" 10 "1.2.3" 99)
  | Inventory => mkGamingInventory [] [] []
  | ReadString => ("FORCE STOP", None)
  | ForceStopTargets | ForceStopRun _ => Ok []
  | ImportSecret _ _ => Err (ErrNew "no")
  | Doctor _ | LogsCommand _ => 0
  | CloseProcess | Out _ | ErrOut _ | HumanStatus _ _ => ()
  end.

Lemma restart_needs_receipt_witness :
  exists tr s, iruns (controllerCommand tool 9 ["restart"]) tr (Some ExitOK) /\
    follow (lifecycle_step "1.2.3" false) unknown tr = Some s /\ lc_starts s = 2.
Proof.
  destruct (irun restart_world (controllerCommand tool 9 ["restart"]) []) as [tr code] eqn:Hr.
  pose proof (irun_iruns _ _ _ _ _ Hr) as Hi.
  destruct (restart_needs_receipt tool 9 tr code Hi) as (s & Hf & _).
  vm_compute in Hr. injection Hr as <- <-. eexists _, s. split; [exact Hi|]. split; [exact Hf|].
  vm_compute in Hf. injection Hf as <-. reflexivity.
Defined.

(** The same world where the controller exits with code zero. *)
Definition stop_world (c : ccall) (tr : list (event cresp)) : cresp c :=
  match c with WaitProcess => Ok 0 | c => restart_world c tr end.

Lemma reboot_follows_exit_witness :
  exists tr s, iruns (reboot tool 9 ["--timeout"; "5m"]) tr (Some ExitOK) /\
    follow (lifecycle_step "1.2.3" false) unknown tr = Some s /\ lc_exit s = Some 0.
Proof.
  destruct (irun stop_world (reboot tool 9 ["--timeout"; "5m"]) []) as [tr code] eqn:Hr.
  pose proof (irun_iruns _ _ _ _ _ Hr) as Hi.
  destruct (reboot_follows_exit tool 9 ["--timeout"; "5m"] tr code Hi) as (s & Hf & Hx).
  assert (Hc : code = Some ExitOK) by (vm_compute in Hr; by injection Hr as _ <-).
  rewrite Hc in *. exists tr, s. split; [exact Hi|]. split; [exact Hf|]. apply Hx; reflexivity.
Defined.

(** A drained host with one worker left, which the user stops by force. *)
Definition busy_target : ForceStopTarget := mkForceStopTarget "w1" "org" "w1" WorkerBusy "job".
Definition stop_observation : ObservedState :=
  let o := ObservedState_zero in
  {| o with os_Phase := PhaseDraining; os_HeartbeatAt := 8;
            os_Pools := [mkPoolObservation "org" 1 "org" 0 0 true 2 0 0 900; mkPoolObservation "tools" 2 "tools" 0 0 true 2 0 0 900] |}.
Definition force_world (c : ccall) (tr : list (event cresp)) : cresp c :=
  match c with
  | LoadDesiredState => if (2 <? length tr)%nat then Ok (mkDesiredState 1 ModeDisabled None 7) else Err ErrStateNotFound
  | LoadObservedState => Ok stop_observation
  | ForceStopTargets => Ok [busy_target]
  | ForceStopRun targets => Ok targets
  | c => restart_world c tr
  end.

Lemma operator_decides_witness :
  exists tr s, iruns (Run tool 9 ["host"; "force-stop"]) tr (Some ExitOK) /\ ev (ForceStopRun [busy_target]) (Ok [busy_target]) ∈ tr /\
    follow (operator_step tool) at_prompt tr = Some s.
Proof.
  destruct (irun force_world (Run tool 9 ["host"; "force-stop"]) []) as [tr code] eqn:Hr.
  pose proof (irun_iruns _ _ _ _ _ Hr) as Hi.
  destruct (operator_decides tool 9 ["host"; "force-stop"] tr code Hi) as (s & Hf).
  assert (Hc : code = Some ExitOK /\ ev (ForceStopRun [busy_target]) (Ok [busy_target]) ∈ tr).
  { vm_compute in Hr. injection Hr as <- <-. split; [reflexivity|]. repeat first [apply list_elem_of_here | apply list_elem_of_further]. }
  destruct Hc as [-> Hin]. exists tr, s. split; [exact Hi|]. split; [exact Hin|exact Hf].
Defined.
End CliSamples.
