(* ===== verification/Secret.v ===== *)
(** The store of GitHub App private keys (internal/secret/secret.go): the import of
    a key under the protection of the operating system, and reading it back.

    The cryptography, the PEM and JSON texts are parameters; the protection of the
    current user, the volume check, the access control and the files are calls with
    arbitrary answers.  The wiping of buffers in memory is not visible here. *)

From S2P Require Import Prelude Float64 GoStrings Regexp Model Config GoText Errors Effects Reconciler Control FileSystem Store Interaction.
From Stdlib Require Import Ascii.
#[local] Open Scope Z_scope.
Open Scope i_scope.

Definition legacySecretSchemaVersion : Z := 1.
Definition secretSchemaVersion : Z := 2.
Definition secretAlgorithm : string := "DPAPI-CurrentUser".
Definition secretEncoding : string := "PKCS8-DER".

(** The pattern [^[A-Za-z0-9][A-Za-z0-9._-]{0,63}$]. *)
Definition secretIDPattern (s : string) : bool :=
  match s with
  | EmptyString => false
  | String a rest => alphanumeric a && all_bytes (fun b => alphanumeric b || name_separator b) rest && (String.length rest <=? 63)%nat
  end.

(** ** Encodings of a digest *)

Definition pick (alphabet : string) (n : Z) : ascii := default zero (String.get (Z.to_nat n) alphabet).

Fixpoint hex_EncodeToString (s : string) : string :=
  match s with
  | EmptyString => ""
  | String a rest =>
      String (pick "0123456789abcdef" (Z.shiftr (byte_of a) 4))
        (String (pick "0123456789abcdef" (Z.land (byte_of a) 15)) (hex_EncodeToString rest))
  end.

Definition base64_alphabet : string := "ABCDEFGHIJKLMNOPQRSTUVWXYZabcdefghijklmnopqrstuvwxyz0123456789+/".

Fixpoint base64_EncodeToString (s : string) : string :=
  match s with
  | EmptyString => ""
  | String a EmptyString =>
      let n := Z.shiftl (byte_of a) 16 in
      String (pick base64_alphabet (Z.shiftr n 18)) (String (pick base64_alphabet (Z.land (Z.shiftr n 12) 63)) "==")
  | String a (String b EmptyString) =>
      let n := Z.lor (Z.shiftl (byte_of a) 16) (Z.shiftl (byte_of b) 8) in
      String (pick base64_alphabet (Z.shiftr n 18))
        (String (pick base64_alphabet (Z.land (Z.shiftr n 12) 63)) (String (pick base64_alphabet (Z.land (Z.shiftr n 6) 63)) "="))
  | String a (String b (String c rest)) =>
      let n := Z.lor (Z.lor (Z.shiftl (byte_of a) 16) (Z.shiftl (byte_of b) 8)) (byte_of c) in
      String (pick base64_alphabet (Z.shiftr n 18))
        (String (pick base64_alphabet (Z.land (Z.shiftr n 12) 63))
          (String (pick base64_alphabet (Z.land (Z.shiftr n 6) 63)) (String (pick base64_alphabet (Z.land n 63)) (base64_EncodeToString rest))))
  end.

(** ** Keys and envelopes *)

Record envelope := mkEnvelope {
  en_SchemaVersion : Z;
  en_Algorithm : string;
  en_Encoding : string;
  en_Fingerprint : string;
  en_ImportedAt : time;
  en_Ciphertext : string;
}.

Record PEMBlock := mkPEMBlock {
  pem_Type : string;
  pem_Encrypted : bool;
  pem_Bytes : string;
}.

(** [crypto/x509], [crypto/rsa], [crypto/sha256], [encoding/pem] and the JSON form
    of an envelope.  [ParsePKCS8] answers [None] for a key that is not RSA;
    [pem_Encrypted] says whether the block has a [DEK-Info] header.  A decoded
    document comes with the text after it, and [decode_trailer] is the second
    decoding: nothing follows, a value follows, or an error. *)
Class KeyText := {
  RSAKey : Type;
  pem_Decode : string -> option (PEMBlock * string);
  pem_Encode : string -> string;
  ParsePKCS1 : string -> result error RSAKey;
  ParsePKCS8 : string -> result error (option RSAKey);
  MarshalPKCS8 : RSAKey -> result error string;
  MarshalPKIX : RSAKey -> result error string;
  ValidateKey : RSAKey -> option error;
  BitLen : RSAKey -> Z;
  Sum256 : string -> string;
  encode_envelope : envelope -> result error string;
  decode_envelope : string -> result error (envelope * string);
  decode_trailer : string -> option (option error);
}.

Record SecretResult := mkSecretResult {
  sr_Path : string;
  sr_Fingerprint : string;
  sr_ImportedAt : time;
}.

(** ** Calls *)

Inductive kcall :=
  | VerifyProtected (directory : string)
  | OpenSource (path : string)
  | ReadSource
  | CommitRemoval
  | CloseSource
  | Protect (plaintext description : string)
  | Unprotect (ciphertext : string)
  | KeyNow
  | MkdirSecret (directory : string)
  | HardenSecret (path : string)
  | OpenExclusive (path : string)
  | WriteSecret (contents : string)
  | SyncSecret
  | CloseSecret
  | RemoveSecret (path : string)
  | ReadSecret (path : string)
  | ContextErr.

Definition kresp (c : kcall) : Type :=
  match c with
  | ReadSource | ReadSecret _ | Protect _ _ | Unprotect _ => result error string
  | WriteSecret _ => Z * option error
  | KeyNow => time
  | _ => option error
  end.

Abbreviation kprog := (iprog kresp).
Definition kask (c : kcall) : kprog (kresp c) := icall c.

Definition OsErrExist : error := ErrNew "file already exists".
Definition OsErrNotExist : error := ErrNew "file does not exist".
Definition IoErrShortWrite : error := ErrNew "short write".

(** Sequencing over errors. *)
Definition kbind {A B} (p : kprog (result error A)) (f : A -> kprog (result error B)) : kprog (result error B) :=
  let^ r := p in
  match r with
  | Ok a => f a
  | Err e => IRet (Err e)
  end.
Definition wrapping {A} (text : string) (r : result error A) : result error A :=
  match r with Ok a => Ok a | Err e => Err (ErrWrap text e) end.
Definition checked (text : string) (r : option error) : result error () :=
  match r with None => Ok () | Some e => Err (ErrWrap text e) end.
Notation "'let*' x ':=' p 'in' k" := (kbind p (fun x => k)) (at level 10, x pattern, p at level 100, k at level 200) : i_scope.

(** ** Writing the protected file *)

(** The removal of an incomplete file; that it is gone already is no failure. *)
Definition remove_incomplete (path : string) : kprog (option error) :=
  let^ removed := kask (RemoveSecret path) in
  IRet (match removed with Some e => if is_sentinel OsErrNotExist e then None else Some e | None => None end).

(** [cleanupFailure]: the causes besides the first are kept as text. *)
Definition cleanupFailure (path : string) (cause : error) : kprog (result error ()) :=
  let^ closed := kask CloseSecret in
  let^ removed := remove_incomplete path in
  IRet (Err (match removed, closed with
             | Some _, _ => ErrWrap "cleanup of incomplete protected destination failed; manual cleanup required" cause
             | None, Some _ => ErrWrap "incomplete protected destination removed after close also failed" cause
             | None, None => ErrWrap "incomplete protected destination removed" cause
             end)).

Definition writeExclusive (path value : string) : kprog (result error ()) :=
  let^ opened := kask (OpenExclusive path) in
  match opened with
  | Some e =>
      IRet (Err (if is_sentinel OsErrExist e
                 then ErrNew ("protected secret " +:+ Quote path +:+ " already exists; imports never overwrite an existing key")
                 else ErrWrap "create protected secret" e))
  | None =>
      let^ wrote := kask (WriteSecret value) in
      match wrote with
      | (_, Some e) => cleanupFailure path (ErrWrap "write protected secret" e)
      | (written, None) =>
          if negb (written =? Z.of_nat (String.length value)) then cleanupFailure path (ErrWrap "write protected secret" IoErrShortWrite)
          else
            let^ synced := kask SyncSecret in
            match synced with
            | Some e => cleanupFailure path (ErrWrap "flush protected secret" e)
            | None =>
                let^ closed := kask CloseSecret in
                match closed with
                | Some e =>
                    let^ removed := remove_incomplete path in
                    IRet (Err (match removed with
                               | Some _ => ErrWrap "cleanup of incomplete protected destination failed; manual cleanup required" (ErrWrap "close protected secret" e)
                               | None => ErrWrap "incomplete protected destination removed" (ErrWrap "close protected secret" e)
                               end))
                | None => IRet (Ok ())
                end
            end
      end
  end.

Definition rollbackProtectedDestination {A} (path : string) (cause : error) : kprog (result error A) :=
  let^ removed := kask (RemoveSecret path) in
  IRet (Err (match removed with
             | Some _ => ErrWrap "also failed to roll back protected destination; manual cleanup required" cause
             | None => ErrWrap "protected destination rolled back" cause
             end)).

Section Keys.
Context {KT : KeyText}.

(** ** Fingerprints and parsing *)

Definition publicKeyFingerprint (key : RSAKey) : result error string :=
  match MarshalPKIX key with
  | Err e => Err (ErrWrap "marshal RSA public key" e)
  | Ok der => Ok (base64_EncodeToString (Sum256 der))
  end.

Definition legacyPublicKeyFingerprint (key : RSAKey) : result error string :=
  match MarshalPKIX key with
  | Err e => Err (ErrWrap "marshal RSA public key" e)
  | Ok der => Ok (hex_EncodeToString (Sum256 der))
  end.

Definition checkRSAKey (key : RSAKey) : result error RSAKey :=
  match ValidateKey key with
  | Some e => Err (ErrWrap "validate RSA private key" e)
  | None =>
      if BitLen key <? 2048
      then Err (ErrNew ("RSA private key is " +:+ Itoa (BitLen key) +:+ " bits; at least 2048 bits are required"))
      else Ok key
  end.

Definition parseRSAPrivateKey (value : string) : result error RSAKey :=
  match pem_Decode value with
  | None => Err (ErrNew "private key must be PEM encoded")
  | Some (block, rest) =>
      if negb (String.eqb (TrimSpace rest) "") then Err (ErrNew "private key file contains trailing data")
      else if pem_Encrypted block || Contains (pem_Type block) "ENCRYPTED" then Err (ErrNew "encrypted PEM private keys are not supported")
      else if String.eqb (pem_Type block) "RSA PRIVATE KEY" then
        match ParsePKCS1 (pem_Bytes block) with
        | Err e => Err (ErrWrap "parse RSA private key" e)
        | Ok key => checkRSAKey key
        end
      else if String.eqb (pem_Type block) "PRIVATE KEY" then
        match ParsePKCS8 (pem_Bytes block) with
        | Err e => Err (ErrWrap "parse RSA private key" e)
        | Ok None => Err (ErrNew "PKCS#8 private key is not RSA")
        | Ok (Some key) => checkRSAKey key
        end
      else Err (ErrNew ("unsupported PEM block " +:+ Quote (pem_Type block) +:+ "; expected RSA PRIVATE KEY or PRIVATE KEY"))
  end.

(** ** Loading *)

Definition requireJSONEOF (trailer : string) : result error () :=
  match decode_trailer trailer with
  | None => Ok ()
  | Some None => Err (ErrNew "protected-secret file contains multiple JSON values")
  | Some (Some e) => Err (ErrWrap "decode protected secret trailer" e)
  end.

(** The envelope of a protected file. *)
Definition open_envelope (encoded : string) : result error envelope :=
  match decode_envelope encoded with
  | Err e => Err (ErrWrap "decode protected secret" e)
  | Ok (value, trailer) =>
      match requireJSONEOF trailer with
      | Err e => Err e
      | Ok _ =>
          if (negb (en_SchemaVersion value =? legacySecretSchemaVersion) && negb (en_SchemaVersion value =? secretSchemaVersion))
             || negb (String.eqb (en_Algorithm value) secretAlgorithm) || negb (String.eqb (en_Encoding value) secretEncoding)
          then Err (ErrNew "unsupported protected-secret format")
          else if IsZero (en_ImportedAt value) then Err (ErrNew "protected-secret import timestamp is missing")
          else Ok value
      end
  end.

(** The key in the plaintext of an envelope, when it has the recorded fingerprint. *)
Definition check_plaintext (path : string) (value : envelope) (plaintext : string) : result error (RSAKey * SecretResult) :=
  match ParsePKCS8 plaintext with
  | Err e => Err (ErrWrap "parse protected PKCS#8 key" e)
  | Ok None => Err (ErrNew "protected key is not RSA")
  | Ok (Some key) =>
      match ValidateKey key with
      | Some e => Err (ErrWrap "validate protected RSA key" e)
      | None =>
          match publicKeyFingerprint key with
          | Err e => Err e
          | Ok fingerprint =>
              match (if en_SchemaVersion value =? legacySecretSchemaVersion then legacyPublicKeyFingerprint key else Ok fingerprint) with
              | Err e => Err e
              | Ok recordedFingerprint =>
                  if negb (String.eqb recordedFingerprint (en_Fingerprint value)) then Err (ErrNew "protected-secret fingerprint mismatch")
                  else Ok (key, mkSecretResult path fingerprint (en_ImportedAt value))
              end
          end
      end
  end.

(** [LoadPrivateKey] of a store with a protector. *)
Definition LoadPrivateKey (path : string) : kprog (result error (RSAKey * SecretResult)) :=
  let^ encoded := kask (ReadSecret path) in
  match encoded with
  | Err e => IRet (Err (ErrWrap "read protected secret" e))
  | Ok encoded =>
      match open_envelope encoded with
      | Err e => IRet (Err e)
      | Ok value =>
          let^ plaintext := kask (Unprotect (en_Ciphertext value)) in
          match plaintext with
          | Err e => IRet (Err (ErrWrap "unprotect private key with current-user DPAPI" e))
          | Ok plaintext => IRet (check_plaintext path value plaintext)
          end
      end
  end.

Definition with_context {A} (k : kprog (result error A)) : kprog (result error A) :=
  let^ err := kask ContextErr in
  match err with
  | Some e => IRet (Err e)
  | None => k
  end.

(** ** Importing *)

(** What the import derives from the source: the key's fingerprint, the time and
    the text of the protected file. *)
Record Prepared := mkPrepared {
  pr_key : RSAKey;
  pr_fingerprint : string;
  pr_now : time;
  pr_encoded : string;
}.

Definition newline_byte : string := String (ascii_of_nat 10) "".

Definition prepare : kprog (result error Prepared) :=
  let* raw := (let^ r := kask ReadSource in IRet (wrapping "read private key" r)) in
  let* key := IRet (parseRSAPrivateKey raw) in
  let* der := IRet (wrapping "normalize private key" (MarshalPKCS8 key)) in
  let* fingerprint := IRet (publicKeyFingerprint key) in
  let* protected := (let^ r := kask (Protect der ("ci-runner GitHub App key " +:+ fingerprint)) in
                     IRet (wrapping "protect private key with current-user DPAPI" r)) in
  let^ now := kask KeyNow in
  let* encoded := IRet (wrapping "encode protected secret"
    (encode_envelope (mkEnvelope secretSchemaVersion secretAlgorithm secretEncoding fingerprint now protected))) in
  IRet (Ok (mkPrepared key fingerprint now (encoded +:+ newline_byte))).

(** The protected file is created and secured. *)
Definition store_protected (directory path : string) (p : Prepared) : kprog (result error ()) :=
  let* _ := (let^ r := kask (MkdirSecret directory) in IRet (checked "create secret directory" r)) in
  let* _ := (let^ r := kask (HardenSecret directory) in IRet (checked "secure secret directory" r)) in
  let* _ := writeExclusive path (pr_encoded p) in
  let^ r := kask (HardenSecret path) in
  match r with
  | Some e => rollbackProtectedDestination path (ErrWrap "secure protected secret" e)
  | None => IRet (Ok ())
  end.

(** The file is read back and decrypted before the source may go. *)
Definition verify_protected (path : string) (p : Prepared) : kprog (result error ()) :=
  let^ loaded := LoadPrivateKey path in
  match loaded with
  | Err e => rollbackProtectedDestination path (ErrWrap "verify protected secret before removing plaintext source" e)
  | Ok (_, metadata) =>
      if negb (String.eqb (sr_Fingerprint metadata) (pr_fingerprint p)) || negb (sr_ImportedAt metadata =? pr_now p)
      then rollbackProtectedDestination path (ErrNew "verify protected secret before removing plaintext source: metadata mismatch")
      else
        let^ err := kask ContextErr in
        match err with
        | Some e => rollbackProtectedDestination path (ErrWrap "import canceled before removing plaintext source" e)
        | None => IRet (Ok ())
        end
  end.

Definition import_opened (directory sourcePath destinationPath : string) : kprog (result error SecretResult) :=
  let* p := prepare in
  let* _ := store_protected directory destinationPath p in
  let* _ := verify_protected destinationPath p in
  let^ removed := kask CommitRemoval in
  match removed with
  | Some e => IRet (Err (ErrWrap ("remove original plaintext source " +:+ Quote sourcePath +:+ " without deleting a replacement; protected destination "
                                  +:+ Quote destinationPath +:+ " retained; manual cleanup required") e))
  | None => IRet (Ok (mkSecretResult destinationPath (pr_fingerprint p) (pr_now p)))
  end.

(** The deferred close of the source. *)
Definition close_source (result : result error SecretResult) : kprog (Prelude.result error SecretResult) :=
  let^ closed := kask CloseSource in
  IRet (match closed, result with
        | None, _ => result
        | Some e, Ok _ => Err (ErrWrap "close identity-locked private-key source" e)
        | Some e, Err cause => Err (ErrJoin [cause; ErrWrap "close identity-locked private-key source" e])
        end).

(** [dir] is [filepath.Dir]; [complete] says that the three dependencies are there. *)
Definition Import (dir : string -> string) (complete : bool) (sourcePath destinationPath : string) : kprog (result error SecretResult) :=
  if negb complete then IRet (Err (ErrNew "secret importer dependencies are incomplete"))
  else if String.eqb (TrimSpace sourcePath) "" || String.eqb (TrimSpace destinationPath) ""
  then IRet (Err (ErrNew "source path and destination path are required"))
  else
    let* _ := (let^ r := kask (VerifyProtected (dir destinationPath)) in IRet (checked "BitLocker precondition" r)) in
    let* _ := (let^ r := kask (OpenSource sourcePath) in IRet (checked "open identity-locked private-key source" r)) in
    let^ result := import_opened (dir destinationPath) sourcePath destinationPath in
    close_source result.

(** ** The store *)

Context `{Platform, FilePath}.

Definition secret_store_path (directory secretID : string) : result error string :=
  if negb (secretIDPattern secretID) then Err (ErrNew ("invalid secret ID " +:+ Quote secretID))
  else if negb (IsAbs directory) then Err (ErrNew "secret directory must be absolute")
  else Ok (filepath_Join directory (secretID +:+ ".dpapi")).

Definition Inspect (directory secretID : string) : kprog (result error SecretResult) :=
  with_context
    (let* path := IRet (secret_store_path directory secretID) in
     let* loaded := LoadPrivateKey path in
     with_context (IRet (Ok (snd loaded)))).

Definition Store_PrivateKey (directory secretID : string) : kprog (result error string) :=
  with_context
    (let* path := IRet (secret_store_path directory secretID) in
     let* loaded := LoadPrivateKey path in
     let* der := IRet (wrapping "marshal protected RSA key" (MarshalPKCS8 (fst loaded))) in
     let canonicalPEM := pem_Encode der in
     if String.eqb canonicalPEM "" then IRet (Err (ErrNew "encode protected RSA key as PEM"))
     else with_context (IRet (Ok canonicalPEM))).
End Keys.
