(* ===== verification/SecretFacts.v ===== *)
(** What the key store guarantees: the plaintext goes only after the protected key
    was proved usable, a failed import leaves neither a half-written nor an
    overwritten file, and an imported key is read back. *)

From S2P Require Import Prelude Float64 GoStrings Regexp Model Config GoText Errors Effects Reconciler Control FileSystem Store Interaction Secret.
From Stdlib Require Import Ascii.
#[local] Open Scope Z_scope.
Open Scope i_scope.

Lemma iruns_kbind {A B} (p : kprog (result error A)) (f : A -> kprog (result error B)) tr r :
  iruns (let* x := p in f x) tr r ->
  (exists tr1 tr2 a, tr = tr1 ++ tr2 /\ iruns p tr1 (Ok a) /\ iruns (f a) tr2 r) \/ (exists e, iruns p tr (Err e) /\ r = Err e).
Proof.
  intros (tr1 & tr2 & x & H1 & H2 & ->)%iruns_bind_inv. destruct x as [a|e].
  - left. exists tr1, tr2, a. done.
  - right. apply iruns_inv in H2 as [-> ->]. exists e. by rewrite app_nil_r.
Qed.

(** A program that answers [Ok] went through the first part with [Ok]. *)
Lemma iruns_kbind_ok {A B} (p : kprog (result error A)) (f : A -> kprog (result error B)) tr b :
  iruns (let* x := p in f x) tr (Ok b) -> exists tr1 tr2 a, tr = tr1 ++ tr2 /\ iruns p tr1 (Ok a) /\ iruns (f a) tr2 (Ok b).
Proof. intros [H|(e & _ & [=])]%iruns_kbind. done. Qed.

Lemma iruns_one {A} c (g : kresp c -> A) tr x :
  iruns (let^ r := kask c in IRet (g r)) tr x -> exists r, tr = [ev c r] /\ x = g r.
Proof. intros (r & t & -> & Hr)%iruns_inv. apply iruns_inv in Hr as [-> ->]. by exists r. Qed.

Section Facts.
Context {KT : KeyText}.

(** ** The stages of an import that goes on *)

Lemma prepare_ok tr p :
  iruns prepare tr (Ok p) ->
  exists raw der protected encoded,
    tr = [ev ReadSource (Ok raw); ev (Protect der ("ci-runner GitHub App key " +:+ pr_fingerprint p)) (Ok protected); ev KeyNow (pr_now p)] /\
    parseRSAPrivateKey raw = Ok (pr_key p) /\ MarshalPKCS8 (pr_key p) = Ok der /\ publicKeyFingerprint (pr_key p) = Ok (pr_fingerprint p) /\
    encode_envelope (mkEnvelope secretSchemaVersion secretAlgorithm secretEncoding (pr_fingerprint p) (pr_now p) protected) = Ok encoded /\
    pr_encoded p = encoded +:+ newline_byte.
Proof.
  unfold prepare. intros (ta & t1 & raw & -> & Ha & H1)%iruns_kbind_ok.
  apply iruns_one in Ha as ([raw'|] & -> & Hraw); [|done]. injection Hraw as <-.
  apply iruns_kbind_ok in H1 as (ta & t2 & key & -> & Ha & H2). apply iruns_inv in Ha as [-> Hkey].
  apply iruns_kbind_ok in H2 as (ta & t3 & der & -> & Ha & H3). apply iruns_inv in Ha as [-> Hder].
  apply iruns_kbind_ok in H3 as (ta & t4 & fp & -> & Ha & H4). apply iruns_inv in Ha as [-> Hfp].
  apply iruns_kbind_ok in H4 as (ta & t5 & prot & -> & Ha & H5).
  apply iruns_one in Ha as ([prot'|] & -> & Hprot); [|done]. injection Hprot as <-.
  apply iruns_inv in H5 as (now & t6 & -> & H6). cbn [ibind] in H6.
  apply iruns_kbind_ok in H6 as (ta & t7 & encoded & -> & Ha & H7). apply iruns_inv in Ha as [-> Henc].
  apply iruns_inv in H7 as [-> [= ->]]. unfold wrapping in *.
  destruct (MarshalPKCS8 key) eqn:Hm; simplify_eq/=. destruct (encode_envelope _) eqn:He; simplify_eq/=.
  eexists _, _, _, _. by split_and!.
Qed.

Lemma writeExclusive_ok path value tr :
  iruns (writeExclusive path value) tr (Ok ()) ->
  tr = [ev (OpenExclusive path) None; ev (WriteSecret value) (Z.of_nat (String.length value), None); ev SyncSecret None; ev CloseSecret None].
Proof.
  unfold writeExclusive, cleanupFailure, remove_incomplete, kask. intros Hr.
  inv_runs. destruct r as [e|]; inv_runs. destruct r as [n [e|]]; inv_runs.
  destruct (Z.eqb_spec n (Z.of_nat (String.length value))) as [->|]; cbn [negb] in *; inv_runs.
  destruct r as [e|]; inv_runs. by destruct r as [e|]; inv_runs.
Qed.

Lemma store_protected_ok directory path p tr :
  iruns (store_protected directory path p) tr (Ok ()) ->
  tr = [ev (MkdirSecret directory) None; ev (HardenSecret directory) None; ev (OpenExclusive path) None;
        ev (WriteSecret (pr_encoded p)) (Z.of_nat (String.length (pr_encoded p)), None); ev SyncSecret None; ev CloseSecret None;
        ev (HardenSecret path) None].
Proof.
  unfold store_protected. intros (ta & t1 & [] & -> & Ha & H1)%iruns_kbind_ok. apply iruns_one in Ha as ([|] & -> & Hc); [done|].
  apply iruns_kbind_ok in H1 as (ta & t2 & [] & -> & Ha & H2). apply iruns_one in Ha as ([|] & -> & Hd); [done|].
  apply iruns_kbind_ok in H2 as (ta & t3 & [] & -> & Ha & H3). apply writeExclusive_ok in Ha as ->.
  unfold rollbackProtectedDestination, kask in H3. inv_runs. by destruct r as [e|]; inv_runs.
Qed.

Lemma LoadPrivateKey_ok path tr key m :
  iruns (LoadPrivateKey path) tr (Ok (key, m)) ->
  exists encoded value plaintext,
    tr = [ev (ReadSecret path) (Ok encoded); ev (Unprotect (en_Ciphertext value)) (Ok plaintext)] /\
    open_envelope encoded = Ok value /\ check_plaintext path value plaintext = Ok (key, m).
Proof.
  unfold LoadPrivateKey, kask. intros Hr. inv_runs. destruct r as [encoded|e]; inv_runs.
  destruct (open_envelope encoded) as [value|e] eqn:Ho; inv_runs. destruct r as [plaintext|e]; inv_runs.
  exists encoded, value, plaintext. done.
Qed.

Lemma verify_protected_ok path p tr :
  iruns (verify_protected path p) tr (Ok ()) ->
  exists encoded value plaintext key m,
    tr = [ev (ReadSecret path) (Ok encoded); ev (Unprotect (en_Ciphertext value)) (Ok plaintext); ev ContextErr None] /\
    open_envelope encoded = Ok value /\ check_plaintext path value plaintext = Ok (key, m) /\
    sr_Fingerprint m = pr_fingerprint p /\ sr_ImportedAt m = pr_now p.
Proof.
  unfold verify_protected. intros (ta & tb & r & Ha & Hb & ->)%iruns_bind_inv. unfold rollbackProtectedDestination, kask in Hb.
  destruct r as [[key m]|e]; [|by inv_runs]. apply LoadPrivateKey_ok in Ha as (encoded & value & plaintext & -> & Ho & Hc).
  destruct (negb (String.eqb _ _) || negb _) eqn:Hm; [by inv_runs|]. inv_runs. destruct r as [e|]; inv_runs.
  apply orb_false_iff in Hm as [Hf%negb_false_iff%String.eqb_eq Hn%negb_false_iff%Z.eqb_eq].
  exists encoded, value, plaintext, key, m. done.
Qed.

(** ** The plaintext source *)

Definition is_commit (e : event kresp) : bool := match projT1 e with CommitRemoval => true | _ => false end.
Abbreviation quiet := (fun e => is_commit e = false).

Lemma writeExclusive_quiet path value : emits quiet (writeExclusive path value).
Proof. unfold writeExclusive, cleanupFailure, remove_incomplete, kask. solve_emits. Qed.
Lemma rollback_quiet {A} path cause : emits quiet (@rollbackProtectedDestination A path cause).
Proof. unfold rollbackProtectedDestination, kask. solve_emits. Qed.
Hint Resolve writeExclusive_quiet rollback_quiet : emits.
Lemma prepare_quiet : emits quiet prepare.
Proof. unfold prepare, kbind, kask. solve_emits. Qed.
Lemma store_protected_quiet directory path p : emits quiet (store_protected directory path p).
Proof. unfold store_protected, kbind, kask. solve_emits. Qed.
Lemma verify_protected_quiet path p : emits quiet (verify_protected path p).
Proof. unfold verify_protected, LoadPrivateKey, kbind, kask. solve_emits. Qed.

(** A stage that makes no removal either passes to the next or ends the import. *)
Lemma commit_after {A B} (p : kprog (result error A)) (f : A -> kprog (result error B)) tr r a :
  iruns (let* x := p in f x) tr r -> ev CommitRemoval a ∈ tr -> emits quiet p ->
  exists tr1 tr2 x, tr = tr1 ++ tr2 /\ iruns p tr1 (Ok x) /\ iruns (f x) tr2 r /\ ev CommitRemoval a ∈ tr2.
Proof.
  intros Hr Hin Hq. apply iruns_kbind in Hr as [(tr1 & tr2 & x & -> & H1 & H2)|(e & H1 & ->)].
  - exists tr1, tr2, x. split_and!; try done. apply elem_of_app in Hin as [Hin|Hin]; [|done].
    eapply emits_runs in H1; [|done]. rewrite Forall_forall in H1. by specialize (H1 _ Hin).
  - eapply emits_runs in H1; [|done]. rewrite Forall_forall in H1. by specialize (H1 _ Hin).
Qed.

Lemma check_plaintext_ok path value plaintext key m :
  check_plaintext path value plaintext = Ok (key, m) ->
  ParsePKCS8 plaintext = Ok (Some key) /\ ValidateKey key = None /\ publicKeyFingerprint key = Ok (sr_Fingerprint m) /\
  sr_ImportedAt m = en_ImportedAt value.
Proof. unfold check_plaintext. intros Hc. by repeat case_match; simplify_eq/=. Qed.

Lemma parse_bits raw key : parseRSAPrivateKey raw = Ok key -> 2048 <= BitLen key.
Proof.
  assert (Hc : forall k, checkRSAKey k = Ok key -> 2048 <= BitLen key).
  { unfold checkRSAKey. intros k. destruct (ValidateKey k); [done|]. destruct (Z.ltb_spec (BitLen k) 2048); [done|]. by intros [= <-]. }
  unfold parseRSAPrivateKey. intros Hp. repeat case_match; try done; by apply Hc in Hp.
Qed.

(** The one sequence of calls that ends in a removal of the source. *)
Lemma commit_sequence dir complete sourcePath destinationPath tr r a :
  iruns (Import dir complete sourcePath destinationPath) tr r -> ev CommitRemoval a ∈ tr ->
  exists p raw der protected encoded value plaintext key closed,
    tr = [ev (VerifyProtected (dir destinationPath)) None; ev (OpenSource sourcePath) None; ev ReadSource (Ok raw);
          ev (Protect der ("ci-runner GitHub App key " +:+ pr_fingerprint p)) (Ok protected); ev KeyNow (pr_now p);
          ev (MkdirSecret (dir destinationPath)) None; ev (HardenSecret (dir destinationPath)) None; ev (OpenExclusive destinationPath) None;
          ev (WriteSecret (pr_encoded p)) (Z.of_nat (String.length (pr_encoded p)), None); ev SyncSecret None; ev CloseSecret None;
          ev (HardenSecret destinationPath) None; ev (ReadSecret destinationPath) (Ok encoded);
          ev (Unprotect (en_Ciphertext value)) (Ok plaintext); ev ContextErr None; ev CommitRemoval a; ev CloseSource closed] /\
    parseRSAPrivateKey raw = Ok (pr_key p) /\ 2048 <= BitLen (pr_key p) /\ publicKeyFingerprint (pr_key p) = Ok (pr_fingerprint p) /\
    open_envelope encoded = Ok value /\ en_ImportedAt value = pr_now p /\
    ParsePKCS8 plaintext = Ok (Some key) /\ ValidateKey key = None /\ publicKeyFingerprint key = Ok (pr_fingerprint p).
Proof.
  unfold Import. destruct complete; cbn [negb]; [|by intros [-> _]%iruns_inv ?%elem_of_nil].
  destruct (String.eqb _ _ || String.eqb _ _); [by intros [-> _]%iruns_inv ?%elem_of_nil|]. intros Hr Hin.
  destruct (commit_after _ _ _ _ _ Hr Hin) as (t1 & t2 & [] & -> & H1 & H & Hin'); [unfold kask; solve_emits|]. clear Hr Hin. rename Hin' into Hin.
  apply iruns_one in H1 as ([|] & -> & H1); [done|].
  destruct (commit_after _ _ _ _ _ H Hin) as (t1 & t3 & [] & -> & H2 & H3 & Hin'); [unfold kask; solve_emits|]. clear H Hin. rename Hin' into Hin.
  apply iruns_one in H2 as ([|] & -> & H2); [done|].
  apply iruns_bind_inv in H3 as (t4 & t5 & res & H3 & Hcl & ->). apply iruns_one in Hcl as (closed & -> & _).
  apply elem_of_app in Hin as [Hin|Hin]; [|apply elem_of_cons in Hin as [Hin|Hin]; [by apply (f_equal (@projT1 _ _)) in Hin|by apply elem_of_nil in Hin]].
  unfold import_opened in H3.
  destruct (commit_after _ _ _ _ _ H3 Hin) as (t6 & t7 & p & -> & Hp & H4 & Hin'); [apply prepare_quiet|]. clear H3 Hin. rename Hin' into Hin.
  destruct (commit_after _ _ _ _ _ H4 Hin) as (t8 & t9 & [] & -> & Hs & H5 & Hin'); [apply store_protected_quiet|]. clear H4 Hin. rename Hin' into Hin.
  destruct (commit_after _ _ _ _ _ H5 Hin) as (t10 & t11 & [] & -> & Hv & H6 & Hin'); [apply verify_protected_quiet|]. clear H5 Hin. rename Hin' into Hin.
  apply prepare_ok in Hp as (raw & der & protected & text & -> & Hkey & Hder & Hfp & _).
  apply store_protected_ok in Hs as ->. apply verify_protected_ok in Hv as (encoded & value & plaintext & key & m & -> & Hopen & Hcheck & Hmf & Hma).
  apply iruns_inv in H6 as (a' & t12 & -> & H6). assert (t12 = []) as -> by (destruct a'; by apply iruns_inv in H6 as [-> _]).
  assert (Ha : a' = a).
  { apply elem_of_cons in Hin as [Hin|Hin]; [|by apply elem_of_nil in Hin].
    by apply (f_equal (fun e : event kresp => match e with existT CommitRemoval x => x | _ => None end)) in Hin. }
  subst a'. exists p, raw, der, protected, encoded, value, plaintext, key, closed.
  pose proof (check_plaintext_ok _ _ _ _ _ Hcheck) as (Hparse & Hvalid & Hfp' & Hat).
  split; [done|]. split_and!; try done; [by eapply parse_bits|congruence|by rewrite <- Hmf].
Qed.

(** The plaintext goes last.  The removal of the source is asked for only at the
    end of one exact sequence of calls: the volume was verified, the source read and
    parsed as an RSA key of at least 2048 bits, the envelope written completely to a
    file that did not exist, flushed, closed and secured, and then read back,
    decrypted and found to hold a valid key of the same fingerprint, with the
    import not cancelled. *)
Theorem plaintext_removed_after_proof dir complete sourcePath destinationPath tr r a :
  iruns (Import dir complete sourcePath destinationPath) tr r -> ev CommitRemoval a ∈ tr ->
  exists p raw der protected encoded value plaintext key closed,
    tr = [ev (VerifyProtected (dir destinationPath)) None; ev (OpenSource sourcePath) None; ev ReadSource (Ok raw);
          ev (Protect der ("ci-runner GitHub App key " +:+ pr_fingerprint p)) (Ok protected); ev KeyNow (pr_now p);
          ev (MkdirSecret (dir destinationPath)) None; ev (HardenSecret (dir destinationPath)) None; ev (OpenExclusive destinationPath) None;
          ev (WriteSecret (pr_encoded p)) (Z.of_nat (String.length (pr_encoded p)), None); ev SyncSecret None; ev CloseSecret None;
          ev (HardenSecret destinationPath) None; ev (ReadSecret destinationPath) (Ok encoded);
          ev (Unprotect (en_Ciphertext value)) (Ok plaintext); ev ContextErr None; ev CommitRemoval a; ev CloseSource closed] /\
    parseRSAPrivateKey raw = Ok (pr_key p) /\ 2048 <= BitLen (pr_key p) /\ publicKeyFingerprint (pr_key p) = Ok (pr_fingerprint p) /\
    open_envelope encoded = Ok value /\ en_ImportedAt value = pr_now p /\
    ParsePKCS8 plaintext = Ok (Some key) /\ ValidateKey key = None /\ publicKeyFingerprint key = Ok (pr_fingerprint p).
Proof. apply commit_sequence. Qed.

(** ** The protected file *)

(** Whether the protected file was created, its removal asked for, the removal of
    the source asked for, and answered without an error. *)
Record progress := mkProgress {
  ip_created : bool;
  ip_removed : bool;
  ip_committed : bool;
  ip_gone : bool;
}.

Definition untouched : progress := mkProgress false false false false.

(** The events that are allowed: only the destination is created and at most once,
    only what this import created is removed, and never after the source; the
    source is removed only while the protected file is in place. *)
Definition import_step (destination : string) (s : progress) (e : event kresp) : option progress :=
  match e with
  | existT (OpenExclusive path) answer =>
      if String.eqb path destination && negb (ip_created s)
      then Some (match answer with None => {| s with ip_created := true |} | Some _ => s end) else None
  | existT (WriteSecret _) _ => if ip_created s && negb (ip_removed s) then Some s else None
  | existT (RemoveSecret path) _ =>
      if String.eqb path destination && ip_created s && negb (ip_committed s) then Some {| s with ip_removed := true |} else None
  | existT CommitRemoval answer =>
      if ip_created s && negb (ip_removed s) && negb (ip_committed s)
      then Some {| s with ip_committed := true; ip_gone := match answer with None => true | Some _ => false end |} else None
  | _ => Some s
  end.

Abbreviation steps_of d := (obeys (import_step d)).

Definition fresh : progress := mkProgress true false false false.
Definition undone : progress := mkProgress true true false false.

Lemma remove_follows {A} destination (k : option error -> A) (Q : progress -> A -> Prop) :
  (forall r, Q undone (k r)) ->
  steps_of destination (let^ r := kask (RemoveSecret destination) in IRet (k r)) Q fresh.
Proof. intros HQ. apply obeys_call. intros r. exists undone. split; [cbn; by rewrite String.eqb_refl|]. apply HQ. Qed.

(** How a stage that writes ends: with the file in place, or with an error and
    nothing created or the removal asked for. *)
Definition stored {A} (s : progress) (r : result error A) : Prop :=
  match r with Ok _ => s = fresh | Err _ => s = untouched \/ s = undone end.

Lemma writeExclusive_follows destination value : steps_of destination (writeExclusive destination value) stored untouched.
Proof.
  unfold writeExclusive. apply obeys_call. intros opened. eexists. split; [cbn; rewrite String.eqb_refl; reflexivity|].
  destruct opened as [e|]; [by left|].
  assert (Hclean : forall cause, steps_of destination (cleanupFailure destination cause) stored fresh).
  { intros cause. apply obeys_call. intros closed. exists fresh. split; [done|]. apply obeys_ibind. unfold remove_incomplete.
    apply remove_follows. intros r. simpl. by right. }
  apply obeys_call. intros [n [e|]]; exists fresh; (split; [done|]); [apply Hclean|].
  destruct (negb _); [apply Hclean|]. apply obeys_call. intros [e|]; exists fresh; (split; [done|]); [apply Hclean|].
  apply obeys_call. intros [e|]; exists fresh; (split; [done|]); [|done].
  apply obeys_ibind. unfold remove_incomplete. apply remove_follows. intros r. simpl. by right.
Qed.

Lemma rollback_follows {A} destination cause : steps_of destination (@rollbackProtectedDestination A destination cause) stored fresh.
Proof. apply remove_follows. intros r. by right. Qed.

Lemma kbind_follows {A B} destination (p : kprog (result error A)) (f : A -> kprog (result error B)) Q Q' s :
  steps_of destination p Q s -> (forall s e, Q s (Err e) -> Q' s (Err e)) -> (forall s a, Q s (Ok a) -> steps_of destination (f a) Q' s) ->
  steps_of destination (let* x := p in f x) Q' s.
Proof. intros Hp He Hok. apply obeys_ibind. eapply obeys_mono; [done|]. intros s' [a|e] HQ; [by apply Hok|by apply He]. Qed.

(** Events of a stage that touches neither file. *)
Definition aside (e : event kresp) : Prop :=
  match e with existT (OpenExclusive _) _ | existT (WriteSecret _) _ | existT (RemoveSecret _) _ | existT CommitRemoval _ => False | _ => True end.

Lemma aside_follows {A} destination (p : kprog A) s : emits aside p -> steps_of destination p (fun s' _ => s' = s) s.
Proof.
  intros Hp. eapply (emits_obeys _ (fun s' => s' = s)); [done| |done].
  intros s' [[] answer] -> He; cbn in *; try (by destruct He); by eexists.
Qed.

Lemma store_protected_follows directory destination p : steps_of destination (store_protected directory destination p) stored untouched.
Proof.
  eapply kbind_follows; [apply aside_follows; unfold kask; solve_emits|by intros s e ->; left|]. intros s [] ->.
  eapply kbind_follows; [apply aside_follows; unfold kask; solve_emits|by intros s e ->; left|]. intros s [] ->.
  eapply kbind_follows; [apply writeExclusive_follows|done|]. intros s [] ->.
  apply obeys_call. intros [e|]; exists fresh; (split; [done|]); [apply rollback_follows|done].
Qed.

Lemma LoadPrivateKey_aside path : emits aside (LoadPrivateKey path).
Proof. unfold LoadPrivateKey, kask. solve_emits. Qed.

Lemma verify_protected_follows destination p : steps_of destination (verify_protected destination p) stored fresh.
Proof.
  apply obeys_ibind. eapply obeys_mono; [apply aside_follows, LoadPrivateKey_aside|]. intros s [[key m]|e] ->; [|apply rollback_follows].
  destruct (negb _ || negb _); [apply rollback_follows|].
  apply obeys_call. intros [e|]; exists fresh; (split; [done|]); [apply rollback_follows|done].
Qed.

(** How an import ends. *)
Definition import_ends {A} (s : progress) (r : result error A) : Prop :=
  match r with
  | Ok _ => s = mkProgress true false true true
  | Err _ => s = untouched \/ s = undone \/ exists gone, s = mkProgress true false true gone
  end.

Lemma import_opened_follows directory sourcePath destination :
  steps_of destination (import_opened directory sourcePath destination)
    (fun s r => match r with
                | Ok _ => s = mkProgress true false true true
                | Err _ => s = untouched \/ s = undone \/ s = mkProgress true false true false
                end) untouched.
Proof.
  eapply kbind_follows; [apply aside_follows; unfold prepare, kbind, kask; solve_emits|by intros s e ->; left|]. intros s p ->.
  eapply kbind_follows; [apply store_protected_follows|intros s e [->| ->]; tauto|]. intros s [] ->.
  eapply kbind_follows; [apply verify_protected_follows|intros s e [->| ->]; tauto|]. intros s [] ->.
  apply obeys_call. intros [e|]; eexists; (split; [reflexivity|]); [by right; right|done].
Qed.

(** The proof that comes right before the removal of the source: the destination
    was flushed, closed and secured, then read back and decrypted, and what was read
    is an envelope of the time of this import with a valid RSA key of the
    fingerprint of the key in the source; and the import was not cancelled. *)
Definition verified_copy (destination : string) (tr : list (event kresp)) : Prop :=
  exists before raw source fingerprint now encoded value plaintext key a after,
    tr = before ++ [ev SyncSecret None; ev CloseSecret None; ev (HardenSecret destination) None;
                    ev (ReadSecret destination) (Ok encoded); ev (Unprotect (en_Ciphertext value)) (Ok plaintext); ev ContextErr None;
                    ev CommitRemoval a] ++ after /\
    ev ReadSource (Ok raw) ∈ before /\ parseRSAPrivateKey raw = Ok source /\ publicKeyFingerprint source = Ok fingerprint /\
    ev KeyNow now ∈ before /\ open_envelope encoded = Ok value /\ en_ImportedAt value = now /\
    ParsePKCS8 plaintext = Ok (Some key) /\ ValidateKey key = None /\ publicKeyFingerprint key = Ok fingerprint.

Lemma committed_copy dir complete sourcePath destination tr r a :
  iruns (Import dir complete sourcePath destination) tr r -> ev CommitRemoval a ∈ tr -> verified_copy destination tr.
Proof.
  intros Hr Hin. destruct (commit_sequence _ _ _ _ _ _ _ Hr Hin)
    as (p & raw & der & protected & encoded & value & plaintext & key & closed & -> & Hraw & _ & Hfp & Hopen & Hat & Hkey & Hvalid & Hfp').
  pose (before := ([ev (VerifyProtected (dir destination)) None; ev (OpenSource sourcePath) None; ev ReadSource (Ok raw);
          ev (Protect der ("ci-runner GitHub App key " +:+ pr_fingerprint p)) (Ok protected); ev KeyNow (pr_now p);
          ev (MkdirSecret (dir destination)) None; ev (HardenSecret (dir destination)) None; ev (OpenExclusive destination) None;
          ev (WriteSecret (pr_encoded p)) (Z.of_nat (String.length (pr_encoded p)), None)] : list (event kresp))).
  exists before, raw, (pr_key p), (pr_fingerprint p), (pr_now p), encoded, value, plaintext, key, a, [ev CloseSource closed].
  split_and!; try done; unfold before; repeat first [apply list_elem_of_here|apply list_elem_of_further].
Qed.

Lemma committed_by_call destination tr s s' :
  follow (import_step destination) s tr = Some s' -> ip_committed s' = true -> ip_committed s = true \/ exists a, ev CommitRemoval a ∈ tr.
Proof.
  revert s. induction tr as [|[c answer] tr IH]; intros s Hf Hc; cbn [follow] in Hf; [left; by simplify_eq|].
  destruct (import_step destination s (existT c answer)) as [s1|] eqn:Hs; [|done].
  destruct (IH s1 Hf Hc) as [H1|[a Ha]]; [|right; exists a; by right].
  destruct c; cbn in Hs; repeat case_match; simplify_eq/=; eauto using list_elem_of_here.
Qed.

(** C24: One usable copy of the key remains.  Whatever fails, an import creates nothing
    but the destination and only where there was no file, removes only what it
    created itself, and never removes both the plaintext and the protected file;
    when it fails, either nothing was created, or the removal of what was created
    was asked for, or the protected file is kept; when it succeeds, the protected
    file is in place and the plaintext gone.  The protected file is kept, and the
    plaintext's removal asked for, only when the file had been flushed, closed and
    secured and then read back, decrypted and found to hold a valid key of the
    source's fingerprint under the time of this import. *)
Theorem import_keeps_one_copy dir complete sourcePath destinationPath tr r :
  iruns (Import dir complete sourcePath destinationPath) tr r ->
  exists s, follow (import_step destinationPath) untouched tr = Some s /\ import_ends s r /\
    (ip_created s && negb (ip_removed s) = true -> verified_copy destinationPath tr).
Proof.
  intros Hr. assert (Hend : exists s, follow (import_step destinationPath) untouched tr = Some s /\ import_ends s r).
  { refine (obeys_runs _ _ import_ends _ _ _ _ Hr). unfold Import.
    destruct (negb complete); [by left|]. destruct (_ || _); [by left|].
    eapply kbind_follows; [apply aside_follows; unfold kask; solve_emits|by intros s e ->; left|]. intros s [] ->.
    eapply kbind_follows; [apply aside_follows; unfold kask; solve_emits|by intros s e ->; left|]. intros s [] ->.
    apply obeys_ibind. eapply obeys_mono; [apply import_opened_follows|]. intros s [res|e] Hs.
    - subst s. apply obeys_call. intros [e|]; eexists; (split; [reflexivity|]); [|done]. right. right. by eexists.
    - apply obeys_call. assert (Hend : s = untouched \/ s = undone \/ exists gone, s = mkProgress true false true gone).
      { destruct Hs as [->|[->| ->]]; eauto. }
      intros [e'|]; exists s; (split; [done|exact Hend]). }
  destruct Hend as (s & Hf & Hend). exists s. split_and!; [exact Hf|exact Hend|]. intros Hkept.
  assert (Hc : ip_committed s = true) by (destruct r; cbn in Hend; [by subst|by destruct Hend as [->|[->|[gone ->]]]]).
  destruct (committed_by_call _ _ _ _ Hf Hc) as [|[a Ha]]; [done|]. by eapply committed_copy.
Qed.
End Facts.

(** ** Reading an imported key back *)

(** What is relied on from the encodings: a document is decoded from its own text
    with the line end left over, which no value follows, and a marshalled key is
    parsed as itself. *)
Class KeyTextLaws (KT : KeyText) := {
  envelope_round_trip : forall env text, encode_envelope env = Ok text -> decode_envelope (text +:+ newline_byte) = Ok (env, newline_byte);
  line_end_is_end : decode_trailer newline_byte = None;
  pkcs8_round_trip : forall key der, MarshalPKCS8 key = Ok der -> ParsePKCS8 der = Ok (Some key);
}.

Section RoundTrip.
Context {KT : KeyText} {laws : KeyTextLaws KT}.

Lemma parse_valid raw key : parseRSAPrivateKey raw = Ok key -> ValidateKey key = None.
Proof.
  assert (Hc : forall k, checkRSAKey k = Ok key -> ValidateKey key = None).
  { unfold checkRSAKey. intros k. destruct (ValidateKey k) eqn:Hv; [done|]. destruct (_ <? _); [done|]. by intros [= <-]. }
  unfold parseRSAPrivateKey. intros Hp. repeat case_match; try done; by apply Hc in Hp.
Qed.

(** The current user's protection opens what it sealed. *)
Definition unseals (sealing opening : list (event kresp)) : Prop :=
  forall der description protected answer,
    ev (Protect der description) (Ok protected) ∈ sealing -> ev (Unprotect protected) answer ∈ opening -> answer = Ok der.

(** C25: An imported key comes back.  When the text an import prepares is read back
    later and the protection opens what it sealed, loading it returns the imported
    key with the fingerprint and the time of the import. *)
Theorem imported_key_loads path sealing p opening r :
  iruns prepare sealing (Ok p) -> pr_now p <> 0 ->
  iruns (LoadPrivateKey path) opening r -> unseals sealing opening ->
  (forall answer, ev (ReadSecret path) answer ∈ opening -> answer = Ok (pr_encoded p)) ->
  r = Ok (pr_key p, mkSecretResult path (pr_fingerprint p) (pr_now p)).
Proof.
  intros Hp Hnow Hl Hseal Hread. apply prepare_ok in Hp as (raw & der & protected & text & -> & Hkey & Hder & Hfp & Henc & Htext).
  unfold LoadPrivateKey in Hl. apply iruns_inv in Hl as (encoded & t1 & -> & Hl). cbn [ibind] in Hl.
  rewrite (Hread encoded) in Hl by set_solver. clear Hread.
  assert (Ho : open_envelope (pr_encoded p) = Ok (mkEnvelope secretSchemaVersion secretAlgorithm secretEncoding (pr_fingerprint p) (pr_now p) protected)).
  { unfold open_envelope, requireJSONEOF. rewrite Htext, (envelope_round_trip _ _ Henc), line_end_is_end. cbn [en_ImportedAt].
    unfold IsZero. by destruct (Z.eqb_spec (pr_now p) 0). }
  rewrite Ho in Hl. apply iruns_inv in Hl as (plaintext & t2 & -> & Hl). cbn [ibind] in Hl.
  rewrite (Hseal der ("ci-runner GitHub App key " +:+ pr_fingerprint p) protected plaintext) in Hl by set_solver. apply iruns_inv in Hl as [_ ->].
  unfold check_plaintext. rewrite (pkcs8_round_trip _ _ Hder), (parse_valid _ _ Hkey), Hfp. cbn [en_SchemaVersion en_Fingerprint].
  change (secretSchemaVersion =? legacySecretSchemaVersion) with false. cbv beta iota. by rewrite String.eqb_refl.
Qed.
End RoundTrip.

(** ** Samples *)
Module SecretSamples.
(** A key is its text; the one envelope that can be encoded is that of the sample. *)
Definition sample_envelope : envelope := mkEnvelope 2 "DPAPI-CurrentUser" "PKCS8-DER" (base64_EncodeToString "pub:key") 77 "sealed".

#[export] Instance envelope_eq_dec : EqDecision envelope.
Proof. solve_decision. Defined.

#[local] Instance toy : KeyText := {|
  RSAKey := string;
  pem_Decode raw := Some (mkPEMBlock "PRIVATE KEY" false raw, "");
  pem_Encode der := "-----" +:+ der;
  ParsePKCS1 _ := Err (ErrNew "not PKCS#1");
  ParsePKCS8 der := Ok (Some der);
  MarshalPKCS8 key := Ok key;
  MarshalPKIX key := Ok ("pub:" +:+ key);
  ValidateKey _ := None;
  BitLen _ := 2048;
  Sum256 text := text;
  encode_envelope env := if decide (env = sample_envelope) then Ok "{}" else Err (ErrNew "unsupported");
  decode_envelope _ := Ok (sample_envelope, newline_byte);
  decode_trailer _ := None |}.

#[local] Instance toy_laws : KeyTextLaws toy.
Proof. split; [|done|]; simpl; [|by intros ? ? [= ->]]. intros env text. destruct (decide _) as [->|]; [done|by intros [=]]. Qed.

Definition honest (c : kcall) (_ : list (event kresp)) : kresp c :=
  match c with
  | ReadSource => Ok "key"
  | ReadSecret _ => Ok ("{}" +:+ newline_byte)
  | Protect _ _ => Ok "sealed"
  | Unprotect _ => Ok "key"
  | WriteSecret text => (Z.of_nat (String.length text), None)
  | KeyNow => 77
  | VerifyProtected _ | OpenSource _ | CommitRemoval | CloseSource | MkdirSecret _ | HardenSecret _ | OpenExclusive _ | SyncSecret
  | CloseSecret | RemoveSecret _ | ContextErr => None
  end.

Definition sample_dir (path : string) : string := "C:\secrets".
Definition sample_import : list (event kresp) * result error SecretResult :=
  irun honest (Import sample_dir true "key.pem" "C:\secrets\app.dpapi") [].

Lemma import_runs : iruns (Import sample_dir true "key.pem" "C:\secrets\app.dpapi") (fst sample_import) (snd sample_import).
Proof. unfold sample_import. by destruct (irun _ _ _) as [tr r] eqn:Hr; apply irun_iruns in Hr. Qed.

Lemma plaintext_removed_after_proof_witness :
  ev CommitRemoval None ∈ fst sample_import /\ length (fst sample_import) = 17%nat.
Proof.
  assert (Hin : ev CommitRemoval None ∈ fst sample_import).
  { vm_compute. repeat first [apply list_elem_of_here | apply list_elem_of_further]. }
  split; [exact Hin|].
  destruct (plaintext_removed_after_proof sample_dir true "key.pem" "C:\secrets\app.dpapi" _ _ None import_runs Hin)
    as (p & raw & der & protected & encoded & value & plaintext & key & closed & Htr & _).
  rewrite Htr. reflexivity.
Defined.

Lemma import_keeps_one_copy_witness :
  exists s, follow (import_step "C:\secrets\app.dpapi") untouched (fst sample_import) = Some s /\ s = mkProgress true false true true
    /\ verified_copy "C:\secrets\app.dpapi" (fst sample_import).
Proof.
  destruct (import_keeps_one_copy sample_dir true "key.pem" "C:\secrets\app.dpapi" _ _ import_runs) as (s & Hf & Hs & Hv).
  assert (Hend : s = mkProgress true false true true) by (vm_compute in Hs; exact Hs).
  exists s. split; [exact Hf|]. split; [exact Hend|]. apply Hv. rewrite Hend. reflexivity.
Defined.

Lemma imported_key_loads_witness :
  exists p r, iruns prepare [ev ReadSource (Ok "key"); ev (Protect "key" ("ci-runner GitHub App key " +:+ base64_EncodeToString "pub:key")) (Ok "sealed");
                             ev KeyNow 77] (Ok p) /\
    iruns (LoadPrivateKey "C:\secrets\app.dpapi")
      [ev (ReadSecret "C:\secrets\app.dpapi") (Ok ("{}" +:+ newline_byte)); ev (Unprotect "sealed") (Ok "key")] r /\
    r = Ok (pr_key p, mkSecretResult "C:\secrets\app.dpapi" (pr_fingerprint p) 77).
Proof.
  assert (Hp : iruns prepare [ev ReadSource (Ok "key"); ev (Protect "key" ("ci-runner GitHub App key " +:+ base64_EncodeToString "pub:key")) (Ok "sealed");
                             ev KeyNow 77] (Ok (mkPrepared (KT := toy) "key" (base64_EncodeToString "pub:key") 77 ("{}" +:+ newline_byte)))).
  { refine (irun_iruns honest _ [] _ _ _). vm_compute. reflexivity. }
  assert (Hl : iruns (LoadPrivateKey "C:\secrets\app.dpapi")
      [ev (ReadSecret "C:\secrets\app.dpapi") (Ok ("{}" +:+ newline_byte)); ev (Unprotect "sealed") (Ok "key")]
      (Ok ("key" : RSAKey, mkSecretResult "C:\secrets\app.dpapi" (base64_EncodeToString "pub:key") 77))).
  { refine (irun_iruns honest _ [] _ _ _). vm_compute. reflexivity. }
  eexists _, _. split; [exact Hp|]. split; [exact Hl|].
  refine (imported_key_loads "C:\secrets\app.dpapi" _ _ _ _ Hp _ Hl _ _).
  - vm_compute. discriminate.
  - intros der d prot answer [H|[H|[H|H]%elem_of_cons]%elem_of_cons]%elem_of_cons Ha; try (by apply (f_equal (@projT1 _ _)) in H); [|by apply elem_of_nil in H].
    assert (der = "key" /\ prot = "sealed") as [-> ->].
    { apply (f_equal (fun e : event kresp => match e with existT (Protect x _) (Ok y) => (x, y) | _ => ("", "") end)) in H. by injection H as -> ->. }
    apply elem_of_cons in Ha as [H'|Ha]; [by apply (f_equal (@projT1 _ _)) in H'|]. apply elem_of_cons in Ha as [H'|Ha]; [|by apply elem_of_nil in Ha].
    by apply (f_equal (fun e : event kresp => match e with existT (Unprotect _) y => y | _ => Ok "" end)) in H'.
  - intros answer Ha. apply elem_of_cons in Ha as [H'|Ha].
    + by apply (f_equal (fun e : event kresp => match e with existT (ReadSecret _) y => y | _ => Ok "" end)) in H'.
    + apply elem_of_cons in Ha as [H'|Ha]; [by apply (f_equal (@projT1 _ _)) in H'|by apply elem_of_nil in Ha].
Defined.
End SecretSamples.
