(* ===== verification/Redact.v ===== *)
(** The redaction of secrets in the controller's log (internal/host/json_log.go,
    [redactLogValue]): five patterns replaced one after the other.

    The patterns are searched as Go's [regexp] does it, leftmost first: the earliest
    position with a match, and there the match a backtracking search finds first.
    Every repetition of the patterns repeats a class of bytes.  Outside ASCII the
    classes hold every byte or none, so bytes and runes give the same matches; the
    two letters that fold outside ASCII, [k] and [s], are written out. *)

From S2P Require Import Prelude GoStrings Regexp GoText.
From Stdlib Require Import Ascii.
#[local] Open Scope Z_scope.

(** ** Patterns *)

Inductive pattern :=
  | PEmpty
  | PClass (c : ascii -> bool)
  | PBoundary
  | PSeq (p q : pattern)
  | POr (p q : pattern)
  | PGreedy (c : ascii -> bool)
  | PLazy (c : ascii -> bool).

Definition word_char (a : ascii) : bool := alnum a || Ascii.eqb a "_".
Definition is_word (c : option ascii) : bool := match c with Some a => word_char a | None => false end.
Definition head_byte (s : string) : option ascii := match s with String a _ => Some a | EmptyString => None end.

(** What follows a part of a pattern: given the byte before and the text that is
    left, the text after the whole match. *)
Abbreviation continuation := (option ascii -> string -> option string).

(** [c*] and [c*?]. *)
Fixpoint greedy (c : ascii -> bool) (prev : option ascii) (s : string) (k : continuation) : option string :=
  match s with
  | EmptyString => k prev s
  | String a rest =>
      if c a then match greedy c (Some a) rest k with Some r => Some r | None => k prev s end
      else k prev s
  end.
Fixpoint reluctant (c : ascii -> bool) (prev : option ascii) (s : string) (k : continuation) : option string :=
  match k prev s with
  | Some r => Some r
  | None =>
      match s with
      | EmptyString => None
      | String a rest => if c a then reluctant c (Some a) rest k else None
      end
  end.

Fixpoint attempt (p : pattern) (prev : option ascii) (s : string) (k : continuation) : option string :=
  match p with
  | PEmpty => k prev s
  | PClass c => match s with String a rest => if c a then k (Some a) rest else None | EmptyString => None end
  | PBoundary => if xorb (is_word prev) (is_word (head_byte s)) then k prev s else None
  | PSeq p q => attempt p prev s (fun prev s => attempt q prev s k)
  | POr p q => match attempt p prev s k with Some r => Some r | None => attempt q prev s k end
  | PGreedy c => greedy c prev s k
  | PLazy c => reluctant c prev s k
  end.

Definition finish : continuation := fun _ rest => Some rest.

(** The length of the match at the beginning of [s]. *)
Definition match_length (p : pattern) (prev : option ascii) (s : string) : option nat :=
  match attempt p prev s finish with
  | Some rest => Some (String.length s - String.length rest)%nat
  | None => None
  end.

(** [ReplaceAllStringFunc] for a pattern without empty matches; the next [skip]
    bytes belong to a match that was replaced. *)
Fixpoint replace_from (p : pattern) (f : string -> string) (skip : nat) (prev : option ascii) (s : string) : string :=
  match s with
  | EmptyString => ""
  | String a rest =>
      match skip with
      | S skip => replace_from p f skip (Some a) rest
      | O =>
          match match_length p prev s with
          | Some n => f (String.substring 0 n s) +:+ replace_from p f (pred n) (Some a) rest
          | None => String a (replace_from p f 0 (Some a) rest)
          end
      end
  end.
Definition ReplaceAllStringFunc (p : pattern) (f : string -> string) (s : string) : string := replace_from p f 0 None s.
Definition ReplaceAllString (p : pattern) (replacement : string) (s : string) : string := ReplaceAllStringFunc p (fun _ => replacement) s.

(** *** Notation of the patterns *)

Definition seq (l : list pattern) : pattern := foldr PSeq PEmpty l.
Fixpoint lit (s : string) : pattern := match s with EmptyString => PEmpty | String a s => PSeq (PClass (Ascii.eqb a)) (lit s) end.
Fixpoint times (n : nat) (c : ascii -> bool) : pattern := match n with O => PEmpty | S n => PSeq (PClass c) (times n c) end.
(** [c{n,}]. *)
Definition at_least (n : nat) (c : ascii -> bool) : pattern := PSeq (times n c) (PGreedy c).
Definition maybe (p : pattern) : pattern := POr p PEmpty.

(** A letter under [(?i)]. *)
Definition letter (a : ascii) : pattern :=
  if Ascii.eqb a "k" then POr (PClass (fold_char a)) (lit (String (ascii_of_nat 226) (String (ascii_of_nat 132) (String (ascii_of_nat 170) ""))))
  else if Ascii.eqb a "s" then POr (PClass (fold_char a)) (lit (String (ascii_of_nat 197) (String (ascii_of_nat 191) "")))
  else PClass (fold_char a).
Fixpoint letters (s : string) : pattern := match s with EmptyString => PEmpty | String a s => PSeq (letter a) (letters s) end.

(** [\s], [\S] and [.] under [(?s)]. *)
Definition white (a : ascii) : bool := let b := byte_of a in (b =? 9) || (b =? 10) || (b =? 12) || (b =? 13) || (b =? 32).
Definition black (a : ascii) : bool := negb (white a).
Definition any (a : ascii) : bool := true.

Definition header_char (a : ascii) : bool := upper a || digit a || Ascii.eqb a " ".
Definition base64url_char (a : ascii) : bool := alnum a || Ascii.eqb a "_" || Ascii.eqb a "-".

(** ** The patterns of the log *)

Definition pemLogPattern : pattern :=
  seq [lit "-----BEGIN "; at_least 1 header_char; lit "-----"; PLazy any; lit "-----END "; at_least 1 header_char; lit "-----"].
Definition jwtLogPattern : pattern :=
  seq [PBoundary; lit "eyJ"; at_least 10 base64url_char; lit "."; at_least 10 base64url_char; lit "."; at_least 10 base64url_char; PBoundary].
Definition githubTokenLogPattern : pattern :=
  seq [PBoundary; POr (seq [lit "gh"; PClass (one_of ["p"; "o"; "u"; "s"; "r"]%char); lit "_"]) (lit "github_pat_"); at_least 20 word_char; PBoundary].
Definition assignment : list pattern := [PGreedy white; PClass (one_of [":"; "="]%char); PGreedy white].
Definition authorizationLogPattern : pattern :=
  seq (letters "authorization" :: assignment ++ [maybe (seq [letters "bearer"; at_least 1 white]); at_least 1 black]).
Definition sensitiveLogPattern : pattern :=
  seq (POr (letters "token") (POr (letters "secret")
             (POr (seq [letters "private"; maybe (PClass (one_of ["_"; " "; "-"]%char)); letters "key"]) (seq [letters "jit"; maybe (letters "config")])))
       :: assignment ++ [at_least 1 black]).

(** The text before the first [sep]; the whole text when there is none. *)
Fixpoint before (sep : ascii) (s : string) : string :=
  match s with
  | EmptyString => ""
  | String a rest => if Ascii.eqb a sep then "" else String a (before sep rest)
  end.

(** The replacement of a match of [sensitiveLogPattern]. *)
Definition redact_sensitive (matched : string) : string :=
  let key := before "=" matched in
  let key := if String.eqb key matched then before ":" matched else key in
  TrimSpace key +:+ "=[REDACTED]".

Definition redactLogValue (value : string) : string :=
  let redacted := ReplaceAllString pemLogPattern "[REDACTED PEM]" value in
  let redacted := ReplaceAllString jwtLogPattern "[REDACTED JWT]" redacted in
  let redacted := ReplaceAllString githubTokenLogPattern "[REDACTED GITHUB TOKEN]" redacted in
  let redacted := ReplaceAllString authorizationLogPattern "authorization=[REDACTED]" redacted in
  ReplaceAllStringFunc sensitiveLogPattern redact_sensitive redacted.


(** ** Matches and replacements *)

Lemma greedy_inv c k prev s r :
  greedy c prev s k = Some r -> exists m prev' s', s = m +:+ s' /\ string_forall c m = true /\ k prev' s' = Some r.
Proof.
  revert prev. induction s as [|a s IH]; intros prev; cbn [greedy]; [by exists "", prev, ""|].
  destruct (c a) eqn:Hc; [|by exists "", prev, (String a s)].
  destruct (greedy c (Some a) s k) as [r'|] eqn:Hg; [|by exists "", prev, (String a s)]. intros [= ->].
  destruct (IH _ Hg) as (m & p & s' & -> & Hm & Hk). exists (String a m), p, s'. rewrite string_app_cons. split; [done|].
  split; [|done]. cbn [string_forall]. by rewrite Hc.
Qed.

(** With nothing to follow, a repetition takes all it can. *)
Lemma greedy_all c prev s r : greedy c prev s finish = Some r -> exists m, s = m +:+ r /\ match r with String a _ => c a = false | EmptyString => True end.
Proof.
  revert prev. induction s as [|a s IH]; intros prev; cbn [greedy]; [intros [= <-]; by exists ""|].
  destruct (c a) eqn:Hc; [|intros [= <-]; by exists ""].
  destruct (greedy c (Some a) s finish) as [r'|] eqn:Hg.
  - intros [= ->]. destruct (IH _ Hg) as (m & -> & Hr). by exists (String a m).
  - exfalso. clear IH. revert Hg. generalize (Some a). destruct s as [|b s]; intros p; cbn [greedy]; [done|].
    destruct (c b); [|done]. by destruct (greedy c (Some b) s finish).
Qed.

Fixpoint last_byte (prev : option ascii) (s : string) : option ascii :=
  match s with EmptyString => prev | String a s => last_byte (Some a) s end.

Lemma substring_prefix m r : String.substring 0 (String.length m) (m +:+ r) = m.
Proof. induction m as [|a m IH]; [by destruct r|]. rewrite string_app_cons. cbn [String.length String.substring]. by rewrite IH. Qed.

Lemma replace_skip p f m prev s : replace_from p f (String.length m) prev (m +:+ s) = replace_from p f 0 (last_byte prev m) s.
Proof. revert prev. induction m as [|a m IH]; intros prev; [done|]. rewrite string_app_cons. cbn [String.length replace_from last_byte]. apply IH. Qed.

(** A match is replaced and the search goes on after it. *)
Lemma replace_matched p f prev a m r :
  attempt p prev (String a (m +:+ r)) finish = Some r ->
  replace_from p f 0 prev (String a (m +:+ r)) = f (String a m) +:+ replace_from p f 0 (last_byte (Some a) m) r.
Proof.
  intros Ha. cbn [replace_from]. unfold match_length. rewrite Ha.
  replace (String.length (String a (m +:+ r)) - String.length r)%nat with (String.length (String a m))
    by (cbn [String.length]; rewrite string_app_length; lia).
  rewrite <- string_app_cons, substring_prefix. cbn [String.length pred]. by rewrite replace_skip.
Qed.

Lemma replace_unmatched p f prev a s :
  attempt p prev (String a s) finish = None -> replace_from p f 0 prev (String a s) = String a (replace_from p f 0 (Some a) s).
Proof. intros Ha. cbn [replace_from]. unfold match_length. by rewrite Ha. Qed.

(** ** Words *)

(** The runs of word characters of [w ++ s], where [w] is such a run. *)
Fixpoint words_from (w s : string) : list string :=
  match s with
  | EmptyString => [w]
  | String a s => if word_char a then words_from (w +:+ String a "") s else w :: words_from "" s
  end.
Definition words (s : string) : list string := words_from "" s.

(** A GitHub token: one of the prefixes and twenty characters. *)
Definition token_prefixes : list string := ["ghp_"; "gho_"; "ghu_"; "ghs_"; "ghr_"; "github_pat_"].
Definition token_start (s : string) : option string := List.find (HasPrefix s) token_prefixes.
Definition github_token (w : string) : bool :=
  match token_start w with Some p => (String.length p + 20 <=? String.length w)%nat | None => false end.

Abbreviation harmless := (Forall (fun w => github_token w = false)).

Definition starts_plain (s : string) : Prop := is_word (head_byte s) = false.

(** A text that starts with no word character splits the words. *)
Lemma harmless_app w u v : starts_plain v -> harmless (words_from w (u +:+ v)) <-> harmless (words_from w u) /\ harmless (words_from "" v).
Proof.
  intros Hv. revert w. induction u as [|a u IH]; intros w.
  - destruct v as [|a v]; [split; [|tauto]; intros Hw; by split; [|apply Forall_singleton]|].
    change ("" +:+ String a v) with (String a v). cbn [words_from]. unfold starts_plain in Hv. cbn in Hv. rewrite Hv.
    rewrite !Forall_cons, Forall_nil. by split; [intros [? ?]|intros [[? _] [_ ?]]].
  - rewrite string_app_cons. cbn [words_from]. destruct (word_char a); [by apply IH|]. rewrite !Forall_cons, IH. tauto.
Qed.

(** A run of word characters before a text that starts with none. *)
Lemma words_from_run w u v : string_forall word_char u = true -> words_from w (u +:+ v) = words_from (w +:+ u) v.
Proof.
  revert w. induction u as [|a u IH]; intros w; [by rewrite string_app_nil_r|].
  rewrite string_app_cons. cbn [string_forall words_from]. intros [-> Hu]%andb_true_iff. rewrite IH by done. by rewrite string_app_assoc.
Qed.

(** ** Tokens *)

Fixpoint first_word (s : string) : string :=
  match s with String a s => if word_char a then String a (first_word s) else "" | EmptyString => "" end.
Fixpoint after_word (s : string) : string :=
  match s with String a rest => if word_char a then after_word rest else s | EmptyString => "" end.

Lemma word_split s : s = first_word s +:+ after_word s.
Proof. induction s as [|a s IH]; [done|]. cbn [first_word after_word]. destruct (word_char a); [|done]. rewrite string_app_cons. by rewrite <- IH. Qed.
Lemma first_word_word s : string_forall word_char (first_word s) = true.
Proof. induction s as [|a s IH]; [done|]. cbn [first_word]. destruct (word_char a) eqn:Ha; [|done]. cbn [string_forall]. by rewrite Ha. Qed.
Lemma after_word_plain s : starts_plain (after_word s).
Proof. induction s as [|a s IH]; [done|]. cbn [after_word]. destruct (word_char a) eqn:Ha; [done|]. unfold starts_plain. by cbn. Qed.

Lemma after_word_split s : after_word (first_word s +:+ after_word s) = after_word s.
Proof. by rewrite <- word_split. Qed.

(** At least [n] word characters up to a boundary: the whole of the word. *)
Lemma attempt_run n prev s :
  is_word prev = true \/ (0 < n)%nat ->
  attempt (PSeq (at_least n word_char) (PSeq PBoundary PEmpty)) prev s finish
  = if (n <=? String.length (first_word s))%nat then Some (after_word s) else None.
Proof.
  cbn [attempt at_least]. revert prev s. induction n as [|n IH]; intros prev s Hn; cbn [times attempt].
  - assert (Hp : is_word prev = true) by (destruct Hn; [done|lia]). clear Hn. cbn [Nat.leb].
    revert prev Hp. induction s as [|a s IH]; intros prev Hp; cbn [greedy first_word after_word head_byte is_word]; rewrite ?Hp; [done|].
    destruct (word_char a) eqn:Ha; [|done]. by rewrite IH by done.
  - destruct s as [|a s]; [done|]. cbn [first_word after_word]. destruct (word_char a) eqn:Ha; [|done].
    rewrite IH by (by left). cbn [String.length]. by destruct (Nat.leb_spec n (String.length (first_word s))), (Nat.leb_spec (S n) (S (String.length (first_word s)))); try lia.
Qed.

Lemma attempt_lit p prev s k : attempt (lit p) prev s k = if HasPrefix s p then k (last_byte prev p) (drop_bytes (String.length p) s) else None.
Proof.
  revert prev s. induction p as [|a p IH]; intros prev s; [by destruct s|]. destruct s as [|b s]; [done|].
  cbn [lit attempt HasPrefix last_byte String.length drop_bytes]. destruct (Ascii.eqb_spec a b) as [->|]; [|done]. apply IH.
Qed.

(** The part of a word after a prefix with an underscore at its end. *)
Lemma word_after_prefix s p :
  string_forall word_char p = true -> HasPrefix s p = true ->
  after_word (drop_bytes (String.length p) s) = after_word s /\ HasPrefix (first_word s) p = true
  /\ String.length (first_word s) = (String.length p + String.length (first_word (drop_bytes (String.length p) s)))%nat.
Proof.
  intros Hw (t & ->)%HasPrefix_spec. revert Hw. induction p as [|a p IH]; [intros _; split_and!; [by destruct t|by destruct (first_word _)|by destruct t]|].
  cbn [string_forall]. intros [Ha Hp]%andb_true_iff. rewrite string_app_cons. cbn [first_word after_word]. rewrite Ha.
  cbn [String.length drop_bytes HasPrefix]. rewrite Ascii.eqb_refl. destruct (IH Hp) as (-> & -> & ->). split_and!; try done.
Qed.
Lemma prefix_of_word s p : string_forall word_char p = true -> HasPrefix s p = HasPrefix (first_word s) p.
Proof.
  intros Hp. apply eq_bool_prop_intro. split; intros Hpre%Is_true_true; apply Is_true_true.
  - by apply word_after_prefix.
  - apply HasPrefix_spec in Hpre as (t & Ht). apply HasPrefix_spec. exists (t +:+ after_word s).
    rewrite (word_split s) at 1. by rewrite Ht, string_app_assoc.
Qed.

Lemma attempt_prefix prev s k :
  attempt (POr (seq [lit "gh"; PClass (one_of ["p"; "o"; "u"; "s"; "r"]%char); lit "_"]) (lit "github_pat_")) prev s k
  = match token_start s with Some p => k (Some "_"%char) (drop_bytes (String.length p) s) | None => None end.
Proof.
  cbn [attempt seq foldr]. rewrite !attempt_lit. cbn [last_byte]. unfold token_start, token_prefixes. cbn [List.find].
  destruct s as [|a s]; [done|]. cbn [HasPrefix]. destruct (Ascii.eqb "g" a); [|done]. cbn [andb].
  destruct s as [|b s]; [done|]. cbn [HasPrefix]. destruct (Ascii.eqb_spec "h" b) as [<-|].
  - cbn [andb HasPrefix String.length drop_bytes Ascii.eqb]. destruct s as [|c s]; [done|]. cbn [attempt HasPrefix one_of existsb].
    rewrite !(Ascii.eqb_sym c). cbn [Ascii.eqb Bool.eqb]. 
    assert (Hsplit : forall c, Ascii.eqb "p" c || (Ascii.eqb "o" c || (Ascii.eqb "u" c || (Ascii.eqb "s" c || (Ascii.eqb "r" c || false)))) = true ->
      "p"%char = c \/ "o"%char = c \/ "u"%char = c \/ "s"%char = c \/ "r"%char = c).
    { intros x. rewrite !orb_true_iff, !Ascii.eqb_eq. naive_solver. }
    destruct (_ || _) eqn:Hc.
    + apply Hsplit in Hc. rewrite attempt_lit. destruct s as [|d s]; [by destruct Hc as [<-|[<-|[<-|[<-|<-]]]]|].
      destruct (Ascii.eqb "_" d) eqn:Hd.
      * apply Ascii.eqb_eq in Hd as <-. destruct Hc as [<-|[<-|[<-|[<-|<-]]]], s; cbn; by destruct (k _ _).
      * cbn [HasPrefix]. by rewrite Hd, !andb_false_r.
    + rewrite !orb_false_iff in Hc. destruct Hc as (-> & -> & -> & -> & -> & _). done.
  - cbn [andb]. by destruct (_ && _).
Qed.

Lemma find_eq {A} (f g : A -> bool) l : Forall (fun x => f x = g x) l -> List.find f l = List.find g l.
Proof. induction 1 as [|x l Hx _ IH]; [done|]. cbn [List.find]. by rewrite Hx, IH. Qed.

Lemma token_start_word s : token_start s = token_start (first_word s).
Proof. apply find_eq. repeat (constructor; [by apply prefix_of_word|]). constructor. Qed.

(** At the start of a word the pattern matches exactly the tokens. *)
Lemma attempt_token prev s :
  is_word prev = false -> is_word (head_byte s) = true ->
  attempt githubTokenLogPattern prev s finish = if github_token (first_word s) then Some (after_word s) else None.
Proof.
  intros Hp Hs. unfold githubTokenLogPattern.
  change (attempt _ prev s finish) with (if xorb (is_word prev) (is_word (head_byte s)) then
    attempt (POr (seq [lit "gh"; PClass (one_of ["p"; "o"; "u"; "s"; "r"]%char); lit "_"]) (lit "github_pat_")) prev s
      (fun prev s => attempt (PSeq (at_least 20 word_char) (PSeq PBoundary PEmpty)) prev s finish) else None).
  rewrite Hp, Hs, attempt_prefix. cbn [xorb]. unfold github_token. rewrite <- token_start_word.
  destruct (token_start s) as [p|] eqn:Ht; [|done]. rewrite attempt_run by (by left).
  apply List.find_some in Ht as [Hin Hpre].
  assert (Hw : string_forall word_char p = true).
  { assert (Hall : Forall (fun p => string_forall word_char p = true) token_prefixes) by (by repeat constructor).
    by apply (proj1 (List.Forall_forall _ _) Hall). }
  destruct (word_after_prefix s p Hw Hpre) as (-> & _ & ->).
  by destruct (Nat.leb_spec 20 (String.length (first_word (drop_bytes (String.length p) s)))),
    (Nat.leb_spec (String.length p + 20) (String.length p + String.length (first_word (drop_bytes (String.length p) s)))); try lia.
Qed.

Lemma no_token_inside prev s :
  is_word prev = is_word (head_byte s) \/ starts_plain s -> attempt githubTokenLogPattern prev s finish = None.
Proof.
  intros Hs. unfold githubTokenLogPattern. cbn [seq foldr attempt]. destruct (xorb _ _) eqn:Hx; [|done].
  destruct s as [|a s]; [done|]. destruct Hs as [Hs|Hs]; [by rewrite Hs, xorb_nilpotent in Hx|].
  assert (Ha : Ascii.eqb "g" a = false) by (apply Ascii.eqb_neq; intros <-; done). cbn [lit attempt]. by rewrite Ha.
Qed.

Lemma words_token_mark w s : words_from w ("[REDACTED GITHUB TOKEN]" +:+ s) = w :: "REDACTED" :: "GITHUB" :: "TOKEN" :: words_from "" s.
Proof. reflexivity. Qed.

Lemma replaced_tokens_gone s : forall w prev,
  (w = "" -> is_word prev = false \/ starts_plain s) -> (w <> "" -> is_word prev = true /\ github_token (w +:+ first_word s) = false) ->
  harmless (words_from w (replace_from githubTokenLogPattern (fun _ => "[REDACTED GITHUB TOKEN]") 0 prev s)).
Proof.
  induction s as [s IH] using (well_founded_induction (Wf_nat.well_founded_ltof _ String.length)). intros w prev Hempty Hopen.
  destruct s as [|a s].
  { constructor; [|done]. destruct w as [|b w]; [done|]. destruct Hopen as [_ Ht]; [done|]. by rewrite string_app_nil_r in Ht. }
  destruct (word_char a) eqn:Ha.
  - destruct (decide (w = "")) as [->|Hw].
    + assert (Hp : is_word prev = false) by (destruct (Hempty eq_refl) as [?|Hs]; [done|]; unfold starts_plain in Hs; cbn in Hs; congruence).
      pose proof (attempt_token prev (String a s) Hp Ha) as Hat. destruct (github_token _) eqn:Ht.
      * cbn [after_word] in Hat. rewrite Ha, (word_split s) in Hat. rewrite after_word_split in Hat.
        rewrite (word_split s), replace_matched by exact Hat. rewrite words_token_mark. do 4 (apply Forall_cons; split; [done|]). apply IH; [|by right; apply after_word_plain|done].
        unfold Wf_nat.ltof. rewrite (word_split s) at 2. cbn [String.length]. rewrite string_app_length. lia.
      * rewrite replace_unmatched by done. cbn [words_from]. rewrite Ha. apply IH; [unfold Wf_nat.ltof; cbn; lia|done|].
        intros _. split; [done|]. cbn [first_word] in Ht. by rewrite Ha in Ht.
    + destruct (Hopen Hw) as [Hp Ht]. rewrite replace_unmatched by (apply no_token_inside; left; by rewrite Hp).
      cbn [words_from]. rewrite Ha. apply IH; [unfold Wf_nat.ltof; cbn; lia| |].
      * intros Hn. by destruct w.
      * intros _. split; [done|]. cbn [first_word] in Ht. rewrite Ha in Ht. by rewrite string_app_assoc.
  - rewrite replace_unmatched by (apply no_token_inside; by right). cbn [words_from]. rewrite Ha. constructor.
    + destruct w as [|b w]; [done|]. destruct Hopen as [_ Ht]; [done|]. cbn [first_word] in Ht. by rewrite Ha, string_app_nil_r in Ht.
    + apply IH; [unfold Wf_nat.ltof; cbn; lia|by left|done].
Qed.

(** ** Values after a name *)

Lemma attempt_inv p k : forall prev s r, attempt p prev s k = Some r -> exists m prev' s', s = m +:+ s' /\ k prev' s' = Some r.
Proof.
  revert k. induction p as [|c| |p IHp q IHq|p IHp q IHq|c|c]; intros k prev s r; cbn [attempt].
  - by exists "", prev, s.
  - destruct s as [|a s]; [done|]. destruct (c a); [|done]. by exists (String a ""), (Some a), s.
  - destruct (xorb _ _); [|done]. by exists "", prev, s.
  - intros (m & prev' & s' & -> & (m' & prev'' & s'' & -> & Hk)%IHq)%IHp. exists (m +:+ m'), prev'', s''. by rewrite string_app_assoc.
  - destruct (attempt p prev s k) eqn:Hp; [|by apply IHq]. intros [= ->]. by apply IHp in Hp.
  - intros (m & prev' & s' & -> & _ & Hk)%greedy_inv. by exists m, prev', s'.
  - revert prev. induction s as [|a s IH]; intros prev; cbn [reluctant]; destruct (k prev _) eqn:Hk; try done.
    + intros [= ->]. by exists "", prev, "".
    + intros [= ->]. by exists "", prev, (String a s).
    + destruct (c a); [|done]. intros (m & prev' & s' & -> & Hk')%IH. by exists (String a m), prev', s'.
Qed.

Lemma word_range a : word_char a = true -> 48 <= byte_of a <= 122.
Proof.
  unfold word_char, alnum, upper, lower, digit, byte_range. destruct (Ascii.eqb_spec a "_") as [->|]; [by vm_compute|].
  change (byte_of "A") with 65. change (byte_of "Z") with 90. change (byte_of "a") with 97. change (byte_of "z") with 122.
  change (byte_of "0") with 48. change (byte_of "9") with 57. rewrite orb_false_r. lia.
Qed.

Lemma outside_plain a : byte_of a < 48 \/ 122 < byte_of a -> word_char a = false.
Proof. intros Ha. apply not_true_iff_false. intros ?%word_range. lia. Qed.

Lemma white_plain b : white b = true -> word_char b = false.
Proof. unfold white. intros Hb. apply outside_plain. lia. Qed.

Lemma black_tail prev s r :
  attempt (seq [at_least 1 black]) prev s finish = Some r -> exists m, s = m +:+ r /\ starts_plain r.
Proof.
  cbn [seq foldr at_least times attempt]. destruct s as [|a s]; [done|]. destruct (black a); [|done].
  intros (m & -> & Hr)%greedy_all. exists (String a m). split; [done|]. destruct r as [|b r]; [done|].
  by apply white_plain, negb_false_iff.
Qed.

Definition separator (c : ascii) : Prop := c = ":"%char \/ c = "="%char.

(** The name of a value ends before a separator; the rest starts with a blank. *)
Lemma attempt_assignment l prev s r :
  (forall prev s, attempt (seq l) prev s finish = Some r -> exists m, s = m +:+ r /\ starts_plain r) ->
  attempt (seq (assignment ++ l)) prev s finish = Some r ->
  exists sp c m, s = sp +:+ String c m +:+ r /\ string_forall white sp = true /\ separator c /\ starts_plain r.
Proof.
  intros Htail. change (attempt _ prev s finish) with
    (greedy white prev s (fun _ s => match s with
       | String a rest => if one_of [":"; "="]%char a then greedy white (Some a) rest (fun prev s => attempt (seq l) prev s finish) else None
       | EmptyString => None end)).
  intros (sp & _ & s' & -> & Hsp & Hs')%greedy_inv. destruct s' as [|c s']; [done|].
  destruct (one_of _ c) eqn:Hc; [|done]. apply greedy_inv in Hs' as (sp2 & prev' & s2 & -> & _ & Hr).
  destruct (Htail _ _ Hr) as (m & -> & Hplain). exists sp, c, (sp2 +:+ m). split_and!; try done.
  - by rewrite !string_app_cons, !string_app_assoc.
  - unfold one_of in Hc. cbn [existsb] in Hc. rewrite !orb_true_iff, !Ascii.eqb_eq in Hc. destruct Hc as [->|[->|?]]; [by left|by right|done].
Qed.

(** *** Letters *)

Definition is_letter (a : ascii) : bool := upper a || lower a.

Lemma fold_char_letter c a : lower c = true -> fold_char c a = true -> is_letter a = true.
Proof.
  unfold fold_char, ascii_lower, is_letter. intros Hc. destruct (upper a) eqn:Ha; [done|]. intros Heq%Ascii.eqb_eq. rewrite Heq.
  destruct (upper c) eqn:Hu; [|done]. exfalso. revert Hc Hu. unfold upper, lower, byte_range.
  change (byte_of "A") with 65. change (byte_of "Z") with 90. change (byte_of "a") with 97. change (byte_of "z") with 122. lia.
Qed.

Lemma letter_word a : is_letter a = true -> word_char a = true.
Proof. unfold is_letter, word_char, alnum. by destruct (upper a), (lower a). Qed.

(** A name all of whose letters fold within ASCII. *)
Definition ascii_folding (a : ascii) : bool := lower a && negb (Ascii.eqb a "k") && negb (Ascii.eqb a "s").

Lemma attempt_letters p k : string_forall ascii_folding p = true -> forall prev s r,
  attempt (letters p) prev s k = Some r ->
  exists m prev' s', s = m +:+ s' /\ string_forall is_letter m = true /\ String.length m = String.length p /\ k prev' s' = Some r.
Proof.
  induction p as [|c p IH]; cbn [string_forall letters attempt]; [intros _ prev s r Hk; by exists "", prev, s|].
  intros [[[Hc Hk]%andb_true_iff Hs]%andb_true_iff Hp]%andb_true_iff prev s r. unfold letter.
  apply negb_true_iff in Hk, Hs. rewrite Hk, Hs. cbn [attempt]. destruct s as [|a s]; [done|].
  destruct (fold_char c a) eqn:Hf; [|done]. intros (m & prev' & s' & -> & Hm & Hl & Hr)%(IH Hp).
  exists (String a m), prev', s'. split_and!; try done; cbn [string_forall String.length]; [|lia].
  by rewrite Hm, (fold_char_letter c).
Qed.

(** A prefix with an underscore at its end is not completed by letters. *)
Lemma prefix_before_letters w m p :
  string_forall is_letter m = true -> HasPrefix (w +:+ m) (p +:+ "_") = HasPrefix w (p +:+ "_").
Proof.
  intros Hm. revert w. induction p as [|a p IH]; intros [|b w].
  - change ("" +:+ m) with m. destruct (HasPrefix m _) eqn:Hp; [|done]. apply HasPrefix_spec in Hp as (t & ->). done.
  - rewrite string_app_cons. change ("" +:+ "_") with "_". cbn [HasPrefix]. by destruct w, m.
  - change ("" +:+ m) with m. destruct (HasPrefix m _) eqn:Hp; [|done]. apply HasPrefix_spec in Hp as (t & ->).
    rewrite !string_forall_app in Hm. change (string_forall is_letter "_") with false in Hm. by rewrite andb_false_r in Hm.
  - rewrite !string_app_cons. cbn [HasPrefix]. by rewrite IH.
Qed.

Lemma token_of_letters w m m' :
  string_forall is_letter m = true -> string_forall is_letter m' = true -> String.length m = String.length m' ->
  github_token (w +:+ m) = github_token (w +:+ m').
Proof.
  intros Hm Hm' Hl. unfold github_token.
  assert (Hs : token_start (w +:+ m) = token_start (w +:+ m')).
  { apply find_eq. change token_prefixes with (map (fun p => p +:+ "_") ["ghp"; "gho"; "ghu"; "ghs"; "ghr"; "github_pat"]).
    apply List.Forall_map, List.Forall_forall. intros p _. by rewrite !prefix_before_letters. }
  rewrite Hs, !string_app_length, Hl. done.
Qed.

(** *** The header of a request *)

Lemma authorization_match prev s r :
  attempt authorizationLogPattern prev s finish = Some r ->
  exists name c m, s = name +:+ String c m +:+ r /\ string_forall is_letter name = true /\ String.length name = 13%nat
                   /\ word_char c = false /\ starts_plain r.
Proof.
  unfold authorizationLogPattern. intros H.
  change (attempt (letters "authorization") prev s (fun prev s =>
    attempt (seq (assignment ++ [maybe (seq [letters "bearer"; at_least 1 white]); at_least 1 black])) prev s finish) = Some r) in H.
  apply attempt_letters in H as (name & prev' & s' & -> & Hname & Hlen & H); [|done].
  apply attempt_assignment in H as (sp & c & m & -> & Hsp & Hc & Hr).
  - exists name. destruct sp as [|b sp].
    + exists c, m. split_and!; try done. by destruct Hc as [->| ->].
    + exists b, (sp +:+ String c m). cbn [string_forall] in Hsp. apply andb_true_iff in Hsp as [Hb _].
      split_and!; try done; [by rewrite !string_app_cons, !string_app_assoc|]. by apply white_plain.
  - clear. intros prev s H.
    change (attempt (maybe (seq [letters "bearer"; at_least 1 white])) prev s (fun prev s => attempt (seq [at_least 1 black]) prev s finish) = Some r) in H.
    apply attempt_inv in H as (m & prev' & s' & -> & H).
    destruct (black_tail _ _ _ H) as (m' & -> & Hr). exists (m +:+ m'). by rewrite string_app_assoc.
Qed.

Lemma words_redacted w s : words_from w ("=[REDACTED]" +:+ s) = w :: "" :: "REDACTED" :: words_from "" s.
Proof. reflexivity. Qed.

(** A replacement that ends the word it starts in adds no token. *)
Lemma replace_keeps_harmless p f :
  (forall prev a s r w, attempt p prev (String a s) finish = Some r -> harmless (words_from w (String a s)) ->
     exists m, s = m +:+ r /\ harmless (words_from "" r) /\ (forall t, harmless (words_from "" t) -> harmless (words_from w (f (String a m) +:+ t)))) ->
  forall s w prev, harmless (words_from w s) -> harmless (words_from w (replace_from p f 0 prev s)).
Proof.
  intros Hf. induction s as [s IH] using (well_founded_induction (Wf_nat.well_founded_ltof _ String.length)). intros w prev Hs.
  destruct s as [|a s]; [done|]. destruct (attempt p prev (String a s) finish) as [r|] eqn:Hat.
  - destruct (Hf _ _ _ _ _ Hat Hs) as (m & -> & Hr & Ht). rewrite replace_matched by exact Hat. apply Ht, IH; [|done].
    unfold Wf_nat.ltof. cbn [String.length]. rewrite string_app_length. lia.
  - rewrite replace_unmatched by done. cbn [words_from] in *. destruct (word_char a).
    + apply IH; [unfold Wf_nat.ltof; cbn; lia|done].
    + apply Forall_cons in Hs as [Hw Hs]. apply Forall_cons. split; [done|]. apply IH; [unfold Wf_nat.ltof; cbn; lia|done].
Qed.

Lemma authorization_keeps_harmless s : harmless (words s) -> harmless (words (ReplaceAllString authorizationLogPattern "authorization=[REDACTED]" s)).
Proof.
  apply replace_keeps_harmless. clear s. intros prev a s r w (name & c & m & Heq & Hname & Hlen & Hc & Hr)%authorization_match Hs.
  destruct name as [|a' name]; [done|]. rewrite string_app_cons, <- string_app_assoc in Heq. injection Heq as <- ->. exists (name +:+ String c m).
  rewrite string_app_assoc, <- string_app_cons, words_from_run in Hs by (eapply string_forall_impl; [apply letter_word|done]).
  rewrite string_app_cons in Hs. cbn [words_from] in Hs. rewrite Hc, Forall_cons, harmless_app in Hs by done. destruct Hs as (Hw & _ & Hrest).
  split_and!; try done. intros t Ht. change "authorization=[REDACTED]" with ("authorization" +:+ "=[REDACTED]").
  rewrite string_app_assoc, words_from_run, words_redacted by done. rewrite (token_of_letters w _ "authorization") in Hw by done.
  by do 3 (apply Forall_cons; split; [done|]).
Qed.

(** *** Named values *)

Lemma before_spec sep s : (before sep s = s /\ ~ exists u v, s = u +:+ String sep v) \/ exists t, s = before sep s +:+ String sep t.
Proof.
  induction s as [|a s IH]; cbn [before].
  - left. split; [done|]. intros ([|] & v & Hv); discriminate.
  - destruct (Ascii.eqb_spec a sep) as [->|Hne]; [right; by exists s|]. destruct IH as [[Heq Hno]|[t Ht]].
    + left. rewrite Heq. split; [done|]. intros ([|b u] & v & Hv); [by injection Hv|]. rewrite string_app_cons in Hv. injection Hv as -> ->.
      apply Hno. by exists u, v.
    + right. exists t. rewrite string_app_cons. by f_equal.
Qed.

(** What the replacement keeps ends before a separator. *)
Lemma sensitive_key m : (exists u c v, m = u +:+ String c v /\ separator c) ->
  exists key c t, m = key +:+ String c t /\ separator c /\ redact_sensitive m = TrimSpace key +:+ "=[REDACTED]".
Proof.
  intros (u & c & v & Hm & Hc). unfold redact_sensitive. destruct (before_spec "=" m) as [[Heq Hno]|[t Ht]].
  - rewrite Heq, String.eqb_refl. destruct (before_spec ":" m) as [[_ Hno']|[t Ht]].
    + exfalso. destruct Hc as [->| ->]; [apply Hno'|apply Hno]; by exists u, v.
    + exists (before ":" m), ":"%char, t. split_and!; try done. by left.
  - destruct (String.eqb_spec (before "=" m) m) as [He|_].
    + exfalso. assert (Hl : String.length m = String.length (before "=" m +:+ String "=" t)) by by rewrite <- Ht.
      rewrite He, string_app_length in Hl. cbn [String.length] in Hl. lia.
    + exists (before "=" m), "="%char, t. split_and!; try done. by right.
Qed.

Lemma blank_plain s : blank s = true -> starts_plain s.
Proof.
  destruct s as [|a s]; [done|]. cbn [blank]. unfold starts_plain, ascii_space, space2, space3. cbn [head_byte is_word].
  intros Hs. apply outside_plain. destruct (_ || _) eqn:Ha in Hs; [lia|]. destruct s as [|b s]; [done|].
  destruct (_ && _) eqn:Hb in Hs; [lia|]. destruct s as [|c s]; [done|]. apply andb_true_iff in Hs as [Hs _]. lia.
Qed.

Lemma trim_right_split s : exists t, s = trim_right_space s +:+ t /\ starts_plain t.
Proof.
  induction s as [|a s IH]; [by exists ""|]. cbn [trim_right_space]. destruct (blank (String a s)) eqn:Hb.
  - exists (String a s). split; [done|]. by apply blank_plain.
  - destruct IH as (t & Ht & Hp). exists t. rewrite string_app_cons. by rewrite <- Ht.
Qed.

(** The name of a value starts with a letter or the first byte of a long s. *)
Definition name_start (a : ascii) : bool := is_letter a || (byte_of a =? 197).

Lemma name_start_untrimmed a s : name_start a = true -> trim_left_space (String a s) = String a s.
Proof.
  intros Ha. assert (Hn : byte_of a <> 32 /\ ~ 9 <= byte_of a <= 13 /\ byte_of a <> 194 /\ byte_of a <> 225 /\ byte_of a <> 226 /\ byte_of a <> 227).
  { apply orb_true_iff in Ha as [Ha|Ha]; [apply letter_word, word_range in Ha|]; lia. }
  assert (H1 : ascii_space (byte_of a) = false) by (unfold ascii_space; lia).
  assert (H2 : forall b, space2 (byte_of a) b = false) by (intros b; unfold space2; lia).
  assert (H3 : forall b c, space3 (byte_of a) b c = false) by (intros b c; unfold space3; lia).
  cbn [trim_left_space]. rewrite H1. destruct s as [|b s]; [done|]. rewrite H2. destruct s as [|c s]; [done|]. by rewrite H3.
Qed.

Lemma attempt_or p q prev s k r :
  attempt (POr p q) prev s k = Some r -> attempt p prev s k = Some r \/ attempt q prev s k = Some r.
Proof. cbn [attempt]. destruct (attempt p prev s k); [by left|by right]. Qed.

Lemma attempt_letter_start c p prev s k r :
  lower c = true -> c <> "k"%char -> attempt (letters (String c p)) prev s k = Some r -> exists a t, s = String a t /\ name_start a = true.
Proof.
  intros Hc Hk Hat. change (attempt (letter c) prev s (fun prev s => attempt (letters p) prev s k) = Some r) in Hat.
  revert Hat. generalize (fun prev s => attempt (letters p) prev s k) as k'. intros k'. unfold letter.
  destruct (Ascii.eqb_spec c "k") as [|_]; [done|].
  assert (Hclass : attempt (PClass (fold_char c)) prev s k' = Some r -> exists a t, s = String a t /\ name_start a = true).
  { cbn [attempt]. destruct s as [|a s]; [done|]. destruct (fold_char c a) eqn:Hf; [|done]. intros _.
    exists a, s. split; [done|]. unfold name_start. by rewrite (fold_char_letter c). }
  destruct (Ascii.eqb c "s"); [|done]. intros [Hat|Hat]%attempt_or; [by apply Hclass|].
  destruct s as [|a s]; [done|]. exists a, s. split; [done|]. revert Hat. cbn [lit attempt].
  by destruct (Ascii.eqb_spec (ascii_of_nat 197) a) as [<-|].
Qed.

Lemma sensitive_match prev s r :
  attempt sensitiveLogPattern prev s finish = Some r ->
  exists a m, s = String a m +:+ r /\ name_start a = true /\ (exists u c v, String a m = u +:+ String c v /\ separator c) /\ starts_plain r.
Proof.
  unfold sensitiveLogPattern. set (k := fun prev s => attempt (seq (assignment ++ [at_least 1 black])) prev s finish).
  set (names := POr (letters "token") _). intros H. change (attempt names prev s k = Some r) in H.
  assert (Hstart : exists a t, s = String a t /\ name_start a = true).
  { clear -H. unfold names in H. apply attempt_or in H as [H|[H|[H|H]%attempt_or]%attempt_or].
    - refine (attempt_letter_start "t" "oken" _ _ _ _ _ _ H); done.
    - refine (attempt_letter_start "s" "ecret" _ _ _ _ _ _ H); done.
    - refine (attempt_letter_start "p" "rivate" _ _ _ _ _ _ H); done.
    - refine (attempt_letter_start "j" "it" _ _ _ _ _ _ H); done. }
  destruct Hstart as (a & t & -> & Ha). apply attempt_inv in H as (name & prev' & s' & Heq & H).
  apply attempt_assignment in H as (sp & c & m & -> & _ & Hc & Hr); [|intros ? ?; apply black_tail].
  assert (Hs : String a t = (name +:+ sp +:+ String c m) +:+ r) by (rewrite Heq; by rewrite !string_app_assoc).
  destruct (name +:+ sp +:+ String c m) as [|a' m'] eqn:Hm; [by destruct name, sp|].
  rewrite string_app_cons in Hs. injection Hs as <- ->. exists a, m'. split_and!; try done.
  exists (name +:+ sp), c, m. split; [|done]. by rewrite string_app_assoc.
Qed.

Lemma sensitive_keeps_harmless s : harmless (words s) -> harmless (words (ReplaceAllStringFunc sensitiveLogPattern redact_sensitive s)).
Proof.
  apply replace_keeps_harmless. clear s. intros prev a s r w (a' & m & Heq & Ha & Hsep & Hr)%sensitive_match Hs.
  rewrite string_app_cons in Heq. injection Heq as <- ->. exists m.
  destruct (sensitive_key _ Hsep) as (key & c & t & Hm & Hc & ->). rewrite <- string_app_cons in Hs. rewrite harmless_app in Hs by done.
  destruct Hs as [Hs Hrest]. split_and!; try done. intros u Hu. rewrite string_app_assoc, harmless_app by done.
  rewrite words_redacted. split; [|by do 3 (apply Forall_cons; split; [done|])].
  rewrite Hm in Hs. apply harmless_app in Hs as [Hs _]; [|by destruct Hc as [->| ->]].
  destruct key as [|b key]; [exfalso; injection Hm as -> _; by destruct Hc as [->| ->]|].
  rewrite string_app_cons in Hm. injection Hm as -> _. unfold TrimSpace. rewrite name_start_untrimmed by done.
  destruct (trim_right_split (String b key)) as (sp & Hsp & Hplain). rewrite Hsp in Hs. by apply harmless_app in Hs as [Hs _].
Qed.

(** C31: No GitHub token is left in the log.  Whatever the value of an event, none of
    the words of the redacted value is a token, that is one of the prefixes of
    GitHub's tokens and twenty more word characters; the replacements made after
    that of the tokens join no words into a new one. *)
Theorem redaction_leaves_no_token value : Forall (fun w => github_token w = false) (words (redactLogValue value)).
Proof.
  unfold redactLogValue. apply sensitive_keeps_harmless, authorization_keeps_harmless.
  apply replaced_tokens_gone; [by left|done].
Qed.

(** The value of a name is cut at the first equals sign: after a colon everything
    before the padding of a Base64 text stays, here a whole runner configuration. *)
Lemma padded_value_stays : redactLogValue "jitconfig: ZXhhbXBsZQ==" = "jitconfig: ZXhhbXBsZQ=[REDACTED]".
Proof. vm_compute. reflexivity. Qed.
