(* ===== verification/JsonLog.v ===== *)
(** The controller's structured log (internal/host/json_log.go): events encoded as
    JSON lines, written to files that are rotated by day and by size and removed by
    age and by total size, and the queue between the callers and the worker that
    writes.

    The formats of an instant are parameters; the directory and the clock are calls
    with arbitrary answers.  The record is encoded as [encoding/json] does it; the
    redaction of its values is in Redact.v. *)

From S2P Require Import Prelude Float64 GoStrings Regexp Model Config GoText Errors Effects Reconciler Control FileSystem Store Interaction Secret Redact.
From stdpp Require Import relations.
From Stdlib Require Import Ascii.
#[local] Open Scope Z_scope.
Open Scope i_scope.

Definition maximumStructuredLogEvent : Z := 2 ^ 20.
Definition structuredLogQueueCapacity : nat := 64.

(** The texts of an instant: its day, the stamp in a file's name and its JSON
    form. *)
Class LogText := {
  day_text : time -> string;
  stamp_text : time -> string;
  time_json : time -> result error string;
}.

(** ** JSON strings *)

Definition json_hex (n : Z) : ascii := pick "0123456789abcdef" n.

(** One ASCII byte, HTML characters escaped. *)
Definition json_byte (a : ascii) : string :=
  let b := byte_of a in
  if (b =? 34) || (b =? 92) then String "\" (String a "")
  else if b =? 8 then "\b" else if b =? 12 then "\f" else if b =? 10 then "\n" else if b =? 13 then "\r" else if b =? 9 then "\t"
  else if (b <? 32) || (b =? 60) || (b =? 62) || (b =? 38)
  then "\u00" +:+ String (json_hex (Z.shiftr b 4)) (String (json_hex (Z.land b 15)) "")
  else String a "".

(** The next [skip] bytes belong to the character before: they are kept, or were
    replaced by an escape. *)
Fixpoint json_body (skip : nat) (keep : bool) (s : string) : string :=
  match s with
  | EmptyString => ""
  | String a rest =>
      match skip with
      | S skip => if keep then String a (json_body skip keep rest) else json_body skip keep rest
      | O =>
          if byte_of a <? 128 then json_byte a +:+ json_body 0 true rest
          else
            let '(r, size) := decode_rune a rest in
            if (r =? RuneError) && (size =? 0)%nat then "\ufffd" +:+ json_body 0 true rest
            else if (r =? 8232) || (r =? 8233) then "\u202" +:+ String (json_hex (Z.land r 15)) (json_body size false rest)
            else String a (json_body size true rest)
      end
  end.

Definition json_string (s : string) : string := String quote_mark (json_body 0 true s +:+ String quote_mark "").

(** ** Records *)

Record LogRecord := mkLogRecord {
  lr_At : time;
  lr_Code : string;
  lr_Message : string;
  lr_Cause : string;
  lr_Source : string;
  lr_PoolID : string;
  lr_WorkerID : string;
}.

Definition json_field (name value : string) : string := json_string name +:+ ":" +:+ json_string value.
Definition json_omitempty (name value : string) : string := if String.eqb value "" then "" else "," +:+ json_field name value.

Definition truncateLogValue (value : string) (limit : Z) : string :=
  if Z.of_nat (String.length value) <=? limit then value else String.substring 0 (Z.to_nat limit) value +:+ " [TRUNCATED]".

Definition truncate_record (r : LogRecord) : LogRecord :=
  {| lr_At := lr_At r;
     lr_Code := truncateLogValue (lr_Code r) 256;
     lr_Message := truncateLogValue (lr_Message r) (maximumStructuredLogEvent / 4);
     lr_Cause := truncateLogValue (lr_Cause r) (maximumStructuredLogEvent / 4);
     lr_Source := truncateLogValue (lr_Source r) 256;
     lr_PoolID := truncateLogValue (lr_PoolID r) 256;
     lr_WorkerID := truncateLogValue (lr_WorkerID r) 256 |}.

(** ** The directory *)

Record LogEntry := mkLogEntry { ln_name : string; ln_regular : bool }.

Inductive jcall :=
  | LogMkdir (directory : string)
  | LogHarden (path : string)
  | LogNow
  | LogReadDir (directory : string)
  | LogInfo (name : string)
  | LogRemove (path : string)
  | LogOpen (path : string)
  | LogWrite (text : string)
  | LogSync
  | LogCloseFile.

Definition jresp (c : jcall) : Type :=
  match c with
  | LogNow => time
  | LogReadDir _ => result error (list LogEntry)
  | LogInfo _ => result error (time * Z)
  | LogWrite _ => Z * option error
  | _ => option error
  end.

Abbreviation jprog := (iprog jresp).
Definition jask (c : jcall) : jprog (jresp c) := icall c.

(** The open file, if any, and what is known about it. *)
Record JSONLogSink := mkJSONLogSink {
  js_file : bool;
  js_path : string;
  js_size : Z;
  js_day : string;
  js_lastCleanupAt : time;
}.

Record retainedLog := mkRetainedLog {
  rl_path : string;
  rl_modified : time;
  rl_size : Z;
}.

(** A failing operation keeps the sink as it left it. *)
Abbreviation jresult := (JSONLogSink * option error)%type.

Section Sink.
Context {LT : LogText} `{Platform, FilePath} (directory : string) (policy : LogClass) (cleanupEvery : duration).

Definition encode_record (r : LogRecord) : result error string :=
  match time_json (lr_At r) with
  | Err e => Err e
  | Ok at_ =>
      Ok ("{" +:+ json_string "at" +:+ ":" +:+ at_ +:+ "," +:+ json_field "code" (lr_Code r) +:+ "," +:+ json_field "message" (lr_Message r)
          +:+ json_omitempty "cause" (lr_Cause r) +:+ json_omitempty "source" (lr_Source r)
          +:+ json_omitempty "poolId" (lr_PoolID r) +:+ json_omitempty "workerId" (lr_WorkerID r) +:+ "}")
  end.

(** The line of an event. *)
Definition encode_event (now : time) (event : LogEvent) : result error string :=
  let r := mkLogRecord (if IsZero (le_At event) then now else le_At event) (redactLogValue (le_Code event)) (redactLogValue (le_Message event))
             (redactLogValue (le_Cause event)) (redactLogValue (le_Source event)) (redactLogValue (le_PoolID event)) (redactLogValue (le_WorkerID event)) in
  match encode_record r with
  | Err e => Err (ErrWrap "encode controller log event" e)
  | Ok encoded =>
      if maximumStructuredLogEvent <? Z.of_nat (String.length encoded) then
        match encode_record (truncate_record r) with
        | Err e => Err (ErrWrap "encode truncated controller log event" e)
        | Ok encoded =>
            if maximumStructuredLogEvent <? Z.of_nat (String.length encoded)
            then Err (ErrNew "controller log event remains over safety limit after truncation")
            else Ok (encoded +:+ newline_byte)
        end
      else Ok (encoded +:+ newline_byte)
  end.

(** *** Rotation *)

(** [%03d]. *)
Definition zero_pad3 (n : Z) : string :=
  let s := Itoa n in
  if n <? 10 then "00" +:+ s else if n <? 100 then "0" +:+ s else s.

Definition log_name (stamp : string) (suffix : nat) : string :=
  match suffix with
  | O => "controller-" +:+ stamp +:+ ".jsonl"
  | _ => "controller-" +:+ stamp +:+ "-" +:+ zero_pad3 (Z.of_nat suffix) +:+ ".jsonl"
  end.

(** Tries the names from [suffix] on, [count] of them. *)
Fixpoint open_unique (count suffix : nat) (stamp : string) : jprog (result error string) :=
  match count with
  | O => IRet (Err (ErrNew "could not allocate a unique controller log filename"))
  | S count =>
      let path := filepath_Join directory (log_name stamp suffix) in
      let^ opened := jask (LogOpen path) in
      match opened with
      | None => IRet (Ok path)
      | Some e =>
          if is_sentinel OsErrExist e then open_unique count (S suffix) stamp
          else IRet (Err (ErrWrap "create controller log" e))
      end
  end.

Definition rotate_open (s : JSONLogSink) (now : time) : jprog jresult :=
  let^ opened := open_unique 1000 0 (stamp_text now) in
  match opened with
  | Err e => IRet (s, Some e)
  | Ok path =>
      let^ hardened := jask (LogHarden path) in
      match hardened with
      | Some e =>
          let^ _ := jask LogCloseFile in
          let^ _ := jask (LogRemove path) in
          IRet (s, Some (ErrWrap "secure controller log" e))
      | None => IRet (mkJSONLogSink true path 0 (day_text now) (js_lastCleanupAt s), None)
      end
  end.

Definition rotateLocked (s : JSONLogSink) (now : time) : jprog jresult :=
  if js_file s then
    let^ closed := jask LogCloseFile in
    match closed with
    | Some e => IRet (s, Some (ErrWrap "close rotated controller log" e))
    | None => rotate_open {| s with js_file := false |} now
    end
  else rotate_open s now.

(** *** Cleanup *)

Definition controller_log (e : LogEntry) : bool :=
  ln_regular e && HasPrefix (ln_name e) "controller-" && HasSuffix (ln_name e) ".jsonl".

(** Removes the expired logs and collects the others. *)
Fixpoint expire (s : JSONLogSink) (cutoff : time) (entries : list LogEntry) (logs : list retainedLog) : jprog (result error (list retainedLog)) :=
  match entries with
  | [] => IRet (Ok logs)
  | e :: entries =>
      if negb (controller_log e) then expire s cutoff entries logs
      else
        let path := filepath_Join directory (ln_name e) in
        let^ info := jask (LogInfo (ln_name e)) in
        match info with
        | Err err => IRet (Err (ErrWrap ("inspect controller log " +:+ Quote (ln_name e)) err))
        | Ok (modified, size) =>
            if negb (String.eqb path (js_path s)) && Before modified cutoff then
              let^ removed := jask (LogRemove path) in
              match removed with
              | Some err => IRet (Err (ErrWrap ("remove expired controller log " +:+ Quote (ln_name e)) err))
              | None => expire s cutoff entries logs
              end
            else expire s cutoff entries (logs ++ [mkRetainedLog path modified (wrap_u64 size)])
        end
  end.

Definition older (a b : retainedLog) : bool :=
  if rl_modified a =? rl_modified b then String.ltb (rl_path a) (rl_path b) else rl_modified a <? rl_modified b.

(** Removes the oldest logs while the total is above the cap. *)
Fixpoint shrink (s : JSONLogSink) (total : Z) (logs : list retainedLog) : jprog (option error) :=
  match logs with
  | [] => IRet None
  | log :: logs =>
      if total <=? lc_TotalCap policy then IRet None
      else if String.eqb (rl_path log) (js_path s) then shrink s total logs
      else
        let^ removed := jask (LogRemove (rl_path log)) in
        match removed with
        | Some e => IRet (Some (ErrWrap "remove controller log over total cap" e))
        | None => shrink s (wrap_u64 (total - rl_size log)) logs
        end
  end.

Definition total_size (logs : list retainedLog) : Z := foldl (fun total log => wrap_u64 (total + rl_size log)) 0 logs.

Definition cleanupLocked (s : JSONLogSink) (now : time) : jprog jresult :=
  let^ listed := jask (LogReadDir directory) in
  match listed with
  | Err e => IRet (s, Some (ErrWrap "list controller logs" e))
  | Ok entries =>
      let^ collected := expire s (now - lc_Retention policy) entries [] in
      match collected with
      | Err e => IRet (s, Some e)
      | Ok logs =>
          let logs := sort_by older logs in
          let^ shrunk := shrink s (total_size logs) logs in
          match shrunk with
          | Some e => IRet (s, Some e)
          | None => IRet ({| s with js_lastCleanupAt := now |}, None)
          end
      end
  end.

(** *** Writing *)

(** Whether a line goes to a new file. *)
Definition needs_rotation (s : JSONLogSink) (now : time) (line : string) : bool :=
  negb (js_file s) || negb (String.eqb (js_day s) (day_text now))
  || ((0 <? js_size s) && (lc_MaxFileSize policy <? wrap_u64 (js_size s + Z.of_nat (String.length line)))).

Definition append_line (s : JSONLogSink) (now : time) (line : string) : jprog jresult :=
  let^ wrote := jask (LogWrite line) in
  match wrote with
  | (_, Some e) => IRet (s, Some (ErrWrap "write controller log" e))
  | (written, None) =>
      if negb (written =? Z.of_nat (String.length line)) then IRet (s, Some IoErrShortWrite)
      else
        let s := {| s with js_size := wrap_u64 (js_size s + written) |} in
        let^ synced := jask LogSync in
        match synced with
        | Some e => IRet (s, Some (ErrWrap "flush controller log" e))
        | None =>
            if IsZero (js_lastCleanupAt s) || (cleanupEvery <=? Sub now (js_lastCleanupAt s)) then cleanupLocked s now
            else IRet (s, None)
        end
  end.

Definition sink_write (s : JSONLogSink) (event : LogEvent) : jprog jresult :=
  let^ now := jask LogNow in
  match encode_event now event with
  | Err e => IRet (s, Some e)
  | Ok line =>
      if needs_rotation s now line then
        let^ rotated := rotateLocked s now in
        match rotated with
        | (s, Some e) => IRet (s, Some e)
        | (s, None) => append_line s now line
        end
      else append_line s now line
  end.

Definition closeFileLocked (s : JSONLogSink) : jprog jresult :=
  if js_file s then
    let^ err := jask LogCloseFile in
    IRet (mkJSONLogSink false "" 0 (js_day s) (js_lastCleanupAt s), err)
  else IRet (s, None).
End Sink.

(** [acl] says whether there is an access controller. *)
Definition NewJSONLogSink `{LogText, Platform, FilePath} (directory : string) (policy : LogClass) (cleanupEvery : duration) (acl : bool) : jprog (result error JSONLogSink) :=
  if String.eqb directory "" || negb (IsAbs directory) then IRet (Err (ErrNew "controller log directory must be absolute"))
  else if (lc_MaxFileSize policy =? 0) || (lc_Retention policy <=? 0) || (lc_TotalCap policy <? lc_MaxFileSize policy)
  then IRet (Err (ErrNew "controller log rotation, retention, and total cap must be positive and consistent"))
  else if negb acl then IRet (Err (ErrNew "controller log access controller is required"))
  else if cleanupEvery <=? 0 then IRet (Err (ErrNew "controller log cleanup interval must be positive"))
  else
    let^ made := jask (LogMkdir directory) in
    match made with
    | Some e => IRet (Err (ErrWrap "create controller log directory" e))
    | None =>
        let^ hardened := jask (LogHarden directory) in
        match hardened with
        | Some e => IRet (Err (ErrWrap "secure controller log directory" e))
        | None =>
            let^ now := jask LogNow in
            let^ cleaned := cleanupLocked (Clean directory) policy (mkJSONLogSink false "" 0 "" 0) now in
            match cleaned with
            | (_, Some e) => IRet (Err e)
            | (s, None) => IRet (Ok s)
            end
        end
    end.


(** ** The queue *)

(** The requests accepted so far, those still queued, the one the worker handles
    and those it has answered; whether the sink is closed and the worker gone. *)
Record Queue := mkQueue {
  qu_closed : bool;
  qu_accepted : list LogEvent;
  qu_queued : list LogEvent;
  qu_handling : option LogEvent;
  qu_answered : list LogEvent;
  qu_done : bool;
}.

Definition open_queue : Queue := mkQueue false [] [] None [] false.

(** The nonblocking send of [Write] under the read lock; a full queue refuses. *)
Definition try_send (q : Queue) (event : LogEvent) : option Queue :=
  if qu_closed q || (structuredLogQueueCapacity <=? length (qu_queued q))%nat then None
  else Some {| q with qu_accepted := qu_accepted q ++ [event]; qu_queued := qu_queued q ++ [event] |}.

(** The worker's loop over the channel: it takes a request when it has none, and
    leaves when the channel is closed and empty. *)
Definition worker_take (q : Queue) : option Queue :=
  match qu_handling q, qu_queued q with
  | None, event :: queued => Some {| q with qu_queued := queued; qu_handling := Some event |}
  | _, _ => None
  end.
Definition worker_answer (q : Queue) : option Queue :=
  match qu_handling q with
  | Some event => Some {| q with qu_handling := None; qu_answered := qu_answered q ++ [event] |}
  | None => None
  end.
Definition worker_leave (q : Queue) : option Queue :=
  match qu_handling q, qu_queued q with
  | None, [] => if qu_closed q && negb (qu_done q) then Some {| q with qu_done := true |} else None
  | _, _ => None
  end.
Definition close_queue (q : Queue) : Queue := {| q with qu_closed := true |}.

Inductive queue_step : Queue -> Queue -> Prop :=
  | queue_send q q' event : try_send q event = Some q' -> queue_step q q'
  | queue_take q q' : worker_take q = Some q' -> queue_step q q'
  | queue_answer q q' : worker_answer q = Some q' -> queue_step q q'
  | queue_leave q q' : worker_leave q = Some q' -> queue_step q q'
  | queue_close q : queue_step q (close_queue q).
