(* ===== verification/JsonLogFacts.v ===== *)
(** What the structured log guarantees: which files it removes, that it keeps its
    caps, how large its files grow, and that the queue delivers in order. *)

From S2P Require Import Prelude Float64 GoStrings Regexp Model Config GoText Errors Effects Reconciler Control FileSystem Store Interaction Secret Redact JsonLog.
From stdpp Require Import relations.
From Stdlib Require Import Ascii.
#[local] Open Scope Z_scope.
Open Scope i_scope.

Section Facts.
Context {LT : LogText} `{Platform, FilePath} (directory : string) (policy : LogClass) (cleanupEvery : duration).

(** ** Removals *)

(** A log of the directory other than the current one. *)
Definition disposable_log (s : JSONLogSink) (entries : list LogEntry) (path : string) : Prop :=
  path <> js_path s /\ exists e, e ∈ entries /\ controller_log e = true /\ path = filepath_Join directory (ln_name e).

Definition removes_only (P : string -> Prop) (e : event jresp) : Prop :=
  match e with existT (LogRemove path) _ => P path | _ => True end.

Lemma expire_emits s cutoff entries all logs :
  (forall e, e ∈ entries -> e ∈ all) ->
  emits (removes_only (disposable_log s all)) (expire directory s cutoff entries logs).
Proof.
  revert logs. induction entries as [|e entries IH]; intros logs Hall; [done|]. cbn [expire].
  destruct (controller_log e) eqn:He; cbn [negb]; [|by apply IH; set_solver].
  intros [[modified size]|err]; (split; [done|]); [|done]. cbn [ibind].
  destruct (negb _ && _) eqn:Hx; [|apply IH; set_solver].
  intros [err|]; (split; [|by cbn; first [done | apply IH; set_solver]]); apply andb_true_iff in Hx as [Hne _];
    (split; [by apply String.eqb_neq, negb_true_iff|]); exists e; split_and!; set_solver.
Qed.

(** The logs that are collected are disposable unless they are the current one. *)
Lemma expire_collects s cutoff entries all logs tr logs' :
  iruns (expire directory s cutoff entries logs) tr (Ok logs') ->
  (forall e, e ∈ entries -> e ∈ all) ->
  Forall (fun l => rl_path l = js_path s \/ disposable_log s all (rl_path l)) logs ->
  Forall (fun l => rl_path l = js_path s \/ disposable_log s all (rl_path l)) logs'.
Proof.
  revert logs tr. induction entries as [|e entries IH]; intros logs tr Hr Hall Hl; cbn [expire] in Hr.
  { by apply iruns_inv in Hr as [_ [= ->]]. }
  destruct (controller_log e) eqn:He; cbn [negb] in Hr; [|by eapply IH; [exact Hr|set_solver|]].
  apply iruns_inv in Hr as ([[modified size]|err] & t & -> & Hr); cbn [ibind] in Hr; [|by apply iruns_inv in Hr as [_ ?]].
  destruct (negb _ && _).
  - apply iruns_inv in Hr as ([err|] & t' & -> & Hr); cbn [ibind] in Hr; [by apply iruns_inv in Hr as [_ ?]|]. eapply IH; [exact Hr|set_solver|done].
  - eapply IH; [exact Hr|set_solver|]. apply Forall_app. split; [done|]. constructor; [|constructor]. cbn.
    destruct (decide (filepath_Join directory (ln_name e) = js_path s)) as [Heq|Hne]; [by left|right]. split; [done|]. exists e. set_solver.
Qed.

Lemma shrink_emits s all total logs :
  Forall (fun l => rl_path l = js_path s \/ disposable_log s all (rl_path l)) logs ->
  emits (removes_only (disposable_log s all)) (shrink policy s total logs).
Proof.
  revert total. induction logs as [|log logs IH]; intros total Hl; [done|]. apply Forall_cons in Hl as [Hlog Hl]. cbn [shrink].
  destruct (total <=? lc_TotalCap policy); [done|]. destruct (String.eqb_spec (rl_path log) (js_path s)) as [Heq|Hne]; [by apply IH|].
  destruct Hlog as [?|Hd]; [done|]. intros [e|]; (split; [exact Hd|]); [done|by apply IH].
Qed.

(** Only old logs go.  A cleanup removes nothing but regular files of the log
    directory that carry a controller log's name, and never the file that is being
    written. *)
Theorem cleanup_spares_current s now tr r path a :
  iruns (cleanupLocked directory policy s now) tr r -> ev (LogRemove path) a ∈ tr ->
  exists entries, ev (LogReadDir directory) (Ok entries) ∈ tr /\ disposable_log s entries path.
Proof.
  unfold cleanupLocked. intros Hr Hin. apply iruns_inv in Hr as (listed & t & -> & Hr). cbn [ibind] in Hr.
  assert (Hin' : ev (LogRemove path) a ∈ t).
  { apply elem_of_cons in Hin as [Hin|Hin]; [by apply (f_equal (@projT1 _ _)) in Hin|done]. }
  destruct listed as [entries|e]; [|apply iruns_inv in Hr as [-> _]; by apply elem_of_nil in Hin'].
  exists entries. split; [set_solver|]. apply iruns_bind_inv in Hr as (t1 & t2 & collected & H1 & H2 & ->).
  pose proof (emits_runs _ _ _ _ (expire_emits s (now - lc_Retention policy) entries entries [] ltac:(done)) H1) as Hfirst.
  assert (Hsecond : Forall (removes_only (disposable_log s entries)) t2).
  { destruct collected as [logs|e]; [|by apply iruns_inv in H2 as [-> _]].
    eapply emits_runs; [|exact H2]. apply emits_ibind.
    - apply shrink_emits. rewrite sort_by_perm. eapply expire_collects; [exact H1|done|constructor].
    - intros [e|]; done. }
  assert (Hall : Forall (removes_only (disposable_log s entries)) (t1 ++ t2)) by (by apply Forall_app).
  rewrite Forall_forall in Hall. exact (Hall _ Hin').
Qed.

(** ** The total cap *)

Definition sum_size (logs : list retainedLog) : Z := foldr (fun l n => rl_size l + n) 0 logs.
Definition not_current (s : JSONLogSink) (l : retainedLog) : bool := negb (String.eqb (rl_path l) (js_path s)).
Definition current (s : JSONLogSink) (l : retainedLog) : bool := String.eqb (rl_path l) (js_path s).
Definition removal (l : retainedLog) : event jresp := ev (LogRemove (rl_path l)) None.

Lemma sum_size_app l1 l2 : sum_size (l1 ++ l2) = sum_size l1 + sum_size l2.
Proof. induction l1 as [|l l1 IH]; cbn [sum_size foldr app] in *; [done|]. unfold sum_size in *. simpl. rewrite IH. lia. Qed.

Lemma sum_size_nonneg l : Forall (fun l => 0 <= rl_size l) l -> 0 <= sum_size l.
Proof. unfold sum_size. induction 1; simpl; lia. Qed.

Lemma sum_size_perm l1 l2 : l1 ≡ₚ l2 -> sum_size l1 = sum_size l2.
Proof. unfold sum_size. induction 1; simpl; lia. Qed.

Lemma total_size_sum logs : Forall (fun l => 0 <= rl_size l) logs -> sum_size logs <= max_u64 -> total_size logs = sum_size logs.
Proof.
  intros Hn. unfold total_size. cut (forall acc, 0 <= acc -> acc + sum_size logs <= max_u64 -> foldl (fun t l => wrap_u64 (t + rl_size l)) acc logs = acc + sum_size logs).
  { intros Hgen Hs. rewrite Hgen; lia. }
  induction Hn as [|l logs Hl Hn IH]; intros acc Ha Hs; unfold sum_size in *; simpl in *; [lia|].
  pose proof (sum_size_nonneg logs Hn) as Hr. unfold sum_size in Hr. rewrite wrap_u64_small by (unfold is_u64; lia). rewrite IH by lia. lia.
Qed.

(** The oldest logs but the current one go, until the rest fits or is empty. *)
Lemma shrink_ok s total logs tr :
  iruns (shrink policy s total logs) tr None -> Forall (fun l => 0 <= rl_size l) logs -> sum_size logs <= total <= max_u64 ->
  exists pre post, logs = pre ++ post /\ tr = map removal (List.filter (not_current s) pre) /\
    (total - sum_size (List.filter (not_current s) pre) <= lc_TotalCap policy \/ post = []).
Proof.
  revert total tr. induction logs as [|log logs IH]; intros total tr Hr Hn Ht; cbn [shrink] in Hr.
  { apply iruns_inv in Hr as [-> _]. exists [], []. split_and!; auto. }
  apply Forall_cons in Hn as [Hlog Hn]. pose proof (sum_size_nonneg _ Hn) as Hpos. unfold sum_size in Ht; simpl in Ht; fold (sum_size logs) in Ht.
  destruct (Z.leb_spec total (lc_TotalCap policy)) as [Hle|Hgt].
  { apply iruns_inv in Hr as [-> _]. exists [], (log :: logs). split_and!; [done|done|]. left. unfold sum_size. simpl. lia. }
  destruct (String.eqb (rl_path log) (js_path s)) eqn:Hc.
  - destruct (IH _ _ Hr Hn ltac:(lia)) as (pre & post & -> & -> & Hend). exists (log :: pre), post.
    assert (Hnc : not_current s log = false) by (unfold not_current; by rewrite Hc). cbn [List.filter]. rewrite Hnc. by split_and!.
  - apply iruns_inv in Hr as ([e|] & t & -> & Hr); cbn [ibind] in Hr; [by apply iruns_inv in Hr as [_ ?]|].
    rewrite wrap_u64_small in Hr by (unfold is_u64; lia). destruct (IH _ _ Hr Hn ltac:(lia)) as (pre & post & -> & -> & Hend).
    exists (log :: pre), post. assert (Hnc : not_current s log = true) by (unfold not_current; by rewrite Hc).
    cbn [List.filter]. rewrite Hnc. split_and!; [done|done|].
    destruct Hend as [Hend|]; [left|by right]. unfold sum_size in *. simpl. lia.
Qed.

Lemma expire_sizes s cutoff entries logs tr logs' :
  iruns (expire directory s cutoff entries logs) tr (Ok logs') ->
  Forall (fun l => 0 <= rl_size l) logs -> Forall (fun l => 0 <= rl_size l) logs'.
Proof.
  revert logs tr. induction entries as [|e entries IH]; intros logs tr Hr Hl; cbn [expire] in Hr; [by apply iruns_inv in Hr as [_ [= ->]]|].
  destruct (negb (controller_log e)); [by eapply IH|].
  apply iruns_inv in Hr as ([[modified size]|err] & t & -> & Hr); cbn [ibind] in Hr; [|by apply iruns_inv in Hr as [_ ?]].
  destruct (negb _ && _).
  - apply iruns_inv in Hr as ([err|] & t' & -> & Hr); cbn [ibind] in Hr; [by apply iruns_inv in Hr as [_ ?]|]. by eapply IH.
  - eapply IH; [exact Hr|]. apply Forall_app. split; [done|]. constructor; [|constructor]. apply wrap_u64_range.
Qed.

(** A cleanup that succeeds keeps the cap.  The logs that are not expired are
    removed from the oldest on, the current one excepted, and no further than
    needed, until their total fits the cap or nothing but the current one remains. *)
Theorem cleanup_enforces_cap s now tr s' :
  iruns (cleanupLocked directory policy s now) tr (s', None) ->
  exists entries t logs rest,
    tr = ev (LogReadDir directory) (Ok entries) :: t ++ rest /\
    iruns (expire directory s (now - lc_Retention policy) entries []) t (Ok logs) /\
    (sum_size logs <= max_u64 ->
     exists pre post, sort_by older logs = pre ++ post /\ rest = map removal (List.filter (not_current s) pre) /\
       (sum_size (List.filter (current s) pre ++ post) <= lc_TotalCap policy \/ post = [])).
Proof.
  unfold cleanupLocked. intros Hr. apply iruns_inv in Hr as ([entries|e] & t & -> & Hr); cbn [ibind] in Hr; [|by apply iruns_inv in Hr as [_ ?]].
  apply iruns_bind_inv in Hr as (t1 & t2 & [logs|e] & H1 & H2 & ->); [|by apply iruns_inv in H2 as [_ ?]].
  apply iruns_bind_inv in H2 as (t3 & t4 & [e|] & H3 & H4 & ->); [by apply iruns_inv in H4 as [_ ?]|]. apply iruns_inv in H4 as [-> _].
  rewrite app_nil_r. exists entries, t1, logs, t3. split_and!; [done|done|]. intros Hsum.
  assert (Hn : Forall (fun l => 0 <= rl_size l) (sort_by older logs)). { rewrite sort_by_perm. eapply expire_sizes; [exact H1|constructor]. }
  assert (Hs : sum_size (sort_by older logs) = sum_size logs) by (apply sum_size_perm, sort_by_perm).
  rewrite total_size_sum in H3 by (done || lia).
  destruct (shrink_ok _ _ _ _ H3 Hn ltac:(lia)) as (pre & post & Heq & -> & Hend). exists pre, post. split_and!; [done|done|].
  destruct Hend as [Hend|]; [left|by right]. rewrite Heq, sum_size_app in Hend. rewrite sum_size_app.
  enough (sum_size pre = sum_size (List.filter (not_current s) pre) + sum_size (List.filter (current s) pre)) by lia.
  clear. induction pre as [|l pre IH]; [done|]. cbn [List.filter]. unfold not_current at 1, current at 1.
  destruct (String.eqb (rl_path l) (js_path s)); cbn [negb]; unfold sum_size in *; simpl; lia.
Qed.

(** ** The size of a file *)

(** A line is at most the limit of an event and its line end long. *)
Lemma encode_event_bound now event line :
  encode_event now event = Ok line -> Z.of_nat (String.length line) <= maximumStructuredLogEvent + 1.
Proof.
  unfold encode_event. intros He.
  assert (Hnl : forall e, (maximumStructuredLogEvent <? Z.of_nat (String.length e)) = false ->
                  Z.of_nat (String.length (e +:+ newline_byte)) <= maximumStructuredLogEvent + 1).
  { intros e Hlt%Z.ltb_ge. rewrite string_app_length. cbn [newline_byte String.length]. lia. }
  repeat case_match; simplify_eq/=; by apply Hnl.
Qed.

(** The size the sink knows of its file, as far as it may have grown. *)
Definition size_ok (s : JSONLogSink) : Prop :=
  0 <= js_size s <= Z.max (lc_MaxFileSize policy) (maximumStructuredLogEvent + 1).

Lemma cleanup_keeps s now tr s' r :
  iruns (cleanupLocked directory policy s now) tr (s', r) -> js_size s' = js_size s /\ js_file s' = js_file s /\ js_path s' = js_path s.
Proof.
  unfold cleanupLocked. intros Hr. apply iruns_inv in Hr as ([entries|e] & t & -> & Hr); cbn [ibind] in Hr; [|by apply iruns_inv in Hr as [_ [= -> _]]].
  apply iruns_bind_inv in Hr as (t1 & t2 & [logs|e] & H1 & H2 & ->); [|by apply iruns_inv in H2 as [_ [= -> _]]].
  apply iruns_bind_inv in H2 as (t3 & t4 & [e|] & H3 & H4 & ->); by apply iruns_inv in H4 as [_ [= -> _]].
Qed.

Lemma append_size s now line tr s' r :
  iruns (append_line directory policy cleanupEvery s now line) tr (s', r) -> 0 <= lc_MaxFileSize policy <= 2 ^ 63 ->
  0 <= js_size s -> Z.of_nat (String.length line) <= maximumStructuredLogEvent + 1 ->
  js_size s + Z.of_nat (String.length line) <= Z.max (lc_MaxFileSize policy) (maximumStructuredLogEvent + 1) -> size_ok s'.
Proof.
  unfold append_line. intros Hr Hmax Hs Hl Hfit.
  assert (Hsame : size_ok s) by (split; lia).
  apply iruns_inv in Hr as ([n [e|]] & t & -> & Hr); cbn [ibind] in Hr; [by apply iruns_inv in Hr as [_ [= -> _]]|].
  destruct (Z.eqb_spec n (Z.of_nat (String.length line))) as [->|]; cbn [negb] in Hr; [|by apply iruns_inv in Hr as [_ [= -> _]]].
  assert (Hgrown : size_ok {| s with js_size := wrap_u64 (js_size s + Z.of_nat (String.length line)) |}).
  { unfold size_ok. cbn [js_size]. rewrite wrap_u64_small; [lia|]. unfold is_u64, max_u64, maximumStructuredLogEvent in *. lia. }
  apply iruns_inv in Hr as ([e|] & t' & -> & Hr); cbn [ibind] in Hr; [by apply iruns_inv in Hr as [_ [= -> _]]|].
  destruct (_ || _); [|by apply iruns_inv in Hr as [_ [= -> _]]]. apply cleanup_keeps in Hr as (Hz & _). unfold size_ok in *. by rewrite Hz.
Qed.

Lemma rotate_size s now tr s' r :
  iruns (rotateLocked directory s now) tr (s', r) -> js_size s' = js_size s \/ (r = None /\ js_size s' = 0).
Proof.
  assert (Hopen : forall s tr s' r, iruns (rotate_open directory s now) tr (s', r) -> js_size s' = js_size s \/ (r = None /\ js_size s' = 0)).
  { unfold rotate_open. intros s0 tr0 s0' r0 (t1 & t2 & [path|e] & H1 & H2 & ->)%iruns_bind_inv; [|apply iruns_inv in H2 as [_ [= -> _]]; by left].
    apply iruns_inv in H2 as ([e|] & t & -> & H2); cbn [ibind] in H2.
    - apply iruns_inv in H2 as (? & t' & -> & H2). apply iruns_inv in H2 as (? & t'' & -> & H2). apply iruns_inv in H2 as [_ [= -> _]]. by left.
    - apply iruns_inv in H2 as [_ [= -> ->]]. by right. }
  unfold rotateLocked. destruct (js_file s); [|by apply Hopen]. intros Hr. apply iruns_inv in Hr as ([e|] & t & -> & Hr); cbn [ibind] in Hr.
  - apply iruns_inv in Hr as [_ [= -> _]]. by left.
  - by apply Hopen in Hr.
Qed.

Lemma rotate_fresh s now tr s' :
  iruns (rotateLocked directory s now) tr (s', None) -> js_size s' = 0.
Proof.
  assert (Hopen : forall s tr s', iruns (rotate_open directory s now) tr (s', None) -> js_size s' = 0).
  { unfold rotate_open. intros s0 tr0 s0' (t1 & t2 & [path|e] & H1 & H2 & ->)%iruns_bind_inv; [|by apply iruns_inv in H2 as [_ ?]].
    apply iruns_inv in H2 as ([e|] & t & -> & H2); cbn [ibind] in H2.
    - apply iruns_inv in H2 as (? & t' & -> & H2). apply iruns_inv in H2 as (? & t'' & -> & H2). by apply iruns_inv in H2 as [_ ?].
    - by apply iruns_inv in H2 as [_ [= ->]]. }
  unfold rotateLocked. destruct (js_file s); [|by apply Hopen]. intros Hr. apply iruns_inv in Hr as ([e|] & t & -> & Hr); cbn [ibind] in Hr.
  - by apply iruns_inv in Hr as [_ ?].
  - by apply Hopen in Hr.
Qed.

(** Files stay bounded.  Whatever fails, a write keeps the size of the current file
    within the configured maximum, or within one event of the largest size where a
    single event is larger than the maximum. *)
Theorem log_file_bounded s event tr s' r :
  0 <= lc_MaxFileSize policy <= 2 ^ 63 -> size_ok s ->
  iruns (sink_write directory policy cleanupEvery s event) tr (s', r) -> size_ok s'.
Proof.
  intros Hmax Hs Hr. unfold sink_write in Hr. apply iruns_inv in Hr as (now & t & -> & Hr). cbn [ibind] in Hr.
  destruct (encode_event now event) as [line|e] eqn:He; [|by apply iruns_inv in Hr as [_ [= -> _]]].
  pose proof (encode_event_bound _ _ _ He) as Hl. pose proof Hs as [Hs0 Hs1].
  destruct (needs_rotation policy s now line) eqn:Hrot.
  - apply iruns_bind_inv in Hr as (t1 & t2 & [s1 [e|]] & H1 & H2 & ->).
    + apply iruns_inv in H2 as [_ [= -> _]]. apply rotate_size in H1 as [H1|[H1 _]]; [|done]. unfold size_ok. by rewrite H1.
    + apply rotate_fresh in H1. eapply append_size; [exact H2|done|lia|done|lia].
  - eapply append_size; [exact Hr|done|done|done|]. unfold needs_rotation in Hrot. apply orb_false_iff in Hrot as [_ Hrot].
    apply andb_false_iff in Hrot as [Hz%Z.ltb_ge|Hfit%Z.ltb_ge]; [lia|].
    rewrite wrap_u64_small in Hfit by (unfold is_u64, max_u64, maximumStructuredLogEvent in *; lia). lia.
Qed.
End Facts.

(** ** The queue *)

Definition in_hand (q : Queue) : list LogEvent := match qu_handling q with Some event => [event] | None => [] end.

(** What holds of every reachable queue. *)
Record queue_ok (q : Queue) : Prop := {
  qo_order : qu_accepted q = qu_answered q ++ in_hand q ++ qu_queued q;
  qo_capacity : (length (qu_queued q) <= structuredLogQueueCapacity)%nat;
  qo_done : qu_done q = true -> qu_closed q = true /\ qu_handling q = None /\ qu_queued q = [];
}.

Lemma queue_ok_step q q' : queue_ok q -> queue_step q q' -> queue_ok q'.
Proof.
  intros [Ho Hc Hd] Hstep. destruct Hstep as [q q' event Hs|q q' Hs|q q' Hs|q q' Hs|q].
  - unfold try_send in Hs. destruct (qu_closed q) eqn:Hcl; [done|]. cbn [orb] in Hs.
    destruct (Nat.leb_spec structuredLogQueueCapacity (length (qu_queued q))); [done|].
    injection Hs as <-. split; simpl.
    + unfold in_hand in *. simpl. by rewrite Ho, <- !app_assoc.
    + rewrite length_app. simpl. lia.
    + intros Hdone. destruct (Hd Hdone) as [? _]. congruence.
  - unfold worker_take in Hs. destruct (qu_handling q) eqn:Hh; [done|]. destruct (qu_queued q) as [|event queued] eqn:Hq; [done|]. injection Hs as <-. split; simpl.
    + rewrite Ho. unfold in_hand. simpl. by rewrite Hh.
    + simpl in Hc. lia.
    + intros Hdone. by destruct (Hd Hdone) as (_ & _ & ?).
  - unfold worker_answer in Hs. destruct (qu_handling q) as [event|] eqn:Hh; [|done]. injection Hs as <-. split; simpl.
    + rewrite Ho. unfold in_hand. simpl. by rewrite Hh, <- app_assoc.
    + done.
    + intros Hdone. by destruct (Hd Hdone) as (_ & ? & _).
  - unfold worker_leave in Hs. destruct (qu_handling q) eqn:Hh; [done|]. destruct (qu_queued q) eqn:Hq; [|done].
    destruct (qu_closed q) eqn:Hcl; [|done]. destruct (qu_done q); [done|]. injection Hs as <-. split; simpl; [|done|done].
    unfold in_hand in *. simpl. by rewrite Ho, Hh.
  - split; [exact Ho|exact Hc|]. intros Hdone. destruct (Hd Hdone) as (_ & Hh & Hq). done.
Qed.

(** C32: The log delivers in order.  However callers, the worker and the close
    interleave, the requests that were accepted are handled in the order of their
    acceptance, each once; at most the capacity of the queue waits; and when the
    worker has left, every accepted request was answered and the sink is closed. *)
Theorem log_queue_delivers q :
  rtc queue_step open_queue q ->
  (exists waiting, qu_accepted q = qu_answered q ++ waiting /\ (length waiting <= S structuredLogQueueCapacity)%nat) /\
  (qu_done q = true -> qu_closed q = true /\ qu_answered q = qu_accepted q).
Proof.
  intros Hr. assert (Hok : queue_ok q).
  { revert Hr. apply (rtc_ind_r queue_ok); [by split; [|cbn; lia|]|]. intros q1 q2 _ Hs Hq. by eapply queue_ok_step. }
  destruct Hok as [Ho Hc Hd]. split.
  - exists (in_hand q ++ qu_queued q). split; [done|]. rewrite length_app. unfold in_hand. destruct (qu_handling q); simpl; lia.
  - intros Hdone. destruct (Hd Hdone) as (Hcl & Hh & Hq). split; [done|]. rewrite Ho. unfold in_hand. by rewrite Hh, Hq, app_nil_r.
Qed.

(** ** An event the truncation cannot save *)

Fixpoint repeat_string (n : nat) (s : string) : string := match n with O => "" | S n => s +:+ repeat_string n s end.

Lemma json_body_angles n : String.length (json_body 0 true (repeat_string n "<")) = (6 * n)%nat.
Proof.
  induction n as [|n IH]; [done|]. cbn [repeat_string].
  change (json_body 0 true ("<" +:+ repeat_string n "<")) with ("\u003c" +:+ json_body 0 true (repeat_string n "<")).
  rewrite string_app_length, IH. cbn [String.length]. lia.
Qed.

Lemma repeat_string_length n s : String.length (repeat_string n s) = (n * String.length s)%nat.
Proof. induction n as [|n IH]; [done|]. cbn [repeat_string]. rewrite string_app_length, IH. lia. Qed.

Lemma angles_unchanged p f n prev :
  (forall prev s, attempt p prev (String "<" s) finish = None) -> replace_from p f 0 prev (repeat_string n "<") = repeat_string n "<".
Proof.
  intros Hp. revert prev. induction n as [|n IH]; intros prev; [done|]. cbn [repeat_string]. rewrite string_app_one.
  rewrite replace_unmatched by apply Hp. by rewrite IH.
Qed.

Lemma angles_not_redacted n : redactLogValue (repeat_string n "<") = repeat_string n "<".
Proof.
  unfold redactLogValue, ReplaceAllString, ReplaceAllStringFunc.
  rewrite !angles_unchanged; [done|..]; intros prev s; first [reflexivity | cbn; by destruct (is_word prev)].
Qed.

(** Truncation counts bytes before they are escaped: a message of 174763 or more
    angle brackets, which may be kept whole within the quarter of the limit, is six
    times as long in the record, and its event is refused. *)
Lemma escaped_event_refused `{LogText} at_ n count event :
  time_json at_ = Ok n -> at_ <> 0 -> 174763 <= Z.of_nat count <= 262144 ->
  event = mkLogEvent at_ "code" (repeat_string count "<") "" "" "" "" ->
  encode_event 0 event = Err (ErrNew "controller log event remains over safety limit after truncation").
Proof.
  intros Ht Hat Hcount ->. unfold encode_event. cbn [le_At le_Code le_Message le_Cause le_Source le_PoolID le_WorkerID]. rewrite angles_not_redacted.
  change (redactLogValue "code") with "code". change (redactLogValue "") with "".
  unfold IsZero. apply Z.eqb_neq in Hat. rewrite Hat.
  assert (Hm : truncateLogValue (repeat_string count "<") (maximumStructuredLogEvent / 4) = repeat_string count "<").
  { unfold truncateLogValue. rewrite repeat_string_length. change (maximumStructuredLogEvent / 4) with 262144. cbn [String.length].
    by destruct (Z.leb_spec (Z.of_nat (count * 1)) 262144); [|lia]. }
  set (r := mkLogRecord at_ "code" (repeat_string count "<") "" "" "" "").
  assert (Htr : truncate_record r = r).
  { unfold truncate_record, r. cbn [lr_At lr_Code lr_Message lr_Cause lr_Source lr_PoolID lr_WorkerID]. by rewrite Hm. }
  rewrite Htr. unfold encode_record. cbn [lr_At r]. rewrite Ht. set (line := _ +:+ _).
  assert (Hlen : (maximumStructuredLogEvent <? Z.of_nat (String.length line)) = true); [|by rewrite Hlen].
  apply Z.ltb_lt. unfold line, r, json_field, json_string. cbn [lr_Message lr_Code]. repeat (rewrite string_app_length; cbn [String.length]).
  rewrite json_body_angles. unfold maximumStructuredLogEvent. lia.
Qed.

(** ** Samples *)
Module LogSamples.
#[local] Instance windows : Platform := {| write_through := true; Separator := "\"%char |}.
#[local] Instance plain_paths : FilePath := {| IsAbs := fun p => HasPrefix p "C:\"; Clean := fun p => p |}.
#[local] Instance plain_log : LogText :=
  {| day_text t := Itoa (t / 100); stamp_text t := Itoa t; time_json t := Ok (Itoa t) |}.

Definition log_policy : LogClass := mkLogClass 300 1000 100.
Definition log_dir : string := "C:\logs".

(** Three logs of 60 bytes and a foreign file; the newest is being written. *)
Definition log_entries : list LogEntry :=
  [mkLogEntry "controller-1.jsonl" true; mkLogEntry "notes.txt" true; mkLogEntry "controller-2.jsonl" true; mkLogEntry "controller-3.jsonl" true].
Definition log_answers (c : jcall) (_ : list (event jresp)) : jresp c :=
  match c with
  | LogNow => 50
  | LogReadDir _ => Ok log_entries
  | LogInfo name => Ok (if String.eqb name "controller-1.jsonl" then 10 else if String.eqb name "controller-2.jsonl" then 20 else 30, 60)
  | LogWrite text => (Z.of_nat (String.length text), None)
  | LogMkdir _ | LogHarden _ | LogRemove _ | LogOpen _ | LogSync | LogCloseFile => None
  end.
Definition writing : JSONLogSink := mkJSONLogSink true "C:\logs\controller-3.jsonl" 60 "0" 0.
Definition cleaned : list (event jresp) * (JSONLogSink * option error) := irun log_answers (cleanupLocked log_dir log_policy writing 50) [].

Lemma cleaned_runs : iruns (cleanupLocked log_dir log_policy writing 50) (fst cleaned) (snd cleaned).
Proof. unfold cleaned. by destruct (irun _ _ _) as [tr r] eqn:Hr; apply irun_iruns in Hr. Qed.

Lemma cleanup_spares_current_witness :
  exists entries, disposable_log log_dir writing entries "C:\logs\controller-1.jsonl".
Proof.
  destruct (cleanup_spares_current log_dir log_policy writing 50 _ _ "C:\logs\controller-1.jsonl" None cleaned_runs) as (entries & _ & Hd).
  - vm_compute. repeat first [apply list_elem_of_here | apply list_elem_of_further].
  - exists entries. exact Hd.
Defined.

Lemma cleanup_enforces_cap_witness :
  exists s' entries t rest, snd cleaned = (s', None) /\ fst cleaned = ev (LogReadDir log_dir) (Ok entries) :: t ++ rest.
Proof.
  pose proof cleaned_runs as Hr. destruct (snd cleaned) as [s' r] eqn:Hs. assert (r = None) as -> by (vm_compute in Hs; congruence).
  destruct (cleanup_enforces_cap log_dir log_policy writing 50 _ s' Hr) as (entries & t & logs & rest & Heq & _).
  exists s', entries, t, rest. split; [reflexivity|exact Heq].
Defined.

Lemma log_file_bounded_witness :
  exists tr s' r, iruns (sink_write log_dir log_policy 1000 writing (mkLogEvent 5 "code" "text" "" "" "" "")) tr (s', r) /\ size_ok log_policy s'.
Proof.
  destruct (irun log_answers (sink_write log_dir log_policy 1000 writing (mkLogEvent 5 "code" "text" "" "" "" "")) []) as [tr [s' r]] eqn:Hr.
  apply irun_iruns in Hr. exists tr, s', r. split; [exact Hr|].
  refine (log_file_bounded log_dir log_policy 1000 writing _ tr s' r _ _ Hr); vm_compute; split; discriminate.
Defined.

Lemma log_queue_delivers_witness :
  exists q, rtc queue_step open_queue q /\ qu_done q = true /\ qu_answered q = qu_accepted q.
Proof.
  set (e := mkLogEvent 5 "code" "text" "" "" "" "").
  assert (Hr : rtc queue_step open_queue (mkQueue true [e] [] None [e] true)).
  { eapply rtc_l; [by apply (queue_send _ _ e)|]. eapply rtc_l; [by apply queue_take|]. eapply rtc_l; [apply queue_close|].
    eapply rtc_l; [by apply queue_answer|]. eapply rtc_l; [by apply queue_leave|]. apply rtc_refl. }
  eexists. split; [exact Hr|]. split; [reflexivity|]. exact (proj2 (proj2 (log_queue_delivers _ Hr) eq_refl)).
Defined.
End LogSamples.
