(* ===== verification/Host.v ===== *)
(** The host's Docker Desktop and WSL (internal/host): the adapter the controller
    drives, the gaming-mode manager with its verification, and the texts of the
    command-line tools they read.

    The two tools and the timer are calls with arbitrary answers.  The deadline that
    bounds a call is the business of the context and not visible here. *)

From S2P Require Import Prelude Float64 GoStrings Regexp Model Config GoText Errors Effects Reconciler Interaction.
From stdpp Require Import pretty.
From Stdlib Require Import Ascii.
#[local] Open Scope Z_scope.
Open Scope i_scope.

(** ** Data *)

Inductive DesktopState := DesktopStatusUnknown | DesktopStatusRunning | DesktopStatusStarting | DesktopStatusStopping | DesktopStatusStopped.

#[export] Instance DesktopState_eq_dec : EqDecision DesktopState.
Proof. solve_decision. Defined.

Definition DesktopState_string (d : DesktopState) : string :=
  match d with
  | DesktopStatusUnknown => "unknown" | DesktopStatusRunning => "running" | DesktopStatusStarting => "starting"
  | DesktopStatusStopping => "stopping" | DesktopStatusStopped => "stopped"
  end.

Record HostContainer := mkHostContainer {
  hc_ID : string;
  hc_Name : string;
  hc_Image : string;
  hc_Status : string;
  hc_Managed : bool;
}.

Record HostInventory := mkHostInventory {
  hi_DesktopStatus : DesktopState;
  hi_DockerReachable : bool;
  hi_CIContainers : list HostContainer;
  hi_NonCIContainers : list HostContainer;
  hi_RunningDistributions : list string;
  hi_Problems : list string;
}.

Record GamingVerification := mkGamingVerification {
  gv_DesktopStopped : bool;
  gv_DesktopUnverified : bool;
  gv_DockerUnreachable : bool;
  gv_DockerUnverified : bool;
  gv_NoRunningWSL : bool;
  gv_WSLUnverified : bool;
  gv_RunningDistributions : list string;
}.

Definition Healthy (v : GamingVerification) : bool := gv_DesktopStopped v && gv_DockerUnreachable v && gv_NoRunningWSL v.

(** ** Calls *)

Inductive hcall :=
  | DesktopQuery
  | DesktopStart
  | DesktopStop
  | EngineReachable
  | Containers
  | WSLRunning
  | WSLShutdown
  | HostTimer (interval : duration).

(** A timer answers the error of the context when that ended first. *)
Definition hresp (c : hcall) : Type :=
  match c with
  | DesktopQuery => result error DesktopState
  | EngineReachable => result error bool
  | Containers => result error (list HostContainer)
  | WSLRunning => result error (list string)
  | DesktopStart | DesktopStop | WSLShutdown | HostTimer _ => option error
  end.

Abbreviation hprog := (iprog hresp).
Definition hask (c : hcall) : hprog (hresp c) := icall c.

(** ** The controller's adapter *)

(** Which of the three tools the adapter has, and its poll interval. *)
Record DesktopAdapter := mkDesktopAdapter {
  da_Desktop : bool;
  da_Docker : bool;
  da_WSL : bool;
  da_PollInterval : duration;
}.

Definition err_of {A} (r : result error A) : option error := match r with Ok _ => None | Err e => Some e end.

Definition Adapter_Status (a : DesktopAdapter) : hprog (result error DesktopStatus) :=
  if negb (da_Desktop a && da_Docker a && da_WSL a) then IRet (Err (ErrNew "desktop adapter dependencies are incomplete"))
  else
    let^ desktop := hask DesktopQuery in
    let^ reachable := hask EngineReachable in
    let^ distributions := hask WSLRunning in
    match errors_Join [err_of desktop; err_of reachable; err_of distributions], desktop, reachable, distributions with
    | None, Ok status, Ok reachable, Ok distributions =>
        IRet (Ok (mkDesktopStatus (bool_decide (status = DesktopStatusRunning)) reachable (Z.of_nat (length distributions))))
    | Some e, _, _, _ => IRet (Err e)
    | None, _, _, _ => IRet (Ok (mkDesktopStatus false false 0))
    end.

(** [probe]: [None] when a query failed. *)
Definition Adapter_probe : hprog (option (DesktopState * bool)) :=
  let^ desktop := hask DesktopQuery in
  match desktop with
  | Err _ => IRet None
  | Ok status =>
      let^ reachable := hask EngineReachable in
      IRet (match reachable with Ok reachable => Some (status, reachable) | Err _ => None end)
  end.

Definition Adapter_interval (a : DesktopAdapter) : duration := if 0 <? da_PollInterval a then da_PollInterval a else Second.

(** At most [fuel] probes; [None] when none of them ended the loop. *)
Fixpoint poll (fuel : nat) (interval : duration) (ready : DesktopState * bool -> bool) (timeoutMessage : string) : hprog (option (option error)) :=
  match fuel with
  | O => IRet None
  | S fuel =>
      let^ probed := Adapter_probe in
      if match probed with Some p => ready p | None => false end then IRet (Some None)
      else
        let^ ended := hask (HostTimer interval) in
        match ended with
        | Some e => IRet (Some (Some (ErrWrap timeoutMessage e)))
        | None => poll fuel interval ready timeoutMessage
        end
  end.

Definition is_running (p : DesktopState * bool) : bool := bool_decide (fst p = DesktopStatusRunning) && snd p.
Definition is_stopped (p : DesktopState * bool) : bool := bool_decide (fst p = DesktopStatusStopped) && negb (snd p).

Definition Adapter_Start (a : DesktopAdapter) (fuel : nat) : hprog (option (option error)) :=
  if negb (da_Desktop a && da_Docker a) then IRet (Some (Some (ErrNew "desktop adapter dependencies are incomplete")))
  else
    let^ started := hask DesktopStart in
    match started with
    | Some e => IRet (Some (Some (ErrWrap "start Docker Desktop" e)))
    | None => poll fuel (Adapter_interval a) is_running "Docker Desktop did not become ready"
    end.

Definition Adapter_Stop (a : DesktopAdapter) (fuel : nat) : hprog (option (option error)) :=
  if negb (da_Desktop a && da_Docker a) then IRet (Some (Some (ErrNew "desktop adapter dependencies are incomplete")))
  else
    let^ stopped := hask DesktopStop in
    match stopped with
    | Some e => IRet (Some (Some (ErrWrap "stop Docker Desktop" e)))
    | None => poll fuel (Adapter_interval a) is_stopped "Docker Desktop did not stop cleanly"
    end.

Definition Adapter_ShutdownAllWSL (a : DesktopAdapter) : hprog (option error) :=
  if negb (da_WSL a) then IRet (Some (ErrNew "WSL adapter is unavailable")) else hask WSLShutdown.

(** ** Gaming mode *)

Definition problem_text (label : string) (e : error) : string := label +:+ ": " +:+ error_text e.

Definition Gaming_Inventory : hprog HostInventory :=
  let^ status := hask DesktopQuery in
  let '(desktop, problems) :=
    match status with Ok s => (s, []) | Err e => (DesktopStatusUnknown, [problem_text "Docker Desktop status" e]) end in
  let^ engine := hask EngineReachable in
  let '(reachable, problems) :=
    match engine with Ok r => (r, problems) | Err e => (false, problems ++ [problem_text "Docker engine status" e]) end in
  let finish (containers : list HostContainer) (problems : list string) :=
    let^ distributions := hask WSLRunning in
    let '(running, problems) :=
      match distributions with Ok d => (d, problems) | Err e => ([], problems ++ [problem_text "WSL inventory" e]) end in
    IRet (mkHostInventory desktop reachable (List.filter hc_Managed containers) (List.filter (fun c => negb (hc_Managed c)) containers) running problems) in
  if reachable : bool then
    let^ listed := hask Containers in
    match listed with
    | Ok containers => finish containers problems
    | Err e => finish [] (problems ++ [problem_text "Docker container inventory" e])
    end
  else finish [] problems.

Definition Gaming_StopAll : hprog (option error) :=
  let^ desktop := hask DesktopStop in
  let^ wsl := hask WSLShutdown in
  IRet (errors_Join [match desktop with Some e => Some (ErrWrap "stop Docker Desktop" e) | None => None end;
                     match wsl with Some e => Some (ErrWrap "shut down WSL" e) | None => None end]).

Fixpoint bracketed (l : list string) : string := match l with [] => "" | [s] => s | s :: l => s +:+ " " +:+ bracketed l end.

Definition Gaming_Verify : hprog (GamingVerification * option error) :=
  let^ status := hask DesktopQuery in
  let^ engine := hask EngineReachable in
  let^ distributions := hask WSLRunning in
  let '(stopped, desktopUnverified, f1) :=
    match status with
    | Err e => (false, true, [Some (ErrWrap "query Docker Desktop status" e)])
    | Ok s => if decide (s = DesktopStatusStopped) then (true, false, [])
              else (false, false, [Some (ErrNew ("unexpected Docker Desktop status " +:+ DesktopState_string s))])
    end in
  let '(unreachable, dockerUnverified, f2) :=
    match engine with
    | Err e => (false, true, [Some (ErrWrap "query Docker engine status" e)])
    | Ok reachable => (negb reachable, false, if reachable then [Some (ErrNew "docker engine is still reachable")] else [])
    end in
  let '(noWSL, wslUnverified, running, f3) :=
    match distributions with
    | Err e => (false, true, [], [Some (ErrWrap "WSL inventory" e)])
    | Ok [] => (true, false, [], [])
    | Ok l => (false, false, l, [Some (ErrNew ("WSL distributions are still running: [" +:+ bracketed l +:+ "]"))])
    end in
  IRet (mkGamingVerification stopped desktopUnverified unreachable dockerUnverified noWSL wslUnverified running, errors_Join (f1 ++ f2 ++ f3)).

(** ** The texts of the tools *)

(** [encoding/json] on a document with a [Status]. *)
Class DesktopJSON := { json_status : string -> option string }.

Definition parseDesktopStatus `{DesktopJSON, Unicode} (output : string) : result error DesktopState :=
  let trimmed := TrimSpace output in
  let normalized :=
    match json_status output with
    | Some status => if String.eqb status "" then ToLower trimmed else ToLower (TrimSpace status)
    | None => ToLower trimmed
    end in
  let says word := String.eqb normalized word || Contains normalized ("is " +:+ word) in
  if says "running" then Ok DesktopStatusRunning
  else if says "stopped" then Ok DesktopStatusStopped
  else if says "starting" then Ok DesktopStatusStarting
  else if says "stopping" then Ok DesktopStatusStopping
  else Err (ErrNew ("unrecognized Docker Desktop status " +:+ Quote trimmed)).

(** The zero bytes in odd positions. *)
Fixpoint odd_zeroes (odd : bool) (s : string) : Z :=
  match s with
  | EmptyString => 0
  | String a rest => (if odd && (byte_of a =? 0) then 1 else 0) + odd_zeroes (negb odd) rest
  end.

Definition looksUTF16LE (value : string) : bool :=
  if (String.length value <? 2)%nat then false
  else Z.of_nat (String.length value) / 2 <=? odd_zeroes false value * 2.

Fixpoint units16 (s : string) : list Z :=
  match s with
  | String a (String b rest) => byte_of a + 256 * byte_of b :: units16 rest
  | _ => []
  end.

Definition surrogate (lo hi u : Z) : bool := (lo <=? u) && (u <? hi).

(** [utf16.Decode] and the conversion of the runes to a string. *)
Fixpoint utf16_Decode (units : list Z) : string :=
  match units with
  | [] => ""
  | u :: rest =>
      if surrogate 55296 56320 u then
        match rest with
        | v :: rest' =>
            if surrogate 56320 57344 v then encode_rune (Z.lor (Z.shiftl (u - 55296) 10) (v - 56320) + 65536) +:+ utf16_Decode rest'
            else encode_rune RuneError +:+ utf16_Decode rest
        | [] => encode_rune RuneError
        end
      else if surrogate 56320 57344 u then encode_rune RuneError +:+ utf16_Decode rest
      else encode_rune u +:+ utf16_Decode rest
  end.

Definition decodeWindowsText (value : string) : string :=
  let value :=
    match value with
    | String a (String b rest) => if (byte_of a =? 255) && (byte_of b =? 254) then rest else value
    | _ => value
    end in
  if looksUTF16LE value then utf16_Decode (units16 value) else value.

(** [strings.FieldsFunc] for ASCII separators. *)
Fixpoint FieldsFunc (sep : ascii -> bool) (field s : string) : list string :=
  let emit rest := if String.eqb field "" then rest else field :: rest in
  match s with
  | EmptyString => emit []
  | String a s => if sep a then emit (FieldsFunc sep "" s) else FieldsFunc sep (field +:+ String a "") s
  end.

Definition line_separator (a : ascii) : bool := (byte_of a =? 13) || (byte_of a =? 10) || (byte_of a =? 0).

Definition parseWSLDistributions (output : string) : list string :=
  List.filter (fun line => negb (String.eqb line "")) (map TrimSpace (FieldsFunc line_separator "" (decodeWindowsText output))).

(** ** Restarts of Windows *)

Record PendingReboot := mkPendingReboot {
  pr_ComponentServicing : bool;
  pr_FileRenameOperations : bool;
  pr_WindowsUpdate : bool;
}.

Definition Pending (p : PendingReboot) : bool := pr_ComponentServicing p || pr_FileRenameOperations p || pr_WindowsUpdate p.
Definition Signals (p : PendingReboot) : list string :=
  (if pr_ComponentServicing p then ["component-servicing"] else [])
  ++ (if pr_FileRenameOperations p then ["pending-file-renames"] else [])
  ++ (if pr_WindowsUpdate p then ["windows-update"] else []).

Definition rebootArgs (delay : duration) (comment : string) : list string :=
  ["/r"; "/t"; Itoa (Z.quot delay Second)] ++ (if String.eqb comment "" then [] else ["/d"; "p:0:0"; "/c"; comment]).

(** ** Facts *)

(** A verified shutdown was observed.  The verification of gaming mode reports no
    error exactly when it is healthy, and it is healthy exactly when Docker Desktop
    answered that it is stopped, the engine that it is not reachable and WSL that no
    distribution runs; a postcondition is marked unverified exactly when its query
    failed. *)
Theorem gaming_verified_by_observation tr v err :
  iruns Gaming_Verify tr (v, err) ->
  exists desktop engine wsl,
    tr = [ev DesktopQuery desktop; ev EngineReachable engine; ev WSLRunning wsl] /\
    (err = None <-> Healthy v = true) /\
    (Healthy v = true <-> desktop = Ok DesktopStatusStopped /\ engine = Ok false /\ wsl = Ok []) /\
    (gv_DesktopUnverified v = true <-> err_of desktop <> None) /\
    (gv_DockerUnverified v = true <-> err_of engine <> None) /\
    (gv_WSLUnverified v = true <-> err_of wsl <> None).
Proof.
  unfold Gaming_Verify. intros Hr. apply iruns_inv in Hr as (desktop & t & -> & Hr). apply iruns_inv in Hr as (engine & t' & -> & Hr).
  apply iruns_inv in Hr as (wsl & t'' & -> & Hr). cbn [ibind] in Hr.
  exists desktop, engine, wsl. unfold Healthy.
  destruct desktop as [s|e1]; [destruct (decide (s = DesktopStatusStopped)) as [->|Hs]|]; destruct engine as [[]|e2];
    destruct wsl as [[|d l]|e3]; apply iruns_inv in Hr as [-> [= -> ->]]; simpl; (split; [done|]); naive_solver.
Qed.

(** The last two events of a probe that satisfied a condition. *)
Definition observed_ready (tr : list (event hresp)) (ready : DesktopState * bool -> bool) : Prop :=
  exists pre status reachable, tr = pre ++ [ev DesktopQuery (Ok status); ev EngineReachable (Ok reachable)] /\ ready (status, reachable) = true.

Lemma probe_runs tr p : iruns Adapter_probe tr (Some p) -> tr = [ev DesktopQuery (Ok (fst p)); ev EngineReachable (Ok (snd p))].
Proof.
  unfold Adapter_probe. intros Hr. apply iruns_inv in Hr as ([s|e] & t & -> & Hr); cbn [ibind] in Hr; [|by apply iruns_inv in Hr as [_ ?]].
  apply iruns_inv in Hr as ([r|e] & t' & -> & Hr); by apply iruns_inv in Hr as [-> [= ->]].
Qed.

Lemma poll_ready fuel interval ready message tr : iruns (poll fuel interval ready message) tr (Some None) -> observed_ready tr ready.
Proof.
  revert tr. induction fuel as [|fuel IH]; intros tr Hr; cbn [poll] in Hr; [by apply iruns_inv in Hr as [_ ?]|].
  apply iruns_bind_inv in Hr as (t1 & t2 & probed & H1 & H2 & ->).
  destruct (match probed with Some p => ready p | None => false end) eqn:Hp.
  - destruct probed as [[status reachable]|]; [|done]. apply probe_runs in H1 as ->. apply iruns_inv in H2 as [-> _].
    exists [], status, reachable. done.
  - apply iruns_inv in H2 as ([e|] & t & -> & H2); cbn [ibind] in H2; [by apply iruns_inv in H2 as [_ ?]|].
    apply IH in H2 as (pre & status & reachable & -> & Hready). exists (t1 ++ ev (HostTimer interval) None :: pre), status, reachable.
    split; [|done]. by rewrite <- app_assoc.
Qed.

(** Starting and stopping are confirmed.  The adapter reports that Docker Desktop
    was started or stopped only when the very last thing it did was to ask for its
    state and for the engine, and both answered what was wanted; a query that fails
    never counts as such an answer. *)
Theorem desktop_change_confirmed a fuel tr :
  (iruns (Adapter_Start a fuel) tr (Some None) -> observed_ready tr (fun p => bool_decide (fst p = DesktopStatusRunning) && snd p)) /\
  (iruns (Adapter_Stop a fuel) tr (Some None) -> observed_ready tr (fun p => bool_decide (fst p = DesktopStatusStopped) && negb (snd p))).
Proof.
  unfold Adapter_Start, Adapter_Stop. split; (destruct (negb _); [by intros [_ ?]%iruns_inv|]); intros Hr;
    apply iruns_inv in Hr as ([e|] & t & -> & Hr); cbn [ibind] in Hr; try (by apply iruns_inv in Hr as [_ ?]);
    apply poll_ready in Hr as (pre & status & reachable & -> & Hready); eexists (_ :: pre), status, reachable; by split.
Qed.

(** A text of ASCII characters in UTF-16, and with a byte order mark. *)
Fixpoint utf16le (s : string) : string := match s with EmptyString => "" | String a s => String a (String zero (utf16le s)) end.
Definition with_bom (s : string) : string := String (ascii_of_nat 255) (String (ascii_of_nat 254) s).
Definition plain_char (a : ascii) : bool := (0 <? byte_of a) && (byte_of a <? 128).

Lemma encode_plain a : plain_char a = true -> encode_rune (byte_of a) = String a "".
Proof.
  unfold plain_char. rewrite andb_true_iff. intros [_ Hlt]. unfold encode_rune. rewrite Hlt. unfold byte_string, byte_of. simpl.
  by rewrite N2Z.id, ascii_N_embedding.
Qed.

Lemma utf16_plain s : string_forall plain_char s = true -> utf16_Decode (units16 (utf16le s)) = s.
Proof.
  induction s as [|a s IH]; [done|]. cbn [string_forall utf16le units16 utf16_Decode]. intros [Ha Hs]%andb_true_iff.
  change (byte_of zero) with 0. replace (byte_of a + 256 * 0) with (byte_of a) by lia.
  pose proof Ha as Hr. unfold plain_char in Hr. apply andb_true_iff in Hr as [_ Hr%Z.ltb_lt]. unfold surrogate.
  destruct (Z.leb_spec 55296 (byte_of a)); [lia|]. destruct (Z.leb_spec 56320 (byte_of a)); [lia|]. cbn [andb].
  rewrite encode_plain by done. rewrite IH by done. done.
Qed.

Lemma odd_zeroes_utf16 s : odd_zeroes false (utf16le s) = Z.of_nat (String.length s).
Proof. induction s as [|a s IH]; [done|]. cbn [utf16le odd_zeroes andb negb]. change (byte_of zero =? 0) with true. cbn [andb String.length]. rewrite IH. lia. Qed.

Lemma length_utf16 s : String.length (utf16le s) = (2 * String.length s)%nat.
Proof. induction s as [|a s IH]; [done|]. cbn [utf16le String.length]. rewrite IH. lia. Qed.

Lemma odd_zeroes_plain odd s : string_forall plain_char s = true -> odd_zeroes odd s = 0.
Proof.
  revert odd. induction s as [|a s IH]; intros odd; [done|]. cbn [string_forall odd_zeroes]. intros [Ha Hs]%andb_true_iff.
  unfold plain_char in Ha. apply andb_true_iff in Ha as [Ha%Z.ltb_lt _]. destruct (Z.eqb_spec (byte_of a) 0); [lia|]. rewrite IH by done. by rewrite andb_false_r.
Qed.

Lemma looks_utf16 s : s <> "" -> looksUTF16LE (utf16le s) = true.
Proof.
  intros Hne. unfold looksUTF16LE. rewrite length_utf16, odd_zeroes_utf16. destruct s as [|a s]; [done|]. cbn [String.length].
  destruct (Nat.ltb_spec (2 * S (String.length s)) 2); [lia|]. apply Z.leb_le. apply Z.div_le_upper_bound; lia.
Qed.

Lemma looks_plain s : string_forall plain_char s = true -> looksUTF16LE s = false.
Proof.
  intros Hs. unfold looksUTF16LE. destruct (Nat.ltb_spec (String.length s) 2); [done|]. rewrite odd_zeroes_plain by done.
  apply Z.leb_gt. apply Z.div_str_pos. lia.
Qed.

(** The text of the tools is understood in every encoding they use.  A text of
    ASCII characters other than NUL is decoded as itself when it comes as it is, in
    UTF-16, and in UTF-16 after a byte order mark. *)
Theorem windows_text_round_trip s :
  string_forall plain_char s = true ->
  decodeWindowsText s = s /\ decodeWindowsText (utf16le s) = s /\ decodeWindowsText (with_bom (utf16le s)) = s.
Proof.
  intros Hs. assert (Hbom : forall a, plain_char a = true -> (byte_of a =? 255) = false).
  { unfold plain_char. intros a [_ Ha%Z.ltb_lt]%andb_true_iff. apply Z.eqb_neq. lia. }
  assert (Hdec : (if looksUTF16LE (utf16le s) then utf16_Decode (units16 (utf16le s)) else utf16le s) = s).
  { destruct s as [|a s]; [done|]. rewrite looks_utf16 by done. by apply utf16_plain. }
  split_and!.
  - unfold decodeWindowsText. destruct s as [|a [|b s]]; [done|by rewrite looks_plain|].
    rewrite (Hbom a) by (cbn [string_forall] in Hs; by apply andb_true_iff in Hs as [? _]). cbn [andb]. by rewrite looks_plain.
  - unfold decodeWindowsText. destruct s as [|a s]; [done|]. cbn [utf16le] in *.
    rewrite (Hbom a) by (cbn [string_forall] in Hs; by apply andb_true_iff in Hs as [? _]). cbn [andb]. exact Hdec.
  - exact Hdec.
Qed.

(** ** Samples *)
Module HostSamples.
Lemma gaming_verified_by_observation_witness :
  iruns Gaming_Verify [ev DesktopQuery (Ok DesktopStatusStopped); ev EngineReachable (Ok false); ev WSLRunning (Ok [])]
    (mkGamingVerification true false true false true false [], None) /\
  Healthy (mkGamingVerification true false true false true false []) = true.
Proof.
  assert (Hr : iruns Gaming_Verify [ev DesktopQuery (Ok DesktopStatusStopped); ev EngineReachable (Ok false); ev WSLRunning (Ok [])]
                 (mkGamingVerification true false true false true false [], None)) by (repeat constructor).
  split; [exact Hr|]. destruct (gaming_verified_by_observation _ _ _ Hr) as (d & e & w & _ & Hh & _). by apply Hh.
Defined.

Lemma desktop_change_confirmed_witness :
  observed_ready [ev DesktopStart None; ev DesktopQuery (Ok DesktopStatusRunning); ev EngineReachable (Ok true)]
    (fun p => bool_decide (fst p = DesktopStatusRunning) && snd p).
Proof.
  apply (desktop_change_confirmed (mkDesktopAdapter true true true 1) 1). repeat constructor.
Defined.

Lemma windows_text_round_trip_witness : parseWSLDistributions (with_bom (utf16le "Ubuntu")) = ["Ubuntu"].
Proof.
  unfold parseWSLDistributions. rewrite (proj2 (proj2 (windows_text_round_trip "Ubuntu" eq_refl))). reflexivity.
Defined.
End HostSamples.
