(* ===== verification/ExportNotices.v ===== *)
(** The notices about telemetry exports (internal/telemetry/export_degraded.go):
    a sink that reports an unreachable endpoint once, summarises the failures that
    follow at intervals and reports the recovery, instead of logging every failed
    export.

    The sink's methods run under its lock, so each is one atomic function; the
    readings of the clock are arguments. *)

From S2P Require Import Prelude GoStrings Regexp Model GoText Errors Reconciler.
From stdpp Require Import gmap.
#[local] Open Scope Z_scope.

Definition defaultExportDegradedSummaryInterval : duration := 5 * 60 * 1000000000.

Inductive ExportNoticeKind := ExportNoticeUnreachable | ExportNoticeDegradedSummary | ExportNoticeRestored | ExportNoticeOther.

Record ExportNotice := mkExportNotice {
  xn_Kind : ExportNoticeKind;
  xn_Err : option error;
  xn_Suppressed : Z;
}.

Inductive exportSignal := exportSignalTraces | exportSignalMetrics.

#[export] Instance exportSignal_eq_dec : EqDecision exportSignal.
Proof. solve_decision. Defined.
#[export] Instance exportSignal_countable : Countable exportSignal.
Proof.
  refine (inj_countable' (fun s => match s with exportSignalTraces => true | exportSignalMetrics => false end)
                         (fun b : bool => if b then exportSignalTraces else exportSignalMetrics) _).
  by intros [].
Defined.

Record exportDegradedSink := mkExportDegradedSink {
  xs_enabled : gset exportSignal;
  xs_degraded : gset exportSignal;
  xs_suppressed : Z;
  xs_lastErr : option error;
  xs_lastSummaryAt : time;
  xs_summaryInterval : duration;
}.

Definition newExportDegradedSink (summaryInterval : duration) (tracesEnabled metricsEnabled : bool) : exportDegradedSink :=
  mkExportDegradedSink
    ((if tracesEnabled then {[exportSignalTraces]} else ∅) ∪ (if metricsEnabled then {[exportSignalMetrics]} else ∅))
    ∅ 0 None 0
    (if summaryInterval <=? 0 then defaultExportDegradedSummaryInterval else summaryInterval).

(** ** Errors *)

Section Errors.
Context `{Unicode}.

Definition isExportError (err : error) : bool :=
  let message := ToLower (error_text err) in
  Contains message " export:" || Contains message "export timeout" || Contains message "failed to export" || Contains message "exporter export".

(** The signals an error concerns: the one it names, if enabled, or all. *)
Definition exportErrorSignals (err : error) (enabled : gset exportSignal) : gset exportSignal :=
  let message := ToLower (error_text err) in
  if Contains message "traces export:" then (if decide (exportSignalTraces ∈ enabled) then {[exportSignalTraces]} else enabled)
  else if Contains message "metrics export:" then (if decide (exportSignalMetrics ∈ enabled) then {[exportSignalMetrics]} else enabled)
  else enabled.

(** ** Operations: the sink afterwards and the notices sent *)

Definition emitSummaryLocked (s : exportDegradedSink) (now : time) : exportDegradedSink * list ExportNotice :=
  if xs_suppressed s =? 0 then (s, [])
  else ({| s with xs_suppressed := 0; xs_lastSummaryAt := now |},
        [mkExportNotice ExportNoticeDegradedSummary (xs_lastErr s) (xs_suppressed s)]).

(** [now] is the first reading of the clock and [later] the second. *)
Definition handle (s : exportDegradedSink) (err : option error) (now later : time) : exportDegradedSink * list ExportNotice :=
  match err with
  | None => (s, [])
  | Some err =>
      if negb (isExportError err) then (s, [mkExportNotice ExportNoticeOther (Some err) 0])
      else
        let signals := exportErrorSignals err (xs_enabled s) in
        if decide (signals = ∅) then (s, [])
        else
          let wasDegraded := negb (bool_decide (xs_degraded s = ∅)) in
          let newlyDegraded := negb (bool_decide (signals ⊆ xs_degraded s)) in
          let s := {| s with xs_degraded := xs_degraded s ∪ signals |} in
          if negb wasDegraded && newlyDegraded then
            ({| s with xs_lastErr := Some err; xs_suppressed := 0; xs_lastSummaryAt := now |},
             [mkExportNotice ExportNoticeUnreachable (Some err) 0])
          else if negb wasDegraded then (s, [])
          else
            let s := {| s with xs_suppressed := wrap_u64 (xs_suppressed s + 1);
                               xs_lastErr := match xs_lastErr s with None => Some err | lastErr => lastErr end |} in
            if xs_summaryInterval s <=? Sub now (xs_lastSummaryAt s) then emitSummaryLocked s later else (s, [])
  end.

Definition recordSuccess (s : exportDegradedSink) (signal : exportSignal) : exportDegradedSink * list ExportNotice :=
  if negb (bool_decide (signal ∈ xs_enabled s)) then (s, [])
  else if negb (bool_decide (signal ∈ xs_degraded s)) then (s, [])
  else
    let s := {| s with xs_degraded := xs_degraded s ∖ {[signal]} |} in
    if negb (bool_decide (xs_degraded s = ∅)) then (s, [])
    else ({| s with xs_suppressed := 0; xs_lastErr := None |}, [mkExportNotice ExportNoticeRestored None 0]).

Definition markUnreachable (s : exportDegradedSink) (err : option error) (now : time) : exportDegradedSink * list ExportNotice :=
  let err := match err with None => ErrNew "OTLP endpoint unreachable" | Some err => err end in
  if negb (bool_decide (xs_degraded s = ∅)) then (s, [])
  else ({| s with xs_degraded := xs_enabled s; xs_lastErr := Some err; xs_suppressed := 0; xs_lastSummaryAt := now |},
        [mkExportNotice ExportNoticeUnreachable (Some err) 0]).

(** The exporters around the vendor's report a success. *)
Definition instrumentedExport (s : exportDegradedSink) (signal : exportSignal) (err : option error) : exportDegradedSink * list ExportNotice :=
  match err with None => recordSuccess s signal | Some _ => (s, []) end.
End Errors.

(** ** Endpoints *)

(** The scheme, host name and port of a URL ([net/url]). *)
Class EndpointURLs := { parse_endpoint : string -> result error (string * string * string) }.

Definition defaultOTLPPort (protocol : string) : string := if String.eqb protocol "grpc" then "4317" else "4318".

Definition endpointHostPort `{EndpointURLs} (endpoint protocol : string) : result error (string * string) :=
  let endpoint := TrimSpace endpoint in
  if String.eqb endpoint "" then Ok ("127.0.0.1", if String.eqb protocol "grpc" then "4317" else "4318")
  else
    let explicitScheme := Contains endpoint "://" in
    let endpoint := if negb explicitScheme then "http://" +:+ endpoint else endpoint in
    match parse_endpoint endpoint with
    | Err e => Err e
    | Ok (scheme, host, port) =>
        if String.eqb host "" then Err (ErrNew "telemetry endpoint must include a host")
        else if String.eqb port "" then
          Ok (host, if explicitScheme
                    then (if String.eqb scheme "https" then "443" else if String.eqb scheme "http" then "80" else defaultOTLPPort protocol)
                    else defaultOTLPPort protocol)
        else Ok (host, port)
    end.

(** ** What an operator sees *)

Inductive export_op :=
  | Failed (err : option error) (now later : time)
  | Exported (signal : exportSignal) (err : option error)
  | ProbeFailed (err : option error) (now : time).

Definition perform `{Unicode} (s : exportDegradedSink) (op : export_op) : exportDegradedSink * list ExportNotice :=
  match op with
  | Failed err now later => handle s err now later
  | Exported signal err => instrumentedExport s signal err
  | ProbeFailed err now => markUnreachable s err now
  end.

Fixpoint perform_all `{Unicode} (s : exportDegradedSink) (ops : list export_op) : exportDegradedSink * list (list ExportNotice) :=
  match ops with
  | [] => (s, [])
  | op :: ops =>
      let '(s, notices) := perform s op in
      let '(s, rest) := perform_all s ops in
      (s, notices :: rest)
  end.

(** The signal an error names, and the enabled signals that count as down after
    it: the one it names, or all of them when it names none that is enabled. *)
Definition names_signal `{Unicode} (err : error) (signal : exportSignal) : bool :=
  Contains (ToLower (error_text err)) (match signal with exportSignalTraces => "traces export:" | exportSignalMetrics => "metrics export:" end).

Definition brings_down `{Unicode} (enabled : gset exportSignal) (err : error) (signal : exportSignal) : Prop :=
  signal ∈ enabled
  /\ (names_signal err exportSignalTraces = true -> exportSignalTraces ∈ enabled -> signal = exportSignalTraces)
  /\ (names_signal err exportSignalTraces = false -> names_signal err exportSignalMetrics = true ->
      exportSignalMetrics ∈ enabled -> signal = exportSignalMetrics).

(** The episode an operator is in: none, or an outage of the signals [down] that
    [cause] began, in which [missed] failures have not been reported since the
    notice at [since]. *)
Inductive episode := Reachable | Outage (down : gset exportSignal) (cause : error) (missed : Z) (since : time).

Definition down_in (e : episode) : gset exportSignal := match e with Reachable => ∅ | Outage down _ _ _ => down end.

(** The notices an operation sends and the episode it leads to.  The first failure
    of an episode is reported at once; a later one is only counted, until the
    interval has passed, and then all that were counted are reported with the
    episode's cause; an export that fails, or works for a signal that is not down,
    says nothing; one that works while another signal is down brings its own signal
    up in silence, and the one that brings up the last signal ends the episode with
    a notice; an error of another kind is always passed on. *)
Inductive notice_step `{Unicode} (enabled : gset exportSignal) (interval : duration) : episode -> export_op -> list ExportNotice -> episode -> Prop :=
  | step_no_error e now later : notice_step enabled interval e (Failed None now later) [] e
  | step_other e err now later : isExportError err = false ->
      notice_step enabled interval e (Failed (Some err) now later) [mkExportNotice ExportNoticeOther (Some err) 0] e
  | step_first down err now later : isExportError err = true -> (forall x, x ∈ down <-> brings_down enabled err x) ->
      notice_step enabled interval Reachable (Failed (Some err) now later)
        [mkExportNotice ExportNoticeUnreachable (Some err) 0] (Outage down err 0 now)
  | step_counted down down' cause missed since err now later : isExportError err = true -> Sub now since < interval ->
      (forall x, x ∈ down' <-> x ∈ down \/ brings_down enabled err x) ->
      notice_step enabled interval (Outage down cause missed since) (Failed (Some err) now later) []
        (Outage down' cause (missed + 1) since)
  | step_summary down down' cause missed since err now later : isExportError err = true -> interval <= Sub now since ->
      (forall x, x ∈ down' <-> x ∈ down \/ brings_down enabled err x) ->
      notice_step enabled interval (Outage down cause missed since) (Failed (Some err) now later)
        [mkExportNotice ExportNoticeDegradedSummary (Some cause) (missed + 1)] (Outage down' cause 0 later)
  | step_export_failed e signal err : notice_step enabled interval e (Exported signal (Some err)) [] e
  | step_export_usual e signal : signal ∉ down_in e -> notice_step enabled interval e (Exported signal None) [] e
  | step_recovering down cause missed since signal other : signal ∈ down -> other ∈ down -> other <> signal ->
      notice_step enabled interval (Outage down cause missed since) (Exported signal None) []
        (Outage (down ∖ {[signal]}) cause missed since)
  | step_restored cause missed since signal :
      notice_step enabled interval (Outage {[signal]} cause missed since) (Exported signal None)
        [mkExportNotice ExportNoticeRestored None 0] Reachable
  | step_probe err now :
      notice_step enabled interval Reachable (ProbeFailed err now)
        [mkExportNotice ExportNoticeUnreachable (Some (default (ErrNew "OTLP endpoint unreachable") err)) 0]
        (Outage enabled (default (ErrNew "OTLP endpoint unreachable") err) 0 now)
  | step_probe_again down cause missed since err now :
      notice_step enabled interval (Outage down cause missed since) (ProbeFailed err now) [] (Outage down cause missed since).

Inductive notice_run `{Unicode} (enabled : gset exportSignal) (interval : duration) : episode -> list export_op -> list (list ExportNotice) -> episode -> Prop :=
  | run_nil e : notice_run enabled interval e [] [] e
  | run_cons e op notices e' ops rest e'' :
      notice_step enabled interval e op notices e' -> notice_run enabled interval e' ops rest e'' ->
      notice_run enabled interval e (op :: ops) (notices :: rest) e''.

(** The machine leaves no choice: an operation has one notice list and one outcome. *)
Lemma notice_step_deterministic `{Unicode} enabled interval e op n1 e1 n2 e2 :
  notice_step enabled interval e op n1 e1 -> notice_step enabled interval e op n2 e2 -> n1 = n2 /\ e1 = e2.
Proof.
  intros [] Hstep; inversion Hstep; subst; cbn [down_in] in *; try (congruence || lia);
    try (split; [done|]; try done; f_equal; apply set_eq; intros x;
         match goal with H1 : (forall x, x ∈ ?d1 <-> _), H2 : (forall x, x ∈ ?d2 <-> _) |- _ ∈ ?d1 <-> _ ∈ ?d2 => by rewrite H1, H2 end);
    exfalso; repeat match goal with Hin : _ ∈ {[_]} |- _ => apply elem_of_singleton in Hin; subst end;
    first [done|match goal with Hout : _ ∉ {[_]} |- _ => by apply Hout, elem_of_singleton end].
Qed.

Lemma notice_run_deterministic `{Unicode} enabled interval e ops n1 e1 :
  notice_run enabled interval e ops n1 e1 -> forall n2 e2, notice_run enabled interval e ops n2 e2 -> n1 = n2 /\ e1 = e2.
Proof.
  induction 1 as [e|e op n e' ops rest e'' Hs _ IH]; intros n2 e2 Hrun; inversion Hrun; subst; [done|].
  destruct (notice_step_deterministic _ _ _ _ _ _ _ _ Hs ltac:(eassumption)) as [-> ->].
  by destruct (IH _ _ ltac:(eassumption)) as [-> ->].
Qed.

(** The episode of a sink. *)
Definition episode_of (s : exportDegradedSink) : episode :=
  match xs_lastErr s with
  | Some cause => if decide (xs_degraded s = ∅) then Reachable else Outage (xs_degraded s) cause (xs_suppressed s) (xs_lastSummaryAt s)
  | None => Reachable
  end.

Record sink_ok (s : exportDegradedSink) (count : Z) : Prop := {
  so_enabled : xs_enabled s <> ∅;
  so_degraded : xs_degraded s ⊆ xs_enabled s;
  so_cause : xs_degraded s <> ∅ -> xs_lastErr s <> None;
  so_suppressed : 0 <= xs_suppressed s <= count;
}.

Lemma episode_reachable s : xs_degraded s = ∅ -> episode_of s = Reachable.
Proof. intros He. unfold episode_of. destruct (xs_lastErr s); [by rewrite decide_True|done]. Qed.
Lemma episode_outage s cause : xs_lastErr s = Some cause -> xs_degraded s <> ∅ ->
  episode_of s = Outage (xs_degraded s) cause (xs_suppressed s) (xs_lastSummaryAt s).
Proof. intros Hc He. unfold episode_of. rewrite Hc. by rewrite decide_False. Qed.
Lemma down_in_episode s count : sink_ok s count -> down_in (episode_of s) = xs_degraded s.
Proof.
  intros [_ _ Hc _]. destruct (decide (xs_degraded s = ∅)) as [He|He]; [by rewrite episode_reachable|].
  destruct (xs_lastErr s) as [cause|] eqn:Hl; [|by destruct Hc]. by rewrite (episode_outage s cause).
Qed.

Lemma signals_ok `{Unicode} err (enabled : gset exportSignal) :
  enabled <> ∅ -> exportErrorSignals err enabled <> ∅ /\ exportErrorSignals err enabled ⊆ enabled.
Proof. intros He. unfold exportErrorSignals. repeat case_match; set_solver. Qed.

Lemma signals_brought_down `{Unicode} err (enabled : gset exportSignal) x :
  x ∈ exportErrorSignals err enabled <-> brings_down enabled err x.
Proof.
  unfold exportErrorSignals, brings_down, names_signal. set (message := ToLower (error_text err)).
  destruct (Contains message "traces export:"), (Contains message "metrics export:"); repeat case_decide;
    rewrite ?elem_of_singleton; split; try (intros ->; naive_solver); try naive_solver; destruct x; naive_solver.
Qed.

Definition simulates `{Unicode} (s : exportDegradedSink) (op : export_op) (count : Z) (s' : exportDegradedSink) (notices : list ExportNotice) : Prop :=
  notice_step (xs_enabled s) (xs_summaryInterval s) (episode_of s) op notices (episode_of s')
  /\ sink_ok s' (count + 1) /\ xs_summaryInterval s' = xs_summaryInterval s /\ xs_enabled s' = xs_enabled s.

Lemma simulates_same `{Unicode} s op count : sink_ok s count ->
  notice_step (xs_enabled s) (xs_summaryInterval s) (episode_of s) op [] (episode_of s) -> simulates s op count s [].
Proof. intros [] Hstep. split; [done|]. split; [|done]. split; auto; lia. Qed.

Lemma handle_simulates `{Unicode} s err now later count s' notices :
  sink_ok s count -> count < max_u64 -> handle s err now later = (s', notices) -> simulates s (Failed err now later) count s' notices.
Proof.
  intros Hok Hlt. unfold handle. destruct err as [err|]; [|intros [= <- <-]; apply simulates_same; [done|constructor]].
  pose proof Hok as [He Hd Hc Hs].
  destruct (isExportError err) eqn:Hx; cbn [negb];
    [|intros [= <- <-]; split; [by constructor|split; [split; auto; lia|done]]].
  destruct (signals_ok err (xs_enabled s) He) as [Hne Hsub]. destruct (decide (_ = ∅)) as [|_]; [done|].
  destruct (decide (xs_degraded s = ∅)) as [Hempty|Hsome].
  - rewrite (bool_decide_true (xs_degraded s = ∅)) by done. rewrite bool_decide_false by set_solver. cbn [negb andb].
    intros [= <- <-]. unfold simulates. rewrite (episode_reachable s) by done.
    erewrite episode_outage by (cbn; first [reflexivity|set_solver]). cbn.
    split; [constructor; [done|]; intros x; by rewrite Hempty, union_empty_l_L, signals_brought_down|]. split; [|done]. split; cbn; [done|set_solver|done|lia].
  - rewrite (bool_decide_false (xs_degraded s = ∅)) by done. cbn [negb andb xs_summaryInterval xs_lastSummaryAt xs_suppressed xs_lastErr].
    rewrite wrap_u64_small by (unfold is_u64, max_u64 in *; lia).
    destruct (xs_lastErr s) as [cause|] eqn:Hcause; [|by destruct Hc]. unfold simulates. rewrite (episode_outage s cause) by done.
    destruct (Z.leb_spec (xs_summaryInterval s) (Sub now (xs_lastSummaryAt s))) as [Hdue|Hnot].
    + unfold emitSummaryLocked. cbn [xs_suppressed]. destruct (Z.eqb_spec (xs_suppressed s + 1) 0); [lia|]. intros [= <- <-].
      erewrite episode_outage by (cbn; first [reflexivity|set_solver]). cbn.
      split; [constructor; [done|done|]; intros x; by rewrite elem_of_union, signals_brought_down|]. split; [|done]. split; cbn; [done|set_solver|done|lia].
    + intros [= <- <-]. erewrite episode_outage by (cbn; first [reflexivity|set_solver]). cbn.
      split; [constructor; [done|done|]; intros x; by rewrite elem_of_union, signals_brought_down|]. split; [|done]. split; cbn; [done|set_solver|done|lia].
Qed.

Lemma last_signal (down : gset exportSignal) signal : signal ∈ down -> down ∖ {[signal]} = ∅ -> down = {[signal]}.
Proof.
  intros Hin Hnone. apply set_eq. intros x. rewrite elem_of_singleton. split; [|by intros ->].
  intros Hx. destruct (decide (x = signal)) as [|Hne]; [done|].
  assert (Hd : x ∈ down ∖ {[signal]}) by (by rewrite elem_of_difference, elem_of_singleton).
  rewrite Hnone in Hd. by apply elem_of_empty in Hd.
Qed.

Lemma success_simulates `{Unicode} s signal err count s' notices :
  sink_ok s count -> instrumentedExport s signal err = (s', notices) -> simulates s (Exported signal err) count s' notices.
Proof.
  intros Hok. unfold instrumentedExport, recordSuccess.
  destruct err as [err|]; [intros [= <- <-]; apply simulates_same; [done|constructor]|].
  pose proof (down_in_episode s count Hok) as Hdown. pose proof Hok as [He Hd Hc Hs].
  destruct (bool_decide_reflect (signal ∈ xs_enabled s)) as [_|]; cbn [negb];
    [|intros [= <- <-]; apply simulates_same; [done|constructor; set_solver]].
  destruct (bool_decide_reflect (signal ∈ xs_degraded s)) as [Hin|]; cbn [negb xs_degraded];
    [|intros [= <- <-]; apply simulates_same; [done|constructor; by rewrite Hdown]].
  destruct (xs_lastErr s) as [cause|] eqn:Hcause; [|by destruct Hc; [set_solver|]].
  unfold simulates. rewrite (episode_outage s cause) by (done || set_solver).
  destruct (bool_decide_reflect (xs_degraded s ∖ {[signal]} = ∅)) as [Hnone|Hsome]; cbn [negb]; intros [= <- <-].
  - rewrite episode_reachable by (cbn; set_solver). assert (xs_degraded s = {[signal]}) as -> by (by apply last_signal).
    split; [constructor|]. split; [|done]. split; cbn; [done|set_solver|intros []; by rewrite difference_diag_L|lia].
  - erewrite episode_outage by (cbn; first [exact Hcause|set_solver]). cbn.
    apply set_choose_L in Hsome as [other Hother].
    split; [apply (step_recovering _ _ _ _ _ _ _ other); set_solver|].
    split; [|done]. split; cbn; [done|set_solver|congruence|lia].
Qed.

Lemma probe_simulates `{Unicode} s err now count s' notices :
  sink_ok s count -> markUnreachable s err now = (s', notices) -> simulates s (ProbeFailed err now) count s' notices.
Proof.
  intros Hok. pose proof Hok as [He Hd Hc Hs]. unfold markUnreachable. destruct (decide (xs_degraded s = ∅)) as [Hempty|Hdown].
  - rewrite bool_decide_true by done. cbn [negb]. intros [= <- <-]. unfold simulates. rewrite (episode_reachable s) by done.
    erewrite episode_outage by (cbn; done). cbn. split; [by destruct err; apply step_probe|]. split; [|done]. split; cbn; [done|done|done|lia].
  - rewrite bool_decide_false by done. cbn [negb]. intros [= <- <-]. apply simulates_same; [done|].
    destruct (xs_lastErr s) as [cause|] eqn:Hcause; [|by destruct Hc]. rewrite (episode_outage s cause) by done. constructor.
Qed.

Lemma perform_simulates `{Unicode} s op count s' notices :
  sink_ok s count -> count < max_u64 -> perform s op = (s', notices) -> simulates s op count s' notices.
Proof. destruct op; cbn [perform]; eauto using handle_simulates, success_simulates, probe_simulates. Qed.

Lemma run_simulates `{Unicode} ops : forall s count s' notices,
  sink_ok s count -> count + Z.of_nat (length ops) <= max_u64 -> perform_all s ops = (s', notices) ->
  notice_run (xs_enabled s) (xs_summaryInterval s) (episode_of s) ops notices (episode_of s') /\ down_in (episode_of s') = xs_degraded s'.
Proof.
  induction ops as [|op ops IH]; intros s count s' notices Hs Hn; cbn [perform_all];
    [intros [= <- <-]; split; [constructor|by eapply down_in_episode]|].
  cbn [length] in Hn. destruct (perform s op) as [s1 n1] eqn:H1. destruct (perform_all s1 ops) as [s2 rest] eqn:H2. intros [= <- <-].
  destruct (perform_simulates _ _ _ _ _ Hs ltac:(lia) H1) as (Hstep & Hs1 & Hi & Hen).
  rewrite <- Hi, <- Hen in *. destruct (IH s1 (count + 1) s2 rest Hs1 ltac:(lia) H2) as [Hrun Hdown].
  split; [|exact Hdown]. by econstructor.
Qed.

(** C35: Failed exports are reported by episodes.  Whatever the order of failures,
    successes and failed probes, the notices of a new sink with an enabled signal
    are exactly those of the episodes, and no others: one at the first failure,
    then only summaries, no sooner than the interval after the last notice, with
    the cause of the episode and the exact number of failures since, and one notice
    at the recovery, which is the success that brings up the last signal that was
    down; successes of other signals are silent, and errors of another kind are
    always passed on. *)
Theorem notices_follow_episodes `{Unicode} interval traces metrics ops s notices :
  traces || metrics = true -> Z.of_nat (length ops) <= max_u64 ->
  perform_all (newExportDegradedSink interval traces metrics) ops = (s, notices) ->
  exists enabled e,
    (exportSignalTraces ∈ enabled <-> traces = true) /\ (exportSignalMetrics ∈ enabled <-> metrics = true) /\ down_in e = xs_degraded s /\
    forall notices' e', notice_run enabled (if interval <=? 0 then 5 * 60 * 1000000000 else interval) Reachable ops notices' e'
                        <-> notices' = notices /\ e' = e.
Proof.
  intros Hen Hn Hp. set (sink := newExportDegradedSink interval traces metrics) in *.
  assert (Hok : sink_ok sink 0) by (split; cbn; [by destruct traces, metrics; set_solver|set_solver|done|lia]).
  destruct (run_simulates ops sink 0 s notices Hok ltac:(lia) Hp) as [Hrun Hdown].
  exists (xs_enabled sink), (episode_of s). split; [cbn; destruct traces, metrics; set_solver|].
  split; [cbn; destruct traces, metrics; set_solver|].
  split; [exact Hdown|].
  intros notices' e'. split; [|by intros [-> ->]]. intros Hother. by destruct (notice_run_deterministic _ _ _ _ _ _ Hother _ _ Hrun).
Qed.

(** ** Samples *)
Module ExportSamples.
#[local] Instance plain_unicode : Unicode := {| to_lower r := r |}.

Definition refused : error := ErrNew "traces export: connection refused".
Definition sample_ops : list export_op :=
  [Failed (Some refused) 10 11; Failed (Some refused) 20 21; Failed (Some refused) 120 121; Exported exportSignalTraces None].

Lemma notices_follow_episodes_witness :
  map (map xn_Kind) (snd (perform_all (newExportDegradedSink 100 true true) sample_ops))
    = [[ExportNoticeUnreachable]; []; [ExportNoticeDegradedSummary]; [ExportNoticeRestored]] /\
  let '(s, notices) := perform_all (newExportDegradedSink 100 true true) sample_ops in
  exists enabled e, down_in e = ∅ /\ notice_run enabled 100 Reachable sample_ops notices e.
Proof.
  split; [vm_compute; reflexivity|]. destruct (perform_all (newExportDegradedSink 100 true true) sample_ops) as [s notices] eqn:Hp.
  destruct (notices_follow_episodes 100 true true sample_ops s notices eq_refl ltac:(vm_compute; discriminate) Hp)
    as (enabled & e & _ & _ & Hdown & Hrun).
  exists enabled, e. split; [|by apply Hrun]. rewrite Hdown. vm_compute in Hp. injection Hp as <- _. vm_compute. reflexivity.
Defined.
End ExportSamples.
