(* ===== verification/Doctor.v ===== *)
(** The command [ci-runner host doctor] (internal/app/doctor.go): the checks it derives
    from the desired and the observed state, the controller's answer, the host's
    inventory and the local inspection, how they are printed and the exit code.

    The state store, the control plane, the clock, the host and the inspector are
    calls with arbitrary answers; the deadline a probe runs under belongs to its
    context and is not visible here. *)

From S2P Require Import Prelude Float64 GoStrings Regexp Model Config GoText Validate Errors Effects Reconciler Control Transport FileSystem Interaction Watchdog Host Cli Samples ConfigSamples.
From stdpp Require Import pretty.
From Stdlib Require Import Ascii.
#[local] Open Scope Z_scope.
Open Scope i_scope.

(** ** Times and durations as texts *)

(** [Duration.Round]. *)
Definition Duration_Round (d m : duration) : duration :=
  if m <=? 0 then d
  else
    let r := Z.rem d m in
    if d <? 0 then
      let r := - r in
      if 2 * r <? m then d + r
      else
        let d1 := wrap_i64 (wrap_i64 (d - m) + r) in
        if d1 <? d then d1 else min_i64
    else if 2 * r <? m then d - r
    else
      let d1 := wrap_i64 (wrap_i64 (d + m) - r) in
      if d <? d1 then d1 else max_i64.

(** The year, month and day of a number of days since the first of January of the
    year 1, counted from the first of March of the year 0. *)
Definition civil_date (days : Z) : Z * Z * Z :=
  let z := days + 306 in
  let era := z / 146097 in
  let doe := z mod 146097 in
  let yoe := (doe - doe / 1460 + doe / 36524 - doe / 146096) / 365 in
  let doy := doe - (365 * yoe + yoe / 4 - yoe / 100) in
  let mp := (5 * doy + 2) / 153 in
  let month := if mp <? 10 then mp + 3 else mp - 9 in
  (yoe + era * 400 + (if month <=? 2 then 1 else 0), month, doy - (153 * mp + 2) / 5 + 1).

Fixpoint zeros (n : nat) : string := match n with O => "" | S n => String "0" (zeros n) end.
Definition padded (width : nat) (z : Z) : string := let t := pretty z in zeros (width - String.length t) +:+ t.

(** A time in UTC under the layout [time.RFC3339]. *)
Definition Format_RFC3339 (t : time) : string :=
  let seconds := t / Second in
  let '(year, month, day) := civil_date (seconds / 86400) in
  let clock := seconds mod 86400 in
  padded 4 year +:+ "-" +:+ padded 2 month +:+ "-" +:+ padded 2 day +:+ "T"
  +:+ padded 2 (clock / 3600) +:+ ":" +:+ padded 2 (clock / 60 mod 60) +:+ ":" +:+ padded 2 (clock mod 60) +:+ "Z".

(** A boolean under the verb [%t]. *)
Definition bool_text (b : bool) : string := if b then "true" else "false".

(** ** Checks *)

Record DoctorCheck := mkDoctorCheck {
  dc_Name : string;
  dc_Healthy : bool;
  dc_Skipped : bool;
  dc_Advisory : bool;
  dc_Detail : string;
}.

Record DoctorInspection := mkDoctorInspection {
  di_CheckDocker : bool;
  di_RequireDocker : bool;
  di_IncludeElevated : bool;
}.

(** A check with its name, result and detail only. *)
Definition plain (name : string) (healthy : bool) (detail : string) : DoctorCheck := mkDoctorCheck name healthy false false detail.

Definition desiredStateDetail (mode : Mode) : string :=
  match mode with
  | ModeDisabled => "disabled; persisted in desired.json across reboot; ci-runner host enable is required to resume runners"
  | ModeGaming => "gaming; persisted in desired.json across reboot"
  | _ => Mode_string mode
  end.

Definition validPhase (phase : Phase) : bool := match phase with PhaseOther _ => false | _ => true end.

(** ** Limits *)

Definition listenerAcknowledgementConvergenceLegs : Z := 2.

Definition saturatingFreshnessDuration (request retryBackoff reconcile : duration) (retryUnits : Z) : duration :=
  let maximum := max_i64 in
  let retryUnits := Z.max retryUnits 1 in
  let perAttempt := request in
  if wrap_i64 (maximum - perAttempt) <? retryBackoff then maximum
  else
    let perAttempt := wrap_i64 (perAttempt + retryBackoff) in
    if Z.quot maximum retryUnits <? perAttempt then maximum
    else
      let result := wrap_i64 (perAttempt * retryUnits) in
      if (Z.quot maximum 2 <? reconcile) || (wrap_i64 (maximum - wrap_i64 (2 * reconcile)) <? result) then maximum
      else wrap_i64 (result + wrap_i64 (2 * reconcile)).

Definition observedFreshnessLimit (cfg : Config) : duration :=
  saturatingFreshnessDuration
    (gh_RequestTimeout (c_GitHub cfg)) (rt_Maximum (gh_Retry (c_GitHub cfg))) (co_ReconcileInterval (c_Controller cfg))
    (saturatingMulInt (Z.max (rt_MaxAttempts (gh_Retry (c_GitHub cfg))) 1) (Z.max (Z.of_nat (length (c_Targets cfg))) 1)).

Definition listenerAcknowledgementGrace (cfg : Config) : duration :=
  saturatingFreshnessDuration
    (gh_RequestTimeout (c_GitHub cfg)) (maxJitteredBackoff cfg) (co_ReconcileInterval (c_Controller cfg))
    (saturatingMulInt (Z.max (rt_MaxAttempts (gh_Retry (c_GitHub cfg))) 1) listenerAcknowledgementConvergenceLegs).

(** ** Gaming mode *)

Definition observedGamingViolation (v : GamingVerification) : bool :=
  (negb (gv_DesktopUnverified v) && negb (gv_DesktopStopped v))
  || (negb (gv_DockerUnverified v) && negb (gv_DockerUnreachable v))
  || (negb (gv_WSLUnverified v) && negb (gv_NoRunningWSL v)).

Definition postconditionState (satisfied unverified : bool) : string :=
  if unverified then "unverified" else if satisfied then "true" else "false".

Definition gaming_check (verification : GamingVerification) (err : option error) : DoctorCheck :=
  let detail :=
    "desktopStopped=" +:+ postconditionState (gv_DesktopStopped verification) (gv_DesktopUnverified verification)
    +:+ " dockerUnreachable=" +:+ postconditionState (gv_DockerUnreachable verification) (gv_DockerUnverified verification)
    +:+ " noRunningWSL=" +:+ postconditionState (gv_NoRunningWSL verification) (gv_WSLUnverified verification)
    +:+ (match err with Some e => ": " +:+ error_text e | None => "" end) in
  let unverified := gv_DesktopUnverified verification || gv_DockerUnverified verification || gv_WSLUnverified verification in
  mkDoctorCheck "gaming-postconditions"
    (match err with None => gv_DesktopStopped verification && gv_DockerUnreachable verification && gv_NoRunningWSL verification | Some _ => false end)
    false (unverified && negb (observedGamingViolation verification)) detail.

Definition inventory_checks (gamingMode : bool) (inventory : HostInventory) : list DoctorCheck :=
  mkDoctorCheck "docker-desktop-cli" (negb (bool_decide (hi_DesktopStatus inventory = DesktopStatusUnknown))) false gamingMode
    (DesktopState_string (hi_DesktopStatus inventory))
  :: imap (fun index problem => mkDoctorCheck ("host-inventory/" +:+ pretty (Z.of_nat index + 1)) false false gamingMode problem)
       (hi_Problems inventory).

(** ** The stored state and the controller *)

Definition desired_check (loaded : result error DesiredState) : DoctorCheck :=
  match loaded with
  | Err e => plain "desired-state" false
               (if not_found e then "not initialized; run host enable, disable, or game; a reboot does not enable the host" else error_text e)
  | Ok desired => plain "desired-state" (Mode_Valid (ds_Mode desired)) (desiredStateDetail (ds_Mode desired))
  end.

Definition control_check (status : Status) : DoctorCheck :=
  plain "controller-control-plane"
    (negb (sta_ProcessID status =? 0) && validPhase (sta_Phase status) && negb (bool_decide (sta_Phase status = PhaseDegraded))
     && negb (String.eqb (TrimSpace (sta_Version status)) "") && negb (sta_ShuttingDown status))
    ("pid=" +:+ pretty (sta_ProcessID status) +:+ " phase=" +:+ Phase_string (sta_Phase status)
     +:+ " version=" +:+ displayValue (sta_Version status) +:+ " activeJobs=" +:+ pretty (sta_ActiveJobCount status)
     +:+ " shuttingDown=" +:+ bool_text (sta_ShuttingDown status)).

(** The controller answers and is not on its way out. *)
Definition serving (live : option Status) : bool := match live with Some status => negb (sta_ShuttingDown status) | None => false end.

Section Checks.
Context (cfg : Config) (desired : option DesiredState) (live : option Status) (observed : ObservedState) (now : time).

(** The desired state was read, is valid and asks for this mode. *)
Definition asks_for (mode : Mode) : bool :=
  match desired with Some d => Mode_Valid (ds_Mode d) && bool_decide (ds_Mode d = mode) | None => false end.

Definition heartbeat_age : duration := Sub now (os_HeartbeatAt observed).

Definition observed_check : DoctorCheck :=
  let maximumAge := observedFreshnessLimit cfg in
  let futureTolerance := wrap_i64 (2 * co_ReconcileInterval (c_Controller cfg)) in
  let fresh := negb (IsZero (os_HeartbeatAt observed)) && (heartbeat_age <=? maximumAge) && (wrap_i64 (- futureTolerance) <=? heartbeat_age) in
  let healthy := (os_SchemaVersion observed =? 1) && validPhase (os_Phase observed)
                 && negb (bool_decide (os_Phase observed = PhaseDegraded)) && fresh in
  let healthy := match live with
                 | Some status => if negb (String.eqb (os_Version observed) (sta_Version status)) then false else healthy
                 | None => healthy
                 end in
  plain "observed-state" healthy
    ("phase=" +:+ Phase_string (os_Phase observed) +:+ " version=" +:+ displayValue (os_Version observed)
     +:+ " heartbeat=" +:+ Format_RFC3339 (os_HeartbeatAt observed)
     +:+ " age=" +:+ Duration_String (Duration_Round heartbeat_age Second) +:+ " maximumAge=" +:+ Duration_String maximumAge).

Definition liveness_check : list DoctorCheck :=
  if serving live then
    let livenessLimit := ReconcileLivenessLimit (co_ReconcileInterval (c_Controller cfg)) in
    [plain "controller-reconcile-liveness" (negb (IsZero (os_HeartbeatAt observed)) && (heartbeat_age <=? livenessLimit))
       ("heartbeatAge=" +:+ Duration_String (Duration_Round heartbeat_age Second) +:+ " maximumAge=" +:+ Duration_String livenessLimit)]
  else [].

Definition progress_check : list DoctorCheck :=
  if asks_for ModeEnabled && serving live then
    let startupGrace := co_StartupTimeout (c_Controller cfg) in
    let updatedAt := match desired with Some d => ds_UpdatedAt d | None => 0 end in
    let neverReady := bool_decide (os_Phase observed = PhaseDisabled) in
    let startupWedged := bool_decide (os_Phase observed = PhaseStarting) && (0 <? startupGrace)
                         && negb (IsZero updatedAt) && (startupGrace <? Sub now updatedAt) in
    if neverReady || startupWedged then
      [plain "controller-reconcile-progress" false
         ("desired=" +:+ Mode_string ModeEnabled +:+ " observedPhase=" +:+ Phase_string (os_Phase observed)
          +:+ "; live controller has not reached a serving phase")]
    else []
  else [].

Definition listener_check (pools : gmap string PoolObservation) (target : Target) : DoctorCheck :=
  let found := match pools !! t_ID target with Some _ => true | None => false end in
  let pool := default PoolObservation_zero (pools !! t_ID target) in
  let acknowledgementAge := Sub now (po_UpdatedAt pool) in
  let acknowledgementGrace := listenerAcknowledgementGrace cfg in
  let pendingWithinGrace := found && negb (po_CapacityAcknowledged pool) && negb (IsZero (po_UpdatedAt pool))
                            && (0 <=? acknowledgementAge) && (acknowledgementAge <=? acknowledgementGrace) in
  let acknowledgedZeroStarved := asks_for ModeEnabled && bool_decide (os_Phase observed = PhaseReady)
                                 && po_CapacityAcknowledged pool && (0 <? po_DesiredWorkers pool) && (po_MaxCapacity pool =? 0) in
  let healthy := found && (0 <? po_ScaleSetID pool) && negb (String.eqb (po_ListenerID pool) "")
                 && (po_CapacityAcknowledged pool || pendingWithinGrace) && negb acknowledgedZeroStarved in
  let detail :=
    if found then
      "scaleSetId=" +:+ pretty (po_ScaleSetID pool) +:+ " listenerId=" +:+ displayValue (po_ListenerID pool)
      +:+ " desiredWorkers=" +:+ pretty (po_DesiredWorkers pool) +:+ " capacity=" +:+ pretty (po_MaxCapacity pool)
      +:+ " assigned=" +:+ pretty (po_TotalAssignedJobs pool) +:+ " acknowledged=" +:+ bool_text (po_CapacityAcknowledged pool)
      +:+ " transitionAge=" +:+ Duration_String (Duration_Round acknowledgementAge Second)
      +:+ " grace=" +:+ Duration_String acknowledgementGrace
    else "no current listener observation" in
  plain ("github-listener/" +:+ t_ID target) healthy detail.

Definition observed_pools : gmap string PoolObservation :=
  fold_left (fun pools pool => <[po_ID pool := pool]> pools) (os_Pools observed) ∅.

Definition problem_check (problem : Problem) : DoctorCheck := plain ("problem/" +:+ pb_Code problem) false (pb_Message problem).

Definition starvation_check : list DoctorCheck :=
  if asks_for ModeEnabled && bool_decide (os_Phase observed = PhaseResourceConstrained) then
    let starved := negb (existsb (fun pool => (0 <? po_MaxCapacity pool) || (0 <? po_TotalAssignedJobs pool)) (os_Pools observed))
                   && negb (existsb (fun w => bool_decide (w_State w = WorkerBusy) || bool_decide (w_State w = WorkerStarting)) (os_Workers observed)) in
    if starved then
      [plain "capacity-starved" false
         ("phase=" +:+ Phase_string (os_Phase observed) +:+ "; every pool advertised capacity 0 and no work is active")]
    else []
  else [].

Definition observed_checks : list DoctorCheck :=
  [observed_check] ++ liveness_check ++ progress_check
  ++ map (listener_check observed_pools) (c_Targets cfg)
  ++ map problem_check (os_Problems observed)
  ++ starvation_check.

End Checks.

(** ** The command *)

Inductive kcall :=
  | DoctorLoadDesired
  | DoctorStatus
  | DoctorLoadObserved
  | DoctorNow
  | DoctorInventory
  | DoctorVerify
  | DoctorInspect (request : DoctorInspection)
  | DoctorJSON (checks : list DoctorCheck)
  | DoctorOut (text : string)
  | DoctorErr (text : string).

Definition kresp (c : kcall) : Type :=
  match c with
  | DoctorLoadDesired => result error DesiredState
  | DoctorStatus => result cerror Status
  | DoctorLoadObserved => result error ObservedState
  | DoctorNow => time
  | DoctorInventory => HostInventory
  | DoctorVerify => GamingVerification * option error
  | DoctorInspect _ => list DoctorCheck
  | DoctorJSON _ => option error
  | DoctorOut _ | DoctorErr _ => unit
  end.

Abbreviation kprog := (iprog kresp).
Definition kask (c : kcall) : kprog (kresp c) := icall c.

Definition verdict (check : DoctorCheck) : string :=
  if dc_Skipped check then "SKIP"
  else if negb (dc_Healthy check) && dc_Advisory check then "WARN"
  else if negb (dc_Healthy check) then "FAIL"
  else "PASS".

Fixpoint print_checks (checks : list DoctorCheck) : kprog () :=
  match checks with
  | [] => IRet ()
  | check :: checks =>
      let^ _ := kask (DoctorOut ("[" +:+ verdict check +:+ "] " +:+ dc_Name check +:+ ": " +:+ dc_Detail check +:+ newline)) in
      print_checks checks
  end.

(** The check degrades the exit code. *)
Definition degrades (check : DoctorCheck) : bool := negb (dc_Skipped check) && negb (dc_Advisory check) && negb (dc_Healthy check).

Definition doctor_exit (checks : list DoctorCheck) : Z := if existsb degrades checks then ExitDegraded else ExitOK.

Section Command.
Context (app : Application) (inspector : bool).

Definition live_checks : kprog (option Status * list DoctorCheck) :=
  if negb (ap_Control app) then IRet (None, [plain "controller-control-plane" false "controller control-plane dependency is unavailable"])
  else
    let^ status := kask DoctorStatus in
    IRet (match status with
          | Err e => (None, [plain "controller-control-plane" false (cerror_text e)])
          | Ok status => (Some status, [control_check status])
          end).

Definition state_checks (desired : option DesiredState) (live : option Status) : kprog (list DoctorCheck) :=
  let^ observed := kask DoctorLoadObserved in
  match observed with
  | Err e => IRet [plain "observed-state" false
                     (if not_found e then "no observed state; the scheduled controller may not have started" else error_text e)]
  | Ok observed =>
      let^ now := kask DoctorNow in
      IRet (observed_checks (ap_Config app) desired live observed now)
  end.

(** Whether Docker is reachable, and the checks of the host. *)
Definition host_checks (gamingMode : bool) : kprog (bool * list DoctorCheck) :=
  if negb (ap_Gaming app) then IRet (false, [plain "host-inventory" false "host inventory dependency is unavailable"])
  else
    let^ inventory := kask DoctorInventory in
    let checks := inventory_checks gamingMode inventory in
    if gamingMode then
      let^ verified := kask DoctorVerify in
      IRet (hi_DockerReachable inventory, checks ++ [gaming_check (fst verified) (snd verified)])
    else IRet (hi_DockerReachable inventory, checks).

Definition require_docker (desired : option DesiredState) (live : option Status) : bool :=
  if match live with Some status => bool_decide (sta_Phase status = PhasePowerSuspended) | None => false end then false
  else asks_for desired ModeEnabled.

Definition inspection_checks (request : DoctorInspection) : kprog (list DoctorCheck) :=
  if negb inspector then IRet [plain "host-security-and-runtime" false "doctor inspector dependency is unavailable"]
  else kask (DoctorInspect request).

Definition doctor (args : list string) : kprog Z :=
  match parse_flags [("json", FlagBool); ("include-elevated", FlagBool)] args with
  | Some (values, []) =>
      let includeElevated := flag_bool values "include-elevated" in
      let^ _ := if includeElevated
                then kask (DoctorErr ("WARNING: --include-elevated may open an Administrator UAC prompt while verifying BitLocker; continue only when that prompt is expected." +:+ newline))
                else IRet () in
      let^ loaded := kask DoctorLoadDesired in
      let desired := match loaded with Ok d => Some d | Err _ => None end in
      let^ answered := live_checks in
      let live := fst answered in
      let^ observed := state_checks desired live in
      let^ host := host_checks (asks_for desired ModeGaming) in
      let^ inspected := inspection_checks (mkDoctorInspection (fst host) (require_docker desired live) includeElevated) in
      let checks := [plain "configuration" true "strict configuration loaded and validated"; desired_check loaded]
                    ++ snd answered ++ observed ++ snd host ++ inspected in
      if flag_bool values "json" then
        let^ encoded := kask (DoctorJSON checks) in
        match encoded with
        | Some e => let^ _ := kask (DoctorErr ("write doctor output: " +:+ error_text e +:+ newline)) in IRet ExitRuntime
        | None => IRet (doctor_exit checks)
        end
      else
        let^ _ := print_checks checks in
        IRet (doctor_exit checks)
  | _ => IRet ExitUsage
  end.

End Command.
