(* ===== verification/DoctorFacts.v ===== *)
(** What the doctor's exit code means: the limits it applies are the exact sums, and
    it exits cleanly only for a host whose controller answers, reconciles and serves. *)

From S2P Require Import Prelude Float64 GoStrings Regexp Model Config GoText Validate Errors Effects Reconciler Control Transport FileSystem Interaction Watchdog Host Cli Doctor Samples ConfigSamples.
From stdpp Require Import pretty.
#[local] Open Scope Z_scope.
Open Scope i_scope.

(** ** Limits *)

(** The guards cut the sum at the largest duration. *)
Lemma saturatingFreshnessDuration_exact request backoff reconcile units :
  0 <= request <= max_i64 -> 0 <= backoff <= max_i64 -> 0 <= reconcile <= max_i64 ->
  saturatingFreshnessDuration request backoff reconcile units = clamp (Z.max units 1 * (request + backoff) + 2 * reconcile).
Proof.
  intros Hr Hb Hc. unfold saturatingFreshnessDuration, clamp. set (n := Z.max units 1). assert (Hn : 1 <= n) by (unfold n; lia).
  rewrite (wrap_i64_small (max_i64 - request)) by (unfold is_i64, min_i64; lia).
  destruct (Z.ltb_spec (max_i64 - request) backoff); [nia|].
  rewrite (wrap_i64_small (request + backoff)) by (unfold is_i64, min_i64; lia).
  rewrite Z.quot_div_nonneg by (unfold max_i64; lia).
  pose proof (Z.mul_div_le max_i64 n ltac:(lia)). pose proof (Z.mul_succ_div_gt max_i64 n ltac:(lia)).
  destruct (Z.ltb_spec (max_i64 / n) (request + backoff)); [nia|].
  assert (Hp : (request + backoff) * n <= max_i64) by nia.
  rewrite (wrap_i64_small ((request + backoff) * n)) by (unfold is_i64, min_i64; nia).
  assert (Hq : Z.quot max_i64 2 = 4611686018427387903) by done. rewrite Hq. unfold max_i64 in *.
  destruct (Z.ltb_spec 4611686018427387903 reconcile); simpl; [nia|].
  rewrite (wrap_i64_small (2 * reconcile)) by (unfold is_i64, min_i64, max_i64; lia).
  rewrite wrap_i64_small by (unfold is_i64, min_i64, max_i64; lia).
  destruct (Z.ltb_spec (2 ^ 63 - 1 - 2 * reconcile) ((request + backoff) * n)); [nia|].
  rewrite wrap_i64_small by (unfold is_i64, min_i64, max_i64; nia). nia.
Qed.

(** The doctor's limit on the age of the heartbeat is one request and one longest wait
    for every attempt at every target, and two reconcile intervals, exactly, cut at
    the largest duration: no configuration makes it wrap around. *)
Theorem observedFreshnessLimit_exact cfg :
  0 <= gh_RequestTimeout (c_GitHub cfg) <= max_i64 -> 0 <= rt_Maximum (gh_Retry (c_GitHub cfg)) <= max_i64 ->
  0 <= co_ReconcileInterval (c_Controller cfg) <= max_i64 ->
  observedFreshnessLimit cfg =
    Z.min max_i64
      (Z.max (rt_MaxAttempts (gh_Retry (c_GitHub cfg))) 1 * Z.max (Z.of_nat (length (c_Targets cfg))) 1
         * (gh_RequestTimeout (c_GitHub cfg) + rt_Maximum (gh_Retry (c_GitHub cfg)))
       + 2 * co_ReconcileInterval (c_Controller cfg)).
Proof.
  intros Hr Hb Hc. unfold observedFreshnessLimit. rewrite saturatingFreshnessDuration_exact by done.
  rewrite saturatingMulInt_exact by lia. set (n := _ * Z.max (Z.of_nat _) 1). assert (Hn : 1 <= n) by (unfold n; nia).
  set (p := _ + rt_Maximum _) in *. assert (Hp : 0 <= p) by (unfold p; lia). rewrite Z.max_l by (unfold clamp, max_i64; lia).
  unfold clamp. destruct (Z.min_spec max_i64 n) as [[Hm ->]|[Hm ->]]; [|done].
  destruct (decide (p = 0)) as [->|]; [lia|]. unfold max_i64 in *. nia.
Qed.

Lemma observedFreshnessLimit_exact_witness :
  observedFreshnessLimit full_config =
    Z.min max_i64
      (Z.max (rt_MaxAttempts (gh_Retry (c_GitHub full_config))) 1 * Z.max (Z.of_nat (length (c_Targets full_config))) 1
         * (gh_RequestTimeout (c_GitHub full_config) + rt_Maximum (gh_Retry (c_GitHub full_config)))
       + 2 * co_ReconcileInterval (c_Controller full_config))
  /\ observedFreshnessLimit full_config < max_i64.
Proof.
  split; [|by vm_compute]. apply observedFreshnessLimit_exact; by (split; vm_compute).
Defined.

(** ** Verdicts *)

(** No check of the list degrades the exit code. *)
Abbreviation sound checks := (existsb degrades checks = false).

Lemma sound_app l1 l2 : sound (l1 ++ l2) <-> sound l1 /\ sound l2.
Proof. rewrite existsb_app. apply orb_false_iff. Qed.

Lemma sound_cons c l : sound (c :: l) <-> degrades c = false /\ sound l.
Proof. apply orb_false_iff. Qed.

Lemma sound_map {A} (f : A -> DoctorCheck) (l : list A) : sound (map f l) <-> Forall (fun x => degrades (f x) = false) l.
Proof. induction l as [|x l IH]; simpl; [split; [constructor|done]|]. rewrite orb_false_iff, IH, Forall_cons. done. Qed.

Lemma degrades_plain name healthy detail : degrades (plain name healthy detail) = false <-> healthy = true.
Proof. destruct healthy; simpl; unfold degrades; simpl; split; done. Qed.

Lemma doctor_exit_ok checks : doctor_exit checks = ExitOK <-> sound checks.
Proof. unfold doctor_exit. destruct (existsb degrades checks); split; done. Qed.

(** The printed verdict of a check is FAIL exactly when it degrades the exit code. *)
Lemma verdict_fail check : verdict check = "FAIL" <-> degrades check = true.
Proof. unfold verdict, degrades. destruct (dc_Skipped check), (dc_Advisory check), (dc_Healthy check); simpl; split; done. Qed.

(** ** What a healthy host is *)

Definition serving_phases : list Phase :=
  [PhaseStarting; PhaseReady; PhaseResourceConstrained; PhasePowerSuspended; PhaseDraining; PhaseDisabled; PhaseGaming].

Record controller_answers (status : Status) : Prop := {
  ca_process : sta_ProcessID status <> 0;
  ca_phase : sta_Phase status ∈ serving_phases;
  ca_version : TrimSpace (sta_Version status) <> "";
  ca_stays : sta_ShuttingDown status = false;
}.

(** The last observation of a pool wins. *)
Definition last_pool (pools : list PoolObservation) (id : string) : option PoolObservation :=
  last (filter (fun p => po_ID p = id) pools).

Record listener_serves (cfg : Config) (enabled : Prop) (observed : ObservedState) (now : time) (pool : PoolObservation) : Prop := {
  ls_scaleset : 0 < po_ScaleSetID pool;
  ls_listener : po_ListenerID pool <> "";
  ls_acknowledged : po_CapacityAcknowledged pool = true
                    \/ po_UpdatedAt pool <> 0 /\ 0 <= Sub now (po_UpdatedAt pool) <= listenerAcknowledgementGrace cfg;
  ls_capacity : enabled -> os_Phase observed = PhaseReady -> po_CapacityAcknowledged pool = true -> 0 < po_DesiredWorkers pool ->
                po_MaxCapacity pool <> 0;
}.

Record host_serves (cfg : Config) (desired : DesiredState) (status : Status) (observed : ObservedState) (now : time) : Prop := {
  hs_schema : os_SchemaVersion observed = 1;
  hs_phase : os_Phase observed ∈ serving_phases;
  hs_version : os_Version observed = sta_Version status;
  hs_heartbeat : os_HeartbeatAt observed <> 0;
  hs_fresh : Sub now (os_HeartbeatAt observed) <= observedFreshnessLimit cfg;
  hs_future : wrap_i64 (- wrap_i64 (2 * co_ReconcileInterval (c_Controller cfg))) <= Sub now (os_HeartbeatAt observed);
  hs_alive : sta_ShuttingDown status = false ->
             Sub now (os_HeartbeatAt observed) <= ReconcileLivenessLimit (co_ReconcileInterval (c_Controller cfg));
  hs_progress : ds_Mode desired = ModeEnabled -> sta_ShuttingDown status = false ->
                os_Phase observed <> PhaseDisabled
                /\ (os_Phase observed = PhaseStarting -> 0 < co_StartupTimeout (c_Controller cfg) -> ds_UpdatedAt desired <> 0 ->
                    Sub now (ds_UpdatedAt desired) <= co_StartupTimeout (c_Controller cfg));
  hs_listeners : forall target, target ∈ c_Targets cfg ->
                 exists pool, last_pool (os_Pools observed) (t_ID target) = Some pool
                              /\ listener_serves cfg (ds_Mode desired = ModeEnabled) observed now pool;
  hs_problems : os_Problems observed = [];
  hs_starved : ds_Mode desired = ModeEnabled -> os_Phase observed = PhaseResourceConstrained ->
               (exists pool, pool ∈ os_Pools observed /\ (0 < po_MaxCapacity pool \/ 0 < po_TotalAssignedJobs pool))
               \/ (exists w, w ∈ os_Workers observed /\ (w_State w = WorkerBusy \/ w_State w = WorkerStarting));
}.

(** Every postcondition of gaming mode holds, or it was not checked. *)
Record gaming_holds (v : GamingVerification) : Prop := {
  gh_desktop : gv_DesktopStopped v = true \/ gv_DesktopUnverified v = true;
  gh_docker : gv_DockerUnreachable v = true \/ gv_DockerUnverified v = true;
  gh_wsl : gv_NoRunningWSL v = true \/ gv_WSLUnverified v = true;
}.

(** ** The checks decide it *)

Lemma serving_phase_iff phase : validPhase phase = true /\ bool_decide (phase = PhaseDegraded) = false <-> phase ∈ serving_phases.
Proof.
  unfold serving_phases. rewrite bool_decide_eq_false, !elem_of_cons. destruct phase; simpl; set_solver.
Qed.

Lemma asks_for_some d mode : Mode_Valid mode = true -> asks_for (Some d) mode = true <-> ds_Mode d = mode.
Proof. intros Hm. unfold asks_for. rewrite andb_true_iff, bool_decide_eq_true. split; [tauto|by intros ->]. Qed.

Ltac split_bools :=
  rewrite ?andb_true_iff, ?negb_true_iff, ?orb_true_iff, ?Z.eqb_neq, ?Z.eqb_eq, ?Z.leb_le, ?Z.ltb_lt, ?String.eqb_neq,
    ?String.eqb_eq, ?bool_decide_eq_true, ?bool_decide_eq_false in *.

Lemma control_check_spec status : degrades (control_check status) = false <-> controller_answers status.
Proof.
  unfold control_check. rewrite degrades_plain. rewrite !andb_true_iff, !negb_true_iff, Z.eqb_neq, String.eqb_neq.
  split.
  - intros ((((Hp & Hv) & Hd) & Ht) & Hs). constructor; [done| |done|done]. by apply serving_phase_iff.
  - intros [Hp Hph Hv Hs]. apply serving_phase_iff in Hph as [? ?]. tauto.
Qed.

Lemma observed_pools_lookup observed id : observed_pools observed !! id = last_pool (os_Pools observed) id.
Proof.
  unfold observed_pools, last_pool. rewrite <- fold_left_rev_right. generalize (os_Pools observed) as pools.
  intros pools. induction pools as [|p pools IH] using rev_ind; [apply lookup_empty|].
  rewrite rev_app_distr. simpl. rewrite filter_app, filter_cons, filter_nil.
  destruct (decide (po_ID p = id)) as [<-|Hne].
  - by rewrite lookup_insert_eq, last_snoc.
  - by rewrite lookup_insert_ne, app_nil_r.
Qed.

Lemma or_iff_compat (A B C D : Prop) : (A <-> C) -> (B <-> D) -> (A \/ B <-> C \/ D).
Proof. tauto. Qed.

Lemma exist_proper {A} (P Q : A -> Prop) : (forall x, P x <-> Q x) -> (exists x, P x) <-> (exists x, Q x).
Proof. intros Hpq. by setoid_rewrite Hpq. Qed.

Section Observed.
Context (cfg : Config) (desired : DesiredState) (status : Status) (observed : ObservedState) (now : time).
Hypothesis Hmode : Mode_Valid (ds_Mode desired) = true.

Lemma observed_check_spec :
  degrades (observed_check cfg (Some status) observed now) = false <->
  os_SchemaVersion observed = 1 /\ os_Phase observed ∈ serving_phases /\ os_Version observed = sta_Version status /\
  os_HeartbeatAt observed <> 0 /\ Sub now (os_HeartbeatAt observed) <= observedFreshnessLimit cfg /\
  wrap_i64 (- wrap_i64 (2 * co_ReconcileInterval (c_Controller cfg))) <= Sub now (os_HeartbeatAt observed).
Proof.
  unfold observed_check. rewrite degrades_plain. rewrite <- serving_phase_iff.
  destruct (String.eqb_spec (os_Version observed) (sta_Version status)) as [Hv|Hv]; simpl; [|split; [done|tauto]].
  unfold IsZero, heartbeat_age. split_bools. tauto.
Qed.

Lemma liveness_check_spec :
  os_HeartbeatAt observed <> 0 ->
  sound (liveness_check cfg (Some status) observed now) <->
  (sta_ShuttingDown status = false ->
   Sub now (os_HeartbeatAt observed) <= ReconcileLivenessLimit (co_ReconcileInterval (c_Controller cfg))).
Proof.
  intros Hz. unfold liveness_check, serving. destruct (sta_ShuttingDown status); simpl; [split; done|].
  rewrite orb_false_r, degrades_plain. unfold IsZero, heartbeat_age. split_bools. tauto.
Qed.

Lemma progress_check_spec :
  sound (progress_check cfg (Some desired) (Some status) observed now) <->
  (ds_Mode desired = ModeEnabled -> sta_ShuttingDown status = false ->
   os_Phase observed <> PhaseDisabled
   /\ (os_Phase observed = PhaseStarting -> 0 < co_StartupTimeout (c_Controller cfg) -> ds_UpdatedAt desired <> 0 ->
       Sub now (ds_UpdatedAt desired) <= co_StartupTimeout (c_Controller cfg))).
Proof.
  unfold progress_check, serving.
  destruct (asks_for (Some desired) ModeEnabled) eqn:Ha; simpl.
  2: { split; [|done]. intros _ Hd. apply not_true_iff_false in Ha. exfalso. apply Ha. by apply asks_for_some. }
  apply asks_for_some in Ha; [|done]. destruct (sta_ShuttingDown status) eqn:Hs; simpl; [split; done|].
  set (b := _ || _). assert (Hb : b = true <-> os_Phase observed = PhaseDisabled
     \/ os_Phase observed = PhaseStarting /\ 0 < co_StartupTimeout (c_Controller cfg) /\ ds_UpdatedAt desired <> 0
        /\ co_StartupTimeout (c_Controller cfg) < Sub now (ds_UpdatedAt desired)).
  { unfold b, IsZero. rewrite orb_true_iff, !andb_true_iff, negb_true_iff, !bool_decide_eq_true, Z.eqb_neq, !Z.ltb_lt. tauto. }
  clearbody b. destruct b; simpl.
  - split; [done|]. intros Hall. destruct (Hall Ha eq_refl) as [Hd Hst]. destruct Hb as [[Hp|(H1 & H2 & H3 & H4)] _]; [done|done|].
    specialize (Hst H1 H2 H3). lia.
  - split; [|done]. intros _ _ _. destruct Hb as [_ Hb]. split; [intros Hp; discriminate Hb; by left|]. intros H1 H2 H3.
    destruct (Z.le_gt_cases (Sub now (ds_UpdatedAt desired)) (co_StartupTimeout (c_Controller cfg))); [done|].
    discriminate Hb. by right.
Qed.

Lemma listener_check_spec target :
  degrades (listener_check cfg (Some desired) observed now (observed_pools observed) target) = false <->
  exists pool, last_pool (os_Pools observed) (t_ID target) = Some pool
               /\ listener_serves cfg (ds_Mode desired = ModeEnabled) observed now pool.
Proof.
  unfold listener_check. rewrite degrades_plain, observed_pools_lookup.
  destruct (last_pool (os_Pools observed) (t_ID target)) as [pool|]; simpl; [|split; [done|by intros (? & ? & _)]].
  transitivity (listener_serves cfg (ds_Mode desired = ModeEnabled) observed now pool).
  2: { split; [eauto|]. by intros (p & [= <-] & Hp). }
  set (z := _ && (po_MaxCapacity pool =? 0)).
  assert (Hz : z = true <-> ds_Mode desired = ModeEnabled /\ os_Phase observed = PhaseReady /\ po_CapacityAcknowledged pool = true
                            /\ 0 < po_DesiredWorkers pool /\ po_MaxCapacity pool = 0).
  { unfold z. rewrite !andb_true_iff, !bool_decide_eq_true, Z.ltb_lt, Z.eqb_eq. split; [tauto|].
    intros (He & H1 & H2 & H3 & H4). split_and!; done. }
  unfold IsZero. rewrite !andb_true_iff, orb_true_iff, !andb_true_iff, !negb_true_iff, Z.ltb_lt, String.eqb_neq, Z.eqb_neq, !Z.leb_le.
  split.
  - intros (((Hs & Hl) & Ha) & Hn). constructor; [done|done|tauto|]. intros H1 H2 H3 H4 H5. destruct Hz as [_ Hz]. rewrite Hn in Hz.
    discriminate Hz. done.
  - intros [Hs Hl Ha Hn]. split; [split; [done|]; destruct (po_CapacityAcknowledged pool); tauto|].
    apply not_true_iff_false. rewrite Hz. intros (H1 & H2 & H3 & H4 & H5). by apply Hn.
Qed.

Lemma starvation_check_spec :
  sound (starvation_check (Some desired) observed) <->
  (ds_Mode desired = ModeEnabled -> os_Phase observed = PhaseResourceConstrained ->
   (exists pool, pool ∈ os_Pools observed /\ (0 < po_MaxCapacity pool \/ 0 < po_TotalAssignedJobs pool))
   \/ (exists w, w ∈ os_Workers observed /\ (w_State w = WorkerBusy \/ w_State w = WorkerStarting))).
Proof.
  unfold starvation_check.
  assert (He : asks_for (Some desired) ModeEnabled = true <-> ds_Mode desired = ModeEnabled) by by apply asks_for_some.
  destruct (asks_for _ _ && _) eqn:Hb.
  2: { split; [|done]. intros _ H1 H2. apply not_true_iff_false in Hb. exfalso. apply Hb.
       rewrite andb_true_iff, bool_decide_eq_true. tauto. }
  apply andb_true_iff in Hb as [Ha Hp%bool_decide_eq_true]. apply He in Ha.
  rewrite <- negb_orb. set (b := existsb _ _ || existsb _ _).
  assert (Hb : b = true <->
    (exists pool, pool ∈ os_Pools observed /\ (0 < po_MaxCapacity pool \/ 0 < po_TotalAssignedJobs pool))
    \/ (exists w, w ∈ os_Workers observed /\ (w_State w = WorkerBusy \/ w_State w = WorkerStarting))).
  { unfold b. rewrite orb_true_iff, !existsb_exists. apply or_iff_compat; apply exist_proper; intros x;
      by rewrite list_elem_of_In, orb_true_iff, ?Z.ltb_lt, ?bool_decide_eq_true. }
  clearbody b. destruct b; simpl.
  - split; [|done]. intros _ _ _. by apply Hb.
  - split; [done|]. intros Hall. by apply Hb in Hall.
Qed.

(** The checks of the observed state are sound exactly when the host serves. *)
Lemma observed_checks_spec :
  sound (observed_checks cfg (Some desired) (Some status) observed now) <-> host_serves cfg desired status observed now.
Proof.
  unfold observed_checks. rewrite !sound_app, !sound_map, sound_cons, observed_check_spec, progress_check_spec, starvation_check_spec.
  setoid_rewrite listener_check_spec. rewrite !Forall_forall.
  assert (Hprob : (forall x, x ∈ os_Problems observed -> degrades (problem_check x) = false) <-> os_Problems observed = []).
  { destruct (os_Problems observed) as [|p ps]; [set_solver|]. split; [|done]. intros Hall. specialize (Hall p). discriminate Hall. set_solver. }
  rewrite Hprob. split.
  - intros (((Hs & Hph & Hv & Hz & Hf & Hfut) & _) & Hl & Hpr & Hli & Hp & Hst). rewrite liveness_check_spec in Hl by done. by constructor.
  - intros [Hs Hph Hv Hz Hf Hfut Hal Hpr Hli Hp Hst]. rewrite liveness_check_spec by done. tauto.
Qed.

End Observed.

Lemma gaming_check_spec v err : degrades (gaming_check v err) = false -> gaming_holds v.
Proof.
  unfold gaming_check, degrades, observedGamingViolation. simpl.
  destruct v as [[] [] [] [] [] [] ds], err; simpl; intros Hd; try discriminate Hd; by constructor; simpl; auto.
Qed.

Lemma inventory_checks_spec inventory :
  sound (inventory_checks false inventory) <-> hi_DesktopStatus inventory <> DesktopStatusUnknown /\ hi_Problems inventory = [].
Proof.
  unfold inventory_checks. rewrite sound_cons. unfold degrades at 1. simpl.
  rewrite negb_involutive, bool_decide_eq_false. destruct (hi_Problems inventory) as [|p ps]; simpl; [tauto|]. by split; intros [_ [=]].
Qed.

(** ** Runs *)

Definition doctor_output (e : event kresp) : Prop :=
  match projT1 e with DoctorOut _ | DoctorErr _ | DoctorJSON _ => True | _ => False end.

#[export] Hint Unfold doctor_output : core.

Lemma print_checks_only checks : only doctor_output (print_checks checks).
Proof.
  induction checks as [|c checks IH]; simpl; [apply only_ret|]. by apply only_call.
Qed.

Section Runs.
Context (app : Application) (inspector : bool).

Lemma live_checks_sound tr live checks :
  iruns (live_checks app) tr (live, checks) -> sound checks ->
  exists status, tr = [ev DoctorStatus (Ok status)] /\ live = Some status /\ controller_answers status.
Proof.
  unfold live_checks. destruct (ap_Control app); simpl; intros Hr Hs; inv_runs; try done.
  destruct r as [status|e]; simplify_eq/=; try done. exists status. rewrite orb_false_r in Hs.
  repeat split; try done; by apply control_check_spec.
Qed.

Lemma state_checks_sound desired status tr checks :
  Mode_Valid (ds_Mode desired) = true ->
  iruns (state_checks app (Some desired) (Some status)) tr checks -> sound checks ->
  exists observed now, tr = [ev DoctorLoadObserved (Ok observed); ev DoctorNow now]
                       /\ host_serves (ap_Config app) desired status observed now.
Proof.
  intros Hm Hr Hs. unfold state_checks, kask in Hr. inv_runs. destruct r as [observed|e]; inv_runs; try done.
  exists observed, r. split; [done|]. by apply observed_checks_spec.
Qed.

Lemma host_checks_sound gaming tr reachable checks :
  iruns (host_checks app gaming) tr (reachable, checks) -> sound checks ->
  exists inventory, reachable = hi_DockerReachable inventory
    /\ if gaming then exists v err, tr = [ev DoctorInventory inventory; ev DoctorVerify (v, err)] /\ gaming_holds v
       else tr = [ev DoctorInventory inventory] /\ hi_DesktopStatus inventory <> DesktopStatusUnknown /\ hi_Problems inventory = [].
Proof.
  unfold host_checks. destruct (ap_Gaming app); simpl; intros Hr Hs; inv_runs; try done.
  exists r. destruct gaming; inv_runs.
  - split; [done|]. destruct r0 as [v err]. exists v, err. split; [done|]. simpl in Hs.
    rewrite existsb_app in Hs. apply orb_false_iff in Hs as [_ Hs]. simpl in Hs. rewrite orb_false_r in Hs.
    by eapply gaming_check_spec.
  - split; [done|]. split; [done|]. by apply inventory_checks_spec.
Qed.
End Runs.

(** A run that passed, in its parts: the checks of none of them degrade the exit code. *)
Lemma doctor_run_inv app inspector args tr :
  iruns (doctor app inspector args) tr ExitOK ->
  exists warning loaded t1 live lc t2 oc t3 reachable hc t4 ic report elevated,
    let desired := match loaded with Ok d => Some d | Err _ => None end in
    tr = warning ++ ev DoctorLoadDesired loaded :: t1 ++ t2 ++ t3 ++ t4 ++ report
    /\ Forall doctor_output warning /\ Forall doctor_output report
    /\ iruns (live_checks app) t1 (live, lc) /\ iruns (state_checks app desired live) t2 oc
    /\ iruns (host_checks app (asks_for desired ModeGaming)) t3 (reachable, hc)
    /\ iruns (inspection_checks inspector (mkDoctorInspection reachable (require_docker desired live) elevated)) t4 ic
    /\ degrades (desired_check loaded) = false /\ sound lc /\ sound oc /\ sound hc /\ sound ic.
Proof.
  unfold doctor. destruct (parse_flags _ args) as [[values [|]]|]; [|by intros [_ [=]]%iruns_inv..].
  intros (warning & tr0 & [] & Hw & Hr & ->)%iruns_bind_inv.
  assert (Hwarn : Forall doctor_output warning).
  { unfold kask in Hw. destruct (flag_bool values "include-elevated"); inv_runs; repeat constructor. }
  clear Hw. apply iruns_inv in Hr as (loaded & tr1' & -> & Hr). cbv beta in Hr. cbn [ibind] in Hr.
  apply iruns_bind_inv in Hr as (t1 & tr1 & [live lc] & Hl & Hr & ->). cbn [fst snd] in Hr.
  apply iruns_bind_inv in Hr as (t2 & tr2 & oc & Ho & Hr & ->).
  apply iruns_bind_inv in Hr as (t3 & tr3 & [reachable hc] & Hh & Hr & ->).
  apply iruns_bind_inv in Hr as (t4 & report & ic & Hi & Hr & ->). cbn [fst snd] in *.
  set (checks := _ ++ lc ++ _) in Hr.
  assert (Hrep : doctor_exit checks = ExitOK /\ Forall doctor_output report).
  { destruct (flag_bool values "json").
    - unfold kask in Hr. inv_runs. destruct r as [e|]; inv_runs. split; [done|]. by repeat constructor.
    - apply iruns_bind_inv in Hr as (t5 & t6 & [] & Hp & Hr & ->). apply iruns_inv in Hr as [-> Hr]. split; [done|].
      rewrite app_nil_r. by eapply print_checks_only. }
  destruct Hrep as [Hs%doctor_exit_ok Hrep]. unfold checks in Hs. rewrite !sound_app, !sound_cons in Hs.
  do 13 eexists. exists (flag_bool values "include-elevated"). split_and!; done || tauto || eauto.
Qed.

Lemma inspection_checks_sound inspector request tr checks :
  iruns (inspection_checks inspector request) tr checks -> sound checks ->
  tr = [ev (DoctorInspect request) checks] /\ Forall (fun c => dc_Healthy c = true \/ dc_Skipped c = true \/ dc_Advisory c = true) checks.
Proof.
  unfold inspection_checks, kask. intros Hi Hs. destruct inspector; simpl in Hi; inv_runs; try done. split; [done|].
  induction r as [|c r IH]; [constructor|]. apply sound_cons in Hs as [Hc Hs]. constructor; [|by apply IH].
  unfold degrades in Hc. destruct (dc_Skipped c), (dc_Advisory c), (dc_Healthy c); auto.
Qed.

Lemma require_docker_spec desired status :
  Mode_Valid (ds_Mode desired) = true ->
  require_docker (Some desired) (Some status) = bool_decide (ds_Mode desired = ModeEnabled /\ sta_Phase status <> PhasePowerSuspended).
Proof.
  intros Hd. unfold require_docker, asks_for. rewrite Hd. simpl.
  destruct (decide (sta_Phase status = PhasePowerSuspended)) as [->|Hne].
  - rewrite bool_decide_eq_true_2 by done. symmetry. apply bool_decide_eq_false. tauto.
  - rewrite (bool_decide_eq_false_2 (sta_Phase _ = _)) by done. apply bool_decide_ext. tauto.
Qed.

(** The calls of a run that passed, in order, between the warning and the report. *)
Definition passing_calls (app : Application) (desired : DesiredState) (status : Status) (observed : ObservedState) (now : time)
    (inventory : HostInventory) (verified : list (GamingVerification * option error)) (request : DoctorInspection)
    (inspected : list DoctorCheck) : list (event kresp) :=
  [ev DoctorLoadDesired (Ok desired); ev DoctorStatus (Ok status); ev DoctorLoadObserved (Ok observed); ev DoctorNow now;
   ev DoctorInventory inventory]
  ++ map (fun v => ev DoctorVerify v) verified ++ [ev (DoctorInspect request) inspected].


(** ** A healthy host *)

Definition doctor_app : Application := mkApplication full_config true true true true true true true true Second "1.2.3".
Definition healthy_pool (t : Target) : PoolObservation := mkPoolObservation (t_ID t) 7 "listener" 0 2 true 0 0 1 5.
Definition healthy_observed : ObservedState :=
  {| ObservedState_zero with os_SchemaVersion := 1; os_Phase := PhaseReady; os_HeartbeatAt := 10; os_Version := "1.2.3";
     os_Pools := map healthy_pool (c_Targets full_config) |}.

Definition healthy_answers (c : kcall) (_ : list (event kresp)) : kresp c :=
  match c with
  | DoctorLoadDesired => Ok (mkDesiredState 1 ModeEnabled None 5)
  | DoctorStatus => Ok (mkStatus PhaseReady 42 "1.2.3" 0 0 0 false "")
  | DoctorLoadObserved => Ok healthy_observed
  | DoctorNow => 20
  | DoctorInventory => mkHostInventory DesktopStatusRunning true [] [] [] []
  | DoctorVerify => (mkGamingVerification false false false false false false [], None)
  | DoctorInspect _ => [plain "acl/state" true ""; mkDoctorCheck "bitlocker" false true false ""]
  | DoctorJSON _ => None
  | DoctorOut _ | DoctorErr _ => tt
  end.

Definition healthy_run : list (event kresp) * Z := irun healthy_answers (doctor doctor_app true []) [].

