(* ===== verification/Locks.v ===== *)
(** The lock of the state directory (internal/state/fs/mutex_windows.go, lockwait.go,
    mutex_other.go): the token shared inside a process, the named mutex shared between
    processes, and the threads that own it.

    Callers and threads of any number of processes run interleaved.  Each call of
    [Lock] is an attempt with two sides, the caller and the goroutine that owns an
    operating-system thread, which speak over the channels result, release and done.
    [lock_step] makes one step of one side; what Windows answers, what the context
    says and the clock are part of the event.  The kernel gives a mutex only when
    nobody owns it, and abandons it when the thread that owns it ends. *)

From S2P Require Import Prelude Float64 GoStrings Model Config Errors Effects Watchdog Doctor.
From stdpp Require Import pretty.
From Stdlib Require Import Ascii.
#[local] Open Scope Z_scope.

(** ** Failed waits *)

Inductive LockWaitClass := LockWaitInProcess | LockWaitWin32Mutex.

Definition lock_class_text (c : LockWaitClass) : string :=
  match c with LockWaitInProcess => "in-process-token" | LockWaitWin32Mutex => "win32-mutex" end.

(** The error names the stage and how long that stage alone waited. *)
Definition lockWaitError (class : LockWaitClass) (started now : time) (err : error) : error :=
  ErrWrap ("waited " +:+ Duration_String (Duration_Round (now - started) 1000000) +:+ " on the " +:+ lock_class_text class) err.

(** ** The lockers of a process *)

Record WindowsMutex := mkWindowsMutex { wm_Name : string; wm_SID : string; wm_Local : nat }.

(** The twelve bytes of the digest, in hexadecimal digits. *)
Fixpoint hex_bytes (s : string) : string :=
  match s with
  | EmptyString => ""
  | String a s => String (hex_digit (Z.of_nat (nat_of_ascii a) / 16)) (String (hex_digit (Z.of_nat (nat_of_ascii a) mod 16)) (hex_bytes s))
  end.

Section Lockers.
(** [crypto/sha256], and the channel that [make] gives. *)
Context (sha256 : string -> string).

Definition mutex_name (scope sid : string) : string :=
  "Local\ci-runner-state-" +:+ hex_bytes (String.substring 0 12 (sha256 (scope +:+ String (ascii_of_nat 0) sid))).

(** The channels by name; a new one is the next that was never made. *)
Definition NewPlatformLocker (current : result error string) (scope : string) (lockers : gmap string nat) : result error (WindowsMutex * gmap string nat) :=
  match current with
  | Err e => Err (ErrWrap "resolve current Windows identity" e)
  | Ok sid =>
      if String.eqb sid "" then Err (ErrNew "current Windows identity has no SID")
      else
        let name := mutex_name scope sid in
        match lockers !! name with
        | Some local => Ok (mkWindowsMutex name sid local, lockers)
        | None => let local := size lockers in Ok (mkWindowsMutex name sid local, <[name := local]> lockers)
        end
  end.

End Lockers.

Definition mutex_sddl (sid : string) : string := "D:P(A;;GA;;;SY)(A;;GA;;;" +:+ sid +:+ ")".

(** ** Attempts *)

(** Where the caller is: before the token, before the result, with the lock, or before
    the end of the release; the last two are returned errors. *)
Inductive CallerPhase :=
  | AwaitToken (started : time)
  | AwaitResult
  | Holding
  | AwaitDone
  | LockFailed (err : error)
  | Unlocked (err : option error).

(** Where the goroutine on its own thread is: before the handle, polling the mutex,
    after its acquisition, before the handle's close with the error of the release,
    before its end with the flag [terminateOwnedThread]. *)
Inductive ThreadPhase :=
  | NotStarted
  | Entering
  | Polling (started : time)
  | Acquired
  | Closing (releaseFailure : option error)
  | Leaving (terminateOwnedThread : bool)
  | Left.

(** The buffered channels hold what was sent and not yet received. *)
Record Attempt := mkAttempt {
  at_Process : nat;
  at_Caller : CallerPhase;
  at_Thread : ThreadPhase;
  at_Result : option (option error);
  at_Release : bool;
  at_Done : option (option error);
}.

Inductive KernelMutex := Unowned | OwnedBy (id : nat) | Abandoned.

(** The tokens in the channel of each process, all attempts, and the named mutex. *)
Record Locks := mkLocks {
  lk_Tokens : gmap nat nat;
  lk_Attempts : gmap nat Attempt;
  lk_Mutex : KernelMutex;
}.

Definition no_locks : Locks := mkLocks ∅ ∅ Unowned.

(** What WaitForSingleObject answers; after a timeout the context's error and the
    clock, and the error of closing the handle where it is closed. *)
Inductive WaitResult :=
  | WaitObject0
  | WaitAbandoned
  | WaitTimeout (cancelled : option error) (now : time) (closed : option error)
  | WaitOther (code : string) (err : error) (closed : option error).

Inductive LockEvent :=
  | Register (process : nat)
  | Call (id process : nat) (now : time)
  | TokenCancelled (id : nat) (now : time) (err : error)
  | TokenTaken (id : nat)
  | EnterFailed (id : nat) (err : error)
  | Entered (id : nat) (now : time)
  | Waited (id : nat) (answer : WaitResult)
  | GotResult (id : nat)
  | UnlockCalled (id : nat)
  | MutexReleased (id : nat) (failed : option error)
  | HandleClosed (id : nat) (failed : option error)
  | ThreadLeft (id : nat)
  | GotDone (id : nat)
  | ProcessDied (process : nat).

(** ** The caller *)

Definition update (s : Locks) (id : nat) (a : Attempt) : Locks := {| s with lk_Attempts := <[id := a]> (lk_Attempts s) |}.

(** A new process makes its channel with one token. *)
Definition register_process (s : Locks) (p : nat) : option Locks :=
  match lk_Tokens s !! p with
  | Some _ => Some s
  | None => Some {| s with lk_Tokens := <[p := 1%nat]> (lk_Tokens s) |}
  end.

Definition lock_call (s : Locks) (id p : nat) (now : time) : option Locks :=
  match lk_Attempts s !! id, lk_Tokens s !! p with
  | None, Some _ => Some (update s id (mkAttempt p (AwaitToken now) NotStarted None false None))
  | _, _ => None
  end.

Definition token_cancelled (a : Attempt) (now : time) (err : error) : option Attempt :=
  match at_Caller a with
  | AwaitToken started => Some {| a with at_Caller := LockFailed (lockWaitError LockWaitInProcess started now err) |}
  | _ => None
  end.

Definition token_taken (s : Locks) (id : nat) (a : Attempt) : option Locks :=
  match at_Caller a, lk_Tokens s !! at_Process a with
  | AwaitToken _, Some (S n) =>
      Some {| (update s id {| a with at_Caller := AwaitResult; at_Thread := Entering |}) with lk_Tokens := <[at_Process a := n]> (lk_Tokens s) |}
  | _, _ => None
  end.

(** A send on the token's channel waits while it is full. *)
Definition return_token (s : Locks) (p : nat) : option Locks :=
  match lk_Tokens s !! p with
  | Some O => Some {| s with lk_Tokens := <[p := 1%nat]> (lk_Tokens s) |}
  | _ => None
  end.

(** A failed acquisition gives the token back. *)
Definition got_result (s : Locks) (id : nat) (a : Attempt) : option Locks :=
  match at_Caller a, at_Result a with
  | AwaitResult, Some None => Some (update s id {| a with at_Caller := Holding; at_Result := None |})
  | AwaitResult, Some (Some err) => return_token (update s id {| a with at_Caller := LockFailed err; at_Result := None |}) (at_Process a)
  | _, _ => None
  end.

(** The first call of the returned function; later ones only return its error. *)
Definition unlock_called (a : Attempt) : option Attempt :=
  match at_Caller a with
  | Holding => Some {| a with at_Caller := AwaitDone; at_Release := true |}
  | _ => None
  end.

Definition got_done (s : Locks) (id : nat) (a : Attempt) : option Locks :=
  match at_Caller a, at_Done a with
  | AwaitDone, Some err => return_token (update s id {| a with at_Caller := Unlocked err; at_Done := None |}) (at_Process a)
  | _, _ => None
  end.

(** ** The thread *)

(** The context ended, or the descriptor, the name or the mutex could not be made. *)
Definition enter_failed (a : Attempt) (err : error) : option Attempt :=
  match at_Thread a with
  | Entering => Some {| a with at_Thread := Left; at_Result := Some (Some err) |}
  | _ => None
  end.

Definition entered (a : Attempt) (now : time) : option Attempt :=
  match at_Thread a with
  | Entering => Some {| a with at_Thread := Polling now |}
  | _ => None
  end.

Definition closeWindowsHandle (failed : option error) : option error := ErrWrap "CloseHandle" <$> failed.

(** The result of the attempt, if it fails, is sent after the close of the handle. *)
Definition stop_waiting (a : Attempt) (err : error) (closed : option error) : Attempt :=
  {| a with at_Thread := Left; at_Result := Some (errors_Join [Some err; closeWindowsHandle closed]) |}.

Definition acquire (s : Locks) (id : nat) (a : Attempt) : option Locks :=
  Some {| (update s id {| a with at_Thread := Acquired; at_Result := Some None |}) with lk_Mutex := OwnedBy id |}.

Definition wait_once (s : Locks) (id : nat) (a : Attempt) (answer : WaitResult) : option Locks :=
  match at_Thread a with
  | Polling started =>
      match answer, lk_Mutex s with
      | WaitObject0, Unowned => acquire s id a
      | WaitAbandoned, Abandoned => acquire s id a
      | WaitTimeout None _ _, _ => Some s
      | WaitTimeout (Some err) now closed, _ => Some (update s id (stop_waiting a (lockWaitError LockWaitWin32Mutex started now err) closed))
      | WaitOther code err closed, _ => Some (update s id (stop_waiting a (ErrWrap ("WaitForSingleObject returned " +:+ code) err) closed))
      | _, _ => None
      end
  | _ => None
  end.

(** A failed release leaves the mutex with its thread. *)
Definition mutex_released (s : Locks) (id : nat) (a : Attempt) (failed : option error) : option Locks :=
  match at_Thread a, at_Release a with
  | Acquired, true =>
      let s' := update s id {| a with at_Thread := Closing (ErrWrap "ReleaseMutex" <$> failed) |} in
      Some (match failed with None => {| s' with lk_Mutex := Unowned |} | Some _ => s' end)
  | _, _ => None
  end.

Definition handle_closed (a : Attempt) (failed : option error) : option Attempt :=
  match at_Thread a with
  | Closing releaseFailure =>
      Some {| a with at_Thread := Leaving (bool_decide (releaseFailure <> None));
                     at_Done := Some (errors_Join [releaseFailure; closeWindowsHandle failed]) |}
  | _ => None
  end.

(** A mutex whose thread ends is abandoned. *)
Definition abandon_mutex (m : KernelMutex) (dead : nat -> bool) : KernelMutex :=
  match m with OwnedBy id => if dead id then Abandoned else m | _ => m end.

Definition thread_left (s : Locks) (id : nat) (a : Attempt) : option Locks :=
  match at_Thread a with
  | Leaving terminate =>
      let s' := update s id {| a with at_Thread := Left |} in
      Some (if terminate then {| s' with lk_Mutex := abandon_mutex (lk_Mutex s) (Nat.eqb id) |} else s')
  | _ => None
  end.

(** A process that dies takes its channel, its callers and its threads with it. *)
Definition process_died (s : Locks) (p : nat) : option Locks :=
  let lives := fun id => match lk_Attempts s !! id with Some a => negb (Nat.eqb (at_Process a) p) | None => true end in
  Some (mkLocks (delete p (lk_Tokens s)) (filter (fun kv => at_Process kv.2 <> p) (lk_Attempts s)) (abandon_mutex (lk_Mutex s) (fun id => negb (lives id)))).

Definition lock_step (s : Locks) (e : LockEvent) : option Locks :=
  let on id (f : Attempt -> option Locks) := match lk_Attempts s !! id with Some a => f a | None => None end in
  let set id (f : Attempt -> option Attempt) := on id (fun a => update s id <$> f a) in
  match e with
  | Register p => register_process s p
  | Call id p now => lock_call s id p now
  | TokenCancelled id now err => set id (fun a => token_cancelled a now err)
  | TokenTaken id => on id (token_taken s id)
  | EnterFailed id err => set id (fun a => enter_failed a err)
  | Entered id now => set id (fun a => entered a now)
  | Waited id answer => on id (fun a => wait_once s id a answer)
  | GotResult id => on id (got_result s id)
  | UnlockCalled id => set id unlock_called
  | MutexReleased id failed => on id (fun a => mutex_released s id a failed)
  | HandleClosed id failed => set id (fun a => handle_closed a failed)
  | ThreadLeft id => on id (thread_left s id)
  | GotDone id => on id (got_done s id)
  | ProcessDied p => process_died s p
  end.

Definition lock_moves (s s' : Locks) : Prop := exists e, lock_step s e = Some s'.

(** ** The lock without processes *)

(** On other systems the token alone is the lock: the tokens of each scope and the
    scopes whose lock is held, by the holder. *)
Record Semaphores := mkSemaphores { sm_Tokens : gmap string nat; sm_Holders : gmap nat string }.

Inductive SemaphoreEvent := Locker (scope : string) | Take (id : nat) (scope : string) | Give (id : nat).

Definition semaphore_step (s : Semaphores) (e : SemaphoreEvent) : option Semaphores :=
  match e with
  | Locker scope => Some (match sm_Tokens s !! scope with Some _ => s | None => {| s with sm_Tokens := <[scope := 1%nat]> (sm_Tokens s) |} end)
  | Take id scope =>
      match sm_Holders s !! id, sm_Tokens s !! scope with
      | None, Some (S n) => Some (mkSemaphores (<[scope := n]> (sm_Tokens s)) (<[id := scope]> (sm_Holders s)))
      | _, _ => None
      end
  | Give id =>
      match sm_Holders s !! id with
      | Some scope =>
          match sm_Tokens s !! scope with
          | Some O => Some (mkSemaphores (<[scope := 1%nat]> (sm_Tokens s)) (delete id (sm_Holders s)))
          | _ => None
          end
      | None => None
      end
  end.
