(* ===== verification/LocksFacts.v ===== *)
(** What the lock of the state directory guarantees: one holder at a time over all
    processes, whatever fails or dies, a token that is neither lost nor duplicated, and
    a way for every attempt to end. *)

From S2P Require Import Prelude Float64 GoStrings Model Config Errors Effects Watchdog Doctor Locks.
From stdpp Require Import pretty.
#[local] Open Scope Z_scope.

(** ** The invariant *)

Definition has_token (c : CallerPhase) : bool := match c with AwaitResult | Holding | AwaitDone => true | _ => false end.
Definition owns (t : ThreadPhase) : bool := match t with Acquired | Closing (Some _) | Leaving true => true | _ => false end.

(** Where the two sides of an attempt can be together, with what is in the channels. *)
Definition coherent (a : Attempt) : Prop :=
  match at_Caller a with
  | AwaitToken _ => at_Thread a = NotStarted /\ at_Result a = None /\ at_Release a = false /\ at_Done a = None
  | AwaitResult =>
      at_Release a = false /\ at_Done a = None /\
      match at_Thread a with
      | Entering | Polling _ => at_Result a = None
      | Acquired => at_Result a = Some None
      | Left => exists e, at_Result a = Some (Some e)
      | _ => False
      end
  | Holding => at_Thread a = Acquired /\ at_Release a = false /\ at_Done a = None
  | AwaitDone =>
      at_Release a = true /\
      match at_Thread a with
      | Acquired | Closing _ => at_Done a = None
      | Leaving _ | Left => exists d, at_Done a = Some d
      | _ => False
      end
  | LockFailed _ => at_Thread a = NotStarted \/ at_Thread a = Left
  | Unlocked _ => at_Thread a = Left \/ exists b, at_Thread a = Leaving b
  end.

(** The kernel's owner is the attempt whose thread owns the mutex; a process has its
    token or one attempt that took it. *)
Record locks_ok (s : Locks) : Prop := mkLocksOk {
  lo_coherent : forall id a, lk_Attempts s !! id = Some a -> coherent a;
  lo_owner : forall id, lk_Mutex s = OwnedBy id <-> exists a, lk_Attempts s !! id = Some a /\ owns (at_Thread a) = true;
  lo_token : forall id a, lk_Attempts s !! id = Some a -> exists n, lk_Tokens s !! at_Process a = Some n /\ (has_token (at_Caller a) = true -> n = 0%nat);
  lo_one : forall p n, lk_Tokens s !! p = Some n ->
    n = 1%nat \/ n = 0%nat /\ exists id a, lk_Attempts s !! id = Some a /\ at_Process a = p /\ has_token (at_Caller a) = true;
  lo_unique : forall id a id' a', lk_Attempts s !! id = Some a -> lk_Attempts s !! id' = Some a' -> at_Process a = at_Process a' ->
    has_token (at_Caller a) = true -> has_token (at_Caller a') = true -> id = id';
}.

(** What one attempt's step does to the token of its process. *)
Inductive token_moves (p : nat) (tokens : gmap nat nat) : bool -> bool -> gmap nat nat -> Prop :=
  | token_stays b : token_moves p tokens b b tokens
  | token_goes : tokens !! p = Some 1%nat -> token_moves p tokens false true (<[p := 0%nat]> tokens)
  | token_comes : token_moves p tokens true false (<[p := 1%nat]> tokens).

Lemma ok_update s id a a' tokens mutex :
  locks_ok s -> lk_Attempts s !! id = Some a -> at_Process a' = at_Process a -> coherent a' ->
  (forall id', mutex = OwnedBy id' <-> if Nat.eqb id' id then owns (at_Thread a') = true else lk_Mutex s = OwnedBy id') ->
  token_moves (at_Process a) (lk_Tokens s) (has_token (at_Caller a)) (has_token (at_Caller a')) tokens ->
  locks_ok (mkLocks tokens (<[id := a']> (lk_Attempts s)) mutex).
Proof.
  intros [Hco Hown Htok Hone Huniq] Ha Hp Hco' Hm Ht. split; cbn [lk_Attempts lk_Tokens lk_Mutex].
  - intros i b. rewrite lookup_insert_Some. intros [[<- <-]|[_ Hb]]; [done|eauto].
  - intros i. rewrite Hm. destruct (Nat.eqb_spec i id) as [->|Hne].
    + rewrite lookup_insert_eq. naive_solver.
    + rewrite Hown, lookup_insert_ne by done. done.
  - intros i b. rewrite lookup_insert_Some. intros [[<- <-]|[Hne Hb]].
    + destruct (Htok _ _ Ha) as (n & Hn & Hz). rewrite Hp. inversion Ht; subst.
      * exists n. split; [done|]. intros Hh. apply Hz. congruence.
      * exists 0%nat. by rewrite lookup_insert_eq.
      * exists 1%nat. rewrite lookup_insert_eq. split; [done|]. congruence.
    + destruct (Htok _ _ Hb) as (n & Hn & Hz). destruct (decide (at_Process b = at_Process a)) as [He|He].
      * inversion Ht as [|Hone'|]; subst; rewrite He.
        -- exists n. rewrite <- He. done.
        -- exists 0%nat. by rewrite lookup_insert_eq.
        -- exists 1%nat. rewrite lookup_insert_eq. split; [done|]. intros Hh. destruct Hne. by eapply Huniq.
      * exists n. inversion Ht; subst; rewrite ?lookup_insert_ne by done; done.
  - intros p n Hn. assert (Hsame : has_token (at_Caller a') = has_token (at_Caller a) -> lk_Tokens s !! p = Some n ->
      n = 1%nat \/ n = 0%nat /\ exists id0 a0, <[id := a']> (lk_Attempts s) !! id0 = Some a0 /\ at_Process a0 = p /\ has_token (at_Caller a0) = true).
    { intros Heq Hl. destruct (Hone _ _ Hl) as [->|(-> & i & b & Hb & Hbp & Hbt)]; [by left|]. right. split; [done|].
      destruct (decide (i = id)) as [->|Hne]; [|exists i, b; by rewrite lookup_insert_ne].
      exists id, a'. rewrite lookup_insert_eq. simplify_eq. rewrite Heq. done. }
    inversion Ht as [b Hb Hb' Heq|Hone' Hb Hb' Heq|Hb Hb' Heq]; subst tokens.
    + apply Hsame; [congruence|done].
    + apply lookup_insert_Some in Hn as [[<- <-]|[Hne Hn]].
      * right. split; [done|]. exists id, a'. by rewrite lookup_insert_eq.
      * destruct (Hone _ _ Hn) as [->|(-> & i & b & Hi & Hbp & Hbt)]; [by left|]. right. split; [done|].
        exists i, b. rewrite lookup_insert_ne; [done|]. intros <-. simplify_eq.
    + apply lookup_insert_Some in Hn as [[<- <-]|[Hne Hn]]; [by left|].
      destruct (Hone _ _ Hn) as [->|(-> & i & b & Hi & Hbp & Hbt)]; [by left|]. right. split; [done|].
      exists i, b. rewrite lookup_insert_ne; [done|]. intros <-. simplify_eq.
  - assert (Hnew : forall i b, lk_Attempts s !! i = Some b -> i <> id -> at_Process b = at_Process a -> has_token (at_Caller b) = true ->
      has_token (at_Caller a') = true -> False).
    { intros i b Hb Hne Hbp Hbt Hat. inversion Ht as [c Hc Hc' Heq|Hone' Hc Hc' Heq|Hc Hc' Heq]; [|destruct (Htok _ _ Hb) as (n & Hn & Hz)|congruence].
      - apply Hne. eapply Huniq; [exact Hb|exact Ha|done|done|congruence].
      - rewrite Hbp in Hn. specialize (Hz Hbt). congruence. }
    intros i b i' b'. rewrite !lookup_insert_Some. intros [[<- <-]|[Hne Hb]] [[<- <-]|[Hne' Hb']] Hpp Ht1 Ht2; [done| | |by eapply Huniq].
    + exfalso. eapply (Hnew i' b'); [done|done|congruence|done|done].
    + exfalso. eapply (Hnew i b); [done|done|congruence|done|done].
Qed.

(** A step that leaves the mutex and the token alone. *)
Lemma ok_quiet s id a a' :
  locks_ok s -> lk_Attempts s !! id = Some a -> at_Process a' = at_Process a -> coherent a' -> owns (at_Thread a') = owns (at_Thread a) ->
  has_token (at_Caller a') = has_token (at_Caller a) -> locks_ok (update s id a').
Proof.
  intros Hok Ha Hp Hc Ho Ht. unfold update. destruct s as [tokens attempts mutex]. cbn in *.
  eapply (ok_update (mkLocks tokens attempts mutex)); cbn; [done..| |rewrite Ht; constructor].
  intros id'. destruct (Nat.eqb_spec id' id) as [->|]; [|done]. rewrite Ho. pose proof (lo_owner _ Hok id) as Hown. cbn in Hown. rewrite Hown. naive_solver.
Qed.

(** ** Every step keeps it *)

Lemma owner_of s id a : locks_ok s -> lk_Attempts s !! id = Some a -> lk_Mutex s = OwnedBy id <-> owns (at_Thread a) = true.
Proof. intros Hok Ha. rewrite (lo_owner _ Hok id). naive_solver. Qed.

Lemma register_ok s p s' : locks_ok s -> register_process s p = Some s' -> locks_ok s'.
Proof.
  intros [Hco Hown Htok Hone Huniq]. unfold register_process. destruct (lk_Tokens s !! p) eqn:Hp; intros [= <-]; [done|].
  split; cbn [lk_Attempts lk_Tokens lk_Mutex]; try done.
  - intros id a Ha. destruct (Htok _ _ Ha) as (n & Hn & Hz). exists n. rewrite lookup_insert_ne; [done|]. congruence.
  - intros q n. rewrite lookup_insert_Some. intros [[<- <-]|[_ Hn]]; [by left|eauto].
Qed.

Lemma call_ok s id p now s' : locks_ok s -> lock_call s id p now = Some s' -> locks_ok s'.
Proof.
  intros [Hco Hown Htok Hone Huniq]. unfold lock_call. destruct (lk_Attempts s !! id) eqn:Hid; [done|]. destruct (lk_Tokens s !! p) as [n|] eqn:Hp; [|done].
  intros [= <-]. unfold update. split; cbn [lk_Attempts lk_Tokens lk_Mutex].
  - intros i a. rewrite lookup_insert_Some. intros [[<- <-]|[_ Ha]]; [done|eauto].
  - intros i. rewrite Hown. destruct (decide (i = id)) as [->|Hne]; [|by rewrite lookup_insert_ne].
    rewrite Hid, lookup_insert_eq. split; [naive_solver|]. by intros (a & [= <-] & Ha).
  - intros i a. rewrite lookup_insert_Some. intros [[<- <-]|[_ Ha]]; [|eauto]. by exists n.
  - intros q m Hq. destruct (Hone _ _ Hq) as [->|(-> & i & a & Ha & Hpa & Hta)]; [by left|]. right. split; [done|].
    exists i, a. rewrite lookup_insert_ne by congruence. done.
  - intros i a i' a'. rewrite !lookup_insert_Some. intros [[<- <-]|[_ Ha]] [[<- <-]|[_ Ha']]; [done..|]. by eapply Huniq.
Qed.

(** An attempt that gives its token back finds the channel empty. *)
Lemma return_token_ok s id a a' :
  locks_ok s -> lk_Attempts s !! id = Some a -> at_Process a' = at_Process a -> coherent a' -> owns (at_Thread a') = owns (at_Thread a) ->
  has_token (at_Caller a) = true -> has_token (at_Caller a') = false ->
  exists s', return_token (update s id a') (at_Process a) = Some s' /\ locks_ok s'.
Proof.
  intros Hok Ha Hp Hc Ho Ht Ht'. destruct (lo_token _ Hok _ _ Ha) as (n & Hn & Hz). specialize (Hz Ht). subst n.
  unfold return_token, update. cbn [lk_Tokens]. rewrite Hn. eexists. split; [done|]. destruct s as [tokens attempts mutex]. cbn in *.
  eapply (ok_update (mkLocks tokens attempts mutex)); cbn; [done..| |rewrite Ht, Ht'; constructor].
  intros id'. destruct (Nat.eqb_spec id' id) as [->|]; [|done]. rewrite Ho. exact (owner_of _ _ _ Hok Ha).
Qed.

Lemma acquire_ok s id a started s' :
  locks_ok s -> lk_Attempts s !! id = Some a -> at_Thread a = Polling started -> (forall id', lk_Mutex s <> OwnedBy id') -> acquire s id a = Some s' -> locks_ok s'.
Proof.
  intros Hok Ha Ht Hfree [= <-]. unfold update. destruct s as [tokens attempts mutex]. cbn in *.
  eapply (ok_update (mkLocks tokens attempts mutex)); cbn; [done..| | |constructor].
  - pose proof (lo_coherent _ Hok _ _ Ha) as Hc. unfold coherent in *. rewrite Ht in Hc. cbn. destruct (at_Caller a); naive_solver.
  - intros id'. destruct (Nat.eqb_spec id' id) as [->|Hne]; [done|]. split; [congruence|]. intros He. by destruct (Hfree id').
Qed.

Lemma process_died_ok s p s' : locks_ok s -> process_died s p = Some s' -> locks_ok s'.
Proof.
  intros [Hco Hown Htok Hone Huniq] [= <-]. split; cbn [lk_Attempts lk_Tokens lk_Mutex].
  - intros id a [Ha _]%map_lookup_filter_Some. eauto.
  - intros id. split.
    + unfold abandon_mutex. destruct (lk_Mutex s) as [|i|] eqn:Hm; [done| |done].
      destruct (proj1 (Hown i) eq_refl) as (a & Ha & Ho). rewrite Ha, negb_involutive. destruct (Nat.eqb_spec (at_Process a) p); [done|].
      intros [= <-]. exists a. rewrite map_lookup_filter_Some. done.
    + intros (a & [Ha Hp]%map_lookup_filter_Some & Ho). assert (Hm : lk_Mutex s = OwnedBy id) by (apply Hown; eauto).
      rewrite Hm. cbn. rewrite Ha. cbn in Hp. destruct (Nat.eqb_spec (at_Process a) p); done.
  - intros id a [Ha Hp]%map_lookup_filter_Some. destruct (Htok _ _ Ha) as (n & Hn & Hz). exists n. rewrite lookup_delete_ne by done. done.
  - intros q n [Hne Hn]%lookup_delete_Some. destruct (Hone _ _ Hn) as [->|(-> & id & a & Ha & Hpa & Hta)]; [by left|]. right. split; [done|].
    exists id, a. rewrite map_lookup_filter_Some. cbn. rewrite Hpa. done.
  - intros id a id' a' [Ha _]%map_lookup_filter_Some [Ha' _]%map_lookup_filter_Some. by eapply Huniq.
Qed.

Lemma lock_step_ok s e s' : locks_ok s -> lock_step s e = Some s' -> locks_ok s'.
Proof.
  intros Hok. destruct e; cbn [lock_step]; try (by apply register_ok); try (by apply call_ok); try (by apply process_died_ok).
  all: destruct (lk_Attempts s !! id) as [a|] eqn:Ha; [|done]; pose proof (lo_coherent _ Hok _ _ Ha) as Hc.
  - unfold token_cancelled. destruct (at_Caller a) eqn:Hcaller; intros [= <-].
    eapply ok_quiet; [done..| | |by rewrite Hcaller]; [|done]. unfold coherent in *. rewrite Hcaller in Hc. cbn. tauto.
  - unfold token_taken. destruct (at_Caller a) eqn:Hcaller; try done. destruct (lk_Tokens s !! at_Process a) as [[|n]|] eqn:Hn; [done| |done]. intros [= <-].
    destruct (lo_one _ Hok _ _ Hn) as [[= ->]|[? _]]; [|done]. unfold update. destruct s as [tokens attempts mutex]. cbn in *. unfold coherent in Hc. rewrite Hcaller in Hc.
    eapply (ok_update (mkLocks tokens attempts mutex)); cbn; [done..| | |rewrite Hcaller; by constructor]; [naive_solver|].
    intros id'. destruct (Nat.eqb_spec id' id) as [->|]; [|done]. rewrite (owner_of _ _ _ Hok Ha). destruct Hc as (-> & _). done.
  - unfold enter_failed. destruct (at_Thread a) eqn:Ht; intros [= <-]. eapply ok_quiet; [done..| |by rewrite Ht|done].
    unfold coherent in *. rewrite Ht in Hc. cbn. destruct (at_Caller a); naive_solver.
  - unfold entered. destruct (at_Thread a) eqn:Ht; intros [= <-]. eapply ok_quiet; [done..| |by rewrite Ht|done].
    unfold coherent in *. rewrite Ht in Hc. cbn. destruct (at_Caller a); naive_solver.
  - unfold wait_once. destruct (at_Thread a) eqn:Ht; try done.
    assert (Hgive : forall err closed, locks_ok (update s id (stop_waiting a err closed))).
    { intros err closed. eapply ok_quiet; [done..| |by rewrite Ht|done]. unfold coherent in *. rewrite Ht in Hc. cbn. destruct (at_Caller a), closed; naive_solver. }
    destruct answer as [| |[err|] now closed|code err closed]; destruct (lk_Mutex s) eqn:Hm; try done; try (by intros [= <-]).
    all: intros Hacq; by eapply acquire_ok; [..|exact Hacq]; [done|done|done|rewrite Hm].
  - unfold got_result. destruct (at_Caller a) eqn:Hcaller; try done. destruct (at_Result a) as [[err|]|] eqn:Hr; [| |done].
    + assert (Ht : at_Thread a = Left) by (unfold coherent in Hc; rewrite Hcaller, Hr in Hc; destruct (at_Thread a); naive_solver).
      edestruct (return_token_ok s id a {| a with at_Caller := LockFailed err; at_Result := None |}) as (s'' & -> & Hok'); [done..|by right| |by rewrite Hcaller|done|].
      { done. } by intros [= <-].
    + intros [= <-]. eapply ok_quiet; [done..| | |by rewrite Hcaller]; [|done]. unfold coherent in *. rewrite Hcaller, Hr in Hc. cbn. destruct (at_Thread a); naive_solver.
  - unfold unlock_called. destruct (at_Caller a) eqn:Hcaller; intros [= <-]. eapply ok_quiet; [done..| | |by rewrite Hcaller]; [|done].
    unfold coherent in *. rewrite Hcaller in Hc. cbn. destruct (at_Thread a); naive_solver.
  - unfold mutex_released. destruct (at_Thread a) eqn:Ht; try done. destruct (at_Release a) eqn:Hrel; [|done].
    assert (Hc' : forall f, coherent {| a with at_Thread := Closing f |}).
    { intros f. unfold coherent in *. rewrite Ht, Hrel in Hc. cbn. destruct (at_Caller a); naive_solver. }
    rewrite Hrel in Hc'.
    assert (Hm : lk_Mutex s = OwnedBy id) by (apply (owner_of _ _ _ Hok Ha); by rewrite Ht).
    destruct failed as [err|]; intros [= <-].
    + apply (ok_quiet s id a); [done..| |by rewrite Ht|done]. apply (Hc' (Some _)).
    + unfold update. destruct s as [tokens attempts mutex]. cbn in *. eapply (ok_update (mkLocks tokens attempts mutex)); cbn; [done..|apply (Hc' None)| |constructor].
      intros id'. destruct (Nat.eqb_spec id' id) as [->|Hne]; [done|]. split; congruence.
  - unfold handle_closed. destruct (at_Thread a) as [| | | |f| |] eqn:Ht; intros [= <-]. eapply ok_quiet; [done..| | |done].
    + unfold coherent in *. rewrite Ht in Hc. cbn. destruct (at_Caller a); naive_solver.
    + rewrite Ht. destruct f; done.
  - unfold thread_left. destruct (at_Thread a) as [| | | | |b|] eqn:Ht; try done. intros [= <-].
    assert (Hc' : coherent {| a with at_Thread := Left |}). { unfold coherent in *. rewrite Ht in Hc. cbn. destruct (at_Caller a); naive_solver. }
    destruct b; [|eapply ok_quiet; [done..|by rewrite Ht|done]].
    assert (Hm : lk_Mutex s = OwnedBy id) by (apply (owner_of _ _ _ Hok Ha); by rewrite Ht).
    unfold update. destruct s as [tokens attempts mutex]. cbn in *. subst mutex. cbn. rewrite Nat.eqb_refl.
    eapply (ok_update (mkLocks tokens attempts (OwnedBy id))); cbn; [done..| |constructor].
    intros id'. destruct (Nat.eqb_spec id' id) as [->|Hne]; [done|]. split; congruence.
  - unfold got_done. destruct (at_Caller a) eqn:Hcaller; try done. destruct (at_Done a) as [d|] eqn:Hd; [|done].
    edestruct (return_token_ok s id a {| a with at_Caller := Unlocked d; at_Done := None |}) as (s'' & -> & Hok'); [done..| | |by rewrite Hcaller|done|].
    { unfold coherent in *. rewrite Hcaller, Hd in Hc. cbn. destruct (at_Thread a); naive_solver. }
    { done. }
    by intros [= <-].
Qed.

Lemma no_locks_ok : locks_ok no_locks.
Proof.
  split; cbn.
  - by intros id a ?%lookup_empty_Some.
  - intros id. split; [done|]. by intros (a & ?%lookup_empty_Some & _).
  - by intros id a ?%lookup_empty_Some.
  - by intros p n ?%lookup_empty_Some.
  - by intros id a id' a' ?%lookup_empty_Some.
Qed.

Lemma locks_reachable_ok s : rtc lock_moves no_locks s -> locks_ok s.
Proof. apply (rtc_ind_r locks_ok); [exact no_locks_ok|]. intros s1 s2 _ [e He] Hok. by eapply lock_step_ok. Qed.

(** The lock's holder excludes all others. *)
Definition holds_alone (s : Locks) (id : nat) (a : Attempt) : Prop :=
  lk_Mutex s = OwnedBy id
  /\ lk_Tokens s !! at_Process a = Some 0%nat
  /\ forall id' a', lk_Attempts s !! id' = Some a' -> id' <> id ->
       at_Caller a' <> Holding /\ at_Thread a' <> Acquired
       /\ (at_Process a' = at_Process a -> at_Caller a' <> AwaitResult /\ at_Caller a' <> AwaitDone).

(** The event by which the token of the attempt comes back is not blocked: the
    channel is empty, and holds the token afterwards. *)
Definition returns_token (s : Locks) (a : Attempt) (e : LockEvent) : Prop :=
  lk_Tokens s !! at_Process a = Some 0%nat /\ exists s', lock_step s e = Some s' /\ lk_Tokens s' !! at_Process a = Some 1%nat.

Lemma holder_excludes s id a : locks_ok s -> lk_Attempts s !! id = Some a -> at_Caller a = Holding -> holds_alone s id a.
Proof.
  intros Hok Ha Hh. pose proof (lo_coherent _ Hok _ _ Ha) as Hc. unfold coherent in Hc. rewrite Hh in Hc. destruct Hc as (Ht & _ & _).
  assert (Hm : lk_Mutex s = OwnedBy id) by (apply (owner_of _ _ _ Hok Ha); by rewrite Ht).
  destruct (lo_token _ Hok _ _ Ha) as (n & Hn & Hz). rewrite Hh in Hz. rewrite (Hz eq_refl) in Hn. split_and!; [done..|].
  intros id' a' Ha' Hne. assert (Hno : owns (at_Thread a') <> true) by (intros Ho%(owner_of _ _ _ Hok Ha'); congruence).
  pose proof (lo_coherent _ Hok _ _ Ha') as Hc'. split_and!.
  - intros Hh'. unfold coherent in Hc'. rewrite Hh' in Hc'. destruct Hc' as (Ht' & _). by rewrite Ht' in Hno.
  - intros Ht'. by rewrite Ht' in Hno.
  - intros Hp. split; intros Hh'; apply Hne; eapply (lo_unique _ Hok); try done; by rewrite ?Hh, ?Hh'.
Qed.

Lemma empty_channel s id a : locks_ok s -> lk_Attempts s !! id = Some a -> has_token (at_Caller a) = true -> lk_Tokens s !! at_Process a = Some 0%nat.
Proof. intros Hok Ha Ht. destruct (lo_token _ Hok _ _ Ha) as (n & Hn & Hz). by rewrite (Hz Ht) in Hn. Qed.

Lemma token_accepted s id a' p : lk_Tokens s !! p = Some 0%nat ->
  exists s', return_token (update s id a') p = Some s' /\ lk_Tokens s' !! p = Some 1%nat.
Proof. intros Hn. unfold return_token, update. cbn. rewrite Hn. eexists. split; [reflexivity|]. cbn. apply lookup_insert_eq. Qed.

(** C6: One holder at a time.  However the callers, the threads and the kernel of any number
    of processes interleave, and whichever waits, releases and processes fail, at most
    one attempt holds the lock, its thread owns the mutex, and nobody else of its
    process has its token.  An attempt that has to give its token back, because the
    acquisition failed or because the release ended, finds the channel of its process
    empty: the send goes through and the token is back, so no caller is blocked by it. *)
Theorem state_lock_excludes s :
  rtc lock_moves no_locks s ->
  forall id a, lk_Attempts s !! id = Some a ->
    (at_Caller a = Holding -> holds_alone s id a)
    /\ (forall err, at_Caller a = AwaitResult -> at_Result a = Some (Some err) -> returns_token s a (GotResult id))
    /\ (forall err, at_Caller a = AwaitDone -> at_Done a = Some err -> returns_token s a (GotDone id)).
Proof.
  intros Hok%locks_reachable_ok id a Ha. split_and!; [by apply holder_excludes|intros err Hc Hr..];
    pose proof (empty_channel _ _ _ Hok Ha ltac:(by rewrite Hc)) as Hn; (split; [exact Hn|]); cbn [lock_step]; rewrite Ha.
  - unfold got_result. rewrite Hc, Hr. by apply token_accepted.
  - unfold got_done. rewrite Hc, Hr. by apply token_accepted.
Qed.

(** ** Every attempt can end *)

(** Steps without a failure, a new call or a death. *)
Definition progress (e : LockEvent) : bool :=
  match e with
  | TokenTaken _ | Entered _ _ | Waited _ WaitObject0 | Waited _ WaitAbandoned | GotResult _ | UnlockCalled _
  | MutexReleased _ None | HandleClosed _ None | ThreadLeft _ | GotDone _ => true
  | _ => false
  end.

Definition progresses (s s' : Locks) : Prop := exists e, progress e = true /\ lock_step s e = Some s'.

Definition ended (a : Attempt) : bool :=
  match at_Caller a, at_Thread a with
  | LockFailed _, NotStarted | LockFailed _, Left | Unlocked _, Left => true
  | _, _ => false
  end.

Definition caller_rank (c : CallerPhase) : nat := match c with AwaitToken _ => 10 | AwaitResult => 3 | Holding => 2 | AwaitDone => 1 | _ => 0 end.
Definition thread_rank (t : ThreadPhase) : nat :=
  match t with NotStarted | Left => 0 | Entering => 5 | Polling _ => 4 | Acquired => 3 | Closing _ => 2 | Leaving _ => 1 end.
Definition rank (a : Attempt) : nat := caller_rank (at_Caller a) + thread_rank (at_Thread a).
Definition total_rank (m : gmap nat Attempt) : nat := map_fold (fun _ a n => (rank a + n)%nat) 0%nat m.

Lemma total_rank_update m id a a' : m !! id = Some a -> (total_rank (<[id := a']> m) + rank a = total_rank m + rank a')%nat.
Proof.
  intros Ha. assert (Hins : forall b, total_rank (<[id := b]> (delete id m)) = (rank b + total_rank (delete id m))%nat).
  { intros b. apply (map_fold_insert_L (fun _ a n => (rank a + n)%nat)); [|apply lookup_delete_eq]. intros. lia. }
  rewrite <- insert_delete_eq, Hins. rewrite <- (insert_delete_id m id a Ha) at 2. rewrite Hins. lia.
Qed.

(** What a step of progress does: the rank falls. *)
Lemma progress_falls s e s' : progress e = true -> lock_step s e = Some s' -> (total_rank (lk_Attempts s') < total_rank (lk_Attempts s))%nat.
Proof.
  assert (Hfall : forall id a a' m, lk_Attempts s !! id = Some a -> (rank a' < rank a)%nat -> m = <[id := a']> (lk_Attempts s) ->
    (total_rank m < total_rank (lk_Attempts s))%nat).
  { intros id a a' m Ha Hr ->. pose proof (total_rank_update _ _ _ a' Ha). lia. }
  assert (Hret : forall id a' p s', return_token (update s id a') p = Some s' -> lk_Attempts s' = <[id := a']> (lk_Attempts s)).
  { intros id a' p t. unfold return_token, update. cbn. destruct (lk_Tokens s !! p) as [[|]|]; [|done..]. by intros [= <-]. }
  intros Hp. destruct e as [| | |id| |id now|id answer|id|id|id failed|id failed|id|id|]; try discriminate Hp; cbn [lock_step].
  all: destruct (lk_Attempts s !! id) as [a|] eqn:Ha; [|done].
  - unfold token_taken. destruct (at_Caller a) eqn:Hc; try done. destruct (lk_Tokens s !! at_Process a) as [[|]|]; try done. intros [= <-].
    eapply Hfall; [done| |done]. unfold rank. cbn. rewrite Hc. cbn. lia.
  - unfold entered. destruct (at_Thread a) eqn:Ht; intros [= <-]. eapply Hfall; [done| |done]. unfold rank. cbn. rewrite Ht. cbn. lia.
  - unfold wait_once. destruct (at_Thread a) eqn:Ht; try done. destruct answer; try done; destruct (lk_Mutex s); try done; intros [= <-].
    all: eapply Hfall; [done| |done]; unfold rank; cbn; rewrite Ht; cbn; lia.
  - unfold got_result. destruct (at_Caller a) eqn:Hc; try done. destruct (at_Result a) as [[err|]|]; try done.
    + intros Hr%Hret. eapply Hfall; [done| |done]. unfold rank. cbn. rewrite Hc. cbn. lia.
    + intros [= <-]. eapply Hfall; [done| |done]. unfold rank. cbn. rewrite Hc. cbn. lia.
  - unfold unlock_called. destruct (at_Caller a) eqn:Hc; intros [= <-]. eapply Hfall; [done| |done]. unfold rank. cbn. rewrite Hc. cbn. lia.
  - unfold mutex_released. destruct (at_Thread a) eqn:Ht; try done. destruct (at_Release a); [|done]. destruct failed; [done|]. intros [= <-].
    eapply Hfall; [done| |done]. unfold rank. cbn. rewrite Ht. cbn. lia.
  - unfold handle_closed. destruct (at_Thread a) eqn:Ht; intros [= <-]. eapply Hfall; [done| |done]. unfold rank. cbn. rewrite Ht. cbn. lia.
  - unfold thread_left. destruct (at_Thread a) as [| | | | |b|] eqn:Ht; try done. intros [= <-].
    eapply (Hfall _ a {| a with at_Thread := Left |}); [done| |by destruct b]. unfold rank. cbn. rewrite Ht. cbn. lia.
  - unfold got_done. destruct (at_Caller a) eqn:Hc; try done. destruct (at_Done a) as [d|]; [|done]. intros Hr%Hret.
    eapply Hfall; [done| |done]. unfold rank. cbn. rewrite Hc. cbn. lia.
Qed.

(** A thread that owns the mutex, or is about to end, can go on. *)
Lemma owner_progresses s id a :
  locks_ok s -> lk_Attempts s !! id = Some a -> owns (at_Thread a) = true \/ (exists b, at_Thread a = Leaving b) \/ (exists f, at_Thread a = Closing f) ->
  exists s', progresses s s'.
Proof.
  intros Hok Ha Ho. pose proof (lo_coherent _ Hok _ _ Ha) as Hc. destruct (at_Thread a) as [| | | |f|b|] eqn:Ht; try naive_solver.
  - clear Ho. unfold coherent in Hc. rewrite Ht in Hc. destruct (at_Caller a) eqn:Hcaller; try naive_solver.
    + destruct Hc as (_ & _ & Hr). eexists. exists (GotResult id). split; [done|]. cbn. by rewrite Ha; unfold got_result; rewrite Hcaller, Hr.
    + eexists. exists (UnlockCalled id). split; [done|]. cbn. rewrite Ha. unfold unlock_called. by rewrite Hcaller.
    + destruct Hc as (Hr & _). eexists. exists (MutexReleased id None). split; [done|]. cbn. rewrite Ha. unfold mutex_released. by rewrite Ht, Hr.
  - eexists. exists (HandleClosed id None). split; [done|]. cbn. rewrite Ha. unfold handle_closed. by rewrite Ht.
  - eexists. exists (ThreadLeft id). split; [done|]. cbn. rewrite Ha. unfold thread_left. by rewrite Ht.
Qed.

(** An attempt that has the token can go on, or the owner of the mutex can. *)
Lemma token_progresses s id a :
  locks_ok s -> lk_Attempts s !! id = Some a -> has_token (at_Caller a) = true -> exists s', progresses s s'.
Proof.
  intros Hok Ha Ht. pose proof (lo_coherent _ Hok _ _ Ha) as Hc. destruct (at_Thread a) as [| |started| |f|b|] eqn:Hth.
  - unfold coherent in Hc. rewrite Hth in Hc. destruct (at_Caller a); naive_solver.
  - eexists. exists (Entered id 0). split; [done|]. cbn. rewrite Ha. unfold entered. by rewrite Hth.
  - destruct (lk_Mutex s) as [|i|] eqn:Hm.
    + eexists. exists (Waited id WaitObject0). split; [done|]. cbn. rewrite Ha. unfold wait_once. by rewrite Hth, Hm.
    + destruct (proj1 (lo_owner _ Hok i) Hm) as (b & Hb & Ho). eapply (owner_progresses s i b); [done|done|by left].
    + eexists. exists (Waited id WaitAbandoned). split; [done|]. cbn. rewrite Ha. unfold wait_once. by rewrite Hth, Hm.
  - eapply (owner_progresses s id a); [done|done|rewrite Hth; by left].
  - eapply (owner_progresses s id a); [done|done|rewrite Hth; eauto].
  - eapply (owner_progresses s id a); [done|done|rewrite Hth; eauto].
  - unfold coherent in Hc. rewrite Hth in Hc. destruct (at_Caller a) eqn:Hcaller; try done; [|naive_solver|].
    + destruct Hc as (_ & _ & e & Hr). edestruct (return_token_ok s id a {| a with at_Caller := LockFailed e; at_Result := None |}) as (s' & Hs & _);
        [done|done|done|by right|done|by rewrite Hcaller|done|].
      exists s', (GotResult id). split; [done|]. cbn. rewrite Ha. unfold got_result. by rewrite Hcaller, Hr.
    + destruct Hc as (_ & d & Hd). edestruct (return_token_ok s id a {| a with at_Caller := Unlocked d; at_Done := None |}) as (s' & Hs & _);
        [done|done|done|by left|done|by rewrite Hcaller|done|].
      exists s', (GotDone id). split; [done|]. cbn. rewrite Ha. unfold got_done. by rewrite Hcaller, Hd.
Qed.

Lemma attempt_progresses s id a : locks_ok s -> lk_Attempts s !! id = Some a -> ended a = false -> exists s', progresses s s'.
Proof.
  intros Hok Ha He. pose proof (lo_coherent _ Hok _ _ Ha) as Hc. destruct (has_token (at_Caller a)) eqn:Ht; [by eapply token_progresses|].
  unfold coherent in Hc. unfold ended in He. destruct (at_Caller a) eqn:Hcaller; try discriminate Ht.
  - destruct (lo_token _ Hok _ _ Ha) as (n & Hn & _). destruct (lo_one _ Hok _ _ Hn) as [->|(-> & i & b & Hb & _ & Hbt)]; [|by eapply token_progresses].
    eexists. exists (TokenTaken id). split; [done|]. cbn. rewrite Ha. unfold token_taken. by rewrite Hcaller, Hn.
  - destruct Hc as [Hth|Hth]; rewrite Hth in He; discriminate He.
  - destruct Hc as [Hth|[b Hth]]; rewrite Hth in He; [discriminate He|]. eapply (owner_progresses s id a); [done|done|rewrite Hth; eauto].
Qed.

(** C20: Nobody is locked out for good.  From every reachable state, whatever failed and
    whoever died before, the attempts can all end without any new failure; then every
    process has its token back and no thread owns the mutex. *)
Theorem state_lock_drains s :
  rtc lock_moves no_locks s ->
  exists s', rtc progresses s s' /\ (forall id a, lk_Attempts s' !! id = Some a -> ended a = true)
    /\ (forall id, lk_Mutex s' <> OwnedBy id) /\ (forall p n, lk_Tokens s' !! p = Some n -> n = 1%nat).
Proof.
  intros Hok%locks_reachable_ok. remember (total_rank (lk_Attempts s)) as n eqn:Hn. revert s Hok Hn.
  induction (lt_wf n) as [n _ IH]. intros s Hok ->.
  destruct (decide (map_Forall (fun _ a => ended a = true) (lk_Attempts s))) as [Hall|Hsome].
  - exists s. split_and!; [done|exact Hall| |].
    + intros id Hm. destruct (proj1 (lo_owner _ Hok id) Hm) as (a & Ha & Ho). specialize (Hall _ _ Ha). unfold ended in Hall.
      destruct (at_Caller a), (at_Thread a); done.
    + intros p m Hm. destruct (lo_one _ Hok _ _ Hm) as [->|(_ & id & a & Ha & _ & Ht)]; [done|]. specialize (Hall _ _ Ha). unfold ended in Hall.
      destruct (at_Caller a); done.
  - apply map_not_Forall in Hsome as (id & a & Ha & He); [|apply _]. apply not_true_is_false in He.
    destruct (attempt_progresses _ _ _ Hok Ha He) as (s1 & e & Hp & Hs). pose proof (progress_falls _ _ _ Hp Hs) as Hlt.
    destruct (IH _ Hlt s1 (lock_step_ok _ _ _ Hok Hs) eq_refl) as (s' & Hrtc & Hend). exists s'. split; [|exact Hend].
    eapply rtc_l; [|exact Hrtc]. by exists e.
Qed.

(** ** Other facts *)

(** The named stage is passed over by the check for a cancelled poll. *)
Lemma lockWaitError_transparent class started now err : pollSuperseded (lockWaitError class started now err) = pollSuperseded err.
Proof. done. Qed.

Section Lockers.
Context (sha256 : string -> string).

(** A process has one channel for each name: lockers of the same scope and user share
    it, those of another name do not. *)
Definition channels_ok (lockers : gmap string nat) : Prop :=
  (forall name n, lockers !! name = Some n -> (n < size lockers)%nat)
  /\ (forall name name' n, lockers !! name = Some n -> lockers !! name' = Some n -> name = name').

Lemma NewPlatformLocker_shares current scope lockers m lockers' :
  channels_ok lockers -> NewPlatformLocker sha256 current scope lockers = Ok (m, lockers') ->
  channels_ok lockers' /\ lockers ⊆ lockers' /\ lockers' !! wm_Name m = Some (wm_Local m)
  /\ exists sid, current = Ok sid /\ sid <> "" /\ m = mkWindowsMutex (mutex_name sha256 scope sid) sid (wm_Local m).
Proof.
  intros [Hlt Hinj]. unfold NewPlatformLocker. destruct current as [sid|e]; [|done]. destruct (String.eqb_spec sid "") as [|Hsid]; [done|].
  destruct (lockers !! mutex_name sha256 scope sid) as [n|] eqn:Hn; intros [= <- <-]; cbn.
  - refine (conj _ (conj _ (conj _ _))); [done..|]. by exists sid.
  - assert (Hsize : size (<[mutex_name sha256 scope sid := size lockers]> lockers) = S (size lockers)) by (by rewrite map_size_insert_None).
    refine (conj _ (conj _ (conj _ _))).
    + split.
      * intros name n. rewrite Hsize, lookup_insert_Some. intros [[_ <-]|[_ Hl%Hlt]]; lia.
      * intros name name' n. rewrite !lookup_insert_Some. intros [[<- <-]|[_ Hl]] [[<- Heq]|[_ Hl']]; [done|apply Hlt in Hl'; lia|subst n; apply Hlt in Hl; lia|by eapply Hinj].
    + by apply insert_subseteq.
    + by rewrite lookup_insert_eq.
    + by exists sid.
Qed.

End Lockers.

(** On other systems one holder has the lock of a scope. *)
Definition semaphores_ok (s : Semaphores) : Prop :=
  forall scope n, sm_Tokens s !! scope = Some n ->
    (n = 1%nat /\ (forall id, sm_Holders s !! id <> Some scope)) \/ (n = 0%nat /\ exists id, forall id', sm_Holders s !! id' = Some scope <-> id' = id).

Definition semaphores_known (s : Semaphores) : Prop := forall id scope, sm_Holders s !! id = Some scope -> is_Some (sm_Tokens s !! scope).

Lemma semaphore_step_ok s e s' :
  semaphores_ok s -> semaphores_known s -> semaphore_step s e = Some s' -> semaphores_ok s' /\ semaphores_known s'.
Proof.
  intros Hok Hkn. destruct e as [scope|id scope|id]; cbn.
  - destruct (sm_Tokens s !! scope) as [n|] eqn:Hn; intros [= <-]; [done|]. split.
    + intros q m. cbn. rewrite lookup_insert_Some. intros [[<- <-]|[_ Hq]]; [|by apply Hok]. left. split; [done|]. intros id Hid.
      destruct (Hkn _ _ Hid). congruence.
    + intros id q Hid. cbn in *. rewrite lookup_insert_is_Some. destruct (decide (scope = q)); [by left|right; split; [done|by eapply Hkn]].
  - destruct (sm_Holders s !! id) eqn:Hid; [done|]. destruct (sm_Tokens s !! scope) as [[|n]|] eqn:Hn; try done. intros [= <-].
    destruct (Hok _ _ Hn) as [[[= ->] Hnone]|[? _]]; [|done]. split.
    + intros q m. cbn. rewrite lookup_insert_Some. intros [[<- <-]|[Hne Hq]].
      * right. split; [done|]. exists id. intros id'. rewrite lookup_insert_Some. specialize (Hnone id'). naive_solver.
      * destruct (Hok _ _ Hq) as [[-> Hno]|(-> & i & Hi)]; [left|right]; (split; [done|]).
        -- intros id'. rewrite lookup_insert_Some. specialize (Hno id'). naive_solver.
        -- exists i. intros id'. rewrite lookup_insert_Some, <- Hi. naive_solver.
    + intros id' q. cbn. rewrite lookup_insert_Some, lookup_insert_is_Some. intros [[<- <-]|[_ Hq]]; [by left|].
      destruct (decide (scope = q)); [by left|right; split; [done|by eapply Hkn]].
  - destruct (sm_Holders s !! id) as [scope|] eqn:Hid; [|done]. destruct (sm_Tokens s !! scope) as [[|n]|] eqn:Hn; try done. intros [= <-].
    destruct (Hok _ _ Hn) as [[? _]|(_ & i & Hi)]; [done|]. split.
    + intros q m. cbn. rewrite lookup_insert_Some. intros [[<- <-]|[Hne Hq]].
      * left. split; [done|]. intros id'. rewrite lookup_delete_Some, Hi. apply Hi in Hid. naive_solver.
      * destruct (Hok _ _ Hq) as [[-> Hno]|(-> & j & Hj)]; [left|right]; (split; [done|]).
        -- intros id'. rewrite lookup_delete_Some. specialize (Hno id'). naive_solver.
        -- exists j. intros id'. rewrite lookup_delete_Some, <- Hj. naive_solver.
    + intros id' q. cbn. rewrite lookup_delete_Some, lookup_insert_is_Some. intros [_ Hq].
      destruct (decide (scope = q)); [by left|right; split; [done|by eapply Hkn]].
Qed.

(** ** A failed release between two processes *)

Fixpoint lock_run (s : Locks) (events : list LockEvent) : option Locks :=
  match events with
  | [] => Some s
  | e :: events => match lock_step s e with Some s' => lock_run s' events | None => None end
  end.

Lemma lock_run_moves s events s' : lock_run s events = Some s' -> rtc lock_moves s s'.
Proof.
  revert s. induction events as [|e events IH]; cbn; intros s; [intros [= <-]; done|].
  destruct (lock_step s e) as [s1|] eqn:He; [|done]. intros Hr%IH. eapply rtc_l; [by exists e|done].
Qed.

(** The first process fails to release; the second takes the abandoned mutex. *)
Definition abandoned_events : list LockEvent :=
  [Register 1; Register 2; Call 10 1 0; Call 20 2 0; TokenTaken 10; TokenTaken 20; Entered 20 1; Entered 10 1; Waited 10 WaitObject0;
   Waited 20 (WaitTimeout None 2 None); GotResult 10; UnlockCalled 10; MutexReleased 10 (Some (ErrNew "not owner")); HandleClosed 10 None; GotDone 10;
   ThreadLeft 10; Waited 20 WaitAbandoned; GotResult 20].

Definition abandoned_state : Locks := default no_locks (lock_run no_locks abandoned_events).

Lemma abandoned_reached : rtc lock_moves no_locks abandoned_state.
Proof. apply (lock_run_moves _ abandoned_events). vm_compute. reflexivity. Qed.

(** The first process while its release has ended and its token is not yet back. *)
Definition releasing_state : Locks := default no_locks (lock_run no_locks (take 14 abandoned_events)).

Lemma releasing_reached : rtc lock_moves no_locks releasing_state.
Proof. apply (lock_run_moves _ (take 14 abandoned_events)). vm_compute. reflexivity. Qed.

Lemma state_lock_excludes_witness :
  holds_alone abandoned_state 20 (mkAttempt 2 Holding Acquired None false None)
  /\ returns_token releasing_state
       (mkAttempt 1 AwaitDone (Leaving true) None true (Some (errors_Join [Some (ErrWrap "ReleaseMutex" (ErrNew "not owner")); None]))) (GotDone 10).
Proof.
  split.
  - refine (proj1 (state_lock_excludes abandoned_state abandoned_reached 20 _ _) _); vm_compute; reflexivity.
  - refine (proj2 (proj2 (state_lock_excludes releasing_state releasing_reached 10 _ _)) _ _ _); [vm_compute; reflexivity|reflexivity|reflexivity].
Defined.

Lemma state_lock_drains_witness : exists s', rtc progresses abandoned_state s' /\ forall id, lk_Mutex s' <> OwnedBy id.
Proof. destruct (state_lock_drains abandoned_state abandoned_reached) as (s' & Hr & _ & Hm & _). eauto. Defined.
