(* ===== verification/Inspector.v ===== *)
(** The local inspection of a host: the compatibility manifest that ties the executable
    to its worker image (internal/app/compatibility.go), the walk that refuses reparse
    points below a private directory (internal/app/path_security.go), and the doctor's
    inspector with its walk over the access control lists of the private trees
    (internal/app/doctor_inspector.go).

    The file system, the access control lists, the stored secrets, the Docker engine,
    the registry and BitLocker are calls with arbitrary answers.  The deadlines the
    probes run under belong to their contexts and are not visible here; the budget
    each probe asks for is. *)

From S2P Require Import Prelude Float64 GoStrings Regexp Model Config GoText Yaml Errors Effects Reconciler FileSystem Store Interaction Watchdog Host Artifacts Secret Cli Doctor.
From stdpp Require Import pretty.
From Stdlib Require Import Ascii.
#[local] Open Scope Z_scope.
Open Scope i_scope.

(** ** Calls *)

(** An entry of a directory: the bits of its type and the type as a text. *)
Record WalkEntry := mkWalkEntry {
  we_Name : string;
  we_IsDir : bool;
  we_Symlink : bool;
  we_Regular : bool;
  we_Type : string;
}.

Inductive vcall :=
  | OpenManifest (path : string)
  | ReadManifest (limit : Z)
  | CloseManifest
  | VLstat (path : string)
  | VReparse (path : string)
  | VMkdirAll (directory : string)
  | VHarden (path : string)
  | VVerify (path : string)
  | VReadDir (path : string)
  | InspectSecret (id : string) (budget : duration)
  | VNow
  | EngineProbe (budget : duration)
  | ProbePendingReboot
  | VerifyProtected (path : string) (budget : duration).

(** [ReadManifest] gives what was read before its error, [VReadDir] likewise. *)
Definition vresp (c : vcall) : Type :=
  match c with
  | OpenManifest _ | CloseManifest | VMkdirAll _ | VHarden _ | VVerify _ | VerifyProtected _ _ => option error
  | ReadManifest _ => string * option error
  | VLstat _ => result error WalkEntry
  | VReparse _ => result error bool
  | VReadDir _ => list WalkEntry * option error
  | InspectSecret _ _ => result error SecretResult
  | VNow => time
  | EngineProbe _ => string * string * option error
  | ProbePendingReboot => PendingReboot * option error
  end.

Abbreviation vprog := (iprog vresp).
Definition vask (c : vcall) : vprog (vresp c) := icall c.

(** ** The compatibility manifest *)

Definition compatibilitySchemaVersion : Z := 1.
Definition compatibilityMaximumSize : Z := 2 ^ 20.
Definition productionSourceRepository : string := "melodic-software/ci-runner".
Definition OfficialClientVersion : string := "v0.4.0".
Definition OfficialClientCommit : string := "6ce025902cd964747a078c2aabe7340ebc667eca".

Definition hex_class (a : ascii) : bool := digit a || byte_range "a" "f" a.
Definition exactly (n : nat) (r : regexp) : regexp := repeated n n r.

Definition semanticVersionPattern : regexp :=
  let number := Alternate (literal "0") (Concat (CharClass (byte_range "1" "9")) (Star (CharClass digit))) in
  let any := CharClass (fun a => alnum a || one_of ["-"%char] a) in
  let nondigit := CharClass (fun a => upper a || lower a || one_of ["-"%char] a) in
  let identifier := Alternate number (Concat (Star any) (Concat nondigit (Star any))) in
  Concat number (Concat (literal ".") (Concat number (Concat (literal ".") (Concat number
    (optional (Concat (literal "-") (Concat identifier (Star (Concat (literal ".") identifier))))))))).
Definition shaPattern : regexp := exactly 40 (CharClass hex_class).
Definition checksumPattern : regexp := exactly 64 (CharClass hex_class).
Definition digestPattern : regexp := Concat (literal "sha256:") (exactly 64 (CharClass hex_class)).
Definition image_class (a : ascii) : bool := lower a || digit a || one_of ["."%char; "_"%char; "-"%char] a.
Definition workerImagePattern : regexp :=
  Concat (literal "ghcr.io/") (Concat (Regexp.plus (CharClass image_class))
    (Concat (literal "/") (Regexp.plus (CharClass (fun a => image_class a || one_of ["/"%char] a))))).

Record CompatibilitySource := mkCompatibilitySource { cs_Repository : string; cs_SHA : string }.
Record CompatibilityController := mkCompatibilityController {
  cct_Version : string;
  cct_WindowsArchive : string;
  cct_ArchiveDigest : string;
}.
Record CompatibilityWorker := mkCompatibilityWorker { cw_Image : string; cw_Digest : string }.
Record CompatibilityDependencies := mkCompatibilityDependencies {
  cd_RunnerVersion : string;
  cd_ScaleSetClientVersion : string;
  cd_ScaleSetClientCommit : string;
  cd_GoToolchain : string;
  cd_PowerShellVersion : string;
  cd_GHVersion : string;
  cd_GHLinuxAMD64ArchiveSHA256 : string;
  cd_BuildxVersion : string;
  cd_BuildxLinuxAMD64SHA256 : string;
  cd_BuildKitVersion : string;
  cd_BuildKitDigest : string;
  cd_BuildKitLinuxAMD64Digest : string;
  cd_SBOMGeneratorVersion : string;
  cd_SBOMGeneratorDigest : string;
  cd_SBOMGeneratorLinuxAMD64Digest : string;
}.
Record CompatibilityEvidence := mkCompatibilityEvidence {
  ce_Checksums : string;
  ce_ControllerSBOM : string;
  ce_ControllerProvenance : string;
  ce_WorkerSBOM : string;
  ce_WorkerProvenance : string;
}.
Record CompatibilityManifest := mkCompatibilityManifest {
  cm_SchemaVersion : Z;
  cm_CreatedAt : time;
  cm_ReleaseVersion : string;
  cm_Source : CompatibilitySource;
  cm_Controller : CompatibilityController;
  cm_Worker : CompatibilityWorker;
  cm_Dependencies : CompatibilityDependencies;
  cm_Evidence : CompatibilityEvidence;
}.

(** What the JSON decoder makes of a text, unknown fields refused, what follows the
    first value, and the version of the Go runtime. *)
Class ManifestText := {
  decode_manifest : string -> result error CompatibilityManifest;
  manifest_trailer : string -> Trailer;
  runtime_Version : string;
}.

Definition WorkerReference (m : CompatibilityManifest) : string := cw_Image (cm_Worker m) +:+ "@" +:+ cw_Digest (cm_Worker m).

Section Manifest.
Context `{ManifestText}.

Definition manifest_rules (m : CompatibilityManifest) (expected : string) : list (bool * string) :=
  let semver := MatchString semanticVersionPattern in
  let digest := MatchString digestPattern in
  let checksum := MatchString checksumPattern in
  let d := cm_Dependencies m in
  let e := cm_Evidence m in
  [ (cm_SchemaVersion m =? compatibilitySchemaVersion, "unsupported compatibility schemaVersion " +:+ pretty (cm_SchemaVersion m));
    (negb (IsZero (cm_CreatedAt m)), "compatibility createdAt is required");
    (semver expected, "injected controller version is not strict SemVer");
    (String.eqb (cct_Version (cm_Controller m)) expected, "compatibility controller version does not match this executable");
    (String.eqb (cm_ReleaseVersion m) ("v" +:+ expected), "compatibility releaseVersion does not match this executable");
    (String.eqb (cs_Repository (cm_Source m)) productionSourceRepository, "compatibility source repository is not melodic-software/ci-runner");
    (MatchString shaPattern (cs_SHA (cm_Source m)), "compatibility source SHA must be 40 lowercase hexadecimal characters");
    (String.eqb (cct_WindowsArchive (cm_Controller m)) ("ci-runner-v" +:+ expected +:+ "-windows-amd64.zip"),
     "compatibility Windows archive name does not match this executable");
    (digest (cct_ArchiveDigest (cm_Controller m)), "compatibility controller archive digest is invalid");
    (MatchString workerImagePattern (cw_Image (cm_Worker m)), "compatibility worker image must be an untagged ghcr.io repository");
    (digest (cw_Digest (cm_Worker m)), "compatibility worker digest is invalid");
    (semver (cd_RunnerVersion d), "compatibility runner version is invalid");
    (String.eqb (cd_ScaleSetClientVersion d) (TrimPrefix OfficialClientVersion "v"),
     "compatibility Scale Set Client version does not match the compiled client");
    (String.eqb (cd_ScaleSetClientCommit d) OfficialClientCommit, "compatibility Scale Set Client commit does not match the compiled client");
    (String.eqb (cd_GoToolchain d) runtime_Version, "compatibility Go toolchain does not match this executable");
    (semver (cd_PowerShellVersion d), "compatibility PowerShell version is invalid");
    (semver (cd_GHVersion d), "compatibility GitHub CLI version is invalid");
    (checksum (cd_GHLinuxAMD64ArchiveSHA256 d), "compatibility GitHub CLI linux/amd64 archive checksum is invalid");
    (semver (cd_BuildxVersion d), "compatibility Buildx version is invalid");
    (checksum (cd_BuildxLinuxAMD64SHA256 d), "compatibility Buildx linux/amd64 checksum is invalid");
    (semver (cd_BuildKitVersion d), "compatibility BuildKit version is invalid");
    (digest (cd_BuildKitDigest d), "compatibility BuildKit manifest digest is invalid");
    (digest (cd_BuildKitLinuxAMD64Digest d), "compatibility BuildKit linux/amd64 digest is invalid");
    (semver (cd_SBOMGeneratorVersion d), "compatibility SBOM generator version is invalid");
    (digest (cd_SBOMGeneratorDigest d), "compatibility SBOM generator manifest digest is invalid");
    (digest (cd_SBOMGeneratorLinuxAMD64Digest d), "compatibility SBOM generator linux/amd64 digest is invalid");
    (String.eqb (ce_Checksums e) "SHA256SUMS", "compatibility checksum evidence must be SHA256SUMS");
    (String.eqb (ce_ControllerSBOM e) ("ci-runner-v" +:+ expected +:+ "-windows-amd64.spdx.json"),
     "compatibility controller SBOM reference does not match this executable");
    (String.eqb (ce_ControllerProvenance e) "https://github.com/melodic-software/ci-runner/attestations",
     "compatibility controller provenance reference is invalid");
    (String.eqb (ce_WorkerSBOM e) ("oci://" +:+ WorkerReference m +:+ "#sbom"),
     "compatibility worker SBOM reference does not match the worker digest");
    (String.eqb (ce_WorkerProvenance e) ("oci://" +:+ WorkerReference m +:+ "#provenance"),
     "compatibility worker provenance reference does not match the worker digest") ].

Definition Manifest_Validate (m : CompatibilityManifest) (expected : string) : option error :=
  match omap (fun rule : bool * string => if fst rule then None else Some (ErrNew (snd rule))) (manifest_rules m expected) with
  | [] => None
  | problems => Some (ErrWrap "invalid compatibility manifest" (ErrJoin problems))
  end.

Definition decode_contents (contents expected : string) : result error CompatibilityManifest :=
  if compatibilityMaximumSize <? Z.of_nat (String.length contents)
  then Err (ErrNew ("compatibility manifest exceeds " +:+ pretty compatibilityMaximumSize +:+ " bytes"))
  else match decode_manifest contents with
       | Err e => Err (ErrWrap "decode compatibility manifest" e)
       | Ok manifest =>
           match manifest_trailer contents with
           | TrailerDocument => Err (ErrNew "compatibility manifest contains multiple JSON values")
           | TrailerError e => Err (ErrWrap "decode compatibility manifest trailer" (ErrNew e))
           | TrailerEOF => match Manifest_Validate manifest expected with Some e => Err e | None => Ok manifest end
           end
       end.

Definition LoadCompatibilityManifest (path expected : string) : vprog (result error CompatibilityManifest) :=
  if String.eqb expected "" || String.eqb expected "dev"
  then IRet (Err (ErrNew "production controller requires an injected non-development version"))
  else
    let^ opened := vask (OpenManifest path) in
    match opened with
    | Some e => IRet (Err (ErrWrap "open compatibility manifest" e))
    | None =>
        let^ read := vask (ReadManifest (compatibilityMaximumSize + 1)) in
        let^ closed := vask CloseManifest in
        match errors_Join [snd read; closed] with
        | Some e => IRet (Err (ErrWrap "read compatibility manifest" e))
        | None => IRet (decode_contents (fst read) expected)
        end
    end.

End Manifest.

(** ** Private directories *)

Section Paths.
Context `{Platform, FilePath, Volumes}.

Definition path_separator (a : ascii) : bool := Ascii.eqb a "/" || Ascii.eqb a backslash.

Fixpoint TrimLeftSeparators (s : string) : string :=
  match s with String a rest => if path_separator a then TrimLeftSeparators rest else s | EmptyString => s end.

(** The components below a path, each looked at when it exists. *)
Fixpoint reparse_walk (current : string) (components : list string) : vprog (option error) :=
  match components with
  | [] => IRet None
  | component :: components =>
      let current := filepath_Join current component in
      let^ info := vask (VLstat current) in
      match info with
      | Err e =>
          if is_sentinel OsErrNotExist e then reparse_walk current components
          else IRet (Some (ErrWrap ("inspect runtime path component " +:+ Quote current) e))
      | Ok _ =>
          let^ reparse := vask (VReparse current) in
          match reparse with
          | Err e => IRet (Some (ErrWrap ("inspect runtime path component " +:+ Quote current +:+ " for reparse data") e))
          | Ok true => IRet (Some (ErrNew ("runtime path component " +:+ Quote current +:+ " is a symbolic link or reparse point")))
          | Ok false => reparse_walk current components
          end
      end
  end.

Definition path_components (clean : string) : list string :=
  FieldsFunc path_separator "" (TrimLeftSeparators (TrimPrefix clean (VolumeName clean))).

Definition ensureNoReparsePoints (path : string) : vprog (option error) :=
  let clean := Clean path in
  if negb (IsAbs clean) then IRet (Some (ErrNew "runtime root must be absolute"))
  else
    let volume := VolumeName clean in
    let current := if String.eqb volume "" then String Separator "" else volume +:+ String Separator "" in
    reparse_walk current (path_components clean).

Definition preparePrivateRuntimeDirectory (directory : string) : vprog (option error) :=
  let^ checked := ensureNoReparsePoints directory in
  match checked with
  | Some e => IRet (Some e)
  | None =>
      let^ made := vask (VMkdirAll directory) in
      match made with
      | Some e => IRet (Some (ErrWrap ("create private runtime directory " +:+ Quote directory) e))
      | None =>
          let^ checked := ensureNoReparsePoints directory in
          match checked with
          | Some e => IRet (Some e)
          | None =>
              let^ hardened := vask (VHarden directory) in
              match hardened with
              | Some e => IRet (Some (ErrWrap ("secure private runtime directory " +:+ Quote directory) e))
              | None =>
                  let^ verified := vask (VVerify directory) in
                  match verified with
                  | Some e => IRet (Some (ErrWrap ("verify private runtime directory " +:+ Quote directory) e))
                  | None => IRet None
                  end
              end
          end
      end
  end.

(** [pathHasReparsePoint] on Windows, of the attributes of the file. *)
Definition fileAttributeReparsePoint : Z := 1024.
Definition has_reparse_attribute (attributes : Z) : bool := negb (Z.land attributes fileAttributeReparsePoint =? 0).

(** ** The walk over the access control lists *)

Definition maximumDoctorACLEntries : Z := 100000.

(** What the callback of [filepath.WalkDir] does with an entry, or with the error of
    the walk. *)
Definition acl_failure (root path : string) (e : error) : option error :=
  if is_sentinel OsErrNotExist e && negb (String.eqb path root) then None else Some e.

Definition acl_visit (root path : string) (entry : WalkEntry) (count : Z) : vprog (Z * option error) :=
  let count := count + 1 in
  if maximumDoctorACLEntries <? count
  then IRet (count, Some (ErrNew ("ACL verification exceeds the " +:+ pretty maximumDoctorACLEntries +:+ "-entry safety limit")))
  else if we_Symlink entry
  then IRet (count, Some (ErrNew ("symbolic links and junction-like entries are not allowed in private runtime trees: " +:+ path)))
  else if negb (we_IsDir entry) && negb (we_Regular entry)
  then IRet (count, Some (ErrNew ("unsupported filesystem entry in private runtime tree: " +:+ path +:+ " (" +:+ we_Type entry +:+ ")")))
  else
    let^ verified := vask (VVerify path) in
    IRet (count, match verified with
                 | Some e => if is_sentinel OsErrNotExist e && negb (String.eqb path root) then None else Some (ErrWrap ("verify " +:+ path) e)
                 | None => None
                 end).

(** The children of a directory, each walked by [walk]. *)
Fixpoint walk_children (walk : string -> WalkEntry -> Z -> vprog (option (Z * option error))) (path : string) (entries : list WalkEntry) (count : Z)
    : vprog (option (Z * option error)) :=
  match entries with
  | [] => IRet (Some (count, None))
  | d :: entries =>
      let^ walked := walk (filepath_Join path (we_Name d)) d count in
      match walked with
      | Some (count, None) => walk_children walk path entries count
      | stopped => IRet stopped
      end
  end.

(** [filepath.WalkDir] below an entry; [None] when the fuel does not suffice. *)
Fixpoint walkDir (fuel : nat) (root path : string) (entry : WalkEntry) (count : Z) : vprog (option (Z * option error)) :=
  match fuel with
  | O => IRet None
  | S fuel =>
      let^ visited := acl_visit root path entry count in
      match visited with
      | (count, Some e) => IRet (Some (count, Some e))
      | (count, None) =>
          if negb (we_IsDir entry) then IRet (Some (count, None))
          else
            let^ listed := vask (VReadDir path) in
            match snd listed with
            | Some e =>
                match acl_failure root path e with
                | Some e => IRet (Some (count, Some e))
                | None => walk_children (walkDir fuel root) path (fst listed) count
                end
            | None => walk_children (walkDir fuel root) path (fst listed) count
            end
      end
  end.

(** No walk is deeper than the limit on its entries. *)
Definition walk_fuel : nat := Z.to_nat (maximumDoctorACLEntries + 1).

Definition verifyACLTree (acl : bool) (root : string) : vprog (option (Z * option error)) :=
  if negb acl then IRet (Some (0, Some (ErrNew "ACL verifier is unavailable")))
  else
    let root := Clean root in
    let^ info := vask (VLstat root) in
    match info with
    | Err e => IRet (Some (0, acl_failure root root e))
    | Ok entry => walkDir walk_fuel root root entry 0
    end.

End Paths.

(** ** The inspector *)

(** Which adapters the inspector was built with, and the version of the executable. *)
Record LocalDoctorInspector := mkInspector {
  li_Config : Config;
  li_ACL : bool;
  li_BitLocker : bool;
  li_Secrets : bool;
  li_Engine : bool;
  li_PendingReboot : bool;
  li_Version : string;
}.

Definition defaultElevatedProbeTimeout : duration := 2 * Minute.

Section Inspect.
Context `{ManifestText, Platform, FilePath, Volumes} (i : LocalDoctorInspector).

Definition probe_budget : duration := co_LocalProbeTimeout (c_Controller (li_Config i)).
Definition elevated_budget : duration :=
  let budget := co_ElevatedProbeTimeout (c_Controller (li_Config i)) in
  if budget <=? 0 then defaultElevatedProbeTimeout else budget.

Definition manifest_check : vprog DoctorCheck :=
  let^ loaded := LoadCompatibilityManifest (c_CompatibilityManifest (li_Config i)) (li_Version i) in
  IRet (match loaded with
        | Err e => plain "compatibility-manifest" false (error_text e)
        | Ok manifest =>
            plain "compatibility-manifest" true
              ("controller=" +:+ cct_Version (cm_Controller manifest) +:+ " source=" +:+ cs_SHA (cm_Source manifest)
               +:+ " worker=" +:+ WorkerReference manifest)
        end).

Definition acl_roots : list (string * string) :=
  let paths := c_Paths (li_Config i) in
  [("secrets", pa_Secrets paths); ("state", pa_State paths); ("logs", pa_Logs paths); ("diagnostics", pa_Diagnostics paths)].

Fixpoint acl_checks (roots : list (string * string)) : vprog (option (list DoctorCheck)) :=
  match roots with
  | [] => IRet (Some [])
  | (name, path) :: roots =>
      let^ walked := verifyACLTree (li_ACL i) path in
      match walked with
      | None => IRet None
      | Some (count, err) =>
          let detail := path +:+ " (" +:+ pretty count +:+ " entries)" +:+ (match err with Some e => ": " +:+ error_text e | None => "" end) in
          let check := plain ("acl/" +:+ name) (match err with None => true | Some _ => false end) detail in
          let^ checks := acl_checks roots in
          IRet (match checks with Some checks => Some (check :: checks) | None => None end)
      end
  end.

Definition ordered_secret_ids : list string :=
  sort_by String.ltb (elements (list_to_set (map t_SecretID (c_Targets (li_Config i))) : gset string)).

Definition credential_acl_check (id : string) : vprog DoctorCheck :=
  let name := "credential-acl/" +:+ id in
  if negb (li_ACL i) then IRet (plain name false "ACL verifier is unavailable")
  else
    let^ verified := vask (VVerify (filepath_Join (pa_Secrets (c_Paths (li_Config i))) (id +:+ ".dpapi"))) in
    IRet (match verified with
          | Some e => plain name false (error_text e)
          | None => plain name true "current user and SYSTEM only"
          end).

Definition credential_check (id : string) : vprog DoctorCheck :=
  let name := "credential/" +:+ id in
  if negb (li_Secrets i) then IRet (plain name false "secret inspector is unavailable")
  else
    let^ inspected := vask (InspectSecret id probe_budget) in
    match inspected with
    | Err e => IRet (plain name false (error_text e))
    | Ok metadata =>
        let^ now := vask VNow in
        let age := Sub now (sr_ImportedAt metadata) in
        IRet (plain name (negb (IsZero (sr_ImportedAt metadata)) && (0 <=? age))
                ("fingerprint=" +:+ sr_Fingerprint metadata +:+ " importedAt=" +:+ Format_RFC3339 (sr_ImportedAt metadata)
                 +:+ " age=" +:+ Duration_String (Duration_Round age Second)))
    end.

Fixpoint credential_checks (ids : list string) : vprog (list DoctorCheck) :=
  match ids with
  | [] => IRet []
  | id :: ids =>
      let^ acl := credential_acl_check id in
      let^ credential := credential_check id in
      let^ checks := credential_checks ids in
      IRet (acl :: credential :: checks)
  end.

Definition engine_check (request : DoctorInspection) : vprog DoctorCheck :=
  if negb (di_CheckDocker request) && negb (di_RequireDocker request)
  then IRet (mkDoctorCheck "local-docker-engine" false true false "not required in the current healthy lifecycle phase")
  else if negb (li_Engine i) then IRet (plain "local-docker-engine" false "fixed-endpoint Docker Engine probe is unavailable")
  else
    let^ answer := vask (EngineProbe probe_budget) in
    let '(operatingSystem, architecture, err) := answer in
    IRet (match err with
          | Some e => plain "local-docker-engine" false (error_text e)
          | None =>
              plain "local-docker-engine"
                (String.eqb operatingSystem "linux" && (String.eqb architecture "amd64" || String.eqb architecture "x86_64"))
                ("fixed local endpoint reports " +:+ displayValue operatingSystem +:+ "/" +:+ displayValue architecture)
          end).

Definition ErrPendingRebootUnsupported : error := ErrNew "pending-reboot inspection requires Windows".

Definition pendingRebootCheck : vprog DoctorCheck :=
  let name := "pending-os-reboot" in
  if negb (li_PendingReboot i) then IRet (mkDoctorCheck name false false true "pending-reboot probe is unavailable")
  else
    let^ probed := vask ProbePendingReboot in
    let '(pending, err) := probed in
    let unsupported := match err with Some e => is_sentinel ErrPendingRebootUnsupported e | None => false end in
    let text := match err with Some e => error_text e | None => "" end in
    IRet (if unsupported then mkDoctorCheck name false true false text
          else if Pending pending then
            mkDoctorCheck name false false true
              ("OS reboot pending (" +:+ GoText.Join ", " (Signals pending)
               +:+ "); expected under the never-auto-reboot update policy, finish it during the next deliberate drain window"
               +:+ (match err with Some _ => "; partial probe failure: " +:+ text | None => "" end))
          else match err with
               | Some _ => mkDoctorCheck name false false true text
               | None => mkDoctorCheck name true false true
                           "no reboot-pending signal from component servicing, session-manager file renames, or Windows Update"
               end).

Definition jit_check : DoctorCheck :=
  mkDoctorCheck "github-jit-proof" false true false
    "not performed by doctor because JIT creation mutates GitHub runner inventory; the first enable on a rolling-host rollout performs this proof under real traffic".

Definition bitLockerCheck (request : DoctorInspection) : vprog DoctorCheck :=
  if negb (di_IncludeElevated request)
  then IRet (mkDoctorCheck "bitlocker" false true false
               "requires an elevated BitLocker status probe that may open an Administrator UAC prompt; rerun with --include-elevated to perform it")
  else if negb (li_BitLocker i) then IRet (plain "bitlocker" false "BitLocker verifier is unavailable")
  else
    let^ verified := vask (VerifyProtected (pa_Secrets (c_Paths (li_Config i))) elevated_budget) in
    IRet (match verified with
          | Some e => plain "bitlocker" false (error_text e)
          | None => plain "bitlocker" true "secret volume is fully encrypted and protection is on"
          end).

(** [Inspect]; [None] only when a walk over the access control lists is not finished. *)
Definition Inspect (request : DoctorInspection) : vprog (option (list DoctorCheck)) :=
  let^ manifest := manifest_check in
  let^ acl := acl_checks acl_roots in
  match acl with
  | None => IRet None
  | Some acl =>
      let^ credentials := credential_checks ordered_secret_ids in
      let^ engine := engine_check request in
      let^ reboot := pendingRebootCheck in
      let^ bitlocker := bitLockerCheck request in
      IRet (Some ([manifest] ++ acl ++ credentials ++ [engine; reboot; jit_check; bitlocker]))
  end.

End Inspect.
