(* ===== verification/InspectorFacts.v ===== *)
(** What the local inspection establishes: the walk over a private tree ends and leaves
    no entry unverified, a private directory is hardened only on a path without reparse
    points, and an accepted manifest names one worker image by its digest. *)

From S2P Require Import Prelude Float64 GoStrings Regexp Model Config GoText Yaml Errors Effects Reconciler FileSystem Store Interaction Watchdog Host Artifacts Secret Cli Doctor Inspector ConfigSamples.
From stdpp Require Import pretty.
From Stdlib Require Import Ascii.
#[local] Open Scope Z_scope.
Open Scope i_scope.

(** ** The walk *)

Lemma walk_fuel_suffices : (0 < walk_fuel)%nat /\ maximumDoctorACLEntries + 1 - Z.of_nat walk_fuel <= 0.
Proof. unfold walk_fuel, maximumDoctorACLEntries. lia. Qed.
#[local] Opaque walk_fuel.

Section Walk.
Context `{Platform, FilePath, Volumes}.

Lemma acl_visit_inv root path entry count tr n e :
  iruns (acl_visit root path entry count) tr (n, e) ->
  n = count + 1 /\
  (e = None ->
   n <= maximumDoctorACLEntries /\ we_Symlink entry = false /\ (we_IsDir entry = true \/ we_Regular entry = true)
   /\ exists r, tr = [ev (VVerify path) r]
        /\ (r = None \/ path <> root /\ exists err, r = Some err /\ is_sentinel OsErrNotExist err = true)).
Proof.
  unfold acl_visit, vask. intros Hr.
  destruct (Z.ltb_spec maximumDoctorACLEntries (count + 1)); [inv_runs; split; [done|discriminate]|].
  destruct (we_Symlink entry); [inv_runs; split; [done|discriminate]|].
  destruct (we_IsDir entry || we_Regular entry) eqn:Hk.
  2: { apply orb_false_iff in Hk as [Hd Hg]. rewrite Hd, Hg in Hr. simpl in Hr. inv_runs. split; [done|discriminate]. }
  replace (negb (we_IsDir entry) && negb (we_Regular entry)) with false in Hr by (by rewrite <- negb_orb, Hk).
  inv_runs. split; [done|]. intros He. split_and!; [lia|done|by apply orb_true_iff|]. exists r. split; [done|].
  destruct r as [err|]; [|by left]. right. destruct (errors_Is "file does not exist" err) eqn:Hn; simpl in He; [|done].
  destruct (String.eqb_spec path root); [done|]. eauto.
Qed.

(** A walk that is given enough fuel ends, and counts every entry once. *)
Definition walk_ends (walk : string -> WalkEntry -> Z -> vprog (option (Z * option error))) (least : Z) : Prop :=
  forall path entry count tr r, least <= count -> iruns (walk path entry count) tr r ->
  exists n e, r = Some (n, e) /\ count < n /\ n <= Z.max count maximumDoctorACLEntries + 1
              /\ (e = None -> n <= maximumDoctorACLEntries).

Lemma walk_children_ends walk least path entries count tr r :
  walk_ends walk least -> least <= count -> count <= maximumDoctorACLEntries -> iruns (walk_children walk path entries count) tr r ->
  exists n e, r = Some (n, e) /\ count <= n <= maximumDoctorACLEntries + 1 /\ (e = None -> n <= maximumDoctorACLEntries).
Proof.
  intros Hw. revert count tr. induction entries as [|d entries IH]; intros count tr Hc Hm Hr; simpl in Hr.
  - inv_runs. exists count, None. split; [done|]. lia.
  - apply iruns_bind_inv in Hr as (t1 & t2 & a & Hwalk & Hrest & ->).
    destruct (Hw _ _ _ _ _ Hc Hwalk) as (n & e & -> & Hn & Hmax & He). destruct e as [e|].
    + inv_runs. exists n, (Some e). split; [done|]. split; [lia|discriminate].
    + specialize (He eq_refl). apply IH in Hrest as (n' & e' & -> & Hn' & He'); [|lia|lia]. exists n', e'. split; [done|]. split; [lia|done].
Qed.

Lemma walkDir_ends fuel root :
  (0 < fuel)%nat -> walk_ends (walkDir fuel root) (maximumDoctorACLEntries + 1 - Z.of_nat fuel).
Proof.
  induction fuel as [|fuel IH]; [lia|]. intros _ path entry count tr r Hc Hr. cbn [walkDir] in Hr.
  apply iruns_bind_inv in Hr as (t1 & t2 & [n e] & Hv & Hr & ->). apply acl_visit_inv in Hv as [-> Hv].
  destruct e as [e|]; [inv_runs; exists (count + 1), (Some e); split; [done|]; unfold maximumDoctorACLEntries; split_and!; lia || discriminate || done|].
  destruct (Hv eq_refl) as (Hle & _). clear Hv.
  destruct (we_IsDir entry); cbn [negb] in Hr.
  2: { inv_runs. exists (count + 1), None. split; [done|]. unfold maximumDoctorACLEntries. split_and!; lia || discriminate || done. }
  unfold vask in Hr. apply iruns_inv in Hr as (l & t3 & -> & Hr). cbn [ibind] in Hr.
  assert (Hchildren : forall t, iruns (walk_children (walkDir fuel root) path (fst l) (count + 1)) t r ->
     exists n e, r = Some (n, e) /\ count < n /\ n <= Z.max count maximumDoctorACLEntries + 1
                 /\ (e = None -> n <= maximumDoctorACLEntries)).
  { intros t Hch. destruct fuel as [|fuel].
    - assert (Hcount : count + 1 <= maximumDoctorACLEntries) by done. unfold maximumDoctorACLEntries in *. lia.
    - apply (walk_children_ends _ _ _ _ _ _ _ (IH ltac:(lia))) in Hch as (n & e & -> & Hn & He); [|lia|lia].
      exists n, e. split_and!; [done|lia|lia|done]. }
  simpl in Hr. destruct (snd l) as [e|]; [|by eapply Hchildren].
  destruct (acl_failure root path e) as [e'|]; [|by eapply Hchildren].
  inv_runs. exists (count + 1), (Some e'). split; [done|]. unfold maximumDoctorACLEntries. split_and!; lia || discriminate || done.
Qed.

Lemma verifyACLTree_ends acl root tr r :
  iruns (verifyACLTree acl root) tr r ->
  exists n e, r = Some (n, e) /\ 0 <= n <= maximumDoctorACLEntries + 1 /\ (e = None -> 1 <= n <= maximumDoctorACLEntries).
Proof.
  unfold verifyACLTree, vask. destruct acl; cbn [negb]; intros Hr.
  2: { inv_runs. exists 0, (Some (ErrNew "ACL verifier is unavailable")). split; [done|]. unfold maximumDoctorACLEntries. split; [lia|discriminate]. }
  apply iruns_inv in Hr as (info & t & -> & Hr). cbn [ibind] in Hr.
  pose proof walk_fuel_suffices as Hfuel.
  destruct info as [entry|e].
  - destruct (walkDir_ends walk_fuel (Clean root) (proj1 Hfuel) _ _ _ _ _ (proj2 Hfuel) Hr) as (n & e & -> & Hn & Hm & He).
    exists n, e. split; [done|]. unfold maximumDoctorACLEntries in *. split; [lia|]. intros ->. specialize (He eq_refl). lia.
  - inv_runs. unfold acl_failure. rewrite String.eqb_refl, andb_false_r. exists 0, (Some e). split; [done|]. unfold maximumDoctorACLEntries. split; [lia|discriminate].
Qed.

(** C40: The walk over a private tree ends whatever the file system answers: the limit on
    its entries bounds its depth, so it never runs out of fuel, and it counts at
    most one entry more than the limit allows. *)
Theorem acl_walk_terminates acl root tr r :
  iruns (verifyACLTree acl root) tr r ->
  exists n e, r = Some (n, e) /\ 0 <= n <= maximumDoctorACLEntries + 1 /\ (e = None -> 1 <= n <= maximumDoctorACLEntries).
Proof. apply verifyACLTree_ends. Qed.

(** ** What the walk verified *)

(** The entry at [path] is a directory or a regular file, its access control list was
    verified or the entry was gone by then, and a directory was listed. *)
Record entry_verified (root : string) (tr : list (event vresp)) (path : string) (entry : WalkEntry) : Prop := {
  ev_nolink : we_Symlink entry = false;
  ev_kind : we_IsDir entry = true \/ we_Regular entry = true;
  ev_acl : exists r, ev (VVerify path) r ∈ tr
             /\ (r = None \/ path <> root /\ exists err, r = Some err /\ is_sentinel OsErrNotExist err = true);
  ev_listed : we_IsDir entry = true -> exists l, ev (VReadDir path) l ∈ tr;
}.

(** Every entry that a listing in [listings] named was verified in [tr]. *)
Definition listings_verified (root : string) (listings tr : list (event vresp)) : Prop :=
  forall path entries err entry,
    (ev (VReadDir path) (entries, err) : event vresp) ∈ listings -> entry ∈ entries ->
    entry_verified root tr (filepath_Join path (we_Name entry)) entry.

Lemma entry_verified_mono root tr tr' path entry : tr ⊆ tr' -> entry_verified root tr path entry -> entry_verified root tr' path entry.
Proof.
  intros Hs [Hl Hk (r & Hr & Hv) Hd]. constructor; [done|done|exists r; auto|]. intros Hdir. destruct (Hd Hdir) as [l Hin]. exists l. auto.
Qed.

Lemma listings_verified_mono root listings tr tr' : tr ⊆ tr' -> listings_verified root listings tr -> listings_verified root listings tr'.
Proof. intros Hs Hl path entries err entry Hin He. eapply entry_verified_mono; [done|]. by eapply Hl. Qed.

Lemma listings_verified_app root l1 l2 tr : listings_verified root l1 tr -> listings_verified root l2 tr -> listings_verified root (l1 ++ l2) tr.
Proof. intros Ha Hb path entries err entry [Hin|Hin]%elem_of_app He; [by eapply Ha|by eapply Hb]. Qed.

(** The listing of an event. *)
Definition listing (e : event vresp) : option (string * (list WalkEntry * option error)) :=
  match e with existT (VReadDir path) l => Some (path, l) | _ => None end.

(** A walk below an entry that reports no error verified the entry and all below it. *)
Definition walk_verifies (root : string) (walk : string -> WalkEntry -> Z -> vprog (option (Z * option error))) : Prop :=
  forall path entry count tr n, iruns (walk path entry count) tr (Some (n, None)) ->
  entry_verified root tr path entry /\ listings_verified root tr tr.

Lemma walk_children_verifies root walk path entries count tr n :
  walk_verifies root walk -> iruns (walk_children walk path entries count) tr (Some (n, None)) ->
  (forall entry, entry ∈ entries -> entry_verified root tr (filepath_Join path (we_Name entry)) entry) /\ listings_verified root tr tr.
Proof.
  intros Hw. revert count tr. induction entries as [|d entries IH]; intros count tr Hr; simpl in Hr.
  - inv_runs. split; [set_solver|]. intros p es err entry Hin. by apply elem_of_nil in Hin.
  - apply iruns_bind_inv in Hr as (t1 & t2 & a & Hd & Hr & ->). destruct a as [[n' [e|]]|]; [by inv_runs| |by inv_runs].
    apply Hw in Hd as [Hd Hl1]. apply IH in Hr as [Hrest Hl2]. split.
    + intros entry [->|Hin]%elem_of_cons; eapply entry_verified_mono; [|done| |by apply Hrest]; set_solver.
    + apply listings_verified_app; eapply listings_verified_mono; [|done| |done]; set_solver.
Qed.

Lemma walkDir_verifies fuel root : walk_verifies root (walkDir fuel root).
Proof.
  induction fuel as [|fuel IH]; intros path entry count tr n Hr; cbn [walkDir] in Hr; [by inv_runs|].
  apply iruns_bind_inv in Hr as (t1 & t2 & [m e] & Hv & Hr & ->). apply acl_visit_inv in Hv as [_ Hv].
  destruct e as [e|]; [by inv_runs|]. destruct (Hv eq_refl) as (_ & Hl & Hk & r & -> & Hacl). clear Hv.
  destruct (we_IsDir entry) eqn:Hdir; cbn [negb] in Hr.
  2: { inv_runs. split.
       - constructor; [done|by rewrite Hdir|exists r; split; [set_solver|done]|by rewrite Hdir].
       - intros p es err en Hin. simpl in Hin. apply list_elem_of_singleton in Hin. inversion Hin. }
  unfold vask in Hr. apply iruns_inv in Hr as (l & t3 & -> & Hr). cbn [ibind] in Hr.
  assert (Hch : iruns (walk_children (walkDir fuel root) path (fst l) m) t3 (Some (n, None))).
  { simpl in Hr. destruct (snd l) as [e|]; [|done]. destruct (acl_failure root path e); [by inv_runs|done]. }
  destruct (walk_children_verifies _ _ _ _ _ _ _ IH Hch) as [Hall Hls]. simpl. split.
  - constructor; [done|by rewrite Hdir; left|exists r; split; [set_solver|done]|]. intros _. exists l. set_solver.
  - intros p es err en [Hin|[Hin|Hin]%elem_of_cons]%elem_of_cons He.
    + inversion Hin.
    + apply (f_equal listing) in Hin. simpl in Hin. injection Hin as -> <-.
      eapply entry_verified_mono; [|by apply Hall]. set_solver.
    + eapply entry_verified_mono; [|by eapply Hls]. set_solver.
Qed.

(** An accepted private tree is verified entry by entry.  When the doctor's walk
    reports no error, the root and every entry that any listing named is a directory
    or a regular file and no link, its access control list was verified, or, below
    the root, the entry was gone by then, and every directory among them was listed. *)
Lemma acl_tree_verified acl root tr n :
  iruns (verifyACLTree acl root) tr (Some (n, None)) ->
  exists entry tr', tr = ev (VLstat (Clean root)) (Ok entry) :: tr'
    /\ entry_verified (Clean root) tr' (Clean root) entry
    /\ ev (VVerify (Clean root)) None ∈ tr'
    /\ listings_verified (Clean root) tr' tr'.
Proof.
  unfold verifyACLTree, vask. destruct acl; cbn [negb]; intros Hr; [|by inv_runs].
  apply iruns_inv in Hr as (info & t & -> & Hr). cbn [ibind] in Hr. destruct info as [entry|e].
  - apply walkDir_verifies in Hr as [He Hl]. exists entry, t. split_and!; [done|done| |done].
    destruct He as [_ _ (r & Hin & [->|(Hne & _)]) _]; done.
  - unfold acl_failure in Hr. rewrite String.eqb_refl, andb_false_r in Hr. by inv_runs.
Qed.

End Walk.

(** ** Private directories *)

Section Private.
Context `{Platform, FilePath, Volumes}.

(** The paths from [current] down the components. *)
Fixpoint paths_below (current : string) (components : list string) : list string :=
  match components with
  | [] => []
  | c :: components => let p := filepath_Join current c in p :: paths_below p components
  end.

Definition volume_root (clean : string) : string :=
  if String.eqb (VolumeName clean) "" then String Separator "" else VolumeName clean +:+ String Separator "".

(** The path did not exist, or it was inspected and is not a reparse point. *)
Definition component_clean (tr : list (event vresp)) (path : string) : Prop :=
  (exists e, ev (VLstat path) (Err e) ∈ tr /\ is_sentinel OsErrNotExist e = true)
  \/ ((exists info, ev (VLstat path) (Ok info) ∈ tr) /\ ev (VReparse path) (Ok false) ∈ tr).

(** An absolute path all of whose components are clean. *)
Definition path_clean (tr : list (event vresp)) (path : string) : Prop :=
  IsAbs (Clean path) = true /\ Forall (component_clean tr) (paths_below (volume_root (Clean path)) (path_components (Clean path))).

Lemma component_clean_mono tr tr' path : tr ⊆ tr' -> component_clean tr path -> component_clean tr' path.
Proof. intros Hs [(e & Hin & He)|((i & Hi) & Hr)]; [left; eauto|right; eauto]. Qed.

Lemma reparse_walk_clean components current tr :
  iruns (reparse_walk current components) tr None -> Forall (component_clean tr) (paths_below current components).
Proof.
  revert current tr. induction components as [|c components IH]; intros current tr Hr; [constructor|].
  cbn [reparse_walk] in Hr. unfold vask in Hr. apply iruns_inv in Hr as (info & t & -> & Hr). cbn [ibind] in Hr.
  cbn [paths_below]. destruct info as [info|e].
  - apply iruns_inv in Hr as (reparse & t' & -> & Hr). cbn [ibind] in Hr. destruct reparse as [[]|e]; [by inv_runs| |by inv_runs].
    apply IH in Hr. constructor.
    + right. split; [exists info|]; set_solver.
    + eapply Forall_impl; [done|]. intros p. apply component_clean_mono. set_solver.
  - destruct (is_sentinel OsErrNotExist e) eqn:He; [|by inv_runs]. apply IH in Hr. constructor.
    + left. exists e. split; [set_solver|done].
    + eapply Forall_impl; [done|]. intros p. apply component_clean_mono. set_solver.
Qed.

Lemma ensureNoReparsePoints_clean path tr : iruns (ensureNoReparsePoints path) tr None -> path_clean tr path.
Proof.
  unfold ensureNoReparsePoints. destruct (IsAbs (Clean path)) eqn:Ha; cbn [negb]; intros Hr; [|by inv_runs].
  split; [done|]. by apply reparse_walk_clean.
Qed.

Definition is_harden (e : event vresp) : bool := match projT1 e with VHarden _ => true | _ => false end.

Lemma reparse_walk_avoids current components : avoids is_harden (reparse_walk current components).
Proof.
  revert current. induction components as [|c components IH]; intros current; cbn [reparse_walk]; [apply avoids_ret|].
  unfold vask. solve_avoids; apply IH.
Qed.

Lemma ensureNoReparsePoints_avoids path : avoids is_harden (ensureNoReparsePoints path).
Proof. unfold ensureNoReparsePoints. destruct (negb _); [apply avoids_ret|apply reparse_walk_avoids]. Qed.

(** A private directory is hardened only on a clean path.  Whatever the file system
    answers, the access control list of the directory is replaced at most once, after
    every component of its absolute path was found free of reparse points, before the
    directory was created and again after; and the directory counts as prepared only
    when the new list was then verified. *)
Theorem hardened_on_clean_path directory tr r :
  iruns (preparePrivateRuntimeDirectory directory) tr r ->
  (forall before after d (h : option error), tr = before ++ (ev (VHarden d) h : event vresp) :: after ->
     d = directory /\ Forall (fun e => is_harden e = false) after
     /\ exists t1 t2, before = t1 ++ ev (VMkdirAll directory) None :: t2 /\ path_clean t1 directory /\ path_clean t2 directory)
  /\ (r = None -> exists before, tr = before ++ [ev (VHarden directory) None; ev (VVerify directory) None]).
Proof.
  intros Hr. unfold preparePrivateRuntimeDirectory in Hr.
  apply iruns_bind_inv in Hr as (t1 & u1 & c1 & H1' & Hr & ->).
  pose proof (ensureNoReparsePoints_avoids _ _ _ H1') as Ha1.
  assert (Hnone : forall u, Forall (fun e => is_harden e = false) u ->
    forall before after d (h : option error), u = before ++ (ev (VHarden d) h : event vresp) :: after -> False).
  { intros u Hu before after d h ->. apply Forall_app in Hu as [_ Hu]. by apply Forall_cons in Hu as [[=] _]. }
  destruct c1 as [e|]; [inv_runs; rewrite app_nil_r; split; [|done]; intros b a d h Heq; exfalso; by eapply Hnone|].
  apply ensureNoReparsePoints_clean in H1'. unfold vask in Hr.
  apply iruns_inv in Hr as (made & u2 & -> & Hr). cbn [ibind] in Hr.
  destruct made as [e|].
  { inv_runs. split; [|done]. intros b a d h Heq. exfalso. eapply Hnone; [|done]. apply Forall_app. split; [done|by repeat constructor]. }
  apply iruns_bind_inv in Hr as (t2 & u3 & c2 & H2' & Hr & ->).
  pose proof (ensureNoReparsePoints_avoids _ _ _ H2') as Ha2.
  assert (Ha : Forall (fun e => is_harden e = false) (t1 ++ ev (VMkdirAll directory) None :: t2)).
  { apply Forall_app. split; [done|]. by constructor. }
  destruct c2 as [e|].
  { inv_runs. split; [|done]. rewrite app_nil_r. intros b a d h Heq. exfalso. by eapply Hnone. }
  apply ensureNoReparsePoints_clean in H2'. apply iruns_inv in Hr as (hardened & u4 & -> & Hr). cbn [ibind] in Hr.
  assert (Hu4 : Forall (fun e => is_harden e = false) u4 /\ (r = None -> hardened = None /\ u4 = [ev (VVerify directory) None])).
  { destruct hardened as [e|]; [by inv_runs|]. apply iruns_inv in Hr as (verified & u5 & -> & Hr). cbn [ibind] in Hr.
    destruct verified as [e|]; inv_runs; split; done || by repeat constructor. }
  destruct Hu4 as [Hu4 Hlast]. split.
  - intros b a d h Heq. change (t1 ++ ev (VMkdirAll directory) None :: t2 ++ ev (VHarden directory) hardened :: u4)
      with (t1 ++ (ev (VMkdirAll directory) None :: t2) ++ ev (VHarden directory) hardened :: u4) in Heq. rewrite app_assoc in Heq.
    destruct (split_unique is_harden _ _ _ _ _ (ev (VHarden d) h) Ha Hu4 eq_refl Heq) as (-> & Hd & ->). split; [by inversion Hd|]. split; [done|]. eauto.
  - intros ->. destruct (Hlast eq_refl) as [-> ->]. exists (t1 ++ ev (VMkdirAll directory) None :: t2). by rewrite <- app_assoc.
Qed.

(** A prepared directory was verified. *)
Lemma prepared_verified directory tr : iruns (preparePrivateRuntimeDirectory directory) tr None -> ev (VVerify directory) None ∈ tr.
Proof.
  intros Hr. unfold preparePrivateRuntimeDirectory in Hr.
  apply iruns_bind_inv in Hr as (t1 & u1 & [e|] & _ & Hr & ->); [by inv_runs|]. unfold vask in Hr.
  apply iruns_inv in Hr as ([e|] & u2 & -> & Hr); cbn [ibind] in Hr; [by inv_runs|].
  apply iruns_bind_inv in Hr as (t2 & u3 & [e|] & _ & Hr & ->); [by inv_runs|].
  apply iruns_inv in Hr as ([e|] & u4 & -> & Hr); cbn [ibind] in Hr; [by inv_runs|].
  apply iruns_inv in Hr as ([e|] & u5 & -> & Hr); cbn [ibind] in Hr; [by inv_runs|]. set_solver.
Qed.

End Private.

(** ** The manifest *)

Lemma lang_literal t s : lang (literal t) s -> s = t.
Proof.
  revert s. induction t as [|a t IH]; intros s Hl; simpl in Hl; [by inversion Hl|].
  apply lang_concat_iff in Hl as (u & w & -> & Hu & Hw). inversion Hu as [|p b Hb| | | | |]; subst. apply Ascii.eqb_eq in Hb as <-.
  apply IH in Hw as ->. done.
Qed.

Lemma lang_exactly n p s : lang (exactly n (CharClass p)) s -> String.length s = n /\ string_forall p s = true.
Proof.
  revert s. unfold exactly. induction n as [|n IH]; intros s Hl; simpl in Hl; [by inversion Hl|].
  apply lang_concat_iff in Hl as (u & w & -> & Hu & Hw). inversion Hu as [|q b Hb| | | | |]; subst. apply IH in Hw as [Hlen Hall].
  change (String b "" +:+ w) with (String b w). simpl. by rewrite Hlen, Hb.
Qed.

(** Two texts split at the first separator in one way. *)
Lemma first_separator sep u u' w w' :
  without sep u = true -> without sep u' = true -> u +:+ String sep w = u' +:+ String sep w' -> u = u' /\ w = w'.
Proof.
  revert u'. induction u as [|a u IH]; intros [|b u'] Hu Hu' Heq; simpl in *.
  - by injection Heq as ->.
  - injection Heq as -> _. apply andb_true_iff in Hu' as [Hu' _]. by rewrite Ascii.eqb_refl in Hu'.
  - injection Heq as <- _. apply andb_true_iff in Hu as [Hu _]. by rewrite Ascii.eqb_refl in Hu.
  - injection Heq as -> Heq. apply andb_true_iff in Hu as [_ Hu], Hu' as [_ Hu']. destruct (IH u' Hu Hu' Heq) as [-> ->]. done.
Qed.

Definition lowercase_hex (s : string) : Prop :=
  string_forall (fun a => existsb (Ascii.eqb a) ["0"; "1"; "2"; "3"; "4"; "5"; "6"; "7"; "8"; "9"; "a"; "b"; "c"; "d"; "e"; "f"]%char) s = true.

Lemma hex_class_lowercase s : string_forall hex_class s = true -> lowercase_hex s.
Proof.
  apply string_forall_impl. intros a. destruct a as [[] [] [] [] [] [] [] []]; vm_compute; done.
Qed.

Lemma digest_text s : MatchString digestPattern s = true -> exists hex, s = "sha256:" +:+ hex /\ String.length hex = 64%nat /\ lowercase_hex hex.
Proof.
  intros (u & w & -> & Hu%lang_literal & [Hlen Hall]%lang_exactly)%MatchString_lang%lang_concat_iff. subst u.
  exists w. split_and!; [done|done|by apply hex_class_lowercase].
Qed.

Lemma image_text s :
  MatchString workerImagePattern s = true -> (exists rest, s = "ghcr.io/" +:+ rest) /\ without "@" s = true /\ without ":" s = true.
Proof.
  intros Hl%MatchString_lang. split.
  - apply lang_concat_iff in Hl as (u & w & -> & Hu%lang_literal & _). subst u. by exists w.
  - split; (eapply over_lang; [|done]); simpl; split_and!; try done;
      intros a; destruct a as [[] [] [] [] [] [] [] []]; vm_compute; done.
Qed.

Section Accepted.
Context `{ManifestText}.

Lemma manifest_rules_hold m v : Manifest_Validate m v = None -> Forall (fun rule => fst rule = true) (manifest_rules m v).
Proof.
  unfold Manifest_Validate. generalize (manifest_rules m v) as rules. intros rules. induction rules as [|[[] text] rules IH]; simpl.
  - constructor.
  - intros Hv. constructor; [done|]. by apply IH.
  - done.
Qed.

(** An accepted manifest pins the release.  Its worker image is an untagged repository
    of ghcr.io, its digest is 64 lowercase hexadecimal digits, the worker reference
    can be read in one way only, the evidence about the worker names that very
    reference, and the controller's version, archive and release are those of the
    executable that accepted it. *)
Theorem manifest_pins_release m v :
  Manifest_Validate m v = None ->
  let image := cw_Image (cm_Worker m) in
  let digest := cw_Digest (cm_Worker m) in
  (exists repository, image = "ghcr.io/" +:+ repository) /\ without ":" image = true
  /\ (exists hex, digest = "sha256:" +:+ hex /\ String.length hex = 64%nat /\ lowercase_hex hex)
  /\ (forall image' digest', without "@" image' = true -> WorkerReference m = image' +:+ "@" +:+ digest' -> image' = image /\ digest' = digest)
  /\ ce_WorkerSBOM (cm_Evidence m) = "oci://" +:+ image +:+ "@" +:+ digest +:+ "#sbom"
  /\ ce_WorkerProvenance (cm_Evidence m) = "oci://" +:+ image +:+ "@" +:+ digest +:+ "#provenance"
  /\ cct_Version (cm_Controller m) = v /\ cm_ReleaseVersion m = "v" +:+ v
  /\ cct_WindowsArchive (cm_Controller m) = "ci-runner-v" +:+ v +:+ "-windows-amd64.zip".
Proof.
  intros Hv. pose proof (manifest_rules_hold m v Hv) as Hr. clear Hv. unfold manifest_rules in Hr.
  repeat match goal with H : Forall _ (_ :: _) |- _ => apply Forall_cons in H; destruct H as [? H] end. cbn [fst] in *.
  repeat match goal with H : String.eqb _ _ = true |- _ => apply String.eqb_eq in H end.
  match goal with H : MatchString workerImagePattern _ = true |- _ => apply image_text in H; destruct H as (Hrepo & Hat & Hcolon) end.
  match goal with H : MatchString digestPattern (cw_Digest _) = true |- _ => apply digest_text in H end.
  assert (Hassoc : forall tail, WorkerReference m +:+ tail = cw_Image (cm_Worker m) +:+ "@" +:+ cw_Digest (cm_Worker m) +:+ tail).
  { intros tail. unfold WorkerReference. by rewrite <- !string_app_assoc. }
  split_and!; try done; [|by rewrite <- Hassoc..].
  intros image' digest' Hi Heq. unfold WorkerReference in Heq. destruct (first_separator "@" _ _ _ _ Hat Hi Heq) as [-> ->]. done.
Qed.

End Accepted.

(** ** The whole inspection *)

Section Inspection.
Context `{ManifestText, Platform, FilePath, Volumes} (i : LocalDoctorInspector).

Abbreviation sound checks := (existsb degrades checks = false).

(** The configured manifest was read whole, is not too long, decodes and is accepted for
    this release. *)
Definition manifest_accepted (tr : list (event vresp)) : Prop :=
  exists contents m, ev (OpenManifest (c_CompatibilityManifest (li_Config i))) None ∈ tr
    /\ ev (ReadManifest (compatibilityMaximumSize + 1)) (contents, None) ∈ tr
    /\ Z.of_nat (String.length contents) <= compatibilityMaximumSize
    /\ decode_manifest contents = Ok m /\ Manifest_Validate m (li_Version i) = None.

Lemma manifest_check_sound tr check :
  iruns (manifest_check i) tr check -> degrades check = false ->
  manifest_accepted tr /\ li_Version i <> "" /\ li_Version i <> "dev".
Proof.
  unfold manifest_check. intros (t1 & t2 & loaded & Hl & Hr & ->)%iruns_bind_inv Hs. apply iruns_inv in Hr as [-> ->].
  destruct loaded as [m|e]; [|done]. unfold LoadCompatibilityManifest, vask in Hl.
  destruct (String.eqb_spec (li_Version i) ""), (String.eqb_spec (li_Version i) "dev"); cbn [orb] in Hl; try by inv_runs.
  split; [|done]. apply iruns_inv in Hl as (opened & t & -> & Hl). cbn [ibind] in Hl. destruct opened as [e|]; [by inv_runs|].
  apply iruns_inv in Hl as ([contents failed] & t' & -> & Hl). cbn [ibind] in Hl. apply iruns_inv in Hl as (closed & t'' & -> & Hl). cbn [ibind] in Hl.
  destruct failed as [e|]; [destruct closed; cbn in Hl; by inv_runs|]. destruct closed as [e|]; cbn in Hl; [by inv_runs|].
  apply iruns_inv in Hl as [-> Hl]. symmetry in Hl. unfold decode_contents in Hl.
  destruct (Z.ltb_spec compatibilityMaximumSize (Z.of_nat (String.length contents))); [done|]. destruct (decode_manifest contents) as [m'|] eqn:Hd; [|done].
  destruct (manifest_trailer _); [|done..]. destruct (Manifest_Validate m' _) eqn:Hv; [done|]. exists contents, m'. split_and!; [set_solver|set_solver|lia|done|done].
Qed.

(** The tree at [path] was verified, as [acl_tree_verified] says, in a part of the run. *)
Definition tree_verified (tr : list (event vresp)) (path : string) : Prop :=
  exists entry t, t ⊆ tr /\ ev (VLstat (Clean path)) (Ok entry) ∈ tr /\ ev (VVerify (Clean path)) None ∈ t
    /\ entry_verified (Clean path) t (Clean path) entry /\ listings_verified (Clean path) t t.

Lemma tree_verified_mono tr tr' path : tr ⊆ tr' -> tree_verified tr path -> tree_verified tr' path.
Proof. intros Hs (entry & t & Ht & Hl & Hv). exists entry, t. split_and!; [set_solver|set_solver|..]; tauto. Qed.

Lemma acl_checks_ends roots tr r : iruns (acl_checks i roots) tr r -> exists checks, r = Some checks.
Proof.
  revert tr r. induction roots as [|[name path] roots IH]; intros tr r Hr; cbn [acl_checks] in Hr; [inv_runs; eauto|].
  apply iruns_bind_inv in Hr as (t1 & t2 & walked & Hw & Hr & ->). apply verifyACLTree_ends in Hw as (n & e & -> & _).
  apply iruns_bind_inv in Hr as (t3 & t4 & checks & Hc & Hr & ->). apply IH in Hc as [cs ->]. inv_runs. eauto.
Qed.

Lemma acl_checks_sound roots tr checks :
  iruns (acl_checks i roots) tr (Some checks) -> sound checks -> Forall (tree_verified tr) (map snd roots).
Proof.
  revert tr checks. induction roots as [|[name path] roots IH]; intros tr checks Hr Hs; cbn [acl_checks] in Hr; [constructor|].
  apply iruns_bind_inv in Hr as (t1 & t2 & walked & Hw & Hr & ->). destruct walked as [[n e]|]; [|by inv_runs].
  apply iruns_bind_inv in Hr as (t3 & t4 & rest & Hc & Hr & ->). apply iruns_inv in Hr as [-> Hr].
  destruct rest as [rest|]; [|done]. injection Hr as ->. simpl in Hs. apply orb_false_iff in Hs as [Hd Hs].
  destruct e as [e|]; [done|]. cbn [map snd]. constructor.
  - apply acl_tree_verified in Hw as (entry & t & -> & He & Hv & Hl). exists entry, t. split_and!; set_solver || done.
  - eapply Forall_impl; [by eapply IH|]. intros p. apply tree_verified_mono. set_solver.
Qed.

(** The stored credential is private, can be opened and was imported in the past. *)
Definition credential_verified (tr : list (event vresp)) (id : string) : Prop :=
  ev (VVerify (filepath_Join (pa_Secrets (c_Paths (li_Config i))) (id +:+ ".dpapi"))) None ∈ tr
  /\ exists metadata now, ev (InspectSecret id (probe_budget i)) (Ok metadata) ∈ tr /\ ev VNow now ∈ tr
       /\ sr_ImportedAt metadata <> 0 /\ sr_ImportedAt metadata <= now.

Lemma credential_check_sound id tr1 tr2 acl credential :
  iruns (credential_acl_check i id) tr1 acl -> iruns (credential_check i id) tr2 credential ->
  degrades acl = false -> degrades credential = false -> credential_verified (tr1 ++ tr2) id.
Proof.
  unfold credential_acl_check, credential_check, vask. intros H1' H2' Ha Hc.
  destruct (li_ACL i); cbn [negb] in H1'; [|by inv_runs]. destruct (li_Secrets i); cbn [negb] in H2'; [|by inv_runs].
  apply iruns_inv in H1' as (verified & t & -> & H1'). cbn [ibind] in H1'. apply iruns_inv in H1' as [-> ->].
  apply iruns_inv in H2' as (inspected & t & -> & H2'). cbn [ibind] in H2'. destruct verified; [done|].
  destruct inspected as [metadata|e]; [|by inv_runs].
  apply iruns_inv in H2' as (now & t' & -> & H2'). cbn [ibind] in H2'. apply iruns_inv in H2' as [-> ->].
  unfold degrades in Hc. simpl in Hc. rewrite negb_false_iff, andb_true_iff, negb_true_iff, Z.leb_le in Hc.
  unfold IsZero in Hc. rewrite Z.eqb_neq in Hc. destruct Hc as [Hz Hage].
  split; [set_solver|]. exists metadata, now. split_and!; [set_solver|set_solver|done|].
  unfold Sub, min_i64, max_i64 in Hage. lia.
Qed.

Lemma credential_checks_sound ids tr checks :
  iruns (credential_checks i ids) tr checks -> sound checks -> Forall (credential_verified tr) ids.
Proof.
  revert tr checks. induction ids as [|id ids IH]; intros tr checks Hr Hs; cbn [credential_checks] in Hr; [constructor|].
  apply iruns_bind_inv in Hr as (t1 & t2 & acl & Hacl & Hr & ->). apply iruns_bind_inv in Hr as (t3 & t4 & cred & Hcred & Hr & ->).
  apply iruns_bind_inv in Hr as (t5 & t6 & rest & Hrest & Hr & ->). apply iruns_inv in Hr as [-> ->].
  simpl in Hs. rewrite !orb_false_iff in Hs. destruct Hs as (Ha & Hc & Hs).
  assert (Hmono : forall tr' id', tr' ⊆ t1 ++ t3 ++ t5 ++ [] -> credential_verified tr' id' -> credential_verified (t1 ++ t3 ++ t5 ++ []) id').
  { intros tr' id' Hsub [Hv (md & now & Hin & Hnow & Hrange)]. split; [by apply Hsub|]. exists md, now. auto. }
  constructor.
  - eapply (Hmono (t1 ++ t3)); [set_solver|]. by eapply credential_check_sound.
  - eapply Forall_impl; [by eapply IH|]. intros p. apply Hmono. set_solver.
Qed.

Lemma engine_check_sound request tr check :
  iruns (engine_check i request) tr check -> degrades check = false -> di_RequireDocker request = true ->
  exists architecture, ev (EngineProbe (probe_budget i)) ("linux", architecture, None) ∈ tr /\ architecture ∈ ["amd64"; "x86_64"].
Proof.
  unfold engine_check, vask. intros Hr Hs Hreq. rewrite Hreq, andb_false_r in Hr. destruct (li_Engine i); cbn [negb] in Hr; [|by inv_runs].
  apply iruns_inv in Hr as ([[os arch] err] & t & -> & Hr). cbn [ibind] in Hr. apply iruns_inv in Hr as [-> ->].
  destruct err as [e|]; [done|]. unfold degrades in Hs. simpl in Hs. rewrite negb_false_iff, andb_true_iff, orb_true_iff in Hs.
  destruct Hs as [Ho%String.eqb_eq Ha]. subst os. exists arch. split; [set_solver|].
  destruct Ha as [Ha%String.eqb_eq|Ha%String.eqb_eq]; subst; set_solver.
Qed.

Lemma bitLockerCheck_sound request tr check :
  iruns (bitLockerCheck i request) tr check -> degrades check = false -> di_IncludeElevated request = true ->
  ev (VerifyProtected (pa_Secrets (c_Paths (li_Config i))) (elevated_budget i)) None ∈ tr.
Proof.
  unfold bitLockerCheck, vask. intros Hr Hs Hel. rewrite Hel in Hr. cbn [negb] in Hr. destruct (li_BitLocker i); cbn [negb] in Hr; [|by inv_runs].
  apply iruns_inv in Hr as (verified & t & -> & Hr). cbn [ibind] in Hr. apply iruns_inv in Hr as [-> ->].
  destruct verified; [done|]. set_solver.
Qed.

Lemma ordered_secret_ids_complete target : target ∈ c_Targets (li_Config i) -> t_SecretID target ∈ ordered_secret_ids i.
Proof.
  intros Ht. unfold ordered_secret_ids. rewrite sort_by_perm, elem_of_elements, elem_of_list_to_set. by apply list_elem_of_fmap_2.
Qed.


End Inspection.

(** ** A host that passes *)

#[local] Instance inspector_platform : Platform := {| write_through := false; Separator := "/"%char |}.
#[local] Instance inspector_paths : FilePath := {| IsAbs := fun p => HasPrefix p "/"; Clean := fun p => p |}.
#[local] Instance inspector_volumes : Volumes := {| VolumeName := fun _ => ""; sameWord := String.eqb |}.

Definition hex64 : string := "0123456789abcdef0123456789abcdef0123456789abcdef0123456789abcdef".
Definition sample_digest : string := "sha256:" +:+ hex64.
Definition sample_reference : string := "ghcr.io/acme/worker@" +:+ sample_digest.
Definition sample_manifest : CompatibilityManifest := {|
  cm_SchemaVersion := 1; cm_CreatedAt := 9; cm_ReleaseVersion := "v1.2.3";
  cm_Source := mkCompatibilitySource "melodic-software/ci-runner" OfficialClientCommit;
  cm_Controller := mkCompatibilityController "1.2.3" "ci-runner-v1.2.3-windows-amd64.zip" sample_digest;
  cm_Worker := mkCompatibilityWorker "ghcr.io/acme/worker" sample_digest;
  cm_Dependencies := mkCompatibilityDependencies "2.320.0" "0.4.0" OfficialClientCommit "go1.25.0" "7.4.6" "2.60.0-rc.1" hex64
    "0.17.0" hex64 "0.16.0" sample_digest sample_digest "1.0.0" sample_digest sample_digest;
  cm_Evidence := mkCompatibilityEvidence "SHA256SUMS" "ci-runner-v1.2.3-windows-amd64.spdx.json"
    "https://github.com/melodic-software/ci-runner/attestations"
    ("oci://" +:+ sample_reference +:+ "#sbom") ("oci://" +:+ sample_reference +:+ "#provenance") |}.

#[local] Instance sample_manifest_text : ManifestText := {|
  decode_manifest _ := Ok sample_manifest; manifest_trailer _ := TrailerEOF; runtime_Version := "go1.25.0" |}.

Definition directory_entry (name : string) : WalkEntry := mkWalkEntry name true false false "d".
Definition file_entry (name : string) : WalkEntry := mkWalkEntry name false false true "-".

(** Every private tree holds one directory with one file. *)
Definition private_answers (c : vcall) (_ : list (event vresp)) : vresp c :=
  match c with
  | OpenManifest _ | CloseManifest | VMkdirAll _ | VHarden _ | VVerify _ | VerifyProtected _ _ => None
  | ReadManifest _ => ("{}", None)
  | VLstat path => Ok (directory_entry path)
  | VReparse _ => Ok false
  | VReadDir path => (if HasSuffix path "jobs" then [file_entry "app.dpapi"] else [directory_entry "jobs"], None)
  | InspectSecret _ _ => Ok (mkSecretResult "" "fp" 5)
  | VNow => 10
  | EngineProbe _ => ("linux", "amd64", None)
  | ProbePendingReboot => (mkPendingReboot false false false, None)
  end.

Lemma private_runs {A} (p : vprog A) : iruns p (fst (irun private_answers p [])) (snd (irun private_answers p [])).
Proof. apply (irun_iruns private_answers p []). apply surjective_pairing. Qed.

Lemma manifest_pins_release_witness :
  Manifest_Validate sample_manifest "1.2.3" = None /\ without ":" (cw_Image (cm_Worker sample_manifest)) = true.
Proof.
  assert (Hv : Manifest_Validate sample_manifest "1.2.3" = None) by (vm_compute; reflexivity). split; [exact Hv|].
  exact (proj1 (proj2 (manifest_pins_release sample_manifest "1.2.3" Hv))).
Defined.

Lemma acl_walk_terminates_witness :
  exists n, snd (irun private_answers (verifyACLTree true "C:\state") []) = Some (n, None) /\ 1 <= n <= maximumDoctorACLEntries.
Proof.
  destruct (acl_walk_terminates true "C:\state" _ _ (private_runs _)) as (n & e & Heq & _ & He).
  exists n. assert (Hn : snd (irun private_answers (verifyACLTree true "C:\state") []) = Some (3, None)) by (vm_compute; reflexivity).
  rewrite Hn in Heq |- *. injection Heq as <- <-. split; [reflexivity|]. apply He. reflexivity.
Defined.

Lemma hardened_on_clean_path_witness :
  exists before, fst (irun private_answers (preparePrivateRuntimeDirectory "/srv/state") [])
                 = before ++ [ev (VHarden "/srv/state") None; ev (VVerify "/srv/state") None].
Proof.
  apply (proj2 (hardened_on_clean_path "/srv/state" _ _ (private_runs (preparePrivateRuntimeDirectory "/srv/state")))).
  vm_compute. reflexivity.
Defined.

Definition sample_inspector : LocalDoctorInspector := mkInspector full_config true true true true true "1.2.3".
Definition full_request : DoctorInspection := mkDoctorInspection true true true.

