(* ===== verification/Telemetry.v ===== *)
(** The controller's telemetry (internal/telemetry): the recorder turns aggregate fleet
    state into measurements and span events (telemetry.go), and the provider builds the
    exporters that are enabled (export.go).

    An operation of the recorder is the list of what it records, in order; the
    readings of the clock are arguments.  The construction of exporters and
    instruments is a program whose calls the OpenTelemetry library answers, and the
    process environment is a function from names to values. *)

From S2P Require Import Prelude Float64 GoStrings Regexp Model GoText PlanGates Plan Errors Reconciler Step Interaction Evidence Docker Cli ExportNotices.
From stdpp Require Import gmap.
From Stdlib Require Import SpecFloat Ascii.
#[local] Open Scope Z_scope.
Open Scope i_scope.

(** ** What the callers pass *)

Record CapacityCheckpointPool := mkCheckpointPool {
  cp_ID : string;
  cp_CapacityAcknowledged : bool;
  cp_AcknowledgementPendingAge : duration;
  cp_AcknowledgementPendingAgeValid : bool;
}.

Record ReconcilePool := mkReconcilePool {
  rp_ID : string;
  rp_Advertised : Z;
  rp_Assigned : Z;
  rp_Desired : Z;
  rp_AffordableWorkers : Z;
  rp_CapacityAcknowledged : bool;
  rp_AcknowledgementPendingAge : duration;
  rp_AcknowledgementPendingAgeValid : bool;
}.

Record ReconcileWorker := mkReconcileWorker { rw_PoolID : string; rw_State : string }.

Record ReconcileSnapshot := mkReconcileSnapshot {
  sn_Valid : bool;
  sn_Phase : string;
  sn_Pools : list ReconcilePool;
  sn_Workers : list ReconcileWorker;
  sn_CPUPercent : float64;
  sn_AvailableMemoryBytes : Z;
  sn_MemoryHeadroomBytes : Z;
  sn_ResourceGateBlocked : bool;
  sn_PowerGateBlocked : bool;
  sn_CheckpointAge : duration;
  sn_CheckpointAgeValid : bool;
}.

(** The snapshot the reconciler makes of a step's result. *)
Definition snapshot_pool (observed : ObservedState) (plan : option Plan) (pool : PoolObservation) : ReconcilePool := {|
  rp_ID := po_ID pool; rp_Advertised := po_MaxCapacity pool; rp_Assigned := po_TotalAssignedJobs pool; rp_Desired := po_DesiredWorkers pool;
  rp_AffordableWorkers := match plan with Some p => mget (p_MemoryAffordable p) (po_ID pool) | None => 0 end;
  rp_CapacityAcknowledged := po_CapacityAcknowledged pool;
  rp_AcknowledgementPendingAge := Sub (os_HeartbeatAt observed) (po_UpdatedAt pool);
  rp_AcknowledgementPendingAgeValid := negb (IsZero (po_UpdatedAt pool)) && negb (Before (os_HeartbeatAt observed) (po_UpdatedAt pool)) |}.

Definition telemetrySnapshot (result : ReconcileResult) : ReconcileSnapshot :=
  let observed := rr_Observed result in
  {| sn_Valid := 0 <? os_SchemaVersion observed; sn_Phase := Phase_string (os_Phase observed);
     sn_CPUPercent := rs_CPUUtilizationPercent (os_Resources observed);
     sn_AvailableMemoryBytes := rs_AvailableMemoryBytes (os_Resources observed);
     sn_MemoryHeadroomBytes := match rr_Plan result with Some p => p_MemoryHeadroom p | None => 0 end;
     sn_ResourceGateBlocked := rg_Blocked (os_ResourceGate observed);
     sn_PowerGateBlocked := match rr_Plan result with Some p => bool_decide (p_Phase p = PhasePowerSuspended) | None => false end;
     sn_CheckpointAge := rr_CheckpointAge result; sn_CheckpointAgeValid := rr_CheckpointAgeValid result;
     sn_Pools := map (snapshot_pool observed (rr_Plan result)) (os_Pools observed);
     sn_Workers := map (fun w => mkReconcileWorker (w_PoolID w) (WorkerState_string (w_State w))) (os_Workers observed) |}.

(** ** Instruments *)

Inductive Instrument :=
  | reconcileDuration | reconcileErrors | checkpointAge | advertised | capacityAcknowledged | acknowledgementPendingAge
  | assigned | desired | workers | activeJobs | inventoryWorkers | assignmentGap | transientLag | cpuPercent | availableMemory
  | memoryHeadroom | memoryAffordable | resourceGate | powerGate | workerStarts | workerStartTime | workerRegisters
  | workerRegisterTime | workerFinalizes | workerFinalizeTime | jobsStarted | jobStartLag | lifecycleEventTime | jobsCompleted
  | cancellations | resourceEvidence | memoryPeak | memorySwapPeak | oomEvents | oomKillEvents | cpuPeriods | cpuThrottled
  | cpuThrottledTime | pidsPeak | ioRead | ioWrite.

#[export] Instance Instrument_eq_dec : EqDecision Instrument.
Proof. solve_decision. Defined.

Inductive InstrumentKind := Float64Histogram | Float64Gauge | Int64Counter | Int64Gauge | Int64Histogram.

(** The instruments in the order they are created, with their names and units. *)
Definition instrument_table : list (Instrument * (InstrumentKind * string * string)) :=
  [ (reconcileDuration, (Float64Histogram, "ci_runner.controller.reconcile.duration", "s"));
    (reconcileErrors, (Int64Counter, "ci_runner.controller.reconcile.errors", "{error}"));
    (checkpointAge, (Float64Gauge, "ci_runner.controller.observed.checkpoint.age", "s"));
    (advertised, (Int64Gauge, "ci_runner.capacity.advertised", "{worker}"));
    (capacityAcknowledged, (Int64Gauge, "ci_runner.capacity.acknowledged", "1"));
    (acknowledgementPendingAge, (Float64Gauge, "ci_runner.capacity.acknowledgement.pending.age", "s"));
    (assigned, (Int64Gauge, "ci_runner.capacity.assigned", "{job}"));
    (desired, (Int64Gauge, "ci_runner.capacity.desired", "{worker}"));
    (workers, (Int64Gauge, "ci_runner.workers", "{worker}"));
    (activeJobs, (Int64Gauge, "ci_runner.jobs.active", "{job}"));
    (inventoryWorkers, (Int64Gauge, "ci_runner.docker.inventory.workers", "{worker}"));
    (assignmentGap, (Int64Gauge, "ci_runner.accounting.assignment.gap", "{job}"));
    (transientLag, (Int64Gauge, "ci_runner.accounting.transient_lag", "1"));
    (cpuPercent, (Float64Gauge, "ci_runner.host.cpu.utilization", "%"));
    (availableMemory, (Int64Gauge, "ci_runner.host.memory.available", "By"));
    (memoryHeadroom, (Int64Gauge, "ci_runner.capacity.memory.headroom", "By"));
    (memoryAffordable, (Int64Gauge, "ci_runner.capacity.memory.affordable", "{worker}"));
    (resourceGate, (Int64Gauge, "ci_runner.gate.resource.blocked", "1"));
    (powerGate, (Int64Gauge, "ci_runner.gate.power.blocked", "1"));
    (workerStarts, (Int64Counter, "ci_runner.worker.starts", "{worker}"));
    (workerStartTime, (Float64Histogram, "ci_runner.worker.start.duration", "s"));
    (workerRegisters, (Int64Counter, "ci_runner.worker.registrations", "{worker}"));
    (workerRegisterTime, (Float64Histogram, "ci_runner.worker.registration.duration", "s"));
    (workerFinalizes, (Int64Counter, "ci_runner.worker.finalizations", "{worker}"));
    (workerFinalizeTime, (Float64Histogram, "ci_runner.worker.finalization.duration", "s"));
    (jobsStarted, (Int64Counter, "ci_runner.jobs.started", "{job}"));
    (jobStartLag, (Float64Histogram, "ci_runner.jobs.start.visibility_lag", "s"));
    (lifecycleEventTime, (Float64Gauge, "ci_runner.worker.lifecycle.event.time", "s"));
    (jobsCompleted, (Int64Counter, "ci_runner.jobs.completed", "{job}"));
    (cancellations, (Int64Counter, "ci_runner.cancellations", "{cancellation}"));
    (resourceEvidence, (Int64Counter, "ci_runner.worker.resource.evidence", "{worker}"));
    (memoryPeak, (Int64Histogram, "ci_runner.worker.memory.peak", "By"));
    (memorySwapPeak, (Int64Histogram, "ci_runner.worker.memory.swap.peak", "By"));
    (oomEvents, (Int64Counter, "ci_runner.worker.memory.oom.events", "{event}"));
    (oomKillEvents, (Int64Counter, "ci_runner.worker.memory.oom_kill.events", "{event}"));
    (cpuPeriods, (Int64Histogram, "ci_runner.worker.cpu.periods", "{period}"));
    (cpuThrottled, (Int64Histogram, "ci_runner.worker.cpu.throttled.periods", "{period}"));
    (cpuThrottledTime, (Float64Histogram, "ci_runner.worker.cpu.throttled.duration", "s"));
    (pidsPeak, (Int64Histogram, "ci_runner.worker.pids.peak", "{process}"));
    (ioRead, (Int64Histogram, "ci_runner.worker.io.read", "By"));
    (ioWrite, (Int64Histogram, "ci_runner.worker.io.write", "By")) ].

Inductive Value := IntValue (z : Z) | FloatValue (f : float64).

Abbreviation attributes := (list (string * string)).

(** What is recorded: a measurement, or something about the current span. *)
Inductive tevent :=
  | Measure (i : Instrument) (v : Value) (attrs : attributes)
  | SetAttributes (attrs : attributes)
  | RecordError (e : error)
  | SetStatus (description : string)
  | AddEvent (name : string) (attrs : attributes)
  | EndSpan.

(** ** Helpers *)

Definition workerStates : list string := ["starting"; "idle"; "busy"; "unregistered"; "exited"].

Definition boolInt64 (value : bool) : Z := if value then 1 else 0.
Definition clampUint64 (value : Z) : Z := if max_i64 <? value then max_i64 else value.

(** [max(0, x)] on floats. *)
Definition float_floor0 (x : float64) : float64 := if f64_is_nan x then x else if f64_lt f64_0 x then x else f64_0.
Definition seconds (d : duration) : Value := FloatValue (float_floor0 (Duration_Seconds d)).

Definition normalizeResourceTier (value : string) : string :=
  if existsb (String.eqb value) ["default"; "target_override"; "unknown"] then value else "unknown".

Definition normalizeResourceOutcome (value : string) : string :=
  if existsb (String.eqb value) ["complete"; "partial"; "missing"; "unavailable"; "invalid"] then value else "invalid".

Definition normalizeJobResult `{Unicode} (result : string) : string :=
  let r := ToLower (TrimSpace result) in
  if existsb (String.eqb r) ["succeeded"; "success"] then "succeeded"
  else if existsb (String.eqb r) ["failed"; "failure"] then "failed"
  else if existsb (String.eqb r) ["canceled"; "cancelled"] then "canceled"
  else if String.eqb r "skipped" then "skipped"
  else "other".

Definition start_outcome (o : WorkerStartOutcome) : string :=
  match o with
  | WorkerStartSucceeded => "succeeded" | WorkerStartFailed => "failed"
  | WorkerStartAmbiguous => "ambiguous" | WorkerStartCanceled => "canceled"
  end.

Inductive WorkerFinalizationOutcome :=
  WorkerFinalizationCompleted | WorkerFinalizationWorkerError | WorkerFinalizationRuntimeError | WorkerFinalizationCanceled | WorkerFinalizationUnknown.

Definition finalization_outcome (o : WorkerFinalizationOutcome) : string :=
  match o with
  | WorkerFinalizationCompleted => "completed" | WorkerFinalizationWorkerError => "worker_error"
  | WorkerFinalizationRuntimeError => "runtime_error" | WorkerFinalizationCanceled => "canceled" | WorkerFinalizationUnknown => "unknown"
  end.

Definition ClassifyWorkerFinalization (value : WorkerFinalization) : WorkerFinalizationOutcome :=
  if wf_ControllerShutdown value then WorkerFinalizationCanceled
  else match wf_Err value with
       | Some _ => WorkerFinalizationRuntimeError
       | None =>
           if negb (wf_ExitObserved value) then WorkerFinalizationUnknown
           else if wf_ExitCode value =? 0 then WorkerFinalizationCompleted
           else WorkerFinalizationWorkerError
       end.

Definition pool_attribute (id : string) : string * string := ("ci_runner.pool.id", id).

Definition cancellation (source classification : string) : tevent :=
  Measure cancellations (IntValue 1) [("ci_runner.cancellation.source", source); ("ci_runner.cancellation.classification", classification)].

(** ** The recorder *)

Definition recordCapacityCheckpoint (pools : list CapacityCheckpointPool) : list tevent :=
  pools ≫= fun pool =>
    let attrs := [pool_attribute (cp_ID pool)] in
    Measure capacityAcknowledged (IntValue (boolInt64 (cp_CapacityAcknowledged pool))) attrs
    :: (if negb (cp_CapacityAcknowledged pool) && cp_AcknowledgementPendingAgeValid pool
        then [Measure acknowledgementPendingAge (seconds (cp_AcknowledgementPendingAge pool)) attrs]
        else if cp_CapacityAcknowledged pool then [Measure acknowledgementPendingAge (FloatValue f64_0) attrs]
        else []).

Definition reconcilePoolCapacityCheckpoint (pool : ReconcilePool) : CapacityCheckpointPool :=
  mkCheckpointPool (rp_ID pool) (rp_CapacityAcknowledged pool) (rp_AcknowledgementPendingAge pool) (rp_AcknowledgementPendingAgeValid pool).

(** The workers of each pool by their state, and the busy ones. *)
Definition count_worker (acc : gmap string (gmap string Z) * gmap string Z) (w : ReconcileWorker) : gmap string (gmap string Z) * gmap string Z :=
  let '(counts, active) := acc in
  match counts !! rw_PoolID w with
  | None => (counts, active)
  | Some states =>
      (<[rw_PoolID w := <[rw_State w := mget states (rw_State w) + 1]> states]> counts,
       if String.eqb (rw_State w) "busy" then <[rw_PoolID w := mget active (rw_PoolID w) + 1]> active else active)
  end.

Definition pool_gauges (pool : ReconcilePool) : list tevent :=
  let attrs := [pool_attribute (rp_ID pool)] in
  [Measure advertised (IntValue (rp_Advertised pool)) attrs]
  ++ recordCapacityCheckpoint [reconcilePoolCapacityCheckpoint pool]
  ++ [Measure assigned (IntValue (rp_Assigned pool)) attrs;
      Measure desired (IntValue (rp_Desired pool)) attrs;
      Measure memoryAffordable (IntValue (rp_AffordableWorkers pool)) attrs].

Definition pool_counts (counts : gmap string (gmap string Z)) (active : gmap string Z) (pool : ReconcilePool) : list tevent :=
  let attrs := [pool_attribute (rp_ID pool)] in
  let states := default ∅ (counts !! rp_ID pool) in
  let inventory := fold_left (fun total state => total + mget states state) workerStates 0 in
  let locallyVisible := mget active (rp_ID pool) + mget states "starting" in
  let gap := Z.max 0 (rp_Assigned pool - locallyVisible) in
  map (fun state => Measure workers (IntValue (mget states state)) [pool_attribute (rp_ID pool); ("ci_runner.worker.state", state)]) workerStates
  ++ [Measure activeJobs (IntValue (mget active (rp_ID pool))) attrs;
      Measure inventoryWorkers (IntValue inventory) attrs;
      Measure assignmentGap (IntValue gap) attrs;
      Measure transientLag (IntValue (boolInt64 (0 <? gap))) attrs].

Definition recordSnapshot (snapshot : ReconcileSnapshot) : list tevent :=
  let initial := fold_left (fun counts pool => <[rp_ID pool := ∅]> counts) (sn_Pools snapshot) ∅ in
  let '(counts, active) := fold_left count_worker (sn_Workers snapshot) (initial, ∅) in
  (sn_Pools snapshot ≫= pool_gauges)
  ++ (sn_Pools snapshot ≫= pool_counts counts active)
  ++ [Measure cpuPercent (FloatValue (sn_CPUPercent snapshot)) [];
      Measure availableMemory (IntValue (clampUint64 (sn_AvailableMemoryBytes snapshot))) [];
      Measure memoryHeadroom (IntValue (clampUint64 (sn_MemoryHeadroomBytes snapshot))) [];
      Measure resourceGate (IntValue (boolInt64 (sn_ResourceGateBlocked snapshot))) [];
      Measure powerGate (IntValue (boolInt64 (sn_PowerGateBlocked snapshot))) []]
  ++ (if sn_CheckpointAgeValid snapshot then [Measure checkpointAge (seconds (sn_CheckpointAge snapshot)) []] else []).

Definition snapshotHasTransientAccountingLag (snapshot : ReconcileSnapshot) : bool :=
  let visible := fold_left (fun visible w =>
      if String.eqb (rw_State w) "busy" || String.eqb (rw_State w) "starting"
      then <[rw_PoolID w := mget visible (rw_PoolID w) + 1]> visible else visible) (sn_Workers snapshot) (∅ : gmap string Z) in
  existsb (fun pool => mget visible (rp_ID pool) <? rp_Assigned pool) (sn_Pools snapshot).

Definition classifyReconcileResult (err : option error) : string * bool :=
  match err with
  | None => ("succeeded", false)
  | Some e => if is_sentinel errCanceled e then ("canceled", false) else ("failed", true)
  end.

(** The function that ends [BeginReconcile]. *)
Definition EndReconcile (snapshot : ReconcileSnapshot) (reconcileErr : option error) (elapsed : duration) : list tevent :=
  let '(result, unexpected) := classifyReconcileResult reconcileErr in
  let attrs := [("ci_runner.reconcile.result", result)]
               ++ (if String.eqb (sn_Phase snapshot) "" then [] else [("ci_runner.phase", sn_Phase snapshot)])
               ++ (if snapshotHasTransientAccountingLag snapshot then [("ci_runner.accounting.classification", "transientAccountingLag")] else []) in
  [SetAttributes attrs]
  ++ (if unexpected then
        [Measure reconcileErrors (IntValue 1) []]
        ++ (match reconcileErr with Some e => [RecordError e] | None => [] end)
        ++ [SetStatus "reconciliation failed"]
      else if String.eqb result "canceled" then [cancellation "controller" "shutdown"]
      else [])
  ++ [Measure reconcileDuration (FloatValue (Duration_Seconds elapsed)) [("ci_runner.reconcile.result", result)]]
  ++ (if sn_Valid snapshot then recordSnapshot snapshot else [])
  ++ [EndSpan].

Definition recordLifecycleEventTime (poolID tier event outcome : string) (unixNano : Z) : list tevent :=
  [Measure lifecycleEventTime (FloatValue (f64_div (f64_of_Z unixNano) (f64_of_Z Second)))
     [pool_attribute poolID; ("ci_runner.worker.resource.tier", normalizeResourceTier tier);
      ("ci_runner.worker.lifecycle.event", event); ("ci_runner.worker.lifecycle.outcome", outcome)]].

Definition WorkerRegistered (poolID tier : string) (d : duration) (outcome : WorkerStartOutcome) (unixNano : Z) : list tevent :=
  if String.eqb poolID "" then []
  else
    let attrs := [pool_attribute poolID; ("ci_runner.worker.resource.tier", normalizeResourceTier tier);
                  ("ci_runner.worker.registration.outcome", start_outcome outcome)] in
    [Measure workerRegisters (IntValue 1) attrs; Measure workerRegisterTime (seconds d) attrs]
    ++ recordLifecycleEventTime poolID tier "registered" (start_outcome outcome) unixNano
    ++ [AddEvent "worker.registered" attrs].

Definition WorkerStarted (poolID tier : string) (d : duration) (outcome : WorkerStartOutcome) (unixNano : Z) : list tevent :=
  if String.eqb poolID "" then []
  else
    let attrs := [pool_attribute poolID; ("ci_runner.worker.resource.tier", normalizeResourceTier tier);
                  ("ci_runner.worker.start.outcome", start_outcome outcome)] in
    [Measure workerStarts (IntValue 1) attrs; Measure workerStartTime (seconds d) attrs]
    ++ recordLifecycleEventTime poolID tier "started" (start_outcome outcome) unixNano
    ++ [AddEvent "worker.started" attrs]
    ++ (match outcome with WorkerStartCanceled => [cancellation "worker_start" "controller_context"] | _ => [] end).

Definition unless_missing (evidence : WorkerResourceEvidence) (field : string) (events : list tevent) : list tevent :=
  if existsb (String.eqb field) (we_Missing evidence) then [] else events.

Definition recordWorkerResourceEvidence (poolID tier : string) (outcome : WorkerFinalizationOutcome) (evidence : option WorkerResourceEvidence) : list tevent :=
  let status := match evidence with Some e => normalizeResourceOutcome (we_Status e) | None => "unavailable" end in
  let attrs := [pool_attribute poolID; ("ci_runner.worker.resource.tier", tier); ("ci_runner.worker.finalization.outcome", finalization_outcome outcome)] in
  [Measure resourceEvidence (IntValue 1)
     [pool_attribute poolID; ("ci_runner.worker.resource.tier", tier); ("ci_runner.worker.resource.outcome", status)]]
  ++ match evidence with
     | None => []
     | Some e =>
         if existsb (String.eqb status) ["missing"; "unavailable"; "invalid"] then []
         else
           unless_missing e "memory.peak" [Measure memoryPeak (IntValue (clampUint64 (em_PeakBytes (we_Memory e)))) attrs]
           ++ unless_missing e "memory.swap.peak" [Measure memorySwapPeak (IntValue (clampUint64 (em_SwapPeakBytes (we_Memory e)))) attrs]
           ++ unless_missing e "memory.events.oom" [Measure oomEvents (IntValue (clampUint64 (em_OOMEvents (we_Memory e)))) attrs]
           ++ unless_missing e "memory.events.oom_kill" [Measure oomKillEvents (IntValue (clampUint64 (em_OOMKillEvents (we_Memory e)))) attrs]
           ++ unless_missing e "cpu.stat.nr_periods" [Measure cpuPeriods (IntValue (clampUint64 (ec_Periods (we_CPU e)))) attrs]
           ++ unless_missing e "cpu.stat.nr_throttled" [Measure cpuThrottled (IntValue (clampUint64 (ec_ThrottledPeriods (we_CPU e)))) attrs]
           ++ unless_missing e "cpu.stat.throttled_usec"
                [Measure cpuThrottledTime (FloatValue (f64_div (f64_of_Z (ec_ThrottledMicroseconds (we_CPU e))) (f64_of_Z 1000000))) attrs]
           ++ unless_missing e "pids.peak" [Measure pidsPeak (IntValue (clampUint64 (we_PIDsPeak e))) attrs]
           ++ unless_missing e "io.stat"
                [Measure ioRead (IntValue (clampUint64 (ei_ReadBytes (we_IO e)))) attrs;
                 Measure ioWrite (IntValue (clampUint64 (ei_WriteBytes (we_IO e)))) attrs]
     end.

Definition WorkerFinalized (poolID : string) (value : WorkerFinalization) (unixNano : Z) : list tevent :=
  if String.eqb poolID "" then []
  else
    let outcome := ClassifyWorkerFinalization value in
    let tier := normalizeResourceTier (wf_ResourceTier value) in
    let attrs := [pool_attribute poolID; ("ci_runner.worker.resource.tier", tier);
                  ("ci_runner.worker.finalization.outcome", finalization_outcome outcome)] in
    [Measure workerFinalizes (IntValue 1) attrs; Measure workerFinalizeTime (seconds (wf_Duration value)) attrs]
    ++ recordLifecycleEventTime poolID tier "finalized" (finalization_outcome outcome) unixNano
    ++ (match outcome with WorkerFinalizationCanceled => [cancellation "worker_finalization" "controller_context"] | _ => [] end)
    ++ (if wf_RecordResourceEvidence value then recordWorkerResourceEvidence poolID tier outcome (wf_ResourceEvidence value) else []).

Definition ObserveJobStarted (poolID : string) (visibilityLag : duration) (unixNano : Z) : list tevent :=
  if String.eqb poolID "" then []
  else
    let attrs := [pool_attribute poolID] in
    [Measure jobsStarted (IntValue 1) attrs; Measure jobStartLag (seconds visibilityLag) attrs]
    ++ recordLifecycleEventTime poolID "unknown" "job_started" "observed" unixNano
    ++ [AddEvent "job.started" attrs].

Definition ObserveJobCompleted `{Unicode} (poolID result : string) (wasAssigned : bool) : list tevent :=
  if String.eqb poolID "" then []
  else
    let normalized := normalizeJobResult result in
    [Measure jobsCompleted (IntValue 1) [pool_attribute poolID; ("ci_runner.job.result", normalized)]]
    ++ (if negb (String.eqb normalized "canceled") then []
        else [cancellation "github_job" (if wasAssigned then "assigned" else "before_assignment")]).

(** ** The process environment *)

Section Environment.
Context `{Unicode} (lookup : string -> option string).

(** The value of a variable that is set and not blank, trimmed. *)
Definition setting (name : string) : option string :=
  match lookup name with
  | Some raw => if String.eqb (TrimSpace raw) "" then None else Some (TrimSpace raw)
  | None => None
  end.

Definition sdkDisabled : result error bool :=
  match setting "OTEL_SDK_DISABLED" with
  | None => Ok false
  | Some raw =>
      match ParseBool raw with
      | Some value => Ok value
      | None => Err (ErrWrap "OTEL_SDK_DISABLED must be a boolean" (ErrNew ("strconv.ParseBool: parsing " +:+ Quote raw +:+ ": invalid syntax")))
      end
  end.

Definition signalEnabled (exporterVariable signalEndpointVariable : string) : bool * option error :=
  match setting exporterVariable with
  | Some raw =>
      if String.eqb (ToLower raw) "none" then (false, None)
      else if String.eqb (ToLower raw) "otlp" then (true, None)
      else (false, Some (ErrNew (exporterVariable +:+ " supports only otlp or none")))
  | None =>
      (existsb (fun variable => match setting variable with Some _ => true | None => false end)
         [signalEndpointVariable; "OTEL_EXPORTER_OTLP_ENDPOINT"], None)
  end.

Definition signalProtocol (signalVariable : string) : result error string :=
  match (match setting signalVariable with Some raw => Some raw | None => setting "OTEL_EXPORTER_OTLP_PROTOCOL" end) with
  | None => Ok "http/protobuf"
  | Some raw =>
      let protocol := ToLower raw in
      if negb (String.eqb protocol "http/protobuf") && negb (String.eqb protocol "grpc")
      then Err (ErrNew (signalVariable +:+ " must be http/protobuf or grpc"))
      else Ok protocol
  end.

(** [strconv.ParseInt] of a decimal text; [None] for an error. *)
Definition ParseInt10 (s : string) : option Z :=
  let '(sign, digits) :=
    match s with
    | String a rest => if Ascii.eqb a "-" then (-1, rest) else if Ascii.eqb a "+" then (1, rest) else (1, s)
    | EmptyString => (1, s)
    end in
  if negb (String.eqb digits "") && string_forall digit digits then
    let value := sign * decimal_value 0 digits in
    if (min_i64 <=? value) && (value <=? max_i64) then Some value else None
  else None.

Definition Millisecond : duration := 1000000.

Definition millisecondsEnvironment (variable : string) (fallback : duration) : result error duration :=
  match setting variable with
  | None => Ok fallback
  | Some raw =>
      let bad := Err (ErrNew (variable +:+ " must be a positive millisecond integer")) in
      match ParseInt10 raw with
      | None => bad
      | Some value => if (value <=? 0) || (Z.quot max_i64 Millisecond <? value) then bad else Ok (wrap_i64 (value * Millisecond))
      end
  end.

End Environment.

Fixpoint trim_right_slashes (s : string) : string :=
  match s with
  | EmptyString => ""
  | String a rest => let t := trim_right_slashes rest in if Ascii.eqb a "/" && String.eqb t "" then "" else String a t
  end.

Definition httpSignalEndpoint (base signal : string) : string := trim_right_slashes base +:+ "/v1/" +:+ signal.

(** ** The provider *)

Definition defaultMetricExportInterval : duration := 60 * Second.
Definition defaultMetricExportTimeout : duration := 30 * Second.

Record ExportConfig := mkExportConfig {
  xc_Endpoint : string;
  xc_Protocol : string;
  xc_Traces : bool;
  xc_Metrics : bool;
  xc_MetricExportInterval : duration;
  xc_MetricExportTimeout : duration;
}.

(** The exporters to shut down, in the order they were made, and whether the recorder
    records. *)
Record Provider := mkProvider {
  pv_Recording : bool;
  pv_Shutdown : list exportSignal;
  pv_Enabled : bool;
}.

(** An exporter over gRPC or HTTP, for an endpoint or for what the library finds in its
    own environment. *)
Inductive xcall :=
  | NewExporter (signal : exportSignal) (grpc : bool) (endpoint : option string)
  | NewReader (interval timeout : duration)
  | CreateInstrument (kind : InstrumentKind) (name unit : string)
  | ProbeEndpoint (endpoint protocol : string)
  | MarkUnreachable (e : error)
  | ShutdownExporter (signal : exportSignal).

Definition xresp (c : xcall) : Type :=
  match c with
  | NewExporter _ _ _ | CreateInstrument _ _ _ | ProbeEndpoint _ _ | ShutdownExporter _ => option error
  | NewReader _ _ | MarkUnreachable _ => unit
  end.

Abbreviation xprog := (iprog xresp).
Definition xask (c : xcall) : xprog (xresp c) := icall c.

Definition signal_text (s : exportSignal) : string := match s with exportSignalTraces => "traces" | exportSignalMetrics => "metrics" end.

(** [newTraceExporter] and [newMetricExporter]. *)
Definition newExporter (signal : exportSignal) (protocol endpoint : string) : xprog (option error) :=
  let grpc := String.eqb protocol "grpc" in
  xask (NewExporter signal grpc
          (if String.eqb endpoint "" then None else Some (if grpc then endpoint else httpSignalEndpoint endpoint (signal_text signal)))).

(** After the first failure no instrument is created. *)
Fixpoint create_instruments (table : list (InstrumentKind * string * string)) : xprog (option error) :=
  match table with
  | [] => IRet None
  | (kind, name, unit) :: table =>
      let^ created := xask (CreateInstrument kind name unit) in
      match created with
      | Some e => IRet (Some e)
      | None => create_instruments table
      end
  end.

Definition newRecorder : xprog (option error) := create_instruments (map snd instrument_table).

Definition ok_or_empty (r : result error string) : string := match r with Ok s => s | Err _ => "" end.
Definition err_of {A} (r : result error A) : option error := match r with Ok _ => None | Err e => Some e end.

Section NewProvider.
Context `{Unicode} (lookup : string -> option string) (export : option ExportConfig).

Definition trace_exporter (endpoint : string) (provider : Provider) : xprog (Provider * list error) :=
  let chosen := match export with Some x => Ok (xc_Protocol x) | None => signalProtocol lookup "OTEL_EXPORTER_OTLP_TRACES_PROTOCOL" end in
  match chosen with
  | Err e => IRet (provider, [e])
  | Ok protocol =>
      let^ made := newExporter exportSignalTraces protocol endpoint in
      IRet (match made with
            | Some e => (provider, [ErrWrap "initialize OTLP trace exporter" e])
            | None => (mkProvider (pv_Recording provider) (pv_Shutdown provider ++ [exportSignalTraces]) true, [])
            end)
  end.

Definition metric_exporter (endpoint : string) (provider : Provider) : xprog (Provider * list error) :=
  let chosen := match export with Some x => Ok (xc_Protocol x) | None => signalProtocol lookup "OTEL_EXPORTER_OTLP_METRICS_PROTOCOL" end in
  let interval := match export with
                  | Some x => Ok (xc_MetricExportInterval x)
                  | None => millisecondsEnvironment lookup "OTEL_METRIC_EXPORT_INTERVAL" defaultMetricExportInterval
                  end in
  let timeout := match export with
                 | Some x => Ok (xc_MetricExportTimeout x)
                 | None => millisecondsEnvironment lookup "OTEL_METRIC_EXPORT_TIMEOUT" defaultMetricExportTimeout
                 end in
  match chosen, interval, timeout with
  | Ok protocol, Ok interval, Ok timeout =>
      let^ made := newExporter exportSignalMetrics protocol endpoint in
      match made with
      | Some e => IRet (provider, [ErrWrap "initialize OTLP metric exporter" e])
      | None =>
          let^ _ := xask (NewReader interval timeout) in
          IRet (mkProvider (pv_Recording provider) (pv_Shutdown provider ++ [exportSignalMetrics]) true, [])
      end
  | _, _, _ =>
      IRet (provider, match errors_Join [err_of chosen; err_of interval; err_of timeout] with Some e => [e] | None => [] end)
  end.

(** The endpoint and the protocol of the probe. *)
Definition probe_target (traceEnabled metricEnabled : bool) (endpoint configured : string) : string * string :=
  match export with
  | Some _ => (endpoint, configured)
  | None =>
      (if String.eqb endpoint ""
       then default "" (first_some (setting lookup)
              ["OTEL_EXPORTER_OTLP_ENDPOINT"; "OTEL_EXPORTER_OTLP_TRACES_ENDPOINT"; "OTEL_EXPORTER_OTLP_METRICS_ENDPOINT"])
       else endpoint,
       let chosen := if traceEnabled then signalProtocol lookup "OTEL_EXPORTER_OTLP_TRACES_PROTOCOL"
                     else if metricEnabled then signalProtocol lookup "OTEL_EXPORTER_OTLP_METRICS_PROTOCOL" else Ok configured in
       match chosen with Ok protocol => protocol | Err _ => configured end)
  end.

(** The part of [NewFromEnv] after the signals are chosen. *)
Definition build_provider (traceEnabled metricEnabled : bool) (problems : list error) : xprog (Provider * list error) :=
  let endpoint := match export with Some x => xc_Endpoint x | None => "" end in
  let configured := match export with Some x => xc_Protocol x | None => "" end in
  let provider := mkProvider false [] false in
  let^ traced := if traceEnabled then trace_exporter endpoint provider else IRet (provider, []) in
  let^ metered := if metricEnabled then metric_exporter endpoint (fst traced) else IRet (fst traced, []) in
  let provider := fst metered in
  let problems := problems ++ snd traced ++ snd metered in
  let^ recorder := newRecorder in
  match recorder with
  | Some e => IRet (provider, problems ++ [ErrWrap "create telemetry instruments" e])
  | None =>
      let provider := mkProvider true (pv_Shutdown provider) (pv_Enabled provider) in
      if pv_Enabled provider then
        let target := probe_target traceEnabled metricEnabled endpoint configured in
        let^ probed := xask (ProbeEndpoint (fst target) (snd target)) in
        let^ _ := match probed with Some e => xask (MarkUnreachable (ErrWrap "OTLP endpoint probe failed" e)) | None => IRet () end in
        IRet (provider, problems)
      else IRet (provider, problems)
  end.

Definition NewFromEnv (hostID version : string) : xprog (Provider * list error) :=
  let noop := mkProvider false [] false in
  if String.eqb hostID "" || String.eqb version ""
  then IRet (noop, [ErrNew "telemetry service identity requires host ID and version"])
  else
    match export with
    | Some x => if negb (xc_Traces x) && negb (xc_Metrics x) then IRet (noop, []) else build_provider (xc_Traces x) (xc_Metrics x) []
    | None =>
        match sdkDisabled lookup with
        | Err e => IRet (noop, [e])
        | Ok true => IRet (noop, [])
        | Ok false =>
            let traces := signalEnabled lookup "OTEL_TRACES_EXPORTER" "OTEL_EXPORTER_OTLP_TRACES_ENDPOINT" in
            let metrics := signalEnabled lookup "OTEL_METRICS_EXPORTER" "OTEL_EXPORTER_OTLP_METRICS_ENDPOINT" in
            let problems := omap id [snd traces; snd metrics] in
            if negb (fst traces) && negb (fst metrics) then IRet (noop, problems) else build_provider (fst traces) (fst metrics) problems
        end
    end.

End NewProvider.

(** [Shutdown]: the exporters in the reverse order of their making. *)
Fixpoint shutdown_exporters (exporters : list exportSignal) : xprog (list (option error)) :=
  match exporters with
  | [] => IRet []
  | signal :: exporters =>
      let^ e := xask (ShutdownExporter signal) in
      let^ errs := shutdown_exporters exporters in
      IRet (e :: errs)
  end.

Definition Provider_Shutdown (p : Provider) : xprog (option error) :=
  let^ errs := shutdown_exporters (rev (pv_Shutdown p)) in IRet (errors_Join errs).
