(* ===== verification/TelemetryFacts.v ===== *)
(** What the telemetry guarantees: its gauges are the counts of the snapshot, its labels
    stay within a fixed vocabulary, and its provider shuts down every exporter it made. *)

From S2P Require Import Prelude Float64 GoStrings Regexp Model GoText PlanGates Plan Errors Reconciler Step Interaction Evidence Docker Cli ExportNotices Telemetry ConfigSamples.
From stdpp Require Import gmap.
#[local] Open Scope Z_scope.
Open Scope i_scope.

(** ** The counts of a snapshot *)

(** The workers of a pool in a state. *)
Definition workers_in (snapshot : ReconcileSnapshot) (pool state : string) : Z :=
  Z.of_nat (length (filter (fun w => rw_PoolID w = pool /\ rw_State w = state) (sn_Workers snapshot))).

(** The counts of one pool, from the list of workers. *)
Definition reference_counts (snapshot : ReconcileSnapshot) (pool : ReconcilePool) : list tevent :=
  let n := workers_in snapshot (rp_ID pool) in
  let attrs := [("ci_runner.pool.id", rp_ID pool)] in
  let gap := Z.max 0 (rp_Assigned pool - (n "busy" + n "starting")) in
  [ Measure workers (IntValue (n "starting")) (attrs ++ [("ci_runner.worker.state", "starting")]);
    Measure workers (IntValue (n "idle")) (attrs ++ [("ci_runner.worker.state", "idle")]);
    Measure workers (IntValue (n "busy")) (attrs ++ [("ci_runner.worker.state", "busy")]);
    Measure workers (IntValue (n "unregistered")) (attrs ++ [("ci_runner.worker.state", "unregistered")]);
    Measure workers (IntValue (n "exited")) (attrs ++ [("ci_runner.worker.state", "exited")]);
    Measure activeJobs (IntValue (n "busy")) attrs;
    Measure inventoryWorkers (IntValue (n "starting" + n "idle" + n "busy" + n "unregistered" + n "exited")) attrs;
    Measure assignmentGap (IntValue gap) attrs;
    Measure transientLag (IntValue (if decide (0 < gap) then 1 else 0)) attrs ].

(** The tables after some workers, for the pools that are counted. *)
Definition counted (pools : list ReconcilePool) (seen : list ReconcileWorker) (tables : gmap string (gmap string Z) * gmap string Z) : Prop :=
  forall id, if decide (id ∈ map rp_ID pools)
  then exists states, fst tables !! id = Some states
       /\ (forall state, mget states state = Z.of_nat (length (filter (fun w => rw_PoolID w = id /\ rw_State w = state) seen)))
       /\ mget (snd tables) id = Z.of_nat (length (filter (fun w => rw_PoolID w = id /\ rw_State w = "busy") seen))
  else fst tables !! id = None.

Lemma initial_lookup pools id : forall acc : gmap string (gmap string Z),
  fold_left (fun counts pool => <[rp_ID pool := ∅]> counts) pools acc !! id = if decide (id ∈ map rp_ID pools) then Some ∅ else acc !! id.
Proof.
  induction pools as [|p pools IH]; intros acc; cbn [fold_left map]; [case_decide; [set_solver|done]|].
  rewrite IH. destruct (decide (id ∈ map rp_ID pools)) as [Hin|Hout].
  - rewrite decide_True; [done|]. by right.
  - destruct (decide (rp_ID p = id)) as [<-|Hne].
    + rewrite lookup_insert_eq, decide_True; [done|]. left.
    + rewrite lookup_insert_ne by done. rewrite decide_False; [done|]. rewrite elem_of_cons. naive_solver.
Qed.

Lemma initial_counts pools : counted pools [] (fold_left (fun counts pool => <[rp_ID pool := ∅]> counts) pools ∅, ∅).
Proof.
  intros id. cbn [fst snd]. rewrite initial_lookup. destruct (decide (id ∈ map rp_ID pools)); [|done]. by exists ∅.
Qed.

Lemma length_filter_snoc {A} (P : A -> Prop) `{forall x, Decision (P x)} (l : list A) x :
  length (filter P (l ++ [x])) = (length (filter P l) + if decide (P x) then 1 else 0)%nat.
Proof. rewrite filter_app, length_app, filter_cons, filter_nil. by destruct (decide (P x)). Qed.

Lemma count_worker_counted pools seen tables w : counted pools seen tables -> counted pools (seen ++ [w]) (count_worker tables w).
Proof.
  intros Hc id. specialize (Hc id) as Hid. pose proof (Hc (rw_PoolID w)) as Hw. destruct tables as [counts active]. cbn [fst snd] in *.
  unfold count_worker. destruct (decide (rw_PoolID w ∈ map rp_ID pools)) as [Hin|Hout].
  - destruct Hw as (states & Hs & Hcount & Hact). rewrite Hs. cbn [fst snd].
    destruct (decide (id ∈ map rp_ID pools)) as [Hid'|Hid'].
    2: { rewrite lookup_insert_ne; [done|]. by intros <-. }
    destruct (decide (id = rw_PoolID w)) as [->|Hne].
    + rewrite lookup_insert_eq. eexists. split; [done|]. split.
      * intros state. rewrite length_filter_snoc. destruct (decide (rw_State w = state)) as [<-|Hst].
        -- rewrite mget_insert_eq, Hcount, decide_True by done. lia.
        -- rewrite mget_insert_ne, Hcount, decide_False by naive_solver. lia.
      * rewrite length_filter_snoc. destruct (String.eqb_spec (rw_State w) "busy") as [Hb|Hb].
        -- rewrite mget_insert_eq, Hact, decide_True by done. lia.
        -- rewrite Hact, decide_False by naive_solver. lia.
    + destruct Hid as (st & Hst & Hcst & Hast). rewrite lookup_insert_ne by done. exists st. split; [done|]. split.
      * intros state. rewrite length_filter_snoc, Hcst, decide_False by naive_solver. lia.
      * rewrite length_filter_snoc, decide_False by naive_solver. destruct (String.eqb _ _); rewrite ?mget_insert_ne by done; rewrite Hast; lia.
  - rewrite Hw. cbn [fst snd]. destruct (decide (id ∈ map rp_ID pools)) as [Hid'|Hid']; [|done].
    assert (Hne : id <> rw_PoolID w) by (by intros ->). destruct Hid as (st & Hst & Hcst & Hast). exists st. split; [done|]. split.
    + intros state. rewrite length_filter_snoc, Hcst, decide_False by naive_solver. lia.
    + rewrite length_filter_snoc, Hast, decide_False by naive_solver. lia.
Qed.

Lemma count_workers_counted pools ws : forall seen tables,
  counted pools seen tables -> counted pools (seen ++ ws) (fold_left count_worker ws tables).
Proof.
  induction ws as [|w ws IH]; intros seen tables Hc; simpl; [by rewrite app_nil_r|].
  change (w :: ws) with ([w] ++ ws). rewrite app_assoc. by apply IH, count_worker_counted.
Qed.

Lemma pool_counts_reference snapshot counts active pool :
  counted (sn_Pools snapshot) (sn_Workers snapshot) (counts, active) -> pool ∈ sn_Pools snapshot ->
  pool_counts counts active pool = reference_counts snapshot pool.
Proof.
  intros Hc Hin. specialize (Hc (rp_ID pool)). rewrite decide_True in Hc by (by apply list_elem_of_fmap_2).
  destruct Hc as (states & Hs & Hcount & Hact). cbn [fst snd] in *. unfold pool_counts, reference_counts, workers_in.
  rewrite Hs. cbn [default workerStates map fold_left app id]. rewrite !Hcount, Hact. rewrite Z.add_0_l.
  repeat f_equal. unfold boolInt64. case_decide as Hd; [|by rewrite (proj2 (Z.ltb_ge _ _)) by lia].
  by rewrite (proj2 (Z.ltb_lt _ _)).
Qed.

(** The visible workers of a pool. *)
Lemma visible_counts (ws : list ReconcileWorker) id : forall seen visible,
  mget visible id = Z.of_nat (length (filter (fun w => rw_PoolID w = id /\ (rw_State w = "busy" \/ rw_State w = "starting")) seen)) ->
  mget (fold_left (fun (visible : gmap string Z) w =>
      if String.eqb (rw_State w) "busy" || String.eqb (rw_State w) "starting"
      then <[rw_PoolID w := mget visible (rw_PoolID w) + 1]> visible else visible) ws visible) id
  = Z.of_nat (length (filter (fun w => rw_PoolID w = id /\ (rw_State w = "busy" \/ rw_State w = "starting")) (seen ++ ws))).
Proof.
  induction ws as [|w ws IH]; intros seen visible Hv; simpl; [by rewrite app_nil_r|].
  change (w :: ws) with ([w] ++ ws). rewrite app_assoc. apply IH. rewrite length_filter_snoc.
  destruct (String.eqb_spec (rw_State w) "busy"), (String.eqb_spec (rw_State w) "starting"); cbn [orb];
    destruct (decide (rw_PoolID w = id)) as [<-|Hne]; rewrite ?mget_insert_eq, ?mget_insert_ne by done; rewrite Hv;
    case_decide; naive_solver lia.
Qed.

Lemma filter_split (ws : list ReconcileWorker) id :
  length (filter (fun w => rw_PoolID w = id /\ (rw_State w = "busy" \/ rw_State w = "starting")) ws)
  = (length (filter (fun w => rw_PoolID w = id /\ rw_State w = "busy") ws)
     + length (filter (fun w => rw_PoolID w = id /\ rw_State w = "starting") ws))%nat.
Proof.
  induction ws as [|w ws IH]; [done|]. rewrite !filter_cons.
  repeat case_decide; simpl; rewrite ?IH; lia || naive_solver congruence.
Qed.

Lemma lag_spec snapshot :
  snapshotHasTransientAccountingLag snapshot = true <->
  exists pool, pool ∈ sn_Pools snapshot
    /\ workers_in snapshot (rp_ID pool) "busy" + workers_in snapshot (rp_ID pool) "starting" < rp_Assigned pool.
Proof.
  unfold snapshotHasTransientAccountingLag. rewrite existsb_exists.
  assert (Hv := fun id => visible_counts (sn_Workers snapshot) id [] ∅ eq_refl).
  split; intros (pool & Hin & Hlt); exists pool.
  - apply list_elem_of_In in Hin. split; [done|]. rewrite Z.ltb_lt, Hv, app_nil_l, filter_split in Hlt. unfold workers_in. lia.
  - apply list_elem_of_In in Hin. split; [done|]. rewrite Z.ltb_lt, Hv, app_nil_l, filter_split. unfold workers_in in Hlt. lia.
Qed.

(** C39: The gauges of a snapshot are its counts.  What a snapshot records about its pools is,
    pool by pool, what counting the workers in the list gives; and the span of the
    step is classified as transient accounting lag exactly when the lag gauge of some
    pool is one. *)
Theorem snapshot_gauges_exact snapshot :
  (exists before after, recordSnapshot snapshot = before ++ (sn_Pools snapshot ≫= reference_counts snapshot) ++ after
     /\ forall v attrs, Measure transientLag v attrs ∉ before ++ after)
  /\ (snapshotHasTransientAccountingLag snapshot = true <->
      exists attrs, Measure transientLag (IntValue 1) attrs ∈ recordSnapshot snapshot).
Proof.
  assert (Hrec : exists before after, recordSnapshot snapshot = before ++ (sn_Pools snapshot ≫= reference_counts snapshot) ++ after
     /\ forall v attrs, Measure transientLag v attrs ∉ before ++ after).
  { pose proof (count_workers_counted (sn_Pools snapshot) (sn_Workers snapshot) [] _ (initial_counts _)) as Hc.
    unfold recordSnapshot. destruct (fold_left count_worker _ _) as [counts active]. eexists _, _. split.
    - f_equal. f_equal. assert (Hall : forall pools, pools ⊆ sn_Pools snapshot ->
        pools ≫= pool_counts counts active = pools ≫= reference_counts snapshot).
      { intros pools. induction pools as [|p pools IH]; intros Hsub; [done|]. rewrite !bind_cons.
        rewrite (pool_counts_reference snapshot) by (done || apply Hsub; left). f_equal. apply IH. set_solver. }
      by apply Hall.
    - intros v attrs. rewrite elem_of_app. intros [Hin|Hin].
      + apply list_elem_of_bind in Hin as (pool & Hin & _). unfold pool_gauges, recordCapacityCheckpoint in Hin. simpl in Hin.
        destruct (rp_CapacityAcknowledged pool), (rp_AcknowledgementPendingAgeValid pool); simpl in Hin; set_solver.
      + destruct (sn_CheckpointAgeValid snapshot); set_solver. }
  split; [done|]. destruct Hrec as (before & after & -> & Hout). rewrite lag_spec.
  assert (Hone : forall pool attrs, Measure transientLag (IntValue 1) attrs ∈ reference_counts snapshot pool <->
    attrs = [("ci_runner.pool.id", rp_ID pool)]
    /\ workers_in snapshot (rp_ID pool) "busy" + workers_in snapshot (rp_ID pool) "starting" < rp_Assigned pool).
  { intros pool attrs. unfold reference_counts. rewrite !elem_of_cons. case_decide as Hd; split.
    - intros Hm. destruct_or!; simplify_eq; [split; [done|lia]|by apply elem_of_nil in Hm].
    - intros [-> Hlt]. do 8 right. by left.
    - intros Hm. destruct_or!; simplify_eq. by apply elem_of_nil in Hm.
    - intros [_ Hlt]. lia. }
  split.
  - intros (pool & Hin & Hlt). exists [("ci_runner.pool.id", rp_ID pool)]. rewrite !elem_of_app. right. left.
    apply list_elem_of_bind. exists pool. split; [by apply Hone|done].
  - intros (attrs & Hin). rewrite !elem_of_app in Hin.
    destruct Hin as [Hin|[Hin|Hin]]; [exfalso; apply (Hout (IntValue 1) attrs); set_solver| |exfalso; apply (Hout (IntValue 1) attrs); set_solver].
    apply list_elem_of_bind in Hin as (pool & Hin & Hp). exists pool. split; [done|]. by apply Hone in Hin as [_ ?].
Qed.

(** ** The vocabulary of the labels *)

Inductive recorder_op :=
  | OpReconcile (snapshot : ReconcileSnapshot) (err : option error) (elapsed : duration)
  | OpCheckpoint (pools : list CapacityCheckpointPool)
  | OpRegistered (pool tier : string) (d : duration) (outcome : WorkerStartOutcome) (at_ : Z)
  | OpStarted (pool tier : string) (d : duration) (outcome : WorkerStartOutcome) (at_ : Z)
  | OpFinalized (pool : string) (value : WorkerFinalization) (at_ : Z)
  | OpJobStarted (pool : string) (lag : duration) (at_ : Z)
  | OpJobCompleted (pool result : string) (wasAssigned : bool).

Definition record `{Unicode} (op : recorder_op) : list tevent :=
  match op with
  | OpReconcile snapshot err elapsed => EndReconcile snapshot err elapsed
  | OpCheckpoint pools => recordCapacityCheckpoint pools
  | OpRegistered pool tier d outcome at_ => WorkerRegistered pool tier d outcome at_
  | OpStarted pool tier d outcome at_ => WorkerStarted pool tier d outcome at_
  | OpFinalized pool value at_ => WorkerFinalized pool value at_
  | OpJobStarted pool lag at_ => ObserveJobStarted pool lag at_
  | OpJobCompleted pool result wasAssigned => ObserveJobCompleted pool result wasAssigned
  end.

Definition op_pools (op : recorder_op) : list string :=
  match op with
  | OpReconcile snapshot _ _ => map rp_ID (sn_Pools snapshot)
  | OpCheckpoint pools => map cp_ID pools
  | OpRegistered pool _ _ _ _ | OpStarted pool _ _ _ _ | OpFinalized pool _ _ | OpJobStarted pool _ _ | OpJobCompleted pool _ _ => [pool]
  end.

(** The labels of the measurements, other than the pool, and the values each can have. *)
Definition vocabulary : list (string * list string) :=
  [ ("ci_runner.reconcile.result", ["succeeded"; "canceled"; "failed"]);
    ("ci_runner.worker.state", ["starting"; "idle"; "busy"; "unregistered"; "exited"]);
    ("ci_runner.worker.resource.tier", ["default"; "target_override"; "unknown"]);
    ("ci_runner.worker.registration.outcome", ["succeeded"; "failed"; "ambiguous"; "canceled"]);
    ("ci_runner.worker.start.outcome", ["succeeded"; "failed"; "ambiguous"; "canceled"]);
    ("ci_runner.worker.finalization.outcome", ["completed"; "worker_error"; "runtime_error"; "canceled"; "unknown"]);
    ("ci_runner.worker.lifecycle.event", ["registered"; "started"; "finalized"; "job_started"]);
    ("ci_runner.worker.lifecycle.outcome",
     ["succeeded"; "failed"; "ambiguous"; "canceled"; "completed"; "worker_error"; "runtime_error"; "unknown"; "observed"]);
    ("ci_runner.worker.resource.outcome", ["complete"; "partial"; "missing"; "unavailable"; "invalid"]);
    ("ci_runner.job.result", ["succeeded"; "failed"; "canceled"; "skipped"; "other"]);
    ("ci_runner.cancellation.source", ["controller"; "worker_start"; "worker_finalization"; "github_job"]);
    ("ci_runner.cancellation.classification", ["shutdown"; "controller_context"; "assigned"; "before_assignment"]) ].

Definition label_bounded (pools : list string) (l : string * string) : Prop :=
  fst l = "ci_runner.pool.id" /\ snd l ∈ pools \/ exists values, (fst l, values) ∈ vocabulary /\ snd l ∈ values.

Definition labels_bounded (pools : list string) (e : tevent) : Prop :=
  match e with Measure _ _ attrs => Forall (label_bounded pools) attrs | _ => True end.

Lemma label_pool pools id : id ∈ pools -> label_bounded pools ("ci_runner.pool.id", id).
Proof. by left. Qed.

Lemma label_word pools k x values : List.find (fun e => String.eqb (fst e) k) vocabulary = Some (k, values) -> x ∈ values -> label_bounded pools (k, x).
Proof. intros Hf Hx. right. exists values. split; [|done]. apply find_some in Hf as [Hin _]. by apply list_elem_of_In. Qed.

Lemma known_word t words : existsb (String.eqb t) words = true -> t ∈ words.
Proof. intros (x & Hin & Hx%String.eqb_eq)%existsb_exists. subst x. by apply list_elem_of_In. Qed.

Lemma tier_word t : normalizeResourceTier t ∈ ["default"; "target_override"; "unknown"].
Proof. unfold normalizeResourceTier. destruct (existsb _ _) eqn:He; [by apply known_word|set_solver]. Qed.

Lemma resource_outcome_word t : normalizeResourceOutcome t ∈ ["complete"; "partial"; "missing"; "unavailable"; "invalid"].
Proof. unfold normalizeResourceOutcome. destruct (existsb _ _) eqn:He; [by apply known_word|set_solver]. Qed.

Lemma job_result_word `{Unicode} t : normalizeJobResult t ∈ ["succeeded"; "failed"; "canceled"; "skipped"; "other"].
Proof. unfold normalizeJobResult. repeat case_match; set_solver. Qed.

Lemma start_outcome_word o : start_outcome o ∈ ["succeeded"; "failed"; "ambiguous"; "canceled"].
Proof. destruct o; set_solver. Qed.

Lemma finalization_outcome_word o : finalization_outcome o ∈ ["completed"; "worker_error"; "runtime_error"; "canceled"; "unknown"].
Proof. destruct o; set_solver. Qed.

Create HintDb labels discriminated.
#[local] Hint Resolve label_pool tier_word resource_outcome_word job_result_word start_outcome_word finalization_outcome_word list_elem_of_here : labels.
Ltac bounded :=
  repeat first
  [ apply Forall_app; split | apply Forall_cons; split | apply Forall_nil_2
  | exact I | solve [apply label_pool; eauto with labels]
  | eapply label_word; [reflexivity|]; solve [eauto with labels | set_solver] | progress cbn [labels_bounded] ].

Lemma lifecycle_bounded pools pool tier event outcome at_ :
  pool ∈ pools -> event ∈ ["registered"; "started"; "finalized"; "job_started"] ->
  outcome ∈ ["succeeded"; "failed"; "ambiguous"; "canceled"; "completed"; "worker_error"; "runtime_error"; "unknown"; "observed"] ->
  Forall (labels_bounded pools) (recordLifecycleEventTime pool tier event outcome at_).
Proof.
  intros Hp He Ho. unfold recordLifecycleEventTime. bounded.
Qed.

Lemma checkpoint_bounded pools checkpoints :
  (forall c, c ∈ checkpoints -> cp_ID c ∈ pools) -> Forall (labels_bounded pools) (recordCapacityCheckpoint checkpoints).
Proof.
  intros Hp. apply Forall_bind, Forall_forall. intros c Hc. specialize (Hp c Hc). unfold compose, pool_attribute. cbv beta zeta.
  destruct (negb _ && _); [|destruct (cp_CapacityAcknowledged c)]; bounded.
Qed.

Lemma snapshot_bounded snapshot : Forall (labels_bounded (map rp_ID (sn_Pools snapshot))) (recordSnapshot snapshot).
Proof.
  unfold recordSnapshot. destruct (fold_left count_worker _ _) as [counts active].
  assert (Hp : forall p, p ∈ sn_Pools snapshot -> rp_ID p ∈ map rp_ID (sn_Pools snapshot)) by (intros p; apply list_elem_of_fmap_2).
  apply Forall_app. split; [|apply Forall_app; split].
  - apply Forall_bind, Forall_forall. intros p Hin. specialize (Hp p Hin). unfold compose, pool_gauges, pool_attribute.
    apply Forall_app. split; [bounded|]. apply Forall_app. split; [|bounded]. apply checkpoint_bounded. intros c ->%list_elem_of_singleton. done.
  - apply Forall_bind, Forall_forall. intros p Hin. specialize (Hp p Hin). unfold compose, pool_counts, pool_attribute. cbn [map workerStates]. bounded.
  - destruct (sn_CheckpointAgeValid snapshot); bounded.
Qed.

Lemma evidence_bounded pools pool tier outcome evidence :
  pool ∈ pools -> tier ∈ ["default"; "target_override"; "unknown"] ->
  Forall (labels_bounded pools) (recordWorkerResourceEvidence pool tier outcome evidence).
Proof.
  intros Hp Ht. unfold recordWorkerResourceEvidence, pool_attribute. apply Forall_app. split.
  - destruct evidence; bounded.
  - destruct evidence as [e|]; [|constructor]. destruct (existsb _ _); [constructor|].
    unfold unless_missing. repeat (apply Forall_app; split); destruct (existsb _ _); bounded.
Qed.

#[local] Opaque recordLifecycleEventTime recordSnapshot recordWorkerResourceEvidence.

(** The metrics have bounded labels.  Whatever the recorder is told, a runner's name, a
    job's result or an error text included, every label of every measurement is the
    pool it was told about or a word of a fixed vocabulary. *)
Theorem metric_labels_bounded `{Unicode} op i v attrs k x :
  Measure i v attrs ∈ record op -> (k, x) ∈ attrs ->
  k = "ci_runner.pool.id" /\ x ∈ op_pools op \/ exists values, (k, values) ∈ vocabulary /\ x ∈ values.
Proof.
  assert (Hall : Forall (labels_bounded (op_pools op)) (record op)).
  { destruct op as [snapshot err elapsed|pools|pool tier d outcome at_|pool tier d outcome at_|pool value at_|pool lag at_|pool result was];
      cbn [record op_pools].
    - unfold EndReconcile, classifyReconcileResult, cancellation. destruct err as [e|].
      + destruct (is_sentinel errCanceled e); cbn [String.eqb]; bounded; destruct (sn_Valid snapshot); bounded; apply snapshot_bounded.
      + bounded; destruct (sn_Valid snapshot); bounded; apply snapshot_bounded.
    - apply checkpoint_bounded. intros c. apply list_elem_of_fmap_2.
    - unfold WorkerRegistered, pool_attribute. destruct (String.eqb pool ""); [constructor|]. bounded;
        apply lifecycle_bounded; set_solver || (pose proof (start_outcome_word outcome); set_solver).
    - unfold WorkerStarted, pool_attribute, cancellation. destruct (String.eqb pool ""); [constructor|]. bounded;
        [apply lifecycle_bounded; set_solver || (pose proof (start_outcome_word outcome); set_solver)|destruct outcome; bounded].
    - unfold WorkerFinalized, pool_attribute, cancellation. destruct (String.eqb pool ""); [constructor|]. bounded;
        [apply lifecycle_bounded; set_solver || (pose proof (finalization_outcome_word (ClassifyWorkerFinalization value)); set_solver)
        |destruct (ClassifyWorkerFinalization value); bounded
        |destruct (wf_RecordResourceEvidence value); [apply evidence_bounded; [set_solver|apply tier_word]|constructor]].
    - unfold ObserveJobStarted, pool_attribute. destruct (String.eqb pool ""); [constructor|]. bounded. apply lifecycle_bounded; set_solver.
    - unfold ObserveJobCompleted, pool_attribute, cancellation. destruct (String.eqb pool ""); [constructor|]. bounded.
      destruct (negb _), was; bounded. }
  intros Hin Hx. rewrite Forall_forall in Hall. specialize (Hall _ Hin). cbn [labels_bounded] in Hall.
  rewrite Forall_forall in Hall. exact (Hall _ Hx).
Qed.

(** ** The provider *)

(** The exporters that were made, in order. *)
Definition made_exporter (e : event xresp) : option exportSignal :=
  match e with existT (NewExporter signal _ _) None => Some signal | _ => None end.
Definition made (tr : list (event xresp)) : list exportSignal := omap made_exporter tr.

Definition shut_exporter (e : event xresp) : option exportSignal :=
  match e with existT (ShutdownExporter signal) _ => Some signal | _ => None end.

Section Providers.
Context `{Unicode} (lookup : string -> option string) (export : option ExportConfig).

(** The provider keeps the exporters made so far. *)
Definition keeps (before : Provider) (tr : list (event xresp)) (after : Provider) : Prop :=
  pv_Shutdown after = pv_Shutdown before ++ made tr
  /\ pv_Enabled after = (pv_Enabled before || negb (bool_decide (made tr = []))).

Lemma trace_exporter_keeps endpoint p tr p' problems : iruns (trace_exporter lookup export endpoint p) tr (p', problems) -> keeps p tr p'.
Proof.
  unfold trace_exporter, newExporter, xask, keeps. intros Hr. destruct (match export with Some _ => _ | None => _ end) as [protocol|e].
  - apply iruns_inv in Hr as (r & t & -> & Hr). cbn [ibind] in Hr. apply iruns_inv in Hr as [-> Hr].
    destruct r; injection Hr as -> ->; simpl; by rewrite ?app_nil_r, ?orb_false_r, ?orb_true_r.
  - inv_runs. by rewrite app_nil_r, orb_false_r.
Qed.

Lemma metric_exporter_keeps endpoint p tr p' problems : iruns (metric_exporter lookup export endpoint p) tr (p', problems) -> keeps p tr p'.
Proof.
  unfold metric_exporter, newExporter, xask, keeps. intros Hr.
  destruct (match export with Some x => Ok (xc_Protocol x) | None => _ end) as [protocol|e];
    [|inv_runs; by rewrite app_nil_r, orb_false_r].
  destruct (match export with Some x => Ok (xc_MetricExportInterval x) | None => _ end) as [interval|e];
    [|inv_runs; by rewrite app_nil_r, orb_false_r].
  destruct (match export with Some x => Ok (xc_MetricExportTimeout x) | None => _ end) as [timeout|e];
    [|inv_runs; by rewrite app_nil_r, orb_false_r].
  apply iruns_inv in Hr as (r & t & -> & Hr). cbn [ibind] in Hr. destruct r as [e|].
  - inv_runs. by rewrite app_nil_r, orb_false_r.
  - apply iruns_inv in Hr as ([] & t' & -> & Hr). cbn [ibind] in Hr. apply iruns_inv in Hr as [-> Hr].
    injection Hr as -> ->. simpl. by rewrite orb_true_r.
Qed.

Lemma made_app tr1 tr2 : made (tr1 ++ tr2) = made tr1 ++ made tr2.
Proof. unfold made. apply omap_app. Qed.

Lemma keeps_trans p1 t1 p2 t2 p3 : keeps p1 t1 p2 -> keeps p2 t2 p3 -> keeps p1 (t1 ++ t2) p3.
Proof.
  unfold keeps. intros [-> ->] [-> ->]. rewrite made_app, app_assoc. split; [done|]. rewrite <- orb_assoc. f_equal.
  destruct (made t1), (made t2); simpl; done.
Qed.

Lemma create_instruments_makes_none table tr e : iruns (create_instruments table) tr e -> made tr = [].
Proof.
  revert tr. induction table as [|[[kind name] unit] table IH]; intros tr Hr; cbn [create_instruments] in Hr; [by inv_runs|].
  unfold xask in Hr. apply iruns_inv in Hr as (r & t & -> & Hr). cbn [ibind] in Hr. destruct r; [by inv_runs|]. simpl. by apply IH.
Qed.

Lemma build_provider_keeps traces metrics problems tr p problems' :
  iruns (build_provider lookup export traces metrics problems) tr (p, problems') -> keeps (mkProvider false [] false) tr p.
Proof.
  unfold build_provider. intros (t1 & u1 & [p1 e1] & H1 & Hr & ->)%iruns_bind_inv.
  apply iruns_bind_inv in Hr as (t2 & u2 & [p2 e2] & H2 & Hr & ->). cbn [fst snd] in *.
  apply iruns_bind_inv in Hr as (t3 & u3 & recorder & H3 & Hr & ->). unfold newRecorder in H3. apply create_instruments_makes_none in H3.
  assert (Hk : keeps (mkProvider false [] false) (t1 ++ t2) p2).
  { assert (Hnone : forall q, keeps q [] q) by (intros q; split; simpl; by rewrite ?app_nil_r, ?orb_false_r).
    eapply keeps_trans; [destruct traces; [by eapply trace_exporter_keeps|inv_runs; apply Hnone]|].
    destruct metrics; [by eapply metric_exporter_keeps|inv_runs; apply Hnone]. }
  assert (Hrest : made u3 = [] /\ pv_Shutdown p = pv_Shutdown p2 /\ pv_Enabled p = pv_Enabled p2).
  { destruct recorder as [e|]; [by inv_runs|]. cbn [pv_Enabled] in Hr. destruct (pv_Enabled p2); [|by inv_runs].
    unfold xask in Hr. apply iruns_inv in Hr as (probed & t4 & -> & Hr). cbn [ibind] in Hr. destruct probed as [e|].
    - apply iruns_inv in Hr as ([] & t5 & -> & Hr). cbn [ibind] in Hr. by inv_runs.
    - cbn [ibind] in Hr. by inv_runs. }
  destruct Hrest as (Hm & Hs & He). unfold keeps in *. rewrite !made_app, H3, Hm, !app_nil_r, Hs, He, <- made_app. done.
Qed.

Lemma NewFromEnv_keeps host version tr p problems :
  iruns (NewFromEnv lookup export host version) tr (p, problems) -> keeps (mkProvider false [] false) tr p.
Proof.
  unfold NewFromEnv. intros Hr. destruct (_ || _); [by inv_runs|]. destruct export as [x|] eqn:Hx.
  - destruct (_ && _); [by inv_runs|]. rewrite <- Hx in Hr. by eapply build_provider_keeps.
  - destruct (sdkDisabled lookup) as [[]|e]; [by inv_runs| |by inv_runs].
    destruct (_ && _); [by inv_runs|]. rewrite <- Hx in Hr. by eapply build_provider_keeps.
Qed.
End Providers.

Lemma shutdown_calls exporters tr errs : iruns (shutdown_exporters exporters) tr errs -> map shut_exporter tr = map Some exporters.
Proof.
  revert tr errs. induction exporters as [|s exporters IH]; intros tr errs Hr; cbn [shutdown_exporters] in Hr; [by inv_runs|].
  unfold xask in Hr. apply iruns_inv in Hr as (r & t & -> & Hr). cbn [ibind] in Hr.
  apply iruns_bind_inv in Hr as (t1 & t2 & es & H1 & Hr & ->). apply iruns_inv in Hr as [-> _]. rewrite app_nil_r. simpl. f_equal. by eapply IH.
Qed.

(** The provider owns the exporters it made.  Whatever the library answers, the provider
    is enabled exactly when an exporter was made, its shutdown calls every exporter
    that was made exactly once, the last one first, and nothing else; and a reviewed
    export configuration decides alone: the process environment does not matter. *)
Theorem provider_owns_exporters `{Unicode} lookup export host version tr p problems :
  iruns (NewFromEnv lookup export host version) tr (p, problems) ->
  (pv_Enabled p = true <-> made tr <> [])
  /\ (forall tr' e, iruns (Provider_Shutdown p) tr' e -> map shut_exporter tr' = map Some (rev (made tr)))
  /\ (forall x lookup', export = Some x -> NewFromEnv lookup' export host version = NewFromEnv lookup export host version).
Proof.
  intros Hr. destruct (NewFromEnv_keeps _ _ _ _ _ _ _ Hr) as [Hs He]. simpl in Hs, He. split_and!.
  - rewrite He. simpl. rewrite negb_true_iff. apply bool_decide_eq_false.
  - intros tr' e Hd. unfold Provider_Shutdown in Hd. apply iruns_bind_inv in Hd as (t1 & t2 & errs & Hd & Hend & ->).
    apply iruns_inv in Hend as [-> _]. rewrite app_nil_r. rewrite <- Hs. by eapply shutdown_calls.
  - intros x lookup' ->. reflexivity.
Qed.

(** ** Concrete runs *)

Definition sample_export : ExportConfig := mkExportConfig "http://otel:4318" "http/protobuf" true true Minute Second.
Definition library_answers (c : xcall) (_ : list (event xresp)) : xresp c :=
  match c with
  | NewExporter _ _ _ | CreateInstrument _ _ _ | ShutdownExporter _ => None
  | ProbeEndpoint _ _ => Some (ErrNew "refused")
  | NewReader _ _ | MarkUnreachable _ => tt
  end.
Definition sample_provider : list (event xresp) * (Provider * list error) :=
  irun library_answers (NewFromEnv (fun _ => None) (Some sample_export) "host" "1.2.3") [].

Lemma provider_owns_exporters_witness :
  pv_Enabled (fst (snd sample_provider)) = true /\ made (fst sample_provider) = [exportSignalTraces; exportSignalMetrics].
Proof.
  assert (Hm : made (fst sample_provider) = [exportSignalTraces; exportSignalMetrics]) by (vm_compute; reflexivity). split; [|exact Hm].
  assert (Hr : iruns (NewFromEnv (fun _ => None) (Some sample_export) "host" "1.2.3") (fst sample_provider)
                 (fst (snd sample_provider), snd (snd sample_provider))).
  { rewrite <- surjective_pairing. apply (irun_iruns library_answers _ []). apply surjective_pairing. }
  apply (proj2 (proj1 (provider_owns_exporters (fun _ => None) (Some sample_export) "host" "1.2.3" _ _ _ Hr))). by rewrite Hm.
Defined.

Lemma metric_labels_bounded_witness :
  exists values, ("ci_runner.job.result", values) ∈ vocabulary /\ "other" ∈ values.
Proof.
  destruct (metric_labels_bounded (OpJobCompleted "org" "runner-17 exploded" true) jobsCompleted (IntValue 1)
              [("ci_runner.pool.id", "org"); ("ci_runner.job.result", "other")] "ci_runner.job.result" "other") as [[Hk _]|Hv].
  - vm_compute. left.
  - right. left.
  - discriminate Hk.
  - exact Hv.
Defined.

(** The pending age of an acknowledged capacity is reported, as zero, not omitted. *)
Lemma acknowledged_age_is_reported pools pool :
  pool ∈ pools -> cp_CapacityAcknowledged pool = true ->
  Measure acknowledgementPendingAge (FloatValue f64_0) [("ci_runner.pool.id", cp_ID pool)] ∈ recordCapacityCheckpoint pools.
Proof.
  intros Hin Ha. apply list_elem_of_bind. exists pool. split; [|done]. rewrite Ha. simpl. set_solver.
Qed.
