(* ===== verification/WindowsSecurity.v ===== *)
(** The Windows side of the secret store (internal/secret: acl_windows.go, acl_other.go,
    source.go, source_windows.go, source_other.go, bitlocker.go, bitlocker_windows.go,
    dpapi_windows.go): access control lists, the locked key source with its removal by
    identity, the BitLocker query and the memory of the data protection calls.

    Every call of Windows or of package os is a call of the program with an arbitrary
    answer.  A descriptor that was read is data; the calls that look into it can fail.
    That a text with a zero byte has no Windows form is part of the program. *)

From S2P Require Import Prelude Float64 GoStrings Model Config GoText Validate Yaml Errors Effects Reconciler FileSystem Store Interaction Host Artifacts Secret.
From stdpp Require Import pretty.
From Stdlib Require Import Ascii.
#[local] Open Scope Z_scope.
Open Scope i_scope.

(** ** Data *)

Record ACE := mkACE { ace_Type : Z; ace_Flags : Z; ace_Mask : Z; ace_SID : string }.

(** The control bits and the list, if there is one. *)
Record SecurityDescriptor := mkSecurityDescriptor { sd_Control : Z; sd_DACL : option (list ACE) }.

(** What os.Lstat and File.Stat tell: [fi_ID] is what os.SameFile compares. *)
Record SourceInfo := mkSourceInfo { fi_Symlink : bool; fi_Regular : bool; fi_Size : Z; fi_ID : Z }.

(** Memory of Windows that the program frees. *)
Inductive LocalMemory := TextDescriptor | CurrentSID | SystemSID | Blob (contents : string).

(** ** Calls *)

Inductive wcall :=
  | AclStat (path : string)
  | CurrentUser
  | ConvertDescriptor (sddl : string)
  | SetFileSecurity (path sddl : string)
  | LocalFree (m : LocalMemory)
  | SecuritySize (path : string)
  | GetFileSecurity (path : string)
  | DescriptorControl
  | DescriptorDACL
  | GetAce (index : Z)
  | ConvertSid (text : string)
  | Chmod (path : string) (mode : Z)
  | StatMode (path : string)
  | SourceLstat (path : string)
  | CreateFile (path : string)
  | NewFile
  | CloseRawHandle
  | SourceStat
  | CloseFile
  | MarkForDeletion
  | AbsPath (path : string)
  | SystemDirectory (size : Z)
  | ToolStat (path : string)
  | RunTool (executable : string) (arguments : list string)
  | ContextCause
  | CryptProtect (plaintext description entropy : string)
  | CryptUnprotect (ciphertext entropy : string).

(** [SystemDirectory] gives the length and the text in the buffer; [RunTool] the
    combined output and the error; the data protection calls the memory Windows
    returned, if any. *)
Definition wresp (c : wcall) : Type :=
  match c with
  | AclStat _ | ToolStat _ => result error bool
  | CurrentUser | ConvertSid _ | AbsPath _ => result error string
  | GetFileSecurity _ => result error SecurityDescriptor
  | StatMode _ => result error Z
  | SourceLstat _ | SourceStat => result error SourceInfo
  | NewFile => bool
  | SystemDirectory _ => result error (Z * string)
  | RunTool _ _ => string * option error
  | CryptProtect _ _ _ | CryptUnprotect _ _ => result error (option string)
  | ConvertDescriptor _ | SetFileSecurity _ _ | LocalFree _ | SecuritySize _ | DescriptorControl | DescriptorDACL | GetAce _ | Chmod _ _
  | CreateFile _ | CloseRawHandle | CloseFile | MarkForDeletion | ContextCause => option error
  end.

Abbreviation wprog := (iprog wresp).
Definition wask (c : wcall) : wprog (wresp c) := icall c.

(** syscall.UTF16PtrFromString: a text with a zero byte has no form. *)
Fixpoint UTF16Ptr (s : string) : option error :=
  match s with
  | EmptyString => None
  | String a s => if byte_of a =? 0 then Some (ErrNew "invalid argument") else UTF16Ptr s
  end.

Definition freeLocalMemory (m : LocalMemory) : wprog (option error) :=
  let^ freed := wask (LocalFree m) in IRet (ErrWrap "free Windows local memory" <$> freed).

(** A deferred free joins its failure to the result. *)
Definition and_free (m : LocalMemory) (r : option error) : wprog (option error) :=
  let^ freed := freeLocalMemory m in IRet (errors_Join [r; freed]).

(** ** Access control lists *)

Definition securityDescriptorDACLProtected : Z := 4096.
Definition accessAllowedACEType : Z := 0.
Definition objectInheritACE : Z := 1.
Definition containerInheritACE : Z := 2.
Definition fileAllAccess : Z := 2032127.

Definition acl_sddl (directory : bool) (sid : string) : string :=
  let inheritance := if directory then "OICI" else "" in
  "D:P(A;" +:+ inheritance +:+ ";FA;;;SY)(A;" +:+ inheritance +:+ ";FA;;;" +:+ sid +:+ ")".

Definition setFileDACL (path sddl : string) : wprog (option error) :=
  match UTF16Ptr sddl with
  | Some e => IRet (Some (ErrWrap "encode ACL descriptor" e))
  | None =>
      let^ converted := wask (ConvertDescriptor sddl) in
      match converted with
      | Some e => IRet (Some (ErrWrap "convert ACL descriptor" e))
      | None =>
          match UTF16Ptr path with
          | Some e => and_free TextDescriptor (Some (ErrWrap "encode ACL path" e))
          | None =>
              let^ set := wask (SetFileSecurity path sddl) in
              and_free TextDescriptor (ErrWrap "set ACL" <$> set)
          end
      end
  end.

Definition readFileSecurityDescriptor (path : string) : wprog (result error SecurityDescriptor) :=
  match UTF16Ptr path with
  | Some e => IRet (Err e)
  | None =>
      let^ size := wask (SecuritySize path) in
      match size with
      | Some e => IRet (Err (ErrWrap "query security descriptor size" e))
      | None =>
          let^ descriptor := wask (GetFileSecurity path) in
          IRet (match descriptor with Err e => Err (ErrWrap "read file security descriptor" e) | Ok d => Ok d end)
      end
  end.

Definition sidFromString (value : string) : wprog (result error string) :=
  match UTF16Ptr value with
  | Some e => IRet (Err e)
  | None =>
      let^ sid := wask (ConvertSid value) in
      IRet (match sid with Err e => Err (ErrWrap ("convert SID " +:+ Quote value) e) | Ok sid => Ok sid end)
  end.

(** The entries from [index] on, with the counts so far. *)
Fixpoint check_entries (flags : Z) (current system : string) (index : Z) (entries : list ACE) (currentCount systemCount : Z) : wprog (option error) :=
  match entries with
  | [] =>
      IRet (if negb (currentCount =? 1) || negb (systemCount =? 1)
            then Some (ErrNew "ACL must grant exactly one entry each to current user and SYSTEM") else None)
  | ace :: entries =>
      let^ got := wask (GetAce index) in
      match got with
      | Some e => IRet (Some (ErrWrap ("read ACL entry " +:+ pretty index) e))
      | None =>
          if negb (ace_Type ace =? accessAllowedACEType) || negb (ace_Flags ace =? flags) || negb (ace_Mask ace =? fileAllAccess)
          then IRet (Some (ErrNew ("ACL entry " +:+ pretty index +:+ " is not the expected inheritable full-control allow entry")))
          else if String.eqb (ace_SID ace) current then check_entries flags current system (index + 1) entries (currentCount + 1) systemCount
          else if String.eqb (ace_SID ace) system then check_entries flags current system (index + 1) entries currentCount (systemCount + 1)
          else IRet (Some (ErrNew ("ACL entry " +:+ pretty index +:+ " grants an unexpected principal")))
      end
  end.

(** The list of two entries against the two principals. *)
Definition check_principals (currentSID : string) (directory : bool) (entries : list ACE) : wprog (option error) :=
  let^ current := sidFromString currentSID in
  match current with
  | Err e => IRet (Some e)
  | Ok current =>
      let^ checked :=
        (let^ system := sidFromString "S-1-5-18" in
         match system with
         | Err e => IRet (Some e)
         | Ok system =>
             let flags := if directory then Z.lor objectInheritACE containerInheritACE else 0 in
             let^ r := check_entries flags current system 0 entries 0 0 in
             and_free SystemSID r
         end) in
      and_free CurrentSID checked
  end.

Definition verifyFileDACL (path currentSID : string) (directory : bool) : wprog (option error) :=
  let^ read := readFileSecurityDescriptor path in
  match read with
  | Err e => IRet (Some e)
  | Ok d =>
      let^ control := wask DescriptorControl in
      match control with
      | Some e => IRet (Some (ErrWrap "read security descriptor control" e))
      | None =>
          if Z.land (sd_Control d) securityDescriptorDACLProtected =? 0 then IRet (Some (ErrNew "ACL inheritance is not protected"))
          else
            let^ dacl := wask DescriptorDACL in
            match dacl with
            | Some e => IRet (Some (ErrWrap "read security descriptor DACL" e))
            | None =>
                match sd_DACL d with
                | None => IRet (Some (ErrNew "protected ACL has no DACL"))
                | Some entries =>
                    if negb (Nat.eqb (length entries) 2)
                    then IRet (Some (ErrNew ("ACL has " +:+ pretty (Z.of_nat (length entries)) +:+ " entries; expected exactly current user and SYSTEM")))
                    else check_principals currentSID directory entries
                end
            end
      end
  end.

Definition Acl_Harden (path : string) : wprog (option error) :=
  let^ info := wask (AclStat path) in
  match info with
  | Err e => IRet (Some (ErrWrap "inspect ACL target" e))
  | Ok directory =>
      let^ current := wask CurrentUser in
      match current with
      | Err e => IRet (Some (ErrWrap "resolve current Windows identity" e))
      | Ok uid =>
          if String.eqb uid "" then IRet (Some (ErrNew "current Windows identity has no SID"))
          else
            let^ set := setFileDACL path (acl_sddl directory uid) in
            match set with
            | Some e => IRet (Some e)
            | None => verifyFileDACL path uid directory
            end
      end
  end.

Definition Acl_Verify (path : string) : wprog (option error) :=
  let^ info := wask (AclStat path) in
  match info with
  | Err e => IRet (Some (ErrWrap "inspect ACL target" e))
  | Ok directory =>
      let^ current := wask CurrentUser in
      match current with
      | Err e => IRet (Some (ErrWrap "resolve current Windows identity" e))
      | Ok uid => verifyFileDACL path uid directory
      end
  end.

(** The permissions of other systems. *)
Definition Posix_Harden (path : string) : wprog (option error) :=
  let^ info := wask (AclStat path) in
  match info with
  | Err e => IRet (Some e)
  | Ok directory => wask (Chmod path (if directory then 448 else 384))
  end.

Definition Posix_Verify (path : string) : wprog (option error) :=
  let^ info := wask (StatMode path) in
  IRet (match info with
        | Err e => Some e
        | Ok perm =>
            if negb (Z.land perm 63 =? 0) then Some (ErrWrap ("verify private permissions " +:+ path) (ErrNew "permission denied")) else None
        end).

(** ** The source of a key *)

Definition inspectPrivateKeySource (info : SourceInfo) : option error :=
  if fi_Symlink info then Some (ErrNew "private-key source must not be a symbolic link")
  else if negb (fi_Regular info) then Some (ErrNew "private-key source must be a regular file")
  else if fi_Size info =? 0 then Some (ErrNew "private-key source must not be empty")
  else None.

Definition SameFile (a b : SourceInfo) : bool := fi_ID a =? fi_ID b.

Definition verifySourcePathIdentity (path : string) (expected : SourceInfo) : wprog (option error) :=
  let^ current := wask (SourceLstat path) in
  IRet (match current with
        | Err e => Some (ErrWrap "source pathname no longer identifies the opened file" e)
        | Ok current =>
            if fi_Symlink current || negb (SameFile expected current)
            then Some (ErrNew "source pathname identity changed after the file was opened") else None
        end).

(** An open source; [ws_Open] is false once its file was closed. *)
Record WindowsSource := mkWindowsSource { ws_Path : string; ws_Open : bool; ws_Info : SourceInfo }.

Definition reject_source (cause : error) : wprog (result error WindowsSource) :=
  let^ closed := wask CloseFile in
  IRet (Err (match closed with
             | Some e => ErrJoin [cause; ErrWrap "close rejected private-key source" e]
             | None => cause
             end)).

Definition openPrivateKeySource (path : string) : wprog (result error WindowsSource) :=
  let^ before := wask (SourceLstat path) in
  match before with
  | Err e => IRet (Err (ErrWrap "inspect private-key source before locking" e))
  | Ok before =>
      match inspectPrivateKeySource before with
      | Some e => IRet (Err e)
      | None =>
          match UTF16Ptr path with
          | Some e => IRet (Err (ErrWrap "encode private-key source path" e))
          | None =>
              let^ created := wask (CreateFile path) in
              match created with
              | Some e => IRet (Err (ErrWrap "lock private-key source for read and identity-bound deletion" e))
              | None =>
                  let^ adopted := wask NewFile in
                  if negb adopted then let^ _ := wask CloseRawHandle in IRet (Err (ErrNew "adopt private-key source handle"))
                  else
                    let^ opened := wask SourceStat in
                    match opened with
                    | Err e => reject_source (ErrWrap "inspect locked private-key source" e)
                    | Ok opened =>
                        match inspectPrivateKeySource opened with
                        | Some e => reject_source e
                        | None =>
                            if negb (SameFile before opened) then reject_source (ErrNew "private-key source identity changed while acquiring the lock")
                            else
                              let^ identity := verifySourcePathIdentity path opened in
                              match identity with
                              | Some e => reject_source e
                              | None => IRet (Ok (mkWindowsSource path true opened))
                              end
                        end
                    end
              end
          end
      end
  end.

Definition OsErrClosed : error := ErrNew "file already closed".

Definition source_close (s : WindowsSource) : wprog (WindowsSource * option error) :=
  if negb (ws_Open s) then IRet (s, None)
  else let^ closed := wask CloseFile in IRet ({| s with ws_Open := false |}, closed).

Definition source_CommitRemoval (s : WindowsSource) : wprog (WindowsSource * option error) :=
  if negb (ws_Open s) then IRet (s, Some OsErrClosed)
  else
    let^ identity := verifySourcePathIdentity (ws_Path s) (ws_Info s) in
    match identity with
    | Some e => IRet (s, Some e)
    | None =>
        let^ marked := wask MarkForDeletion in
        match marked with
        | Some e => IRet (s, Some (ErrWrap "mark opened source handle for deletion" e))
        | None =>
            let^ closing := source_close s in
            let '(s, closed) := closing in
            match closed with
            | Some e => IRet (s, Some (ErrWrap "close source handle after marking it for deletion" e))
            | None =>
                let^ remains := wask (SourceLstat (ws_Path s)) in
                IRet (s, match remains with
                         | Ok _ => Some (ErrNew "source pathname still exists after identity-bound deletion; it may be a replacement")
                         | Err e => if is_sentinel OsErrNotExist e then None else Some (ErrWrap "verify identity-bound source deletion" e)
                         end)
            end
        end
    end.

(** Other systems refuse every source. *)
Definition posix_openPrivateKeySource (path : string) : wprog (result error WindowsSource) :=
  let^ info := wask (SourceLstat path) in
  IRet (Err (match info with
             | Err e => ErrWrap "inspect private-key source" e
             | Ok info =>
                 match inspectPrivateKeySource info with
                 | Some e => e
                 | None => ErrNew "identity-bound private-key source deletion requires Windows"
                 end
             end)).

(** ** Data protection *)

Definition dpapi_entropy : string := "ci-runner/github-app-key/v1".

Fixpoint zeroed (s : string) : string := match s with EmptyString => "" | String _ s => String (ascii_of_nat 0) (zeroed s) end.

(** The copy, or nothing; the memory is cleared before it is freed when asked for. *)
Definition copyAndFree (data : option string) (clearBeforeFree : bool) : wprog (result error string) :=
  match data with
  | None => IRet (Ok "")
  | Some value =>
      let^ freed := freeLocalMemory (Blob (if clearBeforeFree then zeroed value else value)) in
      IRet (match freed with Some e => Err e | None => Ok value end)
  end.

Definition DPAPI_Protect (plaintext description : string) : wprog (result error string) :=
  if String.eqb plaintext "" then IRet (Err (ErrNew "cannot protect an empty secret"))
  else
    match UTF16Ptr description with
    | Some e => IRet (Err (ErrWrap "encode DPAPI description" e))
    | None =>
        let^ output := wask (CryptProtect plaintext description dpapi_entropy) in
        match output with
        | Err e => IRet (Err (ErrWrap "CryptProtectData" e))
        | Ok data => copyAndFree data false
        end
    end.

Definition DPAPI_Unprotect (ciphertext : string) : wprog (result error string) :=
  if String.eqb ciphertext "" then IRet (Err (ErrNew "cannot unprotect an empty secret"))
  else
    let^ output := wask (CryptUnprotect ciphertext dpapi_entropy) in
    match output with
    | Err e => IRet (Err (ErrWrap "CryptUnprotectData" e))
    | Ok data => copyAndFree data true
    end.
