(* ===== verification/BitLocker.v ===== *)
(** The BitLocker query (internal/secret/bitlocker.go, bitlocker_windows.go): the trusted
    PowerShell, the scripts with their quoting and encoding, the direct query and the
    elevated one. *)

From S2P Require Import Prelude Float64 GoStrings Model Config GoText Validate Yaml Errors Effects Reconciler FileSystem Store Interaction Host Artifacts Secret WindowsSecurity.
From stdpp Require Import pretty.
From Stdlib Require Import Ascii.
#[local] Open Scope Z_scope.
Open Scope i_scope.

(** ** Scripts *)

Definition bitLockerProtectedExit : Z := 0.
Definition bitLockerNotEncryptedExit : Z := 10.
Definition bitLockerProtectionOffExit : Z := 11.
Definition bitLockerQueryFailedExit : Z := 12.
Definition maximumSystemDirectoryLength : Z := 32768.
Definition MAX_PATH : Z := 260.

Definition ascii_letter (a : ascii) : bool :=
  ((65 <=? byte_of a) && (byte_of a <=? 90)) || ((97 <=? byte_of a) && (byte_of a <=? 122)).

Definition windowsDrive (volume : string) : bool :=
  match volume with
  | String a (String b EmptyString) => ascii_letter a && Ascii.eqb b ":"
  | _ => false
  end.

Definition single_quote : ascii := ascii_of_nat 39.
Definition apostrophe : string := String single_quote "".

Fixpoint quotePowerShellLiteral (value : string) : string :=
  match value with
  | EmptyString => ""
  | String a value =>
      if Ascii.eqb a single_quote then String single_quote (String single_quote (quotePowerShellLiteral value))
      else String a (quotePowerShellLiteral value)
  end.

(** A text between single quotes. *)
Definition literal (text : string) : string := apostrophe +:+ text +:+ apostrophe.

Definition preference (name value : string) : string := "$" +:+ name +:+ "Preference=" +:+ literal value +:+ ";".

Definition machineReadablePowerShellPrefix : string :=
  preference "ErrorAction" "Stop" +:+ preference "Progress" "SilentlyContinue" +:+ preference "Warning" "SilentlyContinue"
  +:+ preference "Information" "SilentlyContinue" +:+ preference "Verbose" "SilentlyContinue" +:+ preference "Debug" "SilentlyContinue".

Definition bitLockerQueryScript (volume : string) : string :=
  machineReadablePowerShellPrefix +:+ "$v=Get-BitLockerVolume -MountPoint " +:+ literal volume
  +:+ ";[pscustomobject]@{VolumeStatus=[string]$v.VolumeStatus;ProtectionStatus=[string]$v.ProtectionStatus}|ConvertTo-Json -Compress".

Definition elevatedBitLockerScript (volume : string) : string :=
  machineReadablePowerShellPrefix +:+ "try{$v=Get-BitLockerVolume -MountPoint " +:+ literal (quotePowerShellLiteral volume)
  +:+ ";if([string]$v.VolumeStatus -ne " +:+ literal "FullyEncrypted" +:+ "){exit " +:+ Itoa bitLockerNotEncryptedExit
  +:+ "};if([string]$v.ProtectionStatus -ne " +:+ literal "On" +:+ "){exit " +:+ Itoa bitLockerProtectionOffExit
  +:+ "};exit " +:+ Itoa bitLockerProtectedExit +:+ "}catch{exit " +:+ Itoa bitLockerQueryFailedExit +:+ "}".

Definition elevatedBitLockerLauncherScript (powerShell arguments : string) : string :=
  machineReadablePowerShellPrefix +:+ "$p=Start-Process -FilePath " +:+ literal (quotePowerShellLiteral powerShell)
  +:+ " -Verb RunAs -WindowStyle Hidden -ArgumentList " +:+ literal (quotePowerShellLiteral arguments)
  +:+ " -Wait -PassThru;[Console]::Out.Write([int]$p.ExitCode)".

(** [utf16.Encode] of runes, each two bytes with the low one first. *)
Definition unit_bytes (u : Z) : string :=
  String (ascii_of_N (Z.to_N (u mod 256))) (String (ascii_of_N (Z.to_N (Z.shiftr u 8 mod 256))) "").

Definition rune_units (r : Z) : list Z :=
  if (0 <=? r) && (r <? 55296) || (57344 <=? r) && (r <? 65536) then [r]
  else if (65536 <=? r) && (r <=? 1114111)
       then [55296 + Z.land (Z.shiftr (r - 65536) 10) 1023; 56320 + Z.land (r - 65536) 1023]
       else [RuneError].

Definition encodePowerShell (script : string) : string :=
  base64_EncodeToString (concat_strings (map unit_bytes (runes script ≫= rune_units))).

Definition powerShellArguments (script : string) : list string :=
  ["-NoLogo"; "-NoProfile"; "-NonInteractive"; "-OutputFormat"; "Text"; "-EncodedCommand"; encodePowerShell script].

(** ** The trusted PowerShell *)

(** The loop over buffers of growing size: at most [fuel] calls, [None] when none of
    them ended it.  The next size is a 32-bit number. *)
Fixpoint system_directory (fuel : nat) (size : Z) : wprog (option (result error string)) :=
  match fuel with
  | O => IRet None
  | S fuel =>
      if maximumSystemDirectoryLength <? size
      then IRet (Some (Err (ErrNew "resolve trusted Windows system path: Windows system directory exceeds the safety limit")))
      else
        let^ answer := wask (SystemDirectory size) in
        match answer with
        | Err e => IRet (Some (Err (ErrWrap "GetSystemDirectoryW" e)))
        | Ok (length, value) =>
            if length <? size
            then IRet (Some (if String.eqb value "" then Err (ErrNew "resolve trusted Windows system path: Windows returned an empty system directory")
                             else Ok value))
            else system_directory fuel ((length mod 2 ^ 32 + 1) mod 2 ^ 32)
        end
  end.

Definition system_fuel : nat := Z.to_nat (maximumSystemDirectoryLength - MAX_PATH + 2).

Definition getSystemDirectory : wprog (option (result error string)) := system_directory system_fuel MAX_PATH.

Section Query.
Context `{Platform, FilePath, Volumes}.

Definition powershell_path (systemDirectory : string) : string :=
  filepath_Join (filepath_Join (filepath_Join systemDirectory "WindowsPowerShell") "v1.0") "powershell.exe".

Definition windowsPowerShellPath : wprog (option (result error string)) :=
  let^ directory := getSystemDirectory in
  match directory with
  | None => IRet None
  | Some (Err e) => IRet (Some (Err e))
  | Some (Ok directory) =>
      let powerShell := powershell_path directory in
      if negb (IsAbs powerShell)
      then IRet (Some (Err (ErrNew "resolve trusted Windows system path: Windows returned a non-absolute system directory")))
      else
        let^ info := wask (ToolStat powerShell) in
        IRet (Some (match info with
                    | Err e => Err (ErrWrap "inspect system Windows PowerShell" e)
                    | Ok false => Err (ErrNew "resolve trusted Windows system path: system Windows PowerShell is not a regular file")
                    | Ok true => Ok powerShell
                    end))
  end.

(** ** The answers *)

(** The JSON form of a status. *)
Context (decode_status : string -> result error (string * string)).

Definition parseBitLockerStatus (value : string) : option error :=
  match decode_status value with
  | Err e => Some (ErrWrap "decode BitLocker status" e)
  | Ok (volumeStatus, protectionStatus) =>
      if negb (EqualFold volumeStatus "FullyEncrypted")
      then Some (ErrNew ("BitLocker volume status is " +:+ Quote volumeStatus +:+ ", not FullyEncrypted"))
      else if negb (EqualFold protectionStatus "On")
      then Some (ErrNew ("BitLocker protection status is " +:+ Quote protectionStatus +:+ ", not On"))
      else None
  end.

Definition parseElevatedBitLockerExit (out : string) : option error :=
  match Atoi (TrimSpace out) with
  | None => Some (ErrWrap ("parse elevated BitLocker status exit code " +:+ Quote (TrimSpace out)) (ErrNew "invalid syntax"))
  | Some exitCode =>
      if exitCode =? bitLockerProtectedExit then None
      else if exitCode =? bitLockerNotEncryptedExit then Some (ErrNew "BitLocker volume status is not FullyEncrypted")
      else if exitCode =? bitLockerProtectionOffExit then Some (ErrNew "BitLocker protection status is not On")
      else if exitCode =? bitLockerQueryFailedExit then Some (ErrNew "elevated Get-BitLockerVolume failed")
      else Some (ErrNew ("elevated BitLocker verifier returned unsupported exit code " +:+ Itoa exitCode))
  end.

Definition elevationLaunchError (cause : option error) (runErr : error) (out : string) : error :=
  match cause with
  | Some cause => ErrWrap "elevated Get-BitLockerVolume did not complete" cause
  | None =>
      let detail := TrimSpace out in
      if negb (String.eqb detail "") then ErrWrap ("start elevated Get-BitLockerVolume (" +:+ detail +:+ ")") runErr
      else ErrWrap "start elevated Get-BitLockerVolume (the launcher produced no output)" runErr
  end.

Definition runPowerShell (executable script : string) : wprog (string * option error) := wask (RunTool executable (powerShellArguments script)).

Definition join_words (words : list string) : string := String.concat " " words.

Definition verifyBitLockerElevated (powerShell volume : string) : wprog (option error) :=
  let arguments := join_words (powerShellArguments (elevatedBitLockerScript volume)) in
  let^ answer := runPowerShell powerShell (elevatedBitLockerLauncherScript powerShell arguments) in
  let '(out, failed) := answer in
  match failed with
  | Some e => let^ cause := wask ContextCause in IRet (Some (elevationLaunchError cause e out))
  | None => IRet (parseElevatedBitLockerExit out)
  end.

Definition BitLocker_VerifyProtected (path : string) : wprog (option (option error)) :=
  let^ absolute := wask (AbsPath path) in
  match absolute with
  | Err e => IRet (Some (Some (ErrWrap "resolve secret path" e)))
  | Ok absolute =>
      let volume := VolumeName absolute in
      if negb (windowsDrive volume)
      then IRet (Some (Some (ErrNew ("secret path " +:+ Quote absolute +:+ " is not on a supported local Windows volume"))))
      else
        let^ found := windowsPowerShellPath in
        match found with
        | None => IRet None
        | Some (Err e) => IRet (Some (Some e))
        | Some (Ok powerShell) =>
            let^ direct := runPowerShell powerShell (bitLockerQueryScript volume) in
            let '(out, directErr) := direct in
            match directErr with
            | None => IRet (Some (parseBitLockerStatus out))
            | Some directErr =>
                let^ elevated := verifyBitLockerElevated powerShell volume in
                IRet (Some (match elevated with
                            | None => None
                            | Some e =>
                                let detail := TrimSpace out in
                                let direct := if String.eqb detail "" then error_text directErr else error_text directErr +:+ " (" +:+ detail +:+ ")" in
                                Some (ErrWrap ("query BitLocker status (approve the Administrator UAC prompt when requested): direct query: "
                                               +:+ direct +:+ "; elevated query") e)
                            end))
            end
        end
  end.

End Query.
