(* ===== verification/WindowsSecurityFacts.v ===== *)
(** What the Windows side of the secret store guarantees: which lists pass, which file
    a removal removes, what remains in freed memory, which volumes count as protected,
    and that the queries end and their scripts read as written. *)

From S2P Require Import Prelude Float64 GoStrings Regexp Model Config GoText Validate Yaml Errors Effects Reconciler FileSystem Store Interaction Host Artifacts Secret WindowsSecurity BitLocker.
From stdpp Require Import pretty.
From Stdlib Require Import Ascii.
#[local] Open Scope Z_scope.
Open Scope i_scope.

Ltac run_step H := first [apply iruns_inv in H as (? & ? & -> & H); cbn [ibind] in H | apply iruns_inv in H as [-> ?]; simplify_eq].
Ltac run_as H x := let t := fresh "t" in apply iruns_inv in H as (x & t & -> & H); cbn [ibind] in H.

(** ** Access control lists *)

(** An entry that allows everything and is inherited exactly from a directory. *)
Definition full_control (directory : bool) (a : ACE) : Prop :=
  ace_Type a = 0 /\ ace_Flags a = (if directory then 3 else 0) /\ ace_Mask a = 2032127.

(** A protected list with one entry for each of two principals and nothing else. *)
Definition private_list (directory : bool) (current system : string) (d : SecurityDescriptor) : Prop :=
  Z.testbit (sd_Control d) 12 = true /\ current <> system /\
  exists a b, sd_DACL d = Some [a; b] /\ full_control directory a /\ full_control directory b
    /\ (ace_SID a = current /\ ace_SID b = system \/ ace_SID a = system /\ ace_SID b = current).

Lemma protected_bit control : (Z.land control securityDescriptorDACLProtected =? 0) = negb (Z.testbit control 12).
Proof.
  unfold securityDescriptorDACLProtected. change 4096 with (2 ^ 12). destruct (Z.testbit control 12) eqn:Hb; cbn [negb].
  - apply Z.eqb_neq. intros Hz. apply (f_equal (fun z => Z.testbit z 12)) in Hz. rewrite Z.land_spec, Z.pow2_bits_true, Hb in Hz by lia. by rewrite Z.bits_0 in Hz.
  - apply Z.eqb_eq. apply Z.bits_inj. intros n. rewrite Z.land_spec, Z.bits_0. destruct (Z.eq_dec n 12) as [->|Hne]; [by rewrite Hb|].
    rewrite Z.pow2_bits_eqb by lia. destruct (Z.eqb_spec 12 n); [lia|]. apply andb_false_r.
Qed.

Definition entry_ok (flags : Z) (a : ACE) : bool := (ace_Type a =? 0) && (ace_Flags a =? flags) && (ace_Mask a =? 2032127).

Lemma entry_ok_negb flags a :
  negb (ace_Type a =? accessAllowedACEType) || negb (ace_Flags a =? flags) || negb (ace_Mask a =? fileAllAccess) = negb (entry_ok flags a).
Proof. unfold entry_ok, accessAllowedACEType, fileAllAccess. by destruct (ace_Type a =? 0), (ace_Flags a =? flags), (ace_Mask a =? 2032127). Qed.

Lemma entry_ok_full (directory : bool) a : entry_ok (if directory then 3 else 0) a = true <-> full_control directory a.
Proof. unfold entry_ok, full_control. rewrite !andb_true_iff, !Z.eqb_eq. tauto. Qed.

(** The answers of the two entries that pass. *)
Lemma check_entries_exact flags current system a b tr :
  iruns (check_entries flags current system 0 [a; b] 0 0) tr None <->
  tr = [ev (GetAce 0) None; ev (GetAce 1) None] /\ entry_ok flags a = true /\ entry_ok flags b = true /\ current <> system
  /\ (ace_SID a = current /\ ace_SID b = system \/ ace_SID a = system /\ ace_SID b = current).
Proof.
  cbn [check_entries]. unfold wask. rewrite !entry_ok_negb. split.
  - intros Hr. run_step Hr. destruct x as [e|]; [run_step Hr|]. destruct (entry_ok flags a); cbn [negb] in Hr; [|run_step Hr].
    destruct (String.eqb_spec (ace_SID a) current) as [Ha|Ha].
    + run_step Hr. destruct x as [e|]; [run_step Hr|]. destruct (entry_ok flags b); cbn [negb] in Hr; [|run_step Hr].
      destruct (String.eqb_spec (ace_SID b) current); [run_step Hr|]. destruct (String.eqb_spec (ace_SID b) system); [|run_step Hr].
      run_step Hr. split_and!; [done..|congruence|by left].
    + destruct (String.eqb_spec (ace_SID a) system) as [Hs|]; [|run_step Hr]. run_step Hr. destruct x as [e|]; [run_step Hr|].
      destruct (entry_ok flags b); cbn [negb] in Hr; [|run_step Hr]. destruct (String.eqb_spec (ace_SID b) current).
      * run_step Hr. split_and!; [done..|congruence|by right].
      * destruct (String.eqb_spec (ace_SID b) system); run_step Hr.
  - intros (-> & Ha & Hb & Hne & Hsids). rewrite Ha, Hb. cbn [negb]. constructor. cbn [ibind].
    destruct Hsids as [[-> ->]|[-> ->]]; [rewrite String.eqb_refl|rewrite (proj2 (String.eqb_neq system current)), String.eqb_refl by done].
    + constructor. cbn [ibind]. rewrite (proj2 (String.eqb_neq system current)), String.eqb_refl by done. constructor.
    + constructor. cbn [ibind]. rewrite String.eqb_refl. constructor.
Qed.

(** The calls of a check that passes: everything answered, and every memory freed. *)
Definition acl_trace (path uid : string) (d : SecurityDescriptor) (current system : string) : list (event wresp) :=
  [ev (SecuritySize path) None; ev (GetFileSecurity path) (Ok d); ev DescriptorControl None; ev DescriptorDACL None;
   ev (ConvertSid uid) (Ok current); ev (ConvertSid "S-1-5-18") (Ok system); ev (GetAce 0) None; ev (GetAce 1) None;
   ev (LocalFree SystemSID) None; ev (LocalFree CurrentSID) None].

Lemma and_free_exact m r tr : iruns (and_free m r) tr None <-> tr = [ev (LocalFree m) None] /\ r = None.
Proof.
  unfold and_free, freeLocalMemory, wask. cbn [ibind icall]. split.
  - intros Hr. apply iruns_inv in Hr as (f & t & -> & Hr). apply iruns_inv in Hr as [-> Hr]. destruct r, f; try discriminate Hr. done.
  - intros [-> ->]. constructor. constructor.
Qed.

Lemma iruns_bind_intro {A B} (p : wprog A) (f : A -> wprog B) t1 t2 a b : iruns p t1 a -> iruns (f a) t2 b -> iruns (let^ x := p in f x) (t1 ++ t2) b.
Proof. induction 1 as [|c k r tr a Hr IH]; intros Hf; cbn [ibind app]; [done|]. constructor. by apply IH. Qed.

Lemma verifyFileDACL_exact path uid directory tr :
  iruns (verifyFileDACL path uid directory) tr None <->
  exists d current system, tr = acl_trace path uid d current system /\ UTF16Ptr path = None /\ UTF16Ptr uid = None /\ private_list directory current system d.
Proof.
  unfold verifyFileDACL, readFileSecurityDescriptor, check_principals, sidFromString, wask. change (UTF16Ptr "S-1-5-18") with (@None error). split.
  - intros Hr. destruct (UTF16Ptr path) eqn:Hp; cbn [ibind] in Hr; [run_step Hr|]. run_step Hr. destruct x as [e|]; cbn [ibind] in Hr; [run_step Hr|].
    run_step Hr. destruct x as [d|e]; cbn [ibind] in Hr; [|run_step Hr]. run_step Hr. destruct x as [e|]; [run_step Hr|].
    rewrite protected_bit in Hr. destruct (Z.testbit (sd_Control d) 12) eqn:Hbit; cbn [negb] in Hr; [|run_step Hr].
    run_step Hr. destruct x as [e|]; [run_step Hr|]. destruct (sd_DACL d) as [entries|] eqn:Hd; [|run_step Hr].
    destruct entries as [|a [|b [|c rest]]]; try (cbn [length Nat.eqb negb] in Hr; run_step Hr; fail).
    cbn [length Nat.eqb negb] in Hr. destruct (UTF16Ptr uid) eqn:Hu; cbn [ibind] in Hr; [run_step Hr|]. run_step Hr.
    destruct x as [current|e]; cbn [ibind] in Hr; [|run_step Hr]. run_step Hr. destruct x as [system|e]; cbn [ibind] in Hr.
    2: { apply and_free_exact in Hr as [_ [=]]. }
    apply iruns_bind_inv in Hr as (t1 & t2 & r & Hr & Hf & ->). apply and_free_exact in Hf as [-> ->].
    apply iruns_bind_inv in Hr as (t3 & t4 & r & Hr & Hf & ->). apply and_free_exact in Hf as [-> ->].
    change (Z.lor objectInheritACE containerInheritACE) with 3 in Hr. apply check_entries_exact in Hr as (-> & Ha & Hb & Hne & Hs).
    apply entry_ok_full in Ha, Hb. exists d, current, system. split_and!; [done|done|done|]. split_and!; [done|done|]. eauto 10.
  - intros (d & current & system & -> & Hp & Hu & Hbit & Hne & a & b & Hd & Ha & Hb & Hs). rewrite Hp, Hu. apply entry_ok_full in Ha, Hb.
    do 3 (constructor; cbn [ibind]). rewrite protected_bit, Hbit. cbn [negb]. constructor. cbn [ibind]. rewrite Hd. cbn [length Nat.eqb negb].
    do 2 (constructor; cbn [ibind]). change (Z.lor objectInheritACE containerInheritACE) with 3.
    apply (iruns_bind_intro _ _ [ev (GetAce 0) None; ev (GetAce 1) None; ev (LocalFree SystemSID) None] [ev (LocalFree CurrentSID) None] None).
    + apply (iruns_bind_intro _ _ [ev (GetAce 0) None; ev (GetAce 1) None] [ev (LocalFree SystemSID) None] None); [|by apply and_free_exact].
      by apply check_entries_exact.
    + by apply and_free_exact.
Qed.

Lemma Acl_Harden_private path tr :
  iruns (Acl_Harden path) tr None ->
  exists directory uid d current system, uid <> "" /\ private_list directory current system d
    /\ tr = [ev (AclStat path) (Ok directory); ev CurrentUser (Ok uid); ev (ConvertDescriptor (acl_sddl directory uid)) None;
             ev (SetFileSecurity path (acl_sddl directory uid)) None; ev (LocalFree TextDescriptor) None] ++ acl_trace path uid d current system.
Proof.
  unfold Acl_Harden, setFileDACL, wask. intros Hr. run_step Hr. destruct x as [directory|e]; [|run_step Hr]. run_step Hr. destruct x as [uid|e]; [|run_step Hr].
  destruct (String.eqb_spec uid "") as [|Huid]; [run_step Hr|]. destruct (UTF16Ptr (acl_sddl directory uid)); cbn [ibind] in Hr; [run_step Hr|].
  run_step Hr. destruct x as [e|]; cbn [ibind] in Hr; [run_step Hr|]. apply iruns_bind_inv in Hr as (t1 & t2 & r & Hs & Hr & ->).
  destruct r as [e|]; [run_step Hr|]. destruct (UTF16Ptr path); [by apply and_free_exact in Hs as [_ [=]]|]. cbn [ibind icall] in Hs. run_step Hs.
  apply and_free_exact in Hs as [-> Hs]. destruct x as [e|]; [discriminate Hs|].
  apply verifyFileDACL_exact in Hr as (d & current & system & -> & Hp & Hu & Hl). exists directory, uid, d, current, system. by split_and!.
Qed.

(** C26: The check passes exactly the private lists.  A run of [Verify] ends without error
    exactly when every call answered, every memory was freed and the list it read is
    protected and has one full-control entry each for the current user and SYSTEM,
    inherited in directories, and no other; and [Harden] ends without error only after
    it replaced the list of that path for that user and then read such a list. *)
Theorem acl_passes_private_lists path :
  (forall tr, iruns (Acl_Verify path) tr None <->
     exists directory uid d current system,
       tr = ev (AclStat path) (Ok directory) :: ev CurrentUser (Ok uid) :: acl_trace path uid d current system
       /\ UTF16Ptr path = None /\ UTF16Ptr uid = None /\ private_list directory current system d)
  /\ (forall tr, iruns (Acl_Harden path) tr None ->
     exists directory uid d current system, uid <> "" /\ private_list directory current system d
       /\ tr = [ev (AclStat path) (Ok directory); ev CurrentUser (Ok uid); ev (ConvertDescriptor (acl_sddl directory uid)) None;
                ev (SetFileSecurity path (acl_sddl directory uid)) None; ev (LocalFree TextDescriptor) None] ++ acl_trace path uid d current system).
Proof.
  split; intros tr.
  - unfold Acl_Verify, wask. split.
    + intros Hr. run_step Hr. destruct x as [directory|e]; [|run_step Hr]. run_step Hr. destruct x as [uid|e]; [|run_step Hr].
      apply verifyFileDACL_exact in Hr as (d & current & system & -> & Hp & Hu & Hl). by exists directory, uid, d, current, system.
    + intros (directory & uid & d & current & system & -> & Hp & Hu & Hl). do 2 (constructor; cbn [ibind]). apply verifyFileDACL_exact. eauto 10.
  - apply Acl_Harden_private.
Qed.

(** ** The source of a key *)

Lemma cons_inv {A} (x y : A) l l' : x :: l = y :: l' -> x = y /\ l = l'.
Proof. by intros [= -> ->]. Qed.

(** A regular file with contents, reached without a link. *)
Definition plain_file (i : SourceInfo) : Prop := fi_Symlink i = false /\ fi_Regular i = true /\ fi_Size i <> 0.

Lemma inspect_plain i : inspectPrivateKeySource i = None <-> plain_file i.
Proof.
  unfold inspectPrivateKeySource, plain_file. destruct (fi_Symlink i); [naive_solver|]. destruct (fi_Regular i); cbn [negb]; [|naive_solver].
  destruct (Z.eqb_spec (fi_Size i) 0); naive_solver.
Qed.

Lemma verifySourcePathIdentity_ok path expected tr :
  iruns (verifySourcePathIdentity path expected) tr None ->
  exists current, tr = [ev (SourceLstat path) (Ok current)] /\ fi_Symlink current = false /\ fi_ID current = fi_ID expected.
Proof.
  unfold verifySourcePathIdentity, wask. intros Hr. run_step Hr. apply iruns_inv in Hr as [-> Hr]. destruct x as [current|e]; [|discriminate Hr].
  destruct (fi_Symlink current) eqn:Hs; [discriminate Hr|]. unfold SameFile in Hr. destruct (Z.eqb_spec (fi_ID expected) (fi_ID current)); [|discriminate Hr]. eauto.
Qed.

(** A rejected source was closed. *)
Lemma reject_source_closes cause tr r : iruns (reject_source cause) tr r -> (exists c, tr = [ev CloseFile c]) /\ exists e, r = Err e.
Proof. unfold reject_source, wask. intros Hr. run_step Hr. apply iruns_inv in Hr as [-> ->]. eauto. Qed.

Lemma openPrivateKeySource_ok path tr s :
  iruns (openPrivateKeySource path) tr (Ok s) ->
  exists before opened current,
    tr = [ev (SourceLstat path) (Ok before); ev (CreateFile path) None; ev NewFile true; ev SourceStat (Ok opened); ev (SourceLstat path) (Ok current)]
    /\ s = mkWindowsSource path true opened /\ plain_file before /\ plain_file opened
    /\ fi_Symlink current = false /\ fi_ID before = fi_ID opened /\ fi_ID current = fi_ID opened.
Proof.
  unfold openPrivateKeySource, wask. intros Hr. run_step Hr. destruct x as [before|e]; [|run_step Hr].
  destruct (inspectPrivateKeySource before) eqn:Hb; [run_step Hr|]. apply inspect_plain in Hb. destruct (UTF16Ptr path); [run_step Hr|].
  run_step Hr. destruct x as [e|]; [run_step Hr|]. run_step Hr. destruct x; cbn [negb] in Hr; [|run_step Hr; run_step Hr].
  run_step Hr. destruct x as [opened|e]; [|by apply reject_source_closes in Hr as [_ [? [=]]]].
  destruct (inspectPrivateKeySource opened) eqn:Ho; [by apply reject_source_closes in Hr as [_ [? [=]]]|]. apply inspect_plain in Ho.
  unfold SameFile in Hr. destruct (Z.eqb_spec (fi_ID before) (fi_ID opened)) as [Hid|]; cbn [negb] in Hr; [|by apply reject_source_closes in Hr as [_ [? [=]]]].
  apply iruns_bind_inv in Hr as (t1 & t2 & identity & Hi & Hr & ->). destruct identity as [e|]; [by apply reject_source_closes in Hr as [_ [? [=]]]|].
  apply iruns_inv in Hr as [-> [= ->]]. apply verifySourcePathIdentity_ok in Hi as (current & -> & Hs & Hc). exists before, opened, current. by split_and!.
Qed.

(** The removal removes the file that was read.  An open source is a plain file that the
    path named before and after it was locked; its handle is marked for deletion only
    when the path still names it, without a link; and the removal ends without error
    exactly when the mark and the close succeeded and the path then named nothing. *)
Theorem removal_bound_to_identity path t1 s t2 s' r :
  iruns (openPrivateKeySource path) t1 (Ok s) -> iruns (source_CommitRemoval s) t2 (s', r) ->
  exists before opened locked, plain_file opened /\ fi_ID before = fi_ID opened /\ fi_ID locked = fi_ID opened
    /\ t1 = [ev (SourceLstat path) (Ok before); ev (CreateFile path) None; ev NewFile true; ev SourceStat (Ok opened); ev (SourceLstat path) (Ok locked)]
    /\ (forall m, ev MarkForDeletion m ∈ t2 ->
          exists current rest, t2 = ev (SourceLstat path) (Ok current) :: ev MarkForDeletion m :: rest
            /\ fi_Symlink current = false /\ fi_ID current = fi_ID opened /\ (forall m', ev MarkForDeletion m' ∉ rest))
    /\ (r = None <-> exists current gone, is_sentinel OsErrNotExist gone = true /\ fi_Symlink current = false /\ fi_ID current = fi_ID opened
          /\ t2 = [ev (SourceLstat path) (Ok current); ev MarkForDeletion None; ev CloseFile None; ev (SourceLstat path) (Err gone)]).
Proof.
  intros (before & opened & locked & -> & -> & _ & Ho & _ & Hb & Hl)%openPrivateKeySource_ok Hr. exists before, opened, locked.
  refine (conj Ho (conj Hb (conj Hl (conj eq_refl _)))).
  unfold source_CommitRemoval, source_close, wask in Hr. cbn [ws_Open negb ws_Path ws_Info] in Hr.
  apply iruns_bind_inv in Hr as (t3 & t4 & identity & Hi & Hr & ->). destruct identity as [e|].
  { apply iruns_inv in Hr as [-> [= -> ->]]. rewrite app_nil_r. unfold verifySourcePathIdentity, wask in Hi. run_step Hi. apply iruns_inv in Hi as [-> _].
    split; [intros m Hm; set_solver|]. split; [done|]. by intros (? & ? & _ & _ & _ & [=]). }
  apply verifySourcePathIdentity_ok in Hi as (current & -> & Hs & Hc). run_as Hr marked.
  assert (Honce : forall m', ev MarkForDeletion m' ∉ t).
  { intros m' Hm. destruct marked as [e|]; [apply iruns_inv in Hr as [-> _]; set_solver|]. run_as Hr closed. destruct closed as [e|]; [apply iruns_inv in Hr as [-> _]; set_solver|].
    run_as Hr gone. apply iruns_inv in Hr as [-> _]. set_solver. }
  split; [|split].
  - intros m Hm. cbn [app] in Hm. apply elem_of_cons in Hm as [Hm|Hm]; [discriminate Hm|]. apply elem_of_cons in Hm as [Hm|Hm]; [|by destruct (Honce m)].
    apply (f_equal (fun e : event wresp => match e with existT MarkForDeletion m => m | _ => None end)) in Hm. cbn in Hm. subst m. eauto 10.
  - intros ->. destruct marked as [e|]; [by apply iruns_inv in Hr as [-> [=]]|]. run_as Hr closed. destruct closed as [e|]; [by apply iruns_inv in Hr as [-> [=]]|].
    run_as Hr found. apply iruns_inv in Hr as [-> Hr]. destruct found as [i|gone]; [discriminate Hr|]. destruct (is_sentinel OsErrNotExist gone) eqn:Hg; [|discriminate Hr].
    exists current, gone. by split_and!.
  - intros (current' & gone & Hg & _ & _ & Heq). cbn [app] in Heq. apply cons_inv in Heq as [_ Heq]. apply cons_inv in Heq as [Heq Hrest].
    apply (f_equal (fun e : event wresp => match e with existT MarkForDeletion m => m | _ => None end)) in Heq. cbn in Heq. subst marked.
    run_as Hr closed. apply cons_inv in Hrest as [Hclose Hrest].
    apply (f_equal (fun e : event wresp => match e with existT CloseFile m => m | _ => None end)) in Hclose. cbn in Hclose. subst closed.
    run_as Hr found. apply cons_inv in Hrest as [Hrest ->].
    apply (f_equal (fun e : event wresp => match e with existT (SourceLstat _) m => m | _ => Ok (mkSourceInfo false false 0 0) end)) in Hrest. cbn in Hrest. subst found.
    apply iruns_inv in Hr as [_ Hr]. rewrite Hg in Hr. by injection Hr.
Qed.

(** ** Data protection *)

Lemma zeroed_zero s : string_forall (fun a => byte_of a =? 0) (zeroed s) = true.
Proof. induction s as [|a s IH]; [done|]. cbn [zeroed string_forall]. by rewrite IH. Qed.

(** The memory that held a plaintext is all zero when it is freed, and a plaintext is
    returned only after that. *)
Lemma unprotect_clears_memory ciphertext tr r :
  iruns (DPAPI_Unprotect ciphertext) tr r ->
  (forall contents f, ev (LocalFree (Blob contents)) f ∈ tr -> string_forall (fun a => byte_of a =? 0) contents = true)
  /\ (forall plaintext, r = Ok plaintext -> plaintext <> "" ->
        tr = [ev (CryptUnprotect ciphertext dpapi_entropy) (Ok (Some plaintext)); ev (LocalFree (Blob (zeroed plaintext))) None]).
Proof.
  unfold DPAPI_Unprotect, copyAndFree, freeLocalMemory, wask. intros Hr. destruct (String.eqb ciphertext ""); [apply iruns_inv in Hr as [-> ->]; split; [set_solver|done]|].
  run_as Hr output. destruct output as [[value|]|e]; cbn [ibind] in Hr.
  - run_as Hr freed. apply iruns_inv in Hr as [-> Hr]. split.
    + intros contents f Hin. apply elem_of_cons in Hin as [[=]|Hin]. apply list_elem_of_singleton in Hin.
      apply (f_equal (fun e : event wresp => match projT1 e with LocalFree (Blob c) => c | _ => "" end)) in Hin. cbn in Hin. rewrite Hin. apply zeroed_zero.
    + intros plaintext -> _. destruct freed as [e|]; [discriminate Hr|]. by injection Hr as ->.
  - apply iruns_inv in Hr as [-> ->]. split; [set_solver|]. by intros plaintext [= <-].
  - apply iruns_inv in Hr as [-> ->]. split; [set_solver|done].
Qed.

(** ** BitLocker *)

(** GetSystemDirectoryW answers with a length below the largest 32-bit number. *)
Definition sane_length (e : event wresp) : Prop :=
  match e with existT (SystemDirectory _) (Ok (length, _)) => 0 <= length < 2 ^ 32 - 1 | _ => True end.

Lemma system_directory_ends fuel size tr r :
  Forall sane_length tr -> 0 <= size -> maximumSystemDirectoryLength + 1 < size + Z.of_nat fuel -> (0 < fuel)%nat ->
  iruns (system_directory fuel size) tr r -> exists x, r = Some x.
Proof.
  revert size tr. induction fuel as [|fuel IH]; intros size tr Hsane Hsize Hfuel Hpos Hr; [lia|]. cbn [system_directory] in Hr.
  destruct (Z.ltb_spec maximumSystemDirectoryLength size); [apply iruns_inv in Hr as [_ ->]; eauto|].
  unfold wask in Hr. run_as Hr answer. apply Forall_cons in Hsane as [Ha Hsane]. destruct answer as [[length value]|e]; [|apply iruns_inv in Hr as [_ ->]; eauto].
  cbn in Ha. destruct (Z.ltb_spec length size); [apply iruns_inv in Hr as [_ ->]; eauto|].
  rewrite (Z.mod_small length), Z.mod_small in Hr by lia. eapply IH; [exact Hsane| | | |exact Hr]; lia.
Qed.

Lemma system_fuel_enough : maximumSystemDirectoryLength + 1 < MAX_PATH + Z.of_nat system_fuel /\ (0 < system_fuel)%nat.
Proof. unfold system_fuel, maximumSystemDirectoryLength, MAX_PATH. lia. Qed.
#[local] Opaque system_fuel.

Section BitLocker.
Context `{Platform, FilePath, Volumes} (decode_status : string -> result error (string * string)).

(** The status a query reports, or the exit code the launcher printed. *)
Definition direct_proof (powerShell volume : string) (tr : list (event wresp)) : Prop :=
  exists out status protection, ev (RunTool powerShell (powerShellArguments (bitLockerQueryScript volume))) (out, None) ∈ tr
    /\ decode_status out = Ok (status, protection) /\ EqualFold status "FullyEncrypted" = true /\ EqualFold protection "On" = true.
Definition elevated_proof (powerShell volume : string) (tr : list (event wresp)) : Prop :=
  exists out e exit, ev (RunTool powerShell (powerShellArguments (bitLockerQueryScript volume))) (out, Some e) ∈ tr
    /\ ev (RunTool powerShell (powerShellArguments (elevatedBitLockerLauncherScript powerShell
             (join_words (powerShellArguments (elevatedBitLockerScript volume)))))) (exit, None) ∈ tr
    /\ Atoi (TrimSpace exit) = Some 0.

Lemma parseBitLockerStatus_ok out :
  parseBitLockerStatus decode_status out = None ->
  exists status protection, decode_status out = Ok (status, protection) /\ EqualFold status "FullyEncrypted" = true /\ EqualFold protection "On" = true.
Proof.
  unfold parseBitLockerStatus. destruct (decode_status out) as [[status protection]|e]; [|done].
  destruct (EqualFold status "FullyEncrypted") eqn:Hst; [|done]. destruct (EqualFold protection "On") eqn:Hpr; [|done]. eauto.
Qed.

Lemma parseElevatedBitLockerExit_ok out : parseElevatedBitLockerExit out = None -> Atoi (TrimSpace out) = Some 0.
Proof.
  unfold parseElevatedBitLockerExit. destruct (Atoi (TrimSpace out)) as [n|]; [|done]. destruct (Z.eqb_spec n bitLockerProtectedExit) as [->|]; [done|].
  destruct (n =? bitLockerNotEncryptedExit); [done|]. destruct (n =? bitLockerProtectionOffExit); [done|]. by destruct (n =? bitLockerQueryFailedExit).
Qed.

Lemma windowsPowerShellPath_ok tr r :
  iruns windowsPowerShellPath tr r -> Forall sane_length tr ->
  exists x, r = Some x /\ (forall powerShell, x = Ok powerShell -> IsAbs powerShell = true /\ ev (ToolStat powerShell) (Ok true) ∈ tr).
Proof.
  unfold windowsPowerShellPath, getSystemDirectory. intros (t1 & t2 & directory & Hd & Hr & ->)%iruns_bind_inv [Hs _]%Forall_app.
  destruct system_fuel_enough as [Hf Hpos]. eapply system_directory_ends in Hd as [d ->]; [|done|done|exact Hf|exact Hpos].
  destruct d as [directory|e]; [|apply iruns_inv in Hr as [_ ->]; eexists; split; [done|by intros ? [=]]].
  destruct (IsAbs (powershell_path directory)) eqn:Ha; cbn [negb] in Hr; [|apply iruns_inv in Hr as [_ ->]; eexists; split; [done|by intros ? [=]]].
  unfold wask in Hr. run_as Hr info. apply iruns_inv in Hr as [-> ->]. eexists. split; [done|]. intros powerShell.
  destruct info as [[|]|e]; [|done..]. intros [= <-]. split; [done|]. set_solver.
Qed.

(** Only a protected volume passes, and the query ends.  As long as Windows reports
    lengths of 32 bits, the verification returns; it accepts a path only on a local
    drive, by a PowerShell found as a regular file under an absolute path, when the
    direct query reported FullyEncrypted and On, or failed and the elevated one exited
    with zero. *)
Theorem bitlocker_accepts_protected path tr r :
  iruns (BitLocker_VerifyProtected decode_status path) tr r -> Forall sane_length tr ->
  exists outcome, r = Some outcome
    /\ (outcome = None -> exists absolute powerShell,
          ev (AbsPath path) (Ok absolute) ∈ tr /\ windowsDrive (VolumeName absolute) = true
          /\ IsAbs powerShell = true /\ ev (ToolStat powerShell) (Ok true) ∈ tr
          /\ (direct_proof powerShell (VolumeName absolute) tr \/ elevated_proof powerShell (VolumeName absolute) tr)).
Proof.
  unfold BitLocker_VerifyProtected, wask. intros Hr Hs. run_as Hr absolute. apply Forall_cons in Hs as [_ Hs].
  destruct absolute as [absolute|e]; [|apply iruns_inv in Hr as [_ ->]; by eexists]. destruct (windowsDrive (VolumeName absolute)) eqn:Hd; cbn [negb] in Hr; [|apply iruns_inv in Hr as [_ ->]; by eexists].
  apply iruns_bind_inv in Hr as (t1 & t2 & found & Hf & Hr & ->). apply Forall_app in Hs as [Hs _].
  apply windowsPowerShellPath_ok in Hf as (x & -> & Hx); [|done]. destruct x as [powerShell|e]; [|apply iruns_inv in Hr as [_ ->]; by eexists].
  destruct (Hx _ eq_refl) as [Ha Ht]. unfold runPowerShell, wask in Hr. cbn [icall ibind] in Hr. run_as Hr direct. destruct direct as [out [derr|]].
  - apply iruns_bind_inv in Hr as (t3 & t4 & elevated & He & Hr & ->). apply iruns_inv in Hr as [-> ->]. eexists. split; [done|].
    destruct elevated as [e|]; [done|]. intros _. exists absolute, powerShell. split_and!; [set_solver|done|done|set_solver|right].
    unfold verifyBitLockerElevated, runPowerShell, wask in He. cbn [icall ibind] in He. run_as He answer. destruct answer as [exit [e|]].
    + run_as He cause. apply iruns_inv in He as [_ [=]].
    + apply iruns_inv in He as [-> He]. symmetry in He. apply parseElevatedBitLockerExit_ok in He. exists out, derr, exit. split_and!; [set_solver|set_solver|done].
  - apply iruns_inv in Hr as [-> ->]. eexists. split; [done|]. intros Hp%parseBitLockerStatus_ok. destruct Hp as (status & protection & Hdec & Hst & Hpr).
    exists absolute, powerShell. split_and!; [set_solver|done|done|set_solver|left]. exists out, status, protection. split_and!; [set_solver|done..].
Qed.

Lemma bitlocker_returns path tr r :
  iruns (BitLocker_VerifyProtected decode_status path) tr r -> Forall sane_length tr -> exists outcome, r = Some outcome.
Proof. intros Hr Hs. destruct (bitlocker_accepts_protected _ _ _ Hr Hs) as (o & -> & _). eauto. Qed.

End BitLocker.

(** ** Quoting *)

(** How PowerShell reads a text after a single quote: two quotes are one, one ends it. *)
Fixpoint read_literal (s : string) : option (string * string) :=
  match s with
  | EmptyString => None
  | String a s =>
      if Ascii.eqb a single_quote then
        match s with
        | String b s' => if Ascii.eqb b single_quote then (fun '(v, rest) => (String single_quote v, rest)) <$> read_literal s' else Some ("", s)
        | EmptyString => Some ("", "")
        end
      else (fun '(v, rest) => (String a v, rest)) <$> read_literal s
  end.

Lemma quoted_literal_reads_back value rest :
  match rest with String a _ => Ascii.eqb a single_quote = false | EmptyString => True end ->
  read_literal (quotePowerShellLiteral value +:+ apostrophe +:+ rest) = Some (value, rest).
Proof.
  intros Hrest. induction value as [|a value IH]; cbn [quotePowerShellLiteral].
  - change ("" +:+ apostrophe +:+ rest) with (String single_quote rest). cbn [read_literal]. rewrite Ascii.eqb_refl.
    destruct rest as [|b rest]; [done|]. by rewrite Hrest.
  - destruct (Ascii.eqb_spec a single_quote) as [->|Hne].
    + change (String single_quote (String single_quote (quotePowerShellLiteral value)) +:+ apostrophe +:+ rest)
        with (String single_quote (String single_quote (quotePowerShellLiteral value +:+ apostrophe +:+ rest))).
      cbn [read_literal]. rewrite Ascii.eqb_refl, IH. done.
    + change (String a (quotePowerShellLiteral value) +:+ apostrophe +:+ rest) with (String a (quotePowerShellLiteral value +:+ apostrophe +:+ rest)).
      cbn [read_literal]. destruct (Ascii.eqb_spec a single_quote); [done|]. by rewrite IH.
Qed.
