(* ===== verification/WindowsImport.v ===== *)
(** The import of a key on Windows: the importer of [Secret] with the protector, the
    volume check, the access rules and the locked source of [WindowsSecurity] and
    [BitLocker] in place of its ports, and what the two guarantee together. *)

From S2P Require Import Prelude Float64 GoStrings Regexp Model Config GoText Validate Yaml Errors Effects Reconciler FileSystem Store Interaction Host Artifacts Secret SecretFacts WindowsSecurity BitLocker WindowsSecurityFacts.
From stdpp Require Import pretty.
From Stdlib Require Import Ascii.
#[local] Open Scope Z_scope.
Open Scope i_scope.

#[local] Instance kcall_eq_dec : EqDecision kcall.
Proof. solve_decision. Defined.

(** ** The ports on Windows *)

(** What is left of the importer's calls, the files, the clock and the context, is asked
    for beside Windows. *)
Inductive mcall := OnWindows (c : wcall) | OnStore (c : kcall).
Definition mresp (c : mcall) : Type := match c with OnWindows c => wresp c | OnStore c => kresp c end.
Abbreviation mprog := (iprog mresp).

Fixpoint on_win {A} (p : wprog A) : mprog A :=
  match p with IRet a => IRet a | ICall c k => ICall (OnWindows c) (fun r => on_win (k r)) end.

Section OnWindows.
Context {KT : KeyText} `{Platform, FilePath, Volumes} (decode_status : string -> result error (string * string)).

(** One port, given the source that is open; [None] when a query ran out of fuel. *)
Definition windows_port (s : option WindowsSource) (c : kcall) : mprog (option (kresp c * option WindowsSource)) :=
  match c return mprog (option (kresp c * option WindowsSource)) with
  | VerifyProtected directory =>
      let^ r := on_win (BitLocker_VerifyProtected decode_status directory) in IRet ((fun r => (r, s)) <$> r)
  | OpenSource path =>
      let^ r := on_win (openPrivateKeySource path) in
      IRet (Some (match r with Ok src => (None, Some src) | Err e => (Some e, s) end))
  | ReadSource =>
      match s with
      | Some src => if ws_Open src then let^ r := ICall (OnStore ReadSource) IRet in IRet (Some (r, s)) else IRet (Some (Err OsErrClosed, s))
      | None => IRet (Some (Err OsErrClosed, s))
      end
  | CommitRemoval =>
      match s with
      | Some src => let^ r := on_win (source_CommitRemoval src) in IRet (Some (snd r, Some (fst r)))
      | None => IRet (Some (Some OsErrClosed, s))
      end
  | CloseSource =>
      match s with
      | Some src => let^ r := on_win (source_close src) in IRet (Some (snd r, Some (fst r)))
      | None => IRet (Some (None, s))
      end
  | Protect plaintext description => let^ r := on_win (DPAPI_Protect plaintext description) in IRet (Some (r, s))
  | Unprotect ciphertext => let^ r := on_win (DPAPI_Unprotect ciphertext) in IRet (Some (r, s))
  | HardenSecret path => let^ r := on_win (Acl_Harden path) in IRet (Some (r, s))
  | c => let^ r := ICall (OnStore c) IRet in IRet (Some (r, s))
  end.

Fixpoint on_windows {A} (p : kprog A) (s : option WindowsSource) : mprog (option A) :=
  match p with
  | IRet a => IRet (Some a)
  | ICall c k =>
      let^ answer := windows_port s c in
      match answer with
      | Some (r, s) => on_windows (k r) s
      | None => IRet None
      end
  end.

(** ** Runs *)

Definition win_event (e : event wresp) : event mresp := existT (OnWindows (projT1 e)) (projT2 e).

Lemma on_win_runs {A} (p : wprog A) tr a : iruns (on_win p) tr a -> exists t, iruns p t a /\ tr = map win_event t.
Proof.
  revert tr. induction p as [b|c k IH]; intros tr Hr; cbn [on_win] in Hr.
  - apply iruns_inv in Hr as [-> ->]. exists []. split; [constructor|done].
  - apply iruns_inv in Hr as (r & t & -> & Hr). apply IH in Hr as (t' & Hr & ->). exists (ev c r :: t'). split; [by constructor|done].
Qed.

(** The importer's calls, each with the run of its port. *)
Fixpoint implemented (s : option WindowsSource) (kt : list (event kresp)) (tr : list (event mresp)) : Prop :=
  match kt with
  | [] => tr = []
  | existT c r :: kt => exists seg s' rest, tr = seg ++ rest /\ iruns (windows_port s c) seg (Some (r, s')) /\ implemented s' kt rest
  end.

Definition sane_event (e : event mresp) : Prop :=
  match e with existT (OnWindows c) r => sane_length (existT c r) | _ => True end.

Lemma sane_map t : Forall sane_event (map win_event t) -> Forall sane_length t.
Proof. rewrite Forall_map. intros Hs. eapply Forall_impl; [exact Hs|]. by intros [c r]. Qed.

Lemma windows_port_ends s c seg r : Forall sane_event seg -> iruns (windows_port s c) seg r -> exists x, r = Some x.
Proof.
  intros Hs Hr. destruct c; cbn [windows_port] in Hr; try (apply iruns_inv in Hr as (x & t & -> & Hr); apply iruns_inv in Hr as [_ ->]; eauto; fail).
  - apply iruns_bind_inv in Hr as (t1 & t2 & x & Hx & Hr & ->). apply iruns_inv in Hr as [-> ->]. rewrite app_nil_r in Hs.
    apply on_win_runs in Hx as (t & Hx & ->). apply sane_map in Hs.
    apply bitlocker_returns in Hx as (o & ->); [by eexists|done].
  - apply iruns_bind_inv in Hr as (t1 & t2 & x & Hx & Hr & ->). apply iruns_inv in Hr as [_ ->]. eauto.
  - destruct s as [src|]; [destruct (ws_Open src)|]; [|apply iruns_inv in Hr as [_ ->]; eauto..].
    apply iruns_inv in Hr as (x & t & -> & Hr). apply iruns_inv in Hr as [_ ->]. eauto.
  - destruct s as [src|]; [|apply iruns_inv in Hr as [_ ->]; eauto]. apply iruns_bind_inv in Hr as (t1 & t2 & x & Hx & Hr & ->). apply iruns_inv in Hr as [_ ->]. eauto.
  - destruct s as [src|]; [|apply iruns_inv in Hr as [_ ->]; eauto]. apply iruns_bind_inv in Hr as (t1 & t2 & x & Hx & Hr & ->). apply iruns_inv in Hr as [_ ->]. eauto.
  - apply iruns_bind_inv in Hr as (t1 & t2 & x & Hx & Hr & ->). apply iruns_inv in Hr as [_ ->]. eauto.
  - apply iruns_bind_inv in Hr as (t1 & t2 & x & Hx & Hr & ->). apply iruns_inv in Hr as [_ ->]. eauto.
  - apply iruns_bind_inv in Hr as (t1 & t2 & x & Hx & Hr & ->). apply iruns_inv in Hr as [_ ->]. eauto.
Qed.

(** A run on Windows is a run of the importer whose ports ran on Windows. *)
Lemma on_windows_runs {A} (p : kprog A) s tr r :
  Forall sane_event tr -> iruns (on_windows p s) tr r -> exists kt a, r = Some a /\ iruns p kt a /\ implemented s kt tr.
Proof.
  revert s tr. induction p as [b|c k IH]; intros s tr Hs Hr; cbn [on_windows] in Hr.
  - apply iruns_inv in Hr as [-> ->]. exists [], b. by split_and!; [|constructor|].
  - apply iruns_bind_inv in Hr as (seg & rest & answer & Hp & Hr & ->). apply Forall_app in Hs as [Hs1 Hs2].
    destruct (windows_port_ends _ _ _ _ Hs1 Hp) as [[x s'] ->]. apply IH in Hr as (kt & a & -> & Hk & Hi); [|done].
    exists (ev c x :: kt), a. split_and!; [done|by constructor|]. by exists seg, s', rest.
Qed.

(** ** Only the removal marks the source *)

Definition is_mark (e : event mresp) : bool := match projT1 e with OnWindows MarkForDeletion => true | _ => false end.
Definition marks (e : event wresp) : bool := match projT1 e with MarkForDeletion => true | _ => false end.

Lemma on_win_avoids {A} (p : wprog A) : avoids marks p -> avoids is_mark (on_win p).
Proof.
  intros Hp tr a (t & Hr & ->)%on_win_runs. rewrite Forall_map. eapply Forall_impl; [by eapply Hp|]. by intros [[] r].
Qed.

Lemma check_entries_avoids flags current system index entries n m : avoids marks (check_entries flags current system index entries n m).
Proof.
  revert index n m. induction entries as [|a entries IH]; intros index n m; cbn [check_entries]; [apply avoids_ret|].
  unfold wask. apply avoids_ibind; [apply avoids_call; [done|intros; apply avoids_ret]|]. intros [e|]; [apply avoids_ret|].
  destruct (_ || _); [apply avoids_ret|]. destruct (String.eqb _ _); [apply IH|]. destruct (String.eqb _ _); [apply IH|apply avoids_ret].
Qed.
#[local] Hint Resolve check_entries_avoids : avoids.

Lemma system_directory_avoids fuel size : avoids marks (system_directory fuel size).
Proof.
  revert size. induction fuel as [|fuel IH]; intros size; cbn [system_directory]; [apply avoids_ret|]. destruct (_ <? size); [apply avoids_ret|].
  unfold wask. apply avoids_ibind; [apply avoids_call; [done|intros; apply avoids_ret]|]. intros [[length value]|e]; [|apply avoids_ret].
  destruct (length <? size); [apply avoids_ret|apply IH].
Qed.
#[local] Hint Resolve system_directory_avoids : avoids.

Lemma VerifyProtected_avoids path : avoids marks (BitLocker_VerifyProtected decode_status path).
Proof.
  unfold BitLocker_VerifyProtected, windowsPowerShellPath, getSystemDirectory, verifyBitLockerElevated, runPowerShell, wask, icall. solve_avoids.
Qed.
Lemma openPrivateKeySource_avoids path : avoids marks (openPrivateKeySource path).
Proof. unfold openPrivateKeySource, verifySourcePathIdentity, reject_source, wask, icall. solve_avoids. Qed.
Lemma Acl_Harden_avoids path : avoids marks (Acl_Harden path).
Proof.
  unfold Acl_Harden, setFileDACL, verifyFileDACL, readFileSecurityDescriptor, check_principals, sidFromString, and_free, freeLocalMemory, wask, icall. solve_avoids.
Qed.
Lemma DPAPI_avoids plaintext description ciphertext : avoids marks (DPAPI_Protect plaintext description) /\ avoids marks (DPAPI_Unprotect ciphertext).
Proof. split; unfold DPAPI_Protect, DPAPI_Unprotect, copyAndFree, freeLocalMemory, wask, icall; solve_avoids. Qed.
Lemma source_close_avoids src : avoids marks (source_close src).
Proof. unfold source_close, wask, icall. solve_avoids. Qed.

Lemma windows_port_avoids s c : c <> CommitRemoval -> avoids is_mark (windows_port s c).
Proof.
  intros Hc. destruct c; cbn [windows_port]; try (apply avoids_ibind; [apply avoids_call; [done|intros; apply avoids_ret]|intros; apply avoids_ret]; fail).
  - apply avoids_ibind; [apply on_win_avoids, VerifyProtected_avoids|intros; apply avoids_ret].
  - apply avoids_ibind; [apply on_win_avoids, openPrivateKeySource_avoids|intros; apply avoids_ret].
  - destruct s as [src|]; [destruct (ws_Open src)|]; [|apply avoids_ret..]. apply avoids_ibind; [apply avoids_call; [done|intros; apply avoids_ret]|intros; apply avoids_ret].
  - done.
  - destruct s as [src|]; [|apply avoids_ret]. apply avoids_ibind; [apply on_win_avoids, source_close_avoids|intros; apply avoids_ret].
  - apply avoids_ibind; [apply on_win_avoids, (DPAPI_avoids _ _ "")|intros; apply avoids_ret].
  - apply avoids_ibind; [apply on_win_avoids, (DPAPI_avoids "" "")|intros; apply avoids_ret].
  - apply avoids_ibind; [apply on_win_avoids, Acl_Harden_avoids|intros; apply avoids_ret].
Qed.

Lemma implemented_marks s kt tr e : implemented s kt tr -> e ∈ tr -> is_mark e = true -> exists x, ev CommitRemoval x ∈ kt.
Proof.
  revert s tr. induction kt as [|[c r] kt IH]; intros s tr; cbn [implemented]; [intros -> ?%elem_of_nil; done|].
  intros (seg & s' & rest & -> & Hp & Hi) [Hin|Hin]%elem_of_app Hm.
  - destruct (decide (c = CommitRemoval)) as [->|Hc]; [exists r; left|].
    apply (windows_port_avoids s c Hc) in Hp. rewrite Forall_forall in Hp. specialize (Hp _ Hin). congruence.
  - destruct (IH _ _ Hi Hin Hm) as [x Hx]. exists x. by right.
Qed.

Lemma store_port_inv (s s' : option WindowsSource) c (r : kresp c) seg :
  iruns (let^ r := ICall (OnStore c) IRet in IRet (Some (r, s)) : mprog (option (kresp c * option WindowsSource))) seg (Some (r, s')) -> seg = [existT (OnStore c) r] /\ s' = s.
Proof. intros Hr. apply iruns_inv in Hr as (x & t & -> & Hr). cbn [ibind] in Hr. apply iruns_inv in Hr as [-> [= -> ->]]. done. Qed.

Lemma win_port_inv {A} (p : wprog A) (s s' : option WindowsSource) (r : A) seg :
  iruns (let^ r := on_win p in IRet (Some (r, s))) seg (Some (r, s')) -> exists t, iruns p t r /\ seg = map win_event t /\ s' = s.
Proof.
  intros (t1 & t2 & x & Hx & Hr & ->)%iruns_bind_inv. apply iruns_inv in Hr as [-> [= -> ->]]. apply on_win_runs in Hx as (t & Hx & ->).
  exists t. by rewrite app_nil_r.
Qed.

Lemma verify_port_inv directory (s s' : option WindowsSource) (r : option error) seg :
  iruns (windows_port s (VerifyProtected directory)) seg (Some (r, s')) ->
  exists t, iruns (BitLocker_VerifyProtected decode_status directory) t (Some r) /\ seg = map win_event t /\ s' = s.
Proof.
  intros (t1 & t2 & x & Hx & Hr & ->)%iruns_bind_inv. apply iruns_inv in Hr as [-> Hr]. destruct x as [o|]; [|discriminate Hr].
  injection Hr as -> ->. apply on_win_runs in Hx as (t & Hx & ->). exists t. by rewrite app_nil_r.
Qed.

Lemma open_port_inv path (s s' : option WindowsSource) seg :
  iruns (windows_port s (OpenSource path)) seg (Some (None, s')) ->
  exists t src, iruns (openPrivateKeySource path) t (Ok src) /\ seg = map win_event t /\ s' = Some src.
Proof.
  intros (t1 & t2 & x & Hx & Hr & ->)%iruns_bind_inv. apply iruns_inv in Hr as [-> Hr]. destruct x as [src|e]; [|discriminate Hr].
  injection Hr as ->. apply on_win_runs in Hx as (t & Hx & ->). exists t, src. by rewrite app_nil_r.
Qed.

Lemma commit_port_inv src (s' : option WindowsSource) (r : option error) seg :
  iruns (windows_port (Some src) CommitRemoval) seg (Some (r, s')) ->
  exists t src', iruns (source_CommitRemoval src) t (src', r) /\ seg = map win_event t.
Proof.
  intros (t1 & t2 & x & Hx & Hr & ->)%iruns_bind_inv. apply iruns_inv in Hr as [-> Hr]. injection Hr as -> _. destruct x as [src' r'].
  apply on_win_runs in Hx as (t & Hx & ->). exists t, src'. by rewrite app_nil_r.
Qed.

(** What was established before the source is marked for deletion, of the events before. *)
Definition source_unchanged (sourcePath : string) (before : list (event mresp)) : Prop :=
  exists start opened current, plain_file opened /\ fi_Symlink current = false /\ fi_ID current = fi_ID opened
    /\ before = start ++ [existT (OnWindows (SourceLstat sourcePath)) (Ok current)] /\ win_event (ev SourceStat (Ok opened)) ∈ start.

Definition volume_protected (path : string) (before : list (event mresp)) : Prop :=
  exists w absolute powerShell, map win_event w ⊆ before /\ ev (AbsPath path) (Ok absolute) ∈ w /\ windowsDrive (VolumeName absolute) = true
    /\ (direct_proof decode_status powerShell (VolumeName absolute) w \/ elevated_proof powerShell (VolumeName absolute) w).

Definition made_private (path : string) (before : list (event mresp)) : Prop :=
  exists directory uid d current system, private_list directory current system d
    /\ win_event (ev (SetFileSecurity path (acl_sddl directory uid)) None) ∈ before /\ win_event (ev (GetFileSecurity path) (Ok d)) ∈ before.

Definition key_recovered (path : string) (before : list (event mresp)) : Prop :=
  exists raw original encoded value plaintext key,
    existT (OnStore ReadSource) (Ok raw) ∈ before /\ parseRSAPrivateKey raw = Ok original /\ 2048 <= BitLen original
    /\ existT (OnStore (ReadSecret path)) (Ok encoded) ∈ before /\ open_envelope encoded = Ok value
    /\ ParsePKCS8 plaintext = Ok (Some key) /\ ValidateKey key = None /\ publicKeyFingerprint key = publicKeyFingerprint original
    /\ (plaintext <> "" -> win_event (ev (CryptUnprotect (en_Ciphertext value) dpapi_entropy) (Ok (Some plaintext))) ∈ before
                          /\ win_event (ev (LocalFree (Blob (zeroed plaintext))) None) ∈ before).

(** The stages of an import that removes the source, with what each established. *)
Lemma import_segments dir complete sourcePath destinationPath kt tr a x :
  iruns (Import dir complete sourcePath destinationPath) kt a -> ev CommitRemoval x ∈ kt -> implemented None kt tr -> Forall sane_event tr ->
  exists pre opening src commit src' post,
    tr = pre ++ map win_event commit ++ post /\ Forall (fun e => is_mark e = false) pre /\ Forall (fun e => is_mark e = false) post
    /\ iruns (openPrivateKeySource sourcePath) opening (Ok src) /\ map win_event opening ⊆ pre
    /\ iruns (source_CommitRemoval src) commit (src', x)
    /\ volume_protected (dir destinationPath) pre /\ made_private (dir destinationPath) pre /\ made_private destinationPath pre
    /\ key_recovered destinationPath pre.
Proof.
  intros Hk Hx Hi Hs.
  destruct (commit_sequence _ _ _ _ _ _ _ Hk Hx) as (p & raw & der & protected & encoded & value & plaintext & key & closed & -> & Hparse & Hbits & Hfp & Hopen & _ & Hpk & Hvalid & Hfp').
  cbn [implemented] in Hi.
  destruct Hi as (g1 & s1 & r1 & -> & P1 & g2 & s2 & r2 & -> & P2 & g3 & s3 & r3 & -> & P3 & g4 & s4 & r4 & -> & P4 & g5 & s5 & r5 & -> & P5 & g6 & s6 & r6 & -> & P6 & g7 & s7 & r7 & -> & P7 & g8 & s8 & r8 & -> & P8 & g9 & s9 & r9 & -> & P9 & g10 & s10 & r10 & -> & P10 & g11 & s11 & r11 & -> & P11 & g12 & s12 & r12 & -> & P12 & g13 & s13 & r13 & -> & P13 & g14 & s14 & r14 & -> & P14 & g15 & s15 & r15 & -> & P15 & g16 & s16 & r16 & -> & P16 & g17 & s17 & r17 & -> & P17 & ->).
  assert (Hno : forall s c g y, c <> CommitRemoval -> iruns (windows_port s c) g y -> Forall (fun e => is_mark e = false) g) by (intros s c g y Hc; by apply windows_port_avoids).
  assert (Hpre : Forall (fun e => is_mark e = false) (g1 ++ g2 ++ g3 ++ g4 ++ g5 ++ g6 ++ g7 ++ g8 ++ g9 ++ g10 ++ g11 ++ g12 ++ g13 ++ g14 ++ g15)).
  { rewrite !Forall_app. split_and!; (eapply Hno; [|eassumption]; done). }
  pose proof (Hno _ _ _ _ (ltac:(done) : CloseSource <> CommitRemoval) P17) as Hpost.
  apply verify_port_inv in P1 as (w1 & P1 & -> & ->). apply open_port_inv in P2 as (w2 & src & P2 & -> & ->).
  pose proof (openPrivateKeySource_ok _ _ _ P2) as (_ & opened & _ & _ & Hsrc & _).
  cbn [windows_port] in P3. rewrite Hsrc in P3. cbn [ws_Open] in P3. rewrite <- Hsrc in P3. apply store_port_inv in P3 as [-> ->].
  cbn [windows_port] in P4, P5, P6, P7, P8, P9, P10, P11, P12, P13, P14, P15.
  apply store_port_inv in P5 as [-> ->], P6 as [-> ->], P8 as [-> ->], P9 as [-> ->], P10 as [-> ->], P11 as [-> ->], P13 as [-> ->], P15 as [-> ->].
  apply win_port_inv in P4 as (w4 & _ & -> & ->). apply win_port_inv in P7 as (w7 & P7 & -> & ->). apply win_port_inv in P12 as (w12 & P12 & -> & ->). apply win_port_inv in P14 as (w14 & P14 & -> & ->).
  apply commit_port_inv in P16 as (w16 & src' & P16 & ->).
  set (pre := map win_event w1 ++ _) in Hpre. exists pre, w2, src, w16, src', g17.
  assert (Hsub : forall w e, w = w1 \/ w = w2 \/ w = w7 \/ w = w12 \/ w = w14 -> e ∈ w -> win_event e ∈ pre).
  { intros w e Hw He. apply (list_elem_of_fmap_2 win_event) in He. unfold pre. rewrite !elem_of_app. naive_solver. }
  assert (Hall : forall w, w = w1 \/ w = w2 -> map win_event w ⊆ pre) by (intros w Hw e' (e & -> & He)%list_elem_of_fmap; apply (Hsub w); tauto).
  assert (Hprivate : forall path w, w = w7 \/ w = w12 -> iruns (Acl_Harden path) w None -> made_private path pre).
  { intros path w Hw Hh. destruct (Acl_Harden_private _ _ Hh) as (directory & uid & d & current & system & _ & Hl & Heq).
    exists directory, uid, d, current, system. split; [done|]. split; (apply (Hsub w); [tauto|]); rewrite Heq; [do 3 right; left|do 6 right; left]. }
  refine (conj _ (conj Hpre (conj Hpost (conj P2 (conj _ (conj P16 (conj _ (conj _ (conj _ _))))))))).
  - unfold pre. by rewrite <- !app_assoc, app_nil_r.
  - apply Hall. tauto.
  - apply Forall_app in Hs as [Hs1 _]. apply sane_map in Hs1. destruct (bitlocker_accepts_protected _ _ _ _ P1 Hs1) as (o & [= <-] & Ho).
    destruct (Ho eq_refl) as (absolute & powerShell & Habs & Hdrive & _ & _ & Hproof). exists w1, absolute, powerShell. split_and!; [apply Hall; tauto|done..].
  - eapply Hprivate; [|exact P7]. tauto.
  - eapply Hprivate; [|exact P12]. tauto.
  - exists raw, (pr_key p), encoded, value, plaintext, key. split_and!; try done; [unfold pre; rewrite !elem_of_app, !list_elem_of_singleton; tauto..|congruence|].
    intros Hne. apply unprotect_clears_memory in P14 as [_ P14]. specialize (P14 _ eq_refl Hne). split; (apply (Hsub w14); [tauto|]); rewrite P14; [left|right; left].
Qed.

Lemma proofs_grow path pre before :
  pre ⊆ before -> (volume_protected path pre -> volume_protected path before) /\ (made_private path pre -> made_private path before)
  /\ (key_recovered path pre -> key_recovered path before).
Proof.
  intros Hsub. split_and!.
  - intros (w & absolute & powerShell & Hw & Hrest). exists w, absolute, powerShell. split; [set_solver|done].
  - intros (directory & uid & d & current & system & Hl & H3 & H4). exists directory, uid, d, current, system. split_and!; [done|set_solver..].
  - intros (raw & original & encoded & value & plaintext & key & H3 & H4 & H5 & H6 & H7 & H8 & H9 & H10 & H11).
    exists raw, original, encoded, value, plaintext, key. split_and!; try done; [set_solver..|]. intros Hne. destruct (H11 Hne). split; set_solver.
Qed.


End OnWindows.

(** ** An import that succeeds *)

Module WindowsImportSamples.

#[local] Existing Instance SecretSamples.toy.
#[local] Instance import_platform : Platform := {| write_through := false; Separator := "\"%char |}.
#[local] Instance import_paths : FilePath := {| IsAbs := fun p => HasPrefix p "C:\"; Clean := fun p => p |}.
#[local] Instance import_volumes : Volumes := {| VolumeName := fun _ => "C:"; sameWord := String.eqb |}.

Definition sample_status (text : string) : result error (string * string) := Ok ("fullyencrypted", "ON").
Definition source_file : SourceInfo := mkSourceInfo false true 3 7.
Definition private_descriptor : SecurityDescriptor := mkSecurityDescriptor 37892 (Some [mkACE 0 3 2032127 "S-1-5-18"; mkACE 0 3 2032127 "S-1-5-21"]).

(** The source is gone once it was marked; every path is a directory here. *)
Definition windows_answers (c : wcall) (marked : bool) : wresp c :=
  match c with
  | AclStat _ | ToolStat _ => Ok true
  | CurrentUser => Ok "S-1-5-21"
  | ConvertSid text | AbsPath text => Ok text
  | GetFileSecurity _ => Ok private_descriptor
  | StatMode _ => Ok 448
  | SourceLstat _ => if marked then Err OsErrNotExist else Ok source_file
  | SourceStat => Ok source_file
  | NewFile => true
  | SystemDirectory _ => Ok (19, "C:\Windows\System32")
  | RunTool _ _ => ("{}", None)
  | CryptProtect _ _ _ => Ok (Some "sealed")
  | CryptUnprotect _ _ => Ok (Some "key")
  | ConvertDescriptor _ | SetFileSecurity _ _ | LocalFree _ | SecuritySize _ | DescriptorControl | DescriptorDACL | GetAce _ | Chmod _ _
  | CreateFile _ | CloseRawHandle | CloseFile | MarkForDeletion | ContextCause => None
  end.

Definition import_answers (c : mcall) (tr : list (event mresp)) : mresp c :=
  match c with
  | OnWindows c => windows_answers c (existsb is_mark tr)
  | OnStore c => SecretSamples.honest c []
  end.

Definition windows_sample : list (event mresp) * option (result error SecretResult) :=
  irun import_answers (on_windows sample_status (Import SecretSamples.sample_dir true "key.pem" "C:\secrets\app.dpapi") None) [].

Definition sane_eventb (e : event mresp) : bool :=
  match e with existT (OnWindows (SystemDirectory _)) (Ok (n, _)) => (0 <=? n) && (n <? 2 ^ 32 - 1) | _ => true end.

Lemma sane_eventb_ok tr : forallb sane_eventb tr = true -> Forall sane_event tr.
Proof.
  intros Hb. apply Forall_forall. intros [c r] Hin. rewrite forallb_forall in Hb. specialize (Hb _ (proj1 (list_elem_of_In _ _) Hin)).
  destruct c as [c|c]; [|done]. destruct c; try done. destruct r as [[n v]|e]; [|done]. cbn in Hb |- *. apply andb_true_iff in Hb as [?%Z.leb_le ?%Z.ltb_lt]. lia.
Qed.


End WindowsImportSamples.
