(* ===== verification/WindowsHost.v ===== *)
(** The Windows side of the host (internal/host/*_windows.go, command.go, presence.go):
    the trusted executables, Docker Desktop, the engine and WSL as the controller asks
    for them, the scheduled task, the watched process, the registry's reboot signals and
    the monitors.

    Calls of Windows, of the Docker engine and of child processes are calls of the
    program with arbitrary answers.  [on_host] runs any program of [Host] with these
    adapters in place of its ports. *)

From S2P Require Import Prelude Float64 GoStrings Regexp Model Config GoText Validate Errors Effects Reconciler FileSystem Store Interaction Host Artifacts Watchdog Secret Cli Doctor Inspector WindowsSecurity.
From stdpp Require Import pretty.
From Stdlib Require Import Ascii.
#[local] Open Scope Z_scope.
Open Scope i_scope.

(** ** Calls *)

(** A container as the engine lists it. *)
Record Summary := mkSummary { su_ID : string; su_Names : list string; su_Image : string; su_Status : string; su_Labels : gmap string string }.

(** A failed command: its error, and whether the process ran and exited. *)
Record CommandFailure := mkCommandFailure { cf_Error : error; cf_Exited : bool }.

Inductive ProcessWait := ProcessSignalled | ProcessTimeout | ProcessWaitFailed (e : error).

(** Whose context is asked for its error: the one a query of Docker Desktop or of the
    engine was given, which a verification or an inventory makes for that query alone,
    or the one of another caller. *)
Inductive ContextOwner := DesktopQueryContext | EngineQueryContext | CallerContext.

Inductive tcall :=
  | SystemFolder
  | ProgramFilesFolder
  | FileAttributes (path : string)
  | ExecutableLstat (path : string)
  | Exec (executable : string) (arguments : list string)
  | HostContext (owner : ContextOwner)
  | DialEngine
  | EngineInfo
  | EngineList
  | CloseEngine
  | OpenKey (path : string)
  | KeyStrings (value : string)
  | CloseKey
  | OpenProcess (pid : Z)
  | WaitProcess
  | ProcessExitCode
  | CloseProcess
  | LastInput
  | TickCount
  | PowerStatus
  | MemoryStatus
  | SystemTimes
  | HostSleep (interval : duration)
  | HostNow.

(** [EngineInfo] gives the engine's memory; [ExecutableLstat] whether the file is
    regular; [SystemTimes] the idle, kernel and user ticks. *)
Definition tresp (c : tcall) : Type :=
  match c with
  | SystemFolder | ProgramFilesFolder => result error string
  | FileAttributes _ | EngineInfo | ProcessExitCode | LastInput | PowerStatus => result error Z
  | ExecutableLstat _ => result error bool
  | Exec _ _ => string * option CommandFailure
  | EngineList => result error (list Summary)
  | KeyStrings _ => result error (list string)
  | WaitProcess => ProcessWait
  | TickCount | HostNow => Z
  | MemoryStatus => result error (Z * Z)
  | SystemTimes => result error (Z * Z * Z)
  | HostContext _ | DialEngine | CloseEngine | OpenKey _ | CloseKey | OpenProcess _ | CloseProcess | HostSleep _ => option error
  end.

Abbreviation tprog := (iprog tresp).
Definition task (c : tcall) : tprog (tresp c) := icall c.

(** ** Trusted executables *)

Section Tools.
Context `{Platform, FilePath, Volumes}.

Definition resolveExecutable (path : string) (fallback : tprog (result error string)) : tprog (result error string) :=
  if negb (String.eqb path "") then IRet (Ok path) else fallback.

(** Every component of the path, from the volume on. *)
Fixpoint trusted_components (current : string) (components : list string) : tprog (option error) :=
  match components with
  | [] => IRet None
  | component :: components =>
      let current := filepath_Join current component in
      match UTF16Ptr current with
      | Some e => IRet (Some (ErrWrap ("encode trusted executable component " +:+ Quote current) e))
      | None =>
          let^ attributes := task (FileAttributes current) in
          match attributes with
          | Err e => IRet (Some (ErrWrap ("inspect trusted executable component " +:+ Quote current) e))
          | Ok attributes =>
              if has_reparse_attribute attributes
              then IRet (Some (ErrNew ("trusted executable component " +:+ Quote current +:+ " is a reparse point")))
              else trusted_components current components
          end
      end
  end.

Definition verifyTrustedExecutable (path : string) : tprog (result error string) :=
  let clean := Clean path in
  let volume := VolumeName clean in
  if negb (IsAbs clean) || String.eqb volume "" || HasPrefix volume "\\"
  then IRet (Err (ErrNew ("trusted executable path " +:+ Quote clean +:+ " is not an absolute local-drive path")))
  else
    let^ checked := trusted_components (volume +:+ String Separator "") (path_components clean) in
    match checked with
    | Some e => IRet (Err e)
    | None =>
        let^ info := task (ExecutableLstat clean) in
        IRet (match info with
              | Err e => Err (ErrWrap ("inspect trusted executable " +:+ Quote clean) e)
              | Ok false => Err (ErrNew ("trusted executable " +:+ Quote clean +:+ " is not a regular file"))
              | Ok true => Ok clean
              end)
    end.

(** filepath.Base leaves a name as it is exactly when it has no volume and no separator
    and is not empty. *)
Definition base_name (name : string) : bool :=
  negb (String.eqb name "") && String.eqb (VolumeName name) "" && negb (ContainsAny name ["/"%char; "\"%char]).

Definition trustedSystemExecutable (name : string) : tprog (result error string) :=
  if negb (base_name name) then IRet (Err (ErrNew "system executable name must be a base name"))
  else
    let^ directory := task SystemFolder in
    match directory with
    | Err e => IRet (Err (ErrWrap "resolve Windows system directory" e))
    | Ok directory => verifyTrustedExecutable (filepath_Join directory name)
    end.

Definition docker_path (programFiles : string) : string :=
  filepath_Join (filepath_Join (filepath_Join (filepath_Join (filepath_Join programFiles "Docker") "Docker") "resources") "bin") "docker.exe".

Definition trustedDockerDesktopExecutable : tprog (result error string) :=
  let^ folder := task ProgramFilesFolder in
  match folder with
  | Err e => IRet (Err (ErrWrap "resolve Program Files" e))
  | Ok folder => verifyTrustedExecutable (docker_path folder)
  end.

(** ** Commands *)

Definition command_Run (executable : string) (arguments : list string) : tprog (string * option CommandFailure) :=
  let^ ran := task (Exec executable arguments) in
  let '(out, failed) := ran in
  IRet (out, (fun f => mkCommandFailure (ErrWrap ("run " +:+ executable) (cf_Error f)) (cf_Exited f)) <$> failed).

(** Runs a tool and keeps only its error. *)
Definition run_tool (resolve : tprog (result error string)) (arguments : list string) (label : error -> error) : tprog (option error) :=
  let^ executable := resolve in
  match executable with
  | Err e => IRet (Some e)
  | Ok executable =>
      let^ ran := command_Run executable arguments in
      IRet ((fun f => label (cf_Error f)) <$> snd ran)
  end.

(** The adapters' configured paths, empty for the trusted ones. *)
Record HostTools := mkHostTools { ht_Docker : string; ht_WSL : string; ht_Tasks : string; ht_Shutdown : string }.
Context (tools : HostTools) `{DesktopJSON, Unicode}.

Definition docker_executable : tprog (result error string) := resolveExecutable (ht_Docker tools) trustedDockerDesktopExecutable.
Definition wsl_executable : tprog (result error string) := resolveExecutable (ht_WSL tools) (trustedSystemExecutable "wsl.exe").

Definition Desktop_Status : tprog (result error DesktopState) :=
  let^ executable := docker_executable in
  match executable with
  | Err e => IRet (Err e)
  | Ok executable =>
      let^ ran := command_Run executable ["desktop"; "status"; "--format"; "json"] in
      let '(out, failed) := ran in
      match failed with
      | Some f =>
          let^ ended := task (HostContext DesktopQueryContext) in
          match ended with
          | Some e => IRet (Err e)
          | None =>
              IRet (if negb (cf_Exited f) then Err (cf_Error f)
                    else match parseDesktopStatus out with Ok status => Ok status | Err _ => Ok DesktopStatusStopped end)
          end
      | None => IRet (parseDesktopStatus out)
      end
  end.

Definition Desktop_Start : tprog (option error) := run_tool docker_executable ["desktop"; "start"] (fun e => e).
Definition Desktop_Stop : tprog (option error) := run_tool docker_executable ["desktop"; "stop"] (fun e => e).

Definition WSL_Running : tprog (result error (list string)) :=
  let^ executable := wsl_executable in
  match executable with
  | Err e => IRet (Err e)
  | Ok executable =>
      let^ ran := command_Run executable ["--list"; "--running"; "--quiet"] in
      IRet (match snd ran with Some f => Err (cf_Error f) | None => Ok (parseWSLDistributions (fst ran)) end)
  end.

Definition WSL_Shutdown : tprog (option error) := run_tool wsl_executable ["--shutdown"] (fun e => e).

Definition ScheduledTask_Start (name : string) : tprog (option error) :=
  if String.eqb name "" then IRet (Some (ErrNew "scheduled task name is required"))
  else run_tool (resolveExecutable (ht_Tasks tools) (trustedSystemExecutable "schtasks.exe")) ["/Run"; "/TN"; name]
         (ErrWrap ("start scheduled task " +:+ Quote name)).

Definition Shutdown_Reboot (delay : duration) (comment : string) : tprog (option error) :=
  if delay <? 0 then IRet (Some (ErrNew "reboot delay must be non-negative"))
  else run_tool (resolveExecutable (ht_Shutdown tools) (trustedSystemExecutable "shutdown.exe")) (rebootArgs delay comment) (ErrWrap "restart machine").

End Tools.

(** ** The engine *)

Definition managedContainerLabel : string := "com.melodic-software.ci-runner.managed".

Definition containerDisplayName (names : list string) : string := String.concat "," (map (fun name => TrimPrefix name "/") names).

Definition containerFromSummary (item : Summary) : HostContainer :=
  mkHostContainer (su_ID item) (containerDisplayName (su_Names item)) (su_Image item) (su_Status item)
    (EqualFold (default "" (su_Labels item !! managedContainerLabel)) "true").

(** The close's error is dropped here. *)
Definition Engine_Reachable : tprog (result error bool) :=
  let^ dialed := task DialEngine in
  match dialed with
  | Some e => IRet (Err (ErrWrap "create Docker engine client" e))
  | None =>
      let^ info := task EngineInfo in
      match info with
      | Ok _ => let^ _ := task CloseEngine in IRet (Ok true)
      | Err _ =>
          let^ ended := task (HostContext EngineQueryContext) in
          let^ _ := task CloseEngine in
          IRet (match ended with Some e => Err e | None => Ok false end)
      end
  end.

Definition Engine_Containers : tprog (result error (list HostContainer)) :=
  let^ dialed := task DialEngine in
  match dialed with
  | Some e => IRet (Err (ErrWrap "create Docker engine client" e))
  | None =>
      let^ listed := task EngineList in
      let^ closed := task CloseEngine in
      IRet (match listed, closed with
            | Err e, _ => match errors_Join [Some (ErrWrap "list Docker containers" e); closed] with Some e => Err e | None => Err e end
            | Ok _, Some e => Err (ErrWrap "close Docker engine client" e)
            | Ok items, None => Ok (map containerFromSummary items)
            end)
  end.

Definition EngineMemoryTotal : tprog (result error Z) :=
  let^ dialed := task DialEngine in
  match dialed with
  | Some e => IRet (Err (ErrWrap "create Docker engine client" e))
  | None =>
      let^ info := task EngineInfo in
      let^ closed := task CloseEngine in
      IRet (match info, closed with
            | Err e, _ => match errors_Join [Some (ErrWrap "query Docker engine memory" e); closed] with Some e => Err e | None => Err e end
            | Ok _, Some e => Err (ErrWrap "close Docker engine client" e)
            | Ok total, None => if total <=? 0 then Err (ErrNew "docker engine reported zero MemTotal") else Ok total
            end)
  end.

(** ** The watched process *)

Definition Process_Open (pid : Z) : tprog (option error) :=
  if pid =? 0 then IRet (Some (ErrNew "controller process ID is required"))
  else
    let^ opened := task (OpenProcess pid) in
    IRet (ErrWrap ("open controller process " +:+ pretty pid) <$> opened).

(** At most [fuel] waits; [None] when none of them ended the loop. *)
Fixpoint Process_Wait (fuel : nat) : tprog (option (result error Z)) :=
  match fuel with
  | O => IRet None
  | S fuel =>
      let^ waited := task WaitProcess in
      match waited with
      | ProcessSignalled =>
          let^ code := task ProcessExitCode in
          IRet (Some (match code with Err e => Err (ErrWrap "read controller exit code" e) | Ok code => Ok code end))
      | ProcessTimeout =>
          let^ ended := task (HostContext CallerContext) in
          match ended with
          | Some e => IRet (Some (Err e))
          | None => Process_Wait fuel
          end
      | ProcessWaitFailed e => IRet (Some (Err (ErrWrap "wait for controller process" e)))
      end
  end.

Definition Process_Close : tprog (option error) :=
  let^ closed := task CloseProcess in IRet (ErrWrap "close controller process handle" <$> closed).

(** ** Reboot signals *)

Definition RegistryNotExist : error := ErrNew "The system cannot find the file specified.".

Definition localMachineKeyExists (path : string) : tprog (bool * option error) :=
  let^ opened := task (OpenKey path) in
  match opened with
  | Some e => IRet (false, if is_sentinel RegistryNotExist e then None else Some e)
  | None => let^ closed := task CloseKey in IRet (true, closed)
  end.

(** The values in order; the first with entries decides. *)
Fixpoint pending_renames (values : list string) : tprog (bool * option error) :=
  match values with
  | [] => IRet (false, None)
  | value :: values =>
      let^ entries := task (KeyStrings value) in
      match entries with
      | Err e => if is_sentinel RegistryNotExist e then pending_renames values else IRet (false, Some e)
      | Ok [] => pending_renames values
      | Ok (_ :: _) => IRet (true, None)
      end
  end.

Definition sessionManagerHasPendingFileRenames : tprog (bool * option error) :=
  let^ opened := task (OpenKey "SYSTEM\CurrentControlSet\Control\Session Manager") in
  match opened with
  | Some e => IRet (false, if is_sentinel RegistryNotExist e then None else Some e)
  | None =>
      let^ found := pending_renames ["PendingFileRenameOperations"; "PendingFileRenameOperations2"] in
      let^ _ := task CloseKey in
      IRet found
  end.

Definition ProbePendingReboot : tprog (PendingReboot * option error) :=
  let^ servicing := localMachineKeyExists "SOFTWARE\Microsoft\Windows\CurrentVersion\Component Based Servicing\RebootPending" in
  let^ renames := sessionManagerHasPendingFileRenames in
  let^ update := localMachineKeyExists "SOFTWARE\Microsoft\Windows\CurrentVersion\WindowsUpdate\Auto Update\RebootRequired" in
  IRet (mkPendingReboot (fst servicing) (fst renames) (fst update),
        errors_Join [ErrWrap "component servicing" <$> snd servicing; ErrWrap "session manager" <$> snd renames; ErrWrap "windows update" <$> snd update]).

(** ** Monitors *)

(** The low 32 bits of the clock less those of the last input, in milliseconds. *)
Definition inputIdleSince (nowTicks lastInputTicks : Z) : duration := ((nowTicks mod 2 ^ 32 - lastInputTicks) mod 2 ^ 32) * 1000000.

Definition InputIdle : tprog (result error duration) :=
  let^ last := task LastInput in
  match last with
  | Err e => IRet (Err e)
  | Ok last => let^ now := task TickCount in IRet (Ok (inputIdleSince now last))
  end.

Definition Power_Snapshot : tprog (result error PowerSnapshot) :=
  let^ ended := task (HostContext CallerContext) in
  match ended with
  | Some e => IRet (Err e)
  | None =>
      let^ status := task PowerStatus in
      match status with
      | Err e => IRet (Err (ErrWrap "GetSystemPowerStatus" e))
      | Ok line =>
          if negb (line =? 0) && negb (line =? 1) then IRet (Err (ErrNew ("operating system reported unknown AC line status " +:+ pretty line)))
          else let^ now := task HostNow in IRet (Ok (mkPowerSnapshot (line =? 1) now))
      end
  end.

(** The share of the ticks that were not idle, of unsigned 64-bit counters. *)
Definition cpu_percent (first second : Z * Z * Z) : option float64 :=
  let '(idle1, kernel1, user1) := first in
  let '(idle2, kernel2, user2) := second in
  let total := ((kernel2 - kernel1) mod 2 ^ 64 + (user2 - user1) mod 2 ^ 64) mod 2 ^ 64 in
  let idle := (idle2 - idle1) mod 2 ^ 64 in
  if (total =? 0) || (total <? idle) then None
  else Some (f64_div (f64_mul (f64_of_Z (total - idle)) f64_100) (f64_of_Z total)).

Definition Resource_Snapshot (sampleInterval : duration) : tprog (result error ResourceSnapshot) :=
  let^ ended := task (HostContext CallerContext) in
  match ended with
  | Some e => IRet (Err e)
  | None =>
      let^ memory := task MemoryStatus in
      match memory with
      | Err e => IRet (Err (ErrWrap "GlobalMemoryStatusEx" e))
      | Ok (total, available) =>
          let^ first := task SystemTimes in
          match first with
          | Err e => IRet (Err (ErrWrap "GetSystemTimes" e))
          | Ok first =>
              let^ stopped := task (HostSleep (if sampleInterval <=? 0 then 250000000 else sampleInterval)) in
              match stopped with
              | Some e => IRet (Err e)
              | None =>
                  let^ second := task SystemTimes in
                  IRet (match second with
                        | Err e => Err (ErrWrap "GetSystemTimes" e)
                        | Ok second =>
                            match cpu_percent first second with
                            | None => Err (ErrNew "GetSystemTimes returned a non-increasing sample")
                            | Some cpu => Ok (mkResourceSnapshot total available cpu)
                            end
                        end)
              end
          end
      end
  end.

(** ** The host's programs on Windows *)

Section OnHost.
Context `{Platform, FilePath, Volumes, DesktopJSON, Unicode} (tools : HostTools).

Definition host_port (c : hcall) : tprog (hresp c) :=
  match c with
  | DesktopQuery => Desktop_Status tools
  | DesktopStart => Desktop_Start tools
  | DesktopStop => Desktop_Stop tools
  | EngineReachable => Engine_Reachable
  | Containers => Engine_Containers
  | WSLRunning => WSL_Running tools
  | WSLShutdown => WSL_Shutdown tools
  | HostTimer interval => task (HostSleep interval)
  end.

Fixpoint on_host {A} (p : hprog A) : tprog A :=
  match p with
  | IRet a => IRet a
  | ICall c k => let^ r := host_port c in on_host (k r)
  end.

End OnHost.
