(* ===== verification/WindowsHostFacts.v ===== *)
(** What the Windows side of the host guarantees: only trusted executables run, the
    gaming mode it confirms was observed, and the ages and signals it reports are right
    across wrapped counters and failed queries. *)

From S2P Require Import Prelude Float64 GoStrings Regexp Model Config GoText Validate Errors Effects Reconciler FileSystem Store Interaction Host Artifacts Watchdog Secret Cli Doctor Inspector WindowsSecurity BitLocker WindowsSecurityFacts WindowsHost.
From stdpp Require Import pretty.
From Stdlib Require Import Ascii.
#[local] Open Scope Z_scope.
Open Scope i_scope.

(** ** Trusted executables *)

Definition is_exec (e : event tresp) : bool := match projT1 e with Exec _ _ => true | _ => false end.

Section Trusted.
Context `{Platform, FilePath, Volumes, DesktopJSON, Unicode} (tools : HostTools).

(** The paths of the components below a directory. *)
Fixpoint paths_below (current : string) (components : list string) : list string :=
  match components with
  | [] => []
  | component :: components => filepath_Join current component :: paths_below (filepath_Join current component) components
  end.

(** An absolute path on a local drive to a regular file, no part of which is a reparse
    point, as Windows said before. *)
Definition trusted (path : string) (before : list (event tresp)) : Prop :=
  IsAbs path = true /\ VolumeName path <> "" /\ HasPrefix (VolumeName path) "\\" = false
  /\ ev (ExecutableLstat path) (Ok true) ∈ before
  /\ Forall (fun p => exists attributes, ev (FileAttributes p) (Ok attributes) ∈ before /\ Z.testbit attributes 10 = false)
       (paths_below (VolumeName path +:+ String Separator "") (path_components path)).

(** The two tools of the host's programs with the commands they may get. *)
Definition allowed (path : string) (arguments : list string) (before : list (event tresp)) : Prop :=
  trusted path before
  /\ ((exists folder, ev ProgramFilesFolder (Ok folder) ∈ before /\ path = Clean (docker_path folder)
         /\ arguments ∈ [["desktop"; "status"; "--format"; "json"]; ["desktop"; "start"]; ["desktop"; "stop"]])
      \/ (exists folder, ev SystemFolder (Ok folder) ∈ before /\ path = Clean (filepath_Join folder "wsl.exe")
         /\ arguments ∈ [["--list"; "--running"; "--quiet"]; ["--shutdown"]])).

Lemma trusted_mono path before before' : trusted path before -> before ⊆ before' -> trusted path before'.
Proof.
  intros (Ha & Hv & Hp & Hl & Hall) Hsub. split_and!; [done..|set_solver|]. eapply Forall_impl; [exact Hall|]. intros p (attributes & Hin & Hb). exists attributes. set_solver.
Qed.

Lemma allowed_mono path arguments before before' : allowed path arguments before -> before ⊆ before' -> allowed path arguments before'.
Proof.
  intros [Ht Hor] Hsub. split; [by eapply trusted_mono|]. destruct Hor as [(f & Hin & Hrest)|(f & Hin & Hrest)]; [left|right]; exists f; (split; [set_solver|done]).
Qed.

Lemma reparse_bit attributes : has_reparse_attribute attributes = false -> Z.testbit attributes 10 = false.
Proof.
  unfold has_reparse_attribute, fileAttributeReparsePoint. change 1024 with (2 ^ 10). intros Hz%negb_false_iff%Z.eqb_eq.
  destruct (Z.testbit attributes 10) eqn:Hb; [|done]. apply (f_equal (fun z => Z.testbit z 10)) in Hz.
  rewrite Z.land_spec, Hb, Z.pow2_bits_true in Hz by lia. by rewrite Z.bits_0 in Hz.
Qed.

Lemma trusted_components_ok current components tr :
  iruns (trusted_components current components) tr None ->
  Forall (fun p => exists attributes, ev (FileAttributes p) (Ok attributes) ∈ tr /\ Z.testbit attributes 10 = false) (paths_below current components).
Proof.
  revert current tr. induction components as [|c components IH]; intros current tr Hr; cbn [trusted_components paths_below] in *; [constructor|].
  destruct (UTF16Ptr _); [by apply iruns_inv in Hr as [_ ?]|]. unfold task in Hr. apply iruns_inv in Hr as (x & t & -> & Hr). cbn [ibind] in Hr.
  destruct x as [attributes|e]; [|by apply iruns_inv in Hr as [_ ?]]. destruct (has_reparse_attribute attributes) eqn:Hb; [by apply iruns_inv in Hr as [_ ?]|].
  constructor; [exists attributes; split; [left|by apply reparse_bit]|]. eapply Forall_impl; [by apply IH|]. intros p (a & Hin & Hbit). exists a. split; [by right|done].
Qed.

Lemma verifyTrustedExecutable_ok path tr exe : iruns (verifyTrustedExecutable path) tr (Ok exe) -> exe = Clean path /\ trusted exe tr.
Proof.
  unfold verifyTrustedExecutable, task. intros Hr. destruct (negb (IsAbs (Clean path)) || _ || _) eqn:Hg; [by apply iruns_inv in Hr as [_ ?]|].
  apply orb_false_iff in Hg as [[Ha%negb_false_iff Hv%String.eqb_neq]%orb_false_iff Hp]. apply iruns_bind_inv in Hr as (t1 & t2 & checked & Hc & Hr & ->).
  destruct checked as [e|]; [by apply iruns_inv in Hr as [_ ?]|]. apply iruns_inv in Hr as (info & t & -> & Hr). cbn [ibind] in Hr.
  apply iruns_inv in Hr as [-> Hr]. destruct info as [[|]|e]; try discriminate Hr. injection Hr as ->. split; [done|]. split_and!; [done..|set_solver|].
  eapply Forall_impl; [by apply trusted_components_ok|]. intros p (a & Hin & Hb). exists a. split; [set_solver|done].
Qed.

Lemma trusted_components_quiet current components : avoids is_exec (trusted_components current components).
Proof.
  revert current. induction components as [|c components IH]; intros current; cbn [trusted_components]; [apply avoids_ret|].
  destruct (UTF16Ptr _); [apply avoids_ret|]. unfold task. apply avoids_ibind; [apply avoids_call; [done|intros; apply avoids_ret]|].
  intros [attributes|e]; [|apply avoids_ret]. destruct (has_reparse_attribute attributes); [apply avoids_ret|apply IH].
Qed.

Lemma verifyTrustedExecutable_quiet path : avoids is_exec (verifyTrustedExecutable path).
Proof.
  unfold verifyTrustedExecutable, task, icall. cbv zeta. destruct (_ || _ || _); [apply avoids_ret|]. apply avoids_ibind; [apply trusted_components_quiet|].
  intros [e|]; [apply avoids_ret|]. cbn [ibind]. apply avoids_call; [done|intros; apply avoids_ret].
Qed.
#[local] Hint Resolve verifyTrustedExecutable_quiet : avoids.

(** ** Programs that run only allowed commands *)

Definition guarded {A} (p : tprog A) : Prop :=
  forall tr a, iruns p tr a -> forall before path arguments out after, tr = before ++ ev (Exec path arguments) out :: after -> allowed path arguments before.

Lemma guarded_quiet {A} (p : tprog A) : avoids is_exec p -> guarded p.
Proof. intros Hp tr a Hr before path arguments out after ->. apply Hp in Hr. rewrite Forall_app, Forall_cons in Hr. by destruct Hr as (_ & [=] & _). Qed.

Lemma guarded_ibind {A B} (p : tprog A) (f : A -> tprog B) : guarded p -> (forall a, guarded (f a)) -> guarded (let^ a := p in f a).
Proof.
  intros Hp Hf tr b (t1 & t2 & a & H1' & H2' & ->)%iruns_bind_inv before path arguments out after Heq.
  apply app_eq_inv in Heq as [(k & -> & Hk)|(k & -> & Hk)].
  - destruct k as [|e k]; cbn in Hk.
    + rewrite app_nil_r in *. eapply allowed_mono; [eapply (Hf a _ _ H2' [])|]; [by rewrite <- Hk|set_solver].
    + apply cons_inv in Hk as [<- _]. by eapply Hp.
  - eapply allowed_mono; [by eapply (Hf a _ _ H2')|]. set_solver.
Qed.

(** A command that is run once, after its executable was resolved. *)
Lemma guarded_command {A} (resolve : tprog (result error string)) arguments (failed : error -> A) (k : string * option CommandFailure -> tprog A) :
  avoids is_exec resolve -> (forall t path, iruns resolve t (Ok path) -> allowed path arguments t) -> (forall ran, avoids is_exec (k ran)) ->
  guarded (let^ executable := resolve in match executable with Err e => IRet (failed e) | Ok executable => let^ ran := command_Run executable arguments in k ran end).
Proof.
  intros Hq Hok Hk tr a (t1 & t2 & r & H1' & H2' & ->)%iruns_bind_inv before path args out after Heq.
  pose proof (Hq _ _ H1') as Hno. destruct r as [executable|e].
  - apply Hok in H1'. unfold command_Run, task in H2'. apply iruns_inv in H2' as (ran & t & -> & H2'). destruct ran as [o f]. cbn [ibind] in H2'. apply Hk in H2'.
    destruct (split_unique is_exec t1 t before after (ev (Exec executable arguments) (o, f)) (ev (Exec path args) out)) as (-> & He & _); [done|done|done|done|].
    assert (path = executable /\ args = arguments) as [-> ->].
    { apply (f_equal (fun e : event tresp => match projT1 e with Exec p a => (p, a) | _ => ("", []) end)) in He. by injection He. }
    done.
  - apply iruns_inv in H2' as [-> _]. rewrite app_nil_r in Heq. rewrite Heq, Forall_app, Forall_cons in Hno. by destruct Hno as (_ & [=] & _).
Qed.

(** The adapters use the trusted executables, as the controller and the tool build them. *)
Definition default_tools : Prop := ht_Docker tools = "" /\ ht_WSL tools = "".

Lemma docker_executable_ok t path :
  ht_Docker tools = "" -> iruns (docker_executable tools) t (Ok path) ->
  trusted path t /\ exists folder, ev ProgramFilesFolder (Ok folder) ∈ t /\ path = Clean (docker_path folder).
Proof.
  unfold docker_executable, resolveExecutable, trustedDockerDesktopExecutable, task. intros -> Hr. cbn [String.eqb negb] in Hr.
  apply iruns_inv in Hr as (x & t' & -> & Hr). cbn [ibind] in Hr. destruct x as [folder|e]; [|by apply iruns_inv in Hr as [_ ?]].
  apply verifyTrustedExecutable_ok in Hr as [-> Ht]. split; [eapply trusted_mono; [exact Ht|set_solver]|]. exists folder. split; [left|done].
Qed.

Lemma wsl_executable_ok t path :
  ht_WSL tools = "" -> iruns (wsl_executable tools) t (Ok path) ->
  trusted path t /\ exists folder, ev SystemFolder (Ok folder) ∈ t /\ path = Clean (filepath_Join folder "wsl.exe").
Proof.
  unfold wsl_executable, resolveExecutable, trustedSystemExecutable, task. intros -> Hr. cbn [String.eqb negb] in Hr.
  destruct (negb (base_name "wsl.exe")); [by apply iruns_inv in Hr as [_ ?]|].
  apply iruns_inv in Hr as (x & t' & -> & Hr). cbn [ibind] in Hr. destruct x as [folder|e]; [|by apply iruns_inv in Hr as [_ ?]].
  apply verifyTrustedExecutable_ok in Hr as [-> Ht]. split; [eapply trusted_mono; [exact Ht|set_solver]|]. exists folder. split; [left|done].
Qed.

Lemma executables_quiet : avoids is_exec (docker_executable tools) /\ avoids is_exec (wsl_executable tools).
Proof.
  unfold docker_executable, wsl_executable, resolveExecutable, trustedDockerDesktopExecutable, trustedSystemExecutable, task, icall.
  split; (destruct (negb (String.eqb _ "")); [apply avoids_ret|]); [|destruct (negb _); [apply avoids_ret|]]; cbn [ibind];
    (apply avoids_call; [done|]); intros [folder|e]; auto with avoids; apply avoids_ret.
Qed.

Lemma docker_guarded {A} arguments (failed : error -> A) k :
  default_tools -> arguments ∈ [["desktop"; "status"; "--format"; "json"]; ["desktop"; "start"]; ["desktop"; "stop"]] -> (forall ran, avoids is_exec (k ran)) ->
  guarded (let^ executable := docker_executable tools in match executable with Err e => IRet (failed e) | Ok executable => let^ ran := command_Run executable arguments in k ran end).
Proof.
  intros [Hd _] Harg Hk. apply guarded_command; [apply executables_quiet| |exact Hk]. intros t path Hr.
  destruct (docker_executable_ok _ _ Hd Hr) as (Ht & folder & Hin & Hp). split; [done|]. left. by exists folder.
Qed.

Lemma wsl_guarded {A} arguments (failed : error -> A) k :
  default_tools -> arguments ∈ [["--list"; "--running"; "--quiet"]; ["--shutdown"]] -> (forall ran, avoids is_exec (k ran)) ->
  guarded (let^ executable := wsl_executable tools in match executable with Err e => IRet (failed e) | Ok executable => let^ ran := command_Run executable arguments in k ran end).
Proof.
  intros [_ Hw] Harg Hk. apply guarded_command; [apply executables_quiet| |exact Hk]. intros t path Hr.
  destruct (wsl_executable_ok _ _ Hw Hr) as (Ht & folder & Hin & Hp). split; [done|]. right. by exists folder.
Qed.

Lemma host_port_guarded c : default_tools -> guarded (host_port tools c).
Proof.
  intros Htools. destruct c; cbn [host_port].
  - apply docker_guarded; [done|left|]. intros [out [f|]]; [|apply avoids_ret]. unfold task. apply avoids_ibind; [apply avoids_call; [done|intros; apply avoids_ret]|].
    intros [e|]; apply avoids_ret.
  - apply docker_guarded; [done|right; left|]. intros; apply avoids_ret.
  - apply docker_guarded; [done|right; right; left|]. intros; apply avoids_ret.
  - apply guarded_quiet. unfold Engine_Reachable, task, icall. solve_avoids.
  - apply guarded_quiet. unfold Engine_Containers, task, icall. solve_avoids.
  - apply wsl_guarded; [done|left|]. intros; apply avoids_ret.
  - apply wsl_guarded; [done|right; left|]. intros; apply avoids_ret.
  - apply guarded_quiet. apply avoids_call; [done|intros; apply avoids_ret].
Qed.

(** C29: Only trusted tools run.  Whatever a program of the host does, whether it polls
    Docker Desktop, takes an inventory, stops everything or verifies gaming mode, and
    whatever Windows answers, the adapters execute nothing but docker.exe under Program
    Files and wsl.exe in the system directory, each just found to be a regular file on
    a local drive with no reparse point on its path, and only with the five commands. *)
Theorem host_runs_only_trusted_tools {A} (p : hprog A) tr a before path arguments out after :
  default_tools -> iruns (on_host tools p) tr a -> tr = before ++ ev (Exec path arguments) out :: after -> allowed path arguments before.
Proof.
  intros Htools Hr Heq. assert (Hg : guarded (on_host tools p)); [|by eapply Hg]. clear Hr Heq.
  induction p as [b|c k IH]; cbn [on_host]; [apply guarded_quiet, avoids_ret|]. apply guarded_ibind; [by apply host_port_guarded|exact IH].
Qed.

(** ** What the answers rest on *)

(** Docker Desktop is called stopped only by a command that ran: it said so, or it
    exited with a failure and the context of this query, asked right after it, was
    still alive. *)
Definition desktop_said_stopped (tr : list (event tresp)) : Prop :=
  exists before path out failed after,
    tr = before ++ ev (Exec path ["desktop"; "status"; "--format"; "json"]) (out, failed) :: after
    /\ match failed with
       | None => parseDesktopStatus out = Ok DesktopStatusStopped
       | Some f => cf_Exited f = true /\ head after = Some (ev (HostContext DesktopQueryContext) None)
                   /\ (parseDesktopStatus out = Ok DesktopStatusStopped \/ exists e, parseDesktopStatus out = Err e)
       end.

(** The engine's information was refused, and the context of that query, asked right
    after it, was still alive. *)
Definition engine_refused (tr : list (event tresp)) : Prop :=
  exists before e after, tr = before ++ ev EngineInfo (Err e) :: ev (HostContext EngineQueryContext) None :: after.

Lemma Desktop_Status_stopped tr : iruns (Desktop_Status tools) tr (Ok DesktopStatusStopped) -> desktop_said_stopped tr.
Proof.
  unfold Desktop_Status, command_Run, task. intros (t1 & t2 & r & H1' & Hr & ->)%iruns_bind_inv. destruct r as [path|e]; [|by apply iruns_inv in Hr as [_ ?]].
  apply iruns_inv in Hr as ([out failed] & t & -> & Hr). cbn [ibind] in Hr. exists t1, path, out, failed, t. split; [done|]. destruct failed as [f|]; cbn in Hr.
  - apply iruns_inv in Hr as (ended & t' & -> & Hr). cbn [ibind] in Hr. destruct ended as [e|]; [by apply iruns_inv in Hr as [_ ?]|].
    apply iruns_inv in Hr as [-> Hr]. destruct (cf_Exited f); cbn in Hr; [|discriminate Hr]. split_and!; [done|done|].
    destruct (parseDesktopStatus out) as [s|e]; [left; congruence|right; eauto].
  - by apply iruns_inv in Hr as [-> Hr].
Qed.

Lemma Engine_Reachable_false tr : iruns Engine_Reachable tr (Ok false) -> engine_refused tr.
Proof.
  unfold Engine_Reachable, task. intros Hr. apply iruns_inv in Hr as (d & t & -> & Hr). cbn [ibind] in Hr. destruct d; [by apply iruns_inv in Hr as [_ ?]|].
  apply iruns_inv in Hr as (info & t' & -> & Hr). cbn [ibind] in Hr. destruct info as [n|e].
  - apply iruns_inv in Hr as (c & t2 & -> & Hr). by apply iruns_inv in Hr as [_ ?].
  - apply iruns_inv in Hr as (ended & t2 & -> & Hr). cbn [ibind] in Hr. apply iruns_inv in Hr as (c & t3 & -> & Hr). cbn [ibind] in Hr.
    apply iruns_inv in Hr as [-> Hr]. destruct ended; [discriminate Hr|]. by exists [ev DialEngine None], e, [ev CloseEngine c].
Qed.

Lemma WSL_Running_none tr :
  iruns (WSL_Running tools) tr (Ok []) ->
  exists path out, ev (Exec path ["--list"; "--running"; "--quiet"]) (out, None) ∈ tr /\ parseWSLDistributions out = [].
Proof.
  unfold WSL_Running, command_Run, task. intros (t1 & t2 & r & H1' & Hr & ->)%iruns_bind_inv. destruct r as [path|e]; [|by apply iruns_inv in Hr as [_ ?]].
  apply iruns_inv in Hr as ([out failed] & t & -> & Hr). cbn [ibind fst snd] in Hr. apply iruns_inv in Hr as [-> Hr]. destruct failed; [discriminate Hr|].
  exists path, out. split; [set_solver|]. by injection Hr.
Qed.

(** C30: Gaming mode is confirmed by what the tools said.  When the verification on Windows
    reports no error, the Docker Desktop command said stopped, or exited with a failure
    and the context of that query, asked right after, had not expired; the engine's
    information was refused and the context of that query, asked right after, had not
    expired; and the WSL command succeeded and listed nothing.  The three happened in
    this order. *)
Theorem gaming_confirmed_on_windows tr v :
  iruns (on_host tools Gaming_Verify) tr (v, None) ->
  exists t1 t2 t3, tr = t1 ++ t2 ++ t3
  /\ desktop_said_stopped t1
  /\ engine_refused t2
  /\ (exists path out, ev (Exec path ["--list"; "--running"; "--quiet"]) (out, None) ∈ t3 /\ parseWSLDistributions out = [])
  /\ Healthy v = true.
Proof.
  unfold Gaming_Verify, hask. cbn [ibind icall on_host]. intros (t1 & u1 & desktop & Hd & Hr & ->)%iruns_bind_inv.
  apply iruns_bind_inv in Hr as (t2 & u2 & engine & He & Hr & ->). apply iruns_bind_inv in Hr as (t3 & u3 & wsl & Hw & Hr & ->).
  cbn [host_port] in Hd, He, Hw.
  assert (Hall : desktop = Ok DesktopStatusStopped /\ engine = Ok false /\ wsl = Ok [] /\ u3 = [] /\ Healthy v = true).
  { destruct desktop as [s|e1]; [destruct (decide (s = DesktopStatusStopped)) as [->|Hs]|]; destruct engine as [[]|e2];
      destruct wsl as [[|d l]|e3]; cbn [on_host] in Hr; apply iruns_inv in Hr as [-> Hr]; simpl in Hr; try discriminate Hr. injection Hr as ->. done. }
  destruct Hall as (-> & -> & -> & -> & Hh). exists t1, t2, t3. rewrite app_nil_r.
  refine (conj eq_refl (conj _ (conj _ (conj _ Hh)))); [by apply Desktop_Status_stopped|by apply Engine_Reachable_false|by apply WSL_Running_none].
Qed.

End Trusted.

(** ** Counters and signals *)

(** The idle age is exact across the wrap of the 32-bit counter, for less than 2^32
    milliseconds. *)
Lemma inputIdleSince_exact now idle : 0 <= idle < 2 ^ 32 -> inputIdleSince now ((now - idle) mod 2 ^ 32) = idle * 1000000.
Proof. intros Hi. unfold inputIdleSince. rewrite <- Zminus_mod. replace (now - (now - idle)) with idle by lia. by rewrite Z.mod_small. Qed.

Lemma localMachineKeyExists_inv path tr b e :
  iruns (localMachineKeyExists path) tr (b, e) -> exists opened, head tr = Some (ev (OpenKey path) opened) /\ (b = true <-> opened = None).
Proof.
  unfold localMachineKeyExists, task. intros Hr. apply iruns_inv in Hr as (opened & t & -> & Hr). exists opened. split; [done|]. cbn [ibind] in Hr.
  destruct opened as [x|]; [apply iruns_inv in Hr as [_ [= -> _]]; naive_solver|]. apply iruns_inv in Hr as (c & t' & -> & Hr). by apply iruns_inv in Hr as [_ [= -> _]].
Qed.

Lemma pending_renames_found values tr e :
  iruns (pending_renames values) tr (true, e) -> exists value entries, entries <> [] /\ ev (KeyStrings value) (Ok entries) ∈ tr.
Proof.
  revert tr. induction values as [|v values IH]; intros tr Hr; cbn [pending_renames] in Hr; [by apply iruns_inv in Hr as [_ ?]|].
  unfold task in Hr. apply iruns_inv in Hr as (x & t & -> & Hr). cbn [ibind] in Hr. destruct x as [[|y l]|err].
  - destruct (IH _ Hr) as (value & entries & Hne & Hin). exists value, entries. split; [done|by right].
  - exists v, (y :: l). split; [done|left].
  - destruct (is_sentinel RegistryNotExist err); [|by apply iruns_inv in Hr as [_ ?]]. destruct (IH _ Hr) as (value & entries & Hne & Hin). exists value, entries. split; [done|by right].
Qed.

(** The three signals are read one by one and reported whatever the others answered. *)
Lemma reboot_signals_independent tr p err :
  iruns ProbePendingReboot tr (p, err) ->
  exists t1 t2 t3, tr = t1 ++ t2 ++ t3
    /\ (exists a, head t1 = Some (ev (OpenKey "SOFTWARE\Microsoft\Windows\CurrentVersion\Component Based Servicing\RebootPending") a)
          /\ (pr_ComponentServicing p = true <-> a = None))
    /\ (pr_FileRenameOperations p = true -> exists value entries, entries <> [] /\ ev (KeyStrings value) (Ok entries) ∈ t2)
    /\ (exists c, head t3 = Some (ev (OpenKey "SOFTWARE\Microsoft\Windows\CurrentVersion\WindowsUpdate\Auto Update\RebootRequired") c)
          /\ (pr_WindowsUpdate p = true <-> c = None)).
Proof.
  unfold ProbePendingReboot. intros (t1 & u1 & [s es] & H1 & Hr & ->)%iruns_bind_inv. apply iruns_bind_inv in Hr as (t2 & u2 & [f ef] & H2 & Hr & ->).
  apply iruns_bind_inv in Hr as (t3 & u3 & [u eu] & H3 & Hr & ->). apply iruns_inv in Hr as [-> [= -> ->]]. rewrite app_nil_r. exists t1, t2, t3.
  refine (conj eq_refl (conj _ (conj _ _))); [by eapply localMachineKeyExists_inv| |by eapply localMachineKeyExists_inv].
  cbn [pr_FileRenameOperations fst]. intros ->. unfold sessionManagerHasPendingFileRenames, task in H2. apply iruns_inv in H2 as (o & t & -> & H2). cbn [ibind] in H2.
  destruct o as [e|]; [by apply iruns_inv in H2 as [_ ?]|]. apply iruns_bind_inv in H2 as (ta & tb & [b eb] & Ha & Hb & ->).
  apply iruns_inv in Hb as (c & tc & -> & Hb). cbn [ibind] in Hb. apply iruns_inv in Hb as [-> [= <- <-]].
  apply pending_renames_found in Ha as (value & entries & Hne & Hin). exists value, entries. split; [done|set_solver].
Qed.

(** ** A host in gaming mode *)

Module WindowsHostSamples.

#[local] Instance host_platform : Platform := {| write_through := false; Separator := "\"%char |}.
#[local] Instance host_paths : FilePath := {| IsAbs := fun p => HasPrefix p "C:\"; Clean := fun p => p |}.
#[local] Instance host_volumes : Volumes := {| VolumeName := fun p => if HasPrefix p "C:" then "C:" else ""; sameWord := String.eqb |}.
#[local] Instance host_json : DesktopJSON := {| json_status := fun _ => None |}.
#[local] Instance host_unicode : Unicode := {| to_lower := fun r => r |}.

Definition plain_tools : HostTools := mkHostTools "" "" "" "".

(** Docker Desktop is stopped, the engine refuses, and nothing runs under WSL. *)
Definition gaming_answers (c : tcall) (_ : list (event tresp)) : tresp c :=
  match c with
  | SystemFolder => Ok "C:\Windows\System32"
  | ProgramFilesFolder => Ok "C:\Program Files"
  | FileAttributes _ => Ok 32
  | ExecutableLstat _ => Ok true
  | Exec path arguments => if String.eqb (default "" (head arguments)) "desktop" then ("Docker Desktop is stopped", None) else ("", None)
  | EngineInfo => Err (ErrNew "refused")
  | ProcessExitCode | LastInput | PowerStatus => Ok 0
  | EngineList => Ok []
  | KeyStrings _ => Ok []
  | WaitProcess => ProcessSignalled
  | TickCount | HostNow => 0
  | MemoryStatus => Ok (0, 0)
  | SystemTimes => Ok (0, 0, 0)
  | HostContext _ | DialEngine | CloseEngine | OpenKey _ | CloseKey | OpenProcess _ | CloseProcess | HostSleep _ => None
  end.

Definition gaming_run : list (event tresp) * (GamingVerification * option error) := irun gaming_answers (on_host plain_tools Gaming_Verify) [].

Lemma gaming_runs : iruns (on_host plain_tools Gaming_Verify) (fst gaming_run) (snd gaming_run).
Proof. apply (irun_iruns gaming_answers _ []). apply surjective_pairing. Qed.

Lemma host_runs_only_trusted_tools_witness :
  exists before arguments out after,
    fst gaming_run = before ++ ev (Exec "C:\Program Files\Docker\Docker\resources\bin\docker.exe" arguments) out :: after
    /\ trusted "C:\Program Files\Docker\Docker\resources\bin\docker.exe" before.
Proof.
  exists (take 8 (fst gaming_run)), ["desktop"; "status"; "--format"; "json"], ("Docker Desktop is stopped", None), (drop 9 (fst gaming_run)).
  assert (Hsplit : fst gaming_run = take 8 (fst gaming_run) ++ ev (Exec "C:\Program Files\Docker\Docker\resources\bin\docker.exe"
                     ["desktop"; "status"; "--format"; "json"]) ("Docker Desktop is stopped", None) :: drop 9 (fst gaming_run)) by (vm_compute; reflexivity).
  split; [exact Hsplit|].
  exact (proj1 (host_runs_only_trusted_tools plain_tools Gaming_Verify _ _ _ _ _ _ _ (conj eq_refl eq_refl) gaming_runs Hsplit)).
Defined.

(** The command exits with a failure and a text nobody knows, its context alive. *)
Definition failed_answers (c : tcall) (h : list (event tresp)) : tresp c :=
  match c return tresp c -> tresp c with
  | Exec _ arguments => fun r => if String.eqb (default "" (head arguments)) "desktop" then ("gone", Some (mkCommandFailure (ErrNew "exit 1") true)) else r
  | _ => fun r => r
  end (gaming_answers c h).

Definition failed_run : list (event tresp) * (GamingVerification * option error) := irun failed_answers (on_host plain_tools Gaming_Verify) [].

Lemma failed_runs : iruns (on_host plain_tools Gaming_Verify) (fst failed_run) (snd failed_run).
Proof. apply (irun_iruns failed_answers _ []). apply surjective_pairing. Qed.

Lemma gaming_confirmed_on_windows_witness :
  (exists v, snd failed_run = (v, None) /\ Healthy v = true) /\ exists t1 t2, fst failed_run = t1 ++ t2 /\ desktop_said_stopped t1.
Proof.
  assert (Hn : snd failed_run = (fst (snd failed_run), None)) by (vm_compute; reflexivity).
  pose proof failed_runs as Hr. rewrite Hn in Hr.
  destruct (gaming_confirmed_on_windows plain_tools _ _ Hr) as (t1 & t2 & t3 & Htr & Hd & _ & _ & Hh).
  split; [exists (fst (snd failed_run)); split; [exact Hn|exact Hh]|]. exists t1, (t2 ++ t3). split; [exact Htr|exact Hd].
Defined.

End WindowsHostSamples.
