(* ===== verification/Logs.v ===== *)
(** The command [ci-runner host logs] (internal/app/logs.go, logs_artifacts.go): reading
    and following the controller's log, naming the artifacts of a job, and the
    maintenance of the worker artifacts.

    The command's programs call the terminal, the log files and the job index; the
    programs of the artifact sink and of the path checks run inside them with their
    own calls.  A follower runs for at most [fuel] polls and answers [None] when it is
    still following then. *)

From S2P Require Import Prelude Float64 GoStrings Regexp Model Config GoText Validate Errors JobIndex Effects Reconciler FileSystem Store Interaction Evidence Docker Artifacts Watchdog Cli Doctor Secret Inspector.
From stdpp Require Import pretty.
From Stdlib Require Import Ascii.
#[local] Open Scope Z_scope.
Open Scope i_scope.

(** ** Calls *)

(** An entry of the log directory: whether it is a regular file, and its modification
    time or the error of asking for it. *)
Record LogFile := mkLogFile { lf_Name : string; lf_Regular : bool; lf_Info : result error time }.

Inductive gcall :=
  | LogOut (text : string)
  | LogErr (text : string)
  | EncodeAudit (report : ArtifactAuditReport)
  | EncodePurge (result : ArtifactPurgeResult)
  | ListLogs (directory : string)
  | OpenLog (path : string)
  | SeekLog (path : string) (offset : Z)
  | CopyLog (path : string) (offset : Z)
  | CloseLog (path : string)
  | FollowWait (interval : duration)
  | FindJob (jobID : string)
  | LstatArtifact (path : string)
  | LocalInventory (version hostID : string)
  | MakeDirectory (directory : string)
  | HardenDirectory (directory : string)
  | OnPath (c : vcall)
  | OnArtifacts (c : acall).

(** [CopyLog] gives the bytes that reached the destination; [FollowWait] is true when
    the context ended the wait. *)
Definition gresp (c : gcall) : Type :=
  match c with
  | LogOut _ | LogErr _ => unit
  | EncodeAudit _ | EncodePurge _ | OpenLog _ | SeekLog _ _ | CloseLog _ | MakeDirectory _ | HardenDirectory _ => option error
  | ListLogs _ => result error (list LogFile)
  | CopyLog _ _ => string * option error
  | FollowWait _ => bool
  | FindJob _ => result error JobRecord
  | LstatArtifact _ => result error bool
  | LocalInventory _ _ => result error (list ArtifactMetadata)
  | OnPath c => vresp c
  | OnArtifacts c => aresp c
  end.

Abbreviation gprog := (iprog gresp).
Definition gask (c : gcall) : gprog (gresp c) := icall c.

Fixpoint on_path {A} (p : vprog A) : gprog A :=
  match p with IRet a => IRet a | ICall c k => ICall (OnPath c) (fun r => on_path (k r)) end.
Fixpoint on_artifacts {A} (p : iprog aresp A) : gprog A :=
  match p with IRet a => IRet a | ICall c k => ICall (OnArtifacts c) (fun r => on_artifacts (k r)) end.

Definition say (text : string) : gprog () := gask (LogOut (text +:+ newline)).
Definition complain (text : string) : gprog () := gask (LogErr (text +:+ newline)).
Definition stop (text : string) (code : Z) : gprog (option Z) := let^ _ := complain text in IRet (Some code).

Fixpoint say_all (lines : list string) : gprog () :=
  match lines with
  | [] => IRet ()
  | line :: lines => let^ _ := say line in say_all lines
  end.

(** ** Reports *)

Definition class_text (c : ArtifactFileClass) : string :=
  match c with
  | ArtifactReferencedPresent => "referenced-and-present"
  | ArtifactReferencedMissing => "referenced-and-missing"
  | ArtifactUnreferencedPastCutoff => "unreferenced-and-past-cutoff"
  | ArtifactUnreferencedWithinCutoff => "unreferenced-and-within-cutoff"
  end.

Definition class_value (c : ArtifactFileClass) (m : list (ArtifactFileClass * Z)) : Z :=
  match List.find (fun e => bool_decide (fst e = c)) m with Some (_, v) => v | None => 0 end.

Definition inFlightCount (files : list ArtifactAuditFile) (class : ArtifactFileClass) : Z :=
  Z.of_nat (length (List.filter (fun f => bool_decide (af_Classification f = class) && af_InFlightTemporary f) files)).

Definition catalog_line (available : bool) (detail : string) : string :=
  if available && String.eqb detail "" then "Catalog: available"
  else if available then "Catalog: available (" +:+ detail +:+ ")"
  else "Catalog: unavailable (" +:+ detail +:+ ")".

Definition inventory_line (available : bool) (detail : string) : string :=
  if available then "Docker inventory: available"
  else if String.eqb detail "" then "Docker inventory: unavailable"
  else "Docker inventory: unavailable (" +:+ detail +:+ ")".

Definition directory_lines (d : ArtifactAuditDirectory) : list string :=
  [newline +:+ "Directory: " +:+ ad_Directory d +:+ " (" +:+ pretty (ad_TotalBytes d) +:+ " bytes)"]
  ++ omap (fun class =>
       let count := class_value class (ad_Counts d) in
       let bytes := class_value class (ad_BytesByClass d) in
       let inFlight := inFlightCount (ad_Files d) class in
       if count =? 0 then None
       else Some ("  " +:+ class_text class +:+ ": " +:+ pretty count +:+ " files, " +:+ pretty bytes +:+ " bytes"
                  +:+ (if 0 <? inFlight then " (" +:+ pretty inFlight +:+ " in-flight temporary)" else "")))
       [ArtifactReferencedPresent; ArtifactUnreferencedPastCutoff; ArtifactUnreferencedWithinCutoff].

Definition writeArtifactAudit (report : ArtifactAuditReport) : gprog () :=
  let section {A} (items : list A) (title : Z -> string) (line : A -> string) : list string :=
    match items with [] => [] | _ => (newline +:+ title (Z.of_nat (length items))) :: map line items end in
  say_all
    (["Worker artifact audit"; "Retention cutoff: " +:+ Format_RFC3339 (ar_RetentionCutoff report);
      catalog_line (ar_CatalogAvailable report) (ar_CatalogError report);
      inventory_line (ar_InventoryAvailable report) (ar_InventoryError report)]
     ++ flat_map directory_lines (ar_Directories report)
     ++ section (ar_ReferencedMissing report) (fun n => "Referenced-and-missing: " +:+ pretty n +:+ " catalog paths")
          (fun f => "  " +:+ af_Path f)
     ++ section (ar_TombstonedAdopted report) (fun n => "Adopted containers on tombstoned pool/runner keys: " +:+ pretty n)
          (fun c => "  " +:+ ta_PoolID c +:+ "/" +:+ ta_RunnerName c +:+ " container=" +:+ ta_ContainerID c)
     ++ section (ar_CompactionsDropped report) (fun n => "Save-cap compaction drops (journal): " +:+ pretty n +:+ " entries")
          (fun e => "  " +:+ de_PoolID e +:+ "/" +:+ de_RunnerName e +:+ " dropped=" +:+ Format_RFC3339 (de_DroppedAt e) +:+ " job=" +:+ de_JobID e)
     ++ (match ar_CompactionsDropped report, ar_DropJournalError report with
         | [], Some e => if negb (ar_DropJournalAvailable report) && negb (String.eqb (error_text e) "")
                         then [newline +:+ "Drop journal: unavailable (" +:+ error_text e +:+ ")"] else []
         | _, _ => []
         end)).

Definition writeArtifactPurge (result : ArtifactPurgeResult) : gprog () :=
  say_all
    ([if pr_DryRun result then "Reference-based purge dry run" else "Reference-based purge completed";
      "Delete candidates: " +:+ pretty (pr_DeleteCount result) +:+ " files, " +:+ pretty (pr_TotalBytes result) +:+ " bytes"]
     ++ map (fun f => "  delete " +:+ af_Path f +:+ " (" +:+ pretty (af_SizeBytes f) +:+ " bytes)") (pr_Deleted result)
     ++ (match pr_Skipped result with
         | [] => []
         | skipped => ("Skipped in-flight temporary files: " +:+ pretty (Z.of_nat (length skipped)))
                      :: map (fun f => "  skip " +:+ af_Path f) skipped
         end)).

(** ** The artifact maintenance *)

Section Maintenance.
Context {MR : MapRange} {PF : Platform} {FP : FilePath} {VO : Volumes} {UC : Unicode} {ET : EvidenceText} {GZ : Gzip}.
Context (cfg : Config) (version : string).

Definition worker_log_directory : string := filepath_Join (pa_Logs (c_Paths cfg)) "workers".

Fixpoint prepare_directories (directories : list string) : gprog (option error) :=
  match directories with
  | [] => IRet None
  | d :: directories =>
      let^ made := gask (MakeDirectory d) in
      match made with
      | Some e => IRet (Some (ErrWrap ("create worker artifact directory " +:+ Quote d) e))
      | None =>
          let^ hardened := gask (HardenDirectory d) in
          match hardened with
          | Some e => IRet (Some (ErrWrap ("secure worker artifact directory " +:+ Quote d) e))
          | None => prepare_directories directories
          end
      end
  end.

Definition newWorkerArtifactSink : gprog (result error FileArtifactSink) :=
  let logs := c_Logs cfg in
  let^ prepared := prepare_directories [worker_log_directory; pa_Diagnostics (c_Paths cfg)] in
  match prepared with
  | Some e => IRet (Err e)
  | None =>
      on_artifacts (NewFileArtifactSink worker_log_directory (pa_Diagnostics (c_Paths cfg)) true true
        (mkArtifactPolicy (wrap_u64 (lc_MaxFileSize (lg_Diagnostics logs))) (wrap_u64 (lg_RawDiagnosticMaxInput logs))
           (lc_Retention (lg_Diagnostics logs)) (wrap_u64 (lc_TotalCap (lg_Diagnostics logs))) (lg_CleanupEvery logs)))
  end.

Definition inventory : gprog (result error (list ArtifactMetadata)) := gask (LocalInventory version (ho_ID (c_Host cfg))).

Definition maintenance_Cleanup : gprog (option error) :=
  let^ artifacts := newWorkerArtifactSink in
  match artifacts with
  | Err e => IRet (Some e)
  | Ok artifacts =>
      let^ adopted := inventory in
      match adopted with
      | Err e => IRet (Some (ErrWrap "inventory local workers before cleanup" e))
      | Ok adopted => let^ cleaned := on_artifacts (CleanupNow artifacts adopted) in IRet (snd cleaned)
      end
  end.

Definition maintenance_Audit : gprog (result error ArtifactAuditReport) :=
  let^ artifacts := newWorkerArtifactSink in
  match artifacts with
  | Err e => IRet (Err e)
  | Ok artifacts =>
      let^ adopted := inventory in
      let^ audited := on_artifacts (match adopted with
                                    | Ok adopted => Audit artifacts adopted true ""
                                    | Err e => Audit artifacts [] false (error_text e)
                                    end) in
      IRet (match snd audited with Some e => Err e | None => Ok (fst audited) end)
  end.

Definition maintenance_Purge (dryRun : bool) : gprog (result error ArtifactPurgeResult) :=
  let^ artifacts := newWorkerArtifactSink in
  match artifacts with
  | Err e => IRet (Err e)
  | Ok artifacts =>
      let^ adopted := inventory in
      match adopted with
      | Err e => IRet (Err (ErrWrap "inventory local workers before purge" e))
      | Ok adopted =>
          let^ purged := on_artifacts (PurgeUnreferencedNow artifacts adopted dryRun) in
          IRet (match snd purged with Some e => Err e | None => Ok (fst purged) end)
      end
  end.

(** ** Reading *)

(** The regular files of the log directory, until the information of one fails. *)
Fixpoint log_candidates (directory : string) (entries : list LogFile) : result error (list (string * time)) :=
  match entries with
  | [] => Ok []
  | e :: entries =>
      if negb (lf_Regular e) then log_candidates directory entries
      else match lf_Info e with
           | Err err => Err err
           | Ok at_ =>
               match log_candidates directory entries with
               | Err err => Err err
               | Ok files => Ok ((filepath_Join directory (lf_Name e), at_) :: files)
               end
           end
  end.

Definition older (a b : string * time) : bool :=
  if snd a =? snd b then String.ltb (fst a) (fst b) else snd a <? snd b.

Definition newestRegularFile (directory : string) : gprog (result error string) :=
  let^ entries := gask (ListLogs directory) in
  IRet (match entries with
        | Err e => Err e
        | Ok entries =>
            match log_candidates directory entries with
            | Err e => Err e
            | Ok files =>
                match last (sort_by older files) with
                | Some (path, _) => Ok path
                | None => Err (ErrNew ("no controller log files in " +:+ Quote directory))
                end
            end
        end).

(** The bytes of the newest file from the offset on; the path and the offset that
    follow them. *)
Definition read_round (directory : string) (lastPath : string) (offset : Z) : gprog (result error (string * Z)) :=
  let^ newest := newestRegularFile directory in
  match newest with
  | Err e => IRet (Err e)
  | Ok path =>
      let offset := if String.eqb path lastPath then offset else 0 in
      let^ opened := gask (OpenLog path) in
      match opened with
      | Some e => IRet (Err e)
      | None =>
          let^ sought := gask (SeekLog path offset) in
          match sought with
          | Some e => let^ _ := gask (CloseLog path) in IRet (Err e)
          | None =>
              let^ copied := gask (CopyLog path offset) in
              let^ closed := gask (CloseLog path) in
              IRet (match errors_Join [snd copied; closed] with
                    | Some e => Err e
                    | None => Ok (path, offset + Z.of_nat (String.length (fst copied)))
                    end)
          end
      end
  end.

Fixpoint follow_log (fuel : nat) (directory : string) (interval : duration) (follow : bool) (lastPath : string) (offset : Z)
    : gprog (option (option error)) :=
  match fuel with
  | O => IRet None
  | S fuel =>
      let^ read := read_round directory lastPath offset in
      match read with
      | Err e => IRet (Some (Some e))
      | Ok (path, offset) =>
          if negb follow then IRet (Some None)
          else
            let^ done_ := gask (FollowWait interval) in
            if done_ then IRet (Some None) else follow_log fuel directory interval follow path offset
      end
  end.

Definition safeJobID : regexp := Concat (CharClass alnum) (up_to 127 (CharClass name_class)).

Definition validateArtifactReadPath (root path : string) : gprog (option error) :=
  if negb (IsAbs root) || negb (IsAbs path) then IRet (Some (ErrNew "artifact root and indexed path must be absolute"))
  else
    let root := Clean root in
    let path := Clean path in
    let escapes := match Rel root path with
                   | Err _ => true
                   | Ok relative => String.eqb relative ".." || IsAbs relative || HasPrefix relative (".." +:+ String Separator "")
                   end in
    if escapes then IRet (Some (ErrNew ("indexed artifact path " +:+ Quote path +:+ " escapes configured root " +:+ Quote root)))
    else
      let^ unsafe := on_path (ensureNoReparsePoints path) in
      match unsafe with
      | Some e => IRet (Some (ErrWrap ("indexed artifact path " +:+ Quote path +:+ " is unsafe") e))
      | None =>
          let^ info := gask (LstatArtifact path) in
          IRet (match info with
                | Err e => if is_sentinel OsErrNotExist e then None else Some e
                | Ok regular => if regular then None else Some (ErrNew ("indexed artifact path " +:+ Quote path +:+ " is not a regular file"))
                end)
      end.

(** The number of artifacts written, or the error that ended the loop. *)
Fixpoint write_artifacts (artifacts : list (string * string)) (written : Z) : gprog (result error Z) :=
  match artifacts with
  | [] => IRet (Ok written)
  | (root, path) :: artifacts =>
      if String.eqb path "" then write_artifacts artifacts written
      else
        let^ invalid := validateArtifactReadPath root path in
        match invalid with
        | Some e => IRet (Err e)
        | None =>
            let^ info := gask (LstatArtifact path) in
            match info with
            | Err e => if is_sentinel OsErrNotExist e then write_artifacts artifacts written else IRet (Err e)
            | Ok true => let^ _ := say path in write_artifacts artifacts (written + 1)
            | Ok false => write_artifacts artifacts written
            end
        end
  end.

Definition writeJobArtifacts (jobs : bool) (jobID : string) : gprog (option error) :=
  let nothing := Some (ErrNew ("no diagnostic artifact found for job " +:+ Quote jobID)) in
  if negb (MatchString safeJobID jobID) then IRet (Some (ErrNew "job ID contains unsupported characters"))
  else if negb jobs then IRet (Some (ErrNew "job index is unavailable"))
  else
    let^ found := gask (FindJob jobID) in
    match found with
    | Err e => IRet (if is_sentinel ErrJobsNotFound e then nothing else Some e)
    | Ok record =>
        match ResourceEvidencePath (jr_DiagnosticPath record) with
        | Err e => IRet (Some e)
        | Ok resourcePath =>
            let diagnostics := pa_Diagnostics (c_Paths cfg) in
            let^ written := write_artifacts [(worker_log_directory, jr_LogPath record); (diagnostics, jr_DiagnosticPath record);
                                             (diagnostics, resourcePath)] 0 in
            IRet (match written with
                  | Err e => Some e
                  | Ok n => if n =? 0 then nothing else None
                  end)
        end
    end.

(** ** The command *)

(** Which parts the log reader was built with: the reader itself, its maintenance and
    the job index; and the poll interval. *)
Record FileLogs := mkFileLogs {
  fl_Present : bool;
  fl_Maintenance : bool;
  fl_Jobs : bool;
  fl_ControllerDirectory : string;
  fl_PollInterval : duration;
}.

Definition FileLogs_Write (fuel : nat) (f : FileLogs) (follow : bool) (jobID : string) : gprog (option (option error)) :=
  if negb (String.eqb jobID "") then let^ e := writeJobArtifacts (fl_Jobs f) jobID in IRet (Some e)
  else follow_log fuel (fl_ControllerDirectory f) (if fl_PollInterval f <=? 0 then Second else fl_PollInterval f) follow "" 0.

Definition modeCount (values : list bool) : Z := Z.of_nat (length (List.filter id values)).

Definition logs_flags : list (string * FlagKind) :=
  [("follow", FlagBool); ("job", FlagString); ("cleanup", FlagBool); ("audit", FlagBool); ("purge", FlagBool); ("confirm", FlagBool); ("json", FlagBool)].

(** The modes that a command line asks for; values set before an error count. *)
Definition logs_modes (values : list (string * string)) : Z :=
  modeCount [flag_bool values "follow"; negb (String.eqb (flag_string values "job") ""); flag_bool values "cleanup";
             flag_bool values "audit"; flag_bool values "purge"].

Definition logs (fuel : nat) (f : FileLogs) (args : list string) : gprog (option Z) :=
  let scanned := scan_flags logs_flags args in
  let values := fst scanned in
  let on name := flag_bool values name in
  if 1 <? logs_modes values then stop "--follow, --job, --cleanup, --audit, and --purge are mutually exclusive" ExitUsage
  else match snd scanned with
  | Some [] =>
      if on "json" && negb (on "audit") && negb (on "purge") then stop "--json requires --audit or --purge" ExitUsage
      else if on "confirm" && negb (on "purge") then stop "--confirm requires --purge" ExitUsage
      else if negb (fl_Present f) then stop "log reader is unavailable" ExitInvalidConfig
      else if on "cleanup" then
        let^ failed := if fl_Maintenance f then maintenance_Cleanup else IRet (Some (ErrNew "artifact cleanup is unavailable")) in
        match failed with
        | Some e => stop ("clean up worker artifacts: " +:+ error_text e) ExitRuntime
        | None => let^ _ := say "Finalized worker-artifact retention cleanup completed." in IRet (Some ExitOK)
        end
      else if on "audit" then
        let^ audited := if fl_Maintenance f then maintenance_Audit else IRet (Err (ErrNew "worker artifact audit is unavailable")) in
        match audited with
        | Err e => stop ("audit worker artifacts: " +:+ error_text e) ExitRuntime
        | Ok report =>
            if on "json" then
              let^ encoded := gask (EncodeAudit report) in
              match encoded with Some e => stop ("encode audit report: " +:+ error_text e) ExitRuntime | None => IRet (Some ExitOK) end
            else let^ _ := writeArtifactAudit report in IRet (Some ExitOK)
        end
      else if on "purge" then
        let^ purged := if fl_Maintenance f then maintenance_Purge (negb (on "confirm")) else IRet (Err (ErrNew "worker artifact purge is unavailable")) in
        match purged with
        | Err e => stop ("purge unreferenced worker artifacts: " +:+ error_text e) ExitRuntime
        | Ok result =>
            if on "json" then
              let^ encoded := gask (EncodePurge result) in
              match encoded with Some e => stop ("encode purge result: " +:+ error_text e) ExitRuntime | None => IRet (Some ExitOK) end
            else let^ _ := writeArtifactPurge result in IRet (Some ExitOK)
        end
      else
        let^ written := FileLogs_Write fuel f (on "follow") (flag_string values "job") in
        match written with
        | None => IRet None
        | Some (Some e) => stop ("read logs: " +:+ error_text e) ExitRuntime
        | Some None => IRet (Some ExitOK)
        end
  | _ => IRet (Some ExitUsage)
  end.

End Maintenance.
