(* ===== verification/LogsFacts.v ===== *)
(** What the log command guarantees: it removes files only for a cleanup or a confirmed
    purge, and a follower prints every byte of a log once and in order. *)

From S2P Require Import Prelude Float64 GoStrings Regexp Model Config GoText Validate Errors JobIndex Effects Reconciler FileSystem Store Interaction Evidence Docker Artifacts ArtifactsFacts Watchdog Cli Doctor Secret Inspector InspectorFacts Logs ConfigSamples.
From stdpp Require Import pretty.
From Stdlib Require Import Ascii.
#[local] Open Scope Z_scope.
Open Scope i_scope.

(** ** Removals *)

Definition removes_file (e : event gresp) : bool :=
  match projT1 e with OnArtifacts (FS (Remove _)) => true | _ => false end.

Definition artifact_event (e : event aresp) : event gresp := existT (OnArtifacts (projT1 e)) (projT2 e).
Definition path_event (e : event vresp) : event gresp := existT (OnPath (projT1 e)) (projT2 e).

Lemma on_artifacts_runs {A} (p : iprog aresp A) tr a :
  iruns (on_artifacts p) tr a -> exists tr', iruns p tr' a /\ tr = map artifact_event tr'.
Proof.
  revert tr. induction p as [b|c k IH]; intros tr Hr; cbn [on_artifacts] in Hr.
  - apply iruns_inv in Hr as [-> ->]. exists []. split; [constructor|done].
  - apply iruns_inv in Hr as (r & t & -> & Hr). apply IH in Hr as (t' & Hr & ->). exists (ev c r :: t'). split; [by constructor|done].
Qed.

Lemma on_path_runs {A} (p : vprog A) tr a : iruns (on_path p) tr a -> exists tr', iruns p tr' a /\ tr = map path_event tr'.
Proof.
  revert tr. induction p as [b|c k IH]; intros tr Hr; cbn [on_path] in Hr.
  - apply iruns_inv in Hr as [-> ->]. exists []. split; [constructor|done].
  - apply iruns_inv in Hr as (r & t & -> & Hr). apply IH in Hr as (t' & Hr & ->). exists (ev c r :: t'). split; [by constructor|done].
Qed.

Lemma on_artifacts_avoids {A} (p : iprog aresp A) : avoids is_removal p -> avoids removes_file (on_artifacts p).
Proof.
  intros Hp tr a (t & Hr & ->)%on_artifacts_runs. apply Hp in Hr. rewrite Forall_map. eapply Forall_impl; [exact Hr|].
  intros [c r]. unfold is_removal, removes_file. simpl. by destruct c as [[]| | | | | | | | | | | |].
Qed.

Lemma on_path_avoids {A} (p : vprog A) : avoids removes_file (on_path p).
Proof. intros tr a (t & Hr & ->)%on_path_runs. rewrite Forall_map. apply Forall_forall. by intros [c r] _. Qed.

Lemma say_avoids text : avoids removes_file (say text).
Proof. apply avoids_call; [done|]. intros. apply avoids_ret. Qed.
Lemma stop_avoids text code : avoids removes_file (stop text code).
Proof. apply avoids_call; [done|]. intros. apply avoids_ret. Qed.
Lemma say_all_avoids lines : avoids removes_file (say_all lines).
Proof. induction lines as [|l lines IH]; cbn [say_all]; [apply avoids_ret|]. apply avoids_ibind; [apply say_avoids|done]. Qed.

#[local] Hint Resolve say_avoids stop_avoids say_all_avoids on_path_avoids : avoids.

Section Commands.
Context {MR : MapRange} {PF : Platform} {FP : FilePath} {VO : Volumes} {UC : Unicode} {ET : EvidenceText} {GZ : Gzip}.
Context (cfg : Config) (version : string).

Lemma prepare_directories_avoids ds : avoids removes_file (prepare_directories ds).
Proof. induction ds as [|d ds IH]; cbn [prepare_directories]; unfold gask; solve_avoids; apply IH. Qed.

Lemma secure_directories_avoids l : avoids is_removal (secure_directories l).
Proof.
  induction l as [|[name d] l IH]; cbn [secure_directories]; solve_avoids; try apply IH.
  destruct r; [apply avoids_ret|]. apply avoids_call; [done|]. intros. apply avoids_ret.
Qed.

Lemma newWorkerArtifactSink_avoids : avoids removes_file (newWorkerArtifactSink cfg).
Proof.
  unfold newWorkerArtifactSink. apply avoids_ibind; [apply prepare_directories_avoids|]. intros [e|]; [apply avoids_ret|].
  apply on_artifacts_avoids. unfold NewFileArtifactSink. solve_avoids. apply secure_directories_avoids.
Qed.

Lemma Audit_avoids artifacts adopted available text : avoids is_removal (Audit artifacts adopted available text).
Proof.
  unfold Audit, loadCatalogStrict. apply avoids_ibind; [solve_avoids|]. intros [records|e];
    intros tr [report failed] Hr; apply buildAuditReport_runs in Hr as [Hr _]; (eapply no_removal; [exact Hr|apply reading_keeps]).
Qed.

Lemma maintenance_Audit_avoids : avoids removes_file (maintenance_Audit cfg version).
Proof.
  unfold maintenance_Audit. apply avoids_ibind; [apply newWorkerArtifactSink_avoids|]. intros [artifacts|e]; [|apply avoids_ret].
  unfold inventory, gask. apply avoids_call; [done|]. intros adopted. cbn [ibind]. apply avoids_ibind; [|intros; apply avoids_ret].
  apply on_artifacts_avoids. destruct adopted; apply Audit_avoids.
Qed.

Lemma maintenance_Purge_dry_avoids : avoids removes_file (maintenance_Purge cfg version true).
Proof.
  unfold maintenance_Purge. apply avoids_ibind; [apply newWorkerArtifactSink_avoids|]. intros [artifacts|e]; [|apply avoids_ret].
  unfold inventory, gask. apply avoids_call; [done|]. intros adopted. cbn [ibind]. destruct adopted as [adopted|e]; [|apply avoids_ret].
  apply avoids_ibind; [|intros; apply avoids_ret]. apply on_artifacts_avoids.
  intros tr out Hr. apply Forall_forall. intros e Hin. apply not_true_iff_false. intros He.
  apply list_elem_of_split in Hin as (before & after & ->). unfold is_removal in He. destruct (projT1 e) as [[]| | | | | | | | | | | |] eqn:Hc; try done.
  by destruct (purge_spares_referenced artifacts adopted true _ out before e after path (or_introl Hr) eq_refl Hc) as [[=] _].
Qed.

Lemma read_round_avoids directory lastPath offset : avoids removes_file (read_round directory lastPath offset).
Proof. unfold read_round, newestRegularFile, gask. solve_avoids. Qed.

Lemma follow_log_avoids fuel directory interval follow lastPath offset : avoids removes_file (follow_log fuel directory interval follow lastPath offset).
Proof.
  revert lastPath offset. induction fuel as [|fuel IH]; intros lastPath offset; cbn [follow_log]; [apply avoids_ret|].
  apply avoids_ibind; [apply read_round_avoids|]. intros [[path o]|e]; [|apply avoids_ret]. unfold gask. solve_avoids.
Qed.

Lemma write_artifacts_avoids artifacts written : avoids removes_file (write_artifacts artifacts written).
Proof.
  revert written. induction artifacts as [|[root path] artifacts IH]; intros written; cbn [write_artifacts]; [apply avoids_ret|].
  destruct (String.eqb path ""); [apply IH|]. unfold validateArtifactReadPath, gask. solve_avoids; apply IH.
Qed.

Lemma FileLogs_Write_avoids fuel f follow jobID : avoids removes_file (FileLogs_Write cfg fuel f follow jobID).
Proof.
  unfold FileLogs_Write. destruct (negb _); [|apply follow_log_avoids]. unfold writeJobArtifacts, gask. solve_avoids.
  apply write_artifacts_avoids.
Qed.

Lemma writeArtifactAudit_avoids report : avoids removes_file (writeArtifactAudit report).
Proof. apply say_all_avoids. Qed.
Lemma writeArtifactPurge_avoids result : avoids removes_file (writeArtifactPurge result).
Proof. apply say_all_avoids. Qed.

#[local] Hint Resolve maintenance_Audit_avoids maintenance_Purge_dry_avoids FileLogs_Write_avoids writeArtifactAudit_avoids writeArtifactPurge_avoids : avoids.

(** The log command removes a file only on request.  Whatever the file system, Docker
    and the job index answer, a run that removes a file was given [--cleanup], or both
    [--purge] and [--confirm]; reading, following and auditing remove nothing. *)
Theorem logs_remove_on_request fuel f args tr code e :
  iruns (logs cfg version fuel f args) tr code -> e ∈ tr -> removes_file e = true ->
  let values := fst (scan_flags logs_flags args) in
  flag_bool values "cleanup" = true \/ flag_bool values "purge" = true /\ flag_bool values "confirm" = true.
Proof.
  intros Hr Hin He values. unfold logs in Hr. fold values in Hr.
  destruct (flag_bool values "cleanup"); [by left|]. right.
  destruct (flag_bool values "purge"), (flag_bool values "confirm"); [done|exfalso..];
    (assert (Hall : Forall (fun e => removes_file e = false) tr); [|rewrite Forall_forall in Hall; by rewrite (Hall _ Hin) in He]);
    revert tr code Hr Hin; clear He;
    match goal with |- forall tr code, iruns ?p tr code -> _ => assert (Ha : avoids removes_file p); [|intros tr code Hr _; by eapply Ha] end;
    cbn [negb andb]; solve_avoids.
Qed.

End Commands.

(** ** The artifacts of a job *)

Section JobArtifacts.
Context {PF : Platform} {FP : FilePath} {VO : Volumes}.

(** The path lies below the root, no component of it is a reparse point as far as it
    exists, and it is a regular file. *)
Record safely_inside (tr : list (event gresp)) (root path : string) : Prop := {
  si_absolute : IsAbs root = true /\ IsAbs path = true;
  si_relative : exists relative, Rel (Clean root) (Clean path) = Ok relative /\ relative <> ".." /\ IsAbs relative = false
                                 /\ HasPrefix relative (".." +:+ String Separator "") = false;
  si_components : exists walk, map path_event walk ⊆ tr /\ path_clean walk (Clean path);
  si_regular : ev (LstatArtifact path) (Ok true) ∈ tr;
}.

Lemma safely_inside_mono tr tr' root path : tr ⊆ tr' -> safely_inside tr root path -> safely_inside tr' root path.
Proof. intros Hs [Ha Hr (walk & Hw & Hc) Hl]. constructor; [done|done| |by apply Hs]. exists walk. split; [by etrans|done]. Qed.

Lemma validate_read_path root path tr :
  iruns (validateArtifactReadPath root path) tr None ->
  (IsAbs root = true /\ IsAbs path = true)
  /\ (exists relative, Rel (Clean root) (Clean path) = Ok relative /\ relative <> ".." /\ IsAbs relative = false
                       /\ HasPrefix relative (".." +:+ String Separator "") = false)
  /\ exists walk, map path_event walk ⊆ tr /\ path_clean walk (Clean path).
Proof.
  unfold validateArtifactReadPath. intros Hr. destruct (IsAbs root), (IsAbs path); cbn [negb orb] in Hr; try by inv_runs.
  split; [done|]. destruct (Rel (Clean root) (Clean path)) as [relative|e]; [|by inv_runs].
  destruct (_ || _ || _) eqn:Hb; [by inv_runs|]. rewrite !orb_false_iff, String.eqb_neq in Hb. split; [exists relative; tauto|].
  apply iruns_bind_inv in Hr as (t1 & t2 & unsafe & Hp & Hr & ->). destruct unsafe as [e|]; [by inv_runs|].
  apply on_path_runs in Hp as (walk & Hp & ->). exists walk. split; [set_solver|]. by apply ensureNoReparsePoints_clean.
Qed.

Definition spoken (e : event gresp) : option string := match projT1 e with LogOut text => Some text | _ => None end.

Lemma validate_read_path_quiet root path tr r : iruns (validateArtifactReadPath root path) tr r -> omap spoken tr = [].
Proof.
  unfold validateArtifactReadPath. intros Hr. destruct (_ || _); [by inv_runs|]. destruct (match Rel _ _ with Ok _ => _ | Err _ => _ end); [by inv_runs|].
  apply iruns_bind_inv in Hr as (t1 & t2 & unsafe & Hp & Hr & ->). apply on_path_runs in Hp as (walk & _ & ->). rewrite omap_app.
  assert (Hw : omap spoken (map path_event walk) = []) by (induction walk as [|[c x] walk IH]; [done|exact IH]). rewrite Hw.
  destruct unsafe as [e|]; [by inv_runs|]. unfold gask in Hr. apply iruns_inv in Hr as (info & t & -> & Hr). cbn [ibind] in Hr. by inv_runs.
Qed.

Lemma write_artifacts_inside artifacts written tr r :
  iruns (write_artifacts artifacts written) tr r ->
  Forall (fun text => exists root path, text = path +:+ newline /\ (root, path) ∈ artifacts /\ safely_inside tr root path) (omap spoken tr).
Proof.
  revert written tr. induction artifacts as [|[root path] artifacts IH]; intros written tr Hr; cbn [write_artifacts] in Hr; [by inv_runs; constructor|].
  assert (Hweak : forall t1 t2 l, Forall (fun text => exists root path, text = path +:+ newline /\ (root, path) ∈ artifacts /\ safely_inside t2 root path) l ->
    t2 ⊆ t1 -> Forall (fun text => exists r p, text = p +:+ newline /\ (r, p) ∈ (root, path) :: artifacts /\ safely_inside t1 r p) l).
  { intros t1 t2 l Hl Hs. eapply Forall_impl; [exact Hl|]. intros text (r' & p' & -> & Hin & Hsafe). exists r', p'.
    split_and!; [done|by right|by eapply safely_inside_mono]. }
  destruct (String.eqb path ""); [eapply Hweak; [by eapply IH|done]|].
  apply iruns_bind_inv in Hr as (t1 & t2 & invalid & Hv & Hr & ->). rewrite omap_app, (validate_read_path_quiet _ _ _ _ Hv), app_nil_l.
  destruct invalid as [e|]; [by inv_runs; constructor|]. apply validate_read_path in Hv as (Habs & Hrel & walk & Hw & Hclean).
  unfold gask in Hr. apply iruns_inv in Hr as (info & t3 & -> & Hr). cbn [ibind] in Hr. cbn [omap list_omap spoken projT1 ev].
  destruct info as [[]|e].
  - unfold say, gask in Hr. apply iruns_inv in Hr as ([] & t4 & -> & Hr). cbn [ibind] in Hr. cbn [omap list_omap spoken projT1 ev]. constructor.
    + exists root, path. split_and!; [done|by left|]. constructor; [done|done| |set_solver]. exists walk. split; [set_solver|done].
    + eapply Hweak; [by eapply IH|set_solver].
  - eapply Hweak; [by eapply IH|set_solver].
  - destruct (is_sentinel OsErrNotExist e); [eapply Hweak; [by eapply IH|set_solver]|by inv_runs; constructor].
Qed.

(** The artifacts named for a job lie in the artifact directories.  Whatever the job
    index holds, a line that is printed for a job is the path of a regular file below
    the worker log directory or the diagnostics directory, with no reparse point on
    the way. *)
Theorem job_artifacts_stay_inside cfg jobs jobID tr r text :
  iruns (writeJobArtifacts cfg jobs jobID) tr r -> ev (LogOut text) () ∈ tr ->
  exists root path, text = path +:+ newline /\ root ∈ [filepath_Join (pa_Logs (c_Paths cfg)) "workers"; pa_Diagnostics (c_Paths cfg)]
                    /\ safely_inside tr root path.
Proof.
  unfold writeJobArtifacts, gask. intros Hr Hin. assert (Hsp : text ∈ omap spoken tr) by (apply list_elem_of_omap; by exists (ev (LogOut text) ())).
  clear Hin. destruct (negb (MatchString _ _)); [inv_runs; by apply elem_of_nil in Hsp|].
  destruct (negb jobs); [inv_runs; by apply elem_of_nil in Hsp|].
  apply iruns_inv in Hr as (found & t & -> & Hr). cbn [ibind] in Hr. destruct found as [record|e]; [|inv_runs; by apply elem_of_nil in Hsp].
  destruct (ResourceEvidencePath _) as [resource|e]; [|inv_runs; by apply elem_of_nil in Hsp].
  apply iruns_bind_inv in Hr as (t1 & t2 & written & Hw & Hr & ->). apply iruns_inv in Hr as [-> _]. rewrite app_nil_r in *.
  apply write_artifacts_inside in Hw. rewrite Forall_forall in Hw. destruct (Hw text Hsp) as (root & path & -> & Hin & Hsafe).
  exists root, path. split_and!; [done|unfold worker_log_directory in Hin; set_solver|]. eapply safely_inside_mono; [|exact Hsafe]. set_solver.
Qed.
End JobArtifacts.

(** ** Following *)

(** The copies of a run: the file, the offset and the bytes that were printed. *)
Definition copy_of (e : event gresp) : option (string * Z * string) :=
  match e with existT (CopyLog path offset) (bytes, _) => Some (path, offset, bytes) | _ => None end.
Definition copies (tr : list (event gresp)) : list (string * Z * string) := omap copy_of tr.

(** Every copy starts where the last one of the same file ended, or at the start of a
    file that was not the last one. *)
Fixpoint chained (lastPath : string) (offset : Z) (l : list (string * Z * string)) : Prop :=
  match l with
  | [] => True
  | (path, o, bytes) :: l =>
      o = (if decide (path = lastPath) then offset else 0) /\ chained path (o + Z.of_nat (String.length bytes)) l
  end.

Section Following.
Context {PF : Platform} {FP : FilePath}.

Lemma read_round_copies directory lastPath offset tr r :
  iruns (read_round directory lastPath offset) tr r ->
  match r with
  | Ok (path, next) => exists o bytes, copies tr = [(path, o, bytes)] /\ o = (if decide (path = lastPath) then offset else 0)
                                       /\ next = o + Z.of_nat (String.length bytes)
  | Err _ => copies tr = [] \/ exists path o bytes, copies tr = [(path, o, bytes)] /\ o = (if decide (path = lastPath) then offset else 0)
  end.
Proof.
  unfold read_round, newestRegularFile, gask. intros Hr.
  apply iruns_inv in Hr as (entries & t & -> & Hr). cbn [ibind] in Hr.
  destruct (match entries with Ok _ => _ | Err _ => _ end) as [path|e]; [|inv_runs; by left].
  apply iruns_inv in Hr as (opened & t1 & -> & Hr). cbn [ibind] in Hr. destruct opened as [e|]; [inv_runs; by left|].
  apply iruns_inv in Hr as (sought & t2 & -> & Hr). cbn [ibind] in Hr. destruct sought as [e|]; [inv_runs; by left|].
  apply iruns_inv in Hr as ([bytes failed] & t3 & -> & Hr). cbn [ibind] in Hr.
  apply iruns_inv in Hr as (closed & t4 & -> & Hr). cbn [ibind] in Hr. apply iruns_inv in Hr as [-> ->].
  assert (Ho : (if String.eqb path lastPath then offset else 0) = (if decide (path = lastPath) then offset else 0)).
  { destruct (String.eqb_spec path lastPath); by case_decide. }
  simpl. destruct (errors_Join _); [right; eauto|]. by eexists _, _.
Qed.

Lemma copies_app t1 t2 : copies (t1 ++ t2) = copies t1 ++ copies t2.
Proof. unfold copies. apply omap_app. Qed.

Lemma follow_log_chained fuel directory interval follow lastPath offset tr r :
  iruns (follow_log fuel directory interval follow lastPath offset) tr r -> chained lastPath offset (copies tr).
Proof.
  revert lastPath offset tr. induction fuel as [|fuel IH]; intros lastPath offset tr Hr; cbn [follow_log] in Hr; [by inv_runs|].
  apply iruns_bind_inv in Hr as (t1 & t2 & read & Hread & Hr & ->). apply read_round_copies in Hread. rewrite copies_app.
  destruct read as [[path next]|e].
  - destruct Hread as (o & bytes & -> & -> & ->). destruct follow; cbn [negb] in Hr; [|inv_runs; by split].
    unfold gask in Hr. apply iruns_inv in Hr as (done_ & t3 & -> & Hr). cbn [ibind] in Hr. destruct done_; [inv_runs; by split|].
    split; [done|]. exact (IH _ _ _ Hr).
  - apply iruns_inv in Hr as [-> _]. change (copies []) with (@nil (string * Z * string)). rewrite app_nil_r.
    destruct Hread as [->|(path & o & bytes & -> & ->)]; [exact I|]. by split.
Qed.
End Following.

Definition printed (l : list (string * Z * string)) : string := concat_strings (map snd l).

Lemma chained_prints path content stretch : forall before,
  chained path (Z.of_nat (String.length before)) stretch -> Forall (fun c => c.1.1 = path) stretch ->
  (exists rest, content = before +:+ rest) ->
  (forall p o bytes, (p, o, bytes) ∈ stretch -> exists rest, drop_bytes (Z.to_nat o) content = bytes +:+ rest) ->
  exists rest, content = before +:+ printed stretch +:+ rest.
Proof.
  induction stretch as [|[[p o] bytes] stretch IH]; intros before Hc Hp (rest & ->) Hread; cbn [chained] in Hc; [by exists rest|].
  apply Forall_cons in Hp as [Hp1 Hp]. simpl in Hp1. subst p. rewrite decide_True in Hc by done. destruct Hc as [-> Hc].
  destruct (Hread path (Z.of_nat (String.length before)) bytes ltac:(left)) as (rest' & Hdrop).
  rewrite Nat2Z.id, drop_bytes_app in Hdrop. subst rest.
  destruct (IH (before +:+ bytes)) as (rest & Heq); [|done|by exists rest'; rewrite string_app_assoc| |].
  - rewrite string_app_length, Nat2Z.inj_add. done.
  - intros p o b Hin. rewrite <- string_app_assoc. rewrite string_app_assoc. apply Hread with p. by right.
  - exists rest. rewrite Heq. unfold printed. simpl. by rewrite !string_app_assoc.
Qed.

Lemma chained_prefix l1 l2 lastPath offset : chained lastPath offset (l1 ++ l2) -> chained lastPath offset l1.
Proof.
  revert lastPath offset. induction l1 as [|[[p o] x] l1 IH]; intros lastPath offset; cbn [app chained]; [done|].
  intros [-> Hx]. split; [done|]. by apply IH.
Qed.

(** A file that was not the last one is read from its start. *)
Lemma chained_stretch before stretch after path lastPath offset :
  chained lastPath offset (before ++ stretch ++ after) -> Forall (fun c => c.1.1 = path) stretch ->
  (match last before with Some (p, _, _) => p | None => lastPath end) <> path -> chained path 0 stretch.
Proof.
  intros Hc Hp. revert lastPath offset Hc. induction before as [|[[p o] b] before IH]; intros lastPath offset Hc Hl; cbn [app chained] in Hc.
  - destruct stretch as [|[[p o] b] stretch]; [done|]. apply Forall_cons in Hp as [Hp1 Hp]. simpl in Hp1. subst p.
    cbn [app chained] in Hc |- *. destruct Hc as [-> Hc]. simpl in Hl. rewrite decide_False in Hc |- * by congruence.
    rewrite decide_True by done. split; [done|]. by eapply chained_prefix.
  - destruct Hc as [_ Hc]. eapply IH; [exact Hc|]. rewrite last_cons in Hl. by destruct (last before) as [[[? ?] ?]|].
Qed.

(** A follower prints a log once and in order.  Take any stretch of reads of one file
    between reads of others, and the content that file ends with; when every read gave
    what the file held from its offset on, the text that was printed is a prefix of
    that content: no byte is missing, repeated or out of place. *)
Theorem follow_prints_once `{Platform, FilePath} fuel directory interval follow tr r before stretch after path content :
  iruns (follow_log fuel directory interval follow "" 0) tr r ->
  copies tr = before ++ stretch ++ after -> path <> "" ->
  Forall (fun c => c.1.1 = path) stretch -> (forall p o b, last before = Some (p, o, b) -> p <> path) ->
  (forall p o bytes, (p, o, bytes) ∈ stretch -> exists rest, drop_bytes (Z.to_nat o) content = bytes +:+ rest) ->
  exists rest, content = printed stretch +:+ rest.
Proof.
  intros Hr Hc Hne Hp Hlast Hread. apply follow_log_chained in Hr. rewrite Hc in Hr.
  assert (Hst : chained path 0 stretch).
  { eapply chained_stretch; [exact Hr|done|]. destruct (last before) as [[[p o] b]|] eqn:Hlb; [by eapply Hlast|done]. }
  destruct (chained_prints path content stretch "") as (rest & Heq); [exact Hst|done|by exists content|done|]. by exists rest.
Qed.

(** ** Concrete runs *)

#[local] Instance log_platform : Platform := {| write_through := false; Separator := "/"%char |}.
#[local] Instance log_paths : FilePath := {| IsAbs := fun _ => true; Clean := fun p => p |}.

(** A log that grows by one entry between two polls. *)
Definition growing_log (c : gcall) (tr : list (event gresp)) : gresp c :=
  match c with
  | LogOut _ | LogErr _ => tt
  | EncodeAudit _ | EncodePurge _ | OpenLog _ | SeekLog _ _ | CloseLog _ | MakeDirectory _ | HardenDirectory _ => None
  | ListLogs _ => Ok [mkLogFile "old.log" true (Ok 1); mkLogFile "controller.log" true (Ok 2)]
  | CopyLog _ offset => (if offset =? 0 then "one " else "two", None)
  | FollowWait _ => existsb (fun e => match projT1 e with FollowWait _ => true | _ => false end) tr
  | FindJob _ => Err ErrJobsNotFound
  | LstatArtifact _ => Ok true
  | LocalInventory _ _ => Ok []
  | OnPath c => private_answers c []
  | OnArtifacts c => ArtifactSamples.world c []
  end.

Definition followed : list (event gresp) * option (option error) := irun growing_log (follow_log 3 "/logs" Second true "" 0) [].

Lemma follow_prints_once_witness :
  copies (fst followed) = [("/logs/controller.log", 0, "one "); ("/logs/controller.log", 4, "two")] /\
  exists rest, "one two" = printed (copies (fst followed)) +:+ rest.
Proof.
  assert (Hc : copies (fst followed) = [("/logs/controller.log", 0, "one "); ("/logs/controller.log", 4, "two")]) by (vm_compute; reflexivity).
  split; [exact Hc|]. rewrite Hc.
  apply (follow_prints_once 3 "/logs" Second true (fst followed) (snd followed) []
           [("/logs/controller.log", 0, "one "); ("/logs/controller.log", 4, "two")] [] "/logs/controller.log").
  - apply (irun_iruns growing_log _ []). apply surjective_pairing.
  - exact Hc.
  - discriminate.
  - repeat constructor.
  - discriminate.
  - intros p o bytes Hin. apply elem_of_cons in Hin as [[= -> -> ->]|Hin]; [by exists "two"|].
    apply list_elem_of_singleton in Hin as [= -> -> ->]. by exists "".
Defined.

#[local] Instance log_volumes : Volumes := {| VolumeName := fun _ => ""; sameWord := String.eqb |}.
#[local] Instance log_evidence : EvidenceText := {|
  decode_evidence _ := Err (ErrNew "no evidence"); ends_after_value _ := true; marshal_indent _ := Ok "{}";
  parse_rfc3339 _ := None; format_rfc3339 _ := "" |}.

(** A confirmed purge removes the file that nobody knows. *)
Definition reader : FileLogs := mkFileLogs true true true "/logs" Second.
Definition purging : list (event gresp) * option Z :=
  irun growing_log (logs full_config "1.2.3" 1 reader ["--purge"; "--confirm"]) [].

Lemma logs_remove_on_request_witness :
  existsb removes_file (fst purging) = true /\
  (let values := fst (scan_flags logs_flags ["--purge"; "--confirm"]) in
   flag_bool values "cleanup" = true \/ flag_bool values "purge" = true /\ flag_bool values "confirm" = true).
Proof.
  assert (Hx : existsb removes_file (fst purging) = true) by (vm_compute; reflexivity). split; [exact Hx|].
  apply existsb_exists in Hx as (e & Hin & He). apply list_elem_of_In in Hin.
  apply (logs_remove_on_request full_config "1.2.3" 1 reader ["--purge"; "--confirm"] (fst purging) (snd purging) e); [|exact Hin|exact He].
  apply (irun_iruns growing_log _ []). apply surjective_pairing.
Defined.
