(* ===== verification/Bootstrap.v ===== *)
(** The processes put together (internal/app/bootstrap.go, controller_main.go,
    release_command.go): how the tool and the controller find and load their
    configuration, the validation commands, the checks that precede the application,
    and the construction of the controller with the release of what it built.

    Building a component is a call that answers its error; the telemetry provider, the
    manifest and the checks of private directories are the programs of their own files,
    run inside this one.  What the environment holds is asked for by name. *)

From S2P Require Import Prelude Float64 GoStrings Regexp Model Config GoText Validate Errors Effects Reconciler FileSystem Store Interaction Watchdog ControllerLoop Cli Doctor Artifacts Secret Inspector ExportNotices Telemetry.
From stdpp Require Import pretty.
From Stdlib Require Import Ascii.
#[local] Open Scope Z_scope.
Open Scope i_scope.
#[local] Open Scope result_scope.

(** ** Calls *)

(** What the controller's process builds, in this order. *)
Inductive component := StateMutex | StateStore | JobStore | ScaleSetClient | WorkerRuntime | ControlReconciler | ControlHandler | ControlServer.

#[export] Instance component_eq_dec : EqDecision component.
Proof. solve_decision. Defined.

Record configValidationResult := mkConfigValidationResult {
  cv_SchemaVersion : Z;
  cv_Valid : bool;
  cv_HostID : string;
  cv_TargetCount : Z;
  cv_CompatibilityManifest : string;
  cv_Secrets : string;
  cv_State : string;
  cv_Logs : string;
  cv_Diagnostics : string;
}.

Record releaseValidationResult := mkReleaseValidationResult {
  rv_SchemaVersion : Z;
  rv_Valid : bool;
  rv_Error : string;
  rv_ControllerVersion : string;
  rv_ReleaseVersion : string;
  rv_SourceSHA : string;
  rv_WorkerReference : string;
}.

Definition releaseValidationResult_zero : releaseValidationResult := mkReleaseValidationResult 1 false "" "" "" "" "".

Inductive bcall :=
  | Getenv (name : string)
  | UserConfigDir
  | OpenConfig (path : string)
  | LoadConfig
  | CloseConfig
  | EmitConfig (result : configValidationResult)
  | EmitConfigError (text : string)
  | EmitRelease (result : releaseValidationResult)
  | BootOut (text : string)
  | BootErr (text : string)
  | VerifySecretACL (path : string)
  | OpenLogs (directory : string)
  | LogEvent (code message : string)
  | CloseLogs
  | Build (c : component)
  | CloseComponent (c : component)
  | RunLoop
  | NewControlClient
  | NewApplication
  | RunApplication (args : list string)
  | InPaths (c : vcall)
  | InTelemetry (c : xcall).

(** [Getenv] is the empty text for a variable that is not set; [LoadConfig] gives the
    warnings with the configuration. *)
Definition bresp (c : bcall) : Type :=
  match c with
  | Getenv _ => string
  | UserConfigDir => result error string
  | LoadConfig => result error (Config * list string)
  | OpenConfig _ | CloseConfig | EmitConfig _ | EmitRelease _ | VerifySecretACL _ | OpenLogs _ | Build _ | RunLoop
  | NewControlClient | NewApplication => option error
  | EmitConfigError _ | BootOut _ | BootErr _ | LogEvent _ _ | CloseLogs | CloseComponent _ => unit
  | RunApplication _ => Z
  | InPaths c => vresp c
  | InTelemetry c => xresp c
  end.

Abbreviation bprog := (iprog bresp).
Definition bask (c : bcall) : bprog (bresp c) := icall c.

Fixpoint in_paths {A} (p : vprog A) : bprog A :=
  match p with IRet a => IRet a | ICall c k => ICall (InPaths c) (fun r => in_paths (k r)) end.
Fixpoint in_telemetry {A} (p : xprog A) : bprog A :=
  match p with IRet a => IRet a | ICall c k => ICall (InTelemetry c) (fun r => in_telemetry (k r)) end.

Definition boot_err (text : string) (code : Z) : bprog Z := let^ _ := bask (BootErr (text +:+ newline)) in IRet code.

(** ** The configuration's path *)

Section Paths.
Context `{Platform, FilePath, Unicode}.

Definition defaultConfigPath : bprog (result error string) :=
  let^ local := bask (Getenv "LOCALAPPDATA") in
  if negb (String.eqb local "") then IRet (Ok (filepath_Join (filepath_Join local "ci-runner") "config.yaml"))
  else
    let^ base := bask UserConfigDir in
    IRet (match base with
          | Err e => Err (ErrWrap "resolve local configuration directory" e)
          | Ok base => Ok (filepath_Join (filepath_Join base "ci-runner") "config.yaml")
          end).

(** The path given among the arguments, if any, and the arguments that remain. *)
Definition config_argument (path : string) (args : list string) : result error (string * list string) :=
  match args with
  | [] => Ok (path, [])
  | a :: rest =>
      if String.eqb a "--config" then
        match rest with
        | p :: rest => if String.eqb (TrimSpace p) "" then Err (ErrNew "--config requires an absolute path") else Ok (p, rest)
        | [] => Err (ErrNew "--config requires an absolute path")
        end
      else if HasPrefix a "--config=" then
        let p := TrimPrefix a "--config=" in
        if String.eqb (TrimSpace p) "" then Err (ErrNew "--config requires an absolute path") else Ok (p, rest)
      else Ok (path, args)
  end.

Definition resolveConfigArgument (args : list string) : bprog (result error (string * list string)) :=
  let^ set := bask (Getenv "CI_RUNNER_CONFIG") in
  let^ path := if String.eqb set "" then defaultConfigPath else IRet (Ok set) in
  IRet (match path with
        | Err e => Err e
        | Ok path =>
            match args with
            | [] => Ok (path, args)
            | _ =>
                match config_argument path args with
                | Err e => Err e
                | Ok (path, args) => if negb (IsAbs path) then Err (ErrNew "configuration path must be absolute") else Ok (Clean path, args)
                end
            end
        end).

(** ** Validation commands *)

Definition labelled (name : string) (r : result string string) : result error string :=
  match r with Ok p => Ok p | Err e => Err (ErrWrap name (ErrNew e)) end.

Definition newConfigValidationResult (cfg : Config) : result error configValidationResult :=
  let canonical name path := labelled name (CanonicalWindowsLocalPath path) in
  let! manifest := canonical "release.compatibilityManifest" (c_CompatibilityManifest cfg) in
  let! secrets := canonical "paths.secrets" (pa_Secrets (c_Paths cfg)) in
  let! state := canonical "paths.state" (pa_State (c_Paths cfg)) in
  let! logs := canonical "paths.logs" (pa_Logs (c_Paths cfg)) in
  let! diagnostics := canonical "paths.diagnostics" (pa_Diagnostics (c_Paths cfg)) in
  Ok (mkConfigValidationResult 1 true (ho_ID (c_Host cfg)) (Z.of_nat (length (c_Targets cfg))) manifest secrets state logs diagnostics).

Definition runConfigCommand (cfg : Config) (args : list string) : bprog Z :=
  match args with
  | a :: rest =>
      if negb (String.eqb a "validate") then boot_err "usage: ci-runner [--config PATH] config validate [--json]" ExitUsage
      else match parse_flags [("json", FlagBool)] rest with
      | Some (values, []) =>
          if flag_bool values "json" then
            match newConfigValidationResult cfg with
            | Err e => boot_err ("normalize validated configuration: " +:+ error_text e) ExitInvalidConfig
            | Ok result =>
                let^ emitted := bask (EmitConfig result) in
                match emitted with
                | Some e => boot_err ("write validation result: " +:+ error_text e) ExitRuntime
                | None => IRet ExitOK
                end
            end
          else
            let^ _ := bask (BootOut ("Configuration is valid (schema " +:+ pretty (c_SchemaVersion cfg) +:+ ", host " +:+ ho_ID (c_Host cfg)
                                     +:+ ", " +:+ pretty (Z.of_nat (length (c_Targets cfg))) +:+ " target(s))." +:+ newline)) in
            IRet ExitOK
      | _ => IRet ExitUsage
      end
  | [] => boot_err "usage: ci-runner [--config PATH] config validate [--json]" ExitUsage
  end.

Definition requestsJSONConfigValidation (args : list string) : bool :=
  match args with
  | [a; b; c] => String.eqb a "config" && String.eqb b "validate" && String.eqb c "--json"
  | _ => false
  end.

Definition reportConfigLoadFailure (jsonRequested : bool) (action configPath : string) (err : error) : bprog Z :=
  let^ _ := if jsonRequested then bask (EmitConfigError (error_text err))
            else bask (BootErr (action +:+ " configuration " +:+ Quote configPath +:+ ": " +:+ error_text err +:+ newline)) in
  IRet ExitInvalidConfig.

(** Opens, loads and closes the configuration; the failed action with its error. *)
Definition load_config (path : string) : bprog (result (string * error) (Config * list string)) :=
  let^ opened := bask (OpenConfig path) in
  match opened with
  | Some e => IRet (Err ("open", e))
  | None =>
      let^ loaded := bask LoadConfig in
      let^ closed := bask CloseConfig in
      let failed := match loaded with Err e => Some e | Ok _ => None end in
      IRet (match errors_Join [failed; closed], loaded with
            | Some e, _ => Err ("load", e)
            | None, Ok value => Ok value
            | None, Err e => Err ("load", e)
            end)
  end.

Definition loadConfiguration (path : string) : bprog (result error (Config * list string)) :=
  let^ loaded := load_config path in
  IRet (match loaded with
        | Err (action, e) => Err (ErrWrap (action +:+ " configuration " +:+ Quote path) e)
        | Ok value => Ok value
        end).

Section Release.
Context `{ManifestText} (buildVersion : string).

Definition validateReleaseCandidate (manifestPath requested : string) : bprog (releaseValidationResult * option error) :=
  let result := releaseValidationResult_zero in
  if negb (String.eqb requested buildVersion)
  then IRet (result, Some (ErrNew ("requested version " +:+ Quote requested +:+ " does not match candidate executable version " +:+ Quote buildVersion)))
  else
    let^ loaded := in_paths (LoadCompatibilityManifest manifestPath buildVersion) in
    IRet (match loaded with
          | Err e => (result, Some e)
          | Ok m =>
              if String.eqb (cct_Version (cm_Controller m)) ""
              then (result, Some (ErrNew "validated manifest did not contain a controller version"))
              else (mkReleaseValidationResult 1 true "" (cct_Version (cm_Controller m)) (cm_ReleaseVersion m) (cs_SHA (cm_Source m)) (WorkerReference m), None)
          end).

Definition runReleaseCommand (args : list string) : bprog Z :=
  match args with
  | a :: rest =>
      if negb (String.eqb a "validate") then boot_err "usage: ci-runner release validate --manifest ABSOLUTE_PATH --version VERSION" ExitUsage
      else match parse_flags [("manifest", FlagString); ("version", FlagString)] rest with
      | None => IRet ExitUsage
      | Some (values, remaining) =>
          let manifestPath := flag_string values "manifest" in
          let version := flag_string values "version" in
          if negb (Nat.eqb (length remaining) 0) || negb (IsAbs manifestPath) || String.eqb (TrimSpace version) ""
          then boot_err "--manifest must be absolute and --version is required" ExitUsage
          else
            let^ validated := validateReleaseCandidate manifestPath version in
            let '(result, failed) := validated in
            match failed with
            | Some e =>
                let^ _ := bask (EmitRelease (mkReleaseValidationResult (rv_SchemaVersion result) (rv_Valid result) (error_text e) (rv_ControllerVersion result)
                                               (rv_ReleaseVersion result) (rv_SourceSHA result) (rv_WorkerReference result))) in
                IRet ExitInvalidConfig
            | None =>
                let^ emitted := bask (EmitRelease result) in
                match emitted with
                | Some e => boot_err ("write release validation result: " +:+ error_text e) ExitRuntime
                | None => IRet ExitOK
                end
            end
      end
  | [] => boot_err "usage: ci-runner release validate --manifest ABSOLUTE_PATH --version VERSION" ExitUsage
  end.

End Release.

(** ** The tool *)

Context `{Volumes, MapRange, ManifestText} (buildVersion : string).

Fixpoint print_warnings (warnings : list string) : bprog () :=
  match warnings with
  | [] => IRet ()
  | w :: warnings => let^ _ := bask (BootErr ("warning: " +:+ w +:+ newline)) in print_warnings warnings
  end.

Definition runtime_paths (cfg : Config) : gmap string string :=
  let paths := c_Paths cfg in
  <["secrets" := pa_Secrets paths]> (<["state" := pa_State paths]> (<["logs" := pa_Logs paths]> (<["diagnostics" := pa_Diagnostics paths]> ∅))).

(** The first unsafe path, in the order the map is visited. *)
Fixpoint unsafe_path (paths : list (string * string)) : bprog (option (string * error)) :=
  match paths with
  | [] => IRet None
  | (name, path) :: paths =>
      let^ unsafe := in_paths (ensureNoReparsePoints path) in
      match unsafe with
      | Some e => IRet (Some (name, e))
      | None => unsafe_path paths
      end
  end.

(** Builds a component, or reports why not. *)
Definition built (c : component) (label : string) (next : bprog Z) : bprog Z :=
  let^ failed := bask (Build c) in
  match failed with
  | Some e => boot_err (label +:+ ": " +:+ error_text e) ExitInvalidConfig
  | None => next
  end.

Definition start_application (cfg : Config) (args : list string) : bprog Z :=
  let^ unsafe := unsafe_path (range (runtime_paths cfg)) in
  match unsafe with
  | Some (name, e) => boot_err ("unsafe " +:+ name +:+ " runtime path: " +:+ error_text e) ExitInvalidConfig
  | None =>
      built StateMutex "create state mutex"
      (built StateStore "create state store"
      (built JobStore "create job index"
        (let^ client := bask NewControlClient in
         match client with
         | Some e => boot_err ("create current-user controller client: " +:+ error_text e) ExitInvalidConfig
         | None =>
             let^ created := bask NewApplication in
             match created with
             | Some e => boot_err ("initialize application: " +:+ error_text e) ExitInvalidConfig
             | None => bask (RunApplication args)
             end
         end)))
  end.

Definition RunMain (args : list string) : bprog Z :=
  if match args with a :: _ => String.eqb a "release" | [] => false end then runReleaseCommand buildVersion (tail args)
  else
    let^ resolved := resolveConfigArgument args in
    match resolved with
    | Err e => boot_err (error_text e) ExitUsage
    | Ok (configPath, commandArgs) =>
        let^ loaded := load_config configPath in
        match loaded with
        | Err (action, e) => reportConfigLoadFailure (requestsJSONConfigValidation commandArgs) action configPath e
        | Ok (cfg, warnings) =>
            let^ _ := print_warnings warnings in
            if match commandArgs with a :: _ => String.eqb a "config" | [] => false end
            then runConfigCommand cfg (tail commandArgs)
            else start_application cfg commandArgs
        end
    end.

(** ** The controller *)

(** The event a notice about exports becomes. *)
Definition notice_event (n : ExportNotice) : option (string * string) :=
  match xn_Kind n, xn_Err n with
  | ExportNoticeUnreachable, Some e => Some ("telemetry-export-unreachable", error_text e)
  | ExportNoticeUnreachable, None => None
  | ExportNoticeDegradedSummary, err =>
      let message := match err with Some e => error_text e | None => "OTLP export still failing" end in
      Some ("telemetry-export-degraded",
            if 0 <? xn_Suppressed n then message +:+ " (" +:+ pretty (xn_Suppressed n) +:+ " suppressed export failures since last notice)" else message)
  | ExportNoticeRestored, _ => Some ("telemetry-export-restored", "OTLP export resumed")
  | ExportNoticeOther, Some e => Some ("telemetry-export-error", error_text e)
  | ExportNoticeOther, None => None
  end.

Definition export_config (cfg : Config) : option ExportConfig :=
  let t := c_Telemetry cfg in
  if Telemetry_Enabled t
  then Some (mkExportConfig (tl_Endpoint t) (tl_Protocol t) (tl_Traces t) (tl_Metrics t) (tl_MetricExportInterval t) (tl_MetricExportTimeout t))
  else None.

Fixpoint prepare_all (directories : list string) : bprog (option error) :=
  match directories with
  | [] => IRet None
  | d :: directories =>
      let^ failed := in_paths (preparePrivateRuntimeDirectory d) in
      match failed with
      | Some e => IRet (Some e)
      | None => prepare_all directories
      end
  end.

Fixpoint log_all (code : string) (messages : list string) : bprog () :=
  match messages with
  | [] => IRet ()
  | m :: messages => let^ _ := bask (LogEvent code m) in log_all code messages
  end.

Fixpoint close_all (components : list component) : bprog () :=
  match components with
  | [] => IRet ()
  | c :: components => let^ _ := bask (CloseComponent c) in close_all components
  end.

(** Logs the error and returns it. *)
Definition fail (code : string) (e : error) : bprog (option error) :=
  let^ _ := bask (LogEvent code (error_text e)) in IRet (Some e).

(** Builds a component; a failure closes what was built before it and is logged. *)
Definition construct (c : component) (closes : list component) (code : string) (next : bprog (option error)) : bprog (option error) :=
  let^ failed := bask (Build c) in
  match failed with
  | Some e => let^ _ := close_all closes in fail code e
  | None => next
  end.

Definition run_controller (cfg : Config) (manifest : CompatibilityManifest) : bprog (option error) :=
  construct StateMutex [] "state-mutex-error"
  (construct StateStore [] "state-store-error"
  (construct JobStore [] "job-index-error"
  (construct ScaleSetClient [] "scale-set-client-error"
  (construct WorkerRuntime [ScaleSetClient] "docker-runtime-error"
  (construct ControlReconciler [WorkerRuntime; ScaleSetClient] "controller-construction-error"
  (construct ControlHandler [WorkerRuntime; ScaleSetClient] "control-handler-error"
  (construct ControlServer [WorkerRuntime; ScaleSetClient] "control-server-error"
    (let^ _ := bask (LogEvent "controller-started" ("version=" +:+ buildVersion +:+ " host=" +:+ ho_ID (c_Host cfg) +:+ " worker=" +:+ WorkerReference manifest)) in
     let^ ended := bask RunLoop in
     match ended with
     | Some e => fail "controller-stopped-with-error" e
     | None => let^ _ := bask (LogEvent "controller-stopped" "graceful shutdown completed") in IRet None
     end)))))))).

(** The part between the telemetry provider and its shutdown. *)
Definition with_telemetry (cfg : Config) : bprog (option error) :=
  let^ loaded := in_paths (LoadCompatibilityManifest (c_CompatibilityManifest cfg) buildVersion) in
  match loaded with
  | Err e => fail "compatibility-manifest-error" e
  | Ok manifest => run_controller cfg manifest
  end.

(** The part between the log sink and its close; the environment the telemetry reads is
    a function of its own. *)
Definition with_logs (lookup : string -> option string) (cfg : Config) (warnings : list string) : bprog (option error) :=
  let^ _ := log_all "config-warning" warnings in
  let^ telemetry := in_telemetry (NewFromEnv lookup (export_config cfg) (ho_ID (c_Host cfg)) buildVersion) in
  let^ _ := log_all "telemetry-configuration-error" (map error_text (snd telemetry)) in
  let^ ended := with_telemetry cfg in
  let^ shut := in_telemetry (Provider_Shutdown (fst telemetry)) in
  let^ _ := match shut with Some e => bask (LogEvent "telemetry-shutdown-error" (error_text e)) | None => IRet () end in
  IRet ended.

Definition RunControllerMain (lookup : string -> option string) (args : list string) : bprog (option error) :=
  let^ resolved := resolveConfigArgument args in
  match resolved with
  | Err e => IRet (Some e)
  | Ok (_, _ :: _) => IRet (Some (ErrNew "usage: ci-runner-controller [--config ABSOLUTE_PATH]"))
  | Ok (configPath, []) =>
      let^ loaded := loadConfiguration configPath in
      match loaded with
      | Err e => IRet (Some e)
      | Ok (cfg, warnings) =>
          let controllerLogs := filepath_Join (pa_Logs (c_Paths cfg)) "controller" in
          let^ prepared := prepare_all [pa_State (c_Paths cfg); controllerLogs; filepath_Join (pa_Logs (c_Paths cfg)) "workers"; pa_Diagnostics (c_Paths cfg)] in
          match prepared with
          | Some e => IRet (Some e)
          | None =>
              let^ unsafe := in_paths (ensureNoReparsePoints (pa_Secrets (c_Paths cfg))) in
              match unsafe with
              | Some e => IRet (Some (ErrWrap "verify secret directory path" e))
              | None =>
                  let^ verified := bask (VerifySecretACL (pa_Secrets (c_Paths cfg))) in
                  match verified with
                  | Some e => IRet (Some (ErrWrap "verify secret directory ACL" e))
                  | None =>
                      let^ opened := bask (OpenLogs controllerLogs) in
                      match opened with
                      | Some e => IRet (Some e)
                      | None =>
                          let^ ended := with_logs lookup cfg warnings in
                          let^ _ := bask CloseLogs in
                          IRet ended
                      end
                  end
              end
          end
      end
  end.

End Paths.
