(* ===== verification/BootstrapFacts.v ===== *)
(** What the construction of the processes guarantees: the controller releases what it
    built on every path, builds nothing before its directories are private, and the
    tool starts only on checked paths. *)

From S2P Require Import Prelude Float64 GoStrings Regexp Model Config GoText Validate Yaml Errors Effects Reconciler FileSystem Store Interaction Watchdog ControllerLoop Cli Doctor Artifacts Secret Inspector InspectorFacts ExportNotices Telemetry TelemetryFacts Bootstrap ConfigSamples.
From stdpp Require Import pretty.
From Stdlib Require Import Ascii.
#[local] Open Scope Z_scope.
Open Scope i_scope.

(** ** The protocol of the controller's process *)

(** The log sink is open; the exporters that run; the components that hold connections,
    the last one first; and whether the loop ran. *)
Record held := mkHeld {
  he_Logs : bool;
  he_Exporters : list exportSignal;
  he_Components : list component;
  he_Looped : bool;
}.

Definition nothing_held : held := mkHeld false [] [] false.

(** The components that hold a connection and need a close. *)
Definition holds_connection (c : component) : bool := match c with ScaleSetClient | WorkerRuntime => true | _ => false end.

(** Events are logged only to an open sink, which is closed last; what holds a
    connection is closed in the reverse order, or handed to the loop, which closes it. *)
Definition boot_step (s : held) (e : event bresp) : option held :=
  match e with
  | existT (OpenLogs _) r => if he_Logs s then None else match r with None => Some {| s with he_Logs := true |} | Some _ => Some s end
  | existT (LogEvent _ _) _ => if he_Logs s then Some s else None
  | existT CloseLogs _ =>
      match he_Exporters s, he_Components s with
      | [], [] => if he_Logs s then Some {| s with he_Logs := false |} else None
      | _, _ => None
      end
  | existT (InTelemetry (NewExporter signal _ _)) r =>
      match r with
      | None => if he_Logs s then Some {| s with he_Exporters := signal :: he_Exporters s |} else None
      | Some _ => Some s
      end
  | existT (InTelemetry (ShutdownExporter signal)) _ =>
      match he_Exporters s with
      | signal' :: rest => if bool_decide (signal = signal') then Some {| s with he_Exporters := rest |} else None
      | [] => None
      end
  | existT (Build c) r =>
      if negb (he_Logs s) then None
      else match r with
           | None => Some (if holds_connection c then {| s with he_Components := c :: he_Components s |} else s)
           | Some _ => Some s
           end
  | existT (CloseComponent c) _ =>
      match he_Components s with
      | c' :: rest => if bool_decide (c = c') then Some {| s with he_Components := rest |} else None
      | [] => None
      end
  | existT RunLoop _ => if he_Looped s then None else Some {| s with he_Components := []; he_Looped := true |}
  | _ => Some s
  end.

Definition in_paths_event (e : event vresp) : event bresp := existT (InPaths (projT1 e)) (projT2 e).
Definition in_telemetry_event (e : event xresp) : event bresp := existT (InTelemetry (projT1 e)) (projT2 e).

Lemma in_paths_runs {A} (p : vprog A) tr a : iruns (in_paths p) tr a -> exists tr', iruns p tr' a /\ tr = map in_paths_event tr'.
Proof.
  revert tr. induction p as [b|c k IH]; intros tr Hr; cbn [in_paths] in Hr.
  - apply iruns_inv in Hr as [-> ->]. exists []. split; [constructor|done].
  - apply iruns_inv in Hr as (r & t & -> & Hr). apply IH in Hr as (t' & Hr & ->). exists (ev c r :: t'). split; [by constructor|done].
Qed.

Lemma in_telemetry_runs {A} (p : xprog A) tr a :
  iruns (in_telemetry p) tr a -> exists tr', iruns p tr' a /\ tr = map in_telemetry_event tr'.
Proof.
  revert tr. induction p as [b|c k IH]; intros tr Hr; cbn [in_telemetry] in Hr.
  - apply iruns_inv in Hr as [-> ->]. exists []. split; [constructor|done].
  - apply iruns_inv in Hr as (r & t & -> & Hr). apply IH in Hr as (t' & Hr & ->). exists (ev c r :: t'). split; [by constructor|done].
Qed.

Lemma follow_paths {A} (p : vprog A) tr a s : iruns (in_paths p) tr a -> follow boot_step s tr = Some s.
Proof. intros (t & _ & ->)%in_paths_runs. induction t as [|[c r] t IH]; [done|exact IH]. Qed.

Lemma follow_log_all code messages tr u s : he_Logs s = true -> iruns (log_all code messages) tr u -> follow boot_step s tr = Some s.
Proof.
  intros Hs. revert tr. induction messages as [|m messages IH]; intros tr Hr; cbn [log_all] in Hr; [by inv_runs|].
  unfold bask in Hr. apply iruns_inv in Hr as (r & t & -> & Hr). cbn [ibind] in Hr. cbn [follow boot_step ev]. rewrite Hs. by apply IH.
Qed.

(** No exporter is shut down while the provider is built. *)
Lemma NewFromEnv_avoids `{Unicode} lookup export host version :
  avoids (fun e => match shut_exporter e with Some _ => true | None => false end) (NewFromEnv lookup export host version).
Proof.
  unfold NewFromEnv, build_provider, trace_exporter, metric_exporter, newExporter, newRecorder, xask. solve_avoids.
Qed.

(** Building adds the exporters that were made. *)
Lemma follow_built tr s :
  he_Logs s = true -> Forall (fun e => match shut_exporter e with Some _ => true | None => false end = false) tr ->
  follow boot_step s (map in_telemetry_event tr) = Some {| s with he_Exporters := rev (made tr) ++ he_Exporters s |}.
Proof.
  intros Hs Ht. revert s Hs. induction Ht as [|[c r] tr Hc Ht IH]; intros s Hs; [by destruct s|].
  destruct c; cbn [map in_telemetry_event projT1 projT2 follow boot_step]; try (by rewrite (IH s Hs)); [|discriminate Hc].
  destruct r as [e|]; [by rewrite (IH s Hs)|]. rewrite Hs, IH by done. f_equal. unfold made. cbn [omap list_omap made_exporter rev].
  destruct s; simpl in *. by rewrite <- app_assoc.
Qed.

(** A shutdown takes them away, the last one first. *)
Lemma follow_shutdown tr s :
  map shut_exporter tr = map Some (he_Exporters s) -> follow boot_step s (map in_telemetry_event tr) = Some {| s with he_Exporters := [] |}.
Proof.
  destruct s as [logs exporters components looped]. cbn [he_Exporters]. revert exporters.
  induction tr as [|[c r] tr IH]; intros exporters Heq; destruct exporters as [|x exporters]; try discriminate Heq; [done|].
  cbn [map] in Heq. injection Heq as Hc Heq. destruct c; try discriminate Hc. injection Hc as ->.
  cbn [map in_telemetry_event projT1 projT2 follow boot_step he_Exporters]. rewrite bool_decide_eq_true_2 by done. exact (IH exporters Heq).
Qed.

Section Controller.
Context `{Platform, FilePath, Unicode, Volumes, ManifestText} (buildVersion : string).

Definition ran (logs : bool) (exporters : list exportSignal) (s : held) (r : option error) : Prop :=
  he_Logs s = logs /\ he_Exporters s = exporters /\ he_Components s = [] /\ (r = None -> he_Looped s = true).

Lemma run_controller_obeys cfg manifest exporters :
  obeys boot_step (run_controller buildVersion cfg manifest) (ran true exporters) (mkHeld true exporters [] false).
Proof.
  assert (Hclose : forall cs code e, obeys boot_step (let^ _ := close_all cs in fail code e) (ran true exporters) (mkHeld true exporters cs false)).
  { induction cs as [|c cs IH]; intros code e; cbn [close_all ibind].
    - intros []. cbn. by split_and!.
    - intros []. cbn [boot_step ev he_Components]. rewrite bool_decide_eq_true_2 by done. apply IH. }
  unfold run_controller, construct, bask.
  repeat (intros r; cbn [boot_step ev he_Logs negb]; destruct r as [e|]; [exact (Hclose _ _ e)|]; cbn [holds_connection he_Components he_Logs]).
  intros []. cbn [boot_step ev he_Logs]. intros ended. cbn [boot_step ev he_Looped]. destruct ended as [e|]; intros []; cbn; by split_and!.
Qed.

Lemma with_telemetry_follow cfg exporters tr r :
  iruns (with_telemetry buildVersion cfg) tr r -> exists s, follow boot_step (mkHeld true exporters [] false) tr = Some s /\ ran true exporters s r.
Proof.
  unfold with_telemetry. intros (t1 & t2 & loaded & Hl & Hr & ->)%iruns_bind_inv. rewrite follow_app, (follow_paths _ _ _ _ Hl).
  destruct loaded as [manifest|e]; [by eapply obeys_runs; [apply run_controller_obeys|]|].
  unfold fail, bask in Hr. apply iruns_inv in Hr as ([] & t & -> & Hr). cbn [ibind] in Hr. inv_runs. eexists. split; [done|]. by split_and!.
Qed.

Lemma with_logs_follow lookup cfg warnings tr r :
  iruns (with_logs buildVersion lookup cfg warnings) tr r -> exists s, follow boot_step (mkHeld true [] [] false) tr = Some s /\ ran true [] s r.
Proof.
  unfold with_logs. intros (t1 & u1 & [] & Hw & Hr & ->)%iruns_bind_inv. rewrite follow_app, (follow_log_all _ _ _ _ (mkHeld true [] [] false) eq_refl Hw).
  apply iruns_bind_inv in Hr as (t2 & u2 & [p problems] & Ht & Hr & ->). cbn [fst snd] in Hr.
  apply in_telemetry_runs in Ht as (t2' & Ht & ->). rewrite follow_app, follow_built by (done || by eapply NewFromEnv_avoids).
  apply NewFromEnv_keeps in Ht as [Hs _]. cbn [pv_Shutdown app] in Hs. cbn [he_Logs he_Exporters he_Components he_Looped]. rewrite app_nil_r, <- Hs.
  apply iruns_bind_inv in Hr as (t3 & u3 & [] & Hp & Hr & ->). rewrite follow_app, (follow_log_all _ _ _ _ (mkHeld true (rev (pv_Shutdown p)) [] false) eq_refl Hp).
  apply iruns_bind_inv in Hr as (t4 & u4 & ended & He & Hr & ->). destruct (with_telemetry_follow _ (rev (pv_Shutdown p)) _ _ He) as (s & Hf & Hran).
  rewrite follow_app, Hf. destruct Hran as (Hlogs & Hex & Hco & Hloop).
  apply iruns_bind_inv in Hr as (t5 & u5 & shut & Hsh & Hr & ->). apply in_telemetry_runs in Hsh as (t5' & Hsh & ->).
  unfold Provider_Shutdown in Hsh. apply iruns_bind_inv in Hsh as (t6 & t7 & errs & Hsh & Hret & ->). apply iruns_inv in Hret as [-> _]. rewrite app_nil_r.
  rewrite follow_app, follow_shutdown by (rewrite Hex; by eapply shutdown_calls).
  apply iruns_bind_inv in Hr as (t8 & t9 & [] & Hlog & Hr & ->). apply iruns_inv in Hr as [-> ->]. rewrite app_nil_r.
  exists {| s with he_Exporters := [] |}. split; [|by split_and!].
  destruct shut as [e|]; [|by inv_runs]. unfold bask in Hlog. apply iruns_inv in Hlog as ([] & t & -> & Hlog). apply iruns_inv in Hlog as [-> _].
  cbn [follow boot_step ev he_Logs]. by rewrite Hlogs.
Qed.

(** Events that hold and release nothing. *)
Definition neutral (e : event bresp) : Prop := forall s, boot_step s e = Some s.

Lemma follow_neutral s tr : Forall neutral tr -> follow boot_step s tr = Some s.
Proof. induction 1 as [|e tr He Ht IH]; [done|]. cbn [follow]. by rewrite He. Qed.

Lemma in_paths_neutral {A} (p : vprog A) : only neutral (in_paths p).
Proof. intros tr a (t & _ & ->)%in_paths_runs. rewrite Forall_map. apply Forall_forall. by intros [c r] _. Qed.

Lemma resolveConfigArgument_neutral args : only neutral (resolveConfigArgument args).
Proof.
  unfold resolveConfigArgument, defaultConfigPath, bask. apply only_call; [done|]. intros set. cbn [ibind]. apply only_ibind; [|intros; apply only_ret].
  destruct (String.eqb set ""); [|apply only_ret]. apply only_call; [done|]. intros local. cbn [ibind]. destruct (negb _); [apply only_ret|].
  apply only_call; [done|]. intros. apply only_ret.
Qed.

Lemma loadConfiguration_neutral path : only neutral (loadConfiguration path).
Proof.
  unfold loadConfiguration, load_config, bask. apply only_ibind; [|intros; apply only_ret]. apply only_call; [done|]. intros [e|]; cbn [ibind]; [apply only_ret|].
  apply only_call; [done|]. intros loaded. cbn [ibind]. apply only_call; [done|]. intros. apply only_ret.
Qed.

(** A loaded configuration is the one its file gave. *)
Lemma loadConfiguration_loaded path tr cfg warnings :
  iruns (loadConfiguration path) tr (Ok (cfg, warnings)) -> ev LoadConfig (Ok (cfg, warnings)) ∈ tr.
Proof.
  unfold loadConfiguration, load_config, bask. intros (t1 & t2 & loaded & Hl & Hr & ->)%iruns_bind_inv. apply elem_of_app. left.
  apply iruns_inv in Hr as [_ Hr]. apply iruns_inv in Hl as (opened & u & -> & Hl). cbn [ibind] in Hl. destruct opened as [e|].
  { apply iruns_inv in Hl as [_ ->]. discriminate Hr. }
  apply iruns_inv in Hl as (l & u1 & -> & Hl). cbn [ibind] in Hl. apply iruns_inv in Hl as (closed & u2 & -> & Hl). cbn [ibind] in Hl.
  apply iruns_inv in Hl as [_ ->]. destruct (errors_Join _); [discriminate Hr|]. destruct l as [[cfg' ws]|e]; [|discriminate Hr].
  injection Hr as <- <-. right. left.
Qed.

Lemma prepare_all_neutral ds : only neutral (prepare_all ds).
Proof.
  induction ds as [|d ds IH]; cbn [prepare_all]; [apply only_ret|]. apply only_ibind; [apply in_paths_neutral|]. intros [e|]; [apply only_ret|done].
Qed.

(** A run of the controller's process is a start without effect, or the checks of the
    directories, the log sink, the work and the close of the sink. *)
Lemma RunControllerMain_inv lookup args tr r :
  iruns (RunControllerMain buildVersion lookup args) tr r ->
  (Forall neutral tr /\ r <> None) \/
  exists cfg warnings start prepared t1 t2 t3 work opened,
    let secrets := pa_Secrets (c_Paths cfg) in
    let logs := filepath_Join (pa_Logs (c_Paths cfg)) "controller" in
    tr = start ++ t1 ++ t2 ++ ev (VerifySecretACL secrets) None :: ev (OpenLogs logs) opened :: t3
    /\ Forall neutral start /\ ev LoadConfig (Ok (cfg, warnings)) ∈ start
    /\ iruns (prepare_all [pa_State (c_Paths cfg); logs; filepath_Join (pa_Logs (c_Paths cfg)) "workers"; pa_Diagnostics (c_Paths cfg)]) t1 prepared
    /\ prepared = None
    /\ iruns (in_paths (ensureNoReparsePoints secrets)) t2 None
    /\ match opened with
       | Some e => t3 = [] /\ r = Some e
       | None => t3 = work ++ [ev CloseLogs ()] /\ iruns (with_logs buildVersion lookup cfg warnings) work r
       end.
Proof.
  unfold RunControllerMain. intros (t0 & u0 & resolved & Hres & Hr & ->)%iruns_bind_inv. apply resolveConfigArgument_neutral in Hres.
  destruct resolved as [[path [|a rest]]|e]; [|apply iruns_inv in Hr as [-> ->]; left; by rewrite app_nil_r..].
  apply iruns_bind_inv in Hr as (tl & ul & loaded & Hl & Hr & ->). pose proof (loadConfiguration_neutral _ _ _ Hl) as Hln.
  assert (Hstart : Forall neutral (t0 ++ tl)) by (by apply Forall_app).
  destruct loaded as [[cfg warnings]|e]; [|apply iruns_inv in Hr as [-> ->]; left; by rewrite app_nil_r].
  assert (Hcfg : ev LoadConfig (Ok (cfg, warnings)) ∈ t0 ++ tl) by (apply elem_of_app; right; by eapply loadConfiguration_loaded).
  apply iruns_bind_inv in Hr as (t1 & u1 & prepared & Hp & Hr & ->). pose proof (prepare_all_neutral _ _ _ Hp) as Hpn.
  destruct prepared as [e|]; [apply iruns_inv in Hr as [-> ->]; left; rewrite app_nil_r, app_assoc; split; [by apply Forall_app|done]|].
  apply iruns_bind_inv in Hr as (t2 & u2 & unsafe & Hu & Hr & ->). pose proof (in_paths_neutral _ _ _ Hu) as Hun.
  destruct unsafe as [e|].
  { apply iruns_inv in Hr as [-> ->]; left; rewrite app_nil_r, !app_assoc; split; [by rewrite !Forall_app in *|done]. }
  unfold bask in Hr. apply iruns_inv in Hr as (verified & u3 & -> & Hr). cbn [ibind] in Hr. destruct verified as [e|].
  { apply iruns_inv in Hr as [-> ->]. left. split; [|done]. rewrite !app_assoc. apply Forall_app. split; [by rewrite !Forall_app in *|by repeat constructor]. }
  apply iruns_inv in Hr as (opened & u4 & -> & Hr). cbn [ibind] in Hr. right. exists cfg, warnings, (t0 ++ tl), None, t1, t2, u4.
  destruct opened as [e|].
  - exists [], (Some e). apply iruns_inv in Hr as [-> ->]. rewrite <- !app_assoc. by split_and!.
  - apply iruns_bind_inv in Hr as (work & u5 & ended & Hw & Hr & ->). apply iruns_inv in Hr as ([] & u6 & -> & Hr). cbn [ibind] in Hr.
    apply iruns_inv in Hr as [-> ->]. exists work, None. rewrite <- !app_assoc. by split_and!.
Qed.

(** C18: The controller's process releases what it builds.  Whatever fails on the way, events
    are logged to an open sink only, the sink is closed last, every exporter that was
    made is shut down, the scale-set client and the worker runtime are closed, the
    last one first, or handed to the loop, which runs at most once; and the process
    reports success only after the loop ended. *)
Theorem controller_releases_everything lookup args tr r :
  iruns (RunControllerMain buildVersion lookup args) tr r ->
  exists s, follow boot_step nothing_held tr = Some s
    /\ he_Logs s = false /\ he_Exporters s = [] /\ he_Components s = [] /\ (r = None -> he_Looped s = true).
Proof.
  intros [[Hn Hr]|(cfg & ws & start & prepared & t1 & t2 & t3 & work & opened & -> & Hs & Hcfg & Hp & -> & Hu & Hend)]%RunControllerMain_inv.
  { exists nothing_held. rewrite follow_neutral by done. by split_and!. }
  rewrite follow_app, (follow_neutral _ start Hs), follow_app, (follow_neutral _ t1 (prepare_all_neutral _ _ _ Hp)), follow_app, (follow_paths _ _ _ _ Hu).
  cbn [follow boot_step ev nothing_held he_Logs]. destruct opened as [e|].
  - destruct Hend as [-> ->]. eexists. split; [done|]. by split_and!.
  - destruct Hend as [-> Hw]. destruct (with_logs_follow _ _ _ _ _ Hw) as (s & Hf & Hlogs & Hex & Hco & Hloop).
    exists {| s with he_Logs := false |}. split; [|by split_and!]. change (follow boot_step (mkHeld true [] [] false) (work ++ [ev CloseLogs ()]) = Some {| s with he_Logs := false |}).
    rewrite follow_app, Hf. cbn [follow boot_step ev]. by rewrite Hex, Hco, Hlogs.
Qed.

Lemma prepare_all_verified ds tr : iruns (prepare_all ds) tr None -> Forall (fun d => ev (InPaths (VVerify d)) None ∈ tr) ds.
Proof.
  revert tr. induction ds as [|d ds IH]; intros tr Hr; cbn [prepare_all] in Hr; [constructor|].
  apply iruns_bind_inv in Hr as (t1 & t2 & failed & Hp & Hr & ->). destruct failed as [e|]; [by inv_runs|]. constructor.
  - apply in_paths_runs in Hp as (t & Hp & ->). apply prepared_verified in Hp. apply elem_of_app. left.
    apply list_elem_of_fmap. by exists (ev (VVerify d) None).
  - eapply Forall_impl; [by eapply IH|]. intros p Hin. apply elem_of_app. by right.
Qed.

(** Events that use what the process builds. *)
Definition uses (e : event bresp) : bool := match projT1 e with OpenLogs _ | Build _ | RunLoop => true | _ => false end.

Lemma neutral_unused l : Forall neutral l -> Forall (fun e => uses e = false) l.
Proof.
  intros Hl. eapply Forall_impl; [exact Hl|]. intros [c x] Hc.
  destruct c; try done; [specialize (Hc (mkHeld true [] [] false))|specialize (Hc nothing_held)|specialize (Hc (mkHeld false [] [] true))]; discriminate Hc.
Qed.

(** C19: The controller builds nothing before its directories are private.  Before the log
    sink is opened, before any component is built and before the loop runs, the access
    control lists of the loaded configuration's state, log and diagnostics directories
    were verified, and its secret directory was found free of reparse points and its
    list verified. *)
Theorem controller_starts_private lookup args tr r before e after :
  iruns (RunControllerMain buildVersion lookup args) tr r -> tr = before ++ e :: after -> uses e = true ->
  exists cfg warnings, ev LoadConfig (Ok (cfg, warnings)) ∈ before
    /\ Forall (fun d => ev (InPaths (VVerify d)) None ∈ before)
         [pa_State (c_Paths cfg); filepath_Join (pa_Logs (c_Paths cfg)) "controller"; filepath_Join (pa_Logs (c_Paths cfg)) "workers"; pa_Diagnostics (c_Paths cfg)]
    /\ ev (VerifySecretACL (pa_Secrets (c_Paths cfg))) None ∈ before
    /\ exists walk, map in_paths_event walk ⊆ before /\ path_clean walk (pa_Secrets (c_Paths cfg)).
Proof.
  intros [[Hn _]|(cfg & ws & start & prepared & t1 & t2 & t3 & work & op & -> & Hs & Hcfg & Hp & -> & Hu & Hend)]%RunControllerMain_inv Heq He.
  { apply neutral_unused in Hn. rewrite Heq, Forall_app, Forall_cons, He in Hn. by destruct Hn as (_ & [=] & _). }
  exists cfg, ws. pose proof (prepare_all_neutral _ _ _ Hp) as Hpn. pose proof (in_paths_neutral _ _ _ Hu) as Hun.
  assert (Hpre : exists b', before = (start ++ t1 ++ t2 ++ [ev (VerifySecretACL (pa_Secrets (c_Paths cfg))) None]) ++ b').
  { rewrite (cons_middle _ t2), !app_assoc in Heq. apply (skip_prefix uses) in Heq as (b' & Hb & _); [|apply neutral_unused|done].
    - exists b'. rewrite Hb. by rewrite !app_assoc.
    - rewrite !Forall_app. split_and!; [done..|by repeat constructor]. }
  destruct Hpre as (b' & ->). apply prepare_all_verified in Hp. split_and!.
  - set_solver.
  - eapply Forall_impl; [exact Hp|]. intros d Hin. rewrite !elem_of_app. tauto.
  - set_solver.
  - apply in_paths_runs in Hu as (walk & Hu & ->). exists walk. split; [set_solver|]. by apply ensureNoReparsePoints_clean.
Qed.

(** Without arguments the path is taken from the environment as it is: a relative
    CI_RUNNER_CONFIG is accepted there, and refused once there is an argument. *)
Lemma relative_config_accepted set command rest :
  set <> "" -> IsAbs set = false -> command <> "--config" -> HasPrefix command "--config=" = false ->
  (forall tr r, iruns (resolveConfigArgument []) (ev (Getenv "CI_RUNNER_CONFIG") set :: tr) r -> r = Ok (set, []))
  /\ (forall tr r, iruns (resolveConfigArgument (command :: rest)) (ev (Getenv "CI_RUNNER_CONFIG") set :: tr) r ->
        r = Err (ErrNew "configuration path must be absolute")).
Proof.
  intros Hset Habs Hc Hp. split; unfold resolveConfigArgument, bask; intros tr r Hr.
  all: apply iruns_inv in Hr as (set' & t & Heq & Hr); cbn [ibind] in Hr.
  all: apply (f_equal (fun l : list (event bresp) => match l with existT (Getenv _) v :: _ => v | _ => "" end)) in Heq; cbn in Heq; subst set'.
  all: apply String.eqb_neq in Hset, Hc; rewrite Hset in Hr; cbn [ibind] in Hr; apply iruns_inv in Hr as [_ ->].
  all: unfold config_argument; by rewrite ?Hc, ?Hp, ?Habs.
Qed.

End Controller.

(** ** A host that starts *)

#[local] Instance boot_platform : Platform := {| write_through := false; Separator := "/"%char |}.
#[local] Instance boot_paths : FilePath := {| IsAbs := fun p => HasPrefix p "/" || Contains p ":"; Clean := fun p => p |}.
#[local] Instance boot_volumes : Volumes := {| VolumeName := fun _ => ""; sameWord := String.eqb |}.
#[local] Instance boot_manifest : ManifestText := {|
  decode_manifest _ := Ok sample_manifest; manifest_trailer _ := TrailerEOF; runtime_Version := "go1.25.0" |}.

(** Every step succeeds but for the component [broken]. *)
Definition boot_answers (broken : option component) (c : bcall) (_ : list (event bresp)) : bresp c :=
  match c with
  | Getenv _ => "/etc/ci-runner.yaml"
  | UserConfigDir => Err (ErrNew "no directory")
  | LoadConfig => Ok (full_config, ["a warning"])
  | Build c => if bool_decide (broken = Some c) then Some (ErrNew "broken") else None
  | OpenConfig _ | CloseConfig | EmitConfig _ | EmitRelease _ | VerifySecretACL _ | OpenLogs _ | RunLoop
  | NewControlClient | NewApplication => None
  | EmitConfigError _ | BootOut _ | BootErr _ | LogEvent _ _ | CloseLogs | CloseComponent _ => tt
  | RunApplication _ => 0
  | InPaths c => private_answers c []
  | InTelemetry c => library_answers c []
  end.

Definition boot_run (broken : option component) : list (event bresp) * option error :=
  irun (boot_answers broken) (RunControllerMain "1.2.3" (fun _ => None) []) [].

Lemma boot_runs broken : iruns (RunControllerMain "1.2.3" (fun _ => None) []) (fst (boot_run broken)) (snd (boot_run broken)).
Proof. apply (irun_iruns (boot_answers broken) _ []). apply surjective_pairing. Qed.

Lemma controller_releases_everything_witness :
  snd (boot_run None) = None
  /\ ev (CloseComponent ScaleSetClient) tt ∈ fst (boot_run (Some WorkerRuntime))
  /\ exists s, follow boot_step nothing_held (fst (boot_run (Some WorkerRuntime))) = Some s /\ he_Components s = [].
Proof.
  split; [vm_compute; reflexivity|]. split; [vm_compute; repeat first [left; done|right]|].
  destruct (controller_releases_everything "1.2.3" (fun _ => None) [] _ _ (boot_runs (Some WorkerRuntime))) as (s & Hf & _ & _ & Hc & _). eauto.
Defined.

Definition loaded_config (e : event bresp) : option Config := match e with existT LoadConfig (Ok (cfg, _)) => Some cfg | _ => None end.

Lemma loaded_config_in (l : list (event bresp)) cfg warnings : ev LoadConfig (Ok (cfg, warnings)) ∈ l -> cfg ∈ omap loaded_config l.
Proof. intros Hl. apply list_elem_of_omap. by exists (ev LoadConfig (Ok (cfg, warnings))). Qed.

Lemma controller_starts_private_witness :
  ev (VerifySecretACL "C:\ci\secrets") None ∈ take 67 (fst (boot_run None)) /\ ev (InPaths (VVerify "D:\diagnostics")) None ∈ take 67 (fst (boot_run None)).
Proof.
  assert (Hcfg : omap loaded_config (take 67 (fst (boot_run None))) = [full_config]) by (vm_compute; reflexivity).
  assert (Hsplit : fst (boot_run None) = take 67 (fst (boot_run None)) ++ ev (OpenLogs "D:\logs/controller") None :: drop 68 (fst (boot_run None)))
    by (vm_compute; reflexivity).
  destruct (controller_starts_private "1.2.3" (fun _ => None) [] _ _ _ _ _ (boot_runs None) Hsplit eq_refl) as (cfg & warnings & Hl & Hd & Hs & _).
  apply loaded_config_in in Hl. rewrite Hcfg in Hl. apply list_elem_of_singleton in Hl as ->. split; [exact Hs|]. rewrite !Forall_cons in Hd. apply Hd.
Defined.
