(* ===== verification/Wiring.v ===== *)
(** The construction of the reconciler (controller/reconciler.go,
    [NewReconciler]) and what a validated configuration gives the components that
    use it: the reconciler's retries and watcher, and the Docker runtime that
    executes its starts. *)

From S2P Require Import Prelude Float64 GoStrings Regexp GoText Model Config Validate ValidateFacts ConfigSamples PlanGates Plan Errors Effects Retry Reconciler Interaction ScaleSet Evidence Docker.
#[local] Open Scope Z_scope.

(** The state of a new reconciler. *)
Definition initial_state : StepState := {|
  st_drainCapacity := ∅; st_sequence := 0; st_pendingCapacity := ∅; st_engineMemoryTotal := 0; st_inputIdle := None;
  st_finalAdmissionAttempt := false; st_registrationCheckCursor := 0; st_retirementCursor := 0; st_staleHandshakeCycles := 0;
  st_reregisterListeners := false; st_heartbeat := 0; st_lastTickNanos := 0; st_capLogged := capStateUnknown;
  st_operationErrors := []; st_operationProblems := [] |}.

(** [NewReconciler]: what it fixes, the interval of the safety watcher and the
    first state.  [deps] says whether every required dependency is present;
    logs, telemetry and engine memory have defaults. *)
Definition NewReconciler `{URLs, Unicode, MapRange} (cfg : Config) (version buildVersion : string) (deps : bool)
    : result string (Env * duration * StepState) :=
  match Config_Validate cfg with
  | Some e => Err e
  | None =>
      if negb deps then Err "controller dependencies must not be nil"
      else
        let re := gh_Retry (c_GitHub cfg) in
        let interval := co_ReconcileInterval (c_Controller cfg) in
        let watchInterval := if (interval <=? 0) || (Second <? interval) then Second else interval in
        let backoff := mkBackoffPolicy (rt_Initial re) (rt_Maximum re) (rt_Multiplier re) (rt_JitterRatio re) (rt_MaxAttempts re)
                         (Some cryptoJitter) in
        Ok (mkEnv cfg (if String.eqb version "" then buildVersion else version) backoff, watchInterval, initial_state)
  end.

Section NewReconciler.
Context {urls : URLs} {unicode : Unicode} {order : MapRange}.

Lemma NewReconciler_validates cfg version buildVersion deps env watch s :
  NewReconciler cfg version buildVersion deps = Ok (env, watch, s) ->
  valid_config cfg /\ en_config env = cfg /\ BackoffPolicy_validate (en_backoff env) = true /\ 0 < watch <= Second.
Proof.
  unfold NewReconciler. destruct (Config_Validate cfg) eqn:Hv; [done|]. apply Config_Validate_decides in Hv.
  destruct deps; [|done]. cbv zeta. simpl. intros [= <- <- <-]. split; [done|]. split; [done|].
  destruct (vc_retry _ Hv) as ([H1 H2] & (H3 & H4 & H5) & (H6 & H7 & _) & H8). destruct (vc_controller _ Hv) as [H9 _].
  split.
  - unfold BackoffPolicy_validate. simpl. rewrite H3, H4, H5, H6, H7, !orb_false_r.
    destruct (Z.leb_spec (rt_Initial (gh_Retry (c_GitHub cfg))) 0); [lia|].
    destruct (Z.ltb_spec (rt_Maximum (gh_Retry (c_GitHub cfg))) (rt_Initial (gh_Retry (c_GitHub cfg)))); [lia|].
    by destruct (Z.leb_spec (rt_MaxAttempts (gh_Retry (c_GitHub cfg))) 0); [lia|].
  - destruct (Z.leb_spec (co_ReconcileInterval (c_Controller cfg)) 0); [lia|].
    destruct (Z.ltb_spec Second (co_ReconcileInterval (c_Controller cfg))); simpl; unfold Second in *; lia.
Qed.

(** A configured worker profile is well formed, overridden or not. *)
Lemma configured_worker_ok cfg t :
  valid_config cfg -> t ∈ c_Targets cfg -> worker_ok (EffectiveWorker t (r_Worker (c_Resources cfg))).
Proof.
  intros Hv Ht. pose proof (vc_targets _ Hv) as Hall. rewrite Forall_forall in Hall. specialize (Hall t Ht).
  destruct (t_ResourcesWorker t) as [w|] eqn:Hw.
  - apply (to_worker _ _ Hall). by rewrite Hw.
  - unfold EffectiveWorker. rewrite Hw. by destruct (vc_resources _ Hv) as (_ & ? & _).
Qed.

Lemma find_target cfg pool p :
  WorkerForTarget cfg pool = Some p ->
  exists t, List.find (fun t => String.eqb (t_ID t) pool) (c_Targets cfg) = Some t /\ t ∈ c_Targets cfg /\ t_ID t = pool
            /\ p = EffectiveWorker t (r_Worker (c_Resources cfg)).
Proof.
  unfold WorkerForTarget. destruct (List.find _ _) as [t|] eqn:Hf; [|done]. intros [= <-]. exists t.
  apply List.find_some in Hf as Hf'. destruct Hf' as [Hin Heq]. apply String.eqb_eq in Heq. by rewrite <- list_elem_of_In in Hin.
Qed.

Lemma prefixPattern_nonempty s : lang prefixPattern s -> s <> "".
Proof. intros Hl ->. apply MatchString_lang in Hl. by vm_compute in Hl. Qed.

(** Configuration, reconciler and Docker runtime agree: whatever the
    reconciler of a constructed configuration starts for a target, with memory
    and processors within Docker's integers, passes the runtime's checks of a
    start request, and its seccomp profile is one the program embeds. *)
Theorem configured_start_is_accepted `{Profiles} cfg version buildVersion deps env watch s pool limits name jit :
  NewReconciler cfg version buildVersion deps = Ok (env, watch, s) ->
  WorkerForTarget (en_config env) pool = Some limits ->
  wp_MemorySwap limits <= max_i64 -> f64_lt maximum_cpus (wp_CPUs limits) = false -> name <> "" ->
  let request := mkStartWorkerRequest pool name (resourceTier (en_config env) pool) jit limits (SeccompProfileForTarget (en_config env) pool) in
  validateLimits request = None
  /\ workerSecurityOpt (sw_SeccompProfile request)
     = (if String.eqb (sw_SeccompProfile request) "" then Ok []
        else match userNSProfile with Ok text => Ok ["seccomp=" +:+ text] | Err e => Err e end).
Proof.
  intros (Hv & -> & _)%NewReconciler_validates Hw Hswap Hcpu Hname. cbv zeta.
  apply find_target in Hw as (t & Hf & Ht & Hid & ->). pose proof (vc_targets _ Hv) as Hall. rewrite Forall_forall in Hall.
  specialize (Hall t Ht). destruct (configured_worker_ok cfg t Hv Ht) as (H1 & _ & _ & H4 & H5 & H6). split.
  - assert (Hpool : pool <> "") by (subst pool; by apply prefixPattern_nonempty, (to_id _ _ Hall)).
    unfold validateLimits, resourceTier. cbn [sw_PoolID sw_Name sw_ResourceTier sw_Limits]. rewrite Hf, H1, Hcpu.
    rewrite (proj2 (String.eqb_neq _ _) Hpool), (proj2 (String.eqb_neq _ _) Hname). cbn [orb].
    assert (Htier : is_text (match t_ResourcesWorker t with Some _ => "target_override" | None => "default" end) ["default"; "target_override"; "unknown"] = true)
      by (by destruct (t_ResourcesWorker t)).
    rewrite Htier. cbn [negb].
    destruct (Z.eqb_spec (wp_Memory (EffectiveWorker t (r_Worker (c_Resources cfg)))) 0); [done|].
    destruct (Z.ltb_spec (wp_MemorySwap (EffectiveWorker t (r_Worker (c_Resources cfg)))) (wp_Memory (EffectiveWorker t (r_Worker (c_Resources cfg))))); [lia|].
    destruct (Z.leb_spec (wp_PIDs (EffectiveWorker t (r_Worker (c_Resources cfg)))) 0); [lia|].
    destruct (Z.ltb_spec max_i64 (wp_Memory (EffectiveWorker t (r_Worker (c_Resources cfg))))); [lia|].
    by destruct (Z.ltb_spec max_i64 (wp_MemorySwap (EffectiveWorker t (r_Worker (c_Resources cfg))))); [lia|].
  - cbn [sw_SeccompProfile]. unfold workerSecurityOpt, seccomp_Profile, SeccompProfileForTarget. rewrite Hf.
    destruct (to_seccomp _ _ Hall) as [-> | ->]; [done|]. change (String.eqb UserNS "") with false. by rewrite String.eqb_refl.
Qed.
End NewReconciler.

Module WiringSamples.
#[local] Instance embedded_profile : Profiles := {|
  moby_document := None; moby_syscalls := Ok [Ok (mkRule ["clone"] 1 "clone-rule")]; user_ns_rules := [Ok "user-ns-rule"];
  encode_document := fun rules => Ok (Join "," rules) |}.

Definition org_limits : WorkerProfile := EffectiveWorker (full_target "org") (r_Worker (c_Resources full_config)).

Definition full_env : Env :=
  mkEnv full_config "v1" (mkBackoffPolicy Second (60 * Second) (f64_of_Z 2) f64_0 3 (Some cryptoJitter)).

Lemma full_reconciler : NewReconciler full_config "v1" "dev" true = Ok (full_env, Second, initial_state).
Proof.
  unfold NewReconciler. assert (Hv : Config_Validate full_config = None) by (vm_compute; reflexivity). rewrite Hv. reflexivity.
Qed.

Lemma configured_start_is_accepted_witness :
  validateLimits (mkStartWorkerRequest "org" "runner-1" (resourceTier full_config "org") (mkJITConfig "jit" 1) org_limits
                    (SeccompProfileForTarget full_config "org")) = None.
Proof.
  apply (configured_start_is_accepted full_config "v1" "dev" true full_env Second initial_state "org" org_limits "runner-1"
           (mkJITConfig "jit" 1) full_reconciler).
  - reflexivity.
  - vm_compute. discriminate.
  - vm_compute. reflexivity.
  - discriminate.
Defined.
End WiringSamples.
